(* ===== verification/_CoqProject ===== *)
-Q . S2P
Prelude.v
Outcome.v
CpuMap.v
CpuMapSpec.v
Topology.v
TopologySpec.v
TopologyClaims.v
Dispatch.v
CfsRq.v
CfsSched.v
CfsBasics.v
CfsInv.v
CfsOps.v
CfsHandlers.v
CfsMessages.v
CfsPick.v
CfsBalance.v
CfsSystem.v
CfsClaims.v
Placement.v
Fifo.v
FifoHandlers.v
FifoMessages.v
FifoSystem.v
FifoClaims.v
Deals.v
Central.v
CentralInv.v
CentralMessages.v
CentralDeal.v
CentralPass.v
CentralSystem.v
CentralClaims.v
Txn.v
Sol.v
SolOps.v
SolHandlers.v
SolMessages.v
SolPass.v
SolSystem.v
SolClaims.v
MemCue.v
MemCueSpec.v
MemCueClaims.v
IpcCue.v
PrioTable.v
PrioTableSpec.v
Shin.v
ShinOps.v
ShinTurn.v
ShinPass.v
ShinClaims.v
Edf.v
EdfHeap.v
EdfOps.v
EdfSafe.v
EdfTurn.v
EdfPass.v
EdfClaims.v
Avl.v
AvlRep.v
AvlInsert.v
AvlInv.v
AvlInsertSpec.v
AvlDelete.v
AvlDeleteSpec.v
AvlSpec.v
ArrStructs.v
Queue.v
QueueSpec.v
FluxState.v
RociFlux.v
BiffFlux.v
FluxApi.v
FluxCpuInv.v
FluxCpuSafe.v
FluxThreads.v
FluxThreadSteps.v
FluxThreadSafe.v
FluxSpec.v
