(* ===== verification/Prelude.v ===== *)
(** * A verification of the ghOSt userspace schedulers

    ghOSt delegates the scheduling of a class of Linux threads to userspace.
    The kernel sends messages about those threads; an agent (a userspace
    process) or a set of BPF programs keeps the queues and tells the kernel
    which thread to run on which CPU.  This development models the decision
    making of that software and proves it correct: what the state of each
    scheduler is after any message, that no thread is lost, and which thread
    runs next.  What the kernel, the C library and the hardware answer is a
    parameter throughout.

    ** The parts and their files

    - Prelude, Outcome: machine integers, automation, generic list lemmas; the
      error type of the C++ models (a failed CHECK, a use after free, an index
      out of bounds), the state monad over it, and its weakest preconditions
      [wp] (the program ends without an error and satisfies the postcondition).

    - CPU lists and topology (src/userspace/lib/topology.h, topology.cc).
      CpuMap is the bitmap of [CpuList] with its iterator and its printing;
      CpuMapSpec proves the views of a list and the printed mask equal to the ascending list of set bits; Topology has the two
      constructors, TopologySpec their invariant, TopologyClaims the theorems.

    - The dispatcher and the task allocator (lib/scheduler.h, lib/channel.h).
      Dispatch: the class [SchedOps] is the interface between a scheduler and
      [BasicDispatchScheduler]: it lists the handlers; [DispatchMessage] and
      [DiscoverTasks] are proved and used against it.  [TaskAllocator] is the
      table from gtid to task; its heap tells a freed task from a live one, so
      that a use after free is a value of the model.

    - The CFS agent (schedulers/cfs/cfs_scheduler.h, .cc).  CfsRq: the task
      state machine, its trace, the records, the run queue of a CPU (an
      ordered set of addresses) and the migration queue; CfsSched: message
      handlers, CPU selection, load balancing, scheduling passes, the instance
      [Cfs_ops] of [SchedOps].  CfsBasics: trace, transitions, weights, slices.
      CfsInv is the invariant ([Abs], the abstract state: tasks, run queues and
      current tasks; [view], what it means for a concrete state; [abs_inv]).
      CfsOps has the rules of the primitive operations, CfsHandlers,
      CfsMessages, CfsPick (with the migration), CfsBalance one specification per operation, CfsSystem the step relation of the agents
      with the kernel, CfsClaims the theorems.

    - The agents on queues (schedulers/fifo).  Placement: the invariant they
      share, that each task is in exactly the queue its state names, the
      operations on such queues, and the class of laws a scheduler gives the
      dispatcher (each handler keeps the invariant on the messages the kernel
      may send), from which [dispatch_preserves] follows for every message.
      Fifo, FifoHandlers, FifoMessages, FifoSystem, FifoClaims: the per-CPU
      agents (fifo/per_cpu), from the model and its invariant to the step
      relation and the theorems.  Central, CentralInv, CentralMessages: the
      centralized agent (fifo/centralized); Deals: the search for another
      global CPU, and what a pass that deals tasks to CPUs is; CentralDeal,
      CentralPass: a scheduling pass, as a trace of what it deals;
      CentralSystem, CentralClaims: its steps and the theorems.

    - The SOL agent (schedulers/sol), which schedules through asynchronous
      transactions.  Txn: the transaction of a CPU (lib/enclave.h,
      lib/ghost.h) and the moves of one task between queues; Sol: the agent;
      SolOps: its invariant and primitive operations; SolHandlers, SolMessages:
      the handlers; SolPass: the loops of a pass, which read what the
      kernel made of the open transactions and deal the tasks; SolSystem: the
      steps of the agent and of the kernel; SolClaims: the theorems.

    - The table that applications share with the EDF and Shinjuku agents
      (shared/prio_table.h, .cc and [SchedParams] of edf/orchestrator.h).
      PrioTable: its layout; the stream of updated indices and the sequence
      lock of an item, as two machines whose steps are single accesses to the
      shared memory; PrioTableSpec: their invariants and the theorems.

    - The EDF agent (schedulers/edf), a global agent whose run queue is a
      binary heap and whose tasks follow that table.  Edf: the agent and the
      orchestrators, in which what a refresh reads is an answer of the
      environment.  EdfHeap: heaps as lists, and the two sifting loops;
      EdfOps: the invariant and the operations of the queue; EdfSafe: the
      callback that a change of the table runs, with [wpf] of Outcome, since
      an application can make it fail; EdfTurn: refreshes, handlers and the
      dispatcher; EdfPass: a scheduling pass, the turns of an agent and the
      reachable states; EdfClaims: the theorems.

    - The Shinjuku agent (schedulers/shinjuku), a global agent with a FIFO
      queue per QoS class, whose tasks follow such tables and whose unschedules
      may be deferred to the next pass.  Shin: the agent and its orchestrators;
      ShinOps: the invariant, which knows the tasks that a pass holds, and the
      operations of the queues; ShinTurn: refreshes, handlers and the
      dispatcher, with [wpf]; ShinPass: the two iterations of a pass, what
      follows the commit, the turns of an agent and the reachable states;
      ShinClaims: the theorems.

    - The cue channels of the CFS variants (schedulers/cfs_mem, cfs_ipc).
      MemCue: the slots in shared memory, written and read byte by byte;
      MemCueSpec: what one write and one poll do, and the invariant of their
      interleavings; MemCueClaims: the theorems.  IpcCue:
      the socket listener, its queue and the agents that drain it.

    - The BPF data structures (lib/avl.bpf.h, lib/queue.bpf.h,
      lib/arr_structs.bpf.h).  Avl: a doubly linked list on an abstract memory
      (that of the orphans), and every function of the AVL tree; AvlRep: what a
      tree in memory represents; AvlInsert ... AvlDeleteSpec: rotations,
      insertion and deletion; AvlSpec: the refinement to sorted
      lists; ArrStructs: ids and addresses; Queue, QueueSpec: the array list.

    - The Flux hierarchy (third_party/bpf/flux_*.c, roci_flux.bpf.c,
      biff_flux.bpf.c, idle_flux.bpf.c; schedulers/flux).  FluxState is the
      state of the maps, RociFlux and BiffFlux the schedulers, FluxApi the
      message handlers and pick-next-task.  FluxCpuInv, FluxCpuSafe: which scheduler holds which cpu.  FluxThreads (the abstract
      queue of tasks and the kernel's side of the protocol), FluxThreadSteps,
      FluxThreadSafe: the invariant of the tasks.
      FluxSpec: the step relation and the theorems.

    ** What the theorems show

    - Invariants over all reachable states: no task is lost or queued twice, in
      Flux ([flux_no_task_lost]), in the CFS agent ([cfs_no_task_lost]) and in
      the FIFO, SOL, EDF and Shinjuku agents ([fifo_no_task_lost],
      [central_no_task_lost], [sol_no_task_lost], [edf_no_task_lost],
      [shin_no_task_lost]); Flux's cpu accounting; the order of the CFS run
      queues.  In Flux the count of wanted cpus is exact but for the tasks that
      depart inside a switchto chain, each of which leaves it one too high; the
      invariant counts them.
    - Refinement: AVL trees to sorted lists of members; array lists to lists;
      Flux messages to an abstract queue; the messages of the CFS, FIFO and SOL
      agents to state machines over ordered queues; the heap of the EDF agent to
      a priority queue ([edf_queue_refines]); the map of deques of the
      Shinjuku agent to a FIFO queue per QoS ([shin_queue_refines]).
    - Completeness of steps: from every reachable state every message the
      kernel may send is handled without a failed assertion or a use after
      free, with the exact exceptions ([cfs_steps_complete],
      [fifo_steps_complete], [central_steps_complete], [sol_steps_complete]):
      a CFS queue with a freed task; in the per-CPU FIFO agents an association
      that the kernel refuses ([refused]); in SOL a switchto or a departure of
      a task that the agent preempted ([s_fatal]).
      In the EDF agent applications can cause failed checks, but neither a use
      after free nor a loop that does not end ([edf_turn_stops]).  In the
      Shinjuku agent the loops end too, and a use after free needs a thread
      group without a table or a table with repeating work ([shin_turn_stops],
      [shin_application_stops_agent]).
    - What is chosen: least vruntime, an allowed CPU with a shortest queue, the
      busiest CPU for balancing, the first queued task in Flux; in the
      centralized agent and in SOL the pairs of a CPU and a task a pass deals
      ([global_schedule_deals], [sol_schedule_deals]) and the next global CPU.
    - Channels: which cues reach a poller, whatever the interleaving
      ([mem_cues_at_most_once], [mem_cue_latest_delivered],
      [ipc_cues_exactly_once]).
    - The shared table: its regions are disjoint, no update is lost and all are
      seen, an accepted copy is not torn ([prio_table_layout],
      [prio_stream_no_update_lost], [prio_stream_drained],
      [prio_copy_untorn]).
    - Round trips and representation: topologies, cpumasks, CPU lists.
    - Errors: behaviours that contradict a comment or a test, each stated for
      every machine and reachable state and shown on a concrete one: what stops
      an agent ([edf_application_stops_agent], [shin_application_stops_agent],
      [sol_preempted_task_messages]), what an application can leave stale
      ([edf_qos_behind_queue]); that the level of tasks that could be
      unscheduled has no effect in the Shinjuku agent
      ([shin_could_unschedule_dead]).

    ** Bounds and fuel

    Loops over a list or over the words of a bitmap recurse on it.  Loops
    without such a measure take fuel, and a theorem shows that the fuel given
    is enough: the descent and the retracing of the AVL tree (its height, by
    the minimal size of a tree of that height), list iteration (the length of
    the array), the iterator of a CPU list (one more than the number of CPUs),
    pick-next-task in Flux (the restart bound of the code), discovery (two
    attempts), the deal of the centralized agents (each round uses up a CPU or a
    queued task, so their numbers and one more), a poll of the cues (one step
    per byte access; a bound on their number is part of the theorem), the
    sifting of the EDF queue (its length), the choice of its next task (one
    more than the length: each round takes a task out; so too in the Shinjuku
    agent), the doubling of an estimate (the logarithm of the elapsed runtime
    and two).  A refresh takes
    the number of rounds that the code itself allows.

    ** The order of the EDF queue

    [SchedDeadlineGreater] reads the QoS through a pointer into the copy of the
    table, and a refresh that fails can change it without a callback
    ([edf_qos_behind_queue]), so the queue need not be in heap order in every
    reachable state.  In every environment each operation of the queue keeps a
    heap a heap, and Dequeue takes a least task whenever the queue is a heap;
    that it is one in every reachable state is proved for the environments that
    are [steady] (no refresh meets an update in progress).

    ** What is not modelled

    - System calls, files of ghostfs and sysfs, shared memory, RPC, BPF
      loading, printing: I/O without decisions.
    - Locks and threads: the handlers of one CPU's agent run under the lock of
      its run queue, and the models interleave whole handlers, migrations and
      scheduling passes; the lockless reads of load balancing are taken in such
      a state.
    - Counters that would need 2^31 events to wrap in the cue channels and in
      the shared table: the runs considered are shorter.
    - Weak memory: the shared memory is sequentially consistent.
    - Transactions of the centralized FIFO and Shinjuku agents: a commit
      succeeds or fails, and the GHOST_ERROR of CommitRunRequests on a state
      that the kernel does not document is a failed commit.
    - The overflow of the highest NUMA node's successor: the number of that node
      is taken below the largest int.  The runs of AVL operations are over fewer
      ids than the least tree of the maximal height has members (the shipped
      sizes: 65535 against 75024); single insertions and deletions, where
      orphans arise, are proved without that bound.
    - Durations and times of absl in the EDF and Shinjuku agents, which are
      parameters.
    - Waiting in the agent loops, and the time that passes there.
    - Enclaves, status words, channels and the memory they map, beyond the
      transactions of SOL: files and ioctls of the kernel.
    - The proportional Flux scheduler and the standalone BPF schedulers (biff,
      cfs, edf), which rest on maps, ring buffers and trees of the kernel,
      which are not part of the program. *)

(** ** Notation, machine integers, automation *)

From stdpp Require Import base tactics numbers list functions sorting.
From Stdlib Require Import ZArith Lia.

Local Open Scope Z_scope.

(** ** Machine integers

    A C integer of width [w] is a [Z]; [u64], [u32], [s64] and [s32] are the
    conversions (and the wrap-around of an arithmetic result) at that width. *)

Definition u32 (x : Z) : Z := x mod 2 ^ 32.
Definition u64 (x : Z) : Z := x mod 2 ^ 64.
Definition s32 (x : Z) : Z := (x + 2 ^ 31) mod 2 ^ 32 - 2 ^ 31.
Definition s64 (x : Z) : Z := (x + 2 ^ 63) mod 2 ^ 64 - 2 ^ 63.

(** BPF's unsigned division: dividing by zero gives zero instead of trapping. *)
Definition bpf_udiv (a b : Z) : Z := if b =? 0 then 0 else a / b.

(** The C truth value of an integer or a pointer. *)
Definition truthy (x : Z) : bool := negb (x =? 0).
Definition b2z (b : bool) : Z := if b then 1 else 0.

Create HintDb ghost.

(** [destruct_hyps] splits conjunctions and existentials of the context. *)
Ltac destruct_hyps :=
  repeat match goal with
  | H : _ ∧ _ |- _ => destruct H
  | H : ∃ _, _ |- _ => destruct H
  end.

(** [zbool] turns the boolean comparisons of the code into arithmetic facts. *)
Ltac zbool :=
  repeat match goal with
  | H : (_ =? _) = true |- _ => apply Z.eqb_eq in H
  | H : (_ =? _) = false |- _ => apply Z.eqb_neq in H
  | H : (_ <? _) = true |- _ => apply Z.ltb_lt in H
  | H : (_ <? _) = false |- _ => apply Z.ltb_ge in H
  | H : (_ <=? _) = true |- _ => apply Z.leb_le in H
  | H : (_ <=? _) = false |- _ => apply Z.leb_gt in H
  end.

(** [zcase] splits on the next integer comparison of the goal. *)
Ltac zcase :=
  match goal with
  | |- context [?a =? ?b] => destruct (Z.eqb_spec a b)
  | |- context [?a <? ?b] => destruct (Z.ltb_spec a b)
  | |- context [?a <=? ?b] => destruct (Z.leb_spec a b)
  end.

(** ** Range facts of the machine integers *)

Lemma u64_range x : 0 ≤ u64 x < 2 ^ 64.
Proof. apply Z.mod_pos_bound. lia. Qed.

Lemma u32_range x : 0 ≤ u32 x < 2 ^ 32.
Proof. apply Z.mod_pos_bound. lia. Qed.

Lemma u64_small x : 0 ≤ x < 2 ^ 64 → u64 x = x.
Proof. apply Z.mod_small. Qed.

Lemma u32_small x : 0 ≤ x < 2 ^ 32 → u32 x = x.
Proof. apply Z.mod_small. Qed.

Lemma s64_range x : - 2 ^ 63 ≤ s64 x < 2 ^ 63.
Proof. unfold s64. pose proof (Z.mod_pos_bound (x + 2 ^ 63) (2 ^ 64)). lia. Qed.

Lemma s64_small x : - 2 ^ 63 ≤ x < 2 ^ 63 → s64 x = x.
Proof. intros. unfold s64. rewrite Z.mod_small; lia. Qed.

Lemma s32_add a b : s32 (s32 a + b) = s32 (a + b).
Proof. unfold s32. f_equal. Z.to_euclidean_division_equations. lia. Qed.

Lemma s64_add a b : s64 (s64 a + b) = s64 (a + b).
Proof. unfold s64. f_equal. Z.to_euclidean_division_equations. lia. Qed.

Lemma u64_idemp x : u64 (u64 x) = u64 x.
Proof. apply Z.mod_mod. lia. Qed.

(** ** Packing fields into a word *)

Lemma testbit_small b n i : 0 ≤ b < 2 ^ n → n ≤ i → Z.testbit b i = false.
Proof.
  intros Hb Hi. destruct (Z.eqb_spec b 0) as [->|]; [apply Z.bits_0|].
  apply Z.bits_above_log2; [lia|]. eapply Z.lt_le_trans; [|exact Hi].
  apply Z.log2_lt_pow2; lia.
Qed.

Lemma lor_shiftl_small a b n :
  0 ≤ n → 0 ≤ b < 2 ^ n → Z.lor (Z.shiftl a n) b = a * 2 ^ n + b.
Proof.
  intros Hn Hb.
  assert (Z.land (Z.shiftl a n) b = 0) as E.
  { apply Z.bits_inj'. intros i Hi. rewrite Z.land_spec, Z.bits_0, Z.shiftl_spec by done.
    destruct (Z.ltb_spec i n); [by rewrite Z.testbit_neg_r by lia|].
    by rewrite (testbit_small b n), andb_false_r. }
  rewrite <- Z.lxor_lor, <- Z.add_nocarry_lxor by done. by rewrite Z.shiftl_mul_pow2.
Qed.

(** ** Counting *)

(** How many elements of [l] satisfy [f]. *)
Definition countb {A} (f : A → bool) (l : list A) : Z :=
  foldr (λ x acc, b2z (f x) + acc) 0 l.

Lemma countb_range {A} (f : A → bool) l : 0 ≤ countb f l ≤ Z.of_nat (length l).
Proof. induction l as [|x l IH]; simpl; [lia|]. unfold b2z. destruct (f x); lia. Qed.

Lemma countb_ext {A} (f g : A → bool) l :
  (∀ x, x ∈ l → f x = g x) → countb f l = countb g l.
Proof.
  induction l as [|x l IH]; intros Hfg; simpl; [done|].
  rewrite Hfg by (by left). rewrite IH; [done|]. intros. apply Hfg. by right.
Qed.

(** Changing the value at one element of a list without duplicates. *)
Lemma countb_change {A} (f g : A → bool) l x :
  NoDup l → x ∈ l → (∀ y, y ∈ l → y ≠ x → f y = g y) →
  countb g l = countb f l - b2z (f x) + b2z (g x).
Proof.
  induction 1 as [|y l Hy Hnd IH]; intros Hx Hfg; [by apply not_elem_of_nil in Hx|].
  simpl. apply elem_of_cons in Hx as [->|Hx].
  - rewrite (countb_ext g f l); [lia|]. intros z Hz. symmetry. apply Hfg; [by right|].
    by intros ->.
  - rewrite IH; [|done|].
    + rewrite (Hfg y) by (by left || by intros ->). lia.
    + intros z Hz Hne. apply Hfg; [by right|done].
Qed.

#[export] Hint Resolve u64_range u32_range s64_range : ghost.
