(* ===== verification/Outcome.v ===== *)
(** * Outcome: computations that may abort the process

    The agents are C++ programs compiled with assertions on: a failed [CHECK]
    or [DCHECK] aborts the process, [GHOST_ERROR] does so with a message, and a
    read through a dangling pointer or past the end of an array is undefined.
    A computation over a state [S] therefore returns either a value and the new
    state or the [fault] that stopped it.  [wp] is its weakest precondition:
    "the computation does not abort and its result satisfies [Q]". *)

From S2P Require Import Prelude.
From stdpp Require Import gmap.
From Stdlib Require Import ZArith Lia.

Local Open Scope Z_scope.

Inductive fault :=
| CheckFailed        (* CHECK / DCHECK / an invalid state transition *)
| GhostError         (* GHOST_ERROR *)
| UseAfterFree       (* a dereference of null or of a freed object *)
| OutOfBounds        (* an array or vector index out of range *)
| OutOfFuel.         (* a loop ran past the bound of the model *)

Inductive outcome (A : Type) :=
| Ok (a : A)
| Crash (f : fault).

Global Arguments Ok {A} a.
Global Arguments Crash {A} f.

Global Instance fault_eq_dec : EqDecision fault.
Proof. solve_decision. Defined.

Global Instance outcome_ret : MRet outcome := @Ok.
Global Instance outcome_bind : MBind outcome :=
  λ A B f m, match m with Ok a => f a | Crash e => Crash e end.

Definition checkO (b : bool) : outcome unit := if b then Ok tt else Crash CheckFailed.

(** [m] succeeds with a value that satisfies [Q]. *)
Definition wpo {A} (m : outcome A) (Q : A → Prop) : Prop :=
  match m with Ok a => Q a | Crash _ => False end.

(** A loop that threads an accumulator, and one that only checks. *)
Fixpoint foldO {A B} (f : B → A → outcome B) (l : list A) (b : B) : outcome B :=
  match l with
  | [] => Ok b
  | x :: l => f b x ≫= foldO f l
  end.

Fixpoint forO {A} (f : A → outcome unit) (l : list A) : outcome unit :=
  match l with
  | [] => Ok tt
  | x :: l => f x ≫= λ _, forO f l
  end.

(** A loop that collects one value per element. *)
Fixpoint mapO {A B} (f : A → outcome B) (l : list A) : outcome (list B) :=
  match l with
  | [] => Ok []
  | x :: l => f x ≫= λ y, mapO f l ≫= λ r, Ok (y :: r)
  end.

(** ** State *)

Definition M (S A : Type) : Type := S → outcome (A * S).

Global Instance M_ret {S} : MRet (M S) := λ A a s, Ok (a, s).
Global Instance M_bind {S} : MBind (M S) := λ A B f m s,
  match m s with Ok (a, s') => f a s' | Crash e => Crash e end.

Section ops.
Context {S : Type}.

Definition get : M S S := λ s, Ok (s, s).
Definition gets {A} (f : S → A) : M S A := λ s, Ok (f s, s).
Definition modify (f : S → S) : M S unit := λ s, Ok (tt, f s).
Definition abort {A} (e : fault) : M S A := λ _, Crash e.
Definition check (b : bool) : M S unit := if b then mret tt else abort CheckFailed.
Definition lift {A} (m : outcome A) : M S A :=
  λ s, match m with Ok a => Ok (a, s) | Crash e => Crash e end.
Definition whenM (b : bool) (m : M S unit) : M S unit := if b then m else mret tt.

Fixpoint forM {A} (l : list A) (f : A → M S unit) : M S unit :=
  match l with
  | [] => mret tt
  | x :: l => f x ≫= λ _, forM l f
  end.
End ops.

Definition wp {S A} (m : M S A) (s : S) (Q : A → S → Prop) : Prop :=
  match m s with Ok (a, s') => Q a s' | Crash _ => False end.

Section wp.
Context {S : Type}.
Implicit Types s : S.

Lemma wp_ret {A} (a : A) s Q : Q a s → wp (mret a) s Q.
Proof. done. Qed.

Lemma wp_bind {A B} (m : M S A) (f : A → M S B) s Q :
  wp m s (λ a s', wp (f a) s' Q) → wp (m ≫= f) s Q.
Proof. unfold wp, mbind, M_bind. by destruct (m s) as [[a s']|]. Qed.

Lemma wp_bind_inv {A B} (m : M S A) (f : A → M S B) s Q :
  wp (m ≫= f) s Q → wp m s (λ a s', wp (f a) s' Q).
Proof. unfold wp, mbind, M_bind. by destruct (m s) as [[a s']|]. Qed.

Lemma wp_mono {A} (m : M S A) s (Q Q' : A → S → Prop) :
  wp m s Q → (∀ a s', Q a s' → Q' a s') → wp m s Q'.
Proof. unfold wp. destruct (m s) as [[a s']|]; auto. Qed.

(** Sequencing with a known specification of the first part. *)
Lemma wp_seq {A B} (m : M S A) (f : A → M S B) s (Q : A → S → Prop) R :
  wp m s Q → (∀ a s', Q a s' → wp (f a) s' R) → wp (m ≫= f) s R.
Proof. intros Hm Hf. apply wp_bind. eapply wp_mono; [exact Hm|]. auto. Qed.

Lemma wp_get s Q : Q s s → wp get s Q.
Proof. done. Qed.

Lemma wp_gets {A} (f : S → A) s Q : Q (f s) s → wp (gets f) s Q.
Proof. done. Qed.

Lemma wp_modify (f : S → S) s Q : Q tt (f s) → wp (modify f) s Q.
Proof. done. Qed.

Lemma wp_check b s Q : b = true → Q tt s → wp (check b) s Q.
Proof. by intros ->. Qed.

Lemma wp_lift {A} (m : outcome A) s Q : wpo m (λ a, Q a s) → wp (lift m) s Q.
Proof. unfold wp, lift. by destruct m. Qed.

Lemma wp_lift_ok {A B} (a : A) (f : A → M S B) s Q : wp (f a) s Q → wp (lift (Ok a) ≫= f) s Q.
Proof. done. Qed.

Lemma wp_when b (m : M S unit) s Q :
  (b = true → wp m s Q) → (b = false → Q tt s) → wp (whenM b m) s Q.
Proof. intros H1 H2. destruct b; [by apply H1|by apply H2]. Qed.

(** A loop preserves what its body preserves. *)
Lemma wp_forM {A} (l : list A) (f : A → M S unit) (I : list A → S → Prop) s :
  I l s →
  (∀ x l' s', I (x :: l') s' → wp (f x) s' (λ _, I l')) →
  wp (forM l f) s (λ _, I []).
Proof.
  intros HI Hf. revert s HI. induction l as [|x l IH]; intros s HI; simpl; [done|].
  eapply wp_seq; [by apply Hf|]. intros ? s' H. by apply IH.
Qed.

Lemma wp_ok {A} (m : M S A) s Q : wp m s Q → ∃ a s', m s = Ok (a, s') ∧ Q a s'.
Proof. unfold wp. destruct (m s) as [[a s']|]; [|done]. eauto. Qed.

Lemma wp_ok_unit (m : M S unit) s (Q : S → Prop) :
  wp m s (λ _ s', Q s') → ∃ s', m s = Ok (tt, s') ∧ Q s'.
Proof. intros H. apply wp_ok in H as ([] & s' & H). eauto. Qed.

Lemma wp_ok_eq {A} (m : M S A) s a s' : wp m s (λ a1 s1, a1 = a ∧ s1 = s') → m s = Ok (a, s').
Proof. intros H. apply wp_ok in H as (a1 & s1 & E & -> & ->). done. Qed.

Lemma wp_ok_intro {A} (m : M S A) s a s' (Q : A → S → Prop) :
  m s = Ok (a, s') → Q a s' → wp m s Q.
Proof. unfold wp. by intros ->. Qed.
End wp.

(** What precedes an abort completes. *)
Lemma crash_bind {S A B} (m : M S A) (f : A → M S B) s e :
  wp m s (λ a s', f a s' = Crash e) → (m ≫= f) s = Crash e.
Proof. unfold wp, mbind, M_bind. by destruct (m s) as [[a s']|]. Qed.

(** Partial correctness: "if [m] does not abort, its result satisfies [Q]". *)
Definition wlp {S A} (m : M S A) (s : S) (Q : A → S → Prop) : Prop :=
  match m s with Ok (a, s') => Q a s' | Crash _ => True end.

Lemma wlp_seq {S A B} (m : M S A) (f : A → M S B) s (Q : A → S → Prop) R :
  wlp m s Q → (∀ a s', Q a s' → wlp (f a) s' R) → wlp (m ≫= f) s R.
Proof. unfold wlp, mbind, M_bind. intros Hm Hf. destruct (m s) as [[a s1]|]; [by apply Hf|done]. Qed.

Lemma wlp_if {S A} (b : bool) (m m' : M S A) s Q : wlp m s Q → wlp m' s Q → wlp (if b then m else m') s Q.
Proof. by destruct b. Qed.

(** "If [m] aborts, then by one of the faults of [F], else its result satisfies
    [Q]": between [wp] (no fault) and [wlp] (any).  Without [OutOfFuel] in [F] it
    says that the loops of [m] end. *)
Definition wpf {S A} (F : fault → Prop) (m : M S A) (s : S) (Q : A → S → Prop) : Prop :=
  match m s with Ok (a, s') => Q a s' | Crash f => F f end.

Section wpf.
Context {S : Type} (F : fault → Prop).
Implicit Types s : S.

Lemma wpf_wp {A} (m : M S A) s Q : wp m s Q → wpf F m s Q.
Proof. unfold wp, wpf. by destruct (m s) as [[a s']|]. Qed.

Lemma wpf_ret {A} (a : A) s Q : Q a s → wpf F (mret a) s Q.
Proof. done. Qed.

Lemma wpf_bind {A B} (m : M S A) (f : A → M S B) s Q :
  wpf F m s (λ a s', wpf F (f a) s' Q) → wpf F (m ≫= f) s Q.
Proof. unfold wpf, mbind, M_bind. by destruct (m s) as [[a s']|]. Qed.

Lemma wpf_result {A} (m : M S A) s a s' Q : wpf F m s Q → m s = Ok (a, s') → Q a s'.
Proof. unfold wpf. intros H E. by rewrite E in H. Qed.

Lemma wpf_mono {A} (m : M S A) s (Q Q' : A → S → Prop) : wpf F m s Q → (∀ a s', Q a s' → Q' a s') → wpf F m s Q'.
Proof. unfold wpf. destruct (m s) as [[a s']|]; auto. Qed.

Lemma wpf_seq {A B} (m : M S A) (f : A → M S B) s (Q : A → S → Prop) R :
  wpf F m s Q → (∀ a s', Q a s' → wpf F (f a) s' R) → wpf F (m ≫= f) s R.
Proof. intros Hm Hf. apply wpf_bind. eapply wpf_mono; [exact Hm|]. auto. Qed.

Lemma wpf_assoc {A B C} (m : M S A) (f : A → M S B) (g : B → M S C) s Q :
  wpf F ((m ≫= f) ≫= g) s Q → wpf F (m ≫= λ a, f a ≫= g) s Q.
Proof. unfold wpf, mbind, M_bind. by destruct (m s) as [[a s']|]. Qed.

Lemma wpf_gets {A} (f : S → A) s Q : Q (f s) s → wpf F (gets f) s Q.
Proof. done. Qed.

Lemma wpf_modify (f : S → S) s Q : Q tt (f s) → wpf F (modify f) s Q.
Proof. done. Qed.

Lemma wpf_abort {A} f s (Q : A → S → Prop) : F f → wpf F (abort f) s Q.
Proof. done. Qed.

Lemma wpf_check b s Q : F CheckFailed → (b = true → Q tt s) → wpf F (check b) s Q.
Proof. intros HF H. destruct b; [by apply H|done]. Qed.

Lemma wpf_lift {A} (m : outcome A) s Q : (∀ a, m = Ok a → Q a s) → (∀ f, m = Crash f → F f) → wpf F (lift m) s Q.
Proof. intros H1 H2. unfold wpf, lift. destruct m; auto. Qed.

Lemma wpf_when b (m : M S unit) s Q : (b = true → wpf F m s Q) → (b = false → Q tt s) → wpf F (whenM b m) s Q.
Proof. intros H1 H2. destruct b; [by apply H1|by apply H2]. Qed.

Lemma wpf_forM {A} (l : list A) (f : A → M S unit) (I : list A → S → Prop) s :
  I l s → (∀ x l' s', I (x :: l') s' → wpf F (f x) s' (λ _, I l')) → wpf F (forM l f) s (λ _, I []).
Proof.
  intros HI Hf. revert s HI. induction l as [|x l IH]; intros s HI; simpl; [done|].
  eapply wpf_seq; [by apply Hf|]. intros ? s' H. by apply IH.
Qed.
End wpf.

Lemma wpo_bind {A B} (m : outcome A) (f : A → outcome B) Q :
  wpo m (λ a, wpo (f a) Q) → wpo (m ≫= f) Q.
Proof. by destruct m. Qed.

Lemma wpo_ok {A} (m : outcome A) Q : wpo m Q → ∃ a, m = Ok a ∧ Q a.
Proof. destruct m; simpl; [eauto|done]. Qed.

(** The accumulator loop keeps an invariant over the elements consumed. *)
Lemma wpo_foldO {A B} (f : B → A → outcome B) (P : list A → B → Prop) pre l b :
  P pre b →
  (∀ d x r b, pre ++ l = d ++ x :: r → P d b → wpo (f b x) (P (d ++ [x]))) →
  wpo (foldO f l b) (P (pre ++ l)).
Proof.
  revert pre b. induction l as [|x l IH]; intros d b Hb Hf; simpl.
  - by rewrite app_nil_r.
  - apply wpo_bind. pose proof (Hf d x l b eq_refl Hb) as H.
    destruct (f b x) as [b'|]; simpl in *; [|done].
    replace (d ++ x :: l) with ((d ++ [x]) ++ l) by (by rewrite <- app_assoc).
    apply IH; [done|]. intros d' x' r' b'' E Hp. apply (Hf d' x' r'); [|done].
    by rewrite <- E, <- app_assoc.
Qed.

Lemma forO_ok {A} (f : A → outcome unit) l : (∀ x, x ∈ l → f x = Ok tt) → forO f l = Ok tt.
Proof.
  induction l as [|x l IH]; intros H; simpl; [done|].
  rewrite H by left. apply IH. intros y Hy. apply H. by right.
Qed.

Lemma mapO_ok {A B} (f : A → outcome B) (g : A → B) l :
  (∀ x, x ∈ l → f x = Ok (g x)) → mapO f l = Ok (g <$> l).
Proof.
  induction l as [|x l IH]; intros H; simpl; [done|].
  rewrite H by left. simpl. rewrite IH; [done|]. intros y Hy. apply H. by right.
Qed.

(** One step of a computation: the rule of its head operation. *)
Ltac wpstep :=
  lazymatch goal with
  | |- wp (mbind _ _) _ _ => apply wp_bind
  | |- wp (mret _) _ _ => apply wp_ret
  | |- wp get _ _ => apply wp_get
  | |- wp (gets _) _ _ => apply wp_gets
  | |- wp (modify _) _ _ => apply wp_modify
  | |- wp (check _) _ _ => apply wp_check
  | |- wp (lift _) _ _ => apply wp_lift
  | |- wp (whenM _ _) _ _ => apply wp_when
  end.

#[export] Hint Resolve wp_ret wp_get wp_gets wp_modify : ghost.

(** The same for [wpf]. *)
Ltac fstep :=
  lazymatch goal with
  | |- wpf _ (mbind _ _) _ _ => apply wpf_bind
  | |- wpf _ (mret _) _ _ => apply wpf_ret
  | |- wpf _ (gets _) _ _ => apply wpf_gets
  | |- wpf _ (modify _) _ _ => apply wpf_modify
  | |- wpf _ (lift _) _ _ => apply wpf_lift
  | |- wpf _ (whenM _ _) _ _ => apply wpf_when
  | |- wpf _ (if ?b then _ else _) _ _ => destruct b eqn:?
  end.
