(* ===== verification/CpuMap.v ===== *)
(** * CpuMap: the bitmap of CPUs (lib/topology.h, lib/topology.cc)

    [CpuList] is an array of [kMapCapacity] 64-bit words of which the topology
    uses the first [map_size_].  The file models every operation on it: the
    word-wise set operations, the single-bit ones, the search of the n-th CPU,
    the iterator that range-based [for] loops use, and the printing as a Linux
    cpumask.  An index out of range fails the [DCHECK] that guards it. *)

From S2P Require Import Prelude Outcome.
From stdpp Require Import gmap.
From Stdlib Require Import ZArith Lia Ascii.

Local Open Scope Z_scope.

(** ** Constants and representation *)

Definition MAX_CPUS : Z := 512.
Definition kIntsBits : Z := 64.
Definition kMapCapacity : Z := MAX_CPUS / kIntsBits.

(** The state of a [CpuList]: its words, the number of words in use, and the
    number of CPUs of the topology it points to. *)
Record CpuList := mkCpuList {
  bitmap_internal_ : list Z;
  map_size_ : Z;
  topology_num_cpus : Z
}.

Definition set_bitmap (m : list Z) (l : CpuList) : CpuList :=
  mkCpuList m (map_size_ l) (topology_num_cpus l).

(** [CpuMap::CpuMap] and the zero-initialised array of [CpuList]. *)
Definition CpuMap_new (num_cpus : Z) : outcome CpuList :=
  let map_size := (num_cpus + kIntsBits - 1) / kIntsBits in
  checkO (map_size <=? kMapCapacity) ≫= λ _,
  Ok (mkCpuList (replicate (Z.to_nat kMapCapacity) 0) map_size num_cpus).

(** ** Compiler builtins on 64-bit words *)

(** The positions of the set bits of a word, lowest first. *)
Definition bits (w : Z) : list Z := List.filter (Z.testbit w) (seqZ 0 64).

#[global] Strategy expand [bits].

Definition popcount (w : Z) : Z := Z.of_nat (length (bits w)).

(** [__builtin_ctzll]; undefined on zero, where the code never calls it. *)
Definition ctzll (w : Z) : Z := hd 0 (bits w).

(** [~x] of a [uint64_t]. *)
Definition lnot64 (x : Z) : Z := Z.lxor x (2 ^ 64 - 1).

(** [1ULL << (id % kIntsBits)] *)
Definition id_mask (id : Z) : Z := u64 (Z.shiftl 1 (id mod kIntsBits)).

(** ** Words *)

(** [bitmap_internal_[i]] for an index inside the array. *)
Definition word (bm : list Z) (i : Z) : Z := nth (Z.to_nat i) bm 0.

Definition GetNthMap (l : CpuList) (n : Z) : outcome Z :=
  checkO (0 <=? n) ≫= λ _, checkO (n <? kMapCapacity) ≫= λ _,
  Ok (word (bitmap_internal_ l) n).

(** ** Bits *)

Definition check_id (id : Z) : outcome unit :=
  checkO (0 <=? id) ≫= λ _, checkO (id <? MAX_CPUS).

(** [CpuList::Set]: the [DCHECK]s and the read-modify-write of one word. *)
Definition CpuList_Set (id : Z) (l : CpuList) : outcome CpuList :=
  check_id id ≫= λ _,
  let bm := bitmap_internal_ l in
  let i := id / kIntsBits in
  Ok (set_bitmap (<[Z.to_nat i := Z.lor (word bm i) (id_mask id)]> bm) l).

Definition CpuList_Clear (id : Z) (l : CpuList) : outcome CpuList :=
  check_id id ≫= λ _,
  let bm := bitmap_internal_ l in
  let i := id / kIntsBits in
  Ok (set_bitmap (<[Z.to_nat i := Z.land (word bm i) (lnot64 (id_mask id))]> bm) l).

Definition CpuList_IsSet (id : Z) (l : CpuList) : outcome bool :=
  check_id id ≫= λ _,
  Ok (truthy (Z.land (word (bitmap_internal_ l) (id / kIntsBits)) (id_mask id))).

(** [AtomicCpuMap::TestAndClear]: one atomic [fetch_and] that reports whether
    the bit was set. *)
Definition TestAndClear (id : Z) (l : CpuList) : outcome (bool * CpuList) :=
  check_id id ≫= λ _,
  let mask := lnot64 (id_mask id) in
  let bm := bitmap_internal_ l in
  let i := id / kIntsBits in
  let old := word bm i in
  Ok (truthy (Z.land old (lnot64 mask)),
      set_bitmap (<[Z.to_nat i := Z.land old mask]> bm) l).

(** ** Whole-map queries *)

(** [CpuMap::Empty]: scan the used words for a non-zero one; [k] words remain. *)
Fixpoint CpuMap_Empty_loop (l : CpuList) (k : nat) (i : Z) : outcome bool :=
  match k with
  | O => Ok true
  | S k => GetNthMap l i ≫= λ w,
      if truthy w then Ok false else CpuMap_Empty_loop l k (i + 1)
  end.

Definition CpuMap_Empty (l : CpuList) : outcome bool :=
  CpuMap_Empty_loop l (Z.to_nat (map_size_ l)) 0.

(** [CpuMap::CountSetCpus]: the sum of the words' popcounts, a [uint32_t]. *)
Fixpoint CountSetCpus_loop (l : CpuList) (k : nat) (i ret : Z) : outcome Z :=
  match k with
  | O => Ok ret
  | S k => GetNthMap l i ≫= λ w,
      CountSetCpus_loop l k (i + 1) (u32 (ret + popcount w))
  end.

Definition CountSetCpus (l : CpuList) : outcome Z :=
  CountSetCpus_loop l (Z.to_nat (map_size_ l)) 0 0.

Definition CpuMap_Size (l : CpuList) : outcome Z := CountSetCpus l.

(** ** Set operations, word by word over the used prefix *)

(** [std::transform(bitmap, bitmap + map_size_, src, bitmap, f)] *)
Definition transform (f : Z → Z → Z) (n : nat) (a b : list Z) : list Z :=
  zip_with f (take n a) (take n b) ++ drop n a.

Definition CpuList_Intersection (src l : CpuList) : CpuList :=
  set_bitmap (transform Z.land (Z.to_nat (map_size_ l))
                (bitmap_internal_ l) (bitmap_internal_ src)) l.

Definition CpuList_Union (src l : CpuList) : CpuList :=
  set_bitmap (transform Z.lor (Z.to_nat (map_size_ l))
                (bitmap_internal_ l) (bitmap_internal_ src)) l.

Definition CpuList_Subtract (src l : CpuList) : CpuList :=
  set_bitmap (transform (λ a b, Z.land a (lnot64 b)) (Z.to_nat (map_size_ l))
                (bitmap_internal_ l) (bitmap_internal_ src)) l.

(** [operator==]: [memcmp] of the used words. *)
Definition CpuList_eqb (a b : CpuList) : bool :=
  let n := Z.to_nat (map_size_ a) in
  bool_decide (take n (bitmap_internal_ a) = take n (bitmap_internal_ b)).

(** [operator+], [operator+=], [operator-], [operator-=] *)
Definition CpuList_add (lhs rhs : CpuList) : CpuList := CpuList_Union rhs lhs.
Definition CpuList_sub (lhs rhs : CpuList) : CpuList := CpuList_Subtract rhs lhs.

(** ** The n-th CPU *)

(** [Topology::cpu], by its id. *)
Definition Topology_cpu (num_cpus id : Z) : outcome Z :=
  checkO (0 <=? id) ≫= λ _, checkO (id <? num_cpus) ≫= λ _, Ok id.

(** [word &= word - 1], [n] times: drop the [n] lowest set bits. *)
Fixpoint clear_lowest (n : nat) (w : Z) : Z :=
  match n with
  | O => w
  | S n => clear_lowest n (Z.land w (u64 (w - 1)))
  end.

(** [CpuList::GetNthCpu]: [None] is the uninitialised CPU. *)
Fixpoint GetNthCpu_loop (l : CpuList) (k : nat) (i n : Z) : outcome (option Z) :=
  match k with
  | O => Ok None
  | S k =>
      let w := word (bitmap_internal_ l) i in
      let count := popcount w in
      if count <=? n then GetNthCpu_loop l k (i + 1) (n - count)
      else
        Topology_cpu (topology_num_cpus l)
          (i * kIntsBits + ctzll (clear_lowest (Z.to_nat n) w)) ≫= λ c, Ok (Some c)
  end.

Definition GetNthCpu (n : Z) (l : CpuList) : outcome (option Z) :=
  GetNthCpu_loop l (Z.to_nat (map_size_ l)) 0 n.

Definition Front (l : CpuList) : outcome (option Z) := GetNthCpu 0 l.

(** The argument of [GetNthCpu] is a [uint32_t], so the [Size() - 1] of an
    empty list is 2^32 - 1. *)
Definition Back (l : CpuList) : outcome (option Z) :=
  CpuMap_Size l ≫= λ n, GetNthCpu (u32 (n - 1)) l.

(** [ToIntVector] / [ToVector]: the CPUs 0 .. Size()-1, stopping at the first
    invalid one. *)
Fixpoint ToIntVector_loop (l : CpuList) (k : nat) (i : Z) : outcome (list Z) :=
  match k with
  | O => Ok []
  | S k => GetNthCpu i l ≫= λ c,
      match c with
      | None => Ok []
      | Some c => ToIntVector_loop l k (i + 1) ≫= λ r, Ok (c :: r)
      end
  end.

Definition ToIntVector (l : CpuList) : outcome (list Z) :=
  CpuMap_Size l ≫= λ n, ToIntVector_loop l (Z.to_nat n) 0.

(** ** The iterator *)

(** [CpuMap::Iter]: the cursor [id_] and the CPU it points at. *)
Record Iter := mkIter { id_ : Z; cpu_ : option Z }.

(** The [while] of [FindNextSetBit]: [k] words are left, [w] is the current
    one with the bits already seen masked out. *)
Fixpoint FindNextSetBit_loop (l : CpuList) (k : nat) (map_idx w : Z) : outcome Iter :=
  match k with
  | O => Ok (mkIter (topology_num_cpus l) None)
  | S k =>
      if truthy w then
        let id := map_idx * kIntsBits + ctzll w in
        Topology_cpu (topology_num_cpus l) id ≫= λ c, Ok (mkIter id (Some c))
      else if map_idx + 1 <? map_size_ l
      then GetNthMap l (map_idx + 1) ≫= λ w', FindNextSetBit_loop l k (map_idx + 1) w'
      else FindNextSetBit_loop l k (map_idx + 1) w
  end.

Definition FindNextSetBit (l : CpuList) (id : Z) : outcome Iter :=
  let map_idx := id / kIntsBits in
  let bit_offset := Z.land id (kIntsBits - 1) in
  if map_size_ l <=? map_idx then Ok (mkIter (topology_num_cpus l) None)
  else
    GetNthMap l map_idx ≫= λ w,
    FindNextSetBit_loop l (Z.to_nat (map_size_ l - map_idx)) map_idx
      (Z.land w (u64 (Z.shiftl (2 ^ 64 - 1) bit_offset))).

(** [begin()] and the pre-increment. *)
Definition begin (l : CpuList) : outcome Iter := FindNextSetBit l 0.
Definition incr (l : CpuList) (it : Iter) : outcome Iter := FindNextSetBit l (id_ it + 1).

(** [end()] is an [Iter] constructed at [num_cpus]. *)
Definition end_ (l : CpuList) : outcome Iter := FindNextSetBit l (topology_num_cpus l).

(** The body-independent part of [for (const Cpu& cpu : list)]: the CPUs
    visited before the iterator compares equal to [end].  Dereferencing the
    uninitialised CPU is a null dereference. *)
Fixpoint iterate_from (l : CpuList) (fuel : nat) (it fin : Iter) : outcome (list Z) :=
  match fuel with
  | O => Crash OutOfBounds
  | S fuel =>
      if id_ it =? id_ fin then Ok []
      else match cpu_ it with
           | None => Crash UseAfterFree
           | Some c => incr l it ≫= λ it', iterate_from l fuel it' fin ≫= λ r, Ok (c :: r)
           end
  end.

Definition iterate (l : CpuList) : outcome (list Z) :=
  begin l ≫= λ b, end_ l ≫= λ e,
  iterate_from l (S (Z.to_nat (topology_num_cpus l))) b e.

(** ** Printing as a cpumask *)

(** The little-endian bytes of the used words. *)
Definition word_bytes (w : Z) : list Z :=
  (λ k, Z.land (Z.shiftr w (8 * k)) 255) <$> seqZ 0 8.

Definition bitmap_bytes (l : CpuList) : list Z :=
  mjoin (word_bytes <$> take (Z.to_nat (map_size_ l)) (bitmap_internal_ l)).

(** A lower-case hexadecimal digit, as [absl::Hex] prints a value below 16. *)
Definition hex_digit (n : Z) : ascii :=
  ascii_of_N (Z.to_N (if n <? 10 then 48 + n else 87 + n)).

(** Emit one nibble: suppressed while it is a leading zero. *)
Definition emit_nibble (st : list ascii * bool) (n : Z) : list ascii * bool :=
  let '(s, emitted) := st in
  if truthy n || emitted then (s ++ [hex_digit n], true) else (s, emitted).

(** The first loop of [CpuMaskStr], from the last byte to the first. *)
Definition mask_nibbles (bytes : list Z) : list ascii :=
  (foldl (λ st byte, emit_nibble (emit_nibble st (Z.shiftr byte 4)) (Z.land byte 15))
     ([], false) (rev bytes)).1.

(** The second loop: a comma whenever eight digits were emitted since the last. *)
Fixpoint mask_commas (s : list ascii) (til_next : Z) : list ascii :=
  match s with
  | [] => []
  | c :: s =>
      if til_next =? 0 then ","%char :: c :: mask_commas s 7
      else c :: mask_commas s (til_next - 1)
  end.

Definition CpuMaskStr (l : CpuList) : list ascii :=
  let s := mask_nibbles (bitmap_bytes l) in
  let m := Z.of_nat (length s) mod 8 in
  let ret := mask_commas s (if m =? 0 then 8 else m) in
  if truthy (Z.of_nat (length ret)) then ret else ["0"%char].
