(* ===== verification/CpuMapSpec.v ===== *)
(** * CpuMapSpec: what the bitmap operations compute

    The abstract value of a [CpuList] is the ascending list [elems] of the set
    CPUs.  Single-bit and word-wise operations are characterised by [bit], the
    searches, the iterator and the conversions by [elems].

    The printed cpumask denotes the bitmap.

    [CpuMaskStr] prints the words as the hexadecimal string that Linux reads as
    a cpumask.  [read_mask] is that reader (commas are separators); reading the
    printed string gives back the number whose bits are the map's. *)

From S2P Require Import Prelude Outcome CpuMap.
From stdpp Require Import gmap sorting.
From Stdlib Require Import ZArith Lia Ascii.

Local Open Scope Z_scope.

(** ** Lists *)

Lemma filter_fmap_z {A B} (f : B → bool) (g : A → B) l :
  List.filter f (g <$> l) = g <$> List.filter (f ∘ g) l.
Proof. induction l as [|x l IH]; csimpl; [done|]. rewrite IH. by destruct (f (g x)). Qed.

Lemma filter_ext_in {A} (f g : A → bool) l :
  (∀ x, x ∈ l → f x = g x) → List.filter f l = List.filter g l.
Proof.
  induction l as [|x l IH]; simpl; intros H; [done|].
  rewrite H by left. rewrite IH; [done|]. intros. apply H. by right.
Qed.

Lemma filter_none {A} (f : A → bool) l : (∀ x, x ∈ l → f x = false) → List.filter f l = [].
Proof.
  induction l as [|x l IH]; simpl; intros H; [done|]. rewrite (H x) by left. apply IH. intros y Hy. apply H. by right.
Qed.

Lemma elem_of_lfilter {A} (f : A → bool) l x : x ∈ List.filter f l ↔ x ∈ l ∧ f x = true.
Proof.
  induction l as [|y l IH]; simpl; [split; [intros H|intros [H _]]; by apply elem_of_nil in H|].
  destruct (f y) eqn:E; rewrite ?elem_of_cons, IH; intuition (subst; auto; congruence).
Qed.

Lemma filter_sorted {A} R (f : A → bool) l :
  StronglySorted R l → StronglySorted R (List.filter f l).
Proof.
  induction 1 as [|x l Hl IH Hx]; simpl; [constructor|].
  destruct (f x); [|done]. constructor; [done|].
  rewrite Forall_forall in *. intros y [Hy _]%elem_of_lfilter. auto.
Qed.

(** Dropping the first match: everything after it is unchanged. *)
Lemma filter_tail (f : Z → bool) l x r :
  NoDup l → List.filter f l = x :: r →
  List.filter (λ y, f y && negb (y =? x)) l = r.
Proof.
  induction 1 as [|a l Ha Hnd IH]; simpl; [done|].
  destruct (f a) eqn:E; simpl.
  - intros [= -> <-]. rewrite Z.eqb_refl; simpl. apply filter_ext_in.
    intros y Hy. destruct (Z.eqb_spec y x) as [->|]; [done|]. by rewrite andb_true_r.
  - apply IH.
Qed.

Lemma seqZ_sorted m n : StronglySorted Z.lt (seqZ m n).
Proof.
  unfold seqZ.
  assert (∀ k s, StronglySorted Z.lt ((λ i, Z.of_nat i + m) <$> seq s k)) as H; [|apply H].
  clear. induction k as [|k IH]; intros s; simpl; constructor; [apply IH|].
  rewrite Forall_forall. intros y (i & -> & Hi)%list_elem_of_fmap.
  apply elem_of_seq in Hi. lia.
Qed.

Lemma sorted_lt_nodup l : StronglySorted Z.lt l → NoDup l.
Proof.
  induction 1 as [|x l Hl IH Hx]; constructor; [|done].
  intros Hin. rewrite Forall_forall in Hx. specialize (Hx x Hin). lia.
Qed.

(** ** Bits of a word *)

Lemma u64_mask_range i : 0 ≤ i < 64 → u64 (Z.shiftl 1 i) = 2 ^ i.
Proof.
  intros Hi. rewrite Z.shiftl_1_l. apply u64_small.
  split; [lia|]. apply Z.pow_lt_mono_r; lia.
Qed.

Lemma id_mask_eq id : id_mask id = 2 ^ (id mod 64).
Proof. apply u64_mask_range. apply Z.mod_pos_bound. lia. Qed.

Lemma testbit_pow2 i j : 0 ≤ i → Z.testbit (2 ^ i) j = (i =? j).
Proof. intros. apply Z.pow2_bits_eqb. lia. Qed.

Lemma lnot64_spec x j : 0 ≤ j < 64 → Z.testbit (lnot64 x) j = negb (Z.testbit x j).
Proof.
  intros Hj. unfold lnot64. rewrite Z.lxor_spec.
  change (2 ^ 64 - 1) with (Z.ones 64). rewrite Z.ones_spec_low by lia. by destruct (Z.testbit x j).
Qed.

Lemma lnot64_high x j : 0 ≤ x < 2 ^ 64 → 64 ≤ j → Z.testbit (lnot64 x) j = false.
Proof.
  intros Hx Hj. unfold lnot64. rewrite Z.lxor_spec, (testbit_small x 64) by lia.
  change (2 ^ 64 - 1) with (Z.ones 64). by rewrite Z.ones_spec_high by lia.
Qed.

(** The C test of one bit. *)
Lemma test_mask w i : 0 ≤ i → truthy (Z.land w (2 ^ i)) = Z.testbit w i.
Proof.
  intros Hi. unfold truthy. destruct (Z.testbit w i) eqn:E.
  - destruct (Z.eqb_spec (Z.land w (2 ^ i)) 0) as [H|]; [|done].
    apply (f_equal (λ x, Z.testbit x i)) in H.
    rewrite Z.land_spec, E, testbit_pow2, Z.eqb_refl, Z.bits_0 in H by lia. done.
  - assert (Z.land w (2 ^ i) = 0) as ->; [|done].
    apply Z.bits_inj'. intros j Hj. rewrite Z.land_spec, testbit_pow2, Z.bits_0 by lia.
    destruct (Z.eqb_spec i j) as [<-|]; [by rewrite E|by rewrite andb_false_r].
Qed.

Lemma elem_of_bits w i : i ∈ bits w ↔ 0 ≤ i < 64 ∧ Z.testbit w i = true.
Proof. unfold bits. rewrite elem_of_lfilter, elem_of_seqZ. naive_solver lia. Qed.

Lemma bits_sorted w : StronglySorted Z.lt (bits w).
Proof. apply filter_sorted, seqZ_sorted. Qed.

Lemma bits_length w : (length (bits w) ≤ 64)%nat.
Proof.
  unfold bits. etransitivity; [apply filter_length_le|]. rewrite length_seqZ. lia.
Qed.

Lemma bits_nil w : 0 ≤ w < 2 ^ 64 → bits w = [] → w = 0.
Proof.
  intros Hw E. apply Z.bits_inj'. intros j Hj. rewrite Z.bits_0.
  destruct (Z.le_gt_cases 64 j); [by apply (testbit_small w 64)|].
  destruct (Z.testbit w j) eqn:Ht; [|done].
  assert (j ∈ bits w) as Hin by (apply elem_of_bits; lia || (split; [lia|done])).
  rewrite E in Hin. by apply elem_of_nil in Hin.
Qed.

Lemma bits_0 : bits 0 = [].
Proof. reflexivity. Qed.

Lemma truthy_bits w : 0 ≤ w < 2 ^ 64 → truthy w = negb (bool_decide (bits w = [])).
Proof.
  intros Hw. unfold truthy. destruct (Z.eqb_spec w 0) as [->|Hne]; [done|].
  rewrite bool_decide_false; [done|]. intros E. by apply Hne, bits_nil.
Qed.

(** [w & (w - 1)] drops the lowest set bit. *)
Lemma land_pred_testbit w i j :
  0 ≤ i → 0 ≤ j → Z.testbit w i = true → (∀ k, 0 ≤ k < i → Z.testbit w k = false) →
  0 ≤ w →
  Z.testbit (Z.land w (w - 1)) j = Z.testbit w j && negb (j =? i).
Proof.
  intros Hi Hj Ht Hlow Hw. rewrite Z.land_spec.
  destruct (Z.ltb_spec j i) as [|Hge]; [by rewrite Hlow by lia|].
  (* w = m * 2^i with m odd *)
  set (m := w / 2 ^ i).
  assert (w = m * 2 ^ i) as Ew.
  { subst m. rewrite <- Z.shiftr_div_pow2, <- Z.shiftl_mul_pow2 by lia.
    apply Z.bits_inj'. intros k Hk. rewrite Z.shiftl_spec by lia.
    destruct (Z.ltb_spec k i); [rewrite Hlow, Z.testbit_neg_r by lia; done|].
    rewrite Z.shiftr_spec by lia. f_equal. lia. }
  assert (Z.odd m = true) as Hodd.
  { subst m. rewrite <- Z.bit0_odd, <- Z.shiftr_div_pow2, Z.shiftr_spec by lia.
    by replace (0 + i) with i by lia. }
  assert (w - 1 = Z.lor (Z.shiftl (m - 1) i) (2 ^ i - 1)) as ->.
  { rewrite lor_shiftl_small by lia. lia. }
  rewrite Z.lor_spec, Z.shiftl_spec by lia.
  rewrite (testbit_small (2 ^ i - 1) i) by lia. rewrite orb_false_r.
  destruct (Z.eqb_spec j i) as [->|Hne]; simpl.
  - by rewrite Z.sub_diag, Z.bit0_odd, Z.odd_sub, Hodd.
  - rewrite andb_true_r.
    assert (Z.testbit w j = Z.testbit m (j - i)) as ->.
    { rewrite Ew at 1. by rewrite <- Z.shiftl_mul_pow2, Z.shiftl_spec by lia. }
    apply Z.odd_spec in Hodd as [q Hq].
    assert (Z.testbit (m - 1) (j - i) = Z.testbit m (j - i)) as ->.
    { replace (m - 1) with (2 * q) by lia. rewrite Hq.
      replace (j - i) with (Z.succ (j - i - 1)) by lia.
      by rewrite Z.testbit_even_succ, Z.testbit_odd_succ by lia. }
    by destruct (Z.testbit m (j - i)).
Qed.

(** A number without bits above 63 is a 64-bit word. *)
Lemma range_of_bits x : (∀ i, 64 ≤ i → Z.testbit x i = false) → 0 ≤ x < 2 ^ 64.
Proof.
  intros Hx. assert (x = x mod 2 ^ 64) as ->; [|apply Z.mod_pos_bound; lia].
  apply Z.bits_inj'. intros i Hi. destruct (Z.lt_ge_cases i 64).
  - by rewrite Z.mod_pow2_bits_low by lia.
  - by rewrite Z.mod_pow2_bits_high, Hx by lia.
Qed.

Lemma land_range a b : 0 ≤ a < 2 ^ 64 → 0 ≤ Z.land a b < 2 ^ 64.
Proof.
  intros Ha. apply range_of_bits. intros i Hi. by rewrite Z.land_spec, (testbit_small a 64) by lia.
Qed.

Lemma lor_range a b : 0 ≤ a < 2 ^ 64 → 0 ≤ b < 2 ^ 64 → 0 ≤ Z.lor a b < 2 ^ 64.
Proof.
  intros Ha Hb. apply range_of_bits. intros i Hi.
  by rewrite Z.lor_spec, (testbit_small a 64), (testbit_small b 64) by lia.
Qed.

Lemma bits_land_pred w i r :
  0 ≤ w < 2 ^ 64 → bits w = i :: r → bits (Z.land w (u64 (w - 1))) = r.
Proof.
  intros Hw E.
  assert (i ∈ bits w) as Hi by (rewrite E; by left).
  apply elem_of_bits in Hi as [Hi Ht].
  assert (w ≠ 0) by (intros ->; by rewrite Z.bits_0 in Ht).
  rewrite u64_small by lia.
  pose proof E as E'. unfold bits in E' |- *.
  etransitivity; [|exact (filter_tail (Z.testbit w) (seqZ 0 64) i r (NoDup_seqZ 0 64) E')].
  apply filter_ext_in. intros j Hj%elem_of_seqZ.
  apply land_pred_testbit; try lia; [done|].
  intros k Hk. destruct (Z.testbit w k) eqn:Hkt; [|done].
  assert (k ∈ bits w) as Hin by (apply elem_of_bits; split; [lia|done]).
  pose proof (bits_sorted w) as Hs. rewrite E in Hs, Hin.
  apply StronglySorted_inv in Hs as [_ Hs]. rewrite Forall_forall in Hs.
  apply elem_of_cons in Hin as [->|Hin]; [lia|]. specialize (Hs k Hin). lia.
Qed.

Lemma bits_unfold w : bits w = List.filter (Z.testbit w) (seqZ 0 64).
Proof. reflexivity. Qed.

#[local] Opaque bits.

Lemma clear_lowest_bits n w :
  0 ≤ w < 2 ^ 64 → bits (clear_lowest n w) = drop n (bits w).
Proof.
  revert w. induction n as [|n IH]; intros w Hw; simpl; [done|].
  rewrite IH by by apply land_range.
  destruct (bits w) as [|i r] eqn:E.
  - apply bits_nil in E as ->; [|done]. change (Z.land 0 _) with 0. rewrite bits_0. by destruct n.
  - by rewrite (bits_land_pred w i r).
Qed.

(** ** The abstract value of a map *)

(** Bit [id] of an array of words. *)
Definition bm_bit (bm : list Z) (id : Z) : bool := Z.testbit (word bm (id / 64)) (id mod 64).

Definition bit (l : CpuList) (id : Z) : bool := bm_bit (bitmap_internal_ l) id.

(** The set bits from [id] on, lowest first. *)
Definition elems_from (l : CpuList) (id : Z) : list Z :=
  List.filter (bit l) (seqZ id (64 * map_size_ l - id)).

Definition elems (l : CpuList) : list Z := elems_from l 0.

(** The representation invariant: eight 64-bit words, enough of them in use
    for the topology, and no bit set beyond its last CPU. *)
Record cpulist_wf (l : CpuList) : Prop := {
  wf_length : length (bitmap_internal_ l) = 8%nat;
  wf_words : Forall (λ w, 0 ≤ w < 2 ^ 64) (bitmap_internal_ l);
  wf_cpus : 0 ≤ topology_num_cpus l ≤ 512;
  wf_size : map_size_ l = (topology_num_cpus l + 63) / 64;
  wf_bits : ∀ id, topology_num_cpus l ≤ id < 512 → bit l id = false
}.

Lemma kMapCapacity_eq : kMapCapacity = 8.
Proof. reflexivity. Qed.

Lemma word_range l i : cpulist_wf l → 0 ≤ word (bitmap_internal_ l) i < 2 ^ 64.
Proof.
  intros Hwf. unfold word.
  destruct (nth_in_or_default (Z.to_nat i) (bitmap_internal_ l) 0) as [Hin| ->]; [|lia].
  pose proof (wf_words l Hwf) as H. rewrite Forall_forall in H. apply H.
  by apply list_elem_of_In.
Qed.

Lemma wf_map_size l :
  cpulist_wf l → 0 ≤ map_size_ l ≤ 8 ∧ topology_num_cpus l ≤ 64 * map_size_ l.
Proof. intros [_ _ H1 E _]. rewrite E. Z.to_euclidean_division_equations. lia. Qed.

Lemma bit_range l id : cpulist_wf l → 0 ≤ id → bit l id = true → id < topology_num_cpus l.
Proof.
  intros Hwf Hid Hb. destruct (Z.lt_ge_cases id (topology_num_cpus l)); [done|].
  destruct (Z.lt_ge_cases id 512) as [|Hge].
  - rewrite wf_bits in Hb; [done|done|lia].
  - unfold bit, bm_bit, word in Hb. rewrite nth_overflow, Z.bits_0 in Hb; [done|].
    rewrite (wf_length l Hwf). assert (8 ≤ id / 64) by (apply Z.div_le_lower_bound; lia). lia.
Qed.

(** *** The elements, word by word *)

Lemma seg_word l k :
  0 ≤ k →
  List.filter (bit l) (seqZ (64 * k) 64) = Z.add (64 * k) <$> bits (word (bitmap_internal_ l) k).
Proof.
  intros Hk. replace (seqZ (64 * k) 64) with (Z.add (64 * k) <$> seqZ 0 64)
    by (rewrite fmap_add_seqZ; f_equal; lia).
  rewrite filter_fmap_z, bits_unfold. f_equal. apply filter_ext_in.
  intros i Hi%elem_of_seqZ. unfold compose, bit, bm_bit.
  replace ((64 * k + i) / 64) with k by (apply (Z.div_unique _ _ _ i); lia).
  by replace ((64 * k + i) mod 64) with i by (apply (Z.mod_unique _ _ k); lia).
Qed.

Lemma seqZ_split m n k : 0 ≤ k → 0 ≤ n → seqZ m (k + n) = seqZ m k ++ seqZ (m + k) n.
Proof. intros. by rewrite seqZ_app by lia. Qed.

(** The part of word [k] from bit [off] on, then the following words. *)
Lemma elems_from_split l k off :
  0 ≤ k < map_size_ l → 0 ≤ off < 64 →
  elems_from l (64 * k + off) =
    (Z.add (64 * k) <$> List.filter (λ i, off <=? i) (bits (word (bitmap_internal_ l) k)))
    ++ elems_from l (64 * (k + 1)).
Proof.
  intros Hk Hoff. unfold elems_from.
  replace (64 * map_size_ l - (64 * k + off))
    with ((64 - off) + (64 * map_size_ l - 64 * (k + 1))) by lia.
  rewrite seqZ_split, List.filter_app by lia.
  f_equal; [|f_equal; f_equal; lia].
  assert (List.filter (λ i, off <=? i - 64 * k) (seqZ (64 * k) 64) = seqZ (64 * k + off) (64 - off)) as <-.
  { replace (seqZ (64 * k) 64) with (seqZ (64 * k) off ++ seqZ (64 * k + off) (64 - off)).
    - rewrite List.filter_app, filter_none.
      + rewrite (filter_ext_in _ (λ _, true)); [simpl; induction (seqZ _ _); simpl; congruence|].
        intros i Hi%elem_of_seqZ. apply Z.leb_le. lia.
      + intros i Hi%elem_of_seqZ. apply Z.leb_gt. lia.
    - rewrite <- seqZ_split by lia. f_equal. lia. }
  rewrite (filter_ext_in (λ i, off <=? i) ((λ j, off <=? j - 64 * k) ∘ Z.add (64 * k)))
    by (intros i _; unfold compose; f_equal; lia).
  rewrite <- filter_fmap_z, <- seg_word by lia.
  generalize (seqZ (64 * k) 64). intros s. induction s as [|x s IH]; simpl; [done|].
  destruct (off <=? x - 64 * k) eqn:E1; destruct (bit l x) eqn:E2; simpl;
    rewrite ?E1, ?E2; by rewrite ?IH.
Qed.

Lemma elems_from_word l k :
  0 ≤ k < map_size_ l →
  elems_from l (64 * k) =
    (Z.add (64 * k) <$> bits (word (bitmap_internal_ l) k)) ++ elems_from l (64 * (k + 1)).
Proof.
  intros Hk. rewrite <- (Z.add_0_r (64 * k)) at 1. rewrite elems_from_split by lia.
  f_equal. f_equal. transitivity (List.filter (λ _, true) (bits (word (bitmap_internal_ l) k))).
  - apply filter_ext_in. intros i [Hi _]%elem_of_bits. apply Z.leb_le. lia.
  - induction (bits _); simpl; congruence.
Qed.

Lemma elems_from_end l id : 64 * map_size_ l ≤ id → elems_from l id = [].
Proof. intros. unfold elems_from. by rewrite seqZ_nil by lia. Qed.

Lemma elem_of_elems_from l id i :
  cpulist_wf l → 0 ≤ id → i ∈ elems_from l id ↔ id ≤ i ∧ bit l i = true.
Proof.
  intros Hwf Hid. unfold elems_from. rewrite elem_of_lfilter, elem_of_seqZ.
  pose proof (wf_map_size l Hwf). split.
  - intros [H1 H2]. split; [lia|done].
  - intros [H1 H2]. split; [|done]. pose proof (bit_range l i Hwf ltac:(lia) H2). lia.
Qed.

Lemma elem_of_elems l i : cpulist_wf l → i ∈ elems l ↔ 0 ≤ i ∧ bit l i = true.
Proof. intros. by apply elem_of_elems_from. Qed.

Lemma elems_lt l i : cpulist_wf l → i ∈ elems l → 0 ≤ i < topology_num_cpus l.
Proof. intros Hwf [H1 H2]%elem_of_elems; [|done]. split; [done|by apply bit_range]. Qed.

Lemma elems_from_sorted l id : StronglySorted Z.lt (elems_from l id).
Proof. apply filter_sorted, seqZ_sorted. Qed.

Lemma elems_from_cons l id c r :
  elems_from l id = c :: r → elems_from l (c + 1) = r ∧ id ≤ c < 64 * map_size_ l.
Proof.
  intros E. pose proof (elems_from_sorted l id) as Hs. rewrite E in Hs.
  assert (c ∈ elems_from l id) as Hc by (rewrite E; by left).
  apply elem_of_lfilter in Hc as [Hc%elem_of_seqZ Hb].
  split; [|lia]. unfold elems_from in *.
  replace (64 * map_size_ l - id) with ((c + 1 - id) + (64 * map_size_ l - (c + 1))) in E by lia.
  rewrite seqZ_split, List.filter_app in E by lia.
  replace (id + (c + 1 - id)) with (c + 1) in E by lia.
  destruct (List.filter (bit l) (seqZ id (c + 1 - id))) as [|c' r'] eqn:E1.
  - exfalso. assert (c ∈ List.filter (bit l) (seqZ id (c + 1 - id))) as Hin.
    { apply elem_of_lfilter. split; [apply elem_of_seqZ; lia|done]. }
    rewrite E1 in Hin. by apply elem_of_nil in Hin.
  - simpl in E. injection E as -> E. destruct r' as [|d r']; [done|].
    exfalso. assert (d ∈ List.filter (bit l) (seqZ id (c + 1 - id))) as Hd
      by (rewrite E1; right; by left).
    apply elem_of_lfilter in Hd as [Hd%elem_of_seqZ _].
    simpl in E. subst r. apply StronglySorted_inv in Hs as [_ Hs].
    rewrite Forall_forall in Hs. specialize (Hs d (list_elem_of_here _ _)). lia.
Qed.

(** ** Queries *)

Lemma GetNthMap_ok l i :
  0 ≤ i < 8 → GetNthMap l i = Ok (word (bitmap_internal_ l) i).
Proof.
  intros [H1 H2]. unfold GetNthMap. rewrite kMapCapacity_eq.
  by rewrite (proj2 (Z.leb_le 0 i)), (proj2 (Z.ltb_lt i 8)).
Qed.

Lemma check_id_ok id : 0 ≤ id < 512 → check_id id = Ok tt.
Proof.
  intros [H1 H2]. unfold check_id, MAX_CPUS.
  by rewrite (proj2 (Z.leb_le 0 id)), (proj2 (Z.ltb_lt id 512)).
Qed.

Lemma CpuMap_Empty_loop_spec l k i :
  cpulist_wf l → 0 ≤ i → i + Z.of_nat k = map_size_ l →
  CpuMap_Empty_loop l k i = Ok (bool_decide (elems_from l (64 * i) = [])).
Proof.
  intros Hwf. pose proof (wf_map_size l Hwf). revert i.
  induction k as [|k IH]; intros i Hi Hk; simpl.
  - by rewrite elems_from_end, bool_decide_true by (done || lia).
  - rewrite GetNthMap_ok by lia. simpl. rewrite elems_from_word by lia.
    rewrite truthy_bits by by apply word_range. case_bool_decide as E; simpl.
    + rewrite E. simpl. apply IH; lia.
    + destruct (bits _); [done|]. by rewrite bool_decide_false by done.
Qed.

Lemma CpuMap_Empty_spec l : cpulist_wf l → CpuMap_Empty l = Ok (bool_decide (elems l = [])).
Proof.
  intros Hwf. pose proof (wf_map_size l Hwf). unfold CpuMap_Empty. apply (CpuMap_Empty_loop_spec l _ 0); [done|lia|lia].
Qed.

Lemma length_elems_from l id : cpulist_wf l → 0 ≤ id → Z.of_nat (length (elems_from l id)) ≤ 512.
Proof.
  intros Hwf Hid. pose proof (wf_map_size l Hwf). unfold elems_from.
  pose proof (filter_length_le (bit l) (seqZ id (64 * map_size_ l - id))) as H'.
  rewrite length_seqZ in H'. lia.
Qed.

Lemma CountSetCpus_loop_spec l k i ret :
  cpulist_wf l → 0 ≤ i → i + Z.of_nat k = map_size_ l → 0 ≤ ret ≤ 64 * i →
  CountSetCpus_loop l k i ret = Ok (ret + Z.of_nat (length (elems_from l (64 * i)))).
Proof.
  intros Hwf. pose proof (wf_map_size l Hwf). revert i ret.
  induction k as [|k IH]; intros i ret Hi Hk Hret; simpl.
  - rewrite elems_from_end by lia. simpl. f_equal. lia.
  - rewrite GetNthMap_ok by lia. simpl. rewrite elems_from_word by lia.
    pose proof (bits_length (word (bitmap_internal_ l) i)). unfold popcount.
    rewrite u32_small, IH by lia. f_equal. rewrite length_app, length_fmap. lia.
Qed.

Lemma CpuMap_Size_spec l : cpulist_wf l → CpuMap_Size l = Ok (Z.of_nat (length (elems l))).
Proof.
  intros Hwf. pose proof (wf_map_size l Hwf). unfold CpuMap_Size, CountSetCpus.
  by rewrite (CountSetCpus_loop_spec l _ 0) by (done || lia).
Qed.

Lemma Topology_cpu_ok n id : 0 ≤ id < n → Topology_cpu n id = Ok id.
Proof.
  intros [H1 H2]. unfold Topology_cpu.
  by rewrite (proj2 (Z.leb_le 0 id)), (proj2 (Z.ltb_lt id n)).
Qed.

(** A set bit of word [k] is a CPU of the topology. *)
Lemma word_bit_cpu l k i :
  cpulist_wf l → 0 ≤ k < map_size_ l → i ∈ bits (word (bitmap_internal_ l) k) →
  Topology_cpu (topology_num_cpus l) (64 * k + i) = Ok (64 * k + i).
Proof.
  intros Hwf Hk Hi. apply Topology_cpu_ok.
  assert (64 * k + i ∈ elems_from l (64 * k)) as Hin.
  { rewrite elems_from_word by lia. apply elem_of_app. left. apply list_elem_of_fmap. eauto. }
  apply elem_of_elems_from in Hin as [H1 H2]; [|done|lia].
  split; [lia|]. apply bit_range; [done|lia|done].
Qed.

Lemma ctzll_clear n w i :
  0 ≤ w < 2 ^ 64 → bits w !! n = Some i → ctzll (clear_lowest n w) = i.
Proof.
  intros Hw Hi. unfold ctzll. rewrite clear_lowest_bits by done.
  apply drop_S in Hi as ->. done.
Qed.

Lemma GetNthCpu_loop_spec l k i n :
  cpulist_wf l → 0 ≤ i → i + Z.of_nat k = map_size_ l → 0 ≤ n →
  GetNthCpu_loop l k i n = Ok (elems_from l (64 * i) !! Z.to_nat n).
Proof.
  intros Hwf. pose proof (wf_map_size l Hwf) as [Hms _]. revert i n.
  induction k as [|k IH]; intros i n Hi Hk Hn; simpl.
  - by rewrite elems_from_end by lia.
  - rewrite elems_from_word by lia. unfold popcount.
    set (w := word (bitmap_internal_ l) i). zcase.
    + rewrite IH by lia. f_equal. rewrite lookup_app_r by (rewrite length_fmap; lia).
      f_equal. rewrite length_fmap. lia.
    + rewrite lookup_app_l by (rewrite length_fmap; lia).
      destruct (lookup_lt_is_Some_2 (bits w) (Z.to_nat n)) as [b Hb]; [lia|].
      rewrite (ctzll_clear _ _ b) by (done || by apply word_range).
      rewrite list_lookup_fmap, Hb. unfold kIntsBits.
      replace (i * 64 + b) with (64 * i + b) by lia.
      rewrite word_bit_cpu; [done|done|lia|]. by eapply list_elem_of_lookup_2.
Qed.

(** [GetNthCpu n] is the n-th element, and the uninitialised CPU past the end. *)
Lemma GetNthCpu_spec l n : cpulist_wf l → 0 ≤ n → GetNthCpu n l = Ok (elems l !! Z.to_nat n).
Proof.
  intros Hwf Hn. pose proof (wf_map_size l Hwf). unfold GetNthCpu.
  by rewrite (GetNthCpu_loop_spec l _ 0) by (done || lia).
Qed.

Lemma Front_spec l : cpulist_wf l → Front l = Ok (head (elems l)).
Proof. intros. unfold Front. rewrite GetNthCpu_spec by done. by destruct (elems l). Qed.

Lemma Back_spec l : cpulist_wf l → Back l = Ok (last (elems l)).
Proof.
  intros Hwf. unfold Back. rewrite CpuMap_Size_spec by done. simpl.
  pose proof (length_elems_from l 0 Hwf ltac:(lia)) as Hlen. fold (elems l) in Hlen.
  rewrite GetNthCpu_spec by (done || apply u32_range). f_equal.
  rewrite last_lookup. destruct (elems l) as [|x r] eqn:E; [done|].
  f_equal. rewrite u32_small by (simpl in *; lia). simpl length in *. lia.
Qed.

Lemma ToIntVector_loop_spec l k i :
  cpulist_wf l → 0 ≤ i → i + Z.of_nat k = Z.of_nat (length (elems l)) →
  ToIntVector_loop l k i = Ok (drop (Z.to_nat i) (elems l)).
Proof.
  intros Hwf. revert i. induction k as [|k IH]; intros i Hi Hk; simpl.
  - rewrite drop_ge by lia. done.
  - rewrite GetNthCpu_spec by done. simpl.
    destruct (lookup_lt_is_Some_2 (elems l) (Z.to_nat i)) as [c Hc]; [lia|].
    rewrite Hc, IH by lia. simpl. rewrite (drop_S _ c (Z.to_nat i)) by done.
    by replace (Z.to_nat (i + 1)) with (S (Z.to_nat i)) by lia.
Qed.

Lemma ToIntVector_spec l : cpulist_wf l → ToIntVector l = Ok (elems l).
Proof.
  intros Hwf. unfold ToIntVector. rewrite CpuMap_Size_spec by done. simpl.
  by rewrite (ToIntVector_loop_spec l _ 0) by (done || lia).
Qed.

(** ** The iterator *)

(** Where the iterator stands when [rest] are the elements still to visit. *)
Definition iter_at (l : CpuList) (rest : list Z) : Iter :=
  match rest with
  | [] => mkIter (topology_num_cpus l) None
  | c :: _ => mkIter c (Some c)
  end.

Lemma FindNextSetBit_loop_spec l k i w rest :
  cpulist_wf l → 0 ≤ i → i + Z.of_nat k = map_size_ l → 0 ≤ w < 2 ^ 64 →
  (k = O → bits w = []) →
  (∀ b, b ∈ bits w → b ∈ bits (word (bitmap_internal_ l) i)) →
  rest = (Z.add (64 * i) <$> bits w) ++ elems_from l (64 * (i + 1)) →
  FindNextSetBit_loop l k i w = Ok (iter_at l rest).
Proof.
  intros Hwf. pose proof (wf_map_size l Hwf) as [Hms _]. revert i w rest.
  induction k as [|k IH]; intros i w rest Hi Hk Hw H0 Hsub ->; simpl.
  - rewrite H0, elems_from_end by (done || lia). done.
  - rewrite truthy_bits by done. destruct (bits w) as [|b r] eqn:E; simpl.
    + destruct (Z.ltb_spec (i + 1) (map_size_ l)).
      * rewrite GetNthMap_ok by lia. simpl. apply IH; try done; try lia.
        -- by apply word_range.
        -- by rewrite <- elems_from_word by lia.
      * apply IH; try done; try lia; rewrite E; simpl; [by intros b Hb%elem_of_nil|].
        by rewrite !elems_from_end by lia.
    + unfold ctzll. rewrite E. simpl. unfold kIntsBits.
      replace (i * 64 + b) with (64 * i + b) by lia.
      rewrite word_bit_cpu; [done|done|lia|]. apply Hsub. by left.
Qed.

Lemma mask_from_testbit off i :
  0 ≤ off < 64 → 0 ≤ i < 64 → Z.testbit (u64 (Z.shiftl (2 ^ 64 - 1) off)) i = (off <=? i).
Proof.
  intros Hoff Hi. unfold u64. rewrite Z.mod_pow2_bits_low, Z.shiftl_spec by lia.
  change (2 ^ 64 - 1) with (Z.ones 64).
  destruct (Z.leb_spec off i); [by rewrite Z.ones_spec_low by lia|].
  by rewrite Z.testbit_neg_r by lia.
Qed.

Lemma FindNextSetBit_spec l id :
  cpulist_wf l → 0 ≤ id → FindNextSetBit l id = Ok (iter_at l (elems_from l id)).
Proof.
  intros Hwf Hid. pose proof (wf_map_size l Hwf) as [Hms _]. unfold FindNextSetBit, kIntsBits.
  assert (0 ≤ id / 64) as Hq by (apply Z.div_pos; lia).
  pose proof (Z.div_mod id 64 ltac:(lia)) as Hdm.
  pose proof (Z.mod_pos_bound id 64 ltac:(lia)) as Hmod.
  destruct (Z.leb_spec (map_size_ l) (id / 64)).
  - by rewrite elems_from_end by lia.
  - rewrite GetNthMap_ok by lia. simpl.
    change (64 - 1) with (Z.ones 6). rewrite Z.land_ones by lia. change (2 ^ 6) with 64.
    set (w := word _ _). set (m := u64 _).
    assert (bits (Z.land w m) = List.filter (λ i, id mod 64 <=? i) (bits w)) as Eb.
    { rewrite !bits_unfold. rewrite (filter_ext_in _ (λ i, Z.testbit w i && (id mod 64 <=? i))).
      - generalize (seqZ 0 64). intros s. induction s as [|x s IH]; simpl; [done|].
        destruct (Z.testbit w x) eqn:E; simpl; by rewrite IH.
      - intros i Hi%elem_of_seqZ. rewrite Z.land_spec. f_equal. apply mask_from_testbit; lia. }
    apply FindNextSetBit_loop_spec; try lia; [done|..].
    + apply land_range. by apply word_range.
    + intros b. rewrite Eb, elem_of_lfilter. by intros [? _].
    + rewrite Eb. rewrite Hdm at 1. apply elems_from_split; lia.
Qed.

Lemma iterate_from_spec l fuel id rest :
  cpulist_wf l → 0 ≤ id → elems_from l id = rest → (length rest < fuel)%nat →
  iterate_from l fuel (iter_at l rest) (mkIter (topology_num_cpus l) None) = Ok rest.
Proof.
  intros Hwf. revert id rest. induction fuel as [|fuel IH]; intros id rest Hid E Hf; [lia|].
  destruct rest as [|c r]; simpl.
  - by rewrite Z.eqb_refl.
  - pose proof (elems_from_cons l id c r E) as [Hr Hc].
    assert (c ∈ elems_from l id) as Hb by (rewrite E; by left).
    apply elem_of_elems_from in Hb as [_ Hb]; [|done|done].
    pose proof (bit_range l c Hwf ltac:(lia) Hb).
    destruct (Z.eqb_spec c (topology_num_cpus l)); [lia|].
    unfold incr. simpl. rewrite FindNextSetBit_spec, Hr by (done || lia). simpl.
    rewrite (IH (c + 1) r) by (done || lia || (simpl in Hf; lia)). done.
Qed.

Lemma elems_length l : cpulist_wf l → (length (elems l) ≤ Z.to_nat (topology_num_cpus l))%nat.
Proof.
  intros Hwf. assert (length (elems l) ≤ length (seqZ 0 (topology_num_cpus l)))%nat as H.
  - apply submseteq_length, NoDup_submseteq.
    + apply sorted_lt_nodup, elems_from_sorted.
    + intros i Hi%elems_lt; [|done]. apply elem_of_seqZ. lia.
  - by rewrite length_seqZ in H.
Qed.

(** The range-based loop visits exactly the elements. *)
Lemma elems_from_num l : cpulist_wf l → elems_from l (topology_num_cpus l) = [].
Proof.
  intros Hwf. pose proof (wf_cpus _ Hwf).
  destruct (elems_from l (topology_num_cpus l)) as [|c r] eqn:E; [done|].
  assert (c ∈ elems_from l (topology_num_cpus l)) as Hc by (rewrite E; by left).
  apply elem_of_elems_from in Hc as [H1 H2]; [|done|lia].
  pose proof (bit_range l c Hwf ltac:(lia) H2). lia.
Qed.

Lemma iterate_spec l : cpulist_wf l → iterate l = Ok (elems l).
Proof.
  intros Hwf. unfold iterate, begin, end_. pose proof (wf_cpus l Hwf).
  rewrite !FindNextSetBit_spec by (done || lia).
  cbn [mbind outcome_bind].
  rewrite elems_from_num by done.
  cbn [iter_at]. apply (iterate_from_spec l _ 0); [done|lia|done|].
  pose proof (elems_length l Hwf). unfold elems in *. lia.
Qed.

(** ** Single bits *)

Lemma bit_word l id : bit l id = Z.testbit (word (bitmap_internal_ l) (id / 64)) (id mod 64).
Proof. done. Qed.

Lemma IsSet_spec l id : 0 ≤ id < 512 → CpuList_IsSet id l = Ok (bit l id).
Proof.
  intros Hid. unfold CpuList_IsSet. rewrite check_id_ok by done. simpl.
  rewrite id_mask_eq, test_mask by (apply Z.mod_pos_bound; lia). done.
Qed.

(** An access outside the array is stopped by the [DCHECK]s. *)
Lemma check_id_fail id : ¬ 0 ≤ id < 512 → check_id id = Crash CheckFailed.
Proof.
  intros H. unfold check_id, checkO, MAX_CPUS.
  destruct (Z.leb_spec 0 id); [|done]. destruct (Z.ltb_spec id 512); [lia|done].
Qed.

Lemma div_lt8 id : 0 ≤ id < 512 → 0 ≤ id / 64 < 8.
Proof. intros. split; [apply Z.div_pos; lia|apply Z.div_lt_upper_bound; lia]. Qed.

Lemma word_insert bm i j w :
  0 ≤ i < Z.of_nat (length bm) → 0 ≤ j →
  word (<[Z.to_nat i := w]> bm) j = if i =? j then w else word bm j.
Proof.
  intros Hi Hj. unfold word. rewrite !nth_lookup. destruct (Z.eqb_spec i j) as [<-|Hne].
  - by rewrite list_lookup_insert_eq by lia.
  - by rewrite list_lookup_insert_ne by lia.
Qed.

(** Updating one word through a function of its bits. *)
Lemma bit_update l id (w : Z) (g : bool → bool) j :
  cpulist_wf l → 0 ≤ id < 512 → 0 ≤ j →
  (∀ b, 0 ≤ b < 64 → Z.testbit w b =
     let old := Z.testbit (word (bitmap_internal_ l) (id / 64)) b in
     if id mod 64 =? b then g old else old) →
  bit (set_bitmap (<[Z.to_nat (id / 64) := w]> (bitmap_internal_ l)) l) j =
  if id =? j then g (bit l j) else bit l j.
Proof.
  intros Hwf Hid Hj Hw. unfold bit, bm_bit. simpl.
  pose proof (div_lt8 id Hid). assert (0 ≤ j / 64) by (apply Z.div_pos; lia).
  rewrite word_insert by (rewrite ?(wf_length l Hwf); lia).
  pose proof (Z.div_mod id 64 ltac:(lia)). pose proof (Z.div_mod j 64 ltac:(lia)).
  pose proof (Z.mod_pos_bound j 64 ltac:(lia)).
  destruct (Z.eqb_spec (id / 64) (j / 64)) as [E|E].
  - rewrite Hw by lia. simpl. rewrite E.
    destruct (Z.eqb_spec (id mod 64) (j mod 64)), (Z.eqb_spec id j); try done; lia || congruence.
  - destruct (Z.eqb_spec id j) as [->|]; [done|done].
Qed.

Lemma word_update_wf l id w :
  cpulist_wf l → 0 ≤ id → 0 ≤ w < 2 ^ 64 →
  (∀ j, topology_num_cpus l ≤ j < 512 →
     bit (set_bitmap (<[Z.to_nat (id / 64) := w]> (bitmap_internal_ l)) l) j = false) →
  cpulist_wf (set_bitmap (<[Z.to_nat (id / 64) := w]> (bitmap_internal_ l)) l).
Proof.
  intros [H1 H2 H3 H4 H5] Hid Hw Hb. constructor; simpl; try done.
  - by rewrite length_insert.
  - by apply Forall_insert.
Qed.

Lemma id_mask_range id : 0 ≤ id_mask id < 2 ^ 64.
Proof. apply u64_range. Qed.

Lemma id_mask_testbit id b : 0 ≤ b → Z.testbit (id_mask id) b = (id mod 64 =? b).
Proof. intros. rewrite id_mask_eq. apply testbit_pow2. apply Z.mod_pos_bound. lia. Qed.

(** [Set] sets its bit and no other; it keeps the invariant for a CPU of the
    topology. *)
Lemma Set_spec l id :
  cpulist_wf l → 0 ≤ id < topology_num_cpus l →
  ∃ l', CpuList_Set id l = Ok l' ∧ cpulist_wf l' ∧ topology_num_cpus l' = topology_num_cpus l ∧
    ∀ j, 0 ≤ j → bit l' j = (id =? j) || bit l j.
Proof.
  intros Hwf Hid. pose proof (wf_cpus l Hwf). unfold CpuList_Set. rewrite check_id_ok by lia. simpl.
  eexists. split; [done|]. set (w := Z.lor _ _).
  assert (∀ j, 0 ≤ j →
    bit (set_bitmap (<[Z.to_nat (id / 64) := w]> (bitmap_internal_ l)) l) j = (id =? j) || bit l j) as Hb.
  { intros j Hj. rewrite (bit_update l id w (λ _, true)); [|done|lia|done|].
    - by destruct (id =? j).
    - intros b Hb. subst w. rewrite Z.lor_spec, id_mask_testbit by lia. simpl.
      destruct (id mod 64 =? b); [by rewrite orb_true_r|by rewrite orb_false_r]. }
  split_and!; [|done|done].
  apply word_update_wf; [done|lia|apply lor_range; [by apply word_range|apply id_mask_range]|].
  intros j Hj. rewrite Hb by lia. rewrite (wf_bits l Hwf) by done. zcase; [lia|done].
Qed.

(** The common part of [CpuList_Clear] and [TestAndClear]. *)
Lemma clear_bit_spec l id :
  cpulist_wf l → 0 ≤ id < 512 →
  let l' := set_bitmap (<[Z.to_nat (id / 64) :=
              Z.land (word (bitmap_internal_ l) (id / 64)) (lnot64 (id_mask id))]>
              (bitmap_internal_ l)) l in
  cpulist_wf l' ∧ ∀ j, 0 ≤ j → bit l' j = negb (id =? j) && bit l j.
Proof.
  intros Hwf Hid. set (w := Z.land _ _). cbv zeta.
  assert (∀ j, 0 ≤ j →
    bit (set_bitmap (<[Z.to_nat (id / 64) := w]> (bitmap_internal_ l)) l) j = negb (id =? j) && bit l j) as Hb.
  { intros j Hj. rewrite (bit_update l id w (λ _, false)); [|done|lia|done|].
    - by destruct (id =? j).
    - intros b Hb. subst w. rewrite Z.land_spec, lnot64_spec, id_mask_testbit by lia. simpl.
      destruct (id mod 64 =? b); [by rewrite andb_false_r|by rewrite andb_true_r]. }
  split; [|done].
  apply word_update_wf; [done|lia|apply land_range; by apply word_range|].
  intros j Hj. pose proof (wf_cpus l Hwf). rewrite Hb by lia. rewrite (wf_bits l Hwf) by done. apply andb_false_r.
Qed.

Lemma Clear_spec l id :
  cpulist_wf l → 0 ≤ id < 512 →
  ∃ l', CpuList_Clear id l = Ok l' ∧ cpulist_wf l' ∧ ∀ j, 0 ≤ j → bit l' j = negb (id =? j) && bit l j.
Proof.
  intros Hwf Hid. unfold CpuList_Clear. rewrite check_id_ok by lia. simpl.
  eexists. split; [done|]. by apply clear_bit_spec.
Qed.

Lemma TestAndClear_spec l id :
  cpulist_wf l → 0 ≤ id < 512 →
  ∃ l', TestAndClear id l = Ok (bit l id, l') ∧ cpulist_wf l' ∧
    ∀ j, 0 ≤ j → bit l' j = negb (id =? j) && bit l j.
Proof.
  intros Hwf Hid. unfold TestAndClear. rewrite check_id_ok by lia. simpl.
  eexists. split; [|by apply clear_bit_spec]. f_equal. f_equal.
  assert (lnot64 (lnot64 (id_mask id)) = id_mask id) as ->.
  { unfold lnot64. by rewrite Z.lxor_assoc, Z.lxor_nilpotent, Z.lxor_0_r. }
  rewrite id_mask_eq, test_mask by (apply Z.mod_pos_bound; lia). done.
Qed.

(** ** Set operations *)

Lemma word_transform f n a b i :
  (n ≤ length a)%nat → (n ≤ length b)%nat → 0 ≤ i →
  word (transform f n a b) i = if i <? Z.of_nat n then f (word a i) (word b i) else word a i.
Proof.
  intros Ha Hb Hi. unfold word, transform. rewrite !nth_lookup.
  assert (length (zip_with f (take n a) (take n b)) = n) as Hl.
  { rewrite length_zip_with, !length_take. lia. }
  destruct (Z.ltb_spec i (Z.of_nat n)) as [Hlt|Hge].
  - rewrite lookup_app_l, lookup_zip_with, !lookup_take_lt by lia.
    destruct (lookup_lt_is_Some_2 a (Z.to_nat i)) as [x Hx]; [lia|].
    destruct (lookup_lt_is_Some_2 b (Z.to_nat i)) as [y Hy]; [lia|]. by rewrite Hx, Hy.
  - rewrite lookup_app_r, lookup_drop by lia. f_equal. f_equal. lia.
Qed.

(** A word-wise operation acts on the bits of the used words. *)
Lemma transform_spec f (g : bool → bool → bool) src l :
  cpulist_wf l → cpulist_wf src → topology_num_cpus src = topology_num_cpus l →
  (∀ a b i, 0 ≤ i < 64 → Z.testbit (f a b) i = g (Z.testbit a i) (Z.testbit b i)) →
  (∀ a b, 0 ≤ a < 2 ^ 64 → 0 ≤ b < 2 ^ 64 → 0 ≤ f a b < 2 ^ 64) →
  g false false = false →
  let l' := set_bitmap (transform f (Z.to_nat (map_size_ l))
                          (bitmap_internal_ l) (bitmap_internal_ src)) l in
  cpulist_wf l' ∧ ∀ j, 0 ≤ j → bit l' j = g (bit l j) (bit src j).
Proof.
  intros Hwf Hws Htop Hbit Hrange Hg l'.
  pose proof (wf_map_size l Hwf) as [Hms Hcov].
  assert (∀ j, 0 ≤ j → bit l' j = g (bit l j) (bit src j)) as Hb.
  { intros j Hj. unfold bit, bm_bit at 1. subst l'. simpl.
    assert (0 ≤ j / 64) by (apply Z.div_pos; lia).
    rewrite word_transform by (rewrite ?(wf_length _ Hwf), ?(wf_length _ Hws); lia).
    destruct (Z.ltb_spec (j / 64) (Z.of_nat (Z.to_nat (map_size_ l)))) as [|Hge].
    - apply Hbit. apply Z.mod_pos_bound. lia.
    - assert (topology_num_cpus l ≤ j).
      { pose proof (Z.div_mod j 64 ltac:(lia)). pose proof (Z.mod_pos_bound j 64 ltac:(lia)). lia. }
      fold (bm_bit (bitmap_internal_ l) j). fold (bit l j). fold (bit src j).
      assert (bit l j = false) as ->.
      { destruct (bit l j) eqn:E; [|done]. pose proof (bit_range l j Hwf Hj E). lia. }
      destruct (bit src j) eqn:E; [|done]. pose proof (bit_range src j Hws Hj E). lia. }
  split; [|done]. constructor; subst l'; simpl.
  - unfold transform. rewrite length_app, length_zip_with, !length_take, length_drop.
    rewrite (wf_length _ Hwf), (wf_length _ Hws). lia.
  - unfold transform. apply Forall_app. split; [|by apply Forall_drop, wf_words].
    rewrite Forall_forall. intros w (k & Hk)%list_elem_of_lookup_1.
    rewrite lookup_zip_with_Some in Hk. destruct Hk as (a & b & -> & Ha & Hb').
    pose proof (wf_words l Hwf) as W1. pose proof (wf_words src Hws) as W2.
    apply lookup_take_Some in Ha as [Ha _], Hb' as [Hb' _].
    apply Hrange; [exact (Forall_lookup_1 _ _ _ _ W1 Ha)|exact (Forall_lookup_1 _ _ _ _ W2 Hb')].
  - apply (wf_cpus l Hwf).
  - apply (wf_size l Hwf).
  - intros id Hid. pose proof (wf_cpus l Hwf). rewrite Hb by lia.
    by rewrite (wf_bits l Hwf), (wf_bits src Hws) by lia.
Qed.

Section set_ops.
Context (src l : CpuList).
Hypotheses (Hwf : cpulist_wf l) (Hws : cpulist_wf src)
  (Htop : topology_num_cpus src = topology_num_cpus l).

Lemma Intersection_spec :
  cpulist_wf (CpuList_Intersection src l) ∧
  ∀ j, 0 ≤ j → bit (CpuList_Intersection src l) j = bit l j && bit src j.
Proof.
  apply (transform_spec Z.land andb); try done.
  - intros. apply Z.land_spec.
  - intros. by apply land_range.
Qed.

Lemma Union_spec :
  cpulist_wf (CpuList_Union src l) ∧
  ∀ j, 0 ≤ j → bit (CpuList_Union src l) j = bit l j || bit src j.
Proof.
  apply (transform_spec Z.lor orb); try done.
  - intros. apply Z.lor_spec.
  - intros. by apply lor_range.
Qed.

Lemma Subtract_spec :
  cpulist_wf (CpuList_Subtract src l) ∧
  ∀ j, 0 ≤ j → bit (CpuList_Subtract src l) j = bit l j && negb (bit src j).
Proof.
  apply (transform_spec (λ a b, Z.land a (lnot64 b)) (λ x y, x && negb y)); try done.
  - intros a b i Hi. by rewrite Z.land_spec, lnot64_spec.
  - intros. by apply land_range.
Qed.
End set_ops.

(** Two well-formed maps of one topology are equal when their bits are. *)
Lemma word_ext (a b : Z) :
  0 ≤ a < 2 ^ 64 → 0 ≤ b < 2 ^ 64 →
  (∀ i, 0 ≤ i < 64 → Z.testbit a i = Z.testbit b i) → a = b.
Proof.
  intros Ha Hb H. apply Z.bits_inj'. intros i Hi. destruct (Z.lt_ge_cases i 64); [by apply H|].
  by rewrite (testbit_small a 64), (testbit_small b 64) by lia.
Qed.

Lemma word_eq_bits a b k :
  cpulist_wf a → cpulist_wf b → 0 ≤ k → (∀ j, 0 ≤ j → bit a j = bit b j) →
  word (bitmap_internal_ a) k = word (bitmap_internal_ b) k.
Proof.
  intros Ha Hb Hk H. apply word_ext; [by apply word_range|by apply word_range|].
  intros i Hi. specialize (H (64 * k + i) ltac:(lia)). unfold bit, bm_bit in H.
  replace ((64 * k + i) / 64) with k in H by (apply (Z.div_unique _ _ _ i); lia).
  by replace ((64 * k + i) mod 64) with i in H by (apply (Z.mod_unique _ _ k); lia).
Qed.

Lemma cpulist_ext a b :
  cpulist_wf a → cpulist_wf b → topology_num_cpus a = topology_num_cpus b →
  (∀ j, 0 ≤ j → bit a j = bit b j) → a = b.
Proof.
  intros Ha Hb Htop H.
  assert (bitmap_internal_ a = bitmap_internal_ b) as Hbm.
  { apply list_eq_same_length with 8%nat; [by apply wf_length|by apply wf_length|].
    intros i x y Hi Hx Hy. pose proof (word_eq_bits a b (Z.of_nat i) Ha Hb ltac:(lia) H) as E.
    unfold word in E. rewrite !nth_lookup, Nat2Z.id, Hx, Hy in E. done. }
  pose proof (wf_size a Ha) as Sa. pose proof (wf_size b Hb) as Sb. rewrite Htop, <- Sb in Sa.
  destruct a, b; simpl in *; congruence.
Qed.

(** [operator==] compares the sets. *)
Lemma CpuList_eqb_spec a b :
  cpulist_wf a → cpulist_wf b → topology_num_cpus a = topology_num_cpus b →
  CpuList_eqb a b = true ↔ ∀ j, 0 ≤ j → bit a j = bit b j.
Proof.
  intros Ha Hb Htop. unfold CpuList_eqb. rewrite bool_decide_eq_true. split.
  - intros E j Hj. assert (0 ≤ j / 64) by (apply Z.div_pos; lia).
    pose proof (wf_map_size a Ha) as [Hms Hcov].
    destruct (Z.lt_ge_cases (j / 64) (map_size_ a)) as [Hlt|Hge].
    + unfold bit, bm_bit, word. f_equal. rewrite !nth_lookup.
      rewrite <- (lookup_take_lt (bitmap_internal_ a) (Z.to_nat (map_size_ a))) by lia.
      rewrite E, lookup_take_lt by lia. done.
    + assert (topology_num_cpus a ≤ j).
      { pose proof (Z.div_mod j 64 ltac:(lia)). pose proof (Z.mod_pos_bound j 64 ltac:(lia)). lia. }
      destruct (bit a j) eqn:E1; [pose proof (bit_range a j Ha Hj E1); lia|].
      destruct (bit b j) eqn:E2; [pose proof (bit_range b j Hb Hj E2); lia|done].
  - intros H. by rewrite (cpulist_ext a b).
Qed.

(** A new map is empty. *)
Lemma CpuMap_new_spec n :
  0 ≤ n ≤ 512 →
  ∃ l, CpuMap_new n = Ok l ∧ cpulist_wf l ∧ topology_num_cpus l = n ∧
    ∀ j, bit l j = false.
Proof.
  intros Hn. unfold CpuMap_new. rewrite kMapCapacity_eq. unfold kIntsBits.
  replace (n + 64 - 1) with (n + 63) by lia.
  rewrite (proj2 (Z.leb_le _ _)) by (Z.to_euclidean_division_equations; lia). simpl.
  eexists. split; [done|].
  assert (∀ j, bm_bit [0; 0; 0; 0; 0; 0; 0; 0] j = false) as Hz.
  { intros j. unfold bm_bit, word.
    assert (∀ k, nth k [0; 0; 0; 0; 0; 0; 0; 0] 0 = 0) as ->; [|apply Z.bits_0].
    intros k. do 9 (destruct k; [done|]). done. }
  split_and!; [|done|exact Hz]. constructor; simpl; [done| |lia|done|].
  - repeat constructor; lia.
  - intros id _. apply Hz.
Qed.

(** The elements determine the map. *)
Lemma elems_ext a b :
  cpulist_wf a → cpulist_wf b → topology_num_cpus a = topology_num_cpus b →
  (∀ i, i ∈ elems a ↔ i ∈ elems b) → a = b.
Proof.
  intros Ha Hb Htop H. apply cpulist_ext; try done. intros j Hj.
  specialize (H j). rewrite !elem_of_elems in H by done.
  destruct (bit a j) eqn:E1, (bit b j) eqn:E2; naive_solver.
Qed.

(** ** The printed cpumask denotes the bitmap *)

(** ** The reader *)

Definition hex_val (c : ascii) : option Z :=
  let n := Z.of_N (N_of_ascii c) in
  if (48 <=? n) && (n <=? 57) then Some (n - 48)
  else if (97 <=? n) && (n <=? 102) then Some (n - 87)
  else None.

Definition read_step (acc : option Z) (c : ascii) : option Z :=
  if bool_decide (c = ","%char) then acc
  else a ← acc; d ← hex_val c; Some (16 * a + d).

Definition read_mask (s : list ascii) : option Z := foldl read_step (Some 0) s.

(** The strings of one list separated by commas. *)
Fixpoint join_commas (gs : list (list ascii)) : list ascii :=
  match gs with
  | [] => []
  | [g] => g
  | g :: gs => g ++ ","%char :: join_commas gs
  end.

(** ** Digits *)

Definition nibble (n : Z) : Prop := 0 ≤ n < 16.

Lemma hex_digit_val n : nibble n → hex_val (hex_digit n) = Some n ∧ hex_digit n ≠ ","%char.
Proof.
  unfold nibble. intros Hn.
  assert (n = Z.of_nat (Z.to_nat n) ∧ (Z.to_nat n < 16)%nat) as [-> Hk] by lia. clear Hn.
  generalize dependent (Z.to_nat n). intros k Hk.
  do 16 (destruct k as [|k]; [split; [reflexivity|discriminate]|]). lia.
Qed.

Lemma read_digits ns a :
  Forall nibble ns →
  foldl read_step (Some a) (hex_digit <$> ns) = Some (foldl (λ a d, 16 * a + d) a ns).
Proof.
  intros H. revert a. induction H as [|n ns Hn _ IH]; intros a; csimpl; [done|].
  assert (read_step (Some a) (hex_digit n) = Some (16 * a + n)) as ->; [|apply IH].
  destruct (hex_digit_val n Hn) as [Hv Hc]. unfold read_step.
  rewrite bool_decide_false by done. simpl. by rewrite Hv.
Qed.

(** Commas do not change the value read. *)
Lemma read_commas s k a : foldl read_step a (mask_commas s k) = foldl read_step a s.
Proof.
  revert k a. induction s as [|c s IH]; intros k a; simpl; [done|].
  destruct (k =? 0); simpl; by rewrite IH.
Qed.

Lemma mask_commas_nil s k : mask_commas s k = [] → s = [].
Proof. destruct s; simpl; [done|]. by destruct (k =? 0). Qed.

(** ** The digits printed *)

Fixpoint drop_zeros (ns : list Z) : list Z :=
  match ns with
  | [] => []
  | n :: ns' => if truthy n then ns else drop_zeros ns'
  end.

Definition nibbles_of (bytes : list Z) : list Z :=
  mjoin ((λ b, [Z.shiftr b 4; Z.land b 15]) <$> bytes).

Lemma emit_on ns s :
  foldl emit_nibble (s, true) ns = (s ++ (hex_digit <$> ns), true).
Proof.
  revert s. induction ns as [|n ns IH]; intros s; simpl; [by rewrite app_nil_r|].
  rewrite orb_true_r, IH, <- app_assoc. done.
Qed.

Lemma emit_off ns :
  (foldl emit_nibble ([], false) ns).1 = hex_digit <$> drop_zeros ns.
Proof.
  induction ns as [|n ns IH]; simpl; [done|]. rewrite orb_false_r.
  destruct (truthy n); [by rewrite emit_on|done].
Qed.

Lemma mask_nibbles_eq bytes :
  mask_nibbles bytes = hex_digit <$> drop_zeros (nibbles_of (rev bytes)).
Proof.
  unfold mask_nibbles, nibbles_of. rewrite <- emit_off. generalize (rev bytes). intros bs. f_equal.
  generalize (@nil ascii, false). induction bs as [|b bs IH]; intros st; simpl; [done|].
  by rewrite IH.
Qed.

Lemma drop_zeros_value ns : foldl (λ a d, 16 * a + d) 0 (drop_zeros ns) = foldl (λ a d, 16 * a + d) 0 ns.
Proof.
  induction ns as [|n ns IH]; [done|]. cbn [drop_zeros]. unfold truthy.
  destruct (Z.eqb_spec n 0) as [->|]; [exact IH|done].
Qed.

Lemma drop_zeros_Forall (P : Z → Prop) ns : Forall P ns → Forall P (drop_zeros ns).
Proof. induction 1 as [|n ns H1 H2 IH]; simpl; [done|]. destruct (truthy n); [by constructor|done]. Qed.

(** ** Values *)

(** The number with these little-endian bytes. *)
Definition bytes_value (bs : list Z) : Z := foldr (λ b acc, b + 256 * acc) 0 bs.

Definition byte (b : Z) : Prop := 0 ≤ b < 256.

Lemma nibbles_of_Forall bs : Forall byte bs → Forall nibble (nibbles_of bs).
Proof.
  unfold nibbles_of. induction 1 as [|b bs Hb _ IH]; simpl; [constructor|].
  unfold byte in Hb. repeat constructor; try done.
  - rewrite Z.shiftr_div_pow2 by lia. apply Z.div_pos; lia.
  - rewrite Z.shiftr_div_pow2 by lia. apply Z.div_lt_upper_bound; lia.
  - apply Z.land_nonneg. lia.
  - change 15 with (Z.ones 4). rewrite Z.land_ones by lia. apply Z.mod_pos_bound. lia.
Qed.

Lemma nibbles_value bs : foldl (λ a d, 16 * a + d) 0 (nibbles_of (rev bs)) = bytes_value bs.
Proof.
  induction bs as [|b bs IH]; [done|]. simpl. unfold nibbles_of in *.
  rewrite fmap_app, join_app, foldl_app, IH. simpl.
  rewrite Z.shiftr_div_pow2 by lia. change 15 with (Z.ones 4). rewrite Z.land_ones by lia.
  change (2 ^ 4) with 16. pose proof (Z.div_mod b 16). lia.
Qed.

(** The first [n] bytes of [w], by repeated division. *)
Fixpoint le_bytes (n : nat) (w : Z) : list Z :=
  match n with O => [] | S n => w mod 256 :: le_bytes n (w / 256) end.

Lemma word_bytes_eq w : word_bytes w = le_bytes 8 w.
Proof.
  unfold word_bytes. change (seqZ 0 8) with [0; 1; 2; 3; 4; 5; 6; 7].
  cbn [fmap list_fmap le_bytes]. change 255 with (Z.ones 8).
  rewrite !Z.land_ones, !Z.shiftr_div_pow2, !Z.div_div by lia.
  change (2 ^ (8 * 0)) with 1. by rewrite Z.div_1_r.
Qed.

Lemma le_bytes_value n w r :
  bytes_value (le_bytes n w ++ r) = w mod 256 ^ Z.of_nat n + 256 ^ Z.of_nat n * bytes_value r.
Proof.
  revert w. induction n as [|n IH]; intros w.
  - simpl. rewrite Z.mod_1_r. lia.
  - cbn [le_bytes app bytes_value foldr]. fold (bytes_value (le_bytes n (w / 256) ++ r)). rewrite IH.
    replace (256 ^ Z.of_nat (S n)) with (256 * 256 ^ Z.of_nat n)
      by (rewrite Nat2Z.inj_succ, Z.pow_succ_r by lia; done).
    rewrite Z.rem_mul_r by lia. lia.
Qed.

Lemma le_bytes_Forall n w : Forall byte (le_bytes n w).
Proof.
  revert w. induction n as [|n IH]; intros w; simpl; constructor; [|done].
  apply Z.mod_pos_bound. lia.
Qed.

Definition words_value (ws : list Z) : Z := foldr (λ w acc, w + 2 ^ 64 * acc) 0 ws.

Lemma words_bytes_value ws :
  Forall (λ w, 0 ≤ w < 2 ^ 64) ws → bytes_value (mjoin (word_bytes <$> ws)) = words_value ws.
Proof.
  induction 1 as [|w ws Hw _ IH]; [done|].
  change (bytes_value (word_bytes w ++ mjoin (word_bytes <$> ws)) = w + 2 ^ 64 * words_value ws).
  rewrite word_bytes_eq, le_bytes_value, IH.
  change (256 ^ Z.of_nat 8) with (2 ^ 64). by rewrite Z.mod_small.
Qed.

Lemma words_value_testbit ws k i :
  Forall (λ w, 0 ≤ w < 2 ^ 64) ws → 0 ≤ i < 64 →
  Z.testbit (words_value ws) (64 * Z.of_nat k + i) = Z.testbit (nth k ws 0) i.
Proof.
  intros H Hi. revert k. induction H as [|w ws Hw _ IH]; intros k; simpl.
  - rewrite Z.bits_0. by destruct k; rewrite Z.bits_0.
  - rewrite Z.add_comm, (Z.mul_comm (2 ^ 64)), <- lor_shiftl_small by lia.
    rewrite Z.lor_spec, Z.shiftl_spec by lia. destruct k as [|k].
    + rewrite (Z.testbit_neg_r _ (_ - 64)) by lia. simpl. f_equal.
    + rewrite (testbit_small w 64) by lia. rewrite orb_false_r, <- IH. f_equal. lia.
Qed.

(** ** The grouping *)

Lemma mask_commas_groups s k :
  0 < k ≤ 8 → (0 < length s)%nat → Z.of_nat (length s) mod 8 = k mod 8 →
  ∃ g gs, mask_commas s k = join_commas (g :: gs) ∧ s = mjoin (g :: gs) ∧
    Z.of_nat (length g) = k ∧ Forall (λ g, length g = 8%nat) gs.
Proof.
  revert k. induction s as [|c s IH]; intros k Hk Hlen Hmod; [simpl in Hlen; lia|].
  cbn [mask_commas]. destruct (Z.eqb_spec k 0); [lia|].
  destruct s as [|c' s].
  { exists [c], []. split_and!; [done|done| |constructor].
    cbn [length] in *. Z.to_euclidean_division_equations. lia. }
  destruct (Z.eqb_spec k 1) as [->|].
  - destruct (IH 8) as (g & gs & E & Es & Hg & Hgs); [lia|simpl; lia| |].
    { cbn [length] in *. Z.to_euclidean_division_equations. lia. }
    exists [c], (g :: gs). split_and!; [|by rewrite Es|done|constructor; [lia|done]].
    cbn [Z.sub]. change (1 - 1) with 0. cbn [mask_commas].
    cbn [mask_commas] in E. destruct (Z.eqb_spec 8 0); [lia|]. change (8 - 1) with 7 in E.
    change (0 =? 0) with true. cbn iota. rewrite E. done.
  - destruct (IH (k - 1)) as (g & gs & E & Es & Hg & Hgs); [lia|simpl; lia| |].
    { cbn [length] in *. Z.to_euclidean_division_equations. lia. }
    exists (c :: g), gs. rewrite E. split_and!; [|by rewrite Es|simpl; lia|done].
    by destruct gs.
Qed.

Lemma drop_zeros_head ns n r : drop_zeros ns = n :: r → n ≠ 0.
Proof.
  induction ns as [|m ns IH]; simpl; [done|]. unfold truthy.
  destruct (Z.eqb_spec m 0); simpl; [apply IH|]. by intros [= <- _].
Qed.

(** ** The string *)

Section mask.
Context (l : CpuList) (Hwf : cpulist_wf l).

Let digits := mask_nibbles (bitmap_bytes l).
Let used := take (Z.to_nat (map_size_ l)) (bitmap_internal_ l).

Lemma used_words : Forall (λ w, 0 ≤ w < 2 ^ 64) used.
Proof using Hwf. apply Forall_take, wf_words, Hwf. Qed.

Lemma used_bit j : 0 ≤ j → Z.testbit (words_value used) j = bit l j.
Proof using Hwf.
  intros Hj. pose proof (Z.div_mod j 64 ltac:(lia)) as Hdm.
  pose proof (Z.mod_pos_bound j 64 ltac:(lia)). assert (0 ≤ j / 64) by (apply Z.div_pos; lia).
  rewrite Hdm at 1. rewrite <- (Z2Nat.id (j / 64)) at 1 by done.
  rewrite words_value_testbit by (apply used_words || lia).
  pose proof (wf_map_size l Hwf) as [Hms Hcov].
  destruct (Z.lt_ge_cases (j / 64) (map_size_ l)) as [Hlt|Hge].
  - rewrite bit_word. unfold word. f_equal. rewrite !nth_lookup. unfold used.
    by rewrite lookup_take_lt by lia.
  - rewrite nth_overflow, Z.bits_0 by (unfold used; rewrite length_take; lia).
    destruct (bit l j) eqn:E; [|done]. pose proof (bit_range l j Hwf Hj E). lia.
Qed.

Lemma bytes_ok : Forall byte (bitmap_bytes l).
Proof using.
  unfold bitmap_bytes. generalize (take (Z.to_nat (map_size_ l)) (bitmap_internal_ l)).
  intros ws. induction ws as [|w ws IH]; [constructor|].
  change (Forall byte (word_bytes w ++ mjoin (word_bytes <$> ws))).
  apply Forall_app. split; [|done]. rewrite word_bytes_eq. apply le_bytes_Forall.
Qed.

Lemma read_digits_value : read_mask digits = Some (words_value used).
Proof using Hwf.
  unfold read_mask, digits. rewrite mask_nibbles_eq, read_digits.
  - rewrite drop_zeros_value, nibbles_value. f_equal.
    apply words_bytes_value, used_words.
  - apply drop_zeros_Forall, nibbles_of_Forall, Forall_rev, bytes_ok.
Qed.

Lemma CpuMaskStr_nonempty :
  (0 < length digits)%nat →
  ∃ g gs, CpuMaskStr l = join_commas (g :: gs) ∧ digits = mjoin (g :: gs) ∧
    (1 ≤ length g ≤ 8)%nat ∧ Forall (λ g, length g = 8%nat) gs.
Proof using.
  intros Hlen. unfold CpuMaskStr. fold digits.
  set (m := Z.of_nat (length digits) mod 8).
  assert (0 ≤ m < 8) by (apply Z.mod_pos_bound; lia).
  set (k := if m =? 0 then 8 else m).
  assert (0 < k ≤ 8 ∧ m = k mod 8) as [Hk Hm].
  { subst k. zcase; [by rewrite Z.mod_same by lia|]. rewrite Z.mod_small by lia. lia. }
  destruct (mask_commas_groups digits k Hk Hlen Hm) as (g & gs & E & Es & Hg & Hgs).
  exists g, gs. rewrite E. split_and!; [|done|lia|lia|done].
  destruct g as [|c g]; [simpl in Hg; lia|]. by destruct gs.
Qed.
End mask.
