(* ===== verification/Topology.v ===== *)
(** * Topology: the CPUs of the machine (lib/topology.h, lib/topology.cc)

    A [Topology] holds one [CpuRep] per CPU, the list of all CPUs and one list
    per NUMA node.  Two constructors are modelled: the one from an exported
    vector of [Cpu::Raw] and the one from the running machine, whose inputs
    (the sibling lines that sysfs shows for each CPU, libnuma's node of a CPU,
    the highest possible node) are arguments.  A [Cpu] is its id. *)

From S2P Require Import Prelude Outcome CpuMap.
From stdpp Require Import gmap sorting strings.
From Stdlib Require Import ZArith Lia.

Local Open Scope Z_scope.

(** ** Data *)

(** [Cpu::Raw] *)
Record Raw := mkRaw {
  raw_cpu : Z; raw_core : Z; raw_smt_idx : Z;
  raw_siblings : list Z; raw_l3_siblings : list Z; raw_numa_node : Z
}.

Global Instance Raw_eq_dec : EqDecision Raw.
Proof. solve_decision. Defined.

(** [Cpu::Raw::operator==] and [operator<] *)
Definition Raw_eqb (a b : Raw) : bool :=
  (raw_cpu a =? raw_cpu b) && (raw_core a =? raw_core b) && (raw_smt_idx a =? raw_smt_idx b) &&
  bool_decide (raw_siblings a = raw_siblings b) &&
  bool_decide (raw_l3_siblings a = raw_l3_siblings b) && (raw_numa_node a =? raw_numa_node b).

Definition Raw_ltb (a b : Raw) : bool := raw_cpu a <? raw_cpu b.

(** The order [std::sort] sorts by: [b < a] does not hold. *)
Definition Raw_le (a b : Raw) : Prop := Is_true (negb (Raw_ltb b a)).

Global Instance Raw_le_dec a b : Decision (Raw_le a b).
Proof. unfold Raw_le. apply _. Defined.

(** [Cpu::CpuRep] *)
Record CpuRep := mkCpuRep {
  rep_cpu : Z; rep_core : Z; rep_smt_idx : Z;
  rep_siblings : CpuList; rep_l3_siblings : CpuList; rep_numa_node : Z
}.

Record Topology := mkTopology {
  num_cpus_ : Z;
  all_cpus_ : CpuList;
  cpus_ : list CpuRep;
  highest_node_idx_ : Z;
  consecutive_smt_numbering_ : bool;
  cpus_on_node_ : list CpuList
}.

(** ** Accessors *)

(** [Topology::cpu(id)], giving access to the representation of that CPU. *)
Definition cpu_rep (t : Topology) (id : Z) : outcome CpuRep :=
  checkO (0 <=? id) ≫= λ _, checkO (id <? Z.of_nat (length (cpus_ t))) ≫= λ _,
  match cpus_ t !! Z.to_nat id with
  | Some r => Ok r
  | None => Crash OutOfBounds
  end.

Definition EmptyCpuList (num_cpus : Z) : outcome CpuList := CpuMap_new num_cpus.

(** [ToCpuList(const std::vector<int>&)]: [Set] takes a [uint32_t]. *)
Definition ToCpuList (num_cpus : Z) (cpus : list Z) : outcome CpuList :=
  EmptyCpuList num_cpus ≫= λ result, foldO (λ r i, CpuList_Set (u32 i) r) cpus result.

(** [ToCpuList(const cpu_set_t&)] and [ToCpuSet]; a [cpu_set_t] is its
    characteristic function. *)
Definition CPU_SETSIZE : Z := 1024.

Definition ToCpuList_set (num_cpus : Z) (cpus : Z → bool) : outcome CpuList :=
  EmptyCpuList num_cpus ≫= λ result,
  foldO (λ r cpu, if cpus cpu then CpuList_Set cpu r else Ok r) (seqZ 0 CPU_SETSIZE) result.

Definition ToCpuSet (l : CpuList) : outcome (Z → bool) :=
  iterate l ≫= λ cs,
  foldO (λ (set : Z → bool) c,
      checkO (0 <=? c) ≫= λ _, checkO (c <? CPU_SETSIZE) ≫= λ _,
      Ok (λ j, (j =? c) || set j)) cs (λ _, false).

(** [smt_count], [num_numa_nodes], [CpusOnNode] *)
Definition smt_count (t : Topology) : outcome Z :=
  match cpus_ t with
  | r :: _ => CpuMap_Size (rep_siblings r)
  | [] => Crash OutOfBounds
  end.

Definition num_numa_nodes (t : Topology) : Z := u32 (highest_node_idx_ t + 1).

Definition CpusOnNode (t : Topology) (node : Z) : outcome CpuList :=
  checkO (0 <=? node) ≫= λ _, checkO (node <? Z.of_nat (length (cpus_on_node_ t))) ≫= λ _,
  match cpus_on_node_ t !! Z.to_nat node with
  | Some l => Ok l
  | None => Crash OutOfBounds
  end.

(** [Cores]: the set of cores seen so far, and the result. *)
Definition Cores (t : Topology) (l : CpuList) : outcome CpuList :=
  EmptyCpuList (num_cpus_ t) ≫= λ result,
  iterate l ≫= λ cs,
  foldO (λ '(cores, result) c,
      cpu_rep t c ≫= λ r,
      if bool_decide (rep_core r ∈ (cores : list Z)) then Ok (cores, result)
      else CpuList_Set (u32 (rep_core r)) result ≫= λ result,
           Ok (rep_core r :: cores, result)) cs ([], result) ≫= λ p, Ok p.2.

Definition all_cores (t : Topology) : outcome CpuList := Cores t (all_cpus_ t).

(** ** Checks of a finished topology *)

Definition CheckConsecutiveSmtNumbering (t : Topology) : outcome bool :=
  cpu_rep t 0 ≫= λ r0,
  CpuMap_Size (rep_siblings r0) ≫= λ n,
  if negb (n =? 2) then checkO (n =? 1) ≫= λ _, Ok false
  else
    GetNthCpu 0 (rep_siblings r0) ≫= λ a, GetNthCpu 1 (rep_siblings r0) ≫= λ b,
    match a, b with
    | Some a, Some b =>
        let sibling_offset := Z.abs (a - b) in
        if sibling_offset =? 1 then Ok true
        else all_cores t ≫= λ cores, CpuMap_Size cores ≫= λ nc,
             checkO (sibling_offset =? nc) ≫= λ _, Ok false
    | _, _ => Crash UseAfterFree
    end.

(** [CheckSiblings]: every CPU is its own sibling, and siblings (of both kinds)
    have identical lists. *)
Definition CheckSiblings_of (t : Topology) (get : CpuRep → CpuList) (r : CpuRep) : outcome unit :=
  iterate (get r) ≫= λ ss,
  forO (λ s, cpu_rep t s ≫= λ rs, checkO (CpuList_eqb (get r) (get rs))) ss.

Definition CheckSiblings (t : Topology) : outcome unit :=
  iterate (all_cpus_ t) ≫= λ cs,
  forO (λ c,
    cpu_rep t c ≫= λ r,
    CpuList_IsSet c (rep_siblings r) ≫= λ b, checkO b ≫= λ _,
    CheckSiblings_of t rep_siblings r ≫= λ _,
    CheckSiblings_of t rep_l3_siblings r) cs.

(** [CreateCpuListsForNumaNodes] *)
Definition CreateCpuListsForNumaNodes (t : Topology) (num_possible_nodes : Z) : outcome Topology :=
  EmptyCpuList (num_cpus_ t) ≫= λ e,
  iterate (all_cpus_ t) ≫= λ cs,
  foldO (λ (nodes : list CpuList) c,
      cpu_rep t c ≫= λ r,
      let node := rep_numa_node r in
      checkO (0 <=? node) ≫= λ _, checkO (node <? num_possible_nodes) ≫= λ _,
      match nodes !! Z.to_nat node with
      | Some l => CpuList_Set c l ≫= λ l', Ok (<[Z.to_nat node := l']> nodes)
      | None => Crash OutOfBounds
      end) cs (replicate (Z.to_nat num_possible_nodes) e) ≫= λ nodes,
  Ok (mkTopology (num_cpus_ t) (all_cpus_ t) (cpus_ t) (highest_node_idx_ t)
        (consecutive_smt_numbering_ t) nodes).

Definition set_consecutive (b : bool) (t : Topology) : Topology :=
  mkTopology (num_cpus_ t) (all_cpus_ t) (cpus_ t) (highest_node_idx_ t) b (cpus_on_node_ t).

(** The three calls with which every constructor ends. *)
Definition finish_topology (t : Topology) : outcome Topology :=
  CheckSiblings t ≫= λ _,
  CreateCpuListsForNumaNodes t (highest_node_idx_ t + 1) ≫= λ t,
  CheckConsecutiveSmtNumbering t ≫= λ b, Ok (set_consecutive b t).

(** ** The custom topology *)

(** [CheckCustomTopology]: ids 0, 1, 2, ... and valid siblings. *)
Definition CheckCustomTopology (cpus : list Raw) : outcome unit :=
  let n := Z.of_nat (length cpus) in
  checkO (negb (n =? 0)) ≫= λ _,
  foldO (λ next cpu,
      checkO (raw_cpu cpu =? next) ≫= λ _,
      forO (λ s, checkO (0 <=? s) ≫= λ _, checkO (s <? n)) (raw_siblings cpu) ≫= λ _,
      forO (λ s, checkO (0 <=? s) ≫= λ _, checkO (s <? n)) (raw_l3_siblings cpu) ≫= λ _,
      Ok (next + 1)) cpus 0 ≫= λ _, Ok tt.

(** One iteration of the second loop of [Topology(InitCustom, raw_cpus)]. *)
Definition custom_step (num_cpus : Z) (st : list CpuRep * Z * CpuList) (raw : Raw)
  : outcome (list CpuRep * Z * CpuList) :=
  let '(reps, highest, all) := st in
  let i := Z.of_nat (length reps) in
  ToCpuList num_cpus (raw_siblings raw) ≫= λ sib,
  ToCpuList num_cpus (raw_l3_siblings raw) ≫= λ l3,
  CpuList_Set i all ≫= λ all,
  Ok (reps ++ [mkCpuRep i (raw_core raw) (raw_smt_idx raw) sib l3 (raw_numa_node raw)],
      Z.max (raw_numa_node raw) highest, all).

Definition Topology_InitCustom (raw_cpus : list Raw) : outcome Topology :=
  let num_cpus := Z.of_nat (length raw_cpus) in
  EmptyCpuList num_cpus ≫= λ all,
  checkO (num_cpus <=? MAX_CPUS) ≫= λ _,
  let raw_cpus := merge_sort Raw_le raw_cpus in
  CheckCustomTopology raw_cpus ≫= λ _,
  foldO (custom_step num_cpus) raw_cpus ([], -1, all) ≫= λ '(reps, highest, all),
  finish_topology (mkTopology num_cpus all reps highest false []).

(** [Export] *)
Definition Export (t : Topology) : outcome (list Raw) :=
  iterate (all_cpus_ t) ≫= λ cs,
  mapO (λ c,
    cpu_rep t c ≫= λ r,
    ToIntVector (rep_siblings r) ≫= λ s, ToIntVector (rep_l3_siblings r) ≫= λ l3,
    Ok (mkRaw (rep_cpu r) (rep_core r) (rep_smt_idx r) s l3 (rep_numa_node r))) cs.

(** ** The host topology *)

(** [GetAllSiblings]: [line cpu] is the first line of the CPU's sysfs file.
    CPUs are grouped by identical lines; an empty line is only accepted for
    the first CPU, and then there are no siblings at all.  The groups are
    visited in the order of the hash map, on which the result does not depend:
    no CPU is in two groups. *)
Fixpoint sibling_map_loop (line : Z → string) (k : nat) (cpu : Z)
    (m : gmap string (list Z)) : outcome (gmap string (list Z)) :=
  match k with
  | O => Ok m
  | S k =>
      if bool_decide (line cpu = EmptyString) then checkO (cpu =? 0) ≫= λ _, Ok m
      else sibling_map_loop line k (cpu + 1)
             (<[line cpu := default [] (m !! line cpu) ++ [cpu]]> m)
  end.

Definition GetAllSiblings (num_cpus : Z) (line : Z → string) : outcome (gmap Z CpuList) :=
  sibling_map_loop line (Z.to_nat num_cpus) 0 ∅ ≫= λ sibling_map,
  foldO (λ (siblings : gmap Z CpuList) (kv : string * list Z),
      foldO (λ (siblings : gmap Z CpuList) cpu,
          ToCpuList num_cpus kv.2 ≫= λ l,
          checkO (bool_decide (siblings !! cpu = None)) ≫= λ _,
          Ok (<[cpu := l]> siblings)) kv.2 siblings)
    (map_to_list sibling_map) (∅ : gmap Z CpuList).

(** The index of [cpu] among its siblings: the [for] over [MAX_CPUS]. *)
Fixpoint smt_idx_loop (sib : CpuList) (cpu : Z) (k : nat) (c idx : Z) : outcome Z :=
  match k with
  | O => Ok idx
  | S k =>
      CpuList_IsSet c sib ≫= λ b : bool,
      if b then (if c =? cpu then Ok (idx + 1) else smt_idx_loop sib cpu k (c + 1) (idx + 1))
      else smt_idx_loop sib cpu k (c + 1) idx
  end.

Section host.
(** sysfs and libnuma *)
Variables (thread_line l3_line : Z → string) (numa_node_of_cpu : Z → Z) (highest_node : Z).

(** One iteration of the loop of [Topology(InitHost)]. *)
Definition host_step (num_cpus : Z) (siblings l3_siblings : gmap Z CpuList)
    (st : list CpuRep * CpuList) (i : Z) : outcome (list CpuRep * CpuList) :=
  let '(reps, all) := st in
  match siblings !! i with
  | None => Crash CheckFailed
  | Some sib =>
      EmptyCpuList num_cpus ≫= λ e,
      (if bool_decide (l3_siblings = ∅) then Ok e
       else match l3_siblings !! i with Some l => Ok l | None => Crash CheckFailed end) ≫= λ l3,
      begin sib ≫= λ b,
      match cpu_ b with
      | None => Crash UseAfterFree
      | Some core =>
          checkO (0 <=? numa_node_of_cpu i) ≫= λ _,
          smt_idx_loop sib i (Z.to_nat MAX_CPUS) 0 (-1) ≫= λ idx,
          checkO (0 <=? idx) ≫= λ _,
          CpuList_Set i all ≫= λ all,
          Ok (reps ++ [mkCpuRep i core idx sib l3 (numa_node_of_cpu i)], all)
      end
  end.

Definition Topology_InitHost (num_cpus : Z) : outcome Topology :=
  EmptyCpuList num_cpus ≫= λ all,
  checkO (num_cpus <=? MAX_CPUS) ≫= λ _,
  GetAllSiblings num_cpus thread_line ≫= λ siblings,
  checkO (Z.of_nat (size siblings) =? num_cpus) ≫= λ _,
  GetAllSiblings num_cpus l3_line ≫= λ l3_siblings,
  checkO (bool_decide (l3_siblings = ∅) || (Z.of_nat (size l3_siblings) =? num_cpus)) ≫= λ _,
  foldO (host_step num_cpus siblings l3_siblings) (seqZ 0 num_cpus) ([], all) ≫= λ '(reps, all),
  finish_topology (mkTopology num_cpus all reps highest_node false []).
End host.
