(* ===== verification/TopologySpec.v ===== *)
(** * TopologySpec: building and exporting a topology

    The two constructors of [Topology] succeed on consistent inputs and build
    the lists that the inputs describe: siblings, cores, SMT indices, NUMA
    nodes.  A custom topology exports the vector it was built from. *)

From S2P Require Import Prelude Outcome CpuMap CpuMapSpec.
From S2P Require Import Topology.
From stdpp Require Import gmap sorting strings.
From Stdlib Require Import ZArith Lia Ascii.

Local Open Scope Z_scope.

(** ** Lists of CPUs *)

Lemma elems_num l : cpulist_wf l → elems l = List.filter (bit l) (seqZ 0 (topology_num_cpus l)).
Proof.
  intros Hwf. pose proof (wf_map_size l Hwf) as [Hms Hcov]. pose proof (wf_cpus l Hwf).
  unfold elems, elems_from. rewrite Z.sub_0_r.
  replace (64 * map_size_ l) with (topology_num_cpus l + (64 * map_size_ l - topology_num_cpus l)) by lia.
  rewrite seqZ_split, List.filter_app by lia.
  rewrite (filter_none _ (seqZ (0 + _) _)), app_nil_r; [done|].
  intros j Hj%elem_of_seqZ. destruct (bit l j) eqn:E; [|done].
  pose proof (bit_range l j Hwf ltac:(lia) E). lia.
Qed.

Lemma filter_all {A} (f : A → bool) l : (∀ x, x ∈ l → f x = true) → List.filter f l = l.
Proof.
  induction l as [|x l IH]; intros H; simpl; [done|].
  rewrite H by left. f_equal. apply IH. intros y Hy. apply H. by right.
Qed.

(** [ToCpuList] builds the set of the given CPUs. *)
Lemma ToCpuList_spec n l :
  0 ≤ n ≤ 512 → Forall (λ i, 0 ≤ i < n) l →
  ∃ r, ToCpuList n l = Ok r ∧ cpulist_wf r ∧ topology_num_cpus r = n ∧
    ∀ j, 0 ≤ j → bit r j = bool_decide (j ∈ l).
Proof.
  intros Hn Hl. unfold ToCpuList, EmptyCpuList.
  destruct (CpuMap_new_spec n Hn) as (e & -> & We & Te & Be). simpl.
  set (P := λ (pre : list Z) r, cpulist_wf r ∧ topology_num_cpus r = n ∧
              ∀ j, 0 ≤ j → bit r j = bool_decide (j ∈ pre)).
  assert (wpo (foldO (λ r i, CpuList_Set (u32 i) r) l e) (P l)) as H.
  { apply (wpo_foldO _ P [] l).
    - split_and!; [done|done|]. intros j _. rewrite Be. symmetry. apply bool_decide_false, not_elem_of_nil.
    - intros d x r b E (Wb & Tb & Hb).
      assert (0 ≤ x < n) as Hx.
      { simpl in E. subst l. rewrite Forall_forall in Hl. apply Hl. apply elem_of_app. right. by left. }
      rewrite u32_small by lia.
      destruct (Set_spec b x Wb) as (b' & -> & Wb' & Tb' & Hb'); [lia|]. simpl.
      split_and!; [done|congruence|]. intros j Hj. rewrite Hb', Hb by done.
      destruct (Z.eqb_spec x j) as [<-|Hne]; simpl.
      + symmetry. apply bool_decide_true. apply elem_of_app. right. by left.
      + apply bool_decide_ext. rewrite elem_of_app, list_elem_of_singleton. intuition congruence. }
  apply wpo_ok in H as (r & E & H). eauto.
Qed.

Lemma ToIntVector_ToCpuList l n :
  cpulist_wf l → topology_num_cpus l = n → ToIntVector l ≫= ToCpuList n = Ok l.
Proof.
  intros Hwf Hn. rewrite ToIntVector_spec by done. simpl. pose proof (wf_cpus l Hwf).
  destruct (ToCpuList_spec n (elems l)) as (r & -> & Wr & Tr & Br); [lia| |].
  { rewrite Forall_forall. intros i Hi. rewrite <- Hn. by apply elems_lt. }
  f_equal. apply cpulist_ext; [done|done|congruence|]. intros j Hj. rewrite Br by done.
  destruct (bit l j) eqn:E; [apply bool_decide_true|apply bool_decide_false];
    rewrite elem_of_elems by done; [done|]. intros [_ ?]. congruence.
Qed.

(** A list is what it enumerates: the set of a sorted list has that list as
    its elements. *)
Lemma sorted_lt_unique l1 l2 :
  StronglySorted Z.lt l1 → StronglySorted Z.lt l2 → (∀ x, x ∈ l1 ↔ x ∈ l2) → l1 = l2.
Proof.
  intros H1 H2 H.
  assert (AntiSymm eq Z.lt) by (intros x y Hxy Hyx; lia).
  apply (StronglySorted_unique Z.lt); [done..|].
  apply NoDup_Permutation; [by apply sorted_lt_nodup|by apply sorted_lt_nodup|done].
Qed.

Lemma elems_of_sorted r l :
  cpulist_wf r → StronglySorted Z.lt l → Forall (λ i, 0 ≤ i) l →
  (∀ j, 0 ≤ j → bit r j = bool_decide (j ∈ l)) → elems r = l.
Proof.
  intros Hwf Hs Hl Hb. apply sorted_lt_unique; [apply elems_from_sorted|done|].
  intros x. rewrite elem_of_elems by done. rewrite Forall_forall in Hl. split.
  - intros [Hx Hx']. rewrite Hb in Hx' by done. by apply bool_decide_eq_true in Hx'.
  - intros Hx. split; [by apply Hl|]. rewrite Hb by (by apply Hl). by apply bool_decide_true.
Qed.

(** ** Consistent topologies *)

Definition sib_lists : list (CpuRep → CpuList) := [rep_siblings; rep_l3_siblings].

(** Everything the constructors establish before their final checks. *)
Record topo_ok (t : Topology) : Prop := {
  to_num : 1 ≤ num_cpus_ t ≤ 512;
  to_all : cpulist_wf (all_cpus_ t) ∧ topology_num_cpus (all_cpus_ t) = num_cpus_ t;
  to_all_bits : ∀ j, 0 ≤ j → bit (all_cpus_ t) j = bool_decide (j < num_cpus_ t);
  to_len : Z.of_nat (length (cpus_ t)) = num_cpus_ t;
  to_rep : ∀ i r, cpus_ t !! i = Some r → rep_cpu r = Z.of_nat i;
  to_lists : ∀ i r get, cpus_ t !! i = Some r → get ∈ sib_lists →
    cpulist_wf (get r) ∧ topology_num_cpus (get r) = num_cpus_ t
}.

(** Siblings of each kind agree on their lists, and every CPU is its own
    thread sibling. *)
Record siblings_ok (t : Topology) : Prop := {
  so_self : ∀ i r, cpus_ t !! i = Some r → bit (rep_siblings r) (Z.of_nat i) = true;
  so_same : ∀ i r get j, cpus_ t !! i = Some r → get ∈ sib_lists →
    0 ≤ j → bit (get r) j = true →
    ∃ r', cpus_ t !! Z.to_nat j = Some r' ∧ ∀ k, 0 ≤ k → bit (get r') k = bit (get r) k
}.

Section topo.
Context (t : Topology) (Hok : topo_ok t).

Lemma all_elems : elems (all_cpus_ t) = seqZ 0 (num_cpus_ t).
Proof using Hok.
  pose proof (to_all t Hok) as [Hw Ht]. rewrite elems_num, Ht by done. apply filter_all.
  intros j Hj%elem_of_seqZ. rewrite (to_all_bits t Hok) by lia. apply bool_decide_true. lia.
Qed.

Lemma all_iterate : iterate (all_cpus_ t) = Ok (seqZ 0 (num_cpus_ t)).
Proof using Hok. rewrite iterate_spec by apply Hok. by rewrite all_elems. Qed.

Lemma rep_exists i :
  0 ≤ i < num_cpus_ t → ∃ r, cpus_ t !! Z.to_nat i = Some r ∧ cpu_rep t i = Ok r.
Proof using Hok.
  intros Hi. pose proof (to_len t Hok).
  destruct (lookup_lt_is_Some_2 (cpus_ t) (Z.to_nat i)) as [r Hr]; [lia|].
  exists r. split; [done|]. unfold cpu_rep.
  rewrite (proj2 (Z.leb_le 0 i)), (proj2 (Z.ltb_lt i _)) by lia. simpl. by rewrite Hr.
Qed.

Lemma cpu_rep_ok i r :
  0 ≤ i → cpus_ t !! Z.to_nat i = Some r → cpu_rep t i = Ok r.
Proof using Hok.
  intros Hi Hr. pose proof (to_len t Hok). apply lookup_lt_Some in Hr as Hlt.
  destruct (rep_exists i) as (r' & Hr' & E); [lia|]. congruence.
Qed.

(** *** [CheckSiblings] *)
Lemma CheckSiblings_of_ok (Hs : siblings_ok t) get i r :
  get ∈ sib_lists → cpus_ t !! i = Some r → CheckSiblings_of t get r = Ok tt.
Proof using Hok.
  intros Hget Hr. destruct (to_lists t Hok i r get Hr Hget) as [Hw Ht].
  unfold CheckSiblings_of. rewrite iterate_spec by done. simpl. apply forO_ok.
  intros j Hj. apply elem_of_elems in Hj as [Hj Hb]; [|done].
  destruct (so_same t Hs i r get j Hr Hget Hj Hb) as (r' & Hr' & Hsame).
  rewrite (cpu_rep_ok j r') by done. simpl.
  destruct (to_lists t Hok _ r' get Hr' Hget) as [Hw' Ht'].
  rewrite (proj2 (CpuList_eqb_spec (get r) (get r') Hw Hw' ltac:(congruence))); [done|].
  intros k Hk. by rewrite Hsame.
Qed.

Lemma CheckSiblings_ok : siblings_ok t → CheckSiblings t = Ok tt.
Proof using Hok.
  intros Hs. unfold CheckSiblings. rewrite all_iterate. simpl. apply forO_ok.
  intros c Hc%elem_of_seqZ. destruct (rep_exists c) as (r & Hr & ->); [lia|]. simpl.
  pose proof (to_num t Hok). rewrite IsSet_spec by lia. simpl.
  pose proof (so_self t Hs _ r Hr) as Hself. rewrite Z2Nat.id in Hself by lia.
  rewrite Hself. simpl.
  rewrite (CheckSiblings_of_ok Hs rep_siblings _ r) by (done || by left). simpl.
  apply (CheckSiblings_of_ok Hs rep_l3_siblings (Z.to_nat c) r); [right; by left|done].
Qed.

(** *** NUMA nodes *)

(** The node lists after the CPUs [pre] were placed. *)
Definition nodes_of (n : Z) (pre : list Z) (nodes : list CpuList) : Prop :=
  Z.of_nat (length nodes) = n ∧
  ∀ k l, nodes !! k = Some l →
    cpulist_wf l ∧ topology_num_cpus l = num_cpus_ t ∧
    ∀ j, 0 ≤ j → bit l j = true ↔
      j ∈ pre ∧ ∃ r, cpus_ t !! Z.to_nat j = Some r ∧ rep_numa_node r = Z.of_nat k.

Lemma CreateCpuLists_ok n :
  (∀ i r, cpus_ t !! i = Some r → 0 ≤ rep_numa_node r < n) →
  ∃ nodes, CreateCpuListsForNumaNodes t n =
    Ok (mkTopology (num_cpus_ t) (all_cpus_ t) (cpus_ t) (highest_node_idx_ t)
          (consecutive_smt_numbering_ t) nodes) ∧
    nodes_of n (seqZ 0 (num_cpus_ t)) nodes.
Proof using Hok.
  intros Hnode. pose proof (to_num t Hok) as Hnum.
  unfold CreateCpuListsForNumaNodes, EmptyCpuList.
  destruct (CpuMap_new_spec (num_cpus_ t)) as (e & -> & We & Te & Be); [lia|]. simpl.
  rewrite all_iterate. simpl. set (step := λ (nodes : list CpuList) (c : Z), _).
  assert (wpo (foldO step (seqZ 0 (num_cpus_ t)) (replicate (Z.to_nat n) e))
            (nodes_of n (seqZ 0 (num_cpus_ t)))) as H.
  { apply (wpo_foldO step (nodes_of n) []).
    - assert (0 ≤ n).
      { destruct (rep_exists 0) as (r & Hr & _); [lia|]. specialize (Hnode _ r Hr). lia. }
      split; [rewrite length_replicate; lia|]. intros k l [-> _]%lookup_replicate.
      split_and!; [done|done|]. intros j Hj. rewrite Be. split; [done|].
      intros [Hj' _]. by apply elem_of_nil in Hj'.
    - intros d c r nodes E [Hlen Hnodes].
      assert (c ∈ seqZ 0 (num_cpus_ t)) as Hc
        by (rewrite <- (app_nil_l (seqZ _ _)), E; apply elem_of_app; right; by left).
      apply elem_of_seqZ in Hc. destruct (rep_exists c) as (rc & Hrc & Erc); [lia|].
      specialize (Hnode _ rc Hrc). subst step. cbv beta. rewrite Erc. simpl.
      rewrite (proj2 (Z.leb_le 0 _)), (proj2 (Z.ltb_lt _ n)) by lia. simpl.
      destruct (lookup_lt_is_Some_2 nodes (Z.to_nat (rep_numa_node rc))) as [l Hl]; [lia|].
      rewrite Hl. destruct (Hnodes _ _ Hl) as (Wl & Tl & Bl).
      destruct (Set_spec l c Wl) as (l' & -> & Wl' & Tl' & Bl'); [lia|]. simpl.
      split; [by rewrite length_insert|]. intros k lk Hk.
      destruct (decide (k = Z.to_nat (rep_numa_node rc))) as [->|Hne].
      + rewrite list_lookup_insert_eq in Hk by lia. injection Hk as <-.
        split_and!; [done|congruence|]. intros j Hj. rewrite Bl', orb_true_iff, Bl by done.
        rewrite elem_of_app, list_elem_of_singleton, Z.eqb_eq.
        split; [|naive_solver]. intros [->|?]; [|naive_solver].
        split; [by right|]. exists rc. rewrite Z2Nat.id by lia. done.
      + rewrite list_lookup_insert_ne in Hk by done. destruct (Hnodes _ _ Hk) as (Wk & Tk & Bk).
        split_and!; [done|done|]. intros j Hj. rewrite Bk by done.
        rewrite elem_of_app, list_elem_of_singleton. split; [naive_solver|].
        intros [[?| ->] (r' & Hr' & Hnr)]; [naive_solver|].
        exfalso. apply Hne. rewrite Hrc in Hr'. injection Hr' as ->. lia. }
  apply wpo_ok in H as (nodes & -> & H). simpl. eauto.
Qed.
End topo.

(** ** Cores and SMT numbering *)

Section smt.
Context (t : Topology) (Hok : topo_ok t).
Hypothesis Hcore : ∀ i r, cpus_ t !! i = Some r → 0 ≤ rep_core r < num_cpus_ t.

(** The cores met while visiting [pre]. *)
Definition cores_of (pre : list Z) (st : list Z * CpuList) : Prop :=
  cpulist_wf st.2 ∧ topology_num_cpus st.2 = num_cpus_ t ∧
  (∀ j, 0 ≤ j → bit st.2 j = bool_decide (j ∈ st.1)) ∧
  ∀ j, j ∈ st.1 ↔ ∃ c r, c ∈ pre ∧ cpus_ t !! Z.to_nat c = Some r ∧ rep_core r = j.

Lemma Cores_ok :
  ∃ l, all_cores t = Ok l ∧ cpulist_wf l ∧
    ∀ j, 0 ≤ j → bit l j = true ↔ ∃ i r, cpus_ t !! i = Some r ∧ rep_core r = j.
Proof using Hok Hcore.
  pose proof (to_num t Hok) as Hnum. unfold all_cores, Cores, EmptyCpuList.
  destruct (CpuMap_new_spec (num_cpus_ t)) as (e & -> & We & Te & Be); [lia|]. simpl.
  rewrite (all_iterate t Hok). simpl. set (step := λ '(cores, result) (c : Z), _).
  assert (wpo (foldO step (seqZ 0 (num_cpus_ t)) ([], e)) (cores_of (seqZ 0 (num_cpus_ t)))) as H.
  { apply (wpo_foldO step cores_of []).
    - split_and!; [done|done| |].
      + intros j _. rewrite Be. symmetry. apply bool_decide_false, not_elem_of_nil.
      + intros j. split; [by intros ?%elem_of_nil|]. intros (c & r & Hc & _). by apply elem_of_nil in Hc.
    - intros d c r [cores l] E (Wl & Tl & Bl & Hcs). simpl in Wl, Tl, Bl, Hcs.
      assert (c ∈ seqZ 0 (num_cpus_ t)) as Hc
        by (rewrite <- (app_nil_l (seqZ _ _)), E; apply elem_of_app; right; by left).
      apply elem_of_seqZ in Hc. destruct (rep_exists t Hok c) as (rc & Hrc & Erc); [lia|].
      specialize (Hcore _ rc Hrc). unfold step. rewrite Erc. simpl.
      case_bool_decide as Hin.
      + split_and!; [done|done|done|]. intros j. simpl. rewrite Hcs.
        setoid_rewrite elem_of_app. setoid_rewrite list_elem_of_singleton.
        split; [naive_solver|]. intros (c' & r' & [?| ->] & Hr' & Ej); [naive_solver|].
        apply Hcs in Hin as (c' & r'' & ? & ? & ?). exists c', r''. naive_solver.
      + rewrite u32_small by lia.
        destruct (Set_spec l (rep_core rc) Wl) as (l' & -> & Wl' & Tl' & Bl'); [lia|]. simpl.
        split_and!; simpl; [done|congruence| |].
        * intros j Hj. rewrite Bl', Bl by done. rewrite (bool_decide_ext (j ∈ rep_core rc :: cores)
            (j = rep_core rc ∨ j ∈ cores)) by by rewrite elem_of_cons.
          rewrite bool_decide_or. f_equal. zcase; [by rewrite bool_decide_true|by rewrite bool_decide_false].
        * intros j. rewrite elem_of_cons, Hcs.
          setoid_rewrite elem_of_app. setoid_rewrite list_elem_of_singleton. naive_solver. }
  apply wpo_ok in H as ([cores l] & -> & Wl & Tl & Bl & Hcs). simpl in *.
  exists l. split_and!; [done|done|]. intros j Hj. rewrite Bl, bool_decide_eq_true, Hcs by done.
  split.
  - intros (c & r & _ & Hr & Ej). eauto.
  - intros (i & r & Hr & Ej). exists (Z.of_nat i), r. rewrite Nat2Z.id. split_and!; [|done|done].
    apply lookup_lt_Some in Hr. pose proof (to_len t Hok). apply elem_of_seqZ. lia.
Qed.

(** The number of physical cores. *)
Definition num_cores : Z := Z.of_nat (length (remove_dups (rep_core <$> cpus_ t))).

Lemma all_cores_size l : all_cores t = Ok l → CpuMap_Size l = Ok num_cores.
Proof using Hok Hcore.
  destruct Cores_ok as (l' & E & Wl & Bl). rewrite E. intros [= <-].
  rewrite CpuMap_Size_spec by done. f_equal. unfold num_cores. f_equal.
  apply Permutation_length, NoDup_Permutation;
    [apply sorted_lt_nodup, elems_from_sorted|apply NoDup_remove_dups|].
  intros j. rewrite elem_of_elems, elem_of_remove_dups, list_elem_of_fmap by done. split.
  - intros [Hj (i & r & Hr & Ej)%Bl]; [|done]. exists r. split; [done|]. by eapply list_elem_of_lookup_2.
  - intros (r & -> & Hr). apply list_elem_of_lookup_1 in Hr as [i Hr].
    specialize (Hcore i r Hr). split; [lia|]. apply Bl; [lia|]. eauto.
Qed.

(** What [CheckConsecutiveSmtNumbering] accepts: one thread per core, or two
    that are adjacent or a number of cores apart. *)
Definition smt_numbering (s : list Z) (consecutive : bool) : Prop :=
  match s with
  | [_] => consecutive = false
  | [a; b] => if consecutive then b - a = 1 else b - a ≠ 1 ∧ b - a = num_cores
  | _ => False
  end.

Lemma CheckConsecutive_ok r0 b :
  cpus_ t !! 0%nat = Some r0 → smt_numbering (elems (rep_siblings r0)) b →
  CheckConsecutiveSmtNumbering t = Ok b.
Proof using Hok Hcore.
  intros Hr0 Hs. destruct (to_lists t Hok 0 r0 rep_siblings Hr0) as [W0 T0]; [by left|].
  unfold CheckConsecutiveSmtNumbering. rewrite (cpu_rep_ok t Hok 0 r0) by done. simpl.
  rewrite CpuMap_Size_spec by done. simpl.
  destruct (elems (rep_siblings r0)) as [|x [|y [|]]] eqn:E; try done; simpl in Hs.
  - subst b. done.
  - simpl. rewrite !GetNthCpu_spec, E by done. simpl.
    pose proof (elems_from_sorted (rep_siblings r0) 0) as Hsort. fold (elems (rep_siblings r0)) in Hsort.
    rewrite E in Hsort. apply StronglySorted_inv in Hsort as [_ Hlt]. apply Forall_inv in Hlt.
    replace (Z.abs (x - y)) with (y - x) by lia.
    destruct b; zcase; try lia; try done.
    destruct Cores_ok as (l & El & _). rewrite El. simpl. rewrite (all_cores_size l El). simpl.
    by rewrite (proj2 (Z.eqb_eq _ _)) by lia.
Qed.
End smt.

(** ** The three final calls *)

Lemma finish_ok t r0 b :
  topo_ok t → siblings_ok t →
  (∀ i r, cpus_ t !! i = Some r →
     0 ≤ rep_core r < num_cpus_ t ∧ 0 ≤ rep_numa_node r ≤ highest_node_idx_ t) →
  cpus_ t !! 0%nat = Some r0 → smt_numbering t (elems (rep_siblings r0)) b →
  ∃ nodes, finish_topology t =
    Ok (mkTopology (num_cpus_ t) (all_cpus_ t) (cpus_ t) (highest_node_idx_ t) b nodes) ∧
    nodes_of t (highest_node_idx_ t + 1) (seqZ 0 (num_cpus_ t)) nodes.
Proof.
  intros Hok Hs Hr Hr0 Hsmt. unfold finish_topology. rewrite CheckSiblings_ok by done. simpl.
  destruct (CreateCpuLists_ok t Hok (highest_node_idx_ t + 1)) as (nodes & -> & Hn).
  { intros i r Hi. specialize (Hr i r Hi). lia. }
  simpl. set (t' := mkTopology _ _ _ _ _ nodes).
  assert (topo_ok t') as Hok' by (destruct Hok; by constructor).
  rewrite (CheckConsecutive_ok t' Hok' (λ i r Hi, proj1 (Hr i r Hi)) r0 b Hr0 Hsmt). simpl. eauto.
Qed.

(** ** Custom topologies *)

(** A consistent export, in the order of the CPU ids: what [Export] produces
    and [Topology(InitCustom)] accepts. *)
Record raws_ok (s : list Raw) : Prop := {
  ro_len : 1 ≤ Z.of_nat (length s) ≤ 512;
  ro_ids : ∀ i r, s !! i = Some r → raw_cpu r = Z.of_nat i;
  ro_sorted : ∀ i r, s !! i = Some r →
    StronglySorted Z.lt (raw_siblings r) ∧ StronglySorted Z.lt (raw_l3_siblings r);
  ro_range : ∀ i r, s !! i = Some r →
    Forall (λ j, 0 ≤ j < Z.of_nat (length s)) (raw_siblings r) ∧
    Forall (λ j, 0 ≤ j < Z.of_nat (length s)) (raw_l3_siblings r);
  ro_self : ∀ i r, s !! i = Some r → Z.of_nat i ∈ raw_siblings r;
  ro_same : ∀ i r get j, s !! i = Some r → get ∈ [raw_siblings; raw_l3_siblings] → j ∈ get r →
    ∃ r', s !! Z.to_nat j = Some r' ∧ get r' = get r;
  ro_core : ∀ i r, s !! i = Some r → 0 ≤ raw_core r < Z.of_nat (length s);
  ro_numa : ∀ i r, s !! i = Some r → 0 ≤ raw_numa_node r
}.

Definition raw_num_cores (s : list Raw) : Z := Z.of_nat (length (remove_dups (raw_core <$> s))).

(** The SMT numbering of the first CPU, on the exported vector. *)
Definition raw_smt_ok (s : list Raw) : Prop :=
  ∃ r0, s !! 0%nat = Some r0 ∧
    match raw_siblings r0 with
    | [_] => True
    | [a; b] => b - a = 1 ∨ b - a = raw_num_cores s
    | _ => False
    end.

(** A representation built from [raw]. *)
Definition rep_of (n : Z) (raw : Raw) (r : CpuRep) : Prop :=
  rep_cpu r = raw_cpu raw ∧ rep_core r = raw_core raw ∧ rep_smt_idx r = raw_smt_idx raw ∧
  rep_numa_node r = raw_numa_node raw ∧
  (cpulist_wf (rep_siblings r) ∧ topology_num_cpus (rep_siblings r) = n) ∧
  (cpulist_wf (rep_l3_siblings r) ∧ topology_num_cpus (rep_l3_siblings r) = n) ∧
  elems (rep_siblings r) = raw_siblings raw ∧ elems (rep_l3_siblings r) = raw_l3_siblings raw.

Section custom.
Context (s : list Raw) (Hs : raws_ok s).
Let n := Z.of_nat (length s).

Lemma ToCpuList_sorted l :
  StronglySorted Z.lt l → Forall (λ j, 0 ≤ j < n) l →
  ∃ r, ToCpuList n l = Ok r ∧ (cpulist_wf r ∧ topology_num_cpus r = n) ∧ elems r = l.
Proof using Hs.
  intros Hl Hr. pose proof (ro_len s Hs). destruct (ToCpuList_spec n l) as (r & -> & Wr & Tr & Br); [lia|done|].
  exists r. split_and!; [done|done|done|]. apply elems_of_sorted; [done|done| |done].
  eapply Forall_impl; [exact Hr|]. intros x Hx. simpl in Hx. lia.
Qed.

(** The loop of the constructor after the CPUs [pre]. *)
Definition custom_inv (pre : list Raw) (st : list CpuRep * Z * CpuList) : Prop :=
  let '(reps, highest, all) := st in
  Forall2 (rep_of n) pre reps ∧
  (∀ r, r ∈ pre → raw_numa_node r ≤ highest) ∧
  cpulist_wf all ∧ topology_num_cpus all = n ∧
  ∀ j, 0 ≤ j → bit all j = bool_decide (j < Z.of_nat (length pre)).

Lemma custom_step_ok pre raw rest st :
  s = pre ++ raw :: rest → custom_inv pre st → wpo (custom_step n st raw) (custom_inv (pre ++ [raw])).
Proof using Hs.
  intros E. destruct st as [[reps highest] all]. intros (Hreps & Hhi & Wa & Ta & Ba).
  assert (s !! length pre = Some raw) as Hraw by (rewrite E; by apply list_lookup_middle).
  destruct (ro_sorted s Hs _ raw Hraw) as [S1 S2]. destruct (ro_range s Hs _ raw Hraw) as [R1 R2].
  pose proof (ro_ids s Hs _ raw Hraw) as Hid. apply Forall2_length in Hreps as Hlen.
  apply lookup_lt_Some in Hraw as Hlt.
  unfold custom_step.
  destruct (ToCpuList_sorted _ S1 R1) as (l1 & -> & W1 & E1).
  destruct (ToCpuList_sorted _ S2 R2) as (l2 & -> & W2 & E2). simpl.
  destruct (Set_spec all (Z.of_nat (length reps)) Wa) as (all' & -> & Wa' & Ta' & Ba'); [unfold n in *; lia|].
  simpl. split_and!.
  - apply Forall2_app; [done|]. constructor; [|constructor].
    unfold rep_of. simpl. split_and!; try done; try apply W1; try apply W2. lia.
  - intros r [Hr| ->%list_elem_of_singleton]%elem_of_app; [specialize (Hhi r Hr); lia|lia].
  - done.
  - congruence.
  - intros j Hj. rewrite Ba', Ba by done. rewrite length_app. simpl.
    destruct (Z.eqb_spec (Z.of_nat (length reps)) j) as [<-|]; simpl.
    + symmetry. apply bool_decide_true. lia.
    + apply bool_decide_ext. lia.
Qed.

Lemma custom_loop_ok all :
  cpulist_wf all → topology_num_cpus all = n → (∀ j, bit all j = false) →
  ∃ st, foldO (custom_step n) s ([], -1, all) = Ok st ∧ custom_inv s st.
Proof using Hs.
  intros Wa Ta Ba. apply wpo_ok. apply (wpo_foldO _ custom_inv [] s).
  - split_and!; [constructor| |done|done|].
    + intros r Hr. by apply elem_of_nil in Hr.
    + intros j Hj. rewrite Ba. symmetry. apply bool_decide_false. simpl. lia.
  - intros d x r b E. by apply (custom_step_ok d x r).
Qed.

Lemma CheckCustomTopology_ok : CheckCustomTopology s = Ok tt.
Proof using Hs.
  pose proof (ro_len s Hs) as Hlen. unfold CheckCustomTopology.
  destruct (Z.eqb_spec (Z.of_nat (length s)) 0); [lia|]. simpl.
  set (step := λ (next : Z) (cpu : Raw), _).
  assert (∃ k, foldO step s 0 = Ok k ∧ k = Z.of_nat (length s)) as (k & -> & _); [|done].
  apply wpo_ok. apply (wpo_foldO step (λ pre k, k = Z.of_nat (length pre)) [] s); [done|].
  intros d x r k E ->. simpl in E.
  assert (s !! length d = Some x) as Hx by (rewrite E; by apply list_lookup_middle).
  destruct (ro_range s Hs _ x Hx) as [R1 R2]. unfold step.
  rewrite (ro_ids s Hs _ x Hx), Z.eqb_refl. simpl.
  assert (∀ l, Forall (λ j, 0 ≤ j < n) l →
    forO (λ s0, checkO (0 <=? s0) ≫= λ _, checkO (s0 <? Z.of_nat (length s))) l = Ok tt) as Hf.
  { intros l Hl. apply forO_ok. intros j Hj. rewrite Forall_forall in Hl. specialize (Hl j Hj).
    by rewrite (proj2 (Z.leb_le 0 j)), (proj2 (Z.ltb_lt j _)) by (unfold n in *; lia). }
  rewrite !Hf by done. simpl. rewrite length_app. simpl. lia.
Qed.

(** The state that the loop builds is consistent. *)
Section built.
Context (reps : list CpuRep) (highest : Z) (all : CpuList).
Hypothesis Hinv : custom_inv s (reps, highest, all).
Let t := mkTopology n all reps highest false [].

Lemma built_rep i r : reps !! i = Some r → ∃ raw, s !! i = Some raw ∧ rep_of n raw r.
Proof using Hinv Hs.
  destruct Hinv as (Hreps & _). intros Hr.
  destruct (Forall2_lookup_r _ _ _ _ _ Hreps Hr) as (raw & ? & ?). eauto.
Qed.

Lemma built_raw i raw : s !! i = Some raw → ∃ r, reps !! i = Some r ∧ rep_of n raw r.
Proof using Hinv Hs.
  destruct Hinv as (Hreps & _). intros Hr.
  destruct (Forall2_lookup_l _ _ _ _ _ Hreps Hr) as (r & ? & ?). eauto.
Qed.

(** Both sibling lists of a CPU are those of its raw description. *)
Lemma built_list i r get :
  reps !! i = Some r → get ∈ sib_lists →
  ∃ raw rget, s !! i = Some raw ∧ rget ∈ [raw_siblings; raw_l3_siblings] ∧
    cpulist_wf (get r) ∧ topology_num_cpus (get r) = n ∧ elems (get r) = rget raw ∧
    ∀ i' r' raw', reps !! i' = Some r' → s !! i' = Some raw' → elems (get r') = rget raw'.
Proof using Hinv Hs.
  intros Hr Hget. destruct (built_rep i r Hr) as (raw & Hraw & H).
  apply elem_of_cons in Hget as [->|Hget];
    [|apply list_elem_of_singleton in Hget as ->]; [exists raw, raw_siblings|exists raw, raw_l3_siblings];
    destruct H as (_ & _ & _ & _ & [W1 T1] & [W2 T2] & E1 & E2);
    (split_and!; [done|set_solver|done..|]);
    intros i' r' raw' Hr' Hraw'; destruct (built_rep i' r' Hr') as (raw'' & Hraw'' & H');
    rewrite Hraw' in Hraw''; injection Hraw'' as <-; apply H'.
Qed.

Lemma built_ok : topo_ok t.
Proof using Hinv Hs.
  pose proof (ro_len s Hs). destruct Hinv as (Hreps & _ & Wa & Ta & Ba).
  apply Forall2_length in Hreps as Hlen.
  constructor; simpl; [unfold n in *; lia|done|done|unfold n in *; lia| |].
  - intros i r Hr. destruct (built_rep i r Hr) as (raw & Hraw & H' & _).
    rewrite H'. by apply (ro_ids s Hs).
  - intros i r get Hr Hget. destruct (built_list i r get Hr Hget) as (raw & rget & _ & _ & ? & ? & _).
    done.
Qed.

Lemma built_siblings : siblings_ok t.
Proof using Hinv Hs.
  constructor; simpl.
  - intros i r Hr. destruct (built_rep i r Hr) as (raw & Hraw & _ & _ & _ & _ & [W1 _] & _ & E1 & _).
    apply (elem_of_elems _ _ W1). rewrite E1. by apply (ro_self s Hs).
  - intros i r get j Hr Hget Hj Hb.
    destruct (built_list i r get Hr Hget) as (raw & rget & Hraw & Hrget & W & T & E & Hother).
    assert (j ∈ rget raw) as Hjin by (rewrite <- E; by apply elem_of_elems).
    destruct (ro_same s Hs i raw rget j Hraw Hrget Hjin) as (raw' & Hraw' & Hsame).
    destruct (built_raw _ raw' Hraw') as (r' & Hr' & _). exists r'. split; [done|].
    destruct (built_list _ r' get Hr' Hget) as (_ & _ & _ & _ & W' & T' & _ & _).
    assert (get r' = get r) as ->; [|done].
    apply elems_ext; [done|done|congruence|]. intros x.
    by rewrite (Hother _ r' raw' Hr' Hraw'), E, Hsame.
Qed.

Lemma built_finish :
  raw_smt_ok s →
  ∃ b nodes, finish_topology t = Ok (mkTopology n all reps highest b nodes) ∧
    nodes_of t (highest + 1) (seqZ 0 n) nodes.
Proof using Hinv Hs.
  intros (raw0 & Hraw0 & Hsmt). destruct (built_raw 0%nat raw0 Hraw0) as (r0 & Hr0 & H0).
  assert (num_cores t = raw_num_cores s) as Hnc.
  { unfold num_cores, raw_num_cores. do 3 f_equal. simpl. destruct Hinv as (Hreps & _).
    clear -Hreps. induction Hreps as [|raw r raws reps H _ IH]; csimpl; [done|].
    destruct H as (_ & -> & _). by rewrite IH. }
  assert (∃ b, smt_numbering t (elems (rep_siblings r0)) b) as [b Hb].
  { destruct H0 as (_ & _ & _ & _ & _ & _ & -> & _).
    destruct (raw_siblings raw0) as [|x [|y [|]]]; try done; [by exists false|].
    simpl. rewrite Hnc. destruct (decide (y - x = 1)); [by exists true|exists false; lia]. }
  destruct (finish_ok t r0 b built_ok built_siblings) as (nodes & E & Hn); [|done|done|eauto].
  intros i r Hr. destruct (built_rep i r Hr) as (raw & Hraw & _ & Hc & _ & Hnu & _).
  rewrite Hc, Hnu. split; [by apply (ro_core s Hs i)|]. split; [by apply (ro_numa s Hs i)|].
  destruct Hinv as (_ & Hhi & _). apply Hhi. by eapply list_elem_of_lookup_2.
Qed.
End built.

Lemma custom_export reps highest all b nodes :
  custom_inv s (reps, highest, all) →
  Export (mkTopology n all reps highest b nodes) = Ok s.
Proof using Hs.
  intros Hinv. pose proof (built_ok reps highest all Hinv) as Hok0.
  set (t := mkTopology n all reps highest b nodes).
  assert (topo_ok t) as Hok by (destruct Hok0; by constructor).
  unfold Export. rewrite (all_iterate t Hok). simpl.
  rewrite (mapO_ok _ (λ c, default (mkRaw 0 0 0 [] [] 0) (s !! Z.to_nat c))).
  - f_equal. apply list_eq. intros i. rewrite list_lookup_fmap.
    destruct (s !! i) as [raw|] eqn:Hraw.
    + apply lookup_lt_Some in Hraw as Hlt. rewrite lookup_seqZ_lt by (simpl; unfold n in *; lia). simpl.
      by rewrite Z.add_0_l, Nat2Z.id, Hraw.
    + apply lookup_ge_None in Hraw. rewrite lookup_seqZ_ge; [done|]. simpl. unfold n. lia.
  - intros c Hc%elem_of_seqZ. destruct (rep_exists t Hok c) as (r & Hr & ->); [simpl in *; lia|]. simpl.
    destruct (built_rep reps highest all Hinv _ r Hr) as (raw & Hraw & H).
    destruct H as (E1 & E2 & E3 & E4 & [W1 _] & [W2 _] & E5 & E6).
    rewrite !ToIntVector_spec by done. simpl. rewrite Hraw. simpl.
    rewrite E1, E2, E3, E4, E5, E6. by destruct raw.
Qed.
End custom.

(** ** The host topology *)

(** The CPUs of [0 .. n) whose sysfs line is [x]. *)
Definition line_group (line : Z → string) (n : Z) (x : string) : list Z :=
  List.filter (λ c, bool_decide (line c = x)) (seqZ 0 n).

Lemma elem_of_line_group line n x c : c ∈ line_group line n x ↔ 0 ≤ c < n ∧ line c = x.
Proof.
  unfold line_group. rewrite elem_of_lfilter, elem_of_seqZ, bool_decide_eq_true, Z.add_0_l. done.
Qed.

Lemma line_group_S line k x :
  0 ≤ k → line_group line (k + 1) x = line_group line k x ++ (if bool_decide (line k = x) then [k] else []).
Proof.
  intros Hk. unfold line_group. rewrite seqZ_split, List.filter_app by lia. f_equal.
Qed.

(** The map of groups after the CPUs below [k]. *)
Definition groups_of (line : Z → string) (k : Z) (m : gmap string (list Z)) : Prop :=
  ∀ x, m !! x = match line_group line k x with [] => None | g => Some g end.

Lemma sibling_map_ok line n :
  0 ≤ n → (∀ c, 0 ≤ c < n → line c ≠ EmptyString) →
  ∃ m, sibling_map_loop line (Z.to_nat n) 0 ∅ = Ok m ∧ groups_of line n m.
Proof.
  intros Hn Hne.
  assert (∀ k c m, 0 ≤ c → c + Z.of_nat k = n → groups_of line c m →
    ∃ m', sibling_map_loop line k c m = Ok m' ∧ groups_of line n m') as H.
  { induction k as [|k IH]; intros c m Hc Hk Hm; simpl.
    - exists m. split; [done|]. by replace n with c by lia.
    - rewrite bool_decide_false by (apply Hne; lia). apply IH; [lia|lia|].
      intros x. rewrite line_group_S by lia. specialize (Hm x).
      destruct (decide (line c = x)) as [<-|Hx].
      + rewrite lookup_insert_eq, bool_decide_true, Hm by done.
        by destruct (line_group line c (line c)).
      + rewrite lookup_insert_ne, bool_decide_false, app_nil_r by done. done. }
  apply H; [lia|lia|]. intros x. by rewrite lookup_empty.
Qed.

Section siblings.
Context (n : Z) (line : Z → string).
Hypothesis Hn : 1 ≤ n ≤ 512.
Hypothesis Hne : ∀ c, 0 ≤ c < n → line c ≠ EmptyString.

(** The sibling list of [c]: the group of its line. *)
Definition is_group (c : Z) (l : CpuList) : Prop :=
  cpulist_wf l ∧ topology_num_cpus l = n ∧ elems l = line_group line n (line c).

(** The result map once the CPUs [pre] were entered. *)
Definition entered (pre : list Z) (m : gmap Z CpuList) : Prop :=
  (∀ c, is_Some (m !! c) ↔ c ∈ pre) ∧ ∀ c l, m !! c = Some l → is_group c l.

Lemma group_list x c : c ∈ line_group line n x →
  ∃ l, ToCpuList n (line_group line n x) = Ok l ∧ is_group c l.
Proof using Hn.
  intros [Hc Hx]%elem_of_line_group.
  assert (Forall (λ j, 0 ≤ j < n) (line_group line n x)) as Hr.
  { rewrite Forall_forall. by intros j [Hj _]%elem_of_line_group. }
  destruct (ToCpuList_spec n (line_group line n x)) as (l & -> & Wl & Tl & Bl); [lia|done|].
  exists l. split; [done|]. split_and!; [done|done|]. rewrite Hx.
  apply elems_of_sorted; [done|apply filter_sorted, seqZ_sorted| |done].
  eapply Forall_impl; [exact Hr|]. intros j Hj. simpl in Hj. lia.
Qed.

(** Entering one group, none of whose CPUs is in the map. *)
Lemma enter_group x pre m :
  entered pre m → (∀ c, c ∈ line_group line n x → c ∉ pre) →
  wpo (foldO (λ (siblings : gmap Z CpuList) cpu,
          ToCpuList n (line_group line n x) ≫= λ l,
          checkO (bool_decide (siblings !! cpu = None)) ≫= λ _,
          Ok (<[cpu := l]> siblings)) (line_group line n x) m)
    (entered (pre ++ line_group line n x)).
Proof using Hn.
  intros Hm Hfresh. set (step := λ (siblings : gmap Z CpuList) (cpu : Z), _).
  assert (NoDup (line_group line n x)) as Hnd
    by apply sorted_lt_nodup, filter_sorted, seqZ_sorted.
  apply (wpo_foldO step (λ d, entered (pre ++ d)) []); [by rewrite app_nil_r|].
  intros d c r m' E [Hdom Hval]. simpl in E.
  assert (c ∈ line_group line n x) as Hc by (rewrite E; apply elem_of_app; right; by left).
  destruct (group_list x c Hc) as (l & El & Hl). unfold step. rewrite El. simpl.
  assert (m' !! c = None) as Hnone.
  { apply eq_None_not_Some. rewrite Hdom, elem_of_app. intros [Hin|Hin]; [by apply (Hfresh c)|].
    rewrite E in Hnd. apply NoDup_app in Hnd as (_ & Hdis & _). apply (Hdis c Hin). by left. }
  rewrite bool_decide_true by done. simpl. split.
  - intros c'. rewrite lookup_insert_is_Some', Hdom. rewrite !elem_of_app, list_elem_of_singleton.
    naive_solver.
  - intros c' l'. destruct (decide (c = c')) as [<-|Hne'].
    + rewrite lookup_insert_eq. by intros [= <-].
    + rewrite lookup_insert_ne by done. apply Hval.
Qed.

Lemma GetAllSiblings_ok :
  ∃ m, GetAllSiblings n line = Ok m ∧ entered (seqZ 0 n) m.
Proof using Hn Hne.
  unfold GetAllSiblings.
  destruct (sibling_map_ok line n) as (g & -> & Hg); [lia|done|]. simpl.
  set (step := λ (siblings : gmap Z CpuList) (kv : string * list Z), _).
  assert (wpo (foldO step (map_to_list g) ∅) (entered (mjoin (map_to_list g).*2))) as H.
  { apply (wpo_foldO step (λ pre, entered (mjoin pre.*2)) []).
    - split; [|done]. intros c. simpl. rewrite lookup_empty. split; [by intros []|by intros ?%elem_of_nil].
    - intros d [x gx] r m E Hm. simpl in E. rewrite fmap_app, join_app. simpl. rewrite app_nil_r.
      assert ((x, gx) ∈ map_to_list g) as Hin by (rewrite E; apply elem_of_app; right; by left).
      apply elem_of_map_to_list in Hin. rewrite Hg in Hin.
      assert (gx = line_group line n x) as -> by (destruct (line_group line n x); congruence).
      unfold step. simpl. apply enter_group; [done|].
      intros c [Hc Hx]%elem_of_line_group (gy & Hcy & Hgy)%list_elem_of_join.
      apply list_elem_of_fmap in Hgy as ([y gy'] & -> & Hy).
      assert ((y, gy') ∈ map_to_list g) as Hyin by (rewrite E; apply elem_of_app; by left).
      apply elem_of_map_to_list in Hyin. rewrite Hg in Hyin.
      assert (gy' = line_group line n y) as -> by (destruct (line_group line n y); congruence).
      simpl in Hcy. apply elem_of_line_group in Hcy as [_ Hcy]. assert (y = x) as -> by congruence.
      pose proof (NoDup_fst_map_to_list g) as Hnd. rewrite E, fmap_app in Hnd.
      apply NoDup_app in Hnd as (_ & Hdis & _). apply (Hdis x); [|by left].
      apply list_elem_of_fmap. by exists (x, line_group line n x). }
  apply wpo_ok in H as (m & -> & Hdom & Hval). exists m. split; [done|]. split; [|done].
  intros c. rewrite Hdom, list_elem_of_join, elem_of_seqZ. split.
  - intros (gx & Hc & ([x gx'] & -> & Hx%elem_of_map_to_list)%list_elem_of_fmap). simpl in Hc.
    rewrite Hg in Hx. assert (gx' = line_group line n x) as -> by (destruct (line_group line n x); congruence).
    apply elem_of_line_group in Hc. lia.
  - intros Hc. exists (line_group line n (line c)).
    assert (c ∈ line_group line n (line c)) as Hin by (apply elem_of_line_group; lia || (split; [lia|done])).
    split; [done|]. apply list_elem_of_fmap. exists (line c, line_group line n (line c)). split; [done|].
    apply elem_of_map_to_list. rewrite Hg. by destruct (line_group line n (line c)); [apply elem_of_nil in Hin|].
Qed.

Lemma entered_size m : entered (seqZ 0 n) m → Z.of_nat (size m) = n.
Proof using Hn.
  intros [Hdom _]. rewrite <- size_dom.
  assert (dom m = list_to_set (seqZ 0 n)) as ->.
  { apply set_eq. intros c. rewrite elem_of_dom, Hdom, elem_of_list_to_set. done. }
  rewrite size_list_to_set by apply NoDup_seqZ. rewrite length_seqZ. lia.
Qed.
End siblings.

(** Without an L3 cache the first file is empty and there are no siblings. *)
Lemma GetAllSiblings_none n line :
  0 < n → line 0 = EmptyString → GetAllSiblings n line = Ok ∅.
Proof.
  intros Hn Hl. unfold GetAllSiblings. destruct (Z.to_nat n) as [|k] eqn:E; [lia|].
  cbn [sibling_map_loop]. by rewrite bool_decide_true by done.
Qed.

(** The SMT index of a CPU is its position among its siblings. *)
Lemma smt_idx_loop_ok sib cpu k c idx :
  0 ≤ c ≤ cpu → cpu < c + Z.of_nat k ≤ 512 → bit sib cpu = true →
  smt_idx_loop sib cpu k c idx =
    Ok (idx + 1 + Z.of_nat (length (List.filter (bit sib) (seqZ c (cpu - c))))).
Proof.
  revert c idx. induction k as [|k IH]; intros c idx Hc Hk Hb; [lia|].
  cbn [smt_idx_loop]. rewrite IsSet_spec by lia. cbn [mbind outcome_bind].
  destruct (Z.eqb_spec c cpu) as [->|Hne].
  - rewrite Hb, Z.sub_diag. simpl. f_equal. lia.
  - rewrite (seqZ_cons c (cpu - c)) by lia. replace (Z.pred (cpu - c)) with (cpu - (c + 1)) by lia.
    change (Z.succ c) with (c + 1).
    destruct (bit sib c) eqn:E; rewrite IH by (lia || done); cbn [List.filter]; rewrite E; f_equal;
      cbn [length]; lia.
Qed.

#[local] Arguments smt_idx_loop : simpl never.

Lemma smt_idx_all sib cpu :
  0 ≤ cpu < 512 → bit sib cpu = true →
  smt_idx_loop sib cpu (Z.to_nat MAX_CPUS) 0 (-1) =
    Ok (Z.of_nat (length (List.filter (bit sib) (seqZ 0 cpu)))).
Proof.
  intros Hc Hb. assert (Z.of_nat (Z.to_nat MAX_CPUS) = 512) as E by done.
  revert E. generalize (Z.to_nat MAX_CPUS). intros k E.
  rewrite smt_idx_loop_ok by (done || lia). by rewrite Z.sub_0_r.
Qed.

#[local] Arguments elems_from : simpl never.

Lemma elems_position sib cpu :
  cpulist_wf sib → 0 ≤ cpu → bit sib cpu = true →
  elems sib !! length (List.filter (bit sib) (seqZ 0 cpu)) = Some cpu.
Proof.
  intros Hwf Hc Hb. pose proof (bit_range sib cpu Hwf Hc Hb).
  rewrite elems_num by done.
  replace (topology_num_cpus sib) with (cpu + (topology_num_cpus sib - cpu)) by lia.
  rewrite seqZ_split, List.filter_app, Z.add_0_l by lia.
  rewrite (seqZ_cons cpu) by lia. cbn [List.filter]. rewrite Hb.
  by rewrite list_lookup_middle.
Qed.

Section host.
Context (thread_line l3_line : Z → string) (numa_node_of_cpu : Z → Z) (highest_node n : Z).
Hypothesis Hn : 1 ≤ n ≤ 512.
Hypothesis Hthread : ∀ c, 0 ≤ c < n → thread_line c ≠ EmptyString.
Hypothesis Hl3 : l3_line 0 = EmptyString ∨ ∀ c, 0 ≤ c < n → l3_line c ≠ EmptyString.
Hypothesis Hnuma : ∀ c, 0 ≤ c < n → 0 ≤ numa_node_of_cpu c ≤ highest_node.

(** The L3 siblings of [c]: nobody without an L3 cache. *)
Definition l3_group (c : Z) : list Z :=
  if bool_decide (l3_line 0 = EmptyString) then [] else line_group l3_line n (l3_line c).

(** The representation the constructor builds for CPU [c]. *)
Definition host_rep (c : Z) (r : CpuRep) : Prop :=
  rep_cpu r = c ∧ rep_numa_node r = numa_node_of_cpu c ∧
  (cpulist_wf (rep_siblings r) ∧ topology_num_cpus (rep_siblings r) = n) ∧
  elems (rep_siblings r) = line_group thread_line n (thread_line c) ∧
  (cpulist_wf (rep_l3_siblings r) ∧ topology_num_cpus (rep_l3_siblings r) = n) ∧
  elems (rep_l3_siblings r) = l3_group c ∧
  head (elems (rep_siblings r)) = Some (rep_core r) ∧
  0 ≤ rep_smt_idx r ∧ elems (rep_siblings r) !! Z.to_nat (rep_smt_idx r) = Some c.

Definition host_inv (pre : list Z) (st : list CpuRep * CpuList) : Prop :=
  Forall2 host_rep pre st.1 ∧ cpulist_wf st.2 ∧ topology_num_cpus st.2 = n ∧
  ∀ j, 0 ≤ j → bit st.2 j = bool_decide (j < Z.of_nat (length pre)).

(** The two sibling maps. *)
Definition l3_map_ok (m : gmap Z CpuList) : Prop :=
  if bool_decide (l3_line 0 = EmptyString) then m = ∅ else entered n l3_line (seqZ 0 n) m.

Lemma l3_map_exists : ∃ m, GetAllSiblings n l3_line = Ok m ∧ l3_map_ok m.
Proof using Hn Hl3.
  unfold l3_map_ok. case_bool_decide as E.
  - exists ∅. rewrite GetAllSiblings_none by (done || lia). done.
  - destruct Hl3 as [|Hne]; [done|]. by apply GetAllSiblings_ok.
Qed.

Lemma l3_map_some m c :
  l3_map_ok m → 0 ≤ c < n →
  ∃ l, (EmptyCpuList n ≫= λ e, if bool_decide (m = ∅) then Ok e
        else match m !! c with Some l => Ok l | None => Crash CheckFailed end) = Ok l ∧
    (cpulist_wf l ∧ topology_num_cpus l = n) ∧ elems l = l3_group c.
Proof using Hn.
  intros Hm Hc. destruct (CpuMap_new_spec n ltac:(lia)) as (e & Ee & We & Te & Be).
  unfold EmptyCpuList. rewrite Ee. simpl. unfold l3_map_ok, l3_group in *. case_bool_decide as E.
  - subst m. rewrite bool_decide_true by done. exists e. split_and!; [done..|].
    rewrite elems_num by done. apply filter_none. intros j _. apply Be.
  - destruct Hm as [Hdom Hval]. assert (is_Some (m !! c)) as [l El] by (apply Hdom, elem_of_seqZ; lia).
    rewrite bool_decide_false by (intros ->; by rewrite lookup_empty in El). rewrite El.
    destruct (Hval c l El) as (? & ? & ?). eauto.
Qed.

Lemma host_step_ok sm lm pre c rest st :
  entered n thread_line (seqZ 0 n) sm → l3_map_ok lm →
  seqZ 0 n = pre ++ c :: rest → host_inv pre st →
  wpo (host_step numa_node_of_cpu n sm lm st c) (host_inv (pre ++ [c])).
Proof using Hn Hnuma.
  intros [Hdom Hval] Hlm E. destruct st as [reps all]. intros (Hreps & Wa & Ta & Ba). cbn [fst snd] in *.
  assert (seqZ 0 n !! length pre = Some c) as Hc by (rewrite E; by apply list_lookup_middle).
  apply lookup_seqZ in Hc as [Ec Hlt]. rewrite Z.add_0_l in Ec.
  assert (is_Some (sm !! c)) as [sib Esib] by (apply Hdom, elem_of_seqZ; lia).
  destruct (Hval c sib Esib) as (Ws & Ts & Es).
  assert (c ∈ elems sib) as Hin by (rewrite Es; apply elem_of_line_group; split; [lia|done]).
  apply elem_of_elems in Hin as Hbit; [|done]. destruct Hbit as [_ Hbit].
  unfold host_step. rewrite Esib. set (smt := smt_idx_loop sib c _ _ _).
  set (k := length (List.filter (bit sib) (seqZ 0 c))).
  assert (smt = Ok (Z.of_nat k)) as Hsmt by (apply smt_idx_all; [lia|done]).
  assert (elems sib !! k = Some c) as Hpos by (apply elems_position; [done|lia|done]).
  clearbody smt k.
  destruct (l3_map_some lm c Hlm ltac:(lia)) as (l3 & El3 & Wl3 & Gl3).
  destruct (CpuMap_new_spec n ltac:(lia)) as (e & Ee & _ & _ & _).
  unfold EmptyCpuList in *. rewrite Ee in *. cbn [mbind outcome_bind] in El3 |- *.
  rewrite El3. cbn [mbind outcome_bind].
  unfold begin. rewrite FindNextSetBit_spec by done. fold (elems sib). cbn [mbind outcome_bind].
  destruct (elems sib) as [|core tl] eqn:Eel; [by apply elem_of_nil in Hin|]. cbn [iter_at cpu_].
  specialize (Hnuma c ltac:(lia)). rewrite (proj2 (Z.leb_le 0 (numa_node_of_cpu c))) by lia.
  rewrite Hsmt. cbn [mbind outcome_bind checkO]. rewrite (proj2 (Z.leb_le 0 _)) by lia.
  cbn [mbind outcome_bind checkO].
  destruct (Set_spec all c Wa) as (all' & -> & Wa' & Ta' & Ba'); [lia|]. simpl.
  apply Forall2_length in Hreps as Hlen.
  split_and!; simpl; [|done|congruence|].
  - apply Forall2_app; [done|]. constructor; [|constructor].
    unfold host_rep. simpl. rewrite Eel, Nat2Z.id. split_and!; try done; try apply Wl3; lia.
  - intros j Hj. rewrite Ba', Ba by done. rewrite length_app. simpl.
    destruct (Z.eqb_spec c j) as [<-|]; simpl.
    + symmetry. apply bool_decide_true. lia.
    + apply bool_decide_ext. lia.
Qed.

Section built.
Context (reps : list CpuRep) (all : CpuList).
Hypothesis Hinv : host_inv (seqZ 0 n) (reps, all).
Let t := mkTopology n all reps highest_node false [].

Lemma host_rep_at i r : reps !! i = Some r → host_rep (Z.of_nat i) r ∧ Z.of_nat i < n.
Proof using Hinv Hn.
  destruct Hinv as (Hreps & _). intros Hr.
  destruct (Forall2_lookup_r _ _ _ _ _ Hreps Hr) as (c & Hc & H).
  apply lookup_seqZ in Hc as [-> Hc]. by rewrite Z.add_0_l in H.
Qed.

Lemma host_rep_exists c : 0 ≤ c < n → ∃ r, reps !! Z.to_nat c = Some r.
Proof using Hinv Hn.
  destruct Hinv as (Hreps & _). intros Hc. apply Forall2_length in Hreps as Hlen.
  rewrite length_seqZ in Hlen. simpl in Hlen. apply lookup_lt_is_Some_2. lia.
Qed.

Lemma host_ok : topo_ok t.
Proof using Hinv Hn.
  destruct Hinv as (Hreps & Wa & Ta & Ba). cbn [fst snd] in *.
  apply Forall2_length in Hreps as Hlen. rewrite length_seqZ in Hlen.
  constructor; simpl; [lia|done| |lia| |].
  - intros j Hj. rewrite Ba by done. apply bool_decide_ext. rewrite length_seqZ. lia.
  - intros i r Hr. by destruct (host_rep_at i r Hr) as [[-> _] _].
  - intros i r get Hr Hget. destruct (host_rep_at i r Hr) as [(_ & _ & W1 & _ & W2 & _) _].
    apply elem_of_cons in Hget as [->|Hget]; [done|]. by apply list_elem_of_singleton in Hget as ->.
Qed.

(** CPUs of one group have the same group. *)
Lemma host_siblings : siblings_ok t.
Proof using Hinv Hn.
  constructor; simpl.
  - intros i r Hr. destruct (host_rep_at i r Hr) as [(_ & _ & [W1 _] & E1 & _) Hi].
    apply (elem_of_elems _ _ W1). rewrite E1. apply elem_of_line_group. split; [lia|done].
  - intros i r get j Hr Hget Hj Hb.
    destruct (host_rep_at i r Hr) as [(_ & _ & [W1 T1] & E1 & [W2 T2] & E2 & _) Hi].
    apply elem_of_cons in Hget as [->|Hget]; [|apply list_elem_of_singleton in Hget as ->].
    + assert (j ∈ elems (rep_siblings r)) as Hin by by apply elem_of_elems.
      rewrite E1 in Hin. apply elem_of_line_group in Hin as [Hjn Hline].
      destruct (host_rep_exists j Hjn) as [r' Hr']. exists r'. split; [done|].
      destruct (host_rep_at _ r' Hr') as [(_ & _ & [W1' T1'] & E1' & _) _].
      rewrite (elems_ext (rep_siblings r') (rep_siblings r)); [done..|congruence|].
      intros x. rewrite E1', E1, Z2Nat.id, Hline by done. done.
    + assert (j ∈ elems (rep_l3_siblings r)) as Hin by by apply elem_of_elems.
      rewrite E2 in Hin. unfold l3_group in Hin. case_bool_decide as El3; [by apply elem_of_nil in Hin|].
      apply elem_of_line_group in Hin as [Hjn Hline].
      destruct (host_rep_exists j Hjn) as [r' Hr']. exists r'. split; [done|].
      destruct (host_rep_at _ r' Hr') as [(_ & _ & _ & _ & [W2' T2'] & E2' & _) _].
      rewrite (elems_ext (rep_l3_siblings r') (rep_l3_siblings r)); [done..|congruence|].
      intros x. rewrite E2', E2. unfold l3_group. rewrite bool_decide_false by done.
      rewrite Z2Nat.id, Hline by done. done.
Qed.

Lemma host_core i r : reps !! i = Some r → 0 ≤ rep_core r < n.
Proof using Hinv Hn.
  intros Hr. destruct (host_rep_at i r Hr) as [(_ & _ & [W1 T1] & _ & _ & _ & Hcore & _) _].
  apply head_Some_elem_of in Hcore. rewrite <- T1. by apply elems_lt.
Qed.
End built.
End host.
