(* ===== verification/TopologyClaims.v ===== *)
(** * TopologyClaims: the properties of CPU lists and topologies

    The statements a client relies on: the different views of a [CpuList]
    agree, the set operations are those of sets, the printed mask denotes the
    set, and both constructors build the topology their inputs describe. *)

From S2P Require Import Prelude Outcome CpuMap CpuMapSpec.
From S2P Require Import Topology TopologySpec.
From stdpp Require Import gmap sorting strings.
From Stdlib Require Import ZArith Lia Ascii.

Local Open Scope Z_scope.

#[local] Arguments elems_from : simpl never.

(** ** A concrete list *)

(** CPUs 1, 64 and 70 of a 72-CPU topology. *)
Definition sample_list : CpuList :=
  mkCpuList [2; 65; 0; 0; 0; 0; 0; 0] 2 72.

(** A decidable form of the representation invariant. *)
Definition cpulist_wfb (l : CpuList) : bool :=
  (length (bitmap_internal_ l) =? 8)%nat &&
  forallb (λ w, (0 <=? w) && (w <? 2 ^ 64)) (bitmap_internal_ l) &&
  (0 <=? topology_num_cpus l) && (topology_num_cpus l <=? 512) &&
  (map_size_ l =? (topology_num_cpus l + 63) / 64) &&
  forallb (λ id, negb (bit l id)) (seqZ (topology_num_cpus l) (512 - topology_num_cpus l)).

Lemma cpulist_wfb_ok l : cpulist_wfb l = true → cpulist_wf l.
Proof.
  unfold cpulist_wfb. rewrite !andb_true_iff, Nat.eqb_eq, !forallb_forall.
  intros [[[[[H1 H2] H3] H4] H5] H6]. zbool. constructor; [done| |done|done|].
  - rewrite Forall_forall. intros w Hw%list_elem_of_In. specialize (H2 w Hw).
    apply andb_true_iff in H2 as [? ?]. zbool. lia.
  - intros id Hid. apply negb_true_iff, H6, list_elem_of_In, elem_of_seqZ. lia.
Qed.

Lemma sample_wf : cpulist_wf sample_list.
Proof. by apply cpulist_wfb_ok; vm_compute. Qed.

(** Every view of a well-formed CPU list is the same ascending list of the
    CPUs whose bit is set: the range-based loop visits them and terminates,
    [ToIntVector] returns them, [GetNthCpu] indexes them (the uninitialised
    CPU past the end), [Front], [Back], [Size] and [Empty] agree with them. *)
Theorem cpulist_views_agree (l : CpuList) (Hwf : cpulist_wf l) :
  ∃ cs : list Z,
    iterate l = Ok cs ∧ StronglySorted Z.lt cs ∧
    (∀ id, 0 ≤ id < MAX_CPUS → CpuList_IsSet id l = Ok (bool_decide (id ∈ cs))) ∧
    (∀ id, id ∈ cs → 0 ≤ id < topology_num_cpus l) ∧
    ToIntVector l = Ok cs ∧
    (∀ n, 0 ≤ n → GetNthCpu n l = Ok (cs !! Z.to_nat n)) ∧
    Front l = Ok (head cs) ∧ Back l = Ok (last cs) ∧
    CpuMap_Size l = Ok (Z.of_nat (length cs)) ∧
    CpuMap_Empty l = Ok (bool_decide (cs = [])).
Proof.
  exists (elems l). split_and!.
  - by apply iterate_spec.
  - apply elems_from_sorted.
  - intros id Hid. rewrite IsSet_spec by done. f_equal.
    destruct (bit l id) eqn:E; symmetry; [apply bool_decide_true|apply bool_decide_false];
      rewrite elem_of_elems by done; [split; [lia|done]|]. intros [_ ?]. congruence.
  - intros id. by apply elems_lt.
  - by apply ToIntVector_spec.
  - intros n Hn. by apply GetNthCpu_spec.
  - by apply Front_spec.
  - by apply Back_spec.
  - by apply CpuMap_Size_spec.
  - by apply CpuMap_Empty_spec.
Qed.

Lemma cpulist_views_agree_witness :
  iterate sample_list = Ok [1; 64; 70] ∧
  ∃ cs, iterate sample_list = Ok cs ∧ StronglySorted Z.lt cs.
Proof.
  split; [by vm_compute|].
  destruct (cpulist_views_agree sample_list sample_wf) as (cs & H1 & H2 & _). exists cs. by split.
Defined.

(** Set algebra: on lists of one topology [Union], [Intersection] and
    [Subtract] keep the representation invariant and act on [IsSet] like the
    set operations; [==] decides equality of the sets. *)
Theorem cpulist_set_algebra (l src : CpuList) (Hwf : cpulist_wf l) (Hws : cpulist_wf src)
    (Htop : topology_num_cpus src = topology_num_cpus l) :
  (∀ id, 0 ≤ id < MAX_CPUS → ∃ a b, CpuList_IsSet id l = Ok a ∧ CpuList_IsSet id src = Ok b ∧
     CpuList_IsSet id (CpuList_Union src l) = Ok (a || b) ∧
     CpuList_IsSet id (CpuList_Intersection src l) = Ok (a && b) ∧
     CpuList_IsSet id (CpuList_Subtract src l) = Ok (a && negb b)) ∧
  cpulist_wf (CpuList_Union src l) ∧ cpulist_wf (CpuList_Intersection src l) ∧
  cpulist_wf (CpuList_Subtract src l) ∧
  (CpuList_eqb l src = true ↔ l = src).
Proof.
  destruct (Union_spec src l Hwf Hws Htop) as [WU BU].
  destruct (Intersection_spec src l Hwf Hws Htop) as [WI BI].
  destruct (Subtract_spec src l Hwf Hws Htop) as [WS BS].
  split_and!; [|done|done|done|].
  - intros id Hid. exists (bit l id), (bit src id). rewrite !IsSet_spec by done.
    rewrite BU, BI, BS by lia. done.
  - rewrite CpuList_eqb_spec by done. split; [|by intros ->].
    intros H. by apply cpulist_ext.
Qed.

Lemma cpulist_set_algebra_witness :
  CpuList_eqb sample_list (CpuList_Union sample_list sample_list) = true ∧
  cpulist_wf (CpuList_Subtract sample_list sample_list).
Proof.
  split; [by vm_compute|].
  exact (proj1 (proj2 (proj2 (proj2 (cpulist_set_algebra sample_list sample_list sample_wf sample_wf eq_refl))))).
Defined.

(** Single-bit updates: [Set] of a CPU of the topology, [Clear] and
    [TestAndClear] keep the invariant, change exactly the bit they name, and
    [TestAndClear] reports its old value; an index at or above [MAX_CPUS]
    fails a [DCHECK] in all of them and leaves nothing written. *)
Theorem cpulist_bit_updates (l : CpuList) (id : Z) (Hwf : cpulist_wf l) (Hid : 0 ≤ id) :
  (id < topology_num_cpus l → ∃ l', CpuList_Set id l = Ok l' ∧ cpulist_wf l' ∧
     ∀ j, 0 ≤ j < MAX_CPUS → ∃ b, CpuList_IsSet j l = Ok b ∧
       CpuList_IsSet j l' = Ok ((id =? j) || b)) ∧
  (id < MAX_CPUS → ∃ l' old, CpuList_Clear id l = Ok l' ∧ TestAndClear id l = Ok (old, l') ∧
     CpuList_IsSet id l = Ok old ∧ cpulist_wf l' ∧
     ∀ j, 0 ≤ j < MAX_CPUS → ∃ b, CpuList_IsSet j l = Ok b ∧
       CpuList_IsSet j l' = Ok (negb (id =? j) && b)) ∧
  (MAX_CPUS ≤ id → CpuList_Set id l = Crash CheckFailed ∧ CpuList_Clear id l = Crash CheckFailed ∧
     TestAndClear id l = Crash CheckFailed ∧ CpuList_IsSet id l = Crash CheckFailed).
Proof.
  split_and!.
  - intros Hlt. destruct (Set_spec l id Hwf) as (l' & E & W & _ & B); [lia|].
    exists l'. split_and!; [done|done|]. intros j Hj. exists (bit l j).
    by rewrite !IsSet_spec, B by (done || lia).
  - intros Hlt. destruct (Clear_spec l id Hwf) as (l' & E & W & B); [done|].
    exists l', (bit l id). split_and!; [done| |by apply IsSet_spec|done|].
    + destruct (TestAndClear_spec l id Hwf) as (l2 & E2 & W2 & B2); [done|].
      rewrite E2. f_equal. f_equal.
      revert E E2. unfold CpuList_Clear, TestAndClear. rewrite check_id_ok by done.
      cbn [mbind outcome_bind]. congruence.
    + intros j Hj. exists (bit l j). by rewrite !IsSet_spec, B by (done || lia).
  - intros Hge. unfold CpuList_Set, CpuList_Clear, TestAndClear, CpuList_IsSet.
    rewrite check_id_fail; [done|]. unfold MAX_CPUS in *. lia.
Qed.

Lemma cpulist_bit_updates_witness :
  CpuList_IsSet 512 sample_list = Crash CheckFailed ∧
  ∃ l', CpuList_Set 7 sample_list = Ok l' ∧ cpulist_wf l'.
Proof.
  split; [by vm_compute|].
  destruct (proj1 (cpulist_bit_updates sample_list 7 sample_wf ltac:(lia)) ltac:(done)) as (l' & E & W & _).
  exists l'. by split.
Defined.

(** The string that [CpuMaskStr] prints reads back, as a Linux cpumask, as
    the number whose bits are the map's; its digits come in groups separated by
    commas, every group but the first of exactly eight. *)
Theorem cpumask_denotes (l : CpuList) (Hwf : cpulist_wf l) :
  (∃ v, read_mask (CpuMaskStr l) = Some v ∧
     ∀ id, 0 ≤ id → Z.testbit v id = bit l id) ∧
  ∃ g gs, CpuMaskStr l = join_commas (g :: gs) ∧ (1 ≤ length g ≤ 8)%nat ∧
    Forall (λ g, length g = 8%nat) gs.
Proof.
  set (digits := mask_nibbles (bitmap_bytes l)).
  pose proof (read_digits_value l Hwf) as Hv. pose proof (used_bit l Hwf) as Hb.
  destruct (Nat.eq_dec (length digits) 0) as [E0|Hne].
  - apply length_zero_iff_nil in E0. unfold CpuMaskStr. fold digits in Hv |- *. rewrite E0 in Hv |- *.
    unfold read_mask in Hv. simpl in Hv. injection Hv as Hv. split.
    + exists 0. split; [done|]. intros id Hid. rewrite Hv. by apply Hb.
    + exists ["0"%char], []. simpl. split_and!; [done|lia|lia|constructor].
  - destruct (CpuMaskStr_nonempty l) as (g & gs & E & Ed & Hg & Hgs); [fold digits; lia|]. split.
    + eexists. split; [|exact Hb]. rewrite <- Hv. unfold CpuMaskStr. fold digits.
      destruct (truthy _) eqn:Et; [apply read_commas|].
      unfold CpuMaskStr in E. fold digits in E. rewrite Et in E.
      assert (mask_commas digits (if Z.of_nat (length digits) mod 8 =? 0 then 8
        else Z.of_nat (length digits) mod 8) = []) as Hnil.
      { unfold truthy in Et. apply negb_false_iff in Et. zbool.
        apply length_zero_iff_nil. lia. }
      apply mask_commas_nil in Hnil. by rewrite Hnil in Hne.
    + exists g, gs. done.
Qed.

Lemma cpumask_denotes_witness :
  CpuMaskStr sample_list = String.list_ascii_of_string "41,00000000,00000002" ∧
  ∃ v, read_mask (CpuMaskStr sample_list) = Some v.
Proof.
  split; [by vm_compute|].
  destruct (proj1 (cpumask_denotes sample_list sample_wf)) as (v & H & _). exists v. exact H.
Defined.

(** ** Topologies *)

(** Two cores of two threads and one NUMA node per core, in the order
    of the CPU ids. *)
Definition sample_raws : list Raw :=
  [mkRaw 0 0 0 [0; 2] [0; 1; 2; 3] 0; mkRaw 1 1 0 [1; 3] [0; 1; 2; 3] 1;
   mkRaw 2 0 1 [0; 2] [0; 1; 2; 3] 0; mkRaw 3 1 1 [1; 3] [0; 1; 2; 3] 1].

(** The members of NUMA node [node] of a topology, as a list of ids. *)
Definition node_cpus (t : Topology) (node : Z) : outcome (list Z) :=
  CpusOnNode t node ≫= iterate.

Lemma node_cpus_of t n nodes node :
  nodes_of t n (seqZ 0 (num_cpus_ t)) nodes → 0 ≤ node < n →
  ∃ cs, node_cpus (mkTopology (num_cpus_ t) (all_cpus_ t) (cpus_ t) (highest_node_idx_ t)
          (consecutive_smt_numbering_ t) nodes) node = Ok cs ∧
    ∀ j, j ∈ cs ↔ 0 ≤ j < num_cpus_ t ∧
      ∃ r, cpus_ t !! Z.to_nat j = Some r ∧ rep_numa_node r = node.
Proof.
  intros [Hlen Hnodes] Hnode. unfold node_cpus, CpusOnNode. simpl.
  rewrite (proj2 (Z.leb_le 0 node)), (proj2 (Z.ltb_lt node _)) by lia. simpl.
  destruct (lookup_lt_is_Some_2 nodes (Z.to_nat node)) as [l Hl]; [lia|].
  destruct (Hnodes _ _ Hl) as (W & T & B). rewrite Hl. simpl. rewrite iterate_spec by done.
  exists (elems l). split; [done|]. intros j. rewrite elem_of_elems by done. split.
  - intros [Hj Hb]. apply B in Hb as [Hin (r & Hr & E)]; [|done].
    apply elem_of_seqZ in Hin. split; [lia|]. exists r. split; [done|lia].
  - intros [Hj (r & Hr & E)]. split; [lia|]. apply B; [lia|].
    split; [apply elem_of_seqZ; lia|]. exists r. split; [done|lia].
Qed.

Lemma Raw_le_antisym s x y :
  raws_ok s → x ∈ s → y ∈ s → Raw_le x y → Raw_le y x → x = y.
Proof.
  intros Hs [i Hi]%list_elem_of_lookup_1 [j Hj]%list_elem_of_lookup_1. unfold Raw_le, Raw_ltb.
  rewrite !Is_true_true, !negb_true_iff, !Z.ltb_ge. intros H1 H2.
  rewrite (ro_ids s Hs i x Hi), (ro_ids s Hs j y Hj) in *. assert (i = j) as -> by lia. congruence.
Qed.

Lemma raws_sorted s : raws_ok s → StronglySorted Raw_le s.
Proof.
  intros Hs. pose proof (ro_ids s Hs) as Hid. clear Hs.
  assert (∀ k, (∀ i r, s !! i = Some r → raw_cpu r = k + Z.of_nat i) → StronglySorted Raw_le s) as H.
  { clear Hid. induction s as [|x s IH]; intros k Hk; constructor.
    - apply (IH (k + 1)). intros i r Hr. rewrite (Hk (S i) r Hr). lia.
    - rewrite Forall_forall. intros y [i Hi]%list_elem_of_lookup_1. unfold Raw_le, Raw_ltb.
      rewrite Is_true_true, negb_true_iff, Z.ltb_ge.
      rewrite (Hk 0%nat x eq_refl), (Hk (S i) y Hi). lia. }
  apply (H 0). intros i r Hr. by rewrite (Hid i r Hr).
Qed.

Global Instance Raw_le_total : Total Raw_le.
Proof.
  intros x y. unfold Raw_le, Raw_ltb. rewrite !Is_true_true, !negb_true_iff, !Z.ltb_ge. lia.
Qed.

Global Instance Raw_le_trans : Transitive Raw_le.
Proof.
  intros x y z. unfold Raw_le, Raw_ltb. rewrite !Is_true_true, !negb_true_iff, !Z.ltb_ge. lia.
Qed.

(** C39. Export and import: from a consistent exported vector, in any order,
    [Topology(InitCustom)] builds a topology that exports that vector back, in
    CPU order; all its checks pass, and [CpusOnNode] lists exactly the CPUs of
    each NUMA node. *)
Theorem custom_topology_roundtrip (s raw_cpus : list Raw)
    (Hs : raws_ok s) (Hsmt : raw_smt_ok s) (Hperm : raw_cpus ≡ₚ s) :
  ∃ t, Topology_InitCustom raw_cpus = Ok t ∧ Export t = Ok s ∧
    ∀ node, 0 ≤ node ≤ highest_node_idx_ t →
      ∃ cs, node_cpus t node = Ok cs ∧
        ∀ j, j ∈ cs ↔ 0 ≤ j ∧ ∃ r, s !! Z.to_nat j = Some r ∧ raw_numa_node r = node.
Proof.
  unfold Topology_InitCustom. rewrite (Permutation_length Hperm).
  assert (merge_sort Raw_le raw_cpus = s) as ->.
  { apply (StronglySorted_unique_strong Raw_le).
    - intros x y Hx Hy. rewrite merge_sort_Permutation, Hperm in Hx. by apply (Raw_le_antisym s).
    - apply (StronglySorted_merge_sort Raw_le).
    - by apply raws_sorted.
    - by rewrite merge_sort_Permutation. }
  pose proof (ro_len s Hs). unfold EmptyCpuList.
  destruct (CpuMap_new_spec (Z.of_nat (length s))) as (e & -> & We & Te & Be); [lia|].
  cbn [mbind outcome_bind]. unfold MAX_CPUS.
  rewrite (proj2 (Z.leb_le _ 512)) by lia. cbn [checkO mbind outcome_bind].
  rewrite CheckCustomTopology_ok by done. cbn [mbind outcome_bind].
  destruct (custom_loop_ok s Hs e We Te Be) as ([[reps hi] all] & -> & Hinv). cbn [mbind outcome_bind].
  destruct (built_finish s Hs reps hi all Hinv Hsmt) as (b & nodes & -> & Hnodes).
  eexists. split; [done|]. split; [by apply custom_export|].
  intros node Hnode. simpl in Hnode.
  destruct (node_cpus_of _ _ _ node Hnodes ltac:(lia)) as (cs & E & Hcs).
  exists cs. split; [exact E|]. intros j. rewrite Hcs. simpl. split.
  - intros [Hj (r & Hr & En)]. split; [lia|].
    destruct (built_rep s Hs reps hi all Hinv _ r Hr) as (raw & Hraw & _ & _ & _ & En' & _).
    exists raw. split; [done|congruence].
  - intros [Hj (raw & Hraw & En)]. apply lookup_lt_Some in Hraw as Hlt. split; [lia|].
    destruct (built_raw s Hs reps hi all Hinv _ raw Hraw) as (r & Hr & _ & _ & _ & En' & _).
    exists r. split; [done|congruence].
Qed.

(** The cases of an index into a list of four. *)
Ltac each_raw H :=
  lazymatch type of H with
  | _ !! ?i = _ =>
      destruct i as [|[|[|[|?]]]];
      [injection H as <-|injection H as <-|injection H as <-|injection H as <-|discriminate H]
  end.

Lemma sample_raws_ok : raws_ok sample_raws.
Proof.
  constructor.
  - simpl. lia.
  - intros i r Hr. each_raw Hr; done.
  - intros i r Hr. each_raw Hr; split; repeat constructor; lia.
  - intros i r Hr. each_raw Hr; split; repeat constructor; simpl; lia.
  - intros i r Hr. each_raw Hr; apply (bool_decide_unpack _); by vm_compute.
  - intros i r get j Hr Hget Hj.
    apply elem_of_cons in Hget as [->|Hget]; [|apply list_elem_of_singleton in Hget as ->];
      each_raw Hr; simpl in Hj; rewrite !elem_of_cons in Hj;
      destruct_or! Hj; subst; try (eexists; split; [reflexivity|done]);
      by apply elem_of_nil in Hj.
  - intros i r Hr. each_raw Hr; simpl; lia.
  - intros i r Hr. each_raw Hr; simpl; lia.
Qed.

Lemma custom_topology_roundtrip_witness :
  raw_smt_ok sample_raws ∧
  ∃ t, Topology_InitCustom (reverse sample_raws) = Ok t ∧ Export t = Ok sample_raws.
Proof.
  assert (raw_smt_ok sample_raws) as Hsmt by (eexists; split; [reflexivity|right; by vm_compute]).
  split; [exact Hsmt|].
  destruct (custom_topology_roundtrip sample_raws (reverse sample_raws) sample_raws_ok Hsmt
              (reverse_Permutation sample_raws)) as (t & E & Ex & _).
  exists t. by split.
Defined.

(** The host topology: when sysfs shows a line for every CPU (and either no
    L3 line or one for every CPU), libnuma a possible node, and the first core
    an accepted SMT numbering, [Topology(InitHost)] passes all its checks; CPUs
    are siblings exactly when their lines are equal, the core is the lowest
    sibling, and the SMT index is the position among the siblings. *)
Theorem host_topology_siblings (thread_line l3_line : Z → String.string) (numa : Z → Z)
    (highest_node n : Z) (Hn : 1 ≤ n ≤ 512)
    (Hthread : ∀ c, 0 ≤ c < n → thread_line c ≠ String.EmptyString)
    (Hl3 : l3_line 0 = String.EmptyString ∨ ∀ c, 0 ≤ c < n → l3_line c ≠ String.EmptyString)
    (Hnuma : ∀ c, 0 ≤ c < n → 0 ≤ numa c ≤ highest_node)
    (Hsmt : length (line_group thread_line n (thread_line 0)) = 1%nat ∨
            line_group thread_line n (thread_line 0) = [0; 1]) :
  ∃ t, Topology_InitHost thread_line l3_line numa highest_node n = Ok t ∧
    num_cpus_ t = n ∧ iterate (all_cpus_ t) = Ok (seqZ 0 n) ∧
    ∀ c, 0 ≤ c < n → ∃ r ss l3s, cpu_rep t c = Ok r ∧ rep_cpu r = c ∧
      iterate (rep_siblings r) = Ok ss ∧
      (∀ j, j ∈ ss ↔ 0 ≤ j < n ∧ thread_line j = thread_line c) ∧
      iterate (rep_l3_siblings r) = Ok l3s ∧
      (l3_line 0 ≠ String.EmptyString → ∀ j, j ∈ l3s ↔ 0 ≤ j < n ∧ l3_line j = l3_line c) ∧
      head ss = Some (rep_core r) ∧ ss !! Z.to_nat (rep_smt_idx r) = Some c ∧
      rep_numa_node r = numa c.
Proof.
  unfold Topology_InitHost, EmptyCpuList.
  destruct (CpuMap_new_spec n) as (e & -> & We & Te & Be); [lia|].
  cbn [mbind outcome_bind]. unfold MAX_CPUS.
  rewrite (proj2 (Z.leb_le n 512)) by lia. cbn [checkO mbind outcome_bind].
  destruct (GetAllSiblings_ok n thread_line Hn Hthread) as (sm & -> & Hsm). cbn [mbind outcome_bind].
  rewrite (entered_size n thread_line Hn sm Hsm), Z.eqb_refl. cbn [checkO mbind outcome_bind].
  destruct (l3_map_exists l3_line n Hn Hl3) as (lm & -> & Hlm). cbn [mbind outcome_bind].
  assert (bool_decide (lm = ∅) || (Z.of_nat (size lm) =? n) = true) as ->.
  { unfold l3_map_ok in Hlm. destruct (bool_decide (l3_line 0 = _)) eqn:El3.
    - by rewrite bool_decide_true.
    - rewrite (entered_size n l3_line Hn lm Hlm), Z.eqb_refl. apply orb_true_r. }
  cbn [checkO mbind outcome_bind].
  assert (wpo (foldO (host_step numa n sm lm) (seqZ 0 n) ([], e))
            (host_inv thread_line l3_line numa n (seqZ 0 n))) as H.
  { apply (wpo_foldO _ (host_inv thread_line l3_line numa n) [] (seqZ 0 n)).
    - split_and!; [constructor|done|done|]. intros j Hj. simpl. rewrite Be. symmetry.
      apply bool_decide_false. lia.
    - intros d x r b E. by apply (host_step_ok thread_line l3_line numa highest_node n Hn Hnuma sm lm d x r). }
  apply wpo_ok in H as ([reps all] & -> & Hinv). cbn [mbind outcome_bind].
  pose proof (host_ok thread_line l3_line numa highest_node n Hn reps all Hinv) as Hok.
  pose proof (host_siblings thread_line l3_line numa highest_node n Hn reps all Hinv) as Hsib.
  set (t := mkTopology n all reps highest_node false []) in *.
  assert (∀ c r, 0 ≤ c → cpus_ t !! Z.to_nat c = Some r → host_rep thread_line l3_line numa n c r) as Hrep.
  { intros c r Hc Hr.
    destruct (host_rep_at thread_line l3_line numa n Hn reps all Hinv _ r Hr) as [Hh _].
    by rewrite Z2Nat.id in Hh by done. }
  destruct (rep_exists t Hok 0) as (r0 & Hr0 & _); [simpl; lia|].
  destruct (Hrep 0 r0 ltac:(lia) Hr0) as (_ & _ & _ & E0 & _).
  assert (∃ b, smt_numbering t (elems (rep_siblings r0)) b) as [b Hb].
  { rewrite E0. destruct Hsmt as [Hl|Hl].
    - destruct (line_group _ _ _) as [|x [|]]; try done. by exists false.
    - rewrite Hl. by exists true. }
  destruct (finish_ok t r0 b Hok Hsib) as (nodes & -> & _); [|done|done|].
  { intros i r Hr. split; [by apply (host_core thread_line l3_line numa n Hn reps all Hinv i)|].
    destruct (host_rep_at thread_line l3_line numa n Hn reps all Hinv i r Hr) as [(_ & -> & _) Hi].
    apply Hnuma. lia. }
  eexists. split; [done|]. split; [done|]. split; [exact (all_iterate t Hok)|].
  intros c Hc. destruct (rep_exists t Hok c Hc) as (r & Hr & Er).
  destruct (Hrep c r ltac:(lia) Hr) as (H1 & H2 & [W1 _] & E1 & [W2 _] & E2 & H3 & H4 & H5).
  exists r, (elems (rep_siblings r)), (elems (rep_l3_siblings r)).
  split_and!; [exact Er|done|by apply iterate_spec| |by apply iterate_spec| |done|done|done].
  - intros j. rewrite E1. apply elem_of_line_group.
  - intros Hne j. rewrite E2. unfold l3_group. rewrite bool_decide_false by done. apply elem_of_line_group.
Qed.

(** Four CPUs in two cores; one line per core, no L3 file. *)
Definition sample_line (c : Z) : String.string :=
  if c <? 2 then String.String "a" String.EmptyString else String.String "b" String.EmptyString.

Lemma host_topology_siblings_witness :
  (∃ t, Topology_InitHost sample_line (λ _, String.EmptyString) (λ c, c / 2) 1 4 = Ok t ∧
     num_cpus_ t = 4) ∧
  line_group sample_line 4 (sample_line 3) = [2; 3].
Proof.
  split; [|by vm_compute].
  destruct (host_topology_siblings sample_line (λ _, String.EmptyString) (λ c, c / 2) 1 4 ltac:(lia))
    as (t & E & N & _).
  - intros c _. unfold sample_line. by destruct (c <? 2).
  - by left.
  - intros c Hc. split; [apply Z.div_pos; lia|].
    assert (c / 2 < 2) by (apply Z.div_lt_upper_bound; lia). lia.
  - right. by vm_compute.
  - exists t. by split.
Defined.

(** ** A topology for the agents' samples *)

Definition sample_topo : Topology := Eval vm_compute in
  match Topology_InitCustom sample_raws with
  | Ok t => t
  | Crash _ => mkTopology 0 (mkCpuList [] 0 0) [] 0 false []
  end.

Lemma sample_topo_ok : topo_ok sample_topo.
Proof.
  assert (cpulist_wf (all_cpus_ sample_topo)) as Hw by (apply cpulist_wfb_ok; by vm_compute).
  constructor.
  - by vm_compute.
  - done.
  - intros j Hj. destruct (bit (all_cpus_ sample_topo) j) eqn:E.
    + apply bit_range in E; [|done..]. symmetry. by apply bool_decide_true.
    + symmetry. apply bool_decide_false. intros Hlt. assert (j < 4) as H4 by exact Hlt.
      assert (j = 0 ∨ j = 1 ∨ j = 2 ∨ j = 3) as [->|[->|[->| ->]]] by lia; by vm_compute in E.
  - by vm_compute.
  - intros i r Hi. do 4 (destruct i as [|i]; [by injection Hi as <-|]). by destruct i.
  - intros i r get Hi Hget.
    assert (forallb (λ r, forallb (λ get, cpulist_wfb (get r) && (topology_num_cpus (get r) =? num_cpus_ sample_topo))
              sib_lists) (cpus_ sample_topo) = true) as H by by vm_compute.
    rewrite forallb_forall in H. specialize (H r). rewrite forallb_forall in H.
    assert (cpulist_wfb (get r) && (topology_num_cpus (get r) =? num_cpus_ sample_topo) = true) as Hb.
    { apply H; apply list_elem_of_In; [by eapply list_elem_of_lookup_2|done]. }
    apply andb_true_iff in Hb as [H1 H2]. zbool. split; [by apply cpulist_wfb_ok|done].
Qed.
