(* ===== verification/Dispatch.v ===== *)
(** * Dispatch: the base of the C++ schedulers (lib/scheduler.h, lib/channel.h)

    The task allocator that owns the task objects, the messages of a channel
    and [BasicDispatchScheduler::DispatchMessage], which finds the task of a
    message and calls the scheduler's handler.  A scheduler is an instance of
    [SchedOps]: its state, its task type and its handlers. *)

From S2P Require Import Prelude Outcome.
From stdpp Require Import gmap.
From Stdlib Require Import ZArith Lia.

Local Open Scope Z_scope.

(** ** Tasks and their allocator *)

(** What the base class knows of a task object: [Task<>]. *)
Class TaskType (T : Type) := {
  task_gtid : T → Z;
  task_seqnum : T → Z;
  set_task_seqnum : Z → T → T;
  new_task : Z → T
}.

(** [SingleThreadMallocTaskAllocator]: the map from gtids to objects, and the
    objects that are allocated, by address.  The null pointer is 0. *)
Record TaskAllocator (T : Type) := mkAllocator {
  task_map_ : gmap Z Z;
  heap : gmap Z T
}.

Global Arguments mkAllocator {T}.
Global Arguments task_map_ {T}.
Global Arguments heap {T}.

Section allocator.
Context {T : Type} `{!TaskType T}.

(** [GetTask(gtid)]: [None] is the null pointer. *)
Definition GetTask (gtid : Z) (a : TaskAllocator T) : option Z := task_map_ a !! gtid.

(** [GetTask(gtid, sw_info)]: the object and whether it is new; [addr] is the
    address that [new] returns. *)
Definition GetTask_new (addr gtid : Z) (a : TaskAllocator T) : (Z * bool) * TaskAllocator T :=
  match GetTask gtid a with
  | Some p => ((p, false), a)
  | None => ((addr, true),
      mkAllocator (<[gtid := addr]> (task_map_ a)) (<[addr := new_task gtid]> (heap a)))
  end.

(** Dereference of a task pointer. *)
Definition deref (p : Z) (a : TaskAllocator T) : outcome T :=
  match heap a !! p with Some t => Ok t | None => Crash UseAfterFree end.

Definition FreeTask (p : Z) (a : TaskAllocator T) : outcome (TaskAllocator T) :=
  deref p a ≫= λ t,
  Ok (mkAllocator (delete (task_gtid t) (task_map_ a)) (delete p (heap a))).

(** [ForEachTask]: call [func] until it returns false. *)
Fixpoint ForEachTask_loop {R} (func : R → Z → T → R * bool) (l : list (Z * Z))
    (a : TaskAllocator T) (r : R) : outcome R :=
  match l with
  | [] => Ok r
  | (g, p) :: l => deref p a ≫= λ t,
      let '(r, go) := func r g t in
      if go : bool then ForEachTask_loop func l a r else Ok r
  end.

Definition ForEachTask {R} (func : R → Z → T → R * bool) (a : TaskAllocator T) (r : R) : outcome R :=
  ForEachTask_loop func (map_to_list (task_map_ a)) a r.
End allocator.

(** ** Messages *)

Definition MSG_NOP : Z := 0.
Definition _MSG_TASK_FIRST : Z := 64.
Definition _MSG_TASK_LAST : Z := _MSG_TASK_FIRST + 64 - 1.
Definition _MSG_CPU_FIRST : Z := 128.
Definition _MSG_CPU_LAST : Z := _MSG_CPU_FIRST + 64 - 1.

Definition MSG_TASK_DEAD : Z := _MSG_TASK_FIRST.
Definition MSG_TASK_BLOCKED : Z := 65.
Definition MSG_TASK_WAKEUP : Z := 66.
Definition MSG_TASK_NEW : Z := 67.
Definition MSG_TASK_PREEMPT : Z := 68.
Definition MSG_TASK_YIELD : Z := 69.
Definition MSG_TASK_DEPARTED : Z := 70.
Definition MSG_TASK_SWITCHTO : Z := 71.
Definition MSG_TASK_AFFINITY_CHANGED : Z := 72.
Definition MSG_TASK_ON_CPU : Z := 73.
Definition MSG_TASK_PRIORITY_CHANGED : Z := 74.
Definition MSG_TASK_LATCH_FAILURE : Z := 75.

Definition MSG_CPU_TICK : Z := _MSG_CPU_FIRST.
Definition MSG_CPU_TIMER_EXPIRED : Z := 129.
Definition MSG_CPU_NOT_IDLE : Z := 130.
Definition MSG_CPU_AVAILABLE : Z := 131.
Definition MSG_CPU_BUSY : Z := 132.
Definition MSG_CPU_AGENT_BLOCKED : Z := 133.
Definition MSG_CPU_AGENT_WAKEUP : Z := 134.

(** A message with the payload fields that the handlers read. *)
Record Message := mkMessage {
  msg_type : Z;
  msg_seqnum : Z;
  msg_gtid : Z;
  msg_cpu : Z;
  msg_runnable : bool;
  msg_from_switchto : bool;
  msg_nice : Z;
  msg_deferrable : bool;
  msg_runtime : Z
}.

Definition is_cpu_msg (m : Message) : bool :=
  (_MSG_CPU_FIRST <=? msg_type m) && (msg_type m <=? _MSG_CPU_LAST).

Definition is_task_msg (m : Message) : bool :=
  (_MSG_TASK_FIRST <=? msg_type m) && (msg_type m <=? _MSG_TASK_LAST).

(** ** Schedulers *)

(** The state of a scheduler holds an allocator. *)
Class HasAllocator (S T : Type) := {
  allocator : S → TaskAllocator T;
  set_allocator : TaskAllocator T → S → S
}.

(** The handlers of a scheduler with state [S] and tasks [T], which receive the
    address of the task. *)
Class SchedOps (S T : Type) `{!TaskType T, !HasAllocator S T} := {
  malloc : S → Z;                       (* the address [new] returns *)
  TaskNew : Z → Message → M S unit;
  TaskRunnable : Z → Message → M S unit;
  TaskDead : Z → Message → M S unit;
  TaskDeparted : Z → Message → M S unit;
  TaskYield : Z → Message → M S unit;
  TaskBlocked : Z → Message → M S unit;
  TaskPreempted : Z → Message → M S unit;
  TaskSwitchto : Z → Message → M S unit;
  TaskAffinityChanged : Z → Message → M S unit;
  TaskPriorityChanged : Z → Message → M S unit;
  TaskOnCpu : Z → Message → M S unit;
  CpuTick : Message → M S unit;
  CpuNotIdle : Message → M S unit;
  CpuTimerExpired : Message → M S unit;
  CpuAvailable : Message → M S unit;
  CpuBusy : Message → M S unit;
  AgentBlocked : Message → M S unit;
  AgentWakeup : Message → M S unit
}.

Section task_ops.
Context {S T : Type} `{!TaskType T, !HasAllocator S T}.

Definition task_at (p : Z) : M S T := λ s, lift (deref p (allocator s)) s.

(** An assignment to the fields of a task. *)
Definition upd_task (p : Z) (f : T → T) : M S unit :=
  task_at p ≫= λ t,
  modify (λ s, set_allocator
    (mkAllocator (task_map_ (allocator s)) (<[p := f t]> (heap (allocator s)))) s).

Definition free_task (p : Z) : M S unit := λ s,
  (lift (FreeTask p (allocator s)) ≫= λ a, modify (set_allocator a)) s.

(** [Task::Advance]: sequence numbers only grow. *)
Definition Advance (p next_seqnum : Z) : M S unit :=
  task_at p ≫= λ t,
  check (task_seqnum t <? next_seqnum) ≫= λ _,
  upd_task p (set_task_seqnum next_seqnum).

End task_ops.

Section dispatch.
Context {S T : Type} `{Ops : SchedOps S T}.

(** The [switch] on the type of a CPU message. *)
Definition dispatch_cpu (m : Message) : M S unit :=
  let ty := msg_type m in
  if ty =? MSG_CPU_TICK then CpuTick m
  else if ty =? MSG_CPU_NOT_IDLE then CpuNotIdle m
  else if ty =? MSG_CPU_TIMER_EXPIRED then CpuTimerExpired m
  else if ty =? MSG_CPU_AVAILABLE then CpuAvailable m
  else if ty =? MSG_CPU_BUSY then CpuBusy m
  else if ty =? MSG_CPU_AGENT_BLOCKED then AgentBlocked m
  else if ty =? MSG_CPU_AGENT_WAKEUP then AgentWakeup m
  else abort GhostError.

(** The lookup: [None] when the message is to be dropped. *)
Definition find_task (m : Message) : M S (option Z) :=
  if msg_type m =? MSG_TASK_NEW then
    get ≫= λ s,
    let '((p, allocated), a) := GetTask_new (malloc s) (msg_gtid m) (allocator s) in
    modify (set_allocator a) ≫= λ _,
    mret (if allocated : bool then Some p else None)
  else gets (λ s, GetTask (msg_gtid m) (allocator s)).

(** The [switch] on the type of a task message; the result is
    [update_seqnum]. *)
Definition dispatch_task (p : Z) (m : Message) : M S bool :=
  let ty := msg_type m in
  if ty =? MSG_TASK_NEW then TaskNew p m ≫= λ _, mret false
  else if ty =? MSG_TASK_PREEMPT then TaskPreempted p m ≫= λ _, mret true
  else if ty =? MSG_TASK_DEAD then TaskDead p m ≫= λ _, mret false
  else if ty =? MSG_TASK_WAKEUP then TaskRunnable p m ≫= λ _, mret true
  else if ty =? MSG_TASK_BLOCKED then TaskBlocked p m ≫= λ _, mret true
  else if ty =? MSG_TASK_YIELD then TaskYield p m ≫= λ _, mret true
  else if ty =? MSG_TASK_DEPARTED then TaskDeparted p m ≫= λ _, mret false
  else if ty =? MSG_TASK_SWITCHTO then TaskSwitchto p m ≫= λ _, mret true
  else if ty =? MSG_TASK_AFFINITY_CHANGED then TaskAffinityChanged p m ≫= λ _, mret true
  else if ty =? MSG_TASK_PRIORITY_CHANGED then TaskPriorityChanged p m ≫= λ _, mret true
  else if ty =? MSG_TASK_ON_CPU then TaskOnCpu p m ≫= λ _, mret true
  else abort GhostError.

(** [DispatchMessage] *)
Definition DispatchMessage (m : Message) : M S unit :=
  if msg_type m =? MSG_NOP then mret tt
  else if is_cpu_msg m then dispatch_cpu m
  else
    check (is_task_msg m) ≫= λ _,
    check (negb (msg_gtid m =? 0)) ≫= λ _,
    find_task m ≫= λ found,
    match found with
    | None => mret tt
    | Some p =>
        dispatch_task p m ≫= λ update_seqnum,
        whenM update_seqnum (Advance p (msg_seqnum m))
    end.
End dispatch.

(** ** Discovery after an agent upgrade *)

Definition ENOENT : Z := 2.
Definition ESTALE : Z := 116.
Definition GHOST_SW_F_CANFREE : Z := Z.shiftl 1 1.
Definition GHOST_SW_TASK_RUNNABLE : Z := Z.shiftl 1 17.
Definition GHOST_ASSOC_SF_ALREADY : Z := Z.shiftl 1 0.
Definition GHOST_ASSOC_SF_BRAND_NEW : Z := Z.shiftl 1 1.

(** What one read of a status word returns. *)
Record SwRead := mkSwRead { sw_barrier : Z; sw_flags : Z; sw_gtid : Z; sw_runtime : Z }.

(** The kernel's answer to an association with the default queue: success with
    a status, or an errno. *)
Inductive AssocResult := AssocOk (status : Z) | AssocErr (errno : Z).

Section discover.
Context {S T : Type} `{Ops : SchedOps S T}.
Variable (DiscoveryStart DiscoveryComplete : M S unit) (TaskDiscovered : Z → M S unit).

(** [allocator()->GetTask(gtid, swi)] as a step. *)
Definition get_or_alloc (gtid : Z) : M S (Z * bool) :=
  get ≫= λ s,
  let '(r, a) := GetTask_new (malloc s) gtid (allocator s) in
  modify (set_allocator a) ≫= λ _, mret r.

(** The TASK_NEW synthesized on the stack; its [nice] is never assigned, so
    it holds whatever [stack_nice] was there. *)
Definition synth_msg (stack_nice : Z) (sw : SwRead) : Message :=
  mkMessage MSG_TASK_NEW (sw_barrier sw) (sw_gtid sw) 0
    (truthy (Z.land (sw_flags sw) GHOST_SW_TASK_RUNNABLE)) false stack_nice false (sw_runtime sw).

(** The callback of [ForEachTaskStatusWord] from the label [retry] on.
    [read] and [assoc] are the answers of successive attempts, [free_ret] the
    result of [FreeStatusWordInfo]. *)
Fixpoint discover_sw (read : nat → SwRead) (assoc : nat → AssocResult)
    (free_ret stack_nice : Z) (fuel : nat) (attempt : nat) (had_estale : bool) : M S unit :=
  match fuel with
  | O => abort OutOfBounds
  | Datatypes.S fuel =>
      let sw := read attempt in
      match assoc attempt with
      | AssocErr errno =>
          if errno =? ENOENT then
            get_or_alloc (sw_gtid sw) ≫= λ '(p, allocated),
            if allocated : bool then free_task p else abort GhostError
          else if errno =? ESTALE then
            if truthy (Z.land (sw_flags sw) GHOST_SW_F_CANFREE) then check (free_ret =? 0)
            else if had_estale then abort GhostError
            else discover_sw read assoc free_ret stack_nice fuel (Datatypes.S attempt) true
          else abort GhostError
      | AssocOk status =>
          if truthy (Z.land status (Z.lor GHOST_ASSOC_SF_ALREADY GHOST_ASSOC_SF_BRAND_NEW))
          then mret tt
          else
            get_or_alloc (sw_gtid sw) ≫= λ '(p, allocated),
            if allocated : bool then
              TaskNew p (synth_msg stack_nice sw) ≫= λ _, TaskDiscovered p
            else abort GhostError
      end
  end.

(** [DiscoverTasks] over the status words of the enclave.  Two attempts per
    word are enough: the second ESTALE is fatal. *)
Definition DiscoverTasks
    (words : list ((nat → SwRead) * (nat → AssocResult) * Z * Z)) : M S unit :=
  DiscoveryStart ≫= λ _,
  forM words (λ '(read, assoc, free_ret, stack_nice),
    discover_sw read assoc free_ret stack_nice 2 0 false) ≫= λ _,
  DiscoveryComplete.
End discover.

(** ** The allocator's invariant *)

Section allocator_inv.
Context {T : Type} `{!TaskType T}.

(** The map holds exactly the live objects, under their gtids. *)
Definition alloc_inv (a : TaskAllocator T) : Prop :=
  heap a !! 0 = None ∧
  ∀ g p, task_map_ a !! g = Some p ↔ ∃ t, heap a !! p = Some t ∧ task_gtid t = g.

(** Two live objects have different gtids. *)
Lemma alloc_inj a p q t u :
  alloc_inv a → heap a !! p = Some t → heap a !! q = Some u → task_gtid t = task_gtid u → p = q.
Proof.
  intros [_ H] Hp Hq E. assert (task_map_ a !! task_gtid t = Some p) as H1 by (apply H; eauto).
  assert (task_map_ a !! task_gtid t = Some q) as H2 by (apply H; eauto). congruence.
Qed.

Lemma alloc_inv_free a p t :
  alloc_inv a → heap a !! p = Some t →
  FreeTask p a = Ok (mkAllocator (delete (task_gtid t) (task_map_ a)) (delete p (heap a))) ∧
  alloc_inv (mkAllocator (delete (task_gtid t) (task_map_ a)) (delete p (heap a))).
Proof.
  intros Hinv Hp. split; [by unfold FreeTask, deref; rewrite Hp|].
  pose proof Hinv as [H0 H]. split; simpl; [by apply lookup_delete_None; right|].
  intros g q. rewrite lookup_delete_Some, H. split.
  - intros [Hne (u & Hu & Eg)]. exists u. split; [|done]. rewrite lookup_delete_ne; [done|].
    intros <-. congruence.
  - intros (u & Hu & Eg). apply lookup_delete_Some in Hu as [Hne Hu]. split; [|eauto].
    intros E. apply Hne. eapply (alloc_inj a p q t u); [done..|congruence].
Qed.

Lemma alloc_inv_new a addr g :
  alloc_inv a → addr ≠ 0 → heap a !! addr = None → task_map_ a !! g = None →
  task_gtid (new_task g : T) = g →
  GetTask_new addr g a = ((addr, true),
    mkAllocator (<[g := addr]> (task_map_ a)) (<[addr := new_task g]> (heap a))) ∧
  alloc_inv (mkAllocator (<[g := addr]> (task_map_ a)) (<[addr := new_task g]> (heap a))).
Proof.
  intros [H0 H] Hne Hfresh Hg Eg. split; [unfold GetTask_new, GetTask; by rewrite Hg|].
  split; simpl; [by rewrite lookup_insert_ne|]. intros g' q. split.
  - intros [[<- <-]|[Hgne Hq]]%lookup_insert_Some; [exists (new_task g); by rewrite lookup_insert_eq|].
    apply H in Hq as (u & Hu & E). exists u. split; [|done].
    rewrite lookup_insert_ne; [done|]. congruence.
  - intros (u & [[<- <-]|[Hqne Hu]]%lookup_insert_Some & E); [rewrite <- E, Eg; by rewrite lookup_insert_eq|].
    assert (task_map_ a !! g' = Some q) as Hq by (apply H; eauto).
    rewrite lookup_insert_ne; [done|]. congruence.
Qed.

(** A change of a task that keeps its gtid. *)
Lemma alloc_inv_upd a p t u :
  alloc_inv a → heap a !! p = Some t → task_gtid u = task_gtid t →
  alloc_inv (mkAllocator (task_map_ a) (<[p := u]> (heap a))).
Proof.
  intros [H0 H] Hp E. split; simpl; [rewrite lookup_insert_ne; [done|congruence]|].
  intros g q. rewrite H. destruct (decide (p = q)) as [<-|Hne].
  - rewrite lookup_insert_eq. split; [intros (v & Hv & <-); exists u; split; congruence|].
    intros (v & [= <-] & <-). eauto.
  - by rewrite lookup_insert_ne.
Qed.
End allocator_inv.

(** An allocator of addresses, for sample machines. *)
Definition fresh_addr {T : Type} (a : TaskAllocator T) : Z := 16 * (1 + foldr Z.max 0 (map_to_list (heap a)).*1).

Lemma foldr_max_le l x : x ∈ l → x ≤ foldr Z.max 0 l.
Proof. induction l as [|y l IH]; intros H; [by apply elem_of_nil in H|]. simpl. apply elem_of_cons in H as [->|H]; [lia|]. specialize (IH H). lia. Qed.

Lemma foldr_max_nonneg l : 0 ≤ foldr Z.max 0 l.
Proof. induction l; simpl; lia. Qed.

Lemma fresh_addr_ok {T : Type} (a : TaskAllocator T) : fresh_addr a ≠ 0 ∧ heap a !! fresh_addr a = None.
Proof.
  unfold fresh_addr. set (l := (map_to_list (heap a)).*1). pose proof (foldr_max_nonneg l). split; [lia|].
  destruct (heap a !! _) as [t|] eqn:E; [|done]. exfalso. apply elem_of_map_to_list in E.
  apply (list_elem_of_fmap_2 fst) in E. fold l in E. apply foldr_max_le in E. simpl fst in E. lia.
Qed.
