(* ===== verification/CfsRq.v ===== *)
(** * CfsRq: the data of the CFS agent (schedulers/cfs/cfs_scheduler.h)

    The state of a task with its transition checks and its trace, the task, the
    run queue and migration queue of a CPU and the state of the scheduler.  The
    model is of the build with assertions ([NDEBUG] not defined).

    The run queue of the CFS agent (schedulers/cfs/cfs_scheduler.cc).

    Every method of [CfsRq], as a step on the scheduler's state.  [rq_] is a
    [std::set] ordered by [CfsTask::Less]: an ordered list of addresses whose
    operations compare through the task objects.  The kernel's answers are the
    fields of [CfsEnv], indexed by the number of interactions so far. *)

From S2P Require Import Prelude Outcome CpuMap Topology Dispatch.
From stdpp Require Import gmap.
From Stdlib Require Import ZArith Lia.

Local Open Scope Z_scope.

(** ** CfsTaskState *)

Inductive State := kBlocked | kRunnable | kRunning | kDone | kNumStates.
Inductive OnRq := kDequeued | kQueued | kMigrating | kNumOnRq.

Global Instance State_eq_dec : EqDecision State.
Proof. solve_decision. Defined.
Global Instance OnRq_eq_dec : EqDecision OnRq.
Proof. solve_decision. Defined.

(** The underlying [uint32_t]s. *)
Definition State_code (s : State) : Z :=
  match s with kBlocked => 0 | kRunnable => 1 | kRunning => 2 | kDone => 3 | kNumStates => 4 end.

Definition OnRq_code (o : OnRq) : Z :=
  match o with kDequeued => 0 | kQueued => 1 | kMigrating => 2 | kNumOnRq => 3 end.

Definition state_bit (s : State) : Z := Z.shiftl 1 (State_code s).
Definition on_rq_bit (o : OnRq) : Z := Z.shiftl 1 (OnRq_code o).

(** The states from which each state may be entered. *)
Definition kToBlocked : Z := state_bit kRunning + state_bit kBlocked.
Definition kToRunnable : Z := state_bit kBlocked + state_bit kRunning + state_bit kRunnable.
Definition kToRunning : Z := state_bit kRunnable + state_bit kRunning.
Definition kToDone : Z := state_bit kRunnable + state_bit kBlocked + state_bit kRunning.

Definition kToDequeued : Z := on_rq_bit kQueued.
Definition kToQueued : Z := on_rq_bit kDequeued + on_rq_bit kMigrating.
Definition kToMigrating : Z := on_rq_bit kDequeued + on_rq_bit kQueued.

(** The transition maps; the sentinels are not keys. *)
Definition GetStateTransitionMap (next : State) : option Z :=
  match next with
  | kBlocked => Some kToBlocked | kRunnable => Some kToRunnable
  | kRunning => Some kToRunning | kDone => Some kToDone | kNumStates => None
  end.

Definition GetOnRqTransitionMap (next : OnRq) : option Z :=
  match next with
  | kDequeued => Some kToDequeued | kQueued => Some kToQueued
  | kMigrating => Some kToMigrating | kNumOnRq => None
  end.

Record FullState := mkFullState { fs_state : State; fs_on_rq : OnRq }.

(** [StateTrace]: a circular buffer of [kMaxSize] entries. *)
Definition kMaxSize : nat := 20.

Record StateTrace := mkTrace { array_ : list FullState; oldest_ : nat; size_ : nat }.

Definition StateTrace_new : StateTrace :=
  mkTrace (replicate kMaxSize (mkFullState kBlocked kDequeued)) 0 0.

Definition StateTrace_Insert (st : FullState) (t : StateTrace) : outcome StateTrace :=
  checkO (bool_decide (size_ t ≤ length (array_ t))%nat) ≫= λ _,
  if bool_decide (size_ t = length (array_ t)) then
    Ok (mkTrace (<[oldest_ t := st]> (array_ t)) ((oldest_ t + 1) mod length (array_ t))%nat (size_ t))
  else Ok (mkTrace (<[size_ t := st]> (array_ t)) (oldest_ t) (size_ t + 1)).

(** [ForEach]: the entries in the order they are visited. *)
Definition StateTrace_ForEach (t : StateTrace) : list FullState :=
  (λ i, default (mkFullState kBlocked kDequeued)
          (array_ t !! ((oldest_ t + i) mod length (array_ t))%nat)) <$> seq 0 (size_ t).

Record CfsTaskState := mkTaskState {
  state_ : State;
  on_rq_ : OnRq;
  state_trace_ : StateTrace
}.

Definition IsBlocked (t : CfsTaskState) : bool := bool_decide (state_ t = kBlocked).
Definition IsRunning (t : CfsTaskState) : bool := bool_decide (state_ t = kRunning).
Definition IsRunnable (t : CfsTaskState) : bool := bool_decide (state_ t = kRunnable).
Definition IsDone (t : CfsTaskState) : bool := bool_decide (state_ t = kDone).
Definition OnRqQueued (t : CfsTaskState) : bool := bool_decide (on_rq_ t = kQueued).
Definition OnRqMigrating (t : CfsTaskState) : bool := bool_decide (on_rq_ t = kMigrating).
Definition OnRqDequeued (t : CfsTaskState) : bool := bool_decide (on_rq_ t = kDequeued).

(** [AssertValidTransition]: the bit of the current state in the mask of the
    next one; [std::map::at] throws on a sentinel. *)
Definition AssertValidTransition (next : State) (t : CfsTaskState) : outcome unit :=
  match GetStateTransitionMap next with
  | Some valid_states => checkO (negb (Z.land valid_states (state_bit (state_ t)) =? 0))
  | None => Crash CheckFailed
  end.

Definition AssertValidTransition_rq (next : OnRq) (t : CfsTaskState) : outcome unit :=
  match GetOnRqTransitionMap next with
  | Some valid_states => checkO (negb (Z.land valid_states (on_rq_bit (on_rq_ t)) =? 0))
  | None => Crash CheckFailed
  end.

Definition SetState (next : State) (t : CfsTaskState) : outcome CfsTaskState :=
  StateTrace_Insert (mkFullState next (on_rq_ t)) (state_trace_ t) ≫= λ tr,
  AssertValidTransition next t ≫= λ _,
  Ok (mkTaskState next (on_rq_ t) tr).

Definition SetOnRq (next : OnRq) (t : CfsTaskState) : outcome CfsTaskState :=
  StateTrace_Insert (mkFullState (state_ t) next) (state_trace_ t) ≫= λ tr,
  AssertValidTransition_rq next t ≫= λ _,
  Ok (mkTaskState (state_ t) next tr).

(** ** CfsTask *)

(** Durations are counts of the clock's ticks; [ns] of the environment is the
    number of ticks in a nanosecond. *)
Record CfsTask := mkCfsTask {
  gtid : Z;
  seqnum : Z;
  task_state : CfsTaskState;
  cpu : Z;
  nice : Z;
  weight : Z;
  inverse_weight : Z;
  cpu_affinity : CpuList;
  vruntime : Z;
  runtime_at_first_pick_ns : Z
}.

Definition set_seqnum (v : Z) (t : CfsTask) : CfsTask :=
  mkCfsTask (gtid t) v (task_state t) (cpu t) (nice t) (weight t) (inverse_weight t)
    (cpu_affinity t) (vruntime t) (runtime_at_first_pick_ns t).
Definition set_task_state (v : CfsTaskState) (t : CfsTask) : CfsTask :=
  mkCfsTask (gtid t) (seqnum t) v (cpu t) (nice t) (weight t) (inverse_weight t)
    (cpu_affinity t) (vruntime t) (runtime_at_first_pick_ns t).
Definition set_cpu (v : Z) (t : CfsTask) : CfsTask :=
  mkCfsTask (gtid t) (seqnum t) (task_state t) v (nice t) (weight t) (inverse_weight t)
    (cpu_affinity t) (vruntime t) (runtime_at_first_pick_ns t).
Definition set_nice (n w iw : Z) (t : CfsTask) : CfsTask :=
  mkCfsTask (gtid t) (seqnum t) (task_state t) (cpu t) n w iw
    (cpu_affinity t) (vruntime t) (runtime_at_first_pick_ns t).
Definition set_cpu_affinity (v : CpuList) (t : CfsTask) : CfsTask :=
  mkCfsTask (gtid t) (seqnum t) (task_state t) (cpu t) (nice t) (weight t) (inverse_weight t)
    v (vruntime t) (runtime_at_first_pick_ns t).
Definition set_vruntime (v : Z) (t : CfsTask) : CfsTask :=
  mkCfsTask (gtid t) (seqnum t) (task_state t) (cpu t) (nice t) (weight t) (inverse_weight t)
    (cpu_affinity t) v (runtime_at_first_pick_ns t).
Definition set_first_pick (v : Z) (t : CfsTask) : CfsTask :=
  mkCfsTask (gtid t) (seqnum t) (task_state t) (cpu t) (nice t) (weight t) (inverse_weight t)
    (cpu_affinity t) (vruntime t) v.

(** The constructor: blocked, dequeued, no CPU, vruntime zero, no affinity.
    The fields it leaves uninitialised are given 0; [TaskNew] assigns them. *)
Definition CfsTask_new (g : Z) : CfsTask :=
  mkCfsTask g 0 (mkTaskState kBlocked kDequeued StateTrace_new) (-1) 0 0 0
    (mkCpuList (replicate (Z.to_nat kMapCapacity) 0) 0 0) 0 0.

Global Instance CfsTask_type : TaskType CfsTask := {
  task_gtid := gtid;
  task_seqnum := seqnum;
  set_task_seqnum := set_seqnum;
  new_task := CfsTask_new
}.

(** [CfsTask::Less]: vruntime first, then the address. *)
Definition Less (a : Z) (ta : CfsTask) (b : Z) (tb : CfsTask) : bool :=
  if vruntime ta =? vruntime tb then a <? b else vruntime ta <? vruntime tb.

(** ** Queues *)

(** [CfsRq]: the ordered set of task addresses and the cached values. *)
Record CfsRq := mkRq {
  min_vruntime_ : Z;
  min_preemption_granularity_ : Z;
  latency_ : Z;
  rq_ : list Z;
  rq_size_ : Z
}.

Definition set_min_vruntime (v : Z) (q : CfsRq) : CfsRq :=
  mkRq v (min_preemption_granularity_ q) (latency_ q) (rq_ q) (rq_size_ q).
Definition SetMinGranularity (v : Z) (q : CfsRq) : CfsRq :=
  mkRq (min_vruntime_ q) v (latency_ q) (rq_ q) (rq_size_ q).
Definition SetLatency (v : Z) (q : CfsRq) : CfsRq :=
  mkRq (min_vruntime_ q) (min_preemption_granularity_ q) v (rq_ q) (rq_size_ q).
(** An update of the set followed by the store of its size. *)
Definition set_rq (l : list Z) (q : CfsRq) : CfsRq :=
  mkRq (min_vruntime_ q) (min_preemption_granularity_ q) (latency_ q) l (Z.of_nat (length l)).

Definition CfsRq_new : CfsRq := mkRq 0 0 0 [] 0.
Definition CfsRq_Size (q : CfsRq) : Z := Z.of_nat (length (rq_ q)).
Definition CfsRq_IsEmpty (q : CfsRq) : bool := bool_decide (rq_ q = []).
Definition LocklessSize (q : CfsRq) : Z := rq_size_ q.
Definition LeftmostRqTask (q : CfsRq) : Z := match rq_ q with [] => 0 | p :: _ => p end.

(** [CfsMq]: migration requests by gtid. *)
Record MigrationArg := mkMigrationArg { ma_task : Z; dst_cpu : Z }.

Notation CfsMq := (gmap Z MigrationArg).

Definition CfsMq_EnqueueTask (g task dst : Z) (q : CfsMq) : CfsMq :=
  <[g := mkMigrationArg task dst]> q.
Definition CfsMq_DequeueTask (g : Z) (q : CfsMq) : CfsMq := delete g q.
Definition CfsMq_IsEmpty (q : CfsMq) : bool := bool_decide (q = ∅).

(** ** CPUs and the scheduler *)

Record CpuState := mkCpuState {
  current : Z;                      (* 0 is nullptr *)
  has_channel : bool;
  run_queue : CfsRq;
  migration_queue : CfsMq;
  preempt_curr : bool;
  id : Z
}.

Definition set_current (v : Z) (c : CpuState) : CpuState :=
  mkCpuState v (has_channel c) (run_queue c) (migration_queue c) (preempt_curr c) (id c).
Definition set_run_queue (v : CfsRq) (c : CpuState) : CpuState :=
  mkCpuState (current c) (has_channel c) v (migration_queue c) (preempt_curr c) (id c).
Definition set_migration_queue (v : CfsMq) (c : CpuState) : CpuState :=
  mkCpuState (current c) (has_channel c) (run_queue c) v (preempt_curr c) (id c).
Definition set_preempt_curr (v : bool) (c : CpuState) : CpuState :=
  mkCpuState (current c) (has_channel c) (run_queue c) (migration_queue c) v (id c).

Definition CpuState_new : CpuState := mkCpuState 0 false CfsRq_new ∅ false (-1).
Definition IsIdle (c : CpuState) : bool := current c =? 0.
Definition LocklessRqEmpty (c : CpuState) : bool := LocklessSize (run_queue c) =? 0.

(** What the agents ask of the kernel, in order. *)
Inductive Event :=
| EPing (cpu : Z)                           (* Agent::Ping *)
| EAssociate (gtid cpu seqnum : Z)          (* Channel::AssociateTask *)
| ECommit (cpu gtid seqnum : Z)             (* RunRequest::Open and Commit *)
| EYield (cpu : Z) (on_idle : bool).        (* RunRequest::LocalYield *)

(** The scheduler; [now] counts the interactions with the kernel. *)
Record Cfs := mkCfs {
  allocator_ : TaskAllocator CfsTask;
  cpu_states_ : Z → CpuState;
  now : nat;
  events : list Event
}.

Definition set_allocator_ (a : TaskAllocator CfsTask) (s : Cfs) : Cfs :=
  mkCfs a (cpu_states_ s) (now s) (events s).
Definition set_cpu_states (f : Z → CpuState) (s : Cfs) : Cfs :=
  mkCfs (allocator_ s) f (now s) (events s).
Definition tick_now (s : Cfs) : Cfs :=
  mkCfs (allocator_ s) (cpu_states_ s) (S (now s)) (events s).
Definition log_event (e : Event) (s : Cfs) : Cfs :=
  mkCfs (allocator_ s) (cpu_states_ s) (now s) (events s ++ [e]).

(** ** Nice values *)

Definition kMaxNice : Z := 19.
Definition kMinNice : Z := -20.

Definition kNiceToWeight : list Z :=
  [88761; 71755; 56483; 46273; 36291;
   29154; 23254; 18705; 14949; 11916;
   9548;  7620;  6100;  4904;  3906;
   3121;  2501;  1991;  1586;  1277;
   1024;  820;   655;   526;   423;
   335;   272;   215;   172;   137;
   110;   87;    70;    56;    45;
   36;    29;    23;    18;    15].

Definition kNiceToInverseWeight : list Z :=
  [48388;     59856;     76040;     92818;     118348;
   147320;    184698;    229616;    287308;    360437;
   449829;    563644;    704093;    875809;    1099582;
   1376151;   1717300;   2157191;   2708050;   3363326;
   4194304;   5237765;   6557202;   8165337;   10153587;
   12820798;  15790321;  19976592;  24970740;  31350126;
   39045157;  49367440;  61356676;  76695844;  95443717;
   119304647; 148102320; 186737708; 238609294; 286331153].

(** The three assignments of [TaskNew] and [TaskPriorityChanged], after their
    checks of the range. *)
Definition nice_weights (n : Z) : outcome (Z * Z) :=
  checkO (kMinNice <=? n) ≫= λ _, checkO (n <=? kMaxNice) ≫= λ _,
  match kNiceToWeight !! Z.to_nat (n - kMinNice),
        kNiceToInverseWeight !! Z.to_nat (n - kMinNice) with
  | Some w, Some iw => Ok (w, iw)
  | _, _ => Crash OutOfBounds
  end.

(** The vruntime gained by [runtime] nanoseconds on the CPU: a 128-bit product
    shifted and cut to 64 bits. *)
Definition vruntime_delta (inverse_weight runtime : Z) : Z :=
  u64 (Z.shiftr (inverse_weight * runtime) 22).

Definition kMaxTasksToLoadBalance : Z := 32.

Inductive CpuIdleType := kCpuIdle | kCpuNotIdle | kCpuNewlyIdle | kNumCpuIdleType.

Global Instance CpuIdleType_eq_dec : EqDecision CpuIdleType.
Proof. solve_decision. Defined.

(** [LoadBalanceEnv]; the CPU states are named by their CPU. *)
Record LoadBalanceEnv := mkLbEnv {
  lb_dst : Z; lb_src : Z; imbalance : Z; lb_tasks : list Z; idle : CpuIdleType
}.

(** ** The run queue of the CFS agent (schedulers/cfs/cfs_scheduler.cc) *)

(** ** The environment *)

Record CfsEnv := mkCfsEnv {
  ns : Z;                                  (* clock ticks in a nanosecond *)
  topo : Topology;
  cpus : CpuList;                          (* the enclave's CPUs *)
  idle_load_balancing_ : bool;
  malloc_ : TaskAllocator CfsTask → Z;
  mq_order : CfsMq → list Z;               (* the iteration order of the hash map *)
  k_runtime : nat → Z → Z;                 (* status_word.runtime() of a gtid *)
  k_associate : nat → Z → Z → Z → bool;    (* AssociateTask: gtid, cpu, seqnum *)
  k_commit : nat → Z → Z → bool;           (* RunRequest::Commit: cpu, gtid *)
  k_affinity : nat → Z → option CpuList;   (* SchedGetAffinity *)
  k_agent : Z → bool                       (* enclave()->GetAgent(cpu) is not null *)
}.

Global Instance Cfs_has_allocator : HasAllocator Cfs CfsTask := {
  allocator := allocator_;
  set_allocator := set_allocator_
}.

(** ** Access *)

(** [cpu_states_[c]]: an index into an array of [MAX_CPUS]. *)
Definition cpu_state (c : Z) : M Cfs CpuState :=
  if (0 <=? c) && (c <? MAX_CPUS) then gets (λ s, cpu_states_ s c) else abort OutOfBounds.

Definition upd_cs (c : Z) (f : CpuState → CpuState) : M Cfs unit :=
  cpu_state c ≫= λ cs, modify (λ s, set_cpu_states (<[c := f cs]> (cpu_states_ s)) s).

Definition upd_rq (c : Z) (f : CfsRq → CfsRq) : M Cfs unit :=
  upd_cs c (λ cs, set_run_queue (f (run_queue cs)) cs).

(** [task->task_state.SetState(next)] and [SetOnRq]. *)
Definition task_SetState (p : Z) (next : State) : M Cfs unit :=
  task_at p ≫= λ t, lift (SetState next (task_state t)) ≫= λ ts, upd_task p (set_task_state ts).

Definition task_SetOnRq (p : Z) (next : OnRq) : M Cfs unit :=
  task_at p ≫= λ t, lift (SetOnRq next (task_state t)) ≫= λ ts, upd_task p (set_task_state ts).

(** A question to the kernel. *)
Definition ask {A} (f : nat → A) : M Cfs A :=
  gets now ≫= λ n, modify tick_now ≫= λ _, mret (f n).

Definition status_runtime (env : CfsEnv) (g : Z) : M Cfs Z := ask (λ n, k_runtime env n g).

Definition AssociateTask (env : CfsEnv) (g c sq : Z) : M Cfs bool :=
  modify (log_event (EAssociate g c sq)) ≫= λ _, ask (λ n, k_associate env n g c sq).

(** ** The ordered set *)

Definition less (a : TaskAllocator CfsTask) (p q : Z) : outcome bool :=
  deref p a ≫= λ tp, deref q a ≫= λ tq, Ok (Less p tp q tq).

(** [insert]: at the lower bound, unless an equivalent element is there. *)
Fixpoint set_insert (a : TaskAllocator CfsTask) (k : Z) (l : list Z) : outcome (list Z) :=
  match l with
  | [] => Ok [k]
  | e :: l' =>
      less a e k ≫= λ lt : bool,
      if lt then set_insert a k l' ≫= λ r, Ok (e :: r)
      else less a k e ≫= λ gt : bool, Ok (if gt then k :: e :: l' else e :: l')
  end.

(** [erase(key)]: the equivalent element at the lower bound; [None] when there
    is none (a result of 0). *)
Fixpoint set_erase (a : TaskAllocator CfsTask) (k : Z) (l : list Z) : outcome (option (list Z)) :=
  match l with
  | [] => Ok None
  | e :: l' =>
      less a e k ≫= λ lt : bool,
      if lt then set_erase a k l' ≫= λ r : option (list Z), Ok (cons e <$> r)
      else less a k e ≫= λ gt : bool, Ok (if gt then None else Some l')
  end.

(** ** Methods *)

Section rq.
Variable env : CfsEnv.

(** [InsertTaskIntoRq]: the minimum becomes the leftmost task's vruntime. *)
Definition InsertTaskIntoRq (c p : Z) : M Cfs unit :=
  task_SetOnRq p kQueued ≫= λ _,
  cpu_state c ≫= λ cs,
  gets (λ s, allocator_ s) ≫= λ a,
  lift (set_insert a p (rq_ (run_queue cs))) ≫= λ l,
  upd_rq c (set_rq l) ≫= λ _,
  match l with
  | [] => abort UseAfterFree
  | q :: _ => task_at q ≫= λ t, upd_rq c (set_min_vruntime (vruntime t))
  end.

(** [EnqueueTask]: a new or woken task starts no earlier than the minimum. *)
Definition EnqueueTask (c p : Z) : M Cfs unit :=
  task_at p ≫= λ t,
  check (0 <=? cpu t) ≫= λ _,
  cpu_state c ≫= λ cs,
  upd_task p (set_vruntime (Z.max (min_vruntime_ (run_queue cs)) (vruntime t))) ≫= λ _,
  InsertTaskIntoRq c p.

(** [CfsRq::PutPrevTask] *)
Definition Rq_PutPrevTask (c p : Z) : M Cfs unit :=
  task_at p ≫= λ t,
  check (0 <=? cpu t) ≫= λ _,
  InsertTaskIntoRq c p.

(** [DequeueTask]: nothing happens when the task is not in the set. *)
Definition DequeueTask (c p : Z) : M Cfs unit :=
  cpu_state c ≫= λ cs,
  gets (λ s, allocator_ s) ≫= λ a,
  lift (set_erase a p (rq_ (run_queue cs))) ≫= λ r,
  match r with
  | Some l => task_SetOnRq p kDequeued ≫= λ _, upd_rq c (set_rq l)
  | None => mret tt
  end.

(** [UpdateMinVruntime]: of the current task, if it is runnable or running,
    and of the leftmost task; never below the old minimum. *)
Definition UpdateMinVruntime (c : Z) : M Cfs unit :=
  cpu_state c ≫= λ cs,
  let rq := run_queue cs in
  let leftmost := LeftmostRqTask rq in
  (if current cs =? 0 then mret None
   else task_at (current cs) ≫= λ t,
        mret (if IsRunnable (task_state t) || IsRunning (task_state t)
              then Some (vruntime t) else None)) ≫= λ curr,
  let vr := default (min_vruntime_ rq) curr in
  (if leftmost =? 0 then mret vr
   else task_at leftmost ≫= λ t,
        mret (match curr with None => vruntime t | Some _ => Z.min vr (vruntime t) end)) ≫= λ vr,
  upd_rq c (λ rq, set_min_vruntime (Z.max (min_vruntime_ rq) vr) rq).

(** [MinPreemptionGranularity] *)
Definition MinPreemptionGranularity (rq : CfsRq) : Z :=
  let tasks := CfsRq_Size rq + 1 in
  if latency_ rq <? tasks * min_preemption_granularity_ rq
  then min_preemption_granularity_ rq
  else Z.quot (latency_ rq + ns env * (tasks - 1)) tasks.

(** What becomes of the previous task: the [switch] of [PickNextTask]. *)
Definition reconcile_prev (c prev : Z) : M Cfs unit :=
  task_at prev ≫= λ t,
  match state_ (task_state t) with
  | kNumStates => abort CheckFailed
  | kBlocked => mret tt
  | kDone => DequeueTask c prev ≫= λ _, free_task prev
  | kRunnable => Rq_PutPrevTask c prev
  | kRunning => Rq_PutPrevTask c prev ≫= λ _, task_SetState prev kRunnable
  end.

(** The leftmost task leaves the queue to run. *)
Definition run_leftmost (c p : Z) : M Cfs unit :=
  DequeueTask c p ≫= λ _,
  task_SetState p kRunning ≫= λ _,
  task_at p ≫= λ t,
  status_runtime env (gtid t) ≫= λ rt,
  upd_task p (set_first_pick rt).

(** The rest of [PickNextTask], once the previous task is dealt with. *)
Definition pick_leftmost (c : Z) : M Cfs Z :=
  cpu_state c ≫= λ cs,
  if CfsRq_IsEmpty (run_queue cs) then UpdateMinVruntime c ≫= λ _, mret 0
  else
    let p := LeftmostRqTask (run_queue cs) in
    run_leftmost c p ≫= λ _, UpdateMinVruntime c ≫= λ _, mret p.

(** [PickNextTask]: the address of the task to run, 0 for none. *)
Definition PickNextTask (c prev : Z) : M Cfs Z :=
  cpu_state c ≫= λ cs,
  (if prev =? 0 then mret false
   else task_at prev ≫= λ t, mret (IsRunning (task_state t))) ≫= λ running : bool,
  if running && negb (preempt_curr cs) then mret prev
  else
    upd_cs c (set_preempt_curr false) ≫= λ _,
    whenM (negb (prev =? 0)) (reconcile_prev c prev) ≫= λ _,
    pick_leftmost c.

(** [AttachTasks] *)
Definition Rq_AttachTasks (c : Z) (tasks : list Z) : M Cfs unit :=
  forM tasks (EnqueueTask c).

(** [CanMigrateTask]: affinity first, then the association. *)
Definition CanMigrateTask (p dst : Z) : M Cfs bool :=
  task_at p ≫= λ t,
  cpu_state dst ≫= λ dcs,
  (if 0 <=? id dcs then lift (CpuList_IsSet (id dcs) (cpu_affinity t)) else mret true) ≫= λ ok : bool,
  if negb ok then mret false
  else if has_channel dcs then AssociateTask env (gtid t) dst (seqnum t) else mret true.

(** The loop of [DetachTasks] over the elements [l] not yet visited;
    [detached] is the vector so far. *)
Fixpoint DetachTasks_loop (src dst n : Z) (l : list Z) (detached : list Z) : M Cfs (list Z) :=
  match l with
  | [] => mret detached
  | p :: l =>
      cpu_state src ≫= λ cs,
      if (CfsRq_Size (run_queue cs) <=? 1) || (n <=? Z.of_nat (length detached))
      then mret detached
      else
        CanMigrateTask p dst ≫= λ ok : bool,
        if ok then
          cpu_state dst ≫= λ dcs,
          upd_task p (set_cpu (id dcs)) ≫= λ _,
          task_SetOnRq p kDequeued ≫= λ _,
          upd_rq src (λ rq, set_rq (filter (λ q, q ≠ p) (rq_ rq)) rq) ≫= λ _,
          DetachTasks_loop src dst n l (detached ++ [p])
        else DetachTasks_loop src dst n l detached
  end.

Definition Rq_DetachTasks (src dst n : Z) : M Cfs (list Z) :=
  cpu_state src ≫= λ cs, DetachTasks_loop src dst n (rq_ (run_queue cs)) [].
End rq.
