(* ===== verification/CfsSched.v ===== *)
(** * CfsSched: the handlers of the CFS agent (schedulers/cfs/cfs_scheduler.cc)

    [CfsScheduler]: CPU selection, migration, the message handlers, load
    balancing and the schedule step, run by the agent of [my_cpu].  The locks
    make each handler one step; the two halves of load balancing and the
    migrations take the other CPU's lock and are steps of their own. *)

From S2P Require Import Prelude Outcome CpuMap.
From S2P Require Import Topology Dispatch CfsRq.
From stdpp Require Import gmap.
From Stdlib Require Import ZArith Lia.

Local Open Scope Z_scope.

Section sched.
Variables (env : CfsEnv) (my_cpu : Z).

(** [topology()->cpu(c)] *)
Definition topo_cpu (c : Z) : M Cfs Z := lift (Topology_cpu (num_cpus_ (topo env)) c).

(** [cpu_state_of]: the CPU whose state holds the task. *)
Definition cpu_state_of (p : Z) : M Cfs Z :=
  task_at p ≫= λ t,
  check (0 <=? cpu t) ≫= λ _, check (cpu t <? MAX_CPUS) ≫= λ _, mret (cpu t).

(** [PingCpu] *)
Definition PingCpu (c : Z) : M Cfs unit :=
  whenM (k_agent env c) (modify (log_event (EPing c))).

Definition mq_enqueue (c p dst : Z) : M Cfs unit :=
  task_at p ≫= λ t,
  upd_cs c (λ cs, set_migration_queue
    (CfsMq_EnqueueTask (gtid t) p dst (migration_queue cs)) cs).

Definition mq_dequeue (c p : Z) : M Cfs unit :=
  task_at p ≫= λ t,
  upd_cs c (λ cs, set_migration_queue (CfsMq_DequeueTask (gtid t) (migration_queue cs)) cs).

(** ** Selecting a CPU *)

(** The closure [update_min]: [st] is [(min_load, min_load_cpu)]. *)
Definition update_min (eligible : CpuList) (st : Z * Z) (this_load this_cpu : Z)
  : outcome ((Z * Z) * bool) :=
  CpuList_IsSet this_cpu eligible ≫= λ set : bool,
  if set then Ok (if this_load <=? st.1 then (this_load, this_cpu) else st, this_load =? 0)
  else Ok (st, false).

(** Look at one CPU: [inl] is an early return. *)
Definition try_cpu (eligible : CpuList) (st : Z * Z) (c : Z) : M Cfs (Z + Z * Z) :=
  cpu_state c ≫= λ cs,
  lift (update_min eligible st (CfsRq_Size (run_queue cs)) c) ≫= λ '(st, found),
  mret (if found : bool then inl c else inr st).

(** The two loops: over the L3 siblings (which skips CPUs outside of the
    enclave) and over the enclave. *)
Fixpoint try_cpus (eligible : CpuList) (enclave_only : bool) (l : list Z) (st : Z * Z)
  : M Cfs (Z + Z * Z) :=
  match l with
  | [] => mret (inr st)
  | c :: l =>
      (if enclave_only then lift (CpuList_IsSet c (cpus env)) else mret true) ≫= λ ok : bool,
      if negb ok then try_cpus eligible enclave_only l st
      else try_cpu eligible st c ≫= λ r,
           match r with
           | inl c => mret (inl c)
           | inr st => try_cpus eligible enclave_only l st
           end
  end.

Definition UINT64_MAX : Z := 2 ^ 64 - 1.

(** Continue a search that has not returned. *)
Definition or_else (r : Z + Z * Z) (k : Z * Z → M Cfs (Z + Z * Z)) : M Cfs (Z + Z * Z) :=
  match r with inl c => mret (inl c) | inr st => k st end.

Definition SelectTaskRq (p : Z) : M Cfs Z :=
  topo_cpu my_cpu ≫= λ _,
  task_at p ≫= λ t,
  let eligible := CpuList_Intersection (cpu_affinity t) (cpus env) in
  try_cpu eligible (UINT64_MAX, my_cpu) my_cpu ≫= λ r,
  or_else r (λ st,
    if 0 <=? cpu t then
      topo_cpu (cpu t) ≫= λ _,
      try_cpu eligible st (cpu t) ≫= λ r,
      or_else r (λ st,
        lift (cpu_rep (topo env) (cpu t) ≫= λ rep, iterate (rep_l3_siblings rep)) ≫= λ l3,
        try_cpus eligible true l3 st)
    else mret (inr st)) ≫= λ r,
  or_else r (λ st, lift (iterate (cpus env)) ≫= λ l, try_cpus eligible false l st) ≫= λ r,
  mret (match r with inl c => c | inr st => st.2 end).

(** ** Migration *)

Definition StartMigrateTask (p : Z) : M Cfs unit :=
  cpu_state_of p ≫= λ c,
  DequeueTask c p ≫= λ _,
  task_SetOnRq p kMigrating ≫= λ _,
  mq_enqueue c p (-1).

Definition StartMigrateCurrTask : M Cfs unit :=
  cpu_state my_cpu ≫= λ cs,
  let p := current cs in
  task_at p ≫= λ t,
  check (cpu t =? my_cpu) ≫= λ _,
  upd_cs my_cpu (set_current 0) ≫= λ _,
  task_SetState p kRunnable ≫= λ _,
  StartMigrateTask p.

(** [Migrate]: whether the task left the migration queue. *)
Definition Migrate (p c seqnum : Z) : M Cfs bool :=
  cpu_state c ≫= λ cs,
  task_at p ≫= λ t,
  if cpu t =? c then
    whenM (IsRunnable (task_state t)) (EnqueueTask c p) ≫= λ _, mret true
  else
    (if has_channel cs then AssociateTask env (gtid t) c seqnum else abort UseAfterFree)
      ≫= λ ok : bool,
    if negb ok then mret false
    else
      upd_task p (set_cpu c) ≫= λ _,
      whenM (IsRunnable (task_state t)) (EnqueueTask c p) ≫= λ _,
      PingCpu c ≫= λ _, mret true.

(** The closure of [MigrateTasks]. *)
Definition try_migrate (arg : MigrationArg) : M Cfs bool :=
  check (negb (ma_task arg =? 0)) ≫= λ _,
  task_at (ma_task arg) ≫= λ t,
  check (OnRqMigrating (task_state t)) ≫= λ _,
  (if dst_cpu arg <? 0 then SelectTaskRq (ma_task arg) else topo_cpu (dst_cpu arg)) ≫= λ c,
  task_at (ma_task arg) ≫= λ t,
  Migrate (ma_task arg) c (seqnum t).

(** [DequeueTaskIf]: visit each request once, erase those that migrate. *)
Definition DequeueTaskIf (c : Z) : M Cfs unit :=
  cpu_state c ≫= λ cs,
  forM (mq_order env (migration_queue cs)) (λ g,
    match migration_queue cs !! g with
    | None => mret tt
    | Some arg =>
        try_migrate arg ≫= λ ok : bool,
        whenM ok (upd_cs c (λ cs, set_migration_queue (delete g (migration_queue cs)) cs))
    end).

Definition MigrateTasks (c : Z) : M Cfs unit :=
  cpu_state c ≫= λ cs,
  if CfsMq_IsEmpty (migration_queue cs) then mret tt else DequeueTaskIf c.

(** ** Messages *)

(** [SchedGetAffinity], falling back to the enclave. *)
Definition get_affinity (g : Z) : M Cfs CpuList :=
  ask (λ n, default (cpus env) (k_affinity env n g)).

Definition Cfs_TaskNew (p : Z) (m : Message) : M Cfs unit :=
  task_at p ≫= λ t,
  get_affinity (gtid t) ≫= λ aff,
  upd_task p (λ t, set_seqnum (msg_seqnum m) (set_cpu_affinity aff (set_cpu my_cpu t))) ≫= λ _,
  lift (nice_weights (msg_nice m)) ≫= λ w,
  upd_task p (set_nice (msg_nice m) w.1 w.2) ≫= λ _,
  if msg_runnable m then
    cpu_state_of p ≫= λ c,
    task_SetState p kRunnable ≫= λ _,
    task_SetOnRq p kMigrating ≫= λ _,
    mq_enqueue c p (-1)
  else mret tt.

(** [TaskRunnable] takes [&cpu_states_[task->cpu]] before it tests the index. *)
Definition Cfs_TaskRunnable (p : Z) (m : Message) : M Cfs unit :=
  task_at p ≫= λ t,
  cpu_state (cpu t) ≫= λ cs,
  whenM ((0 <=? cpu t) && (current cs =? p)) (upd_cs (cpu t) (set_current 0)) ≫= λ _,
  task_SetState p kRunnable ≫= λ _,
  task_SetOnRq p kMigrating ≫= λ _,
  mq_enqueue (cpu t) p (-1).

Definition HandleTaskDone (p : Z) (from_switchto : bool) : M Cfs unit :=
  cpu_state_of p ≫= λ c,
  mq_dequeue c p ≫= λ _,
  task_at p ≫= λ t,
  let prev_state := state_ (task_state t) in
  task_SetState p kDone ≫= λ _,
  if bool_decide (prev_state = kRunning) || from_switchto ||
     bool_decide (prev_state = kRunnable) || bool_decide (prev_state = kBlocked)
  then
    cpu_state c ≫= λ cs,
    whenM (negb (current cs =? p))
      (DequeueTask c p ≫= λ _, free_task p ≫= λ _, UpdateMinVruntime c)
  else mret tt.

Definition Cfs_TaskDeparted (p : Z) (m : Message) : M Cfs unit :=
  cpu_state_of p ≫= λ _,
  HandleTaskDone p (msg_from_switchto m) ≫= λ _,
  whenM (msg_from_switchto m) (topo_cpu (msg_cpu m) ≫= λ c, PingCpu c).

Definition Cfs_TaskDead (p : Z) (m : Message) : M Cfs unit :=
  cpu_state_of p ≫= λ _, HandleTaskDone p false.

(** [CfsScheduler::PutPrevTask] *)
Definition PutPrevTask (p : Z) : M Cfs unit :=
  cpu_state my_cpu ≫= λ cs,
  check (negb (p =? 0)) ≫= λ _,
  whenM (current cs =? p) (upd_cs my_cpu (set_current 0)) ≫= λ _,
  task_SetState p kRunnable ≫= λ _,
  task_at p ≫= λ t,
  lift (CpuList_IsSet (u32 (cpu t)) (cpu_affinity t)) ≫= λ ok : bool,
  if negb ok then StartMigrateTask p else Rq_PutPrevTask my_cpu p.

(** The end of the handlers of a task that went off CPU: the last task of a
    switchto chain on another CPU. *)
Definition ping_remote (m : Message) : M Cfs unit :=
  whenM (negb (msg_cpu m =? my_cpu))
    (check (msg_from_switchto m) ≫= λ _, topo_cpu (msg_cpu m) ≫= λ c, PingCpu c).

(** The start of the same handlers. *)
Definition check_current (p : Z) (m : Message) : M Cfs unit :=
  topo_cpu my_cpu ≫= λ _,
  cpu_state my_cpu ≫= λ cs,
  check (msg_from_switchto m || (current cs =? p)).

Definition check_dequeued (p : Z) : M Cfs unit :=
  task_at p ≫= λ t, check (OnRqDequeued (task_state t)).

Definition Cfs_TaskYield (p : Z) (m : Message) : M Cfs unit :=
  check_current p m ≫= λ _,
  check_dequeued p ≫= λ _,
  PutPrevTask p ≫= λ _,
  ping_remote m.

Definition Cfs_TaskPreempted (p : Z) (m : Message) : M Cfs unit :=
  check_current p m ≫= λ _,
  check_dequeued p ≫= λ _,
  PutPrevTask p ≫= λ _,
  ping_remote m.

Definition Cfs_TaskBlocked (p : Z) (m : Message) : M Cfs unit :=
  check_current p m ≫= λ _,
  cpu_state my_cpu ≫= λ cs,
  whenM (current cs =? p) (upd_cs my_cpu (set_current 0)) ≫= λ _,
  task_SetState p kBlocked ≫= λ _,
  check_dequeued p ≫= λ _,
  ping_remote m.

Definition Cfs_TaskSwitchto (p : Z) (m : Message) : M Cfs unit :=
  cpu_state_of p ≫= λ c,
  cpu_state c ≫= λ cs,
  check (current cs =? p) ≫= λ _,
  task_SetState p kBlocked ≫= λ _,
  check_dequeued p ≫= λ _,
  upd_cs c (set_current 0).

Definition Cfs_TaskAffinityChanged (p : Z) (m : Message) : M Cfs unit :=
  cpu_state_of p ≫= λ _,
  task_at p ≫= λ t,
  check (gtid t =? msg_gtid m) ≫= λ _,
  get_affinity (gtid t) ≫= λ aff,
  upd_task p (set_cpu_affinity aff) ≫= λ _,
  task_at p ≫= λ t,
  lift (CpuList_IsSet (u32 (cpu t)) (cpu_affinity t)) ≫= λ ok : bool,
  if ok then mret tt
  else whenM (IsRunnable (task_state t) && negb (OnRqMigrating (task_state t)))
         (StartMigrateTask p).

Definition Cfs_TaskPriorityChanged (p : Z) (m : Message) : M Cfs unit :=
  cpu_state_of p ≫= λ _,
  task_at p ≫= λ t,
  check (gtid t =? msg_gtid m) ≫= λ _,
  lift (nice_weights (msg_nice m)) ≫= λ w,
  upd_task p (set_nice (msg_nice m) w.1 w.2).

(** [CheckPreemptTick]: has the current task run longer than its slice? *)
Definition CheckPreemptTick (c : Z) : M Cfs unit :=
  cpu_state c ≫= λ cs,
  whenM (negb (current cs =? 0))
    (task_at (current cs) ≫= λ t,
     status_runtime env (gtid t) ≫= λ rt,
     whenM (MinPreemptionGranularity env (run_queue cs)
              <? ns env * u64 (rt - runtime_at_first_pick_ns t))
       (upd_cs c (set_preempt_curr true))).

Definition Cfs_CpuTick (m : Message) : M Cfs unit :=
  topo_cpu (msg_cpu m) ≫= λ c, cpu_state c ≫= λ _, CheckPreemptTick c.

(** ** Load balancing *)

Definition AttachTasks (e : LoadBalanceEnv) : M Cfs LoadBalanceEnv :=
  Rq_AttachTasks (lb_dst e) (lb_tasks e) ≫= λ _,
  mret (mkLbEnv (lb_dst e) (lb_src e)
          (imbalance e - Z.of_nat (length (lb_tasks e))) (lb_tasks e) (idle e)).

Definition DetachTasks (e : LoadBalanceEnv) : M Cfs (LoadBalanceEnv * Z) :=
  Rq_DetachTasks env (lb_src e) (lb_dst e) (imbalance e) ≫= λ l,
  mret (mkLbEnv (lb_dst e) (lb_src e) (imbalance e) l (idle e), Z.of_nat (length l)).

(** [CalculateImbalance], from the two sizes. *)
Definition calculate_imbalance (src_tasks dst_tasks : Z) : Z :=
  let excess := src_tasks - dst_tasks in
  if 2 <=? excess then Z.min kMaxTasksToLoadBalance (Z.quot excess 2) else 0.

Definition CalculateImbalance (e : LoadBalanceEnv) : M Cfs (LoadBalanceEnv * Z) :=
  cpu_state (lb_src e) ≫= λ src, cpu_state (lb_dst e) ≫= λ dst,
  let n := calculate_imbalance (LocklessSize (run_queue src)) (LocklessSize (run_queue dst)) in
  mret (mkLbEnv (lb_dst e) (lb_src e) n (lb_tasks e) (idle e), n).

(** [FindBusiestQueue]: the first CPU with the most tasks; [st] is
    [(busiest_runnable_nr, busiest_cpu)]. *)
Fixpoint busiest_loop (l : list Z) (st : Z * Z) : M Cfs (Z * Z) :=
  match l with
  | [] => mret st
  | c :: l =>
      cpu_state c ≫= λ cs,
      let nr := LocklessSize (run_queue cs) in
      busiest_loop l (if nr <=? st.1 then st else (nr, c))
  end.

Definition FindBusiestQueue : M Cfs Z :=
  lift (iterate (cpus env)) ≫= λ l, busiest_loop l (0, 0) ≫= λ st, mret st.2.

(** The first CPU with an empty queue, [dflt] if there is none. *)
Fixpoint first_idle (l : list Z) (dflt : Z) : M Cfs Z :=
  match l with
  | [] => mret dflt
  | c :: l => cpu_state c ≫= λ cs,
              if LocklessRqEmpty cs then mret c else first_idle l dflt
  end.

Definition ShouldWeBalance (e : LoadBalanceEnv) : M Cfs bool :=
  if bool_decide (idle e = kCpuNewlyIdle) then
    cpu_state (lb_dst e) ≫= λ dcs, mret (LocklessRqEmpty dcs)
  else
    lift (Front (cpus env)) ≫= λ front,
    match front with
    | None => abort UseAfterFree
    | Some f => lift (iterate (cpus env)) ≫= λ l,
                first_idle l f ≫= λ dst, mret (dst =? my_cpu)
    end.

Definition LoadBalance (idle_type : CpuIdleType) : M Cfs Z :=
  let e := mkLbEnv my_cpu 0 0 [] idle_type in
  ShouldWeBalance e ≫= λ go : bool,
  if negb go then mret 0
  else
    FindBusiestQueue ≫= λ busiest,
    if busiest =? my_cpu then mret 0
    else
      CalculateImbalance (mkLbEnv my_cpu busiest 0 [] idle_type) ≫= λ '(e, n),
      if n =? 0 then mret 0
      else
        DetachTasks e ≫= λ '(e, moved),
        (if moved =? 0 then mret e else AttachTasks e) ≫= λ _,
        mret moved.

Definition NewIdleBalance (c : Z) : M Cfs Z :=
  LoadBalance kCpuNewlyIdle ≫= λ n,
  if n <=? 0 then mret 0 else PickNextTask env c 0.

(** ** Scheduling *)

(** The prio-boosted agent puts its task back and yields. *)
Definition CfsSchedule_boosted (c : Z) : M Cfs unit :=
  cpu_state c ≫= λ cs,
  let prev := current cs in
  whenM (negb (prev =? 0))
    (reconcile_prev c prev ≫= λ _,
     upd_cs c (set_preempt_curr false) ≫= λ _,
     upd_cs c (set_current 0) ≫= λ _,
     UpdateMinVruntime c) ≫= λ _,
  modify (log_event (EYield c true)).

(** The transaction that puts [next] on the CPU, and its vruntime.  The
    wait for [next] to get off another CPU has no effect on the state. *)
Definition run_task (c next : Z) : M Cfs unit :=
  task_at next ≫= λ t,
  status_runtime env (gtid t) ≫= λ before_runtime,
  modify (log_event (ECommit c (gtid t) (seqnum t))) ≫= λ _,
  ask (λ n, k_commit env n c (gtid t)) ≫= λ ok : bool,
  whenM ok
    (status_runtime env (gtid t) ≫= λ after,
     let runtime := u64 (after - before_runtime) in
     upd_task next (λ t, set_vruntime
       (vruntime t + ns env * vruntime_delta (inverse_weight t) runtime) t)).

Definition CfsSchedule (c : Z) (prio_boost : bool) : M Cfs unit :=
  if prio_boost then CfsSchedule_boosted c
  else
    cpu_state c ≫= λ cs,
    PickNextTask env c (current cs) ≫= λ next,
    (if (next =? 0) && idle_load_balancing_ env then NewIdleBalance c else mret next) ≫= λ next,
    upd_cs c (set_current next) ≫= λ _,
    if next =? 0 then modify (log_event (EYield c false)) else run_task c next.

(** ** The instance for the dispatcher *)

(** Handlers that [CfsScheduler] does not override do nothing. *)
Definition unhandled : M Cfs unit := mret tt.

Global Instance Cfs_ops : SchedOps Cfs CfsTask := {
  malloc := λ s, malloc_ env (allocator_ s);
  TaskNew := Cfs_TaskNew;
  TaskRunnable := Cfs_TaskRunnable;
  TaskDead := Cfs_TaskDead;
  TaskDeparted := Cfs_TaskDeparted;
  TaskYield := Cfs_TaskYield;
  TaskBlocked := Cfs_TaskBlocked;
  TaskPreempted := Cfs_TaskPreempted;
  TaskSwitchto := Cfs_TaskSwitchto;
  TaskAffinityChanged := Cfs_TaskAffinityChanged;
  TaskPriorityChanged := Cfs_TaskPriorityChanged;
  TaskOnCpu := λ _ _, unhandled;
  CpuTick := Cfs_CpuTick;
  CpuNotIdle := λ _, unhandled;
  CpuTimerExpired := λ _, unhandled;
  CpuAvailable := λ _, unhandled;
  CpuBusy := λ _, unhandled;
  AgentBlocked := λ _, unhandled;
  AgentWakeup := λ _, unhandled
}.

(** [Schedule]: drain the channel, migrate, schedule. *)
Definition Schedule (c : Z) (msgs : list Message) (boosted_priority : bool) : M Cfs unit :=
  forM msgs (@DispatchMessage Cfs CfsTask _ _ Cfs_ops) ≫= λ _,
  MigrateTasks c ≫= λ _,
  CfsSchedule c boosted_priority.

(** [Empty] and [CountAllTasks] *)
Definition Cfs_Empty (c : Z) : M Cfs bool :=
  cpu_state c ≫= λ cs, mret (CfsRq_IsEmpty (run_queue cs)).

Definition CountAllTasks (s : Cfs) : outcome Z :=
  ForEachTask (λ n _ (_ : CfsTask), (n + 1, true)) (allocator_ s) 0.
End sched.

(** The constructor: the queues of the enclave's CPUs get their parameters and
    a channel each. *)
Definition CfsScheduler_new (env : CfsEnv) (min_granularity latency : Z) : outcome Cfs :=
  iterate (cpus env) ≫= λ l,
  Ok (mkCfs (mkAllocator ∅ ∅)
    (foldl (λ f c, <[c := mkCpuState 0 true
                     (SetLatency latency (SetMinGranularity min_granularity CfsRq_new)) ∅ false c]> f)
       (λ _, CpuState_new) l) 0 []).
