(* ===== verification/CfsBasics.v ===== *)
(** * CfsBasics: the task state machine, the trace, weights and slices

    The parts of the CFS agent that need no scheduler state: which transitions
    [AssertValidTransition] allows, what the state trace holds, the precision
    of the weight tables, and the length of a time slice. *)

From S2P Require Import Prelude Outcome CpuMap.
From S2P Require Import Topology TopologyClaims Dispatch CfsRq CfsSched.
From stdpp Require Import gmap.
From Stdlib Require Import ZArith Lia.

Local Open Scope Z_scope.

(** ** The trace *)

Definition trace_wf (t : StateTrace) : Prop :=
  length (array_ t) = kMaxSize ∧ (size_ t ≤ kMaxSize)%nat ∧ (oldest_ t < kMaxSize)%nat ∧
  (size_ t ≠ kMaxSize → oldest_ t = 0%nat).

(** [t] holds the last [kMaxSize] entries of the history [h]. *)
Definition trace_of (h : list FullState) (t : StateTrace) : Prop :=
  trace_wf t ∧ StateTrace_ForEach t = drop (length h - kMaxSize) h.

Lemma trace_new_wf : trace_wf StateTrace_new.
Proof. split_and!; simpl; try done; unfold kMaxSize; lia. Qed.

Lemma Insert_ok st t :
  trace_wf t → ∃ t', StateTrace_Insert st t = Ok t' ∧ trace_wf t' ∧
    StateTrace_ForEach t' =
      (if bool_decide (size_ t = kMaxSize) then tail (StateTrace_ForEach t)
       else StateTrace_ForEach t) ++ [st].
Proof.
  unfold trace_wf. intros (Hlen & Hsize & Hold & H0).
  assert (0 < kMaxSize)%nat as Hpos by (unfold kMaxSize; lia).
  revert Hlen Hsize Hold H0 Hpos. generalize kMaxSize. intros n Hlen Hsize Hold H0 Hpos.
  unfold StateTrace_Insert. rewrite Hlen.
  rewrite (bool_decide_true (size_ t ≤ n)%nat) by exact Hsize. cbn [checkO mbind outcome_bind].
  case_bool_decide as Hfull.
  - eexists. split; [done|]. split.
    + cbn [array_ size_ oldest_]. split_and!; [by rewrite length_insert|lia|apply Nat.mod_upper_bound; lia|done].
    + unfold StateTrace_ForEach. cbn [array_ size_ oldest_]. rewrite length_insert, Hlen, Hfull.
      destruct n as [|k]; [lia|].
      rewrite (seq_S k 0) at 1. rewrite fmap_app.
      change (seq 0 (S k)) with (0%nat :: seq 1 k). rewrite !fmap_cons, <- (fmap_S_seq 0 k), <- list_fmap_compose.
      cbn [tail]. f_equal; [|cbn [fmap list_fmap]; f_equal].
      * apply list_fmap_ext. intros i ? [-> Hi]%lookup_seq. cbn [plus]. unfold compose. f_equal.
        rewrite Nat.Div0.add_mod_idemp_l. cbn [plus]. replace (oldest_ t + 1 + i)%nat with (oldest_ t + S i)%nat by lia.
        rewrite list_lookup_insert_ne; [done|]. intros E.
        destruct (Nat.lt_ge_cases (oldest_ t + S i) (S k)).
        -- rewrite Nat.mod_small in E by lia. lia.
        -- assert ((oldest_ t + S i) mod S k = oldest_ t + S i - S k)%nat as Em.
           { symmetry. apply (Nat.mod_unique _ _ 1); lia. }
           lia.
      * rewrite Nat.Div0.add_mod_idemp_l. cbn [plus].
        replace (oldest_ t + 1 + k)%nat with (oldest_ t + 1 * S k)%nat by lia.
        rewrite Nat.Div0.mod_add, Nat.mod_small by lia.
        by rewrite list_lookup_insert_eq by lia.
  - eexists. split; [done|]. specialize (H0 Hfull). split.
    + cbn [array_ size_ oldest_]. split_and!; [by rewrite length_insert|lia|done|done].
    + unfold StateTrace_ForEach. cbn [array_ size_ oldest_]. rewrite length_insert, Hlen, H0.
      rewrite Nat.add_1_r, seq_S, fmap_app. cbn [fmap list_fmap]. f_equal; [|f_equal].
      * apply list_fmap_ext. intros i ? [-> Hi]%lookup_seq. cbn [plus]. f_equal. cbn [plus].
        rewrite Nat.mod_small by lia. by rewrite list_lookup_insert_ne by lia.
      * cbn [plus]. rewrite Nat.mod_small by lia. by rewrite list_lookup_insert_eq by lia.
Qed.

Lemma ForEach_length t : length (StateTrace_ForEach t) = size_ t.
Proof. unfold StateTrace_ForEach. by rewrite length_fmap, length_seq. Qed.

Lemma drop_last_app {A} (h : list A) (n : nat) (x : A) :
  (0 < n)%nat →
  drop (length (h ++ [x]) - n) (h ++ [x]) =
  (if bool_decide (length (drop (length h - n) h) = n) then tail (drop (length h - n) h)
   else drop (length h - n) h) ++ [x].
Proof.
  intros Hn. rewrite length_app, length_drop. simpl. case_bool_decide as E.
  - replace (length h + 1 - n)%nat with (S (length h - n)) by lia.
    rewrite drop_app_le by lia. f_equal.
    destruct (drop (length h - n) h) as [|y r] eqn:Ed.
    { apply (f_equal length) in Ed. rewrite length_drop in Ed. simpl in Ed. lia. }
    simpl. apply (f_equal (drop 1)) in Ed. rewrite drop_drop in Ed.
    by rewrite Nat.add_1_r in Ed.
  - replace (length h + 1 - n)%nat with 0%nat by lia.
    replace (length h - n)%nat with 0%nat by lia. by rewrite !drop_0.
Qed.

Lemma trace_of_step h t st :
  trace_of h t → ∃ t', StateTrace_Insert st t = Ok t' ∧ trace_of (h ++ [st]) t'.
Proof.
  intros [Hwf Hh]. destruct (Insert_ok st t Hwf) as (t' & E & Hwf' & Heq).
  exists t'. split; [done|]. split; [done|].
  rewrite Heq, <- (ForEach_length t), Hh. symmetry. apply drop_last_app. unfold kMaxSize. lia.
Qed.

(** The state trace is a window on the history: after any sequence of
    insertions [ForEach] visits exactly the last [kMaxSize] states inserted,
    oldest first; no insertion fails its [CHECK]. *)
Theorem state_trace_is_last_states (h : list FullState) :
  ∃ t, foldO (λ t st, StateTrace_Insert st t) h StateTrace_new = Ok t ∧
    StateTrace_ForEach t = drop (length h - kMaxSize) h.
Proof.
  assert (wpo (foldO (λ t st, StateTrace_Insert st t) h StateTrace_new) (trace_of h)) as H.
  { apply (wpo_foldO _ trace_of []).
    - split; [apply trace_new_wf|done].
    - intros d x r t _ Ht. destruct (trace_of_step d t x Ht) as (t' & -> & Ht'). exact Ht'. }
  apply wpo_ok in H as (t & E & _ & Ht). eauto.
Qed.

(** ** Transitions *)

(** The state machine of a task, as the handlers mean it. *)
Definition may_enter (cur next : State) : bool :=
  match next, cur with
  | kBlocked, (kRunning | kBlocked) => true
  | kRunnable, (kBlocked | kRunning | kRunnable) => true
  | kRunning, (kRunnable | kRunning) => true
  | kDone, (kRunnable | kBlocked | kRunning) => true
  | _, _ => false
  end.

Definition may_enter_rq (cur next : OnRq) : bool :=
  match next, cur with
  | kDequeued, kQueued => true
  | kQueued, (kDequeued | kMigrating) => true
  | kMigrating, (kDequeued | kQueued) => true
  | _, _ => false
  end.

Lemma AssertValidTransition_eq next t :
  AssertValidTransition next t = checkO (may_enter (state_ t) next).
Proof. destruct t as [[] o tr], next; reflexivity. Qed.

Lemma AssertValidTransition_rq_eq next t :
  AssertValidTransition_rq next t = checkO (may_enter_rq (on_rq_ t) next).
Proof. destruct t as [s [] tr], next; reflexivity. Qed.

Lemma SetState_ok next t :
  trace_wf (state_trace_ t) → may_enter (state_ t) next = true →
  ∃ t', SetState next t = Ok t' ∧ state_ t' = next ∧ on_rq_ t' = on_rq_ t ∧ trace_wf (state_trace_ t').
Proof.
  intros Hwf Hm. unfold SetState. destruct (Insert_ok (mkFullState next (on_rq_ t)) _ Hwf) as (tr & -> & Htr & _).
  simpl. rewrite AssertValidTransition_eq, Hm. simpl. eauto.
Qed.

Lemma SetOnRq_ok next t :
  trace_wf (state_trace_ t) → may_enter_rq (on_rq_ t) next = true →
  ∃ t', SetOnRq next t = Ok t' ∧ state_ t' = state_ t ∧ on_rq_ t' = next ∧ trace_wf (state_trace_ t').
Proof.
  intros Hwf Hm. unfold SetOnRq. destruct (Insert_ok (mkFullState (state_ t) next) _ Hwf) as (tr & -> & Htr & _).
  simpl. rewrite AssertValidTransition_rq_eq, Hm. simpl. eauto.
Qed.

(** [SetState] and [SetOnRq] succeed exactly on the transitions of the
    state machine and otherwise abort; a success changes only the component it
    names. No transition leaves the state kDone. *)
Theorem task_state_transitions (t : CfsTaskState) (Hwf : trace_wf (state_trace_ t)) :
  (∀ next, if may_enter (state_ t) next
     then ∃ t', SetState next t = Ok t' ∧ state_ t' = next ∧ on_rq_ t' = on_rq_ t
     else SetState next t = Crash CheckFailed) ∧
  (∀ next, if may_enter_rq (on_rq_ t) next
     then ∃ t', SetOnRq next t = Ok t' ∧ on_rq_ t' = next ∧ state_ t' = state_ t
     else SetOnRq next t = Crash CheckFailed) ∧
  (state_ t = kDone → ∀ next, SetState next t = Crash CheckFailed).
Proof.
  assert (∀ next, may_enter (state_ t) next = false → SetState next t = Crash CheckFailed) as Hbad.
  { intros next E. unfold SetState.
    destruct (Insert_ok (mkFullState next (on_rq_ t)) _ Hwf) as (tr & -> & _). simpl.
    by rewrite AssertValidTransition_eq, E. }
  split_and!.
  - intros next. destruct (may_enter (state_ t) next) eqn:E; [|by apply Hbad].
    destruct (SetState_ok next t Hwf E) as (t' & ? & ? & ? & _). eauto.
  - intros next. destruct (may_enter_rq (on_rq_ t) next) eqn:E.
    + destruct (SetOnRq_ok next t Hwf E) as (t' & ? & ? & ? & _). eauto.
    + unfold SetOnRq. destruct (Insert_ok (mkFullState (state_ t) next) _ Hwf) as (tr & -> & _). simpl.
      by rewrite AssertValidTransition_rq_eq, E.
  - intros Hd next. apply Hbad. rewrite Hd. by destruct next.
Qed.

Lemma task_state_transitions_witness :
  ∃ t', SetState kRunnable (mkTaskState kBlocked kDequeued StateTrace_new) = Ok t' ∧ state_ t' = kRunnable.
Proof.
  destruct (proj1 (task_state_transitions (mkTaskState kBlocked kDequeued StateTrace_new) trace_new_wf)
              kRunnable) as (t' & E & Es & _).
  exists t'. split; [exact E|exact Es].
Defined.

(** ** Weights *)

(** The decidable content of the tables at one nice value. *)
Definition weights_ok (n : Z) : bool :=
  match nice_weights n with
  | Ok (w, iw) => (0 <? w) && (0 <? iw) && (iw <? 2 ^ 29) && (Z.abs (w * iw - 2 ^ 32) <=? w) &&
      (if n <? kMaxNice then
         match nice_weights (n + 1) with
         | Ok (w', iw') => (w' <? w) && (iw <? iw')
         | Crash _ => false
         end else true)
  | Crash _ => false
  end.

Lemma weights_all : forallb weights_ok (seqZ kMinNice 40) = true.
Proof. by vm_compute. Qed.

Lemma nice_weights_ok n :
  kMinNice ≤ n ≤ kMaxNice →
  ∃ w iw, nice_weights n = Ok (w, iw) ∧ 0 < w ∧ 0 < iw < 2 ^ 29 ∧ Z.abs (w * iw - 2 ^ 32) ≤ w ∧
    (n < kMaxNice → ∃ w' iw', nice_weights (n + 1) = Ok (w', iw') ∧ w' < w ∧ iw < iw').
Proof.
  intros Hn. pose proof weights_all as H. rewrite forallb_forall in H.
  specialize (H n). assert (In n (seqZ kMinNice 40)) as Hin.
  { apply list_elem_of_In, elem_of_seqZ. unfold kMinNice, kMaxNice in *. lia. }
  specialize (H Hin). unfold weights_ok in H.
  destruct (nice_weights n) as [[w iw]|]; [|done].
  rewrite !andb_true_iff in H. destruct H as [[[[H1 H2] H3] H4] H5]. zbool.
  exists w, iw. split_and!; try done. intros Hlt. rewrite (proj2 (Z.ltb_lt n kMaxNice)) in H5 by done.
  destruct (nice_weights (n + 1)) as [[w' iw']|]; [|done].
  apply andb_true_iff in H5 as [H6 H7]. zbool. eauto.
Qed.

Lemma nice_weights_fail n : ¬ kMinNice ≤ n ≤ kMaxNice → nice_weights n = Crash CheckFailed.
Proof.
  intros Hn. unfold nice_weights. destruct (Z.leb_spec kMinNice n); [|done].
  destruct (Z.leb_spec n kMaxNice); [lia|done].
Qed.

(** The weight tables: every nice value of [-20, 19] has a weight and an
    inverse weight whose product is 2^32 up to the weight itself (the inverse
    is exact to one unit), both strictly monotone in the nice value; any other
    nice value aborts. At nice 0 the vruntime is the wall time, and a nicer
    task never gains less vruntime in the same time. *)
Theorem nice_weight_tables (n runtime : Z) (Hr : 0 ≤ runtime < 2 ^ 56) :
  (kMinNice ≤ n ≤ kMaxNice → ∃ w iw, nice_weights n = Ok (w, iw) ∧
     Z.abs (w * iw - 2 ^ 32) ≤ w ∧
     (n = 0 → vruntime_delta iw runtime = runtime) ∧
     (n < kMaxNice → ∃ w' iw', nice_weights (n + 1) = Ok (w', iw') ∧ w' < w ∧ iw < iw' ∧
        vruntime_delta iw runtime ≤ vruntime_delta iw' runtime)) ∧
  (¬ kMinNice ≤ n ≤ kMaxNice → nice_weights n = Crash CheckFailed).
Proof.
  assert (∀ iw, 0 < iw < 2 ^ 29 → vruntime_delta iw runtime = iw * runtime / 2 ^ 22) as Hd.
  { intros iw Hiw. unfold vruntime_delta. rewrite Z.shiftr_div_pow2 by lia. apply u64_small.
    split; [apply Z.div_pos; nia|]. apply Z.div_lt_upper_bound; nia. }
  split; [|apply nice_weights_fail]. intros Hn.
  destruct (nice_weights_ok n Hn) as (w & iw & E & Hw & Hiw & Herr & Hmono).
  exists w, iw. split_and!; [done|done| |].
  - intros ->. vm_compute in E. injection E as <- <-. rewrite Hd by lia.
    change 4194304 with (2 ^ 22). rewrite Z.mul_comm. by apply Z.div_mul.
  - intros Hlt. destruct (Hmono Hlt) as (w' & iw' & E' & Hw' & Hiw'). exists w', iw'.
    split_and!; try done.
    destruct (nice_weights_ok (n + 1)) as (w2 & iw2 & E2 & _ & Hiw2 & _); [lia|].
    rewrite E' in E2. injection E2 as <- <-. rewrite !Hd by done.
    apply Z.div_le_mono; nia.
Qed.

Lemma nice_weight_tables_witness :
  nice_weights 0 = Ok (1024, 4194304) ∧ ∃ w iw, nice_weights 0 = Ok (w, iw) ∧ vruntime_delta iw 1000 = 1000.
Proof.
  split; [by vm_compute|].
  destruct (proj1 (nice_weight_tables 0 1000 ltac:(lia)) ltac:(unfold kMinNice, kMaxNice; lia))
    as (w & iw & E & _ & H & _).
  exists w, iw. split; [exact E|exact (H eq_refl)].
Defined.

(** ** Time slices *)

(** The slice of a task: with [k] tasks on the CPU, counting the current
    one, [MinPreemptionGranularity] is at least the minimum granularity, and
    unless it is the minimum, [k] slices cover the latency with less than a
    nanosecond per task to spare; with durations of whole nanoseconds it is
    the ceiling of latency / k. *)
Theorem min_preemption_granularity_bounds (env : CfsEnv) (rq : CfsRq)
    (Hns : 1 ≤ ns env) (Hg : 0 ≤ min_preemption_granularity_ rq) (Hl : 0 ≤ latency_ rq) :
  let k := CfsRq_Size rq + 1 in
  let g := MinPreemptionGranularity env rq in
  min_preemption_granularity_ rq ≤ g ∧
  (latency_ rq < k * min_preemption_granularity_ rq → g = min_preemption_granularity_ rq) ∧
  (k * min_preemption_granularity_ rq ≤ latency_ rq →
     latency_ rq ≤ k * g ≤ latency_ rq + ns env * (k - 1) ∧
     (ns env = 1 → g = (latency_ rq + k - 1) / k)).
Proof.
  intros k g. subst g. unfold MinPreemptionGranularity. fold k.
  assert (1 ≤ k) as Hk by (subst k; unfold CfsRq_Size; lia).
  destruct (Z.ltb_spec (latency_ rq) (k * min_preemption_granularity_ rq)) as [Hlt|Hge]; [lia|].
  rewrite Z.quot_div_nonneg by nia.
  set (x := latency_ rq + ns env * (k - 1)).
  pose proof (Z.div_mod x k ltac:(lia)) as Hdm. pose proof (Z.mod_pos_bound x k ltac:(lia)) as Hmod.
  assert (latency_ rq ≤ k * (x / k)) as Hlow.
  { assert (latency_ rq + (k - 1) ≤ x) by (subst x; nia). lia. }
  split_and!; [nia|lia|]. intros _. split; [split; [done|subst x; lia]|].
  intros E. subst x. rewrite E. f_equal. lia.
Qed.

Definition sample_rq : CfsRq := mkRq 0 1000 10000 [16; 32] 2.

(** A four-CPU machine whose kernel accepts everything. *)
Definition sample_cfs_env : CfsEnv :=
  mkCfsEnv 1 sample_topo (all_cpus_ sample_topo) true
    fresh_addr
    (λ q, (map_to_list q).*1) (λ n _, 1000 * Z.of_nat n) (λ _ _ _ _, true) (λ _ _ _, true)
    (λ _ _, None) (λ _, true).

Lemma min_preemption_granularity_bounds_witness :
  MinPreemptionGranularity sample_cfs_env sample_rq = 3334 ∧
  min_preemption_granularity_ sample_rq ≤ MinPreemptionGranularity sample_cfs_env sample_rq.
Proof.
  split; [by vm_compute|].
  exact (proj1 (min_preemption_granularity_bounds sample_cfs_env sample_rq
           ltac:(simpl; lia) ltac:(simpl; lia) ltac:(simpl; lia))).
Defined.

(** A load balancing event never inverts the load: of a source and a
    destination queue it moves nothing unless the source has two more tasks,
    and otherwise at least one and at most 32 tasks, after which the source
    still has no fewer tasks than the destination. *)
Theorem imbalance_never_inverts (src dst : Z) (Hs : 0 ≤ src) (Hd : 0 ≤ dst) :
  let n := calculate_imbalance src dst in
  0 ≤ n ≤ 32 ∧ (0 < n ↔ dst + 2 ≤ src) ∧ (0 < n → dst + n ≤ src - n).
Proof.
  intros n. subst n. unfold calculate_imbalance, kMaxTasksToLoadBalance.
  destruct (Z.leb_spec 2 (src - dst)); [|lia].
  rewrite Z.quot_div_nonneg by lia. Z.to_euclidean_division_equations. lia.
Qed.

Lemma imbalance_never_inverts_witness :
  calculate_imbalance 9 2 = 3 ∧ 2 + 3 ≤ 9 - 3.
Proof.
  split; [reflexivity|].
  exact (proj2 (proj2 (imbalance_never_inverts 9 2 ltac:(lia) ltac:(lia))) ltac:(reflexivity)).
Defined.
