(* ===== verification/CfsInv.v ===== *)
(** * CfsInv: the invariant of the CFS agent

    [Abs] is the part of the scheduler's state that decides where each task
    is: the task objects, the run queues, the migration queues and the current
    tasks.  [abs_inv X cur A] says that every task but those of [X] is in exactly
    the place that its state names; [X] are the tasks that are being moved.  The lemmas take a task out of its place and put it into another. *)

From S2P Require Import Prelude Outcome CpuMap CpuMapSpec.
From S2P Require Import Topology TopologySpec Dispatch CfsRq CfsSched CfsBasics.
From stdpp Require Import gmap functions sorting.
From Stdlib Require Import ZArith Lia.

Local Open Scope Z_scope.

(** ** What the environment guarantees *)

Record env_ok (env : CfsEnv) : Prop := {
  eo_ns : 1 ≤ ns env;
  eo_topo : topo_ok (topo env);
  eo_cpus : cpulist_wf (cpus env) ∧ topology_num_cpus (cpus env) = num_cpus_ (topo env);
  eo_malloc : ∀ a : TaskAllocator CfsTask, heap a !! 0 = None →
    malloc_ env a ≠ 0 ∧ heap a !! malloc_ env a = None;
  eo_mq : ∀ q, mq_order env q ≡ₚ (map_to_list q).*1;
  eo_aff : ∀ n g l, k_affinity env n g = Some l →
    cpulist_wf l ∧ topology_num_cpus l = num_cpus_ (topo env)
}.

(** ** Abstract states *)

Record Abs := mkAbs {
  A_alloc : TaskAllocator CfsTask;
  A_rq : Z → list Z;
  A_mq : Z → CfsMq;
  A_cu : Z → Z
}.

Notation tasks A := (heap (A_alloc A)).

Definition put_task (p : Z) (t : CfsTask) (a : TaskAllocator CfsTask) : TaskAllocator CfsTask :=
  mkAllocator (task_map_ a) (<[p := t]> (heap a)).

Definition A_put (p : Z) (t : CfsTask) (A : Abs) : Abs :=
  mkAbs (put_task p t (A_alloc A)) (A_rq A) (A_mq A) (A_cu A).
Definition A_set_rq (c : Z) (l : list Z) (A : Abs) : Abs :=
  mkAbs (A_alloc A) (<[c := l]> (A_rq A)) (A_mq A) (A_cu A).
Definition A_set_mq (c : Z) (q : CfsMq) (A : Abs) : Abs :=
  mkAbs (A_alloc A) (A_rq A) (<[c := q]> (A_mq A)) (A_cu A).
Definition A_set_cu (c p : Z) (A : Abs) : Abs :=
  mkAbs (A_alloc A) (A_rq A) (A_mq A) (<[c := p]> (A_cu A)).
Definition A_set_alloc (a : TaskAllocator CfsTask) (A : Abs) : Abs :=
  mkAbs a (A_rq A) (A_mq A) (A_cu A).

Section inv.
Context (env : CfsEnv).

Definition in_enclave (c : Z) : Prop := 0 ≤ c ∧ bit (cpus env) c = true.

Definition aff_wf (l : CpuList) : Prop :=
  cpulist_wf l ∧ topology_num_cpus l = num_cpus_ (topo env).

Definition task_wf (t : CfsTask) : Prop :=
  trace_wf (state_trace_ (task_state t)) ∧ in_enclave (cpu t) ∧ aff_wf (cpu_affinity t).

Notation st t := (state_ (task_state t)).
Notation orq t := (on_rq_ (task_state t)).

(** The place that the two components of a task's state name. *)
Definition task_ok (cur : Z → Z) (A : Abs) (p : Z) (t : CfsTask) : Prop :=
  match orq t, st t with
  | kQueued, kRunnable => p ∈ A_rq A (cpu t)
  | kMigrating, kRunnable => A_mq A (cpu t) !! gtid t = Some (mkMigrationArg p (-1))
  | kDequeued, kBlocked => True
  | kDequeued, (kRunning | kDone) => cur (cpu t) = p
  | _, _ => False
  end.

(** The order of the run queues. *)
Definition rq_lt (h : gmap Z CfsTask) (p q : Z) : Prop :=
  ∃ tp tq, h !! p = Some tp ∧ h !! q = Some tq ∧ Less p tp q tq = true.

Record abs_inv (X : list Z) (cur : Z → Z) (A : Abs) : Prop := {
  ai_alloc : alloc_inv (A_alloc A);
  ai_task : ∀ p t, p ∉ X → tasks A !! p = Some t → task_wf t ∧ task_ok cur A p t;
  ai_sorted : ∀ c, StronglySorted (rq_lt (tasks A)) (A_rq A c);
  ai_rq : ∀ c p, p ∈ A_rq A c →
    p ∉ X ∧ ∃ t, tasks A !! p = Some t ∧ cpu t = c ∧ orq t = kQueued;
  ai_mq : ∀ c g a, A_mq A c !! g = Some a →
    ma_task a ∉ X ∧ dst_cpu a = -1 ∧
    ∃ t, tasks A !! ma_task a = Some t ∧ gtid t = g ∧ cpu t = c ∧ orq t = kMigrating;
  ai_cur : ∀ c, cur c ≠ 0 → cur c ∉ X ∧
    ∃ t, tasks A !! cur c = Some t ∧ cpu t = c ∧ orq t = kDequeued ∧ (st t = kRunning ∨ st t = kDone)
}.

(** The concrete state has this abstract state; the cached sizes are right
    and every CPU of the enclave has its id and a channel. *)
Definition cpu_view (A : Abs) (c : Z) (k : CpuState) : Prop :=
  rq_ (run_queue k) = A_rq A c ∧
  rq_size_ (run_queue k) = Z.of_nat (length (A_rq A c)) ∧
  migration_queue k = A_mq A c ∧ current k = A_cu A c ∧
  (in_enclave c → has_channel k = true ∧ id k = c).

Definition view (s : Cfs) (A : Abs) : Prop :=
  allocator_ s = A_alloc A ∧ ∀ c, cpu_view A c (cpu_states_ s c).

(** At rest. *)
Definition cfs_inv (s : Cfs) : Prop := ∃ A, view s A ∧ abs_inv [] (A_cu A) A.

(** ** Facts *)

Lemma live_nonzero X cur A p t : abs_inv X cur A → tasks A !! p = Some t → p ≠ 0.
Proof. intros Hi Hp ->. pose proof (ai_alloc _ _ _ Hi) as [H _]. congruence. Qed.

Lemma rq_nodup X cur A c : abs_inv X cur A → NoDup (A_rq A c).
Proof.
  intros Hi. pose proof (ai_sorted _ _ _ Hi c) as Hs. induction Hs as [|p l Hl IH Hp]; constructor; [|done].
  intros Hin. rewrite Forall_forall in Hp. destruct (Hp p Hin) as (t & u & Ht & Hu & Hlt).
  unfold Less in Hlt. assert (t = u) as -> by congruence. rewrite Z.eqb_refl in Hlt. zbool. lia.
Qed.

Lemma sorted_put h p t l :
  p ∉ l → StronglySorted (rq_lt h) l → StronglySorted (rq_lt (<[p := t]> h)) l.
Proof.
  intros Hp Hs. induction Hs as [|q l Hl IH Hq]; constructor.
  - apply IH. intros Hin. apply Hp. by right.
  - rewrite Forall_forall in *. intros r Hr. destruct (Hq r Hr) as (tq & tr & H1 & H2 & H3).
    exists tq, tr. split_and!; [| |done]; rewrite lookup_insert_ne; try done; intros <-; apply Hp; [by left|by right].
Qed.

(** The vruntime is all that a queued task's order depends on. *)
Lemma sorted_same h p t u l :
  h !! p = Some t → vruntime u = vruntime t →
  StronglySorted (rq_lt h) l → StronglySorted (rq_lt (<[p := u]> h)) l.
Proof.
  intros Ht Hv Hs. induction Hs as [|q l Hl IH Hq]; constructor; [done|].
  rewrite Forall_forall in *. intros r Hr. destruct (Hq r Hr) as (tq & tr & H1 & H2 & H3).
  assert (∀ q tq, h !! q = Some tq → ∃ uq, <[p := u]> h !! q = Some uq ∧ vruntime uq = vruntime tq) as Hl'.
  { intros q' tq' Hq'. destruct (decide (p = q')) as [<-|Hne].
    - exists u. rewrite lookup_insert_eq. split; [done|]. congruence.
    - exists tq'. by rewrite lookup_insert_ne. }
  destruct (Hl' q tq H1) as (uq & Huq & Eq). destruct (Hl' r tr H2) as (ur & Hur & Er).
  exists uq, ur. split_and!; [done|done|]. unfold Less in *. by rewrite Eq, Er.
Qed.

Lemma sorted_filter h (P : Z → Prop) `{∀ x, Decision (P x)} l :
  StronglySorted (rq_lt h) l → StronglySorted (rq_lt h) (filter P l).
Proof.
  induction 1 as [|q l Hl IH Hq]; [constructor|]. rewrite filter_cons. case_decide; [|done].
  constructor; [done|]. rewrite Forall_forall in *. intros r [_ Hr]%list_elem_of_filter. auto.
Qed.

(** [task_ok] only reads the places of its own task. *)
Lemma task_ok_ext cur cur' A B p t :
  (p ∈ A_rq A (cpu t) → p ∈ A_rq B (cpu t)) →
  (∀ a, A_mq A (cpu t) !! gtid t = Some a → ma_task a = p → A_mq B (cpu t) !! gtid t = Some a) →
  (cur (cpu t) = p → cur' (cpu t) = p) →
  task_ok cur A p t → task_ok cur' B p t.
Proof.
  unfold task_ok. intros H1 H2 H3. destruct (orq t), (st t); try done; auto.
Qed.

(** ** Moving a task *)

(** While [x] is moved its own fields are free. *)
Lemma inv_put_x X x cur A t u :
  abs_inv X cur A → x ∈ X → tasks A !! x = Some t → gtid u = gtid t → abs_inv X cur (A_put x u A).
Proof.
  intros Hi HX Hx Hg.
  assert (∀ p, p ≠ x → tasks (A_put x u A) !! p = tasks A !! p) as Hlk
    by (intros; simpl; by rewrite lookup_insert_ne).
  constructor; simpl.
  - by apply (alloc_inv_upd _ x t); [apply (ai_alloc _ _ _ Hi)| |].
  - intros p t' Hp. rewrite lookup_insert_ne by congruence. intros Ht'.
    by apply (ai_task _ _ _ Hi p t').
  - intros c. apply sorted_put; [|apply (ai_sorted _ _ _ Hi)].
    intros Hin. by destruct (ai_rq _ _ _ Hi c x Hin).
  - intros c p Hp. destruct (ai_rq _ _ _ Hi c p Hp) as [Hne H]. split; [done|].
    rewrite lookup_insert_ne; [done|congruence].
  - intros c g a Ha. destruct (ai_mq _ _ _ Hi c g a Ha) as (Hne & H). split; [done|].
    rewrite lookup_insert_ne; [done|congruence].
  - intros c Hc. destruct (ai_cur _ _ _ Hi c Hc) as (Hne & H). split; [done|].
    rewrite lookup_insert_ne; [done|congruence].
Qed.

(** A change that keeps the place of a task at rest. *)
Lemma inv_put_same X cur A p t u :
  abs_inv X cur A → p ∉ X → tasks A !! p = Some t →
  gtid u = gtid t → cpu u = cpu t → vruntime u = vruntime t ∨ orq t ≠ kQueued →
  st u = st t → orq u = orq t → task_wf u →
  abs_inv X cur (A_put p u A).
Proof.
  intros Hi Hpx Hp Hg Hc Hv Hs Ho Hw.
  assert (∀ q tq, tasks A !! q = Some tq →
    ∃ uq, <[p := u]> (tasks A) !! q = Some uq ∧ gtid uq = gtid tq ∧ cpu uq = cpu tq ∧
      st uq = st tq ∧ orq uq = orq tq) as Hl.
  { intros q tq Hq. destruct (decide (p = q)) as [<-|Hne].
    - exists u. rewrite lookup_insert_eq. split_and!; congruence.
    - exists tq. by rewrite lookup_insert_ne. }
  constructor; simpl.
  - by apply (alloc_inv_upd _ p t); [apply (ai_alloc _ _ _ Hi)| |].
  - intros q t' Hq. destruct (decide (p = q)) as [<-|Hne].
    + rewrite lookup_insert_eq. intros [= <-]. split; [done|].
      destruct (ai_task _ _ _ Hi p t Hq Hp) as [_ H].
      unfold task_ok in *. simpl. by rewrite Hs, Ho, Hc, Hg.
    + rewrite lookup_insert_ne by done. by apply (ai_task _ _ _ Hi q t').
  - intros c. destruct Hv as [Hv|Hv].
    + by apply (sorted_same _ p t); [|done|apply (ai_sorted _ _ _ Hi)].
    + apply sorted_put; [|apply (ai_sorted _ _ _ Hi)]. intros Hin.
      destruct (ai_rq _ _ _ Hi c p Hin) as (_ & t' & Ht' & _ & Ho'). congruence.
  - intros c q Hq. destruct (ai_rq _ _ _ Hi c q Hq) as (Hne & tq & Htq & H1 & H2). split; [done|].
    destruct (Hl q tq Htq) as (uq & ? & _ & ? & _ & ?). exists uq. split_and!; congruence.
  - intros c g a Ha. destruct (ai_mq _ _ _ Hi c g a Ha) as (Hne & Hd & tq & Htq & H1 & H2 & H3).
    split_and!; [done..|]. destruct (Hl _ tq Htq) as (uq & ? & ? & ? & _ & ?).
    exists uq. split_and!; congruence.
  - intros c Hcur. destruct (ai_cur _ _ _ Hi c Hcur) as (Hne & tq & Htq & H1 & H2 & H3).
    split; [done|]. destruct (Hl _ tq Htq) as (uq & ? & _ & ? & ? & ?).
    exists uq. split_and!; congruence.
Qed.

(** *** Taking a task out *)

(** The common part: nothing refers to [p] any more. *)
Lemma inv_exempt X p cur cur' A B :
  abs_inv X cur A → A_alloc B = A_alloc A →
  (∀ c, StronglySorted (rq_lt (tasks A)) (A_rq B c)) →
  (∀ c q, q ∈ A_rq B c ↔ q ∈ A_rq A c ∧ q ≠ p) →
  (∀ c g a, A_mq B c !! g = Some a ↔ A_mq A c !! g = Some a ∧ ma_task a ≠ p) →
  (∀ c, cur' c = if cur c =? p then 0 else cur c) →
  abs_inv (p :: X) cur' B.
Proof.
  intros Hi Ha Hs Hrq Hmq Hcur. constructor; rewrite ?Ha.
  - apply (ai_alloc _ _ _ Hi).
  - intros q t [Hqp Hq]%not_elem_of_cons Ht. pose proof (live_nonzero _ _ _ _ _ Hi Ht) as Hq0.
    destruct (ai_task _ _ _ Hi q t Hq Ht) as [Hw Hok]. split; [done|].
    revert Hok. apply task_ok_ext.
    + intros Hin. by apply Hrq.
    + intros a E Ea. apply Hmq. split; [done|congruence].
    + intros E. rewrite Hcur, E. destruct (Z.eqb_spec q p); [done|done].
  - done.
  - intros c q [Hin Hne]%Hrq. destruct (ai_rq _ _ _ Hi c q Hin) as [HX H].
    split; [by apply not_elem_of_cons|done].
  - intros c g a [E Hne]%Hmq. destruct (ai_mq _ _ _ Hi c g a E) as [HX H].
    split; [by apply not_elem_of_cons|done].
  - intros c. rewrite Hcur. destruct (Z.eqb_spec (cur c) p) as [E|Hne]; [done|].
    intros Hc. destruct (ai_cur _ _ _ Hi c Hc) as [HX H].
    split; [by apply not_elem_of_cons|done].
Qed.

(** Where a task at rest is not. *)
Lemma not_current X cur A p t c :
  abs_inv X cur A → tasks A !! p = Some t →
  orq t ≠ kDequeued ∨ st t = kBlocked → cur c ≠ p.
Proof.
  intros Hi Hp Ho E. pose proof (live_nonzero _ _ _ _ _ Hi Hp).
  destruct (ai_cur _ _ _ Hi c) as (_ & u & Hu & _ & H1 & H2); [congruence|].
  assert (u = t) as -> by congruence. destruct H2, Ho; congruence.
Qed.

Lemma not_in_rq X cur A p t c :
  abs_inv X cur A → tasks A !! p = Some t → orq t ≠ kQueued ∨ c ≠ cpu t → p ∉ A_rq A c.
Proof.
  intros Hi Hp Ho Hin. destruct (ai_rq _ _ _ Hi c p Hin) as (_ & u & Hu & H1 & H2).
  assert (u = t) as -> by congruence. destruct Ho; congruence.
Qed.

Lemma not_in_mq X cur A p t c g a :
  abs_inv X cur A → tasks A !! p = Some t → orq t ≠ kMigrating ∨ c ≠ cpu t ∨ g ≠ gtid t →
  A_mq A c !! g = Some a → ma_task a ≠ p.
Proof.
  intros Hi Hp Ho Ha E. destruct (ai_mq _ _ _ Hi c g a Ha) as (_ & _ & u & Hu & H1 & H2 & H3).
  assert (u = t) as -> by congruence. destruct Ho as [|[|]]; congruence.
Qed.

Lemma take_queued X cur A p t :
  abs_inv X cur A → p ∉ X → tasks A !! p = Some t → orq t = kQueued →
  abs_inv (p :: X) cur (A_set_rq (cpu t) (filter (λ q, q ≠ p) (A_rq A (cpu t))) A).
Proof.
  intros Hi HX Hp Ho. apply (inv_exempt X p cur cur A); simpl; [done|done| | | |].
  - intros c. destruct (decide (c = cpu t)) as [->|Hne].
    + rewrite fn_lookup_insert. apply sorted_filter, (ai_sorted _ _ _ Hi).
    + rewrite fn_lookup_insert_ne by done. apply (ai_sorted _ _ _ Hi).
  - intros c q. destruct (decide (c = cpu t)) as [->|Hne].
    + rewrite fn_lookup_insert, list_elem_of_filter. tauto.
    + rewrite fn_lookup_insert_ne by done. split; [|tauto]. intros Hin. split; [done|].
      intros ->. revert Hin. apply (not_in_rq X cur A p t c); [done|done|by right].
  - intros c g a. split; [|tauto]. intros Ha. split; [done|].
    eapply (not_in_mq X cur A p t c g a); [done|done|left; congruence|done].
  - intros c. destruct (Z.eqb_spec (cur c) p) as [E|]; [|done].
    exfalso. revert E. apply (not_current X cur A p t); [done|done|left; congruence].
Qed.

Lemma take_migrating X cur A p t :
  abs_inv X cur A → p ∉ X → tasks A !! p = Some t → orq t = kMigrating →
  abs_inv (p :: X) cur (A_set_mq (cpu t) (delete (gtid t) (A_mq A (cpu t))) A).
Proof.
  intros Hi HX Hp Ho. apply (inv_exempt X p cur cur A); simpl; [done|done| | | |].
  - apply (ai_sorted _ _ _ Hi).
  - intros c q. split; [|tauto]. intros Hin. split; [done|]. intros ->. revert Hin.
    apply (not_in_rq X cur A p t c); [done|done|left; congruence].
  - intros c g a. destruct (decide (c = cpu t)) as [->|Hne].
    + rewrite fn_lookup_insert, lookup_delete_Some. split.
      * intros [Hg Ha]. split; [done|].
        eapply (not_in_mq X cur A p t (cpu t) g a); [done|done|by right; right|done].
      * intros [Ha Hne]. split; [|done]. intros <-. apply Hne.
        destruct (ai_task _ _ _ Hi p t HX Hp) as [_ Hok]. unfold task_ok in Hok. rewrite Ho in Hok.
        destruct (st t); try done. rewrite Hok in Ha. by injection Ha as <-.
    + rewrite fn_lookup_insert_ne by done. split; [|tauto]. intros Ha. split; [done|].
      eapply (not_in_mq X cur A p t c g a); [done|done|by right; left|done].
  - intros c. destruct (Z.eqb_spec (cur c) p) as [E|]; [|done].
    exfalso. revert E. apply (not_current X cur A p t); [done|done|left; congruence].
Qed.

Lemma take_dequeued X cur cur' A p t :
  abs_inv X cur A → tasks A !! p = Some t → orq t = kDequeued →
  (∀ c, cur' c = if cur c =? p then 0 else cur c) →
  abs_inv (p :: X) cur' A.
Proof.
  intros Hi Hp Ho Hcur. apply (inv_exempt X p cur cur' A); [done|done|apply (ai_sorted _ _ _ Hi)| | |done].
  - intros c q. split; [|tauto]. intros Hin. split; [done|]. intros ->. revert Hin.
    apply (not_in_rq X cur A p t c); [done|done|left; congruence].
  - intros c g a. split; [|tauto]. intros Ha. split; [done|].
    eapply (not_in_mq X cur A p t c g a); [done|done|left; congruence|done].
Qed.

Lemma take_blocked X cur A p t :
  abs_inv X cur A → tasks A !! p = Some t → orq t = kDequeued → st t = kBlocked → abs_inv (p :: X) cur A.
Proof.
  intros Hi Hp Ho Hs. apply (take_dequeued X cur cur A p t); [done..|].
  intros c. destruct (Z.eqb_spec (cur c) p) as [E|]; [|done].
  exfalso. revert E. apply (not_current X cur A p t); [done|done|by right].
Qed.

Lemma take_current X cur A c p :
  abs_inv X cur A → cur c = p → p ≠ 0 → abs_inv (p :: X) (<[c := 0]> cur) A.
Proof.
  intros Hi Hc Hp. destruct (ai_cur _ _ _ Hi c) as (_ & t & Ht & Ec & Ho & Hs); [congruence|].
  rewrite Hc in Ht. apply (take_dequeued X cur _ A p t); [done..|].
  intros c'. destruct (decide (c' = c)) as [->|Hne].
  - by rewrite fn_lookup_insert, Hc, Z.eqb_refl.
  - rewrite fn_lookup_insert_ne by done. destruct (Z.eqb_spec (cur c') p) as [E|]; [|done].
    destruct (ai_cur _ _ _ Hi c') as (_ & u & Hu & Ec' & _); [congruence|].
    exfalso. apply Hne. rewrite E in Hu. congruence.
Qed.

(** *** Putting a task in *)

(** The common part: [B] adds the place of [p] and nothing else changes. *)
Lemma inv_settle X p cur cur' A B t :
  abs_inv (p :: X) cur A → p ∉ X → tasks A !! p = Some t → task_wf t → task_ok cur' B p t →
  A_alloc B = A_alloc A →
  (∀ c, StronglySorted (rq_lt (tasks A)) (A_rq B c)) →
  (∀ c q, q ∈ A_rq A c → q ∈ A_rq B c) →
  (∀ c q, q ∈ A_rq B c → q ∈ A_rq A c ∨ q = p ∧ c = cpu t ∧ orq t = kQueued) →
  (∀ c g a, A_mq A c !! g = Some a → A_mq B c !! g = Some a) →
  (∀ c g a, A_mq B c !! g = Some a → A_mq A c !! g = Some a ∨
     a = mkMigrationArg p (-1) ∧ g = gtid t ∧ c = cpu t ∧ orq t = kMigrating) →
  (∀ c, cur c ≠ 0 → cur' c = cur c) →
  (∀ c, cur' c = cur c ∨
     cur' c = p ∧ c = cpu t ∧ orq t = kDequeued ∧ (st t = kRunning ∨ st t = kDone)) →
  abs_inv X cur' B.
Proof.
  intros Hi HX Hp Hw Hok Ha Hs Hr1 Hr2 Hm1 Hm2 Hc1 Hc2. constructor; rewrite ?Ha.
  - apply (ai_alloc _ _ _ Hi).
  - intros q u Hq Hu. destruct (decide (q = p)) as [->|Hne].
    { assert (u = t) as -> by congruence. done. }
    pose proof (live_nonzero _ _ _ _ _ Hi Hu) as Hq0.
    destruct (ai_task _ _ _ Hi q u) as [Hw' Hok']; [by apply not_elem_of_cons|done|]. split; [done|]. revert Hok'.
    apply task_ok_ext; [auto|auto|]. intros E. rewrite Hc1; [done|congruence].
  - done.
  - intros c q Hq. destruct (Hr2 c q Hq) as [Hin|(-> & -> & Ho)].
    + destruct (ai_rq _ _ _ Hi c q Hin) as ([_ HqX]%not_elem_of_cons & u & Hu & H). eauto.
    + eauto.
  - intros c g a Hq. destruct (Hm2 c g a Hq) as [Hin|(-> & -> & -> & Ho)].
    + destruct (ai_mq _ _ _ Hi c g a Hin) as ([_ HqX]%not_elem_of_cons & Hd & u & Hu & H). eauto.
    + split; [done|]. split; [done|]. eauto.
  - intros c Hc. destruct (Hc2 c) as [E|(E & -> & Ho & Hst)].
    + rewrite E in *. destruct (ai_cur _ _ _ Hi c Hc) as ([_ HqX]%not_elem_of_cons & u & Hu & H).
      split; [done|]. eauto.
    + rewrite E. split; [done|]. eauto.
Qed.

Lemma put_blocked X p cur A t :
  abs_inv (p :: X) cur A → p ∉ X → tasks A !! p = Some t → task_wf t →
  orq t = kDequeued → st t = kBlocked → abs_inv X cur A.
Proof.
  intros Hi HX Hp Hw Ho Hs. apply (inv_settle X p cur cur A A t); try done; auto.
  - unfold task_ok. by rewrite Ho, Hs.
  - apply (ai_sorted _ _ _ Hi).
Qed.

Lemma put_queued X p cur A t l :
  abs_inv (p :: X) cur A → p ∉ X → tasks A !! p = Some t → task_wf t →
  orq t = kQueued → st t = kRunnable →
  StronglySorted (rq_lt (tasks A)) l → (∀ q, q ∈ l ↔ q = p ∨ q ∈ A_rq A (cpu t)) →
  abs_inv X cur (A_set_rq (cpu t) l A).
Proof.
  intros Hi HX Hp Hw Ho Hs Hl Hin. apply (inv_settle X p cur cur A _ t); try done; simpl; auto.
  - unfold task_ok. simpl. rewrite Ho, Hs, fn_lookup_insert. apply Hin. by left.
  - intros c. destruct (decide (c = cpu t)) as [->|Hne]; [by rewrite fn_lookup_insert|].
    rewrite fn_lookup_insert_ne by done. apply (ai_sorted _ _ _ Hi).
  - intros c q. destruct (decide (c = cpu t)) as [->|Hne]; [|by rewrite fn_lookup_insert_ne].
    rewrite fn_lookup_insert. intros H. apply Hin. by right.
  - intros c q. destruct (decide (c = cpu t)) as [->|Hne]; [|rewrite fn_lookup_insert_ne by done; by left].
    rewrite fn_lookup_insert. intros [->|H]%Hin; [by right|by left].
Qed.

Lemma put_migrating X p cur A t :
  abs_inv (p :: X) cur A → p ∉ X → tasks A !! p = Some t → task_wf t →
  orq t = kMigrating → st t = kRunnable →
  abs_inv X cur (A_set_mq (cpu t) (<[gtid t := mkMigrationArg p (-1)]> (A_mq A (cpu t))) A).
Proof.
  intros Hi HX Hp Hw Ho Hs. apply (inv_settle X p cur cur A _ t); try done; simpl; auto.
  - unfold task_ok. simpl. by rewrite Ho, Hs, fn_lookup_insert, lookup_insert_eq.
  - apply (ai_sorted _ _ _ Hi).
  - intros c g a. destruct (decide (c = cpu t)) as [->|Hne]; [|by rewrite fn_lookup_insert_ne].
    rewrite fn_lookup_insert. intros H. rewrite lookup_insert_ne; [done|]. intros <-.
    destruct (ai_mq _ _ _ Hi _ _ _ H) as (Hne & _ & u & Hu & Hg & _).
    apply Hne, elem_of_cons. left. eapply (alloc_inj (A_alloc A)); [apply (ai_alloc _ _ _ Hi)|done..].
  - intros c g a. destruct (decide (c = cpu t)) as [->|Hne]; [|rewrite fn_lookup_insert_ne by done; by left].
    rewrite fn_lookup_insert. intros [[<- <-]|[_ H]]%lookup_insert_Some; [by right|by left].
Qed.

Lemma put_current X p cur A t :
  abs_inv (p :: X) cur A → p ∉ X → tasks A !! p = Some t → task_wf t →
  orq t = kDequeued → st t = kRunning ∨ st t = kDone → cur (cpu t) = 0 →
  abs_inv X (<[cpu t := p]> cur) A.
Proof.
  intros Hi HX Hp Hw Ho Hs H0. apply (inv_settle X p cur _ A A t); try done; auto.
  - unfold task_ok. rewrite Ho. destruct Hs as [-> | ->]; by rewrite fn_lookup_insert.
  - apply (ai_sorted _ _ _ Hi).
  - intros c Hc. rewrite fn_lookup_insert_ne; [done|]. congruence.
  - intros c. destruct (decide (c = cpu t)) as [->|Hne].
    + right. by rewrite fn_lookup_insert.
    + left. by rewrite fn_lookup_insert_ne.
Qed.

(** The task dies. *)
Lemma free_inv X p cur A t :
  abs_inv (p :: X) cur A → tasks A !! p = Some t →
  abs_inv X cur (A_set_alloc (mkAllocator (delete (gtid t) (task_map_ (A_alloc A)))
                                (delete p (tasks A))) A).
Proof.
  intros Hi Hp. pose proof (ai_alloc _ _ _ Hi) as Ha.
  assert (∀ q, q ≠ p → delete p (tasks A) !! q = tasks A !! q) as Hd
    by (intros; by rewrite lookup_delete_ne).
  constructor; simpl.
  - by apply (alloc_inv_free _ p t Ha).
  - intros q u Hq [Hne Hu]%lookup_delete_Some.
    apply (ai_task _ _ _ Hi q u); [|done]. by apply not_elem_of_cons.
  - intros c. pose proof (ai_sorted _ _ _ Hi c) as Hs.
    assert (p ∉ A_rq A c) as Hnin.
    { intros Hin. destruct (ai_rq _ _ _ Hi c p Hin) as [[? _]%not_elem_of_cons _]. done. }
    induction Hs as [|q l Hl IH Hq]; constructor.
    + apply IH. intros Hin. apply Hnin. by right.
    + rewrite Forall_forall in *. intros r Hr. destruct (Hq r Hr) as (tq & tr & H1 & H2 & H3).
      exists tq, tr. split_and!; [| |done]; rewrite Hd; try done; intros ->; apply Hnin; [by left|by right].
  - intros c q Hin. destruct (ai_rq _ _ _ Hi c q Hin) as ([Hne HX]%not_elem_of_cons & u & Hu & H).
    split; [done|]. rewrite Hd by done. eauto.
  - intros c g a Hin. destruct (ai_mq _ _ _ Hi c g a Hin) as ([Hne HX]%not_elem_of_cons & Hdst & u & Hu & H).
    split; [done|]. rewrite Hd by done. eauto.
  - intros c Hc. destruct (ai_cur _ _ _ Hi c Hc) as ([Hne HX]%not_elem_of_cons & u & Hu & H). split; [done|].
    rewrite Hd by done. eauto.
Qed.

(** A new task: allocated, and so far nowhere. *)
Lemma alloc_new_inv X cur A addr g :
  abs_inv X cur A → addr ≠ 0 → tasks A !! addr = None → task_map_ (A_alloc A) !! g = None →
  abs_inv (addr :: X) cur (A_set_alloc (mkAllocator (<[g := addr]> (task_map_ (A_alloc A)))
                                   (<[addr := new_task g]> (tasks A))) A).
Proof.
  intros Hi Hne Hfresh Hg. pose proof (ai_alloc _ _ _ Hi) as Ha.
  assert (∀ q u, tasks A !! q = Some u → q ≠ addr ∧ <[addr := new_task g]> (tasks A) !! q = Some u) as Hl.
  { intros q u Hu. assert (q ≠ addr) by congruence. split; [done|]. by rewrite lookup_insert_ne. }
  constructor; simpl.
  - by apply (alloc_inv_new _ addr g Ha).
  - intros q u [Hq HX]%not_elem_of_cons Hu. rewrite lookup_insert_ne in Hu by done.
    by apply (ai_task _ _ _ Hi q u).
  - intros c. apply sorted_put; [|apply (ai_sorted _ _ _ Hi)]. intros Hin.
    destruct (ai_rq _ _ _ Hi c _ Hin) as (_ & u & Hu & _). congruence.
  - intros c q Hin. destruct (ai_rq _ _ _ Hi c q Hin) as (HX & u & Hu & H).
    destruct (Hl q u Hu). split; [by apply not_elem_of_cons|]. eauto.
  - intros c g' a Hin. destruct (ai_mq _ _ _ Hi c g' a Hin) as (HX & Hdst & u & Hu & H).
    destruct (Hl _ u Hu). split; [by apply not_elem_of_cons|]. eauto.
  - intros c Hc. destruct (ai_cur _ _ _ Hi c Hc) as (HX & u & Hu & H).
    destruct (Hl _ u Hu). split; [by apply not_elem_of_cons|]. eauto.
Qed.
End inv.
