(* ===== verification/CfsOps.v ===== *)
(** * CfsOps: the run queue and task operations on abstract states

    For each operation of the CFS agent a rule: from a state with abstract
    state [A] it does not abort, and it ends in a state whose abstract state is
    the update of [A] that the rule names. *)

From S2P Require Import Prelude Outcome CpuMap CpuMapSpec.
From S2P Require Import Topology TopologySpec Dispatch CfsRq CfsSched CfsBasics CfsInv.
From stdpp Require Import gmap functions sorting.
From Stdlib Require Import ZArith Lia.

Local Open Scope Z_scope.

Section ops.
Context (env : CfsEnv).

Notation view := (view env).
Notation st t := (state_ (task_state t)).
Notation orq t := (on_rq_ (task_state t)).

(** ** Tasks *)

Lemma wp_task_at A p t s (Q : CfsTask → Cfs → Prop) :
  view s A → tasks A !! p = Some t → Q t s → wp (task_at p) s Q.
Proof.
  intros [Ha _] Hp HQ. unfold wp, task_at, lift, deref. simpl. by rewrite Ha, Hp.
Qed.

Lemma wp_upd_task A p t f s (Q : unit → Cfs → Prop) :
  view s A → tasks A !! p = Some t →
  (∀ s', view s' (A_put p (f t) A) → Q tt s') → wp (upd_task p f) s Q.
Proof.
  intros Hv Hp HQ. unfold upd_task. wpstep. eapply wp_task_at; [done..|]. wpstep. apply HQ.
  destruct Hv as [Ha Hc]. split; [|done]. simpl. by rewrite Ha.
Qed.

Lemma wp_SetState A p t next s (Q : unit → Cfs → Prop) :
  view s A → tasks A !! p = Some t → trace_wf (state_trace_ (task_state t)) →
  may_enter (st t) next = true →
  (∀ s' ts, state_ ts = next → on_rq_ ts = orq t → trace_wf (state_trace_ ts) →
     view s' (A_put p (set_task_state ts t) A) → Q tt s') →
  wp (task_SetState p next) s Q.
Proof.
  intros Hv Hp Hwf Hm HQ. unfold task_SetState. wpstep. eapply wp_task_at; [done..|].
  destruct (SetState_ok next (task_state t) Hwf Hm) as (ts & E & H1 & H2 & H3).
  wpstep. wpstep. rewrite E. simpl. eapply wp_upd_task; [done..|]. eauto.
Qed.

Lemma wp_SetOnRq A p t next s (Q : unit → Cfs → Prop) :
  view s A → tasks A !! p = Some t → trace_wf (state_trace_ (task_state t)) →
  may_enter_rq (orq t) next = true →
  (∀ s' ts, state_ ts = st t → on_rq_ ts = next → trace_wf (state_trace_ ts) →
     view s' (A_put p (set_task_state ts t) A) → Q tt s') →
  wp (task_SetOnRq p next) s Q.
Proof.
  intros Hv Hp Hwf Hm HQ. unfold task_SetOnRq. wpstep. eapply wp_task_at; [done..|].
  destruct (SetOnRq_ok next (task_state t) Hwf Hm) as (ts & E & H1 & H2 & H3).
  wpstep. wpstep. rewrite E. simpl. eapply wp_upd_task; [done..|]. eauto.
Qed.

(** [delete task] *)
Definition A_free (p : Z) (t : CfsTask) (A : Abs) : Abs :=
  A_set_alloc (mkAllocator (delete (gtid t) (task_map_ (A_alloc A))) (delete p (tasks A))) A.

Lemma wp_free_task A p t s (Q : unit → Cfs → Prop) :
  view s A → tasks A !! p = Some t →
  (∀ s', view s' (A_free p t A) → Q tt s') → wp (free_task p) s Q.
Proof.
  intros [Ha Hc] Hp HQ. unfold wp, free_task, mbind, M_bind, lift, FreeTask, deref. simpl.
  rewrite Ha, Hp. simpl. apply HQ. by split.
Qed.

(** ** CPUs *)

Lemma wp_cpu_state A c s (Q : CpuState → Cfs → Prop) :
  view s A → 0 ≤ c < 512 → (∀ k, cpu_view env A c k → Q k s) → wp (cpu_state c) s Q.
Proof.
  intros [_ Hc] Hr HQ. unfold cpu_state, MAX_CPUS.
  rewrite (proj2 (Z.leb_le 0 c)), (proj2 (Z.ltb_lt c 512)) by lia. apply wp_gets, HQ, Hc.
Qed.

Lemma wp_cpu_state_at c s (Q : CpuState → Cfs → Prop) :
  0 ≤ c < 512 → Q (cpu_states_ s c) s → wp (cpu_state c) s Q.
Proof.
  intros Hr HQ. unfold cpu_state, MAX_CPUS.
  by rewrite (proj2 (Z.leb_le 0 c)), (proj2 (Z.ltb_lt c 512)) by lia.
Qed.

(** An update of one CPU that takes its view of [A] to one of [B]. *)
Lemma wp_upd_cs A B c f s (Q : unit → Cfs → Prop) :
  view s A → 0 ≤ c < 512 → A_alloc B = A_alloc A →
  (∀ k, cpu_view env A c k → cpu_view env B c (f k)) →
  (∀ c' k, c' ≠ c → cpu_view env A c' k → cpu_view env B c' k) →
  (∀ s', view s' B → Q tt s') → wp (upd_cs c f) s Q.
Proof.
  intros Hv Hr Ha Hf Hne HQ. unfold upd_cs. wpstep. eapply wp_cpu_state; [done..|]. intros k Hk.
  wpstep. apply HQ. destruct Hv as [Ha' Hc]. split; [simpl; congruence|]. intros c'. simpl.
  destruct (decide (c = c')) as [<-|Hn].
  - rewrite fn_lookup_insert. by apply Hf.
  - rewrite fn_lookup_insert_ne by done. apply Hne; [done|apply Hc].
Qed.

Lemma cpu_view_other A c v c' k :
  c' ≠ c →
  (cpu_view env A c' k → cpu_view env (A_set_cu c v A) c' k).
Proof. intros Hne (H1 & H2 & H3 & H4 & H5). split_and!; simpl; rewrite ?fn_lookup_insert_ne by done; done. Qed.

Lemma wp_set_current A c v s (Q : unit → Cfs → Prop) :
  view s A → 0 ≤ c < 512 →
  (∀ s', view s' (A_set_cu c v A) → Q tt s') → wp (upd_cs c (set_current v)) s Q.
Proof.
  intros Hv Hr HQ. apply (wp_upd_cs A (A_set_cu c v A)); try done.
  - intros k (H1 & H2 & H3 & H4 & H5). split_and!; simpl; rewrite ?fn_lookup_insert; done.
  - intros c' k Hne. by apply cpu_view_other.
Qed.

Lemma wp_set_mq A c g s (Q : unit → Cfs → Prop) :
  view s A → 0 ≤ c < 512 →
  (∀ s', view s' (A_set_mq c (g (A_mq A c)) A) → Q tt s') →
  wp (upd_cs c (λ cs, set_migration_queue (g (migration_queue cs)) cs)) s Q.
Proof.
  intros Hv Hr HQ. apply (wp_upd_cs A (A_set_mq c (g (A_mq A c)) A)); try done.
  - intros k (H1 & H2 & <- & H4 & H5). split_and!; simpl; rewrite ?fn_lookup_insert; done.
  - intros c' k Hne (H1 & H2 & H3 & H4 & H5).
    split_and!; simpl; rewrite ?fn_lookup_insert_ne by done; done.
Qed.

Lemma wp_set_rq A c g s (Q : unit → Cfs → Prop) :
  view s A → 0 ≤ c < 512 →
  (∀ s', view s' (A_set_rq c (g (A_rq A c)) A) → Q tt s') →
  wp (upd_rq c (λ rq, set_rq (g (rq_ rq)) rq)) s Q.
Proof.
  intros Hv Hr HQ. apply (wp_upd_cs A (A_set_rq c (g (A_rq A c)) A)); try done.
  - intros k (H1 & H2 & H3 & H4 & H5). rewrite <- H1.
    split_and!; simpl; rewrite ?fn_lookup_insert; done.
  - intros c' k Hne (H1 & H2 & H3 & H4 & H5).
    split_and!; simpl; rewrite ?fn_lookup_insert_ne by done; done.
Qed.

(** Updates outside of the abstract state. *)
Lemma wp_upd_cs_same A c f s (Q : unit → Cfs → Prop) :
  view s A → 0 ≤ c < 512 → (∀ k, cpu_view env A c k → cpu_view env A c (f k)) →
  (∀ s', view s' A → Q tt s') → wp (upd_cs c f) s Q.
Proof. intros Hv Hr Hf HQ. by apply (wp_upd_cs A A). Qed.

Lemma wp_set_preempt A c b s (Q : unit → Cfs → Prop) :
  view s A → 0 ≤ c < 512 → (∀ s', view s' A → Q tt s') → wp (upd_cs c (set_preempt_curr b)) s Q.
Proof. intros Hv Hr HQ. by apply (wp_upd_cs_same A). Qed.

Lemma wp_set_min A c (f : CfsRq → Z) s (Q : unit → Cfs → Prop) :
  view s A → 0 ≤ c < 512 → (∀ s', view s' A → Q tt s') →
  wp (upd_rq c (λ rq, set_min_vruntime (f rq) rq)) s Q.
Proof. intros Hv Hr HQ. by apply (wp_upd_cs_same A). Qed.

Lemma wp_log A e s (Q : unit → Cfs → Prop) :
  view s A → (∀ s', view s' A → Q tt s') → wp (modify (log_event e)) s Q.
Proof. intros Hv HQ. wpstep. by apply HQ. Qed.

Lemma wp_ask {B} A (f : nat → B) s (Q : B → Cfs → Prop) :
  view s A → (∀ n s', view s' A → Q (f n) s') → wp (ask f) s Q.
Proof. intros Hv HQ. unfold ask. repeat wpstep. by apply HQ. Qed.

Lemma wp_PingCpu A c s (Q : unit → Cfs → Prop) :
  view s A → (∀ s', view s' A → Q tt s') → wp (PingCpu env c) s Q.
Proof. intros Hv HQ. unfold PingCpu. wpstep; intros _; [by eapply wp_log|auto]. Qed.

Lemma wp_AssociateTask A g c q s (Q : bool → Cfs → Prop) :
  view s A → (∀ b s', view s' A → Q b s') → wp (AssociateTask env g c q) s Q.
Proof.
  intros Hv HQ. unfold AssociateTask. wpstep. eapply wp_log; [done|]. intros s' Hv'.
  eapply wp_ask; [done|]. auto.
Qed.

(** ** The ordered set *)

(** A run queue whose order can be evaluated. *)
Definition rq_ok (h : gmap Z CfsTask) (l : list Z) : Prop :=
  StronglySorted (rq_lt h) l ∧ ∀ q, q ∈ l → is_Some (h !! q).

Lemma abs_rq_ok X cur A c : abs_inv env X cur A → rq_ok (tasks A) (A_rq A c).
Proof.
  intros Hi. split; [apply (ai_sorted _ _ _ _ Hi)|].
  intros q Hq. destruct (ai_rq _ _ _ _ Hi c q Hq) as (_ & t & Ht & _). eauto.
Qed.

Lemma rq_ok_cons h q l : rq_ok h (q :: l) → rq_ok h l ∧ ∀ r, r ∈ l → rq_lt h q r.
Proof.
  intros [Hs Hl]. apply StronglySorted_inv in Hs as [Hs Hq]. rewrite Forall_forall in Hq.
  split; [split|]; [done|intros r Hr; apply Hl; by right|done].
Qed.

Lemma rq_ok_nodup h l : rq_ok h l → NoDup l.
Proof.
  induction l as [|q l IH]; intros Hok; constructor; apply rq_ok_cons in Hok as [Hok Hq]; [|auto].
  intros Hin. destruct (Hq q Hin) as (t & u & Ht & Hu & Hlt). unfold Less in Hlt.
  assert (t = u) as -> by congruence. rewrite Z.eqb_refl in Hlt. zbool. lia.
Qed.

Lemma Less_total p tp q tq : p ≠ q → Less p tp q tq = negb (Less q tq p tp).
Proof. intros Hne. unfold Less. repeat zcase; simpl; try done; lia. Qed.

Lemma rq_lt_trans h p q r : rq_lt h p q → rq_lt h q r → rq_lt h p r.
Proof.
  intros (tp & tq & Hp & Hq & H1) (tq' & tr & Hq' & Hr & H2).
  assert (tq' = tq) as -> by congruence. exists tp, tr. split_and!; try done.
  revert H1 H2. unfold Less. repeat zcase; intros; zbool; try done; lia.
Qed.

Lemma rq_lt_total h p q : is_Some (h !! p) → is_Some (h !! q) → p ≠ q → ¬ rq_lt h p q → rq_lt h q p.
Proof.
  intros [tp Hp] [tq Hq] Hne Hn. exists tq, tp. split_and!; try done.
  rewrite Less_total by done. destruct (Less p tp q tq) eqn:E; [|done]. exfalso. apply Hn. unfold rq_lt. eauto.
Qed.

Lemma less_spec (a : TaskAllocator CfsTask) p q :
  is_Some (heap a !! p) → is_Some (heap a !! q) →
  ∃ b, less a p q = Ok b ∧ (b = true ↔ rq_lt (heap a) p q).
Proof.
  intros [tp Hp] [tq Hq]. unfold less, deref. rewrite Hp, Hq. simpl. eexists. split; [done|].
  unfold rq_lt. split; [eauto 6|]. intros (? & ? & ? & ? & ?). congruence.
Qed.

Lemma set_insert_spec (a : TaskAllocator CfsTask) k l :
  rq_ok (heap a) l → is_Some (heap a !! k) → k ∉ l →
  ∃ r, set_insert a k l = Ok r ∧ r ≡ₚ k :: l ∧ rq_ok (heap a) r.
Proof.
  intros Hok Hk. induction l as [|e l IH]; intros Hnin; simpl.
  { exists [k]. split_and!; [done|done|]. split; [repeat constructor|].
    by intros q ->%list_elem_of_singleton. }
  apply not_elem_of_cons in Hnin as [Hne Hnin]. pose proof Hok as [Hs Hl].
  apply rq_ok_cons in Hok as [Hok He].
  assert (is_Some (heap a !! e)) as Hel by (apply Hl; by left).
  destruct (less_spec a e k Hel Hk) as (b & -> & Hb). simpl. destruct b.
  - destruct (IH Hok Hnin) as (r & -> & Hr & Hrok). simpl. exists (e :: r). split_and!; [done| |].
    + rewrite Hr. constructor.
    + split.
      * constructor; [apply Hrok|]. apply Forall_forall. intros q Hq. rewrite Hr in Hq.
        apply elem_of_cons in Hq as [->|Hq]; [by apply Hb|by apply He].
      * intros q [->|Hq]%elem_of_cons; [done|by apply Hrok].
  - destruct (less_spec a k e Hk Hel) as (b & -> & Hb'). simpl.
    assert (rq_lt (heap a) k e) as Hke.
    { apply rq_lt_total; [done..|]. intros H. apply Hb in H. done. }
    destruct b; [|by apply Hb' in Hke]. exists (k :: e :: l). split_and!; [done|done|]. split.
    + constructor; [done|]. apply Forall_forall. intros q [->|Hq]%elem_of_cons; [done|].
      eapply rq_lt_trans; [done|by apply He].
    + intros q [->|Hq]%elem_of_cons; [done|by apply Hl].
Qed.

Lemma filter_ne_id (k : Z) (l : list Z) : k ∉ l → filter (λ q, q ≠ k) l = l.
Proof.
  induction l as [|e l IH]; [done|]. intros [Hne Hnin]%not_elem_of_cons.
  rewrite filter_cons_True by done. by rewrite IH.
Qed.

Lemma set_erase_spec (a : TaskAllocator CfsTask) k l :
  rq_ok (heap a) l → is_Some (heap a !! k) →
  set_erase a k l = Ok (if decide (k ∈ l) then Some (filter (λ q, q ≠ k) l) else None).
Proof.
  intros Hok Hk. induction l as [|e l IH]; simpl; [done|].
  pose proof Hok as [Hs Hl]. pose proof (rq_ok_nodup _ _ Hok) as [Hnd _]%NoDup_cons.
  apply rq_ok_cons in Hok as [Hok He].
  assert (is_Some (heap a !! e)) as Hel by (apply Hl; by left).
  destruct (less_spec a e k Hel Hk) as (b & -> & Hb). simpl. destruct b.
  - rewrite (IH Hok). simpl. assert (e ≠ k) as Hne.
    { intros ->. destruct Hb as [Hb _]. destruct (Hb eq_refl) as (t & u & Ht & Hu & Hlt).
      unfold Less in Hlt. assert (t = u) as -> by congruence. rewrite Z.eqb_refl in Hlt. zbool. lia. }
    rewrite filter_cons_True by done.
    destruct (decide (k ∈ l)) as [Hin|Hnin], (decide (k ∈ e :: l)) as [Hin'|Hnin']; try done.
    + exfalso. apply Hnin'. by right.
    + exfalso. apply elem_of_cons in Hin' as [->|?]; done.
  - destruct (less_spec a k e Hk Hel) as (b & -> & Hb'). simpl. destruct b.
    + rewrite decide_False; [done|]. intros [->|Hin]%elem_of_cons.
      * destruct Hb' as [Hb' _], Hb as [_ Hb]. specialize (Hb (Hb' eq_refl)). done.
      * pose proof (He k Hin) as H. apply Hb in H. done.
    + assert (e = k) as ->.
      { destruct (decide (e = k)); [done|]. exfalso.
        assert (rq_lt (heap a) k e) as H; [|by apply Hb' in H].
        apply rq_lt_total; [done..|]. intros H. by apply Hb in H. }
      rewrite decide_True by by left. rewrite filter_cons_False by auto. by rewrite filter_ne_id.
Qed.

(** ** Methods of the run queue *)

(** [InsertTaskIntoRq], of a task that is on no run queue. *)
Lemma wp_Insert A c p t s (Q : unit → Cfs → Prop) :
  view s A → 0 ≤ c < 512 → rq_ok (tasks A) (A_rq A c) → p ∉ A_rq A c →
  tasks A !! p = Some t → trace_wf (state_trace_ (task_state t)) →
  may_enter_rq (orq t) kQueued = true →
  (∀ s' ts l, state_ ts = st t → on_rq_ ts = kQueued → trace_wf (state_trace_ ts) →
     l ≡ₚ p :: A_rq A c → rq_ok (<[p := set_task_state ts t]> (tasks A)) l →
     view s' (A_set_rq c l (A_put p (set_task_state ts t) A)) → Q tt s') →
  wp (InsertTaskIntoRq c p) s Q.
Proof.
  intros Hv Hr [Hs Hl] Hnin Hp Hwf Hm HQ. unfold InsertTaskIntoRq. wpstep.
  eapply wp_SetOnRq; [done..|]. intros s1 ts E1 E2 E3 Hv1. set (u := set_task_state ts t) in *.
  wpstep. eapply wp_cpu_state; [done..|]. intros k (Ek & _). wpstep. wpstep. wpstep. wpstep.
  rewrite (proj1 Hv1), Ek.
  destruct (set_insert_spec (A_alloc (A_put p u A)) p (A_rq A c)) as (l & E & Hperm & Hok).
  { split; simpl; [by apply sorted_put|]. intros q Hq. destruct (decide (p = q)) as [<-|].
    - by rewrite lookup_insert_eq.
    - rewrite lookup_insert_ne by done. by apply Hl. }
  { simpl. by rewrite lookup_insert_eq. }
  { done. }
  change (A_rq (A_put p u A) c) with (A_rq A c). rewrite E. simpl. wpstep.
  apply (wp_set_rq (A_put p u A) c (λ _, l)); [done..|]. intros s2 Hv2.
  destruct l as [|q l']; [by apply Permutation_nil_cons in Hperm|].
  destruct (proj2 Hok q) as [tq Hq]; [by left|].
  wpstep. eapply wp_task_at; [done|exact Hq|].
  apply (wp_set_min _ c (λ _, vruntime tq) _ _ Hv2); [done|]. eauto.
Qed.

(** [DequeueTask] of a task on the queue, and of one that is not. *)
Lemma wp_Dequeue_in A c p t s (Q : unit → Cfs → Prop) :
  view s A → 0 ≤ c < 512 → rq_ok (tasks A) (A_rq A c) → p ∈ A_rq A c →
  tasks A !! p = Some t → trace_wf (state_trace_ (task_state t)) → orq t = kQueued →
  (∀ s' ts, state_ ts = st t → on_rq_ ts = kDequeued → trace_wf (state_trace_ ts) →
     view s' (A_set_rq c (filter (λ q, q ≠ p) (A_rq A c)) (A_put p (set_task_state ts t) A)) →
     Q tt s') →
  wp (DequeueTask c p) s Q.
Proof.
  intros Hv Hr Hok Hin Hp Hwf Ho HQ. unfold DequeueTask. wpstep.
  eapply wp_cpu_state; [done..|]. intros k (Ek & _). wpstep. wpstep. wpstep. wpstep.
  rewrite (proj1 Hv), Ek, set_erase_spec by eauto. rewrite decide_True by done. simpl. wpstep.
  eapply wp_SetOnRq; [done..|by rewrite Ho|]. intros s1 ts E1 E2 E3 Hv1.
  apply (wp_set_rq _ c (λ _, filter (λ q, q ≠ p) (A_rq A c)) _ _ Hv1); [done|]. eauto.
Qed.

Lemma wp_Dequeue_out A c p t s (Q : unit → Cfs → Prop) :
  view s A → 0 ≤ c < 512 → rq_ok (tasks A) (A_rq A c) → p ∉ A_rq A c →
  tasks A !! p = Some t → Q tt s → wp (DequeueTask c p) s Q.
Proof.
  intros Hv Hr Hok Hin Hp HQ. unfold DequeueTask. wpstep.
  eapply wp_cpu_state; [done..|]. intros k (Ek & _). wpstep. wpstep. wpstep. wpstep.
  rewrite (proj1 Hv), Ek, set_erase_spec by eauto. by rewrite decide_False.
Qed.

(** [EnqueueTask] and [PutPrevTask] *)
Lemma wp_Enqueue A c p t s (Q : unit → Cfs → Prop) :
  view s A → 0 ≤ c < 512 → rq_ok (tasks A) (A_rq A c) → p ∉ A_rq A c →
  tasks A !! p = Some t → trace_wf (state_trace_ (task_state t)) →
  may_enter_rq (orq t) kQueued = true → 0 ≤ cpu t →
  (∀ s' ts v l, state_ ts = st t → on_rq_ ts = kQueued → trace_wf (state_trace_ ts) →
     l ≡ₚ p :: A_rq A c →
     rq_ok (<[p := set_task_state ts (set_vruntime v t)]> (tasks A)) l →
     view s' (A_set_rq c l (A_put p (set_task_state ts (set_vruntime v t)) (A_put p (set_vruntime v t) A))) →
     Q tt s') →
  wp (EnqueueTask c p) s Q.
Proof.
  intros Hv Hr Hok Hnin Hp Hwf Hm Hc HQ. unfold EnqueueTask. wpstep.
  eapply wp_task_at; [done..|]. wpstep. wpstep; [by apply Z.leb_le|]. wpstep.
  eapply wp_cpu_state; [done..|]. intros k Hk. wpstep.
  eapply wp_upd_task; [done..|]. set (v := Z.max _ _). intros s1 Hv1.
  eapply (wp_Insert _ c p (set_vruntime v t)); try done; simpl.
  - destruct Hok as [Hs Hl]. split; [by apply sorted_put|]. intros q Hq. destruct (decide (p = q)) as [<-|].
    + by rewrite lookup_insert_eq.
    + rewrite lookup_insert_ne by done. by apply Hl.
  - by rewrite lookup_insert_eq.
  - intros s2 ts l H1 H2 H3 H4 H5 H6. rewrite insert_insert_eq in H5. by eapply HQ.
Qed.

Lemma wp_Rq_PutPrev A c p t s (Q : unit → Cfs → Prop) :
  view s A → 0 ≤ c < 512 → rq_ok (tasks A) (A_rq A c) → p ∉ A_rq A c →
  tasks A !! p = Some t → trace_wf (state_trace_ (task_state t)) →
  may_enter_rq (orq t) kQueued = true → 0 ≤ cpu t →
  (∀ s' ts l, state_ ts = st t → on_rq_ ts = kQueued → trace_wf (state_trace_ ts) →
     l ≡ₚ p :: A_rq A c → rq_ok (<[p := set_task_state ts t]> (tasks A)) l →
     view s' (A_set_rq c l (A_put p (set_task_state ts t) A)) → Q tt s') →
  wp (Rq_PutPrevTask c p) s Q.
Proof.
  intros Hv Hr Hok Hnin Hp Hwf Hm Hc HQ. unfold Rq_PutPrevTask. wpstep.
  eapply wp_task_at; [done..|]. wpstep. wpstep; [by apply Z.leb_le|]. by eapply wp_Insert.
Qed.

(** [UpdateMinVruntime] reads the current task, which must be allocated. *)
Lemma wp_UpdateMin A c s (Q : unit → Cfs → Prop) :
  view s A → 0 ≤ c < 512 → rq_ok (tasks A) (A_rq A c) →
  (A_cu A c ≠ 0 → is_Some (tasks A !! A_cu A c)) →
  (∀ s', view s' A → Q tt s') → wp (UpdateMinVruntime c) s Q.
Proof.
  intros Hv Hr [_ Hl] Hc HQ. unfold UpdateMinVruntime. wpstep.
  eapply wp_cpu_state; [done..|]. intros k (E1 & E2 & E3 & E4 & E5). cbv zeta. rewrite E4.
  apply (wp_seq _ _ _ (λ _ s', s' = s)).
  { destruct (Z.eqb_spec (A_cu A c) 0) as [|Hne]; [done|]. destruct (Hc Hne) as [t Ht].
    wpstep. by eapply wp_task_at. }
  intros curr ? ->. unfold LeftmostRqTask. rewrite E1.
  apply (wp_seq _ _ _ (λ _ s', s' = s)).
  { zcase; [done|]. destruct (A_rq A c) as [|q l]; [done|]. destruct (Hl q) as [t Ht]; [by left|].
    wpstep. by eapply wp_task_at. }
  intros vr ? ->. by apply (wp_set_min A c (λ rq, Z.max (min_vruntime_ rq) vr)).
Qed.
End ops.
