(* ===== verification/CfsHandlers.v ===== *)
(** * CfsHandlers: the message handlers keep every task in its place

    Each handler of the CFS agent, run on a state at rest with a message that
    the kernel may send, does not abort and ends at rest; [settled] says what
    became of the task of the message and that no other task changed. *)

From S2P Require Import Prelude Outcome CpuMap CpuMapSpec.
From S2P Require Import Topology TopologySpec Dispatch CfsRq CfsSched CfsBasics CfsInv CfsOps.
From stdpp Require Import gmap functions sorting.
From Stdlib Require Import ZArith Lia.

Local Open Scope Z_scope.

Section handlers.
Context (env : CfsEnv) (Henv : env_ok env).

Notation view := (view env).
Notation abs_inv := (abs_inv env).
Notation st t := (state_ (task_state t)).
Notation orq t := (on_rq_ (task_state t)).
Notation trace t := (state_trace_ (task_state t)).

(** ** Facts *)

Lemma in_enclave_range c : in_enclave env c → 0 ≤ c < 512 ∧ c < num_cpus_ (topo env).
Proof using Henv.
  intros [H0 Hb]. destruct (eo_cpus _ Henv) as [Hw Hn]. pose proof (bit_range _ _ Hw H0 Hb).
  pose proof (to_num _ (eo_topo _ Henv)). lia.
Qed.

Lemma task_range t : task_wf env t → 0 ≤ cpu t < 512.
Proof using Henv. intros (_ & Hc & _). by apply in_enclave_range. Qed.

(** The invariant reads the maps pointwise. *)
Lemma abs_inv_ext X cur cur' A B :
  A_alloc B = A_alloc A → (∀ c, A_rq B c = A_rq A c) → (∀ c, A_mq B c = A_mq A c) →
  (∀ c, cur' c = cur c) → abs_inv X cur A → abs_inv X cur' B.
Proof.
  intros Ha Hr Hm Hc [H1 H2 H3 H4 H5 H6]. constructor.
  - by rewrite Ha.
  - intros p t Hp Ht. rewrite Ha in Ht. destruct (H2 p t Hp Ht) as [Hw Hok]. split; [done|].
    unfold task_ok in *. by rewrite Hr, Hm, Hc.
  - intros c. rewrite Ha, Hr. apply H3.
  - intros c p. rewrite Hr, Ha. apply H4.
  - intros c g a. rewrite Hm, Ha. apply H5.
  - intros c. rewrite Hc, Ha. apply H6.
Qed.

Lemma abs_inv_cu X cur A c p : abs_inv X cur A → abs_inv X cur (A_set_cu c p A).
Proof. by apply abs_inv_ext. Qed.

(** A task that is not migrating has no migration request. *)
Lemma mq_none X cur A p t c :
  abs_inv X cur A → tasks A !! p = Some t → orq t ≠ kMigrating ∨ p ∈ X →
  A_mq A c !! gtid t = None.
Proof.
  intros Hi Hp Ho. destruct (A_mq A c !! gtid t) as [a|] eqn:E; [|done]. exfalso.
  destruct (ai_mq _ _ _ _ Hi c _ a E) as (HX & _ & u & Hu & Hg & _ & Hou).
  assert (ma_task a = p) as Ea by (eapply (alloc_inj (A_alloc A)); [apply (ai_alloc _ _ _ _ Hi)|done..]).
  rewrite Ea in *. assert (u = t) as -> by congruence. by destruct Ho.
Qed.

Lemma mq_delete_none X cur A g c :
  A_mq A c !! g = None → abs_inv X cur A → abs_inv X cur (A_set_mq c (delete g (A_mq A c)) A).
Proof.
  intros Hn. apply abs_inv_ext; try done. intros c'. simpl. destruct (decide (c = c')) as [<-|Hne].
  - rewrite fn_lookup_insert. by apply delete_id.
  - by rewrite fn_lookup_insert_ne.
Qed.

Lemma exempt_rq X cur A p c : abs_inv X cur A → p ∈ X → p ∉ A_rq A c.
Proof. intros Hi HX Hin. by destruct (ai_rq _ _ _ _ Hi c p Hin). Qed.

Lemma rest_wf X cur A p t : abs_inv X cur A → p ∉ X → tasks A !! p = Some t → task_wf env t.
Proof. intros Hi HX Hp. by destruct (ai_task _ _ _ _ Hi p t HX Hp). Qed.

(** ** Settled states *)

(** [s] is at rest but for [X]; the task [p] is as [P] says and the others
    are those of [A]. *)
Definition settled (X : list Z) (cur : Z → Z) (A : Abs) (p : Z) (P : CfsTask → Prop) (s : Cfs) : Prop :=
  ∃ A' t', view s A' ∧ abs_inv X cur A' ∧ A_cu A' = A_cu A ∧
    tasks A' !! p = Some t' ∧ P t' ∧ (∀ q, q ≠ p → tasks A' !! q = tasks A !! q).

(** The task [t] in a new place: only its state changed. *)
Definition placed (t : CfsTask) (S : State) (O : OnRq) (t' : CfsTask) : Prop :=
  t' = set_task_state (task_state t') t ∧ st t' = S ∧ orq t' = O.

(** At rest. *)
Definition rest (s : Cfs) (A : Abs) : Prop := view s A ∧ abs_inv [] (A_cu A) A.

Lemma settled_weaken X cur A p (P P' : CfsTask → Prop) s :
  (∀ t, P t → P' t) → settled X cur A p P s → settled X cur A p P' s.
Proof. intros H (A' & t' & H1 & H2 & H3 & H4 & H5 & H6). exists A', t'. eauto 10. Qed.

(** ** Building blocks *)

Lemma wp_cpu_state_of A p t s (Q : Z → Cfs → Prop) :
  view s A → tasks A !! p = Some t → 0 ≤ cpu t < 512 → Q (cpu t) s → wp (cpu_state_of p) s Q.
Proof.
  intros Hv Hp Hc HQ. unfold cpu_state_of. wpstep. eapply wp_task_at; [done..|].
  wpstep. wpstep; [apply Z.leb_le; lia|]. wpstep. wpstep; [apply Z.ltb_lt; unfold MAX_CPUS; lia|].
  by wpstep.
Qed.

Lemma wp_topo_cpu A c s (Q : Z → Cfs → Prop) :
  view s A → 0 ≤ c < num_cpus_ (topo env) → Q c s → wp (topo_cpu env c) s Q.
Proof. intros Hv Hc HQ. unfold topo_cpu. wpstep. by rewrite Topology_cpu_ok. Qed.

(** The task [p], out of its place, becomes a migration request. *)
Lemma wp_mark_migrating X cur A p t s c :
  view s A → abs_inv (p :: X) cur A → p ∉ X → tasks A !! p = Some t → task_wf env t →
  c = cpu t → st t = kRunnable → orq t = kDequeued →
  wp (task_SetOnRq p kMigrating ≫= λ _, mq_enqueue c p (-1)) s
    (λ _, settled X cur A p (placed t kRunnable kMigrating)).
Proof using Henv.
  intros Hv Hi HX Hp Hw -> Hs Ho. pose proof (task_range _ Hw) as Hr. pose proof Hw as (Htr & Hcpu & Haff).
  wpstep. eapply wp_SetOnRq; [done..|by rewrite Ho|]. intros s1 ts E1 E2 E3 Hv1.
  set (u := set_task_state ts t) in *.
  assert (tasks (A_put p u A) !! p = Some u) as Hu by (simpl; by rewrite lookup_insert_eq).
  unfold mq_enqueue. wpstep. eapply wp_task_at; [done..|].
  apply (wp_set_mq env _ (cpu t) (CfsMq_EnqueueTask (gtid u) p (-1)) _ _ Hv1); [done|].
  intros s2 Hv2. eexists _, u. split_and!; [exact Hv2| |done|done| |].
  - eapply (put_migrating env X p cur (A_put p u A) u); [|done|done|done|done|simpl; congruence].
    apply (inv_put_x env _ p _ _ t); [done|by left|done|done].
  - split_and!; try done. simpl. congruence.
  - intros q Hq. simpl. by rewrite lookup_insert_ne.
Qed.

(** The task [p], out of its place, goes on a run queue. *)
Lemma put_queued_view X cur A p t u l :
  abs_inv (p :: X) cur A → p ∉ X → tasks A !! p = Some t → task_wf env t →
  gtid u = gtid t → cpu u = cpu t → cpu_affinity u = cpu_affinity t → trace_wf (trace u) →
  st u = kRunnable → orq u = kQueued →
  l ≡ₚ p :: A_rq A (cpu t) → rq_ok (<[p := u]> (tasks A)) l →
  abs_inv X cur (A_set_rq (cpu t) l (A_put p u A)).
Proof.
  intros Hi HX Hp (Htr & Hcpu & Haff) Hg Hc Ha Htr' Hs Ho Hl [Hok _].
  rewrite <- Hc. eapply (put_queued env X p cur (A_put p u A) u); try done.
  - apply (inv_put_x env _ p _ _ t); [done|by left|done|done].
  - simpl. by rewrite lookup_insert_eq.
  - unfold task_wf. rewrite Hc, Ha. done.
  - intros q. rewrite Hl, elem_of_cons. simpl. by rewrite Hc.
Qed.

(** [StartMigrateTask] of a task that is out of its place. *)
Lemma wp_StartMigrate_out X cur A p t s :
  view s A → abs_inv (p :: X) cur A → p ∉ X → tasks A !! p = Some t → task_wf env t →
  st t = kRunnable → orq t = kDequeued →
  wp (StartMigrateTask p) s (λ _, settled X cur A p (placed t kRunnable kMigrating)).
Proof using Henv.
  intros Hv Hi HX Hp Hw Hs Ho. pose proof (task_range _ Hw) as Hr.
  unfold StartMigrateTask. wpstep. eapply wp_cpu_state_of; [done..|]. wpstep.
  eapply wp_Dequeue_out; [done|done|by eapply abs_rq_ok| |done|].
  - eapply exempt_rq; [done|by left].
  - by eapply wp_mark_migrating.
Qed.

(** [StartMigrateTask] of a queued task. *)
Lemma wp_StartMigrate_queued X cur A p t s :
  view s A → abs_inv X cur A → p ∉ X → tasks A !! p = Some t → orq t = kQueued →
  wp (StartMigrateTask p) s (λ _, settled X cur A p (placed t kRunnable kMigrating)).
Proof using Henv.
  intros Hv Hi HX Hp Ho. pose proof (rest_wf _ _ _ _ _ Hi HX Hp) as Hw.
  destruct (ai_task _ _ _ _ Hi p t HX Hp) as [_ Hok]. unfold task_ok in Hok. rewrite Ho in Hok.
  destruct (st t) eqn:Hs; try done. pose proof (task_range _ Hw) as Hr. pose proof Hw as (Htr & Hcpu & Haff).
  unfold StartMigrateTask. wpstep. eapply wp_cpu_state_of; [done..|]. wpstep.
  eapply wp_Dequeue_in; [done|done|by eapply abs_rq_ok|done..|]. intros s1 ts E1 E2 E3 Hv1.
  set (u := set_task_state ts t) in *. set (A1 := A_set_rq _ _ _) in *.
  assert (abs_inv (p :: X) cur A1) as Hi1.
  { apply (inv_put_x env _ p _ (A_set_rq (cpu t) (filter (λ q, q ≠ p) (A_rq A (cpu t))) A) t);
      [by apply take_queued|by left|done|done]. }
  eapply wp_mono; [apply (wp_mark_migrating X cur A1 p u); try done|].
  - subst A1. simpl. by rewrite lookup_insert_eq.
  - simpl. congruence.
  - intros _ s2 (A' & t' & H1 & H2 & H3 & H4 & H5 & H6). exists A', t'. split_and!; try done.
    intros q Hq. rewrite H6 by done. simpl. by rewrite lookup_insert_ne.
Qed.

(** A run queue after its task left, as a state to start from. *)
Lemma settled_from X cur A B p (P : CfsTask → Prop) s :
  A_cu B = A_cu A → (∀ q, q ≠ p → tasks B !! q = tasks A !! q) →
  settled X cur B p P s → settled X cur A p P s.
Proof.
  intros Hc Hq (A' & t' & H1 & H2 & H3 & H4 & H5 & H6). exists A', t'. split_and!; try done; [congruence|].
  intros q Hne. by rewrite H6, Hq.
Qed.

(** ** Going off the CPU *)

(** The state that a handler leaves behind. *)
Definition handled (A : Abs) (p : Z) (P : CfsTask → Prop) (s : Cfs) : Prop :=
  ∃ A' t', rest s A' ∧ tasks A' !! p = Some t' ∧ P t' ∧
    (∀ q, q ≠ p → tasks A' !! q = tasks A !! q).

Lemma settled_handled A B p P s :
  (∀ q, q ≠ p → tasks B !! q = tasks A !! q) → settled [] (A_cu B) B p P s → handled A p P s.
Proof.
  intros Ha (A' & t' & H1 & H2 & H3 & H4 & H5 & H6). exists A', t'.
  split_and!; try done; [split; [done|by rewrite H3]|]. intros q Hq. by rewrite H6, Ha.
Qed.

Context (my_cpu : Z) (Hmy : in_enclave env my_cpu).

(** A task whose agent learns that it left the CPU: the current task, or the
    last task of a switchto chain, which the agent has as blocked. *)
Definition off_cpu (A : Abs) (p : Z) (t : CfsTask) : Prop :=
  cpu t = my_cpu ∧ (A_cu A my_cpu = p ∧ st t = kRunning ∨ st t = kBlocked).

Lemma off_cpu_dequeued A p t :
  abs_inv [] (A_cu A) A → tasks A !! p = Some t → off_cpu A p t → orq t = kDequeued.
Proof.
  intros Hi Hp (_ & Hs). destruct (ai_task _ _ _ _ Hi p t (not_elem_of_nil _) Hp) as [_ Hok].
  unfold task_ok in Hok. destruct Hs as [[_ E]|E]; rewrite E in Hok; by destruct (orq t).
Qed.

(** [cs->current = nullptr] if it is the task. *)
Lemma wp_leave A p t k s (Q : unit → Cfs → Prop) :
  rest s A → tasks A !! p = Some t → off_cpu A p t → cpu_view env A my_cpu k →
  (∀ s' B, view s' B → abs_inv [p] (A_cu B) B → A_alloc B = A_alloc A → A_rq B = A_rq A → Q tt s') →
  wp (whenM (current k =? p) (upd_cs my_cpu (set_current 0))) s Q.
Proof using Henv Hmy.
  intros [Hv Hi] Hp Hoff (_ & _ & _ & Ek & _) HQ. pose proof (in_enclave_range _ Hmy).
  pose proof (off_cpu_dequeued _ _ _ Hi Hp Hoff) as Ho. destruct Hoff as [Hc Hs].
  pose proof (live_nonzero _ _ _ _ _ _ Hi Hp). wpstep; rewrite Ek; intros E; zbool.
  - eapply wp_set_current; [done|lia|]. intros s' Hv'. apply (HQ s' (A_set_cu my_cpu 0 A)); try done.
    apply abs_inv_cu. by apply take_current.
  - apply (HQ s A); try done. destruct Hs as [[? _]|Hs]; [done|].
    by eapply take_blocked.
Qed.

(** [PutPrevTask]: back on the run queue, or off to another CPU. *)
Lemma wp_PutPrevTask A p t s :
  rest s A → tasks A !! p = Some t → off_cpu A p t →
  wp (PutPrevTask my_cpu p) s
    (λ _, handled A p (placed t kRunnable (if bit (cpu_affinity t) (cpu t) then kQueued else kMigrating))).
Proof using Henv Hmy.
  intros [Hv Hi] Hp Hoff. pose proof (rest_wf _ _ _ _ _ Hi (not_elem_of_nil _) Hp) as Hw.
  pose proof (off_cpu_dequeued _ _ _ Hi Hp Hoff) as Ho. pose proof (task_range _ Hw) as Hr.
  pose proof (live_nonzero _ _ _ _ _ _ Hi Hp) as Hp0. pose proof Hw as (Htr & Hcpu & Haff).
  pose proof (in_enclave_range _ Hmy) as Hrm.
  unfold PutPrevTask. wpstep. eapply wp_cpu_state; [done|lia|]. intros k Hk.
  wpstep. wpstep; [by apply negb_true_iff, Z.eqb_neq|]. wpstep.
  eapply wp_leave; [done..|]. intros s1 B Hv1 Hi1 Ha Hrq. wpstep.
  assert (tasks B !! p = Some t) as HpB by by rewrite Ha.
  eapply wp_SetState; [done..| |].
  { destruct Hoff as [_ [[_ ->]| ->]]; done. }
  intros s2 ts E1 E2 E3 Hv2. set (u := set_task_state ts t) in *.
  assert (tasks (A_put p u B) !! p = Some u) as Hu by (simpl; by rewrite lookup_insert_eq).
  assert (abs_inv [p] (A_cu (A_put p u B)) (A_put p u B)) as Hi2.
  { apply (inv_put_x env _ p _ _ t); [done|by left|done|done]. }
  wpstep. eapply wp_task_at; [done..|]. wpstep. wpstep. change (cpu u) with (cpu t).
  change (cpu_affinity u) with (cpu_affinity t). rewrite u32_small, IsSet_spec by lia. simpl.
  destruct (bit (cpu_affinity t) (cpu t)); simpl.
  - destruct Hoff as [Hc _]. eapply (wp_Rq_PutPrev env (A_put p u B) my_cpu p u); try done.
    + lia.
    + by eapply abs_rq_ok.
    + eapply exempt_rq; [done|by left].
    + simpl. by rewrite E2, Ho.
    + simpl. lia.
    + intros s3 ts' l F1 F2 F3 Hl Hok Hv3.
      assert (abs_inv [] (A_cu B) (A_set_rq my_cpu l (A_put p (set_task_state ts' u) (A_put p u B)))) as Hi3.
      { rewrite <- Hc. apply (put_queued_view [] (A_cu B) (A_put p u B) p u); try done.
        - set_solver.
        - simpl. rewrite F1. done.
        - simpl. by rewrite Hc. }
      eexists _, (set_task_state ts' u). split_and!; [by split|simpl; by rewrite lookup_insert_eq| |].
      * split_and!; try done. simpl. rewrite F1. done.
      * intros q Hq. simpl. rewrite !lookup_insert_ne by done. by rewrite Ha.
  - eapply wp_mono; [eapply (wp_StartMigrate_out [] (A_cu B) (A_put p u B) p u)|].
    + done. + done. + set_solver. + done. + done. + simpl. congruence. + simpl. congruence.
    + intros [] s3 Hset. apply (settled_handled A (A_put p u B)) in Hset; [done|].
      intros q Hq. simpl. by rewrite lookup_insert_ne, Ha.
Qed.

(** ** Death and departure *)

Definition gone (A : Abs) (p : Z) (s : Cfs) : Prop :=
  ∃ A', rest s A' ∧ tasks A' !! p = None ∧ (∀ q, q ≠ p → tasks A' !! q = tasks A !! q).

(** A task that is out of its place is freed. *)
Lemma wp_free_out A B p t c s :
  view s B → abs_inv [p] (A_cu B) B → tasks B !! p = Some t → 0 ≤ c < 512 →
  (∀ q, q ≠ p → tasks B !! q = tasks A !! q) →
  wp (free_task p ≫= λ _, UpdateMinVruntime c) s (λ _, gone A p).
Proof.
  intros Hv Hi Hp Hc Hq. wpstep. eapply wp_free_task; [done..|]. intros s1 Hv1.
  assert (abs_inv [] (A_cu B) (A_free p t B)) as Hi1 by by eapply free_inv.
  eapply wp_UpdateMin; [done|done|by eapply abs_rq_ok| |].
  - simpl. intros Hne. destruct (ai_cur _ _ _ _ Hi1 c Hne) as (_ & u & Hu & _). simpl in Hu. eauto.
  - intros s2 Hv2. exists (A_free p t B). split_and!; [by split|simpl; by apply lookup_delete_eq|].
    intros q Hne. simpl. rewrite lookup_delete_ne by done. auto.
Qed.

(** Where the task of [HandleTaskDone] was. *)
Lemma wp_done_queued A p t u s :
  view s (A_put p u (A_set_mq (cpu t) (delete (gtid t) (A_mq A (cpu t))) A)) →
  abs_inv [] (A_cu A) A → tasks A !! p = Some t → orq t = kQueued →
  gtid u = gtid t → cpu u = cpu t → vruntime u = vruntime t → orq u = kQueued → trace_wf (trace u) →
  wp (DequeueTask (cpu t) p ≫= λ _, free_task p ≫= λ _, UpdateMinVruntime (cpu t)) s (λ _, gone A p).
Proof using Henv Hmy.
  intros Hv Hi Hp Ho Hg Hc Hvr Hou Htr. set (A1 := A_put _ _ _) in *.
  pose proof (rest_wf _ _ _ _ _ Hi (not_elem_of_nil _) Hp) as Hw. pose proof (task_range _ Hw) as Hr.
  destruct (abs_rq_ok env _ _ _ (cpu t) Hi) as [Hs Hl].
  assert (p ∈ A_rq A (cpu t)) as Hin.
  { destruct (ai_task _ _ _ _ Hi p t (not_elem_of_nil _) Hp) as [_ Hok]. unfold task_ok in Hok.
    rewrite Ho in Hok. by destruct (st t). }
  wpstep. eapply (wp_Dequeue_in env A1 (cpu t) p u); try done; simpl.
  - split; [by eapply (sorted_same _ p t u)|]. intros q Hq. destruct (decide (p = q)) as [<-|].
    + by rewrite lookup_insert_eq.
    + rewrite lookup_insert_ne by done. by apply Hl.
  - by rewrite lookup_insert_eq.
  - intros s1 ts E1 E2 E3 Hv1. set (w := set_task_state ts u) in *.
    eapply (wp_free_out A _ p w); [exact Hv1| |simpl; by rewrite lookup_insert_eq|done|].
    + set (A2 := A_set_rq (cpu t) (filter (λ q, q ≠ p) (A_rq A (cpu t))) A).
      assert (abs_inv [p] (A_cu A) (A_set_mq (cpu t) (delete (gtid t) (A_mq A (cpu t))) A2)) as Hi2.
      { apply (mq_delete_none [p] (A_cu A) A2); [|by apply take_queued; [..|set_solver|done|done]].
        simpl. eapply mq_none; [done|done|left; congruence]. }
      apply (inv_put_x env [p] p (A_cu A) (A_put p u (A_set_mq (cpu t) (delete (gtid t) (A_mq A (cpu t))) A2)) u);
        [|by left|simpl; by rewrite lookup_insert_eq|done].
      by apply (inv_put_x env [p] p (A_cu A) _ t); [|left|..].
    + intros q Hq. simpl. by rewrite !lookup_insert_ne.
Qed.

Lemma wp_done_out A B p t u c s :
  view s (A_put p u B) → abs_inv [p] (A_cu B) B → tasks B = tasks A → tasks A !! p = Some t →
  gtid u = gtid t → 0 ≤ c < 512 →
  wp (DequeueTask c p ≫= λ _, free_task p ≫= λ _, UpdateMinVruntime c) s (λ _, gone A p).
Proof.
  intros Hv Hi HB Hp Hg Hc. rewrite <- HB in Hp.
  assert (abs_inv [p] (A_cu B) (A_put p u B)) as Hi1.
  { apply (inv_put_x env _ p _ _ t); [done|by left|done|done]. }
  assert (tasks (A_put p u B) !! p = Some u) as Hu by (simpl; by rewrite lookup_insert_eq).
  wpstep. eapply wp_Dequeue_out; [done|done|by eapply abs_rq_ok|eapply exempt_rq; [done|by left]|done|].
  eapply wp_free_out; [done..|]. intros q Hq. simpl. by rewrite lookup_insert_ne, HB.
Qed.

(** [HandleTaskDone] forgets the task, unless it is the current task of its
    CPU: then it stays, done, for the next schedule. *)
Lemma wp_HandleTaskDone A p t fs s :
  rest s A → tasks A !! p = Some t → st t ≠ kDone →
  wp (HandleTaskDone p fs) s (λ _, if A_cu A (cpu t) =? p
    then handled A p (placed t kDone kDequeued) else gone A p).
Proof using Henv Hmy.
  intros [Hv Hi] Hp Hnd. pose proof (rest_wf _ _ _ _ _ Hi (not_elem_of_nil _) Hp) as Hw.
  destruct (ai_task _ _ _ _ Hi p t (not_elem_of_nil _) Hp) as [_ Hok].
  pose proof (task_range _ Hw) as Hr. pose proof Hw as (Htr & Hcpu & Haff).
  pose proof (live_nonzero _ _ _ _ _ _ Hi Hp) as Hp0.
  unfold HandleTaskDone. wpstep. eapply wp_cpu_state_of; [done..|].
  unfold mq_dequeue. wpstep. wpstep. eapply wp_task_at; [done..|].
  apply (wp_set_mq env A (cpu t) (delete (gtid t)) _ _ Hv); [done|]. intros s1 Hv1.
  set (A1 := A_set_mq _ _ _) in *. wpstep. eapply wp_task_at; [done..|]. wpstep.
  eapply (wp_SetState env A1); [done..| |]; [by revert Hnd Hok; unfold task_ok; destruct (orq t), (st t)|].
  intros s2 ts E1 E2 E3 Hv2. set (u := set_task_state ts t) in *.
  replace (bool_decide (st t = kRunning) || fs || bool_decide (st t = kRunnable)
           || bool_decide (st t = kBlocked)) with true.
  2:{ unfold task_ok in Hok. destruct (orq t), (st t); try done; destruct fs; done. }
  wpstep. eapply wp_cpu_state; [done..|]. intros k (_ & _ & _ & Ek & _). rewrite Ek.
  change (A_cu (A_put p u A1) (cpu t)) with (A_cu A (cpu t)).
  destruct (Z.eqb_spec (A_cu A (cpu t)) p) as [Ec|Hc]; simpl.
  - destruct (ai_cur _ _ _ _ Hi (cpu t)) as (_ & t' & Ht' & _ & Ho & Hs); [congruence|].
    rewrite Ec in Ht'. assert (t' = t) as -> by congruence.
    assert (st t = kRunning) as Hst by (by destruct Hs).
    assert (abs_inv [] (A_cu A) (A_put p u A1)) as Hi2; [|].
    { assert (A_mq A (cpu t) !! gtid t = None) as Hn by (eapply mq_none; [done|done|left; congruence]).
      assert (abs_inv [p] (<[cpu t := 0]> (A_cu A)) (A_put p u A1)) as Hi1.
      { apply (inv_put_x env _ p _ _ t); [|by left|done|done]. apply mq_delete_none; [done|].
        by apply take_current. }
      eapply (abs_inv_ext [] (<[cpu t := p]> (<[cpu t := 0]> (A_cu A)))); [done..| |].
      - intros c. destruct (decide (cpu t = c)) as [<-|]; [by rewrite fn_lookup_insert|].
        by rewrite !fn_lookup_insert_ne.
      - apply (put_current env [] p _ (A_put p u A1) u); [done|set_solver| | | | |].
        + simpl. by rewrite lookup_insert_eq.
        + split_and!; done.
        + simpl. congruence.
        + right. simpl. congruence.
        + simpl. by rewrite fn_lookup_insert. }
    exists (A_put p u A1), u. split_and!; [by split|simpl; by rewrite lookup_insert_eq| |].
    + split_and!; try done. simpl. congruence.
    + intros q Hq. simpl. by rewrite lookup_insert_ne.
  - destruct (orq t) eqn:Ho; [| | |by unfold task_ok in Hok; rewrite Ho in Hok; destruct (st t)].
    + eapply (wp_done_out A A1 p t); try done. apply mq_delete_none.
      * eapply mq_none; [done|done|left; congruence].
      * apply (take_blocked env [] _ A p t); [done..|].
        unfold task_ok in Hok. rewrite Ho in Hok. by destruct (st t).
    + eapply (wp_done_queued A p t u); done.
    + eapply (wp_done_out A A1 p t); try done. apply take_migrating; [done|set_solver|done|done].
Qed.
End handlers.
