(* ===== verification/CfsMessages.v ===== *)
(** * CfsMessages: dispatching one message keeps the CFS agent at rest

    [msg_ok s m] is what the kernel guarantees of a message to the agent of
    [my_cpu] in the state [s]; under it [DispatchMessage] neither aborts nor
    leaves a task out of its place.

    What each message does to its task.

    [next_place] is the state machine of a task as the kernel's messages drive
    it; [DispatchMessage], composed of the lookup, the handler and the advance
    of the sequence number, refines it and touches no other task. *)

From S2P Require Import Prelude Outcome CpuMap CpuMapSpec Topology TopologySpec Dispatch CfsRq CfsSched CfsBasics CfsInv CfsOps.
From S2P Require Import CfsHandlers.
From stdpp Require Import gmap functions sorting.
From Stdlib Require Import ZArith Lia.

Local Open Scope Z_scope.

(** The nice values a task may have. *)
Definition nice_ok (n : Z) : Prop := kMinNice ≤ n ≤ kMaxNice.

Section messages.
Context (env : CfsEnv) (Henv : env_ok env).
Context (my_cpu : Z) (Hmy : in_enclave env my_cpu).

Notation view := (view env).
Notation abs_inv := (abs_inv env).
Notation rest := (rest env).
Notation handled := (handled env).
Notation gone := (gone env).
Notation off_cpu := (off_cpu my_cpu).
Notation st t := (state_ (task_state t)).
Notation orq t := (on_rq_ (task_state t)).

(** A task leaves the CPU: as the current task, or as the last one of a
    switchto chain that ran on [msg_cpu]. *)
Definition leave_ok (cur p : Z) (t : CfsTask) (m : Message) : Prop :=
  if msg_from_switchto m then st t = kBlocked ∧ 0 ≤ msg_cpu m < num_cpus_ (topo env)
  else cur = p ∧ msg_cpu m = my_cpu.

(** A message about the task [t] at [p], while [cur] is current. *)
Definition task_msg_ok (cur p : Z) (t : CfsTask) (m : Message) : Prop :=
  cpu t = my_cpu ∧ st t ≠ kDone ∧ seqnum t < msg_seqnum m ∧
  let ty := msg_type m in
  (ty = MSG_TASK_WAKEUP → st t = kBlocked) ∧
  (ty = MSG_TASK_BLOCKED ∨ ty = MSG_TASK_YIELD ∨ ty = MSG_TASK_PREEMPT → leave_ok cur p t m) ∧
  (ty = MSG_TASK_SWITCHTO → cur = p) ∧
  (ty = MSG_TASK_DEPARTED → msg_from_switchto m = true → 0 ≤ msg_cpu m < num_cpus_ (topo env)) ∧
  (ty = MSG_TASK_PRIORITY_CHANGED → nice_ok (msg_nice m)).

Definition msg_ok (s : Cfs) (m : Message) : Prop :=
  msg_type m = MSG_NOP ∨
  (MSG_CPU_TICK ≤ msg_type m ≤ MSG_CPU_AGENT_WAKEUP ∧ 0 ≤ msg_cpu m < num_cpus_ (topo env)) ∨
  (MSG_TASK_DEAD ≤ msg_type m ≤ MSG_TASK_PRIORITY_CHANGED ∧ msg_gtid m ≠ 0 ∧
   match task_map_ (allocator_ s) !! msg_gtid m with
   | None => msg_type m = MSG_TASK_NEW → nice_ok (msg_nice m)
   | Some p => msg_type m ≠ MSG_TASK_NEW → ∀ t, heap (allocator_ s) !! p = Some t →
       task_msg_ok (current (cpu_states_ s my_cpu)) p t m
   end).

(** ** The handlers *)

Lemma handled_view A p P s s' :
  (∀ B, view s B → view s' B) → handled A p P s → handled A p P s'.
Proof. intros H (A' & t' & [H1 H2] & H3 & H4 & H5). exists A', t'. split_and!; try done. split; auto. Qed.

(** The messages of a task that leaves the CPU end with a ping. *)
Lemma wp_ping_remote A p P m cur t s :
  leave_ok cur p t m → handled A p P s → wp (ping_remote env my_cpu m) s (λ _, handled A p P).
Proof.
  intros Hl Hh. unfold ping_remote. wpstep; [|done]. intros Hne%negb_true_iff. zbool.
  unfold leave_ok in Hl. destruct (msg_from_switchto m); [|by destruct Hl].
  wpstep. wpstep; [done|]. pose proof Hh as (A' & t' & [H1 H2] & H3 & H4 & H5).
  wpstep. eapply wp_topo_cpu; [done|by destruct Hl|]. unfold PingCpu. wpstep; [|done].
  intros _. wpstep. revert Hh. apply handled_view. done.
Qed.

Lemma leave_off s A p t m :
  rest s A → tasks A !! p = Some t → cpu t = my_cpu → st t ≠ kDone →
  leave_ok (A_cu A my_cpu) p t m → off_cpu A p t.
Proof.
  intros [Hv Hi] Hp Hc Hd Hl. split; [done|]. unfold leave_ok in Hl.
  destruct (msg_from_switchto m); [right; tauto|left]. destruct Hl as [Hcur _]. split; [done|].
  pose proof (live_nonzero _ _ _ _ _ _ Hi Hp).
  destruct (ai_cur _ _ _ _ Hi my_cpu) as (_ & u & Hu & _ & _ & Hs); [congruence|].
  rewrite Hcur in Hu. assert (u = t) as -> by congruence. by destruct Hs.
Qed.

Lemma wp_check_current A p t m s (Q : unit → Cfs → Prop) :
  rest s A → leave_ok (A_cu A my_cpu) p t m → Q tt s → wp (check_current env my_cpu p m) s Q.
Proof using Henv Hmy.
  intros [Hv Hi] Hl HQ. pose proof (in_enclave_range env Henv _ Hmy). unfold check_current.
  wpstep. eapply wp_topo_cpu; [done|lia|]. wpstep. eapply wp_cpu_state; [done|lia|].
  intros k (_ & _ & _ & Ek & _). wpstep; [|done]. rewrite Ek. unfold leave_ok in Hl.
  destruct (msg_from_switchto m); [done|]. destruct Hl as [-> _]. apply Z.eqb_refl.
Qed.

Lemma wp_check_dequeued A p t s (Q : unit → Cfs → Prop) :
  view s A → tasks A !! p = Some t → orq t = kDequeued → Q tt s → wp (check_dequeued p) s Q.
Proof.
  intros Hv Hp Ho HQ. unfold check_dequeued. wpstep. eapply wp_task_at; [done..|].
  wpstep; [|done]. by apply bool_decide_true.
Qed.

(** Where a task goes that is put back. *)
Definition put_back (t : CfsTask) : OnRq :=
  if bit (cpu_affinity t) (cpu t) then kQueued else kMigrating.

Section one.
Context (A : Abs) (p : Z) (t : CfsTask) (m : Message) (s : Cfs).
Context (Hrest : rest s A) (Hp : tasks A !! p = Some t) (Hcpu : cpu t = my_cpu) (Hnd : st t ≠ kDone).

Lemma wp_Yield :
  leave_ok (A_cu A my_cpu) p t m →
  wp (Cfs_TaskYield env my_cpu p m) s (λ _, handled A p (placed t kRunnable (put_back t))).
Proof using Henv Hmy Hrest Hp Hcpu Hnd.
  intros Hl. pose proof (leave_off _ _ _ _ _ Hrest Hp Hcpu Hnd Hl) as Hoff.
  unfold Cfs_TaskYield. wpstep. eapply wp_check_current; [done..|].
  wpstep. eapply wp_check_dequeued; [apply Hrest|done| |].
  { eapply off_cpu_dequeued; [apply Hrest|done..]. }
  eapply wp_seq; [by apply (wp_PutPrevTask env Henv my_cpu Hmy A p t)|]. intros [] s' Hh.
  by eapply wp_ping_remote.
Qed.

(** [TaskPreempted] is the same code. *)
Lemma wp_Preempted :
  leave_ok (A_cu A my_cpu) p t m →
  wp (Cfs_TaskPreempted env my_cpu p m) s (λ _, handled A p (placed t kRunnable (put_back t))).
Proof using Henv Hmy Hrest Hp Hcpu Hnd. apply wp_Yield. Qed.

Lemma wp_Blocked :
  leave_ok (A_cu A my_cpu) p t m →
  wp (Cfs_TaskBlocked env my_cpu p m) s (λ _, handled A p (placed t kBlocked kDequeued)).
Proof using Henv Hmy Hrest Hp Hcpu Hnd.
  intros Hl. pose proof (leave_off _ _ _ _ _ Hrest Hp Hcpu Hnd Hl) as Hoff.
  pose proof (in_enclave_range env Henv _ Hmy). destruct (Hrest) as [Hv Hi].
  pose proof (rest_wf env _ _ _ _ _ Hi (not_elem_of_nil _) Hp) as Hw.
  pose proof (off_cpu_dequeued env my_cpu _ _ _ Hi Hp Hoff) as Ho. pose proof Hw as (Htr & Hc & Haff).
  unfold Cfs_TaskBlocked. wpstep. eapply wp_check_current; [done..|].
  wpstep. eapply wp_cpu_state; [done|lia|]. intros k Hk. wpstep.
  eapply (wp_leave env Henv my_cpu Hmy); [done..|]. intros s1 B Hv1 Hi1 Ha _.
  assert (tasks B !! p = Some t) as HpB by by rewrite Ha.
  wpstep. eapply wp_SetState; [done..| |].
  { destruct Hoff as [_ [[_ ->]| ->]]; done. }
  intros s2 ts E1 E2 E3 Hv2. set (u := set_task_state ts t) in *.
  assert (tasks (A_put p u B) !! p = Some u) as Hu by (simpl; by rewrite lookup_insert_eq).
  wpstep. eapply wp_check_dequeued; [done..|simpl; congruence|].
  eapply wp_ping_remote; [done|]. exists (A_put p u B), u. split_and!; [|done|by split_and!; try done; simpl; congruence|].
  - split; [done|]. apply (put_blocked env [] p _ (A_put p u B) u); [|set_solver|done|done|simpl; congruence|done].
    apply (inv_put_x env _ p _ _ t); [done|by left|done|done].
  - intros q Hq. simpl. by rewrite lookup_insert_ne, Ha.
Qed.

Lemma wp_Switchto :
  A_cu A my_cpu = p →
  wp (Cfs_TaskSwitchto p m) s (λ _, handled A p (placed t kBlocked kDequeued)).
Proof using Henv Hmy Hrest Hp Hcpu Hnd.
  intros Hcur. destruct (Hrest) as [Hv Hi]. pose proof (in_enclave_range env Henv _ Hmy).
  pose proof (live_nonzero _ _ _ _ _ _ Hi Hp).
  destruct (ai_cur _ _ _ _ Hi my_cpu) as (_ & t' & Hu & _ & Ho & Hs); [congruence|].
  rewrite Hcur in Hu. assert (t' = t) as -> by congruence.
  assert (st t = kRunning) as Hst by by destruct Hs.
  pose proof (rest_wf env _ _ _ _ _ Hi (not_elem_of_nil _) Hp) as Hw. pose proof Hw as (Htr & Hc & Haff).
  unfold Cfs_TaskSwitchto. wpstep. eapply wp_cpu_state_of; [done|done|lia|]. rewrite Hcpu.
  wpstep. eapply wp_cpu_state; [done|lia|]. intros k (_ & _ & _ & Ek & _).
  wpstep. wpstep; [by rewrite Ek, Z.eqb_eq|]. wpstep.
  eapply wp_SetState; [done..|by rewrite Hst|]. intros s1 ts E1 E2 E3 Hv1.
  set (u := set_task_state ts t) in *.
  assert (tasks (A_put p u A) !! p = Some u) as Hu' by (simpl; by rewrite lookup_insert_eq).
  wpstep. eapply wp_check_dequeued; [done..|simpl; congruence|].
  eapply wp_set_current; [done|lia|]. intros s2 Hv2.
  eexists _, u. split_and!; [split; [exact Hv2|]|done|by split_and!; try done; simpl; congruence|].
  - simpl. apply (put_blocked env [] p _ _ u); [|set_solver|done|done|simpl; congruence|done].
    apply abs_inv_cu. apply (inv_put_x env _ p _ _ t); [by apply take_current|by left|done|done].
  - intros q Hq. simpl. by rewrite lookup_insert_ne.
Qed.

Lemma wp_Runnable :
  st t = kBlocked →
  wp (Cfs_TaskRunnable p m) s (λ _, handled A p (placed t kRunnable kMigrating)).
Proof using Henv Hmy Hrest Hp Hcpu Hnd.
  intros Hs. destruct (Hrest) as [Hv Hi]. pose proof (in_enclave_range env Henv _ Hmy).
  destruct (ai_task _ _ _ _ Hi p t (not_elem_of_nil _) Hp) as [Hw Hok]. pose proof Hw as (Htr & Hc & Haff).
  unfold task_ok in Hok. rewrite Hs in Hok. assert (orq t = kDequeued) as Ho by by destruct (orq t).
  unfold Cfs_TaskRunnable. wpstep. eapply wp_task_at; [done..|]. rewrite Hcpu.
  wpstep. eapply wp_cpu_state; [done|lia|]. intros k (_ & _ & _ & Ek & _). wpstep.
  assert (A_cu A my_cpu ≠ p) as Hne by (eapply not_current; [done|done|by right]).
  rewrite Ek, (proj2 (Z.eqb_neq _ _) Hne), andb_false_r. wpstep; [done|intros _].
  wpstep. eapply wp_SetState; [done..|by rewrite Hs|]. intros s1 ts E1 E2 E3 Hv1.
  set (u := set_task_state ts t) in *.
  eapply wp_mono; [apply (wp_mark_migrating env Henv [] (A_cu A) (A_put p u A) p u)|].
  - done.
  - apply (inv_put_x env _ p _ _ t); [by eapply take_blocked|by left|done|done].
  - set_solver.
  - simpl. by rewrite lookup_insert_eq.
  - done.
  - done.
  - done.
  - simpl. congruence.
  - intros [] s2 Hset. apply (settled_handled env A (A_put p u A)) in Hset; [done|].
    intros q Hq. simpl. by rewrite lookup_insert_ne.
Qed.

(** A field that decides no place. *)
Lemma handled_same u s' :
  view s' (A_put p u A) → gtid u = gtid t → cpu u = cpu t → vruntime u = vruntime t →
  st u = st t → orq u = orq t → task_wf env u →
  rest s' (A_put p u A) ∧ tasks (A_put p u A) !! p = Some u ∧
  ∀ q, q ≠ p → tasks (A_put p u A) !! q = tasks A !! q.
Proof using Hrest Hp.
  intros Hv' H1 H2 H3 H4 H5 H6. destruct (Hrest) as [Hv Hi]. split_and!.
  - split; [done|]. eapply inv_put_same; [done|apply not_elem_of_nil|done..|by left|done|done|done].
  - simpl. by rewrite lookup_insert_eq.
  - intros q Hq. simpl. by rewrite lookup_insert_ne.
Qed.

(** A task off its affinity leaves its run queue; the affinity is the
    kernel's answer. *)
Lemma wp_AffinityChanged :
  gtid t = msg_gtid m →
  wp (Cfs_TaskAffinityChanged env p m) s (λ _, handled A p (λ t', ∃ aff,
    placed (set_cpu_affinity aff t) (st t)
      (if bit aff (cpu t) then orq t else
         if bool_decide (orq t = kQueued) then kMigrating else orq t) t')).
Proof using Henv Hmy Hrest Hp Hcpu Hnd.
  intros Hg. destruct (Hrest) as [Hv Hi]. pose proof (in_enclave_range env Henv _ Hmy).
  destruct (ai_task _ _ _ _ Hi p t (not_elem_of_nil _) Hp) as [Hw Hok]. pose proof Hw as (Htr & Hc & Haff).
  unfold Cfs_TaskAffinityChanged. wpstep. eapply wp_cpu_state_of; [done|done|lia|].
  wpstep. eapply wp_task_at; [done..|]. wpstep. wpstep; [by apply Z.eqb_eq|].
  wpstep. unfold get_affinity. eapply wp_ask; [done|]. intros n s1 Hv1.
  set (aff := default (cpus env) (k_affinity env n (gtid t))).
  assert (aff_wf env aff) as Haff'.
  { subst aff. destruct (k_affinity env n (gtid t)) as [l|] eqn:E; simpl; [by eapply eo_aff|apply Henv]. }
  wpstep. eapply wp_upd_task; [done..|]. set (u := set_cpu_affinity aff t). intros s2 Hv2.
  destruct (handled_same u s2) as (Hr2 & Hu & Hq); [done..|].
  wpstep. eapply wp_task_at; [done..|]. wpstep. wpstep. simpl.
  rewrite Hcpu, u32_small, IsSet_spec by lia. simpl.
  destruct (bit aff my_cpu) eqn:Eb.
  { exists (A_put p u A), u. split_and!; try done. exists aff. rewrite Eb. by split_and!. }
  unfold task_ok in Hok.
  destruct (IsRunnable (task_state t) && negb (OnRqMigrating (task_state t))) eqn:Em; simpl.
  - apply andb_true_iff in Em as [Em1%bool_decide_eq_true Em2%negb_true_iff%bool_decide_eq_false].
    rewrite Em1 in Hok. assert (orq t = kQueued) as Ho by by destruct (orq t).
    eapply wp_mono; [apply (wp_StartMigrate_queued env Henv [] (A_cu A) (A_put p u A) p u); try done|].
    + apply Hr2.
    + set_solver.
    + intros [] s3 Hset. apply (settled_handled env A (A_put p u A)) in Hset; [|done].
      destruct Hset as (A' & t' & H1 & H2 & H3 & H4). exists A', t'. split_and!; try done.
      exists aff. rewrite Eb, Em1, Ho. done.
  - exists (A_put p u A), u. split_and!; try done. exists aff. rewrite Eb. split_and!; try done.
    apply andb_false_iff in Em as [Em%bool_decide_eq_false|Em%negb_false_iff%bool_decide_eq_true].
    + rewrite bool_decide_false; [done|]. intros Ho. rewrite Ho in Hok. by destruct (st t).
    + simpl. by rewrite Em.
Qed.

Lemma wp_PriorityChanged :
  gtid t = msg_gtid m → nice_ok (msg_nice m) →
  wp (Cfs_TaskPriorityChanged p m) s (λ _, handled A p (λ t', ∃ w iw,
    nice_weights (msg_nice m) = Ok (w, iw) ∧ t' = set_nice (msg_nice m) w iw t)).
Proof using Henv Hmy Hrest Hp Hcpu Hnd.
  intros Hg Hn. destruct (Hrest) as [Hv Hi]. pose proof (in_enclave_range env Henv _ Hmy).
  pose proof (rest_wf env _ _ _ _ _ Hi (not_elem_of_nil _) Hp) as Hw.
  unfold Cfs_TaskPriorityChanged. wpstep. eapply wp_cpu_state_of; [done|done|lia|].
  wpstep. eapply wp_task_at; [done..|]. wpstep. wpstep; [by apply Z.eqb_eq|].
  destruct (nice_weights_ok _ Hn) as (w & iw & E & _). wpstep. wpstep. rewrite E. simpl.
  eapply wp_upd_task; [done..|]. set (u := set_nice _ _ _ _). intros s1 Hv1.
  destruct (handled_same u s1) as (Hr1 & Hu & Hq); [done..|].
  exists (A_put p u A), u. split_and!; try done. eauto.
Qed.

Lemma wp_Departed :
  (msg_from_switchto m = true → 0 ≤ msg_cpu m < num_cpus_ (topo env)) →
  wp (Cfs_TaskDeparted env p m) s (λ _ s', if A_cu A my_cpu =? p
    then handled A p (placed t kDone kDequeued) s' else gone A p s').
Proof using Henv Hmy Hrest Hp Hcpu Hnd.
  intros Hm. destruct (Hrest) as [Hv Hi]. pose proof (in_enclave_range env Henv _ Hmy).
  unfold Cfs_TaskDeparted. wpstep. eapply wp_cpu_state_of; [done|done|lia|].
  eapply wp_seq; [by apply (wp_HandleTaskDone env Henv my_cpu Hmy A p t)|]. intros [] s1. rewrite Hcpu.
  intros Hh. wpstep; [intros Hf|intros _; by destruct (A_cu A my_cpu =? p)].
  specialize (Hm Hf). wpstep. unfold PingCpu.
  destruct (A_cu A my_cpu =? p).
  - pose proof Hh as (A' & t' & [H1 H2] & H3). eapply wp_topo_cpu; [done..|].
    wpstep; [|done]. intros _. wpstep. revert Hh. by apply handled_view.
  - destruct Hh as (A' & [H1 H2] & H3). eapply wp_topo_cpu; [done..|].
    destruct H3 as [H3 H4]. wpstep; intros _; [wpstep|]; exists A'; by split_and!.
Qed.

Lemma wp_Dead :
  wp (Cfs_TaskDead p m) s (λ _ s', if A_cu A my_cpu =? p
    then handled A p (placed t kDone kDequeued) s' else gone A p s').
Proof using Henv Hmy Hrest Hp Hcpu Hnd.
  pose proof (in_enclave_range env Henv _ Hmy). destruct (Hrest) as [Hv Hi].
  unfold Cfs_TaskDead. wpstep. eapply wp_cpu_state_of; [done|done|lia|].
  rewrite <- Hcpu.
  eapply wp_mono; [by apply (wp_HandleTaskDone env Henv my_cpu Hmy A p t)|].
  intros [] s1. by destruct (A_cu A (cpu t) =? p).
Qed.
End one.

(** A task that the allocator has just made. *)
Lemma wp_New A p t m s :
  view s A → abs_inv [p] (A_cu A) A → tasks A !! p = Some t →
  st t = kBlocked → orq t = kDequeued → trace_wf (state_trace_ (task_state t)) →
  nice_ok (msg_nice m) →
  wp (Cfs_TaskNew env my_cpu p m) s (λ _, handled A p (λ t',
    gtid t' = gtid t ∧ cpu t' = my_cpu ∧ seqnum t' = msg_seqnum m ∧ nice t' = msg_nice m ∧
    st t' = (if msg_runnable m then kRunnable else kBlocked) ∧
    orq t' = (if msg_runnable m then kMigrating else kDequeued))).
Proof using Henv Hmy.
  intros Hv Hi Hp Hs Ho Htr Hn. pose proof (in_enclave_range env Henv _ Hmy).
  unfold Cfs_TaskNew. wpstep. eapply wp_task_at; [done..|].
  wpstep. unfold get_affinity. eapply wp_ask; [done|]. intros n s1 Hv1.
  set (aff := default (cpus env) (k_affinity env n (gtid t))).
  assert (aff_wf env aff) as Haff'.
  { subst aff. destruct (k_affinity env n (gtid t)) as [l|] eqn:E; simpl; [by eapply eo_aff|apply Henv]. }
  wpstep. eapply wp_upd_task; [done..|].
  set (u1 := set_seqnum _ _). intros s2 Hv2.
  destruct (nice_weights_ok _ Hn) as (w & iw & E & _). wpstep. wpstep. rewrite E. simpl.
  assert (tasks (A_put p u1 A) !! p = Some u1) as Hu1 by (simpl; by rewrite lookup_insert_eq).
  wpstep. eapply wp_upd_task; [done..|]. set (u2 := set_nice _ _ _ _). intros s3 Hv3.
  set (B := A_put p u2 (A_put p u1 A)) in *.
  assert (tasks B !! p = Some u2) as Hu2 by (simpl; by rewrite lookup_insert_eq).
  assert (abs_inv [p] (A_cu A) B) as Hi3.
  { apply (inv_put_x env _ p _ _ u1); [|by left|done|done].
    apply (inv_put_x env _ p _ _ t); [done|by left|done|done]. }
  assert (task_wf env u2) as Hw2 by by split_and!.
  assert (∀ q, q ≠ p → tasks B !! q = tasks A !! q) as Hq.
  { intros q Hq. simpl. by rewrite !lookup_insert_ne. }
  destruct (msg_runnable m).
  - wpstep. eapply wp_cpu_state_of; [done|done|simpl; lia|].
    wpstep. eapply wp_SetState; [done..|by simpl; rewrite Hs|]. intros s4 ts E1 E2 E3 Hv4.
    set (u3 := set_task_state ts u2) in *.
    eapply wp_mono; [apply (wp_mark_migrating env Henv [] (A_cu A) (A_put p u3 B) p u3); try done|].
    + apply (inv_put_x env _ p _ _ u2); [done|by left|done|done].
    + set_solver.
    + simpl. by rewrite lookup_insert_eq.
    + simpl. rewrite E2. done.
    + intros [] s5 Hset. apply (settled_handled env A (A_put p u3 B)) in Hset.
      * destruct Hset as (A' & t' & H1 & H2 & (F1 & F2 & F3) & H4).
        exists A', t'. split_and!; try done; by rewrite F1.
      * intros q Hne. simpl. rewrite lookup_insert_ne by done. by apply Hq.
  - wpstep. exists B, u2. split_and!; try done. split; [done|]. eapply put_blocked; [done|set_solver|done..].
Qed.

Lemma wp_CpuTick A m s :
  rest s A → 0 ≤ msg_cpu m < num_cpus_ (topo env) →
  wp (Cfs_CpuTick env m) s (λ _ s', rest s' A).
Proof using Henv.
  intros [Hv Hi] Hm. pose proof (to_num _ (eo_topo _ Henv)).
  unfold Cfs_CpuTick. wpstep. eapply wp_topo_cpu; [done..|]. wpstep. eapply wp_cpu_state; [done|lia|].
  intros _ _. unfold CheckPreemptTick. wpstep. eapply wp_cpu_state; [done|lia|].
  intros k (_ & _ & _ & -> & _). wpstep; [|by split]. intros Hne%negb_true_iff. zbool.
  destruct (ai_cur _ _ _ _ Hi _ Hne) as (_ & t & Ht & _). wpstep. eapply wp_task_at; [done..|].
  wpstep. eapply wp_ask; [done|]. intros n s1 Hv1. wpstep; [|by split]. intros _.
  eapply wp_set_preempt; [done|lia|]. by split.
Qed.
End messages.

(** ** What each message does to its task *)

Notation st t := (state_ (task_state t)).
Notation orq t := (on_rq_ (task_state t)).

Definition is_death (ty : Z) : bool := (ty =? MSG_TASK_DEAD) || (ty =? MSG_TASK_DEPARTED).

(** The place of the task [t] after a message of type [ty]; [t'] is the task
    after it, whose affinity is the kernel's answer. *)
Definition next_place (t t' : CfsTask) (ty : Z) : State * OnRq :=
  if ty =? MSG_TASK_WAKEUP then (kRunnable, kMigrating)
  else if (ty =? MSG_TASK_BLOCKED) || (ty =? MSG_TASK_SWITCHTO) then (kBlocked, kDequeued)
  else if (ty =? MSG_TASK_YIELD) || (ty =? MSG_TASK_PREEMPT) then (kRunnable, put_back t)
  else if is_death ty then (kDone, kDequeued)
  else if (ty =? MSG_TASK_AFFINITY_CHANGED) && negb (bit (cpu_affinity t') (cpu t))
          && bool_decide (orq t = kQueued) then (st t, kMigrating)
  else (st t, orq t).

Section dispatch.
Context (env : CfsEnv) (Henv : env_ok env).
Context (my_cpu : Z) (Hmy : in_enclave env my_cpu).

Notation rest := (rest env).
Notation handled := (handled env).
Notation gone := (gone env).
Notation cfs_inv := (cfs_inv env).
Notation msg_ok := (msg_ok env my_cpu).
Notation task_msg_ok := (task_msg_ok env my_cpu).
Notation DispatchMessage := (@DispatchMessage Cfs CfsTask _ _ (Cfs_ops env my_cpu)).
Notation find_task := (@find_task Cfs CfsTask _ _ (Cfs_ops env my_cpu)).
Notation dispatch_task := (@dispatch_task Cfs CfsTask _ _ (Cfs_ops env my_cpu)).

(** The task after a message that does not free it. *)
Definition stepped (t : CfsTask) (ty sq : Z) (t' : CfsTask) : Prop :=
  gtid t' = gtid t ∧ cpu t' = cpu t ∧ seqnum t' = sq ∧ (st t', orq t') = next_place t t' ty.

(** The effect of a message [m] about the task [p] of [A]. *)
Definition msg_effect (A : Abs) (p : Z) (t : CfsTask) (m : Message) (s' : Cfs) : Prop :=
  let ty := msg_type m in
  if is_death ty && negb (A_cu A my_cpu =? p) then gone A p s'
  else handled A p (stepped t ty (if is_death ty then seqnum t else msg_seqnum m)) s'.

Lemma handled_weaken A p (P P' : CfsTask → Prop) s :
  (∀ t, P t → P' t) → handled A p P s → handled A p P' s.
Proof. intros H (A' & t' & H1 & H2 & H3 & H4). exists A', t'. eauto. Qed.

Lemma placed_stepped t S O ty t' :
  placed t S O t' → next_place t t' ty = (S, O) → stepped t ty (seqnum t) t'.
Proof. intros (E & Hs & Ho) Hn. unfold stepped. rewrite Hn. split_and!; [by rewrite E..|by rewrite Hs, Ho]. Qed.

Lemma wp_Advance A p t ty sq s :
  handled A p (stepped t ty (seqnum t)) s → seqnum t < sq →
  wp (Advance p sq) s (λ _, handled A p (stepped t ty sq)).
Proof.
  intros (A' & t' & [Hv Hi] & Hp & (H1 & H2 & H3 & H4) & Hq) Hsq.
  unfold Advance. wpstep. eapply wp_task_at; [done..|]. wpstep.
  wpstep; [apply Z.ltb_lt; simpl; lia|].
  eapply wp_upd_task; [done..|]. intros s' Hv'.
  destruct (ai_task _ _ _ _ Hi p t' (not_elem_of_nil _) Hp) as [Hw _].
  eexists _, (set_seqnum sq t'). split_and!.
  - split; [exact Hv'|]. eapply inv_put_same; [done|apply not_elem_of_nil|done..|by left|done|done|done].
  - simpl. by rewrite lookup_insert_eq.
  - by split_and!.
  - intros q Hne. simpl. rewrite lookup_insert_ne by done. auto.
Qed.

(** A handler followed by its [update_seqnum]. *)
Lemma wp_then_advance A p t m (h : M Cfs unit) s (P : CfsTask → Prop) :
  is_death (msg_type m) = false → seqnum t < msg_seqnum m →
  (∀ t', P t' → stepped t (msg_type m) (seqnum t) t') →
  wp h s (λ _, handled A p P) →
  wp ((h ≫= λ _, mret true) ≫= λ u : bool, whenM u (Advance p (msg_seqnum m))) s
    (λ _, msg_effect A p t m).
Proof.
  intros Hd Hsq HP Hh. unfold msg_effect. rewrite Hd. simpl.
  wpstep. eapply wp_seq; [exact Hh|]. intros [] s1 H1. wpstep. wpstep; [intros _|done].
  apply wp_Advance; [|done]. by eapply handled_weaken.
Qed.

Lemma wp_then_die A p t m (h : M Cfs unit) s :
  is_death (msg_type m) = true →
  wp h s (λ _ s', if A_cu A my_cpu =? p then handled A p (placed t kDone kDequeued) s' else gone A p s') →
  wp ((h ≫= λ _, mret false) ≫= λ u : bool, whenM u (Advance p (msg_seqnum m))) s
    (λ _, msg_effect A p t m).
Proof.
  intros Hd Hh. unfold msg_effect. rewrite Hd. simpl.
  wpstep. eapply wp_seq; [exact Hh|]. intros [] s1 H1. wpstep. wpstep; [done|intros _].
  destruct (A_cu A my_cpu =? p); simpl in *; [|done]. eapply handled_weaken; [|done].
  intros t' Ht'. eapply placed_stepped; [done|]. unfold next_place. rewrite Hd.
  unfold is_death in Hd. apply orb_true_iff in Hd. destruct Hd as [E|E]; apply Z.eqb_eq in E; by rewrite E.
Qed.

(** A handler that only moves the task. *)
Ltac by_handler E lem :=
  eapply wp_then_advance; [by rewrite E|done| |by apply lem; auto];
  intros ? ?; eapply placed_stepped; [done|by rewrite E].

Lemma wp_dispatch_known A p t m s :
  rest s A → tasks A !! p = Some t → gtid t = msg_gtid m →
  MSG_TASK_DEAD ≤ msg_type m ≤ MSG_TASK_PRIORITY_CHANGED → msg_type m ≠ MSG_TASK_NEW →
  task_msg_ok (A_cu A my_cpu) p t m →
  wp (dispatch_task p m ≫= λ u : bool, whenM u (Advance p (msg_seqnum m))) s
    (λ _, msg_effect A p t m).
Proof using Henv Hmy.
  intros Hr Hp Hg Hty Hnew (Hc & Hd & Hsq & Hwake & Hleave & Hsw & Hdep & Hprio).
  unfold dispatch_task. cbv zeta.
  destruct (Z.eqb_spec (msg_type m) MSG_TASK_NEW) as [|_]; [done|].
  destruct (Z.eqb_spec (msg_type m) MSG_TASK_PREEMPT) as [E|N1].
  { by_handler E (wp_Preempted env Henv). }
  destruct (Z.eqb_spec (msg_type m) MSG_TASK_DEAD) as [E|N2].
  { eapply wp_then_die; [by rewrite E|]. by apply (wp_Dead env Henv my_cpu Hmy). }
  destruct (Z.eqb_spec (msg_type m) MSG_TASK_WAKEUP) as [E|N3].
  { by_handler E (wp_Runnable env Henv my_cpu). }
  destruct (Z.eqb_spec (msg_type m) MSG_TASK_BLOCKED) as [E|N4].
  { by_handler E (wp_Blocked env Henv). }
  destruct (Z.eqb_spec (msg_type m) MSG_TASK_YIELD) as [E|N5].
  { by_handler E (wp_Yield env Henv). }
  destruct (Z.eqb_spec (msg_type m) MSG_TASK_DEPARTED) as [E|N6].
  { eapply wp_then_die; [by rewrite E|]. by apply (wp_Departed env Henv my_cpu Hmy); auto. }
  destruct (Z.eqb_spec (msg_type m) MSG_TASK_SWITCHTO) as [E|N7].
  { by_handler E (wp_Switchto env Henv my_cpu). }
  destruct (Z.eqb_spec (msg_type m) MSG_TASK_AFFINITY_CHANGED) as [E|N8].
  { eapply wp_then_advance; [by rewrite E|done| |by apply (wp_AffinityChanged env Henv my_cpu); auto].
    intros t' (aff & E' & Hs & Ho). split_and!; [by rewrite E'..|]. rewrite Hs, Ho, E.
    unfold next_place. simpl. rewrite E'. simpl.
    destruct (bit aff (cpu t)); simpl; [done|]. by case_bool_decide. }
  destruct (Z.eqb_spec (msg_type m) MSG_TASK_PRIORITY_CHANGED) as [E|N9].
  { eapply wp_then_advance; [by rewrite E|done| |by apply (wp_PriorityChanged env Henv my_cpu); auto].
    intros t' (w & iw & _ & ->). split_and!; [done..|]. by rewrite E. }
  destruct (Z.eqb_spec (msg_type m) MSG_TASK_ON_CPU) as [E|N10].
  { eapply (wp_then_advance _ _ _ _ _ _ (λ t', t' = t)); [by rewrite E|done| |].
    - intros t' ->. split_and!; [done..|]. by rewrite E.
    - apply wp_ret. exists A, t. by split_and!. }
  exfalso. unfold MSG_TASK_NEW, MSG_TASK_PREEMPT, MSG_TASK_DEAD, MSG_TASK_WAKEUP, MSG_TASK_BLOCKED,
    MSG_TASK_YIELD, MSG_TASK_DEPARTED, MSG_TASK_SWITCHTO, MSG_TASK_AFFINITY_CHANGED,
    MSG_TASK_PRIORITY_CHANGED, MSG_TASK_ON_CPU, _MSG_TASK_FIRST in *. lia.
Qed.

(** ** The whole dispatcher *)

Lemma effect_inv A p t m s : msg_effect A p t m s → cfs_inv s.
Proof.
  unfold msg_effect. destruct (is_death (msg_type m) && negb (A_cu A my_cpu =? p)).
  - intros (A' & [H1 H2] & _). by exists A'.
  - intros (A' & t' & [H1 H2] & _). by exists A'.
Qed.

(** The route of a message about a task. *)
Definition task_route (m : Message) : M Cfs unit :=
  find_task m ≫= λ found,
  match found with
  | None => mret tt
  | Some p => dispatch_task p m ≫= λ update_seqnum, whenM update_seqnum (Advance p (msg_seqnum m))
  end.

Lemma wp_route m s Q :
  MSG_TASK_DEAD ≤ msg_type m ≤ MSG_TASK_PRIORITY_CHANGED → msg_gtid m ≠ 0 →
  wp (task_route m) s Q → wp (DispatchMessage m) s Q.
Proof.
  unfold MSG_TASK_DEAD, MSG_TASK_PRIORITY_CHANGED, _MSG_TASK_FIRST. intros Hty Hg HQ.
  unfold Dispatch.DispatchMessage, is_cpu_msg, is_task_msg, MSG_NOP, _MSG_CPU_FIRST, _MSG_CPU_LAST,
    _MSG_TASK_FIRST, _MSG_TASK_LAST, _MSG_CPU_FIRST, _MSG_TASK_FIRST.
  rewrite (proj2 (Z.eqb_neq (msg_type m) 0)), (proj2 (Z.leb_gt 128 (msg_type m))) by lia.
  rewrite (proj2 (Z.leb_le 64 (msg_type m))), (proj2 (Z.leb_le (msg_type m) (64 + 64 - 1))) by lia.
  rewrite (proj2 (Z.eqb_neq (msg_gtid m) 0)) by done. exact HQ.
Qed.

(** Any other message leaves the lookup to the map. *)
Lemma wp_find_other m s (Q : option Z → Cfs → Prop) :
  msg_type m ≠ MSG_TASK_NEW → Q (task_map_ (allocator_ s) !! msg_gtid m) s → wp (find_task m) s Q.
Proof. intros Hn HQ. unfold Dispatch.find_task. by rewrite (proj2 (Z.eqb_neq _ _) Hn). Qed.

(** A TASK_NEW of a known task is dropped, one of another allocates it. *)
Lemma wp_find_new A m s (Q : option Z → Cfs → Prop) :
  rest s A → msg_type m = MSG_TASK_NEW →
  (is_Some (task_map_ (A_alloc A) !! msg_gtid m) → ∀ s', rest s' A → Q None s') →
  (task_map_ (A_alloc A) !! msg_gtid m = None → ∀ s' p B, view env s' B → abs_inv env [p] (A_cu B) B →
     A_cu B = A_cu A → tasks A !! p = None → tasks B = <[p := CfsTask_new (msg_gtid m)]> (tasks A) →
     Q (Some p) s') →
  wp (find_task m) s Q.
Proof using Henv.
  intros [Hv Hi] Hty H1 H2. unfold Dispatch.find_task. rewrite Hty. simpl. wpstep. wpstep.
  pose proof Hv as [Ha Hcs]. rewrite Ha. set (addr := malloc_ env (A_alloc A)).
  unfold GetTask_new, GetTask. destruct (task_map_ (A_alloc A) !! msg_gtid m) as [p|] eqn:E.
  - wpstep. wpstep. wpstep. apply H1; [by eexists|]. by split.
  - pose proof (ai_alloc _ _ _ _ Hi) as Hal.
    destruct (eo_malloc _ Henv (A_alloc A) (proj1 Hal)) as [Hne Hfresh].
    wpstep. wpstep. wpstep. apply (H2 eq_refl _ addr (A_set_alloc (mkAllocator (<[msg_gtid m := addr]> (task_map_ (A_alloc A)))
                                     (<[addr := new_task (msg_gtid m)]> (tasks A))) A)).
    + split; [done|exact Hcs].
    + by apply (alloc_new_inv env [] (A_cu A) A addr (msg_gtid m)).
    + done.
    + done.
    + done.
Qed.

(** The messages about a CPU; only the tick does anything. *)
Lemma wp_cpu_msg A m s :
  rest s A → MSG_CPU_TICK ≤ msg_type m ≤ MSG_CPU_AGENT_WAKEUP → 0 ≤ msg_cpu m < num_cpus_ (topo env) →
  wp (DispatchMessage m) s (λ _, cfs_inv).
Proof using Henv.
  unfold MSG_CPU_TICK, MSG_CPU_AGENT_WAKEUP, _MSG_CPU_FIRST. intros [Hv Hi] Hty Hc.
  unfold Dispatch.DispatchMessage, is_cpu_msg, MSG_NOP, _MSG_CPU_FIRST, _MSG_CPU_LAST, _MSG_CPU_FIRST.
  rewrite (proj2 (Z.eqb_neq (msg_type m) 0)), (proj2 (Z.leb_le 128 (msg_type m))) by lia.
  rewrite (proj2 (Z.leb_le (msg_type m) (128 + 64 - 1))) by lia. simpl.
  assert (cfs_inv s) as Hs by by exists A.
  unfold dispatch_cpu, MSG_CPU_TICK, _MSG_CPU_FIRST, MSG_CPU_NOT_IDLE, MSG_CPU_TIMER_EXPIRED,
    MSG_CPU_AVAILABLE, MSG_CPU_BUSY, MSG_CPU_AGENT_BLOCKED, MSG_CPU_AGENT_WAKEUP.
  destruct (Z.eqb_spec (msg_type m) 128).
  - eapply wp_mono; [by apply (wp_CpuTick env Henv A)|]. intros [] s' [H1 H2]. by exists A.
  - repeat (zcase; [by apply wp_ret|]). lia.
Qed.

Lemma dispatch_rest s m : cfs_inv s → msg_ok s m → wp (DispatchMessage m) s (λ _, cfs_inv).
Proof using Henv Hmy.
  intros (A & Hv & Hi) Hm. assert (rest s A) as Hr by by split.
  destruct Hm as [E|[[Hty Hcpu]|(Hty & Hg & Hm)]].
  - unfold Dispatch.DispatchMessage. rewrite E. apply wp_ret. by exists A.
  - apply (wp_cpu_msg A); done.
  - apply wp_route; [done..|]. unfold task_route. pose proof Hv as [Ha Hcs]. rewrite Ha in Hm.
    assert (current (cpu_states_ s my_cpu) = A_cu A my_cpu) as Hcur by apply Hcs.
    destruct (Z.eq_dec (msg_type m) MSG_TASK_NEW) as [Hnew|Hnew]; wpstep.
    + eapply wp_find_new; [done|done| |].
      * intros _ s' [H1 H2]. wpstep. by exists A.
      * intros En s' p B Hv' Hi' Hcu Hfresh HB. rewrite En in Hm.
        assert (tasks B !! p = Some (CfsTask_new (msg_gtid m))) as Hp by by rewrite HB, lookup_insert_eq.
        unfold Dispatch.dispatch_task. rewrite Hnew. simpl. wpstep.
        eapply wp_seq; [apply (wp_New env Henv my_cpu Hmy B p _ m s' Hv' Hi' Hp); try done; [apply trace_new_wf|auto]|].
        intros [] s2 (A' & t' & [H1 H2] & _). wpstep. wpstep; [done|]. intros _. by exists A'.
    + apply wp_find_other; [done|]. rewrite Ha.
      destruct (task_map_ (A_alloc A) !! msg_gtid m) as [p|] eqn:E; [|wpstep; by exists A].
      destruct (ai_alloc _ _ _ _ Hi) as [_ Hal]. apply Hal in E as (t & Ht & Hgt).
      eapply wp_mono; [apply (wp_dispatch_known A p t m s); try done|].
      * rewrite <- Hcur. by apply Hm.
      * intros [] s'. apply effect_inv.
Qed.
End dispatch.
