(* ===== verification/CfsPick.v ===== *)
(** * CfsPick: the CPU that [SelectTaskRq] chooses

    The search looks at the agent's CPU, the task's CPU, its L3 siblings and
    then the enclave, stopping at an eligible CPU with an empty queue;
    otherwise it ends at an eligible CPU with the shortest queue.

    Serving the migration requests.

    A request either stays, when the kernel refuses the association, or its
    task ends on the run queue of a CPU that [SelectTaskRq] chose.

    Picking the next task.

    [PickNextTask] keeps a running task that need not be preempted; otherwise
    it puts the previous task back and takes the task with the least vruntime.
    A previous task that died is freed, after which the read of the CPU's
    current task, still that one, is a use after free. *)

From S2P Require Import Prelude Outcome CpuMap CpuMapSpec Topology TopologySpec Dispatch CfsRq CfsSched CfsBasics CfsInv CfsOps.
From S2P Require Import CfsHandlers.
From stdpp Require Import gmap functions sorting.
From Stdlib Require Import ZArith Lia.

Local Open Scope Z_scope.

(** The length of a run queue. *)
Definition load (A : Abs) (c : Z) : Z := Z.of_nat (length (A_rq A c)).

Section select.
Context (env : CfsEnv) (Henv : env_ok env).
Context (my_cpu : Z) (Hmy : in_enclave env my_cpu).

(** The CPUs a task may run on. *)
Definition eligible (t : CfsTask) (c : Z) : Prop :=
  bit (cpu_affinity t) c = true ∧ bit (cpus env) c = true.

(** What the choice of [c] for the task [t] promises; a queue longer than a
    64-bit count is never chosen. *)
Definition selected (A : Abs) (t : CfsTask) (c : Z) : Prop :=
  (c = my_cpu ∨ 0 ≤ c ∧ eligible t c) ∧
  ∀ d, 0 ≤ d → eligible t d → load A d ≤ UINT64_MAX → eligible t c ∧ load A c ≤ load A d.

Section search.
Context (A : Abs) (p : Z) (t : CfsTask) (s : Cfs).
Context (Hv : view env s A) (Hp : tasks A !! p = Some t) (Hw : task_wf env t).

Let el := CpuList_Intersection (cpu_affinity t) (cpus env).

Lemma el_bit c : 0 ≤ c → bit el c = true ↔ eligible t c.
Proof using Henv Hw.
  intros Hc. destruct Hw as (_ & _ & Ha & Hn). destruct (eo_cpus _ Henv) as [Hc1 Hc2].
  unfold el. rewrite (proj2 (Intersection_spec (cpu_affinity t) (cpus env) Hc1 Ha ltac:(congruence))) by done.
  rewrite andb_true_iff. unfold eligible. tauto.
Qed.

(** The state of the search after the CPUs of [D]. *)
Definition best (D : list Z) (sm : Z * Z) : Prop :=
  (∀ d, d ∈ D → eligible t d → sm.1 ≤ load A d) ∧
  (sm = (UINT64_MAX, my_cpu) ∨ 0 ≤ sm.2 ∧ eligible t sm.2 ∧ sm.1 = load A sm.2) ∧
  (∀ d, d ∈ D → eligible t d → load A d ≤ UINT64_MAX → eligible t sm.2 ∧ sm.1 = load A sm.2).

Definition found (D : list Z) (r : Z + Z * Z) : Prop :=
  match r with
  | inl c => 0 ≤ c ∧ eligible t c ∧ load A c = 0
  | inr sm => best D sm
  end.

Lemma found_sub D D' r : (∀ d, d ∈ D → d ∈ D') → found D' r → found D r.
Proof. intros HD. destruct r as [c|sm]; [done|]. intros (H1 & H2 & H3). split_and!; [auto|done|]. intros d Hd. apply H3. auto. Qed.

Lemma wp_try_cpu D sm c :
  best D sm → 0 ≤ c < 512 →
  wp (try_cpu el sm c) s (λ r s', s' = s ∧ found (c :: D) r).
Proof using Hv Hw Henv.
  intros (B1 & B2 & B3) Hc. unfold try_cpu. wpstep. eapply wp_cpu_state; [done..|].
  intros k (Ek & _). wpstep. wpstep. unfold update_min. rewrite IsSet_spec by done. simpl.
  unfold CfsRq_Size. rewrite Ek. fold (load A c).
  destruct (bit el c) eqn:Eb; simpl.
  - apply el_bit in Eb; [|lia].
    destruct (Z.eqb_spec (load A c) 0) as [E0|Hne]; simpl; apply wp_ret; (split; [done|]); simpl.
    + split_and!; [lia|done|done].
    + destruct (Z.leb_spec (load A c) sm.1) as [Hle|Hgt]; split_and!; simpl.
      * intros d [->|Hd]%elem_of_cons He; [lia|]. specialize (B1 d Hd He). lia.
      * right. split_and!; [lia|done|done].
      * intros d _ _ _. by split.
      * intros d [->|Hd]%elem_of_cons He; [lia|]. auto.
      * done.
      * intros d [->|Hd]%elem_of_cons He Hl; [|eauto].
        destruct B2 as [->|(? & ? & ?)]; [simpl in *; lia|done].
  - apply wp_ret. split; [done|]. simpl.
    assert (¬ eligible t c) as Hn by (intros H%el_bit; [congruence|lia]).
    split_and!; [|done|].
    + intros d [->|Hd]%elem_of_cons He; [done|auto].
    + intros d [->|Hd]%elem_of_cons He Hl; [done|eauto].
Qed.

Lemma wp_or_else D D' r (k : Z * Z → M Cfs (Z + Z * Z)) :
  found D r → (∀ sm, best D sm → wp (k sm) s (λ r s', s' = s ∧ found D' r)) →
  wp (or_else r k) s (λ r s', s' = s ∧ found D' r).
Proof. intros Hf Hk. destruct r as [c|sm]; simpl; [by apply wp_ret|by apply Hk]. Qed.

Lemma wp_try_cpus b l D sm :
  best D sm → (∀ c, c ∈ l → 0 ≤ c < 512) →
  wp (try_cpus env el b l sm) s (λ r s', s' = s ∧ found (if b then D else rev l ++ D) r).
Proof using Hv Hw Henv.
  revert D sm. induction l as [|c l IH]; intros D sm HB Hl; simpl.
  { apply wp_ret. split; [done|]. by destruct b. }
  assert (0 ≤ c < 512) as Hc by (apply Hl; by left).
  assert (∀ c, c ∈ l → 0 ≤ c < 512) as Hl' by (intros; apply Hl; by right).
  assert (wp (try_cpu el sm c ≫= λ r : Z + Z * Z, match r with
      | inl c0 => mret (inl c0) | inr sm0 => try_cpus env el b l sm0 end) s
    (λ r s', s' = s ∧ found (if b then D else (rev l ++ [c]) ++ D) r)) as Hgo.
  { eapply wp_seq; [by eapply wp_try_cpu|]. intros [c'|sm'] s' [-> Hf]; [by apply wp_ret|].
    eapply wp_mono; [by apply (IH (c :: D))|]. intros r s' [-> Hr]. split; [done|].
    destruct b; [|by rewrite <- app_assoc]. revert Hr. apply found_sub. intros. by right. }
  destruct b; [|by wpstep; apply wp_ret].
  wpstep. wpstep. rewrite IsSet_spec by done. simpl. destruct (bit (cpus env) c); simpl; [done|].
  by apply (IH D).
Qed.

(** [SelectTaskRq] changes nothing and keeps its promise. *)
Lemma wp_SelectTaskRq :
  wp (SelectTaskRq env my_cpu p) s (λ c s', s' = s ∧ selected A t c).
Proof using Hv Hp Hw Henv Hmy.
  pose proof (in_enclave_range env Henv _ Hmy) as Hrm. pose proof (task_range env Henv _ Hw) as Hr.
  pose proof Hw as (_ & Hcpu & _). pose proof (in_enclave_range env Henv _ Hcpu) as Hrc.
  unfold SelectTaskRq. wpstep. eapply wp_topo_cpu; [done|lia|].
  wpstep. eapply wp_task_at; [done..|]. cbv zeta. fold el.
  assert (best [] (UINT64_MAX, my_cpu)) as B0.
  { split_and!; [by intros ? ?%elem_of_nil|by left|by intros ? ?%elem_of_nil]. }
  eapply wp_seq; [by apply (wp_try_cpu []); [|lia]|]. intros r1 ? [-> F1].
  eapply (wp_seq _ _ _ (λ r s', s' = s ∧ found [] r)).
  { eapply wp_or_else; [exact F1|]. intros sm B1. rewrite (proj2 (Z.leb_le 0 (cpu t))) by lia.
    wpstep. eapply wp_topo_cpu; [done|lia|].
    eapply wp_seq; [by apply (wp_try_cpu [my_cpu])|]. intros r2 ? [-> F2].
    eapply wp_or_else; [exact F2|]. intros sm' B2.
    destruct (rep_exists (topo env) (eo_topo _ Henv) (cpu t)) as (rep & Hrep & E); [lia|].
    wpstep. wpstep. rewrite E. cbn [mbind outcome_bind].
    destruct (to_lists _ (eo_topo _ Henv) _ _ rep_l3_siblings Hrep) as [Hl3 Hn3]; [right; by left|].
    rewrite iterate_spec by done. cbn [wpo].
    eapply wp_mono; [eapply (wp_try_cpus true); [exact B2|]|].
    - intros c Hc%elems_lt; [|done]. pose proof (to_num _ (eo_topo _ Henv)). lia.
    - intros r s' [-> F]. split; [done|]. revert F. apply found_sub. by intros ? ?%elem_of_nil. }
  intros r2 ? [-> F2]. destruct (eo_cpus _ Henv) as [Hcw Hcn]. pose proof (to_num _ (eo_topo _ Henv)).
  eapply (wp_seq _ _ _ (λ r s', s' = s ∧ found (rev (elems (cpus env)) ++ []) r)).
  { eapply wp_or_else; [exact F2|]. intros sm B2. wpstep. wpstep. rewrite iterate_spec by done. cbn [wpo].
    apply (wp_try_cpus false _ []); [done|]. intros c Hc%elems_lt; [|done]. lia. }
  rewrite app_nil_r. intros r3 ? [-> F3]. apply wp_ret. split; [done|].
  destruct r3 as [c|sm]; simpl in *.
  - destruct F3 as (H0 & H1 & H2). split; [by right|]. intros d _ _ _. split; [done|].
    rewrite H2. unfold load. lia.
  - destruct F3 as (H1 & H2 & H3). split; [destruct H2 as [->|(? & ? & ?)]; [by left|by right]|].
    intros d Hd He Hl. assert (d ∈ rev (elems (cpus env))) as Hin.
    { rewrite list_elem_of_In, <- in_rev, <- list_elem_of_In. apply elem_of_elems; [done|]. by destruct He. }
    destruct (H3 d Hin He Hl) as [? <-]. split; [done|]. auto.
Qed.
End search.
End select.

(** ** Serving the migration requests *)

Section migrate.
Context (env : CfsEnv) (Henv : env_ok env).
Context (my_cpu : Z) (Hmy : in_enclave env my_cpu).

Notation view := (view env).
Notation rest := (rest env).
Notation selected := (selected env my_cpu).
Notation st t := (state_ (task_state t)).
Notation orq t := (on_rq_ (task_state t)).

(** The task [p] has been put on the run queue of [c], but its request is
    still in the migration queue of [c0]. *)
Definition migrated (A : Abs) (p : Z) (t : CfsTask) (c : Z) (s : Cfs) : Prop :=
  ∃ B t', view s B ∧ A_cu B = A_cu A ∧ A_mq B = A_mq A ∧
    abs_inv env [] (A_cu A) (A_set_mq (cpu t) (delete (gtid t) (A_mq A (cpu t))) B) ∧
    tasks B !! p = Some t' ∧ gtid t' = gtid t ∧ seqnum t' = seqnum t ∧ cpu t' = c ∧ p ∈ A_rq B c ∧
    (∀ q, q ≠ p → tasks B !! q = tasks A !! q).

Section one.
Context (A : Abs) (p : Z) (t : CfsTask).
Context (Hi : abs_inv env [] (A_cu A) A) (Hp : tasks A !! p = Some t) (Ho : orq t = kMigrating).

Lemma migrating_runnable :
  task_wf env t ∧ st t = kRunnable ∧ A_mq A (cpu t) !! gtid t = Some (mkMigrationArg p (-1)).
Proof using Hi Hp Ho.
  destruct (ai_task _ _ _ _ Hi p t (not_elem_of_nil _) Hp) as [Hw Hok]. unfold task_ok in Hok.
  rewrite Ho in Hok. by destruct (st t).
Qed.

(** The end of [Migrate]: enqueue the task [u], which may have a new CPU. *)
Lemma wp_enqueue_migrating u s1 A1 :
  (A1 = A ∧ u = t ∨ A1 = A_put p u A) → view s1 A1 →
  gtid u = gtid t → task_wf env u → task_state u = task_state t → seqnum u = seqnum t →
  wp (EnqueueTask (cpu u) p) s1 (λ _, migrated A p t (cpu u)).
Proof using Henv Hmy Hi Hp Ho.
  intros HA1 Hv Hg Hw Hst Hsq. destruct migrating_runnable as (Hwt & Hs & Hmq).
  pose proof (task_range env Henv _ Hw) as Hr. pose proof Hw as (Htr & Hcpu & Haff).
  assert (tasks A1 !! p = Some u) as Hu.
  { destruct HA1 as [[-> ->]| ->]; [done|]. simpl. by rewrite lookup_insert_eq. }
  set (A2 := A_set_mq (cpu t) (delete (gtid t) (A_mq A (cpu t))) A1).
  assert (abs_inv env [p] (A_cu A) A2) as Hi2.
  { assert (abs_inv env [p] (A_cu A) (A_set_mq (cpu t) (delete (gtid t) (A_mq A (cpu t))) A)) as H
      by (apply take_migrating; [done|set_solver|done|done]).
    subst A2. destruct HA1 as [[-> ->]| ->]; [done|].
    apply (inv_put_x env [p] p (A_cu A) (A_set_mq (cpu t) (delete (gtid t) (A_mq A (cpu t))) A) t u);
      [exact H|by left|done|done]. }
  assert (A_cu A1 = A_cu A ∧ A_mq A1 = A_mq A ∧ ∀ q, q ≠ p → tasks A1 !! q = tasks A !! q) as (Ecu & Emq & Eq).
  { destruct HA1 as [[-> ->]| ->]; [done|]. split_and!; [done|done|].
    intros q Hq. simpl. by rewrite lookup_insert_ne. }
  eapply (wp_Enqueue env A1 (cpu u) p u); try done.
  - exact (abs_rq_ok env _ _ _ _ Hi2).
  - exact (exempt_rq env _ _ _ _ _ Hi2 ltac:(by left)).
  - by rewrite Hst, Ho.
  - lia.
  - intros s2 ts v l E1 E2 E3 Hl Hok Hv2. set (w := set_task_state ts (set_vruntime v u)) in *.
    exists (A_set_rq (cpu u) l (A_put p w (A_put p (set_vruntime v u) A1))), w.
    split_and!; try done.
    + apply (put_queued_view env [] (A_cu A) (A_put p (set_vruntime v u) A2) p (set_vruntime v u) w l); try done.
      * apply (inv_put_x env [p] p _ _ u); [exact Hi2|by left|done|done].
      * set_solver.
      * simpl. by rewrite lookup_insert_eq.
      * simpl. rewrite E1, Hst. done.
      * simpl. by rewrite insert_insert_eq.
    + simpl. by rewrite lookup_insert_eq.
    + simpl. rewrite fn_lookup_insert, Hl. by left.
    + intros q Hq. simpl. rewrite !lookup_insert_ne by done. auto.
Qed.

Lemma wp_Migrate c sq s :
  view s A → in_enclave env c →
  wp (Migrate env p c sq) s (λ b s', if b then migrated A p t c s' else view s' A).
Proof using Henv Hmy Hi Hp Ho.
  intros Hv Hc. destruct migrating_runnable as (Hw & Hs & Hmq).
  pose proof (in_enclave_range env Henv _ Hc) as Hr.
  assert (IsRunnable (task_state t) = true) as Hrun by by apply bool_decide_true.
  unfold Migrate. wpstep. eapply wp_cpu_state; [done|lia|]. intros k Hk.
  wpstep. eapply wp_task_at; [done..|]. destruct (Z.eqb_spec (cpu t) c) as [<-|Hne].
  - rewrite Hrun. simpl. wpstep. eapply wp_mono; [eapply (wp_enqueue_migrating t s A); auto|].
    intros [] s1 H1. by apply wp_ret.
  - destruct Hk as (_ & _ & _ & _ & Hk). destruct (Hk Hc) as [-> _]. wpstep.
    eapply wp_AssociateTask; [done|]. intros b s1 Hv1. destruct b; simpl; [|by apply wp_ret].
    wpstep. eapply wp_upd_task; [done..|]. intros s2 Hv2. rewrite Hrun. simpl. wpstep.
    eapply wp_mono; [eapply (wp_enqueue_migrating (set_cpu c t) s2); try done; [by right|]|].
    { destruct Hw as (? & ? & ?). by split_and!. }
    intros [] s3 (B & t' & H1 & H2). wpstep. eapply wp_PingCpu; [done|]. intros s4 Hv4.
    apply wp_ret. by exists B, t'.
Qed.

(** One visit of [DequeueTaskIf]. *)
Lemma wp_try_migrate s :
  view s A →
  wp (try_migrate env my_cpu (mkMigrationArg p (-1))) s
    (λ b s', if b then ∃ c, selected A t c ∧ migrated A p t c s' else view s' A).
Proof using Henv Hmy Hi Hp Ho.
  intros Hv. destruct migrating_runnable as (Hw & Hs & Hmq). unfold try_migrate. simpl.
  wpstep. wpstep; [apply negb_true_iff, Z.eqb_neq; by eapply live_nonzero|].
  wpstep. eapply wp_task_at; [done..|]. wpstep. wpstep; [by apply bool_decide_true|].
  eapply wp_seq; [by apply (wp_SelectTaskRq env Henv my_cpu Hmy A p t s)|]. intros c ? [-> Hsel].
  wpstep. eapply wp_task_at; [done..|]. eapply wp_mono; [apply (wp_Migrate c); [done|]|].
  - destruct Hsel as [[->|(? & ? & ?)] _]; [done|by split].
  - intros b s1 H1. destruct b; [eauto|done].
Qed.
End one.

(** ** The whole queue *)

Definition served (snap : CfsMq) (c : Z) (l : list Z) (s : Cfs) : Prop :=
  NoDup l ∧ ∃ A, rest s A ∧ ∀ g, g ∈ l → A_mq A c !! g = snap !! g.

Lemma wp_MigrateTasks c s :
  0 ≤ c < 512 → cfs_inv env s → wp (MigrateTasks env my_cpu c) s (λ _, cfs_inv env).
Proof using Henv Hmy.
  intros Hc (A & Hv & Hi). unfold MigrateTasks. wpstep. eapply wp_cpu_state; [done..|].
  intros k0 _. destruct (CfsMq_IsEmpty _); [apply wp_ret; by exists A|].
  unfold DequeueTaskIf. wpstep. eapply wp_cpu_state; [done..|]. intros k (_ & _ & Ek & _).
  rewrite Ek. set (snap := A_mq A c).
  eapply wp_mono; [apply (wp_forM _ _ (served snap c))|].
  - split; [|exists A; by split]. rewrite (eo_mq _ Henv). apply NoDup_fst_map_to_list.
  - intros g l s1 ([Hg Hnd]%NoDup_cons & A1 & [Hv1 Hi1] & Hsnap).
    assert (∀ B s2, rest s2 B → (∀ g', g' ∈ l → A_mq B c !! g' = A_mq A1 c !! g') → served snap c l s2) as Hend.
    { intros B s2 HB Hmq. split; [done|]. exists B. split; [done|]. intros g' Hg'.
      rewrite Hmq by done. apply Hsnap. by right. }
    assert (A_mq A1 c !! g = snap !! g) as E by (apply Hsnap; by left).
    destruct (snap !! g) as [arg|]; [|apply wp_ret; by apply (Hend A1)].
    destruct (ai_mq _ _ _ _ Hi1 c g arg E) as (_ & Ed & t & Ht & Eg & Ect & Ho).
    assert (arg = mkMigrationArg (ma_task arg) (-1)) as -> by (destruct arg; simpl in *; congruence).
    eapply wp_seq; [by apply (wp_try_migrate A1 (ma_task arg) t Hi1 Ht Ho)|].
    intros [] s2; simpl.
    + intros (d & _ & B & t' & H1 & H2 & H3 & H4 & _). rewrite Ect, Eg in H4.
      apply (wp_set_mq env B c (delete g) _ _ H1); [done|]. intros s3 Hv3. rewrite H3 in Hv3.
      eapply Hend; [split; [exact Hv3|simpl; by rewrite H2]|].
      intros g' Hg'. simpl. rewrite fn_lookup_insert. apply lookup_delete_ne. congruence.
    + intros H1. apply wp_ret. by apply (Hend A1).
  - intros [] s1 (_ & B & [H1 H2] & _). by exists B.
Qed.
End migrate.

(** ** Picking the next task *)

Section pick.
Context (env : CfsEnv) (Henv : env_ok env).

Notation view := (view env).
Notation abs_inv := (abs_inv env).
Notation rest := (rest env).
Notation st t := (state_ (task_state t)).
Notation orq t := (on_rq_ (task_state t)).

(** ** Computations that crash *)

Lemma UpdateMin_crash A c s :
  view s A → 0 ≤ c < 512 → A_cu A c ≠ 0 → tasks A !! A_cu A c = None →
  UpdateMinVruntime c s = Crash UseAfterFree.
Proof.
  intros Hv Hc Hne Hn. unfold UpdateMinVruntime. apply crash_bind.
  eapply wp_cpu_state; [done..|]. intros k (_ & _ & _ & Ek & _). cbv zeta.
  rewrite Ek, (proj2 (Z.eqb_neq _ _) Hne). destruct Hv as [Ha _].
  unfold mbind, M_bind, task_at, lift, deref. simpl. by rewrite Ha, Hn.
Qed.

(** ** The previous task *)

(** The previous task was put back on the run queue, or freed. *)
Definition reconciled (A A' : Abs) (c p : Z) (t : CfsTask) : Prop :=
  A_cu A' = A_cu A ∧ (∀ q, q ≠ p → tasks A' !! q = tasks A !! q) ∧
  if bool_decide (st t = kDone) then tasks A' !! p = None ∧ A_rq A' c = A_rq A c
  else A_rq A' c ≡ₚ p :: A_rq A c ∧
    ∃ t', tasks A' !! p = Some t' ∧ placed t kRunnable kQueued t'.

(** The current task of a CPU at rest. *)
Lemma rest_current s A c t :
  rest s A → A_cu A c ≠ 0 → tasks A !! A_cu A c = Some t →
  task_wf env t ∧ cpu t = c ∧ orq t = kDequeued ∧ (st t = kRunning ∨ st t = kDone).
Proof.
  intros [Hv Hi] Hne Ht. destruct (ai_cur _ _ _ _ Hi c Hne) as (_ & u & Hu & Hc & Ho & Hs).
  assert (u = t) as -> by congruence. split; [|done].
  by eapply rest_wf; [|apply not_elem_of_nil|].
Qed.

Lemma wp_reconcile_done A c p t s :
  rest s A → 0 ≤ c < 512 → A_cu A c = p → p ≠ 0 → tasks A !! p = Some t → st t = kDone →
  wp (reconcile_prev c p) s (λ _ s', ∃ A', view s' A' ∧
    abs_inv [] (<[c := 0]> (A_cu A)) A' ∧ reconciled A A' c p t).
Proof.
  intros [Hv Hi] Hc Hcur Hp0 Hp Hs. unfold reconcile_prev. wpstep. eapply wp_task_at; [done..|].
  rewrite Hs. destruct (ai_cur _ _ _ _ Hi c) as (_ & u & Hu & _ & Ho & _); [congruence|].
  rewrite Hcur in Hu. assert (u = t) as -> by congruence.
  wpstep. eapply wp_Dequeue_out; [done|done|by eapply abs_rq_ok| |done|].
  { eapply not_in_rq; [done|done|left; congruence]. }
  eapply wp_free_task; [done..|]. intros s1 Hv1. exists (A_free p t A).
  split_and!; [done| |split_and!; [done| |]].
  - eapply free_inv; [by apply take_current|done].
  - intros q Hq. simpl. by rewrite lookup_delete_ne.
  - rewrite bool_decide_true by done. simpl. by rewrite lookup_delete_eq.
Qed.

Lemma wp_reconcile_running A c p t s :
  rest s A → 0 ≤ c < 512 → A_cu A c = p → p ≠ 0 → tasks A !! p = Some t → st t = kRunning →
  wp (reconcile_prev c p) s (λ _ s', ∃ A', view s' A' ∧
    abs_inv [] (<[c := 0]> (A_cu A)) A' ∧ reconciled A A' c p t).
Proof using Henv.
  intros Hr Hc Hcur Hp0 Hp Hs. destruct (rest_current s A c t Hr) as (Hw & Htc & Ho & _); [congruence..|].
  destruct Hr as [Hv Hi]. pose proof (take_current env [] _ _ _ _ Hi Hcur Hp0) as Hi1.
  pose proof Hw as (Htr & Hcpu & Haff).
  unfold reconcile_prev. wpstep. eapply wp_task_at; [done..|]. rewrite Hs. wpstep.
  eapply (wp_Rq_PutPrev env A c p t); try done.
  - by eapply abs_rq_ok.
  - eapply exempt_rq; [exact Hi1|by left].
  - by rewrite Ho.
  - lia.
  - intros s1 ts l E1 E2 E3 Hl Hok Hv1. set (u := set_task_state ts t) in *.
    eapply (wp_SetState env _ p u); [done| |done|simpl; by rewrite E1, Hs|].
    { simpl. by rewrite lookup_insert_eq. }
    intros s2 ts' F1 F2 F3 Hv2. set (w := set_task_state ts' u) in *.
    exists (A_put p w (A_set_rq c l (A_put p u A))). split_and!; [done| |split_and!].
    + rewrite <- Htc. apply (put_queued_view env [] _ (A_put p u A) p u w l); try done.
      * apply (inv_put_x env [p] p _ _ t); [by rewrite Htc|by left|done|done].
      * set_solver.
      * simpl. by rewrite lookup_insert_eq.
      * simpl. by rewrite F2.
      * simpl. by rewrite Htc.
      * simpl. rewrite insert_insert_eq. destruct Hok as [H1 H2]. split.
        -- rewrite <- (insert_insert_eq (tasks A) p w u).
           by apply (sorted_same _ p u); [rewrite lookup_insert_eq|..].
        -- intros q Hq. destruct (H2 q Hq) as [tq Htq]. destruct (decide (p = q)) as [<-|].
           ++ by rewrite lookup_insert_eq.
           ++ rewrite lookup_insert_ne in * by done. eauto.
    + done.
    + intros q Hq. simpl. by rewrite !lookup_insert_ne.
    + rewrite bool_decide_false by (rewrite Hs; done). simpl. rewrite fn_lookup_insert. split; [done|].
      exists w. rewrite lookup_insert_eq. split; [done|]. split_and!; [done|done|simpl; by rewrite F2].
Qed.

(** ** The leftmost task *)

Lemma rq_lt_le h p q tp tq : rq_lt h p q → h !! p = Some tp → h !! q = Some tq → vruntime tp ≤ vruntime tq.
Proof.
  intros (t & u & Ht & Hu & H) Hp Hq. assert (t = tp) as -> by congruence.
  assert (u = tq) as -> by congruence. unfold Less in H.
  destruct (Z.eqb_spec (vruntime tp) (vruntime tq)); zbool; lia.
Qed.

(** The task [p] was taken from the run queue of [c]. *)
Definition picked (A A' : Abs) (c p : Z) : Prop :=
  A_cu A' = A_cu A ∧ A_rq A c = p :: A_rq A' c ∧ (∀ q, q ≠ p → tasks A' !! q = tasks A !! q) ∧
  ∃ t t', tasks A !! p = Some t ∧ tasks A' !! p = Some t' ∧
    gtid t' = gtid t ∧ cpu t' = cpu t ∧ vruntime t' = vruntime t ∧ st t' = kRunning ∧
    ∀ q tq, q ∈ A_rq A' c → tasks A' !! q = Some tq → vruntime t' ≤ vruntime tq.

Lemma wp_run_leftmost cur A c p l s :
  view s A → abs_inv [] cur A → 0 ≤ c < 512 → cur c = 0 → A_rq A c = p :: l →
  wp (run_leftmost env c p) s (λ _ s', ∃ A', view s' A' ∧ abs_inv [] (<[c := p]> cur) A' ∧ picked A A' c p).
Proof using Henv.
  intros Hv Hi Hc Hcur El. assert (p ∈ A_rq A c) as Hin by (rewrite El; by left).
  destruct (ai_rq _ _ _ _ Hi c p Hin) as (_ & t & Ht & Htc & Ho).
  destruct (ai_task _ _ _ _ Hi p t (not_elem_of_nil _) Ht) as [Hw Hok]. pose proof Hw as (Htr & Hcpu & Haff).
  unfold task_ok in Hok. rewrite Ho in Hok. destruct (st t) eqn:Hs; try done.
  pose proof (abs_rq_ok env _ _ _ c Hi) as Hrq.
  assert (filter (λ q, q ≠ p) (A_rq A c) = l) as Ef.
  { rewrite El in *. apply rq_ok_nodup in Hrq as [Hnin _]%NoDup_cons. rewrite filter_cons_False by auto.
    by apply filter_ne_id. }
  unfold run_leftmost. wpstep. eapply wp_Dequeue_in; [done..|]. intros s1 ts E1 E2 E3 Hv1. rewrite Ef in Hv1.
  set (u := set_task_state ts t) in *. set (A1 := A_set_rq _ _ _) in *.
  assert (tasks A1 !! p = Some u) as Hu by (simpl; by rewrite lookup_insert_eq).
  assert (abs_inv [p] cur A1) as Hi1.
  { apply (inv_put_x env [p] p _ (A_set_rq c l A) t u); [|by left|done|done].
    rewrite <- Ef, <- Htc. by apply take_queued; [|apply not_elem_of_nil|..]. }
  wpstep. eapply wp_SetState; [done..|simpl; by rewrite E1, Hs|]. intros s2 ts' F1 F2 F3 Hv2.
  set (w := set_task_state ts' u) in *.
  assert (tasks (A_put p w A1) !! p = Some w) as Hw' by (simpl; by rewrite lookup_insert_eq).
  assert (abs_inv [p] cur (A_put p w A1)) as Hi2.
  { apply (inv_put_x env [p] p _ _ u); [done|by left|done|done]. }
  wpstep. eapply wp_task_at; [done..|]. wpstep. eapply wp_ask; [done|]. intros n s3 Hv3.
  eapply wp_upd_task; [done..|]. intros s4 Hv4. set (x := set_first_pick _ w) in *.
  set (A4 := A_put p x (A_put p w A1)) in *.
  assert (tasks A4 !! p = Some x) as Hx by (simpl; by rewrite lookup_insert_eq).
  exists A4. split_and!; [done| |split_and!].
  - replace c with (cpu x) by done. apply (put_current env [] p cur A4 x); try done.
    + apply (inv_put_x env [p] p _ _ w); [done|by left|done|done].
    + set_solver.
    + simpl. by rewrite F2.
    + by left.
    + simpl. congruence.
  - done.
  - simpl. by rewrite fn_lookup_insert, El.
  - intros q Hq. simpl. by rewrite !lookup_insert_ne.
  - exists t, x. split_and!; try done. intros q tq Hq Htq. simpl in Hq. rewrite fn_lookup_insert in Hq.
    simpl. rewrite El in Hrq. pose proof (rq_ok_nodup _ _ Hrq) as [Hnin _]%NoDup_cons.
    apply rq_ok_cons in Hrq as [_ Hlt]. eapply rq_lt_le; [by apply Hlt|done|].
    simpl in Htq. rewrite !lookup_insert_ne in Htq by (intros ->; done). done.
Qed.

(** What is left to do once the previous task is dealt with: [cur] is where
    the running tasks are, [A_cu A c] what [cs->current] still says. *)
Definition left_over (cur : Z → Z) (A A' : Abs) (c next : Z) : Prop :=
  abs_inv [] (<[c := next]> cur) A' ∧ A_cu A' = A_cu A ∧
  if next =? 0 then A' = A ∧ A_rq A c = [] else picked A A' c next.

Lemma wp_pick_leftmost cur A c s :
  view s A → abs_inv [] cur A → 0 ≤ c < 512 → cur c = 0 →
  (A_cu A c ≠ 0 → is_Some (tasks A !! A_cu A c)) →
  wp (pick_leftmost env c) s (λ next s', ∃ A', view s' A' ∧ left_over cur A A' c next).
Proof using Henv.
  intros Hv Hi Hc Hcur Hlive. unfold pick_leftmost. wpstep. eapply wp_cpu_state; [done..|].
  intros k (Ek & _). unfold CfsRq_IsEmpty, LeftmostRqTask. rewrite Ek.
  destruct (A_rq A c) as [|p l] eqn:El; case_bool_decide as Hb; try done.
  - wpstep. eapply wp_UpdateMin; [done|done|by eapply abs_rq_ok|done|]. intros s1 Hv1. apply wp_ret.
    exists A. split; [done|]. split_and!; [|done|done].
    eapply (abs_inv_ext env [] cur); [done..| |done]. intros d. destruct (decide (c = d)) as [<-|].
    + by rewrite fn_lookup_insert.
    + by rewrite fn_lookup_insert_ne.
  - cbv zeta. eapply wp_seq; [by eapply wp_run_leftmost|]. intros [] s1 (A1 & Hv1 & Hi1 & Hpk).
    pose proof Hpk as (Hcu & _ & Hq & t & t' & Ht & Ht' & _).
    wpstep. eapply wp_UpdateMin; [done|done|by eapply abs_rq_ok| |].
    + rewrite Hcu. intros Hne. destruct (decide (A_cu A c = p)) as [->|]; [eauto|]. rewrite Hq by done. auto.
    + intros s2 Hv2. apply wp_ret. exists A1. split; [done|]. split_and!; [done|done|].
      pose proof (live_nonzero _ _ _ _ _ _ Hi Ht) as Hne. by rewrite (proj2 (Z.eqb_neq _ _) Hne).
Qed.

Lemma pick_leftmost_crash cur A c s :
  view s A → abs_inv [] cur A → 0 ≤ c < 512 → cur c = 0 →
  A_cu A c ≠ 0 → tasks A !! A_cu A c = None →
  pick_leftmost env c s = Crash UseAfterFree.
Proof using Henv.
  intros Hv Hi Hc Hcur Hne Hn. unfold pick_leftmost. apply crash_bind. eapply wp_cpu_state; [done..|].
  intros k (Ek & _). unfold CfsRq_IsEmpty, LeftmostRqTask. rewrite Ek.
  destruct (A_rq A c) as [|p l] eqn:El; case_bool_decide as Hb; try done.
  - unfold mbind, M_bind. by rewrite (UpdateMin_crash A c s).
  - cbv zeta. apply crash_bind. eapply wp_mono; [by eapply wp_run_leftmost|].
    intros [] s1 (A1 & Hv1 & Hi1 & Hcu & _ & Hq & t & t' & Ht & _).
    unfold mbind, M_bind. rewrite (UpdateMin_crash A1 c s1); [done|done|done|congruence|].
    rewrite Hcu, Hq; [done|]. congruence.
Qed.

(** ** PickNextTask *)

(** The run queue that [PickNextTask] picks from. *)
Definition pool (A : Abs) (c prev : Z) : list Z :=
  if prev =? 0 then A_rq A c else prev :: A_rq A c.

(** The outcome of a pick when the previous task lives; [pre] asks for its
    preemption. *)
Definition next_task (A A' : Abs) (c : Z) (pre : bool) (next : Z) : Prop :=
  abs_inv [] (<[c := next]> (A_cu A)) A' ∧ A_cu A' = A_cu A ∧
  (A_cu A c ≠ 0 → is_Some (tasks A' !! A_cu A c)) ∧
  if negb (A_cu A c =? 0) && negb pre then next = A_cu A c ∧ A' = A
  else if next =? 0 then pool A c (A_cu A c) = []
  else next :: A_rq A' c ≡ₚ pool A c (A_cu A c) ∧
    ∃ t', tasks A' !! next = Some t' ∧ st t' = kRunning ∧ cpu t' = c ∧
      ∀ q tq, q ∈ A_rq A' c → tasks A' !! q = Some tq → vruntime t' ≤ vruntime tq.

Lemma insert_twice (f : Z → Z) c v w d : <[c := v]> (<[c := w]> f) d = <[c := v]> f d.
Proof.
  destruct (decide (c = d)) as [<-|]; [by rewrite !fn_lookup_insert|by rewrite !fn_lookup_insert_ne].
Qed.

Lemma insert_self (f : Z → Z) c d : <[c := f c]> f d = f d.
Proof. destruct (decide (c = d)) as [<-|]; [by rewrite fn_lookup_insert|by rewrite fn_lookup_insert_ne]. Qed.

Lemma wp_PickNextTask A c s :
  rest s A → 0 ≤ c < 512 →
  (∀ t, A_cu A c ≠ 0 → tasks A !! A_cu A c = Some t → st t ≠ kDone) →
  wp (PickNextTask env c (A_cu A c)) s (λ next s', ∃ A', view s' A' ∧
    next_task A A' c (preempt_curr (cpu_states_ s c)) next).
Proof using Henv.
  intros Hr Hc Hnd. pose proof Hr as [Hv Hi]. unfold PickNextTask. wpstep.
  apply wp_cpu_state_at; [done|]. set (pre := preempt_curr _). unfold next_task.
  destruct (Z.eqb_spec (A_cu A c) 0) as [E0|Hne]; simpl.
  - wpstep. wpstep. simpl. wpstep. eapply wp_set_preempt; [done|done|]. intros s1 Hv1. wpstep. wpstep.
    eapply wp_mono; [eapply (wp_pick_leftmost (A_cu A) A); try done|].
    intros next s2 (A2 & Hv2 & Hi2 & Hcu2 & Hpk). exists A2. split; [done|]. split_and!; [done|done|done|].
    unfold pool. rewrite E0. simpl. destruct (next =? 0); [by destruct Hpk|].
    destruct Hpk as (_ & -> & _ & t & t' & _ & Ht' & _ & Htc & _ & Hs & Hmin). split; [done|].
    exists t'. split_and!; try done.
    destruct (ai_cur _ _ _ _ Hi2 c) as (_ & u & Hu & Huc & _).
    { rewrite fn_lookup_insert. by eapply live_nonzero. }
    rewrite fn_lookup_insert in Hu. congruence.
  - destruct (ai_cur _ _ _ _ Hi c Hne) as (_ & t & Ht & Htc & Ho & Hs).
    assert (st t = kRunning) as Hrun by (destruct Hs as [|E]; [done|by apply Hnd in Ht]).
    wpstep. wpstep. eapply wp_task_at; [done..|]. wpstep.
    assert (IsRunning (task_state t) = true) as -> by by apply bool_decide_true. simpl.
    destruct pre; simpl.
    + wpstep. eapply wp_set_preempt; [done|done|]. intros s1 Hv1. wpstep.
      eapply wp_mono; [by eapply (wp_reconcile_running A c (A_cu A c) t s1); [split|..]|].
      intros [] s2 (A2 & Hv2 & Hi2 & Hcu2 & Hq2 & Hrec). rewrite bool_decide_false in Hrec by (rewrite Hrun; done).
      destruct Hrec as (Hrq2 & t2 & Ht2 & Hpl2).
      eapply wp_mono; [eapply (wp_pick_leftmost _ A2 c s2 Hv2 Hi2 Hc)|].
      * apply fn_lookup_insert.
      * rewrite Hcu2. eauto.
      * intros next s3 (A3 & Hv3 & Hi3 & Hcu3 & Hpk). exists A3. split; [done|].
        unfold pool. rewrite (proj2 (Z.eqb_neq _ _) Hne). split_and!.
        -- eapply abs_inv_ext; [done..| |exact Hi3]. intros d. by rewrite insert_twice.
        -- congruence.
        -- intros _. destruct (Z.eqb_spec next 0); [destruct Hpk as [-> _]; eauto|].
           destruct Hpk as (_ & _ & Hq3 & u & u' & Hu & Hu' & _).
           destruct (decide (A_cu A c = next)) as [->|]; [eauto|]. rewrite Hq3 by done. eauto.
        -- destruct (Z.eqb_spec next 0) as [|Hnn].
           { destruct Hpk as [_ Hnil]. rewrite Hnil in Hrq2. by apply Permutation_nil_cons in Hrq2. }
           destruct Hpk as (_ & Hrq3 & Hq3 & u & u' & Hu & Hu' & Hg' & Hc' & Hvr' & Hs' & Hmin).
           split; [by rewrite <- Hrq3|]. exists u'. split_and!; try done.
           destruct (ai_cur _ _ _ _ Hi3 c) as (_ & w & Hw & Hwc & _); [by rewrite fn_lookup_insert|].
           rewrite fn_lookup_insert in Hw. congruence.
    + apply wp_ret. exists A. split; [done|]. split_and!; try done.
      eapply abs_inv_ext; [done..| |exact Hi]. apply insert_self.
Qed.

(** With a dead current task the pick always ends in the use after free. *)
Lemma PickNextTask_crash A c t s :
  rest s A → 0 ≤ c < 512 → A_cu A c ≠ 0 → tasks A !! A_cu A c = Some t → st t = kDone →
  PickNextTask env c (A_cu A c) s = Crash UseAfterFree.
Proof using Henv.
  intros Hr Hc Hne Ht Hs. pose proof Hr as [Hv Hi]. unfold PickNextTask. apply crash_bind.
  eapply wp_cpu_state; [done..|]. intros k _. rewrite (proj2 (Z.eqb_neq _ _) Hne). apply crash_bind.
  wpstep. eapply wp_task_at; [done..|]. apply wp_ret.
  assert (IsRunning (task_state t) = false) as -> by (apply bool_decide_false; congruence). simpl.
  apply crash_bind. eapply wp_set_preempt; [done..|]. intros s1 Hv1. apply crash_bind.
  eapply wp_mono; [by eapply (wp_reconcile_done A c (A_cu A c) t s1); [split|..]|].
  intros [] s2 (A2 & Hv2 & Hi2 & Hcu2 & _ & Hrec). rewrite bool_decide_true in Hrec by done.
  destruct Hrec as [Hn _]. eapply pick_leftmost_crash; [done..|apply fn_lookup_insert|congruence|].
  by rewrite Hcu2.
Qed.
End pick.
