(* ===== verification/CfsBalance.v ===== *)
(** * CfsBalance: load balancing

    [FindBusiestQueue] finds a longest queue; [DetachTasks] takes tasks off it
    and [AttachTasks] puts them on the destination's queue.  The tasks in
    between are the exempt ones of the invariant. *)

From S2P Require Import Prelude Outcome CpuMap CpuMapSpec.
From S2P Require Import Topology TopologySpec Dispatch CfsRq CfsSched.
From S2P Require Import CfsBasics CfsInv CfsOps CfsHandlers CfsPick.
From stdpp Require Import gmap functions sorting.
From Stdlib Require Import ZArith Lia.

Local Open Scope Z_scope.

Section balance.
Context (env : CfsEnv) (Henv : env_ok env).

Notation view := (view env).
Notation abs_inv := (abs_inv env).
Notation st t := (state_ (task_state t)).
Notation orq t := (on_rq_ (task_state t)).

Lemma abs_inv_perm X Y cur A : (∀ p, p ∈ X ↔ p ∈ Y) → abs_inv X cur A → abs_inv Y cur A.
Proof.
  intros HX [H1 H2 H3 H4 H5 H6]. constructor; try done.
  - intros p t Hp. apply H2. by rewrite HX.
  - intros c p Hp. rewrite <- HX. by apply H4.
  - intros c g a Ha. rewrite <- HX. by apply (H5 c g a).
  - intros c Hc. rewrite <- HX. by apply H6.
Qed.

(** A balance moves tasks between run queues: the same tasks live, with the
    same identity, and only the queues of [src] and [dst] change. *)
Definition same_tasks (A B : Abs) : Prop :=
  A_cu B = A_cu A ∧ ∀ q, match tasks A !! q, tasks B !! q with
    | Some t, Some u => gtid u = gtid t ∧ st u = st t ∧ cpu_affinity u = cpu_affinity t
    | None, None => True
    | _, _ => False
    end.

Lemma same_tasks_refl A : same_tasks A A.
Proof. split; [done|]. intros q. by destruct (tasks A !! q). Qed.

Lemma same_tasks_trans A B C : same_tasks A B → same_tasks B C → same_tasks A C.
Proof.
  intros [H1 H2] [H3 H4]. split; [congruence|]. intros q. specialize (H2 q). specialize (H4 q).
  destruct (tasks A !! q), (tasks B !! q), (tasks C !! q); try done. naive_solver congruence.
Qed.

Lemma same_tasks_put A B p t u :
  A_cu B = A_cu A → A_alloc B = A_alloc (A_put p u A) → tasks A !! p = Some t →
  gtid u = gtid t → st u = st t → cpu_affinity u = cpu_affinity t → same_tasks A B.
Proof.
  intros Hcu Ha Hp Hg Hs Haf. split; [done|]. intros q. rewrite Ha. simpl.
  destruct (decide (p = q)) as [<-|Hne].
  - by rewrite lookup_insert_eq, Hp.
  - rewrite lookup_insert_ne by done. by destruct (tasks A !! q).
Qed.

Lemma same_tasks_live A B p : same_tasks A B → is_Some (tasks A !! p) → is_Some (tasks B !! p).
Proof. intros [_ H] [t Ht]. specialize (H p). rewrite Ht in H. destruct (tasks B !! p); [eauto|done]. Qed.

(** ** Detaching *)

Section move.
Context (src dst : Z) (Hsrc : 0 ≤ src < 512) (Hdst : in_enclave env dst).

(** A task between two queues. *)
Definition in_transit (A : Abs) (d : Z) : Prop :=
  ∃ t, tasks A !! d = Some t ∧ task_wf env t ∧ cpu t = dst ∧ st t = kRunnable ∧ orq t = kDequeued.

Lemma wp_CanMigrate A p t s (Q : bool → Cfs → Prop) :
  view s A → tasks A !! p = Some t → task_wf env t →
  (∀ b s', view s' A → (b = true → bit (cpu_affinity t) dst = true) → Q b s') →
  wp (CanMigrateTask env p dst) s Q.
Proof using Henv Hdst.
  intros Hv Hp Hw HQ. pose proof (in_enclave_range env Henv _ Hdst) as Hr. unfold CanMigrateTask.
  wpstep. eapply wp_task_at; [done..|]. wpstep. eapply wp_cpu_state; [done|lia|].
  intros k (_ & _ & _ & _ & Hk). destruct (Hk Hdst) as [-> ->].
  rewrite (proj2 (Z.leb_le 0 dst)) by lia. wpstep. wpstep. rewrite IsSet_spec by lia. simpl.
  destruct (bit (cpu_affinity t) dst) eqn:Eb; simpl.
  - eapply wp_AssociateTask; [done|]. intros b s' Hv'. by apply HQ.
  - apply wp_ret. by apply HQ.
Qed.

(** The state of the detaching loop with [X] detached. *)
Definition detaching (A B : Abs) (X : list Z) : Prop :=
  same_tasks A B ∧ (∀ c, c ≠ src → A_rq B c = A_rq A c) ∧
  load A src = load B src + Z.of_nat (length X) ∧ A_mq B = A_mq A ∧
  (∀ d, d ∈ X → in_transit B d) ∧ NoDup X ∧ (X = [] → A_rq B src = A_rq A src).

Lemma detach_one A B X cur p t u ts :
  abs_inv (rev X) cur B → detaching A B X → p ∈ A_rq B src → tasks B !! p = Some t →
  u = set_task_state ts (set_cpu dst t) →
  state_ ts = st t → on_rq_ ts = kDequeued → trace_wf (state_trace_ ts) →
  let C := A_set_rq src (filter (λ q, q ≠ p) (A_rq B src)) (A_put p u (A_put p (set_cpu dst t) B)) in
  abs_inv (rev (X ++ [p])) cur C ∧ detaching A C (X ++ [p]).
Proof using Henv Hdst Hsrc.
  intros Hi (Hsame & Hrq & Hld & Hmq & Htr & Hnd & _) Hin Hp -> E1 E2 E3. set (u := set_task_state _ _).
  destruct (ai_rq _ _ _ _ Hi src p Hin) as (HX & t' & Ht' & Hc & Ho).
  assert (t' = t) as -> by congruence.
  destruct (ai_task _ _ _ _ Hi p t HX Hp) as [Hw Hok]. pose proof Hw as (Htrace & Hcpu & Haff).
  unfold task_ok in Hok. rewrite Ho in Hok. destruct (st t) eqn:Hs; try done.
  assert (p ∉ X) as HpX by (by rewrite list_elem_of_In, in_rev, <- list_elem_of_In).
  cbv zeta. set (C := A_set_rq _ _ _). split; [|split_and!].
  - rewrite rev_app_distr. simpl.
    apply (inv_put_x env (p :: rev X) p cur
      (A_put p (set_cpu dst t) (A_set_rq src (filter (λ q, q ≠ p) (A_rq B src)) B)) (set_cpu dst t) u);
      [|by left|simpl; by rewrite lookup_insert_eq|done].
    apply (inv_put_x env (p :: rev X) p cur _ t); [rewrite <- Hc; by apply take_queued|by left|done|done].
  - eapply same_tasks_trans; [done|].
    apply (same_tasks_put B C p t u); [done| |done|done|simpl; congruence|done].
    subst C. simpl. unfold put_task. simpl. f_equal. by rewrite insert_insert_eq.
  - intros c Hne. simpl. rewrite fn_lookup_insert_ne by done. auto.
  - rewrite Hld, length_app. unfold load. simpl. rewrite fn_lookup_insert.
    pose proof (rq_nodup env _ _ _ src Hi) as Hndr.
    assert (length (A_rq B src) = S (length (filter (λ q, q ≠ p) (A_rq B src)))) as ->; [|lia].
    apply (Permutation_length (l := A_rq B src) (l' := p :: filter (λ q, q ≠ p) (A_rq B src))).
    apply NoDup_Permutation; [done|constructor; [|by apply NoDup_filter]|].
    + rewrite list_elem_of_filter. tauto.
    + intros q. rewrite elem_of_cons, list_elem_of_filter. destruct (decide (q = p)) as [->|]; tauto.
  - done.
  - intros d [Hd| ->%list_elem_of_singleton]%elem_of_app.
    + destruct (Htr d Hd) as (td & Htd & H). exists td. split; [|done]. simpl.
      rewrite !lookup_insert_ne by (intros ->; done). done.
    + exists u. simpl. rewrite lookup_insert_eq. split_and!; try done; try congruence. 
  - apply NoDup_app. split_and!; [done| |apply NoDup_singleton].
    intros q Hq ->%list_elem_of_singleton. done.
  - by destruct X.
Qed.

Lemma wp_DetachTasks_loop A cur n l B X s :
  view s B → abs_inv (rev X) cur B → detaching A B X → Z.of_nat (length X) ≤ n →
  NoDup l → (∀ p, p ∈ l → p ∈ A_rq B src) →
  wp (DetachTasks_loop env src dst n l X) s (λ Y s', ∃ C, view s' C ∧
    abs_inv (rev Y) cur C ∧ detaching A C Y ∧ Z.of_nat (length Y) ≤ n).
Proof using Henv Hdst Hsrc.
  revert B X s. induction l as [|p l IH]; intros B X s Hv Hi Hd Hn Hnd Hl; simpl.
  { apply wp_ret. eauto. }
  wpstep. eapply wp_cpu_state; [done..|]. intros k (Ek & _).
  destruct (_ || _) eqn:Estop; [apply wp_ret; eauto|].
  apply orb_false_iff in Estop as [_ Hlt]. zbool.
  assert (p ∈ A_rq B src) as Hin by (apply Hl; by left). apply NoDup_cons in Hnd as [Hpl Hnd].
  destruct (ai_rq _ _ _ _ Hi src p Hin) as (HX & t & Ht & Hc & Ho).
  pose proof (rest_wf env _ _ _ _ _ Hi HX Ht) as Hw. pose proof Hw as (Htrace & Hcpu & Haff).
  pose proof (in_enclave_range env Henv _ Hdst) as Hr.
  wpstep. eapply wp_CanMigrate; [done..|]. intros ok s1 Hv1 _. destruct ok.
  - wpstep. eapply wp_cpu_state; [done|lia|]. intros kd (_ & _ & _ & _ & Hk).
    destruct (Hk Hdst) as [_ ->]. wpstep. eapply wp_upd_task; [done..|]. intros s2 Hv2.
    wpstep. eapply (wp_SetOnRq env _ p (set_cpu dst t)); [done| |done|simpl; by rewrite Ho|].
    { simpl. by rewrite lookup_insert_eq. }
    intros s3 ts E1 E2 E3 Hv3.
    destruct (detach_one A B X cur p t _ ts Hi Hd Hin Ht eq_refl E1 E2 E3) as [Hi' Hd'].
    wpstep. apply (wp_set_rq env _ src (filter (λ q, q ≠ p)) _ _ Hv3); [done|]. intros s4 Hv4.
    eapply IH; [exact Hv4|done|done|rewrite length_app; simpl; lia|done|].
    intros q Hq. simpl. rewrite fn_lookup_insert, list_elem_of_filter.
    split; [intros ->; done|]. apply Hl. by right.
  - eapply IH; try done. intros q Hq. apply Hl. by right.
Qed.

(** ** Attaching *)

Definition attaching (A B : Abs) (l : list Z) : Prop :=
  same_tasks A B ∧ (∀ c, c ≠ dst → A_rq B c = A_rq A c) ∧ A_mq B = A_mq A ∧
  (∀ d, d ∈ l → in_transit B d) ∧ NoDup l.

Lemma wp_Rq_AttachTasks A cur l s :
  view s A → abs_inv l cur A → (∀ d, d ∈ l → in_transit A d) → NoDup l →
  wp (Rq_AttachTasks dst l) s (λ _ s', ∃ B, view s' B ∧ abs_inv [] cur B ∧ same_tasks A B ∧
    (∀ c, c ≠ dst → A_rq B c = A_rq A c) ∧ A_mq B = A_mq A ∧
    load B dst = load A dst + Z.of_nat (length l)).
Proof using Henv Hdst.
  intros Hv Hi Htr Hnd. pose proof (in_enclave_range env Henv _ Hdst) as Hr. unfold Rq_AttachTasks.
  eapply wp_mono; [apply (wp_forM l _ (λ l' s', ∃ B, view s' B ∧ abs_inv l' cur B ∧ attaching A B l' ∧
    load B dst + Z.of_nat (length l') = load A dst + Z.of_nat (length l)))|].
  - exists A. split_and!; try done. split_and!; try done. apply same_tasks_refl.
  - intros p l' s1 (B & Hv1 & Hi1 & (Hsame & Hrq & Hmq & Htr' & Hnd') & Hld).
    apply NoDup_cons in Hnd' as [Hpl Hnd']. destruct (Htr' p) as (t & Ht & Hw & Hc & Hs & Ho); [by left|].
    pose proof Hw as (Htrace & Hcpu & Haff).
    eapply (wp_Enqueue env B dst p t); try done; [lia|by eapply abs_rq_ok|eapply exempt_rq; [done|by left]|by rewrite Ho|lia|].
    intros s2 ts v l2 E1 E2 E3 Hl2 Hok Hv2. set (u := set_task_state ts _) in *.
    exists (A_set_rq dst l2 (A_put p u (A_put p (set_vruntime v t) B))). split_and!; [done| |split_and!|].
    + rewrite <- Hc. apply (put_queued_view env l' cur (A_put p (set_vruntime v t) B) p (set_vruntime v t) u l2); try done.
      * apply (inv_put_x env (p :: l') p _ _ t); [done|by left|done|done].
      * simpl. by rewrite lookup_insert_eq.
      * simpl. by rewrite E1.
      * simpl. by rewrite Hc.
      * simpl. by rewrite insert_insert_eq.
    + eapply same_tasks_trans; [done|].
      apply (same_tasks_put B _ p t u); [done| |done|done|simpl; congruence|done].
      simpl. unfold put_task. simpl. f_equal. by rewrite insert_insert_eq.
    + intros c Hne. simpl. rewrite fn_lookup_insert_ne by done. auto.
    + done.
    + intros d Hd. destruct (Htr' d) as (td & Htd & H); [by right|]. exists td. split; [|done]. simpl.
      rewrite !lookup_insert_ne by (intros ->; done). done.
    + done.
    + rewrite <- Hld. unfold load. simpl. rewrite fn_lookup_insert, Hl2. simpl. lia.
  - intros [] s1 (B & Hv1 & Hi1 & (Hsame & Hrq & Hmq & _) & Hld). exists B. simpl in Hld.
    split_and!; try done. lia.
Qed.
End move.

(** ** One load balancing event *)

Context (my_cpu : Z) (Hmy : in_enclave env my_cpu).

(** The event moved [n] tasks. *)
Definition balanced (A B : Abs) (n : Z) : Prop :=
  same_tasks A B ∧ A_mq B = A_mq A ∧
  (n = 0 ∧ (∀ c, A_rq B c = A_rq A c) ∨
   ∃ src, src ≠ my_cpu ∧ (∀ d, in_enclave env d → load A d ≤ load A src) ∧ 1 ≤ n ≤ 32 ∧
     load B src = load A src - n ∧ load B my_cpu = load A my_cpu + n ∧
     load B my_cpu ≤ load B src ∧ ∀ c, c ≠ src → c ≠ my_cpu → A_rq B c = A_rq A c).

Section reads.
Context (A : Abs) (s : Cfs) (Hv : view s A).

Lemma enclave_elems c : c ∈ elems (cpus env) → 0 ≤ c < 512.
Proof using Henv.
  destruct (eo_cpus _ Henv) as [Hw Hn]. intros Hc%elems_lt; [|done].
  pose proof (to_num _ (eo_topo _ Henv)). lia.
Qed.

Lemma wp_busiest_loop l D sm :
  (∀ c, c ∈ l → 0 ≤ c < 512) → 0 ≤ sm.1 → 0 ≤ sm.2 < 512 → sm.1 ≤ load A sm.2 →
  (∀ c, c ∈ D → load A c ≤ sm.1) →
  wp (busiest_loop l sm) s (λ r s', s' = s ∧ 0 ≤ r.2 < 512 ∧ ∀ c, c ∈ D ++ l → load A c ≤ load A r.2).
Proof using Hv.
  revert D sm. induction l as [|c l IH]; intros D sm Hl H0 H1 H2 H3; simpl.
  { apply wp_ret. split_and!; [done|lia|lia|]. intros c. rewrite app_nil_r. intros Hc.
    specialize (H3 c Hc). lia. }
  assert (0 ≤ c < 512) as Hc by (apply Hl; by left).
  wpstep. eapply wp_cpu_state; [done..|]. intros k (_ & Ek & _). unfold LocklessSize. rewrite Ek.
  fold (load A c). replace (D ++ c :: l) with ((D ++ [c]) ++ l) by (by rewrite <- app_assoc).
  assert (0 ≤ load A c) by (unfold load; lia).
  apply IH; destruct (Z.leb_spec (load A c) sm.1); simpl; try done; try lia.
  all: try (intros; apply Hl; by right).
  all: intros d [Hd| ->%list_elem_of_singleton]%elem_of_app; [specialize (H3 d Hd)|]; lia.
Qed.

Lemma wp_FindBusiest :
  wp (FindBusiestQueue env) s (λ b s', s' = s ∧ 0 ≤ b < 512 ∧
    ∀ d, in_enclave env d → load A d ≤ load A b).
Proof using Hv Henv.
  destruct (eo_cpus _ Henv) as [Hw Hn]. unfold FindBusiestQueue. wpstep. wpstep.
  rewrite iterate_spec by done. cbn [wpo].
  eapply wp_seq; [apply (wp_busiest_loop _ []); simpl; try lia|].
  - apply enclave_elems.
  - unfold load. lia.
  - by intros c ?%elem_of_nil.
  - intros r s' (-> & H1 & H2). apply wp_ret. split_and!; [done|lia|lia|].
    intros d [Hd0 Hd]. apply H2. simpl. by apply elem_of_elems.
Qed.

Lemma wp_first_idle l d : (∀ c, c ∈ l → 0 ≤ c < 512) → wp (first_idle l d) s (λ _ s', s' = s).
Proof using Hv.
  induction l as [|c l IH]; intros Hl; simpl; [by apply wp_ret|].
  wpstep. eapply wp_cpu_state; [done|apply Hl; by left|]. intros k _.
  destruct (LocklessRqEmpty k); [by apply wp_ret|]. apply IH. intros; apply Hl; by right.
Qed.

Lemma wp_ShouldWeBalance e : lb_dst e = my_cpu → wp (ShouldWeBalance env my_cpu e) s (λ _ s', s' = s).
Proof using Hv Henv Hmy.
  intros Ee. pose proof (in_enclave_range env Henv _ Hmy) as Hr. destruct (eo_cpus _ Henv) as [Hw Hn].
  unfold ShouldWeBalance. case_bool_decide.
  - rewrite Ee. wpstep. eapply wp_cpu_state; [done|lia|]. intros k _. by apply wp_ret.
  - wpstep. wpstep. rewrite Front_spec by done. cbn [wpo].
    assert (my_cpu ∈ elems (cpus env)) as Hin by (apply elem_of_elems; [done|apply Hmy]).
    destruct (elems (cpus env)) as [|f r] eqn:Ef; [by apply elem_of_nil in Hin|]. simpl.
    wpstep. wpstep. rewrite iterate_spec by done. cbn [wpo].
    eapply wp_seq; [apply wp_first_idle, enclave_elems|]. intros d s' ->. by apply wp_ret.
Qed.
End reads.

Lemma wp_LoadBalance cur A ty s :
  view s A → abs_inv [] cur A →
  wp (LoadBalance env my_cpu ty) s (λ n s', ∃ B, view s' B ∧ abs_inv [] cur B ∧ balanced A B n).
Proof using Henv Hmy.
  intros Hv Hi. pose proof (in_enclave_range env Henv _ Hmy) as Hr.
  assert (∃ B, view s B ∧ abs_inv [] cur B ∧ balanced A B 0) as Hsame.
  { exists A. split_and!; try done. split_and!; [apply same_tasks_refl|done|by left]. }
  unfold LoadBalance. eapply wp_seq; [by eapply wp_ShouldWeBalance|]. intros go ? ->.
  destruct go; [|by apply wp_ret]. simpl.
  eapply wp_seq; [by eapply wp_FindBusiest|]. intros src ? (-> & Hsrc & Hbusy).
  destruct (Z.eqb_spec src my_cpu) as [|Hne]; [by apply wp_ret|].
  unfold CalculateImbalance. simpl. wpstep. wpstep. eapply wp_cpu_state; [done|lia|].
  intros k (_ & Ek & _). wpstep. eapply wp_cpu_state; [done|lia|]. intros kd (_ & Ekd & _). apply wp_ret.
  unfold LocklessSize. rewrite Ek, Ekd. fold (load A src) (load A my_cpu).
  set (n := calculate_imbalance _ _).
  assert (0 ≤ n ≤ 32 ∧ (0 < n → load A my_cpu + n ≤ load A src - n)) as [Hn Himb].
  { subst n. unfold calculate_imbalance, kMaxTasksToLoadBalance.
    assert (0 ≤ load A src ∧ 0 ≤ load A my_cpu) by (unfold load; lia).
    destruct (Z.leb_spec 2 (load A src - load A my_cpu)); [|lia].
    rewrite Z.quot_div_nonneg by lia. Z.to_euclidean_division_equations. lia. }
  clearbody n. destruct (Z.eqb_spec n 0) as [|Hn0]; [by apply wp_ret|].
  unfold DetachTasks, Rq_DetachTasks. simpl. wpstep. wpstep. wpstep.
  eapply wp_cpu_state; [done..|]. intros k' (Ek' & _). rewrite Ek'.
  eapply wp_mono; [apply (wp_DetachTasks_loop src my_cpu Hsrc Hmy A cur n (A_rq A src) A [] s Hv Hi)|].
  - split_and!; try done; [apply same_tasks_refl|simpl; lia|by intros d ?%elem_of_nil|constructor].
  - simpl. lia.
  - by eapply rq_nodup.
  - done.
  - intros Y s1 (C & Hv1 & Hi1 & (Hsame1 & Hrq1 & Hld1 & Hmq1 & Htr1 & Hnd1 & Hnil) & Hle). apply wp_ret. simpl.
    destruct (Z.eqb_spec (Z.of_nat (length Y)) 0) as [E0|Hne0].
    + wpstep. apply wp_ret. apply wp_ret. destruct Y as [|? ?]; [|done]. exists C.
      split_and!; [done|done|]. split_and!; [done|done|left]. split; [done|]. intros c.
      destruct (decide (c = src)) as [->|]; auto.
    + unfold AttachTasks. simpl. wpstep. wpstep.
      eapply wp_mono; [apply (wp_Rq_AttachTasks my_cpu Hmy C cur Y s1 Hv1)|].
      * eapply abs_inv_perm; [|exact Hi1]. intros p. by rewrite !list_elem_of_In, <- in_rev.
      * done.
      * done.
      * intros [] s2 (B & Hv2 & Hi2 & Hsame2 & Hrq2 & Hmq2 & Hld2). apply wp_ret. apply wp_ret. exists B.
        split_and!; [done|done|]. split_and!; [by eapply same_tasks_trans|congruence|right].
        assert (load C my_cpu = load A my_cpu) as E1 by (unfold load; by rewrite Hrq1).
        assert (load B src = load C src) as E2 by (unfold load; by rewrite Hrq2).
        exists src. split_and!; try done; try lia. intros c Hc1 Hc2. by rewrite Hrq2, Hrq1.
Qed.
End balance.
