(* ===== verification/CfsSystem.v ===== *)
(** * CfsSystem: the schedule step and the steps of the agents

    [CfsSchedule] keeps the invariant unless the CPU's current task died, when
    it always crashes.  The steps of all the agents form a transition system
    whose reachable states satisfy the invariant.

    The CFS agents as a transition system.

    The steps of the agents of an enclave and the states they reach from the
    constructor, all of which satisfy the invariant, with a sample machine and
    a run of it: a task is created, placed, scheduled, and dies. *)

From S2P Require Import Prelude Outcome CpuMap CpuMapSpec Topology TopologySpec TopologyClaims Dispatch CfsRq CfsSched CfsBasics.
From S2P Require Import CfsInv CfsOps CfsHandlers CfsMessages CfsPick CfsBalance.
From stdpp Require Import gmap functions sorting.
From Stdlib Require Import ZArith Lia.

Local Open Scope Z_scope.

Section schedule.
Context (env : CfsEnv) (Henv : env_ok env).
Context (my_cpu : Z) (Hmy : in_enclave env my_cpu).

Notation view := (view env).
Notation abs_inv := (abs_inv env).
Notation rest := (rest env).

(** The current task of [c] is not dead. *)
Definition current_alive (A : Abs) (c : Z) : Prop :=
  ∀ t, A_cu A c ≠ 0 → tasks A !! A_cu A c = Some t → st t ≠ kDone.

(** [next] becomes the current task. *)
Lemma wp_run_task A c p s :
  rest s A → A_cu A c = p → p ≠ 0 →
  wp (run_task env c p) s (λ _ s', ∃ A', rest s' A' ∧ A_cu A' = A_cu A).
Proof.
  intros [Hv Hi] Hcur Hp0. destruct (ai_cur _ _ _ _ Hi c) as (_ & t & Ht & Htc & Ho & Hs); [congruence|].
  rewrite Hcur in Ht. pose proof (rest_wf env _ _ _ _ _ Hi (not_elem_of_nil _) Ht) as Hw.
  unfold run_task. wpstep. eapply wp_task_at; [done..|]. wpstep. eapply wp_ask; [done|]. intros n s1 Hv1.
  wpstep. eapply wp_log; [done|]. intros s2 Hv2. wpstep. eapply wp_ask; [done|]. intros n' s3 Hv3.
  wpstep; [intros _|by exists A; split]. wpstep. eapply wp_ask; [done|]. intros n2 s4 Hv4. cbv zeta.
  eapply wp_upd_task; [done..|]. intros s5 Hv5. eexists. split; [split; [exact Hv5|]|done].
  eapply inv_put_same; [done|apply not_elem_of_nil|done|done|done|right; congruence|done..].
Qed.

Lemma wp_pick_zero cur A c s :
  view s A → abs_inv [] cur A → 0 ≤ c < 512 → cur c = 0 →
  (A_cu A c ≠ 0 → is_Some (tasks A !! A_cu A c)) →
  wp (PickNextTask env c 0) s (λ next s', ∃ A', view s' A' ∧ left_over env cur A A' c next).
Proof using Henv.
  intros Hv Hi Hc Hcur Hlive. unfold PickNextTask. wpstep. eapply wp_cpu_state; [done..|].
  intros k _. simpl. wpstep. wpstep. simpl. wpstep. eapply wp_set_preempt; [done..|]. intros s1 Hv1.
  wpstep. wpstep. by apply wp_pick_leftmost.
Qed.

(** The idle balance keeps what is known of the previous task. *)
Lemma wp_NewIdleBalance cur A s :
  view s A → abs_inv [] cur A → cur my_cpu = 0 →
  (A_cu A my_cpu ≠ 0 → is_Some (tasks A !! A_cu A my_cpu)) →
  wp (NewIdleBalance env my_cpu my_cpu) s (λ next s', ∃ A', view s' A' ∧
    abs_inv [] (<[my_cpu := next]> cur) A' ∧ A_cu A' = A_cu A).
Proof using Henv Hmy.
  intros Hv Hi Hcur Hlive. pose proof (in_enclave_range env Henv _ Hmy) as Hr.
  unfold NewIdleBalance. eapply wp_seq; [by apply (wp_LoadBalance env Henv my_cpu Hmy cur A)|].
  intros n s1 (B & Hv1 & Hi1 & Hsame & _). pose proof Hsame as [Hcu _]. destruct (n <=? 0).
  - apply wp_ret. exists B. split_and!; [done| |done].
    eapply abs_inv_ext; [done..| |exact Hi1]. intros c. rewrite <- Hcur. apply insert_self.
  - eapply wp_mono; [eapply (wp_pick_zero cur B); [done|done|lia|done|]|].
    + rewrite Hcu. intros Hne. eapply same_tasks_live; eauto.
    + intros next s2 (A2 & Hv2 & Hi2 & Hcu2 & _). exists A2. split_and!; [done|done|congruence].
Qed.

(** [CfsSchedule]: it ends at rest, and only idles when there was nothing to
    run. *)
Lemma wp_CfsSchedule A s :
  rest s A → current_alive A my_cpu →
  wp (CfsSchedule env my_cpu my_cpu false) s (λ _ s', ∃ A', rest s' A' ∧
    (A_cu A' my_cpu = 0 → pool A my_cpu (A_cu A my_cpu) = [])).
Proof using Henv Hmy.
  intros Hr Hal. pose proof Hr as [Hv Hi]. pose proof (in_enclave_range env Henv _ Hmy) as Hrm.
  unfold CfsSchedule. wpstep. eapply wp_cpu_state; [done|lia|]. intros k (_ & _ & _ & -> & _).
  eapply wp_seq; [apply (wp_PickNextTask env Henv A my_cpu s); [done|lia|done]|].
  intros next s1 (A1 & Hv1 & Hi1 & Hcu1 & Hlive & Hpick).
  apply (wp_seq _ _ _ (λ next' s2, ∃ A2, view s2 A2 ∧ abs_inv [] (<[my_cpu := next']> (A_cu A)) A2 ∧
    A_cu A2 = A_cu A ∧ (next' = 0 → next = 0))).
  { destruct (Z.eqb_spec next 0) as [->|Hne]; simpl; [destruct (idle_load_balancing_ env)|].
    - eapply wp_mono; [eapply (wp_NewIdleBalance (<[my_cpu := 0]> (A_cu A)) A1)|]; try done.
      + apply fn_lookup_insert.
      + by rewrite Hcu1.
      + intros n s2 (A2 & Hv2 & Hi2 & Hcu2). exists A2. split_and!; [done| |congruence|done].
        eapply abs_inv_ext; [done..| |exact Hi2]. intros d. by rewrite insert_twice.
    - apply wp_ret. exists A1. by split_and!.
    - apply wp_ret. exists A1. by split_and!. }
  intros next' s2 (A2 & Hv2 & Hi2 & Hcu2 & Hz). wpstep. eapply wp_set_current; [done|lia|]. intros s3 Hv3.
  set (A3 := A_set_cu my_cpu next' A2) in *.
  assert (rest s3 A3) as Hr3.
  { split; [done|]. simpl. rewrite Hcu2. by apply abs_inv_cu. }
  assert (A_cu A3 my_cpu = next') as Ecur by apply fn_lookup_insert.
  destruct (Z.eqb_spec next' 0) as [E|Hne].
  - wpstep. exists A3. split; [destruct Hr3; by split|]. intros _. specialize (Hz E). subst next. simpl in Hpick.
    destruct (negb (A_cu A my_cpu =? 0) && negb (preempt_curr (cpu_states_ s my_cpu))) eqn:Eb; [|done].
    apply andb_true_iff in Eb as [Eb%negb_true_iff _]. zbool. by destruct Hpick.
  - eapply wp_mono; [by apply (wp_run_task A3 my_cpu next')|]. intros [] s4 (A4 & Hr4 & Hcu4).
    exists A4. split; [done|]. rewrite Hcu4, Ecur. done.
Qed.

(** The boosted agent: its current task goes back, alive or not. *)
Lemma wp_CfsSchedule_boosted A s :
  rest s A →
  wp (CfsSchedule env my_cpu my_cpu true) s (λ _ s', ∃ A', rest s' A' ∧ A_cu A' my_cpu = 0).
Proof using Henv Hmy.
  intros Hr. pose proof Hr as [Hv Hi]. pose proof (in_enclave_range env Henv _ Hmy) as Hrm.
  unfold CfsSchedule, CfsSchedule_boosted. wpstep. eapply wp_cpu_state; [done|lia|].
  intros k (_ & _ & _ & -> & _). cbv zeta. wpstep.
  destruct (Z.eqb_spec (A_cu A my_cpu) 0) as [E|Hne]; simpl.
  { apply wp_ret. wpstep. exists A. split; [by split|done]. }
  destruct (ai_cur _ _ _ _ Hi my_cpu Hne) as (_ & t & Ht & Htc & Ho & Hs).
  apply (wp_seq _ _ _ (λ _ s1, ∃ A1, view s1 A1 ∧ abs_inv [] (<[my_cpu := 0]> (A_cu A)) A1 ∧
    A_cu A1 = A_cu A)).
  { destruct Hs as [Hs|Hs]; eapply wp_mono;
      [apply (wp_reconcile_running env Henv A my_cpu _ t s); try done; lia|
      |apply (wp_reconcile_done env A my_cpu _ t s); try done; lia|];
      intros [] s1 (A1 & Hv1 & Hi1 & Hcu1 & _); by exists A1. }
  intros [] s1 (A1 & Hv1 & Hi1 & Hcu1).
  wpstep. eapply wp_set_preempt; [done|lia|]. intros s2 Hv2. wpstep.
  eapply wp_set_current; [done|lia|]. intros s3 Hv3. set (A3 := A_set_cu my_cpu 0 A1) in *.
  assert (abs_inv [] (A_cu A3) A3) as Hi3 by (simpl; rewrite Hcu1; by apply abs_inv_cu).
  eapply wp_UpdateMin; [done|lia|by eapply abs_rq_ok| |].
  - simpl. by rewrite fn_lookup_insert.
  - intros s4 Hv4. wpstep. exists A3. split; [by split|]. apply fn_lookup_insert.
Qed.

Lemma CfsSchedule_crash A s t :
  rest s A → A_cu A my_cpu ≠ 0 → tasks A !! A_cu A my_cpu = Some t → st t = kDone →
  CfsSchedule env my_cpu my_cpu false s = Crash UseAfterFree.
Proof using Henv Hmy.
  intros Hr Hne Ht Hs. pose proof Hr as [Hv Hi]. pose proof (in_enclave_range env Henv _ Hmy) as Hrm.
  unfold CfsSchedule. apply crash_bind. eapply wp_cpu_state; [done|lia|]. intros k (_ & _ & _ & -> & _).
  unfold mbind, M_bind. rewrite (PickNextTask_crash env Henv A my_cpu t s); [done|done|lia|done..].
Qed.
End schedule.

(** ** The CFS agents as a transition system *)

(** ** Steps *)

Section steps.
Context (env : CfsEnv).

(** A step of the agent of [c]: a message, its migration requests, its
    scheduling pass. *)
Inductive cfs_step (s : Cfs) : Cfs → Prop :=
| step_message c m s' :
    in_enclave env c → msg_ok env c s m →
    @DispatchMessage Cfs CfsTask _ _ (Cfs_ops env c) m s = Ok (tt, s') → cfs_step s s'
| step_migrate c s' :
    in_enclave env c → MigrateTasks env c c s = Ok (tt, s') → cfs_step s s'
| step_schedule c boosted s' :
    in_enclave env c → CfsSchedule env c c boosted s = Ok (tt, s') → cfs_step s s'.

Inductive cfs_reachable (min_granularity latency : Z) : Cfs → Prop :=
| reach_init s : CfsScheduler_new env min_granularity latency = Ok s →
    cfs_reachable min_granularity latency s
| reach_step s s' : cfs_reachable min_granularity latency s → cfs_step s s' →
    cfs_reachable min_granularity latency s'.

Context (Henv : env_ok env).

Lemma init_states g l (cs : list Z) (f : Z → CpuState) c :
  let new c := mkCpuState 0 true (SetLatency l (SetMinGranularity g CfsRq_new)) ∅ false c in
  foldl (λ f c, <[c := new c]> f) f cs c = if decide (c ∈ cs) then new c else f c.
Proof.
  intros new. revert f. induction cs as [|d cs IH]; intros f; simpl; [done|].
  rewrite IH. destruct (decide (c ∈ cs)) as [Hin|Hnin], (decide (c ∈ d :: cs)) as [Hin'|Hnin']; try done.
  - exfalso. apply Hnin'. by right.
  - apply elem_of_cons in Hin' as [->|]; [|done]. apply fn_lookup_insert.
  - apply not_elem_of_cons in Hnin' as [Hne _]. by rewrite fn_lookup_insert_ne.
Qed.

Lemma init_inv g l s : CfsScheduler_new env g l = Ok s → cfs_inv env s.
Proof using Henv.
  destruct (eo_cpus _ Henv) as [Hw Hn]. unfold CfsScheduler_new. rewrite iterate_spec by done.
  cbn [mbind outcome_bind]. intros [= <-].
  exists (mkAbs (mkAllocator ∅ ∅) (λ _, []) (λ _, ∅) (λ _, 0)). split.
  - split; [done|]. intros c. simpl. rewrite (init_states g l). destruct (decide (c ∈ elems (cpus env))) as [Hin|Hnin].
    + by split_and!.
    + split_and!; try done. intros [H0 H1]. exfalso. apply Hnin. by apply elem_of_elems.
  - constructor; simpl; try done.
    + split; [done|]. intros g' p. simpl. rewrite lookup_empty. split; [done|]. intros (t & Ht & _).
      by rewrite lookup_empty in Ht.
    + intros. constructor.
    + by intros c p ?%elem_of_nil.
Qed.

Lemma step_inv s s' : cfs_inv env s → cfs_step s s' → cfs_inv env s'.
Proof using Henv.
  intros Hi Hs. destruct Hs as [c m s' Hc Hm E|c s' Hc E|c b s' Hc E].
  - pose proof (dispatch_rest env Henv c Hc s m Hi Hm) as H. unfold wp in H. by rewrite E in H.
  - pose proof (in_enclave_range env Henv _ Hc) as Hr.
    pose proof (wp_MigrateTasks env Henv c Hc c s ltac:(lia) Hi) as H. unfold wp in H. by rewrite E in H.
  - destruct Hi as (A & Hr). destruct b.
    + pose proof (wp_CfsSchedule_boosted env Henv c Hc A s Hr) as H. unfold wp in H. rewrite E in H.
      destruct H as (A' & H & _). by exists A'.
    + destruct (decide (A_cu A c = 0)) as [E0|Hne].
      * pose proof (wp_CfsSchedule env Henv c Hc A s Hr) as H. unfold wp in H. rewrite E in H.
        destruct H as (A' & H & _); [by intros t ?|]. by exists A'.
      * destruct (ai_cur _ _ _ _ (proj2 Hr) c Hne) as (_ & t & Ht & _ & _ & Hst).
        destruct (decide (st t = kDone)) as [Hd|Hd].
        { by rewrite (CfsSchedule_crash env Henv c Hc A s t) in E. }
        pose proof (wp_CfsSchedule env Henv c Hc A s Hr) as H. unfold wp in H. rewrite E in H.
        destruct H as (A' & H & _); [intros t' _ Ht'; congruence|]. by exists A'.
Qed.

Lemma reachable_inv g l s : cfs_reachable g l s → cfs_inv env s.
Proof using Henv. induction 1; [by eapply init_inv|by eapply step_inv]. Qed.
End steps.

(** ** A sample machine *)

Lemma sample_env_ok : env_ok sample_cfs_env.
Proof.
  constructor.
  - simpl. lia.
  - apply sample_topo_ok.
  - split; [|done]. apply sample_topo_ok.
  - intros a _. apply fresh_addr_ok.
  - done.
  - done.
Qed.

(** The state after a computation. *)
Definition after (m : M Cfs unit) (s : Cfs) : Cfs :=
  match m s with Ok (_, s') => s' | Crash _ => s end.

Lemma after_ok m s Q : wp m s Q → m s = Ok (tt, after m s).
Proof. unfold wp, after. by destruct (m s) as [[[] s']|]. Qed.

(** ** Deciding whether the kernel may send a message *)

Section decide.
Context (env : CfsEnv) (my_cpu : Z).

Definition in_range (x lo hi : Z) : bool := (lo <=? x) && (x <=? hi).

Definition leave_okb (cur p : Z) (t : CfsTask) (m : Message) : bool :=
  if msg_from_switchto m
  then bool_decide (st t = kBlocked) && in_range (msg_cpu m) 0 (num_cpus_ (topo env) - 1)
  else (cur =? p) && (msg_cpu m =? my_cpu).

Definition task_msg_okb (cur p : Z) (t : CfsTask) (m : Message) : bool :=
  let ty := msg_type m in
  (cpu t =? my_cpu) && bool_decide (st t ≠ kDone) && (seqnum t <? msg_seqnum m) &&
  (if ty =? MSG_TASK_WAKEUP then bool_decide (st t = kBlocked) else true) &&
  (if (ty =? MSG_TASK_BLOCKED) || (ty =? MSG_TASK_YIELD) || (ty =? MSG_TASK_PREEMPT)
   then leave_okb cur p t m else true) &&
  (if ty =? MSG_TASK_SWITCHTO then cur =? p else true) &&
  (if (ty =? MSG_TASK_DEPARTED) && msg_from_switchto m
   then in_range (msg_cpu m) 0 (num_cpus_ (topo env) - 1) else true) &&
  (if ty =? MSG_TASK_PRIORITY_CHANGED then in_range (msg_nice m) kMinNice kMaxNice else true).

(** The messages about tasks. *)
Definition msg_okb (s : Cfs) (m : Message) : bool :=
  in_range (msg_type m) MSG_TASK_DEAD MSG_TASK_PRIORITY_CHANGED && negb (msg_gtid m =? 0) &&
  match task_map_ (allocator_ s) !! msg_gtid m with
  | None => if msg_type m =? MSG_TASK_NEW then in_range (msg_nice m) kMinNice kMaxNice else true
  | Some p => if msg_type m =? MSG_TASK_NEW then true else
      match heap (allocator_ s) !! p with
      | Some t => task_msg_okb (current (cpu_states_ s my_cpu)) p t m
      | None => true
      end
  end.

Lemma in_range_spec x lo hi : in_range x lo hi = true ↔ lo ≤ x ≤ hi.
Proof. unfold in_range. rewrite andb_true_iff, !Z.leb_le. done. Qed.

Lemma leave_okb_ok cur p t m : leave_okb cur p t m = true → leave_ok env my_cpu cur p t m.
Proof.
  unfold leave_okb, leave_ok. destruct (msg_from_switchto m); rewrite andb_true_iff.
  - rewrite bool_decide_eq_true, in_range_spec. intros [? ?]. split; [done|lia].
  - rewrite !Z.eqb_eq. done.
Qed.

Lemma task_msg_okb_ok cur p t m : task_msg_okb cur p t m = true → task_msg_ok env my_cpu cur p t m.
Proof.
  unfold task_msg_okb, task_msg_ok. cbv zeta. rewrite !andb_true_iff.
  intros [[[[[[[H1 H2] H3] H4] H5] H6] H7] H8]. apply bool_decide_eq_true in H2. zbool.
  split_and!; [done|done|done|..].
  - intros E. rewrite E in H4. by apply bool_decide_eq_true in H4.
  - intros E. apply leave_okb_ok. by destruct E as [E|[E|E]]; rewrite E in H5.
  - intros E. rewrite E in H6. by apply Z.eqb_eq.
  - intros E Ef. rewrite E, Ef in H7. apply in_range_spec in H7. lia.
  - intros E. rewrite E in H8. by apply in_range_spec.
Qed.

Lemma msg_okb_ok s m : msg_okb s m = true → msg_ok env my_cpu s m.
Proof.
  unfold msg_okb. rewrite !andb_true_iff, in_range_spec, negb_true_iff, Z.eqb_neq.
  intros [[H1 H2] H3]. right; right. split_and!; [lia|lia|done|].
  destruct (task_map_ (allocator_ s) !! msg_gtid m) as [p|].
  - intros Hn t Ht. rewrite (proj2 (Z.eqb_neq _ _) Hn), Ht in H3. by apply task_msg_okb_ok.
  - intros E. rewrite E in H3. by apply in_range_spec.
Qed.
End decide.

(** ** A sample run *)

Notation sample_dispatch m := (@DispatchMessage Cfs CfsTask _ _ (Cfs_ops sample_cfs_env 0) m).
Notation sample_migrate := (MigrateTasks sample_cfs_env 0 0).
Notation sample_schedule := (CfsSchedule sample_cfs_env 0 0 false).
Notation sample_reach := (cfs_reachable sample_cfs_env 1000 10000).

Definition sample_msg (gtid nice ty sq : Z) : Message := mkMessage ty sq gtid 0 true false nice false 0.

Definition cfs0 : Cfs :=
  match CfsScheduler_new sample_cfs_env 1000 10000 with
  | Ok s => s
  | Crash _ => mkCfs (mkAllocator ∅ ∅) (λ _, CpuState_new) 0 []
  end.

(** The task 7 is created, put on the idle CPU 0, scheduled, and dies. *)
Definition cfs1 : Cfs := after (sample_dispatch (sample_msg 7 0 MSG_TASK_NEW 1)) cfs0.
Definition cfs2 : Cfs := after sample_migrate cfs1.
Definition cfs3 : Cfs := after sample_schedule cfs2.
Definition cfs4 : Cfs := after (sample_dispatch (sample_msg 7 0 MSG_TASK_DEAD 2)) cfs3.

(** Or, while it runs, the task 8 of the least nice value joins it, preempts
    it, runs and yields. *)
Definition cfs5 : Cfs :=
  after sample_migrate (after (sample_dispatch (sample_msg 8 (-20) MSG_TASK_NEW 1)) cfs3).
Definition cfs6 : Cfs := after (sample_dispatch (sample_msg 7 0 MSG_TASK_PREEMPT 2)) cfs5.
Definition cfs7 : Cfs := after sample_schedule cfs6.
Definition cfs8 : Cfs := after (sample_dispatch (sample_msg 8 (-20) MSG_TASK_YIELD 2)) cfs7.

Lemma sample_cpu0 : in_enclave sample_cfs_env 0.
Proof. by vm_compute. Qed.

Lemma sample_reach0 : sample_reach cfs0.
Proof.
  apply reach_init. unfold cfs0. destruct (CfsScheduler_new sample_cfs_env 1000 10000) as [s|f] eqn:E; [done|].
  exfalso. assert (match CfsScheduler_new sample_cfs_env 1000 10000 with Ok _ => true | Crash _ => false end = true) as H
    by by vm_compute. by rewrite E in H.
Qed.

Lemma sample_inv s : sample_reach s → cfs_inv sample_cfs_env s.
Proof. by apply reachable_inv, sample_env_ok. Qed.

Lemma sample_reach_msg m s :
  sample_reach s → msg_okb sample_cfs_env 0 s m = true → sample_reach (after (sample_dispatch m) s).
Proof.
  intros Hr Hm%msg_okb_ok. eapply reach_step; [exact Hr|].
  apply (step_message _ _ 0 m); [apply sample_cpu0|done|].
  eapply after_ok, dispatch_rest; [apply sample_env_ok|apply sample_cpu0|by apply sample_inv|done].
Qed.

Lemma sample_reach_migrate s : sample_reach s → sample_reach (after sample_migrate s).
Proof.
  intros Hr. eapply reach_step; [exact Hr|]. apply (step_migrate _ _ 0); [apply sample_cpu0|].
  eapply after_ok, wp_MigrateTasks; [apply sample_env_ok|apply sample_cpu0|done|by apply sample_inv].
Qed.

(** A successful computation, decided by running it. *)
Definition completes (m : M Cfs unit) (s : Cfs) : bool :=
  match m s with Ok _ => true | Crash _ => false end.

Lemma sample_reach_schedule s :
  sample_reach s → completes sample_schedule s = true → sample_reach (after sample_schedule s).
Proof.
  intros Hr Hc. eapply reach_step; [exact Hr|]. apply (step_schedule _ _ 0 false); [apply sample_cpu0|].
  unfold completes, after in *. by destruct (CfsSchedule sample_cfs_env 0 0 false s) as [[[] s']|].
Qed.

Lemma sample_reach1 : sample_reach cfs1.
Proof. apply sample_reach_msg; [apply sample_reach0|by vm_compute]. Qed.

Lemma sample_reach2 : sample_reach cfs2.
Proof. apply sample_reach_migrate, sample_reach1. Qed.

Lemma sample_reach3 : sample_reach cfs3.
Proof. apply sample_reach_schedule; [apply sample_reach2|by vm_compute]. Qed.

Lemma sample_reach4 : sample_reach cfs4.
Proof. apply sample_reach_msg; [apply sample_reach3|by vm_compute]. Qed.

Lemma sample_reach5 : sample_reach cfs5.
Proof. apply sample_reach_migrate, sample_reach_msg; [apply sample_reach3|by vm_compute]. Qed.

Lemma sample_reach6 : sample_reach cfs6.
Proof. apply sample_reach_msg; [apply sample_reach5|by vm_compute]. Qed.

Lemma sample_reach7 : sample_reach cfs7.
Proof. apply sample_reach_schedule; [apply sample_reach6|by vm_compute]. Qed.

Lemma sample_step8 : cfs_step sample_cfs_env cfs7 cfs8.
Proof.
  apply (step_message _ _ 0 (sample_msg 8 (-20) MSG_TASK_YIELD 2)); [apply sample_cpu0|apply msg_okb_ok; by vm_compute|].
  eapply after_ok, dispatch_rest; [apply sample_env_ok|apply sample_cpu0|apply sample_inv, sample_reach7|].
  apply msg_okb_ok. by vm_compute.
Qed.

(** What the handlers read of the task at [p]. *)
Definition sample_view (s : Cfs) (p : Z) : option (Z * Z * Z * State * OnRq) :=
  (λ t, (gtid t, cpu t, seqnum t, st t, orq t)) <$> heap (allocator_ s) !! p.

Lemma sample_view_task s p v :
  sample_view s p = Some v →
  ∃ t, heap (allocator_ s) !! p = Some t ∧ (gtid t, cpu t, seqnum t, st t, orq t) = v.
Proof. unfold sample_view. destruct (heap (allocator_ s) !! p) as [t|]; intros [= <-]. eauto. Qed.
