(* ===== verification/CfsClaims.v ===== *)
(** * CfsClaims: what the CFS agents guarantee

    Every task of a reachable state is in the one place its state names; no
    step aborts but the scheduling pass over a dead current task; each message
    acts on its task as the state machine says; the choices of a CPU and of a
    task are optimal; a load balance neither loses tasks nor inverts the load. *)

From S2P Require Import Prelude Outcome CpuMap CpuMapSpec.
From S2P Require Import Topology TopologySpec TopologyClaims Dispatch CfsRq CfsSched.
From S2P Require Import CfsBasics CfsInv CfsOps CfsHandlers CfsMessages.
From S2P Require Import CfsPick CfsBalance CfsSystem.
From stdpp Require Import gmap functions sorting.
From Stdlib Require Import ZArith Lia.

Local Open Scope Z_scope.

(** ** Every task is in one place *)

(** The places of a task, in the data structures of the scheduler. *)
Definition queued_on (s : Cfs) (c p : Z) : Prop := p ∈ rq_ (run_queue (cpu_states_ s c)).
Definition migrating_on (s : Cfs) (c p : Z) : Prop :=
  ∃ g a, migration_queue (cpu_states_ s c) !! g = Some a ∧ ma_task a = p.
Definition running_on (s : Cfs) (c p : Z) : Prop := current (cpu_states_ s c) = p.

(** The combinations of the two components of a task's state. *)
Definition valid_states : list (State * OnRq) :=
  [(kBlocked, kDequeued); (kRunnable, kQueued); (kRunnable, kMigrating);
   (kRunning, kDequeued); (kDone, kDequeued)].

(** C2. No task is lost or duplicated: in every reachable state a live task is
    on the run queue of a CPU exactly when it is queued and that CPU is its
    own, on its migration queue exactly when it is migrating, and current on it
    exactly when it is running or dead; its state is one of five combinations
    and the allocator finds it under its gtid. *)
Theorem cfs_no_task_lost (env : CfsEnv) (g l : Z) (s : Cfs) (p : Z) (t : CfsTask)
    (Henv : env_ok env) (Hr : cfs_reachable env g l s) (Hp : heap (allocator_ s) !! p = Some t) :
  (st t, orq t) ∈ valid_states ∧ GetTask (gtid t) (allocator_ s) = Some p ∧
  (∀ c, queued_on s c p ↔ c = cpu t ∧ orq t = kQueued) ∧
  (∀ c, migrating_on s c p ↔ c = cpu t ∧ orq t = kMigrating) ∧
  (∀ c, running_on s c p ↔ c = cpu t ∧ (st t = kRunning ∨ st t = kDone)).
Proof.
  destruct (reachable_inv env Henv g l s Hr) as (A & [Ha Hv] & Hi). rewrite Ha in *.
  destruct (ai_task _ _ _ _ Hi p t (not_elem_of_nil _) Hp) as [_ Hok]. unfold task_ok in Hok.
  pose proof (live_nonzero _ _ _ _ _ _ Hi Hp) as Hp0. split_and!.
  - unfold valid_states. destruct (orq t), (st t); try done; rewrite !elem_of_cons; tauto.
  - apply (ai_alloc _ _ _ _ Hi). eauto.
  - intros c. unfold queued_on. destruct (Hv c) as (-> & _). split.
    + intros Hin. destruct (ai_rq _ _ _ _ Hi c p Hin) as (_ & u & Hu & H1 & H2).
      assert (u = t) as -> by congruence. done.
    + intros [-> Ho]. rewrite Ho in Hok. by destruct (st t).
  - intros c. unfold migrating_on. destruct (Hv c) as (_ & _ & -> & _). split.
    + intros (g' & a & Hin & Ea). destruct (ai_mq _ _ _ _ Hi c g' a Hin) as (_ & _ & u & Hu & _ & H1 & H2).
      rewrite Ea in Hu. assert (u = t) as -> by congruence. done.
    + intros [-> Ho]. rewrite Ho in Hok. destruct (st t); try done. eauto.
  - intros c. unfold running_on. destruct (Hv c) as (_ & _ & _ & -> & _). split.
    + intros E. destruct (ai_cur _ _ _ _ Hi c) as (_ & u & Hu & H1 & _ & H2); [congruence|].
      rewrite E in Hu. assert (u = t) as -> by congruence. done.
    + intros [-> Hs]. destruct (orq t), (st t); naive_solver.
Qed.

Lemma cfs_no_task_lost_witness :
  sample_view cfs3 16 = Some (7, 0, 1, kRunning, kDequeued) ∧
  ∃ t, heap (allocator_ cfs3) !! 16 = Some t ∧ (running_on cfs3 0 16 ↔ 0 = cpu t ∧ (st t = kRunning ∨ st t = kDone)).
Proof.
  assert (sample_view cfs3 16 = Some (7, 0, 1, kRunning, kDequeued)) as E by by vm_compute.
  split; [exact E|]. destruct (sample_view_task _ _ _ E) as (t & Ht & _). exists t. split; [exact Ht|].
  destruct (cfs_no_task_lost sample_cfs_env 1000 10000 cfs3 16 t sample_env_ok sample_reach3 Ht)
    as (_ & _ & _ & _ & H). exact (H 0).
Defined.

(** The run queues of every reachable state are well formed: strictly
    ordered by vruntime and address, without duplicates, with the cached size
    equal to the number of tasks, and every task in any queue is allocated. *)
Theorem cfs_queues_ordered (env : CfsEnv) (g l : Z) (s : Cfs) (c : Z)
    (Henv : env_ok env) (Hr : cfs_reachable env g l s) :
  let rq := run_queue (cpu_states_ s c) in
  StronglySorted (rq_lt (heap (allocator_ s))) (rq_ rq) ∧ NoDup (rq_ rq) ∧
  LocklessSize rq = CfsRq_Size rq ∧
  (∀ p, p ≠ 0 → queued_on s c p ∨ migrating_on s c p ∨ running_on s c p →
     ∃ t, heap (allocator_ s) !! p = Some t ∧ cpu t = c).
Proof.
  destruct (reachable_inv env Henv g l s Hr) as (A & [Ha Hv] & Hi). cbv zeta.
  unfold queued_on, migrating_on, running_on, LocklessSize, CfsRq_Size.
  destruct (Hv c) as (-> & -> & -> & -> & _). rewrite Ha. split_and!.
  - apply (ai_sorted _ _ _ _ Hi).
  - by eapply rq_nodup.
  - done.
  - intros p Hp [Hin|[(g' & a & Hin & <-)|Hcur]].
    + destruct (ai_rq _ _ _ _ Hi c p Hin) as (_ & t & Ht & Hc & _). eauto.
    + destruct (ai_mq _ _ _ _ Hi c g' a Hin) as (_ & _ & t & Ht & _ & Hc & _). eauto.
    + destruct (ai_cur _ _ _ _ Hi c) as (_ & t & Ht & Hc & _); [congruence|]. rewrite Hcur in Ht. eauto.
Qed.

Lemma cfs_queues_ordered_witness :
  rq_ (run_queue (cpu_states_ cfs2 0)) = [16] ∧ NoDup (rq_ (run_queue (cpu_states_ cfs2 0))).
Proof.
  split; [by vm_compute|].
  exact (proj1 (proj2 (cfs_queues_ordered sample_cfs_env 1000 10000 cfs2 0 sample_env_ok sample_reach2))).
Defined.

(** ** No step aborts *)

(** The current task of [c] died and was not yet replaced. *)
Definition dead_current (s : Cfs) (c : Z) : Prop :=
  ∃ t, current (cpu_states_ s c) ≠ 0 ∧
    heap (allocator_ s) !! current (cpu_states_ s c) = Some t ∧ st t = kDone.

(** C6. No assertion fails, no index is out of range and no freed memory is
    read in any reachable state, whatever the kernel answers: every message it
    may send is handled, every migration pass and every boosted scheduling
    pass completes; an unboosted pass completes if the CPU's current task is
    not dead, and otherwise always ends in the use after free of that task. *)
Theorem cfs_steps_complete (env : CfsEnv) (g l : Z) (s : Cfs) (c : Z)
    (Henv : env_ok env) (Hr : cfs_reachable env g l s) (Hc : in_enclave env c) :
  (∀ m, msg_ok env c s m → ∃ s', @DispatchMessage Cfs CfsTask _ _ (Cfs_ops env c) m s = Ok (tt, s')) ∧
  (∃ s', MigrateTasks env c c s = Ok (tt, s')) ∧
  (∃ s', CfsSchedule env c c true s = Ok (tt, s')) ∧
  (¬ dead_current s c → ∃ s', CfsSchedule env c c false s = Ok (tt, s')) ∧
  (dead_current s c → CfsSchedule env c c false s = Crash UseAfterFree).
Proof.
  pose proof (reachable_inv env Henv g l s Hr) as Hinv. pose proof (in_enclave_range env Henv _ Hc) as Hrg.
  pose proof Hinv as (A & Hrest). pose proof Hrest as [[Ha Hv] Hi].
  unfold dead_current. destruct (Hv c) as (_ & _ & _ & -> & _). rewrite Ha. split_and!.
  - intros m Hm. exists (after (@DispatchMessage Cfs CfsTask _ _ (Cfs_ops env c) m) s).
    eapply after_ok, dispatch_rest; done.
  - exists (after (MigrateTasks env c c) s). eapply after_ok, wp_MigrateTasks; [done|done|lia|done].
  - exists (after (CfsSchedule env c c true) s). by eapply after_ok, wp_CfsSchedule_boosted.
  - intros Hd. exists (after (CfsSchedule env c c false) s). eapply after_ok, wp_CfsSchedule; [done..|].
    intros t Hne Ht Hs. apply Hd. eauto.
  - intros (t & Hne & Ht & Hs). by eapply CfsSchedule_crash.
Qed.

Lemma cfs_steps_complete_witness :
  dead_current cfs4 0 ∧ CfsSchedule sample_cfs_env 0 0 false cfs4 = Crash UseAfterFree.
Proof.
  assert (dead_current cfs4 0) as Hd.
  { destruct (sample_view_task cfs4 16 (7, 0, 1, kDone, kDequeued)) as (t & Ht & E); [by vm_compute|].
    injection E as _ _ _ E _. exists t. replace (current (cpu_states_ cfs4 0)) with 16 by (symmetry; by vm_compute).
    split; [lia|]. split; [exact Ht|exact E]. }
  split; [exact Hd|].
  exact (proj2 (proj2 (proj2 (proj2 (cfs_steps_complete sample_cfs_env 1000 10000 cfs4 0
           sample_env_ok sample_reach4 sample_cpu0)))) Hd).
Defined.

(** ** What a message does *)

(** C9. Refinement of the task state machine: a message about a task that the
    agent has leaves every other task alone, advances the task's sequence
    number (death messages aside) and moves it to the place that [next_place]
    gives for its type; a task that dies off the CPU is freed, one that dies on
    it stays until the next scheduling pass. *)
Theorem cfs_message_refines (env : CfsEnv) (g l : Z) (s : Cfs) (c : Z) (m : Message) (p : Z) (t : CfsTask)
    (Henv : env_ok env) (Hr : cfs_reachable env g l s) (Hc : in_enclave env c)
    (Hty : MSG_TASK_DEAD ≤ msg_type m ≤ MSG_TASK_PRIORITY_CHANGED ∧ msg_type m ≠ MSG_TASK_NEW)
    (Hm : msg_ok env c s m) (Hp : heap (allocator_ s) !! p = Some t) (Hg : gtid t = msg_gtid m) :
  ∃ s', @DispatchMessage Cfs CfsTask _ _ (Cfs_ops env c) m s = Ok (tt, s') ∧
    (∀ q, q ≠ p → heap (allocator_ s') !! q = heap (allocator_ s) !! q) ∧
    if is_death (msg_type m) && negb (current (cpu_states_ s c) =? p) then heap (allocator_ s') !! p = None
    else ∃ t', heap (allocator_ s') !! p = Some t' ∧ gtid t' = gtid t ∧ cpu t' = cpu t ∧
      seqnum t' = (if is_death (msg_type m) then seqnum t else msg_seqnum m) ∧
      (st t', orq t') = next_place t t' (msg_type m).
Proof.
  destruct (reachable_inv env Henv g l s Hr) as (A & Hrest). pose proof Hrest as [[Ha Hv] Hi].
  destruct Hty as [Hty Hnew]. rewrite Ha in *.
  assert (task_map_ (A_alloc A) !! msg_gtid m = Some p) as Hmap by (apply (ai_alloc _ _ _ _ Hi); eauto).
  assert (current (cpu_states_ s c) = A_cu A c) as Ecur by apply Hv.
  destruct Hm as [Hm|[[Hm _]|(_ & Hg0 & Hm)]].
  { unfold MSG_NOP, MSG_TASK_DEAD, _MSG_TASK_FIRST in *. lia. }
  { unfold MSG_TASK_PRIORITY_CHANGED, MSG_CPU_TICK, _MSG_CPU_FIRST in *. lia. }
  rewrite Ha, Hmap, Ecur in Hm. specialize (Hm Hnew t Hp).
  assert (wp (@DispatchMessage Cfs CfsTask _ _ (Cfs_ops env c) m) s (λ _, msg_effect env c A p t m)) as H.
  { apply wp_route; [done..|]. unfold task_route. wpstep. apply wp_find_other; [done|]. rewrite Ha, Hmap.
    by apply wp_dispatch_known. }
  apply wp_ok in H as ([] & s' & E & H). exists s'. split; [done|]. rewrite Ecur. unfold msg_effect in H.
  destruct (is_death (msg_type m) && negb (A_cu A c =? p)).
  - destruct H as (A' & [[-> _] _] & Hp' & Hq). by split.
  - destruct H as (A' & t' & [[-> _] _] & Hp' & (H1 & H2 & H3 & H4) & Hq). split; [done|]. eauto 10.
Qed.

Lemma cfs_message_refines_witness :
  sample_view cfs5 16 = Some (7, 0, 1, kRunning, kDequeued) ∧
  ∃ s' t', @DispatchMessage Cfs CfsTask _ _ (Cfs_ops sample_cfs_env 0) (sample_msg 7 0 MSG_TASK_PREEMPT 2) cfs5 = Ok (tt, s') ∧
    heap (allocator_ s') !! 16 = Some t' ∧ seqnum t' = 2.
Proof.
  assert (sample_view cfs5 16 = Some (7, 0, 1, kRunning, kDequeued)) as E by by vm_compute.
  split; [exact E|]. destruct (sample_view_task _ _ _ E) as (t & Ht & Et).
  destruct (cfs_message_refines sample_cfs_env 1000 10000 cfs5 0 (sample_msg 7 0 MSG_TASK_PREEMPT 2) 16 t
    sample_env_ok sample_reach5 sample_cpu0) as (s' & Hs & _ & t' & Ht' & _ & _ & Hsq & _).
  - split; [split|]; by vm_compute.
  - apply msg_okb_ok. by vm_compute.
  - exact Ht.
  - by injection Et.
  - exists s', t'. split; [exact Hs|]. split; [exact Ht'|exact Hsq].
Defined.

(** A TASK_NEW of an unknown thread adds exactly one task, with the
    message's sequence number and nice value and the agent's CPU: a runnable
    one waits for its migration, another is blocked. One of a known thread is
    dropped. *)
Theorem cfs_new_task (env : CfsEnv) (g l : Z) (s : Cfs) (c : Z) (m : Message)
    (Henv : env_ok env) (Hr : cfs_reachable env g l s) (Hc : in_enclave env c)
    (Hm : msg_type m = MSG_TASK_NEW ∧ msg_gtid m ≠ 0) (Hn : nice_ok (msg_nice m)) :
  ∃ s', @DispatchMessage Cfs CfsTask _ _ (Cfs_ops env c) m s = Ok (tt, s') ∧
  match GetTask (msg_gtid m) (allocator_ s) with
  | Some _ => ∀ q, heap (allocator_ s') !! q = heap (allocator_ s) !! q
  | None => ∃ p t', heap (allocator_ s) !! p = None ∧ heap (allocator_ s') !! p = Some t' ∧
      (∀ q, q ≠ p → heap (allocator_ s') !! q = heap (allocator_ s) !! q) ∧
      GetTask (msg_gtid m) (allocator_ s') = Some p ∧
      gtid t' = msg_gtid m ∧ cpu t' = c ∧ seqnum t' = msg_seqnum m ∧ nice t' = msg_nice m ∧
      (st t', orq t') = if msg_runnable m then (kRunnable, kMigrating) else (kBlocked, kDequeued)
  end.
Proof.
  destruct (reachable_inv env Henv g l s Hr) as (A & Hrest). pose proof Hrest as [[Ha Hv] Hi].
  destruct Hm as [Hty Hg]. rewrite Ha. unfold GetTask. apply wp_ok_unit. apply wp_route; [by rewrite Hty|done|].
  unfold task_route. wpstep. eapply wp_find_new; [done|done|done| |].
  - intros [p Hp] s' [[Ha' _] _]. wpstep. by rewrite Hp, Ha'.
  - intros En s' p B Hv' Hi' Hcu Hfresh HB. rewrite En.
    assert (tasks B !! p = Some (CfsTask_new (msg_gtid m))) as Hp by by rewrite HB, lookup_insert_eq.
    unfold dispatch_task. rewrite Hty. simpl. wpstep.
    eapply wp_seq; [apply (wp_New env Henv c Hc B p _ m s' Hv' Hi' Hp); try done; apply trace_new_wf|].
    intros [] s2 (A' & t' & [[Ha2 _] Hi2] & Hp' & (H1 & H2 & H3 & H4 & H5 & H6) & Hq). wpstep. wpstep; [done|].
    intros _. rewrite Ha2. exists p, t'. split_and!; try done.
    + intros q Hne. rewrite Hq by done. by rewrite HB, lookup_insert_ne.
    + apply (ai_alloc _ _ _ _ Hi2). eauto.
    + rewrite H5, H6. by destruct (msg_runnable m).
Qed.

Lemma cfs_new_task_witness :
  GetTask 7 (allocator_ cfs0) = None ∧
  ∃ s', @DispatchMessage Cfs CfsTask _ _ (Cfs_ops sample_cfs_env 0) (sample_msg 7 0 MSG_TASK_NEW 1) cfs0 = Ok (tt, s').
Proof.
  split; [by vm_compute|].
  destruct (cfs_new_task sample_cfs_env 1000 10000 cfs0 0 (sample_msg 7 0 MSG_TASK_NEW 1)
    sample_env_ok sample_reach0 sample_cpu0) as (s' & H & _).
  - split; [reflexivity|by vm_compute].
  - unfold nice_ok, kMinNice, kMaxNice. simpl. lia.
  - exists s'. exact H.
Defined.

(** ** Choosing a CPU and a task *)

(** The number of tasks on the run queue of [c]. *)
Definition nr_queued (s : Cfs) (c : Z) : Z := CfsRq_Size (run_queue (cpu_states_ s c)).

(** [SelectTaskRq] chooses well and changes nothing: the CPU is the
    agent's own or one that both the task's affinity and the enclave allow, and
    if any CPU is allowed then so is the chosen one and no allowed CPU has a
    shorter run queue; an allowed idle CPU is therefore always preferred. *)
Theorem select_task_rq_choice (env : CfsEnv) (g l : Z) (s : Cfs) (c p : Z) (t : CfsTask)
    (Henv : env_ok env) (Hr : cfs_reachable env g l s) (Hc : in_enclave env c)
    (Hp : heap (allocator_ s) !! p = Some t) :
  ∃ d, SelectTaskRq env c p s = Ok (d, s) ∧
    (d = c ∨ 0 ≤ d ∧ eligible env t d) ∧
    ∀ e, 0 ≤ e → eligible env t e → nr_queued s e ≤ UINT64_MAX →
      eligible env t d ∧ nr_queued s d ≤ nr_queued s e.
Proof.
  destruct (reachable_inv env Henv g l s Hr) as (A & [[Ha Hv] Hi]). rewrite Ha in Hp.
  pose proof (rest_wf env _ _ _ _ _ Hi (not_elem_of_nil _) Hp) as Hw.
  assert (wp (SelectTaskRq env c p) s (λ d s', s' = s ∧ selected env c A t d)) as H
    by by apply wp_SelectTaskRq.
  apply wp_ok in H as (d & s' & E & -> & H1 & H2). exists d. split_and!; [done|done|].
  unfold nr_queued, CfsRq_Size. intros e He Hel. destruct (Hv e) as (-> & _), (Hv d) as (-> & _). by apply H2.
Qed.

Lemma select_task_rq_choice_witness :
  SelectTaskRq sample_cfs_env 0 16 cfs6 = Ok (0, cfs6) ∨
  ∃ d, SelectTaskRq sample_cfs_env 0 16 cfs6 = Ok (d, cfs6) ∧ nr_queued cfs6 d ≤ nr_queued cfs6 1.
Proof.
  right. assert (sample_view cfs6 16 = Some (7, 0, 2, kRunnable, kQueued)) as E by by vm_compute.
  destruct (sample_view_task _ _ _ E) as (t & Ht & _).
  assert (bit (cpu_affinity t) 1 = true) as Hb.
  { assert ((λ t, bit (cpu_affinity t) 1) <$> heap (allocator_ cfs6) !! 16 = Some true) as H by by vm_compute.
    rewrite Ht in H. by injection H. }
  destruct (select_task_rq_choice sample_cfs_env 1000 10000 cfs6 0 16 t
    sample_env_ok sample_reach6 sample_cpu0 Ht) as (d & Hd & _ & H).
  exists d. split; [exact Hd|]. apply (H 1); [lia|split; [exact Hb|by vm_compute]|by vm_compute].
Defined.

(** C26. [PickNextTask] runs the task that has had the least CPU: a running task
    that is not to be preempted stays; otherwise, of the run queue with the
    previous task put back, the result is a task with minimal vruntime, now
    running and off the queue, or no task when that queue is empty. *)
Theorem pick_next_task_least_vruntime (env : CfsEnv) (g l : Z) (s : Cfs) (c : Z)
    (Henv : env_ok env) (Hr : cfs_reachable env g l s) (Hc : in_enclave env c) (Hd : ¬ dead_current s c) :
  let prev := current (cpu_states_ s c) in
  let queue := (if prev =? 0 then [] else [prev]) ++ rq_ (run_queue (cpu_states_ s c)) in
  ∃ next s', PickNextTask env c prev s = Ok (next, s') ∧
    if negb (prev =? 0) && negb (preempt_curr (cpu_states_ s c)) then next = prev
    else if next =? 0 then queue = []
    else next :: rq_ (run_queue (cpu_states_ s' c)) ≡ₚ queue ∧
      ∃ t', heap (allocator_ s') !! next = Some t' ∧ st t' = kRunning ∧ cpu t' = c ∧
        ∀ q tq, queued_on s' c q → heap (allocator_ s') !! q = Some tq → vruntime t' ≤ vruntime tq.
Proof.
  destruct (reachable_inv env Henv g l s Hr) as (A & Hrest). pose proof Hrest as [[Ha Hv] Hi].
  pose proof (in_enclave_range env Henv _ Hc) as Hrg. cbv zeta.
  unfold dead_current, queued_on in *. destruct (Hv c) as (Erq & _ & _ & Ecur & _). rewrite Ecur, Ha, Erq in *.
  assert (wp (PickNextTask env c (A_cu A c)) s (λ next s', ∃ A', view env s' A' ∧
    next_task env A A' c (preempt_curr (cpu_states_ s c)) next)) as H.
  { apply wp_PickNextTask; [done|done|lia|]. intros t Hne Ht Hs. apply Hd. eauto. }
  apply wp_ok in H as (next & s' & E & A' & [Ha' Hv'] & _ & _ & _ & H). exists next, s'. split; [done|].
  destruct (Hv' c) as (-> & _). rewrite Ha'. unfold pool in H.
  destruct (A_cu A c =? 0); simpl in *; [done|].
  destruct (preempt_curr (cpu_states_ s c)); simpl in *; [done|]. by destruct H.
Qed.

Lemma pick_next_task_least_vruntime_witness :
  current (cpu_states_ cfs6 0) = 0 ∧ rq_ (run_queue (cpu_states_ cfs6 0)) = [272; 16] ∧
  ∃ next s', PickNextTask sample_cfs_env 0 (current (cpu_states_ cfs6 0)) cfs6 = Ok (next, s').
Proof.
  assert (current (cpu_states_ cfs6 0) = 0) as E by by vm_compute.
  split; [exact E|]. split; [by vm_compute|].
  destruct (pick_next_task_least_vruntime sample_cfs_env 1000 10000 cfs6 0 sample_env_ok sample_reach6 sample_cpu0)
    as (next & s' & H & _); [intros (t & Hne & _); exact (Hne E)|].
  exists next, s'. exact H.
Defined.

(** C27. Load balancing is safe and useful: it neither loses nor changes the
    identity or the state of any task; when it moves tasks it moves at most 32
    of them, from a CPU of maximal load, to the agent's CPU, which afterwards
    has no more tasks than that CPU; the queues of all other CPUs stay. *)
Theorem load_balance_effect (env : CfsEnv) (g l : Z) (s : Cfs) (c : Z) (ty : CpuIdleType)
    (Henv : env_ok env) (Hr : cfs_reachable env g l s) (Hc : in_enclave env c) :
  ∃ n s', LoadBalance env c ty s = Ok (n, s') ∧
    (∀ p, match heap (allocator_ s) !! p, heap (allocator_ s') !! p with
          | Some t, Some u => gtid u = gtid t ∧ st u = st t ∧ cpu_affinity u = cpu_affinity t
          | None, None => True
          | _, _ => False
          end) ∧
    (n = 0 ∧ (∀ d, rq_ (run_queue (cpu_states_ s' d)) = rq_ (run_queue (cpu_states_ s d))) ∨
     ∃ src, src ≠ c ∧ (∀ d, in_enclave env d → nr_queued s d ≤ nr_queued s src) ∧ 1 ≤ n ≤ 32 ∧
       nr_queued s' src = nr_queued s src - n ∧ nr_queued s' c = nr_queued s c + n ∧
       nr_queued s' c ≤ nr_queued s' src ∧
       ∀ d, d ≠ src → d ≠ c → rq_ (run_queue (cpu_states_ s' d)) = rq_ (run_queue (cpu_states_ s d))).
Proof.
  destruct (reachable_inv env Henv g l s Hr) as (A & [Hv Hi]).
  pose proof (wp_LoadBalance env Henv c Hc (A_cu A) A ty s Hv Hi) as H.
  apply wp_ok in H as (n & s' & E & B & Hv' & _ & [_ Hsame] & _ & H). exists n, s'. split; [done|].
  assert (∀ d, rq_ (run_queue (cpu_states_ s d)) = A_rq A d) as Eq by (intros d; apply Hv).
  assert (∀ d, rq_ (run_queue (cpu_states_ s' d)) = A_rq B d) as Eq' by (intros d; apply Hv').
  assert (∀ d, nr_queued s d = load A d) as En by (intros d; unfold nr_queued, CfsRq_Size; by rewrite Eq).
  assert (∀ d, nr_queued s' d = load B d) as En' by (intros d; unfold nr_queued, CfsRq_Size; by rewrite Eq').
  split; [by rewrite (proj1 Hv), (proj1 Hv')|].
  destruct H as [[-> H]|(src & H1 & H2 & H3 & H4 & H5 & H6 & H7)].
  - left. split; [done|]. intros d. by rewrite Eq, Eq'.
  - right. exists src. split_and!; rewrite ?En, ?En'; try done; try lia.
    + intros d Hd. rewrite !En. auto.
    + intros d Hd1 Hd2. rewrite Eq, Eq'. auto.
Qed.

Lemma load_balance_effect_witness :
  ∃ n s', LoadBalance sample_cfs_env 1 kCpuNewlyIdle cfs6 = Ok (n, s').
Proof.
  destruct (load_balance_effect sample_cfs_env 1000 10000 cfs6 1 kCpuNewlyIdle sample_env_ok sample_reach6
    ltac:(by vm_compute)) as (n & s' & H & _).
  exists n, s'. exact H.
Defined.

(** C38. Scheduling is work conserving: after an unboosted pass the CPU has a
    current task, unless it had none before and its run queue was empty; after
    a boosted pass it has none, and the task that was running is back on the
    run queue. *)
Theorem cfs_schedule_work_conserving (env : CfsEnv) (g l : Z) (s : Cfs) (c : Z)
    (Henv : env_ok env) (Hr : cfs_reachable env g l s) (Hc : in_enclave env c) (Hd : ¬ dead_current s c) :
  (∃ s', CfsSchedule env c c false s = Ok (tt, s') ∧
     (current (cpu_states_ s' c) = 0 →
      current (cpu_states_ s c) = 0 ∧ rq_ (run_queue (cpu_states_ s c)) = [])) ∧
  (∃ s', CfsSchedule env c c true s = Ok (tt, s') ∧ current (cpu_states_ s' c) = 0).
Proof.
  destruct (reachable_inv env Henv g l s Hr) as (A & Hrest). pose proof Hrest as [[Ha Hv] Hi]. split.
  - unfold dead_current in Hd. destruct (Hv c) as (-> & _ & _ & Ec & _). rewrite Ec, Ha in *.
    assert (current_alive A c) as Hal by (intros t Hne Ht Hs; apply Hd; eauto).
    pose proof (wp_CfsSchedule env Henv c Hc A s Hrest Hal) as H.
    apply wp_ok_unit in H as (s' & E & A' & [[_ Hv'] _] & H). exists s'. split; [done|].
    destruct (Hv' c) as (_ & _ & _ & -> & _). intros E0. specialize (H E0). unfold pool in H.
    destruct (Z.eqb_spec (A_cu A c) 0); [done|discriminate].
  - pose proof (wp_CfsSchedule_boosted env Henv c Hc A s Hrest) as H.
    apply wp_ok_unit in H as (s' & E & A' & [[_ Hv'] _] & H). exists s'. split; [done|].
    by destruct (Hv' c) as (_ & _ & _ & -> & _).
Qed.

Lemma cfs_schedule_work_conserving_witness :
  rq_ (run_queue (cpu_states_ cfs6 0)) = [272; 16] ∧
  ∃ s', CfsSchedule sample_cfs_env 0 0 false cfs6 = Ok (tt, s') ∧ current (cpu_states_ s' 0) ≠ 0.
Proof.
  assert (rq_ (run_queue (cpu_states_ cfs6 0)) = [272; 16]) as Erq by by vm_compute.
  assert (current (cpu_states_ cfs6 0) = 0) as Ec by by vm_compute.
  split; [exact Erq|].
  destruct (cfs_schedule_work_conserving sample_cfs_env 1000 10000 cfs6 0 sample_env_ok sample_reach6 sample_cpu0)
    as [(s' & H & Hw) _]; [intros (t & Hne & _); exact (Hne Ec)|].
  exists s'. split; [exact H|]. intros E. destruct (Hw E) as [_ Hnil]. rewrite Erq in Hnil. discriminate Hnil.
Defined.

(** ** The minimum vruntime *)

Definition min_vr (s : Cfs) (c : Z) : Z := min_vruntime_ (run_queue (cpu_states_ s c)).

Lemma upd_rq_min c v s s' :
  upd_rq c (λ rq, set_min_vruntime (Z.max (min_vruntime_ rq) v) rq) s = Ok (tt, s') →
  min_vr s c ≤ min_vr s' c.
Proof.
  unfold upd_rq, upd_cs, cpu_state, mbind, M_bind. destruct ((0 <=? c) && (c <? MAX_CPUS)); simpl; [|done].
  intros [= <-]. unfold min_vr. simpl. rewrite fn_lookup_insert. simpl. lia.
Qed.

Lemma wlp_task_at p s : wlp (task_at p) s (λ (_ : CfsTask) s', s' = s).
Proof. unfold wlp, task_at, lift. by destruct (deref _ _). Qed.

Lemma UpdateMinVruntime_mono c s s' :
  UpdateMinVruntime c s = Ok (tt, s') → min_vr s c ≤ min_vr s' c.
Proof.
  assert (wlp (UpdateMinVruntime c) s (λ _ s', min_vr s c ≤ min_vr s' c)) as H.
  { unfold UpdateMinVruntime. apply (wlp_seq _ _ _ (λ _ s', s' = s)).
    { unfold wlp, cpu_state. by destruct (_ && _). }
    intros k ? ->. cbv zeta. apply (wlp_seq _ _ _ (λ _ s', s' = s)).
    { apply wlp_if; [done|]. eapply wlp_seq; [apply wlp_task_at|]. by intros t ? ->. }
    intros o ? ->. apply (wlp_seq _ _ _ (λ _ s', s' = s)).
    { apply wlp_if; [done|]. eapply wlp_seq; [apply wlp_task_at|]. by intros t ? ->. }
    intros v ? ->. unfold wlp. destruct (upd_rq _ _ s) as [[[] s2]|] eqn:E; [|done]. by apply upd_rq_min in E. }
  unfold wlp in H. by destruct (UpdateMinVruntime c s) as [[[] s2]|]; [intros [= <-]|].
Qed.

(** [UpdateMinVruntime] never moves the minimum vruntime back, but
    [InsertTaskIntoRq], which sets it to the leftmost task's, does: there is a
    reachable state in which the current task yields, is put back on the run
    queue, and the minimum vruntime of the CPU decreases. *)
Theorem min_vruntime_goes_back :
  (∀ c s s', UpdateMinVruntime c s = Ok (tt, s') → min_vr s c ≤ min_vr s' c) ∧
  ∃ s s', cfs_reachable sample_cfs_env 1000 10000 s ∧ cfs_step sample_cfs_env s s' ∧
    min_vr s' 0 < min_vr s 0.
Proof.
  split; [intros c s s'; apply UpdateMinVruntime_mono|].
  exists cfs7, cfs8. split; [apply sample_reach7|split; [apply sample_step8|by vm_compute]].
Qed.

(** ** Discovery after an upgrade *)

Section discovery.
Context (env : CfsEnv) (c : Z).

(** The discovery of one status word by the CFS agent of [c], which does
    nothing on [TaskDiscovered]. *)
Definition cfs_discover (read : nat → SwRead) (assoc : nat → AssocResult) (free_ret stack_nice : Z)
    (fuel : nat) : M Cfs unit :=
  @discover_sw Cfs CfsTask _ _ (Cfs_ops env c) (λ _, mret tt) read assoc free_ret stack_nice fuel 0 false.

(** More than two attempts are never made. *)
Lemma cfs_discover_fuel read assoc free_ret stack_nice k s :
  cfs_discover read assoc free_ret stack_nice (2 + k) s = cfs_discover read assoc free_ret stack_nice 2 s.
Proof.
  unfold cfs_discover. simpl. destruct (assoc 0%nat) as [status|errno]; [done|].
  destruct (errno =? ENOENT); [done|]. destruct (errno =? ESTALE); [|done].
  destruct (truthy _); [done|]. destruct (assoc 1%nat) as [status'|errno']; [done|].
  destruct (errno' =? ENOENT); [done|]. destruct (errno' =? ESTALE); [|done]. by destruct (truthy _).
Qed.

(** The new task of a status word that was associated. *)
Lemma wp_get_or_alloc A g s (Q : Z * bool → Cfs → Prop) :
  env_ok env → rest env s A → task_map_ (A_alloc A) !! g = None →
  (∀ s' p B, view env s' B → abs_inv env [p] (A_cu B) B →
     tasks A !! p = None → tasks B = <[p := CfsTask_new g]> (tasks A) → Q (p, true) s') →
  wp (@get_or_alloc Cfs CfsTask _ _ (Cfs_ops env c) g) s Q.
Proof.
  intros Henv [Hv Hi] Hg HQ. unfold get_or_alloc. wpstep. wpstep.
  pose proof Hv as [Ha Hcs]. change (allocator s) with (allocator_ s). rewrite Ha.
  destruct (eo_malloc _ Henv (A_alloc A) (proj1 (ai_alloc _ _ _ _ Hi))) as [Hne Hfresh].
  unfold GetTask_new, GetTask. simpl malloc. rewrite Ha, Hg. wpstep. wpstep. wpstep.
  apply (HQ _ _ (A_set_alloc (mkAllocator (<[g := malloc_ env (A_alloc A)]> (task_map_ (A_alloc A)))
                   (<[malloc_ env (A_alloc A) := new_task g]> (tasks A))) A)); [|by apply alloc_new_inv|done|done].
  split; [done|exact Hcs].
Qed.
End discovery.

(** Discovery of a status word makes at most two attempts, whatever the
    kernel answers. A thread that the association hands to the CFS agent gets
    the nice value that happens to be on the stack, since the synthesized
    TASK_NEW never sets it: a value out of range fails an assertion, any other
    becomes the weight of the task. *)
Theorem cfs_discovery_nice (env : CfsEnv) (g l : Z) (s : Cfs) (c stack_nice free_ret : Z)
    (read : nat → SwRead) (assoc : nat → AssocResult)
    (Henv : env_ok env) (Hr : cfs_reachable env g l s) (Hc : in_enclave env c)
    (Ha : assoc 0%nat = AssocOk 0) (Hg : GetTask (sw_gtid (read 0%nat)) (allocator_ s) = None) :
  (∀ assoc' k s', cfs_discover env c read assoc' free_ret stack_nice (2 + k) s' =
     cfs_discover env c read assoc' free_ret stack_nice 2 s') ∧
  if bool_decide (kMinNice ≤ stack_nice ≤ kMaxNice) then
    ∃ s' p t, cfs_discover env c read assoc free_ret stack_nice 2 s = Ok (tt, s') ∧
      heap (allocator_ s') !! p = Some t ∧ gtid t = sw_gtid (read 0%nat) ∧ nice t = stack_nice
  else cfs_discover env c read assoc free_ret stack_nice 2 s = Crash CheckFailed.
Proof.
  split; [intros; apply cfs_discover_fuel|].
  destruct (reachable_inv env Henv g l s Hr) as (A & Hrest). pose proof Hrest as [[Hal Hv] Hi].
  rewrite Hal in Hg. unfold cfs_discover. cbn [discover_sw]. rewrite Ha. change (truthy (Z.land 0 _)) with false.
  set (m := synth_msg stack_nice (read 0%nat)). case_bool_decide as Hn.
  - assert (wp (@get_or_alloc Cfs CfsTask _ _ (Cfs_ops env c) (sw_gtid (read 0%nat)) ≫= λ '(p, allocated),
      if allocated : bool then Cfs_TaskNew env c p m ≫= λ _, mret tt else abort GhostError) s
      (λ _ s', ∃ p t, heap (allocator_ s') !! p = Some t ∧ gtid t = sw_gtid (read 0%nat) ∧ nice t = stack_nice)) as H.
    { wpstep. eapply wp_get_or_alloc; [done..|]. intros s1 p B Hv1 Hi1 Hfresh HB.
      assert (tasks B !! p = Some (CfsTask_new (sw_gtid (read 0%nat)))) as Hp by by rewrite HB, lookup_insert_eq.
      eapply wp_seq; [apply (wp_New env Henv c Hc B p _ m s1 Hv1 Hi1 Hp); try done; apply trace_new_wf|].
      intros [] s2 (A' & t' & [[Ha2 _] _] & Hp' & (H1 & _ & _ & H4 & _) & _). wpstep.
      exists p, t'. by rewrite Ha2. }
    apply wp_ok in H as ([] & s' & E & p & t & H). exists s', p, t. by split.
  - apply crash_bind. eapply wp_get_or_alloc; [done..|]. intros s1 p B Hv1 Hi1 Hfresh HB.
    assert (tasks B !! p = Some (CfsTask_new (sw_gtid (read 0%nat)))) as Hp by by rewrite HB, lookup_insert_eq.
    unfold mbind at 1, M_bind at 1.
    assert (Cfs_TaskNew env c p m s1 = Crash CheckFailed) as E.
    { unfold Cfs_TaskNew. apply crash_bind. eapply wp_task_at; [done..|].
      apply crash_bind. unfold get_affinity. eapply wp_ask; [done|]. intros n s2 Hv2.
      apply crash_bind. eapply wp_upd_task; [done..|]. intros s3 Hv3.
      unfold mbind, M_bind, lift. by rewrite (nice_weights_fail (msg_nice m)). }
    simpl TaskNew. by rewrite E.
Qed.

(** A status word whose stack slot holds 1000. *)
Lemma cfs_discovery_nice_witness :
  cfs_discover sample_cfs_env 0 (λ _, mkSwRead 3 0 9 0) (λ _, AssocOk 0) 0 1000 2 cfs3 = Crash CheckFailed.
Proof.
  exact (proj2 (cfs_discovery_nice sample_cfs_env 1000 10000 cfs3 0 1000 0 (λ _, mkSwRead 3 0 9 0) (λ _, AssocOk 0)
    sample_env_ok sample_reach3 sample_cpu0 eq_refl ltac:(by vm_compute))).
Defined.
