(* ===== verification/Placement.v ===== *)
(** * Placement: where the tasks of a scheduler are

    Shared by the FIFO agents: a scheduler has queues, named by [K], that hold
    addresses of tasks, and the state of a task names the queue it is in, if
    any.  [at_rest] says that the queues and the states agree; one lemma per
    way in which an operation moves a task.

    What the dispatcher needs of a scheduler.

    [SchedOps] lists the handlers of a scheduler; [SchedLaws] states what they
    must guarantee for an invariant [I]: that it survives the handlers, the
    allocation of a task and the advance of a sequence number.  From it alone
    [dispatch_preserves]: the dispatcher keeps [I] and does not abort. *)

From S2P Require Import Prelude Outcome Dispatch.
From stdpp Require Import gmap functions sorting.
From Stdlib Require Import ZArith Lia.

Local Open Scope Z_scope.

(** Splits on whether two indices of a function update are the same. *)
Ltac fn_case a b :=
  simpl; destruct (decide (a = b)) as [<-|?];
  [rewrite ?fn_lookup_insert|rewrite ?fn_lookup_insert_ne by congruence]; simpl.

Section placement.
Context {T K : Type} `{!EqDecision K} (place : T → option K).

Definition at_rest (h : gmap Z T) (q : K → list Z) : Prop :=
  (∀ p k, p ∈ q k ↔ ∃ t, h !! p = Some t ∧ place t = Some k) ∧ ∀ k, NoDup (q k).

Implicit Types (h : gmap Z T) (q : K → list Z).

Lemma rest_live h q p k : at_rest h q → p ∈ q k → ∃ t, h !! p = Some t ∧ place t = Some k.
Proof. intros [H _] Hp. by apply H. Qed.

Lemma rest_in h q p t k : at_rest h q → h !! p = Some t → place t = Some k → p ∈ q k.
Proof. intros [H _] Hp Hk. apply H. eauto. Qed.

Lemma rest_out h q p t k : at_rest h q → h !! p = Some t → place t ≠ Some k → p ∉ q k.
Proof. intros [H _] Hp Hk (u & Hu & Eu)%H. congruence. Qed.

Lemma rest_fresh h q p k : at_rest h q → h !! p = None → p ∉ q k.
Proof. intros [H _] Hp (u & Hu & _)%H. congruence. Qed.

(** A change of one task: the others stay where they are. *)
Lemma rest_upd h q p t' q' :
  at_rest h q → (∀ k r, r ≠ p → r ∈ q' k ↔ r ∈ q k) → (∀ k, p ∈ q' k ↔ place t' = Some k) →
  (∀ k, NoDup (q' k)) → at_rest (<[p := t']> h) q'.
Proof.
  intros [H _] Hne Hp Hnd. split; [|done]. intros r k. destruct (decide (r = p)) as [->|Hr].
  - rewrite Hp, lookup_insert_eq. split; [eauto|]. by intros (u & [= <-] & ?).
  - rewrite Hne, H, lookup_insert_ne by done. done.
Qed.

Lemma rest_same h q p t t' :
  at_rest h q → h !! p = Some t → place t' = place t → at_rest (<[p := t']> h) q.
Proof.
  intros Hr Hp E. apply (rest_upd h q); [done|done| |apply Hr]. intros k. rewrite E. split.
  - intros (u & Hu & Eu)%(rest_live h q); [|done]. congruence.
  - by apply (rest_in h q).
Qed.

(** [q'] is [q] with the queue [k] replaced by [l]. *)
Lemma rest_enter h q p t t' k l :
  at_rest h q → h !! p = Some t → place t = None → place t' = Some k → l ≡ₚ p :: q k →
  at_rest (<[p := t']> h) (<[k := l]> q).
Proof.
  intros Hr Hp E E' Hl.
  assert (∀ k', p ∉ q k') as Hout by (intros k'; eapply rest_out; [done..|congruence]).
  apply (rest_upd h q); [done|..].
  - intros k' r Hne. destruct (decide (k = k')) as [<-|Hk].
    + rewrite fn_lookup_insert, Hl, elem_of_cons. naive_solver.
    + by rewrite fn_lookup_insert_ne.
  - intros k'. rewrite E'. destruct (decide (k = k')) as [<-|Hk].
    + rewrite fn_lookup_insert, Hl, elem_of_cons. naive_solver.
    + rewrite fn_lookup_insert_ne by done. split; [by intros ?%Hout|congruence].
  - intros k'. destruct (decide (k = k')) as [<-|Hk].
    + rewrite fn_lookup_insert, Hl. constructor; [apply Hout|apply Hr].
    + rewrite fn_lookup_insert_ne by done. apply Hr.
Qed.

Lemma rest_leave h q p t t' k l :
  at_rest h q → h !! p = Some t → place t = Some k → place t' = None → q k ≡ₚ p :: l →
  at_rest (<[p := t']> h) (<[k := l]> q).
Proof.
  intros Hr Hp E E' Hl. pose proof (proj2 Hr k) as Hnd. rewrite Hl in Hnd. apply NoDup_cons in Hnd as [Hnin Hnd].
  apply (rest_upd h q); [done|..].
  - intros k' r Hne. destruct (decide (k = k')) as [<-|Hk].
    + rewrite fn_lookup_insert, Hl, elem_of_cons. naive_solver.
    + by rewrite fn_lookup_insert_ne.
  - intros k'. rewrite E'. destruct (decide (k = k')) as [<-|Hk].
    + rewrite fn_lookup_insert. naive_solver.
    + rewrite fn_lookup_insert_ne by done. split; [|done].
      intros Hin. exfalso. revert Hin. eapply rest_out; [done..|congruence].
  - intros k'. destruct (decide (k = k')) as [<-|Hk].
    + by rewrite fn_lookup_insert.
    + rewrite fn_lookup_insert_ne by done. apply Hr.
Qed.

Lemma rest_move h q p t t' k l k' l' :
  at_rest h q → h !! p = Some t → place t = Some k → place t' = Some k' → k ≠ k' → q k ≡ₚ p :: l →
  l' ≡ₚ p :: q k' → at_rest (<[p := t']> h) (<[k' := l']> (<[k := l]> q)).
Proof.
  intros Hr Hp E E' Hk Hl Hl'.
  pose proof (proj2 Hr k) as Hnd. rewrite Hl in Hnd. apply NoDup_cons in Hnd as [Hnin Hnd].
  assert (∀ k0, k0 ≠ k → p ∉ q k0) as Hout by (intros k0 Hk0; eapply rest_out; [done..|congruence]).
  assert (∀ k0, <[k' := l']> (<[k := l]> q) k0 = if decide (k0 = k') then l' else if decide (k0 = k) then l else q k0) as Eq.
  { intros k0. destruct (decide (k0 = k')) as [->|H1]; [by rewrite fn_lookup_insert|].
    rewrite fn_lookup_insert_ne by done. destruct (decide (k0 = k)) as [->|H2]; [by rewrite fn_lookup_insert|].
    by rewrite fn_lookup_insert_ne. }
  apply (rest_upd h q); [done|..].
  - intros k0 r Hne. rewrite Eq. destruct (decide (k0 = k')) as [->|H1].
    + rewrite Hl', elem_of_cons. naive_solver.
    + destruct (decide (k0 = k)) as [->|H2]; [|done]. rewrite Hl, elem_of_cons. naive_solver.
  - intros k0. rewrite Eq, E'. destruct (decide (k0 = k')) as [->|H1].
    + rewrite Hl', elem_of_cons. naive_solver.
    + destruct (decide (k0 = k)) as [->|H2]; [naive_solver|]. split; [by intros ?%Hout|congruence].
  - intros k0. rewrite Eq. destruct (decide (k0 = k')) as [->|H1].
    + rewrite Hl'. constructor; [by apply Hout|apply Hr].
    + destruct (decide (k0 = k)) as [->|H2]; [done|apply Hr].
Qed.

(** A task that is nowhere is freed; a new one is nowhere. *)
Lemma rest_free h q p t : at_rest h q → h !! p = Some t → place t = None → at_rest (delete p h) q.
Proof.
  intros [H Hnd] Hp E. split; [|done]. intros r k. rewrite H. split; intros (u & Hu & Eu); exists u; split; try done.
  - rewrite lookup_delete_ne; [done|congruence].
  - by apply lookup_delete_Some in Hu as [_ Hu].
Qed.

Lemma rest_new h q p t : at_rest h q → h !! p = None → place t = None → at_rest (<[p := t]> h) q.
Proof.
  intros Hr Hp E. apply (rest_upd h q); [done|done| |apply Hr]. intros k. rewrite E.
  split; [|done]. intros Hin. by apply (rest_fresh h q p k Hr) in Hp.
Qed.

(** The queues up to pointwise equality. *)
Lemma rest_ext h q q' : at_rest h q → (∀ k, q' k = q k) → at_rest h q'.
Proof. intros [H Hnd] E. split; [intros p k; by rewrite E|intros k; by rewrite E]. Qed.
End placement.

(** Taking the element at a known place out of a list. *)
Lemma perm_remove (l1 l2 : list Z) (p : Z) : l1 ++ p :: l2 ≡ₚ p :: l1 ++ l2.
Proof. by rewrite <- Permutation_middle. Qed.

(** A slot that holds at most one task: 0 is the null pointer. *)
Definition slot_list (p : Z) : list Z := if p =? 0 then [] else [p].

Lemma elem_of_slot p r : r ∈ slot_list p ↔ p ≠ 0 ∧ r = p.
Proof.
  unfold slot_list. destruct (Z.eqb_spec p 0).
  - split; [by intros ?%elem_of_nil|lia].
  - rewrite list_elem_of_singleton. naive_solver.
Qed.

(** The other tasks of a queue, in order. *)
Definition others (p : Z) (l : list Z) : list Z := filter (λ q, q ≠ p) l.

Lemma others_notin p l : p ∉ l → others p l = l.
Proof.
  induction l as [|q l IH]; [done|]. intros [Hne Hnin]%not_elem_of_cons. unfold others in *.
  rewrite filter_cons_True by done. by rewrite IH.
Qed.

Lemma elem_of_others p q l : q ∈ others p l ↔ q ≠ p ∧ q ∈ l.
Proof. unfold others. by rewrite list_elem_of_filter. Qed.

Lemma others_app p l l' : others p (l ++ l') = others p l ++ others p l'.
Proof. apply filter_app. Qed.

Lemma others_self p : others p [p] = [].
Proof. unfold others. by rewrite filter_cons_False by naive_solver. Qed.

(** Taking the only occurrence of an element out. *)
Lemma others_perm p l l' : NoDup l → l ≡ₚ p :: l' → others p l ≡ₚ l'.
Proof.
  intros Hnd E. rewrite E in Hnd. apply NoDup_cons in Hnd as [Hnin _]. unfold others. rewrite E.
  rewrite filter_cons_False by naive_solver. fold (others p l'). by rewrite others_notin.
Qed.

Lemma others_in p l : NoDup l → p ∈ l → l ≡ₚ p :: others p l.
Proof.
  intros Hnd (l1 & l2 & ->)%list_elem_of_split.
  pose proof (others_perm p (l1 ++ p :: l2) (l1 ++ l2) Hnd) as E. rewrite E; by rewrite <- Permutation_middle.
Qed.

(** The slot with and without a task. *)
Definition without (p cur : Z) : Z := if cur =? p then 0 else cur.

Lemma slot_without p cur : p ≠ 0 → slot_list (without p cur) = others p (slot_list cur).
Proof.
  intros Hp. unfold without. destruct (Z.eqb_spec cur p) as [->|Hne].
  - unfold slot_list. rewrite (proj2 (Z.eqb_neq p 0)) by done. by rewrite others_self.
  - symmetry. apply others_notin. rewrite elem_of_slot. naive_solver.
Qed.

Lemma without_idem p cur : without p (without p cur) = without p cur.
Proof. unfold without. destruct (Z.eqb_spec cur p); [by destruct (0 =? p)|]. by rewrite (proj2 (Z.eqb_neq cur p)). Qed.

Lemma without_zero p : without p 0 = 0.
Proof. unfold without. by destruct (0 =? p). Qed.

(** ** Moving one task *)

Section requeue.
Context {T K : Type} `{!EqDecision K} (place : T → option K).
Implicit Types (h : gmap Z T) (q : K → list Z).

(** [p], now [t'], leaves its queue and enters that of [t'], at the front or
    at the back. *)
Definition requeue (p : Z) (t' : T) (front : bool) (q : K → list Z) (k : K) : list Z :=
  if decide (place t' = Some k) then (if front then p :: others p (q k) else others p (q k) ++ [p])
  else others p (q k).

Lemma elem_of_requeue p t' front q k r :
  r ∈ requeue p t' front q k ↔ (r = p ∧ place t' = Some k) ∨ (r ≠ p ∧ r ∈ q k).
Proof.
  unfold requeue. destruct (decide _) as [E|E]; [|rewrite elem_of_others; naive_solver].
  destruct front; rewrite ?elem_of_cons, ?elem_of_app, ?elem_of_others, ?list_elem_of_singleton; naive_solver.
Qed.

Lemma rest_requeue h q p t' front : at_rest place h q → at_rest place (<[p := t']> h) (requeue p t' front q).
Proof.
  intros Hr. apply (rest_upd place h q); [done|..].
  - intros k r Hne. rewrite elem_of_requeue. naive_solver.
  - intros k. rewrite elem_of_requeue. naive_solver.
  - intros k. assert (NoDup (others p (q k))) as Hnd by (apply NoDup_filter, Hr).
    assert (p ∉ others p (q k)) as Hnin by (rewrite elem_of_others; naive_solver).
    unfold requeue. destruct (decide _); [|done]. destruct front; [by constructor|].
    apply NoDup_app. split_and!; [done| |apply NoDup_singleton]. intros r Hr' ->%list_elem_of_singleton. done.
Qed.

Lemma rest_delete h q p : at_rest place h q → at_rest place (delete p h) (λ k, others p (q k)).
Proof.
  intros [H Hnd]. split; [|intros k; by apply NoDup_filter]. intros r k. rewrite elem_of_others, H. split.
  - intros [Hne (t & Ht & E)]. exists t. by rewrite lookup_delete_ne.
  - intros (t & [Hne Ht]%lookup_delete_Some & E). split; [done|eauto].
Qed.

(** A queue that the task is not in does not change. *)
Lemma rest_others h q p t k : at_rest place h q → h !! p = Some t → place t ≠ Some k → others p (q k) = q k.
Proof. intros Hr Hp E. apply others_notin. by eapply rest_out. Qed.
End requeue.

Lemma others_idem p l : others p (others p l) = others p l.
Proof. apply others_notin. rewrite elem_of_others. naive_solver. Qed.

Lemma others_cons_self p l : others p (p :: l) = others p l.
Proof. unfold others. by rewrite filter_cons_False by naive_solver. Qed.

(** Whatever a task's queue was, without the task it is the same. *)
Lemma others_requeue {T K : Type} `{!EqDecision K} (place : T → option K) p t front (q : K → list Z) k :
  others p (requeue place p t front q k) = others p (q k).
Proof.
  unfold requeue. destruct (decide _); [|apply others_idem]. destruct front.
  - by rewrite others_cons_self, others_idem.
  - by rewrite others_app, others_idem, others_self, app_nil_r.
Qed.

(** Taking the element at a position out. *)
Lemma delete_others p l i : NoDup l → l !! i = Some p → delete i l = others p l.
Proof.
  revert i. induction l as [|q l IH]; intros [|i] Hnd Hi; simpl in *; [done|done|..]; apply NoDup_cons in Hnd as [Hnin Hnd].
  - injection Hi as ->. unfold others. rewrite filter_cons_False by naive_solver. symmetry. by apply others_notin.
  - unfold others in *. rewrite filter_cons_True; [f_equal; by apply IH|]. intros ->. apply Hnin.
    by eapply list_elem_of_lookup_2.
Qed.

(** ** Searches in a queue

    The centralized agents search their queues in these two ways. *)

(** The last of the first [k] positions that holds [p]. *)
Fixpoint rfind (p : Z) (l : list Z) (k : nat) : option nat :=
  match k with
  | O => None
  | S k => if bool_decide (l !! k = Some p) then Some k else rfind p l k
  end.

(** [std::find] *)
Fixpoint find_first (p : Z) (l : list Z) : option nat :=
  match l with
  | [] => None
  | q :: l => if q =? p then Some 0%nat else S <$> find_first p l
  end.

Lemma rfind_spec p l k : (k ≤ length l)%nat → p ∈ take k l → ∃ i, rfind p l k = Some i ∧ l !! i = Some p.
Proof.
  induction k as [|k IH]; intros Hk Hin; [by apply elem_of_nil in Hin|]. simpl. case_bool_decide as E; [eauto|].
  destruct (lookup_lt_is_Some_2 l k ltac:(lia)) as [x Hx]. rewrite (take_S_r l k x Hx) in Hin.
  apply elem_of_app in Hin as [Hin|Hin]; [apply IH; [lia|done]|]. apply list_elem_of_singleton in Hin as ->. done.
Qed.

Lemma find_first_spec p l : p ∈ l → ∃ i, find_first p l = Some i ∧ l !! i = Some p.
Proof.
  induction l as [|q l IH]; [by intros ?%elem_of_nil|]. intros Hp. simpl. destruct (Z.eqb_spec q p) as [->|Hne]; [by exists 0%nat|].
  apply elem_of_cons in Hp as [|Hp]; [done|]. destruct (IH Hp) as (i & -> & Hi). by exists (S i).
Qed.

(** ** What the dispatcher needs of a scheduler *)

Section rules.
Context {S T : Type} `{!TaskType T, !HasAllocator S T}.

(** The allocator is a field of the state. *)
Class AllocatorField := {
  allocator_set : ∀ a (s : S), allocator (set_allocator a s) = a;
  set_allocator_same : ∀ (s : S), set_allocator (allocator s) s = s
}.

Definition put_obj (p : Z) (t : T) (a : TaskAllocator T) : TaskAllocator T :=
  mkAllocator (task_map_ a) (<[p := t]> (heap a)).

Lemma put_obj_same (p : Z) (t : T) (a : TaskAllocator T) : heap a !! p = Some t → put_obj p t a = a.
Proof. intros Hp. unfold put_obj. destruct a. simpl in *. by rewrite insert_id. Qed.

Lemma wp_task (p : Z) (t : T) (s : S) (Q : T → S → Prop) :
  heap (allocator s) !! p = Some t → Q t s → wp (task_at p) s Q.
Proof. intros Hp HQ. unfold wp, task_at, lift, deref. by rewrite Hp. Qed.

Lemma wp_upd (p : Z) (t : T) (f : T → T) (s : S) (Q : unit → S → Prop) :
  heap (allocator s) !! p = Some t → Q tt (set_allocator (put_obj p (f t) (allocator s)) s) →
  wp (upd_task p f) s Q.
Proof. intros Hp HQ. unfold upd_task. wpstep. eapply wp_task; [done|]. by wpstep. Qed.

Lemma wp_free (p : Z) (t : T) (s : S) (Q : unit → S → Prop) :
  heap (allocator s) !! p = Some t →
  Q tt (set_allocator (mkAllocator (delete (task_gtid t) (task_map_ (allocator s))) (delete p (heap (allocator s)))) s) →
  wp (free_task p) s Q.
Proof.
  intros Hp HQ. unfold wp, free_task, mbind, M_bind, lift, FreeTask, deref. rewrite Hp. exact HQ.
Qed.
End rules.

Arguments AllocatorField : clear implicits.
Arguments AllocatorField S T {_}.

(** The messages about tasks. *)
Definition is_task_type (ty : Z) : Prop := MSG_TASK_DEAD ≤ ty ≤ MSG_TASK_PRIORITY_CHANGED.

(** The messages about CPUs that the dispatcher knows. *)
Definition known_cpu_msg (m : Message) : Prop := MSG_CPU_TICK ≤ msg_type m ≤ MSG_CPU_AGENT_WAKEUP.

Lemma known_cpu_types m : known_cpu_msg m →
  msg_type m = MSG_CPU_TICK ∨ msg_type m = MSG_CPU_NOT_IDLE ∨ msg_type m = MSG_CPU_TIMER_EXPIRED ∨
  msg_type m = MSG_CPU_AVAILABLE ∨ msg_type m = MSG_CPU_BUSY ∨ msg_type m = MSG_CPU_AGENT_BLOCKED ∨
  msg_type m = MSG_CPU_AGENT_WAKEUP.
Proof.
  unfold known_cpu_msg, MSG_CPU_TICK, MSG_CPU_NOT_IDLE, MSG_CPU_TIMER_EXPIRED, MSG_CPU_AVAILABLE, MSG_CPU_BUSY,
    MSG_CPU_AGENT_BLOCKED, MSG_CPU_AGENT_WAKEUP, _MSG_CPU_FIRST. lia.
Qed.

(** What holds of the value of an option, decided. *)
Global Instance option_forall_dec {A} (o : option A) (P : A → Prop) `{∀ x, Decision (P x)} :
  Decision (∀ x, o = Some x → P x).
Proof.
  destruct o as [x|]; [|by left]. destruct (decide (P x)) as [H'|H']; [left; by intros ? [= <-]|right; eauto].
Defined.

Section laws.
Context {S T : Type} `{Ops : SchedOps S T}.
Context (I : S → Prop) (new_ok : Message → Prop) (known_ok : S → Z → T → Message → Prop) (cpu_ok : Message → Prop).

Class SchedLaws : Prop := {
  sl_field : AllocatorField S T;
  sl_gtid : ∀ g : Z, task_gtid (new_task g : T) = g;
  sl_alloc : ∀ s, I s → alloc_inv (allocator s);
  sl_malloc : ∀ s, I s → malloc s ≠ 0 ∧ heap (allocator s) !! malloc s = None;
  sl_new : ∀ s m, I s → new_ok m → GetTask (msg_gtid m) (allocator s) = None →
    wp (TaskNew (malloc s) m)
      (set_allocator (mkAllocator (<[msg_gtid m := malloc s]> (task_map_ (allocator s)))
                        (<[malloc s := new_task (msg_gtid m)]> (heap (allocator s)))) s) (λ _, I);
  sl_known : ∀ s p t m, I s → heap (allocator s) !! p = Some t → known_ok s p t m →
    is_task_type (msg_type m) → msg_type m ≠ MSG_TASK_NEW →
    wp (dispatch_task p m) s (λ u s', I s' ∧
      (u = true → ∃ t', heap (allocator s') !! p = Some t' ∧ task_seqnum t' < msg_seqnum m));
  sl_seqnum : ∀ s p t n, I s → heap (allocator s) !! p = Some t →
    I (set_allocator (put_obj p (set_task_seqnum n t) (allocator s)) s);
  sl_cpu : ∀ s m, I s → cpu_ok m → is_cpu_msg m = true → wp (dispatch_cpu m) s (λ _, I)
}.

(** What the kernel may send in a state. *)
Definition sendable (s : S) (m : Message) : Prop :=
  msg_type m = MSG_NOP ∨ (is_cpu_msg m = true ∧ cpu_ok m) ∨
  (is_task_type (msg_type m) ∧ msg_gtid m ≠ 0 ∧
   match GetTask (msg_gtid m) (allocator s) with
   | None => msg_type m = MSG_TASK_NEW → new_ok m
   | Some p => msg_type m ≠ MSG_TASK_NEW → ∀ t, heap (allocator s) !! p = Some t → known_ok s p t m
   end).

Global Instance sendable_dec `{∀ m, Decision (new_ok m), ∀ s p t m, Decision (known_ok s p t m), ∀ m, Decision (cpu_ok m)} s m :
  Decision (sendable s m).
Proof. unfold sendable, is_task_type. destruct (GetTask _ _); apply _. Defined.

Lemma task_type_route m (k k' : M S unit) :
  is_task_type (msg_type m) →
  (if msg_type m =? MSG_NOP then mret tt else if is_cpu_msg m then k else check (is_task_msg m) ≫= λ _, k') =
  (check true ≫= λ _, k').
Proof.
  unfold is_task_type, is_cpu_msg, is_task_msg, MSG_NOP, MSG_TASK_DEAD, MSG_TASK_PRIORITY_CHANGED,
    _MSG_TASK_FIRST, _MSG_CPU_FIRST, _MSG_CPU_LAST, _MSG_TASK_LAST, _MSG_CPU_FIRST, _MSG_TASK_FIRST. intros H.
  rewrite (proj2 (Z.eqb_neq (msg_type m) 0)), (proj2 (Z.leb_gt 128 (msg_type m))) by lia.
  by rewrite (proj2 (Z.leb_le 64 (msg_type m))), (proj2 (Z.leb_le (msg_type m) (64 + 64 - 1))) by lia.
Qed.

(** A message about a known task: its handler, and the sequence number. *)
Lemma wp_DispatchMessage_task p t m s (R : bool → S → Prop) (Q : unit → S → Prop) :
  is_task_type (msg_type m) → msg_gtid m ≠ 0 → msg_type m ≠ MSG_TASK_NEW →
  GetTask (msg_gtid m) (allocator s) = Some p → heap (allocator s) !! p = Some t →
  wp (dispatch_task p m) s R →
  (∀ u s', R u s' → if u then ∃ t', heap (allocator s') !! p = Some t' ∧ task_seqnum t' < msg_seqnum m ∧
       Q tt (set_allocator (put_obj p (set_task_seqnum (msg_seqnum m) t') (allocator s')) s')
     else Q tt s') →
  wp (DispatchMessage m) s Q.
Proof.
  intros Hty Hg Hnew Hf Hp Hd HQ. unfold DispatchMessage. rewrite task_type_route by done.
  wpstep. wpstep; [done|]. wpstep. wpstep; [by rewrite (proj2 (Z.eqb_neq _ _) Hg)|].
  wpstep. unfold find_task. rewrite (proj2 (Z.eqb_neq _ _) Hnew). wpstep. rewrite Hf. wpstep.
  eapply wp_mono; [exact Hd|]. intros [] s' Hs'%HQ; wpstep; try done. intros _.
  destruct Hs' as (t' & Hp' & Hsq & HQ'). unfold Advance. wpstep. eapply wp_task; [done|]. wpstep.
  wpstep; [by apply Z.ltb_lt|]. by eapply wp_upd.
Qed.

Context `{Laws : SchedLaws}.

Lemma wp_advance p m s :
  I s → (∃ t, heap (allocator s) !! p = Some t ∧ task_seqnum t < msg_seqnum m) →
  wp (Advance p (msg_seqnum m)) s (λ _, I).
Proof using Laws.
  intros Hi (t & Hp & Hsq). unfold Advance. wpstep. eapply wp_task; [done|]. wpstep.
  wpstep; [by apply Z.ltb_lt|]. eapply wp_upd; [done|]. by apply sl_seqnum.
Qed.

Theorem dispatch_preserves s m : I s → sendable s m → wp (DispatchMessage m) s (λ _, I).
Proof using Laws.
  intros Hi [E|[[Hcpu Hok]|(Hty & Hg & Hm)]]; unfold DispatchMessage.
  - rewrite E. by apply wp_ret.
  - assert (msg_type m ≠ MSG_NOP) as Hnop by (intros E; unfold is_cpu_msg in Hcpu; by rewrite E in Hcpu).
    rewrite (proj2 (Z.eqb_neq _ _) Hnop), Hcpu. by apply sl_cpu.
  - rewrite task_type_route by done. wpstep. wpstep; [done|]. wpstep. wpstep; [by rewrite (proj2 (Z.eqb_neq _ _) Hg)|].
    wpstep. unfold find_task. destruct (Z.eqb_spec (msg_type m) MSG_TASK_NEW) as [En|En].
    + wpstep. wpstep. unfold GetTask_new. destruct (GetTask (msg_gtid m) (allocator s)) as [p|] eqn:Ep.
      * wpstep. wpstep. wpstep. wpstep. pose proof sl_field. by rewrite set_allocator_same.
      * wpstep. wpstep. wpstep. wpstep. unfold dispatch_task. cbv zeta. rewrite En, Z.eqb_refl. wpstep.
        eapply wp_mono; [apply sl_new; [done|by apply Hm|done]|].
        intros [] s' Hs'. by repeat wpstep.
    + wpstep. destruct (GetTask (msg_gtid m) (allocator s)) as [p|] eqn:Ep; [|by wpstep].
      pose proof (sl_alloc s Hi) as [_ Hal]. pose proof Ep as (t & Ht & _)%Hal.
      wpstep. eapply wp_mono; [by apply (sl_known s p t m Hi Ht (Hm En t Ht))|].
      intros u s' [Hs' Hu]. wpstep; [intros E; by apply wp_advance; [|apply Hu]|done].
Qed.
End laws.
