(* ===== verification/Fifo.v ===== *)
(** * Fifo: the per-CPU FIFO agent (schedulers/fifo/per_cpu/fifo_scheduler.h, .cc)

    Every CPU of the enclave has an agent with a channel and a run queue.  A
    new task is bound to the next CPU in turn and stays there.  The handlers
    take the CPU from the task, so one agent's handlers are those of all. *)

From S2P Require Import Prelude Outcome CpuMap.
From S2P Require Import Topology Dispatch Placement.
From stdpp Require Import gmap.
From Stdlib Require Import ZArith Lia.

Local Open Scope Z_scope.

(** ** State *)

Inductive FifoTaskState := kBlocked | kRunnable | kQueued | kOnCpu.

Global Instance FifoTaskState_eq_dec : EqDecision FifoTaskState.
Proof. solve_decision. Defined.

Record FifoTask := mkFifoTask {
  gtid : Z;
  seqnum : Z;
  run_state : FifoTaskState;
  cpu : Z;
  preempted : bool;
  prio_boost : bool
}.

Definition FifoTask_new (g : Z) : FifoTask := mkFifoTask g 0 kBlocked (-1) false false.

Definition set_seqnum (n : Z) (t : FifoTask) : FifoTask :=
  mkFifoTask (gtid t) n (run_state t) (cpu t) (preempted t) (prio_boost t).
Definition set_run_state (r : FifoTaskState) (t : FifoTask) : FifoTask :=
  mkFifoTask (gtid t) (seqnum t) r (cpu t) (preempted t) (prio_boost t).
Definition set_cpu (c : Z) (t : FifoTask) : FifoTask :=
  mkFifoTask (gtid t) (seqnum t) (run_state t) c (preempted t) (prio_boost t).
Definition set_preempted (b : bool) (t : FifoTask) : FifoTask :=
  mkFifoTask (gtid t) (seqnum t) (run_state t) (cpu t) b (prio_boost t).
Definition set_prio_boost (b : bool) (t : FifoTask) : FifoTask :=
  mkFifoTask (gtid t) (seqnum t) (run_state t) (cpu t) (preempted t) b.

Global Instance FifoTask_type : TaskType FifoTask := {
  task_gtid := gtid;
  task_seqnum := seqnum;
  set_task_seqnum := set_seqnum;
  new_task := FifoTask_new
}.

Definition has_state (r : FifoTaskState) (t : FifoTask) : bool := bool_decide (run_state t = r).

(** [FifoScheduler::CpuState]; [current] is an address, 0 for null. *)
Record FifoCpu := mkFifoCpu {
  current : Z;
  has_channel : bool;
  run_queue : list Z
}.

(** What the agents ask of the kernel besides messages. *)
Inductive FifoEvent :=
| EvPing (c : Z)
| EvAssociate (g c seqnum : Z)
| EvCommit (c g seqnum : Z)
| EvYield (c : Z) (on_idle : bool).

(** The scheduler; [next_] is the static iterator of [AssignCpu], [asked] the
    number of questions the kernel has answered. *)
Record Fifo := mkFifo {
  fifo_allocator : TaskAllocator FifoTask;
  fifo_cpus : Z → FifoCpu;
  next_ : Iter;
  asked : nat;
  log : list FifoEvent
}.

Definition set_fifo_allocator (a : TaskAllocator FifoTask) (s : Fifo) : Fifo :=
  mkFifo a (fifo_cpus s) (next_ s) (asked s) (log s).
Definition set_fifo_cpus (f : Z → FifoCpu) (s : Fifo) : Fifo :=
  mkFifo (fifo_allocator s) f (next_ s) (asked s) (log s).
Definition set_next (i : Iter) (s : Fifo) : Fifo :=
  mkFifo (fifo_allocator s) (fifo_cpus s) i (asked s) (log s).
Definition tick (s : Fifo) : Fifo :=
  mkFifo (fifo_allocator s) (fifo_cpus s) (next_ s) (S (asked s)) (log s).
Definition add_event (e : FifoEvent) (s : Fifo) : Fifo :=
  mkFifo (fifo_allocator s) (fifo_cpus s) (next_ s) (asked s) (log s ++ [e]).

Global Instance Fifo_has_allocator : HasAllocator Fifo FifoTask := {
  allocator := fifo_allocator;
  set_allocator := set_fifo_allocator
}.

(** The enclave and the kernel's answers, by the number of questions before. *)
Record FifoEnv := mkFifoEnv {
  fifo_topo : Topology;
  fifo_enclave : CpuList;
  fifo_malloc : TaskAllocator FifoTask → Z;
  fifo_associate : nat → Z → Z → Z → bool;   (* AssociateTask: gtid, cpu, seqnum *)
  fifo_commit : nat → Z → Z → bool;          (* RunRequest::Commit: cpu, gtid *)
  fifo_agent : Z → bool                      (* GetAgent(cpu) is not null *)
}.

Definition set_current (p : Z) (k : FifoCpu) : FifoCpu := mkFifoCpu p (has_channel k) (run_queue k).
Definition set_run_queue (l : list Z) (k : FifoCpu) : FifoCpu := mkFifoCpu (current k) (has_channel k) l.

(** ** The run queue *)

(** [cpu_states_[c]] *)
Definition fifo_cpu (c : Z) : M Fifo FifoCpu :=
  if (0 <=? c) && (c <? MAX_CPUS) then gets (λ s, fifo_cpus s c) else abort OutOfBounds.

Definition upd_cpu (c : Z) (f : FifoCpu → FifoCpu) : M Fifo unit :=
  fifo_cpu c ≫= λ k, modify (λ s, set_fifo_cpus (<[c := f k]> (fifo_cpus s)) s).

(** [FifoRq::Enqueue] on the queue of [c]: a boosted task goes to the front. *)
Definition Fifo_Enqueue (c p : Z) : M Fifo unit :=
  task_at p ≫= λ t,
  check (0 <=? cpu t) ≫= λ _,
  check (has_state kRunnable t) ≫= λ _,
  upd_task p (set_run_state kQueued) ≫= λ _,
  upd_cpu c (λ k, set_run_queue (if prio_boost t then p :: run_queue k else run_queue k ++ [p]) k).

(** [FifoRq::Dequeue] *)
Definition Fifo_Dequeue (c : Z) : M Fifo Z :=
  fifo_cpu c ≫= λ k,
  match run_queue k with
  | [] => mret 0
  | p :: l =>
      task_at p ≫= λ t,
      check (has_state kQueued t) ≫= λ _,
      upd_task p (set_run_state kRunnable) ≫= λ _,
      upd_cpu c (set_run_queue l) ≫= λ _,
      mret p
  end.

(** The position of the task to erase: the last one if that is it, or the
    first one from the front among the others. *)
Fixpoint find_pos (p : Z) (l : list Z) : option nat :=
  match l with
  | [] => None
  | q :: l => if q =? p then Some 0%nat else S <$> find_pos p l
  end.

Definition erase_pos (p : Z) (l : list Z) : option nat :=
  let size := length l in
  if bool_decide (l !! (size - 1)%nat = Some p) then Some (size - 1)%nat
  else find_pos p (take (size - 1) l).

(** [FifoRq::Erase] *)
Definition Fifo_Erase (c p : Z) : M Fifo unit :=
  task_at p ≫= λ t,
  check (has_state kQueued t) ≫= λ _,
  fifo_cpu c ≫= λ k,
  match erase_pos p (run_queue k) with
  | Some pos =>
      upd_cpu c (set_run_queue (delete pos (run_queue k))) ≫= λ _,
      upd_task p (set_run_state kRunnable)
  | None => abort CheckFailed
  end.

(** ** The scheduler *)

Section fifo.
Variable env : FifoEnv.

(** [cpu_state_of]: the CPU whose state holds the task. *)
Definition fifo_cpu_of (p : Z) : M Fifo Z :=
  task_at p ≫= λ t,
  check (0 <=? cpu t) ≫= λ _, check (cpu t <? MAX_CPUS) ≫= λ _, mret (cpu t).

(** [enclave()->GetAgent(cpu)->Ping()] *)
Definition ping (c : Z) : M Fifo unit :=
  if fifo_agent env c then modify (add_event (EvPing c)) else abort UseAfterFree.

(** [enclave()->GetAgent(topology()->cpu(payload->cpu))->Ping()] after a chain
    of switches ended on another CPU. *)
Definition ping_payload (m : Message) : M Fifo unit :=
  whenM (msg_from_switchto m)
    (lift (Topology_cpu (num_cpus_ (fifo_topo env)) (msg_cpu m)) ≫= λ c, ping c).

(** [AssignCpu]: round robin over the enclave. *)
Definition AssignCpu : M Fifo Z :=
  lift (begin (fifo_enclave env)) ≫= λ b,
  lift (end_ (fifo_enclave env)) ≫= λ e,
  gets next_ ≫= λ next,
  let next := if id_ next =? id_ e then b else next in
  match cpu_ next with
  | None => abort UseAfterFree
  | Some c =>
      lift (incr (fifo_enclave env) next) ≫= λ next',
      modify (set_next next') ≫= λ _, mret c
  end.

(** [Migrate] *)
Definition Fifo_Migrate (p c seqnum : Z) : M Fifo unit :=
  task_at p ≫= λ t,
  check (has_state kRunnable t) ≫= λ _,
  check (cpu t =? -1) ≫= λ _,
  fifo_cpu c ≫= λ k,
  (if has_channel k then mret tt else abort UseAfterFree) ≫= λ _,
  modify (add_event (EvAssociate (gtid t) c seqnum)) ≫= λ _,
  gets asked ≫= λ n, modify tick ≫= λ _,
  check (fifo_associate env n (gtid t) c seqnum) ≫= λ _,
  upd_task p (set_cpu c) ≫= λ _,
  Fifo_Enqueue c p ≫= λ _,
  ping c.

Definition Fifo_TaskNew (p : Z) (m : Message) : M Fifo unit :=
  upd_task p (λ t, set_run_state kBlocked (set_seqnum (msg_seqnum m) t)) ≫= λ _,
  whenM (msg_runnable m)
    (upd_task p (set_run_state kRunnable) ≫= λ _,
     AssignCpu ≫= λ c, Fifo_Migrate p c (msg_seqnum m)).

Definition Fifo_TaskRunnable (p : Z) (m : Message) : M Fifo unit :=
  task_at p ≫= λ t,
  check (has_state kBlocked t) ≫= λ _,
  upd_task p (λ t, set_prio_boost (negb (msg_deferrable m)) (set_run_state kRunnable t)) ≫= λ _,
  if cpu t <? 0 then AssignCpu ≫= λ c, Fifo_Migrate p c (msg_seqnum m)
  else fifo_cpu_of p ≫= λ c, Fifo_Enqueue c p.

(** [TaskOffCpu] *)
Definition Fifo_TaskOffCpu (p : Z) (blocked from_switchto : bool) : M Fifo unit :=
  fifo_cpu_of p ≫= λ c,
  task_at p ≫= λ t,
  (if has_state kOnCpu t then
     fifo_cpu c ≫= λ k, check (current k =? p) ≫= λ _, upd_cpu c (set_current 0)
   else check from_switchto ≫= λ _, check (has_state kBlocked t)) ≫= λ _,
  upd_task p (set_run_state (if blocked then kBlocked else kRunnable)).

Definition Fifo_TaskDeparted (p : Z) (m : Message) : M Fifo unit :=
  task_at p ≫= λ t,
  (if has_state kOnCpu t || msg_from_switchto m then Fifo_TaskOffCpu p false (msg_from_switchto m)
   else if has_state kQueued t then fifo_cpu_of p ≫= λ c, Fifo_Erase c p
   else check (has_state kBlocked t)) ≫= λ _,
  ping_payload m ≫= λ _,
  free_task p.

Definition Fifo_TaskDead (p : Z) (m : Message) : M Fifo unit :=
  task_at p ≫= λ t, check (has_state kBlocked t) ≫= λ _, free_task p.

Definition Fifo_TaskYield (p : Z) (m : Message) : M Fifo unit :=
  Fifo_TaskOffCpu p false (msg_from_switchto m) ≫= λ _,
  fifo_cpu_of p ≫= λ c, Fifo_Enqueue c p ≫= λ _,
  ping_payload m.

Definition Fifo_TaskBlocked (p : Z) (m : Message) : M Fifo unit :=
  Fifo_TaskOffCpu p true (msg_from_switchto m) ≫= λ _, ping_payload m.

Definition Fifo_TaskPreempted (p : Z) (m : Message) : M Fifo unit :=
  Fifo_TaskOffCpu p false (msg_from_switchto m) ≫= λ _,
  upd_task p (λ t, set_prio_boost true (set_preempted true t)) ≫= λ _,
  fifo_cpu_of p ≫= λ c, Fifo_Enqueue c p ≫= λ _,
  ping_payload m.

Definition Fifo_TaskSwitchto (p : Z) (m : Message) : M Fifo unit := Fifo_TaskOffCpu p true false.

(** [TaskOnCpu] *)
Definition Fifo_TaskOnCpu (p c : Z) : M Fifo unit :=
  upd_cpu c (set_current p) ≫= λ _,
  upd_task p (λ t, set_prio_boost false (set_preempted false (set_cpu c (set_run_state kOnCpu t)))).

(** [FifoSchedule].  The wait for [next] to get off another CPU has no effect
    on the state. *)
Definition FifoSchedule (c : Z) (boosted : bool) : M Fifo unit :=
  fifo_cpu c ≫= λ k,
  (if boosted then mret 0
   else if current k =? 0 then Fifo_Dequeue c else mret (current k)) ≫= λ next,
  if next =? 0 then
    fifo_cpu c ≫= λ k,
    modify (add_event (EvYield c (boosted && (negb (current k =? 0) || negb (bool_decide (run_queue k = []))))))
  else
    task_at next ≫= λ t,
    modify (add_event (EvCommit c (gtid t) (seqnum t))) ≫= λ _,
    gets asked ≫= λ n, modify tick ≫= λ _,
    if fifo_commit env n c (gtid t) then Fifo_TaskOnCpu next c
    else
      fifo_cpu c ≫= λ k,
      whenM (current k =? next) (Fifo_TaskOffCpu next false false) ≫= λ _,
      upd_task next (set_prio_boost true) ≫= λ _,
      Fifo_Enqueue c next.

(** Handlers that the agent does not override do nothing. *)
Definition fifo_nop : M Fifo unit := mret tt.

Global Instance Fifo_ops : SchedOps Fifo FifoTask := {
  malloc := λ s, fifo_malloc env (fifo_allocator s);
  TaskNew := Fifo_TaskNew;
  TaskRunnable := Fifo_TaskRunnable;
  TaskDead := Fifo_TaskDead;
  TaskDeparted := Fifo_TaskDeparted;
  TaskYield := Fifo_TaskYield;
  TaskBlocked := Fifo_TaskBlocked;
  TaskPreempted := Fifo_TaskPreempted;
  TaskSwitchto := Fifo_TaskSwitchto;
  TaskAffinityChanged := λ _ _, fifo_nop;
  TaskPriorityChanged := λ _ _, fifo_nop;
  TaskOnCpu := λ _ _, fifo_nop;
  CpuTick := λ _, fifo_nop;
  CpuNotIdle := λ _, fifo_nop;
  CpuTimerExpired := λ _, fifo_nop;
  CpuAvailable := λ _, fifo_nop;
  CpuBusy := λ _, fifo_nop;
  AgentBlocked := λ _, fifo_nop;
  AgentWakeup := λ _, fifo_nop
}.

(** [Schedule]: drain the channel of the CPU, then schedule. *)
Definition Fifo_Schedule (c : Z) (msgs : list Message) (boosted_priority : bool) : M Fifo unit :=
  forM msgs (@DispatchMessage Fifo FifoTask _ _ Fifo_ops) ≫= λ _,
  FifoSchedule c boosted_priority.

(** The constructor: a channel for every CPU of the enclave. *)
Definition FifoScheduler_new : outcome Fifo :=
  iterate (fifo_enclave env) ≫= λ l,
  end_ (fifo_enclave env) ≫= λ e,
  Ok (mkFifo (mkAllocator ∅ ∅)
        (foldl (λ f c, <[c := mkFifoCpu 0 true []]> f) (λ _, mkFifoCpu 0 false []) l) e 0 []).

(** [Empty] and [CountAllTasks] *)
Definition Fifo_Empty (c : Z) : M Fifo bool := fifo_cpu c ≫= λ k, mret (bool_decide (run_queue k = [])).

Definition Fifo_CountAllTasks (s : Fifo) : outcome Z :=
  ForEachTask (λ n _ (_ : FifoTask), (n + 1, true)) (fifo_allocator s) 0.
End fifo.
