(* ===== verification/FifoHandlers.v ===== *)
(** * FifoHandlers: the invariant of the per-CPU FIFO agent

    Every task is where its state says, on the CPU it is bound to.  [lifted]
    describes the middle of a handler: one task has been taken out of its
    place.  Then one rule per operation of the agent.

    The message handlers of the per-CPU FIFO agent.

    One specification per handler: it does not abort and leaves its task in the
    place that the message names, every other task and the order of every
    queue as they were. *)

From S2P Require Import Prelude Outcome CpuMap CpuMapSpec Topology Dispatch Placement Fifo.
From stdpp Require Import gmap functions sorting.
From Stdlib Require Import ZArith Lia.

Local Open Scope Z_scope.

(** ** Places *)

Inductive FifoPlace := PRq (c : Z) | PCur (c : Z).

Global Instance FifoPlace_eq_dec : EqDecision FifoPlace.
Proof. solve_decision. Defined.

Definition fifo_place (t : FifoTask) : option FifoPlace :=
  match run_state t with
  | kQueued => Some (PRq (cpu t))
  | kOnCpu => Some (PCur (cpu t))
  | _ => None
  end.

Definition cpu_queues (f : Z → FifoCpu) (k : FifoPlace) : list Z :=
  match k with
  | PRq c => run_queue (f c)
  | PCur c => slot_list (current (f c))
  end.

(** ** The environment and the invariant *)

Record fifo_env_ok (env : FifoEnv) : Prop := {
  fe_wf : cpulist_wf (fifo_enclave env);
  fe_topo : topology_num_cpus (fifo_enclave env) = num_cpus_ (fifo_topo env);
  fe_nonempty : elems (fifo_enclave env) ≠ [];
  fe_malloc : ∀ a : TaskAllocator FifoTask, heap a !! 0 = None →
    fifo_malloc env a ≠ 0 ∧ heap a !! fifo_malloc env a = None;
  fe_agent : ∀ c, c ∈ elems (fifo_enclave env) → fifo_agent env c = true
}.

(** The kernel associates every task with the queue that the agent names; it
    may refuse one that has pending messages. *)
Definition grants (env : FifoEnv) : Prop := ∀ n g c q, fifo_associate env n g c q = true.

Section inv.
Context (env : FifoEnv).

Definition enclave_cpu (c : Z) : Prop := c ∈ elems (fifo_enclave env).

(** The iterator of [AssignCpu] is at some CPU of the enclave or at its end. *)
Definition iter_ok (i : Iter) : Prop :=
  ∃ past rest, elems (fifo_enclave env) = past ++ rest ∧ i = iter_at (fifo_enclave env) rest.

Definition bound_ok (t : FifoTask) : Prop :=
  enclave_cpu (cpu t) ∨ (cpu t = -1 ∧ run_state t = kBlocked).

Record fifo_inv (s : Fifo) : Prop := {
  fi_alloc : alloc_inv (fifo_allocator s);
  fi_rest : at_rest fifo_place (heap (fifo_allocator s)) (cpu_queues (fifo_cpus s));
  fi_task : ∀ p t, heap (fifo_allocator s) !! p = Some t → run_state t ≠ kRunnable ∧ bound_ok t;
  fi_channel : ∀ c, enclave_cpu c → has_channel (fifo_cpus s c) = true;
  fi_next : iter_ok (next_ s)
}.

Lemma enclave_range c : fifo_env_ok env → enclave_cpu c → 0 ≤ c < MAX_CPUS.
Proof.
  intros Henv Hc. pose proof (elems_lt _ _ (fe_wf _ Henv) Hc) as H.
  pose proof (wf_cpus _ (fe_wf _ Henv)). unfold MAX_CPUS. lia.
Qed.

Lemma inv_nonzero s p t : fifo_inv s → heap (fifo_allocator s) !! p = Some t → p ≠ 0.
Proof. intros Hi Hp ->. pose proof (fi_alloc _ Hi) as [H _]. congruence. Qed.

(** A change of a task and of the CPUs. *)
Lemma inv_put s p t t' f n l :
  fifo_inv s → heap (fifo_allocator s) !! p = Some t → gtid t' = gtid t →
  at_rest fifo_place (<[p := t']> (heap (fifo_allocator s))) (cpu_queues f) →
  run_state t' ≠ kRunnable → bound_ok t' →
  (∀ c, has_channel (f c) = has_channel (fifo_cpus s c)) →
  fifo_inv (mkFifo (put_obj p t' (fifo_allocator s)) f (next_ s) n l).
Proof.
  intros [Ha Hr Ht Hc Hn] Hp Hg Hr' H1 H2 Hf. split; simpl; try done.
  - by eapply alloc_inv_upd.
  - intros q u. rewrite lookup_insert_Some. intros [[<- <-]|[_ Hq]]; [done|by apply (Ht q)].
  - intros c. rewrite Hf. apply Hc.
Qed.

(** Fields of a task that no place depends on. *)
Lemma inv_fields s p t t' n l :
  fifo_inv s → heap (fifo_allocator s) !! p = Some t → gtid t' = gtid t → run_state t' = run_state t → cpu t' = cpu t →
  fifo_inv (mkFifo (put_obj p t' (fifo_allocator s)) (fifo_cpus s) (next_ s) n l).
Proof.
  intros Hi Hp Hg Hs Hc. pose proof Hi as [_ Hr Ht _ _]. pose proof (Ht _ _ Hp) as [H1 H2].
  apply (inv_put s p t); try done.
  - eapply rest_same; [done..|]. unfold fifo_place. by rewrite Hs, Hc.
  - by rewrite Hs.
  - unfold bound_ok in *. by rewrite Hs, Hc.
Qed.

(** Nothing but the log and the number of questions changes. *)
Lemma inv_log s n l : fifo_inv s → fifo_inv (mkFifo (fifo_allocator s) (fifo_cpus s) (next_ s) n l).
Proof. intros [Ha Hr Ht Hc Hn]. by split. Qed.

(** ** One task out of its place *)

(** [s] is [s0] with the task [p], now [t], in no queue. *)
Record lifted (s0 : Fifo) (p : Z) (t : FifoTask) (s : Fifo) : Prop := {
  li_inv : fifo_inv (mkFifo (put_obj p (set_run_state kBlocked t) (fifo_allocator s))
                       (fifo_cpus s) (next_ s) (asked s) (log s));
  li_at : heap (fifo_allocator s) !! p = Some t;
  li_heap : ∀ q, q ≠ p → heap (fifo_allocator s) !! q = heap (fifo_allocator s0) !! q;
  li_queue : ∀ c, run_queue (fifo_cpus s c) = others p (run_queue (fifo_cpus s0 c));
  li_cur : ∀ c, current (fifo_cpus s c) = without p (current (fifo_cpus s0 c));
  li_map : task_map_ (fifo_allocator s) = task_map_ (fifo_allocator s0)
}.

(** A task that is in no queue is lifted as it stands. *)
Lemma lift_blocked s p t :
  fifo_inv s → heap (fifo_allocator s) !! p = Some t → run_state t = kBlocked → lifted s p t s.
Proof.
  intros Hi Hp Hb. pose proof Hi as [Ha Hr _ _ _]. assert (fifo_place t = None) as E by (unfold fifo_place; by rewrite Hb).
  split; try done.
  - by apply (inv_fields s p t).
  - intros c. symmetry. apply others_notin. change (p ∉ cpu_queues (fifo_cpus s) (PRq c)).
    eapply rest_out; [done..|]. by rewrite E.
  - intros c. unfold without. destruct (Z.eqb_spec (current (fifo_cpus s c)) p) as [Ec|]; [|done]. exfalso.
    assert (p ∈ cpu_queues (fifo_cpus s) (PCur c)) as Hin.
    { simpl. rewrite Ec. apply elem_of_slot. split; [by eapply inv_nonzero|done]. }
    revert Hin. eapply rest_out; [done..|]. by rewrite E.
Qed.

(** Back in place when it is blocked. *)
Lemma lifted_inv s0 p t s : lifted s0 p t s → run_state t = kBlocked → fifo_inv s.
Proof.
  intros [Hi Hp _ _ _ _] Hb. replace (put_obj p (set_run_state kBlocked t) (fifo_allocator s)) with (fifo_allocator s) in Hi.
  { by destruct s. }
  unfold put_obj. replace (set_run_state kBlocked t) with t by (rewrite <- Hb; by destruct t).
  rewrite insert_id by done. by destruct (fifo_allocator s).
Qed.

Lemma lifted_bound s0 p t s : lifted s0 p t s → enclave_cpu (cpu t) ∨ cpu t = -1.
Proof.
  intros [Hi _ _ _ _ _]. destruct (fi_task _ Hi p (set_run_state kBlocked t)) as [_ [H|[H _]]]; [|by left|by right].
  simpl. by rewrite lookup_insert_eq.
Qed.

Lemma put_put p t t' (a : TaskAllocator FifoTask) : put_obj p t' (put_obj p t a) = put_obj p t' a.
Proof. unfold put_obj. simpl. by rewrite insert_insert_eq. Qed.

(** Changes to a lifted task, and to the log. *)
Lemma wp_lifted_upd s0 p t f s (Q : unit → Fifo → Prop) :
  lifted s0 p t s → gtid (f t) = gtid t → (enclave_cpu (cpu (f t)) ∨ cpu (f t) = -1) →
  (∀ s', lifted s0 p (f t) s' → next_ s' = next_ s → Q tt s') → wp (upd_task p f) s Q.
Proof.
  intros [Hi Hp Hh Hq Hc Hm] Hg Hb HQ. eapply wp_upd; [exact Hp|]. apply HQ; [|done]. split; simpl; try done.
  - rewrite put_put. replace (put_obj p (set_run_state kBlocked (f t)) (fifo_allocator s))
      with (put_obj p (set_run_state kBlocked (f t)) (put_obj p (set_run_state kBlocked t) (fifo_allocator s))) by apply put_put.
    apply (inv_put _ p (set_run_state kBlocked t) _ (fifo_cpus s) _ _ Hi); try done; simpl.
    + by rewrite lookup_insert_eq.
    + eapply rest_same; [apply (fi_rest _ Hi)|simpl; by rewrite lookup_insert_eq|done].
    + unfold bound_ok. simpl. destruct Hb; auto.
  - by rewrite lookup_insert_eq.
  - intros q Hne. rewrite lookup_insert_ne by done. auto.
Qed.

Lemma lifted_frame s0 p t s n l i :
  lifted s0 p t s → iter_ok i →
  lifted s0 p t (mkFifo (fifo_allocator s) (fifo_cpus s) i n l).
Proof. intros [[Ha Hr Ht Hc Hn] Hp Hh Hq Hcu Hm] Hi. split; done. Qed.

Lemma wp_fifo_cpu c s (Q : FifoCpu → Fifo → Prop) :
  0 ≤ c < MAX_CPUS → Q (fifo_cpus s c) s → wp (fifo_cpu c) s Q.
Proof.
  intros Hr HQ. unfold fifo_cpu. by rewrite (proj2 (Z.leb_le 0 c)), (proj2 (Z.ltb_lt c MAX_CPUS)) by lia.
Qed.

Lemma wp_upd_cpu c f s (Q : unit → Fifo → Prop) :
  0 ≤ c < MAX_CPUS → Q tt (set_fifo_cpus (<[c := f (fifo_cpus s c)]> (fifo_cpus s)) s) → wp (upd_cpu c f) s Q.
Proof. intros Hr HQ. unfold upd_cpu. wpstep. apply wp_fifo_cpu; [done|]. by wpstep. Qed.

(** Where a lifted task is put down: on the queue of its CPU. *)
Definition enqueued (s0 : Fifo) (p : Z) (t : FifoTask) (s : Fifo) : Prop :=
  fifo_inv s ∧ heap (fifo_allocator s) !! p = Some t ∧
  (∀ q, q ≠ p → heap (fifo_allocator s) !! q = heap (fifo_allocator s0) !! q) ∧
  (∀ c, run_queue (fifo_cpus s c) =
     let l := others p (run_queue (fifo_cpus s0 c)) in
     if has_state kQueued t && (c =? cpu t) then (if prio_boost t then p :: l else l ++ [p]) else l) ∧
  (∀ c, current (fifo_cpus s c) = without p (current (fifo_cpus s0 c))) ∧
  task_map_ (fifo_allocator s) = task_map_ (fifo_allocator s0).

Lemma lifted_enqueued s0 p t s : lifted s0 p t s → run_state t = kBlocked → enqueued s0 p t s.
Proof.
  intros Hl Hb. pose proof Hl as [_ Hp Hh Hq Hc Hm]. split_and!; try done.
  - by eapply lifted_inv.
  - intros c. unfold has_state. rewrite Hb. simpl. auto.
Qed.

Context (Henv : fifo_env_ok env).

Lemma wp_Fifo_Enqueue s0 p t c s (Q : unit → Fifo → Prop) :
  lifted s0 p t s → run_state t = kRunnable → enclave_cpu (cpu t) → c = cpu t →
  (∀ s', enqueued s0 p (set_run_state kQueued t) s' → Q tt s') → wp (Fifo_Enqueue c p) s Q.
Proof using Henv.
  intros Hl Hrun Hc -> HQ. pose proof Hl as [Hi Hp Hh Hq Hcu Hm]. pose proof (enclave_range _ Henv Hc) as Hr.
  pose proof (inv_nonzero _ p _ Hi (lookup_insert_eq _ _ _)) as Hp0.
  unfold Fifo_Enqueue. wpstep. eapply wp_task; [exact Hp|]. wpstep. wpstep; [apply Z.leb_le; lia|].
  wpstep. wpstep; [by apply bool_decide_eq_true|]. wpstep. eapply wp_upd; [exact Hp|]. apply wp_upd_cpu; [done|].
  simpl. set (l := run_queue (fifo_cpus s (cpu t))).
  apply HQ. unfold enqueued. simpl. split_and!; try done.
  - replace (put_obj p (set_run_state kQueued t) (fifo_allocator s))
      with (put_obj p (set_run_state kQueued t) (put_obj p (set_run_state kBlocked t) (fifo_allocator s))) by apply put_put.
    apply (inv_put _ p (set_run_state kBlocked t) _ _ _ _ Hi); simpl; try done.
    + by rewrite lookup_insert_eq.
    + eapply rest_ext; [eapply (rest_enter _ _ _ p _ _ (PRq (cpu t))); [apply (fi_rest _ Hi)|simpl; by rewrite lookup_insert_eq|done|done|]|].
      * simpl. instantiate (1 := if prio_boost t then p :: l else l ++ [p]).
        destruct (prio_boost t); [done|]. by rewrite <- Permutation_cons_append.
      * intros [c|c]; simpl.
        -- destruct (decide (cpu t = c)) as [<-|Hne]; [by rewrite !fn_lookup_insert|].
           by rewrite !fn_lookup_insert_ne by congruence.
        -- rewrite (fn_lookup_insert_ne _ (PRq (cpu t)) (PCur c)) by done. simpl.
           by fn_case (cpu t) c.
    + by left.
    + intros c. by fn_case (cpu t) c.
  - by rewrite lookup_insert_eq.
  - intros q Hne. rewrite lookup_insert_ne by done. auto.
  - intros c. rewrite <- (Hq c). destruct (Z.eqb_spec c (cpu t)) as [->|Hne].
    + rewrite fn_lookup_insert. done.
    + by rewrite fn_lookup_insert_ne.
  - intros c. rewrite <- (Hcu c). by fn_case (cpu t) c.
Qed.
End inv.

(** ** The message handlers of the per-CPU FIFO agent *)

Section handlers.
Context (env : FifoEnv) (Henv : fifo_env_ok env).

Notation fifo_inv := (fifo_inv env).
Notation lifted := (lifted env).
Notation enqueued := (enqueued env).
Notation enclave_cpu := (enclave_cpu env).

(** ** Taking a task out of its place *)

Lemma lift_from s p t t' k f n l :
  fifo_inv s → heap (fifo_allocator s) !! p = Some t → fifo_place t = Some k →
  gtid t' = gtid t → cpu t' = cpu t →
  (∀ c, has_channel (f c) = has_channel (fifo_cpus s c)) →
  (∀ c, run_queue (f c) = others p (run_queue (fifo_cpus s c))) →
  (∀ c, current (f c) = without p (current (fifo_cpus s c))) →
  lifted s p t' (mkFifo (put_obj p t' (fifo_allocator s)) f (next_ s) n l).
Proof.
  intros Hi Hp Hk Hg Hc Hf1 Hf2 Hf3. pose proof (inv_nonzero _ _ _ _ Hi Hp) as Hp0.
  assert (∀ k, cpu_queues f k = others p (cpu_queues (fifo_cpus s) k)) as Hq.
  { intros [c|c]; simpl; [apply Hf2|]. by rewrite Hf3, slot_without. }
  split; simpl; try done.
  - rewrite put_put. apply (inv_put env s p t); try done.
    + apply (rest_upd _ _ (cpu_queues (fifo_cpus s))); [apply (fi_rest _ _ Hi)|..].
      * intros k' r Hne. rewrite Hq, elem_of_others. naive_solver.
      * intros k'. rewrite Hq, elem_of_others. naive_solver.
      * intros k'. rewrite Hq. apply NoDup_filter, (fi_rest _ _ Hi).
    + unfold bound_ok. simpl. rewrite Hc. destruct (fi_task _ _ Hi p t Hp) as [_ [H|[H _]]]; auto.
  - by rewrite lookup_insert_eq.
  - intros q Hne. by rewrite lookup_insert_ne.
Qed.

(** A queue that does not hold the task is not changed by leaving it out. *)
Lemma queue_others s p t c :
  fifo_inv s → heap (fifo_allocator s) !! p = Some t → fifo_place t ≠ Some (PRq c) →
  others p (run_queue (fifo_cpus s c)) = run_queue (fifo_cpus s c).
Proof.
  intros Hi Hp Hk. apply others_notin. change (p ∉ cpu_queues (fifo_cpus s) (PRq c)).
  eapply rest_out; [apply (fi_rest _ _ Hi)|done..].
Qed.

Lemma current_without s p t c :
  fifo_inv s → heap (fifo_allocator s) !! p = Some t → fifo_place t ≠ Some (PCur c) →
  without p (current (fifo_cpus s c)) = current (fifo_cpus s c).
Proof.
  intros Hi Hp Hk. unfold without. destruct (Z.eqb_spec (current (fifo_cpus s c)) p) as [E|]; [|done]. exfalso.
  apply (rest_out _ _ _ _ _ (PCur c) (fi_rest _ _ Hi) Hp Hk). simpl. rewrite E. apply elem_of_slot.
  split; [by eapply inv_nonzero|done].
Qed.

Lemma oncpu_current s p t :
  fifo_inv s → heap (fifo_allocator s) !! p = Some t → run_state t = kOnCpu → current (fifo_cpus s (cpu t)) = p.
Proof.
  intros Hi Hp Hr. assert (p ∈ cpu_queues (fifo_cpus s) (PCur (cpu t))) as Hin.
  { eapply rest_in; [apply (fi_rest _ _ Hi)|done|]. unfold fifo_place. by rewrite Hr. }
  simpl in Hin. by apply elem_of_slot in Hin as [_ ->].
Qed.

Lemma bound_of s p t : fifo_inv s → heap (fifo_allocator s) !! p = Some t → run_state t ≠ kBlocked → enclave_cpu (cpu t).
Proof. intros Hi Hp Hr. by destruct (fi_task _ _ Hi p t Hp) as [_ [H|[_ H]]]. Qed.

Lemma wp_cpu_of p t s (Q : Z → Fifo → Prop) :
  heap (fifo_allocator s) !! p = Some t → enclave_cpu (cpu t) → Q (cpu t) s → wp (fifo_cpu_of p) s Q.
Proof using Henv.
  intros Hp Hc HQ. pose proof (enclave_range _ _ Henv Hc). unfold fifo_cpu_of. wpstep. eapply wp_task; [done|].
  wpstep. wpstep; [apply Z.leb_le; lia|]. wpstep. wpstep; [apply Z.ltb_lt; lia|]. by wpstep.
Qed.

(** [TaskOffCpu] takes a running task, or the blocked one at the end of a
    chain of switches, out of its place. *)
Definition off_ok (t : FifoTask) (from_switchto : bool) : Prop :=
  run_state t = kOnCpu ∨ (run_state t = kBlocked ∧ from_switchto = true ∧ enclave_cpu (cpu t)).

Lemma off_bound s p t b : fifo_inv s → heap (fifo_allocator s) !! p = Some t → off_ok t b → enclave_cpu (cpu t).
Proof. intros Hi Hp [H|(_ & _ & H)]; [eapply bound_of; [done..|congruence]|done]. Qed.

Lemma wp_TaskOffCpu s p t blocked fs (Q : unit → Fifo → Prop) :
  fifo_inv s → heap (fifo_allocator s) !! p = Some t → off_ok t fs →
  (∀ s', lifted s p (set_run_state (if blocked : bool then kBlocked else kRunnable) t) s' → next_ s' = next_ s → Q tt s') →
  wp (Fifo_TaskOffCpu p blocked fs) s Q.
Proof using Henv.
  intros Hi Hp Hoff HQ. pose proof (off_bound _ _ _ _ Hi Hp Hoff) as Hb. pose proof (enclave_range _ _ Henv Hb) as Hr.
  unfold Fifo_TaskOffCpu. wpstep. eapply wp_cpu_of; [done..|]. wpstep. eapply wp_task; [done|]. wpstep.
  unfold has_state at 1. case_bool_decide as Hst.
  - wpstep. apply wp_fifo_cpu; [done|]. wpstep. wpstep; [by apply Z.eqb_eq, oncpu_current|].
    apply wp_upd_cpu; [done|]. eapply wp_upd; [simpl; exact Hp|]. apply HQ; [|done]. simpl.
    apply (lift_from s p t _ (PCur (cpu t))); try done.
    + unfold fifo_place. by rewrite Hst.
    + intros c. by fn_case (cpu t) c.
    + intros c. rewrite (queue_others s p t) by (first [done|unfold fifo_place; by rewrite Hst]).
      by fn_case (cpu t) c.
    + intros c. fn_case (cpu t) c.
      * unfold without. by rewrite (oncpu_current s p t), Z.eqb_refl.
      * symmetry. eapply current_without; [done..|]. unfold fifo_place.
        rewrite Hst. congruence.
  - destruct Hoff as [|(Hbl & -> & _)]; [done|]. wpstep. wpstep; [done|]. wpstep; [by apply bool_decide_eq_true|].
    pose proof (lift_blocked _ _ _ _ Hi Hp Hbl) as Hl.
    eapply wp_lifted_upd; [exact Hl|done|by left|]. auto.
Qed.

(** [Erase] takes a queued task out, wherever it is in the queue. *)
Lemma find_pos_spec p l : p ∈ l → ∃ i, find_pos p l = Some i ∧ l !! i = Some p.
Proof.
  induction l as [|q l IH]; [by intros ?%elem_of_nil|]. intros Hp. simpl. destruct (Z.eqb_spec q p) as [->|Hne].
  { by exists 0%nat. }
  apply elem_of_cons in Hp as [|Hp]; [done|]. destruct (IH Hp) as (i & -> & Hi). by exists (S i).
Qed.

Lemma erase_pos_spec p l : p ∈ l → ∃ i, erase_pos p l = Some i ∧ l !! i = Some p.
Proof.
  intros Hp. unfold erase_pos. case_bool_decide as E; [eauto|].
  assert (p ∈ take (length l - 1) l) as Hin.
  { apply list_elem_of_lookup in Hp as [i Hi]. pose proof (lookup_lt_Some _ _ _ Hi).
    apply list_elem_of_lookup. exists i. rewrite lookup_take_lt; [done|].
    destruct (decide (i = (length l - 1)%nat)) as [->|]; [done|lia]. }
  destruct (find_pos_spec _ _ Hin) as (i & -> & Hi). exists i. split; [done|].
  by apply lookup_take_Some in Hi as [Hi _].
Qed.

Lemma wp_Erase s p t (Q : unit → Fifo → Prop) :
  fifo_inv s → heap (fifo_allocator s) !! p = Some t → run_state t = kQueued →
  (∀ s', lifted s p (set_run_state kRunnable t) s' → Q tt s') → wp (Fifo_Erase (cpu t) p) s Q.
Proof using Henv.
  intros Hi Hp Hst HQ. pose proof (bound_of _ _ _ Hi Hp ltac:(congruence)) as Hb.
  pose proof (enclave_range _ _ Henv Hb) as Hr. pose proof (fi_rest _ _ Hi) as Hrest.
  assert (fifo_place t = Some (PRq (cpu t))) as Hpl by (unfold fifo_place; by rewrite Hst).
  assert (p ∈ run_queue (fifo_cpus s (cpu t))) as Hin by (by apply (rest_in _ _ _ _ _ (PRq (cpu t)) Hrest Hp)).
  unfold Fifo_Erase. wpstep. eapply wp_task; [done|]. wpstep. wpstep; [by apply bool_decide_eq_true|].
  wpstep. apply wp_fifo_cpu; [done|]. destruct (erase_pos_spec _ _ Hin) as (i & -> & Hi').
  rewrite (delete_others p) by (first [done|apply (proj2 Hrest (PRq (cpu t)))]).
  wpstep. apply wp_upd_cpu; [done|]. eapply wp_upd; [exact Hp|]. apply HQ. simpl.
  apply (lift_from s p t _ (PRq (cpu t))); try done.
  - intros c. by fn_case (cpu t) c.
  - intros c. fn_case (cpu t) c; [done|]. symmetry. eapply queue_others; [done..|]. rewrite Hpl. congruence.
  - intros c. rewrite (current_without s p t) by (first [done|by rewrite Hpl]).
    by fn_case (cpu t) c.
Qed.

(** ** Binding a task to a CPU *)

(** The iterator after one more CPU: [AssignCpu] as a function. *)
Definition advance (rest : list Z) : list Z := match rest with [] => tail (elems (fifo_enclave env)) | _ :: r => r end.

Lemma wp_AssignCpu s c past rest (Q : Z → Fifo → Prop) :
  elems (fifo_enclave env) = past ++ rest → next_ s = iter_at (fifo_enclave env) rest →
  head (match rest with [] => elems (fifo_enclave env) | _ => rest end) = Some c →
  Q c (set_next (iter_at (fifo_enclave env) (advance rest)) s) → wp (AssignCpu env) s Q.
Proof using Henv.
  intros He Hn Hc HQ. pose proof (fe_wf _ Henv) as Hwf. pose proof (wf_cpus _ Hwf) as Hcpus.
  pose proof (elems_from_num _ Hwf) as Hend.
  unfold AssignCpu, begin, end_. rewrite !FindNextSetBit_spec by (done || lia). rewrite Hend.
  apply wp_lift_ok, wp_lift_ok. wpstep. wpstep. rewrite Hn. cbv zeta. change (id_ (iter_at (fifo_enclave env) [])) with (topology_num_cpus (fifo_enclave env)).
  assert (∀ d r, elems (fifo_enclave env) = d ++ r → r ≠ [] → (id_ (iter_at (fifo_enclave env) r) =? topology_num_cpus (fifo_enclave env)) = false) as Hne.
  { intros d [|x r] E Hr; [done|]. simpl. apply Z.eqb_neq.
    assert (x ∈ elems (fifo_enclave env)) as Hx by (rewrite E; apply elem_of_app; right; by left).
    pose proof (elems_lt _ _ Hwf Hx). lia. }
  assert (∀ d x r, elems (fifo_enclave env) = d ++ x :: r → elems_from (fifo_enclave env) (x + 1) = r) as Hsuc.
  { intros d. assert (∀ id x r, elems_from (fifo_enclave env) id = d ++ x :: r → elems_from (fifo_enclave env) (x + 1) = r) as H.
    { induction d as [|y d IH]; intros id x r E; simpl in E; [by apply elems_from_cons in E as [E _]|].
      apply elems_from_cons in E as [E _]. by eapply IH. }
    apply H. }
  set (next := if _ =? _ then _ else _).
  assert (next = iter_at (fifo_enclave env) (match rest with [] => elems (fifo_enclave env) | _ => rest end)) as ->.
  { subst next. destruct rest as [|x r]; [by rewrite Z.eqb_refl|]. by rewrite (Hne past (x :: r)). }
  destruct rest as [|x r].
  - destruct (elems (fifo_enclave env)) as [|x r] eqn:E; [done|]. injection Hc as ->. simpl.
    assert (c ∈ elems (fifo_enclave env)) as Hx by (rewrite E; by left). pose proof (elems_lt _ _ Hwf Hx).
    unfold incr. simpl. rewrite FindNextSetBit_spec by (done || lia). rewrite (Hsuc [] c r eq_refl).
    apply wp_lift_ok. wpstep. wpstep. wpstep. unfold advance in HQ. rewrite E in HQ. exact HQ.
  - injection Hc as ->. simpl.
    assert (c ∈ elems (fifo_enclave env)) as Hx by (rewrite He; apply elem_of_app; right; by left).
    pose proof (elems_lt _ _ Hwf Hx). unfold incr. simpl. rewrite FindNextSetBit_spec by (done || lia).
    rewrite (Hsuc past c r He). apply wp_lift_ok. wpstep. wpstep. by wpstep.
Qed.

(** The [i]-th turn. *)
Lemma assign_once i s :
  (i ≤ length (elems (fifo_enclave env)))%nat → next_ s = iter_at (fifo_enclave env) (drop i (elems (fifo_enclave env))) →
  let n := length (elems (fifo_enclave env)) in
  ∃ c, elems (fifo_enclave env) !! (i mod n)%nat = Some c ∧
    AssignCpu env s = Ok (c, set_next (iter_at (fifo_enclave env) (drop (S (i mod n)) (elems (fifo_enclave env)))) s).
Proof using Henv.
  intros Hi Hn n. pose proof (fe_nonempty _ Henv) as Hne. set (l := elems (fifo_enclave env)) in *.
  assert (0 < n)%nat as Hlen by (subst n; destruct l; simpl; [done|lia]).
  assert (i mod n < n)%nat as Hlt by (apply Nat.mod_upper_bound; lia).
  destruct (lookup_lt_is_Some_2 l (i mod n)%nat Hlt) as [c Hc]. exists c. split; [done|].
  assert (drop i l = [] ∧ i mod n = 0 ∨ drop i l = drop (i mod n) l ∧ drop i l ≠ [])%nat as Hd.
  { destruct (decide (i = n)) as [->|Hin]; [left; split; [by apply drop_ge|apply Nat.Div0.mod_same]|right].
    rewrite Nat.mod_small by (subst n; lia). split; [done|]. intros E%(f_equal length). rewrite length_drop in E. simpl in E. subst n. lia. }
  pose proof (drop_S l c _ Hc) as HdS.
  assert (wp (AssignCpu env) s (λ x s', x = c ∧ s' = set_next (iter_at (fifo_enclave env) (drop (S (i mod n)) l)) s)) as H.
  { apply (wp_AssignCpu s c (take i l) (drop i l)); [by rewrite take_drop|done|..].
    - fold l. destruct Hd as [[-> E]|[-> _]]; [|by rewrite HdS]. rewrite E in Hc. by destruct l.
    - split; [done|]. unfold advance. fold l. destruct Hd as [[-> ->]|[-> _]]; [by destruct l|by rewrite HdS]. }
  destruct (wp_ok _ _ _ H) as (x & s' & -> & -> & ->). done.
Qed.

(** [AssignCpu] returns a CPU of the enclave and leaves the iterator inside. *)
Lemma wp_AssignCpu_any s (Q : Z → Fifo → Prop) :
  iter_ok env (next_ s) →
  (∀ c i, enclave_cpu c → iter_ok env i → Q c (set_next i s)) → wp (AssignCpu env) s Q.
Proof using Henv.
  intros (past & rest & He & Hn) HQ. pose proof (fe_nonempty _ Henv) as Hne.
  destruct (elems (fifo_enclave env)) as [|x xs] eqn:E; [done|].
  assert (∃ c, head (match rest with [] => elems (fifo_enclave env) | _ => rest end) = Some c ∧ enclave_cpu c ∧
    iter_ok env (iter_at (fifo_enclave env) (advance rest))) as (c & Hc & Hin & Hit).
  { unfold enclave_cpu, iter_ok, advance. rewrite E. destruct rest as [|y r].
    - exists x. split_and!; [done|by left|]. by exists [x], xs.
    - exists y. split_and!; [done|rewrite He; apply elem_of_app; right; by left|].
      exists (past ++ [y]), r. by rewrite <- app_assoc. }
  apply (wp_AssignCpu s c past rest); [by rewrite E|done|done|]. by apply HQ.
Qed.

Lemma wp_ping c s (Q : unit → Fifo → Prop) :
  enclave_cpu c → Q tt (add_event (EvPing c) s) → wp (ping env c) s Q.
Proof using Henv. intros Hc HQ. unfold ping. rewrite (fe_agent _ Henv) by done. by wpstep. Qed.

Lemma enqueued_log s0 p t s e : enqueued s0 p t s → enqueued s0 p t (add_event e s).
Proof. intros (Hi & H). split; [|exact H]. by apply inv_log. Qed.

Lemma wp_ping_payload s0 p t m s (Q : unit → Fifo → Prop) :
  enqueued s0 p t s → (msg_from_switchto m = true → enclave_cpu (msg_cpu m)) →
  (∀ s', enqueued s0 p t s' → Q tt s') → wp (ping_payload env m) s Q.
Proof using Henv.
  intros He Hc HQ. unfold ping_payload. wpstep; [|by auto]. intros E. specialize (Hc E).
  pose proof (elems_lt _ _ (fe_wf _ Henv) Hc) as Hr. rewrite (fe_topo _ Henv) in Hr.
  rewrite Topology_cpu_ok by done. apply wp_lift_ok. apply wp_ping; [done|]. by apply HQ, enqueued_log.
Qed.

(** [Migrate] binds a task that has no CPU yet. *)
Lemma wp_Fifo_Migrate s0 p t c q s (Q : unit → Fifo → Prop) :
  grants env → lifted s0 p t s → run_state t = kRunnable → cpu t = -1 → enclave_cpu c →
  (∀ s', enqueued s0 p (set_run_state kQueued (set_cpu c t)) s' → Q tt s') → wp (Fifo_Migrate env p c q) s Q.
Proof using Henv.
  intros Hgr Hl Hst Hcpu Hc HQ. pose proof (enclave_range _ _ Henv Hc) as Hr. pose proof Hl as [Hi Hp _ _ _ _].
  unfold Fifo_Migrate. wpstep. eapply wp_task; [exact Hp|]. wpstep. wpstep; [by apply bool_decide_eq_true|].
  wpstep. wpstep; [by apply Z.eqb_eq|]. wpstep. apply wp_fifo_cpu; [done|].
  pose proof (fi_channel _ _ Hi c Hc) as Hch. simpl in Hch. rewrite Hch. wpstep. wpstep. wpstep. wpstep. wpstep. wpstep.
  wpstep. wpstep. wpstep. wpstep; [apply Hgr|]. wpstep.
  eapply wp_lifted_upd; [apply (lifted_frame env s0 p t s _ _ (next_ s) Hl (fi_next _ _ Hi))|done|by left|].
  intros s1 Hl1 _. wpstep. eapply (wp_Fifo_Enqueue env Henv s0 p (set_cpu c t)); [exact Hl1|done|done|done|].
  intros s2 Hs2. apply wp_ping; [done|]. by apply HQ, enqueued_log.
Qed.
End handlers.
