(* ===== verification/FifoMessages.v ===== *)
(** * FifoMessages: the messages of the per-CPU FIFO agent

    What each message does to its task, as an abstract transition, and the
    instance of [SchedLaws]: the agent keeps its invariant under the dispatcher. *)

From S2P Require Import Prelude Outcome CpuMap CpuMapSpec.
From S2P Require Import Topology Dispatch Placement Fifo FifoHandlers.
From stdpp Require Import gmap functions sorting.
From Stdlib Require Import ZArith Lia.

Local Open Scope Z_scope.

Global Instance Fifo_allocator_field : AllocatorField Fifo FifoTask.
Proof. split; [done|]. by intros []. Qed.

(** Here the kernel refuses no association. *)
Section messages.
Context (env : FifoEnv) (Henv : fifo_env_ok env) (Hgr : grants env).

Notation fifo_inv := (fifo_inv env).
Notation lifted := (lifted env).
Notation enqueued := (enqueued env).
Notation enclave_cpu := (enclave_cpu env).
Notation off_ok := (off_ok env).

(** ** The transitions *)

Definition is_death (ty : Z) : bool := (ty =? MSG_TASK_DEAD) || (ty =? MSG_TASK_DEPARTED).

(** The messages that move their task. *)
Definition moves (ty : Z) : bool :=
  (ty =? MSG_TASK_WAKEUP) || (ty =? MSG_TASK_BLOCKED) || (ty =? MSG_TASK_YIELD) ||
  (ty =? MSG_TASK_PREEMPT) || (ty =? MSG_TASK_SWITCHTO).

(** The task after such a message; [c] is the CPU it is bound to. *)
Definition moved (t : FifoTask) (m : Message) (c : Z) : FifoTask :=
  let ty := msg_type m in
  if ty =? MSG_TASK_WAKEUP then
    set_run_state kQueued (set_cpu c (set_prio_boost (negb (msg_deferrable m)) t))
  else if ty =? MSG_TASK_YIELD then set_run_state kQueued t
  else if ty =? MSG_TASK_PREEMPT then set_run_state kQueued (set_prio_boost true (set_preempted true t))
  else set_run_state kBlocked t.

(** When the kernel sends a message about a task. *)
Definition fifo_msg_ok (t : FifoTask) (m : Message) : Prop :=
  let ty := msg_type m in
  seqnum t < msg_seqnum m ∧
  (msg_from_switchto m = true → enclave_cpu (msg_cpu m)) ∧
  (ty = MSG_TASK_WAKEUP ∨ ty = MSG_TASK_DEAD → run_state t = kBlocked) ∧
  (ty = MSG_TASK_BLOCKED ∨ ty = MSG_TASK_YIELD ∨ ty = MSG_TASK_PREEMPT → off_ok t (msg_from_switchto m)) ∧
  (ty = MSG_TASK_SWITCHTO → run_state t = kOnCpu) ∧
  (ty = MSG_TASK_DEPARTED → msg_from_switchto m = true → off_ok t true).

(** The task [p] is gone, the others as before. *)
Definition gone (s0 : Fifo) (p : Z) (s : Fifo) : Prop :=
  fifo_inv s ∧ heap (fifo_allocator s) !! p = None ∧
  (∀ q, q ≠ p → heap (fifo_allocator s) !! q = heap (fifo_allocator s0) !! q) ∧
  (∀ c, run_queue (fifo_cpus s c) = others p (run_queue (fifo_cpus s0 c))) ∧
  (∀ c, current (fifo_cpus s c) = without p (current (fifo_cpus s0 c))).

(** What a message does, but for the sequence number. *)
Definition fifo_effect (s : Fifo) (p : Z) (t : FifoTask) (m : Message) (s' : Fifo) : Prop :=
  if is_death (msg_type m) then gone s p s'
  else if moves (msg_type m) then
    ∃ c, enqueued s p (moved t m c) s' ∧
      (msg_type m = MSG_TASK_WAKEUP → if cpu t <? 0 then enclave_cpu c else c = cpu t)
  else s' = s.

(** ** Handlers *)

Lemma wp_free_lifted s0 p t s (Q : unit → Fifo → Prop) :
  lifted s0 p t s → (∀ s', gone s0 p s' → Q tt s') → wp (free_task p) s Q.
Proof.
  intros [Hi Hp Hh Hq Hc Hm] HQ. eapply wp_free; [exact Hp|]. apply HQ. unfold gone. simpl. split_and!; try done.
  - destruct Hi as [Ha Hr Ht Hch Hn]. simpl in *.
    assert (delete p (<[p := set_run_state kBlocked t]> (heap (fifo_allocator s))) = delete p (heap (fifo_allocator s))) as E
      by apply delete_insert_eq.
    split; simpl; try done.
    + destruct (alloc_inv_free _ p (set_run_state kBlocked t) Ha) as [_ Ha']; [simpl; by rewrite lookup_insert_eq|].
      simpl in Ha'. rewrite E in Ha'. exact Ha'.
    + rewrite <- E. eapply rest_free; [exact Hr|by rewrite lookup_insert_eq|done].
    + intros q u. rewrite <- E. intros [_ Hu]%lookup_delete_Some. by apply (Ht q).
  - by rewrite lookup_delete_eq.
  - intros q Hne. rewrite lookup_delete_ne by done. auto.
Qed.

Lemma wp_assign_migrate s0 p t q s (Q : unit → Fifo → Prop) :
  lifted s0 p t s → run_state t = kRunnable → cpu t = -1 →
  (∀ c s', enclave_cpu c → enqueued s0 p (set_run_state kQueued (set_cpu c t)) s' → Q tt s') →
  wp (AssignCpu env ≫= λ c, Fifo_Migrate env p c q) s Q.
Proof using Henv Hgr.
  intros Hl Hst Hcpu HQ. wpstep. apply wp_AssignCpu_any; [done|apply (fi_next _ _ (li_inv _ _ _ _ _ Hl))|].
  intros c i Hc Hit. eapply (wp_Fifo_Migrate env Henv s0 p t); [done|apply lifted_frame; done|done|done|done|]. eauto.
Qed.

Lemma wp_Fifo_TaskNew s p t m (Q : unit → Fifo → Prop) :
  fifo_inv s → heap (fifo_allocator s) !! p = Some t → run_state t = kBlocked → cpu t = -1 →
  (∀ c s', enqueued s p (if msg_runnable m then set_run_state kQueued (set_cpu c (set_seqnum (msg_seqnum m) t))
                         else set_seqnum (msg_seqnum m) t) s' →
     (msg_runnable m = true → enclave_cpu c) → Q tt s') →
  wp (Fifo_TaskNew env p m) s Q.
Proof using Henv Hgr.
  intros Hi Hp Hst Hcpu HQ. unfold Fifo_TaskNew. wpstep.
  eapply (wp_lifted_upd env s p t); [by apply lift_blocked|done|by right|]. intros s1 Hl1 _.
  assert (set_run_state kBlocked (set_seqnum (msg_seqnum m) t) = set_seqnum (msg_seqnum m) t) as E
    by (unfold set_run_state, set_seqnum; simpl; by rewrite Hst).
  rewrite E in Hl1. wpstep; intros Hrun; rewrite Hrun in HQ.
  - wpstep. eapply (wp_lifted_upd env s p); [exact Hl1|done|by right|]. intros s2 Hl2 _.
    eapply (wp_assign_migrate s p); [exact Hl2|done|done|]. intros c s3 Hc Hs3. eapply HQ; [|done]. exact Hs3.
  - apply (HQ 0 s1); [|done]. by apply lifted_enqueued.
Qed.

Lemma wp_Fifo_TaskRunnable s p t m :
  fifo_inv s → heap (fifo_allocator s) !! p = Some t → run_state t = kBlocked →
  wp (Fifo_TaskRunnable env p m) s (λ _ s', ∃ c,
    enqueued s p (set_run_state kQueued (set_cpu c (set_prio_boost (negb (msg_deferrable m)) t))) s' ∧
    if cpu t <? 0 then enclave_cpu c else c = cpu t).
Proof using Henv Hgr.
  intros Hi Hp Hst. pose proof (fi_task _ _ Hi p t Hp) as [_ Hb]. unfold Fifo_TaskRunnable.
  wpstep. eapply wp_task; [done|]. wpstep. wpstep; [by apply bool_decide_eq_true|]. wpstep.
  eapply (wp_lifted_upd env s p t); [by apply lift_blocked|done|destruct Hb as [|[]]; auto|]. intros s1 Hl1 _.
  destruct (Z.ltb_spec (cpu t) 0) as [Hlt|Hge].
  - assert (cpu t = -1) as Hcpu.
    { destruct Hb as [Hc|[? _]]; [|done]. pose proof (enclave_range _ _ Henv Hc). lia. }
    eapply (wp_assign_migrate s p); [exact Hl1|done|done|]. intros c s2 Hc Hs2. exists c. by split.
  - assert (enclave_cpu (cpu t)) as Hc by (destruct Hb as [|[]]; [done|lia]).
    wpstep. eapply wp_cpu_of; [done|apply (li_at _ _ _ _ _ Hl1)|done|].
    eapply (wp_Fifo_Enqueue env Henv s p); [exact Hl1|done|done|done|]. intros s2 Hs2. exists (cpu t). by split.
Qed.

(** Off the CPU and onto the queue again. *)
Lemma wp_requeue s0 p t m s (Q : unit → Fifo → Prop) :
  lifted s0 p t s → run_state t = kRunnable → enclave_cpu (cpu t) →
  (msg_from_switchto m = true → enclave_cpu (msg_cpu m)) →
  (∀ s', enqueued s0 p (set_run_state kQueued t) s' → Q tt s') →
  wp (fifo_cpu_of p ≫= λ c, Fifo_Enqueue c p ≫= λ _, ping_payload env m) s Q.
Proof using Henv.
  intros Hl Hst Hc Hm HQ. wpstep. eapply wp_cpu_of; [done|apply (li_at _ _ _ _ _ Hl)|done|]. wpstep.
  eapply (wp_Fifo_Enqueue env Henv s0 p); [exact Hl|done|done|done|]. intros s1 Hs1.
  eapply wp_ping_payload; [done|exact Hs1|done|exact HQ].
Qed.

Lemma wp_Fifo_TaskYield s p t m (Q : unit → Fifo → Prop) :
  fifo_inv s → heap (fifo_allocator s) !! p = Some t → off_ok t (msg_from_switchto m) →
  (msg_from_switchto m = true → enclave_cpu (msg_cpu m)) →
  (∀ s', enqueued s p (set_run_state kQueued t) s' → Q tt s') → wp (Fifo_TaskYield env p m) s Q.
Proof using Henv.
  intros Hi Hp Hoff Hm HQ. pose proof (off_bound _ _ _ _ _ Hi Hp Hoff) as Hc. unfold Fifo_TaskYield. wpstep.
  eapply wp_TaskOffCpu; [done..|]. intros s1 Hl1 _. by eapply (wp_requeue s p).
Qed.

Lemma wp_Fifo_TaskPreempted s p t m (Q : unit → Fifo → Prop) :
  fifo_inv s → heap (fifo_allocator s) !! p = Some t → off_ok t (msg_from_switchto m) →
  (msg_from_switchto m = true → enclave_cpu (msg_cpu m)) →
  (∀ s', enqueued s p (set_run_state kQueued (set_prio_boost true (set_preempted true t))) s' → Q tt s') →
  wp (Fifo_TaskPreempted env p m) s Q.
Proof using Henv.
  intros Hi Hp Hoff Hm HQ. pose proof (off_bound _ _ _ _ _ Hi Hp Hoff) as Hc. unfold Fifo_TaskPreempted. wpstep.
  eapply wp_TaskOffCpu; [done..|]. intros s1 Hl1 _. wpstep.
  eapply (wp_lifted_upd env s p); [exact Hl1|done|by left|]. intros s2 Hl2 _. by eapply (wp_requeue s p).
Qed.

Lemma wp_Fifo_TaskBlocked s p t m (Q : unit → Fifo → Prop) :
  fifo_inv s → heap (fifo_allocator s) !! p = Some t → off_ok t (msg_from_switchto m) →
  (msg_from_switchto m = true → enclave_cpu (msg_cpu m)) →
  (∀ s', enqueued s p (set_run_state kBlocked t) s' → Q tt s') → wp (Fifo_TaskBlocked env p m) s Q.
Proof using Henv.
  intros Hi Hp Hoff Hm HQ. unfold Fifo_TaskBlocked. wpstep.
  eapply wp_TaskOffCpu; [done..|]. intros s1 Hl1 _.
  eapply wp_ping_payload; [done|by apply lifted_enqueued|done|exact HQ].
Qed.

Lemma wp_Fifo_TaskDead s p t m (Q : unit → Fifo → Prop) :
  fifo_inv s → heap (fifo_allocator s) !! p = Some t → run_state t = kBlocked →
  (∀ s', gone s p s' → Q tt s') → wp (Fifo_TaskDead p m) s Q.
Proof.
  intros Hi Hp Hst HQ. unfold Fifo_TaskDead. wpstep. eapply wp_task; [done|]. wpstep.
  wpstep; [by apply bool_decide_eq_true|]. eapply wp_free_lifted; [by apply lift_blocked|exact HQ].
Qed.

(** A ping leaves a lifted task where it is. *)
Lemma wp_ping_lifted s0 p t m s (Q : unit → Fifo → Prop) :
  lifted s0 p t s → (msg_from_switchto m = true → enclave_cpu (msg_cpu m)) →
  (∀ s', lifted s0 p t s' → Q tt s') → wp (ping_payload env m) s Q.
Proof using Henv.
  intros Hl Hc HQ. unfold ping_payload. wpstep; [|by auto]. intros E. specialize (Hc E).
  pose proof (elems_lt _ _ (fe_wf _ Henv) Hc) as Hr. rewrite (fe_topo _ Henv) in Hr.
  rewrite Topology_cpu_ok by done. apply wp_lift_ok. apply wp_ping; [done|done|]. apply HQ.
  apply lifted_frame; [done|]. apply (fi_next _ _ (li_inv _ _ _ _ _ Hl)).
Qed.

Lemma wp_Fifo_TaskDeparted s p t m (Q : unit → Fifo → Prop) :
  fifo_inv s → heap (fifo_allocator s) !! p = Some t → (msg_from_switchto m = true → off_ok t true) →
  (msg_from_switchto m = true → enclave_cpu (msg_cpu m)) →
  (∀ s', gone s p s' → Q tt s') → wp (Fifo_TaskDeparted env p m) s Q.
Proof using Henv.
  intros Hi Hp Hoff Hm HQ. pose proof (fi_task _ _ Hi p t Hp) as [Hnr _]. unfold Fifo_TaskDeparted, has_state.
  wpstep. eapply wp_task; [done|]. wpstep.
  assert (∀ t' s', lifted s p t' s' → wp (ping_payload env m ≫= λ _, free_task p) s' Q) as Hend.
  { intros t' s' Hl. wpstep. eapply wp_ping_lifted; [exact Hl|done|]. intros s2 Hl2. by eapply wp_free_lifted. }
  destruct (bool_decide (run_state t = kOnCpu) || msg_from_switchto m) eqn:E.
  - eapply wp_TaskOffCpu; [done|exact Hi|exact Hp| |].
    + apply orb_true_iff in E as [E|E]; [left; by apply bool_decide_eq_true in E|]. rewrite E in *. by apply Hoff.
    + intros s1 Hl1 _. eapply Hend, Hl1.
  - apply orb_false_iff in E as [E1%bool_decide_eq_false E2]. case_bool_decide as Hq.
    + wpstep. eapply wp_cpu_of; [done|done|eapply bound_of; [done..|congruence]|].
      eapply wp_Erase; [done..|]. intros s1 Hl1. eapply Hend, Hl1.
    + assert (run_state t = kBlocked) as Hb by by destruct (run_state t).
      wpstep; [by apply bool_decide_eq_true|]. eapply Hend. by apply lift_blocked.
Qed.

(** ** The dispatcher *)

Lemma dispatch_effect s p t m :
  fifo_inv s → heap (fifo_allocator s) !! p = Some t → fifo_msg_ok t m →
  is_task_type (msg_type m) → msg_type m ≠ MSG_TASK_NEW →
  wp (@dispatch_task Fifo FifoTask _ _ (Fifo_ops env) p m) s
    (λ u s', fifo_effect s p t m s' ∧ u = negb (is_death (msg_type m))).
Proof using Henv Hgr.
  intros Hi Hp (Hsq & Hm & Hbl & Hoff & Hsw & Hdep) Hty Hnew. unfold dispatch_task. cbv zeta.
  unfold fifo_effect, moved.
  destruct (Z.eqb_spec (msg_type m) MSG_TASK_NEW) as [|_]; [done|].
  destruct (Z.eqb_spec (msg_type m) MSG_TASK_PREEMPT) as [E|N1].
  { wpstep. rewrite E in *. eapply wp_Fifo_TaskPreempted; [done..|auto|done|]. intros s' Hs'. wpstep. split; [|done].
    exists 0. by split. }
  destruct (Z.eqb_spec (msg_type m) MSG_TASK_DEAD) as [E|N2].
  { wpstep. rewrite E in *. eapply wp_Fifo_TaskDead; [done..|auto|]. intros s' Hs'. by wpstep. }
  destruct (Z.eqb_spec (msg_type m) MSG_TASK_WAKEUP) as [E|N3].
  { wpstep. rewrite E in *. eapply wp_mono; [apply (wp_Fifo_TaskRunnable s p t); auto|].
    intros [] s' (c & Hs' & Hc). wpstep. split; [|done]. exists c. by split. }
  destruct (Z.eqb_spec (msg_type m) MSG_TASK_BLOCKED) as [E|N4].
  { wpstep. rewrite E in *. eapply wp_Fifo_TaskBlocked; [done..|auto|done|]. intros s' Hs'. wpstep. split; [|done].
    exists 0. by split. }
  destruct (Z.eqb_spec (msg_type m) MSG_TASK_YIELD) as [E|N5].
  { wpstep. rewrite E in *. eapply wp_Fifo_TaskYield; [done..|auto|done|]. intros s' Hs'. wpstep. split; [|done].
    exists 0. by split. }
  destruct (Z.eqb_spec (msg_type m) MSG_TASK_DEPARTED) as [E|N6].
  { wpstep. rewrite E in *. eapply wp_Fifo_TaskDeparted; [done..|auto|done|]. intros s' Hs'. by wpstep. }
  destruct (Z.eqb_spec (msg_type m) MSG_TASK_SWITCHTO) as [E|N7].
  { wpstep. rewrite E in *. eapply wp_TaskOffCpu; [done..|left; auto|]. intros s' Hs' _. wpstep. split; [|done].
    exists 0. split; [by apply lifted_enqueued|done]. }
  assert (is_death (msg_type m) = false ∧ moves (msg_type m) = false) as [-> ->].
  { unfold is_death, moves. by rewrite !(proj2 (Z.eqb_neq _ _)) by done. }
  repeat (case_match; [by repeat wpstep|]). exfalso. zbool. unfold is_task_type, MSG_TASK_NEW, MSG_TASK_PREEMPT, MSG_TASK_DEAD, MSG_TASK_WAKEUP,
    MSG_TASK_BLOCKED, MSG_TASK_YIELD, MSG_TASK_DEPARTED, MSG_TASK_SWITCHTO, MSG_TASK_AFFINITY_CHANGED,
    MSG_TASK_PRIORITY_CHANGED, MSG_TASK_ON_CPU, _MSG_TASK_FIRST in *. lia.
Qed.

Lemma fifo_effect_inv s p t m s' : fifo_inv s → fifo_effect s p t m s' → fifo_inv s'.
Proof.
  intros Hi. unfold fifo_effect. destruct (is_death _); [by intros [? _]|].
  destruct (moves _); [by intros (c & [? _] & _)|by intros ->].
Qed.

Lemma moved_seqnum t m c : seqnum (moved t m c) = seqnum t.
Proof. unfold moved. cbv zeta. by repeat case_match. Qed.

Lemma inv_set_seqnum s p t n :
  fifo_inv s → heap (fifo_allocator s) !! p = Some t →
  fifo_inv (set_fifo_allocator (put_obj p (set_seqnum n t) (fifo_allocator s)) s).
Proof. intros Hi Hp. by apply (inv_fields env s p t). Qed.

Lemma enqueued_seqnum s0 p t s n :
  enqueued s0 p t s →
  enqueued s0 p (set_seqnum n t) (set_fifo_allocator (put_obj p (set_seqnum n t) (fifo_allocator s)) s).
Proof.
  intros (Hi & Hp & Hh & Hq & Hc & Hm). split_and!; simpl; try done; [by apply inv_set_seqnum|by rewrite lookup_insert_eq|].
  intros q Hne. rewrite lookup_insert_ne by done. auto.
Qed.

(** What the dispatcher makes of a message about a known task. *)
Definition fifo_transition (s : Fifo) (p : Z) (t : FifoTask) (m : Message) (s' : Fifo) : Prop :=
  if is_death (msg_type m) then gone s p s'
  else if moves (msg_type m) then
    ∃ c, enqueued s p (set_seqnum (msg_seqnum m) (moved t m c)) s' ∧
      (msg_type m = MSG_TASK_WAKEUP → if cpu t <? 0 then enclave_cpu c else c = cpu t)
  else s' = set_fifo_allocator (put_obj p (set_seqnum (msg_seqnum m) t) (fifo_allocator s)) s.

Lemma dispatch_transition s p t m :
  fifo_inv s → heap (fifo_allocator s) !! p = Some t → fifo_msg_ok t m → msg_gtid m ≠ 0 →
  GetTask (msg_gtid m) (fifo_allocator s) = Some p →
  is_task_type (msg_type m) → msg_type m ≠ MSG_TASK_NEW →
  wp (@DispatchMessage Fifo FifoTask _ _ (Fifo_ops env) m) s (λ _, fifo_transition s p t m).
Proof using Henv Hgr.
  intros Hi Hp Hm Hg Hf Hty Hnew. eapply (wp_DispatchMessage_task p t); [done..|by apply dispatch_effect|].
  intros u s' [He ->]. pose proof Hm as [Hsq _]. unfold fifo_effect, fifo_transition in *.
  destruct (is_death _); [done|]. simpl. destruct (moves _).
  - destruct He as (c & He & Hc). exists (moved t m c). split_and!; [apply He|by rewrite moved_seqnum|].
    exists c. split; [|done]. by apply enqueued_seqnum.
  - subst s'. exists t. by split_and!.
Qed.

(** A task that never had a CPU cannot be taken off one. *)
Lemma unbound_offcpu s p t b fs :
  heap (fifo_allocator s) !! p = Some t → cpu t = -1 → Fifo_TaskOffCpu p b fs s = Crash CheckFailed.
Proof.
  intros Hp Hc. unfold Fifo_TaskOffCpu, fifo_cpu_of, task_at, mbind, M_bind, lift, deref. simpl. by rewrite Hp, Hc.
Qed.

Lemma unbound_crash s p t m :
  heap (fifo_allocator s) !! p = Some t → cpu t = -1 → GetTask (msg_gtid m) (fifo_allocator s) = Some p →
  msg_type m ∈ [MSG_TASK_BLOCKED; MSG_TASK_YIELD; MSG_TASK_PREEMPT; MSG_TASK_DEPARTED] →
  msg_from_switchto m = true → msg_gtid m ≠ 0 →
  @DispatchMessage Fifo FifoTask _ _ (Fifo_ops env) m s = Crash CheckFailed.
Proof.
  intros Hp Hc Hf Hty Hsw Hg. pose proof (unbound_offcpu s p t) as Hoff.
  assert (@dispatch_task Fifo FifoTask _ _ (Fifo_ops env) p m s = Crash CheckFailed) as H.
  { rewrite !elem_of_cons, elem_of_nil in Hty. unfold dispatch_task. cbv zeta. destruct Hty as [E|[E|[E|[E|[]]]]]; rewrite E; simpl;
      unfold Fifo_TaskBlocked, Fifo_TaskYield, Fifo_TaskPreempted, Fifo_TaskDeparted, task_at, mbind, M_bind, lift, deref; simpl;
      rewrite ?Hp, ?Hsw, ?orb_true_r; simpl; by rewrite Hoff. }
  assert (is_task_type (msg_type m) ∧ msg_type m ≠ MSG_TASK_NEW) as [Ht Hn].
  { rewrite !elem_of_cons, elem_of_nil in Hty. unfold is_task_type. destruct Hty as [->|[->|[->|[->|[]]]]]; by vm_compute. }
  unfold DispatchMessage. rewrite task_type_route by done. rewrite (proj2 (Z.eqb_neq _ _) Hg).
  unfold find_task. rewrite (proj2 (Z.eqb_neq _ _) Hn). unfold mbind, M_bind, gets. simpl. rewrite Hf.
  unfold mbind, M_bind in H. by rewrite H.
Qed.

Lemma dispatch_cpu_nop s m (Q : unit → Fifo → Prop) :
  known_cpu_msg m → Q tt s → wp (@dispatch_cpu Fifo FifoTask _ _ (Fifo_ops env) m) s Q.
Proof. intros Hm HQ. unfold dispatch_cpu. cbv zeta. by repeat (case_match; [exact HQ|]); apply known_cpu_types in Hm; zbool; naive_solver. Qed.

Global Instance Fifo_laws :
  @SchedLaws Fifo FifoTask _ _ (Fifo_ops env) fifo_inv (λ _, True) (λ _ _, fifo_msg_ok) known_cpu_msg.
Proof using Henv Hgr.
  split.
  - apply _.
  - done.
  - by intros s [].
  - intros s Hi. apply (fe_malloc _ Henv), (fi_alloc _ _ Hi).
  - intros s m Hi _ Hg. set (s1 := set_allocator _ s).
    destruct (fe_malloc _ Henv (fifo_allocator s) (proj1 (fi_alloc _ _ Hi))) as [Hne Hfr].
    assert (fifo_inv s1) as Hi1.
    { destruct Hi as [Ha Hr Ht Hc Hn]. split; simpl; try done.
      - destruct (alloc_inv_new (fifo_allocator s) (fifo_malloc env (fifo_allocator s)) (msg_gtid m)) as [_ H]; done.
      - by apply rest_new.
      - intros p t [[<- <-]|[_ Hp]]%lookup_insert_Some; [split; [done|by right]|by apply (Ht p)]. }
    eapply (wp_Fifo_TaskNew s1 _ (FifoTask_new (msg_gtid m))); try done; [simpl; by rewrite lookup_insert_eq|].
    intros c s' Hs' _. apply Hs'.
  - intros s p t m Hi Hp Hm Hty Hnew. eapply wp_mono; [by apply (dispatch_effect s p t m)|].
    intros u s' [He ->]. split; [by eapply fifo_effect_inv|]. intros Hd%negb_true_iff. pose proof Hm as [Hsq _].
    unfold fifo_effect in He. rewrite Hd in He. destruct (moves _).
    + destruct He as (c & (_ & Hp' & _) & _). eexists. split; [exact Hp'|]. simpl. by rewrite moved_seqnum.
    + subst s'. eauto.
  - intros s p t n Hi Hp. by apply (inv_set_seqnum s p t n).
  - intros s m Hi Hc _. by apply (dispatch_cpu_nop s m).
Qed.
End messages.
