(* ===== verification/FifoSystem.v ===== *)
(** * FifoSystem: scheduling passes and the FIFO agents as a transition system *)

From S2P Require Import Prelude Outcome CpuMap CpuMapSpec.
From S2P Require Import Topology Dispatch Placement Fifo FifoHandlers FifoMessages.
From stdpp Require Import gmap functions sorting.
From Stdlib Require Import ZArith Lia.

Local Open Scope Z_scope.

(** ** When the kernel refuses an association *)

(** The same machine with a kernel that refuses none. *)
Definition granting (env : FifoEnv) : FifoEnv :=
  mkFifoEnv (fifo_topo env) (fifo_enclave env) (fifo_malloc env) (λ _ _ _ _, true) (fifo_commit env) (fifo_agent env).

(** The CPU that [AssignCpu] would return. *)
Definition next_cpu (env : FifoEnv) (s : Fifo) : Z :=
  match AssignCpu env s with Ok (c, _) => c | Crash _ => 0 end.

(** The messages that bind their task to a CPU: a new runnable task, and the
    wakeup of one that has none. *)
Definition migrates (s : Fifo) (m : Message) : bool :=
  if msg_type m =? MSG_TASK_NEW then msg_runnable m && bool_decide (GetTask (msg_gtid m) (fifo_allocator s) = None)
  else if msg_type m =? MSG_TASK_WAKEUP then
    match GetTask (msg_gtid m) (fifo_allocator s) with
    | Some p => match heap (fifo_allocator s) !! p with Some t => cpu t <? 0 | None => false end
    | None => false
    end
  else false.

(** The kernel refuses to associate the task of the message. *)
Definition refused (env : FifoEnv) (s : Fifo) (m : Message) : bool :=
  migrates s m && negb (fifo_associate env (asked s) (msg_gtid m) (next_cpu env s) (msg_seqnum m)).

Lemma grants_refused env s m : grants env → refused env s m = false.
Proof. intros Hg. unfold refused. by rewrite Hg, andb_false_r. Qed.

Section grant.
Context (env : FifoEnv).

Notation dispatch := (@DispatchMessage Fifo FifoTask _ _ (Fifo_ops env)).
Notation granted := (@DispatchMessage Fifo FifoTask _ _ (Fifo_ops (granting env))).

Lemma granting_ok : fifo_env_ok env → fifo_env_ok (granting env).
Proof. intros []. by split. Qed.

Lemma granting_inv s : fifo_inv (granting env) s ↔ fifo_inv env s.
Proof. split; intros []; by split. Qed.

Lemma granting_transition s p t m s' : fifo_transition (granting env) s p t m s' → fifo_transition env s p t m s'.
Proof.
  unfold fifo_transition. destruct (is_death _); [intros [H%granting_inv ?]; by split|].
  destruct (moves _); [|done]. intros (c & [H%granting_inv ?] & Hc). exists c. split; [by split|done].
Qed.

(** [AssignCpu] reads and moves its iterator only. *)
Lemma AssignCpu_next s : AssignCpu env s = match AssignCpu env s with Ok (c, s') => Ok (c, set_next (next_ s') s) | Crash f => Crash f end.
Proof.
  unfold AssignCpu, lift, mbind, M_bind, gets, modify. destruct (begin _) as [b|]; [|done]. destruct (end_ _) as [e|]; [|done].
  cbv zeta. destruct (cpu_ _) as [c|]; [|done]. by destruct (incr _ _).
Qed.

Lemma next_cpu_ext s s' : next_ s' = next_ s → next_cpu env s' = next_cpu env s.
Proof.
  intros E. unfold next_cpu, AssignCpu, lift, mbind, M_bind, gets, modify. destruct (begin _) as [b|]; [|done].
  destruct (end_ _) as [e|]; [|done]. cbv zeta. rewrite E. destruct (cpu_ _) as [c|]; [|done]. by destruct (incr _ _).
Qed.

Lemma Migrate_granted p t c q s :
  heap (fifo_allocator s) !! p = Some t → fifo_associate env (asked s) (gtid t) c q = true →
  Fifo_Migrate env p c q s = Fifo_Migrate (granting env) p c q s.
Proof.
  intros Hp Ha. unfold Fifo_Migrate, mbind, M_bind, task_at, lift, deref. simpl. rewrite Hp. unfold check.
  destruct (has_state kRunnable t); [|done]. simpl. destruct (cpu t =? -1); [|done]. simpl.
  unfold fifo_cpu. destruct ((0 <=? c) && (c <? MAX_CPUS)); [|done]. simpl. destruct (has_channel (fifo_cpus s c)); [|done].
  simpl. by rewrite Ha.
Qed.

(** [Migrate] after [AssignCpu], when the kernel agrees. *)
Lemma migrate_granted p t q s :
  heap (fifo_allocator s) !! p = Some t → fifo_associate env (asked s) (gtid t) (next_cpu env s) q = true →
  (AssignCpu env ≫= λ c, Fifo_Migrate env p c q) s = (AssignCpu (granting env) ≫= λ c, Fifo_Migrate (granting env) p c q) s.
Proof.
  intros Hp Ha. unfold mbind, M_bind. change (AssignCpu (granting env)) with (AssignCpu env).
  pose proof (AssignCpu_next s) as E. unfold next_cpu in Ha. destruct (AssignCpu env s) as [[c s1]|]; [|done]. injection E as ->.
  by apply (Migrate_granted p t).
Qed.

(** And when it does not. *)
Lemma migrate_refused p t q s :
  fifo_env_ok env → iter_ok env (next_ s) → (∀ c, enclave_cpu env c → has_channel (fifo_cpus s c) = true) →
  heap (fifo_allocator s) !! p = Some t → run_state t = kRunnable → cpu t = -1 →
  fifo_associate env (asked s) (gtid t) (next_cpu env s) q = false →
  (AssignCpu env ≫= λ c, Fifo_Migrate env p c q) s = Crash CheckFailed.
Proof.
  intros Henv Hit Hch Hp Hst Hcpu Ha. unfold next_cpu in Ha.
  assert (wp (AssignCpu env) s (λ c s', enclave_cpu env c ∧ ∃ i, s' = set_next i s)) as Hw
    by (apply wp_AssignCpu_any; [done|done|]; intros c i Hc _; split; [done|by exists i]).
  apply wp_ok in Hw as (c & s1 & E & Hc & i & ->). rewrite E in Ha. pose proof (enclave_range _ _ Henv Hc) as Hr.
  unfold mbind at 1, M_bind at 1. rewrite E. unfold Fifo_Migrate. apply crash_bind. eapply wp_task; [exact Hp|].
  apply crash_bind. wpstep; [by apply bool_decide_eq_true|]. apply crash_bind. wpstep; [by apply Z.eqb_eq|].
  apply crash_bind. apply wp_fifo_cpu; [done|]. simpl. rewrite Hch by done. do 4 (apply crash_bind; wpstep). simpl.
  unfold mbind, M_bind. by rewrite Ha.
Qed.

Lemma bind_cong {A B} (m : M Fifo A) (f g : A → M Fifo B) s :
  wp m s (λ a s', f a s' = g a s') → (m ≫= f) s = (m ≫= g) s.
Proof. unfold wp, mbind, M_bind. by destruct (m s) as [[a s']|]. Qed.

Lemma check_cong {B} (b : bool) (f g : unit → M Fifo B) s :
  f tt s = g tt s → (check b ≫= f) s = (check b ≫= g) s.
Proof. by destruct b. Qed.

Lemma bind_eq {A B} (m m' : M Fifo A) (f : A → M Fifo B) s : m s = m' s → (m ≫= f) s = (m' ≫= f) s.
Proof. unfold mbind, M_bind. by intros ->. Qed.

Lemma TaskNew_granted p t m s :
  heap (fifo_allocator s) !! p = Some t →
  (msg_runnable m = true → fifo_associate env (asked s) (gtid t) (next_cpu env s) (msg_seqnum m) = true) →
  Fifo_TaskNew env p m s = Fifo_TaskNew (granting env) p m s.
Proof.
  intros Hp Ha. unfold Fifo_TaskNew. apply bind_cong. eapply wp_upd; [exact Hp|]. destruct (msg_runnable m); [|done].
  apply bind_cong. eapply wp_upd; [apply lookup_insert_eq|]. eapply migrate_granted; [apply lookup_insert_eq|]. simpl.
  rewrite (next_cpu_ext s) by done. by apply Ha.
Qed.

Lemma TaskRunnable_granted p t m s :
  heap (fifo_allocator s) !! p = Some t →
  (cpu t < 0 → fifo_associate env (asked s) (gtid t) (next_cpu env s) (msg_seqnum m) = true) →
  Fifo_TaskRunnable env p m s = Fifo_TaskRunnable (granting env) p m s.
Proof.
  intros Hp Ha. unfold Fifo_TaskRunnable. apply bind_cong. eapply wp_task; [exact Hp|].
  apply check_cong, bind_cong. eapply wp_upd; [exact Hp|].
  destruct (Z.ltb_spec (cpu t) 0) as [Hc|_]; [|done]. eapply migrate_granted; [apply lookup_insert_eq|]. simpl.
  rewrite (next_cpu_ext s) by done. by apply Ha.
Qed.

(** The task that the dispatcher finds. *)
Lemma known_gtid s p t g :
  alloc_inv (fifo_allocator s) → GetTask g (fifo_allocator s) = Some p → heap (fifo_allocator s) !! p = Some t → gtid t = g.
Proof. intros [_ Ha] Hf Hp. apply Ha in Hf as (u & Hu & <-). by replace u with t by congruence. Qed.

(** A message that is not refused is handled as if none could be. *)
Lemma dispatch_granted s m :
  alloc_inv (fifo_allocator s) → refused env s m = false → dispatch m s = granted m s.
Proof.
  intros Ha Hr. unfold refused, migrates in Hr. unfold DispatchMessage. destruct (msg_type m =? MSG_NOP); [done|].
  destruct (is_cpu_msg m); [done|]. apply check_cong, check_cong. unfold find_task, dispatch_task. cbv zeta.
  destruct (msg_type m =? MSG_TASK_NEW) eqn:En.
  - apply bind_cong. wpstep. wpstep. unfold GetTask_new. simpl. destruct (GetTask (msg_gtid m) (fifo_allocator s)) as [p|] eqn:Hf.
    + wpstep. wpstep. by wpstep.
    + wpstep. wpstep. wpstep. apply bind_eq, bind_eq. eapply TaskNew_granted; [apply lookup_insert_eq|]. intros Hrun.
      rewrite Hrun, bool_decide_eq_true_2 in Hr by done. simpl. rewrite (next_cpu_ext s) by done. by apply negb_false_iff.
  - apply bind_cong. wpstep. simpl. destruct (GetTask (msg_gtid m) (fifo_allocator s)) as [p|] eqn:Hf; [|done]. apply bind_eq.
    destruct (msg_type m =? MSG_TASK_PREEMPT); [done|]. destruct (msg_type m =? MSG_TASK_DEAD); [done|].
    destruct (msg_type m =? MSG_TASK_WAKEUP) eqn:Ew; [|done]. apply bind_eq.
    destruct (heap (fifo_allocator s) !! p) as [t|] eqn:Hp.
    + eapply TaskRunnable_granted; [exact Hp|]. intros Hc%Z.ltb_lt. rewrite Hc in Hr.
      rewrite (known_gtid s p t (msg_gtid m)) by done. by apply negb_false_iff.
    + unfold TaskRunnable. simpl. unfold Fifo_TaskRunnable, mbind, M_bind, task_at, lift, deref. simpl. by rewrite Hp.
Qed.
End grant.

Section schedule.
Context (env : FifoEnv) (Henv : fifo_env_ok env).

Notation fifo_inv := (fifo_inv env).
Notation lifted := (lifted env).
Notation enqueued := (enqueued env).
Notation enclave_cpu := (enclave_cpu env).

(** [Dequeue] takes the head of the queue. *)
Lemma wp_Dequeue s c p l (Q : Z → Fifo → Prop) :
  fifo_inv s → enclave_cpu c → run_queue (fifo_cpus s c) = p :: l →
  (∀ t s', heap (fifo_allocator s) !! p = Some t → run_state t = kQueued → cpu t = c →
     lifted s p (set_run_state kRunnable t) s' → asked s' = asked s → Q p s') →
  wp (Fifo_Dequeue c) s Q.
Proof using Henv.
  intros Hi Hc Hl HQ. pose proof (enclave_range _ _ Henv Hc) as Hr. pose proof (fi_rest _ _ Hi) as Hrest.
  assert (p ∈ cpu_queues (fifo_cpus s) (PRq c)) as Hin by (simpl; rewrite Hl; by left).
  destruct (rest_live _ _ _ _ _ Hrest Hin) as (t & Hp & Hpl).
  assert (run_state t = kQueued ∧ cpu t = c) as [Hst Hcpu].
  { unfold fifo_place in Hpl. by destruct (run_state t); try done; injection Hpl. }
  unfold Fifo_Dequeue. wpstep. apply wp_fifo_cpu; [done|]. rewrite Hl. wpstep. eapply wp_task; [done|].
  wpstep. wpstep; [by apply bool_decide_eq_true|]. wpstep. eapply wp_upd; [done|]. wpstep. apply wp_upd_cpu; [done|].
  wpstep. apply (HQ t); try done. simpl.
  apply (lift_from env s p t _ (PRq c)); try done.
  - intros d. by fn_case c d.
  - intros d. fn_case c d.
    + rewrite Hl. unfold others. rewrite filter_cons_False by naive_solver. symmetry. apply others_notin.
      pose proof (proj2 Hrest (PRq c)) as Hnd. simpl in Hnd. rewrite Hl in Hnd. by apply NoDup_cons in Hnd as [? _].
    + symmetry. eapply queue_others; [done..|]. rewrite Hpl. congruence.
  - intros d. rewrite (current_without env s p t) by (first [done|by rewrite Hpl]). by fn_case c d.
Qed.

(** The task [p] runs on [c]. *)
Definition on_cpu (c : Z) (t : FifoTask) : FifoTask :=
  set_prio_boost false (set_preempted false (set_cpu c (set_run_state kOnCpu t))).

Definition ran (s0 : Fifo) (p : Z) (t : FifoTask) (c : Z) (s : Fifo) : Prop :=
  fifo_inv s ∧ heap (fifo_allocator s) !! p = Some (on_cpu c t) ∧
  (∀ q, q ≠ p → heap (fifo_allocator s) !! q = heap (fifo_allocator s0) !! q) ∧
  (∀ d, run_queue (fifo_cpus s d) = others p (run_queue (fifo_cpus s0 d))) ∧
  (∀ d, current (fifo_cpus s d) = if d =? c then p else current (fifo_cpus s0 d)).

(** A task that was dequeued. *)
Lemma wp_TaskOnCpu_lifted s0 p t c s (Q : unit → Fifo → Prop) :
  lifted s0 p t s → enclave_cpu c → current (fifo_cpus s c) = 0 →
  (∀ d, current (fifo_cpus s0 d) ≠ p) →
  (∀ s', ran s0 p t c s' → Q tt s') → wp (Fifo_TaskOnCpu p c) s Q.
Proof using Henv.
  intros Hl Hc Hcur Hno HQ. pose proof Hl as [Hi Hp Hh Hq Hcu Hm]. pose proof (enclave_range _ _ Henv Hc) as Hr.
  pose proof (inv_nonzero _ _ p _ Hi (lookup_insert_eq _ _ _)) as Hp0.
  unfold Fifo_TaskOnCpu. wpstep. apply wp_upd_cpu; [done|]. eapply wp_upd; [exact Hp|]. apply HQ.
  unfold ran. simpl. fold (on_cpu c t). split_and!.
  - rewrite <- (put_put p (set_run_state kBlocked t) (on_cpu c t)).
    apply (inv_put env _ p (set_run_state kBlocked t) _ _ _ _ Hi); simpl; try done.
    + by rewrite lookup_insert_eq.
    + eapply rest_ext; [eapply (rest_enter _ _ _ p _ _ (PCur c) [p]); [apply (fi_rest _ _ Hi)|simpl; by rewrite lookup_insert_eq|done|done|]|].
      * simpl. by rewrite Hcur.
      * intros [d|d].
        -- rewrite (fn_lookup_insert_ne _ (PCur c) (PRq d)) by done. by fn_case c d.
        -- fn_case c d; [|done]. unfold slot_list. by rewrite (proj2 (Z.eqb_neq p 0)).
    + by left.
    + intros d. by fn_case c d.
  - by rewrite lookup_insert_eq.
  - intros q Hne. rewrite lookup_insert_ne by done. auto.
  - intros d. rewrite <- Hq. by fn_case c d.
  - intros d. destruct (Z.eqb_spec d c) as [->|Hne]; [by rewrite fn_lookup_insert|].
    rewrite fn_lookup_insert_ne by done. rewrite Hcu. unfold without.
    by rewrite (proj2 (Z.eqb_neq _ _) (Hno d)).
Qed.

(** The current task, committed again. *)
Lemma wp_TaskOnCpu_current s p t c (Q : unit → Fifo → Prop) :
  fifo_inv s → heap (fifo_allocator s) !! p = Some t → run_state t = kOnCpu → cpu t = c →
  (∀ s', ran s p t c s' → Q tt s') → wp (Fifo_TaskOnCpu p c) s Q.
Proof using Henv.
  intros Hi Hp Hst <- HQ. pose proof (bound_of _ _ _ _ Hi Hp ltac:(congruence)) as Hc.
  pose proof (enclave_range _ _ Henv Hc) as Hr. pose proof (oncpu_current _ _ _ _ Hi Hp Hst) as Hcur.
  unfold Fifo_TaskOnCpu. wpstep. apply wp_upd_cpu; [done|]. eapply wp_upd; [exact Hp|]. apply HQ.
  unfold ran. simpl. fold (on_cpu (cpu t) t). split_and!.
  - apply (inv_put env s p t); try done.
    + eapply rest_ext; [eapply rest_same; [apply (fi_rest _ _ Hi)|done|]|].
      * unfold fifo_place. simpl. by rewrite Hst.
      * intros [d|d]; fn_case (cpu t) d; [done..| |done]. by rewrite Hcur.
    + by left.
    + intros d. by fn_case (cpu t) d.
  - by rewrite lookup_insert_eq.
  - intros q Hne. by rewrite lookup_insert_ne.
  - intros d. rewrite (queue_others env s p t) by (first [done|unfold fifo_place; by rewrite Hst]). by fn_case (cpu t) d.
  - intros d. destruct (Z.eqb_spec d (cpu t)) as [->|Hne]; [by rewrite fn_lookup_insert|].
    by rewrite fn_lookup_insert_ne.
Qed.

(** The choice of a pass: the running task, or else the head of the queue. *)
Definition next_task (s : Fifo) (c : Z) : Z :=
  if current (fifo_cpus s c) =? 0 then default 0 (head (run_queue (fifo_cpus s c))) else current (fifo_cpus s c).

(** Nothing moves. *)
Definition same_places (s s' : Fifo) : Prop :=
  fifo_inv s' ∧ fifo_allocator s' = fifo_allocator s ∧ fifo_cpus s' = fifo_cpus s.

(** What a pass does: [ok] is the kernel's answer to the commit. *)
Definition scheduled (s : Fifo) (c : Z) (s' : Fifo) : Prop :=
  let p := next_task s c in
  if p =? 0 then same_places s s'
  else ∃ t, heap (fifo_allocator s) !! p = Some t ∧ cpu t = c ∧
    if fifo_commit env (asked s) c (gtid t) then ran s p t c s'
    else enqueued s p (set_run_state kQueued (set_prio_boost true t)) s'.

Lemma lifted_tick s0 p t s n l : lifted s0 p t s → lifted s0 p t (mkFifo (fifo_allocator s) (fifo_cpus s) (next_ s) n l).
Proof. intros Hl. apply lifted_frame; [done|]. apply (fi_next _ _ (li_inv _ _ _ _ _ Hl)). Qed.

(** Back to the front of the queue after a failed commit. *)
Lemma wp_push_front s0 p t s (Q : unit → Fifo → Prop) :
  lifted s0 p t s → run_state t = kRunnable → enclave_cpu (cpu t) →
  (∀ s', enqueued s0 p (set_run_state kQueued (set_prio_boost true t)) s' → Q tt s') →
  wp (upd_task p (set_prio_boost true) ≫= λ _, Fifo_Enqueue (cpu t) p) s Q.
Proof using Henv.
  intros Hl Hst Hc HQ. wpstep. eapply (wp_lifted_upd env s0 p); [exact Hl|done|by left|]. intros s1 Hl1 _.
  by eapply (wp_Fifo_Enqueue env Henv s0 p).
Qed.

(** Once [next] has been dequeued: commit it, or push it back. *)
Lemma wp_commit_dequeued s0 p t c s (Q : unit → Fifo → Prop) :
  lifted s0 p (set_run_state kRunnable t) s → cpu t = c → enclave_cpu c →
  current (fifo_cpus s c) = 0 → (∀ d, current (fifo_cpus s0 d) ≠ p) →
  (∀ s', ran s0 p t c s' → fifo_commit env (asked s) c (gtid t) = true → Q tt s') →
  (∀ s', enqueued s0 p (set_run_state kQueued (set_prio_boost true t)) s' →
     fifo_commit env (asked s) c (gtid t) = false → Q tt s') →
  wp (modify (add_event (EvCommit c (gtid t) (seqnum t))) ≫= λ _,
      gets asked ≫= λ n, modify tick ≫= λ _,
      if fifo_commit env n c (gtid t) then Fifo_TaskOnCpu p c
      else
        fifo_cpu c ≫= λ k,
        whenM (current k =? p) (Fifo_TaskOffCpu p false false) ≫= λ _,
        upd_task p (set_prio_boost true) ≫= λ _,
        Fifo_Enqueue c p) s Q.
Proof using Henv.
  intros Hl Hcpu Hc Hcur Hno H1 H2. pose proof (enclave_range _ _ Henv Hc) as Hr.
  pose proof (inv_nonzero _ _ p _ (li_inv _ _ _ _ _ Hl) (lookup_insert_eq _ _ _)) as Hp0.
  do 6 wpstep. simpl asked.
  apply (lifted_tick _ _ _ _ (S (asked s)) (log s ++ [EvCommit c (gtid t) (seqnum t)])) in Hl.
  set (s2 := tick _). change (lifted s0 p (set_run_state kRunnable t) s2) in Hl.
  assert (current (fifo_cpus s2 c) = 0) as Hcur2 by done. clearbody s2.
  destruct (fifo_commit env (asked s) c (gtid t)) eqn:Ecommit.
  - by eapply wp_TaskOnCpu_lifted; [exact Hl|done..|auto].
  - wpstep. apply wp_fifo_cpu; [done|]. rewrite Hcur2. wpstep. wpstep; [intros E0; apply Z.eqb_eq in E0; congruence|intros _].
    replace c with (cpu (set_run_state kRunnable t)) by done.
    eapply (wp_push_front s0 p (set_run_state kRunnable t)); [exact Hl|done|simpl; by rewrite Hcpu|].
    intros s3 Hs3. by apply H2.
Qed.

Lemma queued_not_current s p t d :
  fifo_inv s → heap (fifo_allocator s) !! p = Some t → run_state t = kQueued → current (fifo_cpus s d) ≠ p.
Proof.
  intros Hi Hp Hst E. assert (fifo_place t ≠ Some (PCur d)) as Hno by (unfold fifo_place; by rewrite Hst).
  pose proof (current_without env s p t d Hi Hp Hno) as H. unfold without in H. rewrite E, Z.eqb_refl in H.
  pose proof (inv_nonzero _ _ _ _ Hi Hp). congruence.
Qed.

Lemma wp_FifoSchedule s c :
  fifo_inv s → enclave_cpu c → wp (FifoSchedule env c false) s (λ _, scheduled s c).
Proof using Henv.
  intros Hi Hc. pose proof (enclave_range _ _ Henv Hc) as Hr. pose proof (fi_rest _ _ Hi) as Hrest.
  unfold FifoSchedule, scheduled, next_task. wpstep. apply wp_fifo_cpu; [done|]. wpstep.
  destruct (Z.eqb_spec (current (fifo_cpus s c)) 0) as [Hcur|Hcur].
  - destruct (run_queue (fifo_cpus s c)) as [|p l] eqn:Hl.
    + unfold Fifo_Dequeue. wpstep. apply wp_fifo_cpu; [done|]. rewrite Hl. wpstep. simpl.
      wpstep. apply wp_fifo_cpu; [done|]. wpstep. split; [by apply inv_log|done].
    + eapply wp_Dequeue; [done..|]. intros t s1 Hp Hst Hcpu Hl1 Ea.
      pose proof (inv_nonzero _ _ _ _ Hi Hp) as Hp0. simpl. rewrite !(proj2 (Z.eqb_neq p 0)) by done.
      wpstep. eapply wp_task; [apply (li_at _ _ _ _ _ Hl1)|]. rewrite <- Ea.
      eapply (wp_commit_dequeued s p t c); [exact Hl1|done|done| |by intros d; eapply queued_not_current|..].
      * rewrite (li_cur _ _ _ _ _ Hl1 c). unfold without. by rewrite Hcur; destruct (0 =? p).
      * intros s2 Hs2 E. exists t. by rewrite E.
      * intros s2 Hs2 E. exists t. by rewrite E.
  - assert (current (fifo_cpus s c) ∈ cpu_queues (fifo_cpus s) (PCur c)) as Hin by (simpl; by apply elem_of_slot).
    destruct (rest_live _ _ _ _ _ Hrest Hin) as (t & Hp & Hpl). set (p := current (fifo_cpus s c)) in *.
    assert (run_state t = kOnCpu ∧ cpu t = c) as [Hst Hcpu].
    { unfold fifo_place in Hpl. by destruct (run_state t); try done; injection Hpl. }
    wpstep. rewrite !(proj2 (Z.eqb_neq p 0)) by done. wpstep. eapply wp_task; [done|]. do 6 wpstep. simpl asked.
    set (s1 := tick _). assert (fifo_inv s1) as Hi1 by (by unfold s1, tick, add_event; simpl; apply inv_log).
    destruct (fifo_commit env (asked s) c (gtid t)) eqn:Ecommit.
    + eapply (wp_TaskOnCpu_current s1 p t c); [done..|]. intros s2 Hs2. exists t. by rewrite Ecommit.
    + wpstep. apply wp_fifo_cpu; [done|]. change (current (fifo_cpus s1 c)) with p. rewrite Z.eqb_refl. wpstep. unfold whenM.
      eapply (wp_TaskOffCpu env Henv s1 p t); [done|done|by left|]. intros s2 Hl2 _.
      replace c with (cpu (set_run_state kRunnable t)) by done.
      eapply (wp_push_front s1 p (set_run_state kRunnable t)); [exact Hl2|done|simpl; by rewrite Hcpu|].
      intros s3 Hs3. exists t. change (cpu (set_run_state _ t)) with (cpu t). by rewrite Hcpu, Ecommit.
Qed.

(** A boosted pass leaves everything where it is. *)
Lemma wp_FifoSchedule_boosted s c :
  fifo_inv s → enclave_cpu c → wp (FifoSchedule env c true) s (λ _, same_places s).
Proof using Henv.
  intros Hi Hc. pose proof (enclave_range _ _ Henv Hc) as Hr. unfold FifoSchedule.
  wpstep. apply wp_fifo_cpu; [done|]. wpstep. wpstep. simpl. wpstep. apply wp_fifo_cpu; [done|]. wpstep.
  split; [by apply inv_log|done].
Qed.

Lemma scheduled_inv s c s' : scheduled s c s' → fifo_inv s'.
Proof.
  unfold scheduled. destruct (next_task s c =? 0); [by intros [? _]|]. intros (t & _ & _ & H). destruct (fifo_commit _ _ _ _); apply H.
Qed.

(** ** Steps *)

Notation dispatch := (@DispatchMessage Fifo FifoTask _ _ (Fifo_ops env)).

(** The messages the kernel may send. *)
Definition fifo_sendable (s : Fifo) (m : Message) : Prop :=
  @sendable Fifo FifoTask _ (λ _, True) (λ _ _, fifo_msg_ok env) known_cpu_msg s m.

(** A step of some agent: a message, a scheduling pass. *)
Inductive fifo_step (s : Fifo) : Fifo → Prop :=
| fifo_step_message m s' : fifo_sendable s m → dispatch m s = Ok (tt, s') → fifo_step s s'
| fifo_step_schedule c boosted s' : enclave_cpu c → FifoSchedule env c boosted s = Ok (tt, s') → fifo_step s s'.

Inductive fifo_reachable : Fifo → Prop :=
| fifo_reach_init s : FifoScheduler_new env = Ok s → fifo_reachable s
| fifo_reach_step s s' : fifo_reachable s → fifo_step s s' → fifo_reachable s'.

Lemma new_cpus (cs : list Z) (f : Z → FifoCpu) c :
  foldl (λ f c, <[c := mkFifoCpu 0 true []]> f) f cs c = if decide (c ∈ cs) then mkFifoCpu 0 true [] else f c.
Proof.
  revert f. induction cs as [|d cs IH]; intros f; simpl; [done|]. rewrite IH.
  destruct (decide (c ∈ cs)) as [Hin|Hnin], (decide (c ∈ d :: cs)) as [Hin'|Hnin']; try done.
  - exfalso. apply Hnin'. by right.
  - apply elem_of_cons in Hin' as [->|]; [apply fn_lookup_insert|done].
  - apply not_elem_of_cons in Hnin' as [Hne _]. by rewrite fn_lookup_insert_ne.
Qed.

Lemma fifo_init_inv s : FifoScheduler_new env = Ok s → fifo_inv s ∧ next_ s = iter_at (fifo_enclave env) [].
Proof using Henv.
  pose proof (fe_wf _ Henv) as Hwf. pose proof (wf_cpus _ Hwf).
  unfold FifoScheduler_new. rewrite iterate_spec by done. unfold end_. rewrite FindNextSetBit_spec by (done || lia).
  rewrite elems_from_num by done. cbn [mbind outcome_bind]. intros [= <-].
  split; [|done]. set (f := foldl _ _ _).
  assert (∀ c, f c = if decide (c ∈ elems (fifo_enclave env)) then mkFifoCpu 0 true [] else mkFifoCpu 0 false []) as Hf
    by (intros c; apply new_cpus). clearbody f.
  split; simpl.
  - split; [done|]. intros g p. simpl. rewrite lookup_empty. split; [done|]. intros (t & Ht & _). by rewrite lookup_empty in Ht.
  - split.
    + intros p k. rewrite lookup_empty. split; [|by intros (? & ? & _)].
      destruct k as [c|c]; simpl; rewrite Hf; destruct (decide _); simpl; by intros ?%elem_of_nil.
    + intros [c|c]; simpl; rewrite Hf; destruct (decide _); simpl; constructor.
  - by intros p t.
  - intros c Hc. rewrite Hf. by rewrite decide_True.
  - exists (elems (fifo_enclave env)), []. by rewrite app_nil_r.
Qed.

(** A message the kernel may send is handled, unless an association is refused. *)
Lemma fifo_dispatch_inv s m : fifo_inv s → fifo_sendable s m → refused env s m = false → wp (dispatch m) s (λ _, fifo_inv).
Proof using Henv.
  intros Hi Hm Hr. unfold wp. rewrite (dispatch_granted env s m (fi_alloc _ _ Hi) Hr).
  pose proof (dispatch_preserves (FifoHandlers.fifo_inv (granting env)) _ _ _
    (Laws := Fifo_laws (granting env) (granting_ok env Henv) (λ _ _ _ _, eq_refl)) s m) as H.
  specialize (H (proj2 (granting_inv env s) Hi) Hm). unfold wp in H. revert H.
  lazymatch goal with |- _ → match ?r with _ => _ end => destruct r as [[[] s']|] end; [|done]. apply granting_inv.
Qed.

Lemma TaskRunnable_refused s p t m :
  fifo_inv s → heap (fifo_allocator s) !! p = Some t → run_state t = kBlocked → cpu t < 0 →
  fifo_associate env (asked s) (gtid t) (next_cpu env s) (msg_seqnum m) = false → Fifo_TaskRunnable env p m s = Crash CheckFailed.
Proof using Henv.
  intros [_ _ Ht Hch Hn] Hp Hst Hcpu Ha. unfold Fifo_TaskRunnable. apply crash_bind. eapply wp_task; [exact Hp|].
  apply crash_bind. wpstep; [by apply bool_decide_eq_true|]. apply crash_bind. eapply wp_upd; [exact Hp|].
  rewrite (proj2 (Z.ltb_lt _ _) Hcpu). destruct (Ht p t Hp) as [_ [Hc|[Hc _]]]; [pose proof (enclave_range _ _ Henv Hc); lia|].
  eapply migrate_refused; [done|exact Hn|exact Hch|apply lookup_insert_eq|done|done|]. simpl. by rewrite (next_cpu_ext env s).
Qed.

(** A refused association fails a check. *)
Lemma fifo_dispatch_refused s m : fifo_inv s → fifo_sendable s m → refused env s m = true → dispatch m s = Crash CheckFailed.
Proof using Henv.
  intros Hi Hm [Hmig Hr%negb_true_iff]%andb_true_iff. unfold migrates in Hmig.
  assert (msg_type m = MSG_TASK_NEW ∨ msg_type m = MSG_TASK_WAKEUP) as Hty.
  { destruct (Z.eqb_spec (msg_type m) MSG_TASK_NEW); [by left|]. by destruct (Z.eqb_spec (msg_type m) MSG_TASK_WAKEUP); [right|]. }
  destruct Hm as [E|[[Hc _]|(Ht & Hg & Hm)]]; [by destruct Hty as [E'|E']; rewrite E' in E|unfold is_cpu_msg in Hc; by destruct Hty as [E|E]; rewrite E in Hc|].
  unfold DispatchMessage. rewrite task_type_route by done. rewrite (proj2 (Z.eqb_neq _ _) Hg).
  unfold find_task, dispatch_task. cbv zeta.
  destruct Hty as [E|E]; rewrite E in *; simpl in *.
  - apply andb_true_iff in Hmig as [Hrun Hf%bool_decide_eq_true]. do 2 (apply crash_bind; wpstep). apply crash_bind. wpstep. wpstep. unfold GetTask_new. simpl.
    rewrite Hf. wpstep. wpstep. wpstep. set (p := fifo_malloc env _). set (s1 := set_fifo_allocator _ s).
    assert (Fifo_TaskNew env p m s1 = Crash CheckFailed) as Ec; [|unfold mbind, M_bind; by rewrite Ec].
    unfold Fifo_TaskNew. rewrite Hrun. destruct Hi as [_ _ _ Hch Hn].
    apply crash_bind. eapply wp_upd; [apply lookup_insert_eq|]. apply crash_bind. eapply wp_upd; [apply lookup_insert_eq|].
    eapply migrate_refused; [done|exact Hn|exact Hch|apply lookup_insert_eq|done|done|]. simpl. by rewrite (next_cpu_ext env s).
  - do 3 (apply crash_bind; wpstep). simpl. destruct (GetTask (msg_gtid m) (fifo_allocator s)) as [p|] eqn:Hf; [|done].
    destruct (heap (fifo_allocator s) !! p) as [t|] eqn:Hp; [|done]. apply Z.ltb_lt in Hmig.
    assert (run_state t = kBlocked) as Hst.
    { destruct (Hm ltac:(discriminate) t eq_refl) as (_ & _ & H & _). apply H. rewrite E. by left. }
    assert (Fifo_TaskRunnable env p m s = Crash CheckFailed) as Ec; [|unfold mbind, M_bind; by rewrite Ec].
    apply (TaskRunnable_refused s p t); try done. by rewrite (known_gtid s p t (msg_gtid m)) by (first [done|apply Hi]).
Qed.

Lemma fifo_step_inv s s' : fifo_inv s → fifo_step s s' → fifo_inv s'.
Proof using Henv.
  intros Hi [m s1 Hm E|c b s1 Hc E].
  - destruct (refused env s m) eqn:Hr; [by rewrite (fifo_dispatch_refused s m Hi Hm Hr) in E|].
    pose proof (fifo_dispatch_inv s m Hi Hm Hr) as H. unfold wp in H. by rewrite E in H.
  - destruct b.
    + pose proof (wp_FifoSchedule_boosted s c Hi Hc) as H. unfold wp in H. rewrite E in H. apply H.
    + pose proof (wp_FifoSchedule s c Hi Hc) as H. unfold wp in H. rewrite E in H. by eapply scheduled_inv.
Qed.

Lemma fifo_reachable_inv s : fifo_reachable s → fifo_inv s.
Proof using Henv. induction 1; [by apply fifo_init_inv|by eapply fifo_step_inv]. Qed.
End schedule.
