(* ===== verification/FifoClaims.v ===== *)
(** * FifoClaims: what the per-CPU FIFO agents guarantee

    No task is lost, no step aborts but where the kernel refuses to associate a
    task with its new CPU, each message and each scheduling pass moves one task as an abstract transition says, and
    new tasks are spread over the CPUs in turn.  First a machine to run. *)

From S2P Require Import Prelude Outcome CpuMap CpuMapSpec.
From S2P Require Import Topology TopologyClaims Dispatch Placement.
From S2P Require Import Fifo FifoHandlers FifoMessages FifoSystem.
From stdpp Require Import gmap functions sorting.
From Stdlib Require Import ZArith Lia.

Local Open Scope Z_scope.

(** ** A sample machine *)

(** CPUs 1 and 2 of a four-CPU machine; the kernel refuses its fourth commit, and
    the associations as [assoc] says. *)
Definition fifo_list : CpuList := mkCpuList [6; 0; 0; 0; 0; 0; 0; 0] 1 4.

Definition fifo_sample (assoc : nat → Z → Z → Z → bool) : FifoEnv :=
  mkFifoEnv (mkTopology 4 fifo_list [] 0 false []) fifo_list fresh_addr assoc
    (λ n _ _, negb (n =? 3)%nat) (λ c, (c =? 1) || (c =? 2)).

Definition fifo_env : FifoEnv := fifo_sample (λ _ _ _ _, true).
Definition refusing_env : FifoEnv := fifo_sample (λ _ _ _ _, false).

Lemma fifo_list_elems : elems fifo_list = [1; 2].
Proof. by vm_compute. Qed.

Lemma fifo_sample_ok assoc : fifo_env_ok (fifo_sample assoc).
Proof.
  split; change (fifo_enclave (fifo_sample assoc)) with fifo_list; try done.
  - apply cpulist_wfb_ok. by vm_compute.
  - intros a _. apply fresh_addr_ok.
  - intros c. rewrite fifo_list_elems, !elem_of_cons, elem_of_nil. intros [->|[->|[]]]; done.
Qed.

Definition fifo_list_ok : fifo_env_ok fifo_env := fifo_sample_ok _.

Definition fifo_msg (g ty sq : Z) (deferrable switchto : bool) : Message :=
  mkMessage ty sq g 2 true switchto 0 deferrable 0.

Global Instance enclave_cpu_dec c : Decision (enclave_cpu fifo_env c).
Proof. unfold enclave_cpu. apply _. Defined.

Global Instance fifo_msg_ok_dec t m : Decision (fifo_msg_ok fifo_env t m).
Proof. unfold fifo_msg_ok, off_ok. apply _. Defined.

Global Instance fifo_sendable_dec s m : Decision (fifo_sendable fifo_env s m).
Proof. unfold fifo_sendable, known_cpu_msg. apply _. Defined.

(** What an agent does: a message or an unboosted pass. *)
Inductive FifoAct := ActMessage (m : Message) | ActSchedule (c : Z).

Definition fifo_do (a : FifoAct) (s : Fifo) : option Fifo :=
  match a with
  | ActMessage m =>
      if decide (fifo_sendable fifo_env s m) then
        match @DispatchMessage Fifo FifoTask _ _ (Fifo_ops fifo_env) m s with Ok (_, s') => Some s' | Crash _ => None end
      else None
  | ActSchedule c =>
      if decide (enclave_cpu fifo_env c) then
        match FifoSchedule fifo_env c false s with Ok (_, s') => Some s' | Crash _ => None end
      else None
  end.

Lemma fifo_do_step a s s' : fifo_do a s = Some s' → fifo_step fifo_env s s'.
Proof.
  destruct a as [m|c]; simpl; case_decide as H; [|done| |done].
  - destruct (DispatchMessage m s) as [[[] s1]|] eqn:E; [|done]. intros [= <-]. by eapply fifo_step_message.
  - destruct (FifoSchedule fifo_env c false s) as [[[] s1]|] eqn:E; [|done]. intros [= <-]. by eapply fifo_step_schedule.
Qed.

Definition fifo_run (acts : list FifoAct) : option Fifo :=
  match FifoScheduler_new fifo_env with
  | Ok s => foldl (λ o a, o ≫= fifo_do a) (Some s) acts
  | Crash _ => None
  end.

Lemma fifo_run_reachable acts s : fifo_run acts = Some s → fifo_reachable fifo_env s.
Proof.
  unfold fifo_run. destruct (FifoScheduler_new fifo_env) as [s0|] eqn:E; [|done].
  pose proof (fifo_reach_init _ _ E) as Hr. clear E. revert s0 Hr. induction acts as [|a acts IH]; intros s0 Hr; simpl.
  { by intros [= <-]. }
  destruct (fifo_do a s0) as [s1|] eqn:Ea.
  - intros H. apply (IH s1); [|done]. eapply fifo_reach_step; [exact Hr|by apply (fifo_do_step a)].
  - intros H. exfalso. clear -H. induction acts as [|b acts IH]; [done|]. by apply IH.
Qed.

(** Tasks 7 and 9 go to CPU 1, task 8 to CPU 2; 7 runs and is preempted. *)
Definition fifo_acts : list FifoAct := [
  ActMessage (fifo_msg 7 MSG_TASK_NEW 1 false false);
  ActMessage (fifo_msg 8 MSG_TASK_NEW 1 false false);
  ActMessage (fifo_msg 9 MSG_TASK_NEW 1 false false);
  ActSchedule 2].

Definition fifo_at (acts : list FifoAct) : Fifo :=
  default (mkFifo (mkAllocator ∅ ∅) (λ _, mkFifoCpu 0 false []) (mkIter 0 None) 0 []) (fifo_run acts).

Definition runs (acts : list FifoAct) : bool := match fifo_run acts with Some _ => true | None => false end.

Lemma fifo_at_reachable acts : runs acts = true → fifo_reachable fifo_env (fifo_at acts).
Proof. unfold runs, fifo_at. destruct (fifo_run acts) as [s|] eqn:E; [|done]. intros _. by eapply fifo_run_reachable. Qed.

Lemma fifo_acts_reachable : fifo_reachable fifo_env (fifo_at fifo_acts).
Proof. apply fifo_at_reachable. by vm_compute. Qed.

(** After a pass on each CPU, task 7 runs and 8 was refused; 7 is preempted;
    task 10 is created and waits. *)
Definition fifo_acts2 : list FifoAct := fifo_acts ++ [ActSchedule 1].
Definition fifo_acts3 : list FifoAct :=
  fifo_acts2 ++ [ActMessage (fifo_msg 7 MSG_TASK_PREEMPT 2 false false)].
Definition fifo_acts4 : list FifoAct :=
  fifo_acts3 ++ [ActMessage (mkMessage MSG_TASK_NEW 1 10 2 false false 0 false 0)].

Lemma fifo_acts2_reachable : fifo_reachable fifo_env (fifo_at fifo_acts2).
Proof. apply fifo_at_reachable. by vm_compute. Qed.

Lemma fifo_acts3_reachable : fifo_reachable fifo_env (fifo_at fifo_acts3).
Proof. apply fifo_at_reachable. by vm_compute. Qed.

Lemma fifo_acts4_reachable : fifo_reachable fifo_env (fifo_at fifo_acts4).
Proof. apply fifo_at_reachable. by vm_compute. Qed.

(** What an agent reads of the task at [p], and of its CPU. *)
Definition fifo_view (s : Fifo) (p : Z) : option (Z * Z * FifoTaskState * bool) :=
  (λ t, (gtid t, cpu t, run_state t, prio_boost t)) <$> heap (fifo_allocator s) !! p.

Lemma fifo_view_task s p v :
  fifo_view s p = Some v →
  ∃ t, heap (fifo_allocator s) !! p = Some t ∧ (gtid t, cpu t, run_state t, prio_boost t) = v.
Proof. unfold fifo_view. destruct (heap (fifo_allocator s) !! p) as [t|]; intros [= <-]. eauto. Qed.

(** ** Where the tasks are *)

(** C12. No task is lost or duplicated: in every reachable state a live task is
    in the run queue of a CPU exactly when it is queued and bound to that CPU,
    and is its current task exactly when it is on it; a task with no CPU is
    blocked; no queue holds a task twice or a task that is gone; and the
    allocator finds the task under its gtid. *)
Theorem fifo_no_task_lost (env : FifoEnv) (s : Fifo) (p : Z) (t : FifoTask) (c : Z)
    (Henv : fifo_env_ok env) (Hr : fifo_reachable env s) (Hp : heap (fifo_allocator s) !! p = Some t) :
  GetTask (gtid t) (fifo_allocator s) = Some p ∧
  (run_state t = kBlocked ∨ (run_state t ∈ [kQueued; kOnCpu] ∧ enclave_cpu env (cpu t))) ∧
  (p ∈ run_queue (fifo_cpus s c) ↔ run_state t = kQueued ∧ cpu t = c) ∧
  (current (fifo_cpus s c) = p ↔ run_state t = kOnCpu ∧ cpu t = c) ∧
  NoDup (run_queue (fifo_cpus s c)) ∧
  (∀ q, q ∈ run_queue (fifo_cpus s c) ∨ (q = current (fifo_cpus s c) ∧ q ≠ 0) → is_Some (heap (fifo_allocator s) !! q)).
Proof.
  pose proof (fifo_reachable_inv env Henv s Hr) as Hi. pose proof Hi as [[_ Ha] [Hin Hnd] Ht _ _].
  pose proof (inv_nonzero env s p t Hi Hp) as Hp0. destruct (Ht p t Hp) as [Hst Hb]. split_and!.
  - apply Ha. eauto.
  - destruct (run_state t) eqn:E; [by left|done|right|right]; (split; [rewrite !elem_of_cons; tauto|]);
      destruct Hb as [|[_ ?]]; congruence.
  - change (run_queue (fifo_cpus s c)) with (cpu_queues (fifo_cpus s) (PRq c)). rewrite Hin. unfold fifo_place. split.
    + intros (u & Hu & E). assert (u = t) as -> by congruence. by destruct (run_state t); try done; injection E.
    + intros [E <-]. exists t. by rewrite E.
  - trans (p ∈ cpu_queues (fifo_cpus s) (PCur c)); [simpl; rewrite elem_of_slot; naive_solver|].
    rewrite Hin. unfold fifo_place. split.
    + intros (u & Hu & E). assert (u = t) as -> by congruence. by destruct (run_state t); try done; injection E.
    + intros [E <-]. exists t. by rewrite E.
  - apply (Hnd (PRq c)).
  - intros q Hq. assert (∃ k, q ∈ cpu_queues (fifo_cpus s) k) as [k (u & Hu & _)%Hin]; [|by exists u].
    destruct Hq as [|[-> ?]]; [by exists (PRq c)|]. exists (PCur c). simpl. by apply elem_of_slot.
Qed.

Lemma fifo_no_task_lost_witness :
  fifo_view (fifo_at fifo_acts) 16 = Some (7, 1, kQueued, false) ∧
  16 ∈ run_queue (fifo_cpus (fifo_at fifo_acts) 1).
Proof.
  assert (fifo_view (fifo_at fifo_acts) 16 = Some (7, 1, kQueued, false)) as E by by vm_compute.
  split; [exact E|]. destruct (fifo_view_task _ _ _ E) as (t & Ht & Ev). injection Ev as _ Ec Es _.
  destruct (fifo_no_task_lost fifo_env (fifo_at fifo_acts) 16 t 1 fifo_list_ok fifo_acts_reachable Ht) as (_ & _ & H & _).
  exact (proj2 H (conj Es Ec)).
Defined.

(** ** Steps *)

(** A task that never had a CPU, at the end of a chain of switches. *)
Definition unbound_switchto (s : Fifo) (m : Message) : Prop :=
  ∃ p t, GetTask (msg_gtid m) (fifo_allocator s) = Some p ∧ heap (fifo_allocator s) !! p = Some t ∧
    run_state t = kBlocked ∧ cpu t = -1 ∧
    msg_type m ∈ [MSG_TASK_BLOCKED; MSG_TASK_YIELD; MSG_TASK_PREEMPT; MSG_TASK_DEPARTED] ∧
    msg_from_switchto m = true ∧ msg_gtid m ≠ 0.

(** C40. No assertion fails and no index is out of range in any reachable
    state, whatever the kernel answers to the commits and the associations:
    every message it may send is handled and every scheduling pass of every CPU
    completes, boosted or not.  There are exactly two exceptions.  A message
    that binds its task to a CPU, a new runnable task or the wakeup of one that
    has no CPU, fails the check of [Migrate] when the kernel refuses the
    association.  And the end of a chain of switches to a task that was never
    given a CPU always fails the check of [cpu_state_of]. *)
Theorem fifo_steps_complete (env : FifoEnv) (s : Fifo) (Henv : fifo_env_ok env) (Hr : fifo_reachable env s) :
  (∀ m, fifo_sendable env s m →
     if refused env s m then @DispatchMessage Fifo FifoTask _ _ (Fifo_ops env) m s = Crash CheckFailed
     else ∃ s', @DispatchMessage Fifo FifoTask _ _ (Fifo_ops env) m s = Ok (tt, s')) ∧
  (∀ c boosted, enclave_cpu env c → ∃ s', FifoSchedule env c boosted s = Ok (tt, s')) ∧
  (∀ m, unbound_switchto s m → @DispatchMessage Fifo FifoTask _ _ (Fifo_ops env) m s = Crash CheckFailed).
Proof.
  pose proof (fifo_reachable_inv env Henv s Hr) as Hi. split_and!.
  - intros m Hm. destruct (refused env s m) eqn:Hrf; [by apply (fifo_dispatch_refused env)|].
    destruct (wp_ok_unit _ _ _ (fifo_dispatch_inv env Henv s m Hi Hm Hrf)) as (s' & E & _). eauto.
  - intros c [] Hc; [destruct (wp_ok_unit _ _ _ (wp_FifoSchedule_boosted env Henv s c Hi Hc)) as (s' & E & _)
                    |destruct (wp_ok_unit _ _ _ (wp_FifoSchedule env Henv s c Hi Hc)) as (s' & E & _)]; eauto.
  - intros m (p & t & Hf & Hp & Hst & Hc & Hty & Hsw & Hg). by eapply (unbound_crash env s p t).
Qed.

Lemma fifo_steps_complete_witness :
  (∃ s', FifoSchedule fifo_env 1 false (fifo_at fifo_acts3) = Ok (tt, s')) ∧
  unbound_switchto (fifo_at fifo_acts4) (fifo_msg 10 MSG_TASK_BLOCKED 2 false true) ∧
  @DispatchMessage Fifo FifoTask _ _ (Fifo_ops fifo_env) (fifo_msg 10 MSG_TASK_BLOCKED 2 false true)
    (fifo_at fifo_acts4) = Crash CheckFailed ∧
  ∃ s, fifo_reachable refusing_env s ∧
    @DispatchMessage Fifo FifoTask _ _ (Fifo_ops refusing_env) (fifo_msg 7 MSG_TASK_NEW 1 false false) s = Crash CheckFailed.
Proof.
  destruct (fifo_steps_complete fifo_env (fifo_at fifo_acts3) fifo_list_ok fifo_acts3_reachable) as (_ & Hs & _).
  destruct (fifo_steps_complete fifo_env (fifo_at fifo_acts4) fifo_list_ok fifo_acts4_reachable) as (_ & _ & Hc).
  assert (unbound_switchto (fifo_at fifo_acts4) (fifo_msg 10 MSG_TASK_BLOCKED 2 false true)) as H.
  { assert (fifo_view (fifo_at fifo_acts4) 69904 = Some (10, -1, kBlocked, false)) as E by by vm_compute.
    assert (GetTask 10 (fifo_allocator (fifo_at fifo_acts4)) = Some 69904) as Eg by by vm_compute.
    destruct (fifo_view_task _ _ _ E) as (t & Ht & Ev). injection Ev as _ Ec Es _.
    exists 69904, t. refine (conj Eg (conj Ht (conj Es (conj Ec _)))). split; [by left|]. split; [reflexivity|discriminate]. }
  refine (conj (Hs 1 false _) (conj H (conj (Hc _ H) _))); [by vm_compute; left|].
  set (m := fifo_msg 7 MSG_TASK_NEW 1 false false).
  assert (match FifoScheduler_new refusing_env with
          | Ok s => refused refusing_env s m && bool_decide (GetTask 7 (fifo_allocator s) = None)
          | Crash _ => false
          end = true) as Er by (vm_compute; reflexivity).
  destruct (FifoScheduler_new refusing_env) as [s|] eqn:E0; [|discriminate Er]. apply andb_true_iff in Er as [Er Eg%bool_decide_eq_true].
  pose proof (fifo_reach_init refusing_env s E0) as Hr. exists s. split; [exact Hr|].
  destruct (fifo_steps_complete refusing_env s (fifo_sample_ok _) Hr) as (Hm & _).
  specialize (Hm m). rewrite Er in Hm. apply Hm. right. right. split; [split; vm_compute; discriminate|].
  split; [discriminate|]. simpl. rewrite Eg. intros _. exact I.
Defined.

(** C14. The messages about a known task are the transitions of an abstract
    machine of ordered queues: death and departure take the task out; a wakeup
    puts it on the queue of its CPU, or on that of some CPU of the enclave if
    it has none, at the front unless the wakeup is deferrable; preemption puts
    it at the front and a yield at the back; blocking and switching leave it in
    no queue.  The sequence number becomes the message's, the other tasks and
    their order in every queue stay as they were, and so does the current task
    of every other CPU.  So it is for every message but the wakeup of a task
    without a CPU the association of which the kernel refuses: that fails a
    check. *)
Theorem fifo_message_refines (env : FifoEnv) (s : Fifo) (p : Z) (t : FifoTask) (m : Message)
    (Henv : fifo_env_ok env) (Hr : fifo_reachable env s)
    (Hf : GetTask (msg_gtid m) (fifo_allocator s) = Some p) (Hp : heap (fifo_allocator s) !! p = Some t)
    (Hty : is_task_type (msg_type m)) (Hnew : msg_type m ≠ MSG_TASK_NEW) (Hg : msg_gtid m ≠ 0)
    (Hm : fifo_msg_ok env t m) :
  if refused env s m then @DispatchMessage Fifo FifoTask _ _ (Fifo_ops env) m s = Crash CheckFailed
  else ∃ s', @DispatchMessage Fifo FifoTask _ _ (Fifo_ops env) m s = Ok (tt, s') ∧ fifo_transition env s p t m s'.
Proof.
  pose proof (fifo_reachable_inv env Henv s Hr) as Hi. destruct (refused env s m) eqn:Hrf.
  - apply (fifo_dispatch_refused env Henv); [done| |done]. right. right. split_and!; [done|done|]. simpl. rewrite Hf.
    intros _ u Hu. by replace u with t by congruence.
  - rewrite (dispatch_granted env s m (fi_alloc _ _ Hi) Hrf).
    destruct (wp_ok_unit _ _ _ (dispatch_transition (granting env) (granting_ok env Henv) (λ _ _ _ _, eq_refl) s p t m
      (proj2 (granting_inv env s) Hi) Hp Hm Hg Hf Hty Hnew)) as (s' & E & Htr).
    exists s'. split; [done|by apply granting_transition].
Qed.

Lemma fifo_message_refines_witness :
  fifo_view (fifo_at fifo_acts2) 16 = Some (7, 1, kOnCpu, false) ∧
  ∃ t, fifo_msg_ok fifo_env t (fifo_msg 7 MSG_TASK_PREEMPT 2 false false) ∧
    ∃ s', @DispatchMessage Fifo FifoTask _ _ (Fifo_ops fifo_env) (fifo_msg 7 MSG_TASK_PREEMPT 2 false false)
            (fifo_at fifo_acts2) = Ok (tt, s') ∧
      fifo_transition fifo_env (fifo_at fifo_acts2) 16 t (fifo_msg 7 MSG_TASK_PREEMPT 2 false false) s'.
Proof.
  assert (is_task_type MSG_TASK_PREEMPT ∧ MSG_TASK_PREEMPT ≠ MSG_TASK_NEW ∧ 7 ≠ 0) as (Hty & Hnew & Hg) by by vm_compute.
  assert (fifo_view (fifo_at fifo_acts2) 16 = Some (7, 1, kOnCpu, false)) as E by by vm_compute.
  assert (GetTask 7 (fifo_allocator (fifo_at fifo_acts2)) = Some 16) as Eg by by vm_compute.
  assert (seqnum <$> heap (fifo_allocator (fifo_at fifo_acts2)) !! 16 = Some 1) as Eq by by vm_compute.
  split; [exact E|]. destruct (fifo_view_task _ _ _ E) as (t & Ht & Ev). injection Ev as _ Ec Es _.
  rewrite Ht in Eq. injection Eq as Eq.
  assert (fifo_msg_ok fifo_env t (fifo_msg 7 MSG_TASK_PREEMPT 2 false false)) as Hm.
  { unfold fifo_msg_ok, off_ok. cbn [fifo_msg msg_type msg_seqnum msg_from_switchto msg_cpu]. rewrite Eq.
    split; [reflexivity|]. split; [discriminate|]. split; [intros [H|H]; discriminate H|].
    split; [intros _; left; exact Es|]. split; intros H; discriminate H. }
  exists t. split; [exact Hm|].
  exact (fifo_message_refines fifo_env (fifo_at fifo_acts2) 16 t (fifo_msg 7 MSG_TASK_PREEMPT 2 false false)
           fifo_list_ok fifo_acts2_reachable Eg Ht Hty Hnew Hg Hm).
Defined.

(** A scheduling pass runs the current task of its CPU, or else the first
    task of the queue: if the kernel commits it, it leaves the queue and is
    current; if not, it is at the front of the queue with the boost, and the
    CPU has no current task.  With nothing to run, and in a boosted pass, no
    task moves.  No pass touches the tasks or the queue of another CPU. *)
Theorem fifo_schedule_choice (env : FifoEnv) (s : Fifo) (c : Z)
    (Henv : fifo_env_ok env) (Hr : fifo_reachable env s) (Hc : enclave_cpu env c) :
  (∃ s', FifoSchedule env c false s = Ok (tt, s') ∧ scheduled env s c s') ∧
  (∃ s', FifoSchedule env c true s = Ok (tt, s') ∧ same_places env s s').
Proof.
  pose proof (fifo_reachable_inv env Henv s Hr) as Hi. split.
  - by apply wp_ok_unit, wp_FifoSchedule.
  - by apply wp_ok_unit, wp_FifoSchedule_boosted.
Qed.

Lemma fifo_schedule_choice_witness :
  next_task (fifo_at fifo_acts3) 1 = 16 ∧
  ∃ s', FifoSchedule fifo_env 1 false (fifo_at fifo_acts3) = Ok (tt, s') ∧ scheduled fifo_env (fifo_at fifo_acts3) 1 s'.
Proof.
  split; [by vm_compute|].
  exact (proj1 (fifo_schedule_choice fifo_env (fifo_at fifo_acts3) 1 fifo_list_ok fifo_acts3_reachable
                  ltac:(by vm_compute; left))).
Defined.

(** ** The spread of new tasks *)

Section turns.
Context (env : FifoEnv).

(** [k] tasks are assigned. *)
Fixpoint assign_many (k : nat) : M Fifo (list Z) :=
  match k with
  | O => mret []
  | S k => AssignCpu env ≫= λ c, assign_many k ≫= λ l, mret (c :: l)
  end.
End turns.

(** [AssignCpu] deals the CPUs of the enclave in turn: from the iterator
    after [i] CPUs, the [j]-th of any number of further assignments is the CPU
    number [(i + j) mod n] of the [n] CPUs in ascending order, and nothing but
    the iterator changes. *)
Theorem assign_cpu_round_robin (env : FifoEnv) (i k : nat) (s : Fifo)
    (Henv : fifo_env_ok env) (Hi : (i ≤ length (elems (fifo_enclave env)))%nat)
    (Hn : next_ s = iter_at (fifo_enclave env) (drop i (elems (fifo_enclave env)))) :
  ∃ cs it, assign_many env k s = Ok (cs, set_next it s) ∧ length cs = k ∧
    ∀ j, (j < k)%nat → cs !! j = elems (fifo_enclave env) !! ((i + j) mod length (elems (fifo_enclave env)))%nat.
Proof.
  revert i s Hi Hn. pose proof (fe_nonempty _ Henv) as Hne. set (l := elems (fifo_enclave env)) in *.
  assert (0 < length l)%nat as Hlen by (destruct l; simpl; [done|lia]).
  induction k as [|k IH]; intros i s Hi Hn; simpl.
  { exists [], (next_ s). split_and!; [by destruct s|done|lia]. }
  destruct (assign_once env Henv i s Hi Hn) as (c & Hc & E). fold l in Hc, E. set (i' := (i mod length l)%nat) in *.
  assert (i' < length l)%nat as Hi' by (apply Nat.mod_upper_bound; lia).
  destruct (IH (S i') (set_next (iter_at (fifo_enclave env) (drop (S i') l)) s)) as (cs & it & Ecs & Hlcs & Hcs); [lia|done|].
  exists (c :: cs), it. unfold mbind, M_bind. rewrite E, Ecs. split_and!; [done|simpl; lia|]. intros [|j] Hj; simpl.
  - by rewrite Nat.add_0_r.
  - rewrite Hcs by lia. f_equal. subst i'. by rewrite Nat.add_succ_comm, Nat.Div0.add_mod_idemp_l.
Qed.

Lemma assign_cpu_round_robin_witness :
  next_ (fifo_at []) = iter_at fifo_list [] ∧
  ∃ cs it, assign_many fifo_env 5 (fifo_at []) = Ok (cs, set_next it (fifo_at [])) ∧ cs !! 3%nat = Some 2.
Proof.
  assert (next_ (fifo_at []) = iter_at fifo_list (drop 2 (elems fifo_list))) as E by by vm_compute.
  split; [exact E|].
  destruct (assign_cpu_round_robin fifo_env 2 5 (fifo_at []) fifo_list_ok ltac:(by vm_compute; lia) E)
    as (cs & it & Hcs & _ & H).
  exists cs, it. split; [exact Hcs|]. rewrite (H 3%nat) by lia. by vm_compute.
Defined.

