(* ===== verification/Deals.v ===== *)
(** * Deals: where a global agent moves to

    The search of [PickNextGlobalCPU], which the agents with one global CPU
    share (schedulers/fifo/centralized/fifo_scheduler.cc and
    schedulers/sol/sol_scheduler.cc have the same text): the hardware siblings
    of the global CPU, then those of its cache, then the CPUs of its NUMA node,
    then all.  [first_avail] is what the four loops with their [goto] compute.

    Dealing tasks to a set of CPUs.

    What the passes of the agents with one global CPU share: the lemmas on the
    sets of CPUs that a pass fills and empties, and the trace of the tasks it
    dequeues, each with the CPU it was given or none if it was passed over. *)

From S2P Require Import Prelude Outcome CpuMap CpuMapSpec Topology TopologySpec Dispatch Placement.
From stdpp Require Import gmap sorting.
From Stdlib Require Import ZArith Lia.

Local Open Scope Z_scope.

Section search.
Context {S : Type} (topo : Topology) (enclave : CpuList) (available : Z → M S bool).

(** One [for] loop: the first CPU other than [g] that passes [ok] and is
    available. *)
Fixpoint find_target (g : Z) (ok : Z → outcome bool) (cs : list Z) : M S (option Z) :=
  match cs with
  | [] => mret None
  | c :: cs =>
      if c =? g then find_target g ok cs
      else
        lift (ok c) ≫= λ b : bool,
        if negb b then find_target g ok cs
        else available c ≫= λ a : bool, if a then mret (Some c) else find_target g ok cs
  end.

Definition search (l : CpuList) (g : Z) (ok : Z → outcome bool) : M S (option Z) :=
  lift (iterate l) ≫= λ cs, find_target g ok cs.

(** [goto found] *)
Definition or_search (t : option Z) (m : M S (option Z)) : M S (option Z) :=
  match t with Some c => mret (Some c) | None => m end.

Definition same_node (numa_node c : Z) : outcome bool :=
  if 0 <=? numa_node then cpu_rep topo c ≫= λ r, Ok (rep_numa_node r =? numa_node) else Ok true.

(** The search from the global CPU [g]; a second round of the last loop is
    made if the node was restricted. *)
Definition pick_target (g : Z) : M S (option Z) :=
  lift (cpu_rep topo g) ≫= λ r,
  let numa_node := rep_numa_node r in
  search (rep_siblings r) g (λ _, Ok true) ≫= λ t,
  or_search t (search (rep_l3_siblings r) g (λ _, Ok true)) ≫= λ t,
  or_search t (search enclave g (same_node numa_node)) ≫= λ t,
  or_search t
    (if 0 <=? numa_node then search enclave g (same_node (-1)) else mret None).
End search.

(** ** The order of the search *)

(** The first CPU of the list that answers, with the questions asked before:
    a CPU without an agent is not asked. *)
Fixpoint first_avail (has_agent : Z → bool) (answer : nat → Z → bool) (n : nat) (cs : list Z) : option Z * nat :=
  match cs with
  | [] => (None, n)
  | c :: cs =>
      if has_agent c then if answer n c then (Some c, S n) else first_avail has_agent answer (S n) cs
      else first_avail has_agent answer n cs
  end.

Definition node_of (t : Topology) (c : Z) : Z := default 0 (rep_numa_node <$> cpus_ t !! Z.to_nat c).

Definition on_node (t : Topology) (numa_node c : Z) : bool := if 0 <=? numa_node then node_of t c =? numa_node else true.

Definition others_of (g : Z) (l : list Z) : list Z := filter (λ c, c ≠ g) l.

(** The CPUs in the order in which they are asked. *)
Definition pick_order (t : Topology) (enclave : CpuList) (g : Z) : list Z :=
  match cpus_ t !! Z.to_nat g with
  | Some r =>
      others_of g (elems (rep_siblings r) ++ elems (rep_l3_siblings r) ++
        filter (λ c, on_node t (rep_numa_node r) c = true) (elems enclave) ++
        (if 0 <=? rep_numa_node r then elems enclave else []))
  | None => []
  end.

Lemma first_avail_app h a n cs ds :
  first_avail h a n (cs ++ ds) =
  match first_avail h a n cs with (Some c, k) => (Some c, k) | (None, k) => first_avail h a k ds end.
Proof.
  revert n. induction cs as [|c cs IH]; intros n; [done|]. simpl. destruct (h c); [|apply IH].
  destruct (a n c); [done|apply IH].
Qed.

(** The answer is in the list, has an agent and said yes. *)
Lemma first_avail_some h a n cs c k :
  first_avail h a n cs = (Some c, k) → c ∈ cs ∧ h c = true ∧ (n < k)%nat ∧ a (k - 1)%nat c = true.
Proof.
  revert n. induction cs as [|d cs IH]; intros n; [done|]. simpl. destruct (h d) eqn:Hd.
  - destruct (a n d) eqn:Ha; [intros [= <- <-]; split_and!; [by left|done|lia|by replace (S n - 1)%nat with n by lia]|].
    intros (? & ? & ? & ?)%IH. split_and!; [by right|done|lia|done].
  - intros (? & ? & ? & ?)%IH. split_and!; [by right|done..].
Qed.

(** No answer: every CPU with an agent said no. *)
Lemma first_avail_none h a n cs k :
  first_avail h a n cs = (None, k) → ∀ c, c ∈ cs → h c = true → ∃ i, (n ≤ i < k)%nat ∧ a i c = false.
Proof.
  revert n. induction cs as [|d cs IH]; intros n; simpl; [intros _ c Hc; by apply elem_of_nil in Hc|].
  assert (∀ n k, first_avail h a n cs = (None, k) → (n ≤ k)%nat) as Hle.
  { clear. induction cs as [|d cs IH]; intros n k; simpl; [intros [= <-]; lia|].
    destruct (h d); [destruct (a n d); [done|intros H%IH; lia]|apply IH]. }
  intros H c Hc Hh. destruct (h d) eqn:Hd.
  - destruct (a n d) eqn:Ha; [done|]. pose proof (Hle _ _ H). apply elem_of_cons in Hc as [->|Hc]; [exists n; split; [lia|done]|].
    destruct (IH _ H c Hc Hh) as (i & Hi & E). exists i. split; [lia|done].
  - apply elem_of_cons in Hc as [->|Hc]; [congruence|]. by eapply IH.
Qed.

Section spec.
Context {S : Type} (topo : Topology) (enclave : CpuList) (available : Z → M S bool).
Context (has_agent : S → Z → bool) (answer : nat → Z → bool) (asked : S → nat) (tick : S → S).

(** One question to the kernel, about a CPU that has an agent. *)
Hypothesis available_spec : ∀ c s, 0 ≤ c < MAX_CPUS →
  available c s = Ok (if has_agent s c then (answer (asked s) c, tick s) else (false, s)).
Hypothesis asked_tick : ∀ s, asked (tick s) = Datatypes.S (asked s).
Hypothesis agent_tick : ∀ s c, has_agent (tick s) c = has_agent s c.

Lemma has_agent_iter s k c : has_agent (Nat.iter k tick s) c = has_agent s c.
Proof using agent_tick. induction k as [|k IH]; [done|]. simpl. by rewrite agent_tick. Qed.

Lemma asked_iter s k : asked (Nat.iter k tick s) = (k + asked s)%nat.
Proof using asked_tick. induction k as [|k IH]; [done|]. simpl. by rewrite asked_tick, IH. Qed.

(** What the search asked and answers, from [s]. *)
Definition found (s : S) (cs : list Z) (t : option Z) (s' : S) : Prop :=
  ∃ k, s' = Nat.iter k tick s ∧ first_avail (has_agent s) answer (asked s) cs = (t, (k + asked s)%nat).

Lemma found_cons s c cs t s' :
  found (if has_agent s c then tick s else s) cs t s' → (has_agent s c = true → answer (asked s) c = false) →
  found s (c :: cs) t s'.
Proof using asked_tick agent_tick.
  intros (k & -> & E) Ha. destruct (has_agent s c) eqn:Hh.
  - exists (Datatypes.S k). split; [by rewrite <- Nat.iter_succ_r|]. simpl. rewrite Hh, Ha by done.
    rewrite asked_tick in E. assert (∀ h h' n cs, (∀ c, h c = h' c) → first_avail h answer n cs = first_avail h' answer n cs) as Hext.
    { intros h h' n l Hhh. revert n. induction l as [|d l IH]; intros n; [done|]. simpl. rewrite Hhh. destruct (h' d); [|done].
      destruct (answer n d); [done|apply IH]. }
    rewrite (Hext _ (has_agent (tick s))) by done. rewrite E. f_equal. lia.
  - exists k. split; [done|]. simpl. by rewrite Hh.
Qed.

Lemma wp_find_target g ok okb cs s (Q : option Z → S → Prop) :
  (∀ c, c ∈ cs → 0 ≤ c < MAX_CPUS) → (∀ c, c ∈ cs → c ≠ g → ok c = Ok (okb c : bool)) →
  (∀ t s', found s (others_of g (filter (λ c, okb c = true) cs)) t s' → Q t s') →
  wp (find_target available g ok cs) s Q.
Proof using available_spec asked_tick agent_tick.
  revert s Q. induction cs as [|c cs IH]; intros s Q Hr Hok HQ; simpl.
  { apply HQ. by exists O. }
  assert (∀ d, d ∈ cs → d ∈ c :: cs) as Hsub by (intros; by right). destruct (Z.eqb_spec c g) as [->|Hne].
  - apply IH; auto. intros t s' Hf. apply HQ. rewrite filter_cons. destruct (decide (okb g = true)); [|done].
    unfold others_of. by rewrite filter_cons_False by naive_solver.
  - rewrite Hok by (done || by left). apply wp_lift_ok. destruct (okb c) eqn:Eb; simpl.
    + wpstep. unfold wp at 1. rewrite available_spec by (apply Hr; by left).
      rewrite filter_cons_True in HQ by done. unfold others_of in HQ. rewrite filter_cons_True in HQ by done.
      destruct (has_agent s c) eqn:Hh; [destruct (answer (asked s) c) eqn:Ea|].
      * apply HQ. exists 1%nat. simpl. by rewrite Hh, Ea.
      * apply IH; auto. intros t s' Hf. apply HQ. apply found_cons; by rewrite ?Hh.
      * apply IH; auto. intros t s' Hf. apply HQ. apply found_cons; by rewrite ?Hh.
    + apply IH; auto. intros t s' Hf. apply HQ. by rewrite filter_cons_False by congruence.
Qed.

Lemma found_app s cs ds t s1 t' s' :
  found s cs t s1 → match t with Some _ => t' = t ∧ s' = s1 | None => found s1 ds t' s' end → found s (cs ++ ds) t' s'.
Proof using asked_tick agent_tick.
  intros (k & -> & E) H. destruct t as [c|].
  - destruct H as [-> ->]. exists k. by rewrite first_avail_app, E.
  - destruct H as (k' & -> & E'). exists (k' + k)%nat. split; [by rewrite Nat.iter_add|].
    rewrite first_avail_app, E. rewrite asked_iter in E'. rewrite <- Nat.add_assoc. rewrite <- E'.
    clear -agent_tick. generalize (k + asked s)%nat. intros n. revert n. induction ds as [|d ds IH]; intros n; [done|]. simpl.
    rewrite has_agent_iter. destruct (has_agent s d); [|done]. destruct (answer n d); [done|apply IH].
Qed.

Lemma wp_search l g ok okb s (Q : option Z → S → Prop) :
  cpulist_wf l → (∀ c, c ∈ elems l → c ≠ g → ok c = Ok (okb c : bool)) →
  (∀ t s', found s (others_of g (filter (λ c, okb c = true) (elems l))) t s' → Q t s') →
  wp (search available l g ok) s Q.
Proof using available_spec asked_tick agent_tick.
  intros Hwf Hok HQ. unfold search. rewrite iterate_spec by done. apply wp_lift_ok. apply (wp_find_target g ok okb); [|done..].
  intros c Hc. pose proof (elems_lt _ _ Hwf Hc). pose proof (wf_cpus _ Hwf). unfold MAX_CPUS. lia.
Qed.

Lemma wp_or_search m s0 s cs ds t (Q : option Z → S → Prop) :
  found s0 cs t s → (t = None → ∀ R : option Z → S → Prop, (∀ t' s', found s ds t' s' → R t' s') → wp m s R) →
  (∀ t' s', found s0 (cs ++ ds) t' s' → Q t' s') → wp (or_search t m) s Q.
Proof using asked_tick agent_tick.
  intros Hf Hm HQ. destruct t as [c|]; simpl.
  - apply wp_ret. apply HQ. by eapply found_app.
  - apply Hm; [done|]. intros t' s' Hf'. apply HQ. by eapply found_app.
Qed.

Lemma others_of_app g a b : others_of g (a ++ b) = others_of g a ++ others_of g b.
Proof. apply filter_app. Qed.

Lemma filter_true {A} (f : A → bool) (l : list A) : (∀ x, x ∈ l → f x = true) → filter (λ x, f x = true) l = l.
Proof.
  induction l as [|x l IH]; intros H; [done|]. rewrite filter_cons_True by (apply H; by left).
  f_equal. apply IH. intros y Hy. apply H. by right.
Qed.

Context (Htopo : topo_ok topo) (Henc : cpulist_wf enclave) (Hnum : topology_num_cpus enclave = num_cpus_ topo).

Lemma same_node_ok n c : c ∈ elems enclave → same_node topo n c = Ok (on_node topo n c).
Proof using Htopo Henc Hnum.
  intros Hc. pose proof (elems_lt _ _ Henc Hc) as Hr. rewrite Hnum in Hr. unfold same_node, on_node, node_of.
  destruct (0 <=? n); [|done]. destruct (rep_exists topo Htopo c Hr) as (r & -> & ->). done.
Qed.

(** The four loops of the search are one pass over [pick_order]. *)
Lemma wp_pick_target g s (Q : option Z → S → Prop) :
  0 ≤ g < num_cpus_ topo → (∀ t s', found s (pick_order topo enclave g) t s' → Q t s') →
  wp (pick_target topo enclave available g) s Q.
Proof using All.
  intros Hg HQ. destruct (rep_exists topo Htopo g Hg) as (r & Er & E). unfold pick_target, pick_order in *. rewrite E.
  apply wp_lift_ok. rewrite Er in HQ. destruct (to_lists _ Htopo _ r rep_siblings Er) as [W1 _]; [by left|].
  destruct (to_lists _ Htopo _ r rep_l3_siblings Er) as [W2 _]; [by right; left|].
  rewrite !others_of_app in HQ. rewrite !app_assoc in HQ. cbv zeta.
  wpstep. apply (wp_search _ g _ (λ _, true)); [done|done|]. intros t1 s1 H1. rewrite filter_true in H1 by done.
  wpstep. eapply wp_or_search; [exact H1| |].
  { intros _ R HR. apply (wp_search _ g _ (λ _, true)); [done|done|]. intros t' s' H. rewrite filter_true in H by done. by apply HR. }
  intros t2 s2 H2. wpstep. eapply wp_or_search; [exact H2| |].
  { intros _ R HR. apply (wp_search _ g _ (on_node topo (rep_numa_node r))); [done|intros; by apply same_node_ok|exact HR]. }
  intros t3 s3 H3. eapply wp_or_search; [exact H3| |exact HQ].
  intros _ R HR. destruct (0 <=? rep_numa_node r).
  - apply (wp_search _ g _ (on_node topo (-1))); [done|intros; by apply same_node_ok|]. intros t' s' H.
    rewrite filter_true in H by done. by apply HR.
  - apply wp_ret. apply HR. by exists O.
Qed.
End spec.

(** ** Dealing tasks to a set of CPUs *)

(** ** Sets of CPUs *)

Lemma elems_sorted l : StronglySorted Z.lt (elems l).
Proof. apply elems_from_sorted. Qed.

Lemma elems_nodup l : NoDup (elems l).
Proof. apply sorted_lt_nodup, elems_sorted. Qed.

Lemma elems_set l c :
  cpulist_wf l → 0 ≤ c < topology_num_cpus l →
  ∃ l', CpuList_Set c l = Ok l' ∧ cpulist_wf l' ∧ topology_num_cpus l' = topology_num_cpus l ∧
    ∀ j, j ∈ elems l' ↔ j = c ∨ j ∈ elems l.
Proof.
  intros Hwf Hc. destruct (Set_spec l c Hwf Hc) as (l' & E & W & N & B). exists l'. split_and!; [done..|].
  intros j. rewrite !elem_of_elems by done. split.
  - intros [Hj Hb]. rewrite B in Hb by done. apply orb_true_iff in Hb as [Hb%Z.eqb_eq|Hb]; auto.
  - intros [->|[Hj Hb]]; (split; [lia|]); rewrite B by lia; [by rewrite Z.eqb_refl|by rewrite Hb, orb_true_r].
Qed.

Lemma others_sorted c l : StronglySorted Z.lt l → StronglySorted Z.lt (others c l).
Proof.
  induction 1 as [|x l Hl IH Hx]; [constructor|]. unfold others in *. rewrite filter_cons. destruct (decide (x ≠ c)); [|done].
  constructor; [done|]. apply Forall_forall. intros y [_ Hy]%list_elem_of_filter. rewrite Forall_forall in Hx. by apply Hx.
Qed.

Lemma elems_remove l c :
  cpulist_wf l → 0 ≤ c < 512 → ∃ l', CpuList_Clear c l = Ok l' ∧ cpulist_wf l' ∧ elems l' = others c (elems l).
Proof.
  intros Hwf Hc. destruct (Clear_spec l c Hwf Hc) as (l' & El & W & B). exists l'. split_and!; [done..|].
  apply sorted_lt_unique; [apply elems_sorted|apply others_sorted, elems_sorted|]. intros j.
  rewrite elem_of_others, !elem_of_elems by done. split.
  - intros [Hj Hb]. rewrite B in Hb by done. apply andb_true_iff in Hb as [Hn%negb_true_iff%Z.eqb_neq Hb]. naive_solver.
  - intros (Hne & Hj & Hb). split; [done|]. rewrite B, Hb by done. by rewrite (proj2 (Z.eqb_neq c j)).
Qed.

(** The first one is taken. *)
Lemma elems_clear l c r :
  cpulist_wf l → elems l = c :: r → ∃ l', CpuList_Clear c l = Ok l' ∧ cpulist_wf l' ∧ elems l' = r.
Proof.
  intros Hwf E. assert (c ∈ elems l) as Hc by (rewrite E; by left).
  pose proof (elems_lt _ _ Hwf Hc). pose proof (wf_cpus _ Hwf).
  destruct (elems_remove l c Hwf) as (l' & El & W & E'); [lia|]. exists l'. split_and!; [done..|].
  pose proof (elems_nodup l) as Hnd. rewrite E in *. apply NoDup_cons in Hnd as [Hnin _].
  rewrite E'. unfold others. rewrite filter_cons_False by naive_solver. by apply others_notin.
Qed.

(** ** Traces *)

Definition Deal : Type := Z * option Z.

(** The CPUs and the tasks they were given. *)
Definition picked (D : list Deal) : list (Z * Z) := omap (λ d : Deal, (λ c, (c, d.1)) <$> d.2) D.

(** The tasks that were passed over. *)
Definition skipped (D : list Deal) : list Z := omap (λ d : Deal, match d.2 with None => Some d.1 | Some _ => None end) D.

Lemma picked_app D E : picked (D ++ E) = picked D ++ picked E.
Proof. apply omap_app. Qed.

Lemma skipped_app D E : skipped (D ++ E) = skipped D ++ skipped E.
Proof. apply omap_app. Qed.

(** Which task a CPU was given. *)
Definition given (D : list Deal) (c : Z) : option Z := (list_to_map (picked D) : gmap Z Z) !! c.

Lemma given_in D c p : NoDup (picked D).*1 → given D c = Some p ↔ (c, p) ∈ picked D.
Proof. intros Hnd. unfold given. split; [by apply elem_of_list_to_map_2|by apply elem_of_list_to_map_1]. Qed.

Lemma given_none D c : given D c = None ↔ c ∉ (picked D).*1.
Proof. unfold given. symmetry. apply not_elem_of_list_to_map. Qed.
