(* ===== verification/Central.v ===== *)
(** * Central: the centralized FIFO agent (schedulers/fifo/centralized/fifo_scheduler.h, .cc)

    One global agent reads the messages of all CPUs, keeps one run queue and
    commits transactions for the other CPUs.  When a task of a higher class
    needs its CPU it moves to another one. *)

From S2P Require Import Prelude Outcome CpuMap.
From S2P Require Import Topology Dispatch Placement Deals.
From stdpp Require Import gmap.
From Stdlib Require Import ZArith Lia.

Local Open Scope Z_scope.

(** ** State *)

(** [FifoTask::RunState] *)
Inductive RunState := kBlocked | kQueued | kRunnable | kOnCpu | kYielding.

Global Instance RunState_eq_dec : EqDecision RunState.
Proof. solve_decision. Defined.

(** [FifoTask]; an uninitialised [cpu] is [None]. *)
Record CTask := mkCTask {
  gtid : Z;
  seqnum : Z;
  run_state : RunState;
  cpu : option Z;
  preempted : bool;
  prio_boost : bool
}.

Definition CTask_new (g : Z) : CTask := mkCTask g 0 kBlocked None false false.

Definition set_seqnum (n : Z) (t : CTask) : CTask :=
  mkCTask (gtid t) n (run_state t) (cpu t) (preempted t) (prio_boost t).
Definition set_run_state (r : RunState) (t : CTask) : CTask :=
  mkCTask (gtid t) (seqnum t) r (cpu t) (preempted t) (prio_boost t).
Definition set_cpu (c : Z) (t : CTask) : CTask :=
  mkCTask (gtid t) (seqnum t) (run_state t) (Some c) (preempted t) (prio_boost t).
Definition set_preempted (b : bool) (t : CTask) : CTask :=
  mkCTask (gtid t) (seqnum t) (run_state t) (cpu t) b (prio_boost t).
Definition set_prio_boost (b : bool) (t : CTask) : CTask :=
  mkCTask (gtid t) (seqnum t) (run_state t) (cpu t) (preempted t) b.

Global Instance CTask_type : TaskType CTask := {
  task_gtid := gtid;
  task_seqnum := seqnum;
  set_task_seqnum := set_seqnum;
  new_task := CTask_new
}.

Definition has_state (r : RunState) (t : CTask) : bool := bool_decide (run_state t = r).

(** [CpuState]: [current] is an address, 0 for null; [agent] is not null. *)
Record CCpu := mkCCpu {
  current : Z;
  agent : bool;
  last_commit : Z
}.

(** The transactions opened and committed, and the agents pinged. *)
Inductive CEvent :=
| CEvOpen (c g seqnum : Z)
| CEvCommit (assigned : list Z)
| CEvYield (c : Z)
| CEvPing (c : Z).

(** The scheduler; [asked] counts the kernel's answers.  [global_cpu_core_] is
    uninitialised at first and never read. *)
Record Central := mkCentral {
  c_allocator : TaskAllocator CTask;
  c_cpus : Z → CCpu;
  global_cpu_core_ : option Z;
  global_cpu_ : Z;
  num_tasks_ : Z;
  run_queue_ : list Z;
  yielding_tasks_ : list Z;
  iterations_ : Z;
  asked : nat;
  log : list CEvent
}.

Definition set_c_allocator (a : TaskAllocator CTask) (s : Central) : Central :=
  mkCentral a (c_cpus s) (global_cpu_core_ s) (global_cpu_ s) (num_tasks_ s) (run_queue_ s) (yielding_tasks_ s)
    (iterations_ s) (asked s) (log s).
Definition set_c_cpus (f : Z → CCpu) (s : Central) : Central :=
  mkCentral (c_allocator s) f (global_cpu_core_ s) (global_cpu_ s) (num_tasks_ s) (run_queue_ s) (yielding_tasks_ s)
    (iterations_ s) (asked s) (log s).
Definition set_global (core c : Z) (s : Central) : Central :=
  mkCentral (c_allocator s) (c_cpus s) (Some core) c (num_tasks_ s) (run_queue_ s) (yielding_tasks_ s)
    (iterations_ s) (asked s) (log s).
Definition set_num_tasks (n : Z) (s : Central) : Central :=
  mkCentral (c_allocator s) (c_cpus s) (global_cpu_core_ s) (global_cpu_ s) n (run_queue_ s) (yielding_tasks_ s)
    (iterations_ s) (asked s) (log s).
Definition set_run_queue (l : list Z) (s : Central) : Central :=
  mkCentral (c_allocator s) (c_cpus s) (global_cpu_core_ s) (global_cpu_ s) (num_tasks_ s) l (yielding_tasks_ s)
    (iterations_ s) (asked s) (log s).
Definition set_yielding (l : list Z) (s : Central) : Central :=
  mkCentral (c_allocator s) (c_cpus s) (global_cpu_core_ s) (global_cpu_ s) (num_tasks_ s) (run_queue_ s) l
    (iterations_ s) (asked s) (log s).
Definition tick (s : Central) : Central :=
  mkCentral (c_allocator s) (c_cpus s) (global_cpu_core_ s) (global_cpu_ s) (num_tasks_ s) (run_queue_ s)
    (yielding_tasks_ s) (iterations_ s) (S (asked s)) (log s).
Definition add_event (e : CEvent) (s : Central) : Central :=
  mkCentral (c_allocator s) (c_cpus s) (global_cpu_core_ s) (global_cpu_ s) (num_tasks_ s) (run_queue_ s)
    (yielding_tasks_ s) (iterations_ s) (asked s) (log s ++ [e]).

Global Instance Central_has_allocator : HasAllocator Central CTask := {
  allocator := c_allocator;
  set_allocator := set_c_allocator
}.

(** The configuration, and the kernel's answers by the number of questions
    before.  An infinite time slice is [None]. *)
Record CentralEnv := mkCentralEnv {
  c_topo : Topology;
  c_enclave : CpuList;
  c_malloc : TaskAllocator CTask → Z;
  c_slice : option Z;                      (* preemption_time_slice_ *)
  c_get_agent : Z → bool;                  (* GetAgent(cpu) is not null *)
  c_avail : nat → Z → bool;                (* agent->cpu_avail() *)
  c_now : nat → Z;                         (* MonotonicNow() *)
  c_on_cpu : nat → Z → bool;               (* status_word.on_cpu(), by gtid *)
  c_barrier : nat → Z → Z;                 (* status_word.barrier(), by gtid *)
  c_commit : nat → Z → Z → bool            (* req->succeeded(): cpu, gtid *)
}.

Definition set_current (p : Z) (k : CCpu) : CCpu := mkCCpu p (agent k) (last_commit k).
Definition set_agent (b : bool) (k : CCpu) : CCpu := mkCCpu (current k) b (last_commit k).
Definition set_last_commit (n : Z) (k : CCpu) : CCpu := mkCCpu (current k) (agent k) n.

(** [cpu_states_[c]] *)
Definition c_cpu (c : Z) : M Central CCpu :=
  if (0 <=? c) && (c <? MAX_CPUS) then gets (λ s, c_cpus s c) else abort OutOfBounds.

Definition upd_cpu (c : Z) (f : CCpu → CCpu) : M Central unit :=
  c_cpu c ≫= λ k, modify (λ s, set_c_cpus (<[c := f k]> (c_cpus s)) s).

(** A question to the kernel. *)
Definition ask {A} (f : nat → A) : M Central A := gets asked ≫= λ n, modify tick ≫= λ _, mret (f n).

(** ** The run queue *)

(** [Enqueue] *)
Definition C_Enqueue (p : Z) : M Central unit :=
  task_at p ≫= λ t,
  check (has_state kRunnable t) ≫= λ _,
  upd_task p (set_run_state kQueued) ≫= λ _,
  modify (λ s, set_run_queue (if prio_boost t || preempted t then p :: run_queue_ s else run_queue_ s ++ [p]) s).

(** [Dequeue] *)
Definition C_Dequeue : M Central Z :=
  gets run_queue_ ≫= λ l,
  match l with
  | [] => mret 0
  | p :: l =>
      task_at p ≫= λ t,
      check (has_state kQueued t) ≫= λ _,
      upd_task p (set_run_state kRunnable) ≫= λ _,
      modify (set_run_queue l) ≫= λ _,
      mret p
  end.

(** [RemoveFromRunqueue] *)
Definition RemoveFromRunqueue (p : Z) : M Central unit :=
  task_at p ≫= λ t,
  check (has_state kQueued t) ≫= λ _,
  gets run_queue_ ≫= λ l,
  match rfind p l (length l) with
  | Some pos =>
      upd_task p (set_run_state kRunnable) ≫= λ _,
      modify (set_run_queue (delete pos l))
  | None => abort CheckFailed
  end.

(** [Yield] *)
Definition C_Yield (p : Z) : M Central unit :=
  task_at p ≫= λ t,
  check (has_state kOnCpu t || has_state kRunnable t) ≫= λ _,
  upd_task p (set_run_state kYielding) ≫= λ _,
  modify (λ s, set_yielding (yielding_tasks_ s ++ [p]) s).

(** [Unyield] *)
Definition C_Unyield (p : Z) : M Central unit :=
  task_at p ≫= λ t,
  check (has_state kYielding t) ≫= λ _,
  gets yielding_tasks_ ≫= λ l,
  match find_first p l with
  | Some it =>
      modify (set_yielding (delete it l)) ≫= λ _,
      upd_task p (set_run_state kRunnable) ≫= λ _,
      C_Enqueue p
  | None => abort CheckFailed
  end.

(** ** Message handlers *)

(** [cpu_state_of]: the CPU whose state is meant. *)
Definition c_cpu_of (p : Z) : M Central Z :=
  task_at p ≫= λ t,
  match cpu t with
  | None => abort CheckFailed
  | Some c =>
      check (has_state kOnCpu t) ≫= λ _,
      c_cpu c ≫= λ k, check (current k =? p) ≫= λ _, mret c
  end.

(** [cs = cpu_state_of(task); CHECK_EQ(cs->current, task); cs->current = nullptr;] *)
Definition clear_current (p : Z) : M Central unit :=
  c_cpu_of p ≫= λ c,
  c_cpu c ≫= λ k, check (current k =? p) ≫= λ _, upd_cpu c (set_current 0).

Definition C_TaskNew (p : Z) (m : Message) : M Central unit :=
  upd_task p (λ t, set_run_state kBlocked (set_seqnum (msg_seqnum m) t)) ≫= λ _,
  whenM (msg_runnable m) (upd_task p (set_run_state kRunnable) ≫= λ _, C_Enqueue p) ≫= λ _,
  modify (λ s, set_num_tasks (s32 (num_tasks_ s + 1)) s).

Definition C_TaskRunnable (p : Z) (m : Message) : M Central unit :=
  task_at p ≫= λ t,
  check (has_state kBlocked t) ≫= λ _,
  upd_task p (λ t, set_prio_boost (negb (msg_deferrable m)) (set_run_state kRunnable t)) ≫= λ _,
  C_Enqueue p.

(** [allocator()->FreeTask(task); num_tasks_--;] *)
Definition c_free (p : Z) : M Central unit :=
  free_task p ≫= λ _, modify (λ s, set_num_tasks (s32 (num_tasks_ s - 1)) s).

Definition C_TaskDeparted (p : Z) (m : Message) : M Central unit :=
  task_at p ≫= λ t,
  whenM (has_state kYielding t) (C_Unyield p) ≫= λ _,
  task_at p ≫= λ t,
  (if has_state kOnCpu t then clear_current p
   else if has_state kQueued t then RemoveFromRunqueue p
   else check (has_state kBlocked t)) ≫= λ _,
  c_free p.

Definition C_TaskDead (p : Z) (m : Message) : M Central unit :=
  task_at p ≫= λ t, check (has_state kBlocked t) ≫= λ _, c_free p.

Definition C_TaskBlocked (p : Z) (m : Message) : M Central unit :=
  task_at p ≫= λ t,
  (if has_state kOnCpu t then clear_current p
   else check (has_state kQueued t) ≫= λ _, RemoveFromRunqueue p) ≫= λ _,
  upd_task p (set_run_state kBlocked).

Definition C_TaskPreempted (p : Z) (m : Message) : M Central unit :=
  upd_task p (set_preempted true) ≫= λ _,
  task_at p ≫= λ t,
  if has_state kOnCpu t then
    clear_current p ≫= λ _, upd_task p (set_run_state kRunnable) ≫= λ _, C_Enqueue p
  else check (has_state kQueued t).

Definition C_TaskYield (p : Z) (m : Message) : M Central unit :=
  task_at p ≫= λ t,
  if has_state kOnCpu t then clear_current p ≫= λ _, C_Yield p else check (has_state kQueued t).

(** [TaskOnCpu] *)
Definition C_TaskOnCpu (p c : Z) : M Central unit :=
  c_cpu c ≫= λ k, check (p =? current k) ≫= λ _,
  upd_task p (λ t, set_prio_boost false (set_preempted false (set_cpu c (set_run_state kOnCpu t)))).

Definition c_nop : M Central unit := mret tt.

(** ** The scheduling pass *)

Section central.
Variable env : CentralEnv.

(** [Available] *)
Definition Available (c : Z) : M Central bool :=
  c_cpu c ≫= λ k, if agent k then ask (λ n, c_avail env n c) else mret false.

(** [(MonotonicNow() - cs->last_commit) < preemption_time_slice_] *)
Definition within_slice (now last : Z) : bool :=
  match c_slice env with Some d => now - last <? d | None => true end.

(** The loop over [cpus()]. *)
Fixpoint available_loop (global : Z) (cs : list Z) (available : CpuList) : M Central CpuList :=
  match cs with
  | [] => mret available
  | c :: cs =>
      c_cpu c ≫= λ k,
      if c =? global then check (current k =? 0) ≫= λ _, available_loop global cs available
      else
        Available c ≫= λ a : bool,
        if negb a then available_loop global cs available
        else
          (if current k =? 0 then mret false
           else ask (λ n, within_slice (c_now env n) (last_commit k))) ≫= λ busy : bool,
          if busy then available_loop global cs available
          else lift (CpuList_Set c available) ≫= λ available, available_loop global cs available
  end.

(** The loop that deals the tasks; [fuel] bounds its iterations. *)
Fixpoint deal_loop (fuel : nat) (available assigned : CpuList) : M Central CpuList :=
  match fuel with
  | O => abort OutOfFuel
  | S fuel =>
      lift (CpuMap_Empty available) ≫= λ empty : bool,
      if empty then mret assigned
      else
        C_Dequeue ≫= λ next,
        if next =? 0 then mret assigned
        else
          task_at next ≫= λ t,
          ask (λ n, c_on_cpu env n (gtid t)) ≫= λ on_cpu : bool,
          (if on_cpu then mret true else ask (λ n, negb (seqnum t =? c_barrier env n (gtid t)))) ≫= λ skip : bool,
          if skip then C_Yield next ≫= λ _, deal_loop fuel available assigned
          else
            lift (Front available) ≫= λ front,
            match front with
            | None => abort UseAfterFree
            | Some c =>
                c_cpu c ≫= λ k,
                whenM (negb (current k =? 0))
                  (upd_task (current k) (set_run_state kRunnable) ≫= λ _, C_Enqueue (current k)) ≫= λ _,
                upd_cpu c (set_current next) ≫= λ _,
                lift (CpuList_Clear c available) ≫= λ available,
                lift (CpuList_Set c assigned) ≫= λ assigned,
                modify (add_event (CEvOpen c (gtid t) (seqnum t))) ≫= λ _,
                deal_loop fuel available assigned
            end
  end.

(** A CPU whose transaction has been committed. *)
Definition commit_one (c : Z) : M Central unit :=
  c_cpu c ≫= λ k,
  task_at (current k) ≫= λ t,
  ask (λ n, c_commit env n c (gtid t)) ≫= λ ok : bool,
  if ok then C_TaskOnCpu (current k) c
  else
    upd_task (current k) (set_prio_boost true) ≫= λ _,
    C_Enqueue (current k) ≫= λ _,
    upd_cpu c (set_current 0).

Definition unyield_one (p : Z) : M Central unit :=
  task_at p ≫= λ t,
  check (has_state kYielding t) ≫= λ _,
  upd_task p (set_run_state kRunnable) ≫= λ _, C_Enqueue p.

(** The number of CPUs and of queued tasks bounds the rounds of the deal. *)
Definition deal_fuel (cs : list Z) (queue : list Z) : nat := S (length cs + length queue).

(** [GlobalSchedule] *)
Definition GlobalSchedule : M Central unit :=
  gets global_cpu_ ≫= λ global,
  lift (EmptyCpuList (num_cpus_ (c_topo env))) ≫= λ available,
  lift (EmptyCpuList (num_cpus_ (c_topo env))) ≫= λ assigned,
  lift (iterate (c_enclave env)) ≫= λ cs,
  available_loop global cs available ≫= λ available,
  gets run_queue_ ≫= λ queue,
  deal_loop (deal_fuel cs queue) available assigned ≫= λ assigned,
  lift (iterate assigned) ≫= λ as_,
  lift (CpuMap_Empty assigned) ≫= λ empty : bool,
  whenM (negb empty)
    (modify (add_event (CEvCommit as_)) ≫= λ _,
     ask (c_now env) ≫= λ now,
     forM as_ (λ c, upd_cpu c (set_last_commit now))) ≫= λ _,
  forM as_ commit_one ≫= λ _,
  gets yielding_tasks_ ≫= λ yielding,
  match yielding with
  | [] => mret tt
  | _ => forM yielding unyield_one ≫= λ _, modify (set_yielding [])
  end.

(** ** The global CPU *)

(** [enclave()->GetAgent(cpu)->Ping()] *)
Definition c_ping (c : Z) : M Central unit :=
  if c_get_agent env c then modify (add_event (CEvPing c)) else abort UseAfterFree.

(** [SetGlobalCPU] *)
Definition SetGlobalCPU (c : Z) : M Central unit :=
  lift (cpu_rep (c_topo env) c) ≫= λ r, modify (set_global (rep_core r) c).

(** [PickNextGlobalCPU] *)
Definition PickNextGlobalCPU (this_cpu : Z) : M Central bool :=
  gets global_cpu_ ≫= λ g,
  lift (cpu_rep (c_topo env) g) ≫= λ _,
  gets iterations_ ≫= λ n,
  if negb (Z.land n 255 =? 0) then mret false
  else
    pick_target (c_topo env) (c_enclave env) Available g ≫= λ target,
    match target with
    | None => mret false
    | Some c =>
        check (negb (c =? this_cpu)) ≫= λ _,
        c_cpu c ≫= λ k,
        whenM (negb (current k =? 0)) (task_at (current k) ≫= λ prev, check (has_state kOnCpu prev)) ≫= λ _,
        SetGlobalCPU c ≫= λ _,
        c_ping c ≫= λ _,
        mret true
    end.

(** ** The agent *)

Global Instance Central_ops : SchedOps Central CTask := {
  malloc := λ s, c_malloc env (c_allocator s);
  TaskNew := C_TaskNew;
  TaskRunnable := C_TaskRunnable;
  TaskDead := C_TaskDead;
  TaskDeparted := C_TaskDeparted;
  TaskYield := C_TaskYield;
  TaskBlocked := C_TaskBlocked;
  TaskPreempted := C_TaskPreempted;
  TaskSwitchto := λ _ _, c_nop;
  TaskAffinityChanged := λ _ _, c_nop;
  TaskPriorityChanged := λ _ _, c_nop;
  TaskOnCpu := λ _ _, c_nop;
  CpuTick := λ _, c_nop;
  CpuNotIdle := λ _, abort CheckFailed;
  CpuTimerExpired := λ _, abort CheckFailed;
  CpuAvailable := λ _, c_nop;
  CpuBusy := λ _, c_nop;
  AgentBlocked := λ _, c_nop;
  AgentWakeup := λ _, c_nop
}.

(** One turn of the loop of [AgentThread] on the agent of [c]: [msgs] are the
    messages it finds in the channel. *)
Definition C_AgentThread (c : Z) (boosted_priority : bool) (msgs : list Message) : M Central unit :=
  gets global_cpu_ ≫= λ g,
  if negb (c =? g) then modify (add_event (CEvYield c))
  else
    (if boosted_priority then PickNextGlobalCPU c else mret false) ≫= λ moved : bool,
    if moved then mret tt
    else forM msgs (@DispatchMessage Central CTask _ _ Central_ops) ≫= λ _, GlobalSchedule.

(** The constructor, then [EnclaveReady].  [int32_t global_cpu] becomes the
    [uint32_t] argument of [IsSet]. *)
Definition Central_new (global_cpu : Z) : outcome Central :=
  CpuList_IsSet (u32 global_cpu) (c_enclave env) ≫= λ set,
  (if (set : bool) then Ok global_cpu
   else Front (c_enclave env) ≫= λ c, match c with Some c => Ok c | None => Crash CheckFailed end) ≫= λ g,
  Ok (mkCentral (mkAllocator ∅ ∅) (λ _, mkCCpu 0 false 0) None g 0 [] [] 0 0 []).

Definition C_EnclaveReady : M Central unit :=
  lift (iterate (c_enclave env)) ≫= λ cs,
  forM cs (λ c, upd_cpu c (set_agent (c_get_agent env c)) ≫= λ _, check (c_get_agent env c)).

(** [Empty] *)
Definition C_Empty (s : Central) : bool := num_tasks_ s =? 0.
End central.
