(* ===== verification/CentralInv.v ===== *)
(** * CentralInv: the invariant of the centralized FIFO agent

    Every task is in the queue its state names.  During a scheduling pass some
    tasks are assigned to a CPU whose transaction is still open: they are in the
    slot of that CPU but not yet [kOnCpu].  [central_mid A] is the invariant for
    a set [A] of such tasks; [lifted] describes the moment when one task is in
    no queue at all. *)

From S2P Require Import Prelude Outcome CpuMap CpuMapSpec.
From S2P Require Import Topology TopologySpec Dispatch Placement Deals Central.
From stdpp Require Import gmap functions sorting.
From Stdlib Require Import ZArith Lia.

Local Open Scope Z_scope.

(** ** Places *)

Inductive CPlace := CRun | CYield | CCur (c : Z).

Global Instance CPlace_eq_dec : EqDecision CPlace.
Proof. solve_decision. Defined.

Definition central_place (t : CTask) : option CPlace :=
  match run_state t with
  | kQueued => Some CRun
  | kYielding => Some CYield
  | kOnCpu => CCur <$> cpu t
  | _ => None
  end.

Definition c_queues (s : Central) (k : CPlace) : list Z :=
  match k with
  | CRun => run_queue_ s
  | CYield => yielding_tasks_ s
  | CCur c => slot_list (current (c_cpus s c))
  end.

(** A task with an open transaction counts as running. *)
Definition adj1 (A : gmap Z Z) (p : Z) (t : CTask) : CTask :=
  match A !! p with Some c => set_run_state kOnCpu (set_cpu c t) | None => t end.

Definition adj (A : gmap Z Z) (h : gmap Z CTask) : gmap Z CTask := map_imap (λ p t, Some (adj1 A p t)) h.

Lemma lookup_adj A h p : adj A h !! p = adj1 A p <$> h !! p.
Proof. unfold adj. rewrite map_lookup_imap. by destruct (h !! p). Qed.

Lemma adj_insert A A' h p t :
  (∀ q, q ≠ p → A' !! q = A !! q) → adj A' (<[p := t]> h) = <[p := adj1 A' p t]> (adj A h).
Proof.
  intros HA. apply map_eq. intros q. rewrite lookup_adj. destruct (decide (p = q)) as [<-|Hne].
  - by rewrite !lookup_insert_eq.
  - rewrite !lookup_insert_ne, lookup_adj by done. unfold adj1. by rewrite HA.
Qed.

Lemma adj_delete A h p : adj A (delete p h) = delete p (adj A h).
Proof.
  apply map_eq. intros q. rewrite lookup_adj. destruct (decide (p = q)) as [<-|Hne].
  - by rewrite !lookup_delete_eq.
  - by rewrite !lookup_delete_ne, lookup_adj by done.
Qed.

Lemma adj_empty h : adj ∅ h = h.
Proof. apply map_eq. intros q. rewrite lookup_adj. unfold adj1. rewrite lookup_empty. by destruct (h !! q). Qed.

(** ** The environment and the invariant *)

Record central_env_ok (env : CentralEnv) : Prop := {
  ce_topo : topo_ok (c_topo env);
  ce_wf : cpulist_wf (c_enclave env);
  ce_num : topology_num_cpus (c_enclave env) = num_cpus_ (c_topo env);
  ce_nonempty : elems (c_enclave env) ≠ [];
  ce_malloc : ∀ a : TaskAllocator CTask, heap a !! 0 = None →
    c_malloc env a ≠ 0 ∧ heap a !! c_malloc env a = None;
  ce_agent : ∀ c, c ∈ elems (c_enclave env) → c_get_agent env c = true
}.

Definition put_task (p : Z) (t : CTask) (s : Central) : Central :=
  set_c_allocator (put_obj p t (c_allocator s)) s.

Section inv.
Context (env : CentralEnv).

Definition enclave_cpu (c : Z) : Prop := c ∈ elems (c_enclave env).

Lemma c_enclave_range c : central_env_ok env → enclave_cpu c → 0 ≤ c < num_cpus_ (c_topo env) ∧ c < MAX_CPUS.
Proof.
  intros Henv Hc. pose proof (elems_lt _ _ (ce_wf _ Henv) Hc) as H. pose proof (wf_cpus _ (ce_wf _ Henv)).
  rewrite <- (ce_num _ Henv). unfold MAX_CPUS. lia.
Qed.

Definition running_ok (t : CTask) : Prop :=
  run_state t = kOnCpu → (∃ c, cpu t = Some c ∧ enclave_cpu c) ∧ prio_boost t = false ∧ preempted t = false.

Record central_mid (A : gmap Z Z) (s : Central) : Prop := {
  cm_alloc : alloc_inv (c_allocator s);
  cm_rest : at_rest central_place (adj A (heap (c_allocator s))) (c_queues s);
  cm_task : ∀ p t, heap (c_allocator s) !! p = Some t →
    running_ok t ∧ (run_state t = kRunnable ↔ is_Some (A !! p));
  cm_assigned : ∀ p c, A !! p = Some c → enclave_cpu c ∧ is_Some (heap (c_allocator s) !! p);
  cm_agent : ∀ c, agent (c_cpus s c) = true ↔ enclave_cpu c;
  cm_global : enclave_cpu (global_cpu_ s);
  cm_iter : iterations_ s = 0
}.

(** [num_tasks_] is the number of live tasks, in an [int]. *)
Definition counted (s : Central) : Prop :=
  num_tasks_ s = s32 (Z.of_nat (size (heap (c_allocator s)))).

Definition central_inv (s : Central) : Prop := central_mid ∅ s ∧ counted s.

(** What no operation on tasks changes. *)
Definition same_agents (s s' : Central) : Prop :=
  (∀ c, agent (c_cpus s' c) = agent (c_cpus s c)) ∧ global_cpu_ s' = global_cpu_ s ∧ iterations_ s' = iterations_ s.

Lemma mid_nonzero A s p t : central_mid A s → heap (c_allocator s) !! p = Some t → p ≠ 0.
Proof. intros Hi Hp ->. pose proof (cm_alloc _ _ Hi) as [H _]. congruence. Qed.

Lemma not_assigned A s p t :
  central_mid A s → heap (c_allocator s) !! p = Some t → run_state t ≠ kRunnable → A !! p = None.
Proof.
  intros Hi Hp Hne. destruct (cm_task _ _ Hi p t Hp) as [_ HA]. destruct (A !! p) as [c|]; [|done]. exfalso.
  apply Hne, HA. eauto.
Qed.

(** One task moves. *)
Lemma mid_requeue A A' s p t t' front s' :
  central_mid A s → heap (c_allocator s) !! p = Some t → gtid t' = gtid t →
  (∀ q, q ≠ p → A' !! q = A !! q) → (run_state t' = kRunnable ↔ is_Some (A' !! p)) → running_ok t' →
  (∀ c, A' !! p = Some c → enclave_cpu c) →
  c_allocator s' = put_obj p t' (c_allocator s) →
  (∀ k, c_queues s' k = requeue central_place p (adj1 A' p t') front (c_queues s) k) →
  same_agents s s' → central_mid A' s'.
Proof.
  intros [Ha Hr Ht HA Hag Hg Hit] Hp Hgt HAne Hrun Hok HAp Ealloc Hq (H1 & H2 & H3). split; rewrite ?Ealloc; simpl.
  - by eapply alloc_inv_upd.
  - eapply rest_ext; [|exact Hq]. rewrite (adj_insert A) by done. by apply rest_requeue.
  - intros q u. rewrite lookup_insert_Some. intros [[<- <-]|[Hne Hu]]; [done|]. rewrite HAne by done. by apply Ht.
  - intros q c Hqc. destruct (decide (p = q)) as [<-|Hne]; [split; [by apply HAp|rewrite lookup_insert_eq; eauto]|].
    rewrite HAne in Hqc by done. rewrite lookup_insert_ne by done. by apply HA.
  - intros c. rewrite H1. apply Hag.
  - by rewrite H2.
  - by rewrite H3.
Qed.

(** Fields that no place depends on. *)
Lemma mid_fields A s p t t' :
  central_mid A s → heap (c_allocator s) !! p = Some t → gtid t' = gtid t → run_state t' = run_state t → cpu t' = cpu t →
  running_ok t' → central_mid A (put_task p t' s).
Proof.
  intros [Ha Hr Ht HA Hag Hg Hit] Hp Hgt Hst Hcpu Hok. split; simpl; try done.
  - by eapply alloc_inv_upd.
  - rewrite (adj_insert A) by done. eapply rest_same; [done|by rewrite lookup_adj, Hp|].
    unfold adj1, central_place. destruct (A !! p); simpl; [done|]. by rewrite Hst, Hcpu.
  - intros q u. rewrite lookup_insert_Some. intros [[<- <-]|[Hne Hu]]; [|by apply Ht]. split; [done|].
    rewrite Hst. by apply (Ht p t).
  - intros q c Hqc. destruct (HA q c Hqc) as [Hc Hq]. split; [done|]. destruct (decide (p = q)) as [<-|Hne].
    + rewrite lookup_insert_eq. eauto.
    + by rewrite lookup_insert_ne.
Qed.

(** A queue that does not hold the task. *)
Lemma mid_others A s p t k :
  central_mid A s → heap (c_allocator s) !! p = Some t → central_place (adj1 A p t) ≠ Some k →
  others p (c_queues s k) = c_queues s k.
Proof.
  intros Hi Hp Hk. apply (rest_others central_place (adj A (heap (c_allocator s))) _ _ (adj1 A p t)); [apply (cm_rest _ _ Hi)| |done].
  by rewrite lookup_adj, Hp.
Qed.

(** A task is in the queue its state names. *)
Lemma mid_in A s p t k :
  central_mid A s → heap (c_allocator s) !! p = Some t → central_place (adj1 A p t) = Some k → p ∈ c_queues s k.
Proof.
  intros Hi Hp Hk. eapply rest_in; [apply (cm_rest _ _ Hi)| |exact Hk]. by rewrite lookup_adj, Hp.
Qed.

Lemma mid_live A s p k :
  central_mid A s → p ∈ c_queues s k → ∃ t, heap (c_allocator s) !! p = Some t ∧ central_place (adj1 A p t) = Some k.
Proof.
  intros Hi Hin. destruct (rest_live _ _ _ _ _ (cm_rest _ _ Hi) Hin) as (u & Hu & E). rewrite lookup_adj in Hu.
  destruct (heap (c_allocator s) !! p) as [t|]; [|done]. injection Hu as <-. eauto.
Qed.

(** ** One task in no queue *)

Record lifted (A : gmap Z Z) (s0 : Central) (p : Z) (t : CTask) (s : Central) : Prop := {
  li_inv : central_mid A (put_task p (set_run_state kBlocked t) s);
  li_at : heap (c_allocator s) !! p = Some t;
  li_out : A !! p = None;
  li_heap : ∀ q, q ≠ p → heap (c_allocator s) !! q = heap (c_allocator s0) !! q;
  li_map : task_map_ (c_allocator s) = task_map_ (c_allocator s0);
  li_run : run_queue_ s = others p (run_queue_ s0);
  li_yield : yielding_tasks_ s = others p (yielding_tasks_ s0);
  li_cpus : ∀ c, c_cpus s c = set_current (without p (current (c_cpus s0 c))) (c_cpus s0 c);
  li_num : num_tasks_ s = num_tasks_ s0;
  li_glob : global_cpu_ s = global_cpu_ s0
}.

Lemma c_put_put p t t' s : put_task p t' (put_task p t s) = put_task p t' s.
Proof. unfold put_task, put_obj. destruct s. simpl. by rewrite insert_insert_eq. Qed.

Lemma put_same p t s : heap (c_allocator s) !! p = Some t → put_task p t s = s.
Proof. intros Hp. unfold put_task, put_obj. destruct s as [[] ? ? ? ? ? ? ? ? ?]. simpl in *. by rewrite insert_id. Qed.

(** Taking a task out of wherever it is. *)
Lemma c_lift_from A s p t t' s' :
  central_mid A s → heap (c_allocator s) !! p = Some t → A !! p = None → gtid t' = gtid t →
  c_allocator s' = put_obj p t' (c_allocator s) →
  run_queue_ s' = others p (run_queue_ s) → yielding_tasks_ s' = others p (yielding_tasks_ s) →
  (∀ c, c_cpus s' c = set_current (without p (current (c_cpus s c))) (c_cpus s c)) →
  num_tasks_ s' = num_tasks_ s → global_cpu_ s' = global_cpu_ s → iterations_ s' = iterations_ s →
  lifted A s p t' s'.
Proof.
  intros Hi Hp HA Hg Ea Hrun Hy Hc Hn Hgl Hit. pose proof (mid_nonzero _ _ _ _ Hi Hp) as Hp0.
  split; try done; rewrite ?Ea; simpl; [|by rewrite lookup_insert_eq| |done].
  - apply (mid_requeue A A s p t (set_run_state kBlocked t') false); try done.
    + split; [done|]. rewrite HA. by intros [? ?].
    + intros c. by rewrite HA.
    + simpl. rewrite Ea. unfold put_obj. simpl. by rewrite insert_insert_eq.
    + intros k. unfold requeue, adj1. rewrite HA. rewrite decide_False by done. destruct k as [| |c]; simpl; [done..|].
      by rewrite Hc, <- slot_without.
    + split_and!; [|done|done]. intros c. simpl. by rewrite Hc.
  - intros q Hne. by rewrite lookup_insert_ne.
Qed.

(** Changes to a lifted task. *)
Lemma lifted_upd A s0 p t f s :
  lifted A s0 p t s → gtid (f t) = gtid t → lifted A s0 p (f t) (put_task p (f t) s).
Proof.
  intros [Hi Hp HA Hh Hm Hr Hy Hc Hn Hg] E. split; try done; simpl; [|by rewrite lookup_insert_eq|].
  - rewrite c_put_put. pose proof (mid_nonzero _ _ p _ Hi (lookup_insert_eq _ _ _)) as Hp0.
    apply (mid_requeue A A _ p (set_run_state kBlocked t) (set_run_state kBlocked (f t)) false _ Hi); try done; simpl.
    + by rewrite lookup_insert_eq.
    + split; [done|]. rewrite HA. by intros [? ?].
    + intros c. by rewrite HA.
    + unfold put_obj. simpl. by rewrite insert_insert_eq.
    + intros k. unfold requeue, adj1. rewrite HA. rewrite decide_False by done. symmetry.
      apply (mid_others A (put_task p (set_run_state kBlocked t) s) p (set_run_state kBlocked t)); [exact Hi|by simpl; rewrite lookup_insert_eq|].
      unfold adj1. by rewrite HA.
  - intros q Hne. rewrite lookup_insert_ne by done. auto.
Qed.

Lemma c_wp_lifted_upd A s0 p t f s (Q : unit → Central → Prop) :
  lifted A s0 p t s → gtid (f t) = gtid t → (∀ s', lifted A s0 p (f t) s' → Q tt s') → wp (upd_task p f) s Q.
Proof. intros Hl E HQ. eapply wp_upd; [apply (li_at _ _ _ _ _ Hl)|]. by apply HQ, lifted_upd. Qed.

(** ** Putting it down *)

Definition boosted (t : CTask) : bool := prio_boost t || preempted t.

(** The task [p] moved and nothing else: [requeue] takes it out of its queue
    and puts it in that of its new state. *)
Record placed (A : gmap Z Z) (s0 : Central) (p : Z) (t : CTask) (s : Central) : Prop := {
  pl_inv : central_mid A s;
  pl_at : heap (c_allocator s) !! p = Some t;
  pl_heap : ∀ q, q ≠ p → heap (c_allocator s) !! q = heap (c_allocator s0) !! q;
  pl_map : task_map_ (c_allocator s) = task_map_ (c_allocator s0);
  pl_run : run_queue_ s = requeue central_place p t (boosted t) (c_queues s0) CRun;
  pl_yield : yielding_tasks_ s = requeue central_place p t false (c_queues s0) CYield;
  pl_cpus : ∀ c, c_cpus s c = set_current (without p (current (c_cpus s0 c))) (c_cpus s0 c);
  pl_num : num_tasks_ s = num_tasks_ s0;
  pl_glob : global_cpu_ s = global_cpu_ s0
}.

(** A lifted task enters a queue, or none. *)
Lemma placed_intro A s0 p t t' s s' :
  lifted A s0 p t s → gtid t' = gtid t → run_state t' ≠ kRunnable → run_state t' ≠ kOnCpu →
  c_allocator s' = put_obj p t' (c_allocator s) → c_cpus s' = c_cpus s →
  run_queue_ s' = requeue central_place p t' (boosted t') (c_queues s) CRun →
  yielding_tasks_ s' = requeue central_place p t' false (c_queues s) CYield →
  num_tasks_ s' = num_tasks_ s → global_cpu_ s' = global_cpu_ s → iterations_ s' = iterations_ s →
  placed A s0 p t' s'.
Proof.
  intros [Hi Hp HA Hh Hm Hr Hy Hc Hn Hg] Egt Hne1 Hne2 Ea Ec Er Ey En Eg Ei. split; try congruence; rewrite ?Ea; simpl.
  - apply (mid_requeue A A _ p (set_run_state kBlocked t) t' (has_state kQueued t' && boosted t') _ Hi); simpl; try done.
    + by rewrite lookup_insert_eq.
    + split; [done|]. rewrite HA. by intros [? ?].
    + intros c. by rewrite HA.
    + rewrite Ea. unfold put_obj. simpl. by rewrite insert_insert_eq.
    + intros k. unfold adj1. rewrite HA. unfold requeue, has_state, central_place in *. simpl.
      destruct k as [| |c]; simpl; rewrite ?Er, ?Ey, ?Ec; destruct (run_state t'); try done; simpl.
      all: rewrite ?decide_False by done; symmetry;
        apply (mid_others A _ p (set_run_state kBlocked t) (CCur c) Hi); [by simpl; rewrite lookup_insert_eq|unfold adj1; by rewrite HA].
    + split_and!; [|done|done]. intros c. by rewrite Ec.
  - by rewrite lookup_insert_eq.
  - intros q Hne. rewrite lookup_insert_ne by done. auto.
  - done.
  - rewrite Er. unfold requeue. simpl. by rewrite Hr, others_idem.
  - rewrite Ey. unfold requeue. simpl. by rewrite Hy, others_idem.
Qed.

Lemma lifted_blocked A s0 p t s : lifted A s0 p t s → run_state t = kBlocked → placed A s0 p t s.
Proof.
  intros Hl Hb. pose proof Hl as [Hi Hp HA _ _ Hr Hy _ _ _]. apply (placed_intro A s0 p t t s s Hl); try done; try congruence.
  - by rewrite put_obj_same.
  - unfold requeue, central_place. rewrite Hb. rewrite ?decide_False by done. simpl. by rewrite Hr, others_idem.
  - unfold requeue, central_place. rewrite Hb. rewrite ?decide_False by done. simpl. by rewrite Hy, others_idem.
Qed.

Lemma wp_C_Enqueue A s0 p t s (Q : unit → Central → Prop) :
  lifted A s0 p t s → run_state t = kRunnable →
  (∀ s', placed A s0 p (set_run_state kQueued t) s' → Q tt s') → wp (C_Enqueue p) s Q.
Proof.
  intros Hl Hst HQ. pose proof Hl as [_ Hp _ _ _ Hr Hy _ _ _]. unfold C_Enqueue. wpstep. eapply wp_task; [exact Hp|].
  wpstep. wpstep; [by apply bool_decide_eq_true|]. wpstep. eapply wp_upd; [exact Hp|]. wpstep.
  apply HQ. apply (placed_intro A s0 p t _ s _ Hl); try done; simpl.
  - unfold requeue. simpl. rewrite Hr, others_idem. unfold boosted. done.
  - unfold requeue. simpl. by rewrite Hy, others_idem.
Qed.

Lemma wp_C_Yield A s0 p t s (Q : unit → Central → Prop) :
  lifted A s0 p t s → run_state t = kRunnable ∨ run_state t = kOnCpu →
  (∀ s', placed A s0 p (set_run_state kYielding t) s' → Q tt s') → wp (C_Yield p) s Q.
Proof.
  intros Hl Hst HQ. pose proof Hl as [_ Hp _ _ _ Hr Hy _ _ _]. unfold C_Yield. wpstep. eapply wp_task; [exact Hp|].
  wpstep. wpstep; [unfold has_state; destruct Hst as [->| ->]; done|]. wpstep. eapply wp_upd; [exact Hp|]. wpstep.
  apply HQ. apply (placed_intro A s0 p t _ s _ Hl); try done; simpl.
  - unfold requeue. simpl. by rewrite Hr, others_idem.
  - unfold requeue. simpl. by rewrite Hy, others_idem.
Qed.

(** What became of it after one more move. *)
Lemma placed_lifted A s0 p t s t' s' : placed A s0 p t s → lifted A s p t' s' → lifted A s0 p t' s'.
Proof.
  intros [Hi Hp Hh Hm Hr Hy Hc Hn Hg] [Hi' Hp' HA Hh' Hm' Hr' Hy' Hc' Hn' Hg']. split; try done; try congruence.
  - intros q Hne. by rewrite Hh', Hh.
  - by rewrite Hr', Hr, others_requeue.
  - by rewrite Hy', Hy, others_requeue.
  - intros c. rewrite Hc', Hc. unfold set_current. simpl. by rewrite without_idem.
Qed.
End inv.
