(* ===== verification/CentralMessages.v ===== *)
(** * CentralMessages: the message handlers of the centralized FIFO agent

    One specification per handler: it does not abort and moves its task as the
    message says; together they are the transition [c_effect] of a message and
    the instance of [SchedLaws].

    The messages of the centralized FIFO agent.

    What each message does to its task, as an abstract transition of a machine
    of ordered queues, and the instance of [SchedLaws]. *)

From S2P Require Import Prelude Outcome CpuMap CpuMapSpec Topology Dispatch Placement Deals Central CentralInv.
From stdpp Require Import gmap functions sorting.
From Stdlib Require Import ZArith Lia.

Local Open Scope Z_scope.

Global Instance Central_allocator_field : AllocatorField Central CTask.
Proof. split; [done|]. by intros []. Qed.

Section handlers.
Context (env : CentralEnv) (Henv : central_env_ok env).

Notation central_mid := (central_mid env).
Notation central_inv := (central_inv env).
Notation lifted := (lifted env).
Notation placed := (placed env).
Notation enclave_cpu := (enclave_cpu env).

(** ** The CPUs *)

Lemma wp_c_cpu c s (Q : CCpu → Central → Prop) :
  0 ≤ c < MAX_CPUS → Q (c_cpus s c) s → wp (c_cpu c) s Q.
Proof. intros Hr HQ. unfold c_cpu. by rewrite (proj2 (Z.leb_le 0 c)), (proj2 (Z.ltb_lt c MAX_CPUS)) by lia. Qed.

Lemma wp_upd_c_cpu c f s (Q : unit → Central → Prop) :
  0 ≤ c < MAX_CPUS → Q tt (set_c_cpus (<[c := f (c_cpus s c)]> (c_cpus s)) s) → wp (upd_cpu c f) s Q.
Proof. intros Hr HQ. unfold upd_cpu. wpstep. apply wp_c_cpu; [done|]. by wpstep. Qed.

Lemma cpu_range c : enclave_cpu c → 0 ≤ c < MAX_CPUS.
Proof using Henv. intros Hc. pose proof (c_enclave_range _ _ Henv Hc). lia. Qed.

Lemma set_current_id k : set_current (current k) k = k.
Proof. by destruct k. Qed.

Lemma slot_others p cur : p ≠ 0 → others p (slot_list cur) = slot_list cur → without p cur = cur.
Proof.
  intros Hp E. unfold without. destruct (Z.eqb_spec cur p) as [->|]; [|done]. unfold slot_list in E.
  rewrite (proj2 (Z.eqb_neq p 0)) in E by done. rewrite others_self in E. done.
Qed.

Lemma cur_without A s p t c :
  central_mid A s → heap (c_allocator s) !! p = Some t → central_place (adj1 A p t) ≠ Some (CCur c) →
  without p (current (c_cpus s c)) = current (c_cpus s c).
Proof.
  intros Hi Hp Hk. apply slot_others; [by eapply mid_nonzero|]. apply (mid_others env A s p t (CCur c) Hi Hp Hk).
Qed.

(** The slot of a running task. *)
Lemma running_slot A s p t :
  central_mid A s → heap (c_allocator s) !! p = Some t → run_state t = kOnCpu → A !! p = None →
  ∃ c, cpu t = Some c ∧ enclave_cpu c ∧ current (c_cpus s c) = p.
Proof.
  intros Hi Hp Hst HA. destruct (cm_task _ _ _ Hi p t Hp) as [Hok _]. destruct (Hok Hst) as ((c & Ec & Hc) & _).
  exists c. split_and!; [done|done|]. assert (p ∈ c_queues s (CCur c)) as Hin.
  { apply (mid_in env A s p t); [done..|]. unfold adj1. rewrite HA. unfold central_place. by rewrite Hst, Ec. }
  simpl in Hin. by apply elem_of_slot in Hin as [_ ->].
Qed.

(** ** Taking a task out *)

Lemma wp_clear_current A s p t (Q : unit → Central → Prop) :
  central_mid A s → heap (c_allocator s) !! p = Some t → run_state t = kOnCpu → A !! p = None →
  (∀ s', lifted A s p t s' → Q tt s') → wp (clear_current p) s Q.
Proof using Henv.
  intros Hi Hp Hst HA HQ. destruct (running_slot A s p t Hi Hp Hst HA) as (c & Ec & Hc & Hcur).
  pose proof (cpu_range c Hc) as Hr. unfold clear_current, c_cpu_of. do 2 wpstep. eapply wp_task; [done|]. rewrite Ec.
  wpstep. wpstep; [by apply bool_decide_eq_true|]. wpstep. apply wp_c_cpu; [done|]. wpstep. wpstep; [by apply Z.eqb_eq|].
  wpstep. wpstep. apply wp_c_cpu; [done|]. wpstep. wpstep; [by apply Z.eqb_eq|]. apply wp_upd_c_cpu; [done|].
  apply HQ. apply (c_lift_from env A s p t); try done; simpl.
  - by rewrite put_obj_same.
  - symmetry. apply (mid_others env A s p t CRun Hi Hp). unfold adj1. rewrite HA. unfold central_place. by rewrite Hst, Ec.
  - symmetry. apply (mid_others env A s p t CYield Hi Hp). unfold adj1. rewrite HA. unfold central_place. by rewrite Hst, Ec.
  - intros d. destruct (decide (c = d)) as [<-|Hne].
    + rewrite fn_lookup_insert, Hcur. unfold without. by rewrite Z.eqb_refl.
    + rewrite fn_lookup_insert_ne by done. rewrite (cur_without A s p t); [by rewrite set_current_id|done|done|].
      unfold adj1. rewrite HA. unfold central_place. rewrite Hst, Ec. simpl. congruence.
Qed.

Lemma wp_RemoveFromRunqueue A s p t (Q : unit → Central → Prop) :
  central_mid A s → heap (c_allocator s) !! p = Some t → run_state t = kQueued →
  (∀ s', lifted A s p (set_run_state kRunnable t) s' → Q tt s') → wp (RemoveFromRunqueue p) s Q.
Proof.
  intros Hi Hp Hst HQ. pose proof (not_assigned env A s p t Hi Hp ltac:(congruence)) as HA0.
  assert (central_place (adj1 A p t) = Some CRun) as Hpl by (unfold adj1, central_place; by rewrite HA0, Hst).
  pose proof (mid_in env A s p t CRun Hi Hp Hpl) as Hin. simpl in Hin.
  unfold RemoveFromRunqueue. wpstep. eapply wp_task; [done|]. wpstep. wpstep; [by apply bool_decide_eq_true|]. wpstep. wpstep.
  destruct (rfind_spec p (run_queue_ s) (length (run_queue_ s))) as (i & -> & Hi'); [done|by rewrite firstn_all|].
  wpstep. eapply wp_upd; [exact Hp|]. wpstep. rewrite (delete_others p) by (first [done|apply (proj2 (cm_rest _ _ _ Hi) CRun)]).
  apply HQ. apply (c_lift_from env A s p t); try done; simpl.
  - symmetry. apply (mid_others env A s p t CYield Hi Hp). by rewrite Hpl.
  - intros c. rewrite (cur_without A s p t) by (first [done|by rewrite Hpl]). by rewrite set_current_id.
Qed.

Lemma wp_C_Unyield A s p t (Q : unit → Central → Prop) :
  central_mid A s → heap (c_allocator s) !! p = Some t → run_state t = kYielding →
  (∀ s', placed A s p (set_run_state kQueued t) s' → Q tt s') → wp (C_Unyield p) s Q.
Proof.
  intros Hi Hp Hst HQ. pose proof (not_assigned env A s p t Hi Hp ltac:(congruence)) as HA0.
  assert (central_place (adj1 A p t) = Some CYield) as Hpl by (unfold adj1, central_place; by rewrite HA0, Hst).
  pose proof (mid_in env A s p t CYield Hi Hp Hpl) as Hin. simpl in Hin.
  unfold C_Unyield. wpstep. eapply wp_task; [done|]. wpstep. wpstep; [by apply bool_decide_eq_true|]. wpstep. wpstep.
  destruct (find_first_spec p (yielding_tasks_ s) Hin) as (i & -> & Hi').
  wpstep. wpstep. rewrite (delete_others p) by (first [done|apply (proj2 (cm_rest _ _ _ Hi) CYield)]).
  wpstep. eapply wp_upd; [exact Hp|]. eapply (wp_C_Enqueue env A s p (set_run_state kRunnable t)); [|done|exact HQ].
  apply (c_lift_from env A s p t); try done; simpl.
  - symmetry. apply (mid_others env A s p t CRun Hi Hp). by rewrite Hpl.
  - intros c. rewrite (cur_without A s p t) by (first [done|by rewrite Hpl]). by rewrite set_current_id.
Qed.

(** A blocked task is in no queue as it stands. *)
Lemma c_lift_blocked A s p t :
  central_mid A s → heap (c_allocator s) !! p = Some t → run_state t = kBlocked → lifted A s p t s.
Proof.
  intros Hi Hp Hst. pose proof (not_assigned env A s p t Hi Hp ltac:(congruence)) as HA0.
  assert (central_place (adj1 A p t) = None) as Hpl by (unfold adj1, central_place; by rewrite HA0, Hst).
  apply (c_lift_from env A s p t); try done.
  - by rewrite put_obj_same.
  - symmetry. apply (mid_others env A s p t CRun Hi Hp). by rewrite Hpl.
  - symmetry. apply (mid_others env A s p t CYield Hi Hp). by rewrite Hpl.
  - intros c. rewrite (cur_without A s p t) by (first [done|by rewrite Hpl]). by rewrite set_current_id.
Qed.
End handlers.

(** ** The messages of the centralized FIFO agent *)

Section messages.
Context (env : CentralEnv) (Henv : central_env_ok env).

Notation central_mid := (central_mid env).
Notation central_inv := (central_inv env).
Notation lifted := (lifted env).
Notation placed := (placed env).
Notation enclave_cpu := (enclave_cpu env).

(** ** The transitions *)

Definition c_death (ty : Z) : bool := (ty =? MSG_TASK_DEAD) || (ty =? MSG_TASK_DEPARTED).

(** The messages that always move their task, and those that do so if it is
    running. *)
Definition c_moves (ty : Z) : bool := (ty =? MSG_TASK_WAKEUP) || (ty =? MSG_TASK_BLOCKED).
Definition c_stops (ty : Z) : bool := (ty =? MSG_TASK_PREEMPT) || (ty =? MSG_TASK_YIELD).

(** The task after the message. *)
Definition c_after (t : CTask) (m : Message) : CTask :=
  let ty := msg_type m in
  if ty =? MSG_TASK_WAKEUP then set_run_state kQueued (set_prio_boost (negb (msg_deferrable m)) t)
  else if ty =? MSG_TASK_BLOCKED then set_run_state kBlocked t
  else if ty =? MSG_TASK_PREEMPT then
    (if has_state kOnCpu t then set_run_state kQueued else id) (set_preempted true t)
  else if (ty =? MSG_TASK_YIELD) && has_state kOnCpu t then set_run_state kYielding t
  else t.

(** Whether it changes its place. *)
Definition c_relocates (t : CTask) (m : Message) : bool :=
  c_moves (msg_type m) || (c_stops (msg_type m) && has_state kOnCpu t).

(** When the kernel sends a message about a task. *)
Definition c_msg_ok (t : CTask) (m : Message) : Prop :=
  let ty := msg_type m in
  seqnum t < msg_seqnum m ∧
  (ty = MSG_TASK_WAKEUP ∨ ty = MSG_TASK_DEAD → run_state t = kBlocked) ∧
  (ty = MSG_TASK_BLOCKED ∨ ty = MSG_TASK_YIELD ∨ ty = MSG_TASK_PREEMPT →
     run_state t = kOnCpu ∨ run_state t = kQueued).

(** The messages about CPUs but those that the agent does not expect. *)
Definition c_cpu_msg (m : Message) : Prop :=
  known_cpu_msg m ∧ msg_type m ≠ MSG_CPU_NOT_IDLE ∧ msg_type m ≠ MSG_CPU_TIMER_EXPIRED.

(** The task [p] is gone, the others as before. *)
Record c_gone (s0 : Central) (p : Z) (s : Central) : Prop := {
  go_inv : central_inv s;
  go_at : heap (c_allocator s) !! p = None;
  go_heap : ∀ q, q ≠ p → heap (c_allocator s) !! q = heap (c_allocator s0) !! q;
  go_run : run_queue_ s = others p (run_queue_ s0);
  go_yield : yielding_tasks_ s = others p (yielding_tasks_ s0);
  go_cpus : ∀ c, c_cpus s c = set_current (without p (current (c_cpus s0 c))) (c_cpus s0 c);
  go_glob : global_cpu_ s = global_cpu_ s0
}.

(** What a message does, but for the sequence number. *)
Definition c_effect (s : Central) (p : Z) (t : CTask) (m : Message) (s' : Central) : Prop :=
  if c_death (msg_type m) then c_gone s p s'
  else if c_relocates t m then placed ∅ s p (c_after t m) s'
  else s' = put_task p (c_after t m) s.

(** ** Counting *)

Lemma placed_heap s0 p t s : placed ∅ s0 p t s → heap (c_allocator s) = <[p := t]> (heap (c_allocator s0)).
Proof.
  intros [_ Hp Hh _ _ _ _ _ _]. apply map_eq. intros q. destruct (decide (p = q)) as [<-|Hne].
  - by rewrite lookup_insert_eq.
  - rewrite lookup_insert_ne by done. by apply Hh.
Qed.
Lemma placed_counted s0 p t u s :
  placed ∅ s0 p t s → heap (c_allocator s0) !! p = Some u → counted s0 → counted s.
Proof.
  intros Hpl Hu Hc. unfold counted. rewrite (placed_heap s0 p t s Hpl), (pl_num _ _ _ _ _ _ Hpl), map_size_insert_Some by eauto.
  exact Hc.
Qed.

(** ** Handlers *)

Lemma wp_c_free s0 p t s (Q : unit → Central → Prop) :
  lifted ∅ s0 p t s → counted s0 → is_Some (heap (c_allocator s0) !! p) →
  (∀ s', c_gone s0 p s' → Q tt s') → wp (c_free p) s Q.
Proof.
  intros [Hi Hp HA Hh Hm Hr Hy Hc Hn Hg] Hcount [u Hu] HQ. unfold c_free. wpstep. eapply wp_free; [exact Hp|].
  wpstep. apply HQ. pose proof Hi as [Ha Hrest Ht HAs Hag Hgl Hit]. rewrite adj_empty in Hrest. simpl in *.
  assert (delete p (<[p := set_run_state kBlocked t]> (heap (c_allocator s))) = delete p (heap (c_allocator s))) as E
    by apply delete_insert_eq.
  assert (delete p (heap (c_allocator s)) = delete p (heap (c_allocator s0))) as Ed.
  { apply map_eq. intros q. destruct (decide (p = q)) as [<-|Hne]; [by rewrite !lookup_delete_eq|].
    rewrite !lookup_delete_ne by done. by apply Hh. }
  split; simpl; try done.
  - split.
    + split; simpl; try done.
      * destruct (alloc_inv_free _ p (set_run_state kBlocked t) Ha) as [_ Ha']; [simpl; by rewrite lookup_insert_eq|].
        simpl in Ha'. rewrite E in Ha'. exact Ha'.
      * rewrite adj_empty. rewrite <- E. eapply rest_free; [exact Hrest|by rewrite lookup_insert_eq|done].
      * intros q v. rewrite <- E. intros [_ Hv]%lookup_delete_Some. by apply (Ht q).
    + unfold counted in *. simpl. rewrite Ed, map_size_delete_Some, Hn, Hcount by eauto.
      rewrite <- Z.add_opp_r, s32_add. f_equal. assert (size (heap (c_allocator s0)) ≠ 0%nat).
      { intros E0%map_size_empty_inv. rewrite E0, lookup_empty in Hu. done. }
      lia.
  - by rewrite lookup_delete_eq.
  - intros q Hne. rewrite lookup_delete_ne by done. by apply Hh.
Qed.

Lemma wp_C_TaskRunnable s p t m (Q : unit → Central → Prop) :
  central_mid ∅ s → heap (c_allocator s) !! p = Some t → run_state t = kBlocked →
  (∀ s', placed ∅ s p (set_run_state kQueued (set_prio_boost (negb (msg_deferrable m)) t)) s' → Q tt s') →
  wp (C_TaskRunnable p m) s Q.
Proof.
  intros Hi Hp Hst HQ. unfold C_TaskRunnable. wpstep. eapply wp_task; [done|]. wpstep. wpstep; [by apply bool_decide_eq_true|].
  wpstep. eapply (c_wp_lifted_upd env ∅ s p t); [by apply c_lift_blocked|done|]. intros s1 Hl1.
  eapply (wp_C_Enqueue env ∅ s p); [exact Hl1|done|exact HQ].
Qed.

Lemma wp_C_TaskBlocked s p t m (Q : unit → Central → Prop) :
  central_mid ∅ s → heap (c_allocator s) !! p = Some t → run_state t = kOnCpu ∨ run_state t = kQueued →
  (∀ s', placed ∅ s p (set_run_state kBlocked t) s' → Q tt s') → wp (C_TaskBlocked p m) s Q.
Proof using Henv.
  intros Hi Hp Hst HQ. unfold C_TaskBlocked. wpstep. eapply wp_task; [done|]. wpstep.
  assert (∀ u s1, lifted ∅ s p u s1 → set_run_state kBlocked u = set_run_state kBlocked t →
    wp (upd_task p (set_run_state kBlocked)) s1 Q) as Hend.
  { intros u s1 Hl1 E. eapply (c_wp_lifted_upd env ∅ s p u); [exact Hl1|done|]. intros s2 Hl2. apply HQ. rewrite <- E.
    by apply lifted_blocked. }
  unfold has_state. case_bool_decide as E1.
  - eapply wp_clear_current; [done|exact Hi|done|done|apply lookup_empty|]. intros s1 Hl1. by eapply Hend.
  - destruct Hst as [|Hq]; [done|]. wpstep. wpstep; [by apply bool_decide_eq_true|].
    eapply wp_RemoveFromRunqueue; [exact Hi|done|done|]. intros s1 Hl1. by eapply Hend.
Qed.

Lemma wp_C_TaskYield s p t m (Q : unit → Central → Prop) :
  central_mid ∅ s → heap (c_allocator s) !! p = Some t → run_state t = kOnCpu ∨ run_state t = kQueued →
  (run_state t = kOnCpu → ∀ s', placed ∅ s p (set_run_state kYielding t) s' → Q tt s') →
  (run_state t = kQueued → Q tt s) → wp (C_TaskYield p m) s Q.
Proof using Henv.
  intros Hi Hp Hst H1 H2. unfold C_TaskYield. wpstep. eapply wp_task; [done|]. unfold has_state. case_bool_decide as E1.
  - wpstep. eapply wp_clear_current; [done|exact Hi|done|done|apply lookup_empty|]. intros s1 Hl1.
    eapply (wp_C_Yield env ∅ s p); [exact Hl1|by right|by apply H1].
  - destruct Hst as [|Hq]; [done|]. wpstep; [by apply bool_decide_eq_true|by apply H2].
Qed.

(** [TaskPreempted] sets the flag first. *)
Lemma wp_clear_preempted s p t (Q : unit → Central → Prop) :
  central_mid ∅ s → heap (c_allocator s) !! p = Some t → run_state t = kOnCpu →
  (∀ s', lifted ∅ s p (set_preempted true t) s' → Q tt s') →
  wp (clear_current p) (put_task p (set_preempted true t) s) Q.
Proof using Henv.
  intros Hi Hp Hst HQ. destruct (running_slot env ∅ s p t Hi Hp Hst (lookup_empty _)) as (c & Ec & Hc & Hcur).
  pose proof (cpu_range env Henv c Hc) as Hr. unfold clear_current, c_cpu_of. do 2 wpstep.
  eapply wp_task; [simpl; apply lookup_insert_eq|]. simpl cpu. rewrite Ec.
  wpstep. wpstep; [by apply bool_decide_eq_true|]. wpstep. apply wp_c_cpu; [done|]. wpstep. wpstep; [by apply Z.eqb_eq|].
  wpstep. wpstep. apply wp_c_cpu; [done|]. wpstep. wpstep; [by apply Z.eqb_eq|]. apply wp_upd_c_cpu; [done|].
  assert (central_place (adj1 ∅ p t) = Some (CCur c)) as Hpl by (unfold adj1, central_place; by rewrite lookup_empty, Hst, Ec).
  apply HQ. apply (c_lift_from env ∅ s p t); try done; simpl.
  - symmetry. apply (mid_others env ∅ s p t CRun Hi Hp). by rewrite Hpl.
  - symmetry. apply (mid_others env ∅ s p t CYield Hi Hp). by rewrite Hpl.
  - intros d. destruct (decide (c = d)) as [<-|Hne].
    + rewrite fn_lookup_insert, Hcur. unfold without. by rewrite Z.eqb_refl.
    + rewrite fn_lookup_insert_ne by done. rewrite (cur_without env ∅ s p t); [by rewrite set_current_id|done|done|].
      rewrite Hpl. congruence.
Qed.

Lemma wp_C_TaskPreempted s p t m (Q : unit → Central → Prop) :
  central_mid ∅ s → heap (c_allocator s) !! p = Some t → run_state t = kOnCpu ∨ run_state t = kQueued →
  (run_state t = kOnCpu → ∀ s', placed ∅ s p (set_run_state kQueued (set_preempted true t)) s' → Q tt s') →
  (run_state t = kQueued → Q tt (put_task p (set_preempted true t) s)) → wp (C_TaskPreempted p m) s Q.
Proof using Henv.
  intros Hi Hp Hst H1 H2. unfold C_TaskPreempted. wpstep. eapply wp_upd; [done|]. wpstep.
  eapply wp_task; [simpl; apply lookup_insert_eq|]. unfold has_state. simpl run_state. case_bool_decide as E1.
  - wpstep. eapply (wp_clear_preempted s p t); [done..|]. intros s1 Hl1. wpstep.
    eapply (c_wp_lifted_upd env ∅ s p); [exact Hl1|done|]. intros s2 Hl2.
    eapply (wp_C_Enqueue env ∅ s p); [exact Hl2|done|by apply H1].
  - destruct Hst as [|Hq]; [done|]. wpstep; [by apply bool_decide_eq_true|by apply H2].
Qed.

Lemma wp_C_TaskDeparted s p t m (Q : unit → Central → Prop) :
  central_inv s → heap (c_allocator s) !! p = Some t → (∀ s', c_gone s p s' → Q tt s') → wp (C_TaskDeparted p m) s Q.
Proof using Henv.
  intros [Hi Hcount] Hp HQ. unfold C_TaskDeparted. wpstep. eapply wp_task; [done|]. wpstep.
  assert (∀ u s1, lifted ∅ s p u s1 → wp (c_free p) s1 Q) as Hend by (intros; eapply wp_c_free; eauto).
  wpstep; intros Hy.
  - apply bool_decide_eq_true in Hy. eapply (wp_C_Unyield env ∅ s p t); [done..|]. intros s1 Hpl.
    wpstep. eapply wp_task; [apply (pl_at _ _ _ _ _ _ Hpl)|]. wpstep. simpl.
    eapply wp_RemoveFromRunqueue; [apply (pl_inv _ _ _ _ _ _ Hpl)|apply (pl_at _ _ _ _ _ _ Hpl)|done|].
    intros s2 Hl2. eapply Hend, placed_lifted; [exact Hpl|exact Hl2].
  - apply bool_decide_eq_false in Hy. wpstep. eapply wp_task; [done|]. wpstep. unfold has_state.
    case_bool_decide as E1; [|case_bool_decide as E2].
    + eapply wp_clear_current; [done|exact Hi|done|done|apply lookup_empty|]. intros s1 Hl1. by eapply Hend.
    + eapply wp_RemoveFromRunqueue; [exact Hi|done|done|]. intros s1 Hl1. by eapply Hend.
    + assert (run_state t = kBlocked) as Hb.
      { destruct (run_state t) eqn:E; try done. destruct (cm_task _ _ _ Hi p t Hp) as [_ HA]. rewrite E, lookup_empty in HA.
        by destruct (proj1 HA eq_refl). }
      wpstep; [by apply bool_decide_eq_true|]. eapply Hend. by apply c_lift_blocked.
Qed.

Lemma wp_C_TaskDead s p t m (Q : unit → Central → Prop) :
  central_inv s → heap (c_allocator s) !! p = Some t → run_state t = kBlocked → (∀ s', c_gone s p s' → Q tt s') →
  wp (C_TaskDead p m) s Q.
Proof.
  intros [Hi Hcount] Hp Hb HQ. unfold C_TaskDead. wpstep. eapply wp_task; [done|]. wpstep. wpstep; [by apply bool_decide_eq_true|].
  eapply wp_c_free; [by apply c_lift_blocked|done|by eexists|done].
Qed.

(** A new task is nowhere, then at the back of the queue if it can run. *)
Definition c_new (m : Message) (t : CTask) : CTask :=
  set_run_state (if msg_runnable m then kQueued else kBlocked) (set_seqnum (msg_seqnum m) t).

Lemma wp_C_TaskNew s p t m (Q : unit → Central → Prop) :
  central_mid ∅ s → heap (c_allocator s) !! p = Some t → run_state t = kBlocked →
  (∀ s', placed ∅ s p (c_new m t) s' → Q tt (set_num_tasks (s32 (num_tasks_ s + 1)) s')) →
  wp (C_TaskNew p m) s Q.
Proof.
  intros Hi Hp Hst HQ. unfold C_TaskNew, c_new in *. wpstep.
  eapply (c_wp_lifted_upd env ∅ s p t); [by apply c_lift_blocked|done|]. intros s1 Hl1. wpstep.
  assert (∀ u s', placed ∅ s p u s' → num_tasks_ s' = num_tasks_ s) as Hn by (intros u s' Hpl; apply (pl_num _ _ _ _ _ _ Hpl)).
  wpstep; intros Hrun; rewrite Hrun in HQ.
  - wpstep. eapply (c_wp_lifted_upd env ∅ s p); [exact Hl1|done|]. intros s2 Hl2.
    eapply (wp_C_Enqueue env ∅ s p); [exact Hl2|done|]. intros s3 Hs3. wpstep. rewrite (Hn _ _ Hs3). by apply HQ.
  - wpstep. pose proof (lifted_blocked env ∅ s p _ s1 Hl1 eq_refl) as Hs1. rewrite (Hn _ _ Hs1). by apply HQ.
Qed.

(** ** The dispatcher *)

Lemma dispatch_c_effect s p t m :
  central_inv s → heap (c_allocator s) !! p = Some t → c_msg_ok t m →
  is_task_type (msg_type m) → msg_type m ≠ MSG_TASK_NEW →
  wp (@dispatch_task Central CTask _ _ (Central_ops env) p m) s
    (λ u s', c_effect s p t m s' ∧ u = negb (c_death (msg_type m))).
Proof using Henv.
  intros Hi Hp (Hsq & Hbl & Hoff) Hty Hnew. pose proof Hi as [Hmid _]. unfold dispatch_task. cbv zeta.
  unfold c_effect, c_after, c_relocates.
  destruct (Z.eqb_spec (msg_type m) MSG_TASK_NEW) as [|_]; [done|].
  destruct (Z.eqb_spec (msg_type m) MSG_TASK_PREEMPT) as [E|N1].
  { wpstep. rewrite E in *. eapply wp_C_TaskPreempted; [done|exact Hp|auto|..]; intros Hst; [intros s' Hs'|]; wpstep;
      (split; [|done]); simpl; unfold has_state; rewrite Hst; simpl; done. }
  destruct (Z.eqb_spec (msg_type m) MSG_TASK_DEAD) as [E|N2].
  { wpstep. rewrite E in *. eapply wp_C_TaskDead; [done|exact Hp|auto|]. intros s' Hs'. by wpstep. }
  destruct (Z.eqb_spec (msg_type m) MSG_TASK_WAKEUP) as [E|N3].
  { wpstep. rewrite E in *. eapply wp_C_TaskRunnable; [done|exact Hp|auto|]. intros s' Hs'. by wpstep. }
  destruct (Z.eqb_spec (msg_type m) MSG_TASK_BLOCKED) as [E|N4].
  { wpstep. rewrite E in *. eapply wp_C_TaskBlocked; [done|exact Hp|auto|]. intros s' Hs'. by wpstep. }
  destruct (Z.eqb_spec (msg_type m) MSG_TASK_YIELD) as [E|N5].
  { wpstep. rewrite E in *. eapply wp_C_TaskYield; [done|exact Hp|auto|..]; intros Hst; [intros s' Hs'|]; wpstep;
      (split; [|done]); simpl; unfold has_state; rewrite Hst; simpl; [done|].
    unfold put_task. rewrite put_obj_same by done. by destruct s. }
  destruct (Z.eqb_spec (msg_type m) MSG_TASK_DEPARTED) as [E|N6].
  { wpstep. rewrite E in *. eapply wp_C_TaskDeparted; [done|exact Hp|]. intros s' Hs'. by wpstep. }
  assert (c_death (msg_type m) = false ∧ c_moves (msg_type m) = false ∧ c_stops (msg_type m) = false) as (-> & -> & ->).
  { unfold c_death, c_moves, c_stops. by rewrite !(proj2 (Z.eqb_neq _ _)) by done. }
  assert (s = put_task p t s) as Es by (unfold put_task; rewrite put_obj_same by done; by destruct s).
  simpl.
  repeat (case_match; [by repeat wpstep|]). exfalso. zbool. unfold is_task_type, MSG_TASK_NEW, MSG_TASK_PREEMPT, MSG_TASK_DEAD, MSG_TASK_WAKEUP,
    MSG_TASK_BLOCKED, MSG_TASK_YIELD, MSG_TASK_DEPARTED, MSG_TASK_SWITCHTO, MSG_TASK_AFFINITY_CHANGED,
    MSG_TASK_PRIORITY_CHANGED, MSG_TASK_ON_CPU, _MSG_TASK_FIRST in *. lia.
Qed.

Lemma c_effect_inv s p t m s' :
  central_inv s → heap (c_allocator s) !! p = Some t → c_msg_ok t m → c_effect s p t m s' → central_inv s'.
Proof.
  intros [Hi Hc] Hp Hm. unfold c_effect. destruct (c_death _); [by intros []|].
  destruct (c_relocates t m) eqn:E; [intros Hpl; split; [apply Hpl|by eapply placed_counted]|].
  intros ->. split.
  - destruct (cm_task _ _ _ Hi p t Hp) as [Hok _]. unfold c_relocates, c_stops in E. unfold c_after.
    destruct (msg_type m =? MSG_TASK_WAKEUP) eqn:E1; [unfold c_moves in E; by rewrite E1 in E|].
    destruct (msg_type m =? MSG_TASK_BLOCKED) eqn:E2; [unfold c_moves in E; by rewrite E2, orb_true_r in E|].
    apply orb_false_iff in E as [_ E].
    destruct (msg_type m =? MSG_TASK_PREEMPT) eqn:E3.
    + simpl in E. rewrite E. simpl. eapply mid_fields; [done..|]. intros Hst. unfold has_state in E. simpl in Hst.
      by rewrite Hst in E.
    + destruct (msg_type m =? MSG_TASK_YIELD) eqn:E4; simpl in E; [rewrite E|]; eapply mid_fields; done.
  - unfold counted, put_task in *. simpl. rewrite map_size_insert_Some by eauto. exact Hc.
Qed.

Lemma c_after_seqnum t m : seqnum (c_after t m) = seqnum t ∧ gtid (c_after t m) = gtid t.
Proof. unfold c_after. cbv zeta. by repeat case_match. Qed.

Lemma c_effect_at s p t m s' :
  heap (c_allocator s) !! p = Some t → c_death (msg_type m) = false → c_effect s p t m s' →
  heap (c_allocator s') !! p = Some (c_after t m).
Proof.
  intros Hp Hd. unfold c_effect. rewrite Hd. destruct (c_relocates t m); [by intros []|].
  intros ->. simpl. by rewrite lookup_insert_eq.
Qed.

Lemma c_inv_seqnum s p t n :
  central_inv s → heap (c_allocator s) !! p = Some t → central_inv (put_task p (set_seqnum n t) s).
Proof.
  intros [Hi Hc] Hp. split; [eapply mid_fields; try done; by apply (cm_task _ _ _ Hi p t Hp)|].
  unfold counted in *. simpl. rewrite map_size_insert_Some by eauto. exact Hc.
Qed.

(** What the dispatcher makes of a message about a known task. *)
Definition c_transition (s : Central) (p : Z) (t : CTask) (m : Message) (s' : Central) : Prop :=
  if c_death (msg_type m) then c_gone s p s'
  else ∃ s1, c_effect s p t m s1 ∧ s' = put_task p (set_seqnum (msg_seqnum m) (c_after t m)) s1.

Lemma dispatch_c_transition s p t m :
  central_inv s → heap (c_allocator s) !! p = Some t → c_msg_ok t m → msg_gtid m ≠ 0 →
  GetTask (msg_gtid m) (c_allocator s) = Some p → is_task_type (msg_type m) → msg_type m ≠ MSG_TASK_NEW →
  wp (@DispatchMessage Central CTask _ _ (Central_ops env) m) s (λ _, c_transition s p t m).
Proof using Henv.
  intros Hi Hp Hm Hg Hf Hty Hnew. eapply (wp_DispatchMessage_task p t); [done..|by apply dispatch_c_effect|].
  intros u s' [He ->]. pose proof Hm as [Hsq _]. unfold c_transition. destruct (c_death _) eqn:Hd; simpl.
  - unfold c_effect in He. by rewrite Hd in He.
  - exists (c_after t m). split_and!; [by eapply c_effect_at|simpl; by rewrite (proj1 (c_after_seqnum t m))|]. eauto.
Qed.

Lemma c_dispatch_cpu s m (Q : unit → Central → Prop) :
  c_cpu_msg m → Q tt s → wp (@dispatch_cpu Central CTask _ _ (Central_ops env) m) s Q.
Proof.
  intros (H & N1 & N2) HQ. unfold dispatch_cpu. cbv zeta.
  repeat (case_match; [zbool; first [exact HQ|done]|]). apply known_cpu_types in H. zbool. naive_solver.
Qed.

Global Instance Central_laws :
  @SchedLaws Central CTask _ _ (Central_ops env) central_inv (λ _, True) (λ _ _, c_msg_ok) c_cpu_msg.
Proof using Henv.
  split.
  - apply _.
  - done.
  - intros s []. apply H.
  - intros s [Hi _]. apply (ce_malloc _ Henv), (cm_alloc _ _ _ Hi).
  - intros s m [Hi Hc] _ Hg. set (s1 := set_allocator _ s).
    destruct (ce_malloc _ Henv (c_allocator s) (proj1 (cm_alloc _ _ _ Hi))) as [Hne Hfr].
    assert (central_mid ∅ s1) as Hi1.
    { destruct Hi as [Ha Hr Ht HA Hag Hgl Hit]. rewrite adj_empty in Hr. split; simpl; try done.
      - destruct (alloc_inv_new (c_allocator s) (c_malloc env (c_allocator s)) (msg_gtid m)) as [_ H]; done.
      - rewrite adj_empty. by apply rest_new.
      - intros p t [[<- <-]|[_ Hp]]%lookup_insert_Some; [split; [by intros ?|by rewrite lookup_empty; split; [done|intros [? ?]]]|by apply (Ht p)]. }
    eapply (wp_C_TaskNew s1 _ (CTask_new (msg_gtid m))); try done; [simpl; by rewrite lookup_insert_eq|].
    intros s' Hs'. pose proof (pl_inv _ _ _ _ _ _ Hs') as [Ha Hr Ht HA Hag Hgl Hit]. split; [by split|].
    unfold counted in *. simpl. rewrite (placed_heap _ _ _ _ Hs'). simpl.
    rewrite insert_insert_eq, map_size_insert_None, Hc by done. rewrite s32_add. f_equal. lia.
  - intros s p t m Hi Hp Hm Hty Hnew. eapply wp_mono; [by apply (dispatch_c_effect s p t m)|].
    intros u s' [He ->]. split; [by eapply c_effect_inv|]. intros Hd%negb_true_iff. pose proof Hm as [Hsq _].
    exists (c_after t m). split; [by eapply c_effect_at|]. simpl. by rewrite (proj1 (c_after_seqnum t m)).
  - intros s p t n Hi Hp. by apply (c_inv_seqnum s p t n).
  - intros s m Hi Hc _. by apply (c_dispatch_cpu s m).
Qed.
End messages.
