(* ===== verification/CentralDeal.v ===== *)
(** * CentralDeal: a scheduling pass of the centralized FIFO agent, up to the commit

    The loop that collects the available CPUs, and the loop that deals them the
    tasks of the run queue: [deal_inv] relates its state to a trace of what was
    dequeued.

    The deal as a trace.

    The tasks that a pass of the centralized FIFO agent dequeues, in order, each
    with the CPU it was given or none if it was passed over. *)

From S2P Require Import Prelude Outcome CpuMap CpuMapSpec Topology TopologySpec Dispatch Placement Deals Central.
From S2P Require Import CentralInv CentralMessages.
From stdpp Require Import gmap functions sorting.
From Stdlib Require Import ZArith Lia.

Local Open Scope Z_scope.

(** Only the number of questions changed. *)
Definition with_asked (n : nat) (s : Central) : Central :=
  mkCentral (c_allocator s) (c_cpus s) (global_cpu_core_ s) (global_cpu_ s) (num_tasks_ s) (run_queue_ s)
    (yielding_tasks_ s) (iterations_ s) n (log s).

Section deal.
Context (env : CentralEnv) (Henv : central_env_ok env).

Notation central_mid := (central_mid env).
Notation lifted := (lifted env).
Notation placed := (placed env).
Notation enclave_cpu := (enclave_cpu env).

Lemma wp_c_ask {A} (f : nat → A) s (Q : A → Central → Prop) : Q (f (asked s)) (tick s) → wp (ask f) s Q.
Proof. intros HQ. unfold ask. by repeat wpstep. Qed.

(** What the invariant does not read. *)
Lemma mid_frame A s s' :
  central_mid A s → c_allocator s' = c_allocator s → (∀ k, c_queues s' k = c_queues s k) →
  same_agents s s' → central_mid A s'.
Proof.
  intros [Ha Hr Ht HA Hag Hgl Hit] Ea Hq (H1 & H2 & H3). split; rewrite ?Ea; try done.
  - by eapply rest_ext.
  - intros c. rewrite H1. apply Hag.
  - by rewrite H2.
  - by rewrite H3.
Qed.

Lemma mid_asked A s n : central_mid A s → central_mid A (with_asked n s).
Proof. intros Hi. by apply (mid_frame A s). Qed.

Lemma lifted_asked A s0 p t s n : lifted A s0 p t s → lifted A s0 p t (with_asked n s).
Proof. intros [Hi Hp HA Hh Hm Hr Hy Hc Hn Hg]. split; try done. by apply (mid_frame A _ _ Hi). Qed.

(** ** The available CPUs *)

(** Some answers of the kernel make [c] available, or not. *)
Definition free (s : Central) (c : Z) : Prop :=
  (∃ n, c_avail env n c = true) ∧
  (current (c_cpus s c) = 0 ∨ ∃ n, within_slice env (c_now env n) (last_commit (c_cpus s c)) = false).

Definition taken (s : Central) (c : Z) : Prop :=
  (∃ n, c_avail env n c = false) ∨
  (current (c_cpus s c) ≠ 0 ∧ ∃ n, within_slice env (c_now env n) (last_commit (c_cpus s c)) = true).

Lemma wp_Available c s (Q : bool → Central → Prop) :
  0 ≤ c < MAX_CPUS → agent (c_cpus s c) = true → Q (c_avail env (asked s) c) (tick s) → wp (Available env c) s Q.
Proof. intros Hr Ha HQ. unfold Available. wpstep. apply wp_c_cpu; [done|]. rewrite Ha. by apply wp_c_ask. Qed.

Lemma wp_available_loop global cs av s :
  (∀ c, c ∈ cs → enclave_cpu c) → (∀ c, enclave_cpu c → agent (c_cpus s c) = true) →
  (global ∈ cs → current (c_cpus s global) = 0) →
  cpulist_wf av → topology_num_cpus av = num_cpus_ (c_topo env) →
  wp (available_loop env global cs av) s (λ av' s',
    (∃ n, s' = with_asked n s) ∧ cpulist_wf av' ∧ topology_num_cpus av' = num_cpus_ (c_topo env) ∧
    (∀ c, c ∈ elems av → c ∈ elems av') ∧
    (∀ c, c ∈ elems av' → c ∈ elems av ∨ (c ∈ cs ∧ c ≠ global ∧ free s c)) ∧
    (∀ c, c ∈ cs → c ≠ global → c ∈ elems av' ∨ taken s c)).
Proof using Henv.
  intros Hcs Hag Hg Hwf Hnum. revert av s Hag Hg Hwf Hnum. induction cs as [|c cs IH]; intros av s Hag Hg Hwf Hnum; simpl.
  { apply wp_ret. split_and!; try done; [exists (asked s); by destruct s|auto|]. intros c Hc. by apply elem_of_nil in Hc. }
  assert (enclave_cpu c) as Hc by (apply Hcs; by left). pose proof (c_enclave_range env c Henv Hc) as Hr.
  assert (∀ d, d ∈ cs → enclave_cpu d) as Hcs' by (intros; apply Hcs; by right). specialize (IH Hcs').
  wpstep. apply wp_c_cpu; [lia|]. destruct (Z.eqb_spec c global) as [->|Hne].
  { wpstep. wpstep; [apply Z.eqb_eq, Hg; by left|]. eapply wp_mono; [apply IH; try done; intros; apply Hg; by right|].
    intros av' s' (Hn & W & N & H1 & H2 & H3). split_and!; try done.
    - intros d Hd. destruct (H2 d Hd) as [|(? & ? & ?)]; [by left|right; split_and!; [by right|done..]].
    - intros d Hd Hdg. apply elem_of_cons in Hd as [->|Hd]; [done|auto]. }
  assert (∀ n av1, (∀ d, d ∈ elems av → d ∈ elems av1) → cpulist_wf av1 →
      topology_num_cpus av1 = num_cpus_ (c_topo env) →
      (∀ d, d ∈ elems av1 → d ∈ elems av ∨ (d = c ∧ free s c)) → (c ∈ elems av1 ∨ taken s c) →
      wp (available_loop env global cs av1) (with_asked n s) (λ av' s',
        (∃ n, s' = with_asked n s) ∧ cpulist_wf av' ∧ topology_num_cpus av' = num_cpus_ (c_topo env) ∧
        (∀ c, c ∈ elems av → c ∈ elems av') ∧
        (∀ d, d ∈ elems av' → d ∈ elems av ∨ (d ∈ c :: cs ∧ d ≠ global ∧ free s d)) ∧
        (∀ d, d ∈ c :: cs → d ≠ global → d ∈ elems av' ∨ taken s d))) as Hrec.
  { intros n av1 Hsub W1 N1 Hin Hc1. eapply wp_mono; [apply IH; try done; intros; apply Hg; by right|].
    intros av' s' ((n' & ->) & W & N & H1 & H2 & H3). split_and!; try done.
    - by exists n'.
    - auto.
    - intros d Hd. destruct (H2 d Hd) as [H|(? & ? & ?)]; [|right; split_and!; [by right|done..]].
      destruct (Hin d H) as [|[-> ?]]; [by left|right; split_and!; [by left|done..]].
    - intros d Hd Hdg. apply elem_of_cons in Hd as [->|Hd]; [destruct Hc1; auto|]. by destruct (H3 d Hd Hdg); [left|right]. }
  wpstep. apply wp_Available; [lia|by apply Hag|]. destruct (c_avail env (asked s) c) eqn:Ea; simpl.
  2: { apply (Hrec (S (asked s))); auto. right. left. eauto. }
  assert (∀ n, free s c → wp (lift (CpuList_Set c av) ≫= λ available, available_loop env global cs available) (with_asked n s)
      (λ av' s', (∃ n, s' = with_asked n s) ∧ cpulist_wf av' ∧ topology_num_cpus av' = num_cpus_ (c_topo env) ∧
        (∀ c, c ∈ elems av → c ∈ elems av') ∧
        (∀ d, d ∈ elems av' → d ∈ elems av ∨ (d ∈ c :: cs ∧ d ≠ global ∧ free s d)) ∧
        (∀ d, d ∈ c :: cs → d ≠ global → d ∈ elems av' ∨ taken s d))) as Hset.
  { intros n Hfree. destruct (elems_set av c Hwf ltac:(lia)) as (av1 & -> & W1 & N1 & He). apply wp_lift_ok.
    apply (Hrec n); try done; [intros d Hd; apply He; by right|congruence| |left; apply He; by left].
    intros d [->|Hd]%He; auto. }
  wpstep. destruct (Z.eqb_spec (current (c_cpus s c)) 0) as [E0|E0].
  - wpstep. apply (Hset (S (asked s))). split; [eauto|by left].
  - apply wp_c_ask. simpl asked. destruct (within_slice env (c_now env (S (asked s))) (last_commit (c_cpus s c))) eqn:Ew.
    + apply (Hrec (S (S (asked s)))); auto. right. right. eauto.
    + apply (Hset (S (S (asked s)))). split; eauto.
Qed.

(** ** One task dealt *)

Lemma wp_C_Dequeue A s p l (Q : Z → Central → Prop) :
  central_mid A s → run_queue_ s = p :: l →
  (∀ t s', heap (c_allocator s) !! p = Some t → run_state t = kQueued → A !! p = None →
     lifted A s p (set_run_state kRunnable t) s' → heap (c_allocator s') = <[p := set_run_state kRunnable t]> (heap (c_allocator s)) →
     run_queue_ s' = l → yielding_tasks_ s' = yielding_tasks_ s → c_cpus s' = c_cpus s → Q p s') →
  wp C_Dequeue s Q.
Proof.
  intros Hi Hl HQ. assert (p ∈ c_queues s CRun) as Hin by (simpl; rewrite Hl; by left).
  destruct (mid_live env A s p CRun Hi Hin) as (t & Hp & Hpl).
  assert (A !! p = None ∧ run_state t = kQueued) as [HA Hst].
  { unfold adj1, central_place in Hpl. destruct (A !! p); simpl in Hpl; [done|]. split; [done|].
    destruct (run_state t); try done. by destruct (cpu t). }
  unfold C_Dequeue. wpstep. wpstep. rewrite Hl. wpstep. eapply wp_task; [done|]. wpstep. wpstep; [by apply bool_decide_eq_true|].
  wpstep. eapply wp_upd; [done|]. wpstep. wpstep. wpstep. eapply HQ; try done.
  apply (c_lift_from env A s p t); try done; simpl.
  - rewrite Hl. rewrite others_cons_self. symmetry. apply others_notin.
    pose proof (proj2 (cm_rest _ _ _ Hi) CRun) as Hnd. simpl in Hnd. rewrite Hl in Hnd. by apply NoDup_cons in Hnd as [? _].
  - symmetry. apply (mid_others env A s p t CYield Hi Hp). by rewrite Hpl.
  - intros c. rewrite (cur_without env A s p t) by (first [done|by rewrite Hpl]). by rewrite set_current_id.
Qed.

(** The state after the task [p] got the slot of [c], whose old task goes to
    the back of the queue. *)
Definition requeued (s : Central) (q : Z) : gmap Z CTask :=
  match heap (c_allocator s) !! q with
  | Some u => if q =? 0 then heap (c_allocator s) else <[q := set_run_state kQueued u]> (heap (c_allocator s))
  | None => heap (c_allocator s)
  end.

Record assigned_to (A : gmap Z Z) (s : Central) (p c : Z) (s' : Central) : Prop := {
  at_inv : central_mid (<[p := c]> A) s';
  at_heap : heap (c_allocator s') = requeued s (current (c_cpus s c));
  at_map : task_map_ (c_allocator s') = task_map_ (c_allocator s);
  at_run : run_queue_ s' = run_queue_ s ++ slot_list (current (c_cpus s c));
  at_yield : yielding_tasks_ s' = yielding_tasks_ s;
  at_cpus : c_cpus s' = <[c := set_current p (c_cpus s c)]> (c_cpus s);
  at_num : num_tasks_ s' = num_tasks_ s;
  at_glob : global_cpu_ s' = global_cpu_ s
}.

(** The task in the slot of a CPU without an open transaction. *)
Lemma slot_task A s c :
  central_mid A s → (∀ q, A !! q ≠ Some c) → current (c_cpus s c) ≠ 0 →
  ∃ u, heap (c_allocator s) !! current (c_cpus s c) = Some u ∧ run_state u = kOnCpu ∧ cpu u = Some c ∧
    A !! current (c_cpus s c) = None.
Proof.
  intros Hi HA Hne. assert (current (c_cpus s c) ∈ c_queues s (CCur c)) as Hin by (simpl; by apply elem_of_slot).
  destruct (mid_live env A s _ _ Hi Hin) as (u & Hu & Hpl). exists u. unfold adj1, central_place in Hpl.
  destruct (A !! current (c_cpus s c)) as [d|] eqn:E; simpl in Hpl.
  - injection Hpl as ->. by destruct (HA _ E).
  - destruct (run_state u); try done. destruct (cpu u) as [z|]; [by injection Hpl as ->|done].
Qed.

Lemma wp_assign A s0 p t c s (Q : unit → Central → Prop) :
  lifted A s0 p t s → run_state t = kRunnable → enclave_cpu c → (∀ q, A !! q ≠ Some c) →
  (∀ s', assigned_to A s p c s' → Q tt s') →
  wp (whenM (negb (current (c_cpus s c) =? 0))
        (upd_task (current (c_cpus s c)) (set_run_state kRunnable) ≫= λ _, C_Enqueue (current (c_cpus s c))) ≫= λ _,
      upd_cpu c (set_current p)) s Q.
Proof using Henv.
  intros Hl Hst Hc HA HQ. pose proof Hl as [Hi Hp HAp _ _ _ _ _ _ _]. pose proof (cpu_range env Henv c Hc) as Hr.
  pose proof (mid_nonzero env A _ p _ Hi (lookup_insert_eq _ _ _)) as Hp0. wpstep.
  set (b := put_task p (set_run_state kBlocked t) s) in Hi.
  assert (∀ s1 s2, central_mid A s1 → heap (c_allocator s1) !! p = Some (set_run_state kBlocked t) →
    c_allocator s2 = put_obj p t (c_allocator s1) → current (c_cpus s1 c) = 0 →
    (∀ d, c_cpus s2 d = if decide (d = c) then set_current p (c_cpus s1 c) else c_cpus s1 d) →
    run_queue_ s2 = run_queue_ s1 → yielding_tasks_ s2 = yielding_tasks_ s1 → global_cpu_ s2 = global_cpu_ s1 →
    iterations_ s2 = iterations_ s1 → central_mid (<[p := c]> A) s2) as Hput.
  { intros s1 s2 H1 Hp1 Ea Hc1 Hcs Er Ey Eg Ei.
    apply (mid_requeue env A (<[p := c]> A) s1 p (set_run_state kBlocked t) t false); try done.
    - intros q Hne. by rewrite lookup_insert_ne.
    - rewrite lookup_insert_eq. split; eauto.
    - unfold running_ok. by rewrite Hst.
    - intros d. rewrite lookup_insert_eq. by intros [= <-].
    - assert (∀ k, others p (c_queues s1 k) = c_queues s1 k) as Hout.
      { intros k. apply (mid_others env A s1 p (set_run_state kBlocked t) k H1 Hp1). unfold adj1. by rewrite HAp. }
      intros k. unfold requeue, adj1. rewrite lookup_insert_eq, Hout. unfold central_place. simpl.
      destruct k as [| |d]; simpl; [by rewrite Er|by rewrite Ey|]. rewrite Hcs. destruct (decide (d = c)) as [->|Hne].
      + rewrite decide_True by done. simpl. rewrite Hc1. unfold slot_list. by rewrite (proj2 (Z.eqb_neq p 0)).
      + by rewrite decide_False by congruence.
    - split_and!; [|done|done]. intros d. rewrite Hcs. by destruct (decide _) as [->|]. }
  destruct (Z.eqb_spec (current (c_cpus s c)) 0) as [E0|E0]; simpl.
  - wpstep. apply wp_upd_c_cpu; [done|]. apply HQ. split; simpl; try done.
    + apply (Hput b); try done; simpl.
      * by rewrite lookup_insert_eq.
      * unfold put_obj. simpl. rewrite insert_insert_eq, insert_id by done. by destruct (c_allocator s).
      * intros d. destruct (decide (d = c)) as [->|Hne]; [by rewrite fn_lookup_insert|by rewrite fn_lookup_insert_ne].
    + unfold requeued. rewrite E0. by destruct (heap (c_allocator s) !! 0).
    + rewrite E0. simpl. by rewrite app_nil_r.
  - destruct (slot_task A b c Hi HA E0) as (u & Hu & Hsu & Hcu & HAu). simpl in Hu.
    set (q := current (c_cpus s c)) in *. change (current (c_cpus b c)) with q in HAu. assert (p ≠ q) as Hne.
    { intros <-. rewrite lookup_insert_eq in Hu. injection Hu as <-. done. }
    assert (heap (c_allocator s) !! q = Some u) as Hus by (by rewrite lookup_insert_ne in Hu).
    destruct (cm_task _ _ _ Hi q u Hu) as [Hok _]. destruct (Hok Hsu) as (_ & Hf1 & Hf2).
    wpstep. eapply wp_upd; [exact Hus|]. unfold C_Enqueue. wpstep. eapply wp_task; [simpl; apply lookup_insert_eq|].
    wpstep. wpstep; [by apply bool_decide_eq_true|]. wpstep. eapply wp_upd; [simpl; apply lookup_insert_eq|]. wpstep.
    apply wp_upd_c_cpu; [done|]. simpl. rewrite Hf1, Hf2. simpl. apply HQ.
    set (u' := set_run_state kQueued u). set (s1 := set_c_cpus (<[c := set_current 0 (c_cpus s c)]> (c_cpus s))
      (set_run_queue (run_queue_ s ++ [q]) (put_task q u' b))).
    assert (central_mid A s1) as H1.
    { apply (mid_requeue env A A b q u u' false _ Hi); try done; simpl.
      - split; [done|]. rewrite HAu. by intros [? ?].
      - intros d. by rewrite HAu.
      - assert (∀ k, k ≠ CCur c → others q (c_queues b k) = c_queues b k) as Hout.
        { intros k Hk. apply (mid_others env A b q u k Hi Hu). unfold adj1. rewrite HAu. unfold central_place.
          rewrite Hsu, Hcu. simpl. congruence. }
        intros k. unfold requeue, adj1. rewrite HAu. destruct k as [| |d]; simpl.
        + pose proof (Hout CRun ltac:(done)) as H0. simpl in H0. by rewrite H0.
        + pose proof (Hout CYield ltac:(done)) as H0. simpl in H0. by rewrite H0.
        + destruct (decide (c = d)) as [<-|Hd].
          * rewrite fn_lookup_insert. simpl. fold q. unfold slot_list at 2. rewrite (proj2 (Z.eqb_neq q 0)) by done. by rewrite others_self.
          * rewrite fn_lookup_insert_ne by done. pose proof (Hout (CCur d) ltac:(congruence)) as H0. simpl in H0. by rewrite H0.
      - split_and!; [|done|done]. intros d. simpl. destruct (decide (c = d)) as [<-|Hd];
          [by rewrite fn_lookup_insert|by rewrite fn_lookup_insert_ne]. }
    assert (∀ h : gmap Z CTask, <[q := u']> (<[q := set_run_state kRunnable u]> h) = <[q := u']> h) as Eq by (intros; apply insert_insert_eq).
    split; simpl; try done.
    + apply (Hput s1); try done; simpl.
      * rewrite lookup_insert_ne by done. by rewrite lookup_insert_eq.
      * unfold put_obj. simpl. rewrite Eq. f_equal. rewrite (insert_insert_ne _ q p) by done.
        rewrite insert_insert_eq. rewrite insert_insert_ne by done. by rewrite (insert_id _ p).
      * by rewrite fn_lookup_insert.
      * intros d. destruct (decide (d = c)) as [->|Hd]; [by rewrite !fn_lookup_insert|by rewrite !fn_lookup_insert_ne].
    + rewrite Eq. unfold requeued. fold q. rewrite Hus. by rewrite (proj2 (Z.eqb_neq q 0)).
    + unfold slot_list. fold q. by rewrite (proj2 (Z.eqb_neq q 0)).
Qed.
End deal.

(** ** The deal as a trace *)

(** The tasks that lost their CPU, in order. *)
Definition preempts (s : Central) (D : list Deal) : list Z :=
  mjoin ((λ cp : Z * Z, slot_list (current (c_cpus s cp.1))) <$> picked D).

Lemma preempts_app s D E : preempts s (D ++ E) = preempts s D ++ preempts s E.
Proof. unfold preempts. by rewrite picked_app, fmap_app, join_app. Qed.

(** Only states of tasks changed. *)
Definition same_but_state (h h' : gmap Z CTask) : Prop :=
  ∀ p, match h !! p, h' !! p with
       | Some t, Some t' => t' = set_run_state (run_state t') t
       | None, None => True
       | _, _ => False
       end.

Lemma same_refl h : same_but_state h h.
Proof. intros p. destruct (h !! p) as [t|]; [by destruct t|done]. Qed.

Lemma same_trans h1 h2 h3 : same_but_state h1 h2 → same_but_state h2 h3 → same_but_state h1 h3.
Proof.
  intros H1 H2 p. specialize (H1 p). specialize (H2 p). destruct (h1 !! p), (h2 !! p), (h3 !! p); try done.
  rewrite H2, H1. by destruct c.
Qed.

Lemma same_insert h p t r : h !! p = Some t → same_but_state h (<[p := set_run_state r t]> h).
Proof.
  intros Hp q. destruct (decide (p = q)) as [<-|Hne].
  - by rewrite Hp, lookup_insert_eq.
  - rewrite lookup_insert_ne by done. apply same_refl.
Qed.

Lemma same_at h h' p t : same_but_state h h' → h !! p = Some t → ∃ r, h' !! p = Some (set_run_state r t).
Proof. intros H Hp. specialize (H p). rewrite Hp in H. destruct (h' !! p) as [t'|]; [|done]. exists (run_state t'). by rewrite <- H. Qed.

Lemma same_at_inv h h' p t' : same_but_state h h' → h' !! p = Some t' → ∃ t, h !! p = Some t ∧ t' = set_run_state (run_state t') t.
Proof. intros H Hp. specialize (H p). rewrite Hp in H. destruct (h !! p) as [t|]; [|done]. eauto. Qed.

Lemma requeued_same s q : same_but_state (heap (c_allocator s)) (requeued s q).
Proof.
  unfold requeued. destruct (heap (c_allocator s) !! q) as [u|] eqn:Hu; [|apply same_refl].
  destruct (q =? 0); [apply same_refl|by apply same_insert].
Qed.

Section loop.
Context (env : CentralEnv) (Henv : central_env_ok env).

Notation central_mid := (central_mid env).
Notation lifted := (lifted env).
Notation placed := (placed env).
Notation enclave_cpu := (enclave_cpu env).

(** The kernel's answers about a dequeued task. *)
Definition passed_over (t : CTask) : Prop :=
  (∃ n, c_on_cpu env n (gtid t) = true) ∨ ∃ n, seqnum t ≠ c_barrier env n (gtid t).

Definition ready (t : CTask) : Prop :=
  (∃ n, c_on_cpu env n (gtid t) = false) ∧ ∃ n, seqnum t = c_barrier env n (gtid t).

Definition judged (s : Central) (d : Deal) : Prop :=
  ∃ t, heap (c_allocator s) !! d.1 = Some t ∧ match d.2 with Some _ => ready t | None => passed_over t end.

(** The state of the loop after the trace [D], from [s0] with the available
    CPUs [av0]. *)
Record deal_inv (s0 : Central) (av0 : list Z) (D : list Deal) (A : gmap Z Z) (s : Central) (av assigned : CpuList) : Prop := {
  de_mid : central_mid A s;
  de_A : ∀ p c, A !! p = Some c ↔ (c, p) ∈ picked D;
  de_av : av0 = (picked D).*1 ++ elems av;
  de_wf : cpulist_wf av ∧ cpulist_wf assigned ∧ topology_num_cpus assigned = num_cpus_ (c_topo env);
  de_assigned : ∀ c, c ∈ elems assigned ↔ c ∈ (picked D).*1;
  de_queue : run_queue_ s0 ++ preempts s0 D = D.*1 ++ run_queue_ s;
  de_yield : yielding_tasks_ s = yielding_tasks_ s0 ++ skipped D;
  de_cpus : ∀ c, c_cpus s c = match given D c with Some p => set_current p (c_cpus s0 c) | None => c_cpus s0 c end;
  de_heap : same_but_state (heap (c_allocator s0)) (heap (c_allocator s));
  de_map : task_map_ (c_allocator s) = task_map_ (c_allocator s0);
  de_num : num_tasks_ s = num_tasks_ s0;
  de_glob : global_cpu_ s = global_cpu_ s0;
  de_judged : Forall (judged s0) D
}.

Lemma deal_asked s0 av0 D A s av assigned n :
  deal_inv s0 av0 D A s av assigned → deal_inv s0 av0 D A (with_asked n s) av assigned.
Proof. intros []. split; try done. by apply mid_asked. Qed.

(** A task is passed over. *)
Lemma deal_skip s0 av0 D A s av assigned p t u s' s1 :
  deal_inv s0 av0 D A s av assigned → run_queue_ s = p :: run_queue_ s1 → 
  heap (c_allocator s) !! p = Some t → u = set_run_state kRunnable t →
  heap (c_allocator s1) = <[p := u]> (heap (c_allocator s)) → yielding_tasks_ s1 = yielding_tasks_ s →
  c_cpus s1 = c_cpus s → lifted A s p u s1 →
  placed A s p (set_run_state kYielding u) s' → passed_over t →
  deal_inv s0 av0 (D ++ [(p, None)]) A s' av assigned.
Proof.
  intros [Hmid HA Hav Hwf Has Hq Hy Hc Hh Hm Hn Hg Hj] Hrq Hp -> Eh Ey Ec Hl Hpl Hpass.
  pose proof Hl as [_ _ _ _ _ Hlr Hly _ _ _]. pose proof Hpl as [Pmid Pp Ph Pm Pr Py Pc Pn Pg].
  assert (others p (yielding_tasks_ s) = yielding_tasks_ s) as Hoy by congruence.
  assert (others p (run_queue_ s) = run_queue_ s1) as Hor by congruence.
  pose proof (li_cpus _ _ _ _ _ _ Hl) as Hlc.
  split; rewrite ?picked_app, ?skipped_app, ?preempts_app; simpl; rewrite ?app_nil_r; try done.
  - rewrite Pr. unfold requeue. simpl. rewrite Hor. 
    rewrite Hq, Hrq, fmap_app, <- app_assoc. done.
  - rewrite Py. unfold requeue. simpl. by rewrite Hoy, Hy, <- app_assoc.
  - intros c. unfold given. rewrite picked_app. simpl. rewrite app_nil_r. fold (given D c). rewrite <- Hc, Pc, <- Hlc. by rewrite Ec.
  - eapply same_trans; [exact Hh|]. intros q. destruct (decide (q = p)) as [->|Hne].
    + by rewrite Hp, Pp.
    + rewrite Ph by done. apply same_refl.
  - congruence.
  - congruence.
  - congruence.
  - apply Forall_app. split; [done|]. constructor; [|constructor]. destruct (same_at_inv _ _ _ _ Hh Hp) as (t0 & Ht0 & Et).
    exists t0. split; [done|]. assert (gtid t = gtid t0 ∧ seqnum t = seqnum t0) as [Eg Es] by (by rewrite Et).
    simpl. unfold ready, passed_over in *. by rewrite <- Eg, <- Es.
Qed.

(** A task is given the first available CPU. *)
Lemma deal_pick s0 av0 D A s av assigned p t c r av' assigned' s1 s2 s' :
  deal_inv s0 av0 D A s av assigned → NoDup av0 → run_queue_ s = p :: run_queue_ s1 → heap (c_allocator s) !! p = Some t →
  heap (c_allocator s1) = <[p := set_run_state kRunnable t]> (heap (c_allocator s)) → yielding_tasks_ s1 = yielding_tasks_ s →
  c_cpus s1 = c_cpus s → lifted A s p (set_run_state kRunnable t) s1 → s2 = with_asked (asked s2) s1 →
  elems av = c :: r → cpulist_wf av' → elems av' = r →
  cpulist_wf assigned' → topology_num_cpus assigned' = num_cpus_ (c_topo env) → (∀ j, j ∈ elems assigned' ↔ j = c ∨ j ∈ elems assigned) →
  assigned_to env A s2 p c s' → ready t → A !! p = None →
  deal_inv s0 av0 (D ++ [(p, Some c)]) (<[p := c]> A) s' av' assigned'.
Proof.
  intros [Hmid HA Hav Hwf Has Hq Hy Hc Hh Hm Hn Hg Hj] Hnd Hrq Hp Eh Ey Ec Hl E2 Eav Wav Eav' Was Nas Has' Hto Hready HAp.
  pose proof Hl as [_ _ _ _ Hlm _ _ _ Hln Hlg]. pose proof Hto as [Tmid Th Tm Tr Ty Tc Tn Tg]. rewrite E2 in Th, Tm, Tr, Ty, Tc, Tn, Tg. simpl in *.
  rewrite Eav in Hav. assert (given D c = None) as Hgc.
  { apply given_none. rewrite Hav in Hnd. apply NoDup_app in Hnd as (_ & H & _). intros Hin. apply (H c Hin). by left. }
  assert (c_cpus s c = c_cpus s0 c) as Hcc by (by rewrite Hc, Hgc).
  split; rewrite ?picked_app, ?skipped_app, ?preempts_app; simpl; rewrite ?app_nil_r; try done.
  - intros q d. rewrite elem_of_app, <- HA, list_elem_of_singleton. destruct (decide (p = q)) as [<-|Hne].
    + rewrite lookup_insert_eq, HAp. naive_solver.
    + rewrite lookup_insert_ne by done. naive_solver.
  - rewrite fmap_app. simpl. by rewrite <- app_assoc, Eav'.
  - intros d. rewrite Has', fmap_app, elem_of_app, Has. simpl. rewrite list_elem_of_singleton. tauto.
  - rewrite Tr. unfold preempts at 2. simpl. rewrite app_nil_r, Ec, Hcc. rewrite app_assoc, Hq, Hrq, fmap_app. simpl.
    by rewrite <- !app_assoc.
  - by rewrite Ty, Ey.
  - intros d. rewrite Tc. unfold given. rewrite picked_app. simpl. destruct (decide (c = d)) as [<-|Hne].
    + rewrite fn_lookup_insert, Ec, Hcc. rewrite list_to_map_app. fold (given D c). rewrite lookup_union_r by exact Hgc.
      simpl. by rewrite lookup_insert_eq.
    + rewrite fn_lookup_insert_ne by done. rewrite Ec, Hc. rewrite list_to_map_app. unfold given.
      destruct ((list_to_map (picked D) : gmap Z Z) !! d) as [x|] eqn:Ed.
      * by rewrite (lookup_union_Some_l _ _ _ _ Ed).
      * rewrite lookup_union_r by done. simpl. by rewrite lookup_insert_ne.
  - rewrite Th. eapply same_trans; [exact Hh|]. eapply (same_trans _ (heap (c_allocator s1))); [rewrite Eh; by apply same_insert|].
    apply (requeued_same (with_asked (asked s2) s1)).
  - congruence.
  - congruence.
  - congruence.
  - apply Forall_app. split; [done|]. constructor; [|constructor]. destruct (same_at_inv _ _ _ _ Hh Hp) as (t0 & Ht0 & Et).
    exists t0. split; [done|]. assert (gtid t = gtid t0 ∧ seqnum t = seqnum t0) as [Eg Es] by (by rewrite Et).
    simpl. unfold ready, passed_over in *. by rewrite <- Eg, <- Es.
Qed.

Lemma log_lifted A s0 p t s e : lifted A s0 p t s → lifted A s0 p t (add_event e s).
Proof. intros [Hi Hp HA Hh Hm Hr Hy Hc Hn Hg]. split; try done. by apply (mid_frame env A _ _ Hi). Qed.

Lemma deal_log s0 av0 D A s av assigned e :
  deal_inv s0 av0 D A s av assigned → deal_inv s0 av0 D A (add_event e s) av assigned.
Proof. intros []. split; try done. by apply (mid_frame env A s). Qed.

Lemma wp_deal_loop fuel s0 av0 D A s av assigned :
  deal_inv s0 av0 D A s av assigned → NoDup av0 → (∀ c, c ∈ av0 → enclave_cpu c) →
  (length (elems av) + length (run_queue_ s) < fuel)%nat →
  wp (deal_loop env fuel av assigned) s (λ assigned' s',
    ∃ D' A' av', deal_inv s0 av0 D' A' s' av' assigned' ∧ (elems av' = [] ∨ run_queue_ s' = [])).
Proof using Henv.
  revert D A s av assigned. induction fuel as [|fuel IH]; intros D A s av assigned Hd Hnd Henc Hfuel; [lia|]. simpl.
  pose proof (de_wf _ _ _ _ _ _ _ Hd) as (Wav & Was & Nas). pose proof (de_mid _ _ _ _ _ _ _ Hd) as Hmid.
  rewrite CpuMap_Empty_spec by done. apply wp_lift_ok. case_bool_decide as Eav.
  { apply wp_ret. exists D, A, av. auto. }
  destruct (run_queue_ s) as [|p l] eqn:Hrq.
  { unfold C_Dequeue. do 3 wpstep. rewrite Hrq. wpstep. simpl. wpstep. exists D, A, av. auto. }
  wpstep. eapply wp_C_Dequeue; [exact Hmid|exact Hrq|]. intros t s1 Hp Hst HAp Hl1 Eh Er Ey Ec.
  pose proof (mid_nonzero env A s p t Hmid Hp) as Hp0. rewrite (proj2 (Z.eqb_neq p 0)) by done.
  wpstep. eapply wp_task; [apply (li_at _ _ _ _ _ _ Hl1)|]. wpstep. apply wp_c_ask. wpstep. simpl gtid. simpl seqnum.
  assert (∀ n, passed_over t → wp (C_Yield p ≫= λ _, deal_loop env fuel av assigned) (with_asked n s1)
    (λ assigned' s', ∃ D' A' av', deal_inv s0 av0 D' A' s' av' assigned' ∧ (elems av' = [] ∨ run_queue_ s' = []))) as Hskip.
  { intros n Hpass. wpstep. eapply (wp_C_Yield env A s p); [by apply lifted_asked|by left|]. intros s2 Hpl.
    assert (run_queue_ s2 = l) as Hl2.
    { rewrite (pl_run _ _ _ _ _ _ Hpl). unfold requeue. simpl. rewrite <- (li_run _ _ _ _ _ _ Hl1). done. }
    eapply IH; [|done|done|rewrite Hl2; simpl in Hfuel; lia].
    eapply (deal_skip s0 av0 D A s av assigned p t _ s2 s1); try done. by rewrite Hrq, Er. }
  destruct (c_on_cpu env (asked s1) (gtid t)) eqn:Eon.
  { wpstep. apply (Hskip (S (asked s1))). left. eauto. }
  apply wp_c_ask. simpl asked. destruct (Z.eqb_spec (seqnum t) (c_barrier env (S (asked s1)) (gtid t))) as [Eb|Eb]; simpl.
  2: { apply (Hskip (S (S (asked s1)))). right. eauto. }
  rewrite Front_spec by done. apply wp_lift_ok. destruct (elems av) as [|c r] eqn:Ee; [done|]. simpl.
  assert (c ∈ av0) as Hcav by (rewrite (de_av _ _ _ _ _ _ _ Hd), Ee; apply elem_of_app; right; by left).
  pose proof (Henc c Hcav) as Hc. pose proof (c_enclave_range env c Henv Hc) as Hr.
  set (s2 := with_asked (S (S (asked s1))) s1). change (tick (tick s1)) with s2.
  assert (lifted A s p (set_run_state kRunnable t) s2) as Hl2 by (by apply lifted_asked).
  wpstep. apply wp_c_cpu; [lia|].
  assert (∀ q, A !! q ≠ Some c) as HAc.
  { intros q E%(de_A _ _ _ _ _ _ _ Hd). rewrite (de_av _ _ _ _ _ _ _ Hd), Ee in Hnd. apply NoDup_app in Hnd as (_ & H & _).
    apply (H c); [|by left]. apply list_elem_of_fmap. by exists (c, q). }
  assert (∀ (m1 : M Central unit) (m2 : M Central unit) (m3 : M Central CpuList) s Q,
    wp (m1 ≫= λ _, m2) s (λ _ s', wp m3 s' Q) → wp (m1 ≫= λ _, m2 ≫= λ _, m3) s Q) as Hassoc.
  { intros m1 m2 m3 s' Q H. unfold wp, mbind, M_bind in *. destruct (m1 s') as [[a s'']|]; [|done]. by destruct (m2 s'') as [[b s3]|]. }
  apply Hassoc. eapply (wp_assign env Henv A s p); [exact Hl2|done|done|exact HAc|]. intros s3 Hto.
  destruct (elems_clear av c r Wav Ee) as (av' & -> & Wav' & Eav'). apply wp_lift_ok.
  destruct (elems_set assigned c Was ltac:(lia)) as (assigned' & -> & Was' & Nas' & Has'). apply wp_lift_ok. wpstep. wpstep.
  eapply (IH (D ++ [(p, Some c)]) (<[p := c]> A)); [|done|done|].
  - apply deal_log. eapply (deal_pick s0 av0 D A s av assigned p t c r av' assigned' s1 s2 s3); try done; [by rewrite Hrq, Er|congruence|].
    split; eauto.
  - simpl. rewrite Eav', (at_run _ _ _ _ _ _ Hto). simpl. rewrite length_app, Er. simpl in Hfuel.
    unfold slot_list. destruct (_ =? 0); simpl; lia.
Qed.
End loop.
