(* ===== verification/CentralPass.v ===== *)
(** * CentralPass: a whole scheduling pass of the centralized FIFO agent

    The commit of the open transactions and the return of the tasks that were
    passed over; then [GlobalSchedule] as a whole, against the trace of its deal.

    [GlobalSchedule] of the centralized FIFO agent as a whole.

    A pass from a quiet state to a quiet state, against the trace of its deal. *)

From S2P Require Import Prelude Outcome CpuMap CpuMapSpec Topology TopologySpec Dispatch Placement Deals Central.
From S2P Require Import CentralInv CentralMessages CentralDeal.
From stdpp Require Import gmap functions sorting.
From Stdlib Require Import ZArith Lia.

Local Open Scope Z_scope.

(** Every task keeps its gtid and sequence number, and its flags unless it is
    in [X]. *)
Definition kept (X : list Z) (h h' : gmap Z CTask) : Prop :=
  ∀ p, match h !! p, h' !! p with
       | Some t, Some t' => gtid t' = gtid t ∧ seqnum t' = seqnum t ∧ (p ∉ X → boosted t' = boosted t)
       | None, None => True
       | _, _ => False
       end.

Lemma kept_refl X h : kept X h h.
Proof. intros p. by destruct (h !! p). Qed.

Lemma kept_trans X Y h1 h2 h3 : kept X h1 h2 → kept Y h2 h3 → kept (X ++ Y) h1 h3.
Proof.
  intros H1 H2 p. specialize (H1 p). specialize (H2 p). destruct (h1 !! p), (h2 !! p), (h3 !! p); try done.
  destruct H1 as (? & ? & H1), H2 as (? & ? & H2). rewrite not_elem_of_app. split_and!; [congruence..|]. intros [? ?].
  rewrite H2 by done. auto.
Qed.

Lemma kept_insert X h p t t' :
  h !! p = Some t → gtid t' = gtid t → seqnum t' = seqnum t → p ∈ X ∨ boosted t' = boosted t → kept X h (<[p := t']> h).
Proof.
  intros Hp Hg Hs Hb q. destruct (decide (p = q)) as [<-|Hne].
  - rewrite Hp, lookup_insert_eq. split_and!; [done..|]. by destruct Hb.
  - rewrite lookup_insert_ne by done. apply kept_refl.
Qed.

Lemma kept_same X h h' : same_but_state h h' → kept X h h'.
Proof.
  intros H p. specialize (H p). destruct (h !! p), (h' !! p); try done. by rewrite H.
Qed.

Definition boosted_at (h : gmap Z CTask) (p : Z) : bool := match h !! p with Some t => boosted t | None => false end.

Lemma kept_boosted X h h' p : kept X h h' → p ∉ X → boosted_at h' p = boosted_at h p.
Proof. intros H Hp. specialize (H p). unfold boosted_at. destruct (h !! p), (h' !! p); try done. naive_solver. Qed.

(** The tasks of [ys] enter the queue one after the other. *)
Definition enter_all (h : gmap Z CTask) (q ys : list Z) : list Z :=
  foldl (λ q p, if boosted_at h p then p :: q else q ++ [p]) q ys.

Lemma enter_all_kept X h h' q ys : kept X h h' → (∀ p, p ∈ ys → p ∉ X) → enter_all h' q ys = enter_all h q ys.
Proof.
  intros H. revert q. induction ys as [|p ys IH]; intros q Hys; [done|]. simpl.
  rewrite (kept_boosted X h h') by (first [done|apply Hys; by left]). apply IH. intros r Hr. apply Hys. by right.
Qed.

(** The tasks whose transaction failed. *)
Definition failed (ok : Z → bool) (P : list (Z * Z)) : list Z := (filter (λ cp : Z * Z, ok cp.1 = false) P).*2.

Lemma failed_cons ok c p P : failed ok ((c, p) :: P) = (if ok c then [] else [p]) ++ failed ok P.
Proof.
  unfold failed. rewrite filter_cons. simpl. by destruct (ok c).
Qed.

Lemma failed_ext ok ok' P : (∀ c, c ∈ P.*1 → ok c = ok' c) → failed ok P = failed ok' P.
Proof.
  induction P as [|[c p] P IH]; intros H; [done|]. rewrite !failed_cons. rewrite (H c) by by left.
  f_equal. apply IH. intros d Hd. apply H. by right.
Qed.

Section pass.
Context (env : CentralEnv) (Henv : central_env_ok env).

Notation central_mid := (central_mid env).
Notation central_inv := (central_inv env).
Notation enclave_cpu := (enclave_cpu env).

(** ** Commit *)

Record committed (A : gmap Z Z) (s : Central) (c p : Z) (ok : bool) (s' : Central) : Prop := {
  cc_mid : central_mid (delete p A) s';
  cc_kept : kept [p] (heap (c_allocator s)) (heap (c_allocator s'));
  cc_map : task_map_ (c_allocator s') = task_map_ (c_allocator s);
  cc_run : run_queue_ s' = (if ok then [] else [p]) ++ run_queue_ s;
  cc_yield : yielding_tasks_ s' = yielding_tasks_ s;
  cc_cpus : ∀ d, current (c_cpus s' d) = if (d =? c) && negb ok then 0 else current (c_cpus s d);
  cc_num : num_tasks_ s' = num_tasks_ s;
  cc_glob : global_cpu_ s' = global_cpu_ s;
  cc_ok : ∀ t, heap (c_allocator s) !! p = Some t → ok = c_commit env (asked s) c (gtid t);
  cc_asked : asked s' = S (asked s)
}.

Lemma assigned_slot A s p c :
  central_mid A s → A !! p = Some c →
  ∃ t, heap (c_allocator s) !! p = Some t ∧ run_state t = kRunnable ∧ current (c_cpus s c) = p ∧ enclave_cpu c.
Proof.
  intros Hi HA. destruct (cm_assigned _ _ _ Hi p c HA) as [Hc [t Hp]]. exists t.
  destruct (cm_task _ _ _ Hi p t Hp) as [_ Hst]. assert (p ∈ c_queues s (CCur c)) as Hin.
  { apply (mid_in env A s p t); [done..|]. unfold adj1. by rewrite HA. }
  simpl in Hin. apply elem_of_slot in Hin as [_ ->]. split_and!; [done|apply Hst; eauto|done..].
Qed.

Lemma wp_commit_one A s c p :
  central_mid A s → A !! p = Some c → wp (commit_one env c) s (λ _ s', ∃ ok, committed A s c p ok s').
Proof using Henv.
  intros Hi HA. destruct (assigned_slot A s p c Hi HA) as (t & Hp & Hst & Hcur & Hc). pose proof (cpu_range env Henv c Hc) as Hr.
  pose proof (mid_nonzero env A s p t Hi Hp) as Hp0.
  assert (central_place (adj1 A p t) = Some (CCur c)) as Hpl by (unfold adj1; by rewrite HA).
  assert (adj1 (delete p A) p = λ u, u) as Hadj by (unfold adj1; by rewrite lookup_delete_eq).
  assert (∀ k, k ≠ CCur c → others p (c_queues s k) = c_queues s k) as Hout.
  { intros k Hk. apply (mid_others env A s p t k Hi Hp). rewrite Hpl. congruence. }
  pose proof (Hout CRun ltac:(done)) as Hrun. pose proof (Hout CYield ltac:(done)) as Hy. simpl in Hrun, Hy.
  unfold commit_one. wpstep. apply wp_c_cpu; [done|]. rewrite Hcur. wpstep. eapply wp_task; [done|]. wpstep. apply wp_c_ask.
  destruct (c_commit env (asked s) c (gtid t)) eqn:Eok.
  - unfold C_TaskOnCpu. wpstep. apply wp_c_cpu; [done|]. wpstep. wpstep; [simpl; rewrite Hcur; apply Z.eqb_refl|].
    eapply wp_upd; [exact Hp|]. exists true. split; simpl; try done; [..|by intros u [= <-]%(eq_trans (eq_sym Hp))].
    + apply (mid_requeue env A (delete p A) s p t (set_prio_boost false (set_preempted false (set_cpu c (set_run_state kOnCpu t)))) false);
        rewrite ?Hadj; try done; simpl.
      * intros q Hne. by rewrite lookup_delete_ne.
      * rewrite lookup_delete_eq. split; [done|by intros [? ?]].
      * intros _. simpl. eauto.
      * intros d. by rewrite lookup_delete_eq.
      * intros k. unfold requeue, central_place. simpl. destruct k as [| |d]; simpl; [done..|].
        destruct (decide (c = d)) as [<-|Hne].
        -- rewrite decide_True, Hcur by done. unfold slot_list. rewrite (proj2 (Z.eqb_neq p 0)) by done. by rewrite others_self.
        -- rewrite decide_False by congruence. symmetry. apply (Hout (CCur d)). congruence.
    + apply (kept_insert _ _ p t); try done. left. by left.
    + intros d. by rewrite andb_false_r.
  - wpstep. eapply wp_upd; [exact Hp|]. unfold C_Enqueue. wpstep. wpstep. eapply wp_task; [simpl; apply lookup_insert_eq|].
    wpstep. wpstep; [simpl; by apply bool_decide_eq_true|]. wpstep. eapply wp_upd; [simpl; apply lookup_insert_eq|]. wpstep.
    apply wp_upd_c_cpu; [done|]. simpl. exists false.
    split; simpl; try done; [..|by intros u [= <-]%(eq_trans (eq_sym Hp))].
    + apply (mid_requeue env A (delete p A) s p t (set_run_state kQueued (set_prio_boost true t)) true);
        rewrite ?Hadj; try done; simpl.
      * intros q Hne. by rewrite lookup_delete_ne.
      * rewrite lookup_delete_eq. split; [done|by intros [? ?]].
      * intros d. by rewrite lookup_delete_eq.
      * unfold put_obj. simpl. by rewrite insert_insert_eq.
      * intros k. unfold requeue, central_place. simpl. destruct k as [| |d]; simpl; [by rewrite Hrun|done|].
        destruct (decide (c = d)) as [<-|Hne].
        -- rewrite fn_lookup_insert, Hcur. simpl. unfold slot_list. rewrite (proj2 (Z.eqb_neq p 0)) by done. by rewrite others_self.
        -- rewrite fn_lookup_insert_ne by done. symmetry. apply (Hout (CCur d)). congruence.
      * split_and!; [|done|done]. intros d. simpl. destruct (decide (c = d)) as [<-|Hne];
          [by rewrite fn_lookup_insert|by rewrite fn_lookup_insert_ne].
    + rewrite insert_insert_eq. apply (kept_insert _ _ p t); try done. left. by left.
    + intros d. rewrite andb_true_r. destruct (Z.eqb_spec d c) as [->|Hne]; [by rewrite fn_lookup_insert|].
      by rewrite fn_lookup_insert_ne.
Qed.

(** The [i]th transaction is answered after [n + i] questions. *)
Definition answered (h : gmap Z CTask) (n : nat) (P : list (Z * Z)) (ok : Z → bool) : Prop :=
  ∀ i c p t, P !! i = Some (c, p) → h !! p = Some t → ok c = c_commit env (n + i) c (gtid t).

(** All the open transactions, in the order of the CPUs. *)
Record all_committed (s : Central) (P : list (Z * Z)) (ok : Z → bool) (s' : Central) : Prop := {
  ac_mid : central_mid ∅ s';
  ac_kept : kept P.*2 (heap (c_allocator s)) (heap (c_allocator s'));
  ac_map : task_map_ (c_allocator s') = task_map_ (c_allocator s);
  ac_run : run_queue_ s' = reverse (failed ok P) ++ run_queue_ s;
  ac_yield : yielding_tasks_ s' = yielding_tasks_ s;
  ac_cpus : ∀ d, current (c_cpus s' d) = if bool_decide (d ∈ P.*1) && negb (ok d) then 0 else current (c_cpus s d);
  ac_num : num_tasks_ s' = num_tasks_ s;
  ac_glob : global_cpu_ s' = global_cpu_ s;
  ac_ok : answered (heap (c_allocator s)) (asked s) P ok;
  ac_asked : asked s' = (asked s + length P)%nat
}.

Lemma answered_cons h h' n c p P b ok :
  kept [p] h h' → c ∉ P.*1 → (∀ t, h !! p = Some t → b = c_commit env n c (gtid t)) → answered h' (S n) P ok →
  answered h n ((c, p) :: P) (λ d, if d =? c then b else ok d).
Proof.
  intros Hk Hc Hb Hok [|i] d q t Hi Hq; simpl in Hi.
  - injection Hi as <- <-. rewrite Z.eqb_refl, Nat.add_0_r. by apply Hb.
  - assert (d ≠ c) as Hne by (intros ->; apply Hc, list_elem_of_fmap; exists (c, q); by apply list_elem_of_lookup_2 in Hi).
    rewrite (proj2 (Z.eqb_neq d c)) by done. specialize (Hk q). rewrite Hq in Hk.
    destruct (h' !! q) as [u|] eqn:Hu; [|done]. destruct Hk as (Eg & _). rewrite <- Eg, Nat.add_succ_r. by apply (Hok i d q u).
Qed.

Lemma wp_commit_all A s P :
  central_mid A s → (∀ p c, A !! p = Some c ↔ (c, p) ∈ P) → NoDup P.*1 →
  wp (forM P.*1 (commit_one env)) s (λ _ s', ∃ ok, all_committed s P ok s').
Proof using Henv.
  revert A s. induction P as [|[c p] P IH]; intros A s Hi HA Hnd; simpl in *.
  - apply wp_ret. assert (A = ∅) as ->.
    { apply map_eq. intros q. rewrite lookup_empty. destruct (A !! q) as [d|] eqn:E; [|done]. apply HA in E. by apply elem_of_nil in E. }
    exists (λ _, true). split; try done; try apply kept_refl; simpl; lia.
  - apply NoDup_cons in Hnd as [Hnin Hnd]. wpstep. assert (A !! p = Some c) as HAp by (apply HA; by left).
    eapply wp_mono; [by apply (wp_commit_one A s c p)|]. intros [] s1 (b & [Bm Bk Bmap Br By Bc Bn Bg Bok Bas]).
    eapply wp_mono; [apply (IH (delete p A)); [exact Bm| |exact Hnd]|].
    { intros q d. rewrite lookup_delete_Some, HA, elem_of_cons. split.
      - intros [Hne [[= -> ->]|H]]; [done|exact H].
      - intros H. split; [|by right]. intros <-. assert (A !! p = Some d) as E by (apply HA; by right).
        rewrite HAp in E. injection E as <-. apply Hnin. apply list_elem_of_fmap. by exists (c, p). }
    intros [] s2 (ok & [Cm Ck Cmap Cr Cy Cc Cn Cg Cok Cas]). exists (λ d, if d =? c then b else ok d).
    assert (∀ d, d ∈ P.*1 → d ≠ c) as Hpc by (intros d Hd ->; done).
    assert (failed (λ d, if d =? c then b else ok d) P = failed ok P) as Ef.
    { apply failed_ext. intros d Hd. by rewrite (proj2 (Z.eqb_neq d c)) by auto. }
    split; try congruence.
    + eapply (kept_trans [p]); [exact Bk|exact Ck].
    + rewrite failed_cons, Ef, Z.eqb_refl, reverse_app, <- app_assoc, Cr, Br. by destruct b.
    + intros d. rewrite Cc, Bc. destruct (Z.eqb_spec d c) as [->|Hne]; simpl.
      * rewrite (bool_decide_eq_false_2 (c ∈ P.*1)) by done. rewrite bool_decide_eq_true_2 by by left. by destruct b.
      * change (list_fmap (Z * Z)%type Z fst P) with P.*1. rewrite (bool_decide_ext (d ∈ c :: P.*1) (d ∈ P.*1)); [done|].
        rewrite elem_of_cons. naive_solver.
    + exact (answered_cons (heap (c_allocator s)) _ (asked s) c p P b ok Bk Hnin Bok (eq_ind _ (λ n, answered _ n P ok) Cok _ Bas)).
    + rewrite Cas, Bas. simpl. lia.
Qed.

(** ** The tasks that were passed over *)

(** [ys] are the tasks still to return. *)
Record returned (s : Central) (ys : list Z) (s' : Central) : Prop := {
  rt_kept : kept [] (heap (c_allocator s)) (heap (c_allocator s'));
  rt_map : task_map_ (c_allocator s') = task_map_ (c_allocator s);
  rt_run : run_queue_ s' = enter_all (heap (c_allocator s)) (run_queue_ s) ys;
  rt_yield : yielding_tasks_ s' = yielding_tasks_ s;
  rt_cpus : c_cpus s' = c_cpus s;
  rt_num : num_tasks_ s' = num_tasks_ s;
  rt_glob : global_cpu_ s' = global_cpu_ s;
  rt_asked : asked s' = asked s
}.

Lemma wp_unyield_one p ys s :
  central_mid ∅ (set_yielding (p :: ys) s) →
  wp (unyield_one p) s (λ _ s', central_mid ∅ (set_yielding ys s') ∧ returned s [p] s').
Proof using Henv.
  intros Hi. assert (p ∈ c_queues (set_yielding (p :: ys) s) CYield) as Hin by (simpl; by left).
  destruct (mid_live env ∅ _ p CYield Hi Hin) as (t & Hp & Hpl). simpl in Hp.
  pose proof (mid_nonzero env ∅ _ p t Hi Hp) as Hp0.
  assert (run_state t = kYielding) as Hst.
  { unfold adj1, central_place in Hpl. rewrite lookup_empty in Hpl. destruct (run_state t); try done. by destruct (cpu t). }
  assert (∀ k, k ≠ CYield → others p (c_queues (set_yielding (p :: ys) s) k) = c_queues (set_yielding (p :: ys) s) k) as Hout.
  { intros k Hk. apply (mid_others env ∅ _ p t k Hi Hp). rewrite Hpl. congruence. }
  assert (others p (p :: ys) = ys) as Hys.
  { rewrite others_cons_self. apply others_notin. pose proof (proj2 (cm_rest _ _ _ Hi) CYield) as Hnd.
    by apply NoDup_cons in Hnd as [? _]. }
  pose proof (Hout CRun ltac:(done)) as Hrun. simpl in Hrun.
  unfold unyield_one. wpstep. eapply wp_task; [done|]. wpstep. wpstep; [by apply bool_decide_eq_true|]. wpstep.
  eapply wp_upd; [exact Hp|]. unfold C_Enqueue. wpstep. eapply wp_task; [simpl; apply lookup_insert_eq|].
  wpstep. wpstep; [by apply bool_decide_eq_true|]. wpstep. eapply wp_upd; [simpl; apply lookup_insert_eq|]. wpstep. simpl.
  split.
  - apply (mid_requeue env ∅ ∅ _ p t (set_run_state kQueued t) (boosted t) _ Hi Hp); try done; simpl.
    + split; [done|]. rewrite lookup_empty. by intros [? ?].
    + unfold put_obj. simpl. by rewrite insert_insert_eq.
    + intros k. unfold adj1. rewrite lookup_empty. unfold requeue, central_place. simpl. destruct k as [| |d]; simpl.
      * by rewrite Hrun.
      * rewrite ?decide_False by done. by rewrite Hys.
      * rewrite ?decide_False by done. symmetry. by apply (Hout (CCur d)).
  - split; simpl; try done.
    + rewrite insert_insert_eq. apply (kept_insert _ _ p t); try done. by right.
    + unfold boosted_at. by rewrite Hp.
Qed.

Lemma wp_unyield_all ys s :
  central_mid ∅ (set_yielding ys s) →
  wp (forM ys unyield_one) s (λ _ s', central_mid ∅ (set_yielding [] s') ∧ returned s ys s').
Proof using Henv.
  revert s. induction ys as [|p ys IH]; intros s Hi; simpl.
  - apply wp_ret. split; [done|]. split; try done. apply kept_refl.
  - wpstep. eapply wp_mono; [by apply wp_unyield_one|]. intros [] s1 [H1 [Bk Bm Br By Bc Bn Bg Ba]].
    eapply wp_mono; [by apply IH|]. intros [] s2 [H2 [Ck Cm Cr Cy Cc Cn Cg Ca]]. split; [done|].
    split; try congruence.
    + by apply (kept_trans [] [] _ _ _ Bk).
    + rewrite Cr, Br, (enter_all_kept [] _ _ _ _ Bk); [done|]. intros q _ Hq. by apply elem_of_nil in Hq.
Qed.

(** The commit times. *)
Lemma wp_last_commits now cs s :
  (∀ c, c ∈ cs → enclave_cpu c) →
  wp (forM cs (λ c, upd_cpu c (set_last_commit now))) s (λ _ s',
    ∃ f, s' = set_c_cpus f s ∧ ∀ c, current (f c) = current (c_cpus s c) ∧ agent (f c) = agent (c_cpus s c) ∧
      last_commit (f c) = if bool_decide (c ∈ cs) then now else last_commit (c_cpus s c)).
Proof using Henv.
  revert s. induction cs as [|c cs IH]; intros s Hcs; simpl.
  - apply wp_ret. exists (c_cpus s). by destruct s.
  - pose proof (cpu_range env Henv c (Hcs c ltac:(by left))) as Hr. wpstep. apply wp_upd_c_cpu; [done|].
    eapply wp_mono; [apply IH; intros d Hd; apply Hcs; by right|]. intros [] s' (f & -> & Hf). exists f. split; [done|].
    intros d. destruct (Hf d) as (H1 & H2 & H3). simpl in *. rewrite H1, H2, H3. destruct (decide (c = d)) as [<-|Hne].
    + rewrite fn_lookup_insert. simpl. rewrite (bool_decide_eq_true_2 (c ∈ c :: cs)) by by left. by destruct (bool_decide _).
    + rewrite fn_lookup_insert_ne by done. split_and!; [done..|].
      rewrite (bool_decide_ext (d ∈ c :: cs) (d ∈ cs)); [done|]. rewrite elem_of_cons. naive_solver.
Qed.
End pass.

(** ** [GlobalSchedule] of the centralized FIFO agent as a whole *)

Lemma kept_size X h h' : kept X h h' → size h' = size h.
Proof.
  intros H. rewrite <- !size_dom. f_equal. apply leibniz_equiv. intros p. specialize (H p). rewrite !elem_of_dom.
  destruct (h !! p), (h' !! p); naive_solver.
Qed.

Lemma answered_kept env h h' n P ok : kept [] h h' → answered env h' n P ok → answered env h n P ok.
Proof.
  intros Hk Hok i c p t Hi Hp. specialize (Hk p). rewrite Hp in Hk. destruct (h' !! p) as [u|] eqn:Hu; [|done].
  destruct Hk as (Eg & _). rewrite <- Eg. by apply (Hok i c p u).
Qed.

Section schedule.
Context (env : CentralEnv) (Henv : central_env_ok env).

Notation central_mid := (central_mid env).
Notation central_inv := (central_inv env).
Notation enclave_cpu := (enclave_cpu env).

(** ** A pass *)

(** The trace [D] of a pass, the CPUs [av] that got no task, the tasks [rest]
    left in the queue, and the kernel's answers [ok] to the commits: the last
    questions of the pass, one per task dealt, in the order of the CPUs. *)
Record pass (s : Central) (D : list Deal) (av rest : list Z) (ok : Z → bool) (s' : Central) : Prop := {
  ps_inv : central_inv s';
  ps_sorted : StronglySorted Z.lt ((picked D).*1 ++ av);
  ps_free : ∀ c, c ∈ (picked D).*1 ++ av → enclave_cpu c ∧ c ≠ global_cpu_ s ∧ free env s c;
  ps_taken : ∀ c, enclave_cpu c → c ≠ global_cpu_ s → c ∈ (picked D).*1 ++ av ∨ taken env s c;
  ps_done : av = [] ∨ rest = [];
  ps_queue : run_queue_ s ++ preempts s D = D.*1 ++ rest;
  ps_judged : Forall (judged env s) D;
  ps_run : run_queue_ s' = enter_all (heap (c_allocator s)) (reverse (failed ok (picked D)) ++ rest) (yielding_tasks_ s ++ skipped D);
  ps_yield : yielding_tasks_ s' = [];
  ps_current : ∀ c, current (c_cpus s' c) = match given D c with Some p => if ok c then p else 0 | None => current (c_cpus s c) end;
  ps_kept : kept (picked D).*2 (heap (c_allocator s)) (heap (c_allocator s'));
  ps_map : task_map_ (c_allocator s') = task_map_ (c_allocator s);
  ps_glob : global_cpu_ s' = global_cpu_ s;
  ps_commits : ∃ n, asked s' = (n + length (picked D))%nat ∧ answered env (heap (c_allocator s)) n (picked D) ok
}.

(** The commit times do not matter to the invariant. *)
Lemma wp_stamp A s assigned as_ (Q : unit → Central → Prop) :
  central_mid A s → cpulist_wf assigned → elems assigned = as_ → (∀ c, c ∈ as_ → enclave_cpu c) →
  (∀ s', central_mid A s' → c_allocator s' = c_allocator s → run_queue_ s' = run_queue_ s →
     yielding_tasks_ s' = yielding_tasks_ s → num_tasks_ s' = num_tasks_ s → global_cpu_ s' = global_cpu_ s →
     (∀ c, current (c_cpus s' c) = current (c_cpus s c)) → Q tt s') →
  wp (whenM (negb (bool_decide (elems assigned = [])))
       (modify (add_event (CEvCommit as_)) ≫= λ _, ask (c_now env) ≫= λ now,
        forM as_ (λ c, upd_cpu c (set_last_commit now)))) s Q.
Proof using Henv.
  intros Hi Hwf <- Hc HQ. case_bool_decide as E; simpl; [wpstep; by apply HQ|]. wpstep. wpstep. wpstep. apply wp_c_ask.
  eapply wp_mono; [by apply (wp_last_commits env Henv)|]. intros [] s' (f & -> & Hf). apply HQ; try done.
  - apply (mid_frame env A s); [done..| |].
    + intros [| |c]; simpl; [done..|]. by rewrite (proj1 (Hf c)).
    + split_and!; [|done..]. intros c. simpl. apply Hf.
  - intros c. simpl. apply Hf.
Qed.

(** The last part of a pass. *)
Lemma wp_return_all s :
  central_mid ∅ s →
  wp (match yielding_tasks_ s with
      | [] => mret tt
      | _ => forM (yielding_tasks_ s) unyield_one ≫= λ _, modify (set_yielding [])
      end) s (λ _ s', ∃ s1, s' = set_yielding [] s1 ∧ central_mid ∅ s' ∧ returned s (yielding_tasks_ s) s1).
Proof using Henv.
  intros Hi. destruct (yielding_tasks_ s) as [|p ys] eqn:E.
  - apply wp_ret. exists s. assert (set_yielding [] s = s) as Es by (destruct s; simpl in *; by rewrite E).
    rewrite Es. split_and!; [done|done|]. split; try done. apply kept_refl.
  - wpstep. eapply wp_mono; [apply (wp_unyield_all env Henv)|].
    { rewrite <- E. by destruct s. }
    intros [] s1 [H1 H2]. wpstep. by exists s1.
Qed.

Lemma picked_other A s p P :
  central_mid A s → (∀ p c, A !! p = Some c ↔ (c, p) ∈ P) → p ∈ yielding_tasks_ s → p ∉ P.*2.
Proof.
  intros Hi HA Hp Hin. apply list_elem_of_fmap in Hin as ([c q] & -> & Hin). apply HA in Hin.
  destruct (mid_live env A s _ CYield Hi Hp) as (t & _ & Hpl). unfold adj1 in Hpl. simpl in Hpl. by rewrite Hin in Hpl.
Qed.

Lemma wp_GlobalSchedule s :
  central_inv s → current (c_cpus s (global_cpu_ s)) = 0 →
  wp (GlobalSchedule env) s (λ _ s', ∃ D av rest ok, pass s D av rest ok s').
Proof using Henv.
  intros [Hi Hcount] Hg0. pose proof (ce_wf _ Henv) as Hwf. pose proof (ce_num _ Henv) as Hnum. pose proof (wf_cpus _ Hwf).
  destruct (CpuMap_new_spec (num_cpus_ (c_topo env))) as (e & Ee & We & Ne & Be); [lia|].
  assert (elems e = []) as He.
  { apply elem_of_nil_inv. intros c Hc%elem_of_elems; [|done]. destruct Hc as [_ Hb]. by rewrite Be in Hb. }
  unfold GlobalSchedule. wpstep. wpstep. unfold EmptyCpuList. rewrite Ee. do 2 apply wp_lift_ok.
  rewrite iterate_spec by done. apply wp_lift_ok. wpstep.
  eapply wp_mono; [apply (wp_available_loop env Henv (global_cpu_ s) (elems (c_enclave env)) e s); try done; apply (cm_agent _ _ _ Hi)|].
  intros av0 s1 ((n & ->) & W0 & N0 & _ & Hfree & Htaken). rewrite He in Hfree.
  assert (∀ c, c ∈ elems av0 → enclave_cpu c ∧ c ≠ global_cpu_ s ∧ free env s c) as Hav0.
  { intros c Hc. destruct (Hfree c Hc) as [?%elem_of_nil|?]; [done|]. done. }
  pose proof (elems_from_sorted av0 0) as Hsorted. fold (elems av0) in Hsorted. pose proof (sorted_lt_nodup _ Hsorted) as Hnd.
  wpstep. wpstep. wpstep.
  eapply wp_mono; [eapply (wp_deal_loop env Henv _ s (elems av0) [] ∅ (with_asked n s) av0 e)|].
  { split; simpl; try done; [by apply mid_asked|by intros p c; rewrite lookup_empty, elem_of_nil|by intros c; rewrite He|by rewrite !app_nil_r|by rewrite app_nil_r|apply same_refl]. }
  { done. }
  { intros c Hc. by apply Hav0. }
  { unfold deal_fuel. simpl. assert (length (elems av0) ≤ length (elems (c_enclave env)))%nat; [|lia].
    apply submseteq_length, NoDup_submseteq; [done|]. intros c Hc. by apply Hav0. }
  intros assigned s2 (D & A & av & [Dmid DA Dav (Wav & Was & Nas) Das Dq Dy Dc Dh Dm Dn Dg Dj] & Hdone).
  assert (elems assigned = (picked D).*1) as Eas.
  { apply sorted_lt_unique; [apply elems_from_sorted| |done]. rewrite Dav in Hsorted. by apply StronglySorted_app_1_l in Hsorted. }
  rewrite iterate_spec by done. apply wp_lift_ok. rewrite CpuMap_Empty_spec by done. apply wp_lift_ok. wpstep.
  assert (∀ c, c ∈ (picked D).*1 → c ∈ elems av0) as Hsub by (intros c Hc; rewrite Dav; apply elem_of_app; by left).
  assert (NoDup (picked D).*1) as HndP by (rewrite Dav in Hnd; by apply NoDup_app in Hnd as [? _]).
  eapply (wp_stamp A); [done..|by intros c Hc; apply Hav0, Hsub; rewrite <- Eas|].
  intros s3 Hmid3 Ea3 Er3 Ey3 En3 Eg3 Ec3. rewrite Eas. wpstep.
  eapply wp_mono; [by apply (wp_commit_all env Henv A s3 (picked D))|].
  intros [] s4 (ok & [Cm Ck Cmap Cr Cy Cc Cn Cg Cok Cas]). wpstep. wpstep.
  eapply wp_mono; [by apply wp_return_all|]. intros [] s' (s5 & -> & Rm & [Rk Rmap Rr Ry Rc Rn Rg Ras]). exists D, (elems av), (run_queue_ s2), ok.
  assert (kept [] (heap (c_allocator s)) (heap (c_allocator s3))) as Hk3 by (rewrite Ea3; by apply kept_same).
  assert (kept (picked D).*2 (heap (c_allocator s)) (heap (c_allocator s4))) as Hk4 by (by apply (kept_trans [] _ _ _ _ Hk3)).
  assert (kept (picked D).*2 (heap (c_allocator s)) (heap (c_allocator s5))) as Hk5.
  { rewrite <- (app_nil_r (picked D).*2). by eapply kept_trans. }
  assert (yielding_tasks_ s4 = yielding_tasks_ s ++ skipped D) as Ey4 by congruence.
  split; simpl; try done; try congruence.
  - split; [exact Rm|]. unfold counted. simpl. rewrite (kept_size _ _ _ Hk5). rewrite Rn, Cn, En3, Dn. exact Hcount.
  - intros c Hc. apply Hav0. by rewrite Dav.
  - intros c Hc Hne. rewrite <- Dav. by apply Htaken.
  - rewrite Rr, Ey4, Cr, Er3. apply (enter_all_kept (picked D).*2 _ _ _ _ Hk4). intros p Hp.
    apply (picked_other A s3 p (picked D) Hmid3 DA). by rewrite <- Cy, Ey4.
  - intros c. rewrite Rc, Cc, Ec3, Dc. destruct (given D c) as [p|] eqn:Eg.
    + apply given_in in Eg; [|done]. rewrite bool_decide_eq_true_2 by (apply list_elem_of_fmap; by exists (c, p)).
      simpl. by destruct (ok c).
    + apply given_none in Eg. by rewrite bool_decide_eq_false_2.
  - exists (asked s3). split; [congruence|]. by apply (answered_kept env _ _ _ _ _ Hk3).
Qed.
End schedule.
