(* ===== verification/CentralSystem.v ===== *)
(** * CentralSystem: the centralized FIFO agent as a transition system

    The start of the agent, the search for another global CPU, and the steps:
    messages, scheduling passes and moves of the global CPU. *)

From S2P Require Import Prelude Outcome CpuMap CpuMapSpec.
From S2P Require Import Topology TopologySpec Dispatch Placement Deals.
From S2P Require Import Central CentralInv CentralMessages CentralDeal CentralPass.
From stdpp Require Import gmap functions sorting.
From Stdlib Require Import ZArith Lia.

Local Open Scope Z_scope.

Section system.
Context (env : CentralEnv) (Henv : central_env_ok env).

Notation central_mid := (central_mid env).
Notation central_inv := (central_inv env).
Notation enclave_cpu := (enclave_cpu env).

(** ** The global CPU *)

(** The answer of the search: the first CPU of [pick_order] that is available. *)
Definition next_global (s : Central) : option Z * nat :=
  first_avail (λ c, agent (c_cpus s c)) (c_avail env) (asked s) (pick_order (c_topo env) (c_enclave env) (global_cpu_ s)).

(** The global CPU becomes [c], whose agent is woken. *)
Definition moved_to (s : Central) (c : Z) (n : nat) (s' : Central) : Prop :=
  ∃ r, cpu_rep (c_topo env) c = Ok r ∧ s' = add_event (CEvPing c) (set_global (rep_core r) c (with_asked n s)).

Lemma iter_tick s k : Nat.iter k tick s = with_asked (k + asked s) s.
Proof. induction k as [|k IH]; [by destruct s|]. simpl. by rewrite IH. Qed.

Lemma inv_asked s n : central_inv s → central_inv (with_asked n s).
Proof. intros [Hi Hc]. split; [by apply mid_asked|exact Hc]. Qed.

Lemma Available_spec c s :
  0 ≤ c < MAX_CPUS → Available env c s = Ok (if agent (c_cpus s c) then (c_avail env (asked s) c, tick s) else (false, s)).
Proof.
  intros Hr. unfold Available, c_cpu, mbind, M_bind. rewrite (proj2 (Z.leb_le 0 c)), (proj2 (Z.ltb_lt c MAX_CPUS)) by lia.
  simpl. by destruct (agent _).
Qed.

Lemma pick_order_ne t l g c : c ∈ pick_order t l g → c ≠ g.
Proof.
  unfold pick_order. destruct (cpus_ t !! Z.to_nat g); intros Hin; [|by apply elem_of_nil in Hin].
  by apply list_elem_of_filter in Hin as [? _].
Qed.

Lemma next_global_some s c n :
  central_inv s → next_global s = (Some c, n) → enclave_cpu c ∧ c ≠ global_cpu_ s.
Proof.
  intros [Hi _] E. apply first_avail_some in E as (Hin & Ha & _). split; [by apply (cm_agent _ _ _ Hi)|].
  by eapply pick_order_ne.
Qed.

Lemma wp_PickNextGlobalCPU s :
  central_inv s →
  wp (PickNextGlobalCPU env (global_cpu_ s)) s (λ moved s', ∃ t n, next_global s = (t, n) ∧
    match t with Some c => moved = true ∧ moved_to s c n s' | None => moved = false ∧ s' = with_asked n s end).
Proof using Henv.
  intros Hinv. pose proof Hinv as [Hi _]. destruct (c_enclave_range env _ Henv (cm_global _ _ _ Hi)) as [Hg Hg'].
  destruct (rep_exists _ (ce_topo _ Henv) _ Hg) as (r & _ & Er).
  unfold PickNextGlobalCPU. wpstep. wpstep. rewrite Er. apply wp_lift_ok. wpstep. wpstep. rewrite (cm_iter _ _ _ Hi).
  change (negb (Z.land 0 255 =? 0)) with false. cbn [negb]. wpstep.
  apply (wp_pick_target (c_topo env) (c_enclave env) (Available env) (λ s c, agent (c_cpus s c)) (c_avail env) asked tick);
    [by apply Available_spec|done|done|by apply ce_topo|by apply ce_wf|by apply ce_num|done|].
  intros t s' (k & -> & E). rewrite iter_tick. fold (next_global s) in E. destruct t as [c|]; [|wpstep; by exists None, (k + asked s)%nat].
  destruct (next_global_some s c _ Hinv E) as [Hc Hne]. destruct (c_enclave_range env c Henv Hc) as [Hr Hr'].
  wpstep. wpstep; [by apply negb_true_iff, Z.eqb_neq|]. wpstep. apply wp_c_cpu; [lia|]. simpl c_cpus.
  assert (∀ Q : unit → Central → Prop, Q tt (with_asked (k + asked s) s) →
    wp (whenM (negb (current (c_cpus s c) =? 0)) (task_at (current (c_cpus s c)) ≫= λ prev, check (has_state kOnCpu prev)))
      (with_asked (k + asked s) s) Q) as Hprev.
  { intros Q HQ. apply wp_when; [|done]. intros E0%negb_true_iff%Z.eqb_neq.
    destruct (slot_task env ∅ s c Hi) as (u & Hu & Hst & _); [intros q; by rewrite lookup_empty|done|].
    wpstep. eapply wp_task; [exact Hu|]. wpstep; [|done]. by apply bool_decide_eq_true. }
  wpstep. apply Hprev. destruct (rep_exists _ (ce_topo _ Henv) _ Hr) as (rc & _ & Erc).
  unfold SetGlobalCPU, c_ping. wpstep. wpstep. rewrite Erc. apply wp_lift_ok. wpstep.
  rewrite (ce_agent _ Henv c Hc). repeat wpstep. exists (Some c), (k + asked s)%nat. split; [done|]. split; [done|]. by exists rc.
Qed.

Lemma moved_inv s c n s' : central_inv s → enclave_cpu c → moved_to s c n s' → central_inv s'.
Proof.
  intros [[Ha Hr Ht HA Hag Hgl Hit] Hc] Hec (r & _ & ->). split; [|exact Hc]. by split.
Qed.

(** ** The start *)

Lemma wp_EnclaveReady_loop cs s :
  (∀ c, c ∈ cs → enclave_cpu c) →
  wp (forM cs (λ c, upd_cpu c (set_agent (c_get_agent env c)) ≫= λ _, check (c_get_agent env c))) s (λ _ s',
    ∃ f, s' = set_c_cpus f s ∧ ∀ c, f c = if bool_decide (c ∈ cs) then set_agent true (c_cpus s c) else c_cpus s c).
Proof using Henv.
  revert s. induction cs as [|c cs IH]; intros s Hcs; simpl.
  - apply wp_ret. exists (c_cpus s). by destruct s.
  - assert (enclave_cpu c) as Hc by (apply Hcs; by left). rewrite (ce_agent _ Henv c Hc).
    destruct (c_enclave_range env c Henv Hc) as [Hr Hr']. wpstep. wpstep. apply wp_upd_c_cpu; [lia|]. wpstep; [done|].
    eapply wp_mono; [apply IH; intros d Hd; apply Hcs; by right|]. intros [] s' (f & -> & Hf). exists f. split; [done|].
    intros d. rewrite Hf. simpl. destruct (decide (c = d)) as [<-|Hne].
    + rewrite fn_lookup_insert. rewrite (bool_decide_eq_true_2 (c ∈ c :: cs)) by by left. by destruct (bool_decide _).
    + rewrite fn_lookup_insert_ne by done. rewrite (bool_decide_ext (d ∈ c :: cs) (d ∈ cs)); [done|].
      rewrite elem_of_cons. naive_solver.
Qed.

(** The agent starts with the given CPU if it is in the enclave, or else with
    the first one of the enclave. *)
Definition first_global (g : Z) : Z :=
  if bool_decide (g ∈ elems (c_enclave env)) then g else default 0 (head (elems (c_enclave env))).

Lemma central_start g :
  0 ≤ g < MAX_CPUS →
  ∃ s s', Central_new env g = Ok s ∧ C_EnclaveReady env s = Ok (tt, s') ∧ central_inv s' ∧ global_cpu_ s' = first_global g.
Proof using Henv.
  intros Hg. pose proof (ce_wf _ Henv) as Hwf. unfold Central_new, first_global. rewrite u32_small by (unfold MAX_CPUS in Hg; lia).
  rewrite IsSet_spec by done. cbn [mbind outcome_bind].
  assert (∃ c, (if bit (c_enclave env) g then Ok g
     else Front (c_enclave env) ≫= λ c, match c with Some c => Ok c | None => Crash CheckFailed end) = Ok c ∧ enclave_cpu c ∧
     c = if bool_decide (g ∈ elems (c_enclave env)) then g else default 0 (head (elems (c_enclave env)))) as (c & -> & Hc & Ec).
  { case_bool_decide as Hin.
    - assert (bit (c_enclave env) g = true) as -> by (apply elem_of_elems in Hin; [apply Hin|done]). by exists g.
    - destruct (bit (c_enclave env) g) eqn:Eb; [destruct Hin; apply elem_of_elems; [done|split; [lia|done]]|].
      rewrite Front_spec by done. simpl. unfold CentralInv.enclave_cpu. pose proof (ce_nonempty _ Henv) as Hne.
      destruct (elems (c_enclave env)) as [|c l]; [done|]. simpl. exists c. split_and!; [done|by left|done]. }
  cbn [mbind outcome_bind]. eexists. set (s0 := mkCentral _ _ _ _ _ _ _ _ _ _).
  assert (wp (C_EnclaveReady env) s0 (λ _ s', central_inv s' ∧ global_cpu_ s' = c)) as Hw.
  { unfold C_EnclaveReady. rewrite iterate_spec by done. apply wp_lift_ok.
    eapply wp_mono; [by apply wp_EnclaveReady_loop|]. intros [] s' (f & -> & Hf). split; [|done].
    assert (∀ d, current (f d) = 0 ∧ agent (f d) = bool_decide (d ∈ elems (c_enclave env))) as Hf'.
    { intros d. rewrite Hf. by destruct (bool_decide (d ∈ elems (c_enclave env))). }
    split; [|done]. split; simpl; try done.
    - split; [done|]. intros g' p. simpl. rewrite lookup_empty. split; [done|]. intros (t & Ht & _). by rewrite lookup_empty in Ht.
    - split.
      + intros p k. rewrite lookup_adj, lookup_empty. split; [|by intros (? & ? & _)].
        destruct k as [| |d]; simpl; rewrite ?(proj1 (Hf' d)); by intros ?%elem_of_nil.
      + intros [| |d]; simpl; rewrite ?(proj1 (Hf' d)); constructor.
    - intros d. rewrite (proj2 (Hf' d)). unfold CentralInv.enclave_cpu. by rewrite bool_decide_eq_true. }
  apply wp_ok_unit in Hw as (s' & E & Hi & Eg). exists s'. split_and!; [done|exact E|exact Hi|]. by rewrite Eg.
Qed.

(** ** Steps *)

Notation dispatch := (@DispatchMessage Central CTask _ _ (Central_ops env)).

(** The messages the kernel may send. *)
Definition c_sendable (s : Central) (m : Message) : Prop :=
  @sendable Central CTask _ (λ _, True) (λ _ _, c_msg_ok) c_cpu_msg s m.

(** What the global agent does in its loop. *)
Inductive c_step (s : Central) : Central → Prop :=
| c_step_message m s' : c_sendable s m → dispatch m s = Ok (tt, s') → c_step s s'
| c_step_schedule s' : GlobalSchedule env s = Ok (tt, s') → c_step s s'
| c_step_pick b s' : PickNextGlobalCPU env (global_cpu_ s) s = Ok (b, s') → c_step s s'.

Inductive c_reachable : Central → Prop :=
| c_reach_init g s0 s : 0 ≤ g < MAX_CPUS → Central_new env g = Ok s0 → C_EnclaveReady env s0 = Ok (tt, s) → c_reachable s
| c_reach_step s s' : c_reachable s → c_step s s' → c_reachable s'.

Lemma c_dispatch_inv s m : central_inv s → c_sendable s m → wp (dispatch m) s (λ _, central_inv).
Proof using Henv. apply (dispatch_preserves central_inv _ _ _ (Laws := Central_laws env Henv)). Qed.

(** A pass with a task on the global CPU fails its check. *)
Lemma available_loop_crash global cs av s :
  (∀ c, c ∈ cs → enclave_cpu c) → global ∈ cs → current (c_cpus s global) ≠ 0 → cpulist_wf av →
  topology_num_cpus av = num_cpus_ (c_topo env) →
  available_loop env global cs av s = Crash CheckFailed.
Proof using Henv.
  intros Hcs Hin Hcur. revert av s Hcur. induction cs as [|c cs IH]; intros av s Hcur Hwf Hnum; [by apply elem_of_nil in Hin|].
  simpl. assert (enclave_cpu c) as Hc by (apply Hcs; by left). destruct (c_enclave_range env c Henv Hc) as [Hr Hr'].
  assert (∀ d, d ∈ cs → enclave_cpu d) as Hcs' by (intros; apply Hcs; by right).
  apply crash_bind, wp_c_cpu; [lia|]. destruct (Z.eqb_spec c global) as [->|Hne].
  { by rewrite (proj2 (Z.eqb_neq _ _) Hcur). }
  assert (global ∈ cs) as Hin' by (by apply elem_of_cons in Hin as [<-|?]). specialize (IH Hcs' Hin').
  apply crash_bind. unfold wp. rewrite Available_spec by lia.
  assert (∀ s1 a, current (c_cpus s1 global) ≠ 0 →
    (if negb a then available_loop env global cs av
     else (if current (c_cpus s c) =? 0 then mret false
           else ask (λ n, within_slice env (c_now env n) (last_commit (c_cpus s c)))) ≫= λ busy : bool,
       if busy then available_loop env global cs av
       else lift (CpuList_Set c av) ≫= λ available, available_loop env global cs available) s1 = Crash CheckFailed) as H.
  { intros s1 [] Hcur1; simpl; [|by apply IH]. apply crash_bind.
    assert (∀ (busy : bool) s2, current (c_cpus s2 global) ≠ 0 →
      (if busy then available_loop env global cs av
       else lift (CpuList_Set c av) ≫= λ available, available_loop env global cs available) s2 = Crash CheckFailed) as H2.
    { intros [] s2 Hcur2; [by apply IH|]. destruct (elems_set av c Hwf ltac:(lia)) as (av' & E & W & N & _). rewrite E.
      apply crash_bind. unfold lift, wp. apply IH; [done|done|congruence]. }
    destruct (current (c_cpus s c) =? 0); [by apply H2|]. apply wp_c_ask. by apply H2. }
  destruct (agent (c_cpus s c)); by apply H.
Qed.

Lemma GlobalSchedule_crash s :
  central_inv s → current (c_cpus s (global_cpu_ s)) ≠ 0 → GlobalSchedule env s = Crash CheckFailed.
Proof using Henv.
  intros [Hi _] Hcur. pose proof (ce_wf _ Henv) as Hwf. pose proof (ce_num _ Henv) as Hnum. pose proof (wf_cpus _ Hwf).
  destruct (CpuMap_new_spec (num_cpus_ (c_topo env))) as (e & Ee & We & Ne & Be); [lia|].
  unfold GlobalSchedule. apply crash_bind, wp_gets. unfold EmptyCpuList. rewrite Ee. apply crash_bind. unfold lift at 1, wp.
  apply crash_bind. unfold lift at 1, wp. rewrite iterate_spec by done. apply crash_bind. unfold lift at 1, wp.
  unfold mbind, M_bind. rewrite available_loop_crash; [done|done| |done..]. apply (cm_global _ _ _ Hi).
Qed.

Lemma c_step_inv s s' : central_inv s → c_step s s' → central_inv s'.
Proof using Henv.
  intros Hi [m s1 Hm E|s1 E|b s1 E].
  - pose proof (c_dispatch_inv s m Hi Hm) as H. unfold wp in H. by rewrite E in H.
  - destruct (decide (current (c_cpus s (global_cpu_ s)) = 0)) as [H0|H0]; [|by rewrite GlobalSchedule_crash in E].
    pose proof (wp_GlobalSchedule env Henv s Hi H0) as H. unfold wp in H. rewrite E in H. by destruct H as (? & ? & ? & ? & []).
  - pose proof (wp_PickNextGlobalCPU s Hi) as H. unfold wp in H. rewrite E in H.
    destruct H as ([c|] & n & En & _ & Hs); [|subst; by apply inv_asked].
    eapply moved_inv; [exact Hi| |exact Hs]. by apply (next_global_some s c n).
Qed.

Lemma c_reachable_inv s : c_reachable s → central_inv s.
Proof using Henv.
  induction 1 as [g s0 s Hg E E'|]; [|by eapply c_step_inv].
  destruct (central_start g Hg) as (s1 & s2 & E1 & E2 & Hi & _). congruence.
Qed.
End system.
