(* ===== verification/CentralClaims.v ===== *)
(** * CentralClaims: what the centralized FIFO agent guarantees

    No task is lost, no step aborts but for a pass with a task on the global
    CPU, each message moves one task as an abstract transition says, a pass
    deals the queue to the available CPUs in order, and the global CPU moves to
    the first CPU of a fixed order.  First a machine to run. *)

From S2P Require Import Prelude Outcome CpuMap CpuMapSpec.
From S2P Require Import Topology TopologySpec TopologyClaims Dispatch Placement Deals.
From S2P Require Import Central CentralInv CentralMessages CentralDeal CentralPass CentralSystem.
From stdpp Require Import gmap functions sorting.
From Stdlib Require Import ZArith Lia.

Local Open Scope Z_scope.

(** ** A sample machine *)

(** Four CPUs, all available; task 8 always has a pending message, and the
    commits on CPU 3 fail. *)
Definition central_env : CentralEnv :=
  mkCentralEnv sample_topo (all_cpus_ sample_topo) fresh_addr (Some 100) (λ _, true)
    (λ _ _, true) (λ n, 10 * Z.of_nat n) (λ _ _, false) (λ _ g, if g =? 8 then 2 else 1) (λ _ c _, negb (c =? 3)).

Lemma central_list_elems : elems (all_cpus_ sample_topo) = [0; 1; 2; 3].
Proof. by vm_compute. Qed.

Lemma central_sample_ok : central_env_ok central_env.
Proof.
  split; change (c_enclave central_env) with (all_cpus_ sample_topo); try done.
  - apply sample_topo_ok.
  - apply sample_topo_ok.
  - intros a _. apply fresh_addr_ok.
Qed.

Definition c_msg (g ty sq : Z) : Message := mkMessage ty sq g 2 true false 0 false 0.

Global Instance c_msg_ok_dec t m : Decision (c_msg_ok t m).
Proof. unfold c_msg_ok. apply _. Defined.

Global Instance c_cpu_msg_dec m : Decision (c_cpu_msg m).
Proof. unfold c_cpu_msg, known_cpu_msg. apply _. Defined.

Global Instance c_sendable_dec s m : Decision (c_sendable s m).
Proof. unfold c_sendable. apply _. Defined.

(** What the global agent does, from the start with CPU 0. *)
Inductive CAct := CMessage (m : Message) | CSchedule | CPick.

Section run.
Context (env : CentralEnv).

Definition c_do (a : CAct) : M Central unit :=
  match a with
  | CMessage m => @DispatchMessage Central CTask _ _ (Central_ops env) m
  | CSchedule => GlobalSchedule env
  | CPick => gets global_cpu_ ≫= λ g, PickNextGlobalCPU env g ≫= λ _, mret tt
  end.

Definition c_allowed (a : CAct) (s : Central) : bool :=
  match a with CMessage m => bool_decide (c_sendable s m) | _ => true end.

Fixpoint c_run (acts : list CAct) (s : Central) : option Central :=
  match acts with
  | [] => Some s
  | a :: acts =>
      if c_allowed a s then match c_do a s with Ok (_, s') => c_run acts s' | Crash _ => None end else None
  end.

Definition c_start : option Central :=
  match Central_new env 0 with
  | Ok s => match C_EnclaveReady env s with Ok (_, s') => Some s' | Crash _ => None end
  | Crash _ => None
  end.

Lemma c_do_step a s s' : c_allowed a s = true → c_do a s = Ok (tt, s') → c_step env s s'.
Proof.
  destruct a as [m| |]; simpl; intros Ha E.
  - apply bool_decide_eq_true in Ha. by eapply c_step_message.
  - by eapply c_step_schedule.
  - unfold mbind, M_bind, gets in E. destruct (PickNextGlobalCPU _ _ s) as [[b s1]|] eqn:E1; [|done].
    injection E as <-. by eapply c_step_pick.
Qed.

Lemma c_run_reachable acts s s' : c_reachable env s → c_run acts s = Some s' → c_reachable env s'.
Proof.
  revert s. induction acts as [|a acts IH]; intros s Hr; simpl; [by intros [= <-]|].
  destruct (c_allowed a s) eqn:Ha; [|done]. destruct (c_do a s) as [[[] s1]|] eqn:E; [|done].
  apply IH. eapply c_reach_step; [exact Hr|by eapply c_do_step].
Qed.

Lemma c_start_reachable s : c_start = Some s → c_reachable env s.
Proof.
  unfold c_start. destruct (Central_new env 0) as [s0|] eqn:E; [|done].
  destruct (C_EnclaveReady env s0) as [[[] s1]|] eqn:E1; [|done]. intros [= <-].
  by eapply (c_reach_init _ 0).
Qed.

Definition c_at (acts : list CAct) : Central :=
  default (mkCentral (mkAllocator ∅ ∅) (λ _, mkCCpu 0 false 0) None 0 0 [] [] 0 0 []) (c_start ≫= c_run acts).

Lemma c_at_reachable acts : bool_decide (is_Some (c_start ≫= c_run acts)) = true → c_reachable env (c_at acts).
Proof.
  intros [s E]%bool_decide_eq_true. unfold c_at. rewrite E. simpl. destruct c_start as [s0|] eqn:E0; [|done].
  eapply (c_run_reachable acts s0); [by apply c_start_reachable|exact E].
Qed.
End run.

(** Four tasks arrive and a pass is made: 7 runs on CPU 1 and 9 on CPU 2. *)
Definition c_acts1 : list CAct :=
  (λ g, CMessage (c_msg g MSG_TASK_NEW 1)) <$> [7; 8; 9; 10].
Definition c_acts2 : list CAct := c_acts1 ++ [CSchedule].
(** The agent moves to CPU 2. *)
Definition c_acts3 : list CAct := c_acts2 ++ [CPick].

Lemma c_acts1_reachable : c_reachable central_env (c_at central_env c_acts1).
Proof. apply c_at_reachable. by vm_compute. Qed.

Lemma c_acts2_reachable : c_reachable central_env (c_at central_env c_acts2).
Proof. apply c_at_reachable. by vm_compute. Qed.

Lemma c_acts3_reachable : c_reachable central_env (c_at central_env c_acts3).
Proof. apply c_at_reachable. by vm_compute. Qed.

(** What the agent reads of the task at [p]. *)
Definition c_view (s : Central) (p : Z) : option (Z * RunState * option Z * Z) :=
  (λ t, (gtid t, run_state t, cpu t, seqnum t)) <$> heap (c_allocator s) !! p.

Lemma c_view_task s p v :
  c_view s p = Some v → ∃ t, heap (c_allocator s) !! p = Some t ∧ (gtid t, run_state t, cpu t, seqnum t) = v.
Proof. unfold c_view. destruct (heap (c_allocator s) !! p) as [t|]; intros [= <-]. eauto. Qed.

(** ** Where the tasks are *)

(** C20. No task is lost or duplicated: in every reachable state a live task is
    in the run queue exactly when it is queued, in the list of yielding tasks
    exactly when it is yielding, and the current task of a CPU exactly when it
    runs there; between passes no task is left merely runnable.  Neither list
    holds a task twice or a task that is gone, the allocator finds the task
    under its gtid, and [num_tasks_] is the number of live tasks, so [Empty]
    tells whether there is one. *)
Theorem central_no_task_lost (env : CentralEnv) (s : Central) (p : Z) (t : CTask) (c : Z)
    (Henv : central_env_ok env) (Hr : c_reachable env s) (Hp : heap (c_allocator s) !! p = Some t) :
  GetTask (gtid t) (c_allocator s) = Some p ∧
  run_state t ≠ kRunnable ∧
  (p ∈ run_queue_ s ↔ run_state t = kQueued) ∧
  (p ∈ yielding_tasks_ s ↔ run_state t = kYielding) ∧
  (current (c_cpus s c) = p ↔ run_state t = kOnCpu ∧ cpu t = Some c) ∧
  NoDup (run_queue_ s) ∧ NoDup (yielding_tasks_ s) ∧
  (∀ q, q ∈ run_queue_ s ∨ q ∈ yielding_tasks_ s ∨ (q = current (c_cpus s c) ∧ q ≠ 0) → is_Some (heap (c_allocator s) !! q)) ∧
  num_tasks_ s = s32 (Z.of_nat (size (heap (c_allocator s)))) ∧
  (Z.of_nat (size (heap (c_allocator s))) < 2 ^ 31 → C_Empty s = false).
Proof.
  destruct (c_reachable_inv env Henv s Hr) as [Hi Hc]. pose proof Hi as [[_ Ha] [Hin Hnd] Ht _ _ _ _]. rewrite adj_empty in Hin.
  pose proof (mid_nonzero env ∅ s p t Hi Hp) as Hp0. destruct (Ht p t Hp) as [_ Hrun].
  assert (run_state t ≠ kRunnable) as Hnr by (intros E%Hrun; rewrite lookup_empty in E; by destruct E).
  assert (∀ k, p ∈ c_queues s k ↔ central_place t = Some k) as Hplace.
  { intros k. rewrite Hin. split; [|by exists t]. intros (u & Hu & <-). congruence. }
  split_and!; try done.
  - apply Ha. eauto.
  - change (run_queue_ s) with (c_queues s CRun). rewrite Hplace. unfold central_place. destruct (run_state t), (cpu t); naive_solver.
  - change (yielding_tasks_ s) with (c_queues s CYield). rewrite Hplace. unfold central_place. destruct (run_state t), (cpu t); naive_solver.
  - trans (p ∈ c_queues s (CCur c)); [simpl; rewrite elem_of_slot; naive_solver|]. rewrite Hplace. unfold central_place.
    destruct (run_state t), (cpu t); naive_solver.
  - apply (Hnd CRun).
  - apply (Hnd CYield).
  - intros q Hq. assert (∃ k, q ∈ c_queues s k) as [k (u & Hu & _)%Hin]; [|by exists u].
    destruct Hq as [|[|[-> ?]]]; [by exists CRun|by exists CYield|]. exists (CCur c). simpl. by apply elem_of_slot.
  - intros Hlt. unfold C_Empty. apply Z.eqb_neq. rewrite Hc.
    assert (size (heap (c_allocator s)) ≠ 0%nat) by (intros E%map_size_empty_inv; rewrite E, lookup_empty in Hp; done).
    unfold s32. rewrite Z.mod_small by lia. lia.
Qed.

Lemma central_no_task_lost_witness :
  c_view (c_at central_env c_acts2) 16 = Some (7, kOnCpu, Some 1, 1) ∧
  current (c_cpus (c_at central_env c_acts2) 1) = 16.
Proof.
  assert (c_view (c_at central_env c_acts2) 16 = Some (7, kOnCpu, Some 1, 1)) as E by by vm_compute.
  split; [exact E|]. destruct (c_view_task _ _ _ E) as (t & Ht & Ev). injection Ev as _ Es Ec _.
  destruct (central_no_task_lost central_env (c_at central_env c_acts2) 16 t 1 central_sample_ok c_acts2_reachable Ht)
    as (_ & _ & _ & _ & H & _).
  exact (proj2 H (conj Es Ec)).
Defined.

(** ** Steps *)

(** No assertion fails and no index is out of range in any reachable state,
    whatever the kernel answers: the global agent starts, every message that may
    be sent is handled, the search for another CPU completes, and so does a
    scheduling pass, unless a task is current on the global CPU: then the pass
    fails its check.  The fuel of the pass never runs out. *)
Theorem central_steps_complete (env : CentralEnv) (s : Central) (Henv : central_env_ok env) (Hr : c_reachable env s) :
  (∀ g, 0 ≤ g < MAX_CPUS → ∃ s0 s', Central_new env g = Ok s0 ∧ C_EnclaveReady env s0 = Ok (tt, s') ∧
     global_cpu_ s' = first_global env g) ∧
  (∀ m, c_sendable s m → ∃ s', @DispatchMessage Central CTask _ _ (Central_ops env) m s = Ok (tt, s')) ∧
  (∃ b s', PickNextGlobalCPU env (global_cpu_ s) s = Ok (b, s')) ∧
  (if current (c_cpus s (global_cpu_ s)) =? 0 then ∃ s', GlobalSchedule env s = Ok (tt, s')
   else GlobalSchedule env s = Crash CheckFailed).
Proof.
  pose proof (c_reachable_inv env Henv s Hr) as Hi. split_and!.
  - intros g Hg. destruct (central_start env Henv g Hg) as (s0 & s' & E & E' & _ & Eg). eauto.
  - intros m Hm. destruct (wp_ok_unit _ _ _ (c_dispatch_inv env Henv s m Hi Hm)) as (s' & E & _). eauto.
  - destruct (wp_ok _ _ _ (wp_PickNextGlobalCPU env Henv s Hi)) as (b & s' & E & _). eauto.
  - destruct (Z.eqb_spec (current (c_cpus s (global_cpu_ s))) 0) as [E|E]; [|by apply GlobalSchedule_crash].
    destruct (wp_ok_unit _ _ _ (wp_GlobalSchedule env Henv s Hi E)) as (s' & Es & _). eauto.
Qed.

Lemma central_steps_complete_witness :
  (∃ s', GlobalSchedule central_env (c_at central_env c_acts2) = Ok (tt, s')) ∧
  GlobalSchedule central_env (c_at central_env c_acts3) = Crash CheckFailed.
Proof.
  destruct (central_steps_complete central_env (c_at central_env c_acts2) central_sample_ok c_acts2_reachable) as (_ & _ & _ & H2).
  destruct (central_steps_complete central_env (c_at central_env c_acts3) central_sample_ok c_acts3_reachable) as (_ & _ & _ & H3).
  assert (current (c_cpus (c_at central_env c_acts2) (global_cpu_ (c_at central_env c_acts2))) =? 0 = true) as E2 by by vm_compute.
  assert (current (c_cpus (c_at central_env c_acts3) (global_cpu_ (c_at central_env c_acts3))) =? 0 = false) as E3 by by vm_compute.
  rewrite E2 in H2. rewrite E3 in H3. exact (conj H2 H3).
Defined.

(** The messages about a known task are the transitions of an abstract
    machine of ordered queues: death and departure take the task out of every
    queue; a wakeup puts it in the run queue, at the front unless the wakeup is
    deferrable; a running task that is preempted goes to the front, one that
    yields waits for the next pass, one that blocks is in no queue.  The
    sequence number becomes the message's, the other tasks and their order in
    every queue stay as they were, and so do the global CPU and the current
    task of every other CPU. *)
Theorem central_message_refines (env : CentralEnv) (s : Central) (p : Z) (t : CTask) (m : Message)
    (Henv : central_env_ok env) (Hr : c_reachable env s)
    (Hf : GetTask (msg_gtid m) (c_allocator s) = Some p) (Hp : heap (c_allocator s) !! p = Some t)
    (Hty : is_task_type (msg_type m)) (Hnew : msg_type m ≠ MSG_TASK_NEW) (Hg : msg_gtid m ≠ 0) (Hm : c_msg_ok t m) :
  ∃ s', @DispatchMessage Central CTask _ _ (Central_ops env) m s = Ok (tt, s') ∧ c_transition env s p t m s'.
Proof.
  pose proof (c_reachable_inv env Henv s Hr) as Hi. by apply wp_ok_unit, dispatch_c_transition.
Qed.

Lemma central_message_refines_witness :
  c_view (c_at central_env c_acts2) 16 = Some (7, kOnCpu, Some 1, 1) ∧
  ∃ t s', @DispatchMessage Central CTask _ _ (Central_ops central_env) (c_msg 7 MSG_TASK_YIELD 2) (c_at central_env c_acts2) = Ok (tt, s') ∧
    c_transition central_env (c_at central_env c_acts2) 16 t (c_msg 7 MSG_TASK_YIELD 2) s'.
Proof.
  assert (is_task_type MSG_TASK_YIELD ∧ MSG_TASK_YIELD ≠ MSG_TASK_NEW ∧ 7 ≠ 0) as (Hty & Hnew & Hg) by by vm_compute.
  assert (c_view (c_at central_env c_acts2) 16 = Some (7, kOnCpu, Some 1, 1)) as E by by vm_compute.
  assert (GetTask 7 (c_allocator (c_at central_env c_acts2)) = Some 16) as Eg by by vm_compute.
  split; [exact E|]. destruct (c_view_task _ _ _ E) as (t & Ht & Ev). injection Ev as _ Es _ Eq.
  assert (c_msg_ok t (c_msg 7 MSG_TASK_YIELD 2)) as Hm.
  { unfold c_msg_ok. cbn [c_msg msg_type msg_seqnum]. rewrite Eq. split; [reflexivity|].
    split; [intros [H|H]; discriminate H|]. intros _. left. exact Es. }
  exists t.
  exact (central_message_refines central_env (c_at central_env c_acts2) 16 t (c_msg 7 MSG_TASK_YIELD 2)
           central_sample_ok c_acts2_reachable Eg Ht Hty Hnew Hg Hm).
Defined.

(** ** The pass *)

(** C21. A scheduling pass deals the run queue to the available CPUs, both in
    order: it dequeues a prefix of the queue (extended by the tasks it takes off
    a CPU), passes over the tasks that still run or have unread messages, and
    gives each other one the lowest CPU left, until the CPUs or the tasks run
    out.  A CPU takes part exactly when it is not the global one, is available,
    and has no task or one whose time slice is over.  Afterwards a CPU has the
    task it was given if the kernel's answer for it is that the commit
    succeeded, and none if it failed (the answers are the last questions of the
    pass, one per task dealt, in the order of the CPUs); the tasks that failed are at the front in reverse order, then those left, and those
    passed over re-enter the queue last; no task is yielding. *)
Theorem global_schedule_deals (env : CentralEnv) (s : Central)
    (Henv : central_env_ok env) (Hr : c_reachable env s) (Hg : current (c_cpus s (global_cpu_ s)) = 0) :
  ∃ s', GlobalSchedule env s = Ok (tt, s') ∧ ∃ D av rest ok, pass env s D av rest ok s'.
Proof.
  pose proof (c_reachable_inv env Henv s Hr) as Hi. by apply wp_ok_unit, wp_GlobalSchedule.
Qed.

Lemma global_schedule_deals_witness :
  run_queue_ (c_at central_env c_acts1) = [16; 272; 4368; 69904] ∧
  ∃ s', GlobalSchedule central_env (c_at central_env c_acts1) = Ok (tt, s') ∧
    ∃ D av rest ok, pass central_env (c_at central_env c_acts1) D av rest ok s'.
Proof.
  split; [by vm_compute|].
  exact (global_schedule_deals central_env (c_at central_env c_acts1) central_sample_ok c_acts1_reachable ltac:(by vm_compute)).
Defined.

(** ** The global CPU *)

(** The four loops of [PickNextGlobalCPU] are one search over the hardware
    siblings, the cache siblings, the CPUs of the node and all CPUs: the global
    CPU becomes the first of them that is not the global CPU and is available,
    its agent is woken and nothing else changes; if there is none it stays.
    The search is made whenever it is asked for, since [iterations_] is always
    0.  The agent of another CPU only gives up its CPU. *)
Theorem pick_next_global_search (env : CentralEnv) (s : Central) (Henv : central_env_ok env) (Hr : c_reachable env s) :
  iterations_ s = 0 ∧
  (∃ moved s', PickNextGlobalCPU env (global_cpu_ s) s = Ok (moved, s') ∧ ∃ t n, next_global env s = (t, n) ∧
     match t with
     | Some c => moved = true ∧ moved_to env s c n s' ∧ c ≠ global_cpu_ s ∧ enclave_cpu env c
     | None => moved = false ∧ s' = with_asked n s
     end) ∧
  (∀ c boosted msgs, c ≠ global_cpu_ s → C_AgentThread env c boosted msgs s = Ok (tt, add_event (CEvYield c) s)).
Proof.
  pose proof (c_reachable_inv env Henv s Hr) as Hi. split_and!.
  - apply (cm_iter _ _ _ (proj1 Hi)).
  - destruct (wp_ok _ _ _ (wp_PickNextGlobalCPU env Henv s Hi)) as (b & s' & E & t & n & En & H).
    exists b, s'. split; [exact E|]. exists t, n. split; [exact En|]. destruct t as [c|]; [|exact H]. destruct H as [-> H].
    destruct (next_global_some env s c n Hi En) as [Hc Hne]. done.
  - intros c b msgs Hne. unfold C_AgentThread, mbind, M_bind, gets. by rewrite (proj2 (Z.eqb_neq c _) Hne).
Qed.

Lemma pick_next_global_search_witness :
  next_global central_env (c_at central_env c_acts2) = (Some 2, 16%nat) ∧
  ∃ moved s', PickNextGlobalCPU central_env (global_cpu_ (c_at central_env c_acts2)) (c_at central_env c_acts2) = Ok (moved, s') ∧
    moved_to central_env (c_at central_env c_acts2) 2 16 s'.
Proof.
  assert (next_global central_env (c_at central_env c_acts2) = (Some 2, 16%nat)) as E by by vm_compute.
  split; [exact E|].
  destruct (pick_next_global_search central_env (c_at central_env c_acts2) central_sample_ok c_acts2_reachable)
    as (_ & (moved & s' & Ep & t & n & En & H) & _).
  rewrite E in En. injection En as <- <-. destruct H as (_ & H & _). exists moved, s'. exact (conj Ep H).
Defined.
