(* ===== verification/Txn.v ===== *)
(** * Txn: operations that move one task

    The state of a scheduler has an allocator and queues; [moved] says that an
    operation changed one task, took it out of its queue and put it in that of
    its new state, and changed nothing else but what [frame] allows.  Moves of
    the same task compose.

    The transactions of an enclave (lib/enclave.h, lib/enclave.cc).

    A transaction is a record in memory shared with the kernel, one per CPU.
    The agent opens it and submits it; the kernel claims it, commits it or makes
    it fail; the agent may abort it until it is claimed.  [Open], [Abort] and
    the result of [CompleteRunRequest] are modelled for an agent that does not
    use sync groups; what the kernel does in between is up to the client. *)

From S2P Require Import Prelude Outcome CpuMap Dispatch Placement.
From stdpp Require Import gmap base numbers list.
From Stdlib Require Import ZArith Lia.

Local Open Scope Z_scope.

Section moves.
Context {S T K : Type} `{!TaskType T, !HasAllocator S T, !EqDecision K}.
Context (place : T → option K) (queues : S → K → list Z) (frame : S → S → Prop).

Record moved (s : S) (p : Z) (t : T) (front : bool) (s' : S) : Prop := {
  mv_alloc : allocator s' = put_obj p t (allocator s);
  mv_queues : ∀ k, queues s' k = requeue place p t front (queues s) k;
  mv_frame : frame s s'
}.

Notation rest s := (at_rest place (heap (allocator s)) (queues s)).

Lemma moved_at s p t f s' : moved s p t f s' → heap (allocator s') !! p = Some t.
Proof. intros [-> _ _]. apply lookup_insert_eq. Qed.

Lemma moved_other s p t f s' q : moved s p t f s' → q ≠ p → heap (allocator s') !! q = heap (allocator s) !! q.
Proof. intros [-> _ _] Hne. by apply lookup_insert_ne. Qed.

Lemma moved_map s p t f s' : moved s p t f s' → task_map_ (allocator s') = task_map_ (allocator s).
Proof. by intros [-> _ _]. Qed.

Lemma moved_size s p t f s' :
  moved s p t f s' → is_Some (heap (allocator s) !! p) → size (heap (allocator s')) = size (heap (allocator s)).
Proof. intros [-> _ _] Hp. by apply map_size_insert_Some. Qed.

Lemma moved_rest s p t f s' : moved s p t f s' → rest s → rest s'.
Proof.
  intros [Ha Hq _] Hr. rewrite Ha. eapply rest_ext; [by apply rest_requeue|exact Hq].
Qed.

Lemma moved_alloc s p t t0 f s' :
  moved s p t f s' → heap (allocator s) !! p = Some t0 → task_gtid t = task_gtid t0 → alloc_inv (allocator s) →
  alloc_inv (allocator s').
Proof. intros [-> _ _] Hp Hg Ha. by eapply alloc_inv_upd. Qed.

Lemma moved_again `{!Transitive frame} s p t f s1 t' f' s' :
  moved s p t f s1 → moved s1 p t' f' s' → moved s p t' f' s'.
Proof.
  intros [Ha Hq Hf] [Ha' Hq' Hf']. split; [|intros k|by etrans].
  - rewrite Ha', Ha. unfold put_obj. simpl. by rewrite insert_insert_eq.
  - rewrite Hq'. unfold requeue. by rewrite Hq, others_requeue.
Qed.

(** The queues of a task before and after. *)
Lemma requeue_at s p t0 t f k :
  rest s → heap (allocator s) !! p = Some t0 →
  requeue place p t f (queues s) k =
    let l := if decide (place t0 = Some k) then others p (queues s k) else queues s k in
    if decide (place t = Some k) then (if f then p :: l else l ++ [p]) else l.
Proof.
  intros Hr Hp. unfold requeue. destruct (decide (place t0 = Some k)) as [E|E]; [done|]. cbv zeta.
  by rewrite (rest_others place _ _ p t0 k Hr Hp E).
Qed.

(** A task that changes without moving. *)
Lemma moved_put s p t0 t f s' :
  rest s → heap (allocator s) !! p = Some t0 → place t0 = None → place t = None →
  allocator s' = put_obj p t (allocator s) → (∀ k, queues s' k = queues s k) → frame s s' → moved s p t f s'.
Proof.
  intros Hr Hp E0 E Ha Hq Hf. split; [done| |done]. intros k. rewrite (requeue_at s p t0) by done. cbv zeta.
  rewrite E0, E, !decide_False by done. apply Hq.
Qed.
End moves.

(** ** The transactions of an enclave (lib/enclave.h, lib/enclave.cc) *)

(** ** States *)

(** [enum ghost_txn_state]; a state in [[0, MAX_CPUS)] is the CPU that claimed
    the transaction. *)
Definition GHOST_TXN_COMPLETE : Z := - 2 ^ 31.
Definition GHOST_TXN_ABORTED : Z := GHOST_TXN_COMPLETE + 1.
Definition GHOST_TXN_TARGET_ONCPU : Z := GHOST_TXN_COMPLETE + 2.
Definition GHOST_TXN_TARGET_STALE : Z := GHOST_TXN_COMPLETE + 3.
Definition GHOST_TXN_TARGET_NOT_FOUND : Z := GHOST_TXN_COMPLETE + 4.
Definition GHOST_TXN_TARGET_NOT_RUNNABLE : Z := GHOST_TXN_COMPLETE + 5.
Definition GHOST_TXN_AGENT_STALE : Z := GHOST_TXN_COMPLETE + 6.
Definition GHOST_TXN_CPU_OFFLINE : Z := GHOST_TXN_COMPLETE + 7.
Definition GHOST_TXN_CPU_UNAVAIL : Z := GHOST_TXN_COMPLETE + 8.
Definition GHOST_TXN_INVALID_FLAGS : Z := GHOST_TXN_COMPLETE + 9.
Definition GHOST_TXN_INVALID_TARGET : Z := GHOST_TXN_COMPLETE + 10.
Definition GHOST_TXN_NOT_PERMITTED : Z := GHOST_TXN_COMPLETE + 11.
Definition GHOST_TXN_INVALID_CPU : Z := GHOST_TXN_COMPLETE + 12.
Definition GHOST_TXN_NO_AGENT : Z := GHOST_TXN_COMPLETE + 13.
Definition GHOST_TXN_UNSUPPORTED_VERSION : Z := GHOST_TXN_COMPLETE + 14.
Definition GHOST_TXN_POISONED : Z := GHOST_TXN_COMPLETE + 15.
Definition GHOST_TXN_READY : Z := 2 ^ 31 - 1.

Definition is_open (state : Z) : bool := state =? GHOST_TXN_READY.
Definition is_claimed (state : Z) : bool := (0 <=? state) && (state <? MAX_CPUS).
Definition is_committed (state : Z) : bool := state <? 0.
Definition is_failed (state : Z) : bool := is_committed state && negb (state =? GHOST_TXN_COMPLETE).
Definition is_succeeded (state : Z) : bool := state =? GHOST_TXN_COMPLETE.

(** ** The shared record *)

Definition kSyncGroupNotOwned : Z := -1.

(** [ghost_txn], the fields that the agent uses, and the field
    [allow_txn_target_on_cpu_] of [LocalRunRequest]. *)
Record Txn := mkTxn {
  txn_state : Z;
  txn_gtid : Z;
  txn_agent_barrier : Z;
  txn_task_barrier : Z;
  txn_run_flags : Z;
  txn_commit_flags : Z;
  txn_owner : Z;
  allow_txn_target_on_cpu : bool
}.

Definition set_txn_state (st : Z) (t : Txn) : Txn :=
  mkTxn st (txn_gtid t) (txn_agent_barrier t) (txn_task_barrier t) (txn_run_flags t) (txn_commit_flags t)
    (txn_owner t) (allow_txn_target_on_cpu t).
Definition set_txn_owner (o : Z) (t : Txn) : Txn :=
  mkTxn (txn_state t) (txn_gtid t) (txn_agent_barrier t) (txn_task_barrier t) (txn_run_flags t) (txn_commit_flags t)
    o (allow_txn_target_on_cpu t).

Record RunRequestOptions := mkOptions {
  opt_target : Z;
  opt_target_barrier : Z;
  opt_agent_barrier : Z;
  opt_commit_flags : Z;
  opt_run_flags : Z;
  opt_sync_group_owner : Z;
  opt_allow_txn_target_on_cpu : bool
}.

(** The default of each option; [StatusWord::NullBarrierToken] is 0. *)
Definition options (target target_barrier commit_flags : Z) : RunRequestOptions :=
  mkOptions target target_barrier 0 commit_flags 0 kSyncGroupNotOwned false.

(** [sync_group_owned] *)
Definition sync_group_owned (t : Txn) : bool := negb (txn_owner t =? kSyncGroupNotOwned).

(** The end of [LocalRunRequest::Open]: the record is free, it is written, and
    becomes READY. *)
Definition publish (o : RunRequestOptions) (t : Txn) : outcome Txn :=
  checkO (is_committed (txn_state t)) ≫= λ _,
  (if opt_allow_txn_target_on_cpu o then checkO (sync_group_owned t) else Ok tt) ≫= λ _,
  Ok (mkTxn GHOST_TXN_READY (opt_target o) (opt_agent_barrier o) (opt_target_barrier o) (opt_run_flags o)
        (opt_commit_flags o) (txn_owner t) (opt_allow_txn_target_on_cpu o)).

(** [LocalRunRequest::Open] without a sync group. *)
Definition Open (o : RunRequestOptions) (t : Txn) : outcome Txn :=
  checkO (negb (sync_group_owned t)) ≫= λ _, publish o t.

(** [LocalRunRequest::Abort], when [st] is the state at the compare-and-swap. *)
Definition txn_abort (st : Z) (t : Txn) : bool * Txn :=
  if is_open (txn_state t) then
    if is_open st then
      (true, set_txn_owner (if sync_group_owned t then kSyncGroupNotOwned else txn_owner t) (set_txn_state GHOST_TXN_ABORTED t))
    else (false, set_txn_state st t)
  else (false, t).

(** The failures that [CompleteRunRequest] expects. *)
Definition expected_failure (online : bool) (t : Txn) (state : Z) : bool :=
  bool_decide (state ∈ [GHOST_TXN_TARGET_NOT_FOUND; GHOST_TXN_TARGET_STALE; GHOST_TXN_AGENT_STALE;
                        GHOST_TXN_CPU_UNAVAIL; GHOST_TXN_POISONED; GHOST_TXN_ABORTED]) ||
  ((state =? GHOST_TXN_NO_AGENT) && negb online) ||
  ((state =? GHOST_TXN_TARGET_ONCPU) && allow_txn_target_on_cpu t).

(** [LocalEnclave::CompleteRunRequest] once the transaction is committed;
    [GHOST_ERROR] ends the agent. *)
Definition complete_result (online : bool) (t : Txn) : outcome bool :=
  if is_succeeded (txn_state t) then Ok true
  else if expected_failure online t (txn_state t) then Ok false
  else Crash GhostError.
