(* ===== verification/Sol.v ===== *)
(** * Sol: the SOL agent (schedulers/sol/sol_scheduler.h, .cc)

    A centralized agent whose transactions are asynchronous: a pass opens and
    submits them, and a later pass, or a message about the task, finds out
    whether the kernel committed them.  Until then the task is [kPending] and
    in the slot [next] of its CPU. *)

From S2P Require Import Prelude Outcome CpuMap.
From S2P Require Import Topology Dispatch Placement Deals Txn.
From stdpp Require Import gmap.
From Stdlib Require Import ZArith Lia.

Local Open Scope Z_scope.

(** ** State *)

(** [SolTask::RunState] *)
Inductive SolState := kBlocked | kQueued | kRunnable | kOnCpu | kYielding | kPending | kPreemptedByAgent.

Global Instance SolState_eq_dec : EqDecision SolState.
Proof. solve_decision. Defined.

(** [SolTask]; an uninitialised [cpu] is [None]. *)
Record SolTask := mkSolTask {
  gtid : Z;
  seqnum : Z;
  run_state : SolState;
  cpu : option Z;
  preempted : bool;
  prio_boost : bool
}.

Definition SolTask_new (g : Z) : SolTask := mkSolTask g 0 kBlocked None false false.

Definition set_seqnum (n : Z) (t : SolTask) : SolTask :=
  mkSolTask (gtid t) n (run_state t) (cpu t) (preempted t) (prio_boost t).
Definition set_run_state (r : SolState) (t : SolTask) : SolTask :=
  mkSolTask (gtid t) (seqnum t) r (cpu t) (preempted t) (prio_boost t).
Definition set_cpu (c : Z) (t : SolTask) : SolTask :=
  mkSolTask (gtid t) (seqnum t) (run_state t) (Some c) (preempted t) (prio_boost t).
Definition set_preempted (b : bool) (t : SolTask) : SolTask :=
  mkSolTask (gtid t) (seqnum t) (run_state t) (cpu t) b (prio_boost t).
Definition set_prio_boost (b : bool) (t : SolTask) : SolTask :=
  mkSolTask (gtid t) (seqnum t) (run_state t) (cpu t) (preempted t) b.

Global Instance SolTask_type : TaskType SolTask := {
  task_gtid := gtid;
  task_seqnum := seqnum;
  set_task_seqnum := set_seqnum;
  new_task := SolTask_new
}.

Definition has_state (r : SolState) (t : SolTask) : bool := bool_decide (run_state t = r).

(** [CpuState]: [current] and [next] are addresses, 0 for null; [agent] is not
    null. *)
Record SolCpu := mkSolCpu {
  current : Z;
  next : Z;
  agent : bool;
  last_commit : Z
}.

Definition set_current (p : Z) (k : SolCpu) : SolCpu := mkSolCpu p (next k) (agent k) (last_commit k).
Definition set_next (p : Z) (k : SolCpu) : SolCpu := mkSolCpu (current k) p (agent k) (last_commit k).
Definition set_agent (b : bool) (k : SolCpu) : SolCpu := mkSolCpu (current k) (next k) b (last_commit k).
Definition set_last_commit (n : Z) (k : SolCpu) : SolCpu := mkSolCpu (current k) (next k) (agent k) n.

Inductive SolEvent :=
| SEvOpen (c g seqnum : Z)
| SEvSubmit (assigned : list Z)
| SEvYield (c : Z)
| SEvPing (c : Z).

(** The timers and counters of the statistics; the epoch is 0. *)
Record SolStats := mkSolStats {
  schedule_timer_start_ : Z;
  schedule_durations_ : Z;
  schedule_durations_total_ : Z;
  dispatch_timer_start_ : Z;
  dispatch_durations_total_ : Z;
  nr_msgs_ : Z
}.

(** The scheduler, the transactions of its enclave, and the number of the
    kernel's answers. *)
Record Sol := mkSol {
  s_allocator : TaskAllocator SolTask;
  s_cpus : Z → SolCpu;
  s_txns : Z → Txn;
  global_cpu_core_ : option Z;
  global_cpu_ : Z;
  num_tasks_ : Z;
  run_queue_ : list Z;
  yielding_tasks_ : list Z;
  iterations_ : Z;
  stats : SolStats;
  asked : nat;
  log : list SolEvent
}.

Definition set_s_allocator (a : TaskAllocator SolTask) (s : Sol) : Sol :=
  mkSol a (s_cpus s) (s_txns s) (global_cpu_core_ s) (global_cpu_ s) (num_tasks_ s) (run_queue_ s) (yielding_tasks_ s)
    (iterations_ s) (stats s) (asked s) (log s).
Definition set_s_cpus (f : Z → SolCpu) (s : Sol) : Sol :=
  mkSol (s_allocator s) f (s_txns s) (global_cpu_core_ s) (global_cpu_ s) (num_tasks_ s) (run_queue_ s) (yielding_tasks_ s)
    (iterations_ s) (stats s) (asked s) (log s).
Definition set_s_txns (f : Z → Txn) (s : Sol) : Sol :=
  mkSol (s_allocator s) (s_cpus s) f (global_cpu_core_ s) (global_cpu_ s) (num_tasks_ s) (run_queue_ s) (yielding_tasks_ s)
    (iterations_ s) (stats s) (asked s) (log s).
Definition set_global (core c : Z) (s : Sol) : Sol :=
  mkSol (s_allocator s) (s_cpus s) (s_txns s) (Some core) c (num_tasks_ s) (run_queue_ s) (yielding_tasks_ s)
    (iterations_ s) (stats s) (asked s) (log s).
Definition set_num_tasks (n : Z) (s : Sol) : Sol :=
  mkSol (s_allocator s) (s_cpus s) (s_txns s) (global_cpu_core_ s) (global_cpu_ s) n (run_queue_ s) (yielding_tasks_ s)
    (iterations_ s) (stats s) (asked s) (log s).
Definition set_run_queue (l : list Z) (s : Sol) : Sol :=
  mkSol (s_allocator s) (s_cpus s) (s_txns s) (global_cpu_core_ s) (global_cpu_ s) (num_tasks_ s) l (yielding_tasks_ s)
    (iterations_ s) (stats s) (asked s) (log s).
Definition set_yielding (l : list Z) (s : Sol) : Sol :=
  mkSol (s_allocator s) (s_cpus s) (s_txns s) (global_cpu_core_ s) (global_cpu_ s) (num_tasks_ s) (run_queue_ s) l
    (iterations_ s) (stats s) (asked s) (log s).
Definition set_iterations (n : Z) (s : Sol) : Sol :=
  mkSol (s_allocator s) (s_cpus s) (s_txns s) (global_cpu_core_ s) (global_cpu_ s) (num_tasks_ s) (run_queue_ s) (yielding_tasks_ s)
    n (stats s) (asked s) (log s).
Definition set_stats (x : SolStats) (s : Sol) : Sol :=
  mkSol (s_allocator s) (s_cpus s) (s_txns s) (global_cpu_core_ s) (global_cpu_ s) (num_tasks_ s) (run_queue_ s) (yielding_tasks_ s)
    (iterations_ s) x (asked s) (log s).
Definition tick (s : Sol) : Sol :=
  mkSol (s_allocator s) (s_cpus s) (s_txns s) (global_cpu_core_ s) (global_cpu_ s) (num_tasks_ s) (run_queue_ s) (yielding_tasks_ s)
    (iterations_ s) (stats s) (S (asked s)) (log s).
Definition add_event (e : SolEvent) (s : Sol) : Sol :=
  mkSol (s_allocator s) (s_cpus s) (s_txns s) (global_cpu_core_ s) (global_cpu_ s) (num_tasks_ s) (run_queue_ s) (yielding_tasks_ s)
    (iterations_ s) (stats s) (asked s) (log s ++ [e]).

Global Instance Sol_has_allocator : HasAllocator Sol SolTask := {
  allocator := s_allocator;
  set_allocator := set_s_allocator
}.

(** The configuration, and the kernel's answers by the number of questions
    before.  An infinite time slice is [None]. *)
Record SolEnv := mkSolEnv {
  s_topo : Topology;
  s_enclave : CpuList;
  s_malloc : TaskAllocator SolTask → Z;
  s_slice : option Z;                      (* preemption_time_slice_ *)
  s_online : bool;                         (* IsOnline() *)
  s_txns0 : Z → Txn;                       (* the shared records at the start *)
  s_get_agent : Z → bool;                  (* GetAgent(cpu) is not null *)
  s_avail : nat → Z → bool;                (* agent->cpu_avail() *)
  s_now : nat → Z;                         (* MonotonicNow() *)
  s_on_cpu : nat → Z → bool;               (* status_word.on_cpu(), by gtid *)
  s_barrier : nat → Z → Z;                 (* status_word.barrier(), by gtid *)
  s_submit : nat → list Z → Z;             (* GhostHelper()->Commit(cpus) *)
  s_finish : nat → Z → Z;                  (* the state an awaited transaction ends in *)
  s_race : nat → Z → Z                     (* the state Abort() finds at its exchange *)
}.

(** [cpu_states_[c]] *)
Definition s_cpu (c : Z) : M Sol SolCpu :=
  if (0 <=? c) && (c <? MAX_CPUS) then gets (λ s, s_cpus s c) else abort OutOfBounds.

Definition upd_cpu (c : Z) (f : SolCpu → SolCpu) : M Sol unit :=
  s_cpu c ≫= λ k, modify (λ s, set_s_cpus (<[c := f k]> (s_cpus s)) s).

(** [GetRunRequest(cpu)], whose array has [MAX_CPUS] elements. *)
Definition s_req (c : Z) : M Sol Txn :=
  if (0 <=? c) && (c <? MAX_CPUS) then gets (λ s, s_txns s c) else abort OutOfBounds.

Definition put_txn (c : Z) (t : Txn) : M Sol unit := modify (λ s, set_s_txns (<[c := t]> (s_txns s)) s).

(** A question to the kernel. *)
Definition ask {A} (f : nat → A) : M Sol A := gets asked ≫= λ n, modify tick ≫= λ _, mret (f n).

(** ** The run queue *)

(** [Enqueue] *)
Definition S_Enqueue (p : Z) : M Sol unit :=
  task_at p ≫= λ t,
  check (has_state kRunnable t) ≫= λ _,
  upd_task p (set_run_state kQueued) ≫= λ _,
  modify (λ s, set_run_queue (if prio_boost t || preempted t then p :: run_queue_ s else run_queue_ s ++ [p]) s).

(** [Dequeue] *)
Definition S_Dequeue : M Sol Z :=
  gets run_queue_ ≫= λ l,
  match l with
  | [] => mret 0
  | p :: l =>
      task_at p ≫= λ t,
      check (has_state kQueued t) ≫= λ _,
      upd_task p (set_run_state kRunnable) ≫= λ _,
      modify (set_run_queue l) ≫= λ _,
      mret p
  end.

(** [RemoveFromRunqueue] *)
Definition S_RemoveFromRunqueue (p : Z) : M Sol unit :=
  task_at p ≫= λ t,
  check (has_state kQueued t) ≫= λ _,
  gets run_queue_ ≫= λ l,
  match rfind p l (length l) with
  | Some pos =>
      upd_task p (set_run_state kRunnable) ≫= λ _,
      modify (set_run_queue (delete pos l))
  | None => abort CheckFailed
  end.

(** [Yield] *)
Definition S_Yield (p : Z) : M Sol unit :=
  task_at p ≫= λ t,
  check (has_state kOnCpu t || has_state kRunnable t) ≫= λ _,
  upd_task p (set_run_state kYielding) ≫= λ _,
  modify (λ s, set_yielding (yielding_tasks_ s ++ [p]) s).

(** [Unyield] *)
Definition S_Unyield (p : Z) : M Sol unit :=
  task_at p ≫= λ t,
  check (has_state kYielding t) ≫= λ _,
  gets yielding_tasks_ ≫= λ l,
  match find_first p l with
  | Some it =>
      modify (set_yielding (delete it l)) ≫= λ _,
      upd_task p (set_run_state kRunnable) ≫= λ _,
      S_Enqueue p
  | None => abort CheckFailed
  end.

(** ** Transactions *)

(** [cpu_state_of]: the CPU whose state is meant. *)
Definition s_cpu_of (p : Z) : M Sol Z :=
  task_at p ≫= λ t,
  match cpu t with
  | None => abort CheckFailed
  | Some c =>
      check (has_state kOnCpu t || has_state kPending t) ≫= λ _,
      s_cpu c ≫= λ k, check ((p =? current k) || (p =? next k)) ≫= λ _, mret c
  end.

(** [SyncCpuState] *)
Definition SyncCpuState (oc : option Z) : M Sol bool :=
  match oc with
  | None => abort CheckFailed
  | Some c =>
      s_cpu c ≫= λ k,
      check (negb (next k =? 0)) ≫= λ _,
      let p := next k in
      task_at p ≫= λ t,
      check (has_state kPending t) ≫= λ _,
      s_req c ≫= λ req,
      check (is_committed (txn_state req)) ≫= λ _,
      upd_cpu c (set_next 0) ≫= λ _,
      check (negb (preempted t)) ≫= λ _,
      if is_succeeded (txn_state req) then
        whenM (negb (current k =? 0))
          (task_at (current k) ≫= λ u, check (has_state kOnCpu u) ≫= λ _,
           upd_task (current k) (set_run_state kPreemptedByAgent)) ≫= λ _,
        upd_cpu c (set_current p) ≫= λ _,
        upd_task p (λ t, set_prio_boost false (set_run_state kOnCpu t)) ≫= λ _,
        mret true
      else
        upd_task p (set_run_state kRunnable) ≫= λ _,
        S_Enqueue p ≫= λ _,
        mret false
  end.

(** [SyncTaskState] *)
Definition SyncTaskState (p : Z) : M Sol unit :=
  task_at p ≫= λ t,
  check (has_state kPending t) ≫= λ _,
  s_cpu_of p ≫= λ c,
  s_cpu c ≫= λ k,
  check (current k =? 0) ≫= λ _,
  check (next k =? p) ≫= λ _,
  SyncCpuState (cpu t) ≫= λ ok : bool, check ok.

(** [TaskOffCpu] *)
Definition S_TaskOffCpu (p : Z) (blocked from_switchto : bool) : M Sol unit :=
  task_at p ≫= λ t,
  (if has_state kOnCpu t then
     s_cpu_of p ≫= λ c, s_cpu c ≫= λ k, check (current k =? p) ≫= λ _, upd_cpu c (set_current 0)
   else check from_switchto ≫= λ _, check (has_state kBlocked t)) ≫= λ _,
  upd_task p (set_run_state (if blocked then kBlocked else kRunnable)).

(** ** Message handlers *)

Section sol.
Variable env : SolEnv.

(** [CompleteRunRequest]: the loop ends when the kernel has committed the
    transaction. *)
Definition CompleteRunRequest (c : Z) : M Sol bool :=
  s_req c ≫= λ req,
  (if is_committed (txn_state req) then mret req
   else
     ask (λ n, s_finish env n c) ≫= λ st,
     put_txn c (set_txn_state st req) ≫= λ _, mret (set_txn_state st req)) ≫= λ req,
  lift (complete_result (s_online env) req).

(** [Abort]: the kernel may claim or commit the transaction first. *)
Definition S_Abort (c : Z) : M Sol bool :=
  s_req c ≫= λ req,
  ask (λ n, s_race env n c) ≫= λ st,
  let r := txn_abort st req in
  put_txn c r.2 ≫= λ _, mret r.1.

Definition S_TaskNew (p : Z) (m : Message) : M Sol unit :=
  upd_task p (λ t, set_run_state kBlocked (set_seqnum (msg_seqnum m) t)) ≫= λ _,
  whenM (msg_runnable m) (upd_task p (set_run_state kRunnable) ≫= λ _, S_Enqueue p) ≫= λ _,
  modify (λ s, set_num_tasks (s32 (num_tasks_ s + 1)) s).

Definition S_TaskRunnable (p : Z) (m : Message) : M Sol unit :=
  task_at p ≫= λ t,
  check (has_state kBlocked t) ≫= λ _,
  upd_task p (λ t, set_prio_boost (negb (msg_deferrable m)) (set_run_state kRunnable t)) ≫= λ _,
  S_Enqueue p.

(** [allocator()->FreeTask(task); num_tasks_--;] *)
Definition s_free (p : Z) : M Sol unit :=
  free_task p ≫= λ _, modify (λ s, set_num_tasks (s32 (num_tasks_ s - 1)) s).

(** The transaction of a departing task. *)
Definition s_settle (p : Z) : M Sol unit :=
  task_at p ≫= λ t,
  match cpu t with
  | Some c => CompleteRunRequest c ≫= λ _, SyncCpuState (Some c) ≫= λ _, mret tt
  | None => abort OutOfBounds
  end.

Definition S_TaskDeparted (p : Z) (m : Message) : M Sol unit :=
  task_at p ≫= λ t,
  whenM (has_state kPending t) (s_settle p) ≫= λ _,
  task_at p ≫= λ t,
  whenM (has_state kYielding t) (S_Unyield p) ≫= λ _,
  task_at p ≫= λ t,
  (if has_state kOnCpu t || msg_from_switchto m then S_TaskOffCpu p false (msg_from_switchto m)
   else if has_state kQueued t then S_RemoveFromRunqueue p
   else check (has_state kBlocked t)) ≫= λ _,
  s_free p.

Definition S_TaskDead (p : Z) (m : Message) : M Sol unit :=
  task_at p ≫= λ t, check (has_state kBlocked t) ≫= λ _, s_free p.

(** The transaction of a task that has run since. *)
Definition s_sync (p : Z) : M Sol unit :=
  task_at p ≫= λ t, whenM (has_state kPending t) (SyncTaskState p).

Definition S_TaskBlocked (p : Z) (m : Message) : M Sol unit :=
  s_sync p ≫= λ _,
  task_at p ≫= λ t,
  (if has_state kOnCpu t || msg_from_switchto m then S_TaskOffCpu p true (msg_from_switchto m)
   else if has_state kPreemptedByAgent t then mret tt
   else check (has_state kQueued t) ≫= λ _, S_RemoveFromRunqueue p) ≫= λ _,
  upd_task p (set_run_state kBlocked).

Definition S_TaskPreempted (p : Z) (m : Message) : M Sol unit :=
  s_sync p ≫= λ _,
  upd_task p (set_preempted true) ≫= λ _,
  task_at p ≫= λ t,
  if has_state kOnCpu t || msg_from_switchto m then
    S_TaskOffCpu p false (msg_from_switchto m) ≫= λ _, S_Enqueue p
  else if has_state kPreemptedByAgent t then
    upd_task p (set_run_state kRunnable) ≫= λ _, S_Enqueue p
  else check (has_state kQueued t).

Definition S_TaskSwitchto (p : Z) (m : Message) : M Sol unit :=
  s_sync p ≫= λ _, S_TaskOffCpu p true false.

Definition S_TaskYield (p : Z) (m : Message) : M Sol unit :=
  s_sync p ≫= λ _,
  task_at p ≫= λ t,
  if has_state kOnCpu t || msg_from_switchto m then
    S_TaskOffCpu p false (msg_from_switchto m) ≫= λ _, S_Yield p
  else if has_state kPreemptedByAgent t then
    upd_task p (set_run_state kRunnable) ≫= λ _, S_Enqueue p
  else check (has_state kQueued t).

(** ** The scheduling pass *)

(** [Available] *)
Definition S_Available (c : Z) : M Sol bool :=
  s_cpu c ≫= λ k, if agent k then ask (λ n, s_avail env n c) else mret false.

(** [(MonotonicNow() - cs->last_commit) < preemption_time_slice_] *)
Definition s_within_slice (now last : Z) : bool :=
  match s_slice env with Some d => now - last <? d | None => true end.

(** Whether [next] is out of the way, after a look at its transaction. *)
Definition s_reap (c : Z) : M Sol bool :=
  s_cpu c ≫= λ k,
  if next k =? 0 then mret true
  else
    s_req c ≫= λ req,
    if is_committed (txn_state req) then SyncCpuState (Some c) ≫= λ _, mret true else mret false.

(** The loop over [cpus()]. *)
Fixpoint s_available_loop (global : Z) (cs : list Z) (available : CpuList) : M Sol CpuList :=
  match cs with
  | [] => mret available
  | c :: cs =>
      if c =? global then
        s_cpu c ≫= λ k,
        check (current k =? 0) ≫= λ _,
        check (next k =? 0) ≫= λ _,
        s_req c ≫= λ req,
        check (is_committed (txn_state req)) ≫= λ _,
        s_available_loop global cs available
      else
        s_reap c ≫= λ free : bool,
        if negb free then s_available_loop global cs available
        else
          s_cpu c ≫= λ k,
          (if current k =? 0 then mret false
           else ask (λ n, s_within_slice (s_now env n) (last_commit k))) ≫= λ busy : bool,
          if busy then s_available_loop global cs available
          else lift (CpuList_Set c available) ≫= λ available, s_available_loop global cs available
  end.

(** The first sibling that is available. *)
Fixpoint first_set (available : CpuList) (cs : list Z) : outcome (option Z) :=
  match cs with
  | [] => Ok None
  | c :: cs => CpuList_IsSet c available ≫= λ b : bool, if b then Ok (Some c) else first_set available cs
  end.

(** [available.Front()] as a CPU of a task. *)
Definition front_cpu (available : CpuList) : outcome Z :=
  Front available ≫= λ c, match c with Some c => Ok c | None => Crash CheckFailed end.

(** The CPU of [next]: its last one, or a sibling of it, or the first. *)
Definition choose_cpu (last : option Z) (available : CpuList) : outcome Z :=
  match last with
  | None => front_cpu available
  | Some d =>
      CpuList_IsSet d available ≫= λ b : bool,
      if b then Ok d
      else
        cpu_rep (s_topo env) d ≫= λ r,
        iterate (rep_siblings r) ≫= λ sib,
        first_set available sib ≫= λ o,
        match o with Some c => Ok c | None => front_cpu available end
  end.

(** The loop that deals the tasks; [fuel] bounds its iterations. *)
Fixpoint s_deal_loop (fuel : nat) (available assigned : CpuList) : M Sol CpuList :=
  match fuel with
  | O => abort OutOfFuel
  | S fuel =>
      lift (CpuMap_Empty available) ≫= λ empty : bool,
      if empty then mret assigned
      else
        S_Dequeue ≫= λ next_task,
        if next_task =? 0 then mret assigned
        else
          task_at next_task ≫= λ t,
          ask (λ n, s_on_cpu env n (gtid t)) ≫= λ on_cpu : bool,
          (if on_cpu then mret true else ask (λ n, negb (seqnum t =? s_barrier env n (gtid t)))) ≫= λ skip : bool,
          if skip then S_Yield next_task ≫= λ _, s_deal_loop fuel available assigned
          else
            lift (choose_cpu (cpu t) available) ≫= λ c,
            upd_task next_task (set_cpu c) ≫= λ _,
            lift (CpuList_IsSet c available) ≫= λ b : bool, check b ≫= λ _,
            lift (CpuList_Clear c available) ≫= λ available,
            lift (CpuList_Set c assigned) ≫= λ assigned,
            s_cpu c ≫= λ k,
            check (next k =? 0) ≫= λ _,
            s_req c ≫= λ req,
            lift (Open (options (gtid t) (seqnum t) 0) req) ≫= λ req,
            put_txn c req ≫= λ _,
            modify (add_event (SEvOpen c (gtid t) (seqnum t))) ≫= λ _,
            upd_cpu c (set_next next_task) ≫= λ _,
            upd_task next_task (set_run_state kPending) ≫= λ _,
            whenM (preempted t) (upd_task next_task (λ t, set_prio_boost true (set_preempted false t))) ≫= λ _,
            s_deal_loop fuel available assigned
  end.

Definition s_unyield_one (p : Z) : M Sol unit :=
  task_at p ≫= λ t,
  check (has_state kYielding t) ≫= λ _,
  upd_task p (set_run_state kRunnable) ≫= λ _, S_Enqueue p.

(** [GlobalSchedule]; each round of the deal uses up a queued task. *)
Definition S_GlobalSchedule : M Sol unit :=
  gets global_cpu_ ≫= λ global,
  lift (EmptyCpuList (num_cpus_ (s_topo env))) ≫= λ available,
  lift (EmptyCpuList (num_cpus_ (s_topo env))) ≫= λ assigned,
  lift (iterate (s_enclave env)) ≫= λ cs,
  s_available_loop global cs available ≫= λ available,
  gets run_queue_ ≫= λ queue,
  s_deal_loop (S (length queue)) available assigned ≫= λ assigned,
  lift (iterate assigned) ≫= λ as_,
  lift (CpuMap_Empty assigned) ≫= λ empty : bool,
  whenM (negb empty)
    (ask (λ n, s_submit env n as_) ≫= λ ret, check (ret =? 0) ≫= λ _,
     modify (add_event (SEvSubmit as_)) ≫= λ _,
     ask (s_now env) ≫= λ now,
     forM as_ (λ c, upd_cpu c (set_last_commit now))) ≫= λ _,
  gets yielding_tasks_ ≫= λ yielding,
  match yielding with
  | [] => mret tt
  | _ => forM yielding s_unyield_one ≫= λ _, modify (set_yielding [])
  end.

(** ** The global CPU *)

(** [enclave()->GetAgent(cpu)->Ping()] *)
Definition s_ping (c : Z) : M Sol unit :=
  if s_get_agent env c then modify (add_event (SEvPing c)) else abort UseAfterFree.

(** [SetGlobalCPU] *)
Definition S_SetGlobalCPU (c : Z) : M Sol unit :=
  lift (cpu_rep (s_topo env) c) ≫= λ r, modify (set_global (rep_core r) c).

(** The open transaction of the target, if any, is ended. *)
Definition s_retire (c : Z) : M Sol unit :=
  s_cpu c ≫= λ k,
  whenM (negb (next k =? 0))
    (S_Abort c ≫= λ aborted : bool,
     whenM (negb aborted) (CompleteRunRequest c ≫= λ _, mret tt) ≫= λ _,
     task_at (next k) ≫= λ t,
     SyncCpuState (cpu t) ≫= λ _, mret tt).

(** [PickNextGlobalCPU] *)
Definition S_PickNextGlobalCPU (this_cpu : Z) : M Sol bool :=
  gets global_cpu_ ≫= λ g,
  lift (cpu_rep (s_topo env) g) ≫= λ _,
  gets iterations_ ≫= λ n,
  if negb (Z.land n 255 =? 0) then mret false
  else
    pick_target (s_topo env) (s_enclave env) S_Available g ≫= λ target,
    match target with
    | None => mret false
    | Some c =>
        check (negb (c =? this_cpu)) ≫= λ _,
        s_retire c ≫= λ _,
        s_req c ≫= λ req, check (is_committed (txn_state req)) ≫= λ _,
        s_cpu c ≫= λ k, check (next k =? 0) ≫= λ _,
        whenM (negb (current k =? 0)) (task_at (current k) ≫= λ prev, check (has_state kOnCpu prev)) ≫= λ _,
        S_SetGlobalCPU c ≫= λ _,
        s_ping c ≫= λ _,
        mret true
    end.

(** ** The agent *)

Definition s_nop : M Sol unit := mret tt.

Global Instance Sol_ops : SchedOps Sol SolTask := {
  malloc := λ s, s_malloc env (s_allocator s);
  TaskNew := S_TaskNew;
  TaskRunnable := S_TaskRunnable;
  TaskDead := S_TaskDead;
  TaskDeparted := S_TaskDeparted;
  TaskYield := S_TaskYield;
  TaskBlocked := S_TaskBlocked;
  TaskPreempted := S_TaskPreempted;
  TaskSwitchto := S_TaskSwitchto;
  TaskAffinityChanged := λ _ _, s_nop;
  TaskPriorityChanged := λ _ _, s_nop;
  TaskOnCpu := λ _ _, s_nop;
  CpuTick := λ _, s_nop;
  CpuNotIdle := λ _, abort CheckFailed;
  CpuTimerExpired := λ _, abort CheckFailed;
  CpuAvailable := λ _, s_nop;
  CpuBusy := λ _, s_nop;
  AgentBlocked := λ _, s_nop;
  AgentWakeup := λ _, s_nop
}.

Definition upd_stats (f : SolStats → SolStats) : M Sol unit := modify (λ s, set_stats (f (stats s)) s).

(** [EnterSchedule], [ExitSchedule], [EnterDispatch], [ExitDispatch] *)
Definition EnterSchedule : M Sol unit :=
  gets stats ≫= λ x, check (schedule_timer_start_ x =? 0) ≫= λ _, ask (s_now env) ≫= λ now,
  upd_stats (λ x, mkSolStats now (schedule_durations_ x) (schedule_durations_total_ x) (dispatch_timer_start_ x)
                    (dispatch_durations_total_ x) (nr_msgs_ x)).

Definition ExitSchedule : M Sol unit :=
  gets stats ≫= λ x, check (negb (schedule_timer_start_ x =? 0)) ≫= λ _, ask (s_now env) ≫= λ now,
  let iter_time := now - schedule_timer_start_ x in
  upd_stats (λ x, mkSolStats 0 (schedule_durations_ x + iter_time) (schedule_durations_total_ x + iter_time)
                    (dispatch_timer_start_ x) (dispatch_durations_total_ x) (nr_msgs_ x)) ≫= λ _,
  modify (λ s, set_iterations (u64 (iterations_ s + 1)) s).

Definition EnterDispatch : M Sol unit :=
  gets stats ≫= λ x, check (dispatch_timer_start_ x =? 0) ≫= λ _, ask (s_now env) ≫= λ now,
  upd_stats (λ x, mkSolStats (schedule_timer_start_ x) (schedule_durations_ x) (schedule_durations_total_ x) now
                    (dispatch_durations_total_ x) (nr_msgs_ x)).

Definition ExitDispatch (nr_msgs : Z) : M Sol unit :=
  gets stats ≫= λ x, check (negb (dispatch_timer_start_ x =? 0)) ≫= λ _, ask (s_now env) ≫= λ now,
  upd_stats (λ x, mkSolStats (schedule_timer_start_ x) (schedule_durations_ x) (schedule_durations_total_ x) 0
                    (dispatch_durations_total_ x + (now - dispatch_timer_start_ x)) (u64 (nr_msgs_ x + nr_msgs))).

(** One turn of the loop of [AgentThread] on the agent of [c]: [msgs] are the
    messages it finds in the channel. *)
Definition S_AgentThread (c : Z) (boosted_priority : bool) (msgs : list Message) : M Sol unit :=
  gets global_cpu_ ≫= λ g,
  if negb (c =? g) then modify (add_event (SEvYield c))
  else
    (if boosted_priority then S_PickNextGlobalCPU c else mret false) ≫= λ moved : bool,
    if moved then mret tt
    else
      EnterSchedule ≫= λ _,
      EnterDispatch ≫= λ _,
      forM msgs (@DispatchMessage Sol SolTask _ _ Sol_ops) ≫= λ _,
      ExitDispatch (Z.of_nat (length msgs)) ≫= λ _,
      S_GlobalSchedule ≫= λ _,
      ExitSchedule.

(** The constructor, then [EnclaveReady].  [int32_t global_cpu] becomes the
    [uint32_t] argument of [IsSet]. *)
Definition Sol_new (global_cpu : Z) : outcome Sol :=
  CpuList_IsSet (u32 global_cpu) (s_enclave env) ≫= λ set,
  (if (set : bool) then Ok global_cpu
   else Front (s_enclave env) ≫= λ c, match c with Some c => Ok c | None => Crash CheckFailed end) ≫= λ g,
  Ok (mkSol (mkAllocator ∅ ∅) (λ _, mkSolCpu 0 0 false 0) (s_txns0 env) None g 0 [] [] 0
        (mkSolStats 0 0 0 0 0 0) 0 []).

Definition S_EnclaveReady : M Sol unit :=
  lift (iterate (s_enclave env)) ≫= λ cs,
  forM cs (λ c, upd_cpu c (set_agent (s_get_agent env c)) ≫= λ _, check (s_get_agent env c)).

(** [Empty] *)
Definition S_Empty (s : Sol) : bool := num_tasks_ s =? 0.
End sol.
