(* ===== verification/SolOps.v ===== *)
(** * SolOps: the invariant of the SOL agent, and its primitive operations

    Every task is in the queue or slot its state names, and the transaction of
    a CPU is open only while a task is in its slot [next].  Each primitive
    operation is one [moved].

    The primitive operations of the SOL agent, each one move. *)

From S2P Require Import Prelude Outcome CpuMap CpuMapSpec Topology TopologySpec Dispatch Placement Deals Txn Sol.
From stdpp Require Import gmap functions sorting.
From Stdlib Require Import ZArith Lia.

Local Open Scope Z_scope.

(** ** Places *)

Inductive SPlace := SRun | SYield | SCur (c : Z) | SNext (c : Z).

Global Instance SPlace_eq_dec : EqDecision SPlace.
Proof. solve_decision. Defined.

Definition sol_place (t : SolTask) : option SPlace :=
  match run_state t with
  | kQueued => Some SRun
  | kYielding => Some SYield
  | kOnCpu => SCur <$> cpu t
  | kPending => SNext <$> cpu t
  | _ => None
  end.

Definition s_queues (s : Sol) (k : SPlace) : list Z :=
  match k with
  | SRun => run_queue_ s
  | SYield => yielding_tasks_ s
  | SCur c => slot_list (current (s_cpus s c))
  | SNext c => slot_list (next (s_cpus s c))
  end.

Lemma slot_nil x : slot_list x = [] ↔ x = 0.
Proof. unfold slot_list. by destruct (Z.eqb_spec x 0). Qed.

(** What an operation on tasks does not change. *)
Record same_rest (s s' : Sol) : Prop := {
  sr_agent : ∀ c, agent (s_cpus s' c) = agent (s_cpus s c) ∧ last_commit (s_cpus s' c) = last_commit (s_cpus s c);
  sr_txns : s_txns s' = s_txns s;
  sr_core : global_cpu_core_ s' = global_cpu_core_ s;
  sr_global : global_cpu_ s' = global_cpu_ s;
  sr_num : num_tasks_ s' = num_tasks_ s;
  sr_iter : iterations_ s' = iterations_ s;
  sr_stats : stats s' = stats s
}.

Global Instance same_rest_refl : Reflexive same_rest.
Proof. by split. Qed.

Global Instance same_rest_trans : Transitive same_rest.
Proof.
  intros s1 s2 s3 [Ha Ht Hk Hg Hn Hi Hs] [Ha' Ht' Hk' Hg' Hn' Hi' Hs']. split; try congruence.
  intros c. destruct (Ha c), (Ha' c). split; congruence.
Qed.

Notation s_moved := (moved sol_place s_queues same_rest).

(** ** The environment and the invariant *)

(** The results of a transaction without flags that the agent expects. *)
Definition good_result (online : bool) (st : Z) : bool :=
  is_succeeded st || bool_decide (st ∈ [GHOST_TXN_TARGET_NOT_FOUND; GHOST_TXN_TARGET_STALE; GHOST_TXN_AGENT_STALE;
                        GHOST_TXN_CPU_UNAVAIL; GHOST_TXN_POISONED; GHOST_TXN_ABORTED]) ||
  ((st =? GHOST_TXN_NO_AGENT) && negb online).

Record sol_env_ok (env : SolEnv) : Prop := {
  se_topo : topo_ok (s_topo env);
  se_wf : cpulist_wf (s_enclave env);
  se_num : topology_num_cpus (s_enclave env) = num_cpus_ (s_topo env);
  se_nonempty : elems (s_enclave env) ≠ [];
  se_malloc : ∀ a : TaskAllocator SolTask, heap a !! 0 = None → s_malloc env a ≠ 0 ∧ heap a !! s_malloc env a = None;
  se_agent : ∀ c, c ∈ elems (s_enclave env) → s_get_agent env c = true;
  se_txns0 : ∀ c, is_committed (txn_state (s_txns0 env c)) = true ∧ txn_owner (s_txns0 env c) = kSyncGroupNotOwned;
  se_finish : ∀ n c, good_result (s_online env) (s_finish env n c) = true;
  se_race : ∀ n c, is_open (s_race env n c) || is_claimed (s_race env n c) || good_result (s_online env) (s_race env n c) = true;
  se_submit : ∀ n l, s_submit env n l = 0;
  se_now : ∀ n, s_now env n ≠ 0
}.

Lemma good_committed b st : good_result b st = true → is_committed st = true.
Proof.
  unfold good_result, is_committed, is_succeeded. rewrite !orb_true_iff, bool_decide_eq_true, andb_true_iff, !Z.eqb_eq.
  rewrite !elem_of_cons, elem_of_nil. intros H. apply Z.ltb_lt.
  unfold GHOST_TXN_TARGET_NOT_FOUND, GHOST_TXN_TARGET_STALE, GHOST_TXN_AGENT_STALE, GHOST_TXN_CPU_UNAVAIL, GHOST_TXN_POISONED,
    GHOST_TXN_ABORTED, GHOST_TXN_NO_AGENT, GHOST_TXN_COMPLETE in *. lia.
Qed.

Section inv.
Context (env : SolEnv).

Definition enclave_cpu (c : Z) : Prop := c ∈ elems (s_enclave env).

(** A transaction under way, or with a result. *)
Definition txn_live (t : Txn) : Prop :=
  (is_open (txn_state t) || is_claimed (txn_state t) || good_result (s_online env) (txn_state t) = true) ∧
  allow_txn_target_on_cpu t = false.

Definition stask_ok (t : SolTask) : Prop :=
  (∀ c, cpu t = Some c → enclave_cpu c) ∧
  (run_state t = kOnCpu ∨ run_state t = kPending → is_Some (cpu t)) ∧
  (run_state t = kPending → preempted t = false).

Record sol_mid (s : Sol) : Prop := {
  sm_alloc : alloc_inv (s_allocator s);
  sm_rest : at_rest sol_place (heap (s_allocator s)) (s_queues s);
  sm_task : ∀ p t, heap (s_allocator s) !! p = Some t → stask_ok t;
  sm_idle : ∀ c, enclave_cpu c → s_queues s (SNext c) = [] → is_committed (txn_state (s_txns s c)) = true;
  sm_live : ∀ c, s_queues s (SNext c) ≠ [] → txn_live (s_txns s c);
  sm_owner : ∀ c, txn_owner (s_txns s c) = kSyncGroupNotOwned;
  sm_agent : ∀ c, agent (s_cpus s c) = true ↔ enclave_cpu c;
  sm_global : enclave_cpu (global_cpu_ s);
  sm_next : next (s_cpus s (global_cpu_ s)) = 0
}.

(** Between operations no task is merely runnable, and [num_tasks_] counts. *)
Definition settled (s : Sol) : Prop := ∀ p t, heap (s_allocator s) !! p = Some t → run_state t ≠ kRunnable.
Definition counted (s : Sol) : Prop := num_tasks_ s = s32 (Z.of_nat (size (heap (s_allocator s)))).
Definition sol_inv (s : Sol) : Prop := sol_mid s ∧ settled s ∧ counted s.

Lemma s_enclave_range c : sol_env_ok env → enclave_cpu c → 0 ≤ c < num_cpus_ (s_topo env) ∧ c < MAX_CPUS.
Proof.
  intros Henv Hc. pose proof (elems_lt _ _ (se_wf _ Henv) Hc) as H. pose proof (wf_cpus _ (se_wf _ Henv)).
  rewrite <- (se_num _ Henv). unfold MAX_CPUS. lia.
Qed.

Lemma s_nonzero s p t : sol_mid s → heap (s_allocator s) !! p = Some t → p ≠ 0.
Proof. intros Hi Hp ->. pose proof (sm_alloc _ Hi) as [H _]. congruence. Qed.

(** A move keeps the invariant; the transaction of the CPU it moves to may change. *)
Lemma s_mid_moved_txns s p t0 t f s' g :
  sol_mid s → heap (s_allocator s) !! p = Some t0 → s_moved s p t f s' → gtid t = gtid t0 → stask_ok t →
  (∀ c, sol_place t0 = Some (SNext c) → sol_place t = Some (SNext c) ∨ is_committed (txn_state (g c)) = true) →
  (∀ c, sol_place t = Some (SNext c) → c ≠ global_cpu_ s ∧ txn_live (g c)) →
  (∀ c, g c = s_txns s c ∨ (sol_place t = Some (SNext c) ∧ txn_owner (g c) = kSyncGroupNotOwned)) →
  sol_mid (set_s_txns g s').
Proof.
  intros Hi Hp Hm Hg Hok Hout Hin Hgt. pose proof Hi as [Ha Hr Ht Hid Hl Ho Hag Hgl Hn].
  pose proof (mv_frame _ _ _ _ _ _ _ _ Hm) as [Fa _ _ Fg _ _ _].
  assert (∀ k, s_queues (set_s_txns g s') k = requeue sol_place p t f (s_queues s) k) as Hq.
  { intros k. rewrite <- (mv_queues _ _ _ _ _ _ _ _ Hm). by destruct k. }
  split; simpl; rewrite ?Fg; try done.
  - exact (moved_alloc _ _ _ s p t t0 f s' Hm Hp Hg Ha).
  - eapply (rest_ext sol_place _ (s_queues s')); [exact (moved_rest _ _ _ s p t f s' Hm Hr)|by intros []].
  - intros q u Hu. destruct (decide (q = p)) as [->|Hne].
    + pose proof (moved_at _ _ _ _ _ _ _ _ Hm) as Hu'. simpl in Hu'. rewrite Hu' in Hu. by injection Hu as <-.
    + pose proof (moved_other _ _ _ _ _ _ _ _ _ Hm Hne) as Hu'. simpl in Hu'. rewrite Hu' in Hu. by eapply Ht.
  - intros c Hc. change (slot_list (next (s_cpus s' c))) with (s_queues (set_s_txns g s') (SNext c)).
    rewrite Hq. rewrite (requeue_at sol_place s_queues s p t0) by done. cbv zeta.
    destruct (decide (sol_place t = Some (SNext c))) as [E|E]; [by destruct f; [|intros ?%app_nil; naive_solver]|].
    destruct (decide (sol_place t0 = Some (SNext c))) as [E0|E0]; [intros _; by destruct (Hout c E0)|].
    destruct (Hgt c) as [->|[? _]]; [by apply Hid|done].
  - intros c. change (slot_list (next (s_cpus s' c))) with (s_queues (set_s_txns g s') (SNext c)).
    rewrite Hq. rewrite (requeue_at sol_place s_queues s p t0) by done. cbv zeta.
    destruct (decide (sol_place t = Some (SNext c))) as [E|E]; [intros _; by apply Hin|].
    destruct (Hgt c) as [->|[? _]]; [|done].
    destruct (decide (sol_place t0 = Some (SNext c))) as [E0|E0]; [|by apply Hl]. intros Hne. apply Hl.
    intros E1. by rewrite E1 in Hne.
  - intros c. by destruct (Hgt c) as [->|[_ ?]].
  - intros c. rewrite (proj1 (Fa c)). apply Hag.
  - apply slot_nil. change (s_queues (set_s_txns g s') (SNext (global_cpu_ s)) = []).
    rewrite Hq, (requeue_at sol_place s_queues s p t0) by done.
    cbv zeta. apply slot_nil in Hn. change (s_queues s (SNext (global_cpu_ s)) = []) in Hn. rewrite Hn.
    destruct (decide (sol_place t = _)) as [E|E]; [by destruct (Hin _ E)|]. by destruct (decide _).
Qed.

Lemma s_mid_moved s p t0 t f s' :
  sol_mid s → heap (s_allocator s) !! p = Some t0 → s_moved s p t f s' → gtid t = gtid t0 → stask_ok t →
  (∀ c, sol_place t0 = Some (SNext c) → sol_place t = Some (SNext c) ∨ is_committed (txn_state (s_txns s c)) = true) →
  (∀ c, sol_place t = Some (SNext c) → c ≠ global_cpu_ s ∧ txn_live (s_txns s c)) → sol_mid s'.
Proof.
  intros Hi Hp Hm Hg Hok Hout Hin. replace s' with (set_s_txns (s_txns s) s').
  - eapply s_mid_moved_txns; [done|exact Hp|exact Hm|done|done|done|done|]. by left.
  - pose proof (sr_txns _ _ (mv_frame _ _ _ _ _ _ _ _ Hm)) as E. destruct s'. simpl in *. by rewrite <- E.
Qed.

(** A queue or a slot that holds a task. *)
Lemma s_place_in s p t k :
  sol_mid s → heap (s_allocator s) !! p = Some t → sol_place t = Some k → p ∈ s_queues s k.
Proof. intros Hi Hp Hk. eapply rest_in; [apply (sm_rest _ Hi)|exact Hp|exact Hk]. Qed.

Lemma s_place_live s p k :
  sol_mid s → p ∈ s_queues s k → ∃ t, heap (s_allocator s) !! p = Some t ∧ sol_place t = Some k.
Proof. intros Hi. apply rest_live, (sm_rest _ Hi). Qed.

Lemma s_slot_current s p t :
  sol_mid s → heap (s_allocator s) !! p = Some t → run_state t = kOnCpu →
  ∃ c, cpu t = Some c ∧ enclave_cpu c ∧ current (s_cpus s c) = p.
Proof.
  intros Hi Hp Hst. destruct (sm_task _ Hi p t Hp) as (Hc & Hs & _). destruct Hs as [c Ec]; [by left|].
  exists c. split_and!; [done|by apply Hc|]. assert (p ∈ s_queues s (SCur c)) as Hin.
  { eapply s_place_in; [done|exact Hp|]. unfold sol_place. by rewrite Hst, Ec. }
  simpl in Hin. by apply elem_of_slot in Hin as [_ ->].
Qed.

Lemma s_slot_next s p t :
  sol_mid s → heap (s_allocator s) !! p = Some t → run_state t = kPending →
  ∃ c, cpu t = Some c ∧ enclave_cpu c ∧ next (s_cpus s c) = p.
Proof.
  intros Hi Hp Hst. destruct (sm_task _ Hi p t Hp) as (Hc & Hs & _). destruct Hs as [c Ec]; [by right|].
  exists c. split_and!; [done|by apply Hc|]. assert (p ∈ s_queues s (SNext c)) as Hin.
  { eapply s_place_in; [done|exact Hp|]. unfold sol_place. by rewrite Hst, Ec. }
  simpl in Hin. by apply elem_of_slot in Hin as [_ ->].
Qed.

Lemma s_current_task s c :
  sol_mid s → current (s_cpus s c) ≠ 0 →
  ∃ t, heap (s_allocator s) !! current (s_cpus s c) = Some t ∧ run_state t = kOnCpu ∧ cpu t = Some c.
Proof.
  intros Hi Hne. assert (current (s_cpus s c) ∈ s_queues s (SCur c)) as Hin by (simpl; by apply elem_of_slot).
  destruct (s_place_live _ _ _ Hi Hin) as (t & Ht & E). exists t. unfold sol_place in E.
  destruct (run_state t), (cpu t); naive_solver.
Qed.

Lemma s_next_task s c :
  sol_mid s → next (s_cpus s c) ≠ 0 →
  ∃ t, heap (s_allocator s) !! next (s_cpus s c) = Some t ∧ run_state t = kPending ∧ cpu t = Some c.
Proof.
  intros Hi Hne. assert (next (s_cpus s c) ∈ s_queues s (SNext c)) as Hin by (simpl; by apply elem_of_slot).
  destruct (s_place_live _ _ _ Hi Hin) as (t & Ht & E). exists t. unfold sol_place in E.
  destruct (run_state t), (cpu t); naive_solver.
Qed.
End inv.

(** ** The primitive operations of the SOL agent, each one move *)

(** Proves that the state at hand is a move of the task [p], which was [t0]. *)
Ltac show_moved s p t0 :=
  split; [try reflexivity| |split; try done; intros d; simpl;
    repeat match goal with
      | |- context [ (<[?c := _]> _) ?d ] => destruct (decide (c = d)) as [<-|];
          [rewrite ?fn_lookup_insert|rewrite ?fn_lookup_insert_ne by done]; simpl
      end; done];
  intros k; rewrite (requeue_at sol_place s_queues s p t0) by done; cbv zeta;
  destruct k as [| |d|d]; simpl;
  repeat match goal with
    | |- context [ (<[?c := _]> _) ?d ] => destruct (decide (c = d)) as [<-|];
        [rewrite ?fn_lookup_insert|rewrite ?fn_lookup_insert_ne by done]; simpl
    end.

Section ops.
Context (env : SolEnv) (Henv : sol_env_ok env).

Notation sol_mid := (sol_mid env).
Notation enclave_cpu := (enclave_cpu env).

(** ** Access *)

Lemma wp_s_cpu c s (Q : SolCpu → Sol → Prop) : 0 ≤ c < MAX_CPUS → Q (s_cpus s c) s → wp (s_cpu c) s Q.
Proof. intros Hr HQ. unfold s_cpu. by rewrite (proj2 (Z.leb_le 0 c)), (proj2 (Z.ltb_lt c MAX_CPUS)) by lia. Qed.

Lemma wp_s_upd_cpu c f s (Q : unit → Sol → Prop) :
  0 ≤ c < MAX_CPUS → Q tt (set_s_cpus (<[c := f (s_cpus s c)]> (s_cpus s)) s) → wp (upd_cpu c f) s Q.
Proof. intros Hr HQ. unfold upd_cpu. wpstep. apply wp_s_cpu; [done|]. by wpstep. Qed.

Lemma wp_s_req c s (Q : Txn → Sol → Prop) : 0 ≤ c < MAX_CPUS → Q (s_txns s c) s → wp (s_req c) s Q.
Proof. intros Hr HQ. unfold s_req. by rewrite (proj2 (Z.leb_le 0 c)), (proj2 (Z.ltb_lt c MAX_CPUS)) by lia. Qed.

Lemma wp_s_ask {A} (f : nat → A) s (Q : A → Sol → Prop) : Q (f (asked s)) (tick s) → wp (ask f) s Q.
Proof. intros HQ. unfold ask. by repeat wpstep. Qed.

Lemma s_cpu_range c : enclave_cpu c → 0 ≤ c < MAX_CPUS.
Proof using Henv. intros Hc. pose proof (s_enclave_range env c Henv Hc). lia. Qed.

(** ** Queues *)

Definition s_boosted (t : SolTask) : bool := prio_boost t || preempted t.

Lemma wp_S_Enqueue s p t (Q : unit → Sol → Prop) :
  sol_mid s → heap (s_allocator s) !! p = Some t → run_state t = kRunnable →
  (∀ s', s_moved s p (set_run_state kQueued t) (s_boosted t) s' → Q tt s') → wp (S_Enqueue p) s Q.
Proof.
  intros Hi Hp Hst HQ. pose proof (sm_rest _ _ Hi) as Hr. unfold S_Enqueue. wpstep. eapply wp_task; [exact Hp|]. wpstep.
  wpstep; [by apply bool_decide_eq_true|]. wpstep. eapply wp_upd; [exact Hp|]. wpstep. apply HQ.
  assert (sol_place t = None) as E0 by (unfold sol_place; by rewrite Hst).
  show_moved s p t; rewrite ?E0, ?decide_False by done; first [done|by destruct (s_boosted t)].
Qed.

Lemma wp_S_RemoveFromRunqueue s p t (Q : unit → Sol → Prop) :
  sol_mid s → heap (s_allocator s) !! p = Some t → run_state t = kQueued →
  (∀ s', s_moved s p (set_run_state kRunnable t) false s' → Q tt s') → wp (S_RemoveFromRunqueue p) s Q.
Proof.
  intros Hi Hp Hst HQ. pose proof (sm_rest _ _ Hi) as Hr. assert (sol_place t = Some SRun) as E0 by (unfold sol_place; by rewrite Hst).
  pose proof (s_place_in env s p t SRun Hi Hp E0) as Hin. simpl in Hin.
  unfold S_RemoveFromRunqueue. wpstep. eapply wp_task; [exact Hp|]. wpstep. wpstep; [by apply bool_decide_eq_true|]. wpstep. wpstep.
  destruct (rfind_spec p (run_queue_ s) (length (run_queue_ s))) as (i & -> & Hi'); [done|by rewrite firstn_all|].
  wpstep. eapply wp_upd; [exact Hp|]. wpstep. rewrite (delete_others p) by (first [done|apply (proj2 Hr SRun)]).
  apply HQ. show_moved s p t; rewrite E0, ?decide_False by done; first [done|by rewrite decide_True].
Qed.

Lemma wp_S_Dequeue s p l (Q : Z → Sol → Prop) :
  sol_mid s → run_queue_ s = p :: l →
  (∀ t s', heap (s_allocator s) !! p = Some t → run_state t = kQueued → s_moved s p (set_run_state kRunnable t) false s' →
     run_queue_ s' = l → Q p s') → wp S_Dequeue s Q.
Proof.
  intros Hi Hl HQ. pose proof (sm_rest _ _ Hi) as Hr. assert (p ∈ s_queues s SRun) as Hin by (simpl; rewrite Hl; by left).
  destruct (s_place_live env s p SRun Hi Hin) as (t & Hp & E0).
  assert (run_state t = kQueued) as Hst by (unfold sol_place in E0; destruct (run_state t), (cpu t); naive_solver).
  unfold S_Dequeue. wpstep. wpstep. rewrite Hl. wpstep. eapply wp_task; [exact Hp|]. wpstep.
  wpstep; [by apply bool_decide_eq_true|]. wpstep. eapply wp_upd; [exact Hp|]. wpstep. wpstep. wpstep.
  apply (HQ t); [done|done| |done]. show_moved s p t; rewrite E0, ?decide_False by done; try done; rewrite ?decide_True, Hl, others_cons_self by done;
  symmetry; apply others_notin; pose proof (proj2 Hr SRun) as Hnd; simpl in Hnd; rewrite Hl in Hnd; by apply NoDup_cons in Hnd as [? _].
Qed.

Lemma wp_S_Yield s p t (Q : unit → Sol → Prop) :
  sol_mid s → heap (s_allocator s) !! p = Some t → run_state t = kRunnable →
  (∀ s', s_moved s p (set_run_state kYielding t) false s' → Q tt s') → wp (S_Yield p) s Q.
Proof.
  intros Hi Hp Hst HQ. pose proof (sm_rest _ _ Hi) as Hr. assert (sol_place t = None) as E0 by (unfold sol_place; by rewrite Hst).
  unfold S_Yield. wpstep. eapply wp_task; [exact Hp|]. wpstep. wpstep; [unfold has_state; by rewrite Hst|].
  wpstep. eapply wp_upd; [exact Hp|]. wpstep. apply HQ. show_moved s p t; rewrite E0, ?decide_False by done; try done.
Qed.

Lemma wp_S_Unyield s p t (Q : unit → Sol → Prop) :
  sol_mid s → heap (s_allocator s) !! p = Some t → run_state t = kYielding →
  (∀ s', s_moved s p (set_run_state kQueued t) (s_boosted t) s' → Q tt s') → wp (S_Unyield p) s Q.
Proof.
  intros Hi Hp Hst HQ. pose proof (sm_rest _ _ Hi) as Hr. assert (sol_place t = Some SYield) as E0 by (unfold sol_place; by rewrite Hst).
  pose proof (s_place_in env s p t SYield Hi Hp E0) as Hin. simpl in Hin.
  unfold S_Unyield. wpstep. eapply wp_task; [exact Hp|]. wpstep. wpstep; [by apply bool_decide_eq_true|]. wpstep. wpstep.
  destruct (find_first_spec p (yielding_tasks_ s) Hin) as (i & -> & Hi').
  wpstep. wpstep. rewrite (delete_others p) by (first [done|apply (proj2 Hr SYield)]). wpstep. eapply wp_upd; [exact Hp|]. simpl.
  set (s1 := set_s_allocator _ _). assert (s_moved s p (set_run_state kRunnable t) false s1) as Hm.
  { show_moved s p t; rewrite E0, ?decide_False by done; first [done|by rewrite decide_True]. }
  eapply (wp_S_Enqueue s1 p (set_run_state kRunnable t)); [|exact (moved_at _ _ _ _ _ _ _ _ Hm)|done|].
  - eapply (s_mid_moved env s p t); [done|exact Hp|exact Hm|done| | |done].
    + destruct (sm_task _ _ Hi p t Hp) as (? & ? & ?). split_and!; [done|by intros [?|?]|done].
    + intros c. by rewrite E0.
  - intros s' Hm'. apply HQ. exact (moved_again _ _ _ _ _ _ _ _ _ _ _ Hm Hm').
Qed.

(** ** Off the CPU *)

Lemma stask_state t r :
  stask_ok env t → r ≠ kOnCpu → r ≠ kPending → stask_ok env (set_run_state r t).
Proof. intros (H1 & H2 & H3) Hr1 Hr2. split_and!; simpl; [done|by intros [?|?]|done]. Qed.

(** A move that leaves the transactions alone. *)
Lemma mid_moved_plain s p t0 t f s' :
  sol_mid s → heap (s_allocator s) !! p = Some t0 → s_moved s p t f s' → gtid t = gtid t0 → stask_ok env t →
  run_state t0 ≠ kPending → run_state t ≠ kPending → sol_mid s'.
Proof.
  intros Hi Hp Hm Hg Hok H0 H1.
  apply (s_mid_moved env s p t0 t f s' Hi Hp Hm Hg Hok); intros c E; unfold sol_place in E.
  - destruct (run_state t0), (cpu t0); naive_solver.
  - destruct (run_state t), (cpu t); naive_solver.
Qed.

Definition off_state (blocked : bool) : SolState := if blocked then kBlocked else kRunnable.

Lemma wp_S_TaskOffCpu s p t blocked switchto (Q : unit → Sol → Prop) :
  sol_mid s → heap (s_allocator s) !! p = Some t → run_state t = kOnCpu ∨ (switchto = true ∧ run_state t = kBlocked) →
  (∀ s', s_moved s p (set_run_state (off_state blocked) t) false s' → Q tt s') → wp (S_TaskOffCpu p blocked switchto) s Q.
Proof using Henv.
  intros Hi Hp Hst HQ. pose proof (sm_rest _ _ Hi) as Hr. unfold S_TaskOffCpu. wpstep. eapply wp_task; [exact Hp|]. unfold has_state. wpstep.
  assert (sol_place (set_run_state (off_state blocked) t) = None) as E1 by (by destruct blocked). case_bool_decide as Hon.
  - destruct (s_slot_current env s p t Hi Hp Hon) as (c & Ec & Hc & Hcur). pose proof (s_cpu_range c Hc) as Hrg.
    assert (sol_place t = Some (SCur c)) as E0 by (unfold sol_place; by rewrite Hon, Ec).
    unfold s_cpu_of. do 2 wpstep. eapply wp_task; [exact Hp|]. rewrite Ec. wpstep. wpstep; [unfold has_state; by rewrite Hon|].
    wpstep. apply wp_s_cpu; [done|]. wpstep. wpstep; [rewrite Hcur, Z.eqb_refl; done|]. wpstep. wpstep. apply wp_s_cpu; [done|].
    wpstep. wpstep; [by apply Z.eqb_eq|]. apply wp_s_upd_cpu; [done|]. eapply wp_upd; [exact Hp|]. apply HQ.
    fold (off_state blocked). show_moved s p t; rewrite E0, E1, ?(decide_False (P := None = _)) by done; rewrite ?decide_False by congruence; try done.
    rewrite decide_True by done. rewrite Hcur. unfold slot_list. rewrite (proj2 (Z.eqb_neq p 0)) by (by eapply s_nonzero). by rewrite others_self.
  - destruct Hst as [|[-> Hb]]; [done|]. wpstep. wpstep; [done|]. wpstep; [by apply bool_decide_eq_true|].
    eapply wp_upd; [exact Hp|]. apply HQ. fold (off_state blocked).
    apply (moved_put _ _ _ s p t); try done. unfold sol_place. by rewrite Hb.
Qed.

(** ** Transactions *)

Definition on_cpu_task (t : SolTask) : SolTask := set_prio_boost false (set_run_state kOnCpu t).

(** The task on [c] makes way, if there is one. *)
Definition evicted (s : Sol) (c : Z) (s1 : Sol) : Prop :=
  if current (s_cpus s c) =? 0 then s1 = s
  else ∃ u, heap (s_allocator s) !! current (s_cpus s c) = Some u ∧
    s_moved s (current (s_cpus s c)) (set_run_state kPreemptedByAgent u) false s1.

(** The transaction of [c] is over: its task runs, or is queued again. *)
Definition synced (s : Sol) (c : Z) (ok : bool) (s' : Sol) : Prop :=
  ∃ t, heap (s_allocator s) !! next (s_cpus s c) = Some t ∧ run_state t = kPending ∧ cpu t = Some c ∧
    if ok then ∃ s1, evicted s c s1 ∧ s_moved s1 (next (s_cpus s c)) (on_cpu_task t) false s'
    else s_moved s (next (s_cpus s c)) (set_run_state kQueued t) (s_boosted t) s'.

Lemma wp_evict s c p t :
  sol_mid s → enclave_cpu c → next (s_cpus s c) = p → heap (s_allocator s) !! p = Some t → run_state t = kPending →
  cpu t = Some c → preempted t = false → is_committed (txn_state (s_txns s c)) = true →
  wp (whenM (negb (current (s_cpus s c) =? 0))
        (task_at (current (s_cpus s c)) ≫= λ u, check (has_state kOnCpu u) ≫= λ _,
         upd_task (current (s_cpus s c)) (set_run_state kPreemptedByAgent)) ≫= λ _,
      upd_cpu c (set_current p) ≫= λ _,
      upd_task p (λ t, set_prio_boost false (set_run_state kOnCpu t)))
    (set_s_cpus (<[c := set_next 0 (s_cpus s c)]> (s_cpus s)) s)
    (λ _ s', ∃ s1, evicted s c s1 ∧ s_moved s1 p (on_cpu_task t) false s' ∧ sol_mid s').
Proof using Henv.
  intros Hi Hc Hn Hp Hst Hcpu Hpre Hcom. pose proof (s_cpu_range c Hc) as Hr. pose proof (s_nonzero env s p t Hi Hp) as Hp0.
  assert (sol_place t = Some (SNext c)) as E0 by (unfold sol_place; by rewrite Hst, Hcpu).
  assert (∀ s1 s2, sol_mid s1 → heap (s_allocator s1) !! p = Some t → current (s_cpus s1 c) = 0 → s_txns s1 = s_txns s →
    s_moved s1 p (on_cpu_task t) false s2 → sol_mid s2) as Hmid.
  { intros s1 s2 H1 Hp1 _ Ht Hm. eapply (s_mid_moved env s1 p t); [done|exact Hp1|exact Hm|done| |..].
    - destruct (sm_task _ _ H1 p t Hp1) as (? & ? & ?). split_and!; simpl; [done|rewrite Hcpu; eauto|done].
    - intros d E. rewrite E0 in E. injection E as <-. right. by rewrite Ht.
    - intros d E. unfold sol_place in E. simpl in E. rewrite Hcpu in E. done. }
  wpstep. unfold evicted. destruct (Z.eqb_spec (current (s_cpus s c)) 0) as [Ecur|Ecur]; simpl.
  - wpstep. wpstep. apply wp_s_upd_cpu; [done|]. eapply wp_upd; [exact Hp|]. exists s. split; [done|]. set (s2 := set_allocator _ _).
    assert (s_moved s p (on_cpu_task t) false s2) as Hm; [|split; [done|by apply (Hmid s)]].
    pose proof (sm_rest _ _ Hi) as Hrest.
    show_moved s p t; rewrite E0; unfold sol_place, on_cpu_task; simpl; rewrite Hcpu; simpl; rewrite ?decide_False by congruence; try done.
    + rewrite decide_True by done. rewrite Ecur. simpl. unfold slot_list. by rewrite (proj2 (Z.eqb_neq p 0)).
    + rewrite decide_True by done. rewrite Hn. unfold slot_list. rewrite (proj2 (Z.eqb_neq p 0)) by done. by rewrite others_self.
  - destruct (s_current_task env s c Hi Ecur) as (u & Hu & Hus & Huc). set (q := current (s_cpus s c)) in *.
    assert (p ≠ q) as Hne by (intros ->; congruence).
    set (s1 := set_s_cpus (<[c := set_current 0 (s_cpus s c)]> (s_cpus s)) (set_s_allocator (put_obj q (set_run_state kPreemptedByAgent u) (s_allocator s)) s)).
    pose proof (sm_rest _ _ Hi) as Hrest. assert (sol_place u = Some (SCur c)) as Eu by (unfold sol_place; by rewrite Hus, Huc).
    assert (s_moved s q (set_run_state kPreemptedByAgent u) false s1) as Hm1.
    { show_moved s q u; rewrite Eu; unfold sol_place; simpl; rewrite ?decide_False by congruence; try done.
      rewrite decide_True by done. fold q. unfold slot_list. rewrite (proj2 (Z.eqb_neq q 0)) by done. by rewrite others_self. }
    assert (sol_mid s1) as H1.
    { eapply (mid_moved_plain s q u); [done|exact Hu|exact Hm1|done|..]; [|by rewrite Hus|done].
      apply stask_state; [by apply (sm_task _ _ Hi q)|done..]. }
    wpstep. eapply wp_task; [exact Hu|]. wpstep. wpstep; [by apply bool_decide_eq_true|]. eapply wp_upd; [exact Hu|].
    wpstep. apply wp_s_upd_cpu; [done|]. eapply wp_upd; [simpl; by rewrite lookup_insert_ne|].
    exists s1. split; [by exists u|]. set (s2 := set_allocator _ _).
    assert (heap (s_allocator s1) !! p = Some t) as Hp1 by (simpl; by rewrite lookup_insert_ne).
    assert (s_moved s1 p (on_cpu_task t) false s2) as Hm; [|split; [done|apply (Hmid s1); try done; simpl; by rewrite fn_lookup_insert]].
    pose proof (sm_rest _ _ H1) as Hrest1.
    show_moved s1 p t; rewrite E0; unfold sol_place, on_cpu_task; simpl; rewrite Hcpu; simpl; rewrite ?decide_False by congruence; try done.
    + rewrite decide_True by done. unfold slot_list. by rewrite (proj2 (Z.eqb_neq p 0)).
    + rewrite decide_True by done. rewrite Hn. unfold slot_list. rewrite (proj2 (Z.eqb_neq p 0)) by done. by rewrite others_self.
Qed.

Lemma wp_SyncCpuState s c :
  sol_mid s → enclave_cpu c → next (s_cpus s c) ≠ 0 → is_committed (txn_state (s_txns s c)) = true →
  wp (SyncCpuState (Some c)) s (λ ok s', ok = is_succeeded (txn_state (s_txns s c)) ∧ synced s c ok s' ∧ sol_mid s').
Proof using Henv.
  intros Hi Hc Hne Hcom. pose proof (s_cpu_range c Hc) as Hr. destruct (s_next_task env s c Hi Hne) as (t & Hp & Hst & Hcpu).
  set (p := next (s_cpus s c)) in *. destruct (sm_task _ _ Hi p t Hp) as (Hok1 & Hok2 & Hpre). specialize (Hpre Hst).
  pose proof (sm_rest _ _ Hi) as Hrest. assert (sol_place t = Some (SNext c)) as E0 by (unfold sol_place; by rewrite Hst, Hcpu).
  unfold SyncCpuState. wpstep. apply wp_s_cpu; [done|]. wpstep. wpstep; [by apply negb_true_iff, Z.eqb_neq|]. cbv zeta. fold p.
  wpstep. eapply wp_task; [exact Hp|]. wpstep. wpstep; [by apply bool_decide_eq_true|]. wpstep. apply wp_s_req; [done|].
  wpstep. wpstep; [done|]. wpstep. apply wp_s_upd_cpu; [done|]. wpstep. wpstep; [by rewrite Hpre|].
  destruct (is_succeeded (txn_state (s_txns s c))) eqn:Esucc.
  - pose proof (wp_evict s c p t Hi Hc eq_refl Hp Hst Hcpu Hpre Hcom) as H.
    set (m1 := whenM _ _) in *. clearbody m1. set (m2 := upd_cpu c _) in *. clearbody m2. set (m3 := upd_task p _) in *. clearbody m3.
    unfold wp, mbind, M_bind in *. destruct (m1 _) as [[? sa]|]; [|done]. destruct (m2 sa) as [[? sb]|]; [|done].
    destruct (m3 sb) as [[? sc]|]; [|done]. destruct H as (s1 & He & Hm & Hmid). split; [done|]. split; [|done].
    exists t. split_and!; [done..|]. by exists s1.
  - wpstep. eapply wp_upd; [exact Hp|]. set (s1 := set_allocator _ _).
    assert (s_moved s p (set_run_state kRunnable t) false s1) as Hm.
    { show_moved s p t; rewrite E0; unfold sol_place; simpl; rewrite ?decide_False by congruence; try done.
      rewrite decide_True by done. fold p. unfold slot_list. rewrite (proj2 (Z.eqb_neq p 0)) by done. by rewrite others_self. }
    assert (stask_ok env (set_run_state kRunnable t)) as Hok by (apply stask_state; [by split_and!|done..]).
    assert (sol_mid s1) as H1.
    { eapply (s_mid_moved env s p t); [done|exact Hp|exact Hm|done|exact Hok|..].
      - intros d E. rewrite E0 in E. injection E as <-. by right.
      - done. }
    wpstep. eapply (wp_S_Enqueue s1 p (set_run_state kRunnable t)); [done|exact (moved_at _ _ _ _ _ _ _ _ Hm)|done|].
    intros s2 Hm2. wpstep. split; [done|]. split.
    + exists t. split_and!; [done..|]. exact (moved_again _ _ _ _ _ _ _ _ _ _ _ Hm Hm2).
    + eapply (mid_moved_plain s1 p); [done|exact (moved_at _ _ _ _ _ _ _ _ Hm)|exact Hm2|done| |done|done].
      by apply stask_state.
Qed.

(** The kernel's part: the transaction of a pending task changes its state. *)
Definition txn_changed (s : Sol) (c st : Z) (s' : Sol) : Prop :=
  ∃ n l, s' = mkSol (s_allocator s) (s_cpus s) (<[c := set_txn_state st (s_txns s c)]> (s_txns s)) (global_cpu_core_ s)
    (global_cpu_ s) (num_tasks_ s) (run_queue_ s) (yielding_tasks_ s) (iterations_ s) (stats s) n l.

Definition live_state (st : Z) : Prop := is_open st || is_claimed st || good_result (s_online env) st = true.

Lemma mid_txn s c st s' :
  sol_mid s → next (s_cpus s c) ≠ 0 → live_state st → txn_changed s c st s' → sol_mid s'.
Proof.
  intros [Ha Hr Ht Hid Hl Ho Hag Hgl Hn] Hne Hst (n & l & ->). assert (s_queues s (SNext c) ≠ []) as Hq by (simpl; by rewrite slot_nil).
  split; simpl; try done.
  - intros d Hd Hd0. destruct (decide (c = d)) as [<-|Hcd]; [done|]. rewrite fn_lookup_insert_ne by done. by apply Hid.
  - intros d Hd. destruct (decide (c = d)) as [<-|Hcd]; [|rewrite fn_lookup_insert_ne by done; by apply Hl].
    rewrite fn_lookup_insert. split; [done|]. by apply (Hl c).
  - intros d. destruct (decide (c = d)) as [<-|Hcd]; [rewrite fn_lookup_insert; apply Ho|by rewrite fn_lookup_insert_ne].
Qed.

Lemma complete_good t st :
  good_result (s_online env) st = true → txn_state t = st → complete_result (s_online env) t = Ok (is_succeeded st).
Proof.
  intros Hg <-. unfold complete_result. unfold good_result in Hg. destruct (is_succeeded (txn_state t)); [done|].
  unfold expected_failure. simpl in Hg. by rewrite Hg.
Qed.

(** A transaction that is committed is as it was, or else the kernel ends it. *)
Definition completed (s : Sol) (c : Z) (s' : Sol) : Prop :=
  if is_committed (txn_state (s_txns s c)) then s' = s
  else ∃ st, good_result (s_online env) st = true ∧ txn_changed s c st s'.

Lemma wp_CompleteRunRequest s c (Q : bool → Sol → Prop) :
  sol_mid s → enclave_cpu c → next (s_cpus s c) ≠ 0 →
  (∀ b s', completed s c s' → sol_mid s' → is_committed (txn_state (s_txns s' c)) = true → s_cpus s' = s_cpus s →
     s_allocator s' = s_allocator s → Q b s') → wp (CompleteRunRequest env c) s Q.
Proof using Henv.
  intros Hi Hc Hne HQ. pose proof (s_cpu_range c Hc) as Hr. unfold CompleteRunRequest. wpstep. apply wp_s_req; [done|].
  assert (s_queues s (SNext c) ≠ []) as Hq by (simpl; by rewrite slot_nil). destruct (sm_live _ _ Hi c Hq) as [Hlive Hallow].
  unfold completed in HQ. wpstep. destruct (is_committed (txn_state (s_txns s c))) eqn:Ecom.
  - wpstep. assert (good_result (s_online env) (txn_state (s_txns s c)) = true) as Hg.
    { apply orb_true_iff in Hlive as [Hlive|]; [|done]. exfalso. unfold is_open, is_claimed, is_committed, GHOST_TXN_READY in *.
      apply Z.ltb_lt in Ecom. apply orb_true_iff in Hlive as [H|H]; [apply Z.eqb_eq in H|apply andb_true_iff in H as [H%Z.leb_le _]]; lia. }
    rewrite (complete_good (s_txns s c) _ Hg eq_refl). wpstep. by apply HQ.
  - wpstep. apply wp_s_ask. unfold put_txn. do 3 wpstep.
    rewrite (complete_good (set_txn_state (s_finish env (asked s) c) (s_txns s c)) _ (se_finish _ Henv (asked s) c) eq_refl). wpstep.
    set (s2 := set_s_txns _ _). assert (txn_changed s c (s_finish env (asked s) c) s2) as Hch by (by exists (S (asked s)), (log s)).
    apply HQ; try done.
    + exists (s_finish env (asked s) c). split; [apply (se_finish _ Henv)|done].
    + eapply mid_txn; [exact Hi|done| |exact Hch]. unfold live_state. by rewrite (se_finish _ Henv), orb_true_r.
    + simpl. rewrite fn_lookup_insert. simpl. eapply good_committed, (se_finish _ Henv).
Qed.
End ops.
