(* ===== verification/SolHandlers.v ===== *)
(** * SolHandlers: the message handlers of the SOL agent, each one move

    A message about a pending task first ends its transaction.  [s_after] is the
    task after the message; a dying task is gone from every queue. *)

From S2P Require Import Prelude Outcome CpuMap CpuMapSpec.
From S2P Require Import Topology TopologySpec Dispatch Placement Txn Deals Sol SolOps.
From stdpp Require Import gmap functions sorting.
From Stdlib Require Import ZArith Lia.

Local Open Scope Z_scope.

(** The task [p] is freed. *)
Record s_gone (s : Sol) (p : Z) (s' : Sol) : Prop := {
  sg_heap : heap (s_allocator s') = delete p (heap (s_allocator s));
  sg_queues : ∀ k, s_queues s' k = others p (s_queues s k);
  sg_frame : same_rest (set_num_tasks (s32 (num_tasks_ s - 1)) s) s'
}.

Lemma s_gone_moved s p t f s1 s' : s_moved s p t f s1 → s_gone s1 p s' → s_gone s p s'.
Proof.
  intros [Ha Hq [Fa Ft Fk Fg Fn Fi Fs]] [Hh Hq' [Ga Gt Gk Gg Gn Gi Gs]]. simpl in *. split.
  - rewrite Hh, Ha. simpl. apply delete_insert_eq.
  - intros k. by rewrite Hq', Hq, others_requeue.
  - split; simpl; try congruence. intros c. destruct (Fa c), (Ga c). split; congruence.
Qed.

Section handlers.
Context (env : SolEnv) (Henv : sol_env_ok env).

Notation sol_mid := (sol_mid env).
Notation sol_inv := (sol_inv env).
Notation enclave_cpu := (enclave_cpu env).

(** ** What survives *)

Lemma settled_moved s p t f s' : s_moved s p t f s' → run_state t ≠ kRunnable → settled s → settled s'.
Proof.
  intros Hm Ht Hs q u Hu. destruct (decide (q = p)) as [->|Hne].
  - pose proof (moved_at _ _ _ _ _ _ _ _ Hm) as E. simpl in E. congruence.
  - pose proof (moved_other _ _ _ _ _ _ _ _ _ Hm Hne) as E. simpl in E. rewrite E in Hu. by apply (Hs q).
Qed.

Lemma counted_moved s p t f s' :
  s_moved s p t f s' → is_Some (heap (s_allocator s) !! p) → counted s → counted s'.
Proof.
  intros Hm Hp Hc. unfold counted in *. pose proof (moved_size _ _ _ _ _ _ _ _ Hm Hp) as E. simpl in E.
  by rewrite E, (sr_num _ _ (mv_frame _ _ _ _ _ _ _ _ Hm)).
Qed.

Lemma inv_moved s p t0 t f s' :
  sol_inv s → heap (s_allocator s) !! p = Some t0 → s_moved s p t f s' → sol_mid s' → run_state t ≠ kRunnable → sol_inv s'.
Proof.
  intros (Hi & Hs & Hc) Hp Hm Hmid Ht. split_and!; [done|by eapply settled_moved|by eapply counted_moved].
Qed.

Lemma wp_s_free s p t (Q : unit → Sol → Prop) :
  sol_mid s → heap (s_allocator s) !! p = Some t → sol_place t = None → run_state t ≠ kPending →
  (∀ s', s_gone s p s' → sol_mid s' → Q tt s') → wp (s_free p) s Q.
Proof.
  intros Hi Hp Hpl Hne HQ. unfold s_free. wpstep. eapply wp_free; [exact Hp|]. wpstep. simpl. set (s' := set_num_tasks _ _).
  assert (∀ k, s_queues s' k = s_queues s k) as Hq by (by intros []).
  assert (∀ k, others p (s_queues s k) = s_queues s k) as Ho.
  { intros k. apply (rest_others sol_place _ _ p t k (sm_rest _ _ Hi) Hp). by rewrite Hpl. }
  apply HQ.
  - split; [done|intros k; by rewrite Hq, Ho|by split].
  - destruct Hi as [Ha Hr Ht Hid Hl Howner Hag Hgl Hn]. split; try done.
    + destruct (alloc_inv_free (s_allocator s) p t Ha Hp) as [_ Ha']. exact Ha'.
    + eapply (rest_ext sol_place _ (s_queues s)); [|exact Hq]. eapply rest_free; [exact Hr|exact Hp|exact Hpl].
    + intros q u. simpl. intros [_ Hu]%lookup_delete_Some. by eapply Ht.
Qed.

Lemma gone_inv s p s' : sol_mid s' → settled s → counted s → is_Some (heap (s_allocator s) !! p) → s_gone s p s' → sol_inv s'.
Proof.
  intros Hi Hs Hc [t Hp] [Hh _ [_ _ _ _ Hn _ _]]. split_and!; [done|..].
  - intros q u. rewrite Hh. intros [_ Hu]%lookup_delete_Some. by eapply Hs.
  - unfold counted in *. rewrite Hn, Hh, Hc. simpl. rewrite map_size_delete_Some by eauto.
    rewrite <- Z.add_opp_r, s32_add. f_equal. assert (size (heap (s_allocator s)) ≠ 0%nat).
    { intros E0%map_size_empty_inv. rewrite E0, lookup_empty in Hp. done. }
    lia.
Qed.

(** ** Pending tasks *)

(** The transaction of [t] succeeded and its CPU has no other task. *)
Definition started (s : Sol) (t : SolTask) : Prop :=
  run_state t = kPending ∧ ∃ c, cpu t = Some c ∧ current (s_cpus s c) = 0 ∧ is_succeeded (txn_state (s_txns s c)) = true.

(** What the task is, whether or not the agent knows. *)
Definition resolved (t : SolTask) : SolTask := if has_state kPending t then on_cpu_task t else t.

Lemma is_succeeded_committed st : is_succeeded st = true → is_committed st = true.
Proof. unfold is_succeeded, is_committed. intros ->%Z.eqb_eq. done. Qed.

Lemma wp_s_sync s p t (Q : unit → Sol → Prop) :
  sol_mid s → heap (s_allocator s) !! p = Some t → (run_state t = kPending → started s t) →
  (∀ s', (if has_state kPending t then s_moved s p (resolved t) false s' else s' = s) → sol_mid s' →
     heap (s_allocator s') !! p = Some (resolved t) → Q tt s') → wp (s_sync p) s Q.
Proof using Henv.
  intros Hi Hp Hst HQ. unfold s_sync, resolved in *. wpstep. eapply wp_task; [exact Hp|]. unfold has_state in *. case_bool_decide as Hpend.
  2: { wpstep; [done|]. intros _. by apply HQ. }
  destruct (Hst Hpend) as (_ & c & Ec & Hcur & Hsucc). unfold whenM. unfold SyncTaskState.
  destruct (s_slot_next env s p t Hi Hp Hpend) as (c' & Ec' & Hc & Hn). assert (c' = c) as -> by congruence. clear Ec'.
  pose proof (s_cpu_range env Henv c Hc) as Hr. pose proof (s_nonzero env s p t Hi Hp) as Hp0.
  wpstep. eapply wp_task; [exact Hp|]. wpstep. wpstep; [by apply bool_decide_eq_true|]. unfold s_cpu_of. wpstep. wpstep.
  eapply wp_task; [exact Hp|]. rewrite Ec. wpstep. wpstep; [unfold has_state; by rewrite Hpend|]. wpstep. apply wp_s_cpu; [done|].
  wpstep. wpstep; [by rewrite Hn, Z.eqb_refl, orb_true_r|]. wpstep. wpstep. apply wp_s_cpu; [done|]. wpstep.
  wpstep; [by apply Z.eqb_eq|]. wpstep. wpstep; [by apply Z.eqb_eq|]. wpstep.
  eapply wp_mono; [apply (wp_SyncCpuState env Henv s c Hi Hc); [by rewrite Hn|by apply is_succeeded_committed]|].
  intros ok s' (-> & (u & Hu & _ & _ & Hsync) & Hmid). rewrite Hsucc in *. rewrite Hn in *. assert (u = t) as -> by congruence.
  destruct Hsync as (s1 & He & Hm). unfold evicted in He. rewrite Hcur in He. simpl in He. subst s1.
  wpstep; [done|]. apply HQ; [done|done|]. exact (moved_at _ _ _ _ _ _ _ _ Hm).
Qed.

(** ** The messages *)

Definition s_death (ty : Z) : bool := (ty =? MSG_TASK_DEAD) || (ty =? MSG_TASK_DEPARTED).

(** The task after the message. *)
Definition s_after (t : SolTask) (m : Message) : SolTask :=
  let ty := msg_type m in let r := resolved t in
  if ty =? MSG_TASK_WAKEUP then set_run_state kQueued (set_prio_boost (negb (msg_deferrable m)) t)
  else if (ty =? MSG_TASK_BLOCKED) || (ty =? MSG_TASK_SWITCHTO) then set_run_state kBlocked r
  else if ty =? MSG_TASK_PREEMPT then set_run_state kQueued (set_preempted true r)
  else if ty =? MSG_TASK_YIELD then
    if has_state kOnCpu r || msg_from_switchto m then set_run_state kYielding r else set_run_state kQueued r
  else t.

(** Whether it changes its place. *)
Definition s_relocates (t : SolTask) (m : Message) : bool :=
  let ty := msg_type m in
  (ty =? MSG_TASK_WAKEUP) || (ty =? MSG_TASK_BLOCKED) || (ty =? MSG_TASK_SWITCHTO) ||
  (((ty =? MSG_TASK_PREEMPT) || (ty =? MSG_TASK_YIELD)) && negb (has_state kQueued t)).

Definition s_front (t : SolTask) : bool := has_state kQueued t && s_boosted t.

(** A departing task: its transaction is ended first. *)
Definition s_departs (s : Sol) (p : Z) (t : SolTask) (s' : Sol) : Prop :=
  if has_state kPending t then
    ∃ c s0 s1 ok, cpu t = Some c ∧ completed env s c s0 ∧ synced s0 c ok s1 ∧ s_gone s1 p s'
  else s_gone s p s'.

Definition put_stask (p : Z) (t : SolTask) (s : Sol) : Sol := set_s_allocator (put_obj p t (s_allocator s)) s.

(** What a message does, but for the sequence number. *)
Definition s_effect (s : Sol) (p : Z) (t : SolTask) (m : Message) (s' : Sol) : Prop :=
  if s_death (msg_type m) then s_departs s p t s'
  else if s_relocates t m then s_moved s p (s_after t m) (s_front (s_after t m)) s'
  else s' = put_stask p (s_after t m) s.

Definition ran (s : Sol) (t : SolTask) : Prop := run_state t = kOnCpu ∨ started s t.

(** When the kernel sends a message about a task. *)
Definition s_msg_ok (s : Sol) (p : Z) (t : SolTask) (m : Message) : Prop :=
  let ty := msg_type m in
  seqnum t < msg_seqnum m ∧
  (ty = MSG_TASK_WAKEUP ∨ ty = MSG_TASK_DEAD → run_state t = kBlocked) ∧
  (ty = MSG_TASK_BLOCKED ∨ ty = MSG_TASK_YIELD ∨ ty = MSG_TASK_PREEMPT →
     ran s t ∨ if msg_from_switchto m then run_state t = kBlocked else run_state t = kQueued ∨ run_state t = kPreemptedByAgent) ∧
  (ty = MSG_TASK_SWITCHTO → ran s t) ∧
  (ty = MSG_TASK_DEPARTED →
     if msg_from_switchto m then run_state t = kOnCpu ∨ run_state t = kBlocked else run_state t ≠ kPreemptedByAgent).

Lemma ran_pending s t : ran s t → run_state t = kPending → started s t.
Proof. intros [H|H] E; [congruence|done]. Qed.

Lemma ran_resolved s t : ran s t → run_state (resolved t) = kOnCpu.
Proof.
  intros [H|[H _]]; unfold resolved, has_state; rewrite H; [done|]. by rewrite bool_decide_eq_true_2.
Qed.

Lemma resolved_other t : run_state t ≠ kPending → resolved t = t.
Proof. intros H. unfold resolved, has_state. by rewrite bool_decide_eq_false_2. Qed.

Lemma resolved_ok t : stask_ok env t → stask_ok env (resolved t).
Proof.
  intros (H1 & H2 & H3). unfold resolved, has_state. case_bool_decide as E; [|by split_and!].
  split_and!; simpl; [done|intros _; apply H2; by right|done].
Qed.

(** A sequence of two moves, the first one the end of a transaction. *)
Lemma moved_resolved s p t f t' s1 s' :
  (if has_state kPending t then s_moved s p (resolved t) f s1 else s1 = s) → s_moved s1 p t' (s_front t') s' →
  s_moved s p t' (s_front t') s'.
Proof.
  destruct (has_state kPending t); [|by intros ->]. intros Hm Hm'. exact (moved_again _ _ _ _ _ _ _ _ _ _ _ Hm Hm').
Qed.

(** ** Handlers *)

Lemma stask_off t t' :
  stask_ok env t → cpu t' = cpu t → run_state t' ≠ kOnCpu → run_state t' ≠ kPending → stask_ok env t'.
Proof. intros (H1 & H2 & H3) Ec N1 N2. split_and!; rewrite ?Ec; [done|by intros [?|?]|done]. Qed.

(** A task that is in no queue changes. *)
Lemma wp_upd_idle s p t g fr (Q : unit → Sol → Prop) :
  sol_mid s → heap (s_allocator s) !! p = Some t → sol_place t = None → sol_place (g t) = None →
  (∀ s', s_moved s p (g t) fr s' → Q tt s') → wp (upd_task p g) s Q.
Proof.
  intros Hi Hp E0 E1 HQ. eapply wp_upd; [exact Hp|]. apply HQ. apply (moved_put _ _ _ s p t); try done. apply (sm_rest _ _ Hi).
Qed.

(** From [t0], at rest or not, to [t]. *)
Record at_move (s : Sol) (p : Z) (t : SolTask) (s' : Sol) : Prop := {
  am_mid : sol_mid s';
  am_at : heap (s_allocator s') !! p = Some t;
  am_moved : ∃ f, s_moved s p t f s'
}.

Lemma at_move_again s p t f t' s1 s' :
  at_move s p t s1 → s_moved s1 p t' f s' → gtid t' = gtid t → stask_ok env t' → run_state t ≠ kPending →
  run_state t' ≠ kPending → s_moved s p t' f s' ∧ at_move s p t' s'.
Proof.
  intros [H1 H2 [f1 H3]] Hm Hg Hok N0 N1. pose proof (moved_again _ _ _ _ _ _ _ _ _ _ _ H3 Hm) as Hm'. split; [done|].
  split; [by eapply (mid_moved_plain env s1 p t)|exact (moved_at _ _ _ _ _ _ _ _ Hm)|by exists f].
Qed.

Lemma at_move_first s p t0 t f s' :
  sol_mid s → heap (s_allocator s) !! p = Some t0 → s_moved s p t f s' → gtid t = gtid t0 → stask_ok env t →
  run_state t0 ≠ kPending → run_state t ≠ kPending → at_move s p t s'.
Proof.
  intros Hi Hp Hm Hg Hok N0 N1. split; [by eapply (mid_moved_plain env s p t0)|exact (moved_at _ _ _ _ _ _ _ _ Hm)|by exists f].
Qed.

(** The task left its CPU, or was not there. *)
Lemma wp_off s p r blocked sw (Q : unit → Sol → Prop) :
  sol_mid s → heap (s_allocator s) !! p = Some r → run_state r = kOnCpu ∨ (sw = true ∧ run_state r = kBlocked) →
  (∀ s', at_move s p (set_run_state (off_state blocked) r) s' → Q tt s') → wp (S_TaskOffCpu p blocked sw) s Q.
Proof using Henv.
  intros Hi Hp Hst HQ. eapply (wp_S_TaskOffCpu env Henv s p r); [done|exact Hp|exact Hst|]. intros s' Hm. apply HQ.
  eapply at_move_first; [exact Hi|exact Hp|exact Hm|done|..].
  - eapply stask_off; [by apply (sm_task _ _ Hi p)|done|by destruct blocked..].
  - destruct Hst as [->|[_ ->]]; done.
  - by destruct blocked.
Qed.

Lemma wp_S_TaskRunnable s p t m (Q : unit → Sol → Prop) :
  sol_mid s → heap (s_allocator s) !! p = Some t → run_state t = kBlocked →
  (∀ s', s_moved s p (set_run_state kQueued (set_prio_boost (negb (msg_deferrable m)) t))
           (s_front (set_run_state kQueued (set_prio_boost (negb (msg_deferrable m)) t))) s' → sol_mid s' → Q tt s') →
  wp (S_TaskRunnable p m) s Q.
Proof.
  intros Hi Hp Hst HQ. unfold S_TaskRunnable. wpstep. eapply wp_task; [exact Hp|]. wpstep. wpstep; [by apply bool_decide_eq_true|].
  assert (sol_place t = None) as E0 by (unfold sol_place; by rewrite Hst).
  pose proof (sm_task _ _ Hi p t Hp) as Hok. wpstep. eapply (wp_upd_idle s p t _ false); [done|exact Hp|done|done|]. intros s1 Hm.
  assert (at_move s p (set_prio_boost (negb (msg_deferrable m)) (set_run_state kRunnable t)) s1) as H1.
  { eapply at_move_first; [exact Hi|exact Hp|exact Hm|done| |by rewrite Hst|done]. by eapply stask_off. }
  eapply (wp_S_Enqueue env s1 p); [apply H1|apply H1|done|]. intros s2 Hm2.
  destruct (at_move_again s p _ _ _ s1 s2 H1 Hm2) as [Hm' H2]; [done|by eapply stask_off|done|done|].
  apply HQ; [exact Hm'|apply H2].
Qed.

(** A task of the SOL agent on the run queue leaves it. *)
Lemma wp_unqueue s p t (Q : unit → Sol → Prop) :
  sol_mid s → heap (s_allocator s) !! p = Some t → run_state t = kQueued →
  (∀ s', at_move s p (set_run_state kRunnable t) s' → Q tt s') → wp (S_RemoveFromRunqueue p) s Q.
Proof.
  intros Hi Hp Hst HQ. eapply (wp_S_RemoveFromRunqueue env s p t); [done|exact Hp|done|]. intros s' Hm. apply HQ.
  eapply at_move_first; [exact Hi|exact Hp|exact Hm|done| |by rewrite Hst|done].
  eapply stask_off; [by apply (sm_task _ _ Hi p)|done..].
Qed.

(** When a task may stop. *)
Definition may_stop (s : Sol) (t : SolTask) (sw : bool) : Prop :=
  ran s t ∨ if sw then run_state t = kBlocked else run_state t = kQueued ∨ run_state t = kPreemptedByAgent.

Lemma stop_cases s t sw :
  may_stop s t sw →
  run_state (resolved t) = kOnCpu ∨ (sw = true ∧ run_state t = kBlocked) ∨
  (sw = false ∧ (run_state t = kQueued ∨ run_state t = kPreemptedByAgent)).
Proof. intros [H|H]; [left; by eapply ran_resolved|]. destruct sw; auto. Qed.

Lemma stop_pending s t sw : may_stop s t sw → run_state t = kPending → started s t.
Proof. intros [H|H] E; [by apply ran_pending|]. destruct sw; [congruence|destruct H; congruence]. Qed.

Lemma at_move_ok s p t s' : at_move s p t s' → stask_ok env t.
Proof. intros [H1 H2 _]. by apply (sm_task _ _ H1 p). Qed.

(** The end of a transaction and a move. *)
Lemma after_sync s p t t' f s1 s' :
  (if has_state kPending t then s_moved s p (resolved t) false s1 else s1 = s) → s_moved s1 p t' f s' → s_moved s p t' f s'.
Proof.
  destruct (has_state kPending t); [|by intros ->]. intros Hm Hm'. exact (moved_again _ _ _ _ _ _ _ _ _ _ _ Hm Hm').
Qed.

Lemma wp_S_TaskBlocked s p t m (Q : unit → Sol → Prop) :
  sol_mid s → heap (s_allocator s) !! p = Some t → may_stop s t (msg_from_switchto m) →
  (∀ s', s_moved s p (set_run_state kBlocked (resolved t)) false s' → sol_mid s' → Q tt s') → wp (S_TaskBlocked p m) s Q.
Proof using Henv.
  intros Hi Hp Hst HQ. unfold S_TaskBlocked. wpstep.
  eapply (wp_s_sync s p t); [done|exact Hp|by eapply stop_pending|].
  intros s1 Hs1 H1 Hp1. set (r := resolved t) in *.
  assert (∀ s2 t2, at_move s1 p t2 s2 → sol_place t2 = None → run_state t2 ≠ kPending → set_run_state kBlocked t2 = set_run_state kBlocked r →
    wp (upd_task p (set_run_state kBlocked)) s2 Q) as Hend.
  { intros s2 t2 H2 E2 N2 Et. eapply (wp_upd_idle s2 p t2 _ false); [apply H2|apply H2|done|done|]. intros s3 Hm3.
    destruct (at_move_again s1 p t2 _ _ s2 s3 H2 Hm3) as [Hm' H3]; [done| |done|done|].
    { eapply stask_off; [by eapply at_move_ok|done..]. }
    rewrite Et in Hm'. apply HQ; [|apply H3]. by eapply after_sync. }
  wpstep. eapply wp_task; [exact Hp1|]. wpstep. destruct (stop_cases _ _ _ Hst) as [Hon|Hst'].
  - unfold has_state. fold r in Hon. rewrite Hon. simpl. eapply (wp_off s1 p r); [done|exact Hp1|by left|]. intros s2 H2.
    by eapply Hend.
  - assert (r = t) as Er by (apply resolved_other; destruct Hst' as [[_ ->]|[_ [->| ->]]]; done). rewrite Er in *.
    destruct Hst' as [[Esw E]|[Esw E]]; rewrite Esw.
    + rewrite orb_true_r. eapply (wp_off s1 p t); [done|exact Hp1|by right|]. intros s2 H2. by eapply Hend.
    + destruct E as [E|E]; unfold has_state; rewrite E; simpl.
      * do 2 wpstep. eapply wp_unqueue; [exact H1|exact Hp1|done|]. intros s2 H2. by eapply Hend.
      * wpstep. eapply (Hend s1 t); [|unfold sol_place; by rewrite E|by rewrite E|done]. split; [done|done|].
        exists false. apply (moved_put _ _ _ s1 p t); try done; [apply (sm_rest _ _ H1)|unfold sol_place; by rewrite E..|].
        simpl. by rewrite put_obj_same.
Qed.

Lemma wp_requeue_idle s0 s p t t2 s2 (Q : unit → Sol → Prop) :
  at_move s p t2 s2 → run_state t2 = kRunnable → 
  (if has_state kPending t then s_moved s0 p (resolved t) false s else s = s0) →
  (∀ s', s_moved s0 p (set_run_state kQueued t2) (s_front (set_run_state kQueued t2)) s' → sol_mid s' → Q tt s') →
  wp (S_Enqueue p) s2 Q.
Proof.
  intros H2 E2 Hs HQ. eapply (wp_S_Enqueue env s2 p t2); [apply H2|apply H2|done|]. intros s3 Hm3.
  destruct (at_move_again s p t2 _ _ s2 s3 H2 Hm3) as [Hm' H3]; [done| |by rewrite E2|done|].
  { eapply stask_off; [by eapply at_move_ok|done..]. }
  apply HQ; [|apply H3]. by eapply after_sync.
Qed.

Lemma wp_S_TaskSwitchto s p t m (Q : unit → Sol → Prop) :
  sol_mid s → heap (s_allocator s) !! p = Some t → ran s t →
  (∀ s', s_moved s p (set_run_state kBlocked (resolved t)) false s' → sol_mid s' → Q tt s') → wp (S_TaskSwitchto p m) s Q.
Proof using Henv.
  intros Hi Hp Hst HQ. unfold S_TaskSwitchto. wpstep.
  eapply (wp_s_sync s p t); [done|exact Hp|by eapply ran_pending|]. intros s1 Hs1 H1 Hp1.
  eapply (wp_off s1 p (resolved t)); [done|exact Hp1|left; by eapply ran_resolved|]. intros s2 [H2 _ [f H3]].
  assert (s_moved s1 p (set_run_state kBlocked (resolved t)) false s2) as H3'.
  { destruct H3 as [Ha Hq Hf]. split; [done| |done]. intros k. rewrite Hq. unfold requeue. by rewrite !decide_False. }
  apply HQ; [|done]. by eapply after_sync.
Qed.

(** A change in place. *)
Lemma mid_put s p t t' :
  sol_mid s → heap (s_allocator s) !! p = Some t → gtid t' = gtid t → sol_place t' = sol_place t → stask_ok env t' →
  sol_mid (put_stask p t' s).
Proof.
  intros [Ha Hr Ht Hid Hl Ho Hag Hgl Hn] Hp Hg Hpl Hok. split; simpl; try done.
  - by eapply alloc_inv_upd.
  - by eapply rest_same.
  - intros q u. rewrite lookup_insert_Some. intros [[<- <-]|[_ Hu]]; [done|by eapply Ht].
Qed.

Lemma moved_put_first s p u t f s' : s_moved (put_stask p u s) p t f s' → s_moved s p t f s'.
Proof.
  intros [Ha Hq [Fa Ft Fk Fg Fn Fi Fs]]. split; [|exact Hq|by split]. rewrite Ha. unfold put_obj. simpl. by rewrite insert_insert_eq.
Qed.

(** A running task, or one at the end of a chain of switches, becomes runnable
    and [k] goes on. *)
Lemma wp_stop_then s p r sw (k : M Sol unit) (Q : unit → Sol → Prop) :
  sol_mid s → heap (s_allocator s) !! p = Some r → run_state r = kOnCpu ∨ (sw = true ∧ run_state r = kBlocked) →
  (∀ s2, at_move s p (set_run_state kRunnable r) s2 → wp k s2 Q) → wp (S_TaskOffCpu p false sw ≫= λ _, k) s Q.
Proof using Henv.
  intros Hi Hp Hst HQ. wpstep. eapply (wp_off s p r); [done|exact Hp|exact Hst|]. exact HQ.
Qed.

(** A task that its agent preempted becomes runnable. *)
Lemma wp_wake_then s p r (k : M Sol unit) (Q : unit → Sol → Prop) :
  sol_mid s → heap (s_allocator s) !! p = Some r → run_state r = kPreemptedByAgent →
  (∀ s2, at_move s p (set_run_state kRunnable r) s2 → wp k s2 Q) → wp (upd_task p (set_run_state kRunnable) ≫= λ _, k) s Q.
Proof.
  intros Hi Hp Hst HQ. wpstep. assert (sol_place r = None) as E0 by (unfold sol_place; by rewrite Hst).
  eapply (wp_upd_idle s p r _ false); [done|exact Hp|done|done|]. intros s1 Hm. apply HQ.
  eapply at_move_first; [exact Hi|exact Hp|exact Hm|done| |by rewrite Hst|done].
  eapply stask_off; [by apply (sm_task _ _ Hi p)|done..].
Qed.

Lemma wp_S_TaskPreempted s p t m (Q : unit → Sol → Prop) :
  sol_mid s → heap (s_allocator s) !! p = Some t → may_stop s t (msg_from_switchto m) →
  (∀ s', (if has_state kQueued t then s' = put_stask p (set_preempted true t) s
          else s_moved s p (set_run_state kQueued (set_preempted true (resolved t)))
                 (s_front (set_run_state kQueued (set_preempted true (resolved t)))) s') → sol_mid s' → Q tt s') →
  wp (S_TaskPreempted p m) s Q.
Proof using Henv.
  intros Hi Hp Hst HQ. unfold S_TaskPreempted. wpstep. eapply (wp_s_sync s p t); [done|exact Hp|by eapply stop_pending|].
  intros s1 Hs1 H1 Hp1. set (r := resolved t) in *. wpstep. eapply wp_upd; [exact Hp1|]. fold (put_stask p (set_preempted true r) s1).
  set (r' := set_preempted true r) in *.
  assert (run_state r ≠ kPending) as Nr.
  { unfold r, resolved, has_state. case_bool_decide; [done|done]. }
  assert (sol_mid (put_stask p r' s1)) as H1'.
  { eapply mid_put; [done|exact Hp1|done|done|]. destruct (sm_task _ _ H1 p r Hp1) as (A & B & _). by split_and!. }
  assert (heap (s_allocator (put_stask p r' s1)) !! p = Some r') as Hp1' by (simpl; by rewrite lookup_insert_eq).
  assert (has_state kQueued t = false → ∀ s2, at_move (put_stask p r' s1) p (set_run_state kRunnable r') s2 → wp (S_Enqueue p) s2 Q) as Hend.
  { intros Hq s2 [M1 M2 [f M3]]. rewrite Hq in HQ. eapply (wp_requeue_idle s s1 p t (set_run_state kRunnable r') s2); [|done|exact Hs1|exact HQ].
    split; [done|done|]. exists f. by eapply moved_put_first. }
  wpstep. eapply wp_task; [exact Hp1'|]. destruct (stop_cases _ _ _ Hst) as [Hon|Hst'].
  - fold r in Hon. assert (has_state kQueued t = false) as Hq.
    { unfold has_state. apply bool_decide_eq_false. intros E. unfold r in Hon. rewrite resolved_other in Hon by congruence. congruence. }
    unfold has_state. change (run_state r') with (run_state r). rewrite Hon. simpl.
    eapply (wp_stop_then _ p r'); [done|exact Hp1'|by left|]. by apply Hend.
  - assert (r = t) as Er by (apply resolved_other; destruct Hst' as [[_ ->]|[_ [->| ->]]]; done). 
    destruct Hst' as [[Esw E]|[Esw E]]; rewrite Esw.
    + rewrite orb_true_r. eapply (wp_stop_then _ p r'); [done|exact Hp1'|right; split; [done|simpl; by rewrite Er]|].
      apply Hend. unfold has_state. by rewrite E.
    + rewrite orb_false_r. unfold has_state in *. change (run_state r') with (run_state r). rewrite Er. destruct E as [E|E]; rewrite E in *; simpl in *.
      * wpstep. subst s1. unfold r'. rewrite Er. apply HQ; [done|]. unfold r' in H1'. by rewrite Er in H1'.
      * eapply (wp_wake_then _ p r'); [done|exact Hp1'|simpl; by rewrite Er|]. by apply Hend.
Qed.

Lemma wp_S_TaskYield s p t m (Q : unit → Sol → Prop) :
  sol_mid s → heap (s_allocator s) !! p = Some t → may_stop s t (msg_from_switchto m) →
  (∀ s', (if has_state kQueued t then s' = s
          else let t' := set_run_state (if has_state kOnCpu (resolved t) || msg_from_switchto m then kYielding else kQueued) (resolved t) in
            s_moved s p t' (s_front t') s') → sol_mid s' → Q tt s') →
  wp (S_TaskYield p m) s Q.
Proof using Henv.
  intros Hi Hp Hst HQ. unfold S_TaskYield. wpstep. eapply (wp_s_sync s p t); [done|exact Hp|by eapply stop_pending|].
  intros s1 Hs1 H1 Hp1. set (r := resolved t) in *. cbv zeta in HQ.
  assert (has_state kQueued t = false → (has_state kOnCpu r || msg_from_switchto m) = true →
    ∀ s2, at_move s1 p (set_run_state kRunnable r) s2 → wp (S_Yield p) s2 Q) as Hy.
  { intros Hq Eon s2 H2. rewrite Hq, Eon in HQ. eapply (wp_S_Yield env s2 p); [apply H2|apply H2|done|]. intros s3 Hm3.
    destruct (at_move_again s1 p _ _ _ s2 s3 H2 Hm3) as [Hm' H3]; [done| |done|done|].
    { eapply stask_off; [by eapply at_move_ok|done..]. }
    apply HQ; [|apply H3]. by eapply after_sync. }
  wpstep. eapply wp_task; [exact Hp1|]. destruct (stop_cases _ _ _ Hst) as [Hon|Hst'].
  - fold r in Hon. assert (has_state kQueued t = false) as Hq.
    { unfold has_state. apply bool_decide_eq_false. intros E. unfold r in Hon. rewrite resolved_other in Hon by congruence. congruence. }
    assert (has_state kOnCpu r || msg_from_switchto m = true) as Eon by (unfold has_state; by rewrite Hon).
    rewrite Eon. eapply (wp_stop_then _ p r); [done|exact Hp1|by left|]. by apply Hy.
  - assert (r = t) as Er by (apply resolved_other; destruct Hst' as [[_ ->]|[_ [->| ->]]]; done).
    destruct Hst' as [[Esw E]|[Esw E]]; rewrite Esw in *.
    + rewrite orb_true_r in *. eapply (wp_stop_then _ p r); [done|exact Hp1|right; split; [done|by rewrite Er]|].
      apply Hy; [unfold has_state; by rewrite E|done].
    + rewrite orb_false_r in *. unfold has_state in *. rewrite Er in *. destruct E as [E|E]; rewrite E in *; simpl in *.
      * wpstep. subst s1. by apply HQ.
      * eapply (wp_wake_then _ p t); [done|exact Hp1|done|]. intros s2 H2.
        eapply (wp_requeue_idle s s1 p t); [exact H2|done|unfold has_state; by rewrite E|exact HQ].
Qed.
End handlers.
