(* ===== verification/SolMessages.v ===== *)
(** * SolMessages: the messages of the SOL agent, and the laws of its dispatcher *)

From S2P Require Import Prelude Outcome CpuMap CpuMapSpec.
From S2P Require Import Topology TopologySpec Dispatch Placement Txn Deals Sol SolOps SolHandlers.
From stdpp Require Import gmap functions sorting.
From Stdlib Require Import ZArith Lia.

Local Open Scope Z_scope.

Section messages.
Context (env : SolEnv) (Henv : sol_env_ok env).

Notation sol_mid := (sol_mid env).
Notation sol_inv := (sol_inv env).
Notation enclave_cpu := (enclave_cpu env).
Notation at_move := (at_move env).

(** ** Departure and death *)

Lemma gone_at_move s p r s1 s' : at_move s p r s1 → s_gone s1 p s' → s_gone s p s'.
Proof. intros [_ _ [f Hm]]. by eapply s_gone_moved. Qed.

(** Once no transaction is under way. *)
Lemma wp_depart_tail s p r (sw : bool) (Q : unit → Sol → Prop) :
  sol_mid s → heap (s_allocator s) !! p = Some r →
  run_state r = kOnCpu ∨ run_state r = kBlocked ∨ (sw = false ∧ (run_state r = kQueued ∨ run_state r = kYielding)) →
  (∀ s', s_gone s p s' → sol_mid s' → Q tt s') →
  wp (task_at p ≫= λ t, whenM (has_state kYielding t) (S_Unyield p) ≫= λ _,
      task_at p ≫= λ t,
      (if has_state kOnCpu t || sw then S_TaskOffCpu p false sw
       else if has_state kQueued t then S_RemoveFromRunqueue p
       else check (has_state kBlocked t)) ≫= λ _, s_free p) s Q.
Proof using Henv.
  intros Hi Hp Hst HQ. wpstep. eapply wp_task; [exact Hp|].
  assert (∀ s1 s2 r2, (s2 = s1 ∨ at_move s1 p r2 s2) → sol_mid s2 → heap (s_allocator s2) !! p = Some r2 → sol_place r2 = None → run_state r2 ≠ kPending →
    (∀ s', s_gone s1 p s' → sol_mid s' → Q tt s') → wp (s_free p) s2 Q) as Hfree.
  { intros s1 s2 r2 H12 M2 Hp2 E2 N2 HQ1. eapply (wp_s_free env s2 p r2); [done|exact Hp2|done|done|]. intros s' Hg Hm'. apply HQ1; [|done].
    destruct H12 as [->|H12]; [done|by eapply gone_at_move]. }
  assert (∀ s1 r1, sol_mid s1 → heap (s_allocator s1) !! p = Some r1 → (∀ s', s_gone s1 p s' → sol_mid s' → Q tt s') →
    run_state r1 = kOnCpu ∨ run_state r1 = kBlocked ∨ (sw = false ∧ run_state r1 = kQueued) →
    wp (task_at p ≫= λ t,
      (if has_state kOnCpu t || sw then S_TaskOffCpu p false sw
       else if has_state kQueued t then S_RemoveFromRunqueue p
       else check (has_state kBlocked t)) ≫= λ _, s_free p) s1 Q) as Htail.
  { intros s1 r1 M1 Hp1 HQ1 Hst1. wpstep. eapply wp_task; [exact Hp1|]. wpstep.
    assert (run_state r1 = kOnCpu ∨ (sw = true ∧ run_state r1 = kBlocked) → has_state kOnCpu r1 || sw = true →
      wp (S_TaskOffCpu p false sw) s1 (λ _ s', wp (s_free p) s' Q)) as Hoff.
    { intros Hc _. eapply (wp_off env Henv s1 p r1); [done|exact Hp1|exact Hc|]. intros s2 H2.
      eapply (Hfree s1 s2); [by right|apply H2|apply H2|done|done|done]. }
    unfold has_state in *. destruct Hst1 as [E|[E|[-> E]]]; rewrite E in *; simpl in *.
    - apply Hoff; [by left|done].
    - destruct sw; [apply Hoff; [by right|done]|]. wpstep. eapply (Hfree s1 s1); [by left|done|exact Hp1|unfold sol_place; by rewrite E|by rewrite E|done].
    - eapply (wp_unqueue env s1 p r1); [done|exact Hp1|done|]. intros s2 H2. eapply (Hfree s1 s2); [by right|apply H2|apply H2|done|done|done]. }
  wpstep. assert (run_state r = kYielding ∨ run_state r ≠ kYielding) as [Ey|Ny] by (destruct (run_state r); auto).
  - unfold has_state at 1. rewrite Ey. simpl. eapply (wp_S_Unyield env s p r); [done|exact Hp|done|]. intros s1 Hm.
    assert (at_move s p (set_run_state kQueued r) s1) as H1.
    { eapply at_move_first; [exact Hi|exact Hp|exact Hm|done| |by rewrite Ey|done]. eapply stask_off; [by apply (sm_task _ _ Hi p)|done..]. }
    eapply (Htail s1); [apply H1|apply H1| |].
    + intros s' Hg Hm'. apply HQ; [by eapply gone_at_move|done].
    + destruct Hst as [E|[E|[-> _]]]; [congruence|congruence|by right; right].
  - unfold has_state at 1. rewrite bool_decide_eq_false_2 by done. wpstep; [done|]. intros _. apply (Htail s r); try done.
    destruct Hst as [|[|[? [|]]]]; auto; congruence.
Qed.

Lemma synced_settled s c ok s' : synced s c ok s' → settled s → settled s'.
Proof.
  intros (t & Hp & Hst & Hc & H) Hs. destruct ok.
  - destruct H as (s1 & He & Hm). eapply settled_moved; [exact Hm|done|]. unfold evicted in He. destruct (_ =? 0); [by subst|].
    destruct He as (u & _ & Hm1). by eapply settled_moved; [exact Hm1|done|].
  - by eapply settled_moved; [exact H|done|].
Qed.

Lemma synced_counted s c ok s' : sol_mid s → synced s c ok s' → counted s → counted s'.
Proof.
  intros Hi (t & Hp & Hst & Hc & H) Hs. destruct ok; [|eapply counted_moved; [exact H|by eexists|done]].
  destruct H as (s1 & He & Hm). unfold evicted in He. destruct (Z.eqb_spec (current (s_cpus s c)) 0) as [E|E].
  - subst s1. eapply counted_moved; [exact Hm|by eexists|done].
  - destruct He as (u & Hu & Hm1). eapply counted_moved; [exact Hm| |by eapply counted_moved; [exact Hm1|by eexists|]].
    destruct (decide (next (s_cpus s c) = current (s_cpus s c))) as [Eq|Hne].
    + rewrite Eq. pose proof (moved_at _ _ _ _ _ _ _ _ Hm1) as H1. simpl in H1. by eexists.
    + pose proof (moved_other _ _ _ _ _ _ _ _ _ Hm1 Hne) as H1. simpl in H1. rewrite H1. by eexists.
Qed.

Lemma completed_frame s c s' :
  completed env s c s' → s_allocator s' = s_allocator s ∧ s_cpus s' = s_cpus s ∧ num_tasks_ s' = num_tasks_ s.
Proof. unfold completed. destruct (is_committed _); [by intros ->|]. by intros (st & _ & n & l & ->). Qed.

Lemma wp_S_TaskDeparted s p t m (Q : unit → Sol → Prop) :
  sol_inv s → heap (s_allocator s) !! p = Some t →
  (if msg_from_switchto m then run_state t = kOnCpu ∨ run_state t = kBlocked else run_state t ≠ kPreemptedByAgent) →
  (∀ s', s_departs env s p t s' → sol_inv s' → Q tt s') → wp (S_TaskDeparted env p m) s Q.
Proof using Henv.
  intros (Hi & Hset & Hcount) Hp Hst HQ. unfold S_TaskDeparted, s_departs in *. wpstep. eapply wp_task; [exact Hp|].
  assert (run_state t = kPending ∨ run_state t ≠ kPending) as [Ep|Np] by (destruct (run_state t); auto).
  - unfold has_state in *. rewrite Ep in *. simpl in *. destruct (msg_from_switchto m) eqn:Esw; [by destruct Hst|].
    destruct (s_slot_next env s p t Hi Hp Ep) as (c & Ec & Hc & Hn). pose proof (s_nonzero env s p t Hi Hp) as Hp0.
    wpstep. unfold whenM, s_settle. wpstep. eapply wp_task; [exact Hp|]. rewrite Ec. wpstep.
    eapply (wp_CompleteRunRequest env Henv s c); [done|done|by rewrite Hn|]. intros b s0 Hcomp Hi0 Hcom Ecpu Ea. wpstep.
    assert (next (s_cpus s0 c) = p) as Hn0 by (by rewrite Ecpu).
    eapply wp_mono; [apply (wp_SyncCpuState env Henv s0 c); [done|done|by rewrite Hn0|done]|]. intros ok s1 (_ & Hsync & Hi1). wpstep.
    destruct (completed_frame _ _ _ Hcomp) as (_ & _ & En).
    assert (settled s1) as Hset1 by (eapply synced_settled; [exact Hsync|]; intros q u; rewrite Ea; apply Hset).
    assert (counted s1) as Hcount1 by (eapply synced_counted; [exact Hi0|exact Hsync|]; unfold counted; by rewrite Ea, En).
    pose proof Hsync as (u & Hu & _ & _ & Hs). rewrite Hn0, Ea in Hu. assert (u = t) as -> by congruence. rewrite Hn0 in Hs.
    assert (∃ r, heap (s_allocator s1) !! p = Some r ∧ (run_state r = kOnCpu ∨ run_state r = kQueued)) as (r & Hp1 & Hr).
    { destruct ok.
      - destruct Hs as (s2 & _ & Hm). pose proof (moved_at _ _ _ _ _ _ _ _ Hm) as E. eexists. split; [exact E|by left].
      - pose proof (moved_at _ _ _ _ _ _ _ _ Hs) as E. eexists. split; [exact E|by right]. }
    eapply (wp_depart_tail s1 p r false); [done|exact Hp1|destruct Hr; auto|].
    intros s' Hg Hm'. apply HQ; [by exists c, s0, s1, ok|]. eapply (gone_inv env s1 p); [done|done|done|by eexists|done].
  - assert (has_state kPending t = false) as Ef by (unfold has_state; by rewrite bool_decide_eq_false_2). rewrite Ef in *.
    wpstep. wpstep; [done|]. intros _. eapply (wp_depart_tail s p t); [done|exact Hp| |].
    + destruct (msg_from_switchto m); [destruct Hst; auto|]. assert (run_state t ≠ kRunnable) by by eapply Hset.
      destruct (run_state t); auto; congruence.
    + intros s' Hg Hm'. apply HQ; [done|]. eapply (gone_inv env s p); [done|done|done|by eexists|done].
Qed.

Lemma wp_S_TaskDead s p t m (Q : unit → Sol → Prop) :
  sol_inv s → heap (s_allocator s) !! p = Some t → run_state t = kBlocked →
  (∀ s', s_gone s p s' → sol_inv s' → Q tt s') → wp (S_TaskDead p m) s Q.
Proof.
  intros (Hi & Hset & Hcount) Hp Hst HQ. unfold S_TaskDead. wpstep. eapply wp_task; [exact Hp|]. wpstep. wpstep; [by apply bool_decide_eq_true|].
  eapply (wp_s_free env s p t); [done|exact Hp|unfold sol_place; by rewrite Hst|by rewrite Hst|]. intros s' Hg Hm. apply HQ; [done|].
  eapply (gone_inv env s p); [done|done|done|by eexists|done].
Qed.

(** ** New tasks *)

Definition s_new (m : Message) (t : SolTask) : SolTask :=
  set_run_state (if msg_runnable m then kQueued else kBlocked) (set_seqnum (msg_seqnum m) t).

Lemma wp_S_TaskNew s p t m (Q : unit → Sol → Prop) :
  sol_mid s → heap (s_allocator s) !! p = Some t → run_state t = kBlocked →
  (∀ s', s_moved s p (s_new m t) (s_front (s_new m t)) s' → sol_mid s' →
     Q tt (set_num_tasks (s32 (num_tasks_ s + 1)) s')) → wp (S_TaskNew p m) s Q.
Proof.
  intros Hi Hp Hst HQ. unfold S_TaskNew, s_new in *. assert (sol_place t = None) as E0 by (unfold sol_place; by rewrite Hst).
  pose proof (sm_task _ _ Hi p t Hp) as Hok. wpstep.
  eapply (wp_upd_idle env s p t _ false); [done|exact Hp|done|done|]. intros s1 Hm.
  assert (at_move s p (set_run_state kBlocked (set_seqnum (msg_seqnum m) t)) s1) as H1.
  { eapply at_move_first; [exact Hi|exact Hp|exact Hm|done|by eapply stask_off|by rewrite Hst|done]. }
  assert (∀ s2, s_moved s p (s_new m t) (s_front (s_new m t)) s2 → sol_mid s2 →
    wp (modify (λ s, set_num_tasks (s32 (num_tasks_ s + 1)) s)) s2 Q) as Hend.
  { intros s2 Hm2 M2. wpstep. rewrite (sr_num _ _ (mv_frame _ _ _ _ _ _ _ _ Hm2)). by apply HQ. }
  wpstep. destruct (msg_runnable m) eqn:Er; unfold whenM; unfold s_new in Hend; rewrite Er in Hend.
  - wpstep. eapply (wp_upd_idle env s1 p _ _ false); [apply H1|apply H1|done|done|]. intros s2 Hm2.
    destruct (at_move_again env s p _ _ _ s1 s2 H1 Hm2) as [_ H2]; [done|by eapply stask_off|done|done|].
    eapply (wp_S_Enqueue env s2 p); [apply H2|apply H2|done|]. intros s3 Hm3.
    destruct (at_move_again env s p _ _ _ s2 s3 H2 Hm3) as [Hm' H3]; [done|by eapply stask_off|done|done|].
    apply Hend; [exact Hm'|apply H3].
  - wpstep. apply Hend; [exact Hm|apply H1].
Qed.

(** ** The dispatcher *)

(** The messages about CPUs but those that the agent does not expect. *)
Definition s_cpu_msg (m : Message) : Prop :=
  known_cpu_msg m ∧ msg_type m ≠ MSG_CPU_NOT_IDLE ∧ msg_type m ≠ MSG_CPU_TIMER_EXPIRED.

Lemma s_put_same s p t : heap (s_allocator s) !! p = Some t → put_stask p t s = s.
Proof. intros Hp. unfold put_stask. rewrite put_obj_same by done. by destruct s. Qed.

Lemma put_inv s p t t' :
  sol_inv s → heap (s_allocator s) !! p = Some t → gtid t' = gtid t → run_state t' = run_state t → cpu t' = cpu t →
  stask_ok env t' → sol_inv (put_stask p t' s).
Proof.
  intros (Hi & Hset & Hc) Hp Hg Hst Hcpu Hok. split_and!.
  - eapply (mid_put env s p t); [done|exact Hp|done| |done]. unfold sol_place. by rewrite Hst, Hcpu.
  - intros q u. simpl. rewrite lookup_insert_Some. intros [[<- <-]|[_ Hu]]; [rewrite Hst|]; by eapply Hset.
  - unfold counted in *. simpl. rewrite map_size_insert_Some by eauto. exact Hc.
Qed.

Lemma preempt_put_ok s p t :
  sol_mid s → heap (s_allocator s) !! p = Some t → has_state kQueued t = true → stask_ok env (set_preempted true t).
Proof.
  intros Hi Hp E%bool_decide_eq_true. eapply stask_off; [by apply (sm_task _ _ Hi p)|done|simpl; by rewrite E..].
Qed.

Lemma dispatch_s_effect s p t m :
  sol_inv s → heap (s_allocator s) !! p = Some t → s_msg_ok s p t m → is_task_type (msg_type m) → msg_type m ≠ MSG_TASK_NEW →
  wp (@dispatch_task Sol SolTask _ _ (Sol_ops env) p m) s
    (λ u s', (s_effect env s p t m s' ∧ u = negb (s_death (msg_type m))) ∧ sol_inv s').
Proof using Henv.
  intros Hinv Hp (Hsq & Hbl & Hstop & Hsw & Hdep) Hty Hnew. pose proof Hinv as (Hi & Hset & Hcount). unfold dispatch_task. cbv zeta.
  unfold s_effect, s_after, s_relocates.
  assert (∀ s' t' f, s_moved s p t' f s' → sol_mid s' → run_state t' ≠ kRunnable → sol_inv s') as Hinv'.
  { intros s' t' f Hm Hmid Hr. by eapply inv_moved. }
  destruct (Z.eqb_spec (msg_type m) MSG_TASK_NEW) as [|_]; [done|].
  destruct (Z.eqb_spec (msg_type m) MSG_TASK_PREEMPT) as [E|N1].
  { wpstep. rewrite E in *. eapply (wp_S_TaskPreempted env Henv s p t); [done|exact Hp|apply Hstop; auto|]. intros s' Hs' Hm'. wpstep.
    simpl. destruct (has_state kQueued t) eqn:Eq; simpl.
    - assert (run_state t ≠ kPending) by (apply bool_decide_eq_true in Eq; congruence).
      subst s'. rewrite resolved_other by done. split; [|eapply put_inv; [done|exact Hp|done|done|done|exact (preempt_put_ok s p t Hi Hp Eq)]].
      split; [|done]. f_equal. apply bool_decide_eq_true in Eq. destruct t; simpl in *. by rewrite Eq.
    - split; [done|]. by eapply Hinv'. }
  destruct (Z.eqb_spec (msg_type m) MSG_TASK_DEAD) as [E|N2].
  { wpstep. rewrite E in *. eapply (wp_S_TaskDead s p t); [done|exact Hp|auto|]. intros s' Hs' Hm'. wpstep. split; [|done]. split; [|done].
    simpl. unfold s_departs, has_state. rewrite Hbl by auto. done. }
  destruct (Z.eqb_spec (msg_type m) MSG_TASK_WAKEUP) as [E|N3].
  { wpstep. rewrite E in *. eapply (wp_S_TaskRunnable env s p t); [done|exact Hp|auto|]. intros s' Hs' Hm'. wpstep.
    split; [done|]. by eapply Hinv'. }
  destruct (Z.eqb_spec (msg_type m) MSG_TASK_BLOCKED) as [E|N4].
  { wpstep. rewrite E in *. eapply (wp_S_TaskBlocked env Henv s p t); [done|exact Hp|apply Hstop; auto|]. intros s' Hs' Hm'. wpstep.
    split; [done|]. by eapply Hinv'. }
  destruct (Z.eqb_spec (msg_type m) MSG_TASK_YIELD) as [E|N5].
  { wpstep. rewrite E in *. eapply (wp_S_TaskYield env Henv s p t); [done|exact Hp|apply Hstop; auto|]. intros s' Hs' Hm'. wpstep.
    simpl. destruct (has_state kQueued t) eqn:Eq; simpl.
    - subst s'. split; [|done]. split; [|done]. assert (run_state t = kQueued) as Et by (by apply bool_decide_eq_true in Eq).
      rewrite resolved_other by congruence. unfold has_state. rewrite Et. simpl. destruct (msg_from_switchto m) eqn:Esw.
      + exfalso. destruct (Hstop ltac:(auto)) as [[Hc|[Hc _]]|Hc]; congruence.
      + replace (set_run_state kQueued t) with t by (destruct t; simpl in *; by rewrite Et). by rewrite s_put_same.
    - split; [|eapply Hinv'; [exact Hs'|done|by destruct (_ || _)]]. split; [|done]. by destruct (_ || _). }
  destruct (Z.eqb_spec (msg_type m) MSG_TASK_DEPARTED) as [E|N6].
  { wpstep. rewrite E in *. eapply (wp_S_TaskDeparted s p t); [done|exact Hp|by apply Hdep|]. intros s' Hs' Hm'. by wpstep. }
  destruct (Z.eqb_spec (msg_type m) MSG_TASK_SWITCHTO) as [E|N7].
  { wpstep. rewrite E in *. eapply (wp_S_TaskSwitchto env Henv s p t); [done|exact Hp|auto|]. intros s' Hs' Hm'. wpstep.
    split; [done|]. by eapply Hinv'. }
  assert (s_death (msg_type m) = false) as -> by (unfold s_death; by rewrite !(proj2 (Z.eqb_neq _ _)) by done).
  pose proof (s_put_same s p t Hp) as Es. simpl. rewrite Es.
  destruct (Z.eqb_spec (msg_type m) MSG_TASK_AFFINITY_CHANGED) as [|A1]; [by repeat wpstep|].
  destruct (Z.eqb_spec (msg_type m) MSG_TASK_PRIORITY_CHANGED) as [|A2]; [by repeat wpstep|].
  destruct (Z.eqb_spec (msg_type m) MSG_TASK_ON_CPU) as [|A3]; [by repeat wpstep|].
  exfalso. unfold is_task_type, MSG_TASK_NEW, MSG_TASK_PREEMPT, MSG_TASK_DEAD, MSG_TASK_WAKEUP,
    MSG_TASK_BLOCKED, MSG_TASK_YIELD, MSG_TASK_DEPARTED, MSG_TASK_SWITCHTO, MSG_TASK_AFFINITY_CHANGED,
    MSG_TASK_PRIORITY_CHANGED, MSG_TASK_ON_CPU, _MSG_TASK_FIRST in *. lia.
Qed.

Lemma resolved_fields t : seqnum (resolved t) = seqnum t ∧ gtid (resolved t) = gtid t.
Proof. unfold resolved. by destruct (has_state _ _). Qed.

Lemma s_after_fields t m : seqnum (s_after t m) = seqnum t ∧ gtid (s_after t m) = gtid t.
Proof. pose proof (resolved_fields t). unfold s_after. cbv zeta. by repeat case_match. Qed.

Lemma s_effect_at s p t m s' :
  heap (s_allocator s) !! p = Some t → s_death (msg_type m) = false → s_effect env s p t m s' →
  heap (s_allocator s') !! p = Some (s_after t m).
Proof.
  intros Hp Hd. unfold s_effect. rewrite Hd. destruct (s_relocates t m).
  - intros Hm. exact (moved_at _ _ _ _ _ _ _ _ Hm).
  - intros ->. simpl. by rewrite lookup_insert_eq.
Qed.

Lemma s_inv_seqnum s p t n :
  sol_inv s → heap (s_allocator s) !! p = Some t → sol_inv (put_stask p (set_seqnum n t) s).
Proof. intros Hinv Hp. eapply put_inv; [done|exact Hp|done..|]. pose proof Hinv as [Hi _]. apply (sm_task _ _ Hi p t Hp). Qed.

(** What the dispatcher makes of a message about a known task. *)
Definition s_transition (s : Sol) (p : Z) (t : SolTask) (m : Message) (s' : Sol) : Prop :=
  if s_death (msg_type m) then s_departs env s p t s'
  else ∃ s1, s_effect env s p t m s1 ∧ s' = put_stask p (set_seqnum (msg_seqnum m) (s_after t m)) s1.

Lemma dispatch_s_transition s p t m :
  sol_inv s → heap (s_allocator s) !! p = Some t → s_msg_ok s p t m → msg_gtid m ≠ 0 →
  GetTask (msg_gtid m) (s_allocator s) = Some p → is_task_type (msg_type m) → msg_type m ≠ MSG_TASK_NEW →
  wp (@DispatchMessage Sol SolTask _ _ (Sol_ops env) m) s (λ _, s_transition s p t m).
Proof using Henv.
  intros Hi Hp Hm Hg Hf Hty Hnew. eapply (wp_DispatchMessage_task p t); [done..|by apply dispatch_s_effect|].
  intros u s' [[He ->] _]. pose proof Hm as [Hsq _]. unfold s_transition. destruct (s_death _) eqn:Hd; simpl.
  - unfold s_effect in He. by rewrite Hd in He.
  - exists (s_after t m). split_and!; [by eapply s_effect_at|simpl; by rewrite (proj1 (s_after_fields t m))|]. eauto.
Qed.

Lemma s_dispatch_cpu s m (Q : unit → Sol → Prop) :
  s_cpu_msg m → Q tt s → wp (@dispatch_cpu Sol SolTask _ _ (Sol_ops env) m) s Q.
Proof.
  intros (H & N1 & N2) HQ. unfold dispatch_cpu. cbv zeta.
  repeat (case_match; [zbool; first [exact HQ|done]|]). apply known_cpu_types in H. zbool. naive_solver.
Qed.

Global Instance Sol_laws :
  @SchedLaws Sol SolTask _ _ (Sol_ops env) sol_inv (λ _, True) s_msg_ok s_cpu_msg.
Proof using Henv.
  split.
  - split; [done|by intros []].
  - done.
  - intros s [Hi _]. apply (sm_alloc _ _ Hi).
  - intros s [Hi _]. apply (se_malloc _ Henv), (sm_alloc _ _ Hi).
  - intros s m (Hi & Hset & Hc) _ Hg. set (s1 := set_allocator _ s).
    destruct (se_malloc _ Henv (s_allocator s) (proj1 (sm_alloc _ _ Hi))) as [Hne Hfr].
    assert (sol_mid s1) as Hi1.
    { destruct Hi as [Ha Hr Ht Hid Hl Ho Hag Hgl Hn]. split; simpl; try done.
      - destruct (alloc_inv_new (s_allocator s) (s_malloc env (s_allocator s)) (msg_gtid m)) as [_ H]; done.
      - by apply rest_new.
      - intros p t [[<- <-]|[_ Hp]]%lookup_insert_Some; [|by apply (Ht p t)]. split_and!; simpl; [done|by intros [?|?]|done]. }
    eapply (wp_S_TaskNew s1 _ (SolTask_new (msg_gtid m))); try done; [simpl; by rewrite lookup_insert_eq|].
    intros s' Hm Hm'. assert (settled s1) as Hset1.
    { intros p t. simpl. intros [[<- <-]|[_ Hp]]%lookup_insert_Some; [done|by eapply Hset]. }
    assert (heap (s_allocator s') = <[s_malloc env (s_allocator s) := s_new m (SolTask_new (msg_gtid m))]> (heap (s_allocator s))) as Eh.
    { pose proof (mv_alloc _ _ _ _ _ _ _ _ Hm) as Ea. simpl in Ea. rewrite Ea. simpl. by rewrite insert_insert_eq. }
    split_and!.
    + destruct Hm' as [Ha Hr Ht Hid Hl Ho Hag Hgl Hn]. by split.
    + eapply settled_moved in Hm; [exact Hm|unfold s_new; simpl; by destruct (msg_runnable m)|done].
    + unfold counted in *. simpl. rewrite Eh, map_size_insert_None, Hc by done. rewrite s32_add. f_equal. lia.
  - intros s p t m Hi Hp Hm Hty Hnew. eapply wp_mono; [by apply (dispatch_s_effect s p t m)|].
    intros u s' [[He ->] Hinv]. split; [done|]. intros Hd%negb_true_iff. pose proof Hm as [Hsq _].
    exists (s_after t m). split; [by eapply s_effect_at|]. simpl. by rewrite (proj1 (s_after_fields t m)).
  - intros s p t n Hi Hp. by apply (s_inv_seqnum s p t n).
  - intros s m Hi Hc _. by apply (s_dispatch_cpu s m).
Qed.
End messages.
