(* ===== verification/SolPass.v ===== *)
(** * SolPass: the first loop of a pass of the SOL agent

    The loop looks at every CPU but the global one: a transaction that the
    kernel committed is over, and the CPU is available unless its transaction
    is under way or its task has time left.

    How a pass of the SOL agent deals the run queue.

    The whole first loop; then the second one, which is the iteration of
    [deal_one] over a trace: each task is passed over or gets the CPU that
    [best_cpu] names, and its transaction is opened.

    The deal of the SOL agent as an iteration.

    The second loop of a pass: [deal_one] is what happens to one dequeued task,
    [deals] iterates it over a trace, and the loop does exactly that until the
    CPUs or the tasks run out.

    A whole scheduling pass of the SOL agent.

    The transactions are submitted, the tasks that were passed over return, and
    [GlobalSchedule] as a whole is described by [s_pass]. *)

From S2P Require Import Prelude Outcome CpuMap CpuMapSpec Topology TopologySpec Dispatch Placement Deals Txn Sol SolOps.
From S2P Require Import SolHandlers SolMessages.
From stdpp Require Import gmap functions sorting.
From Stdlib Require Import ZArith Lia.

Local Open Scope Z_scope.

(** Only the number of questions changed. *)
Definition with_asked (n : nat) (s : Sol) : Sol :=
  mkSol (s_allocator s) (s_cpus s) (s_txns s) (global_cpu_core_ s) (global_cpu_ s) (num_tasks_ s) (run_queue_ s)
    (yielding_tasks_ s) (iterations_ s) (stats s) n (log s).

Lemma slot_inj x y : slot_list x = slot_list y → x = y.
Proof. unfold slot_list. destruct (Z.eqb_spec x 0), (Z.eqb_spec y 0); naive_solver. Qed.

Section reap.
Context (env : SolEnv) (Henv : sol_env_ok env).

Notation sol_mid := (sol_mid env).
Notation sol_inv := (sol_inv env).
Notation enclave_cpu := (enclave_cpu env).

Lemma s_mid_asked s n : sol_mid s → sol_mid (with_asked n s).
Proof. intros [Ha Hr Ht Hid Hl Ho Hag Hgl Hn]. by split. Qed.

(** ** What a synchronization does to the slots *)

Lemma moved_queue s p t0 t f s' k :
  sol_mid s → heap (s_allocator s) !! p = Some t0 → s_moved s p t f s' → sol_place t0 ≠ Some k → sol_place t ≠ Some k →
  s_queues s' k = s_queues s k.
Proof.
  intros Hi Hp Hm N0 N. rewrite (mv_queues _ _ _ _ _ _ _ _ Hm), (requeue_at sol_place s_queues s p t0) by (first [apply (sm_rest _ _ Hi)|done]).
  cbv zeta. by rewrite !decide_False.
Qed.

(** The task that makes way is not the one that comes. *)
Lemma evicted_mid s c s1 :
  sol_mid s → evicted s c s1 → sol_mid s1 ∧ s_queues s1 (SCur c) = [] ∧ (∀ k, k ≠ SCur c → s_queues s1 k = s_queues s k) ∧
    (∀ p t, heap (s_allocator s) !! p = Some t → run_state t = kPending → heap (s_allocator s1) !! p = Some t) ∧
    global_cpu_ s1 = global_cpu_ s ∧ s_txns s1 = s_txns s ∧ ∀ d, last_commit (s_cpus s1 d) = last_commit (s_cpus s d).
Proof.
  intros Hi. unfold evicted. destruct (Z.eqb_spec (current (s_cpus s c)) 0) as [E|E].
  - intros ->. split_and!; try done. by apply slot_nil.
  - intros (u & Hu & Hm). destruct (s_current_task env s c Hi E) as (u' & Hu' & Hst & Hc). assert (u' = u) as -> by congruence.
    assert (sol_place u = Some (SCur c)) as Ep by (unfold sol_place; by rewrite Hst, Hc).
    assert (sol_mid s1) as Hi1.
    { eapply (mid_moved_plain env s _ u); [done|exact Hu|exact Hm|done| |by rewrite Hst|done].
      apply stask_state; [by apply (sm_task _ _ Hi _ u Hu)|done|done]. }
    destruct (mv_frame _ _ _ _ _ _ _ _ Hm) as [Fa Ft _ Fg _ _ _]. split_and!; try done.
    + rewrite (mv_queues _ _ _ _ _ _ _ _ Hm), (requeue_at sol_place s_queues s _ u) by (first [apply (sm_rest _ _ Hi)|done]).
      cbv zeta. rewrite decide_False by done. rewrite decide_True by done. simpl. unfold slot_list.
      rewrite (proj2 (Z.eqb_neq _ 0)) by done. apply others_self.
    + intros k Hk. eapply moved_queue; [done|exact Hu|exact Hm|congruence|done].
    + intros p t Hp Hpt. pose proof (moved_other _ _ _ s _ _ _ s1 p Hm) as H. simpl in H. rewrite H; [done|].
      intros ->. congruence.
    + intros d. apply Fa.
Qed.

Record synced_facts (s : Sol) (c : Z) (ok : bool) (s' : Sol) : Prop := {
  sf_next : next (s_cpus s' c) = 0;
  sf_current : current (s_cpus s' c) = if ok then next (s_cpus s c) else current (s_cpus s c);
  sf_other : ∀ d, d ≠ c → current (s_cpus s' d) = current (s_cpus s d) ∧ next (s_cpus s' d) = next (s_cpus s d);
  sf_commit : ∀ d, last_commit (s_cpus s' d) = last_commit (s_cpus s d);
  sf_txns : s_txns s' = s_txns s;
  sf_global : global_cpu_ s' = global_cpu_ s
}.

Lemma synced_slots s c ok s' : sol_mid s → synced s c ok s' → synced_facts s c ok s'.
Proof.
  intros Hi (t & Hp & Hst & Hc & H). set (p := next (s_cpus s c)) in *. pose proof (s_nonzero env s p t Hi Hp) as Hp0.
  assert (sol_place t = Some (SNext c)) as E0 by (unfold sol_place; by rewrite Hst, Hc).
  assert (∀ s1 t' f, sol_mid s1 → heap (s_allocator s1) !! p = Some t → s_queues s1 (SNext c) = [p] → s_moved s1 p t' f s' →
    sol_place t' ≠ Some (SNext c) → next (s_cpus s' c) = 0) as Hnext.
  { intros s1 t' f Hi1 Hp1 Hq Hm N. apply slot_nil. change (s_queues s' (SNext c) = []).
    rewrite (mv_queues _ _ _ _ _ _ _ _ Hm), (requeue_at sol_place s_queues s1 p t) by (first [apply (sm_rest _ _ Hi1)|done]).
    cbv zeta. rewrite decide_False by done. rewrite decide_True by done. rewrite Hq. apply others_self. }
  assert (s_queues s (SNext c) = [p]) as Hqn by (simpl; unfold slot_list; fold p; by rewrite (proj2 (Z.eqb_neq p 0))).
  assert (∀ s1 t' f, sol_mid s1 → heap (s_allocator s1) !! p = Some t → s_moved s1 p t' f s' →
    ∀ k, k ≠ SNext c → sol_place t' ≠ Some k → s_queues s' k = s_queues s1 k) as Hq.
  { intros s1 t' f Hi1 Hp1 Hm k Hk N. eapply moved_queue; [done|exact Hp1|exact Hm|congruence|done]. }
  destruct ok.
  - destruct H as (s1 & He & Hm). destruct (evicted_mid s c s1 Hi He) as (Hi1 & Hcur & Hoth & Hheap & Eg & Et & El).
    specialize (Hheap p t Hp Hst). destruct (mv_frame _ _ _ _ _ _ _ _ Hm) as [Fa Ft _ Fg _ _ _].
    assert (sol_place (on_cpu_task t) = Some (SCur c)) as E1 by (unfold sol_place; simpl; by rewrite Hc).
    split.
    + eapply (Hnext s1); [done|done| |exact Hm|congruence]. by rewrite Hoth.
    + apply slot_inj. change (s_queues s' (SCur c) = slot_list p).
      rewrite (mv_queues _ _ _ _ _ _ _ _ Hm), (requeue_at sol_place s_queues s1 p t) by (first [apply (sm_rest _ _ Hi1)|done]).
      cbv zeta. rewrite decide_True by done. rewrite decide_False by congruence. rewrite Hcur. unfold slot_list.
      by rewrite (proj2 (Z.eqb_neq p 0)).
    + intros d Hd. split; apply slot_inj.
      * change (s_queues s' (SCur d) = s_queues s (SCur d)). rewrite <- Hoth by congruence.
        eapply (Hq s1); [done|done|exact Hm|done|congruence].
      * change (s_queues s' (SNext d) = s_queues s (SNext d)). rewrite <- Hoth by congruence.
        eapply (Hq s1); [done|done|exact Hm|congruence|congruence].
    + intros d. rewrite <- El. apply Fa.
    + congruence.
    + congruence.
  - destruct (mv_frame _ _ _ _ _ _ _ _ H) as [Fa Ft _ Fg _ _ _]. split; try done.
    + eapply (Hnext s); [done|done|done|exact H|done].
    + apply slot_inj. change (s_queues s' (SCur c) = s_queues s (SCur c)). eapply (Hq s); [done|done|exact H|done|done].
    + intros d Hd. split; apply slot_inj.
      * change (s_queues s' (SCur d) = s_queues s (SCur d)). eapply (Hq s); [done|done|exact H|done|done].
      * change (s_queues s' (SNext d) = s_queues s (SNext d)). eapply (Hq s); [done|done|exact H|congruence|done].
    + intros d. apply Fa.
Qed.

(** ** One CPU *)

(** The transaction of [c] has a result to take in. *)
Definition reaps (s : Sol) (c : Z) : bool := negb (next (s_cpus s c) =? 0) && is_committed (txn_state (s_txns s c)).

Definition reaped_one (s : Sol) (c : Z) (s' : Sol) : Prop :=
  if reaps s c then synced s c (is_succeeded (txn_state (s_txns s c))) s' else s' = s.

(** Some answers of the clock make [c] available, or not. *)
Definition s_avail_cpu (s : Sol) (c : Z) : Prop :=
  next (s_cpus s c) = 0 ∧
  (current (s_cpus s c) = 0 ∨ ∃ n, s_within_slice env (s_now env n) (last_commit (s_cpus s c)) = false).

Definition s_busy_cpu (s : Sol) (c : Z) : Prop :=
  (next (s_cpus s c) ≠ 0 ∧ is_committed (txn_state (s_txns s c)) = false) ∨
  (current (s_cpus s c) ≠ 0 ∧ ∃ n, s_within_slice env (s_now env n) (last_commit (s_cpus s c)) = true).

Lemma reaped_one_mid s c s' : sol_inv s → sol_mid s' → reaped_one s c s' → sol_inv s'.
Proof.
  intros (Hi & Hset & Hc) Hi'. unfold reaped_one. destruct (reaps s c); [|by intros ->].
  intros H. split_and!; [done|by eapply synced_settled|by apply (synced_counted env s c _ s' Hi H)].
Qed.

Lemma reaped_one_other s c s' d :
  sol_mid s → reaped_one s c s' → d ≠ c →
  current (s_cpus s' d) = current (s_cpus s d) ∧ next (s_cpus s' d) = next (s_cpus s d) ∧
  last_commit (s_cpus s' d) = last_commit (s_cpus s d) ∧ s_txns s' d = s_txns s d ∧ global_cpu_ s' = global_cpu_ s.
Proof.
  intros Hi. unfold reaped_one. destruct (reaps s c); [|by intros ->].
  intros Hs Hd. destruct (synced_slots _ _ _ _ Hi Hs) as [H1 H2 H3 H4 H5 H6]. destruct (H3 d Hd). by rewrite H4, H5.
Qed.

Lemma s_reap_spec s c :
  sol_mid s → enclave_cpu c →
  ∃ free s', s_reap c s = Ok (free, s') ∧ reaped_one s c s' ∧ sol_mid s' ∧
    if free : bool then next (s_cpus s' c) = 0 else next (s_cpus s' c) ≠ 0 ∧ is_committed (txn_state (s_txns s' c)) = false.
Proof using Henv.
  intros Hi Hc. pose proof (s_cpu_range env Henv c Hc) as Hr.
  assert (wp (s_reap c) s (λ (free : bool) s', reaped_one s c s' ∧ sol_mid s' ∧
    if free : bool then next (s_cpus s' c) = 0 else next (s_cpus s' c) ≠ 0 ∧ is_committed (txn_state (s_txns s' c)) = false)) as H.
  - unfold s_reap, reaped_one, reaps. wpstep. apply wp_s_cpu; [done|].
    destruct (Z.eqb_spec (next (s_cpus s c)) 0) as [E|E]; simpl; [by wpstep|].
    wpstep. apply wp_s_req; [done|]. destruct (is_committed (txn_state (s_txns s c))) eqn:Ecom.
    + wpstep. eapply wp_mono; [by apply (wp_SyncCpuState env Henv s c)|]. intros ok s' (-> & Hs & Hm). wpstep.
      split_and!; [done|done|]. by apply (synced_slots s c _ s' Hi Hs).
    + wpstep. done.
  - apply wp_ok in H as (free & s' & E & H). eauto.
Qed.

(** One turn of the loop, on a CPU that is not the global one. *)
Record reap_turn (s : Sol) (c : Z) (av : CpuList) (s1 : Sol) (av1 : CpuList) : Prop := {
  tu_reap : ∃ s0 n, reaped_one s c s0 ∧ s1 = with_asked n s0;
  tu_mid : sol_mid s1;
  tu_wf : cpulist_wf av1 ∧ topology_num_cpus av1 = topology_num_cpus av;
  tu_elems : (av1 = av ∧ s_busy_cpu s1 c) ∨ (s_avail_cpu s1 c ∧ ∀ j, j ∈ elems av1 ↔ j = c ∨ j ∈ elems av)
}.

Lemma s_available_turn global c cs av s :
  sol_mid s → enclave_cpu c → c ≠ global → cpulist_wf av → topology_num_cpus av = num_cpus_ (s_topo env) →
  ∃ s1 av1, reap_turn s c av s1 av1 ∧ s_available_loop env global (c :: cs) av s = s_available_loop env global cs av1 s1.
Proof using Henv.
  intros Hi Hc Hne Hwf Hnum. destruct (s_reap_spec s c Hi Hc) as (free & s0 & E & Hreap & Hi0 & Hfree).
  pose proof (s_enclave_range env c Henv Hc) as Hr. cbn [s_available_loop]. rewrite (proj2 (Z.eqb_neq c global)) by done.
  unfold mbind at 1, M_bind. rewrite E. destruct free; simpl negb; cbn iota.
  2: { exists s0, av. split; [|done]. split; [exists s0, (asked s0); split; [done|by destruct s0]|done|done|left; split; [done|by left]]. }
  destruct (elems_set av c Hwf ltac:(lia)) as (av' & Eset & Wav & Nav & Hav').
  unfold s_cpu. rewrite (proj2 (Z.leb_le 0 c)), (proj2 (Z.ltb_lt c MAX_CPUS)) by lia. unfold mbind, M_bind, gets. simpl.
  destruct (Z.eqb_spec (current (s_cpus s0 c)) 0) as [E0|E0]; unfold mret, M_ret.
  - rewrite Eset. simpl. exists s0, av'. split; [|done].
    split; [exists s0, (asked s0); split; [done|by destruct s0]|done|done|]. right. split; [split; [done|by left]|done].
  - unfold ask, mbind, M_bind, gets, modify, mret, M_ret. simpl.
    destruct (s_within_slice env (s_now env (asked s0)) (last_commit (s_cpus s0 c))) eqn:Ew.
    + exists (tick s0), av. split; [|done].
      split; [by exists s0, (S (asked s0))|by apply (s_mid_asked s0 (S (asked s0)))|done|]. left. split; [done|]. right. split; [done|]. by eexists.
    + rewrite Eset. simpl. exists (tick s0), av'. split; [|done].
      split; [by exists s0, (S (asked s0))|by apply (s_mid_asked s0 (S (asked s0)))|done|]. right. split; [|done]. split; [done|]. right. by eexists.
Qed.
End reap.

(** ** How a pass of the SOL agent deals the run queue *)

Section deal.
Context (env : SolEnv) (Henv : sol_env_ok env).

Notation sol_mid := (sol_mid env).
Notation sol_inv := (sol_inv env).
Notation enclave_cpu := (enclave_cpu env).

Lemma s_inv_asked s n : sol_inv s → sol_inv (with_asked n s).
Proof. intros (Hi & Hs & Hc). split_and!; [by apply s_mid_asked|done|done]. Qed.

(** ** The first loop *)

(** The transactions taken in, in the order of the CPUs. *)
Fixpoint reaped (global : Z) (cs : list Z) (s s' : Sol) : Prop :=
  match cs with
  | [] => s' = s
  | c :: cs =>
      if c =? global then reaped global cs s s'
      else ∃ s0 n, reaped_one s c s0 ∧ reaped global cs (with_asked n s0) s'
  end.

Record reaped_all (global : Z) (cs : list Z) (s : Sol) (av : CpuList) (s' : Sol) (av' : CpuList) : Prop := {
  ra_inv : sol_inv s';
  ra_steps : reaped global cs s s';
  ra_wf : cpulist_wf av' ∧ topology_num_cpus av' = num_cpus_ (s_topo env);
  ra_keep : ∀ c, c ∈ elems av → c ∈ elems av';
  ra_avail : ∀ c, c ∈ elems av' → c ∈ elems av ∨ (c ∈ cs ∧ c ≠ global ∧ s_avail_cpu env s' c);
  ra_busy : ∀ c, c ∈ cs → c ≠ global → c ∈ elems av' ∨ s_busy_cpu env s' c;
  ra_other : ∀ c, c ∉ cs ∨ c = global → current (s_cpus s' c) = current (s_cpus s c) ∧ next (s_cpus s' c) = next (s_cpus s c) ∧
    last_commit (s_cpus s' c) = last_commit (s_cpus s c);
  ra_txns : s_txns s' = s_txns s;
  ra_global : global_cpu_ s' = global_cpu_ s
}.

Lemma reaped_one_frame s c s' :
  sol_mid s → reaped_one s c s' →
  s_txns s' = s_txns s ∧ global_cpu_ s' = global_cpu_ s ∧ ∀ d, d ≠ c → current (s_cpus s' d) = current (s_cpus s d) ∧
    next (s_cpus s' d) = next (s_cpus s d) ∧ last_commit (s_cpus s' d) = last_commit (s_cpus s d).
Proof.
  intros Hi. unfold reaped_one. destruct (reaps s c); [|by intros ->].
  intros Hs. destruct (synced_slots env _ _ _ _ Hi Hs) as [H1 H2 H3 H4 H5 H6]. split_and!; [done..|].
  intros d Hd. destruct (H3 d Hd). by rewrite H4.
Qed.

(** The conditions on a CPU read only its state. *)
Lemma s_avail_ext s s' c :
  current (s_cpus s' c) = current (s_cpus s c) → next (s_cpus s' c) = next (s_cpus s c) →
  last_commit (s_cpus s' c) = last_commit (s_cpus s c) → s_txns s' = s_txns s →
  (s_avail_cpu env s c → s_avail_cpu env s' c) ∧ (s_busy_cpu env s c → s_busy_cpu env s' c).
Proof. intros E1 E2 E3 E4. unfold s_avail_cpu, s_busy_cpu. by rewrite E1, E2, E3, E4. Qed.

Lemma wp_s_available_loop global cs av s :
  sol_inv s → (∀ c, c ∈ cs → enclave_cpu c) → NoDup cs → global = global_cpu_ s →
  (global ∈ cs → current (s_cpus s global) = 0) → cpulist_wf av → topology_num_cpus av = num_cpus_ (s_topo env) →
  wp (s_available_loop env global cs av) s (λ av' s', reaped_all global cs s av s' av').
Proof using Henv.
  revert av s. induction cs as [|c cs IH]; intros av s Hi Hcs Hnd Hg Hcur Hwf Hnum.
  { simpl. apply wp_ret. split; try done; [by left|]. intros c Hc. by apply elem_of_nil in Hc. }
  assert (enclave_cpu c) as Hc by (apply Hcs; by left). pose proof (s_cpu_range env Henv c Hc) as Hr.
  assert (∀ d, d ∈ cs → enclave_cpu d) as Hcs' by (intros; apply Hcs; by right).
  apply NoDup_cons in Hnd as [Hnin Hnd]. specialize (IH) as IH. pose proof Hi as [Hmid _].
  destruct (decide (c = global)) as [->|Hne].
  - simpl. rewrite Z.eqb_refl. wpstep. apply wp_s_cpu; [done|]. wpstep. wpstep; [apply Z.eqb_eq, Hcur; by left|].
    assert (next (s_cpus s global) = 0) as Hn by (rewrite Hg; apply (sm_next _ _ Hmid)).
    wpstep. wpstep; [by apply Z.eqb_eq|]. wpstep. apply wp_s_req; [done|]. wpstep.
    wpstep; [apply (sm_idle _ _ Hmid _ Hc); by apply slot_nil|].
    eapply wp_mono; [apply IH; try done; intros; apply Hcur; by right|].
    intros av' s' [H1 H2 H3 H4 H5 H6 H7 H8 H9]. split; try done.
    + simpl. by rewrite Z.eqb_refl.
    + intros d Hd. destruct (H5 d Hd) as [|(? & ? & ?)]; [by left|right; split_and!; [by right|done..]].
    + intros d Hd Hdg. apply elem_of_cons in Hd as [->|Hd]; [done|auto].
    + intros d [Hd|Hd]; apply H7; [left|by right]. intros ?. apply Hd. by right.
  - destruct (s_available_turn env Henv global c cs av s Hmid Hc Hne Hwf Hnum) as (s1 & av1 & [(s0 & n & Hreap & E1) Hm1 [W1 N1] Hel] & E).
    unfold wp. rewrite E. fold (wp (s_available_loop env global cs av1) s1 (λ av' s', reaped_all global (c :: cs) s av s' av')).
    destruct (reaped_one_frame s c s0 Hmid Hreap) as (Et & Eg & Eo).
    assert (sol_mid s0) as Hm0 by (subst s1; by destruct Hm1).
    assert (sol_inv s1) as Hi1 by (subst s1; by apply s_inv_asked, (reaped_one_mid env s c)).
    assert (s_txns s1 = s_txns s ∧ global_cpu_ s1 = global_cpu_ s ∧ s_cpus s1 = s_cpus s0) as (Et1 & Eg1 & Ec1) by (by subst s1).
    eapply wp_mono; [apply IH; try done|].
    + congruence.
    + intros Hin. rewrite Ec1, (proj1 (Eo global ltac:(done))). apply Hcur. by right.
    + congruence.
    + intros av' s' [H1 H2 H3 H4 H5 H6 H7 H8 H9]. destruct (H7 c (or_introl Hnin)) as (C1 & C2 & C3).
      destruct (s_avail_ext s1 s' c C1 C2 C3 H8) as [Ha Hb]. split; try done.
      * simpl. rewrite (proj2 (Z.eqb_neq c global)) by done. exists s0, n. by rewrite <- E1.
      * intros d Hd. apply H4. destruct Hel as [[-> _]|[_ Hel]]; [done|]. apply Hel. by right.
      * intros d Hd. destruct (H5 d Hd) as [H|(? & ? & ?)]; [|right; split_and!; [by right|done..]].
        destruct Hel as [[-> _]|[Hav Hel]]; [by left|]. apply Hel in H as [->|H]; [|by left].
        right. split_and!; [by left|done|auto].
      * intros d Hd Hdg. apply elem_of_cons in Hd as [->|Hd]; [|auto].
        destruct Hel as [[-> ?]|[_ Hel]]; [right; auto|]. left. apply H4, Hel. by left.
      * intros d Hd. assert (d ≠ c) as Hdc by (intros ->; destruct Hd as [Hd|]; [apply Hd; by left|done]).
        assert (d ∉ cs ∨ d = global) as Hd' by (destruct Hd as [Hd|]; [left; intros ?; apply Hd; by right|by right]).
        destruct (H7 d Hd') as (D1 & D2 & D3), (Eo d Hdc) as (F1 & F2 & F3). rewrite D1, D2, D3, Ec1. done.
      * congruence.
      * congruence.
Qed.

(** With a task on the global CPU the loop fails a check. *)
Lemma s_available_crash global cs av s :
  sol_inv s → (∀ c, c ∈ cs → enclave_cpu c) → NoDup cs → global ∈ cs → current (s_cpus s global) ≠ 0 → cpulist_wf av →
  topology_num_cpus av = num_cpus_ (s_topo env) → s_available_loop env global cs av s = Crash CheckFailed.
Proof using Henv.
  revert av s. induction cs as [|c cs IH]; intros av s Hi Hcs Hnd Hin Hcur Hwf Hnum; [by apply elem_of_nil in Hin|].
  assert (enclave_cpu c) as Hc by (apply Hcs; by left). pose proof (s_cpu_range env Henv c Hc) as Hr. pose proof Hi as [Hmid _].
  apply NoDup_cons in Hnd as [Hnin Hnd]. destruct (decide (c = global)) as [->|Hne].
  - simpl. rewrite Z.eqb_refl. apply crash_bind, wp_s_cpu; [done|]. by rewrite (proj2 (Z.eqb_neq _ _) Hcur).
  - destruct (s_available_turn env Henv global c cs av s Hmid Hc Hne Hwf Hnum) as (s1 & av1 & [(s0 & n & Hreap & E1) Hm1 [W1 N1] Hel] & ->).
    destruct (reaped_one_frame s c s0 Hmid Hreap) as (_ & _ & Eo). destruct (Eo global ltac:(done)) as (E & _).
    apply IH; try done.
    + subst s1. apply s_inv_asked, (reaped_one_mid env s c); [done| |done]. by destruct Hm1.
    + intros d Hd. apply Hcs. by right.
    + by apply elem_of_cons in Hin as [<-|?].
    + subst s1. simpl. by rewrite E.
    + congruence.
Qed.
End deal.

(** ** The deal of the SOL agent as an iteration *)

Section loop.
Context (env : SolEnv) (Henv : sol_env_ok env).

Notation sol_mid := (sol_mid env).
Notation sol_inv := (sol_inv env).
Notation enclave_cpu := (enclave_cpu env).

(** ** The CPU of a task *)

Definition siblings_of (c : Z) : list Z := default [] ((λ r, elems (rep_siblings r)) <$> cpus_ (s_topo env) !! Z.to_nat c).

(** Its last CPU if it is available, or a sibling of it, or the lowest one. *)
Definition best_cpu (last : option Z) (av : list Z) : option Z :=
  match last with
  | None => head av
  | Some d =>
      if bool_decide (d ∈ av) then Some d
      else match head (filter (λ c, c ∈ av) (siblings_of d)) with Some c => Some c | None => head av end
  end.

Lemma best_cpu_in last av c : best_cpu last av = Some c → c ∈ av.
Proof.
  assert (∀ c, head av = Some c → c ∈ av) as Hh by (intros d; destruct av; [done|]; intros [= ->]; by left).
  unfold best_cpu. destruct last as [d|]; [|apply Hh]. case_bool_decide as Hd; [by intros [= <-]|].
  destruct (head (filter _ _)) as [e|] eqn:E; [|apply Hh]. intros [= ->].
  assert (c ∈ filter (λ c, c ∈ av) (siblings_of d)) as Hin by (destruct (filter _ _); [done|]; injection E as ->; by left).
  by apply list_elem_of_filter in Hin as [? _].
Qed.

Lemma isset_elems l c : cpulist_wf l → 0 ≤ c < 512 → CpuList_IsSet c l = Ok (bool_decide (c ∈ elems l)).
Proof.
  intros Hwf Hc. rewrite IsSet_spec by done. f_equal. apply eq_bool_prop_intro. rewrite bool_decide_spec, elem_of_elems by done.
  rewrite Is_true_true. naive_solver lia.
Qed.

Lemma first_set_spec av cs :
  cpulist_wf av → (∀ c, c ∈ cs → 0 ≤ c < 512) → first_set av cs = Ok (head (filter (λ c, c ∈ elems av) cs)).
Proof.
  intros Hwf. induction cs as [|c cs IH]; intros Hcs; [done|]. simpl. rewrite isset_elems by (first [done|apply Hcs; by left]).
  simpl. rewrite filter_cons. case_bool_decide as E; [by rewrite decide_True|rewrite decide_False by done].
  apply IH. intros d Hd. apply Hcs. by right.
Qed.

Lemma front_cpu_spec av : cpulist_wf av → elems av ≠ [] → ∃ c, head (elems av) = Some c ∧ front_cpu av = Ok c.
Proof. intros Hwf Hne. unfold front_cpu. rewrite Front_spec by done. destruct (elems av) as [|c l]; [done|]. by exists c. Qed.

Lemma choose_cpu_spec last av :
  cpulist_wf av → elems av ≠ [] → (∀ c, last = Some c → enclave_cpu c) →
  ∃ c, best_cpu last (elems av) = Some c ∧ choose_cpu env last av = Ok c.
Proof using Henv.
  intros Hwf Hne Hlast. destruct (front_cpu_spec av Hwf Hne) as (f & Ef & Ef').
  unfold choose_cpu, best_cpu. destruct last as [d|]; [|by exists f].
  destruct (s_enclave_range env d Henv (Hlast d eq_refl)) as [Hr Hr']. unfold MAX_CPUS in Hr'.
  rewrite isset_elems by (done || lia). simpl. case_bool_decide as Hd; [by exists d|].
  destruct (rep_exists _ (se_topo _ Henv) d Hr) as (r & Hrep & ->). simpl. unfold siblings_of. rewrite Hrep. simpl.
  destruct (to_lists _ (se_topo _ Henv) _ r rep_siblings Hrep) as [Hws Hns]; [by left|].
  rewrite iterate_spec by done. simpl. rewrite first_set_spec; [|done|].
  - simpl. destruct (head (filter _ _)) as [c|]; [by exists c|by exists f].
  - intros c Hc. pose proof (elems_lt _ _ Hws Hc). pose proof (wf_cpus _ Hws). lia.
Qed.

(** ** One task *)

(** The task once it is given the CPU [c]. *)
Definition dealt_task (c : Z) (t : SolTask) : SolTask :=
  let u := set_run_state kPending (set_cpu c t) in if preempted t then set_prio_boost true (set_preempted false u) else u.

(** Its transaction. *)
Definition opened (t : SolTask) (x : Txn) : Txn := mkTxn GHOST_TXN_READY (gtid t) 0 (seqnum t) 0 0 (txn_owner x) false.

(** The task [d.1] is dequeued, and passed over or given a CPU. *)
Definition deal_one (s : Sol) (d : Deal) : Sol :=
  match heap (s_allocator s) !! d.1 with
  | None => s
  | Some t =>
      let s := set_run_queue (tail (run_queue_ s)) s in
      match d.2 with
      | None => set_yielding (yielding_tasks_ s ++ [d.1]) (put_stask d.1 (set_run_state kYielding t) s)
      | Some c =>
          add_event (SEvOpen c (gtid t) (seqnum t))
            (set_s_cpus (<[c := set_next d.1 (s_cpus s c)]> (s_cpus s))
               (set_s_txns (<[c := opened t (s_txns s c)]> (s_txns s)) (put_stask d.1 (dealt_task c t) s)))
      end
  end.

(** The kernel's answers about a dequeued task. *)
Definition s_passed_over (t : SolTask) : Prop :=
  (∃ n, s_on_cpu env n (gtid t) = true) ∨ ∃ n, seqnum t ≠ s_barrier env n (gtid t).

Definition s_ready (t : SolTask) : Prop :=
  (∃ n, s_on_cpu env n (gtid t) = false) ∧ ∃ n, seqnum t = s_barrier env n (gtid t).

Definition deal_ok (s : Sol) (av : list Z) (d : Deal) : Prop :=
  av ≠ [] ∧ head (run_queue_ s) = Some d.1 ∧ ∃ t, heap (s_allocator s) !! d.1 = Some t ∧
    match d.2 with None => s_passed_over t | Some c => s_ready t ∧ best_cpu (cpu t) av = Some c end.

(** The CPUs left. *)
Definition left_cpus (av : list Z) (d : Deal) : list Z := match d.2 with Some c => others c av | None => av end.

Inductive deals : Sol → list Z → list Deal → Sol → list Z → Prop :=
| deals_nil s av n : deals s av [] (with_asked n s) av
| deals_cons s av d D n s' av' :
    deal_ok s av d → deals (with_asked n (deal_one s d)) (left_cpus av d) D s' av' → deals s av (d :: D) s' av'.

(** What the loop needs of the CPUs it deals. *)
Definition dealable (s : Sol) (av : list Z) : Prop :=
  ∀ c, c ∈ av → enclave_cpu c ∧ c ≠ global_cpu_ s ∧ next (s_cpus s c) = 0.

Lemma head_rest s p : head (run_queue_ s) = Some p → run_queue_ s = p :: tail (run_queue_ s).
Proof. destruct (run_queue_ s); [done|]. by intros [= ->]. Qed.

Lemma head_queued s p t :
  sol_mid s → head (run_queue_ s) = Some p → heap (s_allocator s) !! p = Some t →
  run_state t = kQueued ∧ others p (run_queue_ s) = tail (run_queue_ s).
Proof.
  intros Hi Hh Hp. pose proof (head_rest s p Hh) as E. assert (p ∈ s_queues s SRun) as Hin by (simpl; rewrite E; by left).
  destruct (s_place_live env s p SRun Hi Hin) as (t' & Hp' & Hpl). assert (t' = t) as -> by congruence. split.
  - unfold sol_place in Hpl. destruct (run_state t), (cpu t); naive_solver.
  - pose proof (proj2 (sm_rest _ _ Hi) SRun) as Hnd. simpl in Hnd. rewrite E in Hnd |- *. apply NoDup_cons in Hnd as [Hn _].
    rewrite others_cons_self. by apply others_notin.
Qed.

Lemma dealt_ok c t : stask_ok env t → enclave_cpu c → stask_ok env (dealt_task c t).
Proof.
  intros (H1 & H2 & H3) Hc. unfold dealt_task. destruct (preempted t) eqn:E; split_and!; simpl; try done; try by (intros ? [= <-]); eauto.
Qed.

Lemma dealt_place c t : sol_place (dealt_task c t) = Some (SNext c) ∧ gtid (dealt_task c t) = gtid t.
Proof. unfold dealt_task. by destruct (preempted t). Qed.

Lemma deal_one_inv s av d :
  sol_inv s → dealable s av → deal_ok s av d → sol_inv (deal_one s d) ∧ dealable (deal_one s d) (left_cpus av d).
Proof.
  intros (Hi & Hset & Hc) Hd (_ & Hh & t & Hp & Hok). destruct d as [p oc]. simpl in *. destruct (head_queued s p t Hi Hh Hp) as [Hst Ho].
  pose proof (sm_task _ _ Hi p t Hp) as Htok. pose proof (s_nonzero env s p t Hi Hp) as Hp0.
  assert (sol_place t = Some SRun) as E0 by (unfold sol_place; by rewrite Hst). pose proof (sm_rest _ _ Hi) as Hr.
  assert (∀ r, settled r → ∀ u, run_state u ≠ kRunnable → settled (put_stask p u r)) as Hsettled.
  { intros r Hr' u Hu q v. simpl. rewrite lookup_insert_Some. intros [[<- <-]|[_ Hv]]; [done|by eapply Hr']. }
  unfold deal_one. simpl. rewrite Hp. destruct oc as [c|].
  - destruct Hok as [_ Hb]. pose proof (best_cpu_in _ _ _ Hb) as Hin. destruct (Hd c Hin) as (Henc & Hg & Hn).
    destruct (dealt_place c t) as [Epl Egt]. split; [split_and!|].
    + set (s1 := add_event (SEvOpen c (gtid t) (seqnum t)) (set_s_cpus (<[c := set_next p (s_cpus s c)]> (s_cpus s))
        (put_stask p (dealt_task c t) (set_run_queue (tail (run_queue_ s)) s)))).
      apply (s_mid_moved_txns env s p t (dealt_task c t) false s1 (<[c := opened t (s_txns s c)]> (s_txns s)) Hi Hp); try done.
      * show_moved s p t; rewrite E0, Epl, ?decide_False by congruence; try done.
        rewrite decide_True by done. rewrite Hn. unfold slot_list. by rewrite (proj2 (Z.eqb_neq p 0)).
      * by apply dealt_ok.
      * intros d. by rewrite E0.
      * intros d. rewrite Epl. intros [= <-]. split; [done|]. rewrite fn_lookup_insert. split; [|done]. by vm_compute.
      * intros d. destruct (decide (c = d)) as [<-|Hne]; [rewrite fn_lookup_insert|rewrite fn_lookup_insert_ne by done; by left].
        right. split; [done|]. apply (sm_owner _ _ Hi c).
    + apply (Hsettled s Hset). unfold dealt_task. by destruct (preempted t).
    + unfold counted in *. simpl. rewrite map_size_insert_Some by eauto. exact Hc.
    + intros d [Hne Hd']%elem_of_others. destruct (Hd d Hd') as (A & B & C). split_and!; [done|done|]. simpl.
      by rewrite fn_lookup_insert_ne.
  - split; [split_and!|done].
    + eapply (mid_moved_plain env s p t (set_run_state kYielding t) false); [done|exact Hp| |done| |by rewrite Hst|done].
      * show_moved s p t; rewrite E0, ?decide_False by done; try done.
      * by apply stask_state.
    + by apply (Hsettled s Hset).
    + unfold counted in *. simpl. rewrite map_size_insert_Some by eauto. exact Hc.
Qed.

(** ** The loop *)

Lemma deal_one_frame s d : global_cpu_ (deal_one s d) = global_cpu_ s ∧ (heap (s_allocator s) !! d.1 ≠ None → run_queue_ (deal_one s d) = tail (run_queue_ s)).
Proof. unfold deal_one. destruct (heap (s_allocator s) !! d.1); [|done]. by destruct d.2. Qed.

(** What the code does to a task that it passes over. *)
Lemma wp_skip s av p t n (Q : unit → Sol → Prop) :
  sol_inv s → dealable s av → deal_ok s av (p, None) → heap (s_allocator s) !! p = Some t →
  (∀ n', Q tt (with_asked n' (deal_one s (p, None)))) →
  wp (S_Yield p) (with_asked n (set_run_queue (tail (run_queue_ s)) (put_stask p (set_run_state kRunnable t) s))) Q.
Proof.
  intros Hi Hd Hok Hp HQ. unfold S_Yield. wpstep. eapply wp_task; [simpl; apply lookup_insert_eq|]. wpstep.
  wpstep; [done|]. wpstep. eapply wp_upd; [simpl; apply lookup_insert_eq|]. wpstep. specialize (HQ n).
  unfold deal_one in HQ. simpl in HQ. rewrite Hp in HQ. unfold put_obj, with_asked, put_stask, put_obj in *. simpl in *.
  rewrite insert_insert_eq. exact HQ.
Qed.

Lemma Open_idle o t :
  is_committed (txn_state t) = true → txn_owner t = kSyncGroupNotOwned → opt_allow_txn_target_on_cpu o = false →
  Open o t = Ok (mkTxn GHOST_TXN_READY (opt_target o) (opt_agent_barrier o) (opt_target_barrier o) (opt_run_flags o)
        (opt_commit_flags o) (txn_owner t) false).
Proof. intros Hc Ho Ha. unfold Open, publish, sync_group_owned. rewrite Hc, Ho, Ha. done. Qed.

(** What it does to a task that gets a CPU. *)
Lemma wp_give {B} s av p t c n (k : M Sol B) (Q : B → Sol → Prop) :
  sol_inv s → dealable s av → deal_ok s av (p, Some c) → heap (s_allocator s) !! p = Some t →
  (∀ n', wp k (with_asked n' (deal_one s (p, Some c))) Q) →
  wp (s_cpu c ≫= λ k0, check (next k0 =? 0) ≫= λ _,
      s_req c ≫= λ req,
      lift (Open (options (gtid t) (seqnum t) 0) req) ≫= λ req,
      put_txn c req ≫= λ _,
      modify (add_event (SEvOpen c (gtid t) (seqnum t))) ≫= λ _,
      upd_cpu c (set_next p) ≫= λ _,
      upd_task p (set_run_state kPending) ≫= λ _,
      whenM (preempted t) (upd_task p (λ t, set_prio_boost true (set_preempted false t))) ≫= λ _, k)
    (with_asked n (set_run_queue (tail (run_queue_ s)) (put_stask p (set_cpu c (set_run_state kRunnable t)) s))) Q.
Proof using Henv.
  intros (Hi & _ & _) Hd (_ & _ & u & Hu & _ & Hb) Hp Hk. simpl in Hu, Hb. pose proof (best_cpu_in _ _ _ Hb) as Hin.
  destruct (Hd c Hin) as (Hc & Hg & Hn). pose proof (s_cpu_range env Henv c Hc) as Hr.
  wpstep. apply wp_s_cpu; [done|]. wpstep. wpstep; [by apply Z.eqb_eq|]. wpstep. apply wp_s_req; [done|].
  rewrite Open_idle; [|apply (sm_idle _ _ Hi c Hc); simpl; by apply slot_nil|apply (sm_owner _ _ Hi c)|done].
  apply wp_lift_ok. unfold put_txn. do 4 wpstep. wpstep. apply wp_s_upd_cpu; [done|]. wpstep.
  eapply wp_upd; [simpl; apply lookup_insert_eq|]. specialize (Hk n).
  unfold deal_one, opened, dealt_task in Hk. simpl in Hk. rewrite Hp in Hk. wpstep. destruct (preempted t) eqn:Epre; wpstep; try done.
  - intros _. eapply wp_upd; [simpl; apply lookup_insert_eq|].
    unfold put_obj, with_asked, put_stask, put_obj in *. simpl in *. rewrite !insert_insert_eq. exact Hk.
  - intros _. unfold put_obj, with_asked, put_stask, put_obj in *. simpl in *. rewrite !insert_insert_eq. exact Hk.
Qed.

Record dealt (s : Sol) (av : list Z) (assigned : CpuList) (D : list Deal) (s' : Sol) (av' : list Z) (assigned' : CpuList) : Prop := {
  dl_deals : deals s av D s' av';
  dl_inv : sol_inv s';
  dl_done : av' = [] ∨ run_queue_ s' = [];
  dl_wf : cpulist_wf assigned' ∧ topology_num_cpus assigned' = num_cpus_ (s_topo env);
  dl_assigned : ∀ c, c ∈ elems assigned' ↔ c ∈ elems assigned ∨ c ∈ (picked D).*1
}.

Lemma wp_s_deal_loop fuel s av assigned :
  sol_inv s → dealable s (elems av) → cpulist_wf av → cpulist_wf assigned →
  topology_num_cpus assigned = num_cpus_ (s_topo env) → (length (run_queue_ s) < fuel)%nat →
  wp (s_deal_loop env fuel av assigned) s (λ assigned' s', ∃ D av', dealt s (elems av) assigned D s' av' assigned').
Proof using Henv.
  revert s av assigned. induction fuel as [|fuel IH]; intros s av assigned Hinv Hd Wav Was Nas Hfuel; [lia|]. simpl.
  pose proof Hinv as (Hi & _ & _).
  assert (∀ q, (elems av = [] ∨ run_queue_ s = []) → q = s → ∃ D av', dealt s (elems av) assigned D q av' assigned) as Hstop.
  { intros q Hdone ->. exists [], (elems av). split; try done; [|intros c; simpl; rewrite elem_of_nil; tauto].
    replace s with (with_asked (asked s) s) at 2 by (by destruct s). constructor. }
  rewrite CpuMap_Empty_spec by done. apply wp_lift_ok. case_bool_decide as Eav; [wpstep; apply Hstop; auto|].
  destruct (run_queue_ s) as [|p l] eqn:Hrq.
  { unfold S_Dequeue. do 3 wpstep. rewrite Hrq. wpstep. simpl. wpstep. apply Hstop; auto. }
  wpstep. unfold S_Dequeue. wpstep. wpstep. rewrite Hrq.
  assert (p ∈ s_queues s SRun) as Hin by (simpl; rewrite Hrq; by left).
  destruct (s_place_live env s p SRun Hi Hin) as (t & Hp & Hpl). pose proof (s_nonzero env s p t Hi Hp) as Hp0.
  assert (head (run_queue_ s) = Some p) as Hh by (by rewrite Hrq). destruct (head_queued s p t Hi Hh Hp) as [Hst _].
  assert (∀ d n, deal_ok s (elems av) d → d.1 = p → ∀ av1 assigned1, cpulist_wf av1 → cpulist_wf assigned1 →
    elems av1 = left_cpus (elems av) d → topology_num_cpus assigned1 = num_cpus_ (s_topo env) →
    (∀ c, c ∈ elems assigned1 ↔ c ∈ elems assigned ∨ d.2 = Some c) →
    wp (s_deal_loop env fuel av1 assigned1) (with_asked n (deal_one s d)) (λ assigned' s', ∃ D av', dealt s (elems av) assigned D s' av' assigned')) as Hnext.
  { intros d n Hok Ed av1 as1 W1 W2 Eel N2 Has. destruct (deal_one_inv s (elems av) d Hinv Hd Hok) as [Hi1 Hd1].
    destruct (deal_one_frame s d) as [Eg Erq]. rewrite <- Eel in Hd1.
    eapply wp_mono; [apply IH; try done|].
    - by apply s_inv_asked.
    - simpl. rewrite Erq by (rewrite Ed; congruence). rewrite Hrq. simpl in *. lia.
    - intros as' s' (D & av' & [H1 H2 H3 H4 H5]). exists (d :: D), av'. split; try done.
      + rewrite Eel in H1. by econstructor.
      + intros c. rewrite H5, Has. unfold picked. simpl. destruct d as [q [e|]]; simpl; [|naive_solver].
        rewrite elem_of_cons. naive_solver. }
  wpstep. eapply wp_task; [exact Hp|]. wpstep. wpstep; [by apply bool_decide_eq_true|]. wpstep. eapply wp_upd; [exact Hp|].
  wpstep. wpstep. wpstep. rewrite (proj2 (Z.eqb_neq p 0)) by done. wpstep. eapply wp_task; [simpl; apply lookup_insert_eq|].
  wpstep. apply wp_s_ask. simpl gtid. simpl seqnum. wpstep.
  set (s1 := set_run_queue l _). assert (s1 = set_run_queue (tail (run_queue_ s)) (put_stask p (set_run_state kRunnable t) s)) as Es1 by (by rewrite Hrq).
  assert (∀ n, s_passed_over t → wp (S_Yield p ≫= λ _, s_deal_loop env fuel av assigned) (with_asked n s1)
    (λ assigned' s', ∃ D av', dealt s (elems av) assigned D s' av' assigned')) as Hskip.
  { intros n Hpass. assert (deal_ok s (elems av) (p, None)) as Hok by (split_and!; [done|done|by exists t]).
    wpstep. rewrite Es1. eapply (wp_skip s (elems av)); [done|done|done|exact Hp|]. intros n'. apply Hnext; try done.
    intros c. simpl. naive_solver. }
  destruct (s_on_cpu env (asked s1) (gtid t)) eqn:Eon.
  { wpstep. apply (Hskip (S (asked s1))). left. eauto. }
  apply wp_s_ask. simpl asked. destruct (Z.eqb_spec (seqnum t) (s_barrier env (S (asked s)) (gtid t))) as [Eb|Eb]; simpl negb; cbn iota.
  2: { apply (Hskip (S (S (asked s1)))). right. eauto. }
  destruct (sm_task _ _ Hi p t Hp) as (Hcpu & _ & _).
  destruct (choose_cpu_spec (cpu t) av Wav Eav Hcpu) as (c & Hbest & Hch). change (cpu (set_run_state kRunnable t)) with (cpu t). change (preempted (set_run_state kRunnable t)) with (preempted t). rewrite Hch. apply wp_lift_ok.
  pose proof (best_cpu_in _ _ _ Hbest) as Hcin. destruct (Hd c Hcin) as (Hc & _ & _).
  destruct (s_enclave_range env c Henv Hc) as [Hr Hr']. unfold MAX_CPUS in Hr'.
  wpstep. eapply wp_upd; [simpl; apply lookup_insert_eq|]. rewrite isset_elems by (done || lia). apply wp_lift_ok.
  wpstep. wpstep; [by apply bool_decide_eq_true|].
  destruct (elems_remove av c Wav ltac:(lia)) as (av1 & -> & Wav1 & Eav1). apply wp_lift_ok.
  destruct (elems_set assigned c Was ltac:(lia)) as (as1 & -> & Was1 & Nas1 & Has1). apply wp_lift_ok.
  assert (deal_ok s (elems av) (p, Some c)) as Hok by (split_and!; [done|done|exists t; split; [done|split; [split; eauto|done]]]).
  match goal with |- wp _ ?x _ => replace x with (with_asked (S (S (asked s1))) (set_run_queue (tail (run_queue_ s)) (put_stask p (set_cpu c (set_run_state kRunnable t)) s))) end.
  2: { rewrite Hrq. unfold with_asked, put_stask, put_obj. simpl. by rewrite insert_insert_eq. }
  eapply (wp_give s (elems av) p t c); [done|done|done|done|]. intros n'. apply Hnext; try done; [congruence|].
  intros d. rewrite Has1. simpl. naive_solver.
Qed.
End loop.

(** ** A whole scheduling pass of the SOL agent *)

(** ** Submission and return *)

(** The commit times of the CPUs [cs]. *)
Definition stamp_one (now : Z) (s : Sol) (c : Z) : Sol := set_s_cpus (<[c := set_last_commit now (s_cpus s c)]> (s_cpus s)) s.

Definition submitted (cs : list Z) (now : Z) (s : Sol) : Sol :=
  match cs with [] => s | _ => foldl (stamp_one now) (add_event (SEvSubmit cs) s) cs end.

(** A yielding task enters the run queue. *)
Definition return_one (s : Sol) (p : Z) : Sol :=
  match heap (s_allocator s) !! p with
  | Some t =>
      set_run_queue (if s_boosted t then p :: run_queue_ s else run_queue_ s ++ [p]) (put_stask p (set_run_state kQueued t) s)
  | None => s
  end.

(** Only the commit times, the number of questions and the log changed. *)
Definition with_times (f : Z → SolCpu) (n : nat) (l : list SolEvent) (s : Sol) : Sol :=
  mkSol (s_allocator s) f (s_txns s) (global_cpu_core_ s) (global_cpu_ s) (num_tasks_ s) (run_queue_ s)
    (yielding_tasks_ s) (iterations_ s) (stats s) n l.

Definition same_but_times (s s' : Sol) : Prop :=
  s' = with_times (s_cpus s') (asked s') (log s') s ∧
  ∀ c, current (s_cpus s' c) = current (s_cpus s c) ∧ next (s_cpus s' c) = next (s_cpus s c) ∧ agent (s_cpus s' c) = agent (s_cpus s c).

Section pass.
Context (env : SolEnv) (Henv : sol_env_ok env).

Notation sol_mid := (sol_mid env).
Notation sol_inv := (sol_inv env).
Notation enclave_cpu := (enclave_cpu env).

Lemma times_inv s s' : sol_inv s → same_but_times s s' → sol_inv s'.
Proof.
  intros ([Ha Hr Ht Hid Hl Ho Hag Hgl Hn] & Hs & Hc) [E Hf]. rewrite E. split_and!; [|done|done].
  assert (∀ k, s_queues (with_times (s_cpus s') (asked s') (log s') s) k = s_queues s k) as Hq.
  { intros [| |c|c]; simpl; [done..| |]; destruct (Hf c) as (E1 & E2 & E3); congruence. }
  split; simpl; try done.
  - by eapply (rest_ext sol_place _ (s_queues s)).
  - intros c Hc'. destruct (Hf c) as (_ & -> & _). by apply Hid.
  - intros c. destruct (Hf c) as (_ & -> & _). apply Hl.
  - intros c. destruct (Hf c) as (_ & _ & ->). apply Hag.
  - destruct (Hf (global_cpu_ s)) as (_ & -> & _). done.
Qed.

Lemma stamp_times now cs s : same_but_times s (foldl (stamp_one now) s cs).
Proof.
  revert s. induction cs as [|c cs IH]; intros s; [split; [by destruct s|done]|]. simpl. destruct (IH (stamp_one now s c)) as [E Hf]. split.
  - rewrite E at 1. by destruct s.
  - intros d. destruct (Hf d) as (-> & -> & ->). simpl. destruct (decide (c = d)) as [<-|Hne];
      [by rewrite fn_lookup_insert|by rewrite fn_lookup_insert_ne].
Qed.

Lemma wp_stamp_all now cs s :
  (∀ c, c ∈ cs → enclave_cpu c) →
  wp (forM cs (λ c, upd_cpu c (set_last_commit now))) s (λ _ s', s' = foldl (stamp_one now) s cs).
Proof using Henv.
  revert s. induction cs as [|c cs IH]; intros s Hcs; simpl; [by wpstep|].
  wpstep. apply wp_s_upd_cpu; [by apply (s_cpu_range env Henv), Hcs; left|]. apply IH. intros d Hd. apply Hcs. by right.
Qed.

(** The last but one part of a pass. *)
Lemma wp_submit as_ s (Q : unit → Sol → Prop) :
  (∀ c, c ∈ as_ → enclave_cpu c) →
  (∀ k n, Q tt (with_asked n (submitted as_ (s_now env k) s))) →
  wp (whenM (negb (bool_decide (as_ = [])))
    (ask (λ n, s_submit env n as_) ≫= λ ret, check (ret =? 0) ≫= λ _,
     modify (add_event (SEvSubmit as_)) ≫= λ _,
     ask (s_now env) ≫= λ now,
     forM as_ (λ c, upd_cpu c (set_last_commit now)))) s Q.
Proof using Henv.
  intros Has HQ. destruct as_ as [|c cs]; simpl negb; [wpstep; [done|]; intros _; replace s with (with_asked (asked s) s) by (by destruct s); apply (HQ O)|].
  wpstep; [|done]. intros _. wpstep. apply wp_s_ask. rewrite (se_submit _ Henv). wpstep. wpstep; [done|]. wpstep. wpstep. wpstep.
  apply wp_s_ask. eapply wp_mono; [by apply wp_stamp_all|]. intros [] s' ->. specialize (HQ (S (asked s)) (S (S (asked s)))).
  unfold submitted in HQ. match goal with |- Q tt ?x => replace x with (with_asked (S (S (asked s))) (foldl (stamp_one (s_now env (S (asked s)))) (add_event (SEvSubmit (c :: cs)) s) (c :: cs))); [done|] end.
  generalize (c :: cs) as l. intros l. set (e := SEvSubmit l). clearbody e. clear.
  assert (∀ s1, with_asked (S (S (asked s))) (foldl (stamp_one (s_now env (S (asked s)))) s1 l) =
    foldl (stamp_one (s_now env (S (asked s)))) (with_asked (S (S (asked s))) s1) l) as H.
  { induction l as [|c l IH]; intros s1; [done|]. simpl. by rewrite IH. }
  apply H.
Qed.

Lemma wp_return_one p ys s :
  sol_inv (set_yielding (p :: ys) s) →
  wp (s_unyield_one p) s (λ _ s', s' = return_one s p ∧ sol_inv (set_yielding ys s')).
Proof.
  intros (Hi & Hs & Hc). assert (p ∈ s_queues (set_yielding (p :: ys) s) SYield) as Hin by (simpl; by left).
  destruct (s_place_live env _ p SYield Hi Hin) as (t & Hp & Hpl). simpl in Hp.
  assert (run_state t = kYielding) as Hst by (unfold sol_place in Hpl; destruct (run_state t), (cpu t); naive_solver).
  unfold s_unyield_one, S_Enqueue, return_one. rewrite Hp. wpstep. eapply wp_task; [exact Hp|]. wpstep. wpstep; [by apply bool_decide_eq_true|].
  wpstep. eapply wp_upd; [exact Hp|]. wpstep. eapply wp_task; [simpl; apply lookup_insert_eq|]. wpstep. wpstep; [done|]. wpstep.
  eapply wp_upd; [simpl; apply lookup_insert_eq|]. wpstep. set (s' := set_run_queue _ _).
  assert (s' = set_run_queue (if s_boosted t then p :: run_queue_ s else run_queue_ s ++ [p]) (put_stask p (set_run_state kQueued t) s)) as Es.
  { unfold s', put_stask, put_obj. simpl. by rewrite insert_insert_eq. }
  split; [done|]. rewrite Es. clear s' Es. pose proof (sm_rest _ _ Hi) as Hr.
  assert (s_moved (set_yielding (p :: ys) s) p (set_run_state kQueued t) (s_boosted t)
    (set_yielding ys (set_run_queue (if s_boosted t then p :: run_queue_ s else run_queue_ s ++ [p]) (put_stask p (set_run_state kQueued t) s)))) as Hm.
  { set (s0 := set_yielding (p :: ys) s) in *. show_moved s0 p t; rewrite Hpl, ?decide_False by done; try done.
    pose proof (proj2 Hr SYield) as Hnd. simpl in Hnd. apply NoDup_cons in Hnd as [Hnin _].
    rewrite ?decide_True by done. rewrite others_cons_self. symmetry. by apply others_notin. }
  eapply (inv_moved env (set_yielding (p :: ys) s) p t); [done|exact Hp|exact Hm| |done].
  eapply (mid_moved_plain env _ p t); [exact Hi|exact Hp|exact Hm|done| |by rewrite Hst|done].
  apply stask_state; [by apply (sm_task _ _ Hi p)|done|done].
Qed.

Lemma wp_s_return_all ys s :
  sol_inv (set_yielding ys s) →
  wp (forM ys s_unyield_one) s (λ _ s', s' = foldl return_one s ys ∧ sol_inv (set_yielding [] s')).
Proof.
  revert s. induction ys as [|p ys IH]; intros s Hi; simpl; [by wpstep|].
  wpstep. eapply wp_mono; [by apply (wp_return_one p ys)|]. intros [] s1 [-> H1]. by apply IH.
Qed.

(** ** The pass *)

(** A pass from [s]: [s1] is the state once the transactions are taken in,
    [av0] the CPUs then available, [D] the trace of the deal, [av] the CPUs that
    got nothing, [s2] the state after the deal. *)
Record s_pass (s s1 : Sol) (av0 : list Z) (D : list Deal) (s2 : Sol) (av : list Z) (s' : Sol) : Prop := {
  sp_inv : sol_inv s';
  sp_reaped : reaped (global_cpu_ s) (elems (s_enclave env)) s s1;
  sp_sorted : StronglySorted Z.lt av0;
  sp_avail : ∀ c, c ∈ av0 → enclave_cpu c ∧ c ≠ global_cpu_ s ∧ s_avail_cpu env s1 c;
  sp_busy : ∀ c, enclave_cpu c → c ≠ global_cpu_ s → c ∈ av0 ∨ s_busy_cpu env s1 c;
  sp_deals : deals env s1 av0 D s2 av;
  sp_done : av = [] ∨ run_queue_ s2 = [];
  sp_end : ∃ as_ k n, StronglySorted Z.lt as_ ∧ (∀ c, c ∈ as_ ↔ c ∈ (picked D).*1) ∧
    s' = set_yielding [] (foldl return_one (with_asked n (submitted as_ (s_now env k) s2)) (yielding_tasks_ s2))
}.

Lemma deals_dealable s av D s' av' :
  deals env s av D s' av' → sol_inv s → dealable env s av → sol_inv s' ∧ (∀ c, c ∈ (picked D).*1 → c ∈ av).
Proof using Henv.
  induction 1 as [s av n|s av d D n s' av' Hok H IH]; intros Hi Hd.
  - split; [by apply s_inv_asked|]. intros c Hc. by apply elem_of_nil in Hc.
  - destruct (deal_one_inv env s av d Hi Hd Hok) as [Hi1 Hd1].
    destruct IH as [? Hin]; [by apply s_inv_asked|done|]. split; [done|].
    intros c. unfold picked. simpl. destruct Hok as (_ & _ & t & _ & Hok). destruct d as [p [e|]]; simpl in *; [|apply Hin].
    rewrite elem_of_cons. intros [->|Hc]; [by eapply best_cpu_in; apply Hok|]. by apply Hin, elem_of_others in Hc as [_ ?].
Qed.

Lemma wp_S_GlobalSchedule s :
  sol_inv s → current (s_cpus s (global_cpu_ s)) = 0 →
  wp (S_GlobalSchedule env) s (λ _ s', ∃ s1 av0 D s2 av, s_pass s s1 av0 D s2 av s').
Proof using Henv.
  intros Hi Hg0. pose proof (se_wf _ Henv) as Hwf. pose proof (se_num _ Henv) as Hnum. pose proof (wf_cpus _ Hwf).
  destruct (CpuMap_new_spec (num_cpus_ (s_topo env))) as (e & Ee & We & Ne & Be); [lia|].
  assert (elems e = []) as He.
  { apply elem_of_nil_inv. intros c Hc%elem_of_elems; [|done]. destruct Hc as [_ Hb]. by rewrite Be in Hb. }
  unfold S_GlobalSchedule. wpstep. wpstep. unfold EmptyCpuList. rewrite Ee. do 2 apply wp_lift_ok.
  rewrite iterate_spec by done. apply wp_lift_ok. wpstep.
  eapply wp_mono; [apply (wp_s_available_loop env Henv (global_cpu_ s) (elems (s_enclave env)) e s); try done; apply elems_nodup|].
  intros av0 s1 [Ri Rs [Rw Rn] _ Ra Rb _ _ Rg]. rewrite He in Ra.
  assert (∀ c, c ∈ elems av0 → enclave_cpu c ∧ c ≠ global_cpu_ s ∧ s_avail_cpu env s1 c) as Hav0.
  { intros c Hc. destruct (Ra c Hc) as [?%elem_of_nil|?]; [done|]. done. }
  assert (dealable env s1 (elems av0)) as Hd.
  { intros c Hc. destruct (Hav0 c Hc) as (A & B & C & _). by rewrite Rg. }
  wpstep. wpstep. wpstep. eapply wp_mono; [by apply (wp_s_deal_loop env Henv _ s1 av0 e); try done; lia|].
  intros assigned s2 (D & av & [Dd Di Ddone [Dw Dn] Das]). rewrite He in Das.
  rewrite iterate_spec by done. apply wp_lift_ok. rewrite CpuMap_Empty_spec by done. apply wp_lift_ok. wpstep.
  destruct (deals_dealable s1 (elems av0) D s2 av Dd Ri Hd) as [_ Hsub].
  assert (∀ c, c ∈ elems assigned ↔ c ∈ (picked D).*1) as Das'.
  { intros c. rewrite Das, elem_of_nil. tauto. }
  apply wp_submit; [by intros c Hc; apply Hd, Hsub, Das'|]. intros k n. set (s3 := with_asked n _).
  assert (same_but_times s2 s3 ∧ yielding_tasks_ s3 = yielding_tasks_ s2) as [Ht Ey].
  { unfold s3, submitted. destruct (elems assigned) as [|c cs]; [split; [split; [by destruct s2|done]|done]|].
    destruct (stamp_times (s_now env k) (c :: cs) (add_event (SEvSubmit (c :: cs)) s2)) as [E Hf].
    simpl asked. set (s4 := foldl _ _ _) in *. clearbody s4. split; [split; [by rewrite E|exact Hf]|by rewrite E]. }
  assert (sol_inv s3) as Hi3 by by eapply times_inv.
  wpstep. wpstep.
  assert (∀ s', sol_inv s' → s' = set_yielding [] (foldl return_one s3 (yielding_tasks_ s3)) →
    ∃ s1 av0 D s2 av, s_pass s s1 av0 D s2 av s') as Hend.
  { intros s' Hi' Es'. exists s1, (elems av0), D, s2, av. split; try done; [apply elems_sorted|].
    exists (elems assigned), k, n. split_and!; [apply elems_sorted|done|]. rewrite Es', Ey. done. }
  destruct (yielding_tasks_ s3) as [|p ys] eqn:E3.
  - wpstep. apply Hend; [done|]. simpl. destruct s3; simpl in *; by rewrite E3.
  - wpstep. eapply wp_mono; [apply (wp_s_return_all (p :: ys))|].
    { replace (set_yielding (p :: ys) s3) with s3; [done|]. destruct s3; simpl in *; by rewrite E3. }
    intros [] s4 [-> H4]. wpstep. by apply Hend.
Qed.

Lemma S_GlobalSchedule_crash s :
  sol_inv s → current (s_cpus s (global_cpu_ s)) ≠ 0 → S_GlobalSchedule env s = Crash CheckFailed.
Proof using Henv.
  intros Hi Hcur. pose proof (se_wf _ Henv) as Hwf. pose proof (se_num _ Henv) as Hnum. pose proof (wf_cpus _ Hwf).
  destruct (CpuMap_new_spec (num_cpus_ (s_topo env))) as (e & Ee & We & Ne & Be); [lia|].
  unfold S_GlobalSchedule. apply crash_bind, wp_gets. unfold EmptyCpuList. rewrite Ee. apply crash_bind. unfold lift at 1, wp.
  apply crash_bind. unfold lift at 1, wp. rewrite iterate_spec by done. apply crash_bind. unfold lift at 1, wp.
  unfold mbind, M_bind. rewrite (s_available_crash env Henv); [done|done|done|apply elems_nodup| |done..].
  pose proof Hi as [Hm _]. apply (sm_global _ _ Hm).
Qed.

(** ** What the trace says *)

(** The tasks of a trace are a prefix of the run queue, those passed over yield,
    and each CPU of the trace has its task in [next]. *)
Record deals_facts (s : Sol) (D : list Deal) (s' : Sol) : Prop := {
  df_queue : run_queue_ s = D.*1 ++ run_queue_ s';
  df_yield : yielding_tasks_ s' = yielding_tasks_ s ++ skipped D;
  df_nodup : NoDup (picked D).*1;
  df_next : ∀ c, next (s_cpus s' c) = default (next (s_cpus s c)) (given D c);
  df_current : ∀ c, current (s_cpus s' c) = current (s_cpus s c);
  df_other : ∀ p, p ∉ D.*1 → heap (s_allocator s') !! p = heap (s_allocator s) !! p
}.

Lemma given_cons p oc D c :
  given ((p, oc) :: D) c = if decide (oc = Some c) then Some p else given D c.
Proof.
  unfold given, picked. destruct oc as [d|]; simpl; [|done]. destruct (decide (Some d = Some c)) as [[= ->]|Hne];
    [by rewrite lookup_insert_eq|by rewrite lookup_insert_ne by congruence].
Qed.

Lemma deals_spec s av D s' av' :
  deals env s av D s' av' → deals_facts s D s' ∧ (∀ c, c ∈ (picked D).*1 → c ∈ av).
Proof.
  induction 1 as [s av n|s av d D n s' av' Hok H [[Q Y N X C O] Hin]].
  - split; [split; try done; simpl; rewrite ?app_nil_r; try done; constructor|]. intros c Hc. by apply elem_of_nil in Hc.
  - destruct Hok as (_ & Hh & t & Ht & Hok). destruct d as [p oc]. unfold deal_one in *. simpl in *. rewrite Ht in *.
    destruct oc as [c|]; simpl in *.
    + destruct Hok as [_ Hb]. pose proof (best_cpu_in _ _ _ _ Hb) as Hav. assert (c ∉ (picked D).*1) as Hnin.
      { intros Hc. by apply Hin, elem_of_others in Hc as [? _]. }
      split; [split|].
      * rewrite (head_rest s p Hh). by rewrite Q.
      * done.
      * unfold picked. simpl. by apply NoDup_cons.
      * intros d. rewrite X, given_cons. destruct (decide (Some c = Some d)) as [[= <-]|Hne].
        -- rewrite (proj2 (given_none D c) Hnin). simpl. by rewrite fn_lookup_insert.
        -- by rewrite fn_lookup_insert_ne by congruence.
      * intros d. rewrite C. destruct (decide (c = d)) as [<-|Hne]; [by rewrite fn_lookup_insert|by rewrite fn_lookup_insert_ne].
      * intros q [Hq1 Hq2]%not_elem_of_cons. rewrite O by done. by rewrite lookup_insert_ne.
      * unfold picked. simpl. intros d [->|Hd]%elem_of_cons; [done|]. by apply Hin, elem_of_others in Hd as [_ ?].
    + split; [split|done].
      * rewrite (head_rest s p Hh). by rewrite Q.
      * rewrite Y. unfold skipped. simpl. by rewrite <- app_assoc.
      * done.
      * intros d. rewrite X, given_cons. by rewrite decide_False.
      * done.
      * intros q [Hq1 Hq2]%not_elem_of_cons. rewrite O by done. by rewrite lookup_insert_ne.
Qed.
End pass.
