(* ===== verification/SolSystem.v ===== *)
(** * SolSystem: the SOL agent as a transition system

    The start of the agent, the search for another global CPU, and the steps:
    messages, scheduling passes, moves of the global CPU, and the kernel's
    progress on the transactions.

    One turn of the loop of the SOL agent.

    The timers of the statistics are stopped between turns and nothing but the
    four functions that start and stop them touches them: [keeps], which is
    proved along the structure of the code.  With that, a whole turn completes. *)

From S2P Require Import Prelude Outcome CpuMap CpuMapSpec Topology TopologySpec Dispatch Placement Deals Txn.
From S2P Require Import Sol SolOps SolHandlers SolMessages SolPass.
From stdpp Require Import gmap functions sorting.
From Stdlib Require Import ZArith Lia.

Local Open Scope Z_scope.

Section system.
Context (env : SolEnv) (Henv : sol_env_ok env).

Notation sol_mid := (sol_mid env).
Notation sol_inv := (sol_inv env).
Notation enclave_cpu := (enclave_cpu env).

(** ** The transaction of the next global CPU *)

(** The transaction of [c] is aborted, or ends, and is taken in. *)
Definition retired (s : Sol) (c : Z) (s' : Sol) : Prop :=
  if next (s_cpus s c) =? 0 then s' = s
  else ∃ st s0 s1, live_state env st ∧ txn_changed s c st s0 ∧ completed env s0 c s1 ∧
    is_committed (txn_state (s_txns s1 c)) = true ∧ synced s1 c (is_succeeded (txn_state (s_txns s1 c))) s'.

Lemma txn_changed_inv s c st s' :
  sol_inv s → next (s_cpus s c) ≠ 0 → live_state env st → txn_changed s c st s' → sol_inv s'.
Proof.
  intros (Hi & Hs & Hc) Hn Hst Hch. pose proof (mid_txn env s c st s' Hi Hn Hst Hch) as Hi'.
  destruct Hch as (n & l & ->). by split_and!.
Qed.

Lemma completed_inv s c s' : sol_inv s → next (s_cpus s c) ≠ 0 → completed env s c s' → sol_inv s'.
Proof.
  intros Hi Hn. unfold completed. destruct (is_committed _); [by intros ->|]. intros (st & Hst & Hch).
  eapply txn_changed_inv; [done|done| |exact Hch]. unfold live_state. by rewrite Hst, orb_true_r.
Qed.

Lemma synced_inv s c ok s' : sol_inv s → sol_mid s' → synced s c ok s' → sol_inv s'.
Proof.
  intros (Hi & Hset & Hc) Hi' H. split_and!; [done|by eapply synced_settled|by apply (synced_counted env s c ok s' Hi H)].
Qed.

(** The result of [Abort]. *)
Lemma txn_abort_cases (t : Txn) st :
  txn_owner t = kSyncGroupNotOwned →
  ∃ st', (txn_abort st t).2 = set_txn_state st' t ∧
    (((txn_abort st t).1 = true ∧ st' = GHOST_TXN_ABORTED) ∨ ((txn_abort st t).1 = false ∧ (st' = st ∨ st' = txn_state t))).
Proof.
  intros Ho. unfold txn_abort, sync_group_owned. rewrite Ho. destruct (is_open (txn_state t)).
  - destruct (is_open st).
    + exists GHOST_TXN_ABORTED. split; [|by left]. simpl. rewrite <- Ho. by destruct t.
    + exists st. split; [done|]. right. split; [done|by left].
  - exists (txn_state t). split; [by destruct t|]. right. split; [done|by right].
Qed.

Lemma wp_s_retire s c (Q : unit → Sol → Prop) :
  sol_inv s → enclave_cpu c →
  (∀ s', retired s c s' → sol_inv s' → next (s_cpus s' c) = 0 → global_cpu_ s' = global_cpu_ s → Q tt s') →
  wp (s_retire env c) s Q.
Proof using Henv.
  intros Hinv Hc HQ. pose proof Hinv as [Hi _]. pose proof (s_cpu_range env Henv c Hc) as Hr. unfold s_retire, retired in *.
  wpstep. apply wp_s_cpu; [done|]. destruct (Z.eqb_spec (next (s_cpus s c)) 0) as [E|Hne].
  { wpstep; [done|]. intros _. by apply HQ. }
  wpstep; [|done]. intros _. unfold S_Abort. do 2 wpstep. apply wp_s_req; [done|]. wpstep. apply wp_s_ask.
  cbv zeta. unfold put_txn. do 3 wpstep. set (st := s_race env (asked s) c).
  destruct (txn_abort_cases (s_txns s c) st (sm_owner _ _ Hi c)) as (st' & E2 & Hcase). simpl. rewrite E2.
  set (s0 := set_s_txns _ _). assert (txn_changed s c st' s0) as Hch by (by exists (S (asked s)), (log s)).
  assert (live_state env st') as Hlive.
  { destruct Hcase as [[_ ->]|[_ [->| ->]]].
    - unfold live_state. by vm_compute.
    - apply (se_race _ Henv).
    - apply (sm_live _ _ Hi c). simpl. by rewrite slot_nil. }
  pose proof (txn_changed_inv s c st' s0 Hinv Hne Hlive Hch) as Hinv0.
  assert (next (s_cpus s0 c) ≠ 0) as Hn0 by done.
  assert (∀ s1, completed env s0 c s1 → sol_inv s1 → is_committed (txn_state (s_txns s1 c)) = true →
    s_cpus s1 = s_cpus s0 → s_allocator s1 = s_allocator s0 → global_cpu_ s1 = global_cpu_ s →
    wp (task_at (next (s_cpus s c)) ≫= λ t, SyncCpuState (cpu t) ≫= λ _, mret tt) s1 Q) as Hsync.
  { intros s1 Hcomp [Hi1 Hrest] Hcom Ecpu Ea Eg. assert (next (s_cpus s1 c) = next (s_cpus s c)) as En by (by rewrite Ecpu).
    destruct (s_next_task env s1 c Hi1) as (t & Ht & _ & Hcpu); [by rewrite En|]. rewrite En in Ht.
    wpstep. eapply wp_task; [exact Ht|]. rewrite Hcpu. wpstep.
    eapply wp_mono; [apply (wp_SyncCpuState env Henv s1 c); [done|done|by rewrite En|done]|].
    intros ok s2 (-> & Hs & Hi2). wpstep. destruct (synced_slots env _ _ _ _ Hi1 Hs) as [N _ _ _ _ G]. apply HQ.
    - by exists st', s0, s1.
    - exact (synced_inv s1 c _ s2 (conj Hi1 Hrest) Hi2 Hs).
    - done.
    - congruence. }
  wpstep. destruct Hcase as [[Eab ->]|[Eab _]]; rewrite Eab; simpl negb.
  - wpstep; [done|]. intros _.
    assert (is_committed (txn_state (s_txns s0 c)) = true) as Hcom by (simpl; by rewrite fn_lookup_insert).
    apply Hsync; try done. unfold completed. by rewrite Hcom.
  - wpstep; [|done]. intros _. wpstep. eapply (wp_CompleteRunRequest env Henv s0 c); [by destruct Hinv0|done|done|].
    intros b s1 Hcomp Hi1 Hcom Ecpu Ea. wpstep. pose proof (completed_inv s0 c s1 Hinv0 Hn0 Hcomp) as Hinv1.
    apply Hsync; try done. unfold completed in Hcomp. destruct (is_committed (txn_state (s_txns s0 c))); [by subst|].
    by destruct Hcomp as (? & _ & ? & ? & ->).
Qed.

(** ** The global CPU *)

(** The answer of the search: the first CPU of [pick_order] that is available. *)
Definition s_next_global (s : Sol) : option Z * nat :=
  first_avail (λ c, agent (s_cpus s c)) (s_avail env) (asked s) (pick_order (s_topo env) (s_enclave env) (global_cpu_ s)).

(** The global CPU becomes [c], whose agent is woken. *)
Definition s_moved_to (s : Sol) (c : Z) (n : nat) (s' : Sol) : Prop :=
  ∃ r s1, cpu_rep (s_topo env) c = Ok r ∧ retired (with_asked n s) c s1 ∧ s' = add_event (SEvPing c) (set_global (rep_core r) c s1).

Lemma s_iter_tick s k : Nat.iter k tick s = with_asked (k + asked s) s.
Proof. induction k as [|k IH]; [by destruct s|]. simpl. by rewrite IH. Qed.

Lemma S_Available_spec c s :
  0 ≤ c < MAX_CPUS → S_Available env c s = Ok (if agent (s_cpus s c) then (s_avail env (asked s) c, tick s) else (false, s)).
Proof.
  intros Hr. unfold S_Available, s_cpu, mbind, M_bind. rewrite (proj2 (Z.leb_le 0 c)), (proj2 (Z.ltb_lt c MAX_CPUS)) by lia.
  simpl. by destruct (agent _).
Qed.

Lemma s_pick_order_ne t l g c : c ∈ pick_order t l g → c ≠ g.
Proof.
  unfold pick_order. destruct (cpus_ t !! Z.to_nat g); intros Hin; [|by apply elem_of_nil in Hin].
  by apply list_elem_of_filter in Hin as [? _].
Qed.

Lemma s_next_global_some s c n :
  sol_inv s → s_next_global s = (Some c, n) → enclave_cpu c ∧ c ≠ global_cpu_ s.
Proof.
  intros [Hi _] E. apply first_avail_some in E as (Hin & Ha & _). split; [by apply (sm_agent _ _ Hi)|].
  by eapply s_pick_order_ne.
Qed.

(** What [PickNextGlobalCPU] does; it looks for a CPU once in 256 iterations. *)
Definition s_picks (s : Sol) (moved : bool) (s' : Sol) : Prop :=
  if Z.land (iterations_ s) 255 =? 0 then
    match s_next_global s with
    | (Some c, n) => moved = true ∧ s_moved_to s c n s'
    | (None, n) => moved = false ∧ s' = with_asked n s
    end
  else moved = false ∧ s' = s.

Lemma s_global_inv s c core e :
  sol_inv s → enclave_cpu c → next (s_cpus s c) = 0 → sol_inv (add_event e (set_global core c s)).
Proof. intros ([Ha Hr Ht Hid Hl Ho Hag Hgl Hn] & Hs & Hc) Henc Hn0. by split_and!. Qed.

Lemma wp_S_PickNextGlobalCPU s :
  sol_inv s → wp (S_PickNextGlobalCPU env (global_cpu_ s)) s (λ moved s', s_picks s moved s' ∧ sol_inv s').
Proof using Henv.
  intros Hinv. pose proof Hinv as [Hi _]. destruct (s_enclave_range env _ Henv (sm_global _ _ Hi)) as [Hg Hg'].
  destruct (rep_exists _ (se_topo _ Henv) _ Hg) as (r & _ & Er). unfold S_PickNextGlobalCPU, s_picks.
  wpstep. wpstep. rewrite Er. apply wp_lift_ok. wpstep. wpstep.
  destruct (Z.land (iterations_ s) 255 =? 0); cbn [negb]; [|by wpstep]. wpstep.
  apply (wp_pick_target (s_topo env) (s_enclave env) (S_Available env) (λ s c, agent (s_cpus s c)) (s_avail env) asked tick);
    [by apply S_Available_spec|done|done|by apply se_topo|by apply se_wf|by apply se_num|done|].
  intros t s' (k & -> & E). rewrite s_iter_tick. fold (s_next_global s) in E. rewrite E.
  destruct t as [c|]; [|wpstep; split; [done|by apply s_inv_asked]].
  destruct (s_next_global_some s c _ Hinv E) as [Hc Hne]. pose proof (s_cpu_range env Henv c Hc) as Hr.
  wpstep. wpstep; [by apply negb_true_iff, Z.eqb_neq|]. wpstep.
  apply (wp_s_retire _ c); [by apply s_inv_asked|done|]. intros s1 Hret Hinv1 Hn1 _. pose proof Hinv1 as [Hi1 _].
  wpstep. apply wp_s_req; [done|]. wpstep. wpstep; [apply (sm_idle _ _ Hi1 c Hc); simpl; by apply slot_nil|].
  wpstep. apply wp_s_cpu; [done|]. wpstep. wpstep; [by apply Z.eqb_eq|].
  destruct (rep_exists _ (se_topo _ Henv) c (proj1 (s_enclave_range env c Henv Hc))) as (rc & _ & Erc).
  wpstep. apply wp_when.
  - intros E0%negb_true_iff%Z.eqb_neq. destruct (s_current_task env s1 c Hi1 E0) as (u & Hu & Hst & _).
    wpstep. eapply wp_task; [exact Hu|]. wpstep; [by apply bool_decide_eq_true|].
    unfold S_SetGlobalCPU, s_ping. wpstep. wpstep. rewrite Erc. apply wp_lift_ok. wpstep. rewrite (se_agent _ Henv c Hc). repeat wpstep.
    split; [split; [done|by exists rc, s1]|by apply s_global_inv].
  - intros _. unfold S_SetGlobalCPU, s_ping. wpstep. wpstep. rewrite Erc. apply wp_lift_ok. wpstep. rewrite (se_agent _ Henv c Hc).
    repeat wpstep. split; [split; [done|by exists rc, s1]|by apply s_global_inv].
Qed.

(** ** The start *)

Lemma s_ready_loop cs s :
  (∀ c, c ∈ cs → enclave_cpu c) →
  wp (forM cs (λ c, upd_cpu c (set_agent (s_get_agent env c)) ≫= λ _, check (s_get_agent env c))) s (λ _ s',
    ∃ f, s' = set_s_cpus f s ∧ ∀ c, f c = if bool_decide (c ∈ cs) then set_agent true (s_cpus s c) else s_cpus s c).
Proof using Henv.
  revert s. induction cs as [|c cs IH]; intros s Hcs; simpl.
  - apply wp_ret. exists (s_cpus s). by destruct s.
  - assert (enclave_cpu c) as Hc by (apply Hcs; by left). rewrite (se_agent _ Henv c Hc).
    destruct (s_enclave_range env c Henv Hc) as [Hr Hr']. wpstep. wpstep. apply wp_s_upd_cpu; [lia|]. wpstep; [done|].
    eapply wp_mono; [apply IH; intros d Hd; apply Hcs; by right|]. intros [] s' (f & -> & Hf). exists f. split; [done|].
    intros d. rewrite Hf. simpl. destruct (decide (c = d)) as [<-|Hne].
    + rewrite fn_lookup_insert. rewrite (bool_decide_eq_true_2 (c ∈ c :: cs)) by by left. by destruct (bool_decide _).
    + rewrite fn_lookup_insert_ne by done. rewrite (bool_decide_ext (d ∈ c :: cs) (d ∈ cs)); [done|].
      rewrite elem_of_cons. naive_solver.
Qed.

(** The agent starts with the given CPU if it is in the enclave, or else with
    the first one of the enclave. *)
Definition s_first_global (g : Z) : Z :=
  if bool_decide (g ∈ elems (s_enclave env)) then g else default 0 (head (elems (s_enclave env))).

Lemma sol_start g :
  0 ≤ g < MAX_CPUS →
  ∃ s s', Sol_new env g = Ok s ∧ S_EnclaveReady env s = Ok (tt, s') ∧ sol_inv s' ∧ global_cpu_ s' = s_first_global g ∧ stats s' = mkSolStats 0 0 0 0 0 0.
Proof using Henv.
  intros Hg. pose proof (se_wf _ Henv) as Hwf. unfold Sol_new, s_first_global. rewrite u32_small by (unfold MAX_CPUS in Hg; lia).
  rewrite IsSet_spec by done. cbn [mbind outcome_bind].
  assert (∃ c, (if bit (s_enclave env) g then Ok g
     else Front (s_enclave env) ≫= λ c, match c with Some c => Ok c | None => Crash CheckFailed end) = Ok c ∧ enclave_cpu c ∧
     c = if bool_decide (g ∈ elems (s_enclave env)) then g else default 0 (head (elems (s_enclave env)))) as (c & -> & Hc & Ec).
  { case_bool_decide as Hin.
    - assert (bit (s_enclave env) g = true) as -> by (apply elem_of_elems in Hin; [apply Hin|done]). by exists g.
    - destruct (bit (s_enclave env) g) eqn:Eb; [destruct Hin; apply elem_of_elems; [done|split; [lia|done]]|].
      rewrite Front_spec by done. simpl. unfold SolOps.enclave_cpu. pose proof (se_nonempty _ Henv) as Hne.
      destruct (elems (s_enclave env)) as [|c l]; [done|]. simpl. exists c. split_and!; [done|by left|done]. }
  cbn [mbind outcome_bind]. eexists. set (s0 := mkSol _ _ _ _ _ _ _ _ _ _ _ _).
  assert (wp (S_EnclaveReady env) s0 (λ _ s', sol_inv s' ∧ global_cpu_ s' = c ∧ stats s' = mkSolStats 0 0 0 0 0 0)) as Hw.
  { unfold S_EnclaveReady. rewrite iterate_spec by done. apply wp_lift_ok.
    eapply wp_mono; [by apply s_ready_loop|]. intros [] s' (f & -> & Hf). split; [|done].
    assert (∀ d, current (f d) = 0 ∧ agent (f d) = bool_decide (d ∈ elems (s_enclave env))) as Hf'.
    { intros d. rewrite Hf. by destruct (bool_decide (d ∈ elems (s_enclave env))). }
    assert (∀ d, next (f d) = 0) as Hn by (intros d; rewrite Hf; by destruct (bool_decide (d ∈ elems (s_enclave env)))).
    split_and!; [|by intros p t; simpl; rewrite lookup_empty|done]. split; simpl; try done.
    - split; [done|]. intros g' p. simpl. rewrite lookup_empty. split; [done|]. intros (t & Ht & _). by rewrite lookup_empty in Ht.
    - split.
      + intros p k. rewrite lookup_empty. split; [|by intros (? & ? & _)].
        destruct k as [| |d|d]; simpl; rewrite ?(proj1 (Hf' d)), ?Hn; by intros ?%elem_of_nil.
      + intros [| |d|d]; simpl; rewrite ?(proj1 (Hf' d)), ?Hn; constructor.
    - intros d _ _. apply (se_txns0 _ Henv d).
    - intros d. by rewrite Hn.
    - intros d. apply (se_txns0 _ Henv d).
    - intros d. rewrite (proj2 (Hf' d)). unfold SolOps.enclave_cpu. by rewrite bool_decide_eq_true. }
  apply wp_ok_unit in Hw as (s' & E & Hi & Eg & Es). exists s'. split_and!; [done|exact E|exact Hi| |exact Es]. by rewrite Eg.
Qed.

(** ** Steps *)

Notation dispatch := (@DispatchMessage Sol SolTask _ _ (Sol_ops env)).

(** The messages that the kernel may send and the agent provides for. *)
Definition s_handled (s : Sol) (m : Message) : Prop :=
  @sendable Sol SolTask _ (λ _, True) (λ s p t m, s_msg_ok s p t m) s_cpu_msg s m.

(** Those that it does not provide for: a task that it preempted, by a
    transaction committed on the task's CPU, turns out to have switched to
    another task or departed. *)
Definition s_fatal (s : Sol) (m : Message) : Prop :=
  (msg_type m = MSG_TASK_SWITCHTO ∨ msg_type m = MSG_TASK_DEPARTED) ∧ msg_gtid m ≠ 0 ∧
  match GetTask (msg_gtid m) (s_allocator s) with
  | None => False
  | Some p =>
      match heap (s_allocator s) !! p with
      | Some t => run_state t = kPreemptedByAgent ∧ seqnum t < msg_seqnum m
      | None => False
      end
  end.

Global Instance s_fatal_dec s m : Decision (s_fatal s m).
Proof. unfold s_fatal. destruct (GetTask _ _) as [p|]; [destruct (heap _ !! p)|]; apply _. Defined.

(** The messages the kernel may send. *)
Definition s_sendable (s : Sol) (m : Message) : Prop := s_handled s m ∨ s_fatal s m.

(** The kernel claims the transaction of [c], or ends it. *)
Definition kernel_progress (s : Sol) (c st : Z) (s' : Sol) : Prop :=
  next (s_cpus s c) ≠ 0 ∧ is_committed (txn_state (s_txns s c)) = false ∧
  is_claimed st || good_result (s_online env) st = true ∧ txn_changed s c st s'.

(** The messages of one turn, each one sendable when its turn comes. *)
Fixpoint s_sendables (s : Sol) (msgs : list Message) : Prop :=
  match msgs with
  | [] => True
  | m :: msgs => s_sendable s m ∧ ∀ s', dispatch m s = Ok (tt, s') → s_sendables s' msgs
  end.

(** The state once the timers of a turn run. *)
Definition entered (s s1 : Sol) : Prop := ∃ s0, EnterSchedule env s = Ok (tt, s0) ∧ EnterDispatch env s0 = Ok (tt, s1).

Definition turn_ok (s : Sol) (c : Z) (boosted : bool) (msgs : list Message) : Prop :=
  c = global_cpu_ s → ∀ s0 s1,
    (if boosted then S_PickNextGlobalCPU env c s = Ok (false, s0) else s0 = s) → entered s0 s1 → s_sendables s1 msgs.

(** What the agents do, and the kernel meanwhile: a message, a pass or a move of
    the global CPU alone, or a whole turn of the loop. *)
Inductive s_step (s : Sol) : Sol → Prop :=
| s_step_message m s' : s_sendable s m → dispatch m s = Ok (tt, s') → s_step s s'
| s_step_schedule s' : S_GlobalSchedule env s = Ok (tt, s') → s_step s s'
| s_step_pick b s' : S_PickNextGlobalCPU env (global_cpu_ s) s = Ok (b, s') → s_step s s'
| s_step_turn c boosted msgs s' : turn_ok s c boosted msgs → S_AgentThread env c boosted msgs s = Ok (tt, s') → s_step s s'
| s_step_kernel c st s' : kernel_progress s c st s' → s_step s s'.

Inductive s_reachable : Sol → Prop :=
| s_reach_init g s0 s : 0 ≤ g < MAX_CPUS → Sol_new env g = Ok s0 → S_EnclaveReady env s0 = Ok (tt, s) → s_reachable s
| s_reach_step s s' : s_reachable s → s_step s s' → s_reachable s'.

Lemma s_dispatch_inv s m : sol_inv s → s_handled s m → wp (dispatch m) s (λ _, sol_inv).
Proof using Henv. apply (dispatch_preserves sol_inv _ _ _ (Laws := Sol_laws env Henv)). Qed.

(** ** Messages that fail a check *)

Lemma switchto_crash s p t m :
  heap (s_allocator s) !! p = Some t → run_state t = kPreemptedByAgent → S_TaskSwitchto p m s = Crash CheckFailed.
Proof.
  intros Hp Hst. unfold S_TaskSwitchto, s_sync, S_TaskOffCpu.
  assert (∀ Q, Q t s → wp (task_at p) s Q) as Ht by (intros; by eapply wp_task).
  apply crash_bind. apply wp_bind, Ht. unfold has_state. rewrite Hst. simpl. wpstep.
  apply crash_bind, Ht. rewrite Hst. done.
Qed.

Lemma departed_crash s p t m :
  heap (s_allocator s) !! p = Some t → run_state t = kPreemptedByAgent → S_TaskDeparted env p m s = Crash CheckFailed.
Proof.
  intros Hp Hst. unfold S_TaskDeparted, S_TaskOffCpu.
  assert (∀ Q, Q t s → wp (task_at p) s Q) as Ht by (intros; by eapply wp_task).
  apply crash_bind, Ht. unfold has_state. rewrite Hst. simpl. apply crash_bind. wpstep.
  apply crash_bind, Ht. rewrite Hst. simpl. apply crash_bind. wpstep.
  apply crash_bind, Ht. rewrite Hst. simpl. destruct (msg_from_switchto m); [|done].
  assert (∀ (m1 : M Sol unit) k, m1 s = Crash CheckFailed → ((m1 ≫= k) : M Sol unit) s = Crash CheckFailed) as Hc.
  { intros m1 k E. unfold mbind, M_bind. by rewrite E. }
  apply Hc. apply crash_bind, Ht. rewrite Hst. done.
Qed.

Lemma fatal_crash s m : s_fatal s m → dispatch m s = Crash CheckFailed.
Proof.
  intros (Hty & Hg & H). destruct (GetTask (msg_gtid m) (s_allocator s)) as [p|] eqn:Hf; [|done].
  destruct (heap (s_allocator s) !! p) as [t|] eqn:Hp; [|done]. destruct H as [Hst _].
  assert (@dispatch_task Sol SolTask _ _ (Sol_ops env) p m s = Crash CheckFailed) as Hc.
  { unfold dispatch_task, mbind, M_bind. cbv zeta.
    destruct Hty as [->| ->]; simpl; [by rewrite (switchto_crash s p t m)|by rewrite (departed_crash s p t m)]. }
  assert (msg_type m =? MSG_NOP = false ∧ is_cpu_msg m = false ∧ is_task_msg m = true ∧ msg_type m =? MSG_TASK_NEW = false) as (E1 & E2 & E3 & E4).
  { unfold is_cpu_msg, is_task_msg. by destruct Hty as [->| ->]. }
  unfold DispatchMessage. rewrite E1, E2, E3, (proj2 (Z.eqb_neq _ _) Hg). unfold find_task. rewrite E4.
  unfold mbind, M_bind, gets, check, mret, M_ret. simpl. simpl in Hf. rewrite Hf. by rewrite Hc.
Qed.

(** One of the messages is fatal when its turn comes. *)
Fixpoint s_hits (s : Sol) (msgs : list Message) : Prop :=
  match msgs with
  | [] => False
  | m :: msgs => s_fatal s m ∨ ∃ s', dispatch m s = Ok (tt, s') ∧ s_hits s' msgs
  end.
End system.

(** ** One turn of the loop of the SOL agent *)

(** ** What leaves the statistics alone *)

Definition keeps {A} (m : M Sol A) : Prop := ∀ s, wlp m s (λ _ s', stats s' = stats s).

Lemma keeps_bind {A B} (m : M Sol A) (f : A → M Sol B) : keeps m → (∀ a, keeps (f a)) → keeps (m ≫= f).
Proof. intros Hm Hf s. eapply wlp_seq; [apply Hm|]. intros a s' E. specialize (Hf a s'). unfold wlp in *. destruct (f a s') as [[b s2]|]; [congruence|done]. Qed.

Lemma keeps_ret {A} (a : A) : keeps (mret a).
Proof. by intros s. Qed.

Lemma keeps_gets {A} (f : Sol → A) : keeps (gets f).
Proof. by intros s. Qed.

Lemma keeps_get : keeps (get : M Sol Sol).
Proof. by intros s. Qed.

Lemma keeps_modify f : (∀ s, stats (f s) = stats s) → keeps (modify f).
Proof. intros Hf s. apply Hf. Qed.

Lemma keeps_abort {A} e : keeps (A := A) (abort e).
Proof. by intros s. Qed.

Lemma keeps_check b : keeps (check b).
Proof. intros s. by destruct b. Qed.

Lemma keeps_lift {A} (m : outcome A) : keeps (lift m).
Proof. intros s. unfold wlp, lift. by destruct m. Qed.

Lemma keeps_when b (m : M Sol unit) : keeps m → keeps (whenM b m).
Proof. intros Hm. destruct b; [done|apply keeps_ret]. Qed.

Lemma keeps_forM {A} (l : list A) (f : A → M Sol unit) : (∀ x, keeps (f x)) → keeps (forM l f).
Proof. intros Hf. induction l as [|x l IH]; simpl; [apply keeps_ret|]. apply keeps_bind; [apply Hf|done]. Qed.

#[export] Hint Resolve keeps_ret keeps_gets keeps_get keeps_abort keeps_check keeps_lift : ghost.

(** One step along the structure of the code. *)
Ltac keeps_step :=
  first
    [ solve [auto 2 with ghost]
    | apply keeps_bind; [|intros ?]
    | apply keeps_modify; done
    | apply keeps_when
    | apply keeps_forM; intros ?
    | case_match ].

Ltac keeps := intros; repeat keeps_step.

Lemma keeps_task_at p : keeps (task_at p : M Sol SolTask).
Proof. intros s. unfold task_at, wlp, lift. by destruct (deref _ _). Qed.

Lemma keeps_upd_task p f : keeps (upd_task p f : M Sol unit).
Proof. unfold upd_task. apply keeps_bind; [apply keeps_task_at|]. keeps. Qed.

Lemma keeps_free_task p : keeps (free_task p : M Sol unit).
Proof. intros s. unfold free_task, wlp. by destruct (FreeTask _ _). Qed.

#[export] Hint Resolve keeps_task_at keeps_upd_task keeps_free_task : ghost.

Lemma keeps_s_cpu c : keeps (s_cpu c).
Proof. unfold s_cpu. keeps. Qed.

Lemma keeps_s_req c : keeps (s_req c).
Proof. unfold s_req. keeps. Qed.

Lemma keeps_put_txn c t : keeps (put_txn c t).
Proof. unfold put_txn. keeps. Qed.

Lemma keeps_ask {A} (f : nat → A) : keeps (ask f).
Proof. unfold ask. keeps. Qed.

#[export] Hint Resolve keeps_s_cpu keeps_s_req keeps_put_txn keeps_ask : ghost.

Lemma keeps_s_upd_cpu c f : keeps (upd_cpu c f).
Proof. unfold upd_cpu. keeps. Qed.

Lemma keeps_Enqueue p : keeps (S_Enqueue p).
Proof. unfold S_Enqueue. keeps. Qed.

Lemma keeps_Dequeue : keeps S_Dequeue.
Proof. unfold S_Dequeue. keeps. Qed.

Lemma keeps_Remove p : keeps (S_RemoveFromRunqueue p).
Proof. unfold S_RemoveFromRunqueue. keeps. Qed.

Lemma keeps_Yield p : keeps (S_Yield p).
Proof. unfold S_Yield. keeps. Qed.

Lemma keeps_s_cpu_of p : keeps (s_cpu_of p).
Proof. unfold s_cpu_of. keeps. Qed.

#[export] Hint Resolve keeps_s_upd_cpu keeps_Enqueue keeps_Dequeue keeps_Remove keeps_Yield keeps_s_cpu_of : ghost.

Lemma keeps_Unyield p : keeps (S_Unyield p).
Proof. unfold S_Unyield. keeps. Qed.

Lemma keeps_SyncCpuState o : keeps (SyncCpuState o).
Proof. unfold SyncCpuState. cbv zeta. keeps. Qed.

#[export] Hint Resolve keeps_Unyield keeps_SyncCpuState : ghost.

Lemma keeps_SyncTaskState p : keeps (SyncTaskState p).
Proof. unfold SyncTaskState. keeps. Qed.

Lemma keeps_TaskOffCpu p b f : keeps (S_TaskOffCpu p b f).
Proof. unfold S_TaskOffCpu. keeps. Qed.

#[export] Hint Resolve keeps_SyncTaskState keeps_TaskOffCpu : ghost.

Section turn.
Context (env : SolEnv).

Lemma keeps_complete c : keeps (CompleteRunRequest env c).
Proof. unfold CompleteRunRequest. keeps. Qed.

Lemma keeps_abort_txn c : keeps (S_Abort env c).
Proof. unfold S_Abort. cbv zeta. keeps. Qed.

Lemma keeps_sync p : keeps (s_sync p).
Proof. unfold s_sync. keeps. Qed.

Lemma keeps_free p : keeps (s_free p).
Proof. unfold s_free. keeps. Qed.

#[local] Hint Resolve keeps_complete keeps_abort_txn keeps_sync keeps_free : ghost.

Lemma keeps_settle p : keeps (s_settle env p).
Proof. unfold s_settle. keeps. Qed.

#[local] Hint Resolve keeps_settle : ghost.

Lemma keeps_dispatch m : keeps (@DispatchMessage Sol SolTask _ _ (Sol_ops env) m).
Proof.
  assert (∀ b p, keeps (whenM b (@Advance Sol SolTask _ _ p (msg_seqnum m)))) as Hadv.
  { intros b p. apply keeps_when. unfold Advance. keeps. }
  assert (keeps (@dispatch_cpu Sol SolTask _ _ (Sol_ops env) m)) as Hcpu.
  { unfold dispatch_cpu. cbv zeta. simpl. unfold s_nop. keeps. }
  assert (keeps (@find_task Sol SolTask _ _ (Sol_ops env) m)) as Hfind.
  { unfold find_task. keeps. }
  assert (∀ p, keeps (@dispatch_task Sol SolTask _ _ (Sol_ops env) p m)) as Htask.
  { intros p. unfold dispatch_task. cbv zeta. simpl.
    unfold S_TaskNew, S_TaskRunnable, S_TaskDeparted, S_TaskDead, S_TaskBlocked, S_TaskPreempted, S_TaskSwitchto, S_TaskYield, s_nop.
    keeps. }
  unfold DispatchMessage. repeat first [apply Hcpu|apply Hfind|apply Htask|apply Hadv|keeps_step].
Qed.

Lemma keeps_available_loop global cs av : keeps (s_available_loop env global cs av).
Proof. revert av. induction cs as [|c cs IH]; intros av; simpl; [keeps|]. unfold s_reap. repeat first [apply IH|keeps_step]. Qed.

Lemma keeps_deal_loop fuel av assigned : keeps (s_deal_loop env fuel av assigned).
Proof. revert av assigned. induction fuel as [|fuel IH]; intros av assigned; simpl; [keeps|]. repeat first [apply IH|keeps_step]. Qed.

Lemma keeps_schedule : keeps (S_GlobalSchedule env).
Proof.
  unfold S_GlobalSchedule, s_unyield_one. repeat first [apply keeps_available_loop|apply keeps_deal_loop|keeps_step].
Qed.

Lemma keeps_find_target g ok cs : keeps (find_target (S_Available env) g ok cs).
Proof. induction cs as [|c cs IH]; simpl; [keeps|]. unfold S_Available at 1. repeat first [apply IH|keeps_step]. Qed.

Lemma keeps_pick c : keeps (S_PickNextGlobalCPU env c).
Proof.
  unfold S_PickNextGlobalCPU, pick_target, or_search, search, s_retire, S_SetGlobalCPU, s_ping.
  repeat first [apply keeps_find_target|progress cbv zeta|keeps_step].
Qed.

(** ** The invariant of the system *)

Definition timers_stopped (s : Sol) : Prop := schedule_timer_start_ (stats s) = 0 ∧ dispatch_timer_start_ (stats s) = 0.

Definition sol_sys_inv (s : Sol) : Prop := sol_inv env s ∧ timers_stopped s.

Lemma wp_keeps {A} (m : M Sol A) s (Q : A → Sol → Prop) :
  keeps m → wp m s Q → wp m s (λ a s', Q a s' ∧ stats s' = stats s).
Proof. intros Hk. specialize (Hk s). unfold wp, wlp in *. by destruct (m s) as [[a s']|]. Qed.

Lemma keeps_ok {A} (m : M Sol A) s a s' : keeps m → m s = Ok (a, s') → stats s' = stats s.
Proof. intros Hk E. specialize (Hk s). unfold wlp in Hk. by rewrite E in Hk. Qed.

Lemma stats_inv s x n i : sol_inv env s → sol_inv env (set_iterations i (set_stats x (with_asked n s))).
Proof. intros ([Ha Hr Ht Hid Hl Ho Hag Hgl Hn] & Hs & Hc). by split_and!. Qed.

Context (Henv : sol_env_ok env).

Notation dispatch := (@DispatchMessage Sol SolTask _ _ (Sol_ops env)).

(** The messages are handled, up to the first fatal one. *)
Lemma dispatch_all s msgs :
  sol_inv env s → s_sendables env s msgs →
  match forM msgs dispatch s with
  | Ok (_, s') => sol_inv env s' ∧ stats s' = stats s ∧ ¬ s_hits env s msgs
  | Crash f => f = CheckFailed ∧ s_hits env s msgs
  end.
Proof using Henv.
  revert s. induction msgs as [|m msgs IH]; intros s Hi; simpl; [intros _; split_and!; [done|done|intros []]|]. intros [Hm Hms].
  unfold mbind, M_bind. destruct (decide (s_fatal s m)) as [Hf|Hf]; [rewrite (fatal_crash env s m Hf); split; [done|by left]|].
  destruct Hm as [Hm|?]; [|done].
  destruct (wp_ok_unit _ _ _ (wp_keeps _ _ _ (keeps_dispatch m) (s_dispatch_inv env Henv s m Hi Hm))) as (s1 & E & Hi1 & Es).
  rewrite E. specialize (IH s1 Hi1 (Hms s1 E)). destruct (forM msgs dispatch s1) as [[[] s']|f].
  - destruct IH as (Hi' & E' & Hn). split; [done|]. split; [congruence|]. intros [?|(s2 & E2 & Hh)]; [done|].
    injection E2 as <-. done.
  - destruct IH as [-> Hh]. split; [done|]. right. by exists s1.
Qed.

(** The timers start. *)
Lemma entered_spec s : sol_sys_inv s → ∃ s1, entered env s s1 ∧ sol_inv env s1 ∧
  schedule_timer_start_ (stats s1) ≠ 0 ∧ dispatch_timer_start_ (stats s1) ≠ 0 ∧ iterations_ s1 = iterations_ s.
Proof using Henv.
  intros [Hi [E1 E2]]. unfold entered, EnterSchedule, EnterDispatch, upd_stats, ask, mbind, M_bind, gets, modify, mret, M_ret, check.
  rewrite E1, Z.eqb_refl. simpl. eexists. split; [eexists; split; [done|]; simpl; rewrite E2, Z.eqb_refl; done|]. simpl.
  split; [|split_and!; [apply (se_now _ Henv)|apply (se_now _ Henv)|done]].
  match goal with |- sol_inv env ?x => assert (x = set_iterations (iterations_ s) (set_stats (stats x) (with_asked (asked x) s))) as -> end;
    [by destruct s|by apply stats_inv].
Qed.

Lemma exit_dispatch_spec n s : sol_inv env s → dispatch_timer_start_ (stats s) ≠ 0 →
  ∃ s', ExitDispatch env n s = Ok (tt, s') ∧ sol_inv env s' ∧ dispatch_timer_start_ (stats s') = 0 ∧
    schedule_timer_start_ (stats s') = schedule_timer_start_ (stats s) ∧ s_cpus s' = s_cpus s ∧ global_cpu_ s' = global_cpu_ s.
Proof.
  intros Hi Hne. unfold ExitDispatch, upd_stats, ask, mbind, M_bind, gets, modify, mret, M_ret, check.
  rewrite (proj2 (Z.eqb_neq _ _) Hne). simpl. eexists. split; [done|]. split; [|done].
  match goal with |- sol_inv env ?x => assert (x = set_iterations (iterations_ s) (set_stats (stats x) (with_asked (asked x) s))) as -> end;
    [by destruct s|by apply stats_inv].
Qed.

Lemma exit_schedule_spec s : sol_inv env s → schedule_timer_start_ (stats s) ≠ 0 → dispatch_timer_start_ (stats s) = 0 →
  ∃ s', ExitSchedule env s = Ok (tt, s') ∧ sol_sys_inv s' ∧ iterations_ s' = u64 (iterations_ s + 1).
Proof.
  intros Hi Hne E2. unfold ExitSchedule, upd_stats, ask, mbind, M_bind, gets, modify, mret, M_ret, check.
  rewrite (proj2 (Z.eqb_neq _ _) Hne). simpl. eexists. split; [done|]. split; [|done]. split; [|done].
  match goal with |- sol_inv env ?x => assert (x = set_iterations (u64 (iterations_ s + 1)) (set_stats (stats x) (with_asked (asked x) s))) as -> end;
    [by destruct s|by apply stats_inv].
Qed.

(** The rest of a turn, from the state [s1] with the timers running: the
    messages, which fail a check at the first fatal one, then the pass, which
    fails its check if a task is then current on the global CPU. *)
Definition turn_rest (s1 : Sol) (msgs : list Message) (r : outcome (unit * Sol)) : Prop :=
  (s_hits env s1 msgs ∧ forM msgs dispatch s1 = Crash CheckFailed ∧ r = Crash CheckFailed) ∨
  (¬ s_hits env s1 msgs ∧ ∃ s2, forM msgs dispatch s1 = Ok (tt, s2) ∧
    if current (s_cpus s2 (global_cpu_ s2)) =? 0 then ∃ s', r = Ok (tt, s') ∧ sol_sys_inv s'
    else r = Crash CheckFailed).

Lemma turn_spec s s0 s1 msgs :
  entered env s s1 → sol_inv env s1 → schedule_timer_start_ (stats s1) ≠ 0 → dispatch_timer_start_ (stats s1) ≠ 0 →
  s_sendables env s1 msgs → s0 = s →
  turn_rest s1 msgs ((EnterSchedule env ≫= λ _, EnterDispatch env ≫= λ _, forM msgs dispatch ≫= λ _,
    ExitDispatch env (Z.of_nat (length msgs)) ≫= λ _, S_GlobalSchedule env ≫= λ _, ExitSchedule env) s0).
Proof using Henv.
  intros (sa & Ea & Eb) Hi1 T1 T2 Hms ->. pose proof (dispatch_all s1 msgs Hi1 Hms) as Hall. unfold turn_rest.
  destruct (forM msgs dispatch s1) as [[[] s2]|f] eqn:E2.
  2: { left. destruct Hall as [-> Hh]. split_and!; [done|done|]. unfold mbind, M_bind. by rewrite Ea, Eb, E2. }
  destruct Hall as (Hi2 & Es2 & Hh). right. split; [done|]. exists s2. split; [done|].
  destruct (exit_dispatch_spec (Z.of_nat (length msgs)) s2 Hi2) as (s3 & E3 & Hi3 & T3 & T3' & Ec3 & Eg3); [congruence|].
  assert (∀ r : outcome (unit * Sol), (S_GlobalSchedule env ≫= λ _, ExitSchedule env) s3 = r →
    (EnterSchedule env ≫= λ _, EnterDispatch env ≫= λ _, forM msgs dispatch ≫= λ _,
     ExitDispatch env (Z.of_nat (length msgs)) ≫= λ _, S_GlobalSchedule env ≫= λ _, ExitSchedule env) s = r) as Hr.
  { intros r <-. unfold mbind, M_bind. by rewrite Ea, Eb, E2, E3. }
  rewrite <- Ec3, <- Eg3. destruct (Z.eqb_spec (current (s_cpus s3 (global_cpu_ s3))) 0) as [E0|E0].
  - destruct (wp_ok_unit _ _ _ (wp_keeps _ _ _ keeps_schedule (wp_S_GlobalSchedule env Henv s3 Hi3 E0)))
      as (s4 & E4 & (? & ? & ? & ? & ? & []) & Es4).
    destruct (exit_schedule_spec s4) as (s5 & E5 & Hi5 & _); [done|congruence|congruence|].
    exists s5. split; [|done]. apply Hr. unfold mbind, M_bind. by rewrite E4.
  - apply Hr. unfold mbind, M_bind. by rewrite (S_GlobalSchedule_crash env Henv s3 Hi3 E0).
Qed.

(** One turn of the loop of the agent of [c]. *)
Definition turn_result (s : Sol) (c : Z) (boosted : bool) (msgs : list Message) : Prop :=
  let r := S_AgentThread env c boosted msgs s in
  if c =? global_cpu_ s then
    ∃ moved s0, (if boosted then S_PickNextGlobalCPU env c s = Ok (moved, s0) else moved = false ∧ s0 = s) ∧
      if moved : bool then r = Ok (tt, s0) else ∃ s1, entered env s0 s1 ∧ turn_rest s1 msgs r
  else r = Ok (tt, add_event (SEvYield c) s).

Lemma agent_thread_eq s (boosted : bool) msgs (moved : bool) s0 :
  (if boosted then S_PickNextGlobalCPU env (global_cpu_ s) s = Ok (moved, s0) else moved = false ∧ s0 = s) →
  S_AgentThread env (global_cpu_ s) boosted msgs s =
  if moved then Ok (tt, s0)
  else (EnterSchedule env ≫= λ _, EnterDispatch env ≫= λ _, forM msgs dispatch ≫= λ _,
        ExitDispatch env (Z.of_nat (length msgs)) ≫= λ _, S_GlobalSchedule env ≫= λ _, ExitSchedule env) s0.
Proof.
  intros H. unfold S_AgentThread. unfold mbind at 1, M_bind at 1, gets at 1. rewrite Z.eqb_refl. cbn [negb].
  unfold mbind at 1, M_bind at 1. destruct boosted; [rewrite H; by destruct moved|]. by destruct H as [-> ->].
Qed.

Lemma turn_completes s c boosted msgs : sol_sys_inv s → turn_ok env s c boosted msgs → turn_result s c boosted msgs.
Proof using Henv.
  intros [Hi Ht] Hok. unfold turn_result. cbv zeta. destruct (Z.eqb_spec c (global_cpu_ s)) as [->|Hne].
  2: { unfold S_AgentThread, mbind at 1, M_bind at 1, gets at 1. by rewrite (proj2 (Z.eqb_neq c _) Hne). }
  assert (∀ s0, sol_sys_inv s0 → (∀ s1, entered env s0 s1 → s_sendables env s1 msgs) →
    ∃ s1, entered env s0 s1 ∧ turn_rest s1 msgs ((EnterSchedule env ≫= λ _, EnterDispatch env ≫= λ _, forM msgs dispatch ≫= λ _,
      ExitDispatch env (Z.of_nat (length msgs)) ≫= λ _, S_GlobalSchedule env ≫= λ _, ExitSchedule env) s0)) as Hrest.
  { intros s0 Hi0 Hms. destruct (entered_spec s0 Hi0) as (s1 & He & Hi1 & T1 & T2 & _). exists s1. split; [done|].
    by apply (turn_spec s0 s0 s1 msgs He Hi1 T1 T2); [apply Hms|]. }
  destruct boosted.
  - destruct (wp_ok _ _ _ (wp_keeps _ _ _ (keeps_pick _) (wp_S_PickNextGlobalCPU env Henv s Hi))) as (moved & s0 & E & [_ Hi0] & Es).
    exists moved, s0. split; [done|]. rewrite (agent_thread_eq s true msgs moved s0 E). destruct moved; [done|]. apply Hrest.
    + split; [done|]. unfold timers_stopped. by rewrite Es.
    + intros s1. by apply Hok.
  - exists false, s. split; [done|]. rewrite (agent_thread_eq s false msgs false s) by done.
    apply Hrest; [done|]. intros s1. by apply Hok.
Qed.

Lemma s_step_inv s s' : sol_sys_inv s → s_step env s s' → sol_sys_inv s'.
Proof using Henv.
  intros [Hi Ht] [m s1 Hm E|s1 E|b s1 E|c b msgs s1 Hok E|c st s1 (Hn & _ & Hst & Hch)].
  - destruct Hm as [Hm|Hm]; [|by rewrite (fatal_crash env s m Hm) in E].
    pose proof (s_dispatch_inv env Henv s m Hi Hm) as H. unfold wp in H. rewrite E in H. split; [done|].
    unfold timers_stopped. by rewrite (keeps_ok _ _ _ _ (keeps_dispatch m) E).
  - destruct (decide (current (s_cpus s (global_cpu_ s)) = 0)) as [H0|H0]; [|by rewrite (S_GlobalSchedule_crash env Henv) in E].
    pose proof (wp_S_GlobalSchedule env Henv s Hi H0) as H. unfold wp in H. rewrite E in H. destruct H as (? & ? & ? & ? & ? & []).
    split; [done|]. unfold timers_stopped. by rewrite (keeps_ok _ _ _ _ keeps_schedule E).
  - pose proof (wp_S_PickNextGlobalCPU env Henv s Hi) as H. unfold wp in H. rewrite E in H. split; [apply H|].
    unfold timers_stopped. by rewrite (keeps_ok _ _ _ _ (keeps_pick _) E).
  - pose proof (turn_completes s c b msgs (conj Hi Ht) Hok) as H. unfold turn_result in H. cbv zeta in H. rewrite E in H.
    destruct (c =? global_cpu_ s) eqn:Ec.
    + destruct H as (moved & s0 & Hp & H). destruct moved.
      * injection H as ->. destruct b; [|by destruct Hp]. apply Z.eqb_eq in Ec. subst c.
        pose proof (wp_S_PickNextGlobalCPU env Henv s Hi) as H. unfold wp in H. rewrite Hp in H. split; [apply H|].
        unfold timers_stopped. by rewrite (keeps_ok _ _ _ _ (keeps_pick _) Hp).
      * destruct H as (s2 & _ & [(_ & _ & ?)|(_ & s3 & _ & H)]); [done|]. destruct (_ =? 0); [|done]. destruct H as (s4 & [= ->] & ?). done.
    + injection H as ->. split; [|done]. destruct Hi as ([Ha Hr Htk Hid Hl Ho Hag Hgl Hn] & Hs & Hc). by split_and!.
  - split; [|by destruct Hch as (n & l & ->)].
    eapply (txn_changed_inv env); [done|exact Hn| |exact Hch]. unfold live_state. by rewrite <- orb_assoc, Hst, orb_true_r.
Qed.

Lemma s_reachable_inv s : s_reachable env s → sol_sys_inv s.
Proof using Henv.
  induction 1 as [g s0 s Hg E E'|]; [|by eapply s_step_inv].
  destruct (sol_start env Henv g Hg) as (s1 & s2 & E1 & E2 & Hi & _ & Es). assert (s2 = s) as -> by congruence.
  split; [done|]. unfold timers_stopped. by rewrite Es.
Qed.
End turn.
