(* ===== verification/SolClaims.v ===== *)
(** * SolClaims: what the SOL agent guarantees

    No task is lost and no transaction is left open without one, whatever the
    order of the kernel's progress; no step aborts but for a pass with a task on
    the global CPU and two messages about a task that the agent preempted; what
    a message, a pass and a move of the global CPU do.  First a machine to run. *)

From S2P Require Import Prelude Outcome CpuMap CpuMapSpec.
From S2P Require Import Topology TopologySpec TopologyClaims Dispatch Placement Txn Deals.
From S2P Require Import Sol SolOps SolHandlers SolMessages SolPass SolSystem.
From stdpp Require Import gmap functions sorting.
From Stdlib Require Import ZArith Lia.

Local Open Scope Z_scope.

(** ** A sample machine *)

(** Four CPUs, all available, and a short time slice. *)
Definition sol_env : SolEnv :=
  mkSolEnv sample_topo (all_cpus_ sample_topo) fresh_addr (Some 10) true
    (λ _, mkTxn GHOST_TXN_COMPLETE 0 0 0 0 0 kSyncGroupNotOwned false)
    (λ _, true) (λ _ _, true) (λ n, 1 + 10 * Z.of_nat n) (λ _ _, false) (λ _ _, 1) (λ _ _, 0)
    (λ _ _, GHOST_TXN_COMPLETE) (λ _ _, GHOST_TXN_READY).

Lemma sol_sample_ok : sol_env_ok sol_env.
Proof.
  split; change (s_enclave sol_env) with (all_cpus_ sample_topo); try done.
  - apply sample_topo_ok.
  - apply sample_topo_ok.
  - intros a _. apply fresh_addr_ok.
  - intros n. cbn [sol_env s_now]. lia.
Qed.

Definition s_test_msg (g ty sq : Z) : Message := mkMessage ty sq g 2 true false 0 false 0.

Global Instance started_dec s t : Decision (started s t).
Proof.
  unfold started. apply and_dec; [apply _|]. destruct (cpu t) as [c|].
  - destruct (decide (current (s_cpus s c) = 0 ∧ is_succeeded (txn_state (s_txns s c)) = true)) as [H|H].
    + left. exists c. tauto.
    + right. intros (d & [= <-] & Hd). tauto.
  - right. intros (d & [=] & _).
Defined.

Global Instance s_msg_ok_dec s p t m : Decision (s_msg_ok s p t m).
Proof. unfold s_msg_ok, ran. cbv zeta. destruct (msg_from_switchto m); apply _. Defined.

Global Instance s_cpu_msg_dec m : Decision (s_cpu_msg m).
Proof. unfold s_cpu_msg, known_cpu_msg. apply _. Defined.

Global Instance s_sendable_dec s m : Decision (s_sendable s m).
Proof. unfold s_sendable, s_handled. apply _. Defined.

(** What the global agent does, and the kernel, from the start with CPU 0. *)
Inductive SAct := SMessage (m : Message) | SSchedule | SPick | SKernel (c st : Z).

Section run.
Context (env : SolEnv).

Definition s_do (a : SAct) : M Sol unit :=
  match a with
  | SMessage m => @DispatchMessage Sol SolTask _ _ (Sol_ops env) m
  | SSchedule => S_GlobalSchedule env
  | SPick => gets global_cpu_ ≫= λ g, S_PickNextGlobalCPU env g ≫= λ _, mret tt
  | SKernel c st => modify (λ s, set_s_txns (<[c := set_txn_state st (s_txns s c)]> (s_txns s)) s)
  end.

Definition s_allowed (a : SAct) (s : Sol) : bool :=
  match a with
  | SMessage m => bool_decide (s_sendable s m)
  | SKernel c st => negb (next (s_cpus s c) =? 0) && negb (is_committed (txn_state (s_txns s c))) &&
                    (is_claimed st || good_result (s_online env) st)
  | _ => true
  end.

Fixpoint s_run (acts : list SAct) (s : Sol) : option Sol :=
  match acts with
  | [] => Some s
  | a :: acts =>
      if s_allowed a s then match s_do a s with Ok (_, s') => s_run acts s' | Crash _ => None end else None
  end.

Definition s_start : option Sol :=
  match Sol_new env 0 with
  | Ok s => match S_EnclaveReady env s with Ok (_, s') => Some s' | Crash _ => None end
  | Crash _ => None
  end.

Lemma s_do_step a s s' : s_allowed a s = true → s_do a s = Ok (tt, s') → s_step env s s'.
Proof.
  destruct a as [m| | |c st]; simpl; intros Ha E.
  - apply bool_decide_eq_true in Ha. by eapply s_step_message.
  - by eapply s_step_schedule.
  - unfold mbind, M_bind, gets in E. destruct (S_PickNextGlobalCPU _ _ s) as [[b s1]|] eqn:E1; [|done].
    injection E as <-. by eapply s_step_pick.
  - apply andb_true_iff in Ha as [[Hn%negb_true_iff%Z.eqb_neq Hc%negb_true_iff]%andb_true_iff Hst].
    injection E as <-. apply (s_step_kernel env s c st). split_and!; [done|done|done|by exists (asked s), (log s)].
Qed.

Lemma s_run_reachable acts s s' : s_reachable env s → s_run acts s = Some s' → s_reachable env s'.
Proof.
  revert s. induction acts as [|a acts IH]; intros s Hr; simpl; [by intros [= <-]|].
  destruct (s_allowed a s) eqn:Ha; [|done]. destruct (s_do a s) as [[[] s1]|] eqn:E; [|done].
  apply IH. eapply s_reach_step; [exact Hr|by eapply s_do_step].
Qed.

Lemma s_start_reachable s : s_start = Some s → s_reachable env s.
Proof.
  unfold s_start. destruct (Sol_new env 0) as [s0|] eqn:E; [|done].
  destruct (S_EnclaveReady env s0) as [[[] s1]|] eqn:E1; [|done]. intros [= <-].
  by eapply (s_reach_init _ 0).
Qed.

Definition s_at (acts : list SAct) : Sol :=
  default (mkSol (mkAllocator ∅ ∅) (λ _, mkSolCpu 0 0 false 0) (s_txns0 env) None 0 0 [] [] 0 (mkSolStats 0 0 0 0 0 0) 0 [])
    (s_start ≫= s_run acts).

Lemma s_at_reachable acts : bool_decide (is_Some (s_start ≫= s_run acts)) = true → s_reachable env (s_at acts).
Proof.
  intros [s E]%bool_decide_eq_true. unfold s_at. rewrite E. simpl. destruct s_start as [s0|] eqn:E0; [|done].
  eapply (s_run_reachable acts s0); [by apply s_start_reachable|exact E].
Qed.
End run.

(** Two tasks arrive; a pass opens their transactions on the CPUs 1 and 2, and
    the kernel commits the first one. *)
Definition s_acts1 : list SAct := (λ g, SMessage (s_test_msg g MSG_TASK_NEW 1)) <$> [7; 9].
Definition s_acts2 : list SAct := s_acts1 ++ [SSchedule; SKernel 1 GHOST_TXN_COMPLETE].
(** A third task takes CPU 1 from the first one. *)
Definition s_acts3 : list SAct :=
  s_acts2 ++ [SMessage (s_test_msg 10 MSG_TASK_NEW 1); SSchedule; SKernel 1 GHOST_TXN_COMPLETE; SSchedule].

Definition s_view (s : Sol) (p : Z) : option (Z * SolState * option Z * Z) :=
  (λ t, (gtid t, run_state t, cpu t, seqnum t)) <$> heap (s_allocator s) !! p.

Lemma s_view_task s p v :
  s_view s p = Some v → ∃ t, heap (s_allocator s) !! p = Some t ∧ (gtid t, run_state t, cpu t, seqnum t) = v.
Proof. unfold s_view. destruct (heap (s_allocator s) !! p) as [t|]; intros [= <-]. eauto. Qed.

Lemma s_acts1_reachable : s_reachable sol_env (s_at sol_env s_acts1).
Proof. apply s_at_reachable. by vm_compute. Qed.

Lemma s_acts2_reachable : s_reachable sol_env (s_at sol_env s_acts2).
Proof. apply s_at_reachable. by vm_compute. Qed.

Lemma s_acts3_reachable : s_reachable sol_env (s_at sol_env s_acts3).
Proof. apply s_at_reachable. by vm_compute. Qed.

(** ** Where the tasks are *)

(** C15. No task is lost or duplicated, whenever the kernel claims or ends a
    transaction: in every reachable state a live task is in the run queue
    exactly when it is queued, yielding exactly when it is in that list, the
    current task of a CPU exactly when it runs there, and the next one exactly
    when its transaction is pending there; no task is left merely runnable.  A
    CPU without a next task has no open transaction, a CPU with one has a
    transaction that is open, claimed, or ended with a result that the agent
    expects, and the global CPU has none.  The allocator finds the task, and
    [num_tasks_] counts the live tasks. *)
Theorem sol_no_task_lost (env : SolEnv) (s : Sol) (p : Z) (t : SolTask) (c : Z)
    (Henv : sol_env_ok env) (Hr : s_reachable env s) (Hp : heap (s_allocator s) !! p = Some t) (Hc : enclave_cpu env c) :
  GetTask (gtid t) (s_allocator s) = Some p ∧
  run_state t ≠ kRunnable ∧
  (p ∈ run_queue_ s ↔ run_state t = kQueued) ∧
  (p ∈ yielding_tasks_ s ↔ run_state t = kYielding) ∧
  (current (s_cpus s c) = p ↔ run_state t = kOnCpu ∧ cpu t = Some c) ∧
  (next (s_cpus s c) = p ↔ run_state t = kPending ∧ cpu t = Some c) ∧
  NoDup (run_queue_ s) ∧ NoDup (yielding_tasks_ s) ∧
  (∀ q, q ∈ run_queue_ s ∨ q ∈ yielding_tasks_ s ∨ (q ≠ 0 ∧ (q = current (s_cpus s c) ∨ q = next (s_cpus s c))) →
     is_Some (heap (s_allocator s) !! q)) ∧
  (if next (s_cpus s c) =? 0 then is_committed (txn_state (s_txns s c)) = true else txn_live env (s_txns s c)) ∧
  next (s_cpus s (global_cpu_ s)) = 0 ∧
  num_tasks_ s = s32 (Z.of_nat (size (heap (s_allocator s)))).
Proof.
  destruct (s_reachable_inv env Henv s Hr) as [(Hi & Hset & Hcount) _]. pose proof Hi as [[_ Ha] [Hin Hnd] Ht Hid Hl _ _ _ Hn].
  pose proof (s_nonzero env s p t Hi Hp) as Hp0.
  assert (∀ k, p ∈ s_queues s k ↔ sol_place t = Some k) as Hplace.
  { intros k. rewrite Hin. split; [|by exists t]. intros (u & Hu & <-). congruence. }
  split_and!; try done.
  - apply Ha. eauto.
  - by eapply Hset.
  - change (run_queue_ s) with (s_queues s SRun). rewrite Hplace. unfold sol_place. destruct (run_state t), (cpu t); naive_solver.
  - change (yielding_tasks_ s) with (s_queues s SYield). rewrite Hplace. unfold sol_place. destruct (run_state t), (cpu t); naive_solver.
  - trans (p ∈ s_queues s (SCur c)); [simpl; rewrite elem_of_slot; naive_solver|]. rewrite Hplace. unfold sol_place.
    destruct (run_state t), (cpu t); naive_solver.
  - trans (p ∈ s_queues s (SNext c)); [simpl; rewrite elem_of_slot; naive_solver|]. rewrite Hplace. unfold sol_place.
    destruct (run_state t), (cpu t); naive_solver.
  - apply (Hnd SRun).
  - apply (Hnd SYield).
  - intros q Hq. assert (∃ k, q ∈ s_queues s k) as [k (u & Hu & _)%Hin]; [|by exists u].
    destruct Hq as [|[|[? [-> | ->]]]]; [by exists SRun|by exists SYield|exists (SCur c)|exists (SNext c)]; simpl; by apply elem_of_slot.
  - destruct (Z.eqb_spec (next (s_cpus s c)) 0) as [E|E]; [apply (Hid c Hc); simpl; by apply slot_nil|].
    apply Hl. simpl. by rewrite slot_nil.
Qed.

Lemma sol_no_task_lost_witness :
  s_view (s_at sol_env s_acts2) 16 = Some (7, kPending, Some 1, 1) ∧
  next (s_cpus (s_at sol_env s_acts2) 1) = 16.
Proof.
  assert (s_view (s_at sol_env s_acts2) 16 = Some (7, kPending, Some 1, 1)) as E by by vm_compute.
  split; [exact E|]. destruct (s_view_task _ _ _ E) as (t & Ht & Ev). injection Ev as _ Es Ec _.
  assert (elems (s_enclave sol_env) = [0; 1; 2; 3]) as Ee by by vm_compute.
  assert (enclave_cpu sol_env 1) as Hc by (unfold enclave_cpu; rewrite Ee; right; left).
  destruct (sol_no_task_lost sol_env (s_at sol_env s_acts2) 16 t 1 sol_sample_ok s_acts2_reachable Ht Hc)
    as (_ & _ & _ & _ & _ & H & _).
  exact (proj2 H (conj Es Ec)).
Defined.

(** ** Steps *)

(** C31. No assertion fails and no index is out of range in any reachable state,
    whatever the kernel answers and whenever it ends a transaction: the agent
    starts; every message that may be sent is handled, but for one that a task
    which the agent preempted switched to another task or departed: that fails a
    check; the search for another CPU completes, with the transaction of the
    target aborted or awaited; a pass completes, and its fuel suffices, unless a
    task is current on the global CPU: then it fails its check; and so a whole
    turn of the agent's loop, with any messages, completes, but for these two
    checks. *)
Theorem sol_steps_complete (env : SolEnv) (s : Sol) (Henv : sol_env_ok env) (Hr : s_reachable env s) :
  (∀ g, 0 ≤ g < MAX_CPUS → ∃ s0 s', Sol_new env g = Ok s0 ∧ S_EnclaveReady env s0 = Ok (tt, s') ∧
     global_cpu_ s' = s_first_global env g) ∧
  (∀ m, s_sendable s m →
     if decide (s_fatal s m) then @DispatchMessage Sol SolTask _ _ (Sol_ops env) m s = Crash CheckFailed
     else ∃ s', @DispatchMessage Sol SolTask _ _ (Sol_ops env) m s = Ok (tt, s')) ∧
  (∃ b s', S_PickNextGlobalCPU env (global_cpu_ s) s = Ok (b, s')) ∧
  (if current (s_cpus s (global_cpu_ s)) =? 0 then ∃ s', S_GlobalSchedule env s = Ok (tt, s')
   else S_GlobalSchedule env s = Crash CheckFailed) ∧
  (∀ c boosted msgs, turn_ok env s c boosted msgs → turn_result env s c boosted msgs).
Proof.
  pose proof (s_reachable_inv env Henv s Hr) as Hs. pose proof Hs as [Hi _]. split_and!.
  - intros g Hg. destruct (sol_start env Henv g Hg) as (s0 & s' & E & E' & _ & Eg & _). eauto.
  - intros m Hm. destruct (decide (s_fatal s m)) as [Hf|Hf]; [by apply fatal_crash|]. destruct Hm as [Hm|?]; [|done].
    destruct (wp_ok_unit _ _ _ (s_dispatch_inv env Henv s m Hi Hm)) as (s' & E & _). eauto.
  - destruct (wp_ok _ _ _ (wp_S_PickNextGlobalCPU env Henv s Hi)) as (b & s' & E & _). eauto.
  - destruct (Z.eqb_spec (current (s_cpus s (global_cpu_ s))) 0) as [E|E]; [|by apply S_GlobalSchedule_crash].
    destruct (wp_ok_unit _ _ _ (wp_S_GlobalSchedule env Henv s Hi E)) as (s' & Es & _). eauto.
  - intros c b msgs Hok. by apply turn_completes.
Qed.

Lemma sol_steps_complete_witness :
  (∃ s', S_GlobalSchedule sol_env (s_at sol_env s_acts2) = Ok (tt, s')) ∧
  turn_result sol_env (s_at sol_env s_acts2) 0 true [] ∧
  @DispatchMessage Sol SolTask _ _ (Sol_ops sol_env) (s_test_msg 7 MSG_TASK_DEPARTED 2) (s_at sol_env s_acts3) = Crash CheckFailed.
Proof.
  destruct (sol_steps_complete sol_env (s_at sol_env s_acts2) sol_sample_ok s_acts2_reachable) as (_ & _ & _ & H & Ht).
  destruct (sol_steps_complete sol_env (s_at sol_env s_acts3) sol_sample_ok s_acts3_reachable) as (_ & Hm & _).
  assert (current (s_cpus (s_at sol_env s_acts2) (global_cpu_ (s_at sol_env s_acts2))) =? 0 = true) as E by by vm_compute.
  assert (bool_decide (s_fatal (s_at sol_env s_acts3) (s_test_msg 7 MSG_TASK_DEPARTED 2)) = true) as Ef by (vm_compute; reflexivity).
  rewrite E in H. split; [exact H|]. split; [apply Ht; intros _ s0 s1 _ _; exact I|].
  apply bool_decide_eq_true in Ef. specialize (Hm _ (or_intror Ef)).
  destruct (decide (s_fatal (s_at sol_env s_acts3) (s_test_msg 7 MSG_TASK_DEPARTED 2))) as [_|Hn]; [exact Hm|destruct (Hn Ef)].
Defined.

(** C32. The messages about a known task are the transitions of an abstract
    machine of ordered queues.  If its transaction is pending, the kernel has
    committed it, and the task first becomes the current task of its CPU; a
    departing task waits for the end of its transaction, and may displace the
    current task.  Then death and departure take it out of every queue, a wakeup
    puts it in the run queue, at the front unless deferrable, a preemption at
    the front, a task that yields waits for the next pass, and one that blocks
    is in no queue; a task that the agent preempted and that is then preempted
    or yields is queued again.  The sequence number becomes the message's, and
    every other task stays where it is. *)
Theorem sol_message_refines (env : SolEnv) (s : Sol) (p : Z) (t : SolTask) (m : Message)
    (Henv : sol_env_ok env) (Hr : s_reachable env s)
    (Hf : GetTask (msg_gtid m) (s_allocator s) = Some p) (Hp : heap (s_allocator s) !! p = Some t)
    (Hty : is_task_type (msg_type m)) (Hnew : msg_type m ≠ MSG_TASK_NEW) (Hg : msg_gtid m ≠ 0) (Hm : s_msg_ok s p t m) :
  ∃ s', @DispatchMessage Sol SolTask _ _ (Sol_ops env) m s = Ok (tt, s') ∧ s_transition env s p t m s'.
Proof.
  destruct (s_reachable_inv env Henv s Hr) as [Hi _]. by apply wp_ok_unit, dispatch_s_transition.
Qed.

Lemma sol_message_refines_witness :
  s_view (s_at sol_env s_acts2) 16 = Some (7, kPending, Some 1, 1) ∧
  ∃ t s', @DispatchMessage Sol SolTask _ _ (Sol_ops sol_env) (s_test_msg 7 MSG_TASK_YIELD 2) (s_at sol_env s_acts2) = Ok (tt, s') ∧
    s_transition sol_env (s_at sol_env s_acts2) 16 t (s_test_msg 7 MSG_TASK_YIELD 2) s'.
Proof.
  assert (is_task_type MSG_TASK_YIELD ∧ MSG_TASK_YIELD ≠ MSG_TASK_NEW ∧ 7 ≠ 0) as (Hty & Hnew & Hg) by by vm_compute.
  assert (s_view (s_at sol_env s_acts2) 16 = Some (7, kPending, Some 1, 1)) as E by by vm_compute.
  assert (GetTask 7 (s_allocator (s_at sol_env s_acts2)) = Some 16) as Eg by by vm_compute.
  assert (current (s_cpus (s_at sol_env s_acts2) 1) = 0) as E0 by by vm_compute.
  assert (is_succeeded (txn_state (s_txns (s_at sol_env s_acts2) 1)) = true) as E1 by by vm_compute.
  split; [exact E|]. destruct (s_view_task _ _ _ E) as (t & Ht & Ev). injection Ev as _ Es Ec Eq.
  assert (s_msg_ok (s_at sol_env s_acts2) 16 t (s_test_msg 7 MSG_TASK_YIELD 2)) as Hm.
  { unfold s_msg_ok. cbn [s_test_msg msg_type msg_seqnum]. rewrite Eq. split; [reflexivity|].
    split; [intros [H|H]; discriminate H|]. split; [|split; intros H; discriminate H].
    intros _. left. right. split; [exact Es|]. exists 1. exact (conj Ec (conj E0 E1)). }
  exists t.
  exact (sol_message_refines sol_env (s_at sol_env s_acts2) 16 t (s_test_msg 7 MSG_TASK_YIELD 2)
           sol_sample_ok s_acts2_reachable Eg Ht Hty Hnew Hg Hm).
Defined.

(** C33. A task that the agent preempted, because a transaction of another task
    was committed on its CPU, is about to send a message that says why it
    stopped.  The messages that it blocked, yielded or was preempted are
    handled; that it switched to another task or departed fails a check, though
    a task can do either in the same circumstances. *)
Theorem sol_preempted_task_messages (env : SolEnv) (s : Sol) (p : Z) (t : SolTask) (m : Message)
    (Henv : sol_env_ok env) (Hr : s_reachable env s)
    (Hf : GetTask (msg_gtid m) (s_allocator s) = Some p) (Hp : heap (s_allocator s) !! p = Some t)
    (Hst : run_state t = kPreemptedByAgent) (Hsq : seqnum t < msg_seqnum m) (Hg : msg_gtid m ≠ 0) (Hsw : msg_from_switchto m = false) :
  (msg_type m ∈ [MSG_TASK_BLOCKED; MSG_TASK_YIELD; MSG_TASK_PREEMPT] →
     ∃ s', @DispatchMessage Sol SolTask _ _ (Sol_ops env) m s = Ok (tt, s')) ∧
  (msg_type m ∈ [MSG_TASK_SWITCHTO; MSG_TASK_DEPARTED] →
     @DispatchMessage Sol SolTask _ _ (Sol_ops env) m s = Crash CheckFailed).
Proof.
  destruct (s_reachable_inv env Henv s Hr) as [Hi _]. split.
  - intros Hty. assert (s_msg_ok s p t m ∧ is_task_type (msg_type m) ∧ msg_type m ≠ MSG_TASK_NEW) as (Hm & Ht & Hn).
    { rewrite !elem_of_cons, elem_of_nil in Hty. unfold s_msg_ok, is_task_type. cbv zeta. rewrite Hsw, Hst.
      destruct Hty as [->|[->|[->|[]]]]; (split; [|done]); (split; [done|]); split_and!; try (by intros [? ?]); try done;
        try (intros [H|H]; discriminate H); try (intros _; right; by right). }
    edestruct (wp_ok_unit (@DispatchMessage Sol SolTask _ _ (Sol_ops env) m) s) as (s' & E & _); [|by exists s'].
    eapply wp_mono; [by apply (dispatch_s_transition env Henv s p t m)|]. intros a s' H. exact H.
  - intros Hty. apply fatal_crash. unfold s_fatal. rewrite Hf, Hp. split; [|done].
    rewrite !elem_of_cons, elem_of_nil in Hty. destruct Hty as [?|[?|[]]]; [by left|by right].
Qed.

Lemma sol_preempted_task_messages_witness :
  s_view (s_at sol_env s_acts3) 16 = Some (7, kPreemptedByAgent, Some 1, 1) ∧
  @DispatchMessage Sol SolTask _ _ (Sol_ops sol_env) (s_test_msg 7 MSG_TASK_DEPARTED 2) (s_at sol_env s_acts3) = Crash CheckFailed.
Proof.
  assert (7 ≠ 0) as Hg by by vm_compute.
  assert (s_view (s_at sol_env s_acts3) 16 = Some (7, kPreemptedByAgent, Some 1, 1)) as E by by vm_compute.
  assert (GetTask 7 (s_allocator (s_at sol_env s_acts3)) = Some 16) as Eg by by vm_compute.
  assert (MSG_TASK_DEPARTED ∈ [MSG_TASK_SWITCHTO; MSG_TASK_DEPARTED]) as Hin by (right; left).
  split; [exact E|]. destruct (s_view_task _ _ _ E) as (t & Ht & Ev). injection Ev as _ Es _ Eq.
  assert (seqnum t < 2) as Hsq by (rewrite Eq; reflexivity).
  destruct (sol_preempted_task_messages sol_env (s_at sol_env s_acts3) 16 t (s_test_msg 7 MSG_TASK_DEPARTED 2)
              sol_sample_ok s_acts3_reachable Eg Ht Es Hsq Hg eq_refl) as [_ H].
  exact (H Hin).
Defined.

(** ** The pass *)

(** C16. A scheduling pass first takes in the transactions that the kernel has
    committed.  A CPU is then available exactly when it is not the global one,
    has no open transaction, and has no task or one whose time slice is over.
    The pass deals a prefix of the run queue to the available CPUs, passing over
    the tasks that still run or have unread messages: each other task gets its
    last CPU, or else the first available hardware sibling of it, or else the
    lowest CPU, and becomes its next task, with an open transaction, until the
    CPUs or the tasks run out.  The current tasks are untouched, all opened
    transactions are submitted together, and the tasks passed over enter the
    queue again last. *)
Theorem sol_schedule_deals (env : SolEnv) (s : Sol)
    (Henv : sol_env_ok env) (Hr : s_reachable env s) (Hg : current (s_cpus s (global_cpu_ s)) = 0) :
  ∃ s' s1 av0 D s2 av, S_GlobalSchedule env s = Ok (tt, s') ∧ s_pass env s s1 av0 D s2 av s' ∧
    deals_facts s1 D s2 ∧ (∀ c, c ∈ (picked D).*1 → c ∈ av0).
Proof.
  destruct (s_reachable_inv env Henv s Hr) as [Hi _].
  destruct (wp_ok_unit _ _ _ (wp_S_GlobalSchedule env Henv s Hi Hg)) as (s' & E & s1 & av0 & D & s2 & av & H).
  destruct (deals_spec env s1 av0 D s2 av (sp_deals _ _ _ _ _ _ _ _ H)) as [Hf Hin].
  exists s', s1, av0, D, s2, av. by split_and!.
Qed.

Lemma sol_schedule_deals_witness :
  run_queue_ (s_at sol_env s_acts1) = [16; 272] ∧
  ∃ s' s1 av0 D s2 av, S_GlobalSchedule sol_env (s_at sol_env s_acts1) = Ok (tt, s') ∧
    s_pass sol_env (s_at sol_env s_acts1) s1 av0 D s2 av s' ∧ run_queue_ s1 = D.*1 ++ run_queue_ s2.
Proof.
  split; [by vm_compute|].
  destruct (sol_schedule_deals sol_env (s_at sol_env s_acts1) sol_sample_ok s_acts1_reachable ltac:(by vm_compute))
    as (s' & s1 & av0 & D & s2 & av & E & H & Hf & _).
  exists s', s1, av0, D, s2, av. exact (conj E (conj H (df_queue _ _ _ Hf))).
Defined.

(** ** The global CPU *)

(** Once in 256 turns the agent looks for another global CPU, the first one
    of a fixed order that is available.  If that CPU has a next task, its
    transaction is aborted, or the kernel ends it, and is taken in: so the task
    is queued again, or runs on the new global CPU.  Then the global CPU moves
    and its agent is woken. *)
Theorem sol_pick_next_global (env : SolEnv) (s : Sol) (Henv : sol_env_ok env) (Hr : s_reachable env s) :
  ∃ moved s', S_PickNextGlobalCPU env (global_cpu_ s) s = Ok (moved, s') ∧ s_picks env s moved s' ∧
    (∀ c n, moved = true → s_next_global env s = (Some c, n) →
       c ≠ global_cpu_ s ∧ enclave_cpu env c ∧ global_cpu_ s' = c ∧ next (s_cpus s' c) = 0).
Proof.
  destruct (s_reachable_inv env Henv s Hr) as [Hi _].
  destruct (wp_ok _ _ _ (wp_S_PickNextGlobalCPU env Henv s Hi)) as (moved & s' & E & Hpick & [Hi' _]).
  exists moved, s'. split_and!; [done|done|]. intros c n -> En. destruct (s_next_global_some env s c n Hi En) as [Hc Hne].
  unfold s_picks in Hpick. destruct (Z.land _ _ =? 0); [|by destruct Hpick]. rewrite En in Hpick.
  destruct Hpick as (_ & r & s1 & _ & _ & Es). pose proof (sm_next _ _ Hi') as Hn. subst s'. by split_and!.
Qed.

Lemma sol_pick_next_global_witness :
  s_next_global sol_env (s_at sol_env (s_acts1 ++ [SSchedule])) = (Some 2, 7%nat) ∧
  ∃ moved s', S_PickNextGlobalCPU sol_env (global_cpu_ (s_at sol_env (s_acts1 ++ [SSchedule]))) (s_at sol_env (s_acts1 ++ [SSchedule])) = Ok (moved, s') ∧
    s_picks sol_env (s_at sol_env (s_acts1 ++ [SSchedule])) moved s'.
Proof.
  split; [by vm_compute|].
  assert (s_reachable sol_env (s_at sol_env (s_acts1 ++ [SSchedule]))) as Hr by (apply s_at_reachable; by vm_compute).
  destruct (sol_pick_next_global sol_env (s_at sol_env (s_acts1 ++ [SSchedule])) sol_sample_ok Hr) as (moved & s' & E & H & _).
  exists moved, s'. exact (conj E H).
Defined.
