(* ===== verification/MemCue.v ===== *)
(** * MemCue: the shared-memory cues of the cfs_mem agent

    schedulers/cfs_mem/cfs_mem_scheduler.h and .cc, with the senders of
    test_mem_sender.cc and workload_mixed.cc.  A sender thread owns a slot of a
    shared region; the agents poll the slots.  [Poll] and [WriteCue] first as
    whole operations; then the machine that interleaves their accesses to the
    shared memory, one byte at a time, since no lock excludes a sender from a
    poller. *)

From S2P Require Import Prelude Outcome.
From stdpp Require Import gmap.
From Stdlib Require Import ZArith Lia.

Local Open Scope Z_scope.

(** ** The region *)

Definition kMemMaxSlots : nat := 256.
Definition message_size : nat := 48.

(** [char] is a byte as a [Z]; 0 ends a C string. *)
Record MemCueSlot := mkSlot {
  slot_seq : Z;
  slot_sent_ns : Z;
  slot_message : list Z
}.

Record MemCueRegion := mkRegion {
  next_slot : Z;
  slots : list MemCueSlot
}.

Record MemCue := mkCue {
  slot_idx : nat;
  cue_sent_ns : Z;
  cue_message : list Z;
  observed_at : Z
}.

Definition MemCueSlot_new : MemCueSlot := mkSlot 0 0 (replicate message_size 0).
Definition MemCueRegion_new : MemCueRegion := mkRegion 0 (replicate kMemMaxSlots MemCueSlot_new).

(** The [MemCuePoll] of an agent process: [last_seq]. *)
Definition MemCuePoll_new : list Z := replicate kMemMaxSlots 0.

(** An index into one of the two arrays. *)
Definition nth_of {A} (l : list A) (i : nat) : outcome A :=
  match l !! i with Some x => Ok x | None => Crash OutOfBounds end.

(** [strnlen(s, n)]; [strlen] of a list that stands for a C string. *)
Fixpoint strnlen (n : nat) (s : list Z) : nat :=
  match n, s with
  | S n, c :: s => if c =? 0 then O else S (strnlen n s)
  | _, _ => O
  end.

Definition strlen (s : list Z) : nat := strnlen (length s) s.

(** [std::string(message, strnlen(message, sizeof(message)))] *)
Definition slot_string (message : list Z) : list Z :=
  take (strnlen message_size message) message.

(** ** Polling *)

(** The number of allocated slots: [next_slot], clamped. *)
Definition allocated (r : MemCueRegion) : nat :=
  if Z.of_nat kMemMaxSlots <? next_slot r then kMemMaxSlots else Z.to_nat (next_slot r).

(** The loop from slot [i] on, with [k] slots left. *)
Fixpoint Poll_loop (r : MemCueRegion) (now : Z) (k i : nat) (last_seq : list Z)
    : outcome (list Z * list MemCue) :=
  match k with
  | O => Ok (last_seq, [])
  | S k =>
      nth_of (slots r) i ≫= λ slot,
      nth_of last_seq i ≫= λ last,
      if slot_seq slot =? last then Poll_loop r now k (S i) last_seq
      else
        Poll_loop r now k (S i) (<[i := slot_seq slot]> last_seq) ≫= λ '(last_seq, out),
        Ok (last_seq, mkCue i (slot_sent_ns slot) (slot_string (slot_message slot)) now :: out)
  end.

(** [MemCuePoll::Poll]: the new [last_seq], the cues appended to [out]; the
    result of the function is their number. *)
Definition Poll (r : MemCueRegion) (now : Z) (last_seq : list Z) : outcome (list Z * list MemCue) :=
  Poll_loop r now (allocated r) 0 last_seq.

(** ** Sending *)

(** The stores of a sender to its slot. *)
Inductive Access :=
| StNs (ns : Z)
| StByte (j : nat) (b : Z)
| Bump.

(** [WriteCue] of test_mem_sender.cc: [memcpy] of the characters, then the NUL,
    then the release increment. *)
Definition WriteCue (ns : Z) (msg : list Z) : list Access :=
  let len := Nat.min (strlen msg) (message_size - 1) in
  StNs ns :: imap StByte (take len msg) ++ [StByte len 0; Bump].

(** [WriteCue] of workload_mixed.cc: a hint byte and a detail. *)
Definition WriteHint (ns hint : Z) (detail : list Z) : list Access :=
  let dlen := Nat.min (strlen detail) (message_size - 2) in
  StNs ns :: StByte 0 hint :: imap (λ j, StByte (1 + j)) (take dlen detail) ++
  [StByte (1 + dlen) 0; Bump].

Definition HINT_NONE : Z := 0.
Definition HINT_LATENCY_SENSITIVE : Z := 1.
Definition HINT_BATCH : Z := 2.

Definition access (a : Access) (s : MemCueSlot) : MemCueSlot :=
  match a with
  | StNs ns => mkSlot (slot_seq s) ns (slot_message s)
  | StByte j b => mkSlot (slot_seq s) (slot_sent_ns s) (<[j := b]> (slot_message s))
  | Bump => mkSlot (u32 (slot_seq s + 1)) (slot_sent_ns s) (slot_message s)
  end.

Definition accesses (l : list Access) (s : MemCueSlot) : MemCueSlot := foldl (flip access) s l.

(** [AllocSlot]: the slot, when the [CHECK_LT] passes; the counter has moved
    on either way. *)
Definition AllocSlot (r : MemCueRegion) : option nat * MemCueRegion :=
  let slot := next_slot r in
  (if slot <? Z.of_nat kMemMaxSlots then Some (Z.to_nat slot) else None,
   mkRegion (u32 (slot + 1)) (slots r)).

(** ** The machine *)

(** A sender thread: its slot and what is left of its current [WriteCue]. *)
Record Writer := mkWriter {
  w_slot : nat;
  w_todo : list Access
}.

(** Where the poller that holds the mutex is: before the load of [seq] of slot
    [i]; before the load of [sent_ns]; in [strnlen], past [k] characters; in
    the copy of [len] characters, past those of [acc]. *)
Inductive Poller :=
| PIdle
| PSlot (n : nat) (now : Z) (i : nat)
| PNs (n : nat) (now : Z) (i : nat)
| PLen (n : nat) (now : Z) (i : nat) (ns : Z) (k : nat)
| PCopy (n : nat) (now : Z) (i : nat) (ns : Z) (len : nat) (acc : list Z).

(** [cues] is everything the polls have delivered, in order. *)
Record World := mkWorld {
  region : MemCueRegion;
  last_seq : list Z;
  writers : list Writer;
  poller : Poller;
  cues : list MemCue
}.

Definition world0 : World := mkWorld MemCueRegion_new MemCuePoll_new [] PIdle [].

(** What can happen next: a new sender thread allocates its slot; the [t]-th
    sender begins a [WriteCue] or performs its next store; some agent takes the
    mutex and reads [next_slot] and the clock, or performs its next access. *)
Inductive Action :=
| AAlloc
| ABegin (t : nat) (ns : Z) (msg : list Z)
| AStore (t : nat)
| APoll (now : Z)
| ALoad.

Definition set_slot (i : nat) (s : MemCueSlot) (r : MemCueRegion) : MemCueRegion :=
  mkRegion (next_slot r) (<[i := s]> (slots r)).

Definition with_poller (p : Poller) (w : World) : World :=
  mkWorld (region w) (last_seq w) (writers w) p (cues w).

(** One access of the poller; releasing the mutex is the step to [PIdle]. *)
Definition load_step (w : World) : option World :=
  match poller w with
  | PIdle => None
  | PSlot n now i =>
      if (i <? n)%nat then
        s ← slots (region w) !! i; last ← last_seq w !! i;
        Some (if slot_seq s =? last then with_poller (PSlot n now (S i)) w
              else mkWorld (region w) (<[i := slot_seq s]> (last_seq w)) (writers w) (PNs n now i) (cues w))
      else Some (with_poller PIdle w)
  | PNs n now i =>
      s ← slots (region w) !! i; Some (with_poller (PLen n now i (slot_sent_ns s) 0) w)
  | PLen n now i ns k =>
      if (k <? message_size)%nat then
        s ← slots (region w) !! i; c ← slot_message s !! k;
        Some (with_poller (if c =? 0 then PCopy n now i ns k [] else PLen n now i ns (S k)) w)
      else Some (with_poller (PCopy n now i ns k []) w)
  | PCopy n now i ns len acc =>
      if (length acc <? len)%nat then
        s ← slots (region w) !! i; c ← slot_message s !! length acc;
        Some (with_poller (PCopy n now i ns len (acc ++ [c])) w)
      else
        Some (mkWorld (region w) (last_seq w) (writers w) (PSlot n now (S i))
                (cues w ++ [mkCue i ns acc now]))
  end.

Definition step (a : Action) (w : World) : option World :=
  match a with
  | AAlloc =>
      let '(slot, r) := AllocSlot (region w) in
      Some (mkWorld r (last_seq w)
              (match slot with Some i => writers w ++ [mkWriter i []] | None => writers w end)
              (poller w) (cues w))
  | ABegin t ns msg =>
      match writers w !! t with
      | Some (mkWriter i []) =>
          Some (mkWorld (region w) (last_seq w) (<[t := mkWriter i (WriteCue ns msg)]> (writers w))
                  (poller w) (cues w))
      | _ => None
      end
  | AStore t =>
      match writers w !! t with
      | Some (mkWriter i (a :: todo)) =>
          s ← slots (region w) !! i;
          Some (mkWorld (set_slot i (access a s) (region w)) (last_seq w)
                  (<[t := mkWriter i todo]> (writers w)) (poller w) (cues w))
      | _ => None
      end
  | APoll now =>
      match poller w with
      | PIdle => Some (with_poller (PSlot (allocated (region w)) now 0) w)
      | _ => None
      end
  | ALoad => load_step w
  end.

(** A schedule: [None] if some action was not possible. *)
Definition run (acts : list Action) (w : World) : option World :=
  foldl (λ o a, o ≫= step a) (Some w) acts.

(** Some number of accesses of the poller alone. *)
Definition loads (k : nat) (w : World) : option World := run (replicate k ALoad) w.
