(* ===== verification/MemCueSpec.v ===== *)
(** * MemCueSpec: what the cue slots deliver

    One write and one poll, the accesses of an undisturbed poll, and the
    invariant of the machine that interleaves senders and pollers.

    An undisturbed poll.

    [Poll] against its specification, and the accesses of a poller that runs
    alone against [Poll].

    The invariant of senders and pollers.

    What holds after any schedule of fewer than 2^32 actions, so that neither
    the slot counter nor a sequence number wraps around. *)

From S2P Require Import Prelude Outcome MemCue.
From stdpp Require Import gmap.
From Stdlib Require Import ZArith Lia.

Local Open Scope Z_scope.

(** ** Strings *)

(** The C string at the start of [msg], and what a slot can hold of it. *)
Definition cue_text (msg : list Z) : list Z := take (message_size - 1) (take (strlen msg) msg).

Lemma strnlen_le n s : (strnlen n s ≤ n)%nat ∧ (strnlen n s ≤ length s)%nat.
Proof. revert s. induction n as [|n IH]; intros [|c s]; simpl; try lia. destruct (c =? 0); [lia|]. specialize (IH s). simpl. lia. Qed.

(** [strnlen] stops at the first NUL after [l]. *)
Lemma strnlen_app n l r :
  Forall (λ c, c ≠ 0) l → (length l < n)%nat → strnlen n (l ++ 0 :: r) = length l.
Proof.
  revert n. induction l as [|c l IH]; intros [|n] Hl Hn; simpl in *; try lia.
  inversion Hl; subst. destruct (Z.eqb_spec c 0); [done|]. f_equal. apply IH; [done|lia].
Qed.

Lemma strnlen_nonzero n s : Forall (λ c, c ≠ 0) (take (strnlen n s) s).
Proof.
  revert s. induction n as [|n IH]; intros [|c s]; simpl; try done.
  destruct (Z.eqb_spec c 0); simpl; [done|]. by constructor.
Qed.

Lemma cue_text_nonzero msg : Forall (λ c, c ≠ 0) (cue_text msg).
Proof. apply Forall_take, strnlen_nonzero. Qed.

Lemma cue_text_eq msg :
  cue_text msg = take (Nat.min (strlen msg) (message_size - 1)) msg ∧
  length (cue_text msg) = Nat.min (strlen msg) (message_size - 1).
Proof.
  unfold cue_text. rewrite take_take. split; [f_equal; lia|]. rewrite length_take.
  pose proof (strnlen_le (length msg) msg). unfold strlen. lia.
Qed.

(** ** One write *)

Lemma accesses_app a b s : accesses (a ++ b) s = accesses b (accesses a s).
Proof. apply foldl_app. Qed.

Lemma accesses_cons a l s : accesses (a :: l) s = accesses l (access a s).
Proof. done. Qed.

(** A run of byte stores from index [k] on. *)
Lemma accesses_bytes l k pre x s :
  slot_message s = pre ++ x → length pre = k → (length l ≤ length x)%nat →
  accesses (imap (λ j, StByte (k + j)) l) s =
  mkSlot (slot_seq s) (slot_sent_ns s) (pre ++ l ++ drop (length l) x).
Proof.
  revert k pre x s. induction l as [|b l IH]; intros k pre x s Hm Hk Hl.
  { destruct s as [q n m]. simpl in *. by subst. }
  destruct x as [|y x]; simpl in Hl; [lia|].
  rewrite imap_cons, (imap_ext _ (λ j, StByte (S k + j))) by (intros; simpl; f_equal; lia).
  rewrite accesses_cons, (IH (S k) (pre ++ [b]) x); simpl; [by rewrite <- app_assoc| |rewrite length_app; simpl; lia|lia].
  rewrite Hm, Nat.add_0_r, <- Hk, <- app_assoc. simpl.
  rewrite insert_app_r_alt, Nat.sub_diag by lia. done.
Qed.

Definition is_bump (a : Access) : bool := match a with Bump => true | _ => false end.

(** A write is stores that keep [seq], then the increment. *)
Lemma WriteCue_body ns msg :
  ∃ body, WriteCue ns msg = body ++ [Bump] ∧ Forall (λ a, is_bump a = false) body.
Proof.
  unfold WriteCue. set (len := Nat.min _ _).
  exists (StNs ns :: imap StByte (take len msg) ++ [StByte len 0]). split.
  - simpl. by rewrite <- app_assoc.
  - constructor; [done|]. apply Forall_app. split; [|by repeat constructor].
    apply Forall_lookup. intros i a. rewrite list_lookup_imap. by destruct (_ !! i) as [b|]; simpl; [intros [= <-]|].
Qed.

Lemma accesses_seq l s : Forall (λ a, is_bump a = false) l → slot_seq (accesses l s) = slot_seq s.
Proof.
  intros H. revert s. induction H as [|a l Ha _ IH]; intros s; [done|].
  rewrite accesses_cons, IH. by destruct a.
Qed.

Lemma access_length a s : length (slot_message (access a s)) = length (slot_message s).
Proof. destruct a; simpl; [done|apply length_insert|done]. Qed.

Lemma accesses_length l s : length (slot_message (accesses l s)) = length (slot_message s).
Proof. revert s. induction l as [|a l IH]; intros s; [done|]. by rewrite accesses_cons, IH, access_length. Qed.

(** What a completed write leaves in the slot. *)
Lemma WriteCue_spec ns msg s :
  length (slot_message s) = message_size →
  let s' := accesses (WriteCue ns msg) s in
  slot_seq s' = u32 (slot_seq s + 1) ∧ slot_sent_ns s' = ns ∧ slot_string (slot_message s') = cue_text msg.
Proof.
  intros Hlen. cbv zeta. destruct (cue_text_eq msg) as [Et El]. unfold WriteCue.
  set (len := Nat.min _ _) in *. rewrite <- Et.
  assert (len < message_size)%nat as Hl by (unfold len, message_size; lia).
  rewrite accesses_cons, accesses_app, (imap_ext _ (λ j, StByte (0 + j))) by done.
  rewrite (accesses_bytes _ 0 [] (slot_message s)) by (simpl; try done; lia).
  rewrite !accesses_cons. split_and!; [done|done|]. simpl. rewrite El.
  rewrite insert_app_r_alt, El, Nat.sub_diag by lia.
  destruct (drop len (slot_message s)) as [|y r] eqn:Ed.
  { apply (f_equal length) in Ed. rewrite length_drop in Ed. simpl in Ed. lia. }
  simpl. unfold slot_string.
  rewrite strnlen_app by (first [apply cue_text_nonzero|lia]). by rewrite take_app_length.
Qed.

(** A hint is a cue whose first character is the hint byte. *)
Lemma WriteHint_cue ns hint detail : hint ≠ 0 → WriteHint ns hint detail = WriteCue ns (hint :: detail).
Proof.
  intros Hh. unfold WriteHint, WriteCue, strlen. simpl. destruct (Z.eqb_spec hint 0); [done|].
  replace (Nat.min (S (strnlen (length detail) detail)) 47)
    with (S (Nat.min (strnlen (length detail) detail) 46)) by lia.
  done.
Qed.

(** ** An undisturbed poll *)

Definition region_wf (r : MemCueRegion) (ls : list Z) : Prop :=
  length (slots r) = kMemMaxSlots ∧ length ls = kMemMaxSlots ∧
  ∀ i s, slots r !! i = Some s → length (slot_message s) = message_size.

Lemma allocated_le r : (allocated r ≤ kMemMaxSlots)%nat.
Proof. unfold allocated. destruct (Z.ltb_spec (Z.of_nat kMemMaxSlots) (next_slot r)); lia. Qed.

(** ** The specification of [Poll] *)

(** The cue that slot [i] has for a poller, if it changed. *)
Definition new_cue (r : MemCueRegion) (ls : list Z) (now : Z) (i : nat) : option MemCue :=
  s ← slots r !! i; l ← ls !! i;
  if slot_seq s =? l then None
  else Some (mkCue i (slot_sent_ns s) (slot_string (slot_message s)) now).

(** [last_seq] after a poll: [seq] up to [n]. *)
Definition caught_up (r : MemCueRegion) (n : nat) (ls ls' : list Z) : Prop :=
  length ls' = length ls ∧
  ∀ i, ls' !! i = if (i <? n)%nat then slot_seq <$> slots r !! i else ls !! i.

Lemma omap_eq_in {A B} (f g : A → option B) (l : list A) : (∀ x, x ∈ l → f x = g x) → omap f l = omap g l.
Proof.
  induction l as [|x l IH]; intros H; [done|]. cbn. rewrite H by by left. rewrite IH; [done|].
  intros y Hy. apply H. by right.
Qed.

Lemma Poll_loop_spec r now k i ls :
  length (slots r) = kMemMaxSlots → length ls = kMemMaxSlots → (i + k ≤ kMemMaxSlots)%nat →
  ∃ ls', Poll_loop r now k i ls = Ok (ls', omap (new_cue r ls now) (seq i k)) ∧
    length ls' = length ls ∧
    ∀ j, ls' !! j = if (i <=? j)%nat && (j <? i + k)%nat then slot_seq <$> slots r !! j else ls !! j.
Proof.
  intros Hs. revert i ls. induction k as [|k IH]; intros i ls Hl Hk; simpl.
  { exists ls. split_and!; [done|done|]. intros j.
    by destruct (Nat.leb_spec i j), (Nat.ltb_spec j (i + 0)); simpl; try lia. }
  destruct (lookup_lt_is_Some_2 (slots r) i ltac:(lia)) as [s Es].
  destruct (lookup_lt_is_Some_2 ls i ltac:(lia)) as [l El].
  unfold nth_of. rewrite Es, El. simpl.
  assert (∀ ls', length ls' = length ls → (∀ j, j ≠ i → ls' !! j = ls !! j) → slot_seq <$> slots r !! i = ls' !! i →
    ∃ ls'', Poll_loop r now k (S i) ls' = Ok (ls'', omap (new_cue r ls now) (seq (S i) k)) ∧
      length ls'' = length ls ∧
      ∀ j, ls'' !! j = if (i <=? j)%nat && (j <? i + S k)%nat then slot_seq <$> slots r !! j else ls !! j) as H.
  { intros ls' Hl' Hne Hi. destruct (IH (S i) ls' ltac:(lia) ltac:(lia)) as (ls'' & -> & Hl'' & Hj).
    exists ls''. split_and!; [|lia|].
    - do 2 f_equal. apply omap_eq_in. intros j Hj'%elem_of_seq. unfold new_cue. by rewrite Hne by lia.
    - intros j. rewrite Hj. destruct (decide (j = i)) as [->|Hji].
      + destruct (Nat.leb_spec (S i) i), (Nat.leb_spec i i), (Nat.ltb_spec i (i + S k)); simpl; try lia. done.
      + rewrite Hne by done.
        destruct (Nat.leb_spec (S i) j), (Nat.leb_spec i j), (Nat.ltb_spec j (S i + k)),
          (Nat.ltb_spec j (i + S k)); simpl; try lia; done. }
  unfold new_cue at 1. rewrite Es, El. simpl. destruct (Z.eqb_spec (slot_seq s) l) as [E|E].
  - apply H; [done|done|]. rewrite Es, El. simpl. by f_equal.
  - destruct (H (<[i := slot_seq s]> ls)) as (ls'' & -> & H').
    + apply length_insert.
    + intros j Hj. by rewrite list_lookup_insert_ne.
    + rewrite Es, list_lookup_insert_eq by lia. done.
    + exists ls''. by split.
Qed.

Lemma Poll_spec r now ls :
  length (slots r) = kMemMaxSlots → length ls = kMemMaxSlots →
  ∃ ls', Poll r now ls = Ok (ls', omap (new_cue r ls now) (seq 0 (allocated r))) ∧
    caught_up r (allocated r) ls ls'.
Proof.
  intros Hs Hl. destruct (Poll_loop_spec r now (allocated r) 0 ls Hs Hl) as (ls' & E & Hl' & Hj).
  { apply allocated_le. }
  exists ls'. split; [exact E|]. split; [done|]. exact Hj.
Qed.

(** ** The accesses of a poller that runs alone *)

Lemma run_app a b w : run (a ++ b) w = run a w ≫= run b.
Proof.
  unfold run. rewrite foldl_app. generalize (foldl (λ o x, o ≫= step x) (Some w) a). intros [w'|]; [done|].
  simpl. induction b as [|x b IH]; [done|exact IH].
Qed.

Lemma run_snoc a x w : run (a ++ [x]) w = run a w ≫= step x.
Proof. rewrite run_app. by destruct (run a w). Qed.

Lemma loads_S k w : loads (S k) w = load_step w ≫= loads k.
Proof. unfold loads. change (replicate (S k) ALoad) with ([ALoad] ++ replicate k ALoad). by rewrite run_app. Qed.

Lemma loads_add j k w : loads (j + k) w = loads j w ≫= loads k.
Proof. unfold loads. by rewrite replicate_add, run_app. Qed.

Lemma loads_trans j k w w' w'' : loads j w = Some w' → loads k w' = Some w'' → loads (j + k) w = Some w''.
Proof. intros H1 H2. by rewrite loads_add, H1. Qed.

(** The scan for the NUL: [e] more characters, then the copy starts. *)
Lemma loads_len w n now i ns s k :
  poller w = PLen n now i ns k → slots (region w) !! i = Some s → length (slot_message s) = message_size →
  (k ≤ message_size)%nat →
  let e := strnlen (message_size - k) (drop k (slot_message s)) in
  loads (S e) w = Some (with_poller (PCopy n now i ns (k + e) []) w).
Proof.
  intros Hp Hs Hm Hk. cbv zeta. remember (message_size - k)%nat as d eqn:Hd. revert w k Hp Hs Hk Hd.
  induction d as [|d IH]; intros w k Hp Hs Hk Hd; rewrite loads_S; unfold load_step; rewrite Hp.
  - destruct (Nat.ltb_spec k message_size); [lia|]. simpl. by rewrite Nat.add_0_r.
  - destruct (Nat.ltb_spec k message_size); [|lia]. rewrite Hs. simpl.
    destruct (lookup_lt_is_Some_2 (slot_message s) k ltac:(lia)) as [c Ec].
    rewrite Ec, (drop_S _ _ _ Ec). simpl. destruct (Z.eqb_spec c 0).
    + simpl. by rewrite Nat.add_0_r.
    + rewrite (IH (with_poller _ w) (S k)) by (first [done|lia]). simpl.
      unfold with_poller. simpl. do 3 f_equal. lia.
Qed.

(** The copy of the remaining characters, then the delivery. *)
Lemma loads_copy w n now i ns s len a :
  poller w = PCopy n now i ns len (take a (slot_message s)) → slots (region w) !! i = Some s →
  (a ≤ len ≤ length (slot_message s))%nat →
  loads (S (len - a)) w =
  Some (mkWorld (region w) (last_seq w) (writers w) (PSlot n now (S i))
          (cues w ++ [mkCue i ns (take len (slot_message s)) now])).
Proof.
  intros Hp Hs Ha. remember (len - a)%nat as d eqn:Hd. revert w a Hp Hs Ha Hd.
  induction d as [|d IH]; intros w a Hp Hs Ha Hd; rewrite loads_S; unfold load_step; rewrite Hp, length_take_le by lia.
  - destruct (Nat.ltb_spec a len); [lia|]. simpl. by replace a with len by lia.
  - destruct (Nat.ltb_spec a len); [|lia]. rewrite Hs. simpl.
    destruct (lookup_lt_is_Some_2 (slot_message s) a ltac:(lia)) as [c Ec]. rewrite Ec. simpl.
    by rewrite (IH (with_poller _ w) (S a)) by (simpl; first [done|by erewrite take_S_r|lia]).
Qed.

(** One slot: at most 100 accesses. *)
Lemma loads_slot w n now i s l :
  poller w = PSlot n now i → (i < n)%nat → slots (region w) !! i = Some s → last_seq w !! i = Some l →
  length (slot_message s) = message_size →
  ∃ k, (k ≤ 100)%nat ∧ loads k w = Some (
    if slot_seq s =? l then with_poller (PSlot n now (S i)) w
    else mkWorld (region w) (<[i := slot_seq s]> (last_seq w)) (writers w) (PSlot n now (S i))
           (cues w ++ [mkCue i (slot_sent_ns s) (slot_string (slot_message s)) now])).
Proof.
  intros Hp Hi Hs Hl Hm.
  assert (∀ w', loads 1 w = Some w' ↔ load_step w = Some w') as H1.
  { intros w'. rewrite loads_S. by destruct (load_step w). }
  assert (load_step w = Some (
    if slot_seq s =? l then with_poller (PSlot n now (S i)) w
    else mkWorld (region w) (<[i := slot_seq s]> (last_seq w)) (writers w) (PNs n now i) (cues w))) as E1.
  { unfold load_step. rewrite Hp. destruct (Nat.ltb_spec i n); [|lia]. by rewrite Hs; simpl; rewrite Hl. }
  destruct (slot_seq s =? l).
  { exists 1%nat. split; [lia|]. by apply H1. }
  set (w1 := mkWorld _ _ _ _ _) in E1. set (e := strnlen message_size (slot_message s)).
  assert (e ≤ message_size)%nat as He by apply strnlen_le.
  exists (1 + (1 + (S e + S (e - 0))))%nat. split; [unfold message_size in *; lia|].
  eapply loads_trans; [by apply H1|].
  eapply (loads_trans 1 _ w1 (with_poller (PLen n now i (slot_sent_ns s) 0) w1)).
  { rewrite loads_S. unfold load_step. simpl. by rewrite Hs. }
  eapply loads_trans.
  { pose proof (loads_len (with_poller (PLen n now i (slot_sent_ns s) 0) w1) n now i (slot_sent_ns s) s 0) as H.
    cbv zeta in H. rewrite drop_0, Nat.sub_0_r in H. apply H; [done|done|done|lia]. }
  fold e. by rewrite (loads_copy _ n now i (slot_sent_ns s) s e 0) by (first [done|simpl; lia]).
Qed.

(** Undisturbed, a poll ends, and does what [Poll] does. *)
Lemma loads_loop k w n now i ls' out :
  poller w = PSlot n now i → (i + k = n)%nat → region_wf (region w) (last_seq w) → (n ≤ kMemMaxSlots)%nat →
  Poll_loop (region w) now k i (last_seq w) = Ok (ls', out) →
  ∃ m, (m ≤ 100 * k + 1)%nat ∧ loads m w = Some (mkWorld (region w) ls' (writers w) PIdle (cues w ++ out)).
Proof.
  revert w i ls' out. induction k as [|k IH]; intros w i ls' out Hp Hi (Hs & Hl & Hm) Hn HP.
  - exists 1%nat. split; [lia|]. injection HP as <- <-. rewrite loads_S. unfold load_step. rewrite Hp.
    destruct (Nat.ltb_spec i n); [lia|]. simpl. by rewrite app_nil_r.
  - destruct (lookup_lt_is_Some_2 (slots (region w)) i ltac:(lia)) as [s Es].
    destruct (lookup_lt_is_Some_2 (last_seq w) i ltac:(lia)) as [l El].
    destruct (loads_slot w n now i s l Hp ltac:(lia) Es El (Hm _ _ Es)) as (j & Hj & E).
    simpl in HP. unfold nth_of in HP. rewrite Es, El in HP. simpl in HP.
    destruct (slot_seq s =? l).
    + destruct (IH (with_poller (PSlot n now (S i)) w) (S i) ls' out) as (m & Hm' & Em); simpl; try done; [lia|].
      exists (j + m)%nat. split; [lia|]. by eapply loads_trans.
    + destruct (Poll_loop _ _ _ _ _) as [[ls2 out2]|] eqn:EP; [|done]. injection HP as <- <-.
      match type of E with _ = Some ?w1 => destruct (IH w1 (S i) ls2 out2) as (m & Hm' & Em) end; simpl; try done;
        [lia|split_and!; [done|by rewrite length_insert|done]|].
      exists (j + m)%nat. split; [lia|]. simpl in Em. rewrite <- app_assoc in Em. by eapply loads_trans.
Qed.

Lemma poll_alone w now :
  poller w = PIdle → region_wf (region w) (last_seq w) →
  ∃ m ls', (m ≤ 100 * kMemMaxSlots + 1)%nat ∧
    Poll (region w) now (last_seq w) =
      Ok (ls', omap (new_cue (region w) (last_seq w) now) (seq 0 (allocated (region w)))) ∧
    caught_up (region w) (allocated (region w)) (last_seq w) ls' ∧
    run (APoll now :: replicate m ALoad) w =
      Some (mkWorld (region w) ls' (writers w) PIdle
              (cues w ++ omap (new_cue (region w) (last_seq w) now) (seq 0 (allocated (region w))))).
Proof.
  intros Hp Hwf. pose proof Hwf as (Hs & Hl & _). pose proof (allocated_le (region w)) as Hn.
  destruct (Poll_spec (region w) now (last_seq w) Hs Hl) as (ls' & EP & Hc).
  destruct (loads_loop (allocated (region w)) (with_poller (PSlot (allocated (region w)) now 0) w)
              (allocated (region w)) now 0 ls' _ eq_refl eq_refl Hwf Hn EP) as (m & Hm & E).
  exists m, ls'. split_and!; [lia|done|done|].
  change (APoll now :: replicate m ALoad) with ([APoll now] ++ replicate m ALoad). rewrite run_app.
  change (run [APoll now] w) with (step (APoll now) w). unfold step. rewrite Hp. exact E.
Qed.

(** ** The invariant of senders and pollers *)

(** The writes begun by the [t]-th sender. *)
Definition begun (t : nat) (a : Action) : option (Z * list Z) :=
  match a with ABegin t' ns msg => if decide (t' = t) then Some (ns, msg) else None | _ => None end.

Definition hist (t : nat) (acts : list Action) : list (Z * list Z) := omap (begun t) acts.

(** The stores that the owner of slot [t] has left. *)
Definition todo (w : World) (t : nat) : list Access :=
  match writers w !! t with Some x => w_todo x | None => [] end.

(** Slot [s] of a sender with history [h]: between writes it holds the last
    one; during a write, what the stores made so far left. *)
Definition slot_ok (h : list (Z * list Z)) (td : list Access) (s : MemCueSlot) : Prop :=
  length (slot_message s) = message_size ∧
  match td with
  | [] => slot_seq s = Z.of_nat (length h) ∧
      ∀ ns msg, last h = Some (ns, msg) →
        slot_sent_ns s = ns ∧ slot_string (slot_message s) = cue_text msg
  | _ => slot_seq s + 1 = Z.of_nat (length h) ∧
      ∃ ns msg fin s0, last h = Some (ns, msg) ∧ WriteCue ns msg = fin ++ td ∧
        s = accesses fin s0 ∧ length (slot_message s0) = message_size ∧ slot_seq s0 = slot_seq s
  end.

(** The number of cues delivered for slot [i]; whether one is being read. *)
Definition delivered (i : nat) (w : World) : Z := countb (λ c, slot_idx c =? i)%nat (cues w).

Definition reading (p : Poller) (i : nat) : Z :=
  match p with
  | PNs _ _ j | PLen _ _ j _ _ | PCopy _ _ j _ _ _ => b2z (j =? i)%nat
  | _ => 0
  end.

(** The poller stays inside the arrays. *)
Definition poller_ok (w : World) : Prop :=
  match poller w with
  | PIdle => True
  | PSlot n _ _ => (n ≤ allocated (region w))%nat
  | PNs n _ i => (i < n ≤ allocated (region w))%nat
  | PLen n _ i _ k => (i < n ≤ allocated (region w))%nat ∧ (k ≤ message_size)%nat
  | PCopy n _ i _ len acc => (i < n ≤ allocated (region w))%nat ∧ (length acc ≤ len ≤ message_size)%nat
  end.

Record Inv (acts : list Action) (w : World) : Prop := {
  inv_next : 0 ≤ next_slot (region w) ≤ Z.of_nat (length acts);
  inv_wf : region_wf (region w) (last_seq w);
  inv_writers : length (writers w) = allocated (region w);
  inv_owner : ∀ t x, writers w !! t = Some x → w_slot x = t;
  inv_slot : ∀ t s, slots (region w) !! t = Some s → slot_ok (hist t acts) (todo w t) s;
  inv_poller : poller_ok w;
  inv_count : ∀ i l, last_seq w !! i = Some l → delivered i w + reading (poller w) i ≤ l;
  inv_seen : ∀ i l s, last_seq w !! i = Some l → slots (region w) !! i = Some s → l ≤ slot_seq s;
  inv_cues : ∀ c, c ∈ cues w → (slot_idx c < allocated (region w))%nat
}.

(** ** Small facts *)

Lemma hist_snoc t acts a : hist t (acts ++ [a]) = hist t acts ++ (match begun t a with Some x => [x] | None => [] end).
Proof. unfold hist. rewrite omap_app. cbn. by destruct (begun t a). Qed.

Lemma hist_same t acts a : begun t a = None → hist t (acts ++ [a]) = hist t acts.
Proof. intros H. by rewrite hist_snoc, H, app_nil_r. Qed.

Lemma hist_length t acts : (length (hist t acts) ≤ length acts)%nat.
Proof. unfold hist. induction acts as [|a acts IH]; [done|]. cbn. destruct (begun t a); cbn; lia. Qed.

Lemma todo_nil w t : (length (writers w) ≤ t)%nat → todo w t = [].
Proof. intros H. unfold todo. by rewrite lookup_ge_None_2. Qed.

Lemma delivered_snoc i cs c :
  countb (λ x, slot_idx x =? i)%nat (cs ++ [c]) = countb (λ x, slot_idx x =? i)%nat cs + b2z (slot_idx c =? i)%nat.
Proof.
  induction cs as [|x cs IH]; simpl; [lia|]. rewrite IH. lia.
Qed.

Lemma allocated_next r : 0 ≤ next_slot r → Z.of_nat (allocated r) = Z.min (next_slot r) 256.
Proof. intros H. unfold allocated, kMemMaxSlots in *. destruct (Z.ltb_spec (Z.of_nat 256) (next_slot r)); lia. Qed.

(** The invariant does not depend on actions that begin no write. *)
Lemma slot_ok_snoc acts a t td s : begun t a = None → slot_ok (hist t acts) td s → slot_ok (hist t (acts ++ [a])) td s.
Proof. intros H. by rewrite hist_same. Qed.

Lemma world0_inv : Inv [] world0.
Proof.
  assert (∀ t s, slots (region world0) !! t = Some s → s = MemCueSlot_new) as Hs by by intros t s [-> _]%lookup_replicate.
  assert (∀ t l, last_seq world0 !! t = Some l → l = 0) as Hl by by intros t l [-> _]%lookup_replicate.
  split.
  - done.
  - split_and!; [apply length_replicate|apply length_replicate|]. intros i s ->%Hs. apply length_replicate.
  - done.
  - by intros [|t] x.
  - intros t s ->%Hs. split; [apply length_replicate|done].
  - done.
  - by intros i l ->%Hl.
  - by intros i l s ->%Hl ->%Hs.
  - intros c Hc. by apply elem_of_nil in Hc.
Qed.

(** ** Senders *)

Lemma inv_alloc acts w w' :
  Inv acts w → Z.of_nat (length (acts ++ [AAlloc])) < 2 ^ 32 → step AAlloc w = Some w' → Inv (acts ++ [AAlloc]) w'.
Proof.
  intros [Hn Hwf Hw Ho Hsl Hp Hc Hs Hcu] Hlen. rewrite length_app in Hlen. simpl in Hlen.
  unfold step, AllocSlot. intros [= <-].
  set (r' := mkRegion _ _).
  assert (next_slot r' = next_slot (region w) + 1) as En by (unfold r'; simpl; rewrite u32_small by lia; done).
  assert (allocated (region w) ≤ allocated r')%nat as Hal.
  { pose proof (allocated_next (region w)). pose proof (allocated_next r'). lia. }
  assert (∀ t, todo (mkWorld r' (last_seq w) (if next_slot (region w) <? Z.of_nat kMemMaxSlots
      then writers w ++ [mkWriter (Z.to_nat (next_slot (region w))) []] else writers w) (poller w) (cues w)) t = todo w t) as Ht.
  { intros t. unfold todo. simpl. destruct (_ <? _); [|done].
    destruct (decide (t < length (writers w))%nat); [by rewrite lookup_app_l|].
    rewrite lookup_app_r, (lookup_ge_None_2 (writers w)) by lia. by destruct (t - length (writers w))%nat as [|[]]. }
  pose proof (allocated_next (region w) ltac:(lia)) as A1. pose proof (allocated_next r' ltac:(lia)) as A2.
  replace (match (if next_slot (region w) <? Z.of_nat kMemMaxSlots then Some (Z.to_nat (next_slot (region w))) else None)
    with Some i => writers w ++ [mkWriter i []] | None => writers w end)
    with (if next_slot (region w) <? Z.of_nat kMemMaxSlots
      then writers w ++ [mkWriter (Z.to_nat (next_slot (region w))) []] else writers w) by by destruct (_ <? _).
  assert (slots r' = slots (region w)) as Esl by done. clearbody r'.
  split; simpl; rewrite ?length_app, ?Esl; simpl.
  - lia.
  - by unfold region_wf in *; rewrite Esl.
  - unfold kMemMaxSlots. destruct (Z.ltb_spec (next_slot (region w)) (Z.of_nat 256)); rewrite ?length_app; simpl; lia.
  - intros t x. unfold kMemMaxSlots. destruct (Z.ltb_spec (next_slot (region w)) (Z.of_nat 256)); [|apply Ho].
    intros [Hx|[Ht' Hx]]%lookup_app_Some; [by apply Ho|]. apply list_lookup_singleton_Some in Hx as [E <-]. simpl. lia.
  - intros t s Es. rewrite Ht. apply slot_ok_snoc; [done|]. by apply Hsl.
  - unfold poller_ok in *. simpl. destruct (poller w); try done; lia.
  - exact Hc.
  - exact Hs.
  - intros c Hin. specialize (Hcu c Hin). lia.
Qed.

Lemma inv_begin acts t ns msg w w' :
  Inv acts w → step (ABegin t ns msg) w = Some w' → Inv (acts ++ [ABegin t ns msg]) w'.
Proof.
  intros [Hn Hwf Hw Ho Hsl Hp Hc Hs Hcu]. unfold step.
  destruct (writers w !! t) as [[i []]|] eqn:Et; try done. intros [= <-].
  pose proof (Ho t _ Et) as Ei. simpl in Ei. subst i.
  split; simpl; try done.
  - rewrite length_app. simpl. lia.
  - by rewrite length_insert.
  - intros u x. rewrite list_lookup_insert_Some. intros [(-> & <- & _)|[_ Hx]]; [done|by apply Ho].
  - intros u s Es. unfold todo. simpl. specialize (Hsl u s Es). unfold todo in Hsl. destruct (decide (u = t)) as [->|Hu].
    + rewrite list_lookup_insert_eq by (by eapply lookup_lt_Some). rewrite Et in Hsl. destruct Hsl as [Hm [Hq _]].
      rewrite hist_snoc. simpl. rewrite decide_True by done. unfold slot_ok. rewrite length_app, last_snoc. simpl.
      split; [done|]. split; [lia|]. by exists ns, msg, [], s.
    + rewrite list_lookup_insert_ne by done. apply slot_ok_snoc; [|exact Hsl]. simpl. by rewrite decide_False.
Qed.

(** One more store of a write in progress. *)
Lemma slot_ok_access h a td s :
  Z.of_nat (length h) < 2 ^ 32 → slot_ok h (a :: td) s → slot_ok h td (access a s) ∧ slot_seq s ≤ slot_seq (access a s).
Proof.
  intros Hlen [Hm (Hq & ns & msg & fin & s0 & Hlast & HW & -> & Hm0 & Hq0)].
  destruct (WriteCue_body ns msg) as (body & Eb & Hb).
  assert (access a (accesses fin s0) = accesses (fin ++ [a]) s0) as Ea by by rewrite accesses_app.
  destruct td as [|b td].
  - rewrite Ea, <- HW. destruct (WriteCue_spec ns msg s0 Hm0) as (Q & N & T).
    assert (0 ≤ slot_seq s0) as Hpos.
    { destruct h; [done|]. simpl in Hq. lia. }
    rewrite u32_small in Q by lia. split; [|lia]. split; [by rewrite accesses_length|]. split; [lia|].
    intros ns' msg' E. rewrite Hlast in E. injection E as <- <-. done.
  - assert (is_bump a = false) as Hbump.
    { rewrite Eb in HW. assert (∃ r, a :: b :: td = r ++ [Bump] ∧ body = fin ++ r) as (r & Er & Hr).
      { destruct (exists_last (l := a :: b :: td) ltac:(done)) as (r & x & Er). rewrite Er, app_assoc in HW.
        apply app_inj_tail in HW as [HW1 HW2]. exists r. by subst x. }
      destruct r as [|y r]; [done|]. injection Er as <- _. rewrite Hr in Hb.
      apply Forall_app in Hb as [_ Hb]. by inversion Hb. }
    assert (slot_seq (access a (accesses fin s0)) = slot_seq (accesses fin s0)) as Hsq by by destruct a.
    split; [|lia]. split; [by rewrite access_length|]. rewrite Hsq. split; [done|].
    exists ns, msg, (fin ++ [a]), s0. split_and!; try done. by rewrite <- app_assoc.
Qed.

Lemma inv_store acts t w w' :
  Inv acts w → Z.of_nat (length (acts ++ [AStore t])) < 2 ^ 32 → step (AStore t) w = Some w' → Inv (acts ++ [AStore t]) w'.
Proof.
  intros [Hn Hwf Hw Ho Hsl Hp Hc Hs Hcu] Hlen. rewrite length_app in Hlen. simpl in Hlen. unfold step.
  destruct (writers w !! t) as [[i [|a td]]|] eqn:Et; try done.
  pose proof (Ho t _ Et) as Ei. simpl in Ei. subst i.
  destruct (slots (region w) !! t) as [s|] eqn:Es; [|done]. intros [= <-].
  pose proof (Hsl t s Es) as Ht. unfold todo in Ht. rewrite Et in Ht. simpl in Ht.
  pose proof (hist_length t acts) as Hh.
  assert (Z.of_nat (length (hist t acts)) < 2 ^ 32) as Hh32 by lia.
  destruct (slot_ok_access _ _ _ _ Hh32 Ht) as [Hok Hle].
  assert (∀ u x, <[t := access a s]> (slots (region w)) !! u = Some x →
    ∃ y, slots (region w) !! u = Some y ∧ slot_seq y ≤ slot_seq x ∧ length (slot_message x) = length (slot_message y)) as Hold.
  { intros u x. rewrite list_lookup_insert_Some. intros [(-> & <- & _)|[_ Hx]].
    - exists s. by rewrite access_length.
    - by exists x. }
  destruct Hwf as (W1 & W2 & W3). split; simpl; try done.
  - rewrite length_app. simpl. lia.
  - split_and!; simpl; [by rewrite length_insert|done|]. intros u x Hx. destruct (Hold u x Hx) as (y & Hy & _ & ->). by eapply W3.
  - by rewrite length_insert.
  - intros u x. rewrite list_lookup_insert_Some. intros [(-> & <- & _)|[_ Hx]]; [done|by apply Ho].
  - intros u x Hx. unfold todo. simpl. destruct (decide (u = t)) as [->|Hu].
    + rewrite list_lookup_insert_eq in Hx by (by eapply lookup_lt_Some). injection Hx as <-.
      rewrite list_lookup_insert_eq by (by eapply lookup_lt_Some). by apply slot_ok_snoc.
    + rewrite list_lookup_insert_ne in Hx by done. rewrite list_lookup_insert_ne by done.
      apply slot_ok_snoc; [done|]. by apply Hsl.
  - intros u l x Hl Hx. destruct (Hold u x Hx) as (y & Hy & Hq & _). specialize (Hs u l y Hl Hy). lia.
Qed.

(** ** Pollers *)

Lemma inv_poll acts now w w' : Inv acts w → step (APoll now) w = Some w' → Inv (acts ++ [APoll now]) w'.
Proof.
  intros [Hn Hwf Hw Ho Hsl Hp Hc Hs Hcu]. unfold step. destruct (poller w) eqn:Ep; try done. intros [= <-].
  split; simpl; try done.
  - rewrite length_app. simpl. lia.
  - intros t s Es. apply slot_ok_snoc; [done|]. by apply Hsl.
  - unfold poller_ok. simpl. lia.
Qed.

(** A poller that is not idle never leaves the arrays. *)
Lemma load_possible acts w : Inv acts w → poller w ≠ PIdle → is_Some (load_step w).
Proof.
  intros [_ (W1 & W2 & W3) _ _ _ Hp _ _ _] Hi. pose proof (allocated_le (region w)) as Hal.
  assert (∀ i, (i < allocated (region w))%nat → ∃ s, slots (region w) !! i = Some s ∧ length (slot_message s) = message_size) as Hsl.
  { intros i Hlt. destruct (lookup_lt_is_Some_2 (slots (region w)) i ltac:(lia)) as [s Es]. eauto. }
  unfold load_step, poller_ok in *. destruct (poller w) as [|n now i|n now i|n now i ns k|n now i ns len acc]; [done|..].
  - destruct (Nat.ltb_spec i n); [|eauto]. destruct (Hsl i ltac:(lia)) as (s & -> & _). simpl.
    destruct (lookup_lt_is_Some_2 (last_seq w) i ltac:(lia)) as [l ->]. simpl. eauto.
  - destruct (Hsl i ltac:(lia)) as (s & -> & _). simpl. eauto.
  - destruct (Nat.ltb_spec k message_size); [|eauto]. destruct (Hsl i ltac:(lia)) as (s & -> & Hm). simpl.
    destruct (lookup_lt_is_Some_2 (slot_message s) k ltac:(lia)) as [c ->]. simpl. eauto.
  - destruct (Nat.ltb_spec (length acc) len); [|eauto]. destruct (Hsl i ltac:(lia)) as (s & -> & Hm). simpl.
    destruct (lookup_lt_is_Some_2 (slot_message s) (length acc) ltac:(lia)) as [c ->]. simpl. eauto.
Qed.

(** An access that only moves the poller on. *)
Lemma inv_move acts w p :
  Inv acts w → poller_ok (with_poller p w) → (∀ i, reading p i ≤ reading (poller w) i) →
  Inv (acts ++ [ALoad]) (with_poller p w).
Proof.
  intros [Hn Hwf Hw Ho Hsl Hp Hc Hs Hcu] Hp' Hr. split; simpl; try done.
  - rewrite length_app. simpl. lia.
  - intros t s Es. apply slot_ok_snoc; [done|]. by apply Hsl.
  - intros i l Hl. specialize (Hc i l Hl). specialize (Hr i). unfold delivered in *. simpl. lia.
Qed.

(** A new sequence number is claimed. *)
Lemma inv_claim acts w n now i s l :
  Inv acts w → poller w = PSlot n now i → (i < n)%nat → slots (region w) !! i = Some s → last_seq w !! i = Some l →
  slot_seq s ≠ l →
  Inv (acts ++ [ALoad]) (mkWorld (region w) (<[i := slot_seq s]> (last_seq w)) (writers w) (PNs n now i) (cues w)).
Proof.
  intros [Hn (W1 & W2 & W3) Hw Ho Hsl Hp Hc Hs Hcu] Ep Hi Es El Hne. split; simpl; try done.
  - rewrite length_app. simpl. lia.
  - split_and!; simpl; [done|by rewrite length_insert|done].
  - intros t x Ex. apply slot_ok_snoc; [done|]. by apply Hsl.
  - unfold poller_ok in *. rewrite Ep in Hp. simpl. lia.
  - intros j k. rewrite list_lookup_insert_Some. unfold delivered in *. rewrite Ep in Hc. simpl.
    intros [(<- & <- & _)|[Hj Hk]].
    + specialize (Hc i l El). specialize (Hs i l s El Es). rewrite Nat.eqb_refl. simpl in *. lia.
    + specialize (Hc j k Hk). simpl in Hc. destruct (Nat.eqb_spec i j); [done|]. simpl. lia.
  - intros j k x. rewrite list_lookup_insert_Some. intros [(<- & <- & _)|[Hj Hk]] Hx; [|by eapply Hs].
    rewrite Es in Hx. injection Hx as <-. lia.
Qed.

(** The cue being read is delivered. *)
Lemma inv_deliver acts w n now i ns len acc :
  Inv acts w → poller w = PCopy n now i ns len acc →
  Inv (acts ++ [ALoad]) (mkWorld (region w) (last_seq w) (writers w) (PSlot n now (S i)) (cues w ++ [mkCue i ns acc now])).
Proof.
  intros [Hn Hwf Hw Ho Hsl Hp Hc Hs Hcu] Ep. unfold poller_ok in Hp. rewrite Ep in Hp, Hc. split; simpl; try done.
  - rewrite length_app. simpl. lia.
  - intros t x Ex. apply slot_ok_snoc; [done|]. by apply Hsl.
  - unfold poller_ok. simpl. lia.
  - intros j k Hk. specialize (Hc j k Hk). unfold delivered in *. simpl in *. rewrite delivered_snoc. simpl. lia.
  - intros c. rewrite elem_of_app, list_elem_of_singleton. intros [Hin| ->]; [by apply Hcu|]. simpl. lia.
Qed.

Lemma inv_load acts w w' : Inv acts w → step ALoad w = Some w' → Inv (acts ++ [ALoad]) w'.
Proof.
  intros Hinv. pose proof Hinv as [_ _ _ _ _ Hp _ _ _]. unfold step, load_step, poller_ok in *.
  destruct (poller w) as [|n now i|n now i|n now i ns k|n now i ns len acc] eqn:Ep; [done|..].
  - destruct (Nat.ltb_spec i n).
    + destruct (slots (region w) !! i) as [s|] eqn:Es; [|done]. simpl.
      destruct (last_seq w !! i) as [l|] eqn:El; [|done]. simpl. intros [= <-].
      destruct (Z.eqb_spec (slot_seq s) l); [|by eapply inv_claim].
      apply inv_move; [done|done|]. intros j. by rewrite Ep.
    + intros [= <-]. apply inv_move; [done|done|]. intros j. by rewrite Ep.
  - destruct (slots (region w) !! i) as [s|]; [|done]. simpl. intros [= <-].
    apply inv_move; [done|unfold poller_ok; simpl; lia|]. intros j. by rewrite Ep.
  - destruct (Nat.ltb_spec k message_size).
    + destruct (slots (region w) !! i) as [s|]; [|done]. simpl. destruct (slot_message s !! k) as [c|]; [|done]. simpl.
      intros [= <-]. apply inv_move; [done| |intros j; rewrite Ep; by destruct (c =? 0)].
      unfold poller_ok. destruct (c =? 0); simpl; lia.
    + intros [= <-]. apply inv_move; [done|unfold poller_ok; simpl; lia|]. intros j. by rewrite Ep.
  - destruct (Nat.ltb_spec (length acc) len).
    + destruct (slots (region w) !! i) as [s|]; [|done]. simpl. destruct (slot_message s !! length acc) as [c|]; [|done].
      simpl. intros [= <-]. apply inv_move; [done| |intros j; by rewrite Ep].
      unfold poller_ok. simpl. rewrite length_app. simpl. lia.
    + intros [= <-]. by eapply inv_deliver.
Qed.

(** ** All schedules *)

Lemma run_inv acts w : run acts world0 = Some w → Z.of_nat (length acts) < 2 ^ 32 → Inv acts w.
Proof.
  revert w. induction acts as [|a acts IH] using rev_ind; intros w.
  { intros E _. change (Some world0 = Some w) in E. injection E as <-. apply world0_inv. }
  rewrite run_snoc. destruct (run acts world0) as [w0|]; [|done]. change (Some w0 ≫= step a) with (step a w0).
  intros E Hlen. pose proof Hlen as Hlen'. rewrite length_app in Hlen'. simpl in Hlen'.
  specialize (IH w0 eq_refl ltac:(lia)). destruct a.
  - by eapply inv_alloc.
  - by eapply inv_begin.
  - by eapply inv_store.
  - by eapply inv_poll.
  - by eapply inv_load.
Qed.
