(* ===== verification/MemCueClaims.v ===== *)
(** * MemCueClaims: what the shared-memory cues guarantee, and what they do not *)

From S2P Require Import Prelude Outcome MemCue MemCueSpec.
From stdpp Require Import gmap.
From Stdlib Require Import ZArith Lia.

Local Open Scope Z_scope.

(** The cues of one slot. *)
Definition of_slot (t : nat) (cs : list MemCue) : list MemCue := filter (λ c, slot_idx c = t) cs.

Lemma of_slot_app t a b : of_slot t (a ++ b) = of_slot t a ++ of_slot t b.
Proof. apply filter_app. Qed.

Lemma of_slot_count t cs : Z.of_nat (length (of_slot t cs)) = countb (λ c, slot_idx c =? t)%nat cs.
Proof.
  unfold of_slot. induction cs as [|c cs IH]; [done|]. rewrite filter_cons. simpl.
  destruct (decide (slot_idx c = t)) as [->|E]; simpl; [rewrite Nat.eqb_refl; simpl; lia|].
  destruct (Nat.eqb_spec (slot_idx c) t); [done|]. simpl. lia.
Qed.

Lemma new_cue_slot r ls now i c : new_cue r ls now i = Some c → slot_idx c = i.
Proof.
  unfold new_cue. destruct (slots r !! i); [|done]. simpl. destruct (ls !! i); [|done]. simpl.
  destruct (_ =? _); [done|]. by intros [= <-].
Qed.

(** Of the cues of a poll, those of slot [t] are [new_cue t]. *)
Lemma of_slot_poll r ls now t n :
  (t < n)%nat → of_slot t (omap (new_cue r ls now) (seq 0 n)) = match new_cue r ls now t with Some c => [c] | None => [] end.
Proof.
  assert (∀ i k, of_slot t (omap (new_cue r ls now) (seq i k)) =
    if (i <=? t)%nat && (t <? i + k)%nat then match new_cue r ls now t with Some c => [c] | None => [] end else []) as H.
  { intros i k. revert i. induction k as [|k IH]; intros i.
    - destruct (Nat.leb_spec i t), (Nat.ltb_spec t (i + 0)); simpl; try lia; done.
    - change (seq i (S k)) with (i :: seq (S i) k). cbn [omap list_omap].
      destruct (new_cue r ls now i) as [c|] eqn:E.
      + unfold of_slot in *. rewrite filter_cons, IH. pose proof (new_cue_slot _ _ _ _ _ E) as Hc.
        destruct (decide (slot_idx c = t)) as [Ht|Ht].
        * assert (i = t) as -> by lia. rewrite E.
          destruct (Nat.leb_spec (S t) t), (Nat.leb_spec t t), (Nat.ltb_spec t (t + S k)); simpl; try lia; done.
        * destruct (Nat.leb_spec (S i) t), (Nat.leb_spec i t), (Nat.ltb_spec t (S i + k)), (Nat.ltb_spec t (i + S k));
            simpl; try lia; done.
      + rewrite IH. destruct (decide (i = t)) as [->|Ht].
        * rewrite E. destruct (Nat.leb_spec (S t) t), (Nat.leb_spec t t), (Nat.ltb_spec t (t + S k)); simpl; try lia; done.
        * destruct (Nat.leb_spec (S i) t), (Nat.leb_spec i t), (Nat.ltb_spec t (S i + k)), (Nat.ltb_spec t (i + S k));
            simpl; try lia; done. }
  intros Ht. rewrite H. destruct (Nat.leb_spec 0 t), (Nat.ltb_spec t (0 + n)); simpl; try lia; done.
Qed.

(** ** Senders and pollers *)

(** C23. However senders and pollers interleave, byte by byte: no slot delivers
    more cues than writes were begun to it, only allocated slots deliver any,
    no sequence number claimed is ahead of its slot, and neither a poller nor
    a sender ever leaves an array, so each can take its next step. *)
Theorem mem_cues_at_most_once (acts : list Action) (w : World)
    (Hrun : run acts world0 = Some w) (Hlen : Z.of_nat (length acts) < 2 ^ 32) :
  (∀ t, (length (of_slot t (cues w)) ≤ length (hist t acts))%nat) ∧
  (∀ c, c ∈ cues w → (slot_idx c < length (writers w) ≤ kMemMaxSlots)%nat) ∧
  (∀ i l s, last_seq w !! i = Some l → slots (region w) !! i = Some s → l ≤ slot_seq s) ∧
  (poller w ≠ PIdle → is_Some (step ALoad w)) ∧
  (∀ t, todo w t ≠ [] → is_Some (step (AStore t) w)).
Proof.
  pose proof (run_inv acts w Hrun Hlen) as Hinv.
  pose proof Hinv as [Hn (W1 & W2 & W3) Hw Ho Hsl Hp Hc Hs Hcu]. pose proof (allocated_le (region w)) as Hal.
  assert (∀ t, (t < kMemMaxSlots)%nat → ∃ l s, last_seq w !! t = Some l ∧ slots (region w) !! t = Some s) as Hget.
  { intros t Ht. destruct (lookup_lt_is_Some_2 (last_seq w) t ltac:(lia)) as [l El].
    destruct (lookup_lt_is_Some_2 (slots (region w)) t ltac:(lia)) as [s Es]. eauto. }
  split_and!.
  - intros t. pose proof (of_slot_count t (cues w)) as Hcount. destruct (decide (t < kMemMaxSlots)%nat) as [Ht|Ht].
    + destruct (Hget t Ht) as (l & s & El & Es). specialize (Hc t l El). specialize (Hs t l s El Es).
      destruct (Hsl t s Es) as [_ Hok]. unfold delivered in Hc.
      assert (0 ≤ reading (poller w) t) by (by destruct (poller w); simpl; try done; destruct (_ =? _)%nat).
      assert (slot_seq s ≤ Z.of_nat (length (hist t acts))) by (destruct (todo w t); lia). lia.
    + destruct (of_slot t (cues w)) as [|c cs] eqn:E; [simpl; lia|]. exfalso.
      assert (c ∈ of_slot t (cues w)) as [Ec Hin]%list_elem_of_filter by (rewrite E; by left).
      specialize (Hcu c Hin). lia.
  - intros c Hin. rewrite Hw. split; [by apply Hcu|done].
  - exact Hs.
  - by apply (load_possible acts).
  - intros t Ht. unfold todo in Ht. unfold step.
    destruct (writers w !! t) as [[i [|a td]]|] eqn:Et; try done. pose proof (Ho t _ Et) as Ei. simpl in Ei. subst i.
    apply lookup_lt_Some in Et. destruct (Hget t ltac:(lia)) as (l & s & _ & ->). simpl. eauto.
Qed.

(** Two senders, the second one still in its write when a poll starts. *)
Definition sample_acts : list Action :=
  [AAlloc; AAlloc; ABegin 0 5 [104; 105]; ABegin 1 6 [111; 107]; AStore 0; AStore 1; AStore 0; AStore 0; AStore 1;
   AStore 0; AStore 0; APoll 9; ALoad; AStore 1].

Definition sample_world : World := Eval vm_compute in default world0 (run sample_acts world0).

Lemma sample_run : run sample_acts world0 = Some sample_world.
Proof. by vm_compute. Qed.

Lemma mem_cues_at_most_once_witness : is_Some (step ALoad sample_world) ∧ is_Some (step (AStore 1) sample_world).
Proof.
  pose proof (mem_cues_at_most_once sample_acts sample_world sample_run ltac:(by vm_compute)) as (_ & _ & _ & H1 & H2).
  split; [by apply H1|by apply H2].
Defined.

(** C24. The last cue is never missed: a poll that starts in any reachable state
    ends after at most 25601 accesses if nobody else runs, does exactly what
    [Poll] does, and leaves every sequence number of an allocated slot claimed.
    For a sender between two writes it delivers its last write, with its time
    and its text up to 47 characters, unless a poll has claimed that already. *)
Theorem mem_cue_latest_delivered (acts : list Action) (w : World) (t : nat) (ns : Z) (msg : list Z) (now : Z)
    (Hrun : run acts world0 = Some w) (Hlen : Z.of_nat (length acts) < 2 ^ 32) (Hidle : poller w = PIdle)
    (Hdone : todo w t = []) (Hlast : last (hist t acts) = Some (ns, msg)) (Ht : (t < length (writers w))%nat) :
  ∃ m w' out, (m ≤ 100 * kMemMaxSlots + 1)%nat ∧ run (APoll now :: replicate m ALoad) w = Some w' ∧
    poller w' = PIdle ∧ region w' = region w ∧ cues w' = cues w ++ out ∧
    Poll (region w) now (last_seq w) = Ok (last_seq w', out) ∧
    (∀ i, (i < allocated (region w))%nat → last_seq w' !! i = slot_seq <$> slots (region w) !! i) ∧
    of_slot t out = if bool_decide (last_seq w !! t = Some (Z.of_nat (length (hist t acts)))) then []
                    else [mkCue t ns (cue_text msg) now].
Proof.
  pose proof (run_inv acts w Hrun Hlen) as [Hn Hwf Hw Ho Hsl Hp Hc Hs Hcu].
  destruct (poll_alone w now Hidle Hwf) as (m & ls' & Hm & EP & [_ Hup] & Er).
  do 3 eexists. split_and!; [exact Hm|exact Er|done|done|done|exact EP| |].
  - intros i Hi. rewrite Hup. by destruct (Nat.ltb_spec i (allocated (region w))); [|lia].
  - rewrite Hw in Ht. rewrite of_slot_poll by done. destruct Hwf as (W1 & W2 & _). pose proof (allocated_le (region w)).
    destruct (lookup_lt_is_Some_2 (slots (region w)) t ltac:(lia)) as [s Es].
    destruct (lookup_lt_is_Some_2 (last_seq w) t ltac:(lia)) as [l El].
    destruct (Hsl t s Es) as [_ Hok]. rewrite Hdone in Hok. destruct Hok as [Eq Hlastok].
    destruct (Hlastok ns msg Hlast) as [Ens Etext].
    unfold new_cue. rewrite Es, El. simpl. rewrite Eq, Ens, Etext.
    destruct (Z.eqb_spec (Z.of_nat (length (hist t acts))) l) as [E|E].
    + by rewrite bool_decide_true by congruence.
    + rewrite bool_decide_false by congruence. done.
Qed.

(** The first sender of the sample, once its poll is over. *)
Definition quiet_acts : list Action := take 11 sample_acts.
Definition quiet_world : World := Eval vm_compute in default world0 (run quiet_acts world0).

Lemma mem_cue_latest_delivered_witness :
  ∃ m w', run (APoll 9 :: replicate m ALoad) quiet_world = Some w' ∧ of_slot 0 (cues w') = [mkCue 0 5 [104; 105] 9].
Proof.
  destruct (mem_cue_latest_delivered quiet_acts quiet_world 0 5 [104; 105] 9 ltac:(by vm_compute) ltac:(by vm_compute)
              eq_refl eq_refl eq_refl ltac:(by vm_compute; lia)) as (m & w' & out & _ & Er & _ & _ & Ec & _ & _ & Eo).
  exists m, w'. split; [exact Er|]. rewrite Ec, of_slot_app, Eo. by vm_compute.
Defined.

(** ** One write and one poll *)

(** A cue round trip: whatever the slot held, a write stays inside the
    48-byte message, keeps it terminated, and a poll then reads back its time
    and its text, cut at 47 characters; so does a hint, whose first character
    is the hint byte, while [HINT_NONE] makes the whole text disappear. *)
Theorem mem_cue_roundtrip (r : MemCueRegion) (ls : list Z) (i : nat) (s : MemCueSlot) (ns : Z) (msg : list Z) (now : Z)
    (Hwf : region_wf r ls) (Hi : (i < allocated r)%nat) (Hs : slots r !! i = Some s)
    (Hl : ls !! i ≠ Some (u32 (slot_seq s + 1))) :
  (∀ j b, StByte j b ∈ WriteCue ns msg → (j < message_size)%nat) ∧
  (∃ ls' out, Poll (set_slot i (accesses (WriteCue ns msg) s) r) now ls = Ok (ls', out) ∧
     of_slot i out = [mkCue i ns (cue_text msg) now] ∧ ls' !! i = Some (u32 (slot_seq s + 1))) ∧
  (∀ hint, hint ≠ 0 → WriteHint ns hint msg = WriteCue ns (hint :: msg)) ∧
  slot_string (slot_message (accesses (WriteHint ns HINT_NONE msg) s)) = [].
Proof.
  destruct Hwf as (W1 & W2 & W3). pose proof (W3 i s Hs) as Hm. split_and!.
  - intros j b. unfold WriteCue. pose proof (cue_text_eq msg) as [Ee Ec]. rewrite Ee in Ec.
    rewrite elem_of_cons, elem_of_app. intros [|[Hin|Hin]]; [done|..].
    + apply elem_of_lookup_imap in Hin as (k & c & [= -> ->] & Hk). apply lookup_lt_Some in Hk.
      unfold message_size in *. lia.
    + apply elem_of_cons in Hin as [[= -> ->]|Hin]; [unfold message_size; lia|]. by apply list_elem_of_singleton in Hin.
  - set (s' := accesses _ s). destruct (WriteCue_spec ns msg s Hm) as (Q & N & T). fold s' in Q, N, T.
    set (r' := set_slot i s' r).
    assert (length (slots r') = kMemMaxSlots) as W1' by (simpl; by rewrite length_insert).
    destruct (Poll_spec r' now ls W1' W2) as (ls' & EP & _ & Hup). change (allocated r') with (allocated r) in *.
    pose proof (allocated_le r) as Hal.
    assert (slots r' !! i = Some s') as Es' by (simpl; apply list_lookup_insert_eq; lia).
    exists ls'. eexists. split; [exact EP|]. rewrite of_slot_poll by done. rewrite Hup, Es'.
    destruct (Nat.ltb_spec i (allocated r)); [|lia]. split; [|simpl; by rewrite Q].
    destruct (lookup_lt_is_Some_2 ls i ltac:(lia)) as [l El].
    unfold new_cue. rewrite Es', El. simpl. rewrite Q, N, T.
    destruct (Z.eqb_spec (u32 (slot_seq s + 1)) l) as [<-|]; [congruence|done].
  - intros hint. apply WriteHint_cue.
  - assert (slot_message (accesses (WriteHint ns HINT_NONE msg) s) !! 0%nat = Some 0) as H0.
    { unfold WriteHint. rewrite !accesses_cons. set (s1 := access _ (access _ s)).
      assert (slot_message s1 !! 0%nat = Some 0) as H1.
      { simpl. apply list_lookup_insert_eq. rewrite Hm. unfold message_size. lia. }
      assert (∀ l x, Forall (λ a, match a with StByte 0 _ => False | _ => True end) l →
        slot_message x !! 0%nat = Some 0 → slot_message (accesses l x) !! 0%nat = Some 0) as Hkeep.
      { induction l as [|a l IH]; intros x Hl0 Hx; [done|]. inversion Hl0; subst. rewrite accesses_cons. apply IH; [done|].
        destruct a as [|[|j]|]; simpl; try done. by rewrite list_lookup_insert_ne. }
      apply Hkeep; [|exact H1]. apply Forall_app. split; [|by repeat constructor].
      apply Forall_lookup. intros k a. rewrite list_lookup_imap. destruct (_ !! k); [|done]. by intros [= <-]. }
    unfold slot_string. destruct (slot_message (accesses _ s)) as [|c m]; [done|]. injection H0 as ->. done.
Qed.

Lemma mem_cue_roundtrip_witness :
  ∃ ls' out, Poll (set_slot 0 (accesses (WriteCue 7 [104; 105]) MemCueSlot_new) (mkRegion 1 (slots MemCueRegion_new))) 9
     MemCuePoll_new = Ok (ls', out) ∧ of_slot 0 out = [mkCue 0 7 [104; 105] 9].
Proof.
  destruct (mem_cue_roundtrip (mkRegion 1 (slots MemCueRegion_new)) MemCuePoll_new 0 MemCueSlot_new 7 [104; 105] 9)
    as (_ & (ls' & out & E & Eo & _) & _).
  - split_and!; [done|done|]. intros i s [-> _]%lookup_replicate. done.
  - by vm_compute; lia.
  - done.
  - done.
  - exists ls', out. split; [exact E|exact Eo].
Defined.

(** ** What goes wrong *)

Definition texts (w : World) : list (list Z) := cue_message <$> cues w.
Definition stores (n : nat) : list Action := replicate n (AStore 0).
Definition write_a : list Action := ABegin 0 1 [97; 97] :: stores 5.
Definition write_b : list Action := ABegin 0 2 [98; 98] :: stores 5.

(** A schedule that ends with no write and no poll in progress. *)
Definition settles (acts : list Action) (Q : World → Prop) : Prop :=
  ∃ w, run acts world0 = Some w ∧ poller w = PIdle ∧ todo w 0 = [] ∧
    hist 0 acts = [(1, [97; 97]); (2, [98; 98])] ∧ Q w.

(** Delivery is not exactly once: of two writes to a slot, "aa" and then
    "bb", a schedule loses the first one; another delivers the second one twice
    and the first never, because the poller reads the message only after it has
    claimed the older sequence number; a third delivers "ba", which nobody
    wrote. *)
Theorem mem_cue_not_exactly_once :
  (∃ acts, settles acts (λ w, texts w = [[98; 98]])) ∧
  (∃ acts, settles acts (λ w, texts w = [[98; 98]; [98; 98]])) ∧
  (∃ acts, settles acts (λ w, texts w = [[98; 97]; [98; 98]])).
Proof.
  split_and!.
  - exists (AAlloc :: write_a ++ write_b ++ APoll 9 :: replicate 9 ALoad). eexists. by vm_compute.
  - exists (AAlloc :: write_a ++ APoll 9 :: ALoad :: write_b ++ replicate 8 ALoad ++ APoll 10 :: replicate 9 ALoad).
    eexists. by vm_compute.
  - exists (AAlloc :: write_a ++ APoll 9 :: ALoad :: take 3 write_b ++ replicate 8 ALoad ++ stores 3 ++
            APoll 10 :: replicate 9 ALoad).
    eexists. by vm_compute.
Qed.
