(* ===== verification/IpcCue.v ===== *)
(** * IpcCue: the socket cues of the cfs_ipc agent

    schedulers/cfs_ipc/cfs_ipc_scheduler.h and .cc: one listener thread reads a
    line from each connection and pushes it on a queue, which the agent threads
    drain under the same mutex; the sender of test_ghost_sender.cc. *)

From S2P Require Import Prelude.
From stdpp Require Import gmap.
From Stdlib Require Import ZArith Lia.

Local Open Scope Z_scope.

Record IpcCue := mkIpcCue {
  ipc_message : list Z;
  received_at : Z
}.

(** [IpcCueQueue]: the deque. *)
Definition Push (now : Z) (message : list Z) (q : list IpcCue) : list IpcCue := q ++ [mkIpcCue message now].

(** [Drain]: the number drained, an [int]; [out] with the cues; the queue. *)
Definition Drain (q out : list IpcCue) : Z * list IpcCue * list IpcCue :=
  (s32 (Z.of_nat (length q)), out ++ q, []).

(** [while (read(client_fd, &c, 1) == 1 && c != '\n') msg += c;] on the bytes
    that [read] delivers before it returns something else than 1. *)
Definition newline : Z := 10.

Fixpoint read_line (bytes : list Z) : list Z :=
  match bytes with
  | [] => []
  | c :: bytes => if c =? newline then [] else c :: read_line bytes
  end.

(** One turn of the listener: the answer of [accept] is a connection, with its
    bytes, or [None] after a timeout. *)
Definition listen_step (now : Z) (client : option (list Z)) (q : list IpcCue) : list IpcCue :=
  match client with
  | None => q
  | Some bytes =>
      match read_line bytes with
      | [] => q
      | msg => Push now msg q
      end
  end.

(** One turn of an agent's loop, before [Schedule]: the cues it prints. *)
Definition agent_step (q : list IpcCue) : list IpcCue * list IpcCue :=
  let '(n, cues, q) := Drain q [] in (if 0 <? n then cues else [], q).

(** The bytes that [SendCue] writes: [suffix] is the printed time stamp. *)
Definition SendCue (msg suffix : list Z) : list Z := msg ++ suffix ++ [newline].

(** The threads in any order: a turn of the listener or of some agent. *)
Inductive Turn :=
| TListen (now : Z) (client : option (list Z))
| TAgent.

Record IpcState := mkIpc {
  cue_queue : list IpcCue;
  printed : list IpcCue
}.

Definition turn (s : IpcState) (t : Turn) : IpcState :=
  match t with
  | TListen now client => mkIpc (listen_step now client (cue_queue s)) (printed s)
  | TAgent => let '(cues, q) := agent_step (cue_queue s) in mkIpc q (printed s ++ cues)
  end.

Definition turns (ts : list Turn) : IpcState := foldl turn (mkIpc [] []) ts.

(** ** What is delivered *)

(** The cue a turn stands for. *)
Definition cue_of (t : Turn) : option IpcCue :=
  match t with
  | TListen now (Some bytes) => match read_line bytes with [] => None | msg => Some (mkIpcCue msg now) end
  | _ => None
  end.

Lemma read_line_app a b : newline ∉ a → read_line (a ++ newline :: b) = a.
Proof.
  induction a as [|c a IH]; intros Ha; [done|]. simpl. apply not_elem_of_cons in Ha as [Hc Ha].
  destruct (Z.eqb_spec c newline); [done|]. by rewrite IH.
Qed.

Lemma read_line_clean bytes : newline ∉ read_line bytes.
Proof.
  induction bytes as [|c bytes IH]; simpl; [by intros ?%elem_of_nil|].
  destruct (Z.eqb_spec c newline); [by intros ?%elem_of_nil|]. by apply not_elem_of_cons.
Qed.

(** Nothing is lost between the queue and the output, while the queue is
    shorter than an [int] can count. *)
Lemma turn_total s t :
  Z.of_nat (length (cue_queue s)) < 2 ^ 31 →
  printed (turn s t) ++ cue_queue (turn s t) =
  printed s ++ cue_queue s ++ match cue_of t with Some c => [c] | None => [] end.
Proof.
  intros Hlen. destruct t as [now [bytes|]|]; simpl.
  - unfold Push. by destruct (read_line bytes); rewrite ?app_nil_r.
  - by rewrite app_nil_r.
  - unfold s32. rewrite Z.mod_small by lia.
    destruct (Z.ltb_spec 0 (Z.of_nat (length (cue_queue s)) + 2 ^ 31 - 2 ^ 31)); simpl; rewrite ?app_nil_r; [done|].
    destruct (cue_queue s); [by rewrite app_nil_r|simpl in *; lia].
Qed.

(** Every non-empty line that a client sends is printed exactly once, in
    the order of arrival, with its time of arrival, however the listener and
    the agents take turns: what has been printed, then what is queued, is the
    list of the lines so far, and a turn of any agent prints all of them. A
    message without a newline arrives whole, with its time stamp; no other
    byte of the connection does. *)
Theorem ipc_cues_exactly_once (ts : list Turn) (Hlen : Z.of_nat (length ts) < 2 ^ 31) :
  printed (turns ts) ++ cue_queue (turns ts) = omap cue_of ts ∧
  printed (turns (ts ++ [TAgent])) = omap cue_of ts ∧
  (∀ now msg suffix rest, newline ∉ msg → newline ∉ suffix → msg ++ suffix ≠ [] →
     cue_of (TListen now (Some (SendCue msg suffix ++ rest))) = Some (mkIpcCue (msg ++ suffix) now)).
Proof.
  assert (∀ us, Z.of_nat (length us) < 2 ^ 31 →
    (length (cue_queue (turns us)) ≤ length us)%nat ∧
    printed (turns us) ++ cue_queue (turns us) = omap cue_of us) as H.
  { induction us as [|u us IH] using rev_ind; intros Hl; [done|]. rewrite length_app in *. simpl in Hl.
    specialize (IH ltac:(lia)) as [Hq IH]. unfold turns in *. rewrite foldl_app. simpl. split.
    - destruct u as [now [bytes|]|]; simpl; [|lia|lia]. unfold Push. destruct (read_line bytes); [lia|].
      rewrite length_app. simpl. lia.
    - rewrite turn_total by lia. rewrite app_assoc, IH, omap_app. by cbn; destruct (cue_of u). }
  destruct (H ts Hlen) as [Hq E]. split_and!; [done| |].
  - unfold turns in *. rewrite foldl_app. simpl. pose proof (turn_total (foldl turn (mkIpc [] []) ts) TAgent ltac:(lia)) as Ht.
    simpl in Ht. by rewrite !app_nil_r, E in Ht.
  - intros now msg suffix rest Hm Hs Hne. unfold SendCue. simpl.
    replace ((msg ++ suffix ++ [newline]) ++ rest) with ((msg ++ suffix) ++ newline :: rest) by by rewrite <- !app_assoc.
    rewrite read_line_app by (rewrite elem_of_app; tauto). by destruct (msg ++ suffix).
Qed.

Lemma ipc_cues_exactly_once_witness :
  printed (turns [TListen 5 (Some [104; 105; 10; 33]); TListen 6 None; TAgent; TListen 7 (Some [111; 107]); TAgent]) =
  [mkIpcCue [104; 105] 5; mkIpcCue [111; 107] 7].
Proof.
  exact (proj1 (proj2 (ipc_cues_exactly_once
    [TListen 5 (Some [104; 105; 10; 33]); TListen 6 None; TAgent; TListen 7 (Some [111; 107])] ltac:(simpl; lia)))).
Defined.
