(* ===== verification/PrioTable.v ===== *)
(** * PrioTable: the table an application shares with the EDF agent

    shared/prio_table.h, shared/prio_table.cc and [SchedParams] of
    schedulers/edf/orchestrator.h.  The table is a region of shared memory: a
    header, the sched items, the work classes and a stream of the indices of
    the items that were updated.  Threads of the application write an item
    under its sequence lock and put its index into the stream; the agent takes
    the indices out and copies the items.

    The accesses to the shared memory are the steps of two machines, one for
    the stream and one for an item, which interleave the threads in any order
    (of a sequentially consistent memory). *)

From S2P Require Import Prelude Outcome.
From stdpp Require Import gmap.
From Stdlib Require Import ZArith Lia.

Local Open Scope Z_scope.

(** ** The layout of the region *)

Record ghost_shmem_hdr := mkHdr {
  hdr_version : Z;
  hdrlen : Z;
  maplen : Z;
  si_num : Z;
  si_off : Z;
  wc_num : Z;
  wc_off : Z;
  st_cap : Z;
  st_off : Z
}.

Section layout.
(** [ABSL_CACHELINE_SIZE], which depends on the processor. *)
Context (cacheline : Z).

(** The size of a struct of [n] bytes that is [ABSL_CACHELINE_ALIGNED]. *)
Definition cacheline_aligned (n : Z) : Z := (n + cacheline - 1) / cacheline * cacheline.

Definition sizeof_hdr : Z := cacheline_aligned (2 + 2 + 7 * 4).
Definition sizeof_sched_item : Z := cacheline_aligned (4 + 4 + 8 + 4 + 4 + 8).
Definition sizeof_work_class : Z := cacheline_aligned (4 + 4 + 4 + 4 + 8 + 8).
Definition sizeof_atomic_int : Z := 4.
Definition sizeof_stream : Z := sizeof_atomic_int.

(** [size_t] has 64 bits. *)
Definition shmem_size (sched_items work_classes stream_capacity : Z) : outcome Z :=
  let sz := 0 in
  let sz := u64 (sz + sizeof_hdr) in
  let sz := u64 (sz + u64 (sizeof_sched_item * sched_items)) in
  let sz := u64 (sz + u64 (sizeof_work_class * work_classes)) in
  checkO (sz mod cacheline =? 0) ≫= λ _,
  Ok (u64 (sz + u64 (sizeof_stream + u64 (sizeof_atomic_int * stream_capacity)))).

(** The header that the constructor writes, truncated to the widths of the
    fields.  The offsets are relative to the header. *)
Definition PrioTable_hdr (num_items num_classes stream_capacity : Z) : outcome ghost_shmem_hdr :=
  shmem_size num_items num_classes stream_capacity ≫= λ size,
  let hdrlen := sizeof_hdr mod 2 ^ 16 in
  let si_off := hdrlen in
  let wc_off := u32 (u64 (si_off + u64 (num_items * sizeof_sched_item))) in
  let st_off := u32 (u64 (wc_off + u64 (num_classes * sizeof_work_class))) in
  checkO (st_off mod cacheline =? 0) ≫= λ _,
  Ok (mkHdr 0 hdrlen (u32 size) num_items si_off num_classes wc_off stream_capacity st_off).

(** The offsets of an item, a work class and a cell of the stream; the index
    of the comparison with the number of items is converted to unsigned. *)
Definition sched_item (h : ghost_shmem_hdr) (i : Z) : outcome Z :=
  checkO (0 <=? i) ≫= λ _, checkO (u32 i <? si_num h) ≫= λ _, Ok (si_off h + i * sizeof_sched_item).
Definition work_class (h : ghost_shmem_hdr) (i : Z) : outcome Z :=
  checkO (0 <=? i) ≫= λ _, checkO (u32 i <? wc_num h) ≫= λ _, Ok (wc_off h + i * sizeof_work_class).
Definition stream_cell (h : ghost_shmem_hdr) (i : Z) : Z := st_off h + sizeof_stream + i * sizeof_atomic_int.
End layout.

(** ** The stream *)

Definition kStreamNoEntries : Z := -1.
Definition kStreamOverflow : Z := -2.
Definition kStreamFreeEntry : Z := s32 (2 ^ 32 - 1).

(** The capacity is the number of the entries. *)
Record Stream := mkStream { scrape_all : Z; entries : list Z }.

(** The loop of the constructor; fresh shared memory is zero. *)
Definition Stream_new (cap : nat) : Stream := mkStream 0 (replicate cap kStreamFreeEntry).

Definition add_scrape (s : Stream) : Stream := mkStream (s32 (scrape_all s + 1)) (entries s).
Definition set_entry (i : nat) (x : Z) (s : Stream) : Stream := mkStream (scrape_all s) (<[i := x]> (entries s)).

(** The cell that a writer of [idx] tries at its [i]-th attempt. *)
Definition cell_of (s : Stream) (idx i : Z) : nat := Z.to_nat (u32 (idx + i) mod Z.of_nat (length (entries s))).

(** A thread in [MarkUpdatedIndex(idx, num_retries)]: before the load of
    [scrape_all], before its increment, before the load of a cell, before the
    compare-and-swap of a cell, or done. *)
Inductive MarkPc :=
| MkLoadAll (idx num_retries : Z)
| MkAddAll (idx : Z)
| MkLoadCell (idx num_retries i : Z)
| MkCas (idx num_retries i : Z)
| MkDone.

(** Its next access.  [compare_exchange_weak] may fail for no reason, which is
    [spurious]. *)
Definition MarkUpdatedIndex_step (spurious : bool) (pc : MarkPc) (s : Stream) : option (MarkPc * Stream) :=
  match pc with
  | MkLoadAll idx r => Some (if 0 <? scrape_all s then MkAddAll idx else MkLoadCell idx r 0, s)
  | MkAddAll idx => Some (MkDone, add_scrape s)
  | MkLoadCell idx r i =>
      if i <? r + 1 then
        x ← entries s !! cell_of s idx i;
        Some (if x =? kStreamFreeEntry then MkCas idx r i else MkLoadCell idx r (i + 1), s)
      else Some (MkAddAll idx, s)
  | MkCas idx r i =>
      x ← entries s !! cell_of s idx i;
      Some (if negb spurious && (x =? kStreamFreeEntry) then (MkDone, set_entry (cell_of s idx i) idx s)
            else (MkLoadCell idx r (i + 1), s))
  | MkDone => None
  end.

(** The agent in [NextUpdatedIndex]: before the load of [scrape_all], before
    the exchange, before the load of entry [i], before the store that frees it,
    or about to return. *)
Inductive NextPc :=
| NxLoadAll
| NxExchange
| NxScan (full_scan : bool) (i : nat)
| NxStore (full_scan : bool) (i : nat) (idx : Z)
| NxReturn (v : Z).

Definition NextUpdatedIndex_step (pc : NextPc) (s : Stream) : option (NextPc * Stream) :=
  match pc with
  | NxLoadAll => Some (if 0 <? scrape_all s then NxExchange else NxScan false 0, s)
  | NxExchange => Some (NxScan true 0, mkStream 0 (entries s))
  | NxScan full i =>
      if (i <? length (entries s))%nat then
        idx ← entries s !! i;
        Some (if idx =? kStreamFreeEntry then NxScan full (S i) else NxStore full i idx, s)
      else Some (NxReturn (if full then kStreamOverflow else kStreamNoEntries), s)
  | NxStore full i idx =>
      Some (if full then NxScan true (S i) else NxReturn idx, set_entry i kStreamFreeEntry s)
  | NxReturn _ => None
  end.

(** [owed] is what the specification counts: the indices that a thread has
    begun to mark, less those the agent was told of since. *)
Record StWorld := mkStWorld {
  stream : Stream;
  markers : list MarkPc;
  reader : option NextPc;
  owed : gset Z
}.

Inductive StAction :=
| StMark (idx num_retries : Z)        (* a thread calls MarkUpdatedIndex *)
| StWrite (t : nat) (spurious : bool) (* the next access of the [t]-th call *)
| StNext                              (* the agent calls NextUpdatedIndex *)
| StRead                              (* its next access *)
| StReturn.                           (* it returns *)

Definition told (v : Z) (o : gset Z) : gset Z := if v =? kStreamOverflow then ∅ else o ∖ {[v]}.

Section stream_machine.
(** The threads mark items of the table, and it has [num] of them. *)
Context (cap : nat) (num : Z).

Definition st_step (a : StAction) (w : StWorld) : option StWorld :=
  match a with
  | StMark idx r =>
      if (0 <=? idx) && (idx <? num) then
        Some (mkStWorld (stream w) (markers w ++ [MkLoadAll idx r]) (reader w) ({[idx]} ∪ owed w))
      else None
  | StWrite t spurious =>
      pc ← markers w !! t;
      '(pc, s) ← MarkUpdatedIndex_step spurious pc (stream w);
      Some (mkStWorld s (<[t := pc]> (markers w)) (reader w) (owed w))
  | StNext =>
      match reader w with
      | None => Some (mkStWorld (stream w) (markers w) (Some NxLoadAll) (owed w))
      | Some _ => None
      end
  | StRead =>
      pc ← reader w;
      '(pc, s) ← NextUpdatedIndex_step pc (stream w);
      Some (mkStWorld s (markers w) (Some pc) (owed w))
  | StReturn =>
      match reader w with
      | Some (NxReturn v) => Some (mkStWorld (stream w) (markers w) None (told v (owed w)))
      | _ => None
      end
  end.

Inductive st_reachable : StWorld → Prop :=
| st_reach_init : st_reachable (mkStWorld (Stream_new cap) [] None ∅)
| st_reach_step a w w' : st_reachable w → st_step a w = Some w' → st_reachable w'.

Definition st_run (acts : list StAction) (w : StWorld) : option StWorld :=
  foldl (λ o a, o ≫= st_step a) (Some w) acts.
End stream_machine.

(** A call of [NextUpdatedIndex] that nothing interrupts. *)
Fixpoint scan_entries (full_scan : bool) (l : list Z) : option Z * list Z :=
  match l with
  | [] => (None, [])
  | idx :: l =>
      if idx =? kStreamFreeEntry then let '(v, l) := scan_entries full_scan l in (v, idx :: l)
      else if full_scan then let '(v, l) := scan_entries full_scan l in (v, kStreamFreeEntry :: l)
      else (Some idx, kStreamFreeEntry :: l)
  end.

Definition NextUpdatedIndex (s : Stream) : Z * Stream :=
  let full_scan := 0 <? scrape_all s in
  let '(v, l) := scan_entries full_scan (entries s) in
  (match v with Some idx => idx | None => if full_scan then kStreamOverflow else kStreamNoEntries end,
   mkStream (if full_scan then 0 else scrape_all s) l).

(** [Orchestrator::RefreshSchedParams], with [NextUpdatedIndex] and
    [RefreshSchedParam] as operations on a state: [st_cap] rounds at most. *)
Section refresh.
Context {S : Type} (st_cap : nat) (next_index : M S Z).
Context (num_sched_items_ : Z) (RefreshSchedParam : Z → M S unit).

Definition RefreshAllSchedParams : M S unit :=
  forM (Z.of_nat <$> seq 0 (Z.to_nat num_sched_items_)) RefreshSchedParam.

Fixpoint RefreshSchedParams_loop (rounds : nat) : M S unit :=
  match rounds with
  | O => mret tt
  | Datatypes.S rounds =>
      next_index ≫= λ updatedIndex,
      if (0 <=? updatedIndex) && (u32 updatedIndex <? num_sched_items_) then
        RefreshSchedParam updatedIndex ≫= λ _, RefreshSchedParams_loop rounds
      else if updatedIndex =? kStreamOverflow then RefreshAllSchedParams
      else if updatedIndex =? kStreamNoEntries then mret tt
      else abort GhostError
  end.

Definition RefreshSchedParams : M S unit := RefreshSchedParams_loop st_cap.
End refresh.

(** ** A sched item and its sequence lock *)

Definition SCHED_ITEM_RUNNABLE : Z := Z.shiftl 1 0.
Definition kLocked : Z := 1.
Definition locked (seq : Z) : bool := truthy (Z.land seq kLocked).

(** The fields that the lock protects. *)
Record ItemData := mkItemData { sid : Z; wcid : Z; gpid : Z; flags : Z; deadline : Z }.

Record SchedItem := mkItem { seqnum : Z; item : ItemData }.

Inductive Field := FSid | FWcid | FGpid | FFlags | FDeadline.

Global Instance Field_eq_dec : EqDecision Field.
Proof. solve_decision. Defined.

Definition load_field (f : Field) (d : ItemData) : Z :=
  match f with FSid => sid d | FWcid => wcid d | FGpid => gpid d | FFlags => flags d | FDeadline => deadline d end.

Definition store_field (f : Field) (v : Z) (d : ItemData) : ItemData :=
  match f with
  | FSid => mkItemData v (wcid d) (gpid d) (flags d) (deadline d)
  | FWcid => mkItemData (sid d) v (gpid d) (flags d) (deadline d)
  | FGpid => mkItemData (sid d) (wcid d) v (flags d) (deadline d)
  | FFlags => mkItemData (sid d) (wcid d) (gpid d) v (deadline d)
  | FDeadline => mkItemData (sid d) (wcid d) (gpid d) (flags d) v
  end.

(** The agent's copy of an item: [SchedParams]. *)
Record SchedParams := mkParams {
  sid_ : Z;
  wcid_ : Z;
  gpid_ : Z;
  flags_ : Z;
  seqcount_ : Z;
  deadline_ : Z;
  qos_ : Z
}.

Definition SetRunnable (sp : SchedParams) : SchedParams :=
  mkParams (sid_ sp) (wcid_ sp) (gpid_ sp) (Z.lor (flags_ sp) SCHED_ITEM_RUNNABLE) (seqcount_ sp) (deadline_ sp) (qos_ sp).
Definition HasWork (sp : SchedParams) : bool := truthy (Z.land (flags_ sp) SCHED_ITEM_RUNNABLE).
Definition set_qos (q : Z) (sp : SchedParams) : SchedParams :=
  mkParams (sid_ sp) (wcid_ sp) (gpid_ sp) (flags_ sp) (seqcount_ sp) (deadline_ sp) q.
Definition set_seqcount (c : Z) (sp : SchedParams) : SchedParams :=
  mkParams (sid_ sp) (wcid_ sp) (gpid_ sp) (flags_ sp) c (deadline_ sp) (qos_ sp).

(** [read_end(begin)], which finds [now] in [seqnum]. *)
Definition read_end (begin now : Z) : bool := negb (locked begin || negb (begin =? now)).

(** [SeqCopyParams] from what it read: [begin] by [read_begin], the copy [d] of
    the fields and the result of [read_end]; [qos] is that of the work class
    it was given. *)
Definition SeqCopyParams_finish (success : bool) (qos begin : Z) (d : ItemData) (sp : SchedParams) : bool * SchedParams :=
  let sp := set_qos qos sp in
  if negb success then
    if negb (HasWork sp) then (true, SetRunnable (set_seqcount begin sp)) else (false, sp)
  else (true, mkParams (sid d) (wcid d) (gpid d) (flags d) begin (deadline d) (qos_ sp)).

Definition SeqCopyParams (success : bool) (qos begin : Z) (d : ItemData) (sp : SchedParams) : bool * SchedParams :=
  if begin =? seqcount_ sp then (false, sp) else SeqCopyParams_finish success qos begin d sp.

(** A thread of the application that updates the item by the stores [todo]: in
    [write_begin] after it read [seq0], in [try_write_begin] before the load
    and before the compare-and-swap, between [write_begin] and [write_end], or
    done; [WFailed] is a failed assertion. *)
Inductive WritePc :=
| WLoad (todo : list (Field * Z))
| WBegin (seq0 : Z) (todo : list (Field * Z))
| WTryLoad (todo : list (Field * Z))
| WTry (seq0 : Z) (todo : list (Field * Z))
| WStore (begin : Z) (todo : list (Field * Z))
| WDone
| WFailed.

Definition write_step (spurious : bool) (pc : WritePc) (it : SchedItem) : option (WritePc * SchedItem) :=
  match pc with
  | WLoad todo => Some (WBegin (seqnum it) todo, it)
  | WBegin seq0 todo =>
      if locked seq0 then Some (WBegin (seqnum it) todo, it)
      else if negb spurious && (seqnum it =? seq0) then
        Some (WStore (u32 (seq0 + kLocked)) todo, mkItem (u32 (seq0 + kLocked)) (item it))
      else Some (WBegin (seqnum it) todo, it)
  | WTryLoad todo => Some (if locked (seqnum it) then WDone else WTry (seqnum it) todo, it)
  | WTry seq0 todo =>
      if seqnum it =? seq0 then
        Some (WStore (u32 (seq0 + kLocked)) todo, mkItem (u32 (seq0 + kLocked)) (item it))
      else Some (WDone, it)
  | WStore begin ((f, v) :: todo) => Some (WStore begin todo, mkItem (seqnum it) (store_field f v (item it)))
  | WStore begin [] =>
      Some (if begin =? seqnum it then (WDone, mkItem (u32 (begin + kLocked)) (item it)) else (WFailed, it))
  | WDone | WFailed => None
  end.

(** The agent in [RefreshSchedParam]: before the load of the item's work class;
    in [SeqCopyParams] with class [wc], before [read_begin], before the load of
    the fields [todo], before [read_end]; and its result. *)
Inductive CopyPc :=
| CpClass
| CpBegin (wc : Z)
| CpField (wc begin : Z) (todo : list Field) (d : ItemData)
| CpEnd (wc begin : Z) (d : ItemData)
| CpDone (changed : bool).

Definition no_data : ItemData := mkItemData 0 0 0 0 0.

Section copy.
(** The QoS of the work classes, which are read-only. *)
Context (work_class_qos : Z → Z).

Definition copy_step (pc : CopyPc) (sp : SchedParams) (it : SchedItem) : option (CopyPc * SchedParams) :=
  match pc with
  | CpClass => Some (CpBegin (wcid (item it)), sp)
  | CpBegin wc =>
      let begin := seqnum it in
      Some (if begin =? seqcount_ sp then CpDone false
            else CpField wc begin [FSid; FWcid; FGpid; FFlags; FDeadline] no_data, sp)
  | CpField wc begin (f :: todo) d => Some (CpField wc begin todo (store_field f (load_field f (item it)) d), sp)
  | CpField wc begin [] d => Some (CpEnd wc begin d, sp)
  | CpEnd wc begin d =>
      let '(changed, sp) := SeqCopyParams_finish (read_end begin (seqnum it)) (work_class_qos wc) begin d sp in
      Some (CpDone changed, sp)
  | CpDone _ => None
  end.

(** [sq_locks] counts the successful [write_begin]s, [sq_since] is its value at
    the agent's last [read_begin]. *)
Record SqWorld := mkSqWorld {
  sq_item : SchedItem;
  sq_writers : list WritePc;
  sq_params : SchedParams;
  sq_copy : option CopyPc;
  sq_locks : Z;
  sq_since : Z
}.

Inductive SqAction :=
| SqWriter (try : bool) (todo : list (Field * Z))   (* a thread begins an update *)
| SqWrite (t : nat) (spurious : bool)               (* its next access *)
| SqRefresh                                         (* the agent calls RefreshSchedParam *)
| SqCopy                                            (* its next access *)
| SqReturn.                                         (* it is done *)

Definition sq_step (a : SqAction) (w : SqWorld) : option SqWorld :=
  match a with
  | SqWriter try todo =>
      Some (mkSqWorld (sq_item w) (sq_writers w ++ [if try : bool then WTryLoad todo else WLoad todo]) (sq_params w)
              (sq_copy w) (sq_locks w) (sq_since w))
  | SqWrite t spurious =>
      pc ← sq_writers w !! t;
      '(pc', it) ← write_step spurious pc (sq_item w);
      Some (mkSqWorld it (<[t := pc']> (sq_writers w)) (sq_params w) (sq_copy w)
              (sq_locks w + match pc, pc' with WBegin _ _, WStore _ _ | WTry _ _, WStore _ _ => 1 | _, _ => 0 end)
              (sq_since w))
  | SqRefresh =>
      match sq_copy w with
      | None => Some (mkSqWorld (sq_item w) (sq_writers w) (sq_params w) (Some CpClass) (sq_locks w) (sq_since w))
      | Some _ => None
      end
  | SqCopy =>
      pc ← sq_copy w;
      '(pc', sp) ← copy_step pc (sq_params w) (sq_item w);
      Some (mkSqWorld (sq_item w) (sq_writers w) sp (Some pc') (sq_locks w)
              match pc with CpBegin _ => sq_locks w | _ => sq_since w end)
  | SqReturn =>
      match sq_copy w with
      | Some (CpDone _) => Some (mkSqWorld (sq_item w) (sq_writers w) (sq_params w) None (sq_locks w) (sq_since w))
      | _ => None
      end
  end.

Inductive sq_reachable (d0 : ItemData) (sp0 : SchedParams) : SqWorld → Prop :=
| sq_reach_init : sq_reachable d0 sp0 (mkSqWorld (mkItem 0 d0) [] sp0 None 0 0)
| sq_reach_step a w w' : sq_reachable d0 sp0 w → sq_step a w = Some w' → sq_reachable d0 sp0 w'.

Definition sq_run (acts : list SqAction) (w : SqWorld) : option SqWorld :=
  foldl (λ o a, o ≫= sq_step a) (Some w) acts.
End copy.

(** ** What the agents see of a table *)

(** What a task's pointer to parameters is: null, the static [dummy_sp], or the
    copy of an item in the orchestrator of a thread group. *)
Inductive SpRef := SpNull | SpDummy | SpItem (tgid sid : Z).

Global Instance SpRef_eq_dec : EqDecision SpRef.
Proof. solve_decision. Defined.

Definition WORK_CLASS_REPEATING : Z := Z.shiftl 1 1.

(** [struct work_class], the fields that the agent reads. *)
Record WorkClass := mkWorkClass { wc_flags : Z; wc_qos : Z; wc_exectime : Z; wc_period : Z }.

(** The static [dummy_sp], and the elements of a new [SchedParams[]]. *)
Definition zero_params : SchedParams := mkParams 0 0 0 0 0 0 0.

(** What attaching to the table of a thread group finds: the number of its
    items, its work classes and the capacity of its stream. *)
Record Table := mkTable { tb_items : nat; tb_classes : list WorkClass; tb_capacity : nat }.

(** What one refresh of an item reads in the shared table: the class before
    [SeqCopyParams], then [begin], the fields and the verdict of [read_end]. *)
Record ItemRead := mkRead { rd_class : Z; rd_begin : Z; rd_data : ItemData; rd_success : bool }.

(** The search of [GetSchedParams]: the first item of the thread. *)
Fixpoint find_item (g : Z) (l : list SchedParams) (sid : Z) : option Z :=
  match l with
  | [] => None
  | x :: l => if gpid_ x =? g then Some sid else find_item g l (sid + 1)
  end.

(** What the agents use of [absl::Duration] and [absl::Time], which are not
    part of the program: the durations of a number of nanoseconds and of a
    millisecond, division by a number, a time less or plus a duration, the time
    between two times, the time of a number of nanoseconds, its origin and the
    infinite future. *)
Record AbslTime := mkAbslTime {
  Nanoseconds : Z → Z;
  Milliseconds : Z → Z;
  duration_div : Z → Z → Z;
  time_minus : Z → Z → Z;
  time_plus : Z → Z → Z;
  time_sub : Z → Z → Z;
  FromUnixNanos : Z → Z;
  UnixEpoch : Z;
  InfiniteFuture : Z
}.

(** Times in nanoseconds, for the samples. *)
Definition sample_absl : AbslTime :=
  mkAbslTime id (λ n, n * 1000000) Z.div Z.sub Z.add Z.sub id 0 (2 ^ 63).
