(* ===== verification/PrioTableSpec.v ===== *)
(** * PrioTableSpec: no update of the shared table is lost, and no copy is torn

    The regions of the table do not overlap; what is marked stays in the stream
    until the agent is told; a copy that [read_end] accepts is the content of
    the item between two updates.

    What the shared table guarantees.

    Its layout; that no update of an item is lost on the way to the agent; that
    no copy of an item mixes two updates; and the one field of the copy, the
    QoS, for which this fails. *)

From S2P Require Import Prelude Outcome PrioTable.
From stdpp Require Import gmap.
From Stdlib Require Import ZArith Lia.

Local Open Scope Z_scope.

(** ** The copies of the agents *)

Lemma seq_copy_false su q b d x x' :
  SeqCopyParams su q b d x = (false, x') → gpid_ x' = gpid_ x ∧ (su = true → x' = x).
Proof.
  unfold SeqCopyParams, SeqCopyParams_finish. destruct (b =? seqcount_ x); [by intros [= <-]|].
  destruct su; simpl; [done|]. destruct (HasWork (set_qos q x)); simpl; [by intros [= <-]|done].
Qed.

Lemma find_item_spec g l sid0 sid : find_item g l sid0 = Some sid →
  ∃ x, sid0 ≤ sid ∧ l !! Z.to_nat (sid - sid0) = Some x ∧ gpid_ x = g.
Proof.
  revert sid0. induction l as [|x l IH]; intros sid0; simpl; [done|]. destruct (Z.eqb_spec (gpid_ x) g) as [E|_].
  - intros [= ->]. exists x. rewrite Z.sub_diag. split_and!; [lia|done|done].
  - intros (y & H0 & H1 & H2)%IH. exists y. split; [lia|]. split; [|done].
    replace (Z.to_nat (sid - sid0)) with (S (Z.to_nat (sid - (sid0 + 1)))) by lia. done.
Qed.

(** ** The stream *)

Definition mark_idx (pc : MarkPc) : option Z :=
  match pc with
  | MkLoadAll idx _ | MkAddAll idx | MkLoadCell idx _ _ | MkCas idx _ _ => Some idx
  | MkDone => None
  end.

Definition is_done (pc : MarkPc) : bool := match pc with MkDone => true | _ => false end.

(** The agent will return [idx], or that everything may have changed. *)
Definition reader_holds (r : option NextPc) (idx : Z) : Prop :=
  match r with
  | Some NxExchange | Some (NxScan true _) | Some (NxStore true _ _) => True
  | Some (NxStore false _ x) => x = idx
  | Some (NxReturn v) => v = kStreamOverflow ∨ v = idx
  | _ => False
  end.

(** A thread has yet to publish [idx], or the stream has it, or the agent is
    about to learn of it. *)
Definition update_held (w : StWorld) (idx : Z) : Prop :=
  (∃ t pc, markers w !! t = Some pc ∧ mark_idx pc = Some idx) ∨
  idx ∈ entries (stream w) ∨ 0 < scrape_all (stream w) ∨ reader_holds (reader w) idx.

Section stream.
Context (cap : nat) (num : Z).

Notation free := kStreamFreeEntry.

Lemma free_neg : free = -1.
Proof. reflexivity. Qed.

Record st_inv (w : StWorld) : Prop := {
  si_length : length (entries (stream w)) = cap;
  si_count : 0 ≤ scrape_all (stream w) ≤ countb is_done (markers w);
  si_valid : ∀ x, x ∈ entries (stream w) → x = free ∨ 0 ≤ x < num;
  si_marks : ∀ t pc idx, markers w !! t = Some pc → mark_idx pc = Some idx → 0 ≤ idx < num;
  si_reader : match reader w with
              | Some (NxStore _ i x) => entries (stream w) !! i = Some x ∧ x ≠ free
              | Some (NxReturn v) => v = kStreamOverflow ∨ v = kStreamNoEntries ∨ 0 ≤ v < num
              | _ => True
              end;
  si_held : ∀ idx, idx ∈ owed w → 0 ≤ idx < num ∧ update_held w idx
}.

Lemma countb_insert {A} (f : A → bool) l i x y :
  l !! i = Some x → countb f (<[i := y]> l) = countb f l - b2z (f x) + b2z (f y).
Proof.
  revert i. induction l as [|z l IH]; intros [|i] H; simplify_eq/=; [lia|]. specialize (IH i H). lia.
Qed.

Lemma countb_app {A} (f : A → bool) l k : countb f (l ++ k) = countb f l + countb f k.
Proof. induction l as [|x l IH]; simpl; lia. Qed.

Lemma elem_insert (l : list Z) i x y : y ∈ <[i := x]> l → y = x ∨ y ∈ l.
Proof.
  intros (j & Hj)%list_elem_of_lookup. apply list_lookup_insert_Some in Hj as [(-> & -> & _)|(_ & Hj)]; [by left|].
  right. by eapply list_elem_of_lookup_2.
Qed.

(** A value keeps being in the list if it is not the one overwritten. *)
Lemma elem_insert_ne (l : list Z) i x y z : l !! i = Some z → y ∈ l → y ≠ z → y ∈ <[i := x]> l.
Proof.
  intros Hi (j & Hj)%list_elem_of_lookup Hne. apply list_elem_of_lookup. exists j.
  rewrite list_lookup_insert_ne; [done|]. intros ->. congruence.
Qed.

Lemma held_markers w ms' r' st' :
  (∀ idx, update_held w idx → idx ∈ owed w → update_held (mkStWorld st' ms' r' (owed w)) idx) →
  (∀ idx, idx ∈ owed w → 0 ≤ idx < num ∧ update_held w idx) →
  ∀ idx, idx ∈ owed w → 0 ≤ idx < num ∧ update_held (mkStWorld st' ms' r' (owed w)) idx.
Proof. intros H1 H2 idx Hi. destruct (H2 idx Hi). split; [done|]. by apply H1. Qed.

(** A step that frees no entry and writes none. *)
Ltac st_same Hi :=
  split_and!;
  first [ by apply (si_length _ Hi) | by apply (si_valid _ Hi) | lia | done | by left
        | intros ? [= <-]; first [by left | right; right; lia] | naive_solver ].

(** A call of [MarkUpdatedIndex] makes progress. *)
Lemma mark_step_ok w sp t pc pc' s' :
  st_inv w → markers w !! t = Some pc → MarkUpdatedIndex_step sp pc (stream w) = Some (pc', s') →
  Z.of_nat (length (markers w)) < 2 ^ 31 →
  st_inv (mkStWorld s' (<[t := pc']> (markers w)) (reader w) (owed w)).
Proof.
  intros Hi Ht Hs Hlen. pose proof (countb_range is_done (<[t := pc']> (markers w))) as Hr.
  rewrite length_insert in Hr. rewrite (countb_insert _ _ _ _ _ Ht) in Hr.
  pose proof (si_count _ Hi) as Hc.
  assert (0 ≤ scrape_all s' ≤ countb is_done (<[t := pc']> (markers w)) ∧ length (entries s') = cap ∧
    (∀ x, x ∈ entries s' → x = free ∨ 0 ≤ x < num) ∧ (∀ idx, mark_idx pc' = Some idx → mark_idx pc = Some idx) ∧
    (∀ i x, entries (stream w) !! i = Some x → x ≠ free → entries s' !! i = Some x) ∧
    (0 < scrape_all (stream w) → 0 < scrape_all s') ∧
    (∀ idx, mark_idx pc = Some idx → mark_idx pc' = Some idx ∨ idx ∈ entries s' ∨ 0 < scrape_all s'))
    as (H1 & H2 & H3 & H4 & H5 & H6 & H7).
  { rewrite (countb_insert _ _ _ _ _ Ht). destruct pc as [idx r|idx|idx r i|idx r i|]; simpl in Hs.
    - injection Hs as <- <-. destruct (0 <? _); simpl; st_same Hi.
    - injection Hs as <- <-. simpl. simpl in Hr. assert (s32 (scrape_all (stream w) + 1) = scrape_all (stream w) + 1) as ->.
      { unfold s32. rewrite Z.mod_small; lia. }
      st_same Hi.
    - destruct (i <? r + 1); [|simplify_eq; simpl; st_same Hi].
      destruct (entries (stream w) !! cell_of (stream w) idx i) as [x|]; simplify_eq/=.
      destruct (x =? free); simpl; st_same Hi.
    - destruct (entries (stream w) !! cell_of (stream w) idx i) as [x|] eqn:Ex; simplify_eq/=.
      destruct (negb sp && (x =? free)) eqn:E; simplify_eq/=.
      2:{ st_same Hi. }
      apply andb_true_iff in E as [_ E]. apply Z.eqb_eq in E as ->. split_and!; try done; try lia.
      + rewrite length_insert. apply Hi.
      + intros y [->|Hy]%elem_insert; [right; by apply (si_marks _ Hi t _ _ Ht)|by apply Hi].
      + intros j y Hj Hy. rewrite list_lookup_insert_ne; [done|]. intros <-. congruence.
      + intros ? [= <-]. right. left. apply list_elem_of_lookup. exists (cell_of (stream w) idx i).
        apply list_lookup_insert_eq. by eapply lookup_lt_Some.
    - done. }
  constructor; simpl; try done.
  - intros t' pc0 idx [(<- & <- & _)|(_ & Ht')]%list_lookup_insert_Some Hm;
      [apply (si_marks _ Hi t pc idx Ht); by apply H4|by apply (si_marks _ Hi t' pc0)].
  - pose proof (si_reader _ Hi) as Hrd. destruct (reader w) as [[| | |? i x|]|]; try done. destruct Hrd. split; [by apply H5|done].
  - apply held_markers; [|apply Hi]. intros idx Hh Ho. destruct (si_held _ Hi idx Ho) as [Hrg _].
    destruct Hh as [(t' & pc0 & Ht' & Hm)|[Hin|[Hs0|Hrd]]].
    + destruct (decide (t' = t)) as [->|Hne].
      * rewrite Ht in Ht'. injection Ht' as ->. destruct (H7 _ Hm) as [Hm'|[?|?]].
        -- left. exists t, pc'. split; [|done]. apply list_lookup_insert_eq. by eapply lookup_lt_Some.
        -- by right; left.
        -- by right; right; left.
      * left. exists t', pc0. simpl. by rewrite list_lookup_insert_ne.
    + right. left. simpl. apply list_elem_of_lookup in Hin as [i Hin]. eapply list_elem_of_lookup_2, H5; [done|].
      rewrite free_neg. lia.
    + right. right. left. by apply H6.
    + by do 3 right.
Qed.

(** So does a call of [NextUpdatedIndex]. *)
Lemma next_step_ok w pc pc' s' :
  st_inv w → reader w = Some pc → NextUpdatedIndex_step pc (stream w) = Some (pc', s') →
  st_inv (mkStWorld s' (markers w) (Some pc') (owed w)).
Proof.
  intros Hi Hpc Hs. pose proof (si_reader _ Hi) as Hrd. rewrite Hpc in Hrd. pose proof (si_count _ Hi) as Hc.
  assert (∀ idx, update_held w idx → (∃ t pc, markers w !! t = Some pc ∧ mark_idx pc = Some idx) ∨
    idx ∈ entries (stream w) ∨ 0 < scrape_all (stream w) ∨ reader_holds (Some pc) idx) as Hw.
  { intros idx. unfold update_held. by rewrite Hpc. }
  destruct pc as [| |full i|full i x|v]; simpl in Hs.
  - injection Hs as <- <-. destruct (Z.ltb_spec 0 (scrape_all (stream w))) as [H0|H0]; constructor; simpl; try done; try apply Hi.
    all: apply held_markers; [|apply Hi]; intros idx Hh _; destruct (Hw idx Hh) as [?|[?|[?|[]]]].
    all: unfold update_held; simpl; auto.
  - injection Hs as <- <-. constructor; simpl; try done; try apply Hi; [lia|].
    apply held_markers; [|apply Hi]. intros idx _ _. unfold update_held. simpl. auto.
  - destruct (Nat.ltb_spec i (length (entries (stream w)))) as [Hlt|Hge].
    + destruct (entries (stream w) !! i) as [x|] eqn:Ex; simplify_eq/=.
      destruct (Z.eqb_spec x free) as [Hf|Hf]; constructor; simpl; try done; try apply Hi.
      all: apply held_markers; [|apply Hi]; intros idx Hh _; destruct (Hw idx Hh) as [?|[?|[?|?]]].
      all: unfold update_held; simpl; destruct full; naive_solver.
    + injection Hs as <- <-. constructor; simpl; try apply Hi; [destruct full; auto|].
      apply held_markers; [|apply Hi]. intros idx Hh _. destruct (Hw idx Hh) as [?|[?|[?|?]]].
      all: unfold update_held; simpl in *; destruct full; naive_solver.
  - destruct Hrd as [Hx Hne]. injection Hs as <- <-. constructor; simpl; try apply Hi.
    + rewrite length_insert. apply Hi.
    + intros y [->|Hy]%elem_insert; [by left|by apply Hi].
    + destruct full; [done|]. right. right.
      destruct (si_valid _ Hi x) as [?|?]; [by eapply list_elem_of_lookup_2|done|done].
    + apply held_markers; [|apply Hi]. intros idx Hh Ho. destruct (Hw idx Hh) as [?|[?|[?|?]]].
      * by left.
      * destruct full; [by do 3 right|]. destruct (decide (idx = x)) as [->|Hne']; [do 3 right; by right|].
        right. left. by eapply elem_insert_ne.
      * by right; right; left.
      * do 3 right. destruct full; simpl in *; [done|by right].
  - done.
Qed.

Lemma st_step_inv a w w' :
  st_inv w → Z.of_nat (length (markers w')) < 2 ^ 31 → st_step num a w = Some w' →
  st_inv w' ∧ (length (markers w) ≤ length (markers w'))%nat.
Proof.
  intros Hi Hlen Hs. destruct a as [idx r|t sp| | |]; simpl in Hs.
  - destruct (_ && _) eqn:E; [|done]. apply andb_true_iff in E as [E1 E2]. zbool. injection Hs as <-. simpl.
    rewrite length_app. split; [|simpl; lia]. constructor; simpl; try apply Hi.
    + rewrite countb_app. pose proof (si_count _ Hi). simpl. lia.
    + intros t pc idx' Ht Hm. apply lookup_app_Some in Ht as [Ht|[_ Ht]]; [by eapply (si_marks _ Hi)|].
      apply list_lookup_singleton_Some in Ht as [_ <-]. injection Hm as <-. lia.
    + intros idx' [->%elem_of_singleton|Ho]%elem_of_union.
      * split; [lia|]. left. exists (length (markers w)), (MkLoadAll idx r). split; [|done]. simpl.
        by rewrite lookup_app_r, Nat.sub_diag by lia.
      * destruct (si_held _ Hi _ Ho) as [? [(t & pc & Ht & Hm)|?]]; split; [done| |done|by right].
        left. exists t, pc. split; [|done]. simpl. by apply lookup_app_l_Some.
  - destruct (markers w !! t) as [pc|] eqn:Ht; [|done]. simpl in Hs.
    destruct (MarkUpdatedIndex_step sp pc (stream w)) as [[pc' s']|] eqn:Es; [|done]. injection Hs as <-. simpl in *.
    rewrite length_insert in *. split; [by eapply mark_step_ok|done].
  - destruct (reader w) eqn:E; [done|]. injection Hs as <-. split; [|done]. constructor; simpl; try apply Hi; [done|].
    intros idx Ho. destruct (si_held _ Hi _ Ho) as [? Hh]. split; [done|]. unfold update_held in *. rewrite E in Hh. simpl in *. naive_solver.
  - destruct (reader w) as [pc|] eqn:E; [|done]. simpl in Hs.
    destruct (NextUpdatedIndex_step pc (stream w)) as [[pc' s']|] eqn:Es; [|done]. injection Hs as <-. split; [|done]. by eapply next_step_ok.
  - destruct (reader w) as [[| | | |v]|] eqn:E; try done. injection Hs as <-. split; [|done]. constructor; simpl; try apply Hi; [done|].
    intros idx Ho. unfold told in Ho. destruct (Z.eqb_spec v kStreamOverflow) as [Hv|Hv]; [set_solver|].
    apply elem_of_difference in Ho as [Ho Hn]. rewrite elem_of_singleton in Hn.
    destruct (si_held _ Hi _ Ho) as [? Hh]. split; [done|]. unfold update_held in *. rewrite E in Hh. simpl in *. naive_solver.
Qed.

Lemma st_reachable_inv w : st_reachable cap num w → Z.of_nat (length (markers w)) < 2 ^ 31 → st_inv w.
Proof.
  induction 1 as [|a w w' Hr IH Hs]; intros Hlen.
  - constructor; simpl; try done; [by rewrite length_replicate|]. intros x Hx.
    left. by apply elem_of_replicate_inv in Hx.
  - assert (length (markers w) ≤ length (markers w'))%nat as Hle.
    { clear -Hs. destruct a; simpl in Hs; [destruct (_ && _); [|done]|destruct (markers w !! t) as [pc|]; [|done]; simpl in Hs; destruct (MarkUpdatedIndex_step _ _ _) as [[]|]; [|done]|destruct (reader w); [done|]|destruct (reader w) as [pc|]; [|done]; simpl in Hs; destruct (NextUpdatedIndex_step _ _) as [[]|]; [|done]|destruct (reader w) as [[]|]; try done];
      injection Hs as <-; simpl; rewrite ?length_app, ?length_insert; lia. }
    apply (st_step_inv a w); [apply IH; lia|done|done].
Qed.
End stream.

(** ** What an uninterrupted call returns *)

Definition is_used (x : Z) : bool := negb (x =? kStreamFreeEntry).
Definition used (l : list Z) : list Z := filter (λ x, x ≠ kStreamFreeEntry) l.

Lemma scan_full l : scan_entries true l = (None, replicate (length l) kStreamFreeEntry).
Proof. induction l as [|x l IH]; simpl; [done|]. rewrite IH. destruct (Z.eqb_spec x kStreamFreeEntry) as [->|]; done. Qed.

(** The first entry in use is taken. *)
Lemma scan_first l :
  match used l with
  | [] => scan_entries false l = (None, l) ∧ l = replicate (length l) kStreamFreeEntry
  | x :: r => ∃ l', scan_entries false l = (Some x, l') ∧ used l' = r ∧ length l' = length l
  end.
Proof.
  unfold used. induction l as [|x l IH]; simpl; [done|]. rewrite filter_cons. destruct (Z.eqb_spec x kStreamFreeEntry) as [->|Hx].
  - rewrite decide_False by naive_solver. destruct (filter _ l) as [|y r].
    + destruct IH as [-> IH]. split; [done|]. simpl. by f_equal.
    + destruct IH as (l' & -> & E & El). eexists. split; [done|]. rewrite filter_cons, decide_False by naive_solver. simpl. auto.
  - rewrite decide_True by done. eexists. split; [done|]. by rewrite filter_cons, decide_False by naive_solver.
Qed.

Lemma used_length l : Z.of_nat (length (used l)) = countb is_used l.
Proof.
  unfold used, is_used. induction l as [|x l IH]; simpl; [done|]. rewrite filter_cons.
  destruct (Z.eqb_spec x kStreamFreeEntry) as [->|Hx]; [by rewrite decide_False by naive_solver|].
  rewrite decide_True by done. simpl. lia.
Qed.

Lemma used_le l : (length (used l) ≤ length l)%nat.
Proof. pose proof (used_length l). pose proof (countb_range is_used l). lia. Qed.

Lemma elem_used x l : x ∈ l → x ≠ kStreamFreeEntry → x ∈ used l.
Proof. intros. by apply list_elem_of_filter. Qed.

(** The machine of [NextUpdatedIndex], left alone, computes the function. *)
Section alone.
Context (num : Z).

Definition reads (k : nat) (w : StWorld) : option StWorld := st_run num (replicate k StRead) w.

Lemma reads_S k w w' : st_step num StRead w = Some w' → reads (S k) w = reads k w'.
Proof. unfold reads, st_run. simpl. by intros ->. Qed.

Lemma read_entry sc ents ms o full i x :
  ents !! i = Some x →
  st_step num StRead (mkStWorld (mkStream sc ents) ms (Some (NxScan full i)) o) =
    Some (mkStWorld (mkStream sc ents) ms (Some (if x =? kStreamFreeEntry then NxScan full (S i) else NxStore full i x)) o).
Proof.
  intros Hx. pose proof (lookup_lt_Some _ _ _ Hx) as Hlt. apply Nat.ltb_lt in Hlt. unfold st_step. cbn [reader stream markers owed].
  simpl. rewrite Hlt, Hx. done.
Qed.

Lemma free_entry sc ms o full pre x l :
  st_step num StRead (mkStWorld (mkStream sc (pre ++ x :: l)) ms (Some (NxStore full (length pre) x)) o) =
    Some (mkStWorld (mkStream sc (pre ++ kStreamFreeEntry :: l)) ms
      (Some (if full then NxScan true (S (length pre)) else NxReturn x)) o).
Proof. simpl. unfold set_entry. simpl. rewrite insert_app_r_alt, Nat.sub_diag by lia. done. Qed.

Lemma reads_scan full sc pre l ms o :
  ∃ k, (k ≤ 2 * length l + 1)%nat ∧
    reads k (mkStWorld (mkStream sc (pre ++ l)) ms (Some (NxScan full (length pre))) o) =
    let '(v, l') := scan_entries full l in
    Some (mkStWorld (mkStream sc (pre ++ l')) ms
      (Some (NxReturn (match v with Some x => x | None => if full then kStreamOverflow else kStreamNoEntries end))) o).
Proof.
  revert pre. induction l as [|x l IH]; intros pre.
  - exists 1%nat. split; [simpl; lia|]. unfold reads, st_run. simpl. rewrite app_nil_r, Nat.ltb_irrefl. done.
  - pose proof (list_lookup_middle pre l x _ eq_refl) as Hl.
    pose proof (λ y, IH (pre ++ [y])) as IH'. clear IH. simpl scan_entries.
    destruct (Z.eqb_spec x kStreamFreeEntry) as [->|Hx]; [|destruct full].
    + destruct (IH' kStreamFreeEntry) as (k & Hk & E). exists (S k). split; [simpl; lia|].
      rewrite (reads_S k _ _ (read_entry _ _ _ _ _ _ _ Hl)).
      rewrite length_app, Nat.add_comm, <- (app_assoc pre [_] l) in E. simpl in *. rewrite E.
      destruct (scan_entries full l). by rewrite <- (app_assoc pre [_] _).
    + destruct (IH' kStreamFreeEntry) as (k & Hk & E). exists (S (S k)). split; [simpl; lia|].
      rewrite (reads_S (S k) _ _ (read_entry _ _ _ _ _ _ _ Hl)), (proj2 (Z.eqb_neq _ _) Hx), (reads_S k _ _ (free_entry _ _ _ _ _ _ _)).
      rewrite length_app, Nat.add_comm, <- (app_assoc pre [_] l) in E. simpl in *. rewrite E.
      destruct (scan_entries true l). by rewrite <- (app_assoc pre [_] _).
    + exists 2%nat. split; [simpl; lia|].
      by rewrite (reads_S 1 _ _ (read_entry _ _ _ _ _ _ _ Hl)), (proj2 (Z.eqb_neq _ _) Hx), (reads_S 0 _ _ (free_entry _ _ _ _ _ _ _)).
Qed.

Lemma next_alone s ms o :
  ∃ k, (k ≤ 2 * length (entries s) + 3)%nat ∧
    reads k (mkStWorld s ms (Some NxLoadAll) o) =
    Some (mkStWorld (NextUpdatedIndex s).2 ms (Some (NxReturn (NextUpdatedIndex s).1)) o).
Proof.
  destruct s as [sc l]. unfold NextUpdatedIndex. simpl. destruct (0 <? sc) eqn:E.
  - destruct (reads_scan true 0 [] l ms o) as (k & Hk & Er). exists (S (S k)). split; [simpl in *; lia|].
    erewrite reads_S by (simpl; rewrite E; reflexivity). erewrite reads_S by reflexivity. simpl in *. rewrite Er.
    by destruct (scan_entries true l).
  - destruct (reads_scan false sc [] l ms o) as (k & Hk & Er). exists (S k). split; [simpl in *; lia|].
    erewrite reads_S by (simpl; rewrite E; reflexivity). simpl in *. rewrite Er.
    by destruct (scan_entries false l).
Qed.
End alone.

(** ** Draining the stream *)

Section drain.
Context (num : Z).

(** [RefreshSchedParams] on a stream, with the items it refreshes written
    down. *)
Definition next_of_stream : M (Stream * list Z) Z :=
  gets fst ≫= λ st, let '(v, st) := NextUpdatedIndex st in modify (λ x, (st, x.2)) ≫= λ _, mret v.
Definition note_sid (i : Z) : M (Stream * list Z) unit := modify (λ x, (x.1, x.2 ++ [i])).

Definition refreshed (s : Stream) : outcome (unit * (Stream * list Z)) :=
  RefreshSchedParams (length (entries s)) next_of_stream num note_sid (s, []).

Notation loop := (RefreshSchedParams_loop next_of_stream num note_sid).
Notation all := (RefreshAllSchedParams num note_sid).

Lemma all_records st l : all (st, l) = Ok (tt, (st, l ++ (Z.of_nat <$> seq 0 (Z.to_nat num)))).
Proof.
  unfold RefreshAllSchedParams. generalize (Z.of_nat <$> seq 0 (Z.to_nat num)). intros k. revert l.
  induction k as [|i k IH]; intros l; simpl; [by rewrite app_nil_r|].
  unfold mbind, M_bind at 1. simpl. rewrite IH. by rewrite <- app_assoc.
Qed.

Lemma loop_S k st l :
  loop (S k) (st, l) =
  let '(v, st') := NextUpdatedIndex st in
  if (0 <=? v) && (u32 v <? num) then loop k (st', l ++ [v])
  else if v =? kStreamOverflow then all (st', l)
  else if v =? kStreamNoEntries then Ok (tt, (st', l)) else Crash GhostError.
Proof.
  simpl. unfold next_of_stream, mbind, M_bind, gets. simpl. destruct (NextUpdatedIndex st) as [v st']. simpl.
  destruct (_ && _); [done|]. destruct (_ =? _); [done|]. by destruct (_ =? _).
Qed.

Lemma loop_records rounds sc ents l :
  sc ≤ 0 → (length (used ents) ≤ rounds)%nat → num ≤ 2 ^ 31 → (∀ x, x ∈ used ents → 0 ≤ x < num) →
  loop rounds (mkStream sc ents, l) =
    Ok (tt, (mkStream sc (replicate (length ents) kStreamFreeEntry), l ++ used ents)).
Proof.
  intros Hsc Hr Hn. revert ents l Hr. induction rounds as [|k IH]; intros ents l Hr Hv.
  - pose proof (scan_first ents) as H. destruct (used ents); [|simpl in Hr; lia]. destruct H as [_ <-]. by rewrite app_nil_r.
  - rewrite loop_S. unfold NextUpdatedIndex. rewrite (proj2 (Z.ltb_ge 0 _)) by done. simpl.
    pose proof (scan_first ents) as H. destruct (used ents) as [|x r].
    + destruct H as [-> H]. simpl. rewrite <- H. by rewrite app_nil_r.
    + destruct H as (l' & -> & E & El). simpl. destruct (Hv x) as [H0 H1]; [by left|].
      rewrite (proj2 (Z.leb_le 0 x)), u32_small, (proj2 (Z.ltb_lt x num)) by lia. simpl.
      rewrite IH; [by rewrite E, El, <- app_assoc|rewrite E; simpl in Hr; lia|].
      intros y Hy. apply Hv. rewrite E in Hy. by right.
Qed.

(** The loop of [RefreshSchedParams] is bounded by [st_cap], which is enough. *)
Lemma refreshed_spec s :
  num ≤ 2 ^ 31 → (∀ x, x ∈ used (entries s) → 0 ≤ x < num) → (0 < length (entries s))%nat → 0 ≤ scrape_all s →
  refreshed s = Ok (tt, (Stream_new (length (entries s)),
    if 0 <? scrape_all s then Z.of_nat <$> seq 0 (Z.to_nat num) else used (entries s))).
Proof.
  intros Hn Hv Hc Hs. unfold refreshed, RefreshSchedParams.
  destruct s as [sc ents]. simpl in *. unfold Stream_new. destruct (Z.ltb_spec 0 sc) as [H0|H0].
  - destruct (length ents) as [|k] eqn:El; [lia|]. rewrite loop_S. unfold NextUpdatedIndex. simpl.
    rewrite (proj2 (Z.ltb_lt 0 sc)) by done. rewrite scan_full. simpl. rewrite all_records. by rewrite El.
  - assert (sc = 0) as -> by lia. rewrite loop_records; [done|done|apply used_le|done|done].
Qed.
End drain.

(** ** The sequence lock *)

Lemma locked_mod x : locked x = (x mod 2 =? 1).
Proof.
  unfold locked, kLocked, truthy. change 1 with (Z.ones 1) at 1. rewrite Z.land_ones by lia. change (2 ^ 1) with 2.
  pose proof (Z.mod_pos_bound x 2). repeat zcase; simpl; lia.
Qed.

Lemma u32_mod2 x : u32 x mod 2 = x mod 2.
Proof. unfold u32. Z.to_euclidean_division_equations. lia. Qed.

Lemma locked_seq k b : 0 ≤ b ≤ 1 → locked (u32 (2 * k - b)) = (b =? 1).
Proof.
  intros Hb. rewrite locked_mod, u32_mod2. assert ((2 * k - b) mod 2 = b) as ->; [|done].
  Z.to_euclidean_division_equations. lia.
Qed.

Definition is_store (pc : WritePc) : bool := match pc with WStore _ _ => true | _ => false end.

(** No assertion failed, and a compare-and-swap expects an unlocked item. *)
Definition write_ok (pc : WritePc) : Prop :=
  match pc with WFailed => False | WTry seq0 _ => locked seq0 = false | _ => True end.

(** The agent's part: what it has copied is in the item if no thread took the
    lock since it began. *)
Definition copy_inv (w : SqWorld) (begin : Z) (todo : list Field) (d : ItemData) : Prop :=
  sq_since w ≤ sq_locks w ∧ (∃ b, 0 ≤ b ≤ 1 ∧ begin = u32 (2 * sq_since w - b)) ∧
  (locked begin = false → sq_locks w = sq_since w →
   countb is_store (sq_writers w) = 0 ∧ ∀ f, f ∉ todo → load_field f d = load_field f (item (sq_item w))).

Record sq_inv (w : SqWorld) : Prop := {
  qi_count : 0 ≤ countb is_store (sq_writers w) ≤ 1;
  qi_seq : seqnum (sq_item w) = u32 (2 * sq_locks w - countb is_store (sq_writers w));
  qi_begin : ∀ t b todo, sq_writers w !! t = Some (WStore b todo) → b = seqnum (sq_item w);
  qi_ok : ∀ t pc, sq_writers w !! t = Some pc → write_ok pc;
  qi_copy : match sq_copy w with
            | Some (CpField _ begin todo d) => copy_inv w begin todo d
            | Some (CpEnd _ begin d) => copy_inv w begin [] d
            | _ => True
            end
}.

Section seqlock.
Context (work_class_qos : Z → Z).

Lemma elem_of_all f : f ∈ [FSid; FWcid; FGpid; FFlags; FDeadline].
Proof. destruct f; repeat first [by left|right]. Qed.

Lemma load_store f g v d : load_field f (store_field g v d) = if decide (f = g) then v else load_field f d.
Proof. destruct f, g; simpl; by repeat case_decide. Qed.

Lemma data_ext d d' : (∀ f, load_field f d = load_field f d') → d = d'.
Proof.
  intros H. destruct d, d'. pose proof (H FSid). pose proof (H FWcid). pose proof (H FGpid). pose proof (H FFlags).
  pose proof (H FDeadline). simpl in *. congruence.
Qed.

(** A thread that stores holds the lock. *)
Lemma store_count ws t b todo : ws !! t = Some (WStore b todo) → 1 ≤ countb is_store ws.
Proof.
  intros Ht. pose proof (countb_insert is_store ws t _ WDone Ht). pose proof (countb_range is_store (<[t := WDone]> ws)).
  simpl in *. lia.
Qed.

(** The writers change but the lock is not taken, or taken by one more. *)
Lemma copy_inv_writers w it ws more :
  0 ≤ more → sq_inv w →
  (more = 0 → countb is_store (sq_writers w) = 0 → countb is_store ws = 0 ∧ item it = item (sq_item w)) →
  match sq_copy w with
  | Some (CpField _ begin todo d) =>
      copy_inv (mkSqWorld it ws (sq_params w) (sq_copy w) (sq_locks w + more) (sq_since w)) begin todo d
  | Some (CpEnd _ begin d) =>
      copy_inv (mkSqWorld it ws (sq_params w) (sq_copy w) (sq_locks w + more) (sq_since w)) begin [] d
  | _ => True
  end.
Proof.
  intros Hm Hi Hsame. pose proof (qi_copy _ Hi) as Hc. destruct (sq_copy w) as [[| |wc begin todo d|wc begin d|]|]; try done.
  all: destruct Hc as (H1 & H2 & H3); split; [simpl; lia|]; split; [done|]; simpl; intros Hl He.
  all: destruct (H3 Hl) as [H4 H5]; [lia|]; destruct (Hsame ltac:(lia) H4) as [H6 H7]; split; [done|].
  all: intros f Hf; rewrite H7; by apply H5.
Qed.

(** The compare-and-swap that takes the lock. *)
Lemma take_lock w t pc todo seq0 :
  sq_inv w → sq_writers w !! t = Some pc → is_store pc = false → seqnum (sq_item w) = seq0 → locked seq0 = false →
  sq_inv (mkSqWorld (mkItem (u32 (seq0 + kLocked)) (item (sq_item w))) (<[t := WStore (u32 (seq0 + kLocked)) todo]> (sq_writers w))
    (sq_params w) (sq_copy w) (sq_locks w + 1) (sq_since w)).
Proof.
  intros Hi Ht Hpc <- Hl. pose proof (qi_count _ Hi) as Hc. pose proof (qi_seq _ Hi) as Hq.
  rewrite Hq, locked_seq in Hl by done. apply Z.eqb_neq in Hl.
  assert (countb is_store (sq_writers w) = 0) as H0 by lia.
  assert (countb is_store (<[t := WStore (u32 (seqnum (sq_item w) + kLocked)) todo]> (sq_writers w)) = 1) as H1.
  { rewrite (countb_insert _ _ _ _ _ Ht), Hpc, H0. reflexivity. }
  constructor; simpl.
  - lia.
  - rewrite H1, Hq, H0. unfold u32, kLocked. rewrite Zplus_mod_idemp_l. f_equal. lia.
  - intros t' b todo' [(<- & [= -> ->] & _)|(_ & Ht')]%list_lookup_insert_Some; [done|].
    apply store_count in Ht'. lia.
  - intros t' pc0 [(<- & <- & _)|(_ & Ht')]%list_lookup_insert_Some; [done|]. by apply (qi_ok _ Hi t').
  - apply (copy_inv_writers w); [lia|done|lia].
Qed.

Lemma write_inv w t sp pc pc' it :
  sq_inv w → sq_writers w !! t = Some pc → write_step sp pc (sq_item w) = Some (pc', it) →
  sq_inv (mkSqWorld it (<[t := pc']> (sq_writers w)) (sq_params w) (sq_copy w)
    (sq_locks w + match pc, pc' with WBegin _ _, WStore _ _ | WTry _ _, WStore _ _ => 1 | _, _ => 0 end) (sq_since w)).
Proof.
  intros Hi Ht Hs. pose proof (qi_count _ Hi) as Hc.
  (* neither the lock nor the item *)
  assert (∀ pc1, is_store pc = false → is_store pc1 = false → write_ok pc1 →
    sq_inv (mkSqWorld (sq_item w) (<[t := pc1]> (sq_writers w)) (sq_params w) (sq_copy w) (sq_locks w + 0) (sq_since w))) as Hskip.
  { intros pc1 Hp Hp1 Hne.
    assert (countb is_store (<[t := pc1]> (sq_writers w)) = countb is_store (sq_writers w)) as E.
    { rewrite (countb_insert _ _ _ _ _ Ht), Hp, Hp1. simpl. lia. }
    constructor; simpl.
    - by rewrite E.
    - rewrite E, Z.add_0_r. apply Hi.
    - intros t' b todo [(<- & -> & _)|(_ & Ht')]%list_lookup_insert_Some; [done|]. by apply (qi_begin _ Hi t' _ todo).
    - intros t' pc0 [(<- & <- & _)|(_ & Ht')]%list_lookup_insert_Some; [done|]. by apply (qi_ok _ Hi t').
    - apply (copy_inv_writers w); [lia|done|]. by rewrite E. }
  destruct pc as [todo|seq0 todo|todo|seq0 todo|b [|[f v] todo]| |]; simpl in Hs; try done.
  - injection Hs as <- <-. by apply Hskip.
  - destruct (locked seq0) eqn:El; [injection Hs as <- <-; by apply Hskip|].
    destruct (negb sp && _) eqn:E; injection Hs as <- <-; [|by apply Hskip].
    apply andb_true_iff in E as [_ E]. apply Z.eqb_eq in E. by eapply take_lock.
  - injection Hs as <- <-. destruct (locked _) eqn:El; by apply Hskip.
  - destruct (Z.eqb_spec (seqnum (sq_item w)) seq0) as [E|E]; injection Hs as <- <-; [|by apply Hskip].
    eapply take_lock; [done..|]. exact (qi_ok _ Hi _ _ Ht).
  - pose proof (qi_begin _ Hi _ _ _ Ht) as ->. rewrite Z.eqb_refl in Hs. injection Hs as <- <-.
    pose proof (store_count _ _ _ _ Ht) as H1. pose proof (qi_seq _ Hi) as Hq.
    assert (countb is_store (<[t := WDone]> (sq_writers w)) = 0) as E.
    { rewrite (countb_insert _ _ _ _ _ Ht). simpl. lia. }
    constructor; simpl.
    + by rewrite E.
    + rewrite E, Hq. unfold u32, kLocked. rewrite Zplus_mod_idemp_l. f_equal. lia.
    + intros t' b todo Ht'. apply store_count in Ht'. lia.
    + intros t' pc0 [(<- & <- & _)|(_ & Ht')]%list_lookup_insert_Some; [done|]. by apply (qi_ok _ Hi t').
    + apply (copy_inv_writers w); [lia|done|]. done.
  - pose proof (store_count _ _ _ _ Ht) as H1. injection Hs as <- <-.
    assert (countb is_store (<[t := WStore b todo]> (sq_writers w)) = countb is_store (sq_writers w)) as E.
    { rewrite (countb_insert _ _ _ _ _ Ht). simpl. lia. }
    constructor; simpl.
    + by rewrite E.
    + rewrite E, Z.add_0_r. apply Hi.
    + intros t' b' todo' [(<- & [= -> ->] & _)|(_ & Ht')]%list_lookup_insert_Some; by eapply (qi_begin _ Hi).
    + intros t' pc0 [(<- & <- & _)|(_ & Ht')]%list_lookup_insert_Some; [done|]. by apply (qi_ok _ Hi t').
    + apply (copy_inv_writers w); [lia|done|]. lia.
Qed.

(** A step of the agent. *)
Lemma copy_step_inv w pc pc' sp :
  sq_inv w → sq_copy w = Some pc → copy_step work_class_qos pc (sq_params w) (sq_item w) = Some (pc', sp) →
  sq_inv (mkSqWorld (sq_item w) (sq_writers w) sp (Some pc') (sq_locks w)
    match pc with CpBegin _ => sq_locks w | _ => sq_since w end).
Proof.
  intros Hi Hpc Hs. constructor; simpl; try apply Hi. pose proof (qi_copy _ Hi) as Hc. rewrite Hpc in Hc.
  destruct pc as [|wc|wc begin [|f todo] d|wc begin d|]; simpl in Hs; [by injection Hs as <- <-|..|done].
  - destruct (_ =? _); injection Hs as <- <-; [done|]. split; [simpl; lia|]. split.
    + exists (countb is_store (sq_writers w)). split; [apply (qi_count _ Hi)|apply (qi_seq _ Hi)].
    + simpl. intros Hl _. split; [|intros f []; apply elem_of_all].
      rewrite (qi_seq _ Hi), locked_seq in Hl by apply Hi. apply Z.eqb_neq in Hl. pose proof (qi_count _ Hi). lia.
  - injection Hs as <- <-. done.
  - injection Hs as <- <-. destruct Hc as (H1 & H2 & H3). split; [done|]. split; [done|]. simpl in *. intros Hl He.
    destruct (H3 Hl He) as [H4 H5]. split; [done|]. intros g Hg. rewrite load_store. case_decide as E; [by subst|].
    apply H5. rewrite elem_of_cons. naive_solver.
  - destruct (SeqCopyParams_finish _ _ _ _ _). by injection Hs as <- <-.
Qed.

Lemma sq_step_inv a w w' : sq_inv w → sq_step work_class_qos a w = Some w' → sq_inv w'.
Proof.
  intros Hi Hs. destruct a as [try todo|t sp| | |]; simpl in Hs.
  - injection Hs as <-. set (pc := if try then _ else _).
    assert (is_store pc = false ∧ write_ok pc) as [H1 H2] by (unfold pc; by destruct try).
    assert (countb is_store (sq_writers w ++ [pc]) = countb is_store (sq_writers w)) as E.
    { rewrite countb_app. simpl. rewrite H1. simpl. lia. }
    constructor; simpl.
    + by rewrite E; apply Hi.
    + by rewrite E; apply Hi.
    + intros t b todo' Ht. apply lookup_app_Some in Ht as [Ht|[_ Ht]]; [by eapply (qi_begin _ Hi)|].
      apply list_lookup_singleton_Some in Ht as [_ Ht]. by rewrite Ht in H1.
    + intros t pc0 Ht. apply lookup_app_Some in Ht as [Ht|[_ Ht]]; [by eapply (qi_ok _ Hi)|].
      apply list_lookup_singleton_Some in Ht as [_ Ht]. by rewrite Ht in H2.
    + pose proof (copy_inv_writers w (sq_item w) (sq_writers w ++ [pc]) 0 ltac:(lia) Hi) as H.
      rewrite Z.add_0_r, E in H. by apply H.
  - destruct (sq_writers w !! t) as [pc|] eqn:Ht; [|done]. simpl in Hs.
    destruct (write_step sp pc (sq_item w)) as [[pc' it]|] eqn:Ew; [|done]. injection Hs as <-. by eapply write_inv.
  - destruct (sq_copy w) eqn:E; [done|]. injection Hs as <-. constructor; simpl; try apply Hi. done.
  - destruct (sq_copy w) as [pc|] eqn:E; [|done]. simpl in Hs.
    destruct (copy_step _ _ _ _) as [[pc' sp]|] eqn:Ec; [|done]. injection Hs as <-. by apply (copy_step_inv w).
  - destruct (sq_copy w) as [[| | | |b]|] eqn:E; try done. injection Hs as <-. constructor; simpl; try apply Hi. done.
Qed.

Lemma sq_reachable_inv d0 sp0 w : sq_reachable work_class_qos d0 sp0 w → sq_inv w.
Proof.
  induction 1 as [|a w w' Hr IH Hs]; [|by eapply sq_step_inv].
  constructor; simpl; [lia|done|done|done|done].
Qed.

(** What [read_end] accepts is what the item holds, unlocked. *)
Lemma accepted_copy w wc begin d :
  sq_inv w → sq_copy w = Some (CpEnd wc begin d) → sq_locks w - sq_since w < 2 ^ 31 →
  read_end begin (seqnum (sq_item w)) = true →
  d = item (sq_item w) ∧ sq_locks w = sq_since w ∧ countb is_store (sq_writers w) = 0.
Proof.
  intros Hi Hc Hb Hr. pose proof (qi_copy _ Hi) as H. rewrite Hc in H. destruct H as (H1 & (b & Hb1 & ->) & H3).
  unfold read_end in Hr. apply negb_true_iff, orb_false_iff in Hr as [Hl Hr]. apply negb_false_iff, Z.eqb_eq in Hr.
  pose proof (qi_seq _ Hi) as Hq. pose proof (qi_count _ Hi) as Hn. rewrite Hq in Hr.
  pose proof Hl as Hl'. rewrite Hr in Hl'. rewrite locked_seq in Hl, Hl' by done. apply Z.eqb_neq in Hl, Hl'.
  assert (sq_locks w = sq_since w) as E.
  { assert (b = 0) as -> by lia. assert (countb is_store (sq_writers w) = 0) as E0 by lia. rewrite E0 in Hr. unfold u32 in Hr.
    assert ((2 * (sq_locks w - sq_since w)) mod 2 ^ 32 = 0) as Hz.
    { replace (2 * (sq_locks w - sq_since w)) with ((2 * sq_locks w - 0) - (2 * sq_since w - 0)) by lia.
      rewrite Zminus_mod, <- Hr, Z.sub_diag. done. }
    rewrite Z.mod_small in Hz by lia. lia. }
  destruct (H3 ltac:(rewrite locked_seq by done; apply Z.eqb_neq; lia) E) as [H4 H5].
  split; [|done]. apply data_ext. intros f. apply H5. apply not_elem_of_nil.
Qed.
End seqlock.

(** ** What the shared table guarantees *)

(** ** The layout *)

Section layout.
Context (cacheline : Z) (Hcl : 0 < cacheline).

Notation C := (cacheline_aligned cacheline 32).

Lemma aligned_mul k : (k * C) mod cacheline = 0.
Proof using Hcl. unfold cacheline_aligned. rewrite Z.mul_assoc. apply Z.mod_mul. lia. Qed.

Lemma aligned_ge : 32 ≤ C.
Proof using Hcl. unfold cacheline_aligned. Z.to_euclidean_division_equations. nia. Qed.

Lemma sizes : sizeof_hdr cacheline = C ∧ sizeof_sched_item cacheline = C ∧ sizeof_work_class cacheline = C.
Proof. done. Qed.

Lemma shmem_size_small items classes cap :
  0 ≤ items → 0 ≤ classes → 0 ≤ cap → C * (1 + items + classes) + 4 * (1 + cap) < 2 ^ 32 →
  shmem_size cacheline items classes cap = Ok (C * (1 + items + classes) + 4 * (1 + cap)).
Proof using Hcl.
  intros H1 H2 H3 Hs. pose proof aligned_ge. destruct sizes as (E1 & E2 & E3). unfold shmem_size.
  rewrite E1, E2, E3. unfold sizeof_stream, sizeof_atomic_int.
  rewrite (u64_small (0 + C)), (u64_small (C * items)), (u64_small (C * classes)) by nia.
  rewrite (u64_small (0 + C + _)), (u64_small (_ + C * classes)), (u64_small (4 * cap)), (u64_small (4 + _)) by nia.
  replace (0 + C + C * items + C * classes) with ((1 + items + classes) * C) by lia. rewrite aligned_mul. simpl.
  rewrite u64_small by nia. f_equal. lia.
Qed.

Lemma PrioTable_hdr_small items classes cap :
  C < 2 ^ 16 → 0 ≤ items → 0 ≤ classes → 0 ≤ cap → C * (1 + items + classes) + 4 * (1 + cap) < 2 ^ 32 →
  PrioTable_hdr cacheline items classes cap =
    Ok (mkHdr 0 C (C * (1 + items + classes) + 4 * (1 + cap)) items C classes (C * (1 + items)) cap (C * (1 + items + classes))).
Proof using Hcl.
  intros Hc H1 H2 H3 Hs. pose proof aligned_ge. unfold PrioTable_hdr. rewrite shmem_size_small by done. simpl.
  destruct sizes as (E1 & E2 & E3). rewrite E1, E2, E3. rewrite (Z.mod_small C) by lia.
  rewrite (u64_small (items * C)), (u64_small (classes * C)), (u64_small (C + items * C)) by nia.
  rewrite (u32_small (C + items * C)) by nia. rewrite (u64_small (C + items * C + classes * C)) by nia. rewrite !u32_small by nia.
  replace (C + items * C + classes * C) with ((1 + items + classes) * C) by lia. rewrite aligned_mul. simpl.
  do 2 f_equal; ring.
Qed.
End layout.

(** The regions of the table: if its size fits into 32 bits (and the
    header into 16), the constructor succeeds, the sched items, the work
    classes, [scrape_all] and the cells of the stream follow the header in that
    order without overlap and end with the map; items and classes are aligned
    to cache lines and cells to words; an index out of range is refused. *)
Theorem prio_table_layout (cacheline items classes cap : Z) :
  0 < cacheline → sizeof_hdr cacheline < 2 ^ 16 → 0 ≤ items → 0 ≤ classes → 0 ≤ cap →
  sizeof_hdr cacheline + items * sizeof_sched_item cacheline + classes * sizeof_work_class cacheline
    + sizeof_stream + cap * sizeof_atomic_int < 2 ^ 32 →
  ∃ h, PrioTable_hdr cacheline items classes cap = Ok h ∧
    (∀ i, 0 ≤ i < items → ∃ o, sched_item cacheline h i = Ok o ∧ o = hdrlen h + i * sizeof_sched_item cacheline ∧
       32 ≤ sizeof_sched_item cacheline ∧ o + sizeof_sched_item cacheline ≤ wc_off h ∧ o mod cacheline = 0) ∧
    (∀ i, 0 ≤ i < classes → ∃ o, work_class cacheline h i = Ok o ∧ o = wc_off h + i * sizeof_work_class cacheline ∧
       32 ≤ sizeof_work_class cacheline ∧ o + sizeof_work_class cacheline ≤ st_off h ∧ o mod cacheline = 0) ∧
    (∀ i, 0 ≤ i < cap → st_off h + sizeof_atomic_int ≤ stream_cell h i ∧
       stream_cell h i + sizeof_atomic_int ≤ maplen h ∧ (stream_cell h i - st_off h) mod sizeof_atomic_int = 0) ∧
    (∀ i, - 2 ^ 31 ≤ i < 2 ^ 31 → ¬ 0 ≤ i < items → sched_item cacheline h i = Crash CheckFailed).
Proof.
  intros Hcl Hh H1 H2 H3. destruct (sizes cacheline) as (E1 & E2 & E3). rewrite E1 in Hh. rewrite E1, E2, E3. intros Hs.
  pose proof (aligned_ge _ Hcl) as Hge. set (K := cacheline_aligned cacheline 32) in *.
  unfold sizeof_stream, sizeof_atomic_int in Hs. eexists. split.
  { apply PrioTable_hdr_small; fold K; try done. lia. }
  unfold sched_item, work_class, stream_cell. rewrite E2, E3. fold K. simpl. split_and!.
  - intros i Hi. eexists. rewrite (proj2 (Z.leb_le 0 i)), u32_small, (proj2 (Z.ltb_lt i items)) by nia. simpl.
    split_and!; [done|done|done|nia|]. replace (K + i * K) with ((1 + i) * K) by lia. by apply aligned_mul.
  - intros i Hi. eexists. rewrite (proj2 (Z.leb_le 0 i)), u32_small, (proj2 (Z.ltb_lt i classes)) by nia. simpl.
    split_and!; [done|done|done|nia|]. replace (K * (1 + items) + i * K) with ((1 + items + i) * K) by lia. by apply aligned_mul.
  - intros i Hi. unfold sizeof_stream, sizeof_atomic_int. split_and!; [lia|lia|].
    replace (K * (1 + items + classes) + 4 + i * 4 - K * (1 + items + classes)) with ((1 + i) * 4) by lia. by apply Z.mod_mul.
  - intros i Hr Hi. destruct (Z.leb_spec 0 i); [|done]. simpl. rewrite u32_small by lia.
    destruct (Z.ltb_spec i items); [lia|done].
Qed.

(** The table of shared/prio_table_test.cc with cache lines of 64 bytes. *)
Lemma prio_table_layout_witness :
  PrioTable_hdr 64 10 4 19 = Ok (mkHdr 0 64 1040 10 64 4 704 19 960) ∧
  ∃ h, PrioTable_hdr 64 10 4 19 = Ok h ∧ ∃ o, sched_item 64 h 9 = Ok o ∧ o + 64 ≤ wc_off h.
Proof.
  split; [reflexivity|].
  destruct (prio_table_layout 64 10 4 19 eq_refl eq_refl ltac:(lia) ltac:(lia) ltac:(lia) eq_refl) as (h & E & H & _).
  exists h. split; [exact E|]. destruct (H 9 ltac:(lia)) as (o & Eo & _ & _ & Ho & _). exists o. split; [exact Eo|exact Ho].
Defined.

(** ** The stream *)

Lemma st_run_reachable cap num acts w w' :
  st_reachable cap num w → st_run num acts w = Some w' → st_reachable cap num w'.
Proof.
  unfold st_run. revert w. induction acts as [|a acts IH]; intros w Hr H; [by injection H as <-|]. simpl in H.
  destruct (st_step num a w) as [w1|] eqn:E.
  - eapply IH; [|exact H]. by eapply st_reach_step.
  - exfalso. clear -H. induction acts as [|b acts IH]; [done|by apply IH].
Qed.

Definition st0 (cap : nat) : StWorld := mkStWorld (Stream_new cap) [] None ∅.

(** C8. However the threads of the application and the agent interleave, an
    index that a thread has begun to mark, and that the agent was not told of
    since, is held: the thread has still to publish it, or it is in a cell of
    the stream, or the stream asks for a scan of everything, or the agent's
    call in progress will return it or an overflow.  No thread leaves the
    array of cells.  (For less than 2^31 calls, the range of the counter.) *)
Theorem prio_stream_no_update_lost (cap : nat) (num : Z) (w : StWorld) :
  st_reachable cap num w → Z.of_nat (length (markers w)) < 2 ^ 31 →
  (∀ idx, idx ∈ owed w → update_held w idx) ∧
  ((0 < cap)%nat → ∀ t pc spurious, markers w !! t = Some pc → pc ≠ MkDone →
     is_Some (MarkUpdatedIndex_step spurious pc (stream w))) ∧
  (∀ pc, reader w = Some pc → (∃ v, pc = NxReturn v) ∨ is_Some (NextUpdatedIndex_step pc (stream w))).
Proof.
  intros Hr Hlen. pose proof (st_reachable_inv _ _ _ Hr Hlen) as Hi. split_and!.
  - intros idx Ho. by apply (si_held _ _ _ Hi).
  - intros Hcap t pc sp Ht Hne.
    assert (∀ idx i, is_Some (entries (stream w) !! cell_of (stream w) idx i)) as Hcell.
    { intros idx i. apply lookup_lt_is_Some. unfold cell_of. rewrite (si_length _ _ _ Hi).
      pose proof (Z.mod_pos_bound (u32 (idx + i)) (Z.of_nat cap)). lia. }
    destruct pc as [idx r|idx|idx r i|idx r i|]; simpl; try done; try by eexists.
    + destruct (i <? r + 1); [|by eexists]. destruct (Hcell idx i) as [x ->]. by eexists.
    + destruct (Hcell idx i) as [x ->]. by eexists.
  - intros pc Hpc. destruct pc as [| |full i|full i x|v]; [right; by eexists..| |right; by eexists|by left; exists v].
    right. simpl. destruct (Nat.ltb_spec i (length (entries (stream w)))) as [H|]; [|by eexists].
    apply lookup_lt_is_Some in H as [x ->]. by eexists.
Qed.

(** Two threads mark the items 0 and 11, which share the first cell of eleven;
    the second gives up on the cell, and the agent meets the first. *)
Definition st_sample : list StAction :=
  [StMark 0 0; StMark 11 0; StWrite 0 false; StWrite 0 false; StWrite 0 false; StWrite 1 false;
   StWrite 1 false; StNext; StRead; StRead].

Lemma prio_stream_no_update_lost_witness :
  ∃ w, st_run 12 st_sample (st0 11) = Some w ∧ 0 ∈ owed w ∧ 11 ∈ owed w ∧ update_held w 0 ∧ update_held w 11.
Proof.
  destruct (st_run 12 st_sample (st0 11)) as [w|] eqn:E; [|vm_compute in E; discriminate E].
  exists w. split; [reflexivity|].
  assert (st_reachable 11 12 w) as Hr by exact (st_run_reachable 11 12 st_sample (st0 11) w (st_reach_init 11 12) E).
  assert (Z.of_nat (length (markers w)) = 2) as Hlen by (vm_compute in E; injection E as <-; reflexivity).
  assert (0 ∈ owed w ∧ 11 ∈ owed w) as [H0 H11].
  { vm_compute in E. injection E as <-. split; apply (bool_decide_unpack _); vm_compute; exact I. }
  destruct (prio_stream_no_update_lost 11 12 w Hr ltac:(rewrite Hlen; reflexivity)) as [H _].
  split; [exact H0|]. split; [exact H11|]. split; [exact (H 0 H0)|exact (H 11 H11)].
Defined.

(** C22. When the threads are done marking and the agent is between two calls,
    one [RefreshSchedParams], within its bound of [st_cap] rounds, refreshes
    every item whose index is owed (all items after an overflow) and leaves
    the stream empty; each call of [NextUpdatedIndex] in it takes at most
    twice the capacity and three accesses. *)
Theorem prio_stream_drained (cap : nat) (num : Z) (w : StWorld) :
  st_reachable cap num w → Z.of_nat (length (markers w)) < 2 ^ 31 → (0 < cap)%nat → num ≤ 2 ^ 31 →
  (∀ t pc, markers w !! t = Some pc → pc = MkDone) → reader w = None →
  ∃ l, refreshed num (stream w) = Ok (tt, (Stream_new cap, l)) ∧ (∀ idx, idx ∈ owed w → idx ∈ l) ∧
    (∀ s ms o, ∃ k, (k ≤ 2 * length (entries s) + 3)%nat ∧
       reads num k (mkStWorld s ms (Some NxLoadAll) o) =
       Some (mkStWorld (NextUpdatedIndex s).2 ms (Some (NxReturn (NextUpdatedIndex s).1)) o)).
Proof.
  intros Hr Hlen Hcap Hn Hdone Hrd. pose proof (st_reachable_inv _ _ _ Hr Hlen) as Hi.
  pose proof (si_length _ _ _ Hi) as El. pose proof (si_count _ _ _ Hi) as Hc. eexists. split_and!.
  - rewrite refreshed_spec; [by rewrite El|done| |lia|lia].
    intros x Hx. unfold used in Hx. apply list_elem_of_filter in Hx as [Hf Hx]. by destruct (si_valid _ _ _ Hi x Hx).
  - intros idx Ho. destruct (si_held _ _ _ Hi idx Ho) as [Hrg Hh]. destruct (Z.ltb_spec 0 (scrape_all (stream w))) as [H0|H0].
    + apply list_elem_of_fmap. exists (Z.to_nat idx). split; [lia|]. apply elem_of_seq. lia.
    + destruct Hh as [(t & pc & Ht & Hm)|[Hin|[?|Hh]]].
      * by rewrite (Hdone t pc Ht) in Hm.
      * apply elem_used; [done|]. rewrite free_neg. lia.
      * lia.
      * by rewrite Hrd in Hh.
  - intros. apply next_alone.
Qed.

(** Both marks of [st_sample] are finished, the second by an overflow, and the
    agent's call too, which returned the first. *)
Lemma prio_stream_drained_witness :
  ∃ w, st_run 12 (st_sample ++ [StWrite 1 false; StWrite 1 false; StRead; StReturn]) (st0 11) = Some w ∧ owed w = {[11]} ∧
    ∃ l, refreshed 12 (stream w) = Ok (tt, (Stream_new 11, l)) ∧ 11 ∈ l.
Proof.
  destruct (st_run 12 (st_sample ++ [StWrite 1 false; StWrite 1 false; StRead; StReturn]) (st0 11)) as [w|] eqn:E;
    [|vm_compute in E; discriminate E].
  exists w. split; [reflexivity|].
  assert (st_reachable 11 12 w) as Hr by exact (st_run_reachable 11 12 _ (st0 11) w (st_reach_init 11 12) E).
  assert (Z.of_nat (length (markers w)) < 2 ^ 31 ∧ (∀ t pc, markers w !! t = Some pc → pc = MkDone) ∧ reader w = None ∧
    owed w = {[11]}) as (Hlen & Hd & Hn & Ho).
  { vm_compute in E. injection E as <-. split; [reflexivity|]. split; [|split; [reflexivity|]].
    - intros [|[|t]] pc H; simpl in H; [injection H as <-; reflexivity..|discriminate H].
    - apply (bool_decide_unpack _). vm_compute. exact I. }
  split; [exact Ho|].
  destruct (prio_stream_drained 11 12 w Hr Hlen ltac:(lia) ltac:(lia) Hd Hn) as (l & El & Hl & _).
  exists l. split; [exact El|]. apply Hl. rewrite Ho. apply elem_of_singleton. reflexivity.
Defined.

(** ** The copies *)

Lemma sq_run_reachable qos d0 sp0 acts w w' :
  sq_reachable qos d0 sp0 w → sq_run qos acts w = Some w' → sq_reachable qos d0 sp0 w'.
Proof.
  unfold sq_run. revert w. induction acts as [|a acts IH]; intros w Hr H; [by injection H as <-|]. simpl in H.
  destruct (sq_step qos a w) as [w1|] eqn:E.
  - eapply IH; [|exact H]. by eapply sq_reach_step.
  - exfalso. clear -H. induction acts as [|b acts IH]; [done|by apply IH].
Qed.

Definition sq0 (d0 : ItemData) (sp0 : SchedParams) : SqWorld := mkSqWorld (mkItem 0 d0) [] sp0 None 0 0.

(** C13. The sequence lock of an item: no two threads write it at the same time
    and no assertion of [write_end] fails; and if [read_end] accepts what the
    agent copied (with less than 2^31 updates since [read_begin]), then no
    thread is writing, none has written since [read_begin], and every field of
    the copy but the QoS is that of the item. *)
Theorem prio_copy_untorn (qos : Z → Z) (d0 : ItemData) (sp0 : SchedParams) (w : SqWorld) :
  sq_reachable qos d0 sp0 w →
  (countb is_store (sq_writers w) ≤ 1 ∧ ∀ t, sq_writers w !! t ≠ Some WFailed) ∧
  ∀ wc begin d, sq_copy w = Some (CpEnd wc begin d) → sq_locks w - sq_since w < 2 ^ 31 →
    read_end begin (seqnum (sq_item w)) = true →
    countb is_store (sq_writers w) = 0 ∧ sq_locks w = sq_since w ∧
    ∃ w', sq_step qos SqCopy w = Some w' ∧ sq_copy w' = Some (CpDone true) ∧
      sq_params w' = let it := item (sq_item w) in
        mkParams (sid it) (wcid it) (gpid it) (flags it) (seqnum (sq_item w)) (deadline it) (qos wc).
Proof.
  intros Hr. pose proof (sq_reachable_inv _ _ _ _ Hr) as Hi. split.
  - split; [apply Hi|]. intros t Ht. exact (qi_ok _ Hi t _ Ht).
  - intros wc begin d Hc Hb He. destruct (accepted_copy _ _ _ _ Hi Hc Hb He) as (-> & H1 & H2). split_and!; [done|done|].
    unfold read_end in He. apply negb_true_iff, orb_false_iff in He as [Hl He]. apply negb_false_iff, Z.eqb_eq in He as ->.
    assert (read_end (seqnum (sq_item w)) (seqnum (sq_item w)) = true) as Hre.
    { unfold read_end. by rewrite Hl, Z.eqb_refl. }
    eexists. unfold sq_step. rewrite Hc. cbn [mbind option_bind copy_step]. rewrite Hre. split_and!; done.
Qed.

(** An item of class 0; a thread moves it to class 1 and makes it runnable. *)
Definition sq_item0 : ItemData := mkItemData 7 0 42 0 1000.
Definition sq_params0 : SchedParams := mkParams 7 0 42 0 0 1000 (-5).
Definition sq_update : list (Field * Z) := [(FWcid, 1); (FFlags, 1)].
Definition sq_write_all (t : nat) : list SqAction := replicate 5 (SqWrite t false).
Definition sample_qos (wc : Z) : Z := if wc =? 0 then 10 else 20.

Lemma prio_copy_untorn_witness :
  ∃ w w', sq_run sample_qos ([SqWriter false sq_update] ++ sq_write_all 0 ++ [SqRefresh] ++ replicate 8 SqCopy)
      (sq0 sq_item0 sq_params0) = Some w ∧
    sq_step sample_qos SqCopy w = Some w' ∧ sq_params w' = mkParams 7 1 42 1 2 1000 20.
Proof.
  destruct (sq_run sample_qos ([SqWriter false sq_update] ++ sq_write_all 0 ++ [SqRefresh] ++ replicate 8 SqCopy)
      (sq0 sq_item0 sq_params0)) as [w|] eqn:E; [|vm_compute in E; discriminate E].
  assert (sq_reachable sample_qos sq_item0 sq_params0 w) as Hr
    by exact (sq_run_reachable sample_qos _ _ _ (sq0 sq_item0 sq_params0) w (sq_reach_init _ _ _) E).
  assert (sq_copy w = Some (CpEnd 1 2 (mkItemData 7 1 42 1 1000)) ∧ sq_locks w - sq_since w = 0 ∧
    sq_item w = mkItem 2 (mkItemData 7 1 42 1 1000)) as (Hc & Hl & Hit)
    by (vm_compute in E; injection E as <-; split; [reflexivity|split; reflexivity]).
  destruct (prio_copy_untorn sample_qos sq_item0 sq_params0 w Hr) as [_ H].
  destruct (H _ _ _ Hc ltac:(rewrite Hl; reflexivity) ltac:(rewrite Hit; reflexivity)) as (_ & _ & w' & Hs & _ & Hp).
  exists w, w'. split; [reflexivity|]. split; [exact Hs|]. rewrite Hp, Hit. reflexivity.
Defined.

(** The QoS is not protected.  [RefreshSchedParam] looks up the work class
    before [SeqCopyParams] begins to read under the sequence lock: if an update
    completes in between, the copy is accepted with the new class and the QoS
    of the old one, and the next refresh finds the sequence number unchanged
    and keeps it.  And a copy that fails because a thread is writing a runnable
    item stores the QoS all the same while it reports that nothing changed. *)
Theorem prio_qos_of_old_class :
  (∃ w, sq_run sample_qos
       ([SqWriter false sq_update; SqRefresh; SqCopy] ++ sq_write_all 0 ++ replicate 8 SqCopy ++
        [SqReturn; SqRefresh; SqCopy; SqCopy]) (sq0 sq_item0 sq_params0) = Some w ∧
     sq_writers w = [WDone] ∧ sq_copy w = Some (CpDone false) ∧
     wcid_ (sq_params w) = wcid (item (sq_item w)) ∧
     qos_ (sq_params w) = sample_qos 0 ∧ sample_qos (wcid_ (sq_params w)) ≠ sample_qos 0) ∧
  ∀ qos begin d sp, begin ≠ seqcount_ sp → HasWork sp = true →
    SeqCopyParams false qos begin d sp = (false, set_qos qos sp).
Proof.
  split.
  - eexists. split; [vm_compute; reflexivity|]. split; [reflexivity|]. split; [reflexivity|]. split; [reflexivity|].
    split; [reflexivity|]. vm_compute. discriminate.
  - intros qos begin d sp Hb Hw. unfold SeqCopyParams. rewrite (proj2 (Z.eqb_neq _ _)) by done.
    unfold SeqCopyParams_finish. simpl. unfold HasWork in *. simpl. by rewrite Hw.
Qed.

(** An update in progress of a runnable item whose class changed. *)
Lemma prio_qos_of_old_class_witness :
  SeqCopyParams false 20 1 no_data (mkParams 7 0 42 1 0 1000 10) = (false, mkParams 7 0 42 1 0 1000 20).
Proof. exact (proj2 prio_qos_of_old_class 20 1 no_data (mkParams 7 0 42 1 0 1000 10) ltac:(discriminate) eq_refl). Defined.
