(* ===== verification/Shin.v ===== *)
(** * Shin: the Shinjuku agent (schedulers/shinjuku)

    One global agent, as in EDF, for threads that describe their work in a
    shared table (PrioTable).  The run queue is a map from QoS classes to FIFO
    queues.  What a change of the table asks for a running task is deferred to
    the scheduling pass, which may pair it with the start of another task: a
    task could be unscheduled, or must be.  Tasks that poll (repeatables) and
    are done wait until their period has passed.

    [J_] marks the operations that other agents have too. *)

From S2P Require Import Prelude Outcome CpuMap.
From S2P Require Import Topology Dispatch Placement Txn PrioTable.
From stdpp Require Import gmap.
From Stdlib Require Import ZArith Lia.

Local Open Scope Z_scope.

(** ** Tasks *)

(** [ShinjukuTask::RunState] *)
Inductive ShinState := kBlocked | kQueued | kOnCpu | kYielding | kPaused.

Global Instance ShinState_eq_dec : EqDecision ShinState.
Proof. solve_decision. Defined.

(** [ShinjukuTask::UnscheduleLevel], in ascending order. *)
Inductive UnscheduleLevel := kNoUnschedule | kCouldUnschedule | kMustUnschedule.

Global Instance UnscheduleLevel_eq_dec : EqDecision UnscheduleLevel.
Proof. solve_decision. Defined.

Definition level (u : UnscheduleLevel) : Z :=
  match u with kNoUnschedule => 0 | kCouldUnschedule => 1 | kMustUnschedule => 2 end.

(** [ShinjukuTask].  [orch] is the thread group whose orchestrator it points
    to; durations and times are counted in the resolution of absl. *)
Record ShinTask := mkShinTask {
  gtid : Z;
  seqnum : Z;
  run_state : ShinState;
  cpu : Z;
  prio_boost : bool;
  runtime : Z;
  elapsed_runtime : Z;
  last_ran : Z;
  preempted : bool;
  orch : option Z;
  sp : SpRef;
  has_work : bool;
  wcid : Z;
  unschedule_level : UnscheduleLevel
}.

Definition set_seqnum (n : Z) (t : ShinTask) : ShinTask :=
  mkShinTask (gtid t) n (run_state t) (cpu t) (prio_boost t) (runtime t) (elapsed_runtime t) (last_ran t) (preempted t)
    (orch t) (sp t) (has_work t) (wcid t) (unschedule_level t).
Definition set_run_state (r : ShinState) (t : ShinTask) : ShinTask :=
  mkShinTask (gtid t) (seqnum t) r (cpu t) (prio_boost t) (runtime t) (elapsed_runtime t) (last_ran t) (preempted t)
    (orch t) (sp t) (has_work t) (wcid t) (unschedule_level t).
Definition set_boost (boost pre : bool) (t : ShinTask) : ShinTask :=
  mkShinTask (gtid t) (seqnum t) (run_state t) (cpu t) boost (runtime t) (elapsed_runtime t) (last_ran t) pre
    (orch t) (sp t) (has_work t) (wcid t) (unschedule_level t).
Definition set_runtimes (run elapsed : Z) (t : ShinTask) : ShinTask :=
  mkShinTask (gtid t) (seqnum t) (run_state t) (cpu t) (prio_boost t) run elapsed (last_ran t) (preempted t)
    (orch t) (sp t) (has_work t) (wcid t) (unschedule_level t).
Definition set_orch (o : option Z) (t : ShinTask) : ShinTask :=
  mkShinTask (gtid t) (seqnum t) (run_state t) (cpu t) (prio_boost t) (runtime t) (elapsed_runtime t) (last_ran t) (preempted t)
    o (sp t) (has_work t) (wcid t) (unschedule_level t).
Definition set_work (r : SpRef) (w : bool) (c : Z) (t : ShinTask) : ShinTask :=
  mkShinTask (gtid t) (seqnum t) (run_state t) (cpu t) (prio_boost t) (runtime t) (elapsed_runtime t) (last_ran t) (preempted t)
    (orch t) r w c (unschedule_level t).
Definition set_level (u : UnscheduleLevel) (t : ShinTask) : ShinTask :=
  mkShinTask (gtid t) (seqnum t) (run_state t) (cpu t) (prio_boost t) (runtime t) (elapsed_runtime t) (last_ran t) (preempted t)
    (orch t) (sp t) (has_work t) (wcid t) u.

(** What the pass writes into a task that it started on CPU [c] at [now]. *)
Definition set_latched (c now : Z) (t : ShinTask) : ShinTask :=
  mkShinTask (gtid t) (seqnum t) kOnCpu c false (runtime t) 0 now false
    (orch t) (sp t) (has_work t) (wcid t) (unschedule_level t).

Definition has_state (r : ShinState) (t : ShinTask) : bool := bool_decide (run_state t = r).
Definition has_level (u : UnscheduleLevel) (t : ShinTask) : bool := bool_decide (unschedule_level t = u).

Definition ShinTask_new (absl : AbslTime) (g : Z) : ShinTask :=
  mkShinTask g 0 kBlocked (-1) false 0 0 (UnixEpoch absl) false None SpNull false (2 ^ 32 - 1) kNoUnschedule.

(** ** The orchestrator's data *)

(** [ShinjukuOrchestrator]; its [ShinjukuSchedParams] are the [SchedParams] of
    EDF under another name.  [work_classes] and [capacity] are in the shared
    table. *)
Record ShinOrch := mkShinOrch {
  cachedsids_ : list SchedParams;
  work_classes : list WorkClass;
  capacity : nat
}.

Definition num_sched_items_ (o : ShinOrch) : Z := Z.of_nat (length (cachedsids_ o)).
Definition set_cached (l : list SchedParams) (o : ShinOrch) : ShinOrch := mkShinOrch l (work_classes o) (capacity o).

(** [ShinjukuOrchestrator::Init] for a table that was attached. *)
Definition ShinOrch_Init (tb : Table) : ShinOrch :=
  mkShinOrch (replicate (tb_items tb) zero_params) (tb_classes tb) (tb_capacity tb).

(** [ShinjukuSchedParams::SeqCopyParams] *)
Definition J_SeqCopyParams (success : bool) (qos begin : Z) (d : ItemData) (x : SchedParams) : bool * SchedParams :=
  if begin =? seqcount_ x then (false, x)
  else
    let x := set_qos qos x in
    if negb success then
      if negb (HasWork x) then (true, SetRunnable (set_seqcount begin x)) else (false, x)
    else (true, mkParams (sid d) (PrioTable.wcid d) (gpid d) (flags d) begin (deadline d) (qos_ x)).

(** ** The scheduler *)

(** [CpuState]: addresses of tasks, 0 for null. *)
Record ShinCpu := mkShinCpu { current : Z; next : Z; agent : bool }.

Definition set_current (p : Z) (k : ShinCpu) : ShinCpu := mkShinCpu p (next k) (agent k).
Definition set_next (p : Z) (k : ShinCpu) : ShinCpu := mkShinCpu (current k) p (agent k).
Definition set_agent (b : bool) (k : ShinCpu) : ShinCpu := mkShinCpu (current k) (next k) b.

Inductive ShinEvent :=
| JEvOpen (c g seqnum : Z)
| JEvUnschedule (c : Z)
| JEvCommit (open_cpus : CpuList)
| JEvRunnable (tgid sid : Z)
| JEvYield (c : Z)
| JEvPing (c : Z).

(** [run_queue_] is a [std::map]: pairs of a QoS and a queue, by ascending QoS. *)
Record Shin := mkShin {
  j_allocator : TaskAllocator ShinTask;
  j_cpus : Z → ShinCpu;
  global_cpu_ : Z;
  num_tasks_ : Z;
  in_discovery_ : bool;
  run_queue_ : list (Z * list Z);
  paused_repeatables_ : list Z;
  yielding_tasks_ : list Z;
  orchs_ : gmap Z ShinOrch;
  asked : nat;
  log : list ShinEvent
}.

Definition set_j_allocator (a : TaskAllocator ShinTask) (s : Shin) : Shin :=
  mkShin a (j_cpus s) (global_cpu_ s) (num_tasks_ s) (in_discovery_ s) (run_queue_ s) (paused_repeatables_ s) (yielding_tasks_ s)
    (orchs_ s) (asked s) (log s).
Definition set_j_cpus (f : Z → ShinCpu) (s : Shin) : Shin :=
  mkShin (j_allocator s) f (global_cpu_ s) (num_tasks_ s) (in_discovery_ s) (run_queue_ s) (paused_repeatables_ s) (yielding_tasks_ s)
    (orchs_ s) (asked s) (log s).
Definition set_global_cpu (c : Z) (s : Shin) : Shin :=
  mkShin (j_allocator s) (j_cpus s) c (num_tasks_ s) (in_discovery_ s) (run_queue_ s) (paused_repeatables_ s) (yielding_tasks_ s)
    (orchs_ s) (asked s) (log s).
Definition set_num_tasks (n : Z) (s : Shin) : Shin :=
  mkShin (j_allocator s) (j_cpus s) (global_cpu_ s) n (in_discovery_ s) (run_queue_ s) (paused_repeatables_ s) (yielding_tasks_ s)
    (orchs_ s) (asked s) (log s).
Definition set_in_discovery (b : bool) (s : Shin) : Shin :=
  mkShin (j_allocator s) (j_cpus s) (global_cpu_ s) (num_tasks_ s) b (run_queue_ s) (paused_repeatables_ s) (yielding_tasks_ s)
    (orchs_ s) (asked s) (log s).
Definition set_run_queue (l : list (Z * list Z)) (s : Shin) : Shin :=
  mkShin (j_allocator s) (j_cpus s) (global_cpu_ s) (num_tasks_ s) (in_discovery_ s) l (paused_repeatables_ s) (yielding_tasks_ s)
    (orchs_ s) (asked s) (log s).
Definition set_paused (l : list Z) (s : Shin) : Shin :=
  mkShin (j_allocator s) (j_cpus s) (global_cpu_ s) (num_tasks_ s) (in_discovery_ s) (run_queue_ s) l (yielding_tasks_ s)
    (orchs_ s) (asked s) (log s).
Definition set_yielding (l : list Z) (s : Shin) : Shin :=
  mkShin (j_allocator s) (j_cpus s) (global_cpu_ s) (num_tasks_ s) (in_discovery_ s) (run_queue_ s) (paused_repeatables_ s) l
    (orchs_ s) (asked s) (log s).
Definition set_orchs (o : gmap Z ShinOrch) (s : Shin) : Shin :=
  mkShin (j_allocator s) (j_cpus s) (global_cpu_ s) (num_tasks_ s) (in_discovery_ s) (run_queue_ s) (paused_repeatables_ s) (yielding_tasks_ s)
    o (asked s) (log s).
Definition tick (s : Shin) : Shin :=
  mkShin (j_allocator s) (j_cpus s) (global_cpu_ s) (num_tasks_ s) (in_discovery_ s) (run_queue_ s) (paused_repeatables_ s) (yielding_tasks_ s)
    (orchs_ s) (S (asked s)) (log s).
Definition add_event (e : ShinEvent) (s : Shin) : Shin :=
  mkShin (j_allocator s) (j_cpus s) (global_cpu_ s) (num_tasks_ s) (in_discovery_ s) (run_queue_ s) (paused_repeatables_ s) (yielding_tasks_ s)
    (orchs_ s) (asked s) (log s ++ [e]).

Global Instance Shin_has_allocator : HasAllocator Shin ShinTask := {
  allocator := j_allocator;
  set_allocator := set_j_allocator
}.

(** The configuration, and the answers of the kernel, the clock and the tables
    by the number of questions before. *)
Record ShinEnv := mkShinEnv {
  j_topo : Topology;
  j_enclave : CpuList;
  j_absl : AbslTime;
  preemption_time_slice_ : Z;
  j_malloc : TaskAllocator ShinTask → Z;
  j_get_agent : Z → bool;                  (* GetAgent(cpu) is not null *)
  j_avail : nat → Z → bool;                (* agent->cpu_avail() *)
  j_now : nat → Z;                         (* absl::Now() *)
  j_sw_runtime : nat → Z → Z;              (* status_word.runtime(), by gtid *)
  j_on_cpu : nat → Z → bool;               (* status_word.on_cpu(), by gtid *)
  j_commit : nat → Z → bool;               (* req->Commit() of no task, by CPU *)
  j_state : nat → Z → Z;                   (* req->state() once committed, by CPU *)
  j_tgid : nat → Z → Z;                    (* gtid.tgid() *)
  j_attach : nat → Z → option Table;       (* table_.Attach(tgid) *)
  j_iter : gmap Z ShinOrch → list Z;       (* the order of the hash map *)
  j_next_index : nat → Z → Z;              (* NextUpdatedIndex() *)
  j_item : nat → Z → Z → ItemRead;         (* a refresh: tgid, sid *)
  j_item_gpid : nat → Z → Z → Z            (* item->gpid *)
}.

(** ** The map of queues *)

(** [f(run_queue_[qos])]: the operator adds an empty queue if there is none. *)
Fixpoint rq_with (qos : Z) (f : list Z → list Z) (m : list (Z * list Z)) : list (Z * list Z) :=
  match m with
  | [] => [(qos, f [])]
  | (q, l) :: m' =>
      if qos <? q then (qos, f []) :: m
      else if qos =? q then (q, f l) :: m'
      else (q, l) :: rq_with qos f m'
  end.

(** The queue that is there. *)
Fixpoint rq_get (qos : Z) (m : list (Z * list Z)) : list Z :=
  match m with
  | [] => []
  | (q, l) :: m => if qos =? q then l else rq_get qos m
  end.

Definition RunqueueSize (m : list (Z * list Z)) : nat := foldr (λ '(_, l) n, (length l + n)%nat) 0%nat m.
Definition RunqueueEmpty (m : list (Z * list Z)) : bool := (RunqueueSize m =? 0)%nat.

Fixpoint first_filled (m : list (Z * list Z)) : outcome Z :=
  match m with
  | [] => Crash CheckFailed
  | (q, []) :: m => first_filled m
  | (q, _ :: _) :: _ => Ok q
  end.

(** [FirstFilledRunqueue], by descending QoS. *)
Definition FirstFilledRunqueue (m : list (Z * list Z)) : outcome Z := first_filled (rev m).

(** The loops of [RemoveFromRunqueue]: by ascending QoS, and each queue from
    its back. *)
Fixpoint rq_erase (p : Z) (m : list (Z * list Z)) : option (list (Z * list Z)) :=
  match m with
  | [] => None
  | (q, l) :: m =>
      match rfind p l (length l) with
      | Some pos => Some ((q, delete pos l) :: m)
      | None => cons (q, l) <$> rq_erase p m
      end
  end.

Section shin.
Variable env : ShinEnv.

Notation absl := (j_absl env).

#[local] Instance ShinTask_type : TaskType ShinTask := {
  task_gtid := gtid;
  task_seqnum := seqnum;
  set_task_seqnum := set_seqnum;
  new_task := ShinTask_new absl
}.

(** [cpu_states_[c]] *)
Definition j_cpu (c : Z) : M Shin ShinCpu :=
  if (0 <=? c) && (c <? MAX_CPUS) then gets (λ s, j_cpus s c) else abort OutOfBounds.

Definition upd_cpu (c : Z) (f : ShinCpu → ShinCpu) : M Shin unit :=
  j_cpu c ≫= λ k, modify (λ s, set_j_cpus (<[c := f k]> (j_cpus s)) s).

Definition ask {A} (f : nat → A) : M Shin A := gets asked ≫= λ n, modify tick ≫= λ _, mret (f n).

(** An orchestrator, and what a pointer to parameters points to. *)
Definition j_orch_at (tg : Z) : M Shin ShinOrch :=
  gets orchs_ ≫= λ os, match os !! tg with Some o => mret o | None => abort UseAfterFree end.
Definition j_put_orch (tg : Z) (o : ShinOrch) : M Shin unit := modify (λ s, set_orchs (<[tg := o]> (orchs_ s)) s).

Definition j_params_at (o : ShinOrch) (sid : Z) : outcome SchedParams :=
  match cachedsids_ o !! Z.to_nat sid with Some x => Ok x | None => Crash OutOfBounds end.

Definition j_sp_at (r : SpRef) : M Shin SchedParams :=
  match r with
  | SpNull => abort UseAfterFree
  | SpDummy => mret zero_params
  | SpItem tg sid => j_orch_at tg ≫= λ o, lift (j_params_at o sid)
  end.

Definition J_GetQoS (p : Z) : M Shin Z := task_at p ≫= λ t, j_sp_at (sp t) ≫= λ x, mret (qos_ x).

(** ** The orchestrator *)

(** [work_class(wcid)] of the table. *)
Definition j_class_at (o : ShinOrch) (wc : Z) : outcome WorkClass :=
  if wc <? Z.of_nat (length (work_classes o)) then
    match work_classes o !! Z.to_nat wc with Some c => Ok c | None => Crash CheckFailed end
  else Crash CheckFailed.

(** [Repeating] *)
Definition J_Repeating (o : ShinOrch) (x : SchedParams) : outcome bool :=
  j_class_at o (wcid_ x) ≫= λ c, Ok (truthy (Z.land (wc_flags c) WORK_CLASS_REPEATING)).

(** [GetWorkClassPeriod] *)
Definition J_GetWorkClassPeriod (o : ShinOrch) (wc : Z) : outcome Z :=
  j_class_at o wc ≫= λ c, Ok (Nanoseconds absl (wc_period c)).

(** [MakeEngineRunnable] of the orchestrator of [tg]; the index of the item is
    the difference of the pointer and the array, which is only defined if it
    points into that array. *)
Definition J_MakeEngineRunnable (tg : Z) (r : SpRef) : M Shin unit :=
  match r with
  | SpItem tg' sid =>
      if tg' =? tg then
        j_orch_at tg ≫= λ o,
        check (sid <? num_sched_items_ o) ≫= λ _,
        lift (j_params_at o sid) ≫= λ x,
        ask (λ n, j_item_gpid env n tg sid) ≫= λ g,
        check (g =? gpid_ x) ≫= λ _,
        lift (J_Repeating o x) ≫= λ rep : bool,
        check rep ≫= λ _,
        check (negb (HasWork x)) ≫= λ _,
        j_put_orch tg (set_cached (<[Z.to_nat sid := SetRunnable x]> (cachedsids_ o)) o) ≫= λ _,
        modify (add_event (JEvRunnable tg sid))
      else abort OutOfBounds
  | _ => abort OutOfBounds
  end.

(** ** Runtimes *)

(** [SetRuntime] *)
Definition J_SetRuntime (p new_runtime : Z) (update_elapsed_runtime : bool) : M Shin unit :=
  task_at p ≫= λ t,
  check (runtime t <=? new_runtime) ≫= λ _,
  upd_task p (λ t, set_runtimes new_runtime
    (if update_elapsed_runtime then elapsed_runtime t + (new_runtime - runtime t) else elapsed_runtime t) t).

(** [UpdateRuntime] *)
Definition J_UpdateRuntime (p : Z) : M Shin unit :=
  task_at p ≫= λ t, ask (λ n, Nanoseconds absl (j_sw_runtime env n (gtid t))) ≫= λ r, J_SetRuntime p r true.

(** [UpdateTaskRuntime] *)
Definition J_UpdateTaskRuntime (p new_runtime : Z) (update_elapsed_runtime : bool) : M Shin unit :=
  J_SetRuntime p new_runtime update_elapsed_runtime ≫= λ _,
  task_at p ≫= λ t,
  if bool_decide (sp t = SpNull) then check (negb (has_state kQueued t)) else check (has_state kOnCpu t).

(** ** The run queue *)

(** [Enqueue] *)
Definition J_Enqueue (p : Z) (back : bool) : M Shin unit :=
  task_at p ≫= λ t,
  check (has_level kNoUnschedule t) ≫= λ _,
  if negb (has_work t) then upd_task p (set_run_state kPaused)
  else
    upd_task p (set_run_state kQueued) ≫= λ _,
    J_GetQoS p ≫= λ qos,
    modify (λ s, set_run_queue (rq_with qos (λ l, if back && negb (prio_boost t) then l ++ [p] else p :: l) (run_queue_ s)) s).

(** [run_queue_[qos].front()], and the checks on it. *)
Definition front (qos : Z) : M Shin Z :=
  gets (λ s, rq_get qos (run_queue_ s)) ≫= λ rq, match rq with [] => abort OutOfBounds | p :: _ => mret p end.

Definition check_front (p : Z) : M Shin unit :=
  task_at p ≫= λ t, check (has_work t) ≫= λ _, check (has_level kNoUnschedule t).

(** [Dequeue] *)
Definition J_Dequeue : M Shin Z :=
  gets run_queue_ ≫= λ m,
  if RunqueueEmpty m then mret 0
  else
    lift (FirstFilledRunqueue m) ≫= λ qos,
    front qos ≫= λ p,
    check (negb (p =? 0)) ≫= λ _,
    check_front p ≫= λ _,
    modify (λ s, set_run_queue (rq_with qos tail (run_queue_ s)) s) ≫= λ _,
    mret p.

(** [Peek] *)
Definition J_Peek : M Shin Z :=
  gets run_queue_ ≫= λ m,
  if RunqueueEmpty m then mret 0
  else lift (FirstFilledRunqueue m) ≫= λ qos, front qos ≫= λ p, check_front p ≫= λ _, mret p.

(** [RemoveFromRunqueue] *)
Definition J_RemoveFromRunqueue (p : Z) : M Shin unit :=
  task_at p ≫= λ t,
  check (has_state kQueued t) ≫= λ _,
  gets (λ s, rq_erase p (run_queue_ s)) ≫= λ erased,
  match erased with
  | Some m => upd_task p (set_run_state kPaused) ≫= λ _, modify (set_run_queue m)
  | None => abort CheckFailed
  end.

(** [Yield] *)
Definition J_Yield (p : Z) : M Shin unit :=
  task_at p ≫= λ t,
  check (has_state kOnCpu t || has_state kQueued t) ≫= λ _,
  upd_task p (set_run_state kYielding) ≫= λ _,
  modify (λ s, set_yielding (yielding_tasks_ s ++ [p]) s).

(** [Unyield] *)
Definition J_Unyield (p : Z) : M Shin unit :=
  task_at p ≫= λ t,
  check (has_state kYielding t) ≫= λ _,
  gets yielding_tasks_ ≫= λ l,
  match find_first p l with
  | Some it => modify (set_yielding (delete it l)) ≫= λ _, J_Enqueue p true
  | None => abort CheckFailed
  end.

(** [UnscheduleTask] *)
Definition UnscheduleTask (p : Z) : M Shin unit :=
  check (negb (p =? 0)) ≫= λ _,
  task_at p ≫= λ t,
  check (has_state kOnCpu t) ≫= λ _,
  lift (cpu_rep (j_topo env) (cpu t)) ≫= λ _,
  modify (add_event (JEvUnschedule (cpu t))) ≫= λ _,
  ask (λ n, j_commit env n (cpu t)) ≫= λ ok : bool,
  check ok ≫= λ _,
  upd_cpu (cpu t) (set_current 0) ≫= λ _,
  upd_task p (λ t, set_level kNoUnschedule (set_run_state kPaused t)).

(** ** The parameters of a task *)

(** [had] is [had_work], [x] the new parameters. *)
Definition J_copy_params (tg sid p : Z) (x : SchedParams) (had : bool) : M Shin unit :=
  upd_task p (set_work (SpItem tg sid) (HasWork x) (wcid_ x)) ≫= λ _,
  whenM had (J_UpdateRuntime p ≫= λ _, upd_task p (λ t, set_runtimes (runtime t) 0 t)).

(** The task is paused, or runs and must be unscheduled. *)
Definition stopping (t : ShinTask) : bool := has_state kPaused t || (has_state kOnCpu t && has_level kMustUnschedule t).

(** The change of [run_state] and [unschedule_level] that follows. *)
Definition J_apply_params (tg sid p : Z) (x : SchedParams) (had : bool) : M Shin unit :=
  task_at p ≫= λ t,
  if has_state kBlocked t then mret tt
  else if negb had then
    check (stopping t) ≫= λ _,
    whenM (has_work t)
      (if has_state kPaused t then J_Enqueue p true
       else if has_state kOnCpu t then
         check (has_level kMustUnschedule t) ≫= λ _, upd_task p (set_level kCouldUnschedule)
       else mret tt)
  else
    check (negb (has_state kPaused t)) ≫= λ _,
    j_orch_at tg ≫= λ o,
    if has_work t then
      whenM (has_state kQueued t) (lift (J_Repeating o x) ≫= λ rep : bool, check (negb rep)) ≫= λ _,
      whenM (has_state kOnCpu t) (upd_task p (set_level kCouldUnschedule))
    else
      (if has_state kOnCpu t then upd_task p (set_level kMustUnschedule)
       else if has_state kQueued t then J_RemoveFromRunqueue p
       else abort CheckFailed) ≫= λ _,
      task_at p ≫= λ t,
      check (stopping t) ≫= λ _,
      lift (J_Repeating o x) ≫= λ rep : bool,
      whenM rep (modify (λ s, set_paused (paused_repeatables_ s ++ [p]) s)).

(** [SchedParamsCallback] for the item [sid] of the table of [tg]. *)
Definition J_SchedParamsCallback (tg sid oldgtid : Z) : M Shin unit :=
  j_orch_at tg ≫= λ o,
  lift (j_params_at o sid) ≫= λ x,
  check ((oldgtid =? 0) || (oldgtid =? gpid_ x)) ≫= λ _,
  if gpid_ x =? 0 then mret tt
  else
    gets in_discovery_ ≫= λ disc : bool,
    (if disc then lift (J_Repeating o x) else mret false) ≫= λ rep : bool,
    whenM (rep && negb (HasWork x)) (J_MakeEngineRunnable tg (SpItem tg sid)) ≫= λ _,
    gets (λ s, GetTask (gpid_ x) (j_allocator s)) ≫= λ found,
    match found with
    | None => mret tt
    | Some p =>
        task_at p ≫= λ t,
        whenM (has_state kYielding t) (J_Unyield p) ≫= λ _,
        j_orch_at tg ≫= λ o,
        lift (j_params_at o sid) ≫= λ x,
        task_at p ≫= λ t,
        let had := has_work t in
        J_copy_params tg sid p x had ≫= λ _,
        J_apply_params tg sid p x had
    end.

(** [RefreshSchedParam] *)
Definition J_RefreshSchedParam (tg sid : Z) : M Shin unit :=
  j_orch_at tg ≫= λ o,
  check (sid <? num_sched_items_ o) ≫= λ _,
  ask (λ n, j_item env n tg sid) ≫= λ r,
  lift (j_class_at o (rd_class r)) ≫= λ c,
  lift (j_params_at o sid) ≫= λ x,
  let '(changed, x') := J_SeqCopyParams (rd_success r) (wc_qos c) (rd_begin r) (rd_data r) x in
  j_put_orch tg (set_cached (<[Z.to_nat sid := x']> (cachedsids_ o)) o) ≫= λ _,
  whenM changed (J_SchedParamsCallback tg sid (gpid_ x)).

(** [RefreshSchedParams] and [RefreshAllSchedParams], the loops of which are
    those of EDF's orchestrator. *)
Definition J_RefreshSchedParams (tg : Z) : M Shin unit :=
  j_orch_at tg ≫= λ o,
  RefreshSchedParams (capacity o) (ask (λ n, j_next_index env n tg)) (num_sched_items_ o) (J_RefreshSchedParam tg).
Definition J_RefreshAllSchedParams (tg : Z) : M Shin unit :=
  j_orch_at tg ≫= λ o, RefreshAllSchedParams (num_sched_items_ o) (J_RefreshSchedParam tg).

(** [GetSchedParams] *)
Definition J_GetSchedParams (tg g : Z) : M Shin unit :=
  j_orch_at tg ≫= λ o,
  match find_item g (cachedsids_ o) 0 with
  | Some sid => J_SchedParamsCallback tg sid g
  | None => mret tt
  end.

(** [UpdateSchedParams] *)
Definition J_UpdateSchedParams : M Shin unit := gets (λ s, j_iter env (orchs_ s)) ≫= λ tgs, forM tgs J_RefreshSchedParams.

Definition J_DiscoveryStart : M Shin unit := modify (set_in_discovery true).
Definition J_DiscoveryComplete : M Shin unit :=
  gets (λ s, j_iter env (orchs_ s)) ≫= λ tgs, forM tgs J_RefreshAllSchedParams ≫= λ _, modify (set_in_discovery false).

(** ** Message handlers *)

(** [cpu_state_of] *)
Definition j_cpu_of (p : Z) : M Shin Z :=
  task_at p ≫= λ t,
  check (has_state kOnCpu t) ≫= λ _,
  j_cpu (cpu t) ≫= λ k, check (current k =? p) ≫= λ _, mret (cpu t).

(** [cs = cpu_state_of(task); CHECK_EQ(cs->current, task); cs->current = nullptr;] *)
Definition j_clear_current (p : Z) : M Shin unit :=
  j_cpu_of p ≫= λ c, j_cpu c ≫= λ k, check (current k =? p) ≫= λ _, upd_cpu c (set_current 0).

(** [HandleNewGtid] *)
Definition J_HandleNewGtid (p tgid : Z) : M Shin unit :=
  check (0 <=? tgid) ≫= λ _,
  gets orchs_ ≫= λ os,
  match os !! tgid with
  | Some _ => mret tt
  | None =>
      ask (λ n, j_attach env n tgid) ≫= λ table,
      match table with
      | None => upd_task p (λ t, set_work SpDummy true (wcid t) t)
      | Some tb => j_put_orch tgid (ShinOrch_Init tb)
      end
  end.

(** [DCHECK_EQ(payload->runtime, task->status_word.runtime())] *)
Definition j_check_runtime (p : Z) (m : Message) : M Shin unit :=
  task_at p ≫= λ t, ask (λ n, j_sw_runtime env n (gtid t)) ≫= λ r, check (msg_runtime m =? r).

Definition J_TaskNew (p : Z) (m : Message) : M Shin unit :=
  j_check_runtime p m ≫= λ _,
  J_UpdateTaskRuntime p (Nanoseconds absl (msg_runtime m)) false ≫= λ _,
  upd_task p (λ t, set_run_state kBlocked (set_seqnum (msg_seqnum m) t)) ≫= λ _,
  ask (λ n, j_tgid env n (msg_gtid m)) ≫= λ tgid,
  J_HandleNewGtid p tgid ≫= λ _,
  whenM (msg_runnable m) (J_Enqueue p true) ≫= λ _,
  modify (λ s, set_num_tasks (s32 (num_tasks_ s + 1)) s) ≫= λ _,
  gets orchs_ ≫= λ os,
  upd_task p (set_orch (match os !! tgid with Some _ => Some tgid | None => None end)) ≫= λ _,
  gets in_discovery_ ≫= λ disc : bool,
  whenM (negb disc)
    (task_at p ≫= λ t,
     match orch t with Some tg => J_GetSchedParams tg (gtid t) | None => abort UseAfterFree end).

Definition J_TaskRunnable (p : Z) (m : Message) : M Shin unit :=
  task_at p ≫= λ t,
  check (has_state kBlocked t) ≫= λ _,
  upd_task p (λ t, set_boost (negb (msg_deferrable m)) (preempted t) t) ≫= λ _,
  J_Enqueue p false.

(** [allocator()->FreeTask(task); num_tasks_--;] *)
Definition j_free (p : Z) : M Shin unit :=
  free_task p ≫= λ _, modify (λ s, set_num_tasks (s32 (num_tasks_ s - 1)) s).

Definition J_TaskDeparted (p : Z) (m : Message) : M Shin unit :=
  task_at p ≫= λ t,
  whenM (has_state kYielding t) (J_Unyield p) ≫= λ _,
  task_at p ≫= λ t,
  (if has_state kOnCpu t then j_clear_current p
   else if has_state kQueued t then J_RemoveFromRunqueue p
   else check (has_state kBlocked t || has_state kPaused t)) ≫= λ _,
  j_free p.

Definition J_TaskDead (p : Z) (m : Message) : M Shin unit :=
  task_at p ≫= λ t, check (has_state kBlocked t) ≫= λ _, j_free p.

Definition J_TaskBlocked (p : Z) (m : Message) : M Shin unit :=
  j_check_runtime p m ≫= λ _,
  task_at p ≫= λ t,
  (if has_state kOnCpu t then
     J_UpdateTaskRuntime p (Nanoseconds absl (msg_runtime m)) true ≫= λ _, j_clear_current p
   else if has_state kQueued t then J_RemoveFromRunqueue p
   else check (has_state kPaused t)) ≫= λ _,
  upd_task p (set_run_state kBlocked).

Definition J_TaskPreempted (p : Z) (m : Message) : M Shin unit :=
  j_check_runtime p m ≫= λ _,
  upd_task p (set_boost true true) ≫= λ _,
  task_at p ≫= λ t,
  if has_state kOnCpu t then
    J_UpdateTaskRuntime p (Nanoseconds absl (msg_runtime m)) true ≫= λ _, j_clear_current p ≫= λ _, J_Enqueue p true
  else if has_state kQueued t then J_RemoveFromRunqueue p ≫= λ _, J_Enqueue p true
  else check (has_state kPaused t).

Definition J_TaskYield (p : Z) (m : Message) : M Shin unit :=
  j_check_runtime p m ≫= λ _,
  task_at p ≫= λ t,
  if has_state kOnCpu t then
    J_UpdateTaskRuntime p (Nanoseconds absl (msg_runtime m)) true ≫= λ _, j_clear_current p ≫= λ _, J_Yield p
  else check (has_state kQueued t || has_state kPaused t).

Definition j_nop : M Shin unit := mret tt.

(** ** The scheduling pass *)

(** [Available] *)
Definition J_Available (c : Z) : M Shin bool :=
  j_cpu c ≫= λ k, if agent k then ask (λ n, j_avail env n c) else abort UseAfterFree.

(** [SkipForSchedule] *)
Definition SkipForSchedule (iteration c : Z) : M Shin bool :=
  j_cpu c ≫= λ k,
  J_Available c ≫= λ a : bool,
  gets global_cpu_ ≫= λ g,
  if negb a || (c =? g) then mret true
  else
    (if (iteration =? 0) && negb (current k =? 0) then
       task_at (current k) ≫= λ t, mret (level (unschedule_level t) <? level kMustUnschedule)
     else mret false) ≫= λ keep : bool,
    if keep then mret true else mret ((iteration =? 1) && negb (next k =? 0)).

(** [should_preempt] for the task [p] that runs. *)
Definition should_preempt (now p : Z) : M Shin bool :=
  task_at p ≫= λ t,
  let elapsed_runtime := time_sub absl now (last_ran t) in
  J_Peek ≫= λ peek,
  if peek =? 0 then mret false
  else
    J_GetQoS p ≫= λ current_qos,
    J_GetQoS peek ≫= λ peek_qos,
    if current_qos <? peek_qos then mret true
    else if current_qos =? peek_qos then
      (if preemption_time_slice_ env <=? elapsed_runtime then
         match orch t with
         | Some tg => j_orch_at tg ≫= λ o, j_sp_at (sp t) ≫= λ x, lift (J_Repeating o x) ≫= λ rep : bool, mret (negb rep)
         | None => mret false
         end
       else mret false) ≫= λ expired : bool,
      if expired then mret true else mret (level kCouldUnschedule <=? level (unschedule_level t))
    else mret false.

(** From the label [again] on: a task for the CPU, or that the loop over the
    CPUs goes on or ends. *)
Inductive Found := FoundTask (p : Z) | FoundSkip | FoundStop.

Fixpoint find_next (fuel : nat) (now c : Z) : M Shin Found :=
  match fuel with
  | O => abort OutOfFuel
  | S fuel =>
      j_cpu c ≫= λ k,
      (if current k =? 0 then mret true else should_preempt now (current k)) ≫= λ go : bool,
      if negb go then mret FoundSkip
      else
        J_Dequeue ≫= λ to_run,
        if to_run =? 0 then mret FoundStop
        else
          task_at to_run ≫= λ t,
          ask (λ n, j_on_cpu env n (gtid t)) ≫= λ on_cpu : bool,
          if on_cpu then J_Yield to_run ≫= λ _, find_next fuel now c
          else mret (FoundTask to_run)
  end.

(** The first loop over [cpus()]; every round of [find_next] but the last takes
    a task out of the queue. *)
Fixpoint find_loop (now iteration : Z) (cs : list Z) (updated_cpus : CpuList) : M Shin CpuList :=
  match cs with
  | [] => mret updated_cpus
  | c :: cs =>
      SkipForSchedule iteration c ≫= λ skip : bool,
      if skip then find_loop now iteration cs updated_cpus
      else
        gets (λ s, S (RunqueueSize (run_queue_ s))) ≫= λ fuel,
        find_next fuel now c ≫= λ r,
        match r with
        | FoundStop => mret updated_cpus
        | FoundSkip => find_loop now iteration cs updated_cpus
        | FoundTask p =>
            upd_cpu c (set_next p) ≫= λ _,
            lift (CpuList_Set c updated_cpus) ≫= λ updated_cpus,
            find_loop now iteration cs updated_cpus
        end
  end.

(** The body of the second loop: without a successor the deferred unschedule of
    the task on [c] is dropped or carried out. *)
Definition settle_one (c : Z) : M Shin unit :=
  j_cpu c ≫= λ k,
  let task := current k in
  whenM (negb (task =? 0))
    (whenM (next k =? 0)
       (task_at task ≫= λ t,
        if has_level kCouldUnschedule t then upd_task task (set_level kNoUnschedule)
        else whenM (has_level kMustUnschedule t) (UnscheduleTask task)) ≫= λ _,
     task_at task ≫= λ t,
     check (negb (next k =? 0) || has_level kNoUnschedule t)).

(** The body of the third loop. *)
Definition open_one (open_cpus : CpuList) (c : Z) : M Shin CpuList :=
  j_cpu c ≫= λ k,
  check (negb (next k =? 0)) ≫= λ _,
  if current k =? next k then mret open_cpus
  else
    task_at (next k) ≫= λ tn,
    modify (add_event (JEvOpen c (gtid tn) (seqnum tn))) ≫= λ _,
    lift (CpuList_Set c open_cpus).

Fixpoint open_loop (cs : list Z) (open_cpus : CpuList) : M Shin CpuList :=
  match cs with
  | [] => mret open_cpus
  | c :: cs => open_one open_cpus c ≫= open_loop cs
  end.

(** One of the two iterations. *)
Definition iteration (now i : Z) (open_cpus : CpuList) : M Shin CpuList :=
  lift (EmptyCpuList (num_cpus_ (j_topo env))) ≫= λ updated_cpus,
  lift (iterate (j_enclave env)) ≫= λ cs,
  find_loop now i cs updated_cpus ≫= λ updated_cpus,
  forM cs settle_one ≫= λ _,
  lift (iterate updated_cpus) ≫= λ us,
  open_loop us open_cpus.

(** The body of the loop over [open_cpus] after the commit. *)
Definition finish_one (c : Z) : M Shin unit :=
  j_cpu c ≫= λ k,
  let next := next k in
  upd_cpu c (set_next 0) ≫= λ _,
  ask (λ n, j_state env n c) ≫= λ state,
  check (is_committed state) ≫= λ _,
  if state =? GHOST_TXN_COMPLETE then
    whenM (negb (current k =? 0))
      (let prev := current k in
       task_at prev ≫= λ tp,
       check (has_state kOnCpu tp) ≫= λ _,
       upd_task prev (set_level kNoUnschedule) ≫= λ _,
       J_UpdateRuntime prev ≫= λ _,
       J_Enqueue prev true) ≫= λ _,
    upd_cpu c (set_current next) ≫= λ _,
    ask (j_now env) ≫= λ now,
    upd_task next (set_latched c now)
  else
    J_Enqueue next false ≫= λ _,
    whenM (negb (current k =? 0))
      (task_at (current k) ≫= λ t,
       whenM (level kCouldUnschedule <=? level (unschedule_level t)) (UnscheduleTask (current k))).

Definition j_unyield_one (p : Z) : M Shin unit :=
  task_at p ≫= λ t, check (has_state kYielding t) ≫= λ _, J_Enqueue p true.

(** The loop over [paused_repeatables_]; the result is what it leaves there. *)
Fixpoint repeatables_loop (l : list Z) : M Shin (list Z) :=
  match l with
  | [] => mret []
  | p :: l =>
      task_at p ≫= λ t,
      match orch t with
      | None => abort CheckFailed
      | Some tg =>
          ask (j_now env) ≫= λ now,
          let wait := time_sub absl now (last_ran t) in
          j_orch_at tg ≫= λ o,
          j_sp_at (sp t) ≫= λ x,
          lift (J_GetWorkClassPeriod o (wcid_ x)) ≫= λ period,
          if period <=? wait then
            J_MakeEngineRunnable tg (sp t) ≫= λ _,
            upd_task p (λ t, set_work (sp t) true (wcid t) t) ≫= λ _,
            J_Enqueue p true ≫= λ _,
            repeatables_loop l
          else repeatables_loop l ≫= λ r, mret (p :: r)
      end
  end.

(** [GlobalSchedule] *)
Definition J_GlobalSchedule : M Shin unit :=
  lift (EmptyCpuList (num_cpus_ (j_topo env))) ≫= λ open_cpus,
  ask (j_now env) ≫= λ now,
  iteration now 0 open_cpus ≫= λ open_cpus,
  iteration now 1 open_cpus ≫= λ open_cpus,
  lift (CpuMap_Empty open_cpus) ≫= λ empty : bool,
  whenM (negb empty) (modify (add_event (JEvCommit open_cpus))) ≫= λ _,
  lift (iterate open_cpus) ≫= λ os,
  forM os finish_one ≫= λ _,
  gets yielding_tasks_ ≫= λ yielding,
  match yielding with
  | [] => mret tt
  | _ => forM yielding j_unyield_one ≫= λ _, modify (set_yielding [])
  end ≫= λ _,
  gets paused_repeatables_ ≫= λ l,
  repeatables_loop l ≫= λ l,
  modify (set_paused l).

(** [PickNextGlobalCPU] *)
Fixpoint j_pick_next_loop (cs : list Z) : M Shin unit :=
  match cs with
  | [] => mret tt
  | c :: cs =>
      J_Available c ≫= λ a : bool,
      gets global_cpu_ ≫= λ g,
      if a && negb (c =? g) then
        j_cpu c ≫= λ k,
        whenM (negb (current k =? 0)) (task_at (current k) ≫= λ prev, check (has_state kOnCpu prev)) ≫= λ _,
        modify (set_global_cpu c) ≫= λ _,
        if j_get_agent env c then modify (add_event (JEvPing c)) else abort UseAfterFree
      else j_pick_next_loop cs
  end.

Definition J_PickNextGlobalCPU : M Shin unit := lift (iterate (j_enclave env)) ≫= j_pick_next_loop.

(** ** The agent *)

#[local] Instance Shin_ops : SchedOps Shin ShinTask := {
  malloc := λ s, j_malloc env (j_allocator s);
  TaskNew := J_TaskNew;
  TaskRunnable := J_TaskRunnable;
  TaskDead := J_TaskDead;
  TaskDeparted := J_TaskDeparted;
  TaskYield := J_TaskYield;
  TaskBlocked := J_TaskBlocked;
  TaskPreempted := J_TaskPreempted;
  TaskSwitchto := λ _ _, j_nop;
  TaskAffinityChanged := λ _ _, j_nop;
  TaskPriorityChanged := λ _ _, j_nop;
  TaskOnCpu := λ _ _, j_nop;
  CpuTick := λ _, j_nop;
  CpuNotIdle := λ _, j_nop;
  CpuTimerExpired := λ _, j_nop;
  CpuAvailable := λ _, j_nop;
  CpuBusy := λ _, j_nop;
  AgentBlocked := λ _, j_nop;
  AgentWakeup := λ _, j_nop
}.

(** One turn of the loop of [AgentThread] on the agent of [c]: [msgs] are the
    messages it finds in the channel. *)
Definition J_AgentThread (c : Z) (boosted_priority : bool) (msgs : list Message) : M Shin unit :=
  gets global_cpu_ ≫= λ g,
  if negb (c =? g) then modify (add_event (JEvYield c))
  else if boosted_priority then J_PickNextGlobalCPU
  else
    forM msgs (@DispatchMessage Shin ShinTask _ _ Shin_ops) ≫= λ _,
    J_UpdateSchedParams ≫= λ _,
    J_GlobalSchedule.

(** The constructor, then [DiscoverTasks] and [EnclaveReady] in the order of
    [Enclave::Ready]. *)
Definition Shin_new (global_cpu : Z) : outcome Shin :=
  CpuList_IsSet (u32 global_cpu) (j_enclave env) ≫= λ set,
  (if (set : bool) then Ok global_cpu
   else Front (j_enclave env) ≫= λ c, match c with Some c => Ok c | None => Crash CheckFailed end) ≫= λ g,
  Ok (mkShin (mkAllocator ∅ ∅) (λ _, mkShinCpu 0 0 false) g 0 false [] [] [] ∅ 0 []).

Definition J_EnclaveReady : M Shin unit :=
  lift (iterate (j_enclave env)) ≫= λ cs,
  forM cs (λ c, upd_cpu c (set_agent (j_get_agent env c)) ≫= λ _, check (j_get_agent env c)).

Definition J_Ready (words : list ((nat → SwRead) * (nat → AssocResult) * Z * Z)) : M Shin unit :=
  @DiscoverTasks Shin ShinTask _ _ Shin_ops J_DiscoveryStart J_DiscoveryComplete (λ _, mret tt) words ≫= λ _,
  J_EnclaveReady.

Definition J_Empty (s : Shin) : bool := num_tasks_ s =? 0.
End shin.
