(* ===== verification/ShinOps.v ===== *)
(** * ShinOps: the invariant of the Shinjuku agent, and its operations on tasks

    Every task is in the queue or slot its state names; the run queue has one
    FIFO queue per QoS, by ascending QoS; a task is queued, running or yielding
    only if it has work, or runs and must be unscheduled.  [jcore p g] is the
    invariant for all tasks but [p], which an operation is working on; the ghost
    [g] says how the queues differ from the fields of the agent in the middle of
    a scheduling pass. *)

From S2P Require Import Prelude Outcome CpuMap CpuMapSpec.
From S2P Require Import Topology TopologySpec Dispatch Placement PrioTable PrioTableSpec Shin.
From stdpp Require Import gmap functions sorting.
From Stdlib Require Import ZArith Lia.

Local Open Scope Z_scope.

(** ** The map of queues *)

(** All queued tasks. *)
Definition queued (m : list (Z * list Z)) : list Z := concat m.*2.

(** [std::map] keeps its keys in order. *)
Definition sorted_keys (m : list (Z * list Z)) : Prop := StronglySorted Z.lt m.*1.

Lemma queued_cons q l m : queued ((q, l) :: m) = l ++ queued m.
Proof. done. Qed.

Lemma RunqueueSize_queued m : RunqueueSize m = length (queued m).
Proof. induction m as [|[q l] m IH]; [done|]. simpl. rewrite queued_cons, length_app. by rewrite IH. Qed.

Lemma RunqueueEmpty_queued m : RunqueueEmpty m = true ↔ queued m = [].
Proof. unfold RunqueueEmpty. rewrite RunqueueSize_queued, Nat.eqb_eq. apply length_zero_iff_nil. Qed.

(** Keys that are not there have no queue. *)
Lemma rq_get_below q m : Forall (Z.lt q) m.*1 → rq_get q m = [].
Proof.
  induction m as [|[q' l] m IH]; [done|]. simpl. intros [H1 H2]%Forall_cons. rewrite (proj2 (Z.eqb_neq q q')) by lia. by apply IH.
Qed.

Lemma rq_get_in q m p : p ∈ rq_get q m → p ∈ queued m.
Proof.
  induction m as [|[q' l] m IH]; simpl; [done|]. rewrite queued_cons, elem_of_app. destruct (q =? q'); [by left|]. intros H. right. by apply IH.
Qed.

Lemma rq_with_keys q f m k : k ∈ (rq_with q f m).*1 → k = q ∨ k ∈ m.*1.
Proof.
  induction m as [|[q' l] m IH]; simpl; [rewrite list_elem_of_singleton; auto|].
  destruct (q <? q'); [simpl; rewrite elem_of_cons; naive_solver|]. destruct (q =? q'); [simpl; naive_solver|]. simpl. rewrite !elem_of_cons. naive_solver.
Qed.

Lemma rq_with_sorted q f m : sorted_keys m → sorted_keys (rq_with q f m).
Proof.
  unfold sorted_keys. induction m as [|[q' l] m IH]; simpl; [intros _; repeat constructor|].
  intros Hs. apply StronglySorted_inv in Hs as [Hs Hf]. destruct (Z.ltb_spec q q') as [Hlt|Hge].
  - simpl. constructor; [by constructor|]. constructor; [done|]. eapply Forall_impl; [exact Hf|]. intros; lia.
  - destruct (Z.eqb_spec q q') as [->|Hne]; [by constructor|]. simpl. constructor; [by apply IH|].
    apply Forall_forall. intros k [->|Hk]%rq_with_keys; [lia|]. by apply (proj1 (Forall_forall _ _) Hf).
Qed.

(** The map as a function from classes to queues. *)
Lemma rq_get_with q f m k :
  sorted_keys m → rq_get k (rq_with q f m) = if k =? q then f (rq_get q m) else rq_get k m.
Proof.
  unfold sorted_keys. induction m as [|[q' l] m IH]; simpl; [intros _; by destruct (k =? q)|].
  intros Hs. apply StronglySorted_inv in Hs as [Hs Hf]. destruct (Z.ltb_spec q q') as [Hlt|Hge].
  - simpl. rewrite (proj2 (Z.eqb_neq q q')) by lia. rewrite (rq_get_below q); [by destruct (k =? q)|].
    eapply Forall_impl; [exact Hf|]. intros; lia.
  - destruct (Z.eqb_spec q q') as [->|Hne]; simpl; [by destruct (k =? q')|].
    destruct (Z.eqb_spec k q') as [->|Hk]; [by rewrite (proj2 (Z.eqb_neq q' q)) by done|]. by apply IH.
Qed.

Lemma rq_with_push q f p m : (∀ l, f l ≡ₚ p :: l) → queued (rq_with q f m) ≡ₚ p :: queued m.
Proof.
  intros Hf. induction m as [|[q' l] m IH]; simpl.
  - rewrite queued_cons, Hf. done.
  - destruct (q <? q'); [by rewrite queued_cons, Hf|]. destruct (q =? q'); rewrite !queued_cons; [by rewrite Hf|].
    rewrite IH. by rewrite Permutation_middle.
Qed.

Lemma rq_with_pop q p l m : rq_get q m = p :: l → sorted_keys m → queued m ≡ₚ p :: queued (rq_with q tail m).
Proof.
  unfold sorted_keys. induction m as [|[q' l'] m IH]; simpl; [done|]. intros Hg Hs. apply StronglySorted_inv in Hs as [Hs Hf].
  destruct (Z.eqb_spec q q') as [->|Hne].
  - rewrite Z.ltb_irrefl, !queued_cons, Hg. done.
  - destruct (Z.ltb_spec q q') as [Hlt|Hge].
    + rewrite (rq_get_below q) in Hg; [done|]. eapply Forall_impl; [exact Hf|]. intros; lia.
    + rewrite !queued_cons, (IH Hg Hs). by rewrite Permutation_middle.
Qed.

(** The highest class with a queue that is not empty. *)
Lemma FirstFilled_spec m :
  sorted_keys m → queued m ≠ [] →
  ∃ q p l, FirstFilledRunqueue m = Ok q ∧ rq_get q m = p :: l ∧ ∀ k, q < k → rq_get k m = [].
Proof.
  unfold sorted_keys, FirstFilledRunqueue. induction m as [|[q l] m IH] using rev_ind; [done|].
  rewrite fmap_app, rev_app_distr. simpl. intros Hs Hne. apply StronglySorted_app in Hs as (Hm & Hs1 & _).
  assert (∀ k, rq_get k (m ++ [(q, l)]) = if k =? q then l else rq_get k m) as Hget.
  { intros k. clear IH Hne Hs1. induction m as [|[q' l'] m IH]; simpl; [done|].
    rewrite IH by (intros x y Hx Hy; apply Hm; [by right|done]). destruct (Z.eqb_spec k q') as [->|]; [|done].
    rewrite (proj2 (Z.eqb_neq q' q)); [done|]. assert (q' < q); [|lia]. apply Hm; by left. }
  assert (∀ k, q ≤ k → rq_get k m = []) as Hab.
  { intros k Hk. clear IH Hne Hget Hs1. induction m as [|[q' l'] m IH]; simpl; [done|].
    assert (q' < q) by (apply Hm; by left). rewrite (proj2 (Z.eqb_neq k q')) by lia. apply IH. intros x y Hx Hy. apply Hm; [by right|done]. }
  destruct l as [|p l].
  - destruct (IH Hs1) as (q0 & p & l & E & Eg & Hk).
    { intros E. apply Hne. unfold queued in *. rewrite fmap_app, concat_app, E. done. }
    exists q0, p, l. split; [done|]. rewrite Hget. destruct (Z.eqb_spec q0 q) as [->|Hq]; [by rewrite Hab in Eg by lia|].
    split; [done|]. intros k Hlt. rewrite Hget. destruct (k =? q); [done|]. by apply Hk.
  - exists q, p, l. split; [done|]. rewrite Hget, Z.eqb_refl. split; [done|]. intros k Hlt. rewrite Hget.
    rewrite (proj2 (Z.eqb_neq k q)) by lia. apply Hab. lia.
Qed.

(** The loops of [RemoveFromRunqueue]. *)
Lemma rfind_none p l k : (k ≤ length l)%nat → p ∉ take k l → rfind p l k = None.
Proof.
  induction k as [|k IH]; intros Hk Hn; [done|]. simpl. destruct (lookup_lt_is_Some_2 l k ltac:(lia)) as [x Hx].
  rewrite (take_S_r l k x Hx), not_elem_of_app, list_elem_of_singleton in Hn. destruct Hn as [H1 H2].
  rewrite bool_decide_eq_false_2 by congruence. apply IH; [lia|done].
Qed.

Lemma rq_erase_spec p m :
  NoDup (queued m) → p ∈ queued m →
  ∃ m', rq_erase p m = Some m' ∧ m'.*1 = m.*1 ∧ queued m ≡ₚ p :: queued m' ∧ ∀ k, rq_get k m' = others p (rq_get k m).
Proof.
  induction m as [|[q l] m IH]; simpl; [by intros _ ?%elem_of_nil|]. rewrite queued_cons. intros Hnd Hp.
  apply NoDup_app in Hnd as (Hl & Hd & Hm). destruct (decide (p ∈ l)) as [Hin|Hn].
  - destruct (rfind_spec p l (length l)) as (i & -> & Hi); [done|by rewrite take_ge|].
    eexists. split; [done|]. split; [done|]. pose proof (delete_others p l i Hl Hi) as Ed. split.
    + rewrite queued_cons, Ed, (others_in p l Hl Hin) at 1. done.
    + intros k. simpl. destruct (k =? q); [done|]. rewrite others_notin; [done|]. intros H%rq_get_in. by apply (Hd p).
  - rewrite rfind_none by (rewrite ?take_ge; done). apply elem_of_app in Hp as [Hp|Hp]; [done|].
    destruct (IH Hm Hp) as (m' & -> & Ek & Ep & Eg). eexists. split; [done|]. split; [change (q :: m'.*1 = q :: m.*1); by rewrite Ek|]. split.
    + rewrite queued_cons, Ep. by rewrite Permutation_middle.
    + intros k. simpl. destruct (k =? q); [by rewrite others_notin|done].
Qed.

(** ** Places *)

Inductive JPlace := JRun | JYield | JCur (c : Z).

Global Instance JPlace_eq_dec : EqDecision JPlace.
Proof. solve_decision. Defined.

Definition j_place (t : ShinTask) : option JPlace :=
  match run_state t with
  | kQueued => Some JRun
  | kYielding => Some JYield
  | kOnCpu => Some (JCur (cpu t))
  | _ => None
  end.

(** In the middle of a pass: the tasks that it took out of the run queue, how
    many of the yielding tasks it has put back, and a CPU the task of which it
    has taken away but for the pointer. *)
Record ghost := mkGhost { g_held : list Z; g_back : nat; g_cur : option Z }.

Definition real : ghost := mkGhost [] 0 None.
Definition with_held (hs : list Z) : ghost := mkGhost hs 0 None.

Definition j_queues (g : ghost) (s : Shin) (k : JPlace) : list Z :=
  match k with
  | JRun => queued (run_queue_ s) ++ g_held g
  | JYield => drop (g_back g) (yielding_tasks_ s)
  | JCur c => if decide (g_cur g = Some c) then [] else slot_list (current (j_cpus s c))
  end.

(** ** The environment *)

Record shin_env_ok (env : ShinEnv) : Prop := {
  je_topo : topo_ok (j_topo env);
  je_wf : cpulist_wf (j_enclave env);
  je_num : topology_num_cpus (j_enclave env) = num_cpus_ (j_topo env);
  je_malloc : ∀ a : TaskAllocator ShinTask, heap a !! 0 = None → j_malloc env a ≠ 0 ∧ heap a !! j_malloc env a = None;
  je_agent : ∀ c, c ∈ elems (j_enclave env) → j_get_agent env c = true;
  je_iter : ∀ os tg, tg ∈ j_iter env os → is_Some (os !! tg)
}.

(** Every thread group has its table when the agent asks for it. *)
Definition attaches (env : ShinEnv) : Prop := ∀ n tg, is_Some (j_attach env n tg).

(** No table has a class of repeating work. *)
Definition one_shot (c : WorkClass) : Prop := truthy (Z.land (wc_flags c) WORK_CLASS_REPEATING) = false.
Definition oneshot (env : ShinEnv) : Prop := ∀ n tg tb, j_attach env n tg = Some tb → Forall one_shot (tb_classes tb).

(** ** The invariant *)

(** What a pointer to parameters points to. *)
Definition j_params_of (s : Shin) (r : SpRef) : option SchedParams :=
  match r with
  | SpNull => None
  | SpDummy => Some zero_params
  | SpItem tg sid => o ← orchs_ s !! tg; cachedsids_ o !! Z.to_nat sid
  end.

Definition put_task (p : Z) (t : ShinTask) (s : Shin) : Shin := set_j_allocator (put_obj p t (j_allocator s)) s.

Section inv.
Context (env : ShinEnv).

#[local] Instance shin_task_type : TaskType ShinTask := ShinTask_type env.

Definition j_enclave_cpu (c : Z) : Prop := c ∈ elems (j_enclave env).

(** What holds of a task at any time. *)
Record jbasic (s : Shin) (t : ShinTask) : Prop := {
  jb_cpu : run_state t = kOnCpu → j_enclave_cpu (cpu t);
  jb_level : run_state t ≠ kOnCpu → unschedule_level t = kNoUnschedule;
  jb_gtid : gtid t ≠ 0;
  jb_params : ∀ tg sid, sp t = SpItem tg sid → ∃ x, j_params_of s (sp t) = Some x ∧ gpid_ x = gtid t;
  jb_null : sp t = SpNull → has_work t = false ∧ (run_state t = kBlocked ∨ run_state t = kPaused);
  jb_orch : ∀ tg, orch t = Some tg → is_Some (orchs_ s !! tg)
}.

(** Whether a task has work and where it is agree; a running task without work
    must be unscheduled. *)
Definition jwork (t : ShinTask) : Prop :=
  match run_state t with
  | kBlocked => True
  | kPaused => has_work t = false
  | kQueued | kYielding => has_work t = true
  | kOnCpu => if has_work t then unschedule_level t ≠ kMustUnschedule else unschedule_level t = kMustUnschedule
  end.

(** The task knows what the copy of its item says. *)
Definition jsynced (s : Shin) (t : ShinTask) : Prop :=
  ∀ tg sid x, sp t = SpItem tg sid → j_params_of s (sp t) = Some x → HasWork x = has_work t.

Definition jsettled (s : Shin) (t : ShinTask) : Prop := jwork t ∧ jsynced s t.

(** [up]: the agents have started. *)
Record jcore (up : Prop) (p : Z) (g : ghost) (s : Shin) : Prop := {
  jc_alloc : alloc_inv (j_allocator s);
  jc_rest : at_rest j_place (heap (j_allocator s)) (j_queues g s);
  jc_keys : sorted_keys (run_queue_ s);
  jc_basic : ∀ q t, heap (j_allocator s) !! q = Some t → jbasic s t;
  jc_settled : ∀ q t, q ≠ p → heap (j_allocator s) !! q = Some t → jsettled s t;
  jc_agent : up → ∀ c, j_enclave_cpu c → agent (j_cpus s c) = true;
  jc_global : j_enclave_cpu (global_cpu_ s);
  jc_oneshot : oneshot env → paused_repeatables_ s = [] ∧ ∀ tg o, orchs_ s !! tg = Some o → Forall one_shot (work_classes o)
}.

(** All tasks are in order: 0 is no task. *)
Definition jmid (up : Prop) (g : ghost) (s : Shin) : Prop := jcore up 0 g s.

End inv.

Section facts.
Context (env : ShinEnv) (up : Prop).

#[local] Instance shin_facts_task_type : TaskType ShinTask := ShinTask_type env.

Notation j_enclave_cpu := (j_enclave_cpu env).
Notation jbasic := (jbasic env).
Notation jcore := (jcore env up).
Notation jmid := (jmid env up).

(** ** Consequences *)

Lemma j_enclave_range c : shin_env_ok env → j_enclave_cpu c → 0 ≤ c < num_cpus_ (j_topo env) ∧ c < MAX_CPUS.
Proof.
  intros Henv Hc. pose proof (elems_lt _ _ (je_wf _ Henv) Hc) as H. pose proof (wf_cpus _ (je_wf _ Henv)).
  rewrite <- (je_num _ Henv). unfold MAX_CPUS. lia.
Qed.

Lemma j_nonzero p g s q t : jcore p g s → heap (j_allocator s) !! q = Some t → q ≠ 0.
Proof. intros Hi Hq ->. pose proof (jc_alloc _ _ _ _ _ Hi) as [H _]. congruence. Qed.

Lemma jmid_core p g s : jmid g s → jcore p g s.
Proof.
  intros [H1 H2 H3 H4 H5 H6 H7 H8]. split; try done. intros q t _ Hq. apply (H5 q t); [|done]. destruct H1 as [H1 _]. congruence.
Qed.

Lemma jmid_settled g s p t : jmid g s → heap (j_allocator s) !! p = Some t → jsettled s t.
Proof. intros Hi Hp. eapply jc_settled; [done| |done]. by eapply j_nonzero. Qed.

Lemma jcore_mid p g s : jcore p g s → (∀ t, heap (j_allocator s) !! p = Some t → jsettled s t) → jmid g s.
Proof.
  intros [H1 H2 H3 H4 H5 H6 H7 H8] Hw. split; try done. intros q t _ Hq. destruct (decide (q = p)) as [->|Hne]; [by apply Hw|by eapply H5].
Qed.

(** The task of a CPU, and the CPU of a task. *)
Lemma j_on_cpu_current p g s q t :
  jcore p g s → g_cur g = None → heap (j_allocator s) !! q = Some t → run_state t = kOnCpu →
  j_enclave_cpu (cpu t) ∧ current (j_cpus s (cpu t)) = q ∧ q ≠ 0.
Proof.
  intros Hi Hg Hq Hst. split; [by eapply jb_cpu; [eapply jc_basic|]|].
  assert (q ∈ j_queues g s (JCur (cpu t))) as Hin.
  { eapply rest_in; [apply (jc_rest _ _ _ _ _ Hi)|done|]. unfold j_place. by rewrite Hst. }
  simpl in Hin. rewrite Hg in Hin. apply elem_of_slot in Hin as [H1 H2]. subst q. done.
Qed.

Lemma j_current_on_cpu p g s c :
  jcore p g s → g_cur g ≠ Some c → current (j_cpus s c) ≠ 0 →
  ∃ t, heap (j_allocator s) !! current (j_cpus s c) = Some t ∧ run_state t = kOnCpu ∧ cpu t = c.
Proof.
  intros Hi Hg Hc. destruct (rest_live _ _ _ (current (j_cpus s c)) (JCur c) (jc_rest _ _ _ _ _ Hi)) as (t & Ht & E).
  { simpl. rewrite decide_False by done. by apply elem_of_slot. }
  exists t. unfold j_place in E. destruct (run_state t); try done. by injection E.
Qed.

Lemma j_in_queue p g s q :
  jcore p g s → q ∈ j_queues g s JRun ↔ ∃ t, heap (j_allocator s) !! q = Some t ∧ run_state t = kQueued.
Proof.
  intros Hi. rewrite (proj1 (jc_rest _ _ _ _ _ Hi)). unfold j_place. split; intros (t & Ht & E); exists t; (split; [done|]).
  - by destruct (run_state t).
  - by rewrite E.
Qed.

Lemma j_in_yield p g s q :
  jcore p g s → q ∈ j_queues g s JYield ↔ ∃ t, heap (j_allocator s) !! q = Some t ∧ run_state t = kYielding.
Proof.
  intros Hi. rewrite (proj1 (jc_rest _ _ _ _ _ Hi)). unfold j_place. split; intros (t & Ht & E); exists t; (split; [done|]).
  - by destruct (run_state t).
  - by rewrite E.
Qed.

(** Parameters that can be read. *)
Lemma j_has_params s t : jbasic s t → sp t ≠ SpNull → ∃ x, j_params_of s (sp t) = Some x.
Proof.
  intros Hb Hn. destruct (sp t) as [| |tg sid] eqn:E; [done|by exists zero_params|].
  destruct (jb_params _ _ _ Hb tg sid E) as (x & Hx & _). rewrite E in Hx. by exists x.
Qed.

Lemma j_work_params s t : jbasic s t → has_work t = true → ∃ x, j_params_of s (sp t) = Some x.
Proof. intros Hb Hw. apply j_has_params; [done|]. intros E. destruct (jb_null _ _ _ Hb E). congruence. Qed.

Lemma j_params_orchs s s' r : orchs_ s' = orchs_ s → j_params_of s' r = j_params_of s r.
Proof. intros E. destruct r; simpl; by rewrite ?E. Qed.

Lemma jbasic_orchs s s' t : orchs_ s' = orchs_ s → jbasic s t → jbasic s' t.
Proof.
  intros E []. split; try done.
  - intros tg sid H. rewrite (j_params_orchs s) by done. by eapply jb_params0.
  - intros tg H. rewrite E. by apply jb_orch0.
Qed.

Lemma jsynced_orchs s s' t : orchs_ s' = orchs_ s → jsynced s t → jsynced s' t.
Proof. intros E H tg sid x Es. rewrite (j_params_orchs s) by done. by apply (H tg sid). Qed.

Lemma jsettled_orchs s s' t : orchs_ s' = orchs_ s → jsettled s t → jsettled s' t.
Proof. intros E []. split; [done|by eapply jsynced_orchs]. Qed.

(** ** What an operation did *)

(** What no operation loses, whichever tasks it changed; no task is put on a
    CPU. *)
Record still (s s' : Shin) : Prop := {
  st_dom : dom (heap (j_allocator s')) = dom (heap (j_allocator s));
  st_map : task_map_ (j_allocator s') = task_map_ (j_allocator s);
  st_num : num_tasks_ s' = num_tasks_ s;
  st_disc : in_discovery_ s' = in_discovery_ s;
  st_global : global_cpu_ s' = global_cpu_ s;
  st_next : ∀ c, next (j_cpus s' c) = next (j_cpus s c);
  st_orchs : ∀ tg, is_Some (orchs_ s !! tg) → is_Some (orchs_ s' !! tg);
  st_oncpu : ∀ q t', heap (j_allocator s') !! q = Some t' → run_state t' = kOnCpu →
               ∃ t, heap (j_allocator s) !! q = Some t ∧ run_state t = kOnCpu
}.

Global Instance still_refl : Reflexive still.
Proof. intros s. split; try done. intros q t Hq Hst. by exists t. Qed.

Global Instance still_trans : Transitive still.
Proof.
  intros s1 s2 s3 [H1 H2 H3 H4 H5 H6 H7 H8] [H1' H2' H3' H4' H5' H6' H7' H8'].
  split; [congruence..|intros c; by rewrite H6'|auto|].
  intros q t' Hq Hst. destruct (H8' q t' Hq Hst) as (t & Ht & Hst'). by apply (H8 q t).
Qed.

(** Only the task [p] changed. *)
Record calm (p : Z) (s s' : Shin) : Prop := {
  cm_still : still s s';
  cm_others : ∀ q, q ≠ p → heap (j_allocator s') !! q = heap (j_allocator s) !! q
}.

Global Instance calm_refl p : Reflexive (calm p).
Proof. intros s. by split. Qed.

Global Instance calm_trans p : Transitive (calm p).
Proof. intros s1 s2 s3 [H1 H2] [H1' H2']. split; [by etrans|]. intros q Hq. by rewrite H2', H2. Qed.

Lemma j_calm_put p t t1 s :
  heap (j_allocator s) !! p = Some t → (run_state t1 = kOnCpu → run_state t = kOnCpu) → calm p s (put_task p t1 s).
Proof.
  intros Hp Hst. split; [split; try done|].
  - simpl. rewrite dom_insert_L. apply elem_of_dom_2 in Hp. set_solver.
  - intros q t'. simpl. intros [[<- <-]|[Hne Hq]]%lookup_insert_Some Hst'; [by exists t; auto|by exists t'].
  - intros q Hq. simpl. by rewrite lookup_insert_ne.
Qed.

(** The tasks stay. *)
Lemma j_calm_same p s s' :
  j_allocator s' = j_allocator s → num_tasks_ s' = num_tasks_ s → in_discovery_ s' = in_discovery_ s → global_cpu_ s' = global_cpu_ s →
  (∀ c, next (j_cpus s' c) = next (j_cpus s c)) → (∀ tg, is_Some (orchs_ s !! tg) → is_Some (orchs_ s' !! tg)) → calm p s s'.
Proof. intros Ea Hn Hd Hg Hx Ho. split; [split; rewrite ?Ea; try done|by rewrite Ea]. intros q t Hq Hst. by exists t. Qed.
End facts.

(** ** Changes *)

Section rest.
Context {T K : Type} `{!EqDecision K} (place : T → option K).

Lemma rest_perm (h : gmap Z T) (q q' : K → list Z) : at_rest place h q → (∀ k, q' k ≡ₚ q k) → at_rest place h q'.
Proof. intros [H Hnd] E. split; [intros p k; rewrite E; apply H|intros k; rewrite E; apply Hnd]. Qed.

(** A task enters a queue, or leaves the one it is in. *)
Lemma rest_put (h : gmap Z T) (q q' : K → list Z) p t t1 k0 :
  at_rest place h q → h !! p = Some t → place t = None → place t1 = Some k0 →
  (∀ k, q' k ≡ₚ if decide (k = k0) then p :: q k else q k) → at_rest place (<[p := t1]> h) q'.
Proof.
  intros Hr Hp E E1 Hq. assert (∀ k, p ∉ q k) as Hn by (intros k; eapply rest_out; [done..|congruence]).
  apply (rest_upd place h q); [done|..].
  - intros k r Hne. rewrite Hq. case_decide; [|done]. rewrite elem_of_cons. naive_solver.
  - intros k. rewrite Hq, E1. case_decide as Ek; [subst; rewrite elem_of_cons; naive_solver|].
    split; [by intros ?%Hn|congruence].
  - intros k. rewrite Hq. case_decide; [constructor; [apply Hn|]|]; apply Hr.
Qed.

Lemma rest_take (h : gmap Z T) (q q' : K → list Z) p t t1 k0 :
  at_rest place h q → h !! p = Some t → place t = Some k0 → place t1 = None →
  (∀ k, q k ≡ₚ if decide (k = k0) then p :: q' k else q' k) → at_rest place (<[p := t1]> h) q'.
Proof.
  intros Hr Hp E E1 Hq. assert (∀ k, NoDup (q' k) ∧ p ∉ q' k) as Hn.
  { intros k. pose proof (proj2 Hr k) as Hnd. rewrite Hq in Hnd. case_decide as Ek; [by apply NoDup_cons in Hnd as [? ?]|]. split; [done|].
    intros Hin. assert (p ∈ q k) as Hin' by (rewrite Hq, decide_False by done; done). revert Hin'.
    eapply rest_out; [done..|congruence]. }
  apply (rest_upd place h q); [done|..].
  - intros k r Hne. rewrite Hq. case_decide; [|done]. rewrite elem_of_cons. naive_solver.
  - intros k. rewrite E1. split; [|done]. by intros ?%Hn.
  - intros k. apply Hn.
Qed.
End rest.

(** What the operations on tasks and queues leave alone. *)
Record aside (s s' : Shin) : Prop := {
  as_orchs : orchs_ s' = orchs_ s;
  as_agent : ∀ c, agent (j_cpus s' c) = agent (j_cpus s c);
  as_global : global_cpu_ s' = global_cpu_ s;
  as_paused : paused_repeatables_ s' = paused_repeatables_ s
}.

Section changes.
Context (env : ShinEnv) (up : Prop).

#[local] Instance shin_changes_task_type : TaskType ShinTask := ShinTask_type env.

Notation j_enclave_cpu := (j_enclave_cpu env).
Notation jbasic := (jbasic env).
Notation jcore := (jcore env up).
Notation jmid := (jmid env up).

Lemma jcore_change p g s g' s' t t1 :
  jcore p g s → heap (j_allocator s) !! p = Some t → j_allocator s' = put_obj p t1 (j_allocator s) →
  at_rest j_place (<[p := t1]> (heap (j_allocator s))) (j_queues g' s') → sorted_keys (run_queue_ s') →
  gtid t1 = gtid t → jbasic s t1 → aside s s' → jcore p g' s'.
Proof.
  intros Hi Hp Ea Hr Hk Hg Hb [E1 E2 E3 E4].
  assert (∀ q u, heap (j_allocator s') !! q = Some u → (q = p ∧ u = t1) ∨ (q ≠ p ∧ heap (j_allocator s) !! q = Some u)) as Hheap.
  { intros q u Hu. rewrite Ea in Hu. simpl in Hu. apply lookup_insert_Some in Hu as [[<- <-]|[? ?]]; [by left|by right]. }
  split.
  - rewrite Ea. by eapply alloc_inv_upd; [apply Hi|..].
  - by rewrite Ea.
  - done.
  - intros q u [[-> ->]|[Hne Hu]]%Hheap; apply (jbasic_orchs _ s); [done|done|done|by eapply jc_basic].
  - intros q u Hne [[-> ->]|[_ Hu]]%Hheap; [done|]. apply (jsettled_orchs s); [done|by eapply jc_settled].
  - intros Hup c. rewrite E2. by apply (jc_agent _ _ _ _ _ Hi).
  - rewrite E3. apply (jc_global _ _ _ _ _ Hi).
  - rewrite E1, E4. apply (jc_oneshot _ _ _ _ _ Hi).
Qed.

(** Nothing happens to the tasks. *)
Lemma jcore_same p g s g' s' :
  jcore p g s → j_allocator s' = j_allocator s → (∀ k, j_queues g' s' k ≡ₚ j_queues g s k) → sorted_keys (run_queue_ s') →
  aside s s' → jcore p g' s'.
Proof.
  intros Hi Ea Hq Hk [E1 E2 E3 E4]. split.
  - rewrite Ea. apply Hi.
  - rewrite Ea. eapply rest_perm; [apply Hi|done].
  - done.
  - rewrite Ea. intros q u Hu. apply (jbasic_orchs _ s); [done|by eapply jc_basic].
  - rewrite Ea. intros q u Hne Hu. apply (jsettled_orchs s); [done|by eapply jc_settled].
  - intros Hup c. rewrite E2. by apply (jc_agent _ _ _ _ _ Hi).
  - rewrite E3. apply (jc_global _ _ _ _ _ Hi).
  - rewrite E1, E4. apply (jc_oneshot _ _ _ _ _ Hi).
Qed.

Lemma jcore_tick p g s : jcore p g s → jcore p g (tick s).
Proof. intros Hi. apply (jcore_same p g s); try done. apply Hi. Qed.

Lemma jcore_event p g e s : jcore p g s → jcore p g (add_event e s).
Proof. intros Hi. apply (jcore_same p g s); try done. apply Hi. Qed.

(** A task changes and stays where it is. *)
Lemma jcore_put p g s t t1 :
  jcore p g s → heap (j_allocator s) !! p = Some t → j_place t1 = j_place t → gtid t1 = gtid t → jbasic s t1 →
  jcore p g (put_task p t1 s).
Proof.
  intros Hi Hp Epl Eg Hb. eapply (jcore_change p g s); [done|done|done| |apply Hi|done|done|done].
  eapply rest_same; [apply Hi|done|done].
Qed.

(** New copies of the parameters: no other task sees the difference. *)
Lemma jcore_orchs p g s os :
  jcore p g s →
  (∀ r x, j_params_of s r = Some x → gpid_ x ≠ 0 → ∃ x', j_params_of (set_orchs os s) r = Some x' ∧ gpid_ x' = gpid_ x) →
  (∀ q t tg sid x', q ≠ p → heap (j_allocator s) !! q = Some t → sp t = SpItem tg sid →
     j_params_of (set_orchs os s) (sp t) = Some x' → ∃ x, j_params_of s (sp t) = Some x ∧ HasWork x' = HasWork x) →
  (∀ tg, is_Some (orchs_ s !! tg) → is_Some (os !! tg)) →
  (oneshot env → ∀ tg o, os !! tg = Some o → Forall one_shot (work_classes o)) →
  jcore p g (set_orchs os s).
Proof.
  intros Hi Hpar Hwork Hos Hone. split.
  - apply (jc_alloc _ _ _ _ _ Hi).
  - apply (jc_rest _ _ _ _ _ Hi).
  - apply (jc_keys _ _ _ _ _ Hi).
  - intros q t Hq. pose proof (jc_basic _ _ _ _ _ Hi q t Hq) as []. split; try done.
    + intros tg sid E. destruct (jb_params0 tg sid E) as (x & Hx & Eg). rewrite <- Eg. apply Hpar; [done|]. by rewrite Eg.
    + intros tg E. apply Hos. by apply jb_orch0.
  - intros q t Hne Hq. destruct (jc_settled _ _ _ _ _ Hi q t Hne Hq) as [Hw Hs]. split; [done|].
    intros tg sid x' E Hx'. destruct (Hwork q t tg sid x' Hne Hq E Hx') as (x & Hx & ->). by apply (Hs tg sid).
  - apply (jc_agent _ _ _ _ _ Hi).
  - apply (jc_global _ _ _ _ _ Hi).
  - intros H1. split; [by apply (jc_oneshot _ _ _ _ _ Hi)|by apply Hone].
Qed.

(** ** A task that is nowhere, whatever its state says *)

Definition idle (t : ShinTask) : ShinTask := set_level kNoUnschedule (set_run_state kBlocked t).

Record lifted (p : Z) (t : ShinTask) (g : ghost) (s : Shin) : Prop := {
  lf_at : heap (j_allocator s) !! p = Some t;
  lf_core : jcore p g (put_task p (idle t) s)
}.

Lemma put_twice p t t1 s : put_task p t1 (put_task p t s) = put_task p t1 s.
Proof. unfold put_task, put_obj, set_j_allocator. simpl. by rewrite insert_insert_eq. Qed.

Lemma jbasic_idle s t : jbasic s t → jbasic s (idle t).
Proof. intros []. split; try done. intros E. split; [by apply jb_null0|by left]. Qed.

Lemma lifted_idle p t g s : lifted p t g s → jbasic s (idle t).
Proof.
  intros [Hp Hc]. apply (jbasic_orchs _ (put_task p (idle t) s)); [done|]. eapply jc_basic; [exact Hc|apply lookup_insert_eq].
Qed.

(** Its state is irrelevant. *)
Lemma j_lifted_put p t t1 g s : lifted p t g s → gtid t1 = gtid t → jbasic s (idle t1) → lifted p t1 g (put_task p t1 s).
Proof.
  intros [Hp Hc] Eg Hb. split; [apply lookup_insert_eq|]. rewrite put_twice. rewrite <- (put_twice p (idle t)).
  eapply jcore_put; [exact Hc|apply lookup_insert_eq|done|done|]. by apply (jbasic_orchs _ s).
Qed.

Lemma j_core_lifted p t g s : jcore p g s → heap (j_allocator s) !! p = Some t → j_place t = None → lifted p t g s.
Proof.
  intros Hi Hp Hpl. split; [done|]. eapply jcore_put; [done|done|by rewrite Hpl|done|]. apply jbasic_idle. by eapply jc_basic.
Qed.

(** It leaves its queue; [s'] and [g'] have the queues without it. *)
Lemma j_leave_lifted p t g s g' s' k0 :
  jcore p g s → heap (j_allocator s) !! p = Some t → j_place t = Some k0 → j_allocator s' = j_allocator s →
  (∀ k, j_queues g s k ≡ₚ if decide (k = k0) then p :: j_queues g' s' k else j_queues g' s' k) →
  sorted_keys (run_queue_ s') → aside s s' → lifted p t g' s'.
Proof.
  intros Hi Hp Hpl Ea Hq Hk Ha. split; [by rewrite Ea|].
  eapply (jcore_change p g s g' _ t (idle t)); [done|done|simpl; by rewrite Ea| |done|done| |].
  - eapply (rest_take _ _ (j_queues g s)); [apply Hi|done|done|done|exact Hq].
  - apply jbasic_idle. by eapply jc_basic.
  - destruct Ha. by split.
Qed.

(** It settles in a state that says that it is nowhere. *)
Lemma j_lifted_settle p t t1 g s :
  lifted p t g s → j_place t1 = None → gtid t1 = gtid t → jbasic s t1 → jcore p g (put_task p t1 s).
Proof.
  intros [Hp Hc] Hpl Eg Hb. rewrite <- (put_twice p (idle t)).
  eapply jcore_put; [exact Hc|apply lookup_insert_eq|by rewrite Hpl|done|]. by apply (jbasic_orchs _ s).
Qed.

(** It enters a queue. *)
Lemma j_lifted_enter p t t1 g s g' s' k0 :
  lifted p t g s → j_place t1 = Some k0 → gtid t1 = gtid t → jbasic s t1 → j_allocator s' = put_obj p t1 (j_allocator s) →
  (∀ k, j_queues g' s' k ≡ₚ if decide (k = k0) then p :: j_queues g s k else j_queues g s k) →
  sorted_keys (run_queue_ s') → aside s s' → jcore p g' s'.
Proof.
  intros [Hp Hc] Hpl Eg Hb Ea Hq Hk [E1 E2 E3 E4].
  eapply (jcore_change p g (put_task p (idle t) s) g' s' (idle t) t1); [done|apply lookup_insert_eq| | |done|done|by apply (jbasic_orchs _ s)|by split].
  - rewrite Ea. unfold put_obj. simpl. by rewrite insert_insert_eq.
  - eapply (rest_put _ _ (j_queues g s)); [apply (jc_rest _ _ _ _ _ Hc)|apply lookup_insert_eq|done|done|exact Hq].
Qed.

Lemma lifted_nonzero p t g s : lifted p t g s → p ≠ 0.
Proof. intros [_ Hc]. eapply j_nonzero; [exact Hc|apply lookup_insert_eq]. Qed.

(** The other tasks are as they were. *)
Lemma lifted_settled p t g s q u : lifted p t g s → q ≠ p → heap (j_allocator s) !! q = Some u → jsettled s u.
Proof.
  intros [_ Hc] Hne Hq. apply (jsettled_orchs (put_task p (idle t) s)); [done|].
  eapply jc_settled; [exact Hc|done|]. simpl. by rewrite lookup_insert_ne.
Qed.
End changes.

(** ** Operations *)

(** What stops the agent: a CHECK, an index out of range and, if a thread group
    may lack a table or have repeating work, a dangling or null pointer. *)
Definition shin_stop (env : ShinEnv) (f : fault) : Prop :=
  f ≠ OutOfFuel ∧ (f = UseAfterFree → ¬ (attaches env ∧ oneshot env)).

Notation jwp env := (wpf (shin_stop env)).

Definition hold (p : Z) (g : ghost) : ghost := mkGhost (p :: g_held g) (g_back g) (g_cur g).

(** [p], which was [t], is in the run queue or paused. *)
Record enqueued (env : ShinEnv) (up : Prop) (p : Z) (t : ShinTask) (g : ghost) (s s' : Shin) : Prop := {
  eq_core : jcore env up p g s';
  eq_at : heap (j_allocator s') !! p = Some (set_run_state (if has_work t then kQueued else kPaused) t);
  eq_calm : calm p s s';
  eq_aside : aside s s';
  eq_cpus : j_cpus s' = j_cpus s;
  eq_yielding : yielding_tasks_ s' = yielding_tasks_ s
}.

Section ops.
Context (env : ShinEnv) (up : Prop).

#[local] Instance shin_ops_task_type : TaskType ShinTask := ShinTask_type env.

Notation j_enclave_cpu := (j_enclave_cpu env).
Notation jbasic := (jbasic env).
Notation jcore := (jcore env up).
Notation jmid := (jmid env up).
Notation lifted := (lifted env up).

Lemma jstop_check : shin_stop env CheckFailed.
Proof. done. Qed.

Lemma jstop_bounds : shin_stop env OutOfBounds.
Proof. done. Qed.

Lemma jwp_check b s (Q : unit → Shin → Prop) : (b = true → Q tt s) → jwp env (check b) s Q.
Proof. apply wpf_check, jstop_check. Qed.

Lemma jwp_task p t s (Q : ShinTask → Shin → Prop) : heap (j_allocator s) !! p = Some t → Q t s → jwp env (task_at p) s Q.
Proof. intros Hp HQ. apply wpf_wp. eapply wp_task; [exact Hp|done]. Qed.

Lemma jwp_upd p t f s (Q : unit → Shin → Prop) :
  heap (j_allocator s) !! p = Some t → Q tt (put_task p (f t) s) → jwp env (upd_task p f) s Q.
Proof. intros Hp HQ. apply wpf_wp. eapply wp_upd; [exact Hp|done]. Qed.

Lemma jwp_ask {A} (f : nat → A) s (Q : A → Shin → Prop) : Q (f (asked s)) (tick s) → jwp env (ask f) s Q.
Proof. done. Qed.

Lemma jwp_lift {A} (m : outcome A) s (Q : A → Shin → Prop) :
  (∀ a, m = Ok a → Q a s) → (∀ f, m = Crash f → shin_stop env f) → jwp env (lift m) s Q.
Proof. apply wpf_lift. Qed.

Lemma jwp_orch tg o s (Q : ShinOrch → Shin → Prop) : orchs_ s !! tg = Some o → Q o s → jwp env (j_orch_at tg) s Q.
Proof. intros E HQ. unfold j_orch_at. fstep. fstep. by rewrite E. Qed.

Lemma j_state_true r t : has_state r t = true ↔ run_state t = r.
Proof. apply bool_decide_eq_true. Qed.

Lemma j_state_false r t : has_state r t = false ↔ run_state t ≠ r.
Proof. apply bool_decide_eq_false. Qed.

Lemma has_level_true u t : has_level u t = true ↔ unschedule_level t = u.
Proof. apply bool_decide_eq_true. Qed.

Lemma has_level_false u t : has_level u t = false ↔ unschedule_level t ≠ u.
Proof. apply bool_decide_eq_false. Qed.

(** The QoS of a task's parameters. *)
Lemma j_wp_sp r x s (Q : SchedParams → Shin → Prop) : j_params_of s r = Some x → Q x s → wp (j_sp_at r) s Q.
Proof.
  intros Hx HQ. destruct r as [| |tg sid]; simpl in *; [done|by injection Hx as <-|]. unfold j_orch_at.
  wpstep. wpstep. wpstep. destruct (orchs_ s !! tg) as [o|]; [|done]. wpstep. simpl in Hx. wpstep. unfold j_params_at. by rewrite Hx.
Qed.

Lemma j_wp_QoS p t x s (Q : Z → Shin → Prop) :
  heap (j_allocator s) !! p = Some t → j_params_of s (sp t) = Some x → Q (qos_ x) s → wp (J_GetQoS p) s Q.
Proof. intros Hp Hx HQ. unfold J_GetQoS. wpstep. eapply wp_task; [exact Hp|]. wpstep. eapply j_wp_sp; [exact Hx|]. by wpstep. Qed.

(** A task that is nowhere may take any state that fits it. *)
Lemma j_idle_basic s t r :
  jbasic s (idle t) → unschedule_level t = kNoUnschedule → r ≠ kOnCpu → has_work t = true ∨ r = kBlocked ∨ r = kPaused →
  jbasic s (set_run_state r t).
Proof.
  intros [H1 H2 H3 H4 H5 H6] Hl Hr Hw. split; try done. simpl in *. intros E. destruct (H5 E) as [Hn _]. split; [done|]. destruct Hw; [congruence|done].
Qed.

Lemma jbasic_put s p t t' : jbasic (put_task p t s) t' ↔ jbasic s t'.
Proof. split; by apply jbasic_orchs. Qed.

(** [Enqueue] *)
Lemma j_Enqueue_eq p t back s :
  heap (j_allocator s) !! p = Some t → unschedule_level t = kNoUnschedule → (has_work t = true → ∃ x, j_params_of s (sp t) = Some x) →
  ∃ qos, J_Enqueue p back s = Ok (tt,
    if has_work t then
      set_run_queue (rq_with qos (λ l, if back && negb (prio_boost t) then l ++ [p] else p :: l) (run_queue_ s))
        (put_task p (set_run_state kQueued t) s)
    else put_task p (set_run_state kPaused t) s) ∧
    (∀ x, j_params_of s (sp t) = Some x → qos = qos_ x).
Proof.
  intros Hp Hl Hx. destruct (has_work t) eqn:Hw.
  - destruct (Hx eq_refl) as [x Ex]. exists (qos_ x). split; [|intros y Ey; congruence].
    apply (wp_ok_eq). unfold J_Enqueue. wpstep. eapply wp_task; [exact Hp|]. wpstep. wpstep; [by apply has_level_true|].
    rewrite Hw. simpl. wpstep. eapply wp_upd; [exact Hp|]. wpstep. eapply j_wp_QoS; [apply lookup_insert_eq|exact Ex|]. wpstep. done.
  - exists (default 0 (qos_ <$> j_params_of s (sp t))). split; [|by intros x ->].
    apply (wp_ok_eq). unfold J_Enqueue. wpstep. eapply wp_task; [exact Hp|]. wpstep. wpstep; [by apply has_level_true|].
    rewrite Hw. simpl. eapply wp_upd; [exact Hp|]. done.
Qed.

Lemma enqueue_perm (b : bool) (l : list Z) p : (if b then l ++ [p] else p :: l) ≡ₚ p :: l.
Proof. destruct b; [|done]. by rewrite Permutation_app_comm. Qed.

Lemma j_wp_Enqueue p t back g s (Q : unit → Shin → Prop) :
  lifted p t g s → unschedule_level t = kNoUnschedule → (∀ s', enqueued env up p t g s s' → Q tt s') → wp (J_Enqueue p back) s Q.
Proof.
  intros Hl Hlev HQ. pose proof (lf_at _ _ _ _ _ _ Hl) as Hp. pose proof (lifted_idle _ _ _ _ _ _ Hl) as Hb.
  destruct (j_Enqueue_eq p t back s Hp Hlev) as (qos & E & _).
  { intros Hw. apply (j_work_params env s (idle t)); [done|exact Hw]. }
  apply (wp_ok_intro _ _ _ _ _ E). apply HQ. clear E. destruct (has_work t) eqn:Hw.
  - split; rewrite ?Hw; try done; [|apply lookup_insert_eq|].
    + eapply (j_lifted_enter _ _ p t (set_run_state kQueued t) g s g _ JRun); [exact Hl|done|done| |done| | |by split].
      * apply j_idle_basic; [done|done|done|by left].
      * intros k. destruct k as [| |c]; simpl; [|done|done]. rewrite (rq_with_push qos _ p) by (intros l; apply enqueue_perm). done.
      * apply rq_with_sorted. apply (jc_keys _ _ _ _ _ (lf_core _ _ _ _ _ _ Hl)).
    + etrans; [by apply (j_calm_put p t (set_run_state kQueued t))|]. by apply j_calm_same.
  - split; rewrite ?Hw; try done; [|apply lookup_insert_eq|by apply (j_calm_put p t)].
    eapply j_lifted_settle; [exact Hl|done|done|]. apply j_idle_basic; [done|done|done|by right; right].
Qed.

Lemma jwp_Enqueue p t back g s (Q : unit → Shin → Prop) :
  lifted p t g s → (∀ s', enqueued env up p t g s s' → Q tt s') → jwp env (J_Enqueue p back) s Q.
Proof.
  intros Hl HQ. destruct (decide (unschedule_level t = kNoUnschedule)) as [E|E]; [by apply wpf_wp; eapply j_wp_Enqueue|].
  unfold J_Enqueue. fstep. eapply jwp_task; [apply Hl|]. fstep. apply jwp_check. intros H%has_level_true. done.
Qed.

(** A task whose work agrees with its item is settled by it. *)
Lemma enqueued_mid p t g s s' : enqueued env up p t g s s' → jsynced s t → jmid g s'.
Proof.
  intros [Hc Hp _ Ha _ _] Hs. apply (jcore_mid _ _ p); [done|]. intros t' Ht'. rewrite Hp in Ht'. injection Ht' as <-.
  split; [unfold jwork; by destruct (has_work t) eqn:E|]. apply (jsynced_orchs s); [apply Ha|exact Hs].
Qed.

(** The head of the run queue. *)
Lemma j_head g s :
  jmid g s → queued (run_queue_ s) ≠ [] →
  ∃ qos p l t, FirstFilledRunqueue (run_queue_ s) = Ok qos ∧ rq_get qos (run_queue_ s) = p :: l ∧
    (∀ k, qos < k → rq_get k (run_queue_ s) = []) ∧ p ≠ 0 ∧ heap (j_allocator s) !! p = Some t ∧ run_state t = kQueued ∧
    has_work t = true ∧ unschedule_level t = kNoUnschedule.
Proof.
  intros Hi Hne. destruct (FirstFilled_spec (run_queue_ s)) as (qos & p & l & E & Eg & Hk); [apply Hi|done|].
  assert (p ∈ j_queues g s JRun) as Hin.
  { simpl. apply elem_of_app. left. apply (rq_get_in qos). rewrite Eg. by left. }
  apply (j_in_queue _ _ _ _ _ _ Hi) in Hin as (t & Ht & Hst). exists qos, p, l, t. split_and!; try done.
  - by eapply j_nonzero.
  - destruct (jmid_settled _ _ _ _ _ _ Hi Ht) as [Hw _]. unfold jwork in Hw. by rewrite Hst in Hw.
  - apply (jb_level _ _ _ (jc_basic _ _ _ _ _ Hi p t Ht)). by rewrite Hst.
Qed.

Lemma j_wp_check_front p t s (Q : unit → Shin → Prop) :
  heap (j_allocator s) !! p = Some t → has_work t = true → unschedule_level t = kNoUnschedule → Q tt s → wp (check_front p) s Q.
Proof.
  intros Hp Hw Hl HQ. unfold check_front. wpstep. eapply wp_task; [exact Hp|]. wpstep. wpstep; [done|]. wpstep; [by apply has_level_true|done].
Qed.

Lemma j_wp_front qos p l s (Q : Z → Shin → Prop) : rq_get qos (run_queue_ s) = p :: l → Q p s → wp (front qos) s Q.
Proof. intros E HQ. unfold front. wpstep. wpstep. rewrite E. by wpstep. Qed.

(** [Peek] and [Dequeue] *)
Lemma j_wp_Peek g s (Q : Z → Shin → Prop) :
  jmid g s → (queued (run_queue_ s) = [] → Q 0 s) →
  (∀ p t, heap (j_allocator s) !! p = Some t → p ≠ 0 → run_state t = kQueued → has_work t = true → Q p s) → wp J_Peek s Q.
Proof.
  intros Hi H0 HQ. unfold J_Peek. wpstep. wpstep. destruct (RunqueueEmpty (run_queue_ s)) eqn:E.
  - apply RunqueueEmpty_queued in E. wpstep. by apply H0.
  - destruct (j_head g s Hi) as (qos & p & l & t & Ef & Eg & _ & Hp0 & Ht & Hst & Hw & Hl).
    { intros H%RunqueueEmpty_queued. congruence. }
    wpstep. wpstep. rewrite Ef. simpl. wpstep. eapply j_wp_front; [exact Eg|]. wpstep. eapply j_wp_check_front; [exact Ht|done|done|].
    wpstep. by apply (HQ p t).
Qed.

(** [p], a task with work, is now held. *)
Record dequeued (p : Z) (t : ShinTask) (g : ghost) (s s' : Shin) : Prop := {
  dq_mid : jmid (hold p g) s';
  dq_alloc : j_allocator s' = j_allocator s;
  dq_task : heap (j_allocator s) !! p = Some t ∧ run_state t = kQueued ∧ p ≠ 0;
  dq_aside : aside s s';
  dq_calm : calm 0 s s';
  dq_cpus : j_cpus s' = j_cpus s;
  dq_queue : queued (run_queue_ s) ≡ₚ p :: queued (run_queue_ s');
  dq_first : ∃ qos l, rq_get qos (run_queue_ s) = p :: l ∧ (∀ k, qos < k → rq_get k (run_queue_ s) = []) ∧
    ∀ k, rq_get k (run_queue_ s') = if k =? qos then l else rq_get k (run_queue_ s)
}.

Lemma j_wp_Dequeue g s (Q : Z → Shin → Prop) :
  jmid g s → (queued (run_queue_ s) = [] → Q 0 s) → (∀ p t s', dequeued p t g s s' → Q p s') → wp J_Dequeue s Q.
Proof.
  intros Hi H0 HQ. unfold J_Dequeue. wpstep. wpstep. destruct (RunqueueEmpty (run_queue_ s)) eqn:E.
  - apply RunqueueEmpty_queued in E. wpstep. by apply H0.
  - destruct (j_head g s Hi) as (qos & p & l & t & Ef & Eg & Hk & Hp0 & Ht & Hst & Hw & Hl).
    { intros H%RunqueueEmpty_queued. congruence. }
    wpstep. wpstep. rewrite Ef. simpl. wpstep. eapply j_wp_front; [exact Eg|]. wpstep. wpstep; [by rewrite (proj2 (Z.eqb_neq p 0))|].
    wpstep. eapply j_wp_check_front; [exact Ht|done|done|]. wpstep. wpstep. wpstep. apply (HQ p t).
    pose proof (rq_with_pop qos p l _ Eg (jc_keys _ _ _ _ _ Hi)) as Epop. split; try done.
    + apply (jcore_same _ _ 0 g s); [done|done| |apply rq_with_sorted, Hi|done].
      intros [| |c]; [|done|done]. simpl. rewrite Epop. simpl. by rewrite Permutation_middle.
    + by apply j_calm_same.
    + exists qos, l. split; [done|]. split; [done|]. intros k. simpl. rewrite rq_get_with by apply Hi. by rewrite Eg.
Qed.

(** A held task is let go. *)
Lemma unhold_lifted p t g s :
  jcore p (hold p g) s → heap (j_allocator s) !! p = Some t → run_state t = kQueued → lifted p t g s.
Proof.
  intros Hi Hp Hst. eapply (j_leave_lifted _ _ p t (hold p g) s g s JRun); [done|done|unfold j_place; by rewrite Hst|done| |apply Hi|done].
  intros [| |c]; [|done|done]. simpl. by rewrite <- Permutation_middle.
Qed.

(** [RemoveFromRunqueue] *)
Lemma j_wp_Remove p t g s (Q : unit → Shin → Prop) :
  jcore p g s → heap (j_allocator s) !! p = Some t → run_state t = kQueued → p ∉ g_held g →
  (∀ s', lifted p (set_run_state kPaused t) g s' → calm p s s' → aside s s' → j_cpus s' = j_cpus s →
     queued (run_queue_ s) ≡ₚ p :: queued (run_queue_ s') → (∀ k, rq_get k (run_queue_ s') = others p (rq_get k (run_queue_ s))) → Q tt s') →
  wp (J_RemoveFromRunqueue p) s Q.
Proof.
  intros Hi Hp Hst Hn HQ. unfold J_RemoveFromRunqueue. wpstep. eapply wp_task; [exact Hp|]. wpstep. wpstep; [by apply j_state_true|].
  assert (NoDup (queued (run_queue_ s)) ∧ p ∈ queued (run_queue_ s)) as [Hnd Hin].
  { pose proof (proj2 (jc_rest _ _ _ _ _ Hi) JRun) as Hnd. apply NoDup_app in Hnd as (Hnd & _). split; [done|].
    assert (p ∈ j_queues g s JRun) as Hin by (apply (j_in_queue _ _ _ _ _ _ Hi); eauto). simpl in Hin. by apply elem_of_app in Hin as [|]. }
  destruct (rq_erase_spec p (run_queue_ s) Hnd Hin) as (m & Em & Ek & Ep & Eg).
  wpstep. wpstep. rewrite Em. wpstep. eapply wp_upd; [exact Hp|]. wpstep.
  assert (lifted p t g (set_run_queue m s)) as Hl.
  { eapply (j_leave_lifted _ _ p t g s g _ JRun); [done|done|unfold j_place; by rewrite Hst|done| | |by split].
    - intros [| |c]; [|done|done]. simpl. by rewrite Ep.
    - unfold sorted_keys. simpl. rewrite Ek. apply Hi. }
  apply HQ; [| |by split|done|exact Ep|exact Eg].
  - apply (j_lifted_put _ _ p t (set_run_state kPaused t) g (set_run_queue m s) Hl); [done|]. apply (lifted_idle _ _ _ _ _ _ Hl).
  - etrans; [by apply (j_calm_put p t (set_run_state kPaused t))|]. by apply j_calm_same.
Qed.

(** [Yield] of a task that is nowhere yet in state [kOnCpu] or [kQueued]. *)
Lemma j_wp_Yield p t g s (Q : unit → Shin → Prop) :
  lifted p t g s → g_back g = 0%nat → run_state t = kOnCpu ∨ run_state t = kQueued → has_work t = true → unschedule_level t = kNoUnschedule →
  (∀ s', jcore p g s' → heap (j_allocator s') !! p = Some (set_run_state kYielding t) → calm p s s' → aside s s' → j_cpus s' = j_cpus s →
     run_queue_ s' = run_queue_ s → Q tt s') →
  wp (J_Yield p) s Q.
Proof.
  intros Hl Hg Hst Hw Hlev HQ. pose proof (lf_at _ _ _ _ _ _ Hl) as Hp. unfold J_Yield. wpstep. eapply wp_task; [exact Hp|]. wpstep. wpstep.
  { apply orb_true_iff. rewrite !j_state_true. done. }
  wpstep. eapply wp_upd; [exact Hp|]. wpstep. apply HQ; try done.
  - eapply (j_lifted_enter _ _ p t (set_run_state kYielding t) g s g _ JYield); [exact Hl|done|done| |done| | |by split].
    + apply j_idle_basic; [by eapply lifted_idle|done|done|by left].
    + intros [| |c]; [done| |done]. simpl. rewrite Hg. simpl. by rewrite Permutation_app_comm.
    + apply (jc_keys _ _ _ _ _ (lf_core _ _ _ _ _ _ Hl)).
  - apply lookup_insert_eq.
  - etrans; [by apply (j_calm_put p t (set_run_state kYielding t))|]. by apply j_calm_same.
Qed.

Lemma yielded_mid p t g s s' :
  jcore p g s' → heap (j_allocator s') !! p = Some (set_run_state kYielding t) → has_work t = true → aside s s' → jsynced s t → jmid g s'.
Proof.
  intros Hc Hp Hw Ha Hs. apply (jcore_mid _ _ p); [done|]. intros t' Ht'. rewrite Hp in Ht'. injection Ht' as <-. split; [exact Hw|].
  apply (jsynced_orchs s); [apply Ha|exact Hs].
Qed.

(** [Unyield] *)
Lemma jwp_Unyield p t g s (Q : unit → Shin → Prop) :
  jcore p g s → g_back g = 0%nat → heap (j_allocator s) !! p = Some t → run_state t = kYielding →
  (∀ s0 s', aside s s0 → calm p s s0 → enqueued env up p t g s0 s' → Q tt s') → jwp env (J_Unyield p) s Q.
Proof.
  intros Hi Hg Hp Hst HQ. unfold J_Unyield. fstep. eapply jwp_task; [exact Hp|]. fstep. apply jwp_check. intros _. fstep. fstep.
  assert (p ∈ j_queues g s JYield) as Hin by (apply (j_in_yield _ _ _ _ _ _ Hi); eauto). simpl in Hin. rewrite Hg, drop_0 in Hin.
  destruct (find_first_spec p _ Hin) as (i & Ei & Hat). rewrite Ei. fstep. fstep.
  pose proof (proj2 (jc_rest _ _ _ _ _ Hi) JYield) as Hnd. simpl in Hnd. rewrite Hg, drop_0 in Hnd.
  eapply (jwp_Enqueue p t _ g).
  - eapply (j_leave_lifted _ _ p t g s g _ JYield); [done|done|unfold j_place; by rewrite Hst|done| |apply Hi|by split].
    intros [| |c]; [done| |done]. simpl. rewrite Hg, !drop_0. rewrite (delete_others p _ i) by done. by apply others_in.
  - intros s' He. refine (HQ _ s' _ _ He); [by split|by apply j_calm_same].
Qed.
End ops.
