(* ===== verification/ShinTurn.v ===== *)
(** * ShinTurn: the Shinjuku agent between the passes keeps its invariant

    The parameters of a task change under the agent's hands: the application
    writes them, the agent copies them and moves the task, or marks it if it
    runs.  The callback, the refresh of the tables, the message handlers and
    their dispatch each lead from the invariant to the invariant or stop the
    agent. *)

From S2P Require Import Prelude Outcome CpuMap CpuMapSpec.
From S2P Require Import Topology TopologySpec Dispatch Placement PrioTable PrioTableSpec Shin ShinOps.
From stdpp Require Import gmap functions sorting.
From Stdlib Require Import ZArith Lia.

Local Open Scope Z_scope.

Section tasks.
Context (env : ShinEnv) (Henv : shin_env_ok env) (up : Prop).

#[local] Instance shin_tasks_task_type : TaskType ShinTask := ShinTask_type env.

Notation j_enclave_cpu := (j_enclave_cpu env).
Notation jbasic := (jbasic env).
Notation jcore := (jcore env up).
Notation jmid := (jmid env up).
Notation lifted := (lifted env up).

(** ** CPUs *)

Lemma jwp_upd_cpu c f s (Q : unit → Shin → Prop) :
  j_enclave_cpu c → Q tt (set_j_cpus (<[c := f (j_cpus s c)]> (j_cpus s)) s) → jwp env (upd_cpu c f) s Q.
Proof using Henv.
  intros Hc HQ. pose proof (j_enclave_range env c Henv Hc). unfold upd_cpu, j_cpu.
  rewrite (proj2 (Z.leb_le 0 c)), (proj2 (Z.ltb_lt c _)) by lia. simpl. fstep. fstep. by apply wpf_modify.
Qed.

Lemma jwp_cpu c s (Q : ShinCpu → Shin → Prop) : j_enclave_cpu c → Q (j_cpus s c) s → jwp env (j_cpu c) s Q.
Proof using Henv.
  intros Hc HQ. pose proof (j_enclave_range env c Henv Hc). unfold j_cpu.
  rewrite (proj2 (Z.leb_le 0 c)), (proj2 (Z.ltb_lt c _)) by lia. simpl. by fstep.
Qed.

(** A field of another CPU, or another field. *)
Lemma next_current c p s c' :
  next ((<[c := set_current p (j_cpus s c)]> (j_cpus s)) c') = next (j_cpus s c').
Proof. destruct (decide (c = c')) as [<-|?]; by rewrite ?fn_lookup_insert, ?fn_lookup_insert_ne. Qed.

Lemma agent_current c p s c' :
  agent ((<[c := set_current p (j_cpus s c)]> (j_cpus s)) c') = agent (j_cpus s c').
Proof. destruct (decide (c = c')) as [<-|?]; by rewrite ?fn_lookup_insert, ?fn_lookup_insert_ne. Qed.

(** A task leaves its CPU. *)
Definition off_cpu (c : Z) (s : Shin) : Shin := set_j_cpus (<[c := set_current 0 (j_cpus s c)]> (j_cpus s)) s.

Lemma off_cpu_lifted p t g s :
  jcore p g s → g_cur g = None → heap (j_allocator s) !! p = Some t → run_state t = kOnCpu → lifted p t g (off_cpu (cpu t) s).
Proof.
  intros Hi Hg Hp Hst. destruct (j_on_cpu_current env up p g s p t Hi Hg Hp Hst) as (Hc & Hcur & Hne).
  eapply (j_leave_lifted env up p t g s g _ (JCur (cpu t))); [done|done|unfold j_place; by rewrite Hst|done| |apply Hi|].
  - intros [| |c]; [done|done|]. simpl. rewrite Hg. rewrite !(decide_False (P := None = Some c)) by done.
    destruct (decide (c = cpu t)) as [->|Hn].
    + rewrite decide_True by done. rewrite fn_lookup_insert, Hcur. unfold slot_list. simpl. by rewrite (proj2 (Z.eqb_neq p 0)).
    + rewrite decide_False by congruence. by rewrite fn_lookup_insert_ne.
  - split; try done. intros c. apply agent_current.
Qed.

Lemma off_cpu_calm q c s : calm q s (off_cpu c s).
Proof. apply j_calm_same; try done. intros c'. apply next_current. Qed.

Lemma jwp_clear_current p t g s (Q : unit → Shin → Prop) :
  jcore p g s → g_cur g = None → heap (j_allocator s) !! p = Some t → run_state t = kOnCpu →
  (lifted p t g (off_cpu (cpu t) s) → Q tt (off_cpu (cpu t) s)) → jwp env (j_clear_current p) s Q.
Proof using Henv.
  intros Hc Hg Hp Hst HQ. destruct (j_on_cpu_current env up p g s p t Hc Hg Hp Hst) as (Hcpu & Hcur & Hne).
  unfold j_clear_current, j_cpu_of. fstep. fstep. eapply jwp_task; [exact Hp|]. fstep. apply jwp_check; intros _.
  fstep. apply jwp_cpu; [done|]. fstep. apply jwp_check; intros _. fstep. fstep. apply jwp_cpu; [done|].
  fstep. apply jwp_check; intros _. apply jwp_upd_cpu; [done|]. apply HQ. by apply off_cpu_lifted.
Qed.

Lemma j_cpu_rep c : j_enclave_cpu c → ∃ r, cpu_rep (j_topo env) c = Ok r.
Proof using Henv.
  intros Hc. destruct (j_enclave_range env c Henv Hc) as [Hr _]. destruct (rep_exists _ (je_topo _ Henv) c Hr) as (r & _ & E). by exists r.
Qed.

(** [UnscheduleTask] *)
Definition paused (t : ShinTask) : ShinTask := set_level kNoUnschedule (set_run_state kPaused t).

Record unscheduled (p : Z) (t : ShinTask) (g : ghost) (s s' : Shin) : Prop := {
  us_core : jcore p g s';
  us_at : heap (j_allocator s') !! p = Some (paused t);
  us_calm : calm p s s';
  us_aside : aside s s';
  us_cpus : j_cpus s' = j_cpus (off_cpu (cpu t) s);
  us_queue : run_queue_ s' = run_queue_ s;
  us_yielding : yielding_tasks_ s' = yielding_tasks_ s
}.

Lemma jwp_Unschedule p t g s (Q : unit → Shin → Prop) :
  jcore p g s → g_cur g = None → heap (j_allocator s) !! p = Some t → run_state t = kOnCpu → (sp t = SpNull → has_work t = false) →
  (∀ s', unscheduled p t g s s' → Q tt s') → jwp env (UnscheduleTask env p) s Q.
Proof using Henv.
  intros Hc Hg Hp Hst Hnull HQ. destruct (j_on_cpu_current env up p g s p t Hc Hg Hp Hst) as (Hcpu & Hcur & Hne).
  unfold UnscheduleTask. fstep. apply jwp_check; intros _. fstep. eapply jwp_task; [exact Hp|]. fstep. apply jwp_check; intros _.
  fstep. destruct (j_cpu_rep _ Hcpu) as [r Hr]. apply jwp_lift; [intros _ _|congruence]. fstep. fstep. fstep. apply jwp_ask. fstep.
  apply jwp_check; intros _. fstep. set (s1 := tick (add_event _ s)). apply jwp_upd_cpu; [done|].
  assert (jcore p g s1) as Hc1 by by apply jcore_tick, jcore_event.
  pose proof (off_cpu_lifted p t g s1 Hc1 Hg Hp Hst) as Hl. change (set_j_cpus _ s1) with (off_cpu (cpu t) s1).
  eapply jwp_upd; [exact Hp|]. apply HQ. split; try done.
  - eapply j_lifted_settle; [exact Hl|done|done|]. pose proof (jc_basic _ _ _ _ _ Hc p t Hp) as []. split; try done.
    intros E. split; [by apply Hnull|by right].
  - apply lookup_insert_eq.
  - etrans; [|by apply (j_calm_put p t)]. etrans; [|apply off_cpu_calm]. by apply j_calm_same.
  - split; try done. intros c. exact (agent_current (cpu t) 0 s1 c).
Qed.

(** ** Runtimes *)

Lemma jwp_SetRuntime p r (u : bool) t s (Q : unit → Shin → Prop) :
  heap (j_allocator s) !! p = Some t → (∀ e, Q tt (put_task p (set_runtimes r e t) s)) → jwp env (J_SetRuntime p r u) s Q.
Proof.
  intros Hp HQ. unfold J_SetRuntime. fstep. eapply jwp_task; [exact Hp|]. fstep. apply jwp_check; intros _.
  eapply jwp_upd; [exact Hp|]. apply HQ.
Qed.

Lemma jwp_UpdateRuntime p t s (Q : unit → Shin → Prop) :
  heap (j_allocator s) !! p = Some t → (∀ r e, Q tt (put_task p (set_runtimes r e t) (tick s))) → jwp env (J_UpdateRuntime env p) s Q.
Proof.
  intros Hp HQ. unfold J_UpdateRuntime. fstep. eapply jwp_task; [exact Hp|]. fstep. apply jwp_ask.
  apply (jwp_SetRuntime p _ _ t); [exact Hp|]. intros e. apply HQ.
Qed.

Lemma jwp_UpdateTaskRuntime p t r u s (Q : unit → Shin → Prop) :
  heap (j_allocator s) !! p = Some t → (∀ e, Q tt (put_task p (set_runtimes r e t) s)) → jwp env (J_UpdateTaskRuntime p r u) s Q.
Proof.
  intros Hp HQ. unfold J_UpdateTaskRuntime. fstep. apply (jwp_SetRuntime p _ _ t); [exact Hp|]. intros e. fstep.
  eapply jwp_task; [apply lookup_insert_eq|]. case_bool_decide; by apply jwp_check.
Qed.

Lemma jbasic_runtimes s t r e : jbasic s t → jbasic s (set_runtimes r e t).
Proof. intros []. by split. Qed.

Lemma jcore_runtimes p t r e g s :
  jcore p g s → heap (j_allocator s) !! p = Some t → jcore p g (put_task p (set_runtimes r e t) s).
Proof. intros Hc Hp. apply (jcore_put _ _ p g s t); try done. apply jbasic_runtimes. by eapply jc_basic. Qed.

Lemma calm_runtimes p t r e s : heap (j_allocator s) !! p = Some t → calm p s (put_task p (set_runtimes r e t) s).
Proof. intros Hp. by apply (j_calm_put p t). Qed.

(** ** Items *)

(** The copy of an item. *)
Definition copy_of (tg sid : Z) (x : SchedParams) (s : Shin) : Prop :=
  ∃ o, orchs_ s !! tg = Some o ∧ cachedsids_ o !! Z.to_nat sid = Some x.

Lemma copy_of_params tg sid x s : copy_of tg sid x s → j_params_of s (SpItem tg sid) = Some x.
Proof. intros (o & Ho & Hx). simpl. rewrite Ho. done. Qed.

Lemma copy_of_orchs tg sid x s s' : orchs_ s' = orchs_ s → copy_of tg sid x s → copy_of tg sid x s'.
Proof. unfold copy_of. by intros ->. Qed.

(** The task that an item describes, 0 if there is none. *)
Definition j_owner (x : SchedParams) (s : Shin) : Z := default 0 (GetTask (gpid_ x) (j_allocator s)).

Lemma j_owner_at p g s x q t :
  jcore p g s → GetTask (gpid_ x) (j_allocator s) = Some q → heap (j_allocator s) !! q = Some t → gtid t = gpid_ x.
Proof. intros Hc Hg Hq. destruct (proj1 (proj2 (jc_alloc _ _ _ _ _ Hc) _ _) Hg) as (t' & Ht' & E). unfold task_gtid in E. simpl in E. congruence. Qed.

Lemma j_owner_is p g s x q t : jcore p g s → heap (j_allocator s) !! q = Some t → gtid t = gpid_ x → j_owner x s = q.
Proof.
  intros Hc Hq E. unfold j_owner. assert (GetTask (gpid_ x) (j_allocator s) = Some q) as ->; [|done].
  apply (proj2 (jc_alloc _ _ _ _ _ Hc)). by exists t.
Qed.

Lemma j_owner_zero p g s x : jcore p g s → gpid_ x = 0 → j_owner x s = 0.
Proof.
  intros Hc E. unfold j_owner. destruct (GetTask (gpid_ x) (j_allocator s)) as [q|] eqn:Eq; [|done].
  destruct (proj1 (proj2 (jc_alloc _ _ _ _ _ Hc) _ _) Eq) as (t & Ht & _). pose proof (j_owner_at p g s x q t Hc Eq Ht).
  pose proof (jb_gtid _ _ _ (jc_basic _ _ _ _ _ Hc q t Ht)). congruence.
Qed.

(** The new copy of an item, in the state. *)
Definition with_copy (tg : Z) (o : ShinOrch) (sid : Z) (x' : SchedParams) (s : Shin) : Shin :=
  set_orchs (<[tg := set_cached (<[Z.to_nat sid := x']> (cachedsids_ o)) o]> (orchs_ s)) s.

Lemma j_with_copy_params tg o sid x x' s r :
  orchs_ s !! tg = Some o → cachedsids_ o !! Z.to_nat sid = Some x →
  (j_params_of (with_copy tg o sid x' s) r = j_params_of s r) ∨
  (∃ sid', r = SpItem tg sid' ∧ j_params_of s r = Some x ∧ j_params_of (with_copy tg o sid x' s) r = Some x').
Proof.
  intros Ho Hx. destruct r as [| |tg' sid']; [by left|by left|]. simpl. destruct (decide (tg = tg')) as [<-|Hne].
  - rewrite lookup_insert_eq, Ho. simpl. destruct (decide (Z.to_nat sid = Z.to_nat sid')) as [E|E].
    + right. exists sid'. rewrite <- E, list_lookup_insert_eq by by eapply lookup_lt_Some. done.
    + left. by rewrite list_lookup_insert_ne.
  - left. by rewrite lookup_insert_ne.
Qed.

(** Only the task of the item can tell the difference. *)
Lemma j_with_copy_core p g tg o sid x x' s :
  jcore p g s → orchs_ s !! tg = Some o → cachedsids_ o !! Z.to_nat sid = Some x →
  (gpid_ x = 0 ∨ gpid_ x' = gpid_ x) → HasWork x' = HasWork x ∨ gpid_ x = 0 ∨ j_owner x s = p → jcore p g (with_copy tg o sid x' s).
Proof.
  intros Hc Ho Hx Hg Hq. apply jcore_orchs; [done|..].
  - intros r y Hy Hne. destruct (j_with_copy_params tg o sid x x' s r Ho Hx) as [E|(sid' & -> & E1 & E2)].
    + exists y. unfold with_copy in E. by rewrite E.
    + assert (y = x) as -> by congruence. exists x'. split; [exact E2|]. by destruct Hg.
  - intros q t tg' sid' y Hne Ht Esp Hy. destruct (j_with_copy_params tg o sid x x' s (sp t) Ho Hx) as [E|(sid2 & E0 & E1 & E2)].
    + exists y. unfold with_copy in E. split; [by rewrite <- E|done].
    + exists x. split; [done|]. unfold with_copy in E2. assert (y = x') as -> by congruence. destruct Hq as [Hq|Hq]; [done|]. exfalso.
      pose proof (jc_basic _ _ _ _ _ Hc q t Ht) as Hb. destruct (jb_params _ _ _ Hb tg' sid' Esp) as (z & Hz & Eg).
      assert (z = x) as -> by congruence. destruct Hq as [Hq|Hq]; [apply (jb_gtid _ _ _ Hb); congruence|].
      apply Hne. rewrite <- Hq. symmetry. apply (j_owner_is p g s x q t Hc Ht). done.
  - intros tg'. rewrite lookup_insert_is_Some'. by right.
  - intros H1 tg' o'. rewrite lookup_insert_Some. pose proof (proj2 (jc_oneshot _ _ _ _ _ Hc H1)) as Hf.
    intros [[<- <-]|[_ H]]; [exact (Hf tg o Ho)|by apply (Hf tg')].
Qed.

Lemma with_copy_calm q tg o sid x' s : calm q s (with_copy tg o sid x' s).
Proof. apply j_calm_same; try done. intros tg'. simpl. rewrite lookup_insert_is_Some'. by right. Qed.

Lemma with_copy_of tg o sid x x' s :
  cachedsids_ o !! Z.to_nat sid = Some x → copy_of tg sid x' (with_copy tg o sid x' s).
Proof.
  intros Hx. eexists. simpl. rewrite lookup_insert_eq. split; [done|]. simpl. by rewrite list_lookup_insert_eq by by eapply lookup_lt_Some.
Qed.

(** The accessors of the orchestrator stop at a CHECK or out of range. *)
Lemma j_class_at_stop o wc f : j_class_at o wc = Crash f → shin_stop env f.
Proof. unfold j_class_at. destruct (_ <? _); [destruct (_ !! _)|]; by intros [= <-]. Qed.

Lemma j_Repeating_stop o x f : J_Repeating o x = Crash f → shin_stop env f.
Proof. unfold J_Repeating. destruct (j_class_at _ _) eqn:E; simpl; [done|]. intros [= <-]. by eapply j_class_at_stop. Qed.

(** Nothing repeats in tables without repeating classes. *)
Lemma j_Repeating_oneshot o x b : Forall one_shot (work_classes o) → J_Repeating o x = Ok b → b = false.
Proof.
  intros Hf. unfold J_Repeating, j_class_at. destruct (_ <? _); [|done]. destruct (work_classes o !! _) as [c|] eqn:E; [|done].
  simpl. intros [= <-]. apply (Forall_lookup_1 _ _ _ _ Hf E).
Qed.

Lemma jwp_Repeating p g tg o x s (Q : bool → Shin → Prop) :
  jcore p g s → orchs_ s !! tg = Some o → (∀ b, (b = true → ¬ oneshot env) → Q b s) → jwp env (lift (J_Repeating o x)) s Q.
Proof.
  intros Hc Ho HQ. apply jwp_lift; [|apply j_Repeating_stop]. intros b E. apply HQ. intros -> H1.
  pose proof (proj2 (jc_oneshot _ _ _ _ _ Hc H1) tg o Ho) as Hf. by apply (j_Repeating_oneshot o x true) in Hf.
Qed.

Lemma jwp_params tg o sid x s (Q : SchedParams → Shin → Prop) :
  orchs_ s !! tg = Some o → copy_of tg sid x s → Q x s → jwp env (lift (j_params_at o sid)) s Q.
Proof.
  intros Ho (o' & Ho' & Hx) HQ. assert (o' = o) as -> by congruence. apply jwp_lift; unfold j_params_at; rewrite Hx; [by intros ? [= <-]|done].
Qed.
End tasks.

(** ** The callback *)

Section callback.
Context (env : ShinEnv) (Henv : shin_env_ok env) (up : Prop).

#[local] Instance shin_callback_task_type : TaskType ShinTask := ShinTask_type env.

Notation jbasic := (jbasic env).
Notation jcore := (jcore env up).
Notation jmid := (jmid env up).
Notation lifted := (lifted env up).

(** [MakeEngineRunnable] of the item of [p], or of nobody's. *)
Lemma jwp_MakeEngineRunnable p g tg r x s (Q : unit → Shin → Prop) :
  jcore p g s → j_params_of s r = Some x → gpid_ x = 0 ∨ j_owner x s = p →
  (∀ o sid, let s' := add_event (JEvRunnable tg sid) (with_copy tg o sid (SetRunnable x) (tick s)) in
     r = SpItem tg sid → HasWork x = false → jcore p g s' → copy_of tg sid (SetRunnable x) s' → (∀ q, calm q s s') → ¬ oneshot env → Q tt s') →
  jwp env (J_MakeEngineRunnable env tg r) s Q.
Proof.
  intros Hc Hr Hown HQ. unfold J_MakeEngineRunnable. destruct r as [| |tg' sid]; [done|done|]. destruct (Z.eqb_spec tg' tg) as [->|]; [|done].
  simpl in Hr. destruct (orchs_ s !! tg) as [o|] eqn:Ho; [|done]. simpl in Hr. assert (copy_of tg sid x s) as Hx by by exists o.
  fstep. eapply jwp_orch; [exact Ho|]. fstep. apply jwp_check; intros _. fstep. eapply jwp_params; [exact Ho|exact Hx|]. fstep. apply jwp_ask.
  fstep. apply jwp_check; intros _. fstep. eapply (jwp_Repeating _ _ p g tg); [by apply jcore_tick|exact Ho|]. intros rep Hrep.
  fstep. apply jwp_check; intros ->. fstep. apply jwp_check; intros Hw%negb_true_iff. fstep. apply wpf_modify. apply wpf_modify.
  apply (HQ o sid); [done|done| | | |by apply Hrep].
  - apply jcore_event. apply (j_with_copy_core env up p g tg o sid x); [by apply jcore_tick|done|done|by right|].
    right. by destruct Hown as [?|?]; [left|right].
  - apply (copy_of_orchs tg sid _ (with_copy tg o sid (SetRunnable x) (tick s))); [done|]. by apply (with_copy_of tg o sid x).
  - intros q. etrans; [by apply (j_calm_same q s (tick s))|]. etrans; [apply (with_copy_calm q tg o sid (SetRunnable x))|]. by apply j_calm_same.
Qed.

(** A task that is nowhere and says so is in order but for its work. *)
Lemma lifted_none p t g s : lifted p t g s → j_place t = None → jbasic s t → jcore p g s.
Proof.
  intros Hl Hpl Hb. assert (put_task p t s = s) as E.
  { destruct s as [[m h] ? ? ? ? ? ? ? ? ? ?]. unfold put_task, put_obj, set_j_allocator. simpl.
    rewrite insert_id; [done|]. exact (lf_at _ _ _ _ _ _ Hl). }
  rewrite <- E. by apply (j_lifted_settle _ _ p t).
Qed.

Lemma jcore_paused p g l s : (oneshot env → l = []) → jcore p g s → jcore p g (set_paused l s).
Proof.
  intros Hn [H1 H2 H3 H4 H5 H6 H7 H8]. split; [exact H1|exact H2|exact H3| |exact H5|exact H6|exact H7|].
  2:{ intros H. split; [by apply Hn|by apply H8]. }
  intros q t Hq. apply (jbasic_orchs _ s); [done|by apply (H4 q)].
Qed.

Lemma jcore_settle p g s t : jcore p g s → heap (j_allocator s) !! p = Some t → jsettled s t → jmid g s.
Proof. intros Hc Hp Hs. apply (jcore_mid _ _ p); [done|]. intros t' Ht'. by assert (t' = t) as -> by congruence. Qed.

(** A change of the level of a task that runs. *)
Lemma level_settled p g t u s (Q : unit → Shin → Prop) :
  jcore p g s → heap (j_allocator s) !! p = Some t → run_state t = kOnCpu →
  (∀ t1, t1 = set_level u t → jcore p g (put_task p t1 s) → calm p s (put_task p t1 s) → Q tt (put_task p t1 s)) →
  jwp env (upd_task p (set_level u)) s Q.
Proof.
  intros Hc Hp Hst HQ. eapply jwp_upd; [exact Hp|]. apply HQ; [done| |by apply (j_calm_put p t)].
  apply (jcore_put _ _ p g s t); try done. pose proof (jc_basic _ _ _ _ _ Hc p t Hp) as []. by split.
Qed.

Lemma jwp_copy_params p t g s tg sid x (had : bool) (Q : unit → Shin → Prop) :
  jcore p g s → heap (j_allocator s) !! p = Some t → copy_of tg sid x s → gpid_ x = gtid t →
  (∀ t' s', jcore p g s' → heap (j_allocator s') !! p = Some t' → calm p s s' → orchs_ s' = orchs_ s →
     run_state t' = run_state t → unschedule_level t' = unschedule_level t → gtid t' = gtid t →
     sp t' = SpItem tg sid → has_work t' = HasWork x → Q tt s') →
  jwp env (J_copy_params env tg sid p x had) s Q.
Proof.
  intros Hc Hp Hx Hg HQ. unfold J_copy_params. fstep. eapply jwp_upd; [exact Hp|].
  set (t1 := set_work (SpItem tg sid) (HasWork x) (wcid_ x) t).
  assert (jcore p g (put_task p t1 s)) as Hc1.
  { apply (jcore_put _ _ p g s t); try done. pose proof (jc_basic _ _ _ _ _ Hc p t Hp) as []. split; try done.
    intros tg' sid' _. exists x. split; [by apply copy_of_params|done]. }
  assert (calm p s (put_task p t1 s)) as Hcalm1 by by apply (j_calm_put p t).
  assert (heap (j_allocator (put_task p t1 s)) !! p = Some t1) as Hp1 by apply lookup_insert_eq.
  apply wpf_when; intros _; [|by apply (HQ t1)]. fstep.
  eapply jwp_UpdateRuntime; [exact Hp1|]. intros r e. eapply jwp_upd; [apply lookup_insert_eq|].
  eapply HQ; [ |apply lookup_insert_eq| |done..].
  - eapply jcore_runtimes; [|apply lookup_insert_eq]. apply jcore_runtimes; [by apply jcore_tick|exact Hp1].
  - etrans; [exact Hcalm1|]. etrans; [by apply (j_calm_same p _ (tick (put_task p t1 s)))|].
    etrans; [by eapply calm_runtimes|]. eapply calm_runtimes, lookup_insert_eq.
Qed.

Lemma jwp_apply_params p t s tg sid x (had : bool) (Q : unit → Shin → Prop) :
  jcore p real s → heap (j_allocator s) !! p = Some t → copy_of tg sid x s → sp t = SpItem tg sid → has_work t = HasWork x →
  jwork (set_work SpNull had 0 t) → run_state t ≠ kYielding →
  (∀ s', jmid real s' → calm p s s' → Q tt s') → jwp env (J_apply_params tg sid p x had) s Q.
Proof using Henv.
  intros Hc Hp Hx Hsp Hwork Hold Hny HQ. pose proof Hx as (o & Ho & _).
  assert (∀ s1 t1, orchs_ s1 = orchs_ s → sp t1 = sp t → has_work t1 = has_work t → jsynced s1 t1) as Hsync.
  { intros s1 t1 Eo Es Ew tg' sid' y E Hy. rewrite Es, Hsp in E. injection E as <- <-.
    rewrite Es, Hsp, (j_params_orchs s s1), (copy_of_params tg sid x s Hx) in Hy by done. injection Hy as <-. congruence. }
  assert (jwork t → jmid real s) as Hdone by (intros H; eapply jcore_settle; [done|exact Hp|by split; [|apply Hsync]]).
  unfold jwork in Hold, Hdone. simpl in Hold.
  unfold J_apply_params. fstep. eapply jwp_task; [exact Hp|]. fstep.
  { apply wpf_ret, HQ; [|done]. apply Hdone. apply j_state_true in Heqb. by rewrite Heqb. }
  apply j_state_false in Heqb. destruct had; simpl negb; cbv iota.
  - fstep. apply jwp_check; intros Hnp. apply negb_true_iff, j_state_false in Hnp. fstep. eapply jwp_orch; [exact Ho|].
    destruct (has_work t) eqn:Hw.
    + fstep. eapply (wpf_mono _ _ _ (λ _ s1, s1 = s)).
      { apply wpf_when; intros _; [|done]. fstep. eapply (jwp_Repeating _ _ p real tg); [done|exact Ho|]. intros rep _. by apply jwp_check. }
      intros [] s1 ->. apply wpf_when; intros Hs.
      * apply j_state_true in Hs. eapply level_settled; [exact Hc|exact Hp|done|]. intros t1 -> Hc1 Hcalm. apply HQ; [|done].
        eapply jcore_settle; [exact Hc1|apply lookup_insert_eq|]. split; [|by apply Hsync]. unfold jwork. simpl. by rewrite Hs, Hw.
      * apply j_state_false in Hs. apply HQ; [|done]. apply Hdone. by destruct (run_state t).
    + fstep. eapply (wpf_mono _ _ _ (λ _ s1, jmid real s1 ∧ calm p s s1 ∧ orchs_ s1 = orchs_ s)).
      * fstep.
        { apply j_state_true in Heqb0. eapply level_settled; [exact Hc|exact Hp|done|]. intros t1 -> Hc1 Hcalm. split_and!; [|done|done].
          eapply jcore_settle; [exact Hc1|apply lookup_insert_eq|]. split; [|by apply Hsync]. unfold jwork. simpl. by rewrite Heqb0, Hw. }
        fstep; [|done]. apply j_state_true in Heqb1. apply wpf_wp. eapply j_wp_Remove; [exact Hc|exact Hp|done|apply not_elem_of_nil|].
        intros s1 Hl Hcalm Ha _ _ _. split_and!; [|done|apply Ha].
        eapply jcore_settle; [eapply lifted_none; [exact Hl|done|]|apply Hl|split; [exact Hw|apply Hsync; [apply Ha|done|done]]].
        apply (j_idle_basic env s1 (set_run_state kPaused t) kPaused (lifted_idle _ _ _ _ _ _ Hl)); [|done|by right; right].
        apply (jb_level _ _ _ (jc_basic _ _ _ _ _ Hc p t Hp)). by rewrite Heqb1.
      * intros [] s1 (Hm & Hcalm & Eo).
        assert (∃ t1, heap (j_allocator s1) !! p = Some t1) as [t1 Ht1].
        { apply elem_of_dom. rewrite (st_dom _ _ (cm_still _ _ _ Hcalm)). by eapply elem_of_dom_2. }
        fstep. eapply jwp_task; [exact Ht1|]. fstep. apply jwp_check; intros _. fstep.
        eapply (jwp_Repeating _ _ 0 real tg); [exact Hm|by rewrite Eo|]. intros rep Hrep. apply wpf_when; intros E.
        -- apply wpf_modify. apply HQ; [apply jcore_paused; [by intros H%(Hrep E)|exact Hm]|]. etrans; [done|by apply j_calm_same].
        -- by apply HQ.
  - fstep. apply jwp_check; intros Hstop. unfold stopping in Hstop.
    apply wpf_when; intros Hw; [fstep; [|fstep]|].
    + apply j_state_true in Heqb0. eapply (jwp_Enqueue _ up p t true real); [apply j_core_lifted; [done|done|unfold j_place; by rewrite Heqb0]|].
      intros s' He. apply HQ; [|apply He]. eapply enqueued_mid; [exact He|by apply Hsync].
    + apply j_state_true in Heqb1. fstep. apply jwp_check; intros _.
      eapply level_settled; [exact Hc|exact Hp|done|]. intros t1 -> Hc1 Hcalm. apply HQ; [|done].
      eapply jcore_settle; [exact Hc1|apply lookup_insert_eq|]. split; [|by apply Hsync]. unfold jwork. simpl. by rewrite Heqb1, Hw.
    + done.
    + apply HQ; [|done]. apply Hdone. apply orb_true_iff in Hstop as [H%j_state_true|[H1%j_state_true H2%has_level_true]%andb_true_iff].
      * by rewrite H.
      * by rewrite H1, Hw.
Qed.

(** What follows the callback's lookup of the task. *)
Lemma jwp_callback_task p t s tg sid x (Q : unit → Shin → Prop) :
  jcore p real s → jwork t → copy_of tg sid x s → heap (j_allocator s) !! p = Some t → gtid t = gpid_ x →
  (∀ s', jmid real s' → calm p s s' → Q tt s') →
  jwp env (task_at p ≫= λ t,
       whenM (has_state kYielding t) (J_Unyield p) ≫= λ _,
       j_orch_at tg ≫= λ o,
       lift (j_params_at o sid) ≫= λ x,
       task_at p ≫= λ t,
       J_copy_params env tg sid p x (has_work t) ≫= λ _,
       J_apply_params tg sid p x (has_work t)) s Q.
Proof using Henv.
  intros Hc Hw Hx Hp Hg HQ. pose proof Hx as (o & Ho & _). fstep. eapply jwp_task; [exact Hp|]. fstep.
  eapply (wpf_mono _ _ _ (λ _ s1, ∃ t1, jcore p real s1 ∧ heap (j_allocator s1) !! p = Some t1 ∧ calm p s s1 ∧ orchs_ s1 = orchs_ s ∧
    gtid t1 = gtid t ∧ jwork t1 ∧ run_state t1 ≠ kYielding)).
  { apply wpf_when; intros Hy.
    - apply j_state_true in Hy. eapply jwp_Unyield; [exact Hc|done|exact Hp|done|]. intros s0 s1 Ha Hc0 [Hc1 Hp1 Hcalm Ha1 _ _].
      eexists. split; [exact Hc1|]. split; [exact Hp1|]. split; [by etrans|]. split; [by rewrite (as_orchs _ _ Ha1), (as_orchs _ _ Ha)|].
      split; [done|]. unfold jwork in Hw. rewrite Hy in Hw. rewrite Hw. split; [exact Hw|done].
    - apply j_state_false in Hy. by exists t. }
  intros [] s1 (t1 & Hc1 & Hp1 & Hcalm1 & Eo & Hg1 & Hw1 & Hny).
  assert (copy_of tg sid x s1) as Hx1 by by apply (copy_of_orchs tg sid x s).
  fstep. eapply jwp_orch; [by rewrite Eo|]. fstep. eapply jwp_params; [by rewrite Eo|exact Hx1|].
  fstep. eapply jwp_task; [exact Hp1|]. fstep. eapply jwp_copy_params; [exact Hc1|exact Hp1|exact Hx1|congruence|].
  intros t2 s2 Hc2 Hp2 Hcalm2 Eo2 Est Elev Egt Esp Ewk. eapply jwp_apply_params; [exact Hc2|exact Hp2| |done|done| | |].
  - by apply (copy_of_orchs tg sid x s1).
  - unfold jwork in *. simpl. by rewrite Est, Elev.
  - by rewrite Est.
  - intros s3 Hm Hcalm3. apply HQ; [done|]. by etrans; [|etrans].
Qed.

Lemma jwp_SchedParamsCallback tg sid old x s (Q : unit → Shin → Prop) :
  copy_of tg sid x s → (old = 0 ∨ old = gpid_ x → jcore (j_owner x s) real s ∧ ∀ t, heap (j_allocator s) !! j_owner x s = Some t → jwork t) →
  (∀ s', jmid real s' → calm (j_owner x s) s s' → Q tt s') →
  jwp env (J_SchedParamsCallback env tg sid old) s Q.
Proof using Henv.
  intros Hx Hl HQ. pose proof Hx as (o & Ho & Hxo). unfold J_SchedParamsCallback. fstep. eapply jwp_orch; [exact Ho|].
  fstep. eapply jwp_params; [exact Ho|done|]. fstep. apply jwp_check; intros Hold.
  assert (jcore (j_owner x s) real s ∧ ∀ t, heap (j_allocator s) !! j_owner x s = Some t → jwork t) as [Hc Hw].
  { apply Hl. apply orb_true_iff in Hold as [->%Z.eqb_eq| ->%Z.eqb_eq]; auto. } clear Hl Hold.
  destruct (Z.eqb_spec (gpid_ x) 0) as [Hg|Hg].
  { apply wpf_ret. apply HQ; [|done]. by rewrite (j_owner_zero env up _ real s x Hc Hg) in Hc. }
  fstep. fstep. fstep. eapply (wpf_mono _ _ _ (λ _ s1, s1 = s)).
  { destruct (in_discovery_ s); [eapply (jwp_Repeating _ _ _ real tg); [exact Hc|exact Ho|done]|by apply wpf_ret]. }
  intros rep s1 ->. fstep.
  eapply (wpf_mono _ _ _ (λ _ s1, jcore (j_owner x s) real s1 ∧ (∃ x1, copy_of tg sid x1 s1 ∧ gpid_ x1 = gpid_ x) ∧
    j_allocator s1 = j_allocator s ∧ calm (j_owner x s) s s1)).
  { apply wpf_when; intros _.
    - eapply jwp_MakeEngineRunnable; [exact Hc|by apply copy_of_params|by right|]. intros o' sid' s1 [= <-] _ Hc1 Hx1 Hcalm _.
      split_and!; [done|by exists (SetRunnable x)|done|done].
    - split_and!; [done|by exists x|done|done]. }
  intros [] s1 (Hc1 & (x1 & Hx1 & Hg1) & Ea & Hcalm1). fstep. fstep. rewrite Ea.
  destruct (GetTask (gpid_ x) (j_allocator s)) as [p|] eqn:Eg.
  - assert (j_owner x s = p) as Eow by (unfold j_owner; by rewrite Eg). rewrite Eow in *.
    destruct (proj1 (proj2 (jc_alloc _ _ _ _ _ Hc) _ _) Eg) as (t & Ht & _).
    pose proof (j_owner_at env up p real s x p t Hc Eg Ht) as Hgt.
    apply (jwp_callback_task p t s1 tg sid x1); [done|by apply Hw|done|by rewrite Ea|congruence|].
    intros s2 Hm Hcalm2. apply HQ; [done|by etrans].
  - apply wpf_ret. assert (j_owner x s = 0) as Eow by (unfold j_owner; by rewrite Eg). rewrite Eow in *. by apply HQ.
Qed.
End callback.

(** ** Between two steps *)

Section turn.
Context (env : ShinEnv) (Henv : shin_env_ok env) (up : Prop).

#[local] Instance shin_turn_task_type : TaskType ShinTask := ShinTask_type env.

Notation j_enclave_cpu := (j_enclave_cpu env).
Notation jbasic := (jbasic env).
Notation jcore := (jcore env up).
Notation jmid := (jmid env up).
Notation lifted := (lifted env up).

(** The invariant, with [k] tasks that are not counted yet. *)
Record j_inv_but (k : Z) (s : Shin) : Prop := {
  ji_mid : jmid real s;
  ji_next : ∀ c, next (j_cpus s c) = 0;
  ji_num : num_tasks_ s = s32 (Z.of_nat (size (heap (j_allocator s))) - k)
}.

(** No task is marked for a deferred unschedule. *)
Definition quiet (s : Shin) : Prop := ∀ q t, heap (j_allocator s) !! q = Some t → unschedule_level t = kNoUnschedule.

Definition j_inv (s : Shin) : Prop := j_inv_but 0 s ∧ quiet s.

(** No task runs. *)
Definition none_runs (s : Shin) : Prop := ∀ q t, heap (j_allocator s) !! q = Some t → run_state t ≠ kOnCpu.

Lemma none_runs_still s s' : none_runs s → still s s' → none_runs s'.
Proof. intros Hn Hs q t Hq Hst. destruct (st_oncpu _ _ Hs q t Hq Hst) as (u & Hu & E). by apply (Hn q u). Qed.

Lemma none_runs_quiet p g s : jcore p g s → none_runs s → quiet s.
Proof. intros Hc Hn q t Hq. apply (jb_level _ _ _ (jc_basic _ _ _ _ _ Hc q t Hq)). by eapply Hn. Qed.

Lemma j_dom_size (s s' : Shin) :
  dom (heap (j_allocator s')) = dom (heap (j_allocator s)) → size (heap (j_allocator s')) = size (heap (j_allocator s)).
Proof. intros E. by rewrite <- !(size_dom (D := gset Z)), E. Qed.

Lemma inv_still k s s' : j_inv_but k s → still s s' → jmid real s' → j_inv_but k s'.
Proof.
  intros [Hm Hn Hk] Hs Hm'. split; [done| |].
  - intros c. by rewrite (st_next _ _ Hs).
  - by rewrite (st_num _ _ Hs), (j_dom_size s s') by apply Hs.
Qed.

Lemma inv_quiet p s s' :
  j_inv s → calm p s s' → jmid real s' → (∀ t, heap (j_allocator s') !! p = Some t → unschedule_level t = kNoUnschedule) → j_inv s'.
Proof.
  intros [Hi Hq] Hc Hm Hp. split; [eapply inv_still; [done|apply Hc|done]|]. intros q t Ht.
  destruct (decide (q = p)) as [->|Hne]; [by apply Hp|]. rewrite (cm_others _ _ _ Hc) in Ht by done. by apply (Hq q).
Qed.

(** A task that does not run is not marked. *)
Lemma calm_level p g t s s' :
  jcore 0 g s' → calm p s s' → heap (j_allocator s) !! p = Some t → run_state t ≠ kOnCpu →
  ∀ t', heap (j_allocator s') !! p = Some t' → unschedule_level t' = kNoUnschedule.
Proof.
  intros Hc Hcalm Hp Hst t' Hp'. apply (jb_level _ _ _ (jc_basic _ _ _ _ _ Hc p t' Hp')). intros E.
  destruct (st_oncpu _ _ (cm_still _ _ _ Hcalm) p t' Hp' E) as (u & Hu & Hst'). congruence.
Qed.

Lemma calm_live p q t s s' : calm p s s' → heap (j_allocator s) !! q = Some t → ∃ t', heap (j_allocator s') !! q = Some t'.
Proof. intros Hc Hq. apply elem_of_dom. rewrite (st_dom _ _ (cm_still _ _ _ Hc)). by eapply elem_of_dom_2. Qed.

Lemma j_inv_tick k s : j_inv_but k s → j_inv_but k (tick s).
Proof. intros Hi. apply (inv_still k s); [done|apply (j_calm_same 0 s (tick s)); done|apply jcore_tick, Hi]. Qed.

(** ** Refreshing the parameters *)

Lemma seq_copy_work (success : bool) qos b d x x' :
  J_SeqCopyParams success qos b d x = (false, x') → gpid_ x' = gpid_ x ∧ HasWork x' = HasWork x.
Proof.
  unfold J_SeqCopyParams. destruct (b =? seqcount_ x); [by intros [= <-]|]. destruct success; [done|]. simpl.
  destruct (HasWork (set_qos qos x)) eqn:E; [|done]. simpl. by intros [= <-].
Qed.

(** The callback for an item, from the invariant. *)
Lemma jwp_callback_inv k tg sid x s (Q : unit → Shin → Prop) :
  j_inv_but k s → copy_of tg sid x s → (∀ s', j_inv_but k s' → calm (j_owner x s) s s' → Q tt s') →
  jwp env (J_SchedParamsCallback env tg sid (gpid_ x)) s Q.
Proof using Henv.
  intros Hi Hx HQ. eapply jwp_SchedParamsCallback; [done|exact Hx| |].
  - intros _. split; [apply jmid_core, Hi|]. intros t Ht. by apply (jmid_settled _ _ _ _ _ _ (ji_mid _ _ Hi) Ht).
  - intros s' Hm Hc. apply HQ; [|done]. eapply inv_still; [done|apply Hc|done].
Qed.

Lemma jwp_RefreshSchedParam k tg sid s (Q : unit → Shin → Prop) :
  j_inv_but k s → is_Some (orchs_ s !! tg) → 0 ≤ sid → (∀ s', j_inv_but k s' → still s s' → Q tt s') →
  jwp env (J_RefreshSchedParam env tg sid) s Q.
Proof using Henv.
  intros Hi [o Ho] Hsid HQ. unfold J_RefreshSchedParam. fstep. eapply jwp_orch; [exact Ho|]. fstep.
  apply jwp_check; intros Hlt%Z.ltb_lt. fstep. apply jwp_ask. set (rd := j_item env _ tg sid). fstep.
  apply jwp_lift; [|apply j_class_at_stop]. intros cl _. unfold num_sched_items_ in Hlt.
  destruct (lookup_lt_is_Some_2 (cachedsids_ o) (Z.to_nat sid)) as [x Hx]; [lia|].
  fstep. eapply jwp_params; [exact Ho|by exists o|].
  destruct (J_SeqCopyParams (rd_success rd) (wc_qos cl) (rd_begin rd) (rd_data rd) x) as [changed x'] eqn:Ec.
  fstep. apply wpf_modify. fold (with_copy tg o sid x' (tick s)). set (s1 := with_copy tg o sid x' (tick s)).
  assert (jmid real (tick s)) as Hm0 by apply jcore_tick, Hi.
  assert (∀ q, calm q s s1) as Hcalm1.
  { intros q. etrans; [by apply (j_calm_same q s (tick s))|]. apply with_copy_calm. }
  apply wpf_when; intros ->.
  - assert (copy_of tg sid x' s1) as Hx1 by by apply (with_copy_of tg o sid x).
    eapply jwp_SchedParamsCallback; [done|exact Hx1| |].
    + intros Hold. change (j_owner x' s1) with (j_owner x' s). assert (gpid_ x = 0 ∨ gpid_ x' = gpid_ x) as Hg by naive_solver. split.
      * apply (j_with_copy_core env up _ real tg o sid x); [by apply jmid_core|done|done|done|]. right. destruct Hg as [Hg|Hg]; [by left|right].
        unfold j_owner. by rewrite Hg.
      * intros t Ht. by apply (jmid_settled _ _ _ _ _ _ Hm0 Ht).
    + intros s2 Hm2 Hcalm2. assert (still s s2) as Hst by (etrans; [apply (Hcalm1 0)|apply Hcalm2]).
      apply HQ; [|done]. by apply (inv_still k s).
  - destruct (seq_copy_work _ _ _ _ _ _ Ec) as [Hg Hw]. apply HQ; [|apply (Hcalm1 0)].
    apply (inv_still k s); [done|apply (Hcalm1 0)|]. apply (j_with_copy_core env up 0 real tg o sid x); [done|done|done|by right|by left].
Qed.

Lemma jwp_refresh_all k tg n s (Q : unit → Shin → Prop) :
  j_inv_but k s → is_Some (orchs_ s !! tg) → (∀ s', j_inv_but k s' → still s s' → Q tt s') →
  jwp env (RefreshAllSchedParams n (J_RefreshSchedParam env tg)) s Q.
Proof using Henv.
  intros Hi Ho HQ. unfold RefreshAllSchedParams.
  eapply wpf_mono; [apply (wpf_forM _ _ _ (λ l s', Forall (λ i, 0 ≤ i) l ∧ j_inv_but k s' ∧ still s s'))|].
  - split; [|done]. apply Forall_fmap, Forall_forall. intros i _. simpl. lia.
  - intros i l s1 (Hl & Hi1 & Hc1). apply Forall_cons in Hl as [Hi0 Hl].
    apply (jwp_RefreshSchedParam k); [done|by apply (st_orchs _ _ Hc1)|done|]. intros s2 Hi2 Hc2. split_and!; [done|done|by etrans].
  - intros [] s1 (_ & Hi1 & Hc1). by apply HQ.
Qed.

Lemma jwp_RefreshSchedParams k tg s (Q : unit → Shin → Prop) :
  j_inv_but k s → is_Some (orchs_ s !! tg) → (∀ s', j_inv_but k s' → still s s' → Q tt s') →
  jwp env (J_RefreshSchedParams env tg) s Q.
Proof using Henv.
  intros Hi Hos HQ. pose proof Hos as [o Ho]. unfold J_RefreshSchedParams. fstep. eapply jwp_orch; [exact Ho|].
  unfold RefreshSchedParams. generalize (num_sched_items_ o) as n. intros n. clear Ho. revert s Hi Hos HQ.
  induction (capacity o) as [|cap IH]; intros s Hi Hos HQ; simpl; [by apply wpf_ret, HQ|].
  fstep. apply jwp_ask. set (ix := j_next_index env (asked s) tg). apply j_inv_tick in Hi as Hi1.
  assert (still s (tick s)) as Hc1 by by apply (j_calm_same 0 s (tick s)). fstep.
  - apply andb_true_iff in Heqb as [H0%Z.leb_le _]. fstep. apply (jwp_RefreshSchedParam k); [done|done|done|].
    intros s2 Hi2 Hc2. apply IH; [done|by apply (st_orchs _ _ Hc2)|]. intros s3 Hi3 Hc3. apply HQ; [done|]. by do 2 (etrans; [done|]).
  - fstep; [|fstep].
    + apply (jwp_refresh_all k); [done|done|]. intros s3 Hi3 Hc3. apply HQ; [done|]. by etrans.
    + by apply wpf_ret, HQ.
    + done.
Qed.

(** A loop over the orchestrators. *)
Lemma jwp_over_orchs k (f : Z → M Shin unit) s (Q : unit → Shin → Prop) :
  (∀ tg s (Q : unit → Shin → Prop), j_inv_but k s → is_Some (orchs_ s !! tg) →
     (∀ s', j_inv_but k s' → still s s' → Q tt s') → jwp env (f tg) s Q) →
  j_inv_but k s → (∀ s', j_inv_but k s' → still s s' → Q tt s') →
  jwp env (gets (λ s, j_iter env (orchs_ s)) ≫= λ tgs, forM tgs f) s Q.
Proof using Henv.
  intros Hf Hi HQ. fstep. fstep.
  eapply wpf_mono; [apply (wpf_forM _ _ _ (λ l s', Forall (λ tg, is_Some (orchs_ s !! tg)) l ∧ j_inv_but k s' ∧ still s s'))|].
  - split; [|done]. apply Forall_forall. intros tg. apply (je_iter _ Henv).
  - intros tg l s1 (Hl & Hi1 & Hc1). apply Forall_cons in Hl as [H0 Hl].
    apply Hf; [done|by apply (st_orchs _ _ Hc1)|]. intros s2 Hi2 Hc2. split_and!; [done|done|by etrans].
  - intros [] s1 (_ & Hi1 & Hc1). by apply HQ.
Qed.

Lemma jwp_UpdateSchedParams k s (Q : unit → Shin → Prop) :
  j_inv_but k s → (∀ s', j_inv_but k s' → still s s' → Q tt s') → jwp env (J_UpdateSchedParams env) s Q.
Proof using Henv. intros Hi HQ. apply (jwp_over_orchs k); [|done|done]. intros tg s1 Q1. apply jwp_RefreshSchedParams. Qed.

Lemma j_inv_same k s s' :
  j_inv_but k s → j_allocator s' = j_allocator s → j_cpus s' = j_cpus s → run_queue_ s' = run_queue_ s → yielding_tasks_ s' = yielding_tasks_ s →
  aside s s' → num_tasks_ s' = num_tasks_ s → j_inv_but k s'.
Proof.
  intros [Hm Hn Hk] Ea Ec Er Ey Has En. split; [|by rewrite Ec|by rewrite En, Ea].
  apply (jcore_same _ _ 0 real s); [done|done| |rewrite Er; apply Hm|done].
  intros [| |c]; simpl; [by rewrite Er|by rewrite Ey|by rewrite Ec].
Qed.

Lemma j_inv_disc k b s : j_inv_but k s → j_inv_but k (set_in_discovery b s).
Proof. intros Hi. by apply (j_inv_same k s). Qed.

Lemma jwp_DiscoveryComplete k s (Q : unit → Shin → Prop) :
  j_inv_but k s → none_runs s → (∀ s', j_inv_but k s' → none_runs s' → Q tt s') → jwp env (J_DiscoveryComplete env) s Q.
Proof using Henv.
  intros Hi Hn HQ. unfold J_DiscoveryComplete. apply wpf_assoc. fstep. apply (jwp_over_orchs k); [|done|].
  - intros tg s1 Q1 Hi1 [o Ho] HQ1. unfold J_RefreshAllSchedParams. fstep. eapply jwp_orch; [exact Ho|].
    apply (jwp_refresh_all k); [done|by exists o|done].
  - intros s1 Hi1 Hs. fstep. apply HQ; [by apply j_inv_disc|]. exact (none_runs_still s s1 Hn Hs).
Qed.

Lemma jwp_GetSchedParams k p t tg s (Q : unit → Shin → Prop) :
  j_inv_but k s → heap (j_allocator s) !! p = Some t → is_Some (orchs_ s !! tg) →
  (∀ s', j_inv_but k s' → calm p s s' → Q tt s') → jwp env (J_GetSchedParams env tg (gtid t)) s Q.
Proof using Henv.
  intros Hi Hp [o Ho] HQ. unfold J_GetSchedParams. fstep. eapply jwp_orch; [exact Ho|].
  destruct (find_item (gtid t) (cachedsids_ o) 0) as [sid|] eqn:E; [|by apply wpf_ret, HQ].
  apply find_item_spec in E as (x & H0 & Hx & Hg). rewrite Z.sub_0_r in Hx. rewrite <- Hg.
  assert (j_owner x s = p) as Eow by (apply (j_owner_is env up 0 real s x p t); [apply Hi|done|done]).
  eapply jwp_callback_inv; [done|by exists o|]. rewrite Eow. intros s' Hi' Hc. by apply HQ.
Qed.

(** ** Message handlers *)

Lemma jwp_check_runtime p t m s (Q : unit → Shin → Prop) :
  heap (j_allocator s) !! p = Some t → Q tt (tick s) → jwp env (j_check_runtime env p m) s Q.
Proof. intros Hp HQ. unfold j_check_runtime. fstep. eapply jwp_task; [exact Hp|]. fstep. apply jwp_ask. by apply jwp_check. Qed.

(** After these handlers the task is there. *)
Definition handled (p : Z) (m : M Shin unit) : Prop :=
  ∀ s t (Q : unit → Shin → Prop), j_inv s → heap (j_allocator s) !! p = Some t →
    (∀ s', j_inv s' → calm p s s' → Q tt s') → jwp env m s Q.

Lemma inv_core p s : j_inv s → jcore p real s.
Proof. intros [Hi _]. apply jmid_core, Hi. Qed.

Lemma inv_settled p t s : j_inv s → heap (j_allocator s) !! p = Some t → jsettled s t.
Proof. intros [Hi _] Hp. by apply (jmid_settled _ _ _ _ _ _ (ji_mid _ _ Hi) Hp). Qed.

(** [Enqueue] of a task that the handler has taken from where it was. *)
Lemma jwp_Enqueue_inv p t back s0 s (Q : unit → Shin → Prop) :
  j_inv s0 → calm p s0 s → lifted p t real s → jsynced s t → (∀ s', j_inv s' → calm p s0 s' → Q tt s') → jwp env (J_Enqueue p back) s Q.
Proof.
  intros Hi Hc Hl Hs HQ. eapply jwp_Enqueue; [exact Hl|]. intros s' He. pose proof (enqueued_mid _ _ _ _ _ _ _ He Hs) as Hm.
  assert (calm p s0 s') as Hc' by (etrans; [exact Hc|apply He]). apply HQ; [|done]. apply (inv_quiet p s0); [done|done|done|].
  intros t' Ht'. apply (jb_level _ _ _ (jc_basic _ _ _ _ _ Hm p t' Ht')). rewrite (eq_at _ _ _ _ _ _ _ He) in Ht'. injection Ht' as <-.
  simpl. by destruct (has_work t).
Qed.

Lemma jwp_TaskRunnable p m : handled p (J_TaskRunnable p m).
Proof.
  intros s t Q Hi Hp HQ. unfold J_TaskRunnable. fstep. eapply jwp_task; [exact Hp|]. fstep.
  apply jwp_check; intros Hst%j_state_true. fstep. eapply jwp_upd; [exact Hp|]. set (t1 := set_boost _ _ t).
  pose proof (inv_core p s Hi) as Hc. destruct (inv_settled p t s Hi Hp) as [_ Hs].
  eapply (jwp_Enqueue_inv p t1 _ s); [done|by apply (j_calm_put p t)| |exact Hs|done].
  apply (j_lifted_put _ _ p t); [|done|].
  - apply j_core_lifted; [done|done|unfold j_place; by rewrite Hst].
  - apply jbasic_idle. pose proof (jc_basic _ _ _ _ _ Hc p t Hp) as []. by split.
Qed.

(** The beginning of three handlers: a task that runs is accounted for and
    taken off its CPU. *)
Lemma jwp_running_off p t r s (Q : unit → Shin → Prop) :
  jcore p real s → heap (j_allocator s) !! p = Some t → run_state t = kOnCpu →
  (∀ t1 s1, lifted p t1 real s1 → calm p s s1 → orchs_ s1 = orchs_ s → run_state t1 = kOnCpu → sp t1 = sp t → has_work t1 = has_work t →
     unschedule_level t1 = unschedule_level t → Q tt s1) →
  jwp env (J_UpdateTaskRuntime p r true ≫= λ _, j_clear_current p) s Q.
Proof using Henv.
  intros Hc Hp Hst HQ. fstep. eapply jwp_UpdateTaskRuntime; [exact Hp|]. intros e. set (t1 := set_runtimes r e t).
  pose proof (jcore_runtimes env up p t r e real s Hc Hp) as Hc1. fold t1 in Hc1.
  eapply jwp_clear_current; [done|exact Hc1|done|apply lookup_insert_eq|done|]. intros Hl.
  apply (HQ t1); [exact Hl| |done..]. etrans; [by eapply calm_runtimes|]. apply off_cpu_calm.
Qed.

Lemma jwp_J_TaskPreempted p m : handled p (J_TaskPreempted env p m).
Proof using Henv.
  intros s t Q Hi Hp HQ. unfold J_TaskPreempted. fstep. eapply jwp_check_runtime; [exact Hp|]. fstep. eapply jwp_upd; [exact Hp|].
  set (t1 := set_boost true true t). set (s1 := put_task p t1 (tick s)).
  assert (jcore p real s1) as Hc1.
  { apply (jcore_put _ _ p real (tick s) t); try done; [apply jcore_tick, inv_core, Hi|].
    pose proof (jc_basic _ _ _ _ _ (inv_core p s Hi) p t Hp) as []. by split. }
  assert (calm p s s1) as Hcalm1 by (etrans; [by apply (j_calm_same p s (tick s))|by apply (j_calm_put p t)]).
  destruct (inv_settled p t s Hi Hp) as [Hw Hs].
  assert (heap (j_allocator s1) !! p = Some t1) as Hp1 by apply lookup_insert_eq.
  fstep. eapply jwp_task; [exact Hp1|]. fstep; [|fstep].
  - apply j_state_true in Heqb. apply wpf_assoc. fstep. eapply jwp_running_off; [exact Hc1|exact Hp1|done|].
    intros t2 s2 Hl Hc2 Eo _ Es Ew _. eapply (jwp_Enqueue_inv p t2 _ s); [done|by etrans|exact Hl| |done].
    intros tg sid x E Hx. rewrite (j_params_orchs s1 s2) in Hx by done. rewrite Es in E, Hx. rewrite Ew. by apply (Hs tg sid).
  - apply j_state_true in Heqb0. fstep. apply wpf_wp. eapply j_wp_Remove; [exact Hc1|exact Hp1|done|apply not_elem_of_nil|].
    intros s2 Hl Hc2 Ha _ _ _. assert (jwp env (J_Enqueue p true) s2 Q) as H; [|exact H].
    eapply (jwp_Enqueue_inv p _ _ s); [done|by etrans|exact Hl| |done].
    apply (jsynced_orchs s1); [apply Ha|]. exact Hs.
  - apply jwp_check; intros Hpa%j_state_true. apply HQ; [|done]. apply (inv_quiet p s); [done|done| |].
    + eapply jcore_settle; [exact Hc1|exact Hp1|]. split; [exact Hw|exact Hs].
    + intros t' Ht'. rewrite Hp1 in Ht'. injection Ht' as <-. by apply (proj2 Hi p t).
Qed.

(** Taken from where it was, and consistent with its item. *)
Record taken (p : Z) (t : ShinTask) (s0 s : Shin) : Prop := {
  tk_lifted : lifted p t real s;
  tk_calm : calm p s0 s;
  tk_synced : jsynced s t;
  tk_level : unschedule_level t = kNoUnschedule
}.

Lemma taken_here p t s : j_inv s → heap (j_allocator s) !! p = Some t → j_place t = None → taken p t s s.
Proof.
  intros Hi Hp Hpl. split; [|done|by apply (inv_settled p t s)|by apply (proj2 Hi p t)].
  apply j_core_lifted; [by apply inv_core|done|done].
Qed.

Lemma jwp_take_queued p t s0 s (Q : unit → Shin → Prop) :
  j_inv s → calm p s0 s → heap (j_allocator s) !! p = Some t → run_state t = kQueued →
  (∀ t' s', taken p t' s0 s' → Q tt s') → jwp env (J_RemoveFromRunqueue p) s Q.
Proof.
  intros Hi Hc0 Hp Hst HQ. apply wpf_wp. eapply j_wp_Remove; [by apply inv_core|exact Hp|done|apply not_elem_of_nil|].
  intros s2 Hl Hc2 Ha _ _ _. apply (HQ (set_run_state kPaused t)). split; [exact Hl|by etrans| |by apply (proj2 Hi p t)].
  apply (jsynced_orchs s); [apply Ha|]. exact (proj2 (inv_settled p t s Hi Hp)).
Qed.

Lemma jwp_J_TaskBlocked p m : handled p (J_TaskBlocked env p m).
Proof using Henv.
  intros s t Q Hi Hp HQ. unfold J_TaskBlocked. fstep. eapply jwp_check_runtime; [exact Hp|]. fstep. eapply jwp_task; [exact Hp|]. fstep.
  assert (j_inv (tick s)) as Hi1 by (destruct Hi as [Hi Hq]; split; [by apply j_inv_tick|exact Hq]).
  assert (calm p s (tick s)) as Hc0 by by apply j_calm_same.
  destruct (inv_settled p t s Hi Hp) as [Hw Hs].
  eapply (wpf_mono _ _ _ (λ _ s1, ∃ t1, taken p t1 s s1)).
  - fstep; [|fstep].
    + apply j_state_true in Heqb. eapply jwp_running_off; [by apply inv_core|exact Hp|done|]. intros t1 s1 Hl Hc1 Eo _ Es Ew El. exists t1.
      split; [exact Hl|by etrans| |rewrite El; by apply (proj2 Hi p t)].
      intros tg sid x E Hx. rewrite (j_params_orchs s s1) in Hx by done. rewrite Es in E, Hx. rewrite Ew. by apply (Hs tg sid).
    + apply j_state_true in Heqb0. eapply (jwp_take_queued p t s (tick s)); [done|done|exact Hp|done|]. intros t1 s1 H. by exists t1.
    + apply jwp_check; intros Hpa%j_state_true. exists t.
      destruct (taken_here p t (tick s) Hi1 Hp) as [H1 H2 H3 H4]; [unfold j_place; by rewrite Hpa|]. by split.
  - intros [] s1 (t1 & [Hl Hc1 Hs1 Hlev]). eapply jwp_upd; [apply Hl|]. set (t2 := set_run_state kBlocked t1).
    assert (jcore p real (put_task p t2 s1)) as Hc2.
    { eapply j_lifted_settle; [exact Hl|done|done|]. apply j_idle_basic; [by eapply lifted_idle|done|done|by right; left]. }
    assert (calm p s (put_task p t2 s1)) as Hcalm by (etrans; [exact Hc1|apply (j_calm_put p t1); [apply Hl|done]]).
    apply HQ; [|done]. apply (inv_quiet p s); [done|done| |].
    + eapply jcore_settle; [exact Hc2|apply lookup_insert_eq|]. by split.
    + intros t' Ht'. simpl in Ht'. rewrite lookup_insert_eq in Ht'. by injection Ht' as <-.
Qed.

Lemma jwp_J_TaskYield p m : handled p (J_TaskYield env p m).
Proof using Henv.
  intros s t Q Hi Hp HQ. unfold J_TaskYield. fstep. eapply jwp_check_runtime; [exact Hp|]. fstep. eapply jwp_task; [exact Hp|].
  assert (j_inv (tick s)) as Hi1 by (destruct Hi as [Hi Hq]; split; [by apply j_inv_tick|exact Hq]).
  assert (calm p s (tick s)) as Hc0 by by apply j_calm_same.
  destruct (inv_settled p t s Hi Hp) as [Hw Hs]. pose proof (proj2 Hi p t Hp) as Hlev. fstep.
  - apply j_state_true in Heqb. apply wpf_assoc. fstep. eapply jwp_running_off; [by apply inv_core|exact Hp|done|].
    intros t1 s1 Hl Hc1 Eo Est Es Ew El. unfold jwork in Hw. rewrite Heqb, Hlev in Hw. destruct (has_work t) eqn:Hwt; [|done].
    apply wpf_wp. eapply j_wp_Yield; [exact Hl|done|by left|done|congruence|].
    intros s2 Hc2 Hp2 Hcalm2 Ha2 _ _. assert (calm p s s2) as Hcalm by (do 2 (etrans; [done|]); exact Hcalm2).
    apply HQ; [|done]. apply (inv_quiet p s); [done|done| |].
    + eapply (yielded_mid env up p t1 real s1); [exact Hc2|exact Hp2|congruence|exact Ha2|].
      intros tg sid x E Hx. rewrite (j_params_orchs s s1) in Hx by done. rewrite Es in E, Hx. rewrite Ew, <- Hwt. by apply (Hs tg sid).
    + intros t' Ht'. rewrite Hp2 in Ht'. injection Ht' as <-. simpl. congruence.
  - apply jwp_check; intros _. by apply HQ.
Qed.

Lemma j_nop_handled p : handled p j_nop.
Proof. intros s t Q Hi Hp HQ. by apply wpf_ret, HQ. Qed.

(** ** Tasks come and go *)

Definition freed (p : Z) (t : ShinTask) (s : Shin) : Shin :=
  set_j_allocator (mkAllocator (delete (gtid t) (task_map_ (j_allocator s))) (delete p (heap (j_allocator s)))) s.

Lemma j_lifted_free p t s : lifted p t real s → jmid real (freed p t s).
Proof.
  intros [Hp Hc]. set (s1 := put_task p (idle t) s) in *.
  assert (heap (j_allocator s1) !! p = Some (idle t)) as Hp1 by apply lookup_insert_eq.
  assert (delete p (heap (j_allocator s1)) = delete p (heap (j_allocator s))) as Ed by (simpl; by rewrite delete_insert_eq).
  assert (∀ q u, heap (j_allocator (freed p t s)) !! q = Some u → q ≠ p ∧ heap (j_allocator s1) !! q = Some u) as Hheap.
  { intros q u Hu. simpl in Hu. apply lookup_delete_Some in Hu as [Hne Hu]. split; [done|]. simpl. by rewrite lookup_insert_ne. }
  split.
  - destruct (alloc_inv_free (j_allocator s1) p _ (jc_alloc _ _ _ _ _ Hc) Hp1) as [_ Ha]. rewrite Ed in Ha. exact Ha.
  - simpl. rewrite <- Ed. by eapply rest_free; [apply (jc_rest _ _ _ _ _ Hc)|exact Hp1|].
  - exact (jc_keys _ _ _ _ _ Hc).
  - intros q u [_ Hu]%Hheap. apply (jbasic_orchs env s1); [done|]. by eapply jc_basic.
  - intros q u _ [Hne Hu]%Hheap. apply (jsettled_orchs s1); [done|]. by eapply jc_settled.
  - exact (jc_agent _ _ _ _ _ Hc).
  - exact (jc_global _ _ _ _ _ Hc).
  - exact (jc_oneshot _ _ _ _ _ Hc).
Qed.

Lemma jwp_free p t s0 s (Q : unit → Shin → Prop) :
  j_inv s0 → taken p t s0 s → (∀ s', j_inv s' → Q tt s') → jwp env (j_free env p) s Q.
Proof.
  intros [Hi Hq] [Hl Hc _ _] HQ. unfold j_free. fstep. apply wpf_wp. eapply wp_free; [apply Hl|]. apply wp_modify.
  change (Q tt (set_num_tasks (s32 (num_tasks_ s - 1)) (freed p t s))). apply HQ.
  pose proof (j_lifted_free p t s Hl) as Hm. pose proof (lf_at _ _ _ _ _ _ Hl) as Hp.
  pose proof (map_size_delete p (heap (j_allocator s))) as Esz. rewrite Hp in Esz. simpl in Esz.
  assert (size (heap (j_allocator s)) ≠ 0%nat) as Hnz.
  { intros E. apply map_size_empty_iff in E. rewrite E in Hp. by rewrite lookup_empty in Hp. }
  assert (∀ q u, heap (j_allocator (freed p t s)) !! q = Some u → heap (j_allocator s0) !! q = Some u) as Hheap.
  { intros q u Hu. simpl in Hu. apply lookup_delete_Some in Hu as [Hne Hu]. by rewrite <- (cm_others _ _ _ Hc). }
  split; [split|].
  - apply (jcore_same _ _ 0 real (freed p t s)); [done|done|done|apply Hm|done].
  - intros c. simpl. rewrite (st_next _ _ (cm_still _ _ _ Hc)). apply (ji_next _ _ Hi).
  - simpl. rewrite Esz, (st_num _ _ (cm_still _ _ _ Hc)), (ji_num _ _ Hi), (j_dom_size s0 s) by apply Hc.
    unfold Z.sub at 1. rewrite s32_add. f_equal. rewrite <- (j_dom_size s0 s) by apply Hc. lia.
  - intros q u Hu%Hheap. by apply (Hq q).
Qed.

Lemma jwp_J_TaskDead p t m s (Q : unit → Shin → Prop) :
  j_inv s → heap (j_allocator s) !! p = Some t → (∀ s', j_inv s' → Q tt s') → jwp env (J_TaskDead env p m) s Q.
Proof.
  intros Hi Hp HQ. unfold J_TaskDead. fstep. eapply jwp_task; [exact Hp|]. fstep. apply jwp_check; intros Hst%j_state_true.
  eapply (jwp_free p t s); [done| |done]. apply taken_here; [done|done|]. unfold j_place. by rewrite Hst.
Qed.

Lemma jwp_J_TaskDeparted p t m s (Q : unit → Shin → Prop) :
  j_inv s → heap (j_allocator s) !! p = Some t → (∀ s', j_inv s' → Q tt s') → jwp env (J_TaskDeparted env p m) s Q.
Proof using Henv.
  intros Hi Hp HQ. unfold J_TaskDeparted. fstep. eapply jwp_task; [exact Hp|]. fstep.
  eapply (wpf_mono _ _ _ (λ _ s1, ∃ t1, j_inv s1 ∧ calm p s s1 ∧ heap (j_allocator s1) !! p = Some t1)).
  { apply wpf_when; intros Hy.
    - apply j_state_true in Hy. eapply jwp_Unyield; [by apply inv_core|done|exact Hp|done|]. intros s0 s1 Ha0 Hc0 He.
      eexists. split_and!; [|by etrans; [|apply He]|apply He].
      destruct (inv_settled p t s Hi Hp) as [_ Hs]. pose proof (enqueued_mid _ _ _ _ _ _ _ He (jsynced_orchs s s0 t (as_orchs _ _ Ha0) Hs)) as Hm.
      apply (inv_quiet p s); [done|by etrans; [|apply He]|done|]. intros t' Ht'. rewrite (eq_at _ _ _ _ _ _ _ He) in Ht'. injection Ht' as <-.
      by apply (proj2 Hi p t).
    - by exists t. }
  intros [] s1 (t1 & Hi1 & Hc1 & Hp1). fstep. eapply jwp_task; [exact Hp1|]. fstep.
  eapply (wpf_mono _ _ _ (λ _ s2, ∃ t2, taken p t2 s s2)).
  - pose proof (proj2 (inv_settled p t1 s1 Hi1 Hp1)) as Hs1. pose proof (proj2 Hi1 p t1 Hp1) as Hlev. fstep; [|fstep].
    + apply j_state_true in Heqb. eapply jwp_clear_current; [done|by apply inv_core|done|exact Hp1|done|]. intros Hl. exists t1.
      split; [exact Hl|etrans; [exact Hc1|apply off_cpu_calm]|exact Hs1|done].
    + apply j_state_true in Heqb0. eapply (jwp_take_queued p t1 s s1); [done|done|exact Hp1|done|]. intros t2 s2 H. by exists t2.
    + apply jwp_check; intros Hb. exists t1. destruct (taken_here p t1 s1 Hi1 Hp1) as [H1 H2 H3 H4]; [|by split].
      unfold j_place. apply orb_true_iff in Hb as [E%j_state_true|E%j_state_true]; by rewrite E.
  - intros [] s2 (t2 & Ht). by apply (jwp_free p t2 s s2).
Qed.

(** The table of a new thread group. *)
Lemma jcore_new_orch p g tg n tb s :
  jcore p g s → orchs_ s !! tg = None → j_attach env n tg = Some tb → jcore p g (set_orchs (<[tg := ShinOrch_Init tb]> (orchs_ s)) s).
Proof.
  intros Hc Hn Ha.
  assert (∀ r x, j_params_of s r = Some x → j_params_of (set_orchs (<[tg := ShinOrch_Init tb]> (orchs_ s)) s) r = Some x) as Hpar.
  { intros [| |tg' sid] x; simpl; [done|done|]. destruct (decide (tg = tg')) as [<-|Hne]; [by rewrite Hn|by rewrite lookup_insert_ne]. }
  apply jcore_orchs; [done|..].
  - intros r x Hx _. exists x. split; [by apply Hpar|done].
  - intros q t tg' sid x' _ Hq E Hx'. destruct (jb_params _ _ _ (jc_basic _ _ _ _ _ Hc q t Hq) tg' sid E) as (x & Hx & _).
    exists x. split; [done|]. rewrite (Hpar _ x Hx) in Hx'. congruence.
  - intros tg' H. rewrite lookup_insert_is_Some'. by right.
  - intros H1 tg' o'. rewrite lookup_insert_Some. intros [[<- <-]|[_ H]]; [exact (H1 _ _ _ Ha)|].
    by apply (proj2 (jc_oneshot _ _ _ _ _ Hc H1) tg').
Qed.

Lemma j_lifted_tick p t g s : lifted p t g s → lifted p t g (tick s).
Proof. intros [Hp Hc]. split; [done|]. exact (jcore_tick env up p g _ Hc). Qed.

(** A thread without an item, not in any queue. *)
Record arriving (p : Z) (t : ShinTask) (s : Shin) : Prop := {
  ar_lifted : lifted p t real s;
  ar_state : run_state t = kBlocked;
  ar_level : unschedule_level t = kNoUnschedule;
  ar_sp : ∀ tg sid, sp t ≠ SpItem tg sid
}.

Lemma jwp_HandleNewGtid p t tg s (Q : unit → Shin → Prop) :
  arriving p t s →
  (∀ t' s', arriving p t' s' → calm p s s' → is_Some (orchs_ s' !! tg) ∨ ¬ attaches env → Q tt s') →
  jwp env (J_HandleNewGtid env p tg) s Q.
Proof.
  intros [Hl Hst Hlev Hsp] HQ. unfold J_HandleNewGtid. fstep. apply jwp_check; intros _. fstep. fstep.
  destruct (orchs_ s !! tg) as [o|] eqn:Eo; [apply wpf_ret; eapply HQ; [by split|done|left; by exists o]|]. fstep. apply jwp_ask.
  destruct (j_attach env (asked s) tg) as [tb|] eqn:Ea.
  - apply wpf_modify. apply (HQ t); [split; [split|done..]|apply j_calm_same; try done|left; simpl; by rewrite lookup_insert_is_Some'; left].
    + apply (lf_at _ _ _ _ _ _ Hl).
    + apply (jcore_new_orch p real tg (asked s) tb (tick (put_task p (idle t) s))); [apply jcore_tick, Hl|done|done].
    + intros tg'. simpl. rewrite lookup_insert_is_Some'. by right.
  - eapply jwp_upd; [apply Hl|]. set (t1 := set_work SpDummy true (wcid t) t).
    assert (calm p s (put_task p t1 (tick s))) as Hc.
    { etrans; [by apply (j_calm_same p s (tick s))|apply (j_calm_put p t); [apply Hl|done]]. }
    apply (HQ t1); [split; [|done..]|done|right; intros Hat; by destruct (Hat (asked s) tg) as [? ?]; congruence].
    apply (j_lifted_put _ _ p t); [by apply j_lifted_tick|done|].
    pose proof (lifted_idle _ _ _ _ _ _ Hl) as []. by split.
Qed.

Lemma j_arriving_synced p t s s' : arriving p t s → jsynced s' t.
Proof. intros [_ _ _ Hsp] tg sid x E. by apply Hsp in E. Qed.

Lemma jwp_J_TaskNew p t m s (Q : unit → Shin → Prop) :
  j_inv_but 1 s → quiet s → heap (j_allocator s) !! p = Some t → run_state t = kBlocked → sp t = SpNull →
  (∀ s', j_inv s' → (none_runs s → none_runs s') → Q tt s') → jwp env (J_TaskNew env p m) s Q.
Proof using Henv.
  intros Hi Hquiet Hp Hst Hsp HQ. unfold J_TaskNew. fstep. eapply jwp_check_runtime; [exact Hp|]. fstep.
  eapply jwp_UpdateTaskRuntime; [exact Hp|]. intros e. set (t1 := set_runtimes _ e t). set (s1 := put_task p t1 (tick s)).
  assert (jcore p real s1) as Hc1 by (apply jcore_runtimes; [apply jcore_tick, jmid_core, Hi|done]).
  assert (heap (j_allocator s1) !! p = Some t1) as Hp1 by apply lookup_insert_eq.
  fstep. eapply jwp_upd; [exact Hp1|]. set (t2 := set_run_state kBlocked _). set (s2 := put_task p t2 s1).
  assert (arriving p t2 s2) as Har.
  { split; [|done|by apply (Hquiet p t)|intros tg' sid'; simpl; by rewrite Hsp]. apply (j_lifted_put _ _ p t1).
    - apply j_core_lifted; [done|done|]. unfold j_place. simpl. by rewrite Hst.
    - done.
    - pose proof (jbasic_idle _ _ _ (jc_basic _ _ _ _ _ Hc1 p t1 Hp1)) as []. by split. }
  assert (calm p s s2) as Hcalm2.
  { etrans; [by apply (j_calm_same p s (tick s))|]. etrans; [by apply (calm_runtimes p t (Nanoseconds (j_absl env) (msg_runtime m)) e)|]. by apply (j_calm_put p t1). }
  fstep. apply jwp_ask. fstep. eapply (jwp_HandleNewGtid p t2 _ (tick s2)).
  { destruct Har as [Hl ? ? ?]. split; [by apply j_lifted_tick|done..]. }
  intros t3 s3 Har3 Hcalm3 Hor. set (tgid := j_tgid env _ _) in *. fstep.
  assert (calm p s s3) as Hc3 by (etrans; [exact Hcalm2|]; etrans; [|exact Hcalm3]; by apply j_calm_same).
  eapply (wpf_mono _ _ _ (λ _ s4, jmid real s4 ∧ calm p s s4 ∧ orchs_ s4 = orchs_ s3 ∧
    ∃ t4, heap (j_allocator s4) !! p = Some t4 ∧ run_state t4 ≠ kOnCpu)).
  { apply wpf_when; intros _.
    - eapply jwp_Enqueue; [apply Har3|]. intros s4 He. split_and!.
      + eapply enqueued_mid; [exact He|by eapply j_arriving_synced].
      + etrans; [exact Hc3|apply He].
      + apply (eq_aside _ _ _ _ _ _ _ He).
      + eexists. split; [apply He|]. simpl. by destruct (has_work t3).
    - split_and!; [|done|done|exists t3; split; [apply Har3|by rewrite (ar_state _ _ _ Har3)]].
      apply (jcore_settle env up p real s3 t3); [|apply Har3|].
      + apply (lifted_none env up p t3); [apply Har3|unfold j_place; by rewrite (ar_state _ _ _ Har3)|].
        pose proof (lifted_idle _ _ _ _ _ _ (ar_lifted _ _ _ Har3)) as H. destruct t3. destruct Har3 as [_ Est El _]. simpl in *. subst. exact H.
      + split; [unfold jwork; by rewrite (ar_state _ _ _ Har3)|by eapply j_arriving_synced]. }
  intros [] s4 (Hm4 & Hc4 & Eo4 & t4 & Ht4 & Hst4). fstep. fstep. set (s5 := set_num_tasks _ s4).
  assert (jmid real s5) as Hm5 by (apply (jcore_same _ _ 0 real s4); [done|done|done|apply Hm4|done]).
  fstep. fstep. fstep. eapply jwp_upd; [exact Ht4|]. set (t6 := set_orch _ t4). set (s6 := put_task p t6 s5).
  assert (heap (j_allocator s6) !! p = Some t6) as Hp6 by apply lookup_insert_eq.
  assert (jcore p real s6) as Hc6.
  { apply (jcore_put _ _ p real s5 t4); try done; [by apply jmid_core|]. pose proof (jc_basic _ _ _ _ _ Hm5 p t4 Ht4) as []. split; try done.
    simpl. intros tg. destruct (orchs_ s4 !! tgid) eqn:E; [|done]. intros [= <-]. by rewrite E. }
  assert (jmid real s6) as Hm6.
  { eapply jcore_settle; [exact Hc6|exact Hp6|]. pose proof (jmid_settled _ _ _ _ _ _ Hm5 Ht4) as [H1 H2]. by split. }
  assert (calm p s5 s6) as Hc56 by by apply (j_calm_put p t4).
  assert (none_runs s → none_runs s6) as Hn6.
  { intros Hn. apply (none_runs_still s5 s6); [exact (none_runs_still s s4 Hn (cm_still _ _ _ Hc4))|apply Hc56]. }
  assert (j_inv s6) as Hi6.
  { split; [split|].
    - exact Hm6.
    - intros c. rewrite (st_next _ _ (cm_still _ _ _ Hc56)). simpl. rewrite (st_next _ _ (cm_still _ _ _ Hc4)). apply (ji_next _ _ Hi).
    - rewrite (st_num _ _ (cm_still _ _ _ Hc56)), (j_dom_size s5 s6) by apply Hc56. simpl.
      rewrite (st_num _ _ (cm_still _ _ _ Hc4)), (ji_num _ _ Hi), s32_add, (j_dom_size s s4) by apply Hc4. f_equal. lia.
    - intros q u Hu. destruct (decide (q = p)) as [->|Hne].
      + rewrite Hp6 in Hu. injection Hu as <-. apply (jb_level _ _ _ (jc_basic _ _ _ _ _ Hm5 p t4 Ht4)). done.
      + rewrite (cm_others _ _ _ Hc56) in Hu by done. simpl in Hu. rewrite (cm_others _ _ _ Hc4) in Hu by done. by apply (Hquiet q). }
  fstep. fstep. apply wpf_when; intros _; [|by apply HQ]. fstep. eapply jwp_task; [exact Hp6|].
  destruct (orchs_ s4 !! tgid) as [o|] eqn:Eo; simpl orch; rewrite Eo.
  - eapply (jwp_GetSchedParams 0 p t6); [apply Hi6|exact Hp6|by exists o|]. intros s7 Hi7 Hc7.
    apply HQ; [|intros Hn; exact (none_runs_still s6 s7 (Hn6 Hn) (cm_still _ _ _ Hc7))].
    apply (inv_quiet p s6); [done|done|apply Hi7|]. by apply (calm_level p real t6 s6 s7 (ji_mid _ _ Hi7)).
  - apply wpf_abort. split; [done|]. intros _ [Hat _]. rewrite <- Eo4, Eo in Hor. destruct Hor as [[? ?]|]; done.
Qed.

(** ** The dispatch of a message *)

Notation dispatch := (@DispatchMessage Shin ShinTask (ShinTask_type env) _ (Shin_ops env)).

Lemma jwp_Advance p t n s (Q : unit → Shin → Prop) :
  j_inv s → heap (j_allocator s) !! p = Some t → (∀ s', j_inv s' → Q tt s') → jwp env (Advance p n) s Q.
Proof.
  intros Hi Hp HQ. unfold Advance. fstep. eapply jwp_task; [exact Hp|]. fstep. apply jwp_check; intros _.
  eapply jwp_upd; [exact Hp|]. apply HQ. set (t1 := set_task_seqnum n t).
  assert (jcore p real (put_task p t1 s)) as Hc.
  { pose proof (inv_core p s Hi) as Hc. apply (jcore_put _ _ p real s t); try done. pose proof (jc_basic _ _ _ _ _ Hc p t Hp) as []. by split. }
  apply (inv_quiet p s); [done|by apply (j_calm_put p t)| |].
  - eapply jcore_settle; [exact Hc|apply lookup_insert_eq|]. destruct (inv_settled p t s Hi Hp). by split.
  - intros t' Ht'. simpl in Ht'. rewrite lookup_insert_eq in Ht'. injection Ht' as <-. by apply (proj2 Hi p t).
Qed.

(** A handler after which the sequence number advances. *)
Lemma jwp_handled p t (h : M Shin unit) (m : Message) s (Q : unit → Shin → Prop) :
  handled p h → j_inv s → heap (j_allocator s) !! p = Some t → (∀ s', j_inv s' → Q tt s') →
  jwp env ((h ≫= λ _, mret true) ≫= λ u : bool, whenM u (Advance p (msg_seqnum m))) s Q.
Proof.
  intros Hh Hi Hp HQ. fstep. fstep. eapply Hh; [done|exact Hp|]. intros s1 Hi1 Hc1. fstep. simpl.
  destruct (calm_live p p t s s1 Hc1 Hp) as [t1 Ht1]. by eapply jwp_Advance; [|exact Ht1|].
Qed.

(** The other handlers. *)
Lemma jwp_final p (h : M Shin unit) (m : Message) s (Q : unit → Shin → Prop) :
  jwp env h s Q → jwp env ((h ≫= λ _, mret false) ≫= λ u : bool, whenM u (Advance p (msg_seqnum m))) s Q.
Proof. intros Hh. fstep. fstep. eapply wpf_mono; [exact Hh|]. intros [] s1 HQ. fstep. exact HQ. Qed.

Lemma j_inv_new s g (Hi : j_inv s) :
  g ≠ 0 → task_map_ (j_allocator s) !! g = None →
  let p := j_malloc env (j_allocator s) in
  let s1 := set_j_allocator (mkAllocator (<[g := p]> (task_map_ (j_allocator s))) (<[p := ShinTask_new (j_absl env) g]> (heap (j_allocator s)))) s in
  j_inv_but 1 s1 ∧ quiet s1 ∧ heap (j_allocator s1) !! p = Some (ShinTask_new (j_absl env) g) ∧ (none_runs s → none_runs s1).
Proof using Henv.
  destruct Hi as [Hi Hq]. intros Hg Hn p s1. pose proof (ji_mid _ _ Hi) as Hm. pose proof (jc_alloc _ _ _ _ _ Hm) as Ha.
  destruct (je_malloc _ Henv (j_allocator s) (proj1 Ha)) as [Hp0 Hpn]. fold p in Hp0, Hpn.
  assert (∀ q u, heap (j_allocator s1) !! q = Some u → (q = p ∧ u = ShinTask_new (j_absl env) g) ∨ (q ≠ p ∧ heap (j_allocator s) !! q = Some u)) as Hheap.
  { intros q u Hu. simpl in Hu. apply lookup_insert_Some in Hu as [[<- <-]|[? ?]]; [by left|by right]. }
  split; [split; [split|..]|split; [|split; [apply lookup_insert_eq|]]].
  - exact (proj2 (alloc_inv_new (j_allocator s) p g Ha Hp0 Hpn Hn eq_refl)).
  - by apply rest_new; [apply (jc_rest _ _ _ _ _ Hm)| |].
  - exact (jc_keys _ _ _ _ _ Hm).
  - intros q u [[-> ->]|[_ Hu]]%Hheap; [|apply (jbasic_orchs env s); [done|by eapply jc_basic]].
    split; simpl; try done. intros _. split; [done|by left].
  - intros q u Hne [[-> ->]|[_ Hu]]%Hheap; [done|]. apply (jsettled_orchs s); [done|by eapply (jc_settled _ _ _ _ _ Hm q)].
  - exact (jc_agent _ _ _ _ _ Hm).
  - exact (jc_global _ _ _ _ _ Hm).
  - exact (jc_oneshot _ _ _ _ _ Hm).
  - apply (ji_next _ _ Hi).
  - simpl. rewrite map_size_insert_None by done. rewrite (ji_num _ _ Hi). f_equal. lia.
  - intros q u [[-> ->]|[_ Hu]]%Hheap; [done|by apply (Hq q)].
  - intros Hnr q u [[-> ->]|[_ Hu]]%Hheap; [done|by apply (Hnr q)].
Qed.

(** The dispatch of a task message to its handler. *)
Lemma jwp_dispatch_task p t m s (Q : unit → Shin → Prop) :
  j_inv s → heap (j_allocator s) !! p = Some t → msg_type m ≠ MSG_TASK_NEW → (∀ s', j_inv s' → Q tt s') →
  jwp env (@dispatch_task Shin ShinTask (ShinTask_type env) _ (Shin_ops env) p m ≫= λ u : bool, whenM u (Advance p (msg_seqnum m))) s Q.
Proof using Henv.
  intros Hi Hp Hnew HQ. unfold dispatch_task. simpl TaskNew. rewrite (proj2 (Z.eqb_neq _ _) Hnew). cbn -[J_TaskPreempted J_TaskDead].
  repeat match goal with |- wpf _ (mbind _ (if ?b then _ else _)) _ _ => destruct b end.
  all: try by (eapply jwp_handled; [|exact Hi|exact Hp|exact HQ]; try apply j_nop_handled;
               eauto using jwp_TaskRunnable, jwp_J_TaskBlocked, jwp_J_TaskPreempted, jwp_J_TaskYield).
  - apply jwp_final. by eapply jwp_J_TaskDead.
  - apply jwp_final. by eapply jwp_J_TaskDeparted.
  - done.
Qed.

Lemma jwp_DispatchMessage m s (Q : unit → Shin → Prop) :
  j_inv s → (∀ s', j_inv s' → Q tt s') → jwp env (dispatch m) s Q.
Proof using Henv.
  intros Hi HQ. unfold DispatchMessage. fstep; [by apply wpf_ret, HQ|]. fstep.
  { unfold dispatch_cpu. repeat (fstep; [by simpl; apply wpf_ret, HQ|]). done. }
  fstep. apply jwp_check; intros _. fstep. apply jwp_check; intros Hg%negb_true_iff%Z.eqb_neq. fstep.
  unfold find_task. destruct (Z.eqb_spec (msg_type m) MSG_TASK_NEW) as [Hnew|Hnew].
  - fstep. apply wpf_wp. apply wp_get. unfold GetTask_new, GetTask. simpl malloc.
    destruct (task_map_ (allocator s) !! msg_gtid m) as [q|] eqn:Eq.
    + fstep. fstep. fstep. apply wpf_ret. change (set_allocator (allocator s) s) with (set_j_allocator (j_allocator s) s).
      assert (set_j_allocator (j_allocator s) s = s) as -> by by destruct s. by apply HQ.
    + destruct (j_inv_new s (msg_gtid m) Hi Hg Eq) as (Hi1 & Hq1 & Hp1 & _). fstep. fstep. fstep.
      unfold dispatch_task. rewrite (proj2 (Z.eqb_eq _ _) Hnew). simpl TaskNew. apply jwp_final.
      eapply jwp_J_TaskNew; [exact Hi1|exact Hq1|exact Hp1|done|done|]. intros s' Hi' _. by apply HQ.
  - fstep. destruct (GetTask (msg_gtid m) (allocator s)) as [p|] eqn:Eg; [|by apply wpf_ret, HQ].
    destruct (proj1 (proj2 (jc_alloc _ _ _ _ _ (ji_mid _ _ (proj1 Hi))) _ _) Eg) as (t & Ht & _).
    eapply jwp_dispatch_task; [done|exact Ht|done|done].
Qed.
End turn.
