(* ===== verification/ShinPass.v ===== *)
(** * ShinPass: the scheduling pass of the Shinjuku agent, and its turn

    A pass takes tasks out of the run queue for the CPUs, and holds them: they
    are queued but in no queue.  Each held task is the [next] of one of the
    CPUs; when the pass ends it runs there or is back in the queue.  The first
    iteration also settles the tasks that were marked by a change of their
    parameters: after it no task is left that only could be unscheduled, so
    that the level is gone before anything looks at it. *)

From S2P Require Import Prelude Outcome CpuMap CpuMapSpec.
From S2P Require Import Topology TopologySpec Dispatch Placement Txn PrioTable PrioTableSpec Shin ShinOps ShinTurn.
From stdpp Require Import gmap functions sorting.
From Stdlib Require Import ZArith Lia.

Local Open Scope Z_scope.

(** Marked tasks are as they were. *)
Definition marks (s s' : Shin) : Prop :=
  ∀ q t, unschedule_level t ≠ kNoUnschedule → heap (j_allocator s') !! q = Some t ↔ heap (j_allocator s) !! q = Some t.

Global Instance marks_refl : Reflexive marks.
Proof. by intros s q t. Qed.

Global Instance marks_trans : Transitive marks.
Proof. intros s1 s2 s3 H1 H2 q t Hl. by rewrite (H2 q t Hl), (H1 q t Hl). Qed.

Lemma marks_could s s' q t :
  marks s s' → unschedule_level t = kCouldUnschedule → heap (j_allocator s') !! q = Some t ↔ heap (j_allocator s) !! q = Some t.
Proof. intros Hm Hl. apply Hm. by rewrite Hl. Qed.

(** No task only could be unscheduled. *)
Definition no_could (s : Shin) : Prop :=
  ∀ q t, heap (j_allocator s) !! q = Some t → unschedule_level t ≠ kCouldUnschedule.

(** A task that could be unscheduled has no successor; a marked task has one. *)
Definition could_idle (s : Shin) : Prop :=
  ∀ q t, heap (j_allocator s) !! q = Some t → unschedule_level t = kCouldUnschedule → next (j_cpus s (cpu t)) = 0.
Definition marked_next (s : Shin) : Prop :=
  ∀ q t, heap (j_allocator s) !! q = Some t → unschedule_level t ≠ kNoUnschedule → next (j_cpus s (cpu t)) ≠ 0.

Lemma no_could_marks s s' : no_could s → marks s s' → no_could s'.
Proof. intros Hn Hm q t Hq Hl. apply (Hn q t); [|done]. by apply (marks_could s s'). Qed.

(** The tasks, the queues and the tables are as they were; the agents or the
    global CPU are not. *)
Record same_work (s s' : Shin) : Prop := {
  sw_allocator : j_allocator s' = j_allocator s;
  sw_rq : run_queue_ s' = run_queue_ s;
  sw_yield : yielding_tasks_ s' = yielding_tasks_ s;
  sw_orchs : orchs_ s' = orchs_ s;
  sw_paused : paused_repeatables_ s' = paused_repeatables_ s;
  sw_num : num_tasks_ s' = num_tasks_ s;
  sw_cpus : ∀ c, current (j_cpus s' c) = current (j_cpus s c) ∧ next (j_cpus s' c) = next (j_cpus s c)
}.

Lemma j_inv_agents env up up' s s' :
  j_inv env up s → same_work s s' → (up' → ∀ c, j_enclave_cpu env c → agent (j_cpus s' c) = true) →
  j_enclave_cpu env (global_cpu_ s') → j_inv env up' s'.
Proof.
  intros [[Hm Hn Hk] Hq] [Ea Er Ey Eo Ep En Ec] Hag Hg. split; [|by intros q t; rewrite Ea; apply Hq].
  split; [|by intros c; rewrite (proj2 (Ec c)); apply Hn|by rewrite En, Ea].
  split; rewrite ?Ea, ?Er; try done; try apply Hm.
  - eapply rest_perm; [apply Hm|]. intros [| |c]; simpl; [by rewrite Er|by rewrite Ey|by rewrite (proj1 (Ec c))].
  - intros q t Hu. apply (jbasic_orchs _ s); [done|by eapply jc_basic].
  - intros q t Hne Hu. apply (jsettled_orchs s); [done|by eapply jc_settled].
  - rewrite Ep, Eo. apply Hm.
Qed.

Section pass.
Context (env : ShinEnv) (Henv : shin_env_ok env).

#[local] Instance shin_pass_task_type : TaskType ShinTask := ShinTask_type env.

Notation j_enclave_cpu := (j_enclave_cpu env).
Notation jbasic := (jbasic env).
Notation jcore := (jcore env True).
Notation jmid := (jmid env True).
Notation lifted := (lifted env True).
Notation j_inv_but := (j_inv_but env True).
Notation j_inv := (j_inv env True).

(** During a pass: the CPUs and their [next] tasks [ps], which are held, and
    the tasks [xs] that are held besides. *)
Record jpassing (ps : list (Z * Z)) (xs : list Z) (s : Shin) : Prop := {
  jp_mid : jmid (with_held (xs ++ ps.*2)) s;
  jp_next : ∀ c p, (c, p) ∈ ps ↔ next (j_cpus s c) = p ∧ p ≠ 0;
  jp_nodup : NoDup ps.*1;
  jp_num : num_tasks_ s = s32 (Z.of_nat (size (heap (j_allocator s))))
}.

Lemma jpassing_inv s : jpassing [] [] s ↔ j_inv_but 0 s.
Proof.
  split.
  - intros [Hm Hn _ Hk]. split; [done| |by rewrite Z.sub_0_r].
    intros c. destruct (decide (next (j_cpus s c) = 0)) as [|Hne]; [done|].
    exfalso. by apply (not_elem_of_nil (c, next (j_cpus s c))), Hn.
  - intros [Hm Hn Hk]. split; [done| |constructor|by rewrite Z.sub_0_r in Hk].
    intros c p. rewrite Hn. split; [by intros ?%elem_of_nil|]. intros [<- ?]. done.
Qed.

(** The queues and CPUs stay. *)
Lemma jpassing_same ps xs s s' :
  jpassing ps xs s → j_allocator s' = j_allocator s → j_cpus s' = j_cpus s → run_queue_ s' = run_queue_ s →
  yielding_tasks_ s' = yielding_tasks_ s → aside s s' → num_tasks_ s' = num_tasks_ s → jpassing ps xs s'.
Proof.
  intros [Hm Hn Hd Hk] Ea Ec Er Ey Has En. split; [|by rewrite Ec|done|by rewrite En, Ea].
  apply (jcore_same _ _ 0 (with_held (xs ++ ps.*2)) s); [done|done| |rewrite Er; apply Hm|done].
  intros [| |c]; simpl; [by rewrite Er|by rewrite Ey|by rewrite Ec].
Qed.

Lemma jpassing_tick ps xs s : jpassing ps xs s → jpassing ps xs (tick s).
Proof. intros Hp. by apply (jpassing_same ps xs s). Qed.

Lemma jpassing_event ps xs e s : jpassing ps xs s → jpassing ps xs (add_event e s).
Proof. intros Hp. by apply (jpassing_same ps xs s). Qed.

(** One task changed, and the held ones. *)
Lemma jpassing_calm ps xs ys p s s' :
  jpassing ps xs s → calm p s s' → jmid (with_held (ys ++ ps.*2)) s' → jpassing ps ys s'.
Proof.
  intros [Hm Hn Hd Hk] [Hs _] Hm'. split; [done| |done|].
  - intros c q. rewrite (st_next _ _ Hs). apply Hn.
  - by rewrite (st_num _ _ Hs), (j_dom_size s s') by apply Hs.
Qed.

(** Held tasks are queued. *)
Lemma jpassing_held ps xs s p :
  jpassing ps xs s → p ∈ xs ++ ps.*2 → ∃ t, heap (j_allocator s) !! p = Some t ∧ run_state t = kQueued ∧ p ≠ 0 ∧
    unschedule_level t = kNoUnschedule.
Proof.
  intros [Hm _ _ _] Hp. assert (p ∈ j_queues (with_held (xs ++ ps.*2)) s JRun) as Hin by (simpl; apply elem_of_app; by right).
  apply (j_in_queue _ _ _ _ _ _ Hm) in Hin as (t & Ht & Hst). exists t. split; [done|]. split; [done|].
  split; [by eapply j_nonzero|]. apply (jb_level _ _ _ (jc_basic _ _ _ _ _ Hm p t Ht)). by rewrite Hst.
Qed.

(** The task of a CPU. *)
Lemma jpassing_current ps xs s c :
  jpassing ps xs s → current (j_cpus s c) ≠ 0 →
  ∃ t, heap (j_allocator s) !! current (j_cpus s c) = Some t ∧ run_state t = kOnCpu ∧ cpu t = c ∧ sp t ≠ SpNull.
Proof.
  intros [Hm _ _ _] Hc. destruct (j_current_on_cpu env True 0 _ s c Hm) as (t & Ht & Hst & Ecpu); [done|done|].
  exists t. split_and!; try done. intros E. destruct (jb_null _ _ _ (jc_basic _ _ _ _ _ Hm _ t Ht) E) as [_ [H|H]]; congruence.
Qed.

(** ** Choosing tasks *)

Lemma jwp_QoS p t s (Q : Z → Shin → Prop) :
  heap (j_allocator s) !! p = Some t → jbasic s t → sp t ≠ SpNull → (∀ q, Q q s) → jwp env (J_GetQoS p) s Q.
Proof. intros Hp Hb Hn HQ. destruct (j_has_params _ _ _ Hb Hn) as [x Hx]. apply wpf_wp. eapply j_wp_QoS; [exact Hp|exact Hx|apply HQ]. Qed.

Lemma jwp_should_preempt now p t g s :
  jmid g s → heap (j_allocator s) !! p = Some t → sp t ≠ SpNull → jwp env (should_preempt env now p) s (λ _ s', s' = s).
Proof.
  intros Hm Hp Hn. pose proof (jc_basic _ _ _ _ _ Hm p t Hp) as Hb. unfold should_preempt. fstep. eapply jwp_task; [exact Hp|]. fstep.
  apply wpf_wp. eapply j_wp_Peek; [exact Hm|by intros _; simpl; apply wpf_ret|]. intros k tk Hk Hk0 _ Hwk. rewrite (proj2 (Z.eqb_neq k 0)) by done.
  fstep. eapply jwp_QoS; [exact Hp|done|done|]. intros q1. fstep. eapply jwp_QoS; [exact Hk|by eapply jc_basic| |].
  { intros E. destruct (jb_null _ _ _ (jc_basic _ _ _ _ _ Hm k tk Hk) E). congruence. }
  intros q2. fstep; [by apply wpf_ret|]. fstep; [|by apply wpf_ret]. fstep. eapply (wpf_mono _ _ _ (λ _ s', s' = s)).
  - fstep; [|by apply wpf_ret]. destruct (orch t) as [tg|] eqn:Eo; [|by apply wpf_ret].
    destruct (jb_orch _ _ _ Hb tg Eo) as [o Ho]. fstep. eapply jwp_orch; [exact Ho|]. fstep.
    destruct (j_has_params _ _ _ Hb Hn) as [x Hx]. apply wpf_wp. eapply j_wp_sp; [exact Hx|]. fstep.
    eapply (jwp_Repeating _ _ 0 g tg); [exact Hm|exact Ho|]. intros rep _. by apply wpf_ret.
  - intros b s' ->. fstep; by apply wpf_ret.
Qed.

(** What the search for a task does: tasks may yield. *)
Definition scan (s s' : Shin) : Prop := j_cpus s' = j_cpus s ∧ global_cpu_ s' = global_cpu_ s ∧ marks s s'.

Global Instance scan_trans : Transitive scan.
Proof. intros s1 s2 s3 (E1 & F1 & M1) (E2 & F2 & M2). split; [congruence|]. split; [congruence|by etrans]. Qed.

Lemma scan_same s s' : j_cpus s' = j_cpus s → global_cpu_ s' = global_cpu_ s → j_allocator s' = j_allocator s → scan s s'.
Proof. intros Ec Eg Ea. split; [done|]. split; [done|]. intros q t _. by rewrite Ea. Qed.

(** A held task yields. *)
Lemma jwp_yield_held p t ps s (Q : unit → Shin → Prop) :
  jpassing ps [p] s → heap (j_allocator s) !! p = Some t → run_state t = kQueued →
  (∀ s', jpassing ps [] s' → scan s s' → run_queue_ s' = run_queue_ s → Q tt s') → jwp env (J_Yield p) s Q.
Proof.
  intros Hpa Hp Hst HQ. pose proof (jp_mid _ _ _ Hpa) as Hm. destruct (jmid_settled _ _ _ _ _ _ Hm Hp) as [Hw Hs].
  unfold jwork in Hw. rewrite Hst in Hw.
  assert (unschedule_level t = kNoUnschedule) as Hlev by (apply (jb_level _ _ _ (jc_basic _ _ _ _ _ Hm p t Hp)); by rewrite Hst).
  assert (lifted p t (with_held ps.*2) s) as Hl by (apply unhold_lifted; [by apply jmid_core|done|done]).
  apply wpf_wp. eapply j_wp_Yield; [exact Hl|done|by right|done|done|]. intros s' Hc Hp' Hcalm Ha Ec Er. apply HQ; [| |done].
  - eapply (jpassing_calm ps [p]); [exact Hpa|exact Hcalm|]. by apply (yielded_mid env True p t _ s).
  - split; [done|]. split; [apply Ha|]. intros q u Hne. destruct (decide (q = p)) as [->|Hq]; [|by rewrite (cm_others _ _ _ Hcalm)].
    rewrite Hp', Hp. split; intros [= <-]; done.
Qed.

Lemma jwp_find fuel now c ps s (Q : Found → Shin → Prop) :
  jpassing ps [] s → j_enclave_cpu c → (RunqueueSize (run_queue_ s) < fuel)%nat →
  (∀ s', jpassing ps [] s' → scan s s' → Q FoundSkip s' ∧ Q FoundStop s') →
  (∀ p s', jpassing ps [p] s' → scan s s' → Q (FoundTask p) s') → jwp env (find_next env fuel now c) s Q.
Proof using Henv.
  revert s. induction fuel as [|fuel IH]; intros s Hpa Hc Hf HQ HQ2; [lia|]. simpl.
  pose proof (jp_mid _ _ _ Hpa) as Hm. fstep. apply (jwp_cpu env Henv); [done|]. fstep.
  assert (scan s s) as Hrefl by by apply scan_same.
  eapply (wpf_mono _ _ _ (λ _ s1, s1 = s)).
  { fstep; [by apply wpf_ret|]. apply Z.eqb_neq in Heqb. destruct (jpassing_current ps [] s c Hpa Heqb) as (tc & Htc & _ & _ & Hn).
    by eapply jwp_should_preempt. }
  intros go s1 ->. destruct go; simpl negb; cbv iota; [|by apply wpf_ret, HQ]. fstep. apply wpf_wp. eapply j_wp_Dequeue; [exact Hm|intros _|].
  { simpl. by apply wpf_ret, HQ. }
  intros p t s1 [Hm1 Ea [Ht [Hst Hp0]] Has Hcalm Ecp Hq _]. rewrite (proj2 (Z.eqb_neq p 0)) by done.
  assert (jpassing ps [p] s1) as Hpa1 by by apply (jpassing_calm ps [] [p] 0 s).
  assert (heap (j_allocator s1) !! p = Some t) as Ht1 by by rewrite Ea.
  assert (scan s (tick s1)) as Hs1 by by apply scan_same; [|apply Has|].
  apply jpassing_tick in Hpa1 as Hpa2. fstep. eapply jwp_task; [exact Ht1|]. fstep. apply jwp_ask. fstep.
  - fstep. eapply jwp_yield_held; [exact Hpa2|exact Ht1|done|]. intros s2 Hpa3 Hs2 Eq2.
    assert (scan s s2) as Hs by by etrans.
    apply IH; [done|done| | |].
    + rewrite Eq2. rewrite RunqueueSize_queued in *. simpl. apply Permutation_length in Hq. simpl in Hq. lia.
    + intros s3 Hpa4 Hs3. apply HQ; [done|by etrans].
    + intros q s3 Hpa4 Hs3. apply HQ2; [done|by etrans].
  - apply wpf_ret. by apply HQ2.
Qed.

(** The held task becomes the next of a CPU, or stops being it. *)
Definition with_next (c p : Z) (s : Shin) : Shin := set_j_cpus (<[c := set_next p (j_cpus s c)]> (j_cpus s)) s.

Lemma with_next_queues g c p s k : j_queues g (with_next c p s) k = j_queues g s k.
Proof.
  destruct k as [| |c']; [done|done|]. simpl. destruct (decide (g_cur g = Some c')); [done|].
  destruct (decide (c = c')) as [<-|?]; by rewrite ?fn_lookup_insert, ?fn_lookup_insert_ne.
Qed.

Lemma with_next_aside c p s : aside s (with_next c p s).
Proof. split; try done. intros c'. simpl. destruct (decide (c = c')) as [<-|?]; by rewrite ?fn_lookup_insert, ?fn_lookup_insert_ne. Qed.

Lemma next_with_next c p s c' : next (j_cpus (with_next c p s) c') = if decide (c' = c) then p else next (j_cpus s c').
Proof. simpl. case_decide as E; [subst; by rewrite fn_lookup_insert|]. by rewrite fn_lookup_insert_ne. Qed.

Lemma current_with_next c p s c' : current (j_cpus (with_next c p s) c') = current (j_cpus s c').
Proof. simpl. destruct (decide (c = c')) as [<-|?]; by rewrite ?fn_lookup_insert, ?fn_lookup_insert_ne. Qed.

Lemma jpassing_set_next ps c p s :
  jpassing ps [p] s → next (j_cpus s c) = 0 → jpassing ((c, p) :: ps) [] (with_next c p s).
Proof.
  intros Hpa Hc. destruct (jpassing_held ps [p] s p Hpa) as (t & _ & _ & Hp0 & _); [by left|]. destruct Hpa as [Hm Hn Hd Hk].
  assert (c ∉ ps.*1) as Hnin. { intros ([c' q] & -> & Hin)%list_elem_of_fmap. apply Hn in Hin as [E ?]. simpl in *. congruence. }
  split; [|intros c' q| |done].
  - apply (jcore_same _ _ 0 (with_held ([p] ++ ps.*2)) s); [done|done| |apply Hm|apply with_next_aside]. intros k. by rewrite with_next_queues.
  - rewrite elem_of_cons, next_with_next. case_decide as E.
    + subst c'. split.
      * intros [[= ->]|Hin]; [done|]. exfalso. apply Hnin, list_elem_of_fmap. by exists (c, q).
      * intros [-> _]. by left.
    + rewrite <- Hn. split; [intros [[= ? ?]|?]; done|by right].
  - simpl. by constructor.
Qed.

Lemma jpassing_perm ps ps' xs s : jpassing ps xs s → ps' ≡ₚ ps → jpassing ps' xs s.
Proof.
  intros [Hm Hn Hd Hk] E. split; [|intros c p; by rewrite E|by rewrite E|done].
  apply (jcore_same _ _ 0 (with_held (xs ++ ps.*2)) s); [done|done| |apply Hm|done].
  intros [| |c]; [|done|done]. simpl. by rewrite E.
Qed.

Lemma jpassing_clear_next ps c p s :
  jpassing ((c, p) :: ps) [] s → jpassing ps [p] (with_next c 0 s) ∧ next (j_cpus s c) = p.
Proof.
  intros [Hm Hn Hd Hk]. destruct (proj1 (Hn c p)) as [Hc Hp0]; [by left|]. split; [|done].
  simpl in Hd. apply NoDup_cons in Hd as [Hnin Hd]. split; [|intros c' q|done|done].
  - apply (jcore_same _ _ 0 (with_held ([] ++ ((c, p) :: ps).*2)) s); [done|done| |apply Hm|apply with_next_aside].
    intros k. by rewrite with_next_queues.
  - rewrite next_with_next. case_decide as E.
    + subst c'. split; [|by intros [<- ?]]. intros Hin. exfalso. apply Hnin, list_elem_of_fmap. by exists (c, q).
    + rewrite <- Hn, elem_of_cons. split; [by right|]. intros [[= ? ?]|?]; done.
Qed.

(** The set of CPUs that got a task. *)
Definition j_updated_ok (u : CpuList) : Prop :=
  cpulist_wf u ∧ topology_num_cpus u = num_cpus_ (j_topo env) ∧ ∀ c, c ∈ elems u → j_enclave_cpu c.

Lemma j_updated_set c u :
  j_updated_ok u → j_enclave_cpu c → ∃ u', CpuList_Set c u = Ok u' ∧ j_updated_ok u' ∧ ∀ c', c' ∈ elems u' ↔ c' ∈ c :: elems u.
Proof using Henv.
  intros (Hw & Hn & He) Hc. destruct (j_enclave_range env c Henv Hc) as [Hr _].
  destruct (Set_spec u c Hw) as (u' & E & Hw' & Hn' & Hb); [by rewrite Hn|].
  assert (∀ c', c' ∈ elems u' ↔ c' ∈ c :: elems u) as Hel.
  { intros c'. rewrite elem_of_cons, !elem_of_elems by done. split.
    - intros [H0 H1]. rewrite Hb in H1 by done. apply orb_true_iff in H1 as [H1%Z.eqb_eq|H1]; [by left|by right].
    - intros [->|[H0 H1]]; (split; [lia|]); rewrite Hb by lia; [by rewrite Z.eqb_refl|by rewrite H1, orb_true_r]. }
  exists u'. split; [done|]. split; [|done]. split; [done|]. split; [congruence|].
  intros c' [->|H]%Hel%elem_of_cons; [done|by apply He].
Qed.

(** The CPUs with a next task are those that got one before or now. *)
Definition cover (O : Z → Prop) (u : CpuList) (s : Shin) : Prop := ∀ c, next (j_cpus s c) ≠ 0 ↔ O c ∨ c ∈ elems u.

Lemma jwp_Available c g s (Q : bool → Shin → Prop) :
  jmid g s → j_enclave_cpu c → (∀ a, Q a (tick s)) → jwp env (J_Available env c) s Q.
Proof using Henv.
  intros Hm Hc HQ. unfold J_Available. fstep. apply (jwp_cpu env Henv); [done|]. rewrite (jc_agent _ _ _ _ _ Hm I c) by done. apply jwp_ask, HQ.
Qed.

Lemma jwp_Skip i c ps s (Q : bool → Shin → Prop) :
  jpassing ps [] s → j_enclave_cpu c → Q true (tick s) →
  ((i = 0 → current (j_cpus s c) ≠ 0 → ∃ t, heap (j_allocator s) !! current (j_cpus s c) = Some t ∧ unschedule_level t = kMustUnschedule) →
   (i = 1 → next (j_cpus s c) = 0) → Q false (tick s)) →
  jwp env (SkipForSchedule env i c) s Q.
Proof using Henv.
  intros Hpa Hc Hskip HQ. unfold SkipForSchedule. fstep. apply (jwp_cpu env Henv); [done|]. fstep.
  eapply jwp_Available; [apply Hpa|done|]. intros a. fstep. fstep. fstep; [by apply wpf_ret|]. fstep.
  eapply (wpf_mono _ _ _ (λ b s', s' = tick s ∧ (b = false → i = 0 → current (j_cpus s c) ≠ 0 →
    ∃ t, heap (j_allocator s) !! current (j_cpus s c) = Some t ∧ unschedule_level t = kMustUnschedule))).
  - fstep.
    + apply andb_true_iff in Heqb0 as [_ Hcur%negb_true_iff%Z.eqb_neq]. destruct (jpassing_current ps [] s c Hpa Hcur) as (t & Ht & _).
      fstep. eapply jwp_task; [exact Ht|]. apply wpf_ret. split; [done|]. intros Hlt _ _. exists t. split; [done|].
      by destruct (unschedule_level t).
    + apply wpf_ret. split; [done|]. intros _ -> Hcur. simpl in Heqb0. by apply negb_false_iff, Z.eqb_eq in Heqb0.
  - intros b s' [-> Hb]. destruct b; [by apply wpf_ret|]. apply wpf_ret. destruct (_ && _) eqn:E; [done|]. apply HQ; [by apply Hb|].
    intros ->. simpl in E. by apply negb_false_iff, Z.eqb_eq in E.
Qed.

Lemma jwp_find_loop O now i cs u ps s (Q : CpuList → Shin → Prop) :
  jpassing ps [] s → could_idle s → cover O u s → j_updated_ok u → NoDup cs → (∀ c, c ∈ cs → j_enclave_cpu c) →
  (i = 0 ∧ ∀ c, c ∈ cs → next (j_cpus s c) = 0) ∨ (i = 1 ∧ no_could s) →
  (∀ u' ps' s', jpassing ps' [] s' → could_idle s' → cover O u' s' → j_updated_ok u' → marks s s' →
     (∀ c, current (j_cpus s' c) = current (j_cpus s c)) → Q u' s') →
  jwp env (find_loop env now i cs u) s Q.
Proof using Henv.
  revert u ps s. induction cs as [|c cs IH]; intros u ps s Hpa Hci Hco Hu Hnd Hcs Hit HQ; simpl; [by apply wpf_ret, (HQ u ps)|].
  apply NoDup_cons in Hnd as [Hnin Hnd]. assert (j_enclave_cpu c) as Hc by (apply Hcs; by left).
  assert (∀ c', c' ∈ cs → j_enclave_cpu c') as Hcs' by (intros c' Hc'; apply Hcs; by right).
  assert (∀ s1, j_cpus s1 = j_cpus s → marks s s1 → (i = 0 ∧ ∀ c, c ∈ cs → next (j_cpus s1 c) = 0) ∨ (i = 1 ∧ no_could s1)) as Hit'.
  { intros s1 Ec Hm1. destruct Hit as [[-> Hn]|[-> Hn]]; [left|right; split; [done|by eapply no_could_marks]].
    split; [done|]. intros c' Hc'. rewrite Ec. apply Hn. by right. }
  assert (∀ s1, j_cpus s1 = j_cpus s → marks s s1 → could_idle s1) as Hci'.
  { intros s1 Ec Hm1 q t Hq Hl. rewrite Ec. apply (Hci q t); [|done]. by apply (marks_could s s1). }
  apply jpassing_tick in Hpa as Hpa1. fstep. eapply (jwp_Skip i c ps s); [done|done| |].
  { apply (IH u ps); try done. apply (Hit' (tick s)); [done|exact (marks_refl s)]. }
  intros H0 H1. fstep. fstep. fstep. apply (jwp_find _ now c ps); [done|done|simpl; lia| |].
  - intros s2 Hpa2 (Ec & _ & Hm2). split; [apply (IH u ps); try done|apply wpf_ret, (HQ u ps); try done].
    + by apply Hci'.
    + intros c'. rewrite Ec. apply Hco.
    + by apply Hit'.
    + intros u' ps' s' ? ? ? ? Hm3 Ec3. apply (HQ u' ps'); try done; [by etrans; [exact Hm2|]|]. intros c'. by rewrite Ec3, Ec.
    + by apply Hci'.
    + intros c'. rewrite Ec. apply Hco.
    + intros c'. by rewrite Ec.
  - intros p s2 Hpa2 (Ec & _ & Hm2). fstep. apply (jwp_upd_cpu env Henv); [done|]. fold (with_next c p s2). fstep.
    destruct (j_updated_set c u Hu Hc) as (u' & E & Hu' & Hel). apply jwp_lift; [intros u1 Eu|congruence]. assert (u1 = u') as -> by congruence.
    simpl in Ec. assert (next (j_cpus s2 c) = 0) as Hn2.
    { rewrite Ec. destruct Hit as [[-> Hn]|[-> _]]; [apply Hn; by left|by apply H1]. }
    assert (p ≠ 0) as Hp0 by (destruct (jpassing_held ps [p] s2 p Hpa2) as (? & _ & _ & ? & _); [by left|done]).
    assert (marks s (with_next c p s2)) as Hm3 by exact Hm2.
    apply (IH u' ((c, p) :: ps)); [by apply jpassing_set_next| | |done|done|done| |].
    + intros q t Hq Hl. rewrite next_with_next. case_decide as Ecp; [|apply (Hci' s2 Ec Hm2 q t Hq Hl)]. exfalso.
      assert (heap (j_allocator s) !! q = Some t) as Hqs by by apply (marks_could s s2).
      assert (run_state t = kOnCpu) as Hst.
      { destruct (decide (run_state t = kOnCpu)) as [|Hne]; [done|].
        pose proof (jb_level _ _ _ (jc_basic _ _ _ _ _ (jp_mid _ _ _ Hpa) q t Hqs) Hne). congruence. }
      destruct (j_on_cpu_current env True 0 _ s q t (jp_mid _ _ _ Hpa) ltac:(done) Hqs Hst) as (_ & Hcur & Hq0). rewrite Ecp in Hcur.
      destruct Hit as [[-> _]|[-> Hn]]; [|by apply (Hn q t Hqs)].
      destruct (H0 eq_refl) as (t' & Ht' & Hl'); [congruence|]. rewrite Hcur in Ht'. congruence.
    + intros c'. rewrite next_with_next. case_decide as Ecc.
      * subst c'. split; [intros _; right; apply Hel; by left|done].
      * rewrite Ec, (Hco c'), Hel, elem_of_cons. naive_solver.
    + destruct (Hit' s2 Ec Hm2) as [[-> Hn]|[-> Hn]]; [left|by right]. split; [done|]. intros c' Hc'. rewrite next_with_next.
      rewrite decide_False by congruence. by apply Hn.
    + intros u2 ps2 s3 ? ? ? ? Hm4 Ec4. apply (HQ u2 ps2); try done; [by etrans|]. intros c'. by rewrite Ec4, current_with_next, Ec.
Qed.

(** ** Settling and opening *)

(** A marked task runs. *)
Lemma marked_runs g s q t :
  jmid g s → g_cur g = None → heap (j_allocator s) !! q = Some t → unschedule_level t ≠ kNoUnschedule →
  run_state t = kOnCpu ∧ j_enclave_cpu (cpu t) ∧ current (j_cpus s (cpu t)) = q ∧ q ≠ 0.
Proof.
  intros Hm Hg Hq Hl. assert (run_state t = kOnCpu) as Hst.
  { destruct (decide (run_state t = kOnCpu)) as [|Hne]; [done|]. by pose proof (jb_level _ _ _ (jc_basic _ _ _ _ _ Hm q t Hq) Hne). }
  split; [done|]. by eapply j_on_cpu_current.
Qed.

(** The tasks that could be unscheduled in [s] stay where they run, without a
    next task; those of the CPUs outside [l] are no longer marked. *)
Definition kept (l : list Z) (s s' : Shin) : Prop :=
  ∀ q t, heap (j_allocator s) !! q = Some t → unschedule_level t = kCouldUnschedule →
    current (j_cpus s' (cpu t)) = q ∧ next (j_cpus s' (cpu t)) = 0 ∧
    (heap (j_allocator s') !! q = Some (set_level kNoUnschedule t) ∨ (cpu t ∈ l ∧ heap (j_allocator s') !! q = Some t)).

Record settling (ps : list (Z * Z)) (s0 : Shin) (l : list Z) (s : Shin) : Prop := {
  se_kept : kept l s0 s;
  se_pass : jpassing ps [] s;
  se_could : could_idle s;
  se_next : ∀ c, next (j_cpus s c) = next (j_cpus s0 c);
  se_marked : ∀ q t, heap (j_allocator s) !! q = Some t → unschedule_level t ≠ kNoUnschedule → cpu t ∈ l ∨ next (j_cpus s (cpu t)) ≠ 0
}.

(** The task of [c] is no longer marked, or has a successor. *)
Lemma settling_done ps s0 c l s :
  settling ps s0 (c :: l) s →
  (∀ t, heap (j_allocator s) !! current (j_cpus s c) = Some t → current (j_cpus s c) ≠ 0 → unschedule_level t = kNoUnschedule ∨ next (j_cpus s c) ≠ 0) →
  settling ps s0 l s.
Proof.
  intros [Hk Hpa Hci Hn Hmk] Hc. split; try done.
  { intros q t Hq Hl. destruct (Hk q t Hq Hl) as (Hcur & Hnx & [H|[Hin H]]); split_and!; try done; [by left|].
    apply elem_of_cons in Hin as [Ec|Hin]; [|by right]. exfalso. rewrite Ec in *.
    assert (q ≠ 0) as Hq0 by by eapply j_nonzero; [apply Hpa|].
    destruct (Hc t) as [H1|H1]; [by rewrite Hcur|by rewrite Hcur|congruence|done]. }
  intros q t Hq Hl.
  destruct (Hmk q t Hq Hl) as [[Ec|H]%elem_of_cons|H]; [|by left|by right]. right.
  destruct (marked_runs _ s q t (jp_mid _ _ _ Hpa) ltac:(done) Hq Hl) as (_ & _ & Hcur & Hq0). rewrite Ec in *.
  destruct (Hc t) as [H|H]; [by rewrite Hcur|by rewrite Hcur|done|done].
Qed.

(** One task lost its mark. *)
Lemma settling_unmark ps s0 l p t1 s s' :
  settling ps s0 l s → kept l s0 s' → calm p s s' → jmid (with_held ps.*2) s' →
  heap (j_allocator s') !! p = Some t1 → unschedule_level t1 = kNoUnschedule →
  settling ps s0 l s'.
Proof.
  intros [_ Hpa Hci Hn Hmk] Hk Hc Hm' Hp Hl.
  assert (∀ q t, heap (j_allocator s') !! q = Some t → unschedule_level t ≠ kNoUnschedule → heap (j_allocator s) !! q = Some t) as Hold.
  { intros q t Hq Hne. rewrite <- (cm_others _ _ _ Hc); [done|]. intros ->. congruence. }
  split.
  - done.
  - by apply (jpassing_calm ps [] [] p s).
  - intros q t Hq Ht. rewrite (st_next _ _ (cm_still _ _ _ Hc)). apply (Hci q t); [|done]. apply Hold; [done|congruence].
  - intros c. rewrite (st_next _ _ (cm_still _ _ _ Hc)). apply Hn.
  - intros q t Hq Hne. rewrite (st_next _ _ (cm_still _ _ _ Hc)). apply (Hmk q t); [by apply Hold|done].
Qed.

Lemma kept_drop l p t s0 s :
  kept l s0 s → heap (j_allocator s) !! p = Some t → unschedule_level t = kCouldUnschedule → kept l s0 (put_task p (set_level kNoUnschedule t) s).
Proof.
  intros Hk Hp Hl q u Hq Hu. destruct (Hk q u Hq Hu) as (Hcur & Hn & H). split_and!; [done|done|]. simpl.
  destruct (decide (q = p)) as [->|Hne]; [|by rewrite lookup_insert_ne]. left. rewrite lookup_insert_eq.
  destruct H as [H|[_ H]]; rewrite Hp in H; injection H as ->; done.
Qed.

Lemma kept_off l p t c s0 s s' :
  kept l s0 s → heap (j_allocator s) !! p = Some t → unschedule_level t = kMustUnschedule → current (j_cpus s c) = p → calm p s s' →
  j_cpus s' = <[c := set_current 0 (j_cpus s c)]> (j_cpus s) → kept l s0 s'.
Proof.
  intros Hk Hp Hl Hc Hcalm Ec q u Hq Hu. destruct (Hk q u Hq Hu) as (Hcur & Hn & H).
  assert (q ≠ p) as Hne by (intros ->; destruct H as [H|[_ H]]; rewrite Hp in H; injection H as ->; [done|congruence]).
  assert (c ≠ cpu u) as Hcu by (intros ->; congruence).
  rewrite Ec, fn_lookup_insert_ne, (cm_others _ _ _ Hcalm) by done. done.
Qed.

Lemma jwp_settle_one ps s0 c l s :
  settling ps s0 (c :: l) s → j_enclave_cpu c → jwp env (settle_one env c) s (λ _, settling ps s0 l).
Proof using Henv.
  intros Hse Hc. pose proof (se_pass _ _ _ _ Hse) as Hpa. pose proof (jp_mid _ _ _ Hpa) as Hm.
  unfold settle_one. fstep. apply (jwp_cpu env Henv); [done|]. apply wpf_when; intros Hcur.
  2:{ apply negb_false_iff, Z.eqb_eq in Hcur. by apply (settling_done ps s0 c). }
  apply negb_true_iff, Z.eqb_neq in Hcur. set (p := current (j_cpus s c)) in *.
  destruct (jpassing_current ps [] s c Hpa Hcur) as (t & Ht & Hst & Ecpu & Hnull). fold p in Ht.
  destruct (jmid_settled _ _ _ _ _ _ Hm Ht) as [Hw Hs]. unfold jwork in Hw. rewrite Hst in Hw.
  pose proof (jc_basic _ _ _ _ _ Hm p t Ht) as Hb. fstep.
  eapply (wpf_mono _ _ _ (λ _ s', settling ps s0 l s' ∧ ∃ t', heap (j_allocator s') !! p = Some t')).
  2:{ intros [] s' [Hse' [t' Ht']]. fstep. eapply jwp_task; [exact Ht'|]. by apply jwp_check. }
  apply wpf_when; intros Hn.
  2:{ apply Z.eqb_neq in Hn. split; [|by exists t]. apply (settling_done ps s0 c); [done|]. intros ? _ _. by right. }
  apply Z.eqb_eq in Hn. fstep. eapply jwp_task; [exact Ht|]. fstep; [|apply wpf_when; intros Hmust].
  - apply has_level_true in Heqb. eapply jwp_upd; [exact Ht|]. set (t1 := set_level kNoUnschedule t). set (s1 := put_task p t1 s).
    assert (jmid (with_held ps.*2) s1) as Hm1.
    { apply (jcore_settle env True p _ s1 t1); [|apply lookup_insert_eq|].
      - apply (jcore_put _ _ p _ s t); try done; [by apply jmid_core|]. destruct Hb. by split.
      - split; [|exact Hs]. unfold jwork. simpl. rewrite Hst. destruct (has_work t); [done|congruence]. }
    assert (calm p s s1) as Hcalm by by apply (j_calm_put p t).
    assert (settling ps s0 (c :: l) s1) as Hse1 by (apply (settling_unmark ps s0 _ p t1 s); [done|by apply kept_drop; [apply Hse| |]|done|done|apply lookup_insert_eq|done]).
    split; [|exists t1; apply lookup_insert_eq]. apply (settling_done ps s0 c); [done|]. intros t' Ht' _. left.
    change (current (j_cpus s1 c)) with p in Ht'. assert (t' = t1) as ->; [|done]. simpl in Ht'. rewrite lookup_insert_eq in Ht'. congruence.
  - apply has_level_true in Hmust. eapply (jwp_Unschedule env Henv True p t); [by apply jmid_core|done|exact Ht|done|by intros E|].
    intros s1 [Hc1 Hp1 Hcalm Ha Ecp Er Ey].
    assert (jmid (with_held ps.*2) s1) as Hm1.
    { apply (jcore_settle env True p _ s1 (paused t)); [done|done|]. split; [|apply (jsynced_orchs s); [apply Ha|exact Hs]].
      unfold jwork. simpl. by destruct (has_work t). }
    split; [|by exists (paused t)]. apply (settling_done ps s0 c).
    + apply (settling_unmark ps s0 _ p (paused t) s); try done.
      rewrite Ecpu in Ecp. by apply (kept_off _ p t c s0 s); [apply Hse|..].
    + intros t' _ Hne. exfalso. apply Hne. rewrite Ecp. simpl. rewrite Ecpu. by rewrite fn_lookup_insert.
  - apply has_level_false in Hmust, Heqb. split; [|by exists t]. apply (settling_done ps s0 c); [done|].
    intros t' Ht' _. left. fold p in Ht'. assert (t' = t) as -> by congruence. by destruct (unschedule_level t).
Qed.

(** After the loop only tasks with a successor are marked, and none with the
    lower level. *)
Lemma jwp_settle_loop ps s (Q : unit → Shin → Prop) :
  jpassing ps [] s → could_idle s →
  (∀ s', jpassing ps [] s' → no_could s' → marked_next s' → (∀ c, next (j_cpus s' c) = next (j_cpus s c)) → kept [] s s' → Q tt s') →
  jwp env (forM (elems (j_enclave env)) (settle_one env)) s Q.
Proof using Henv.
  intros Hpa Hci HQ. eapply wpf_mono; [apply (wpf_forM _ _ _ (λ l s', settling ps s l s' ∧ ∀ c, c ∈ l → j_enclave_cpu c))|].
  - split; [|done]. split; try done.
    + intros q t Hq Hl. destruct (marked_runs _ s q t (jp_mid _ _ _ Hpa) ltac:(done) Hq) as (_ & Hc & Hcur & _); [by rewrite Hl|].
      split_and!; [done|by apply (Hci q t)|by right].
    + intros q t Hq Hl. left. by apply (marked_runs _ s q t (jp_mid _ _ _ Hpa)).
  - intros c l s1 [Hse Hl]. eapply wpf_mono; [apply jwp_settle_one; [exact Hse|apply Hl; by left]|]. intros [] s2 Hse2. split; [done|].
    intros c' Hc'. apply Hl. by right.
  - intros [] s1 [[Hk1 Hpa1 Hci1 Hn1 Hmk1] _].
    assert (marked_next s1) as Hmn by (intros q t Hq Hl; destruct (Hmk1 q t Hq Hl) as [[]%elem_of_nil|H]; done).
    apply HQ; try done. intros q t Hq Hl. apply (Hmn q t); [done|by rewrite Hl|]. by apply (Hci1 q t).
Qed.

Lemma jwp_open_loop ps us u s (Q : CpuList → Shin → Prop) :
  jpassing ps [] s → (∀ c, c ∈ us → j_enclave_cpu c ∧ next (j_cpus s c) ≠ 0) → j_updated_ok u →
  (∀ u' s', jpassing ps [] s' → j_allocator s' = j_allocator s → j_cpus s' = j_cpus s → j_updated_ok u' →
     (∀ c, c ∈ elems u' ↔ c ∈ elems u ∨ c ∈ us) → Q u' s') →
  jwp env (open_loop us u) s Q.
Proof using Henv.
  revert u s. induction us as [|c us IH]; intros u s Hpa Hus Hu HQ; simpl.
  { apply wpf_ret, HQ; try done. intros c. rewrite elem_of_nil. naive_solver. }
  destruct (Hus c) as [Hc Hn]; [by left|]. fstep. unfold open_one. fstep. apply (jwp_cpu env Henv); [done|]. fstep.
  apply jwp_check; intros _. assert ((c, next (j_cpus s c)) ∈ ps) as Hin by by apply (jp_next _ _ _ Hpa).
  destruct (jpassing_held ps [] s (next (j_cpus s c)) Hpa) as (t & Ht & Hst & _).
  { simpl. apply list_elem_of_fmap. by exists (c, next (j_cpus s c)). }
  fstep.
  - exfalso. apply Z.eqb_eq in Heqb. destruct (jpassing_current ps [] s c Hpa) as (t' & Ht' & Hst' & _); [congruence|]. congruence.
  - fstep. eapply jwp_task; [exact Ht|]. fstep. fstep. destruct (j_updated_set c u Hu Hc) as (u' & E & Hu' & Hel).
    apply jwp_lift; [intros u1 Eu|congruence]. assert (u1 = u') as -> by congruence.
    apply IH; [by apply jpassing_event|intros c' Hc'; apply Hus; by right|done|].
    intros u2 s2 Hpa2 Ea Ec Hu2 Hel2. apply HQ; try done. intros c'. rewrite Hel2, Hel, !elem_of_cons. naive_solver.
Qed.

Lemma j_enclave_iterate : iterate (j_enclave env) = Ok (elems (j_enclave env)).
Proof using Henv. apply iterate_spec, Henv. Qed.

Lemma j_elems_nodup l : NoDup (elems l).
Proof. apply sorted_lt_nodup, elems_from_sorted. Qed.

Lemma j_empty_list : ∃ u, EmptyCpuList (num_cpus_ (j_topo env)) = Ok u ∧ j_updated_ok u ∧ elems u = [].
Proof using Henv.
  unfold EmptyCpuList. pose proof (wf_cpus _ (je_wf _ Henv)) as Hcpus. rewrite (je_num _ Henv) in Hcpus.
  destruct (CpuMap_new_spec (num_cpus_ (j_topo env))) as (u & E & Hw & Hn & Hb); [lia|]. exists u. split; [done|].
  assert (elems u = []) as Hel.
  { destruct (elems u) as [|c l] eqn:El; [done|]. assert (c ∈ elems u) as Hc by (rewrite El; by left).
    apply elem_of_elems in Hc as [_ Hc]; [|done]. by rewrite Hb in Hc. }
  split; [|done]. split_and!; [done|done|rewrite Hel; by intros c ?%elem_of_nil].
Qed.

(** One iteration.  Only in the first may a task be marked that could be
    unscheduled, and it has no next task then. *)
Lemma jwp_iteration now i u ps s (Q : CpuList → Shin → Prop) :
  jpassing ps [] s → could_idle s → (∀ c, next (j_cpus s c) ≠ 0 ↔ c ∈ elems u) → j_updated_ok u →
  (i = 0 ∧ ∀ c, next (j_cpus s c) = 0) ∨ (i = 1 ∧ no_could s) →
  (∀ u' ps' s', jpassing ps' [] s' → no_could s' → marked_next s' → (∀ c, next (j_cpus s' c) ≠ 0 ↔ c ∈ elems u') → j_updated_ok u' →
     kept [] s s' → Q u' s') →
  jwp env (iteration env now i u) s Q.
Proof using Henv.
  intros Hpa Hci Hco Hu Hit HQ. destruct j_empty_list as (u0 & E0 & Hu0 & Hel0). unfold iteration.
  fstep. apply jwp_lift; [intros u1 Eu|congruence]. assert (u1 = u0) as -> by congruence. clear Eu.
  fstep. apply jwp_lift; [intros cs Ecs|by rewrite j_enclave_iterate]. rewrite j_enclave_iterate in Ecs. injection Ecs as <-.
  fstep. apply (jwp_find_loop (λ c, c ∈ elems u) now i _ u0 ps); [done|done| |done|apply j_elems_nodup|done| |].
  { intros c. rewrite Hel0, Hco, elem_of_nil. naive_solver. }
  { destruct Hit as [[-> H]|H]; [left|by right]. by split. }
  intros u1 ps1 s1 Hpa1 Hci1 Hco1 Hu1 Hm1 Ecur1. fstep. apply (jwp_settle_loop ps1); [done|done|]. intros s2 Hpa2 Hnc2 Hmn2 Hn2 Hk2.
  fstep. apply jwp_lift; [intros us Eus|by rewrite iterate_spec by apply Hu1]. rewrite iterate_spec in Eus by apply Hu1. injection Eus as <-.
  apply (jwp_open_loop ps1); [done| |done|].
  { intros c Hc. split; [by apply Hu1|]. rewrite Hn2. apply Hco1. by right. }
  intros u2 s3 Hpa3 Ea Ec Hu2 Hel2. apply (HQ u2 ps1); [done| | | |done|].
  - intros q t. rewrite Ea. apply Hnc2.
  - intros q t. rewrite Ea, Ec. apply Hmn2.
  - intros c. rewrite Ec, Hn2, Hel2. apply Hco1.
  - intros q t Hq Hl. rewrite Ea, Ec. apply (Hk2 q t); [|done]. by apply (marks_could s s1).
Qed.

(** ** After the commit *)

(** The CPUs [l] are still to be looked at. *)
Record finishing (l : list Z) (ps : list (Z * Z)) (s : Shin) : Prop := {
  fi_pass : jpassing ps [] s;
  fi_could : no_could s;
  fi_next : ∀ c, next (j_cpus s c) ≠ 0 ↔ c ∈ l;
  fi_marked : ∀ q t, heap (j_allocator s) !! q = Some t → unschedule_level t ≠ kNoUnschedule → cpu t ∈ l
}.

(** The slot of [c] taken away but for the pointer. *)
Definition at_cpu (hs : list Z) (c : Z) : ghost := mkGhost hs 0 (Some c).

Lemma vacate_queues hs c s k :
  j_queues (with_held hs) s k = if decide (k = JCur c) then slot_list (current (j_cpus s c)) else j_queues (at_cpu hs c) s k.
Proof.
  case_decide as E; [by subst|]. destruct k as [| |c']; [done|done|]. simpl. by rewrite decide_False by congruence.
Qed.

Lemma vacate_cur hs c s : j_queues (at_cpu hs c) s (JCur c) = [].
Proof. simpl. by rewrite decide_True. Qed.

(** The task that ran on [c] is back in the run queue, or paused. *)
Lemma jwp_requeue_prev c ps p s (Q : unit → Shin → Prop) :
  jpassing ps [p] s → j_enclave_cpu c →
  (∀ s' prev, prev = current (j_cpus s c) → jmid (at_cpu (p :: ps.*2) c) s' → calm prev s s' → aside s s' → j_cpus s' = j_cpus s →
     (∀ t, prev ≠ 0 → heap (j_allocator s') !! prev = Some t → unschedule_level t = kNoUnschedule) → Q tt s') →
  jwp env (whenM (negb (current (j_cpus s c) =? 0))
      (let prev := current (j_cpus s c) in
       task_at prev ≫= λ tp,
       check (has_state kOnCpu tp) ≫= λ _,
       upd_task prev (set_level kNoUnschedule) ≫= λ _,
       J_UpdateRuntime env prev ≫= λ _,
       J_Enqueue prev true)) s Q.
Proof.
  intros Hpa Hc HQ. pose proof (jp_mid _ _ _ Hpa) as Hm. simpl in Hm. apply wpf_when; intros Hcur.
  - apply negb_true_iff, Z.eqb_neq in Hcur. destruct (jpassing_current ps [p] s c Hpa Hcur) as (tp & Htp & Hst & Ecpu & Hnull). cbv zeta.
    set (prev := current (j_cpus s c)) in *. fstep. eapply jwp_task; [exact Htp|]. fstep. apply jwp_check; intros _. fstep.
    eapply jwp_upd; [exact Htp|]. set (t1 := set_level kNoUnschedule tp). set (s1 := put_task prev t1 s). fstep.
    eapply jwp_UpdateRuntime; [apply lookup_insert_eq|]. intros r e. set (t2 := set_runtimes r e t1). set (s2 := put_task prev t2 (tick s1)).
    pose proof (jmid_core env True prev _ s Hm) as Hc0.
    assert (lifted prev tp (at_cpu (p :: ps.*2) c) s) as Hl.
    { eapply (j_leave_lifted env True prev tp (with_held (p :: ps.*2)) s _ s (JCur c)); [done|done|unfold j_place; by rewrite Hst, Ecpu|done| |apply Hm|done].
      intros k. rewrite (vacate_queues _ c). case_decide as E; [|done]. rewrite E, vacate_cur. fold prev. unfold slot_list. by rewrite (proj2 (Z.eqb_neq _ _) Hcur). }
    assert (lifted prev t2 (at_cpu (p :: ps.*2) c) s2) as Hl2.
    { assert (put_task prev t2 (tick s) = s2) as <-.
      { unfold s2, s1, put_task, put_obj, set_j_allocator. simpl. by rewrite insert_insert_eq. }
      apply (j_lifted_put env True prev tp); [by apply j_lifted_tick|done|].
      pose proof (lifted_idle _ _ _ _ _ _ Hl) as []. by split. }
    assert (calm prev s s2) as Hcalm2.
    { etrans; [by apply (j_calm_put prev tp t1)|]. etrans; [by apply (j_calm_same prev s1 (tick s1))|].
      apply (j_calm_put prev t1 t2); [apply lookup_insert_eq|done]. }
    eapply jwp_Enqueue; [exact Hl2|]. intros s3 He. destruct (jmid_settled _ _ _ _ _ _ Hm Htp) as [_ Hs].
    apply (HQ s3 prev); [done|by eapply enqueued_mid|etrans; [exact Hcalm2|apply He]| | |].
    + destruct (eq_aside _ _ _ _ _ _ _ He). by split.
    + by rewrite (eq_cpus _ _ _ _ _ _ _ He).
    + intros t _ Ht. rewrite (eq_at _ _ _ _ _ _ _ He) in Ht. by injection Ht as <-.
  - apply negb_false_iff, Z.eqb_eq in Hcur. apply (HQ s 0); [done| |done|done|done|done].
    apply (jcore_same _ _ 0 (with_held (p :: ps.*2)) s); [done|done| |apply Hm|done].
    intros k. rewrite (vacate_queues _ c). case_decide as E; [|done]. by rewrite E, vacate_cur, Hcur.
Qed.

(** The held task now runs on [c]. *)
Lemma j_occupy c now p t (ps : list (Z * Z)) s :
  jmid (at_cpu (p :: ps.*2) c) s → j_enclave_cpu c → heap (j_allocator s) !! p = Some t → run_state t = kQueued →
  jmid (with_held ps.*2) (put_task p (set_latched c now t) (tick (set_j_cpus (<[c := set_current p (j_cpus s c)]> (j_cpus s)) s))).
Proof.
  intros Hm Hc Hp Hst. destruct (jmid_settled _ _ _ _ _ _ Hm Hp) as [Hw Hs]. unfold jwork in Hw. rewrite Hst in Hw.
  pose proof (jc_basic _ _ _ _ _ Hm p t Hp) as Hb. pose proof (j_nonzero _ _ _ _ _ _ _ Hm Hp) as Hp0.
  assert (unschedule_level t = kNoUnschedule) as Hlev by (apply (jb_level _ _ _ Hb); by rewrite Hst).
  assert (lifted p t (at_cpu ps.*2 c) s) as Hl by (apply unhold_lifted; [by apply jmid_core|done|done]).
  set (t1 := set_latched c now t). set (s' := put_task p t1 _).
  apply (jcore_settle env True p _ s' t1); [|apply lookup_insert_eq|].
  - eapply (j_lifted_enter env True p t t1 _ s _ _ (JCur c)); [exact Hl|done|done| |done| |apply Hm|].
    + destruct Hb as [H1 H2 H3 H4 H5 H6]. split; try done. simpl. intros E. destruct (H5 E). congruence.
    + intros k. rewrite (vacate_queues _ c). destruct (decide (k = JCur c)) as [->|Hk].
      * rewrite vacate_cur. simpl. rewrite fn_lookup_insert. unfold slot_list. simpl. by rewrite (proj2 (Z.eqb_neq p 0)).
      * destruct k as [| |c']; [done|done|]. simpl. rewrite fn_lookup_insert_ne by congruence. done.
    + split; try done. intros c'. simpl. destruct (decide (c = c')) as [<-|?]; by rewrite ?fn_lookup_insert, ?fn_lookup_insert_ne.
  - split; [|exact Hs]. unfold jwork. simpl. rewrite Hw, Hlev. done.
Qed.

Lemma jwp_finish_one c l ps s :
  finishing (c :: l) ps s → j_enclave_cpu c → c ∉ l → jwp env (finish_one env c) s (λ _ s', ∃ ps', finishing l ps' s').
Proof using Henv.
  intros [Hpa Hnc Hnx Hmk] Hc Hnin. set (p := next (j_cpus s c)).
  assert ((c, p) ∈ ps) as Hin. { apply (jp_next _ _ _ Hpa). split; [done|]. apply Hnx. by left. }
  destruct (elem_of_Permutation ps (c, p)) as [H _]. destruct (H Hin) as [ps1 Eps]. clear H.
  destruct (jpassing_clear_next ps1 c p s) as [Hpa1 _]; [by apply (jpassing_perm ps); [|symmetry]|].
  set (s1 := with_next c 0 s) in *. destruct (jpassing_held ps1 [p] s1 p Hpa1) as (t & Ht & Hst & Hp0 & Hlev); [by left|].
  assert (∀ c', next (j_cpus s1 c') ≠ 0 ↔ c' ∈ l) as Hnx1.
  { intros c'. unfold s1. rewrite next_with_next. case_decide as E; [subst; naive_solver|]. rewrite Hnx, elem_of_cons. naive_solver. }
  (* what is left to show once the held task is placed *)
  assert (∀ s', (∀ q u, heap (j_allocator s') !! q = Some u → unschedule_level u ≠ kNoUnschedule → heap (j_allocator s) !! q = Some u ∧ cpu u ≠ c) →
    jpassing ps1 [] s' → (∀ c', next (j_cpus s' c') = next (j_cpus s1 c')) → ∃ ps', finishing l ps' s') as Hend.
  { intros s' Hold Hpa' Hn'. exists ps1. split; [done| |intros c'; by rewrite Hn'|].
    - intros q u Hq Hl. destruct (Hold q u Hq) as [Hq' _]; [by rewrite Hl|]. by apply (Hnc q u).
    - intros q u Hq Hl. destruct (Hold q u Hq Hl) as [Hq' Hne]. by destruct (proj1 (elem_of_cons _ _ _) (Hmk q u Hq' Hl)). }
  unfold finish_one. fstep. apply (jwp_cpu env Henv); [done|]. fstep. apply (jwp_upd_cpu env Henv); [done|]. fold p. fold (with_next c 0 s). fold s1.
  fstep. apply jwp_ask. fstep. apply jwp_check; intros _. apply jpassing_tick in Hpa1 as Hpa2.
  assert (current (j_cpus s c) = current (j_cpus (tick s1) c)) as Ecur by (symmetry; apply current_with_next).
  fstep.
  - fstep. rewrite Ecur. apply (jwp_requeue_prev c ps1 p); [done|done|]. intros s3 prev Eprev Hm3 Hcalm3 Ha3 Ec3 Hlev3.
    assert (p ≠ prev) as Hne.
    { intros Epp. destruct (decide (current (j_cpus (tick s1) c) = 0)) as [E|E]; [congruence|].
      destruct (jpassing_current ps1 [p] (tick s1) c Hpa2 E) as (u & Hu & Hsu & _). rewrite <- Eprev, <- Epp in Hu.
      pose proof (eq_trans (eq_sym Ht) Hu) as E2. injection E2 as <-. congruence. }
    assert (heap (j_allocator s3) !! p = Some t) as Ht3 by by rewrite (cm_others _ _ _ Hcalm3).
    fstep. apply (jwp_upd_cpu env Henv); [done|]. fstep. apply jwp_ask. set (now := j_now env _).
    eapply jwp_upd; [exact Ht3|]. pose proof (j_occupy c now p t ps1 s3 Hm3 Hc Ht3 Hst) as Hm4. set (s4 := put_task p _ _) in *.
    assert (∀ c', next (j_cpus s4 c') = next (j_cpus s1 c')) as Hn4.
    { intros c'. simpl. rewrite next_current. apply (st_next _ _ (cm_still _ _ _ Hcalm3)). }
    apply Hend; [|split; [exact Hm4| |apply Hpa2|]|exact Hn4].
    + intros q u Hq Hl. simpl in Hq. apply lookup_insert_Some in Hq as [[<- <-]|[Hqp Hq]]; [by destruct Hl|].
      assert (q ≠ prev) as Hqv. { intros ->. apply Hl. apply Hlev3; [|exact Hq]. exact (j_nonzero _ _ _ _ _ _ _ Hm3 Hq). }
      rewrite (cm_others _ _ _ Hcalm3) in Hq by done. split; [exact Hq|]. intros Ecpu.
      destruct (marked_runs _ s q u (jp_mid _ _ _ Hpa) ltac:(done) Hq Hl) as (_ & _ & Hcq & _). rewrite Ecpu, Ecur in Hcq. congruence.
    + intros c' q. rewrite Hn4. apply (jp_next _ _ _ Hpa1).
    + simpl. rewrite map_size_insert_Some by done. rewrite (st_num _ _ (cm_still _ _ _ Hcalm3)).
      rewrite (j_dom_size (tick s1) s3) by apply Hcalm3. apply (jp_num _ _ _ Hpa2).
  - fstep. eapply jwp_Enqueue.
    { apply (unhold_lifted env True p t (with_held ps1.*2)); [apply jmid_core; exact (jp_mid _ _ _ Hpa2)|exact Ht|done]. }
    intros s3 He. pose proof (enqueued_mid _ _ _ _ _ _ _ He (proj2 (jmid_settled _ _ _ _ _ _ (jp_mid _ _ _ Hpa2) Ht))) as Hm3.
    pose proof (eq_calm _ _ _ _ _ _ _ He) as Hcalm3.
    assert (jpassing ps1 [] s3) as Hpa3 by by apply (jpassing_calm ps1 [p] [] p (tick s1)).
    assert (∀ q u, heap (j_allocator s3) !! q = Some u → unschedule_level u ≠ kNoUnschedule → heap (j_allocator s) !! q = Some u) as Hold3.
    { intros q u Hq Hl. destruct (decide (q = p)) as [->|Hqp]; [|by rewrite (cm_others _ _ _ Hcalm3) in Hq].
      rewrite (eq_at _ _ _ _ _ _ _ He) in Hq. injection Hq as <-. done. }
    assert (∀ c', next (j_cpus s3 c') = next (j_cpus s1 c')) as Hn3 by (intros c'; by rewrite (st_next _ _ (cm_still _ _ _ Hcalm3))).
    assert (current (j_cpus s3 c) = current (j_cpus s c)) as Ecur3 by by rewrite (eq_cpus _ _ _ _ _ _ _ He).
    assert (∀ q u, heap (j_allocator s3) !! q = Some u → unschedule_level u ≠ kNoUnschedule → cpu u = c → q = current (j_cpus s c) ∧ q ≠ 0) as Hat.
    { intros q u Hq Hl Ecpu. destruct (marked_runs _ s3 q u Hm3 ltac:(done) Hq Hl) as (_ & _ & Hcq & Hq0). rewrite Ecpu in Hcq. split; [congruence|done]. }
    apply wpf_when; intros Hcur.
    + apply negb_true_iff, Z.eqb_neq in Hcur. rewrite <- Ecur3 in *. destruct (jpassing_current ps1 [] s3 c Hpa3 Hcur) as (tc & Htc & Hstc & Ecpu & Hnull).
      fstep. eapply jwp_task; [exact Htc|]. apply wpf_when; intros Hlv.
      * destruct (jmid_settled _ _ _ _ _ _ Hm3 Htc) as [Hw Hs]. unfold jwork in Hw. rewrite Hstc in Hw.
        assert (unschedule_level tc ≠ kNoUnschedule) as Hmkc by (intros E; rewrite E in Hlv; done).
        pose proof (Hnc _ tc (Hold3 _ _ Htc Hmkc)) as Hncc.
        eapply (jwp_Unschedule env Henv True _ tc); [by apply jmid_core|done|exact Htc|done|done|].
        intros s4 [Hc4 Hp4 Hcalm4 Ha4 _ _ _].
        assert (jmid (with_held ps1.*2) s4) as Hm4.
        { apply (jcore_settle env True _ _ s4 (paused tc) Hc4 Hp4). split; [|apply (jsynced_orchs s3); [apply Ha4|exact Hs]].
          unfold jwork. simpl. destruct (has_work tc); [|done]. by destruct (unschedule_level tc). }
        apply Hend; [|by apply (jpassing_calm ps1 [] [] _ s3 s4 Hpa3 Hcalm4)|intros c'; by rewrite (st_next _ _ (cm_still _ _ _ Hcalm4))].
        intros q u Hq Hl. destruct (decide (q = current (j_cpus s3 c))) as [->|Hqc]; [rewrite Hp4 in Hq; injection Hq as <-; done|].
        rewrite (cm_others _ _ _ Hcalm4) in Hq by done. split; [by apply Hold3|]. intros E. apply Hqc. by destruct (Hat q u Hq Hl E).
      * apply Hend; [|done|done]. intros q u Hq Hl. split; [by apply Hold3|]. intros E. destruct (Hat q u Hq Hl E) as [-> _].
        assert (u = tc) as -> by congruence. apply Hl. by destruct (unschedule_level tc).
    + apply negb_false_iff, Z.eqb_eq in Hcur. apply Hend; [|done|done]. intros q u Hq Hl. split; [by apply Hold3|].
      intros E. destruct (Hat q u Hq Hl E). congruence.
Qed.

(** When the loop is done the pass holds nothing. *)
Lemma jwp_finish_prefix l l' ps s :
  finishing (l ++ l') ps s → NoDup (l ++ l') → (∀ c, c ∈ l → j_enclave_cpu c) →
  jwp env (forM l (finish_one env)) s (λ _ s', ∃ ps', finishing l' ps' s').
Proof using Henv.
  intros Hf Hnd Hl.
  eapply wpf_mono; [apply (wpf_forM _ _ _ (λ l s', NoDup (l ++ l') ∧ (∀ c, c ∈ l → j_enclave_cpu c) ∧ ∃ ps', finishing (l ++ l') ps' s'))|].
  - split_and!; [done|done|by exists ps].
  - intros c l1 s1 (Hnd1 & Hl1 & ps1 & Hf1). apply NoDup_cons in Hnd1 as [Hnin Hnd1].
    eapply wpf_mono; [apply (jwp_finish_one c (l1 ++ l') ps1); [done|apply Hl1; by left|done]|]. intros [] s2 Hf2. split_and!; [done| |done].
    intros c' Hc'. apply Hl1. by right.
  - by intros [] s1 (_ & _ & H).
Qed.

Lemma jwp_finish_loop l ps s (Q : unit → Shin → Prop) :
  finishing l ps s → NoDup l → (∀ c, c ∈ l → j_enclave_cpu c) → (∀ s', j_inv s' → Q tt s') → jwp env (forM l (finish_one env)) s Q.
Proof using Henv.
  intros Hf Hnd Hl HQ. eapply wpf_mono; [apply (jwp_finish_prefix l [] ps); by rewrite ?app_nil_r|].
  intros [] s1 (ps1 & [Hpa Hnc Hnx Hmk]). apply HQ.
  assert (ps1 = []) as ->.
  { destruct ps1 as [|[c q] ps1]; [done|]. destruct (proj1 (jp_next _ _ _ Hpa c q)) as [E Hq]; [by left|]. exfalso.
    apply (not_elem_of_nil c), Hnx. by rewrite E. }
  split; [by apply jpassing_inv|]. intros q t Hq. destruct (unschedule_level t) eqn:E; [done|..]; exfalso;
      apply (not_elem_of_nil (cpu t)), (Hmk q t Hq); congruence.
Qed.

(** ** Yielding and waiting tasks *)

Record unyielding (l : list Z) (s : Shin) : Prop := {
  un_mid : ∃ n, drop n (yielding_tasks_ s) = l ∧ jmid (mkGhost [] n None) s;
  un_next : ∀ c, next (j_cpus s c) = 0;
  un_num : num_tasks_ s = s32 (Z.of_nat (size (heap (j_allocator s))));
  un_quiet : quiet s
}.

Lemma jwp_unyield_one p l s : unyielding (p :: l) s → jwp env (j_unyield_one p) s (λ _, unyielding l).
Proof.
  intros [(n & Ed & Hm) Hn Hk Hq].
  assert (p ∈ j_queues (mkGhost [] n None) s JYield) as Hin by (simpl; rewrite Ed; by left).
  apply (j_in_yield _ _ _ _ _ _ Hm) in Hin as (t & Ht & Hst). unfold j_unyield_one. fstep. eapply jwp_task; [exact Ht|]. fstep.
  apply jwp_check; intros _. assert (drop (S n) (yielding_tasks_ s) = l) as Ed'.
  { replace (S n) with (n + 1)%nat by lia. rewrite <- drop_drop, Ed. done. }
  assert (lifted p t (mkGhost [] (S n) None) s) as Hl.
  { eapply (j_leave_lifted env True p t (mkGhost [] n None) s _ s JYield); [by apply jmid_core|done|unfold j_place; by rewrite Hst|done| |apply Hm|done].
    intros [| |c]; [done| |done]. rewrite decide_True by done. cbn [j_queues g_back]. by rewrite Ed, Ed'. }
  eapply jwp_Enqueue; [exact Hl|]. intros s' He. pose proof (eq_calm _ _ _ _ _ _ _ He) as Hc. split.
  - exists (S n). rewrite (eq_yielding _ _ _ _ _ _ _ He). split; [done|]. eapply enqueued_mid; [exact He|].
    apply (jmid_settled _ _ _ _ _ _ Hm Ht).
  - intros c. by rewrite (st_next _ _ (cm_still _ _ _ Hc)).
  - by rewrite (st_num _ _ (cm_still _ _ _ Hc)), (j_dom_size s s') by apply Hc.
  - intros q u Hu. destruct (decide (q = p)) as [->|Hne].
    + rewrite (eq_at _ _ _ _ _ _ _ He) in Hu. injection Hu as <-. by apply (Hq p t).
    + rewrite (cm_others _ _ _ Hc) in Hu by done. by apply (Hq q).
Qed.

Lemma jwp_unyield s (Q : unit → Shin → Prop) :
  j_inv s → (∀ s', j_inv s' → Q tt s') →
  jwp env (match yielding_tasks_ s with
           | [] => mret tt
           | _ => forM (yielding_tasks_ s) j_unyield_one ≫= λ _, modify (set_yielding [])
           end) s Q.
Proof.
  intros [Hi Hq] HQ. destruct (yielding_tasks_ s) as [|p ys] eqn:Ey; [by apply wpf_ret, HQ|]. rewrite <- Ey. clear p ys Ey. fstep.
  eapply wpf_mono; [apply (wpf_forM _ _ _ unyielding)|].
  - split; [exists 0%nat; split; [done|apply Hi]|apply Hi| |done]. rewrite (ji_num _ _ _ _ Hi). by rewrite Z.sub_0_r.
  - intros p l s1. apply jwp_unyield_one.
  - intros [] s1 [(n & Ed & Hm) Hn1 Hk1 Hq1]. apply wpf_modify. apply HQ. split; [|exact Hq1]. split; [|done|by rewrite Z.sub_0_r].
    apply (jcore_same _ _ 0 (mkGhost [] n None) s1); [done|done| |apply Hm|done].
    intros [| |c]; [done| |done]. cbn [j_queues g_back]. by rewrite Ed.
Qed.

Lemma SetRunnable_work x : HasWork (SetRunnable x) = true.
Proof.
  unfold HasWork, SetRunnable, truthy. simpl. apply negb_true_iff, Z.eqb_neq. intros E.
  apply (f_equal (λ z, Z.testbit z 0)) in E. rewrite Z.land_spec, Z.lor_spec in E. simpl in E. by rewrite orb_true_r in E.
Qed.

(** A task that waits is put back if its period has passed: it is blocked or
    paused, for the item has no work. *)
Lemma jwp_repeatables l s (Q : list Z → Shin → Prop) :
  j_inv s → (oneshot env → l = []) → (∀ r s', j_inv s' → (oneshot env → r = []) → Q r s') → jwp env (repeatables_loop env l) s Q.
Proof using Henv.
  revert s Q. induction l as [|p l IH]; intros s Q Hi Hone HQ; simpl; [by apply wpf_ret, HQ|].
  assert (¬ oneshot env) as Hn by (by intros H%Hone). assert (∀ f, f ≠ OutOfFuel → shin_stop env f) as Hstop by (intros f Hf; split; [done|]; by intros _ [_ H]).
  fstep. destruct (heap (j_allocator s) !! p) as [t|] eqn:Hp.
  2:{ unfold wpf, task_at, lift, deref. change (heap (allocator s)) with (heap (j_allocator s)). rewrite Hp. by apply Hstop. }
  eapply jwp_task; [exact Hp|]. destruct (orch t) as [tg|] eqn:Eo; [|done]. fstep. apply jwp_ask. fstep.
  assert (j_inv (tick s)) as Hi1 by (destruct Hi as [Hi Hq]; split; [by apply j_inv_tick|exact Hq]).
  pose proof (jc_basic _ _ _ _ _ (inv_core env True p s Hi) p t Hp) as Hb. destruct (inv_settled env True p t s Hi Hp) as [Hw Hs].
  destruct (jb_orch _ _ _ Hb tg Eo) as [o Ho]. eapply jwp_orch; [exact Ho|]. fstep.
  destruct (decide (sp t = SpNull)) as [Enull|Enull]; [rewrite Enull; by apply wpf_abort, Hstop|].
  destruct (j_has_params _ _ _ Hb Enull) as [x Hx]. apply wpf_wp. eapply j_wp_sp; [exact Hx|]. fstep.
  apply jwp_lift; [intros period _|]. 2:{ unfold J_GetWorkClassPeriod. intros f Ef. destruct (j_class_at o (wcid_ x)) eqn:E; [done|]. injection Ef as <-. by eapply j_class_at_stop. }
  fstep.
  - fstep. eapply (jwp_MakeEngineRunnable env True p real tg (sp t) x); [by apply inv_core|exact Hx| |].
    { destruct (sp t) as [| |tg' sid] eqn:Esp; [done|left; by injection Hx as <-|right].
      destruct (jb_params _ _ _ Hb tg' sid Esp) as (y & Hy & Eg). apply (j_owner_is env True p real (tick s) x p t); [by apply inv_core|done|].
      rewrite Esp in Hy. assert (y = x) as -> by congruence. done. }
    intros o' sid s2 Esp Hwx Hc2 Hx2 Hcalm2 _. assert (has_work t = false) as Hwt by (rewrite <- (Hs tg sid x Esp Hx); exact Hwx).
    assert (j_place t = None) as Hpl.
    { unfold jwork in Hw. rewrite Hwt, (proj2 Hi p t Hp) in Hw. unfold j_place. by destruct (run_state t). }
    assert (heap (j_allocator s2) !! p = Some t) as Hp2 by exact Hp.
    fstep. eapply jwp_upd; [exact Hp2|]. set (t1 := set_work (sp t) true (wcid t) t). fstep.
    assert (lifted p t1 real (put_task p t1 s2)) as Hl.
    { apply (j_lifted_put env True p t); [by apply j_core_lifted|done|].
      pose proof (jbasic_idle _ _ _ (jc_basic _ _ _ _ _ Hc2 p t Hp2)) as []. split; done. }
    eapply (jwp_Enqueue_inv env True p t1 true s); [exact Hi| |exact Hl| |].
    + etrans; [by apply (j_calm_same p s (tick s))|]. etrans; [apply Hcalm2|]. by apply (j_calm_put p t).
    + intros tg' sid' y E Hy. simpl in E. rewrite Esp in E. injection E as <- <-. simpl in Hy. rewrite Esp in Hy.
      rewrite (j_params_orchs s2) in Hy by done. rewrite (copy_of_params tg sid _ s2 Hx2) in Hy. injection Hy as <-. apply SetRunnable_work.
    + intros s3 Hi3 _. apply IH; [done|by intros|done].
  - fstep. apply IH; [done|by intros|]. intros r s' Hi' _. apply wpf_ret. apply HQ; [done|by intros].
Qed.

(** ** The pass and the turn *)

(** The second iteration and the commit. *)
Lemma jwp_commit now u ps s (k : list Z → M Shin unit) (Q : unit → Shin → Prop) :
  jpassing ps [] s → no_could s → (∀ c, next (j_cpus s c) ≠ 0 ↔ c ∈ elems u) → j_updated_ok u →
  (∀ u' ps' s', finishing (elems u') ps' s' → (∀ c, c ∈ elems u' → j_enclave_cpu c) → jwp env (k (elems u')) s' Q) →
  jwp env (iteration env now 1 u ≫= λ open_cpus, lift (CpuMap_Empty open_cpus) ≫= λ empty : bool,
    whenM (negb empty) (modify (add_event (JEvCommit open_cpus))) ≫= λ _, lift (iterate open_cpus) ≫= k) s Q.
Proof using Henv.
  intros Hpa Hnc Hco Hu HQ. fstep. apply (jwp_iteration _ 1 u ps); [done| |done|done|by right|].
  { intros q t Hq Hl. by destruct (Hnc q t Hq Hl). }
  intros u2 ps2 s2 Hpa2 Hnc2 Hmn2 Hco2 Hu2 _. fstep. apply jwp_lift; [intros empty _|].
  2:{ intros f Ef. pose proof (CpuMap_Empty_spec u2 (proj1 Hu2)) as Es. congruence. }
  fstep. eapply (wpf_mono _ _ _ (λ _ s3, finishing (elems u2) ps2 s3)).
  { apply wpf_when; intros _; [apply wpf_modify|].
    - split; [by apply jpassing_event|done|done|]. intros q t Hq Hl. apply Hco2. by apply (Hmn2 q t).
    - split; [done|done|done|]. intros q t Hq Hl. apply Hco2. by apply (Hmn2 q t). }
  intros [] s3 Hf. fstep. apply jwp_lift; [intros os Eos|by rewrite iterate_spec by apply Hu2]. rewrite iterate_spec in Eos by apply Hu2. injection Eos as <-.
  apply (HQ u2 ps2); [done|apply Hu2].
Qed.

Lemma jwp_GlobalSchedule s (Q : unit → Shin → Prop) :
  j_inv_but 0 s → (∀ s', j_inv s' → Q tt s') → jwp env (J_GlobalSchedule env) s Q.
Proof using Henv.
  intros Hi HQ. unfold J_GlobalSchedule. destruct j_empty_list as (u0 & E0 & Hu0 & Hel0).
  fstep. apply jwp_lift; [intros u Eu|congruence]. assert (u = u0) as -> by congruence. clear Eu. fstep. apply jwp_ask.
  apply j_inv_tick in Hi as Hi1. pose proof (proj2 (jpassing_inv _) Hi1) as Hpa. pose proof (ji_next _ _ _ _ Hi1) as Hn. fstep.
  apply (jwp_iteration _ 0 u0 []); [done|by intros q t _ _| |done|by left|].
  { intros c. rewrite Hn, Hel0, elem_of_nil. done. }
  intros u1 ps1 s1 Hpa1 Hnc1 Hmn1 Hco1 Hu1 _. apply (jwp_commit _ u1 ps1); [done..|]. intros u2 ps2 s3 Hf Hu2.
  fstep. apply (jwp_finish_loop _ ps2); [done|apply j_elems_nodup|done|]. intros s4 Hi4. fstep. fstep. fstep.
  apply jwp_unyield; [done|]. intros s5 Hi5. fstep. fstep. fstep.
  apply jwp_repeatables; [done|intros H; by apply (jc_oneshot _ _ _ _ _ (inv_core env True 0 s5 Hi5))|].
  intros r s6 [Hi6 Hq6] Hr. apply wpf_modify. apply HQ. split; [|exact Hq6].
  split; [apply jcore_paused; [done|apply Hi6]|apply (ji_next _ _ _ _ Hi6)|apply (ji_num _ _ _ _ Hi6)].
Qed.

Lemma jwp_pick_next_loop cs s (Q : unit → Shin → Prop) :
  j_inv s → (∀ c, c ∈ cs → j_enclave_cpu c) → (∀ s', j_inv s' → Q tt s') → jwp env (j_pick_next_loop env cs) s Q.
Proof using Henv.
  intros Hi Hall HQ. revert s Hi Hall. induction cs as [|c cs IH]; intros s Hi Hall; simpl; [by apply wpf_ret, HQ|].
  assert (j_enclave_cpu c) as Hc by (apply Hall; by left). destruct Hi as [Hi Hq].
  fstep. eapply jwp_Available; [apply Hi|done|]. intros a. apply j_inv_tick in Hi as Hi1. fstep. fstep.
  destruct (a && _); [|apply IH; [by split|intros c' Hc'; apply Hall; by right]].
  fstep. apply (jwp_cpu env Henv); [done|]. fstep.
  eapply (wpf_mono _ _ _ (λ _ s1, s1 = tick s)).
  { fstep; [intros Hcur|done]. apply negb_true_iff, Z.eqb_neq in Hcur.
    destruct (j_current_on_cpu env True 0 real (tick s) c (jmid_core _ _ _ _ _ (ji_mid _ _ _ _ Hi1))) as (t & Ht & _); [done|done|].
    fstep. eapply jwp_task; [exact Ht|]. by apply jwp_check. }
  intros [] s1 ->. fstep. fstep. rewrite (je_agent _ Henv) by done. apply wpf_modify. apply HQ.
  apply (j_inv_agents env True True (tick s)); [by split|by split|intros _; apply (jc_agent _ _ _ _ _ (ji_mid _ _ _ _ Hi1) I)|done].
Qed.

Lemma jwp_PickNextGlobalCPU s (Q : unit → Shin → Prop) :
  j_inv s → (∀ s', j_inv s' → Q tt s') → jwp env (J_PickNextGlobalCPU env) s Q.
Proof using Henv.
  intros Hi HQ. unfold J_PickNextGlobalCPU. fstep. apply jwp_lift; [intros cs Ecs|by rewrite j_enclave_iterate].
  rewrite j_enclave_iterate in Ecs. injection Ecs as <-. by apply jwp_pick_next_loop.
Qed.

(** A turn: the messages, the parameters, the pass. *)
Lemma jwp_AgentThread c boosted msgs s (Q : unit → Shin → Prop) :
  j_inv s → (∀ s', j_inv s' → Q tt s') → jwp env (J_AgentThread env c boosted msgs) s Q.
Proof using Henv.
  intros Hi HQ. unfold J_AgentThread. fstep. fstep. fstep.
  { fstep. apply HQ. destruct Hi as [Hi Hq]. split; [by apply (j_inv_same env True 0 s)|exact Hq]. }
  fstep; [by apply jwp_PickNextGlobalCPU|]. fstep.
  eapply (wpf_mono _ _ _ (λ _ s1, j_inv s1)).
  - apply (wpf_forM _ _ _ (λ _ s', j_inv s')); [done|]. intros m l s1 Hi1. by apply (jwp_DispatchMessage env Henv True).
  - intros [] s1 Hi1. fstep. apply (jwp_UpdateSchedParams env Henv True 0); [apply Hi1|]. intros s2 Hi2 _. by apply jwp_GlobalSchedule.
Qed.
End pass.

(** ** The start *)

Section start.
Context (env : ShinEnv) (Henv : shin_env_ok env).

#[local] Instance shin_start_task_type : TaskType ShinTask := ShinTask_type env.

Notation j_enclave_cpu := (j_enclave_cpu env).
Notation j_inv_but := (j_inv_but env False).
Notation j_inv := (j_inv env False).

(** The tasks that are found before the agents start: none runs. *)
Definition found (s : Shin) : Prop := j_inv s ∧ none_runs s.

Notation discover := (@discover_sw Shin ShinTask (ShinTask_type env) _ (Shin_ops env) (λ _, mret tt)).
Notation discover_all := (@DiscoverTasks Shin ShinTask (ShinTask_type env) _ (Shin_ops env)
  J_DiscoveryStart (J_DiscoveryComplete env) (λ _, mret tt)).

(** A task that was allocated in vain is freed again. *)
Lemma j_new_freed g s :
  j_inv s → task_map_ (j_allocator s) !! g = None →
  let p := j_malloc env (j_allocator s) in
  freed p (ShinTask_new (j_absl env) g)
    (set_j_allocator (mkAllocator (<[g := p]> (task_map_ (j_allocator s))) (<[p := ShinTask_new (j_absl env) g]> (heap (j_allocator s)))) s) = s.
Proof using Henv.
  intros Hi Hn p. destruct (je_malloc _ Henv (j_allocator s) (proj1 (jc_alloc _ _ _ _ _ (ji_mid _ _ _ _ (proj1 Hi))))) as [_ Hp].
  unfold freed. simpl. fold p in Hp. rewrite !delete_insert_id by done. by destruct s as [[m h] ? ? ? ? ? ? ? ? ? ?].
Qed.

Lemma jwp_get_or_alloc g (k : Z * bool → M Shin unit) s (Q : unit → Shin → Prop) :
  found s → g ≠ 0 →
  (∀ q, jwp env (k (q, false)) s Q) →
  (∀ q s1, j_inv_but 1 s1 → quiet s1 → none_runs s1 → heap (j_allocator s1) !! q = Some (ShinTask_new (j_absl env) g) →
     freed q (ShinTask_new (j_absl env) g) s1 = s → jwp env (k (q, true)) s1 Q) →
  jwp env (get_or_alloc (Ops := Shin_ops env) g ≫= k) s Q.
Proof using Henv.
  intros [Hi Hn] Hg0 Hold Hnew. unfold get_or_alloc. fstep. fstep. apply wpf_wp, wp_get. unfold GetTask_new, GetTask. simpl malloc.
  destruct (task_map_ (allocator s) !! g) as [q|] eqn:Eq.
  - fstep. fstep. fstep. change (set_allocator (allocator s) s) with (set_j_allocator (j_allocator s) s).
    replace (set_j_allocator (j_allocator s) s) with s by by destruct s. apply Hold.
  - destruct (j_inv_new env Henv False s g Hi Hg0 Eq) as (Hi1 & Hq1 & Hp1 & Hn1). fstep. fstep. fstep.
    apply Hnew; [exact Hi1|exact Hq1|by apply Hn1|exact Hp1|by apply j_new_freed].
Qed.

Lemma jwp_discover_sw read assoc free_ret nice fuel attempt had s (Q : unit → Shin → Prop) :
  found s → (∀ n, sw_gtid (read n) ≠ 0) →
  (∀ s', found s' → Q tt s') → jwp env (discover read assoc free_ret nice fuel attempt had) s Q.
Proof using Henv.
  intros Hi Hg HQ. revert attempt had. induction fuel as [|fuel IH]; intros attempt had; [done|]. simpl.
  destruct (assoc attempt) as [status|errno].
  - fstep; [by apply wpf_ret, HQ|]. apply jwp_get_or_alloc; [done|apply Hg|done|]. intros q s1 Hi1 Hq1 Hn1 Hp1 _. fstep.
    eapply (jwp_J_TaskNew env Henv False); [exact Hi1|exact Hq1|exact Hp1|done|done|]. intros s2 Hi2 Hn2. apply wpf_ret. apply HQ. split; [done|by apply Hn2].
  - fstep; [|fstep; [|done]].
    + apply jwp_get_or_alloc; [done|apply Hg|done|]. intros q s1 Hi1 Hq1 Hn1 Hp1 Efr. apply wpf_wp. eapply wp_free; [exact Hp1|].
      change (Q tt (freed q (ShinTask_new (j_absl env) (sw_gtid (read attempt))) s1)). rewrite Efr. by apply HQ.
    + fstep; [apply jwp_check; intros _; by apply HQ|]. fstep; [done|]. apply IH.
Qed.

Lemma jwp_DiscoverTasks words s (Q : unit → Shin → Prop) :
  found s → Forall (λ w, ∀ n, sw_gtid (w.1.1.1 n) ≠ 0) words → (∀ s', found s' → Q tt s') → jwp env (discover_all words) s Q.
Proof using Henv.
  intros Hi Hw HQ. unfold DiscoverTasks. fstep. unfold J_DiscoveryStart at 1. apply wpf_modify. fstep.
  eapply (wpf_mono _ _ _ (λ _ s1, found s1)).
  - eapply wpf_mono; [apply (wpf_forM _ _ _ (λ l s', found s' ∧ Forall (λ w, ∀ n, sw_gtid (w.1.1.1 n) ≠ 0) l))|by intros [] s1 []].
    + destruct Hi as [[Hi Hq] Hn]. split; [|done]. split; [|done]. split; [by apply j_inv_disc|done].
    + intros [[[read assoc] fr] nice] l s1 [Hi1 Hl]. apply Forall_cons in Hl as [Hg Hl].
      apply jwp_discover_sw; [done|done|]. intros s2 Hi2. by split.
  - intros [] s1 [[Hi1 _] Hn1]. apply (jwp_DiscoveryComplete env Henv False 0); [done|done|]. intros s2 Hi2 Hn2.
    apply HQ. split; [|done]. split; [done|]. by eapply none_runs_quiet; [apply Hi2|].
Qed.

(** The agents start. *)
Lemma jwp_EnclaveReady s (Q : unit → Shin → Prop) :
  j_inv s → (∀ s', ShinTurn.j_inv env True s' → Q tt s') → jwp env (J_EnclaveReady env) s Q.
Proof using Henv.
  intros Hi HQ. unfold J_EnclaveReady. fstep. apply jwp_lift; [intros cs Ecs|by rewrite j_enclave_iterate].
  rewrite j_enclave_iterate in Ecs by done. injection Ecs as <-.
  eapply wpf_mono.
  - apply (wpf_forM _ _ _ (λ l s', j_inv s' ∧ (∀ c, c ∈ l → j_enclave_cpu c) ∧ ∀ c, j_enclave_cpu c → c ∈ l ∨ agent (j_cpus s' c) = true)).
    + split; [done|]. split; [done|]. intros c Hc. by left.
    + intros c l s1 (Hi1 & Hl & Ha). assert (j_enclave_cpu c) as Hc by (apply Hl; by left). fstep.
      apply (jwp_upd_cpu env Henv); [done|]. apply jwp_check; intros Hag. split; [|split; [intros c' Hc'; apply Hl; by right|]].
      * apply (j_inv_agents env False False s1); [done| |done|apply (jc_global _ _ _ _ _ (ji_mid _ _ _ _ (proj1 Hi1)))].
        split; try done. intros c'. simpl. destruct (decide (c = c')) as [<-|Hne]; [by rewrite fn_lookup_insert|by rewrite fn_lookup_insert_ne].
      * intros c' Hc'. simpl. destruct (decide (c = c')) as [<-|Hne]; [right; by rewrite fn_lookup_insert|].
        rewrite fn_lookup_insert_ne by done. destruct (Ha c' Hc') as [[->|?]%elem_of_cons|?]; [done|by left|by right].
  - intros [] s1 ([Hi1 Hq1] & _ & Ha). apply HQ.
    apply (j_inv_agents env False True s1); [done|by split| |apply (jc_global _ _ _ _ _ (ji_mid _ _ _ _ Hi1))].
    intros _ c Hc. by destruct (Ha c Hc) as [?%elem_of_nil|?].
Qed.

(** The constructed scheduler has no task. *)
Lemma j_new_found g s0 : 0 ≤ g < MAX_CPUS → Shin_new env g = Ok s0 → found s0.
Proof using Henv.
  intros Hg E. pose proof (je_wf _ Henv) as Hwf. unfold Shin_new in E. unfold MAX_CPUS in Hg. rewrite u32_small in E by lia.
  rewrite IsSet_spec in E by lia. simpl in E.
  assert (∃ g', j_enclave_cpu g' ∧ s0 = mkShin (mkAllocator ∅ ∅) (λ _, mkShinCpu 0 0 false) g' 0 false [] [] [] ∅ 0 []) as (g' & Hg' & ->).
  { destruct (bit (j_enclave env) g) eqn:Hb.
    - exists g. split; [|by injection E]. apply elem_of_elems; [done|]. split; [lia|done].
    - rewrite Front_spec in E by done. simpl in E. destruct (elems (j_enclave env)) as [|c l] eqn:El; [done|]. exists c.
      split; [|by injection E]. unfold ShinOps.j_enclave_cpu. rewrite El. by left. }
  split; [|by intros q t; simpl; rewrite lookup_empty]. split; [|by intros q t; simpl; rewrite lookup_empty].
  split; [|done|done]. split; try done.
  - split; [done|]. intros g0 p. simpl. rewrite lookup_empty. split; [done|]. intros (t & Ht & _). by rewrite lookup_empty in Ht.
  - split.
    + intros p k. split; [|intros (t & Ht & _); simpl in Ht; by rewrite lookup_empty in Ht].
      destruct k as [| |c]; simpl; by intros ?%elem_of_nil.
    + intros [| |c]; simpl; apply NoDup_nil_2.
  - apply SSorted_nil.
Qed.

(** [Enclave::Ready]: the discovery, then the start of the agents. *)
Lemma jwp_Ready words s (Q : unit → Shin → Prop) :
  found s → Forall (λ w, ∀ n, sw_gtid (w.1.1.1 n) ≠ 0) words →
  (∀ s', ShinTurn.j_inv env True s' → Q tt s') → jwp env (J_Ready env words) s Q.
Proof using Henv.
  intros Hf Hw HQ. unfold J_Ready. fstep. apply jwp_DiscoverTasks; [done|done|]. intros s1 [Hi1 _]. by apply jwp_EnclaveReady.
Qed.
End start.

(** ** The states of the agent *)

Section reachable.
Context (env : ShinEnv).

(** The start, and turns of the agents with the messages in the channel. *)
Inductive shin_reachable : Shin → Prop :=
| shin_reach_start g words s0 s :
    0 ≤ g < MAX_CPUS → Forall (λ w, ∀ n, sw_gtid (w.1.1.1 n) ≠ 0) words →
    Shin_new env g = Ok s0 → J_Ready env words s0 = Ok (tt, s) → shin_reachable s
| shin_reach_turn c boosted msgs s s' :
    shin_reachable s → J_AgentThread env c boosted msgs s = Ok (tt, s') → shin_reachable s'.

Lemma j_reachable_inv s : shin_env_ok env → shin_reachable s → j_inv env True s.
Proof.
  intros Henv. induction 1 as [g words s0 s Hg Hw E0 E1|c boosted msgs s s' _ IH E].
  - exact (wpf_result _ _ _ _ _ _ (jwp_Ready env Henv words s0 (λ _, j_inv env True) (j_new_found env Henv g s0 Hg E0) Hw (λ _ H, H)) E1).
  - exact (wpf_result _ _ _ _ _ _ (jwp_AgentThread env Henv c boosted msgs s (λ _, j_inv env True) IH (λ _ H, H)) E).
Qed.
End reachable.
