(* ===== verification/ShinClaims.v ===== *)
(** * ShinClaims: what the Shinjuku agent guarantees

    No task is lost; the run queue is a FIFO queue per QoS class, of which the
    highest is served first; a turn never loops, and uses a freed task or a
    missing table only if some thread group has no table or has repeating work;
    with such a group the agent can be stopped.  The level of tasks that only
    could be unscheduled is dropped before anything looks at it. *)

From S2P Require Import Prelude Outcome CpuMap CpuMapSpec.
From S2P Require Import Topology TopologySpec TopologyClaims Dispatch Placement Txn PrioTable Shin ShinOps ShinTurn ShinPass.
From stdpp Require Import gmap functions sorting.
From Stdlib Require Import ZArith Lia.

Local Open Scope Z_scope.

(** ** A sample machine *)

(** Two items; a class of QoS 1, one of QoS 9, and in the second table one of
    repeating work of QoS 1 and the given period. *)
Definition j_plain_table : Table := mkTable 2 [mkWorkClass 0 1 100 0; mkWorkClass 0 9 100 0] 1.

(** Four CPUs, of which those of [avail] are available; every commit succeeds.
    The stream always reports an overflow, so every refresh reads both items. *)
Definition shin_sample (avail : Z → bool) (tgid : Z → Z) (attach : nat → Z → option Table) (item : nat → Z → Z → ItemRead) : ShinEnv :=
  mkShinEnv sample_topo (all_cpus_ sample_topo) sample_absl 50 fresh_addr (λ _, true) (λ _, avail) (λ n, Z.of_nat n)
    (λ _ _, 0) (λ _ _, false) (λ _ _, true) (λ _ _, GHOST_TXN_COMPLETE) (λ _, tgid) attach (λ os, (map_to_list os).*1)
    (λ _ _, kStreamOverflow) item (λ _ _ sid, if sid =? 0 then 7 else 9).

Lemma shin_sample_ok avail tgid attach item : shin_env_ok (shin_sample avail tgid attach item).
Proof.
  split; change (j_enclave (shin_sample avail tgid attach item)) with (all_cpus_ sample_topo); try done.
  - apply sample_topo_ok.
  - apply sample_topo_ok.
  - intros a _. apply fresh_addr_ok.
  - intros os tg. simpl. rewrite list_elem_of_fmap. intros ([tg' o] & -> & H%elem_of_map_to_list). by exists o.
Qed.

(** A read of an item of the class and thread, with work or without. *)
Definition j_item_of (class gpid begin : Z) (work : bool) : ItemRead :=
  mkRead class begin (mkItemData 0 class gpid (if work then SCHED_ITEM_RUNNABLE else 0) 0) true.

(** Thread 7 has the item 0, thread 9 the item 1, of the given classes, both
    with work; from the question [stop] on the item of 7 is a new one, with work
    or without. *)
Definition j_items (class7 class9 : Z) (stop : nat) (work : bool) (n : nat) (tg sid : Z) : ItemRead :=
  if sid =? 0 then (if (n <? stop)%nat then j_item_of class7 7 2 true else j_item_of class7 7 4 work)
  else j_item_of class9 9 2 true.

Definition j_msg (g ty sq : Z) : Message := mkMessage ty sq g 0 true false 0 false 0.

Definition shin_empty : Shin := mkShin (mkAllocator ∅ ∅) (λ _, mkShinCpu 0 0 false) 0 0 false [] [] [] ∅ 0 [].

Section run.
Context (env : ShinEnv).

(** The start on CPU 0, which finds no threads, and turns of the global agent. *)
Definition j_start : option Shin :=
  match Shin_new env 0 with
  | Ok s => match J_Ready env [] s with Ok (_, s') => Some s' | Crash _ => None end
  | Crash _ => None
  end.

Fixpoint j_turns (turns : list (list Message)) (s : Shin) : option Shin :=
  match turns with
  | [] => Some s
  | msgs :: turns =>
      match J_AgentThread env 0 false msgs s with Ok (_, s') => j_turns turns s' | Crash _ => None end
  end.

Definition j_at (turns : list (list Message)) : Shin := default shin_empty (j_start ≫= j_turns turns).

Lemma j_turns_reachable turns s s' : shin_reachable env s → j_turns turns s = Some s' → shin_reachable env s'.
Proof.
  revert s. induction turns as [|msgs turns IH]; intros s Hr; simpl; [by intros [= <-]|].
  destruct (J_AgentThread env 0 false msgs s) as [[[] s1]|] eqn:E; [|done]. apply IH. by eapply shin_reach_turn.
Qed.

Lemma j_at_reachable turns : bool_decide (is_Some (j_start ≫= j_turns turns)) = true → shin_reachable env (j_at turns).
Proof.
  intros [s E]%bool_decide_eq_true. unfold j_at. rewrite E. simpl. destruct j_start as [s0|] eqn:E0; [|done].
  eapply (j_turns_reachable turns s0); [|exact E]. unfold j_start in E0. destruct (Shin_new env 0) as [s1|] eqn:E1; [|done].
  destruct (J_Ready env [] s1) as [[[] s2]|] eqn:E2; [|done]. injection E0 as <-.
  by eapply (shin_reach_start env 0 []).
Qed.
End run.

Definition j_arrivals : list (list Message) := [[j_msg 7 MSG_TASK_NEW 1; j_msg 9 MSG_TASK_NEW 1]].

(** Both threads are of group 5, and CPU 1 is available; the steady work is in
    the classes of QoS 1 and 9. *)
Definition shin_steady : ShinEnv := shin_sample (Z.eqb 1) (λ _, 5) (λ _ _, Some j_plain_table) (j_items 0 1 1000 true).

(** Thread 9 runs, thread 7 is queued. *)
Definition shin2 : Shin := j_at shin_steady j_arrivals.

Lemma shin2_reachable : shin_reachable shin_steady shin2.
Proof. apply j_at_reachable. by vm_compute. Qed.

(** ** Where the tasks are *)

(** C5. No task is lost or duplicated: in every reachable state a live task is
    in exactly one of the FIFO queues when it is queued and in none otherwise,
    in the list of yielding tasks exactly when it is yielding, and the current
    task of a CPU exactly when it runs there.  Queued, running and yielding
    tasks have work, paused tasks have none, and what a task says of its work is
    what the agent's copy of its item says.  No unschedule is pending, no CPU is
    left with a task chosen but not started, the queues have no duplicates and
    only live tasks, and [num_tasks_] counts the live tasks, modulo 2 ^ 32.
    Whatever the applications write into their tables. *)
Theorem shin_no_task_lost (env : ShinEnv) (s : Shin) (Henv : shin_env_ok env) (Hr : shin_reachable env s) :
  (∀ p t, heap (j_allocator s) !! p = Some t →
     (p ∈ queued (run_queue_ s) ↔ run_state t = kQueued) ∧ (p ∈ yielding_tasks_ s ↔ run_state t = kYielding) ∧
     (∀ c, current (j_cpus s c) = p ↔ run_state t = kOnCpu ∧ cpu t = c) ∧
     unschedule_level t = kNoUnschedule ∧
     match run_state t with kBlocked => True | kPaused => has_work t = false | _ => has_work t = true end ∧
     (∀ tg sid x, sp t = SpItem tg sid → j_params_of s (sp t) = Some x → HasWork x = has_work t)) ∧
  (∀ p, p ∈ queued (run_queue_ s) ∨ p ∈ yielding_tasks_ s ∨ (p ≠ 0 ∧ ∃ c, current (j_cpus s c) = p) → is_Some (heap (j_allocator s) !! p)) ∧
  NoDup (queued (run_queue_ s)) ∧ NoDup (yielding_tasks_ s) ∧ (∀ c, next (j_cpus s c) = 0) ∧
  num_tasks_ s = s32 (Z.of_nat (size (heap (j_allocator s)))).
Proof.
  destruct (j_reachable_inv env s Henv Hr) as [Hi Hq]. pose proof (ji_mid _ _ _ _ Hi) as Hm. pose proof (jc_rest _ _ _ _ _ Hm) as Hrest.
  assert (∀ k, j_queues real s k = match k with JRun => queued (run_queue_ s) | JYield => yielding_tasks_ s | JCur c => slot_list (current (j_cpus s c)) end) as Ek.
  { intros [| |c]; simpl; [apply app_nil_r|done|done]. }
  split_and!.
  - intros p t Hp. pose proof (j_nonzero env True 0 real s p t Hm Hp) as Hp0. destruct (jmid_settled env True real s p t Hm Hp) as [Hw Hs].
    assert (∀ k, p ∈ j_queues real s k ↔ j_place t = Some k) as Hk.
    { intros k. split; [|by apply (rest_in _ _ _ _ t k Hrest)]. intros (u & Hu & E)%(rest_live _ _ _ _ _ Hrest). congruence. }
    pose proof (Hk JRun) as H1. pose proof (Hk JYield) as H2. rewrite Ek in H1, H2. rewrite H1, H2. unfold j_place. split_and!.
    + by destruct (run_state t).
    + by destruct (run_state t).
    + intros c. pose proof (Hk (JCur c)) as H3. rewrite Ek, elem_of_slot in H3. unfold j_place in H3. split.
      * intros <-. pose proof (proj1 H3 (conj Hp0 eq_refl)) as E. destruct (run_state t); try done. split; [done|]. by injection E.
      * intros [E <-]. rewrite E in H3. symmetry. by apply H3.
    + by apply (Hq p).
    + unfold jwork in Hw. rewrite (Hq p t Hp) in Hw. destruct (run_state t), (has_work t); done.
    + exact Hs.
  - intros p [Hp|[Hp|[Hp0 [c Hc]]]].
    + destruct (rest_live _ _ _ p JRun Hrest) as (t & Ht & _); [by rewrite Ek|by exists t].
    + destruct (rest_live _ _ _ p JYield Hrest) as (t & Ht & _); [by rewrite Ek|by exists t].
    + destruct (rest_live _ _ _ p (JCur c) Hrest) as (t & Ht & _); [|by exists t]. rewrite Ek, Hc. by apply elem_of_slot.
  - pose proof (proj2 Hrest JRun) as H. by rewrite Ek in H.
  - apply (proj2 Hrest JYield).
  - apply (ji_next _ _ _ _ Hi).
  - pose proof (ji_num _ _ _ _ Hi) as E. by rewrite Z.sub_0_r in E.
Qed.

(** Thread 9 runs on CPU 1, thread 7 waits in the queue of QoS 1. *)
Lemma shin_no_task_lost_witness :
  run_queue_ shin2 = [(1, [16]); (9, [])] ∧ current (j_cpus shin2 1) = 272 ∧ NoDup (queued (run_queue_ shin2)).
Proof.
  split; [vm_compute; reflexivity|]. split; [vm_compute; reflexivity|].
  exact (proj1 (proj2 (proj2 (shin_no_task_lost shin_steady shin2 (shin_sample_ok _ _ _ _) shin2_reachable)))).
Defined.

(** ** The turn *)

Lemma j_pick_completes env cs s :
  shin_env_ok env → j_inv env True s → (∀ c, c ∈ cs → j_enclave_cpu env c) → wp (j_pick_next_loop env cs) s (λ _ _, True).
Proof.
  intros Henv. revert s. induction cs as [|c cs IH]; intros s [Hi Hq] Hcs; simpl; [by wpstep|].
  assert (j_enclave_cpu env c) as Hc by (apply Hcs; by left). pose proof (j_enclave_range env c Henv Hc) as Hr.
  assert (∀ s (Q : ShinCpu → Shin → Prop), Q (j_cpus s c) s → wp (j_cpu c) s Q) as Hcpu.
  { intros s' Q HQ. unfold j_cpu. rewrite (proj2 (Z.leb_le 0 c)), (proj2 (Z.ltb_lt c _)) by lia. simpl. by wpstep. }
  wpstep. unfold J_Available. wpstep. apply Hcpu. rewrite (jc_agent _ _ _ _ _ (ji_mid _ _ _ _ Hi) I c) by done.
  unfold ask. do 7 wpstep. apply j_inv_tick in Hi as Hi1.
  destruct (j_avail env _ c && _); [|apply IH; [by split|intros c' Hc'; apply Hcs; by right]].
  wpstep. apply Hcpu. wpstep. wpstep; intros Hcur.
  - apply negb_true_iff, Z.eqb_neq in Hcur.
    destruct (j_current_on_cpu env True 0 real (tick s) c (ji_mid _ _ _ _ Hi1)) as (t & Ht & Hst & _); [done|done|].
    wpstep. eapply wp_task; [exact Ht|]. wpstep; [by apply bool_decide_eq_true|].
    wpstep. wpstep. rewrite (je_agent _ Henv) by done. by wpstep.
  - wpstep. wpstep. rewrite (je_agent _ Henv) by done. by wpstep.
Qed.

(** C18. From every reachable state, whatever the messages, the answers of the
    kernel and the contents of the tables, a turn of any agent ends within the
    bounds of its loops.  If every thread group has its table when the agent asks
    for it, and no table has a class of repeating work, the turn follows no
    pointer to a task, to parameters, to an orchestrator or to an agent that is
    not there.  It may stop the process at a CHECK or with an error; else the
    state is reachable again.  The turns that only yield or move the global
    agent always complete. *)
Theorem shin_turn_stops (env : ShinEnv) (s : Shin) (c : Z) (boosted : bool) (msgs : list Message)
    (Henv : shin_env_ok env) (Hr : shin_reachable env s) :
  match J_AgentThread env c boosted msgs s with
  | Ok (_, s') => shin_reachable env s'
  | Crash f => f ≠ OutOfFuel ∧ (f = UseAfterFree → ¬ (attaches env ∧ oneshot env)) ∧ c = global_cpu_ s ∧ boosted = false
  end.
Proof.
  pose proof (j_reachable_inv env s Henv Hr) as Hi.
  pose proof (jwp_AgentThread env Henv c boosted msgs s (λ _ _, True) Hi ltac:(done)) as H. unfold wpf in H.
  destruct (J_AgentThread env c boosted msgs s) as [[[] s']|f] eqn:E; [by eapply shin_reach_turn|].
  destruct H as [H1 H2]. split; [done|]. split; [done|]. unfold J_AgentThread, mbind, M_bind, gets in E. simpl in E.
  destruct (Z.eqb_spec c (global_cpu_ s)) as [Hc|Hc]; [|done]. split; [done|]. destruct boosted; [|done]. exfalso.
  pose proof (j_pick_completes env (elems (j_enclave env)) s Henv Hi ltac:(done)) as Hw. simpl in E.
  unfold J_PickNextGlobalCPU, mbind, M_bind, lift in E. rewrite j_enclave_iterate in E by done. unfold wp in Hw. by rewrite E in Hw.
Qed.

(** In the sample every group has a table without repeating work: no turn there
    uses a pointer that is not there. *)
Lemma shin_turn_stops_witness :
  match J_AgentThread shin_steady 0 false [] shin2 with Ok (_, s') => shin_reachable shin_steady s' | Crash _ => False end ∧
  ∀ c boosted msgs, J_AgentThread shin_steady c boosted msgs shin2 ≠ Crash UseAfterFree.
Proof.
  split.
  - assert (match J_AgentThread shin_steady 0 false [] shin2 with Ok _ => true | Crash _ => false end = true) as Ht by (vm_compute; reflexivity).
    pose proof (shin_turn_stops shin_steady shin2 0 false [] (shin_sample_ok _ _ _ _) shin2_reachable) as H.
    destruct (J_AgentThread shin_steady 0 false [] shin2) as [[[] s']|f]; [exact H|discriminate Ht].
  - intros c boosted msgs E.
    pose proof (shin_turn_stops shin_steady shin2 c boosted msgs (shin_sample_ok _ _ _ _) shin2_reachable) as H.
    rewrite E in H. destruct H as (_ & H & _). apply (H eq_refl). split.
    + intros n tg. exists j_plain_table. reflexivity.
    + intros n tg tb [= <-]. repeat constructor.
Defined.

(** ** The run queue is a FIFO queue per QoS *)

Section refines.
Context (env : ShinEnv) (s : Shin) (Hm : jmid env True real s).

(** The head of the highest queue that has one. *)
Definition is_first (qos p : Z) (l : list Z) (m : list (Z * list Z)) : Prop :=
  rq_get qos m = p :: l ∧ ∀ k, qos < k → rq_get k m = [].

Lemma j_dequeue_refines :
  (queued (run_queue_ s) = [] ∧ J_Peek s = Ok (0, s) ∧ J_Dequeue s = Ok (0, s)) ∨
  ∃ qos p l m, is_first qos p l (run_queue_ s) ∧ J_Peek s = Ok (p, s) ∧ J_Dequeue s = Ok (p, set_run_queue m s) ∧
    ∀ k, rq_get k m = if k =? qos then l else rq_get k (run_queue_ s).
Proof using Hm.
  destruct (decide (queued (run_queue_ s) = [])) as [E|Hne]; [left|right].
  - split; [done|]. apply RunqueueEmpty_queued in E. split; apply wp_ok_eq; [unfold J_Peek|unfold J_Dequeue]; wpstep; wpstep; rewrite E; by wpstep.
  - destruct (j_head env True real s Hm Hne) as (qos & p & l & t & Ef & Eg & Hk & Hp0 & Ht & _ & Hw & Hl).
    exists qos, p, l, (rq_with qos tail (run_queue_ s)). split; [done|].
    assert (RunqueueEmpty (run_queue_ s) = false) as Ene.
    { destruct (RunqueueEmpty (run_queue_ s)) eqn:E; [|done]. by apply RunqueueEmpty_queued in E. }
    split_and!.
    + apply wp_ok_eq. unfold J_Peek. wpstep. wpstep. rewrite Ene. wpstep. wpstep. rewrite Ef. simpl. wpstep.
      eapply j_wp_front; [exact Eg|]. wpstep. eapply j_wp_check_front; [exact Ht|done|done|]. by wpstep.
    + apply wp_ok_eq. unfold J_Dequeue. wpstep. wpstep. rewrite Ene. wpstep. wpstep. rewrite Ef. simpl. wpstep.
      eapply j_wp_front; [exact Eg|]. wpstep. wpstep; [by rewrite (proj2 (Z.eqb_neq p 0))|].
      wpstep. eapply j_wp_check_front; [exact Ht|done|done|]. wpstep. wpstep. by wpstep.
    + intros k. rewrite rq_get_with by apply Hm. by rewrite Eg.
Qed.

Lemma j_enqueue_refines p t back x :
  heap (j_allocator s) !! p = Some t → unschedule_level t = kNoUnschedule → has_work t = true → j_params_of s (sp t) = Some x →
  ∃ m, J_Enqueue p back s = Ok (tt, set_run_queue m (put_task p (set_run_state kQueued t) s)) ∧
    ∀ k, rq_get k m = if k =? qos_ x then (if back && negb (prio_boost t) then rq_get k (run_queue_ s) ++ [p] else p :: rq_get k (run_queue_ s))
                      else rq_get k (run_queue_ s).
Proof using Hm.
  intros Hp Hl Hw Hx. destruct (j_Enqueue_eq p t back s Hp Hl) as (qos & E & Hq); [by exists x|]. rewrite Hw in E. rewrite (Hq x Hx) in E.
  eexists. split; [exact E|]. intros k. rewrite rq_get_with by apply Hm. destruct (Z.eqb_spec k (qos_ x)) as [->|]; [|done]. by destruct (_ && _).
Qed.

Lemma j_remove_refines p t :
  heap (j_allocator s) !! p = Some t → run_state t = kQueued →
  ∃ m, J_RemoveFromRunqueue p s = Ok (tt, set_run_queue m (put_task p (set_run_state kPaused t) s)) ∧
    ∀ k, rq_get k m = filter (λ q, q ≠ p) (rq_get k (run_queue_ s)).
Proof using Hm.
  intros Hp Hst. assert (NoDup (queued (run_queue_ s)) ∧ p ∈ queued (run_queue_ s)) as [Hnd Hin].
  { pose proof (proj2 (jc_rest _ _ _ _ _ Hm) JRun) as Hnd. pose proof (proj2 (j_in_queue env True 0 real s p Hm) (ex_intro _ t (conj Hp Hst))) as Hin.
    simpl in *. by rewrite app_nil_r in Hnd, Hin. }
  destruct (rq_erase_spec p (run_queue_ s) Hnd Hin) as (m & Em & _ & _ & Eg). exists m. split; [|exact Eg].
  apply wp_ok_eq. unfold J_RemoveFromRunqueue. wpstep. eapply wp_task; [exact Hp|]. wpstep. wpstep; [by apply j_state_true|].
  wpstep. wpstep. rewrite Em. wpstep. eapply wp_upd; [exact Hp|]. by wpstep.
Qed.
End refines.

(** C11. The run queue implements a FIFO queue for each QoS: on every reachable
    state [Dequeue] takes the first task of the highest QoS that has one, which
    is the task that [Peek] shows, or null if there is none; [Enqueue] of a task
    with work puts it at the back of the queue of its QoS, or at the front if it
    is boosted or the caller asks for it; [RemoveFromRunqueue] takes out a
    queued task and keeps the order of the others.  Each completes and changes
    nothing else but the state of the task. *)
Theorem shin_queue_refines (env : ShinEnv) (s : Shin) (Henv : shin_env_ok env) (Hr : shin_reachable env s) :
  ((queued (run_queue_ s) = [] ∧ J_Peek s = Ok (0, s) ∧ J_Dequeue s = Ok (0, s)) ∨
   ∃ qos p l m, is_first qos p l (run_queue_ s) ∧ J_Peek s = Ok (p, s) ∧ J_Dequeue s = Ok (p, set_run_queue m s) ∧
     ∀ k, rq_get k m = if k =? qos then l else rq_get k (run_queue_ s)) ∧
  (∀ p t back, heap (j_allocator s) !! p = Some t → has_work t = true →
     ∃ x m, j_params_of s (sp t) = Some x ∧
       J_Enqueue p back s = Ok (tt, set_run_queue m (put_task p (set_run_state kQueued t) s)) ∧
       ∀ k, rq_get k m = if k =? qos_ x then (if back && negb (prio_boost t) then rq_get k (run_queue_ s) ++ [p] else p :: rq_get k (run_queue_ s))
                         else rq_get k (run_queue_ s)) ∧
  (∀ p t, heap (j_allocator s) !! p = Some t → run_state t = kQueued →
     ∃ m, J_RemoveFromRunqueue p s = Ok (tt, set_run_queue m (put_task p (set_run_state kPaused t) s)) ∧
       ∀ k, rq_get k m = filter (λ q, q ≠ p) (rq_get k (run_queue_ s))).
Proof.
  destruct (j_reachable_inv env s Henv Hr) as [Hi Hq]. pose proof (ji_mid _ _ _ _ Hi) as Hm.
  split; [by apply (j_dequeue_refines env)|]. split; [|by intros p t; apply (j_remove_refines env)].
  intros p t back Hp Hw. destruct (j_work_params env s t) as [x Hx]; [by eapply jc_basic|done|].
  destruct (j_enqueue_refines env s Hm p t back x Hp (Hq p t Hp) Hw Hx) as (m & E & Hg). by exists x, m.
Qed.

(** Thread 7, which waits in the sample, is taken out; nothing is left. *)
Lemma shin_queue_refines_witness :
  ∃ t m, heap (j_allocator shin2) !! 16 = Some t ∧
    J_RemoveFromRunqueue 16 shin2 = Ok (tt, set_run_queue m (put_task 16 (set_run_state kPaused t) shin2)) ∧ rq_get 1 m = [].
Proof.
  assert (∃ t, heap (j_allocator shin2) !! 16 = Some t ∧ run_state t = kQueued) as (t & Ht & Hst).
  { vm_compute. eexists. split; reflexivity. }
  assert (rq_get 1 (run_queue_ shin2) = [16]) as E1 by (vm_compute; reflexivity).
  destruct (proj2 (proj2 (shin_queue_refines shin_steady shin2 (shin_sample_ok _ _ _ _) shin2_reachable)) 16 t Ht Hst) as (m & E & Hg).
  exists t, m. split; [exact Ht|]. split; [exact E|]. rewrite (Hg 1), E1. reflexivity.
Defined.

(** ** Tasks that could be unscheduled *)

(** The first part of a turn: the messages and the parameters. *)
Definition turn_updates (env : ShinEnv) (msgs : list Message) : M Shin unit :=
  forM msgs (@DispatchMessage Shin ShinTask (ShinTask_type env) _ (Shin_ops env)) ≫= λ _, J_UpdateSchedParams env.

(** [GlobalSchedule] after the first iteration, up to the first [k] of the CPUs
    that were committed. *)
Definition pass_after (env : ShinEnv) (now : Z) (open_cpus : CpuList) (k : nat) : M Shin unit :=
  iteration env now 1 open_cpus ≫= λ open_cpus,
  lift (CpuMap_Empty open_cpus) ≫= λ empty : bool,
  whenM (negb empty) (modify (add_event (JEvCommit open_cpus))) ≫= λ _,
  lift (iterate open_cpus) ≫= λ os, forM (take k os) (finish_one env).

Lemma jwp_turn_updates env msgs s :
  shin_env_ok env → j_inv env True s → wpf (shin_stop env) (turn_updates env msgs) s (λ _ s', j_inv_but env True 0 s').
Proof.
  intros Henv Hi. unfold turn_updates. fstep. eapply (wpf_mono _ _ _ (λ _ s1, j_inv env True s1)).
  - apply (wpf_forM _ _ _ (λ _ s', j_inv env True s')); [done|]. intros m l s1 Hi1. by apply (jwp_DispatchMessage env Henv True).
  - intros [] s1 Hi1. apply (jwp_UpdateSchedParams env Henv True 0); [apply Hi1|]. by intros s2 Hi2 _.
Qed.

Lemma jwp_pass_after env now u1 k ps s :
  shin_env_ok env → jpassing env ps [] s → no_could s → (∀ c, next (j_cpus s c) ≠ 0 ↔ c ∈ elems u1) → j_updated_ok env u1 →
  wpf (shin_stop env) (pass_after env now u1 k) s (λ _ s', no_could s').
Proof.
  intros Henv Hpa Hnc Hco Hu. unfold pass_after. apply (jwp_commit env Henv now u1 ps); [done..|]. intros u2 ps2 s3 Hf Hall.
  eapply wpf_mono; [apply (jwp_finish_prefix env Henv (take k (elems u2)) (drop k (elems u2)) ps2)|by intros [] s4 [ps4 H4]; apply H4].
  - by rewrite take_drop.
  - rewrite take_drop. apply j_elems_nodup.
  - intros c Hc. apply Hall. by eapply subseteq_take.
Qed.

(** Threads 7 and 9 are of QoS 1, and thread 7 has a new item with work in the
    second turn. *)
Definition shin_renewed : ShinEnv := shin_sample (Z.eqb 1) (λ _, 5) (λ _ _, Some j_plain_table) (j_items 0 0 20 true).
Definition shin_before : Shin := j_at shin_renewed j_arrivals.
Definition shin_updated : Shin :=
  match turn_updates shin_renewed [] shin_before with Ok (_, s) => s | Crash _ => shin_empty end.
Definition no_cpus : CpuList :=
  match EmptyCpuList (num_cpus_ (j_topo shin_renewed)) with Ok u => u | Crash _ => all_cpus_ sample_topo end.

Lemma shin_before_reachable : shin_reachable shin_renewed shin_before.
Proof. apply j_at_reachable. by vm_compute. Qed.

(** C19. The level of the tasks that could be unscheduled, which a new item
    with work gives to a running task so that a waiting task may take its place,
    has no effect: in every turn, after the messages and the new parameters, the
    first iteration over the CPUs offers no waiting task to a CPU with such a
    task and clears its level, so that the task goes on running.  No task is
    left with the level when the second iteration compares it with the next in
    the queue, nor when a failed commit would unschedule it, whatever is waiting. *)
Theorem shin_could_unschedule_dead (env : ShinEnv) (s s1 s2 : Shin) (msgs : list Message) (now : Z) (u0 u1 : CpuList)
    (Henv : shin_env_ok env) (Hr : shin_reachable env s)
    (E1 : turn_updates env msgs s = Ok (tt, s1)) (E0 : EmptyCpuList (num_cpus_ (j_topo env)) = Ok u0)
    (E2 : iteration env now 0 u0 s1 = Ok (u1, s2)) :
  (∀ q t, heap (j_allocator s1) !! q = Some t → unschedule_level t = kCouldUnschedule →
     run_state t = kOnCpu ∧ has_work t = true ∧
     current (j_cpus s2 (cpu t)) = q ∧ next (j_cpus s2 (cpu t)) = 0 ∧
     heap (j_allocator s2) !! q = Some (set_level kNoUnschedule t)) ∧
  (∀ k s3, pass_after env now u1 k s2 = Ok (tt, s3) →
     ∀ q t, heap (j_allocator s3) !! q = Some t → unschedule_level t ≠ kCouldUnschedule).
Proof.
  pose proof (wpf_result _ _ _ _ _ _ (jwp_turn_updates env msgs s Henv (j_reachable_inv env s Henv Hr)) E1) as Hi.
  pose proof (ji_next _ _ _ _ Hi) as Hn. destruct (j_empty_list env Henv) as (u & Eu & Hu & Hel). assert (u = u0) as -> by congruence.
  assert (∃ ps, jpassing env ps [] s2 ∧ no_could s2 ∧ (∀ c, next (j_cpus s2 c) ≠ 0 ↔ c ∈ elems u1) ∧ j_updated_ok env u1 ∧ kept [] s1 s2)
    as (ps & Hpa & Hnc & Hco & Hu1 & Hk).
  { refine (wpf_result _ _ _ _ _ (λ u2 s', ∃ ps, jpassing env ps [] s' ∧ no_could s' ∧ (∀ c, next (j_cpus s' c) ≠ 0 ↔ c ∈ elems u2) ∧
      j_updated_ok env u2 ∧ kept [] s1 s') _ E2).
    apply (jwp_iteration env Henv now 0 u0 []); [by apply jpassing_inv|by intros q t _ _| |done|by left|].
    - intros c. by rewrite Hn, Hel, elem_of_nil.
    - intros u' ps' s' ? ? _ ? ? ?. by exists ps'. }
  split.
  - intros q t Hq Hl. destruct (Hk q t Hq Hl) as (Hcur & Hnx & [Hq2|[[]%elem_of_nil _]]).
    destruct (marked_runs env _ s1 q t (ji_mid _ _ _ _ Hi) ltac:(done) Hq ltac:(by rewrite Hl)) as (Hst & _).
    split; [done|]. split; [|by split_and!]. destruct (jmid_settled _ _ _ _ _ _ (ji_mid _ _ _ _ Hi) Hq) as [Hw _].
    unfold jwork in Hw. rewrite Hst, Hl in Hw. by destruct (has_work t).
  - intros k s3 E3. exact (wpf_result _ _ _ _ _ _ (jwp_pass_after env now u1 k ps s2 Henv Hpa Hnc Hco Hu1) E3).
Qed.

(** Thread 7 has a new item and could be unscheduled, thread 9 of the same QoS
    waits: thread 7 goes on running, in the whole pass. *)
Lemma shin_could_unschedule_dead_witness :
  ∃ t u1 s2, heap (j_allocator shin_updated) !! 16 = Some t ∧ unschedule_level t = kCouldUnschedule ∧
    run_queue_ shin_updated = [(1, [272])] ∧ iteration shin_renewed 24 0 no_cpus shin_updated = Ok (u1, s2) ∧
    current (j_cpus s2 1) = 16 ∧ next (j_cpus s2 1) = 0 ∧
    match J_GlobalSchedule shin_renewed shin_updated with Ok (_, s3) => run_queue_ s3 = [(1, [272])] | Crash _ => False end.
Proof.
  assert (∃ t, heap (j_allocator shin_updated) !! 16 = Some t ∧ unschedule_level t = kCouldUnschedule ∧ cpu t = 1) as (t & Ht & Hl & Ec).
  { vm_compute. eexists. split; [reflexivity|]. split; reflexivity. }
  assert (turn_updates shin_renewed [] shin_before = Ok (tt, shin_updated)) as E1.
  { assert (match turn_updates shin_renewed [] shin_before with Ok _ => true | Crash _ => false end = true) as Hb by (vm_compute; reflexivity).
    unfold shin_updated. destruct (turn_updates shin_renewed [] shin_before) as [[[] s1]|f]; [reflexivity|discriminate Hb]. }
  assert (EmptyCpuList (num_cpus_ (j_topo shin_renewed)) = Ok no_cpus) as E0 by (vm_compute; reflexivity).
  assert (match iteration shin_renewed 24 0 no_cpus shin_updated with Ok _ => true | Crash _ => false end = true) as Hb by (vm_compute; reflexivity).
  assert (match J_GlobalSchedule shin_renewed shin_updated with Ok (_, s3) => run_queue_ s3 = [(1, [272])] | Crash _ => False end) as Hg
    by (vm_compute; reflexivity).
  destruct (iteration shin_renewed 24 0 no_cpus shin_updated) as [[u1 s2]|f] eqn:E2; [|discriminate Hb].
  destruct (proj1 (shin_could_unschedule_dead shin_renewed shin_before shin_updated s2 [] 24 no_cpus u1
    (shin_sample_ok _ _ _ _) shin_before_reachable E1 E0 E2) 16 t Ht Hl) as (_ & _ & Hcur & Hn & _).
  rewrite Ec in Hcur, Hn. exists t, u1, s2. split; [exact Ht|]. split; [exact Hl|]. split; [vm_compute; reflexivity|].
  split; [reflexivity|]. split; [exact Hcur|]. split; [exact Hn|exact Hg].
Defined.

(** ** What an application can do *)


(** *** A freed task in the list of paused repeatables *)

(** The list holds the address of a task that was freed. *)
Definition dangling (p : Z) (s : Shin) : Prop :=
  heap (j_allocator s) !! p = None ∧ p ∈ paused_repeatables_ s.

Section stays.
Context (env : ShinEnv) (p : Z).

#[local] Instance shin_stays_type : TaskType ShinTask := ShinTask_type env.
#[local] Instance shin_stays_ops : SchedOps Shin ShinTask := Shin_ops env.

(** If the computation completes, the address is still there. *)
Definition stays {A} (m : M Shin A) : Prop := ∀ s, dangling p s → wlp m s (λ _, dangling p).

Lemma stays_bind {A B} (m : M Shin A) (f : A → M Shin B) : stays m → (∀ a, stays (f a)) → stays (m ≫= f).
Proof. intros Hm Hf s Hs. eapply wlp_seq; [by apply Hm|]. intros a s' H. by apply Hf. Qed.

Lemma stays_ret {A} (a : A) : stays (mret a).
Proof. by intros s. Qed.

Lemma stays_get : stays get.
Proof. by intros s. Qed.

Lemma stays_gets {A} (f : Shin → A) : stays (gets f).
Proof. by intros s. Qed.

Lemma stays_modify f : (∀ s, dangling p s → dangling p (f s)) → stays (modify f).
Proof. intros Hf s. apply Hf. Qed.

Lemma stays_abort {A} e : stays (A := A) (abort e).
Proof. by intros s. Qed.

Lemma stays_check b : stays (check b).
Proof. intros s. by destruct b. Qed.

Lemma stays_lift {A} (m : outcome A) : stays (lift m).
Proof. intros s. unfold wlp, lift. by destruct m. Qed.

Lemma stays_when b (m : M Shin unit) : stays m → stays (whenM b m).
Proof. intros Hm. destruct b; [done|apply stays_ret]. Qed.

Lemma stays_forM {A} (l : list A) (f : A → M Shin unit) : (∀ x, stays (f x)) → stays (forM l f).
Proof. intros Hf. induction l as [|x l IH]; simpl; [apply stays_ret|]. apply stays_bind; [apply Hf|done]. Qed.

Lemma stays_task_at q : stays (task_at q : M Shin ShinTask).
Proof. intros s. unfold task_at, wlp, lift. by destruct (deref _ _). Qed.

(** The freed task itself cannot be assigned to. *)
Lemma stays_upd_task q f : stays (upd_task q f : M Shin unit).
Proof.
  intros s [Hp Hin]. unfold upd_task, wlp, mbind, M_bind, task_at, lift, deref. simpl.
  destruct (heap (j_allocator s) !! q) as [t|] eqn:Hq; [|done]. simpl. split; [|done]. simpl. rewrite lookup_insert_ne; congruence.
Qed.

Lemma stays_free_task q : stays (free_task q : M Shin unit).
Proof.
  intros s [Hp Hin]. unfold free_task, wlp, mbind, M_bind, lift, FreeTask, deref, mbind, outcome_bind. simpl.
  destruct (heap (j_allocator s) !! q) as [t|]; [|done]. split; [|done]. simpl. rewrite lookup_delete_None. by right.
Qed.

Lemma stays_ask {A} (f : nat → A) : stays (ask f).
Proof. unfold ask. repeat (apply stays_bind; [|intros ?]); [apply stays_gets|by apply stays_modify|apply stays_ret]. Qed.
End stays.

Create HintDb stays discriminated.
#[export] Hint Resolve stays_ret stays_get stays_gets stays_abort stays_check stays_lift stays_task_at stays_upd_task stays_free_task
  stays_ask : stays.

(** One step along the structure of the code. *)
Ltac stays_step :=
  first
    [ solve [auto 2 with stays]
    | apply stays_bind; [|intros ?]
    | apply stays_modify; intros ? [? ?]; split; [done|simpl; rewrite ?elem_of_app; by auto]
    | apply stays_when
    | apply stays_forM; intros ?
    | case_match ].
Ltac stays := intros; repeat stays_step.

Section passes.
Context (env : ShinEnv) (p : Z).

#[local] Instance shin_passes_type : TaskType ShinTask := ShinTask_type env.
#[local] Instance shin_passes_ops : SchedOps Shin ShinTask := Shin_ops env.

Notation stays := (stays p).

Lemma stays_cpu c : stays (j_cpu c).
Proof. unfold j_cpu. stays. Qed.

Lemma stays_orch_at tg : stays (j_orch_at tg).
Proof. unfold j_orch_at. stays. Qed.

Lemma stays_put_orch tg o : stays (j_put_orch tg o).
Proof. unfold j_put_orch. stays. Qed.

#[local] Hint Resolve stays_cpu stays_orch_at stays_put_orch : stays.

Lemma stays_upd_cpu c f : stays (upd_cpu c f).
Proof. unfold upd_cpu. stays. Qed.

Lemma stays_sp_at r : stays (j_sp_at r).
Proof. unfold j_sp_at. stays. Qed.

#[local] Hint Resolve stays_upd_cpu stays_sp_at : stays.

Lemma stays_QoS q : stays (J_GetQoS q).
Proof. unfold J_GetQoS. stays. Qed.

Lemma stays_MakeEngine tg r : stays (J_MakeEngineRunnable env tg r).
Proof. unfold J_MakeEngineRunnable. stays. Qed.

Lemma stays_SetRuntime q r u : stays (J_SetRuntime q r u).
Proof. unfold J_SetRuntime. stays. Qed.

Lemma stays_front qos : stays (front qos).
Proof. unfold front. stays. Qed.

Lemma stays_check_front q : stays (check_front q).
Proof. unfold check_front. stays. Qed.

#[local] Hint Resolve stays_QoS stays_MakeEngine stays_SetRuntime stays_front stays_check_front : stays.

Lemma stays_UpdateRuntime q : stays (J_UpdateRuntime env q).
Proof. unfold J_UpdateRuntime. stays. Qed.

Lemma stays_UpdateTaskRuntime q r u : stays (J_UpdateTaskRuntime q r u).
Proof. unfold J_UpdateTaskRuntime. stays. Qed.

Lemma stays_Enqueue q b : stays (J_Enqueue q b).
Proof. unfold J_Enqueue. stays. Qed.

Lemma stays_Dequeue : stays (J_Dequeue).
Proof. unfold J_Dequeue. stays. Qed.

Lemma stays_Peek : stays (J_Peek).
Proof. unfold J_Peek. stays. Qed.

Lemma stays_Remove q : stays (J_RemoveFromRunqueue q).
Proof. unfold J_RemoveFromRunqueue. stays. Qed.

Lemma stays_Yield q : stays (J_Yield q).
Proof. unfold J_Yield. stays. Qed.

Lemma stays_Unschedule q : stays (UnscheduleTask env q).
Proof. unfold UnscheduleTask. stays. Qed.

#[local] Hint Resolve stays_UpdateRuntime stays_UpdateTaskRuntime stays_Enqueue stays_Dequeue stays_Peek stays_Remove stays_Yield stays_Unschedule : stays.

Lemma stays_Unyield q : stays (J_Unyield q).
Proof. unfold J_Unyield. stays. Qed.

Lemma stays_copy tg sid q x had : stays (J_copy_params env tg sid q x had).
Proof. unfold J_copy_params. stays. Qed.

Lemma stays_apply tg sid q x had : stays (J_apply_params tg sid q x had).
Proof. unfold J_apply_params. stays. Qed.

Lemma stays_cpu_of q : stays (j_cpu_of q).
Proof. unfold j_cpu_of. stays. Qed.

Lemma stays_check_runtime q m : stays (j_check_runtime env q m).
Proof. unfold j_check_runtime. stays. Qed.

Lemma stays_Available c : stays (J_Available env c).
Proof. unfold J_Available. stays. Qed.

Lemma stays_should_preempt now q : stays (should_preempt env now q).
Proof. unfold should_preempt. stays. Qed.

#[local] Hint Resolve stays_Unyield stays_copy stays_apply stays_cpu_of stays_check_runtime stays_Available stays_should_preempt : stays.

Lemma stays_Callback tg sid old : stays (J_SchedParamsCallback env tg sid old).
Proof. unfold J_SchedParamsCallback. stays. Qed.

Lemma stays_clear q : stays (j_clear_current q).
Proof. unfold j_clear_current. stays. Qed.

Lemma stays_free q : stays (j_free env q).
Proof. unfold j_free. stays. Qed.

Lemma stays_Skip i c : stays (SkipForSchedule env i c).
Proof. unfold SkipForSchedule. stays. Qed.

#[local] Hint Resolve stays_Callback stays_clear stays_free stays_Skip : stays.

Lemma stays_Refresh tg sid : stays (J_RefreshSchedParam env tg sid).
Proof. unfold J_RefreshSchedParam. stays. Qed.

#[local] Hint Resolve stays_Refresh : stays.

Lemma stays_refresh_all tg : stays (J_RefreshAllSchedParams env tg).
Proof. unfold J_RefreshAllSchedParams, RefreshAllSchedParams. stays. Qed.

Lemma stays_refresh tg : stays (J_RefreshSchedParams env tg).
Proof.
  unfold J_RefreshSchedParams, RefreshSchedParams. apply stays_bind; [stays|]. intros o. generalize (num_sched_items_ o). intros n.
  induction (capacity o) as [|k IH]; simpl; [stays|]. unfold RefreshAllSchedParams. stays; exact IH.
Qed.

#[local] Hint Resolve stays_refresh stays_refresh_all : stays.



Lemma stays_find_next fuel now c : stays (find_next env fuel now c).
Proof. induction fuel as [|fuel IH]; simpl; stays; exact IH. Qed.

#[local] Hint Resolve stays_find_next : stays.

Lemma stays_find_loop now i cs u : stays (find_loop env now i cs u).
Proof. revert u. induction cs as [|c cs IH]; intros u; simpl; stays; apply IH. Qed.

Lemma stays_open_loop cs u : stays (open_loop cs u).
Proof. revert u. induction cs as [|c cs IH]; intros u; simpl; [stays|]. unfold open_one. stays; apply IH. Qed.

#[local] Hint Resolve stays_find_loop stays_open_loop : stays.

Lemma stays_iteration now i u : stays (iteration env now i u).
Proof. unfold iteration, settle_one. stays. Qed.

Lemma stays_finish c : stays (finish_one env c).
Proof. unfold finish_one. stays. Qed.

#[local] Hint Resolve stays_iteration stays_finish : stays.




End passes.

(** *** What the application does *)



Section stop.
Context (env : ShinEnv).

#[local] Instance shin_stop_type : TaskType ShinTask := ShinTask_type env.
#[local] Instance shin_stop_ops : SchedOps Shin ShinTask := Shin_ops env.














End stop.



