(* ===== verification/Edf.v ===== *)
(** * Edf: the EDF agent (schedulers/edf/edf_scheduler.h, .cc, orchestrator.h, .cc)

    One global agent schedules the threads of applications that describe their
    work in a shared table (PrioTable): which thread is runnable, in which work
    class, until which deadline.  The run queue is a binary heap in a vector;
    each task knows its position in it.

    An [Orchestrator] is the agent's view of one table.  What the tables, the
    kernel and the clock answer is part of the environment. *)

From S2P Require Import Prelude Outcome CpuMap.
From S2P Require Import Topology Dispatch Placement PrioTable.
From stdpp Require Import gmap.
From Stdlib Require Import ZArith Lia.

Local Open Scope Z_scope.

(** ** Tasks *)

(** [EdfTask::RunState] *)
Inductive EdfState := kBlocked | kQueued | kOnCpu | kYielding | kPaused.

Global Instance EdfState_eq_dec : EqDecision EdfState.
Proof. solve_decision. Defined.

(** [EdfTask].  Durations and times are counted in the resolution of absl. *)
Record EdfTask := mkEdfTask {
  gtid : Z;
  seqnum : Z;
  run_state : EdfState;
  cpu : Z;
  rq_pos : Z;
  prio_boost : bool;
  runtime : Z;
  elapsed_runtime : Z;
  preempted : bool;
  estimated_runtime : Z;
  deadline : Z;
  sched_deadline : Z;
  sp : SpRef;
  has_work : bool;
  wcid : Z
}.

Definition set_seqnum (n : Z) (t : EdfTask) : EdfTask :=
  mkEdfTask (gtid t) n (run_state t) (cpu t) (rq_pos t) (prio_boost t) (runtime t) (elapsed_runtime t) (preempted t)
    (estimated_runtime t) (deadline t) (sched_deadline t) (sp t) (has_work t) (wcid t).
Definition set_run_state (r : EdfState) (t : EdfTask) : EdfTask :=
  mkEdfTask (gtid t) (seqnum t) r (cpu t) (rq_pos t) (prio_boost t) (runtime t) (elapsed_runtime t) (preempted t)
    (estimated_runtime t) (deadline t) (sched_deadline t) (sp t) (has_work t) (wcid t).
Definition set_cpu (c : Z) (t : EdfTask) : EdfTask :=
  mkEdfTask (gtid t) (seqnum t) (run_state t) c (rq_pos t) (prio_boost t) (runtime t) (elapsed_runtime t) (preempted t)
    (estimated_runtime t) (deadline t) (sched_deadline t) (sp t) (has_work t) (wcid t).
Definition set_rq_pos (i : Z) (t : EdfTask) : EdfTask :=
  mkEdfTask (gtid t) (seqnum t) (run_state t) (cpu t) i (prio_boost t) (runtime t) (elapsed_runtime t) (preempted t)
    (estimated_runtime t) (deadline t) (sched_deadline t) (sp t) (has_work t) (wcid t).
Definition set_boost (boost pre : bool) (t : EdfTask) : EdfTask :=
  mkEdfTask (gtid t) (seqnum t) (run_state t) (cpu t) (rq_pos t) boost (runtime t) (elapsed_runtime t) pre
    (estimated_runtime t) (deadline t) (sched_deadline t) (sp t) (has_work t) (wcid t).
Definition set_runtimes (run elapsed : Z) (t : EdfTask) : EdfTask :=
  mkEdfTask (gtid t) (seqnum t) (run_state t) (cpu t) (rq_pos t) (prio_boost t) run elapsed (preempted t)
    (estimated_runtime t) (deadline t) (sched_deadline t) (sp t) (has_work t) (wcid t).
Definition set_estimated (e : Z) (t : EdfTask) : EdfTask :=
  mkEdfTask (gtid t) (seqnum t) (run_state t) (cpu t) (rq_pos t) (prio_boost t) (runtime t) (elapsed_runtime t) (preempted t)
    e (deadline t) (sched_deadline t) (sp t) (has_work t) (wcid t).
Definition set_deadline (d : Z) (t : EdfTask) : EdfTask :=
  mkEdfTask (gtid t) (seqnum t) (run_state t) (cpu t) (rq_pos t) (prio_boost t) (runtime t) (elapsed_runtime t) (preempted t)
    (estimated_runtime t) d (sched_deadline t) (sp t) (has_work t) (wcid t).
Definition set_sched_deadline (d : Z) (t : EdfTask) : EdfTask :=
  mkEdfTask (gtid t) (seqnum t) (run_state t) (cpu t) (rq_pos t) (prio_boost t) (runtime t) (elapsed_runtime t) (preempted t)
    (estimated_runtime t) (deadline t) d (sp t) (has_work t) (wcid t).
Definition set_work (r : SpRef) (w : bool) (c : Z) (t : EdfTask) : EdfTask :=
  mkEdfTask (gtid t) (seqnum t) (run_state t) (cpu t) (rq_pos t) (prio_boost t) (runtime t) (elapsed_runtime t) (preempted t)
    (estimated_runtime t) (deadline t) (sched_deadline t) r w c.

Definition has_state (r : EdfState) (t : EdfTask) : bool := bool_decide (run_state t = r).

Definition EdfTask_new (absl : AbslTime) (g : Z) : EdfTask :=
  mkEdfTask g 0 kBlocked (-1) (-1) false 0 0 false (Milliseconds absl 1) (InfiniteFuture absl) (InfiniteFuture absl)
    SpNull false (2 ^ 32 - 1).

(** ** The orchestrator's data *)

Record WorkClassStats := mkStats { runtimes : Z; samples : Z; overshots : Z }.

(** [Orchestrator]; [work_classes] and [capacity] are in the shared table, which
    the application does not change after it is set up. *)
Record Orchestrator := mkOrch {
  cachedsids_ : list SchedParams;
  wc_stats_ : list WorkClassStats;
  work_classes : list WorkClass;
  capacity : nat
}.

Definition num_sched_items_ (o : Orchestrator) : Z := Z.of_nat (length (cachedsids_ o)).
Definition num_work_classes_ (o : Orchestrator) : Z := Z.of_nat (length (work_classes o)).
Definition set_cached (l : list SchedParams) (o : Orchestrator) : Orchestrator :=
  mkOrch l (wc_stats_ o) (work_classes o) (capacity o).
Definition set_stats (l : list WorkClassStats) (o : Orchestrator) : Orchestrator :=
  mkOrch (cachedsids_ o) l (work_classes o) (capacity o).

(** [Orchestrator::Init] for a table that was attached. *)
Definition Orchestrator_Init (absl : AbslTime) (tb : Table) : Orchestrator :=
  mkOrch (replicate (tb_items tb) zero_params)
    ((λ c, mkStats (Nanoseconds absl (wc_exectime c)) 1 0) <$> tb_classes tb) (tb_classes tb) (tb_capacity tb).

(** ** The scheduler *)

(** [CpuState]: addresses of tasks, 0 for null. *)
Record EdfCpu := mkEdfCpu { current : Z; next : Z; agent : bool }.

Definition set_current (p : Z) (k : EdfCpu) : EdfCpu := mkEdfCpu p (next k) (agent k).
Definition set_next (p : Z) (k : EdfCpu) : EdfCpu := mkEdfCpu (current k) p (agent k).
Definition set_agent (b : bool) (k : EdfCpu) : EdfCpu := mkEdfCpu (current k) (next k) b.

Inductive EdfEvent :=
| EEvOpen (c g seqnum : Z)
| EEvUnschedule (c : Z)
| EEvRunnable (tgid sid : Z)        (* the item's flags get SCHED_ITEM_RUNNABLE *)
| EEvYield (c : Z)
| EEvPing (c : Z).

Record Edf := mkEdf {
  e_allocator : TaskAllocator EdfTask;
  e_cpus : Z → EdfCpu;
  global_cpu_ : Z;
  num_tasks_ : Z;
  in_discovery_ : bool;
  run_queue_ : list Z;
  yielding_tasks_ : list Z;
  orchs_ : gmap Z Orchestrator;
  asked : nat;
  log : list EdfEvent
}.

Definition set_e_allocator (a : TaskAllocator EdfTask) (s : Edf) : Edf :=
  mkEdf a (e_cpus s) (global_cpu_ s) (num_tasks_ s) (in_discovery_ s) (run_queue_ s) (yielding_tasks_ s) (orchs_ s) (asked s) (log s).
Definition set_e_cpus (f : Z → EdfCpu) (s : Edf) : Edf :=
  mkEdf (e_allocator s) f (global_cpu_ s) (num_tasks_ s) (in_discovery_ s) (run_queue_ s) (yielding_tasks_ s) (orchs_ s) (asked s) (log s).
Definition set_global_cpu (c : Z) (s : Edf) : Edf :=
  mkEdf (e_allocator s) (e_cpus s) c (num_tasks_ s) (in_discovery_ s) (run_queue_ s) (yielding_tasks_ s) (orchs_ s) (asked s) (log s).
Definition set_num_tasks (n : Z) (s : Edf) : Edf :=
  mkEdf (e_allocator s) (e_cpus s) (global_cpu_ s) n (in_discovery_ s) (run_queue_ s) (yielding_tasks_ s) (orchs_ s) (asked s) (log s).
Definition set_in_discovery (b : bool) (s : Edf) : Edf :=
  mkEdf (e_allocator s) (e_cpus s) (global_cpu_ s) (num_tasks_ s) b (run_queue_ s) (yielding_tasks_ s) (orchs_ s) (asked s) (log s).
Definition set_run_queue (l : list Z) (s : Edf) : Edf :=
  mkEdf (e_allocator s) (e_cpus s) (global_cpu_ s) (num_tasks_ s) (in_discovery_ s) l (yielding_tasks_ s) (orchs_ s) (asked s) (log s).
Definition set_yielding (l : list Z) (s : Edf) : Edf :=
  mkEdf (e_allocator s) (e_cpus s) (global_cpu_ s) (num_tasks_ s) (in_discovery_ s) (run_queue_ s) l (orchs_ s) (asked s) (log s).
Definition set_orchs (o : gmap Z Orchestrator) (s : Edf) : Edf :=
  mkEdf (e_allocator s) (e_cpus s) (global_cpu_ s) (num_tasks_ s) (in_discovery_ s) (run_queue_ s) (yielding_tasks_ s) o (asked s) (log s).
Definition tick (s : Edf) : Edf :=
  mkEdf (e_allocator s) (e_cpus s) (global_cpu_ s) (num_tasks_ s) (in_discovery_ s) (run_queue_ s) (yielding_tasks_ s) (orchs_ s)
    (S (asked s)) (log s).
Definition add_event (e : EdfEvent) (s : Edf) : Edf :=
  mkEdf (e_allocator s) (e_cpus s) (global_cpu_ s) (num_tasks_ s) (in_discovery_ s) (run_queue_ s) (yielding_tasks_ s) (orchs_ s)
    (asked s) (log s ++ [e]).

Global Instance Edf_has_allocator : HasAllocator Edf EdfTask := {
  allocator := e_allocator;
  set_allocator := set_e_allocator
}.

(** The configuration, and the answers of the kernel, the clock and the tables
    by the number of questions before. *)
Record EdfEnv := mkEdfEnv {
  e_topo : Topology;
  e_enclave : CpuList;
  e_absl : AbslTime;
  e_malloc : TaskAllocator EdfTask → Z;
  e_get_agent : Z → bool;                  (* GetAgent(cpu) is not null *)
  e_avail : nat → Z → bool;                (* agent->cpu_avail() *)
  e_now : nat → Z;                         (* MonotonicNow() *)
  e_sw_runtime : nat → Z → Z;              (* status_word.runtime(), by gtid *)
  e_on_cpu : nat → Z → bool;               (* status_word.on_cpu(), by gtid *)
  e_commit : nat → Z → Z → bool;           (* req->Commit(): cpu, gtid or 0 *)
  e_tgid : nat → Z → Z;                    (* gtid.tgid() *)
  e_attach : nat → Z → option Table;       (* table_.Attach(tgid) *)
  e_iter : gmap Z Orchestrator → list Z;   (* the order of the hash map *)
  e_next_index : nat → Z → Z;              (* NextUpdatedIndex() *)
  e_item : nat → Z → Z → ItemRead;         (* a refresh: tgid, sid *)
  e_item_gpid : nat → Z → Z → Z            (* item->gpid *)
}.

Section edf.
Variable env : EdfEnv.

Notation absl := (e_absl env).

#[local] Instance EdfTask_type : TaskType EdfTask := {
  task_gtid := gtid;
  task_seqnum := seqnum;
  set_task_seqnum := set_seqnum;
  new_task := EdfTask_new absl
}.

(** [cpu_states_[c]] *)
Definition e_cpu (c : Z) : M Edf EdfCpu :=
  if (0 <=? c) && (c <? MAX_CPUS) then gets (λ s, e_cpus s c) else abort OutOfBounds.

Definition upd_cpu (c : Z) (f : EdfCpu → EdfCpu) : M Edf unit :=
  e_cpu c ≫= λ k, modify (λ s, set_e_cpus (<[c := f k]> (e_cpus s)) s).

Definition ask {A} (f : nat → A) : M Edf A := gets asked ≫= λ n, modify tick ≫= λ _, mret (f n).

(** An orchestrator, and what a pointer to parameters points to. *)
Definition orch_at (tg : Z) : M Edf Orchestrator :=
  gets orchs_ ≫= λ os, match os !! tg with Some o => mret o | None => abort UseAfterFree end.
Definition put_orch (tg : Z) (o : Orchestrator) : M Edf unit := modify (λ s, set_orchs (<[tg := o]> (orchs_ s)) s).

Definition params_at (o : Orchestrator) (sid : Z) : outcome SchedParams :=
  match cachedsids_ o !! Z.to_nat sid with Some x => Ok x | None => Crash OutOfBounds end.

Definition sp_at (r : SpRef) : M Edf SchedParams :=
  match r with
  | SpNull => abort UseAfterFree
  | SpDummy => mret zero_params
  | SpItem tg sid => orch_at tg ≫= λ o, lift (params_at o sid)
  end.

Definition GetQoS (p : Z) : M Edf Z := task_at p ≫= λ t, sp_at (sp t) ≫= λ x, mret (qos_ x).

(** ** Deadlines *)

(** [SetRuntime] *)
Definition SetRuntime (p new_runtime : Z) (update_elapsed_runtime : bool) : M Edf unit :=
  task_at p ≫= λ t,
  check (runtime t <=? new_runtime) ≫= λ _,
  upd_task p (λ t, set_runtimes new_runtime
    (if update_elapsed_runtime then elapsed_runtime t + (new_runtime - runtime t) else elapsed_runtime t) t).

(** [UpdateRuntime] *)
Definition UpdateRuntime (p : Z) : M Edf unit :=
  task_at p ≫= λ t, ask (λ n, Nanoseconds absl (e_sw_runtime env n (gtid t))) ≫= λ r, SetRuntime p r true.

(** [while (estimated_runtime <= elapsed_runtime) estimated_runtime *= 2;] *)
Fixpoint double_estimate (fuel : nat) (estimated elapsed : Z) : outcome Z :=
  match fuel with
  | O => Crash OutOfFuel
  | S fuel => if estimated <=? elapsed then double_estimate fuel (estimated * 2) elapsed else Ok estimated
  end.

(** From one on, this many doublings exceed the elapsed runtime. *)
Definition double_fuel (elapsed : Z) : nat := S (S (Z.to_nat (Z.log2 elapsed))).

(** [CalculateSchedDeadline] *)
Definition CalculateSchedDeadline (p : Z) : M Edf unit :=
  task_at p ≫= λ t,
  lift (double_estimate (double_fuel (elapsed_runtime t)) (estimated_runtime t) (elapsed_runtime t)) ≫= λ e,
  upd_task p (set_estimated e) ≫= λ _,
  check (elapsed_runtime t <? e) ≫= λ _,
  upd_task p (set_sched_deadline (time_minus absl (deadline t) (e - elapsed_runtime t))).

(** ** The run queue *)

(** [SchedDeadlineGreater]: [a] is ordered after [b]. *)
Definition SchedDeadlineGreater (a b : Z) : M Edf bool :=
  task_at a ≫= λ ta, task_at b ≫= λ tb,
  if negb (eqb (prio_boost ta) (prio_boost tb)) then mret (prio_boost tb)
  else
    GetQoS a ≫= λ qa, GetQoS b ≫= λ qb,
    if negb (qa =? qb) then mret (qa <? qb) else mret (sched_deadline tb <? sched_deadline ta).

(** [run_queue_[i]] *)
Definition rq_at (i : Z) : M Edf Z :=
  gets run_queue_ ≫= λ l, match l !! Z.to_nat i with Some p => mret p | None => abort OutOfBounds end.

(** [swap(run_queue_[i], run_queue_[j])]: the pointers, then the positions of
    the tasks they now point to. *)
Definition swap (i j : Z) : M Edf unit :=
  rq_at i ≫= λ p, rq_at j ≫= λ q,
  modify (λ s, set_run_queue (<[Z.to_nat j := p]> (<[Z.to_nat i := q]> (run_queue_ s))) s) ≫= λ _,
  task_at q ≫= λ t1, task_at p ≫= λ t2,
  upd_task q (set_rq_pos (rq_pos t2)) ≫= λ _,
  upd_task p (set_rq_pos (rq_pos t1)).

Definition parent_of (pos : Z) : Z := u32 (pos - 1) / 2.

(** The [do ... while] that moves the task at [pos] up. *)
Fixpoint sift_up (fuel : nat) (pos : Z) : M Edf unit :=
  match fuel with
  | O => abort OutOfFuel
  | S fuel =>
      let parent := parent_of pos in
      swap pos parent ≫= λ _,
      let pos := parent in
      if pos =? 0 then mret tt
      else
        rq_at (parent_of pos) ≫= λ a, rq_at pos ≫= λ b,
        SchedDeadlineGreater a b ≫= λ g : bool,
        if g then sift_up fuel pos else mret tt
  end.

(** The loop that moves it down. *)
Fixpoint sift_down (fuel : nat) (pos : Z) : M Edf unit :=
  match fuel with
  | O => abort OutOfFuel
  | S fuel =>
      gets run_queue_ ≫= λ l,
      let size := Z.of_nat (length l) in
      let left := u32 (u32 (pos * 2) + 1) in
      let right := u32 (u32 (pos * 2) + 2) in
      (if right <? size then rq_at left ≫= λ a, rq_at right ≫= λ b, SchedDeadlineGreater a b else mret false) ≫= λ r : bool,
      let left := if r then right else left in
      (if left <? size then rq_at pos ≫= λ a, rq_at left ≫= λ b, SchedDeadlineGreater a b else mret false) ≫= λ g : bool,
      if g then swap pos left ≫= λ _, sift_down fuel left else mret tt
  end.

(** [UpdateRunqueuePosition]; the length of the queue bounds the loops.  The
    body of [CheckRunQueue] is compiled for debugging only. *)
Definition UpdateRunqueuePosition (pos : Z) : M Edf unit :=
  gets (λ s, length (run_queue_ s)) ≫= λ size,
  (if pos =? 0 then mret false
   else rq_at (parent_of pos) ≫= λ a, rq_at pos ≫= λ b, SchedDeadlineGreater a b) ≫= λ up : bool,
  if up then sift_up size pos else sift_down size pos.

(** [Enqueue] *)
Definition E_Enqueue (p : Z) : M Edf unit :=
  task_at p ≫= λ t,
  if negb (has_work t) then upd_task p (set_run_state kPaused)
  else
    check (rq_pos t <? 0) ≫= λ _,
    upd_task p (set_run_state kQueued) ≫= λ _,
    modify (λ s, set_run_queue (run_queue_ s ++ [p]) s) ≫= λ _,
    gets (λ s, s32 (u64 (Z.of_nat (length (run_queue_ s)) - 1))) ≫= λ pos,
    upd_task p (set_rq_pos pos) ≫= λ _,
    UpdateRunqueuePosition (u32 pos).

(** [pop_back] *)
Definition pop_back : M Edf unit := modify (λ s, set_run_queue (take (length (run_queue_ s) - 1) (run_queue_ s)) s).

(** [Dequeue] *)
Definition E_Dequeue : M Edf Z :=
  gets run_queue_ ≫= λ l,
  match l with
  | [] => mret 0
  | _ :: _ =>
      let back := Z.of_nat (length l) - 1 in
      swap 0 back ≫= λ _,
      rq_at back ≫= λ p,
      task_at p ≫= λ t,
      check (has_work t) ≫= λ _,
      check (rq_pos t =? back) ≫= λ _,
      upd_task p (set_rq_pos (-1)) ≫= λ _,
      pop_back ≫= λ _,
      gets run_queue_ ≫= λ l,
      whenM (negb (bool_decide (l = []))) (UpdateRunqueuePosition 0) ≫= λ _,
      mret p
  end.

(** [Peek] *)
Definition E_Peek : M Edf Z :=
  gets run_queue_ ≫= λ l,
  match l with
  | [] => mret 0
  | p :: _ =>
      task_at p ≫= λ t, check (has_work t) ≫= λ _, check (rq_pos t =? 0) ≫= λ _, mret p
  end.

(** The checks on the position of a queued task. *)
Definition check_queued (p : Z) : M Edf EdfTask :=
  task_at p ≫= λ t,
  check (has_state kQueued t) ≫= λ _,
  check (0 <=? rq_pos t) ≫= λ _,
  gets (λ s, Z.of_nat (length (run_queue_ s))) ≫= λ size,
  check (rq_pos t <? size) ≫= λ _, mret t.

(** [RemoveFromRunqueue] *)
Definition E_RemoveFromRunqueue (p : Z) : M Edf unit :=
  check_queued p ≫= λ t,
  gets (λ s, Z.of_nat (length (run_queue_ s)) - 1) ≫= λ back,
  let pos := rq_pos t in
  let need_update := negb (pos =? back) in
  whenM need_update (swap pos back) ≫= λ _,
  task_at p ≫= λ t,
  check (rq_pos t =? back) ≫= λ _,
  upd_task p (set_rq_pos (-1)) ≫= λ _,
  pop_back ≫= λ _,
  whenM need_update (UpdateRunqueuePosition pos) ≫= λ _,
  upd_task p (set_run_state kPaused).

(** [UpdateRunqueue] *)
Definition E_UpdateRunqueue (p : Z) : M Edf unit :=
  check_queued p ≫= λ t, UpdateRunqueuePosition (rq_pos t).

(** [Yield] *)
Definition E_Yield (p : Z) : M Edf unit :=
  task_at p ≫= λ t,
  check (has_state kOnCpu t || has_state kQueued t) ≫= λ _,
  upd_task p (set_run_state kYielding) ≫= λ _,
  modify (λ s, set_yielding (yielding_tasks_ s ++ [p]) s).

(** [Unyield] *)
Definition E_Unyield (p : Z) : M Edf unit :=
  task_at p ≫= λ t,
  check (has_state kYielding t) ≫= λ _,
  gets yielding_tasks_ ≫= λ l,
  match find_first p l with
  | Some it => modify (set_yielding (delete it l)) ≫= λ _, E_Enqueue p
  | None => abort CheckFailed
  end.

(** ** The orchestrator *)

(** [work_class(wcid)] of the table. *)
Definition class_at (o : Orchestrator) (wc : Z) : outcome WorkClass :=
  if wc <? num_work_classes_ o then
    match work_classes o !! Z.to_nat wc with Some c => Ok c | None => Crash CheckFailed end
  else Crash CheckFailed.

(** [Repeating] *)
Definition Repeating (o : Orchestrator) (x : SchedParams) : outcome bool :=
  class_at o (wcid_ x) ≫= λ c, Ok (truthy (Z.land (wc_flags c) WORK_CLASS_REPEATING)).

(** [GetWorkClassPeriod] *)
Definition GetWorkClassPeriod (o : Orchestrator) (wc : Z) : outcome Z :=
  class_at o wc ≫= λ c, Ok (Nanoseconds absl (wc_period c)).

Definition stats_at (o : Orchestrator) (wc : Z) : outcome WorkClassStats :=
  if wc <? Z.of_nat (length (wc_stats_ o)) then
    match wc_stats_ o !! Z.to_nat wc with Some x => Ok x | None => Crash OutOfBounds end
  else Crash OutOfBounds.

(** [UpdateWorkClassStats] *)
Definition UpdateWorkClassStats (tg wc elapsed deadline : Z) : M Edf unit :=
  orch_at tg ≫= λ o,
  lift (stats_at o wc) ≫= λ x,
  ask (e_now env) ≫= λ now,
  put_orch tg (set_stats (<[Z.to_nat wc := mkStats (runtimes x + elapsed) (u64 (samples x + 1))
    (if deadline <? now then u64 (overshots x + 1) else overshots x)]> (wc_stats_ o)) o).

(** [EstimateRuntime] *)
Definition EstimateRuntime (o : Orchestrator) (wc : Z) : outcome Z :=
  stats_at o wc ≫= λ x,
  checkO (1 <=? samples x) ≫= λ _,
  let runtime := duration_div absl (runtimes x) (samples x) in
  Ok (if 0 <? runtime then runtime else Nanoseconds absl 1).

(** [MakeEngineRunnable] of the item [sid], whose copy is [x]. *)
Definition MakeEngineRunnable (tg sid : Z) : M Edf unit :=
  orch_at tg ≫= λ o,
  check (sid <? num_sched_items_ o) ≫= λ _,
  lift (params_at o sid) ≫= λ x,
  ask (λ n, e_item_gpid env n tg sid) ≫= λ g,
  check (g =? gpid_ x) ≫= λ _,
  lift (Repeating o x) ≫= λ rep : bool,
  check rep ≫= λ _,
  check (negb (HasWork x)) ≫= λ _,
  put_orch tg (set_cached (<[Z.to_nat sid := SetRunnable x]> (cachedsids_ o)) o) ≫= λ _,
  modify (add_event (EEvRunnable tg sid)).

(** ** Preemption by the agent *)

(** [PreemptTask]; [next] is an address or 0. *)
Definition PreemptTask (prev next : Z) : M Edf bool :=
  task_at prev ≫= λ tp,
  lift (cpu_rep (e_topo env) (cpu tp)) ≫= λ _,
  check (has_state kOnCpu tp) ≫= λ _,
  if prev =? next then mret true
  else
    (if next =? 0 then mret tt else task_at next ≫= λ tn, check (negb (has_state kOnCpu tn))) ≫= λ _,
    (if negb (next =? 0) then
       task_at next ≫= λ tn,
       modify (add_event (EEvOpen (cpu tp) (gtid tn) (seqnum tn))) ≫= λ _,
       ask (λ n, e_commit env n (cpu tp) (gtid tn))
     else
       modify (add_event (EEvUnschedule (cpu tp))) ≫= λ _,
       ask (λ n, e_commit env n (cpu tp) 0) ≫= λ ok : bool, check ok ≫= λ _, mret true) ≫= λ ok : bool,
    if negb ok then mret false
    else
      upd_cpu (cpu tp) (set_current next) ≫= λ _,
      upd_task prev (set_run_state kPaused) ≫= λ _,
      whenM (negb (next =? 0))
        (upd_task next (λ t, set_cpu (cpu tp) (set_run_state kOnCpu t)) ≫= λ _, UpdateRuntime prev) ≫= λ _,
      mret true.

(** ** The parameters of a task *)

(** The table's changes are copied into the task, and its deadline is computed
    anew.  [had] is [had_work], [x] the new parameters. *)
Definition copy_params (tg sid p : Z) (x : SchedParams) (had : bool) (old_wcid : Z) : M Edf unit :=
  upd_task p (set_work (SpItem tg sid) (HasWork x) (wcid_ x)) ≫= λ _,
  whenM had
    (UpdateRuntime p ≫= λ _,
     task_at p ≫= λ t,
     orch_at tg ≫= λ o,
     check (wcid t <? num_work_classes_ o) ≫= λ _,
     UpdateWorkClassStats tg old_wcid (elapsed_runtime t) (deadline t) ≫= λ _,
     upd_task p (λ t, set_runtimes (runtime t) 0 t)) ≫= λ _,
  orch_at tg ≫= λ o,
  lift (EstimateRuntime o (wcid_ x)) ≫= λ e,
  upd_task p (set_estimated e) ≫= λ _,
  lift (Repeating o x) ≫= λ rep : bool,
  (if rep then
     ask (e_now env) ≫= λ now, lift (GetWorkClassPeriod o (wcid_ x)) ≫= λ d, mret (time_plus absl now d)
   else mret (FromUnixNanos absl (deadline_ x))) ≫= λ d,
  upd_task p (set_deadline d) ≫= λ _,
  CalculateSchedDeadline p.

(** The change of [run_state] that follows. *)
Definition apply_params (tg sid p : Z) (x : SchedParams) (had : bool) : M Edf unit :=
  task_at p ≫= λ t,
  if has_state kBlocked t then mret tt
  else if negb had then
    check (has_state kPaused t) ≫= λ _, whenM (has_work t) (E_Enqueue p)
  else
    check (negb (has_state kPaused t)) ≫= λ _,
    orch_at tg ≫= λ o,
    if has_work t then
      whenM (has_state kQueued t)
        (lift (Repeating o x) ≫= λ rep : bool, check (negb rep) ≫= λ _, E_UpdateRunqueue p)
    else
      (if has_state kOnCpu t then PreemptTask p 0 ≫= λ ok : bool, check ok
       else if has_state kQueued t then E_RemoveFromRunqueue p
       else abort CheckFailed) ≫= λ _,
      task_at p ≫= λ t,
      check (has_state kPaused t) ≫= λ _,
      lift (Repeating o x) ≫= λ rep : bool,
      whenM rep
        (MakeEngineRunnable tg sid ≫= λ _,
         upd_task p (λ t, set_work (sp t) true (wcid t) t) ≫= λ _,
         E_Enqueue p).

(** [SchedParamsCallback] for the item [sid] of the table of [tg]. *)
Definition SchedParamsCallback (tg sid oldgtid : Z) : M Edf unit :=
  orch_at tg ≫= λ o,
  lift (params_at o sid) ≫= λ x,
  check ((oldgtid =? 0) || (oldgtid =? gpid_ x)) ≫= λ _,
  if gpid_ x =? 0 then mret tt
  else
    gets in_discovery_ ≫= λ disc : bool,
    (if disc then lift (Repeating o x) else mret false) ≫= λ rep : bool,
    whenM (rep && negb (HasWork x)) (MakeEngineRunnable tg sid) ≫= λ _,
    gets (λ s, GetTask (gpid_ x) (e_allocator s)) ≫= λ found,
    match found with
    | None => mret tt
    | Some p =>
        task_at p ≫= λ t,
        whenM (has_state kYielding t) (E_Unyield p) ≫= λ _,
        orch_at tg ≫= λ o,
        lift (params_at o sid) ≫= λ x,
        task_at p ≫= λ t,
        let had := has_work t in
        copy_params tg sid p x had (wcid t) ≫= λ _,
        apply_params tg sid p x had
    end.

(** [RefreshSchedParam] *)
Definition RefreshSchedParam (tg sid : Z) : M Edf unit :=
  orch_at tg ≫= λ o,
  check (sid <? num_sched_items_ o) ≫= λ _,
  ask (λ n, e_item env n tg sid) ≫= λ r,
  lift (class_at o (rd_class r)) ≫= λ c,
  lift (params_at o sid) ≫= λ x,
  let '(changed, x') := SeqCopyParams (rd_success r) (wc_qos c) (rd_begin r) (rd_data r) x in
  put_orch tg (set_cached (<[Z.to_nat sid := x']> (cachedsids_ o)) o) ≫= λ _,
  whenM changed (SchedParamsCallback tg sid (gpid_ x)).

(** [RefreshSchedParams] and [RefreshAllSchedParams] of an orchestrator. *)
Definition refresh_orch (tg : Z) : M Edf unit :=
  orch_at tg ≫= λ o,
  RefreshSchedParams (capacity o) (ask (λ n, e_next_index env n tg)) (num_sched_items_ o) (RefreshSchedParam tg).
Definition refresh_all_orch (tg : Z) : M Edf unit :=
  orch_at tg ≫= λ o, RefreshAllSchedParams (num_sched_items_ o) (RefreshSchedParam tg).

(** [GetSchedParams] *)
Definition GetSchedParams (tg g : Z) : M Edf unit :=
  orch_at tg ≫= λ o,
  match find_item g (cachedsids_ o) 0 with
  | Some sid => SchedParamsCallback tg sid g
  | None => mret tt
  end.

(** [UpdateSchedParams] *)
Definition UpdateSchedParams : M Edf unit := gets (λ s, e_iter env (orchs_ s)) ≫= λ tgs, forM tgs refresh_orch.

Definition E_DiscoveryStart : M Edf unit := modify (set_in_discovery true).
Definition E_DiscoveryComplete : M Edf unit :=
  gets (λ s, e_iter env (orchs_ s)) ≫= λ tgs, forM tgs refresh_all_orch ≫= λ _, modify (set_in_discovery false).

(** ** Message handlers *)

(** [cpu_state_of] *)
Definition e_cpu_of (p : Z) : M Edf Z :=
  task_at p ≫= λ t,
  check (has_state kOnCpu t) ≫= λ _,
  e_cpu (cpu t) ≫= λ k, check (current k =? p) ≫= λ _, mret (cpu t).

(** [cs = cpu_state_of(task); CHECK_EQ(cs->current, task); cs->current = nullptr;] *)
Definition clear_current (p : Z) : M Edf unit :=
  e_cpu_of p ≫= λ c, e_cpu c ≫= λ k, check (current k =? p) ≫= λ _, upd_cpu c (set_current 0).

(** [HandleNewGtid] *)
Definition HandleNewGtid (p tgid : Z) : M Edf unit :=
  check (0 <=? tgid) ≫= λ _,
  gets orchs_ ≫= λ os,
  match os !! tgid with
  | Some _ => mret tt
  | None =>
      ask (λ n, e_attach env n tgid) ≫= λ table,
      match table with
      | None => upd_task p (λ t, set_work SpDummy true (wcid t) t)
      | Some tb => put_orch tgid (Orchestrator_Init absl tb)
      end
  end.

(** [UpdateTaskRuntime] *)
Definition UpdateTaskRuntime (p new_runtime : Z) (update_elapsed_runtime : bool) : M Edf unit :=
  SetRuntime p new_runtime update_elapsed_runtime ≫= λ _,
  task_at p ≫= λ t,
  if bool_decide (sp t = SpNull) then check (negb (has_state kQueued t))
  else check (has_state kOnCpu t) ≫= λ _, CalculateSchedDeadline p.

(** [DCHECK_LE(payload->runtime, task->status_word.runtime())] *)
Definition check_runtime (p : Z) (m : Message) : M Edf unit :=
  task_at p ≫= λ t, ask (λ n, e_sw_runtime env n (gtid t)) ≫= λ r, check (msg_runtime m <=? r).

Definition E_TaskNew (p : Z) (m : Message) : M Edf unit :=
  check_runtime p m ≫= λ _,
  UpdateTaskRuntime p (Nanoseconds absl (msg_runtime m)) false ≫= λ _,
  upd_task p (λ t, set_run_state kBlocked (set_seqnum (msg_seqnum m) t)) ≫= λ _,
  ask (λ n, e_tgid env n (msg_gtid m)) ≫= λ tgid,
  HandleNewGtid p tgid ≫= λ _,
  whenM (msg_runnable m) (E_Enqueue p) ≫= λ _,
  modify (λ s, set_num_tasks (s32 (num_tasks_ s + 1)) s) ≫= λ _,
  gets in_discovery_ ≫= λ disc : bool,
  whenM (negb disc)
    (gets orchs_ ≫= λ os,
     match os !! tgid with
     | Some _ => task_at p ≫= λ t, GetSchedParams tgid (gtid t)
     | None => mret tt
     end).

Definition E_TaskRunnable (p : Z) (m : Message) : M Edf unit :=
  task_at p ≫= λ t,
  check (has_state kBlocked t) ≫= λ _,
  upd_task p (λ t, set_boost (negb (msg_deferrable m)) (preempted t) t) ≫= λ _,
  E_Enqueue p.

(** [allocator()->FreeTask(task); num_tasks_--;] *)
Definition e_free (p : Z) : M Edf unit :=
  free_task p ≫= λ _, modify (λ s, set_num_tasks (s32 (num_tasks_ s - 1)) s).

Definition E_TaskDeparted (p : Z) (m : Message) : M Edf unit :=
  task_at p ≫= λ t,
  whenM (has_state kYielding t) (E_Unyield p) ≫= λ _,
  task_at p ≫= λ t,
  (if has_state kOnCpu t then clear_current p
   else if has_state kQueued t then E_RemoveFromRunqueue p
   else check (has_state kBlocked t || has_state kPaused t)) ≫= λ _,
  e_free p.

Definition E_TaskDead (p : Z) (m : Message) : M Edf unit :=
  task_at p ≫= λ t, check (has_state kBlocked t) ≫= λ _, e_free p.

Definition E_TaskBlocked (p : Z) (m : Message) : M Edf unit :=
  check_runtime p m ≫= λ _,
  task_at p ≫= λ t,
  (if has_state kOnCpu t then
     UpdateTaskRuntime p (Nanoseconds absl (msg_runtime m)) true ≫= λ _, clear_current p
   else if has_state kQueued t then E_RemoveFromRunqueue p
   else check (has_state kPaused t)) ≫= λ _,
  upd_task p (set_run_state kBlocked).

Definition E_TaskPreempted (p : Z) (m : Message) : M Edf unit :=
  check_runtime p m ≫= λ _,
  upd_task p (set_boost true true) ≫= λ _,
  task_at p ≫= λ t,
  if has_state kOnCpu t then
    UpdateTaskRuntime p (Nanoseconds absl (msg_runtime m)) true ≫= λ _, clear_current p ≫= λ _, E_Enqueue p
  else if has_state kQueued t then E_UpdateRunqueue p
  else check (has_state kPaused t).

Definition E_TaskYield (p : Z) (m : Message) : M Edf unit :=
  check_runtime p m ≫= λ _,
  task_at p ≫= λ t,
  if has_state kOnCpu t then
    UpdateTaskRuntime p (Nanoseconds absl (msg_runtime m)) true ≫= λ _, clear_current p ≫= λ _, E_Yield p
  else check (has_state kQueued t || has_state kPaused t).

Definition e_nop : M Edf unit := mret tt.

(** ** The scheduling pass *)

(** [Available] *)
Definition E_Available (c : Z) : M Edf bool :=
  e_cpu c ≫= λ k, if agent k then ask (λ n, e_avail env n c) else abort UseAfterFree.

(** From the label [again] on: a task for the CPU, or that the loop over the
    CPUs goes on or ends. *)
Inductive Choice := Chosen (p : Z) | Skip | Stop.

Fixpoint choose (fuel : nat) (c : Z) : M Edf Choice :=
  match fuel with
  | O => abort OutOfFuel
  | S fuel =>
      e_cpu c ≫= λ k,
      (if current k =? 0 then mret false
       else
         E_Peek ≫= λ peek,
         if peek =? 0 then mret false
         else GetQoS peek ≫= λ qp, GetQoS (current k) ≫= λ qc, mret (qp <=? qc)) ≫= λ keep : bool,
      if keep then mret Skip
      else
        E_Dequeue ≫= λ to_run,
        if to_run =? 0 then mret Stop
        else
          task_at to_run ≫= λ t,
          ask (λ n, e_on_cpu env n (gtid t)) ≫= λ on_cpu : bool,
          if on_cpu then E_Yield to_run ≫= λ _, choose fuel c
          else mret (Chosen to_run)
  end.

(** The loop over [cpus()]; every round of [choose] dequeues a task. *)
Fixpoint choose_loop (cs : list Z) (updated_cpus : CpuList) : M Edf CpuList :=
  match cs with
  | [] => mret updated_cpus
  | c :: cs =>
      E_Available c ≫= λ a : bool,
      gets global_cpu_ ≫= λ g,
      if negb a || (c =? g) then choose_loop cs updated_cpus
      else
        gets (λ s, S (length (run_queue_ s))) ≫= λ fuel,
        choose fuel c ≫= λ r,
        match r with
        | Stop => mret updated_cpus
        | Skip => choose_loop cs updated_cpus
        | Chosen p =>
            upd_cpu c (set_next p) ≫= λ _,
            lift (CpuList_Set c updated_cpus) ≫= λ updated_cpus,
            choose_loop cs updated_cpus
        end
  end.

(** The body of the loop over [updated_cpus], with [in_sync]. *)
Definition latch_one (in_sync : bool) (c : Z) : M Edf bool :=
  e_cpu c ≫= λ k,
  let next := next k in
  upd_cpu c (set_next 0) ≫= λ _,
  if current k =? next then mret in_sync
  else
    (if in_sync then
       if negb (next =? 0) then
         if negb (current k =? 0) then
           PreemptTask (current k) next ≫= λ ok : bool,
           whenM ok (E_Enqueue (current k)) ≫= λ _, mret ok
         else
           task_at next ≫= λ tn,
           modify (add_event (EEvOpen c (gtid tn) (seqnum tn))) ≫= λ _,
           ask (λ n, e_commit env n c (gtid tn))
       else
         modify (add_event (EEvUnschedule c)) ≫= λ _, ask (λ n, e_commit env n c 0)
     else mret false) ≫= λ in_sync : bool,
    whenM (negb (next =? 0))
      (if negb in_sync then E_Enqueue next
       else
         upd_cpu c (set_current next) ≫= λ _,
         upd_task next (λ t, set_boost false false (set_cpu c (set_run_state kOnCpu t)))) ≫= λ _,
    mret in_sync.

Fixpoint latch_loop (in_sync : bool) (cs : list Z) : M Edf unit :=
  match cs with
  | [] => mret tt
  | c :: cs => latch_one in_sync c ≫= λ in_sync, latch_loop in_sync cs
  end.

Definition unyield_one (p : Z) : M Edf unit :=
  task_at p ≫= λ t, check (has_state kYielding t) ≫= λ _, E_Enqueue p.

(** [GlobalSchedule] *)
Definition E_GlobalSchedule : M Edf unit :=
  lift (EmptyCpuList (num_cpus_ (e_topo env))) ≫= λ updated_cpus,
  lift (iterate (e_enclave env)) ≫= λ cs,
  choose_loop cs updated_cpus ≫= λ updated_cpus,
  lift (iterate updated_cpus) ≫= λ us,
  latch_loop true us ≫= λ _,
  gets yielding_tasks_ ≫= λ yielding,
  match yielding with
  | [] => mret tt
  | _ => forM yielding unyield_one ≫= λ _, modify (set_yielding [])
  end.

(** [PickNextGlobalCPU] *)
Fixpoint pick_next_loop (cs : list Z) : M Edf unit :=
  match cs with
  | [] => mret tt
  | c :: cs =>
      E_Available c ≫= λ a : bool,
      gets global_cpu_ ≫= λ g,
      if a && negb (c =? g) then
        e_cpu c ≫= λ k,
        whenM (negb (current k =? 0)) (task_at (current k) ≫= λ prev, check (has_state kOnCpu prev)) ≫= λ _,
        modify (set_global_cpu c) ≫= λ _,
        if e_get_agent env c then modify (add_event (EEvPing c)) else abort UseAfterFree
      else pick_next_loop cs
  end.

Definition E_PickNextGlobalCPU : M Edf unit := lift (iterate (e_enclave env)) ≫= pick_next_loop.

(** ** The agent *)

#[local] Instance Edf_ops : SchedOps Edf EdfTask := {
  malloc := λ s, e_malloc env (e_allocator s);
  TaskNew := E_TaskNew;
  TaskRunnable := E_TaskRunnable;
  TaskDead := E_TaskDead;
  TaskDeparted := E_TaskDeparted;
  TaskYield := E_TaskYield;
  TaskBlocked := E_TaskBlocked;
  TaskPreempted := E_TaskPreempted;
  TaskSwitchto := λ _ _, e_nop;
  TaskAffinityChanged := λ _ _, e_nop;
  TaskPriorityChanged := λ _ _, e_nop;
  TaskOnCpu := λ _ _, e_nop;
  CpuTick := λ _, e_nop;
  CpuNotIdle := λ _, e_nop;
  CpuTimerExpired := λ _, e_nop;
  CpuAvailable := λ _, e_nop;
  CpuBusy := λ _, e_nop;
  AgentBlocked := λ _, e_nop;
  AgentWakeup := λ _, e_nop
}.

(** One turn of the loop of [AgentThread] on the agent of [c]: [msgs] are the
    messages it finds in the channel. *)
Definition E_AgentThread (c : Z) (boosted_priority : bool) (msgs : list Message) : M Edf unit :=
  gets global_cpu_ ≫= λ g,
  if negb (c =? g) then modify (add_event (EEvYield c))
  else if boosted_priority then E_PickNextGlobalCPU
  else
    forM msgs (@DispatchMessage Edf EdfTask _ _ Edf_ops) ≫= λ _,
    UpdateSchedParams ≫= λ _,
    E_GlobalSchedule.

(** The constructor, less the loading of its BPF programs, then
    [EnclaveReady]. *)
Definition Edf_new (global_cpu : Z) : outcome Edf :=
  CpuList_IsSet (u32 global_cpu) (e_enclave env) ≫= λ set,
  (if (set : bool) then Ok global_cpu
   else Front (e_enclave env) ≫= λ c, match c with Some c => Ok c | None => Crash CheckFailed end) ≫= λ g,
  Ok (mkEdf (mkAllocator ∅ ∅) (λ _, mkEdfCpu 0 0 false) g 0 false [] [] ∅ 0 []).

Definition E_EnclaveReady : M Edf unit :=
  lift (iterate (e_enclave env)) ≫= λ cs,
  forM cs (λ c, upd_cpu c (set_agent (e_get_agent env c)) ≫= λ _, check (e_get_agent env c)).

Definition E_Empty (s : Edf) : bool := num_tasks_ s =? 0.
End edf.
