(* ===== verification/EdfHeap.v ===== *)
(** * EdfHeap: the run queue of the EDF agent is a heap

    Binary heaps in a list, with the order of the tasks as a parameter; then
    the sifting loops of the agent: they permute the queue, restore the order
    of a queue that is out of order at one position, and leave in each task the
    position that it has. *)

From S2P Require Import Prelude Outcome Dispatch Placement PrioTable Edf.
From stdpp Require Import gmap functions sorting.
From Stdlib Require Import ZArith Lia.

Local Open Scope Z_scope.

(** ** Positions *)

Definition par (i : nat) : nat := Nat.div2 (i - 1).

Lemma par_spec i : (i = 0 ∧ par i = 0 ∨ i = 2 * par i + 1 ∨ i = 2 * par i + 2)%nat.
Proof.
  unfold par. destruct i as [|i]; [by left|]. right. replace (S i - 1)%nat with i by lia.
  pose proof (Nat.div2_odd i) as H. destruct (Nat.odd i); simpl in H; lia.
Qed.

Lemma par_child i c : (0 < c)%nat → par c = i ↔ (c = 2 * i + 1 ∨ c = 2 * i + 2)%nat.
Proof. intros Hc. pose proof (par_spec c). split; [intros <-; lia|]. pose proof (par_spec c). lia. Qed.

Lemma par_lt i : (0 < i)%nat → (par i < i)%nat.
Proof. pose proof (par_spec i). lia. Qed.

Lemma parent_of_spec (i : nat) : (0 < i)%nat → Z.of_nat i < 2 ^ 31 → parent_of (Z.of_nat i) = Z.of_nat (par i).
Proof.
  intros Hi Hs. unfold parent_of. rewrite u32_small by lia. pose proof (par_spec i) as Hp.
  Z.to_euclidean_division_equations. lia.
Qed.

Definition swapl (i j : nat) (l : list Z) : list Z :=
  match l !! i, l !! j with Some p, Some q => <[j := p]> (<[i := q]> l) | _, _ => l end.

Lemma swapl_lookup i j l p q k :
  l !! i = Some p → l !! j = Some q →
  swapl i j l !! k = if decide (k = j) then Some p else if decide (k = i) then Some q else l !! k.
Proof.
  intros Hi Hj. unfold swapl. rewrite Hi, Hj. destruct (decide (k = j)) as [->|Hkj].
  - apply list_lookup_insert_eq. rewrite length_insert. by eapply lookup_lt_Some.
  - rewrite list_lookup_insert_ne by done. destruct (decide (k = i)) as [->|Hki].
    + apply list_lookup_insert_eq. by eapply lookup_lt_Some.
    + by apply list_lookup_insert_ne.
Qed.

Lemma swapl_perm i j l : swapl i j l ≡ₚ l.
Proof.
  unfold swapl. destruct (l !! i) as [p|] eqn:Hi; [|done]. destruct (l !! j) as [q|] eqn:Hj; [|done].
  by apply Permutation_insert_swap.
Qed.

(** ** Heap order *)

Section heap.
Context (gt : Z → Z → bool).
Context (gt_trans : ∀ a b c, gt a b = false → gt b c = false → gt a c = false).
Context (gt_total : ∀ a b, gt a b = true → gt b a = false).

(** The element at [c] is not before that at [i]. *)
Definition le_at (l : list Z) (i c : nat) : Prop := ∀ p q, l !! i = Some p → l !! c = Some q → gt p q = false.

Definition ordered (l : list Z) : Prop := ∀ c, (0 < c)%nat → le_at l (par c) c.

(** Out of order at [pos] only, in either direction; only towards its parent;
    only towards its children. *)
Definition broken_at (l : list Z) (pos : nat) : Prop :=
  (∀ c, (0 < c)%nat → c ≠ pos → par c ≠ pos → le_at l (par c) c) ∧
  (∀ c, (0 < c)%nat → (0 < pos)%nat → par c = pos → le_at l (par pos) c).
Definition up_inv (l : list Z) (pos : nat) : Prop :=
  (∀ c, (0 < c)%nat → c ≠ pos → le_at l (par c) c) ∧
  (∀ c, (0 < c)%nat → (0 < pos)%nat → par c = pos → le_at l (par pos) c).
Definition down_inv (l : list Z) (pos : nat) : Prop :=
  (∀ c, (0 < c)%nat → par c ≠ pos → le_at l (par c) c) ∧
  (∀ c, (0 < c)%nat → (0 < pos)%nat → par c = pos → le_at l (par pos) c).

Lemma ordered_up l pos : up_inv l pos → ((0 < pos)%nat → le_at l (par pos) pos) → ordered l.
Proof. intros [H _] Hp c Hc. destruct (decide (c = pos)) as [->|]; [by apply Hp|by apply H]. Qed.

Lemma ordered_down l pos : down_inv l pos → (∀ c, (0 < c)%nat → par c = pos → le_at l pos c) → ordered l.
Proof. intros [H _] Hp c Hc. destruct (decide (par c = pos)) as [E|]; [rewrite E; by apply Hp|by apply H]. Qed.

(** Too early for its parent: everything below is fine. *)
Lemma broken_up l pos p q :
  broken_at l pos → l !! par pos = Some p → l !! pos = Some q → (0 < pos)%nat → gt p q = true → up_inv l pos.
Proof using gt_trans gt_total.
  intros [H1 H2] Hp Hq Hpos Hg. split; [|done]. intros c Hc Hne. destruct (decide (par c = pos)) as [E|E]; [|by apply H1].
  rewrite E. intros a b Ha Hb. assert (a = q) as -> by congruence.
  apply (gt_trans q p b); [by apply gt_total|by apply (H2 c Hc Hpos E p b)].
Qed.

Lemma broken_down l pos : broken_at l pos → ((0 < pos)%nat → le_at l (par pos) pos) → down_inv l pos.
Proof. intros [H1 H2] Hp. split; [|done]. intros c Hc Hne. destruct (decide (c = pos)) as [->|]; [by apply Hp|by apply H1]. Qed.

(** Moving up by one. *)
Lemma swap_up l pos p q :
  up_inv l pos → l !! par pos = Some p → l !! pos = Some q → (0 < pos)%nat → gt p q = true →
  up_inv (swapl pos (par pos) l) (par pos).
Proof using gt_trans gt_total.
  intros [H1 H2] Hp Hq Hpos Hg. pose proof (par_lt pos Hpos) as Hlt.
  pose proof (λ k, swapl_lookup pos (par pos) l q p k Hq Hp) as Hs. split.
  - intros c Hc Hne a b Ha Hb. rewrite Hs in Ha, Hb. rewrite (decide_False (P := c = par pos)) in Hb by done.
    destruct (decide (c = pos)) as [->|Hcp].
    + rewrite decide_True in Ha by done. injection Ha as <-. injection Hb as <-. by apply gt_total.
    + destruct (decide (par c = par pos)) as [E|E].
      * injection Ha as <-. apply (gt_trans q p b); [by apply gt_total|]. apply (H1 c Hc Hcp p b); [by rewrite E|done].
      * destruct (decide (par c = pos)) as [E'|E'].
        -- injection Ha as <-. by apply (H2 c Hc Hpos E' p b).
        -- by apply (H1 c Hc Hcp a b).
  - intros c Hc Hpp E a b Ha Hb. rewrite Hs in Ha, Hb. pose proof (par_lt (par pos) Hpp).
    rewrite !decide_False in Ha by lia.
    assert (gt a p = false) as Hap by (apply (H1 (par pos)); [lia|lia|done|done]).
    destruct (decide (c = par pos)) as [->|Hcp']; [pose proof (par_lt (par pos)); lia|].
    destruct (decide (c = pos)) as [->|Hcp]; [by injection Hb as <-|].
    apply (gt_trans a p b); [done|]. apply (H1 c Hc Hcp p b); [by rewrite E|done].
Qed.

(** Moving down by one, to the child [ch] that is not after the other. *)
Lemma swap_down l pos ch p q :
  down_inv l pos → l !! pos = Some p → l !! ch = Some q → (0 < ch)%nat → par ch = pos →
  (∀ c, (0 < c)%nat → par c = pos → le_at l ch c) → gt p q = true → down_inv (swapl pos ch l) ch.
Proof using gt_trans gt_total.
  intros [H1 H2] Hp Hq Hch Epar Hmin Hg. pose proof (par_lt ch Hch) as Hlt.
  pose proof (λ k, swapl_lookup pos ch l p q k Hp Hq) as Hs. split.
  - intros c Hc Hne a b Ha Hb. rewrite Hs in Ha, Hb. rewrite (decide_False (P := par c = ch)) in Ha by done.
    destruct (decide (c = ch)) as [->|Hcc].
    + rewrite Epar, decide_True in Ha by done. injection Ha as <-. injection Hb as <-. by apply gt_total.
    + destruct (decide (par c = pos)) as [E|E].
      * rewrite decide_False in Hb by (intros ->; pose proof (par_lt pos Hc); lia). injection Ha as <-. by apply (Hmin c Hc E q b).
      * destruct (decide (c = pos)) as [->|Hcp].
        -- injection Hb as <-. by apply (H2 ch Hch Hc Epar a q).
        -- by apply (H1 c Hc E a b).
  - intros c Hc _ E a b Ha Hb. rewrite Hs in Ha, Hb. rewrite Epar in Ha. rewrite decide_False in Ha by lia. rewrite decide_True in Ha by done.
    pose proof (par_lt c Hc) as Hlc. rewrite !decide_False in Hb by lia. injection Ha as <-.
    apply (H1 c Hc); [rewrite E; lia|by rewrite E|done].
Qed.

Lemma ordered_broken l pos : ordered l → broken_at l pos.
Proof using gt_trans.
  intros H. split; [by auto|]. intros c Hc Hp E a b Ha Hb.
  destruct (lookup_lt_is_Some_2 l pos) as [x Hx].
  { pose proof (par_lt c Hc). apply lookup_lt_Some in Hb. lia. }
  apply (gt_trans a x b); [by apply (H pos Hp)|]. apply (H c Hc); [by rewrite E|done].
Qed.

(** The order does not depend on what is at [pos]. *)
Lemma broken_insert l pos x : broken_at l pos → broken_at (<[pos := x]> l) pos.
Proof.
  intros [H1 H2]. split.
  - intros c Hc Hne Hpe a b. rewrite !list_lookup_insert_ne by done. by apply H1.
  - intros c Hc Hpos E a b. pose proof (par_lt c Hc). pose proof (par_lt pos Hpos). rewrite !list_lookup_insert_ne by lia. by apply H2.
Qed.

Lemma ordered_prefix l k : ordered (l ++ k) → ordered l.
Proof. intros H c Hc a b Ha Hb. apply (H c Hc); by apply lookup_app_l_Some. Qed.

Lemma broken_prefix l k pos : broken_at (l ++ k) pos → broken_at l pos.
Proof.
  intros [H1 H2]. split.
  - intros c Hc Hne Hpe a b Ha Hb. apply (H1 c Hc Hne Hpe); by apply lookup_app_l_Some.
  - intros c Hc Hpos E a b Ha Hb. apply (H2 c Hc Hpos E); by apply lookup_app_l_Some.
Qed.

(** A new last element. *)
Lemma broken_snoc l x : ordered l → broken_at (l ++ [x]) (length l).
Proof.
  intros H. split.
  - intros c Hc Hne Hpe a b Ha Hb. pose proof (lookup_lt_Some _ _ _ Hb) as Hl. rewrite length_app in Hl. simpl in Hl.
    pose proof (par_lt c Hc). rewrite lookup_app_l in Ha, Hb by lia. by apply (H c Hc).
  - intros c Hc _ E a b Ha Hb. apply lookup_lt_Some in Hb. rewrite length_app in Hb. simpl in Hb. pose proof (par_lt c Hc). lia.
Qed.

(** The first element is not after any other. *)
Lemma ordered_min l p q i : ordered l → l !! 0%nat = Some p → l !! i = Some q → (0 < i)%nat → gt p q = false.
Proof using gt_trans.
  intros H Hp. revert q. induction (lt_wf i) as [i _ IH]. intros q Hq Hi. pose proof (par_lt i Hi) as Hlt.
  destruct (lookup_lt_is_Some_2 l (par i)) as [x Hx]; [apply lookup_lt_Some in Hq; lia|].
  pose proof (H i Hi x q Hx Hq) as Hxq. destruct (decide (par i = 0%nat)) as [E|E]; [rewrite E in Hx; by simplify_eq|].
  apply (gt_trans p x q); [|done]. by apply (IH (par i)); [|done|lia].
Qed.
End heap.

Lemma le_at_ext gt gt' l : (∀ p q, p ∈ l → q ∈ l → gt' p q = gt p q) → ∀ i c, le_at gt l i c → le_at gt' l i c.
Proof. intros E i c H p q Hp Hq. rewrite E; [by apply H|by eapply list_elem_of_lookup_2..]. Qed.

Lemma broken_ext gt gt' l pos :
  (∀ i j p q, i ≠ pos → j ≠ pos → l !! i = Some p → l !! j = Some q → gt' p q = gt p q) → broken_at gt l pos → broken_at gt' l pos.
Proof.
  intros E [H1 H2]. split.
  - intros c Hc Hne Hpe a b Ha Hb. rewrite (E (par c) c) by done. by apply (H1 c).
  - intros c Hc Hpos Ec a b Ha Hb. pose proof (par_lt c Hc). pose proof (par_lt pos Hpos).
    rewrite (E (par pos) c); [by apply (H2 c)|lia|lia|done|done].
Qed.

(** Without its last element, which may have been out of order. *)
Lemma ordered_pop gt l pos : broken_at gt l pos → S pos = length l → ordered gt (take pos l).
Proof.
  intros [H _] Hl c Hc a b Ha Hb. pose proof (lookup_lt_Some _ _ _ Hb) as Hlt. rewrite length_take in Hlt.
  pose proof (par_lt c Hc). rewrite lookup_take_lt in Ha, Hb by lia. by apply (H c Hc); [lia|lia|..].
Qed.

(** An element is replaced by the last one, which is taken out. *)
Lemma broken_pop gt l pos last p :
  broken_at gt l pos → (pos < last)%nat → S last = length l → l !! pos = Some p →
  broken_at gt (take last (swapl pos last l)) pos ∧ Permutation (p :: take last (swapl pos last l)) l.
Proof.
  intros Hb Hlt El Hp. destruct (lookup_lt_is_Some_2 l last) as [x Hx]; [lia|].
  assert (take last (swapl pos last l) = take last (<[pos := x]> l)) as E.
  { unfold swapl. rewrite Hp, Hx. apply take_insert_ge. lia. }
  assert (swapl pos last l = take last (swapl pos last l) ++ [p]) as Es.
  { rewrite <- (take_drop last (swapl pos last l)) at 1. f_equal.
    pose proof (swapl_lookup pos last l p x last Hp Hx) as Hl. rewrite decide_True in Hl by done.
    rewrite (drop_S _ p last Hl). f_equal. apply drop_ge.
    assert (length (swapl pos last l) = length l) as -> by (apply Permutation_length, swapl_perm). lia. }
  split.
  - rewrite E. apply (broken_prefix gt _ (drop last (<[pos := x]> l))). rewrite take_drop. by apply broken_insert.
  - rewrite <- (swapl_perm pos last l) at 2. rewrite Es at 2. by rewrite Permutation_app_comm.
Qed.

Lemma ordered_ext gt gt' l : (∀ p q, p ∈ l → q ∈ l → gt' p q = gt p q) → ordered gt l → ordered gt' l.
Proof. intros E H c Hc. eapply le_at_ext; [done|by apply H]. Qed.

(** ** The order of the tasks *)

Notation Key := (bool * Z * Z)%type.

(** [SchedDeadlineGreater] on the values that it compares. *)
Definition greater_key (a b : Key) : bool :=
  let '(ba, qa, da) := a in
  let '(bb, qb, db) := b in
  if negb (eqb ba bb) then bb else if negb (qa =? qb) then qa <? qb else db <? da.

Lemma greater_key_trans a b c : greater_key a b = false → greater_key b c = false → greater_key a c = false.
Proof.
  destruct a as [[[] qa] da], b as [[[] qb] db], c as [[[] qc] dc]; simpl; try done.
  all: repeat zcase; simpl; lia || congruence.
Qed.

Lemma greater_key_total a b : greater_key a b = true → greater_key b a = false.
Proof. destruct a as [[[] qa] da], b as [[[] qb] db]; simpl; try done. all: repeat zcase; simpl; lia || congruence. Qed.

(** What a pointer to parameters points to. *)
Definition params_of (s : Edf) (r : SpRef) : option SchedParams :=
  match r with
  | SpNull => None
  | SpDummy => Some zero_params
  | SpItem tg sid => o ← orchs_ s !! tg; cachedsids_ o !! Z.to_nat sid
  end.

Definition task_key (s : Edf) (t : EdfTask) : Key :=
  (prio_boost t, match params_of s (sp t) with Some x => qos_ x | None => 0 end, sched_deadline t).

Definition key (s : Edf) (p : Z) : Key :=
  match heap (e_allocator s) !! p with Some t => task_key s t | None => (false, 0, 0) end.

Definition edf_gt (s : Edf) (p q : Z) : bool := greater_key (key s p) (key s q).

(** A task that can be compared. *)
Definition comparable (s : Edf) (p : Z) : Prop :=
  ∃ t x, heap (e_allocator s) !! p = Some t ∧ params_of s (sp t) = Some x.

Lemma edf_gt_trans s a b c : edf_gt s a b = false → edf_gt s b c = false → edf_gt s a c = false.
Proof. apply greater_key_trans. Qed.

Lemma edf_gt_total s a b : edf_gt s a b = true → edf_gt s b a = false.
Proof. apply greater_key_total. Qed.

Lemma wp_sp_at s r x (Q : SchedParams → Edf → Prop) : params_of s r = Some x → Q x s → wp (sp_at r) s Q.
Proof.
  intros E HQ. destruct r as [| |tg sid]; simpl in *; [done|injection E as <-; by wpstep|].
  destruct (orchs_ s !! tg) as [o|] eqn:Eo; [|done]. simpl in E. wpstep. unfold orch_at. wpstep. wpstep. rewrite Eo. wpstep.
  wpstep. unfold params_at. by rewrite E.
Qed.

Lemma wp_GetQoS s p t x (Q : Z → Edf → Prop) :
  heap (e_allocator s) !! p = Some t → params_of s (sp t) = Some x → Q (qos_ x) s → wp (GetQoS p) s Q.
Proof.
  intros Hp Hx HQ. unfold GetQoS. wpstep. eapply wp_task; [exact Hp|]. wpstep. eapply wp_sp_at; [exact Hx|]. by wpstep.
Qed.

Lemma wp_greater s a b (Q : bool → Edf → Prop) :
  comparable s a → comparable s b → Q (edf_gt s a b) s → wp (SchedDeadlineGreater a b) s Q.
Proof.
  intros (ta & xa & Ha & Exa) (tb & xb & Hb & Exb) HQ. unfold SchedDeadlineGreater.
  unfold edf_gt, key in HQ. rewrite Ha, Hb in HQ. unfold task_key in HQ. rewrite Exa, Exb in HQ. simpl in HQ.
  wpstep. eapply wp_task; [exact Ha|]. wpstep. eapply wp_task; [exact Hb|].
  destruct (negb (eqb _ _)); [by wpstep|]. wpstep. eapply wp_GetQoS; [exact Ha|exact Exa|]. wpstep.
  eapply wp_GetQoS; [exact Hb|exact Exb|]. by destruct (negb (_ =? _)); wpstep.
Qed.

(** ** The queue and the positions *)

(** [l] is the queue and its tasks have the positions they are at. *)
Definition repos (l : list Z) (h : gmap Z EdfTask) : gmap Z EdfTask :=
  map_imap (λ p t, Some (match find_first p l with Some i => set_rq_pos (Z.of_nat i) t | None => t end)) h.

Definition put_queue (l : list Z) (s : Edf) : Edf :=
  set_run_queue l (set_e_allocator (mkAllocator (task_map_ (e_allocator s)) (repos l (heap (e_allocator s)))) s).

Definition put_task (p : Z) (t : EdfTask) (s : Edf) : Edf := set_e_allocator (put_obj p t (e_allocator s)) s.

Lemma lookup_repos l h p :
  repos l h !! p = (λ t, match find_first p l with Some i => set_rq_pos (Z.of_nat i) t | None => t end) <$> h !! p.
Proof. unfold repos. rewrite map_lookup_imap. by destruct (h !! p). Qed.

Lemma find_first_lookup p l i : NoDup l → find_first p l = Some i ↔ l !! i = Some p.
Proof.
  revert i. induction l as [|q l IH]; intros i Hnd; [done|]. apply NoDup_cons in Hnd as [Hnin Hnd]. simpl.
  destruct (Z.eqb_spec q p) as [->|Hne].
  - destruct i as [|i]; [done|]. simpl. split; [done|]. intros Hi. exfalso. apply Hnin. by eapply list_elem_of_lookup_2.
  - destruct i as [|i]; simpl; [split; [|congruence]; destruct (find_first p l); done|].
    rewrite <- (IH i Hnd). destruct (find_first p l) as [j|]; simpl; naive_solver.
Qed.

Lemma find_first_None p l : find_first p l = None ↔ p ∉ l.
Proof.
  split.
  - intros E Hin. destruct (find_first_spec p l Hin) as (i & Hi & _). congruence.
  - intros Hnin. destruct (find_first p l) as [i|] eqn:E; [|done]. exfalso. apply Hnin. clear Hnin.
    revert i E. induction l as [|q l IH]; intros i E; [done|]. simpl in E. destruct (Z.eqb_spec q p) as [->|]; [by left|].
    right. destruct (find_first p l) as [j|]; [by eapply IH|done].
Qed.

Lemma params_of_queue l s r : params_of (put_queue l s) r = params_of s r.
Proof. by destruct r. Qed.

Lemma key_queue l s p : key (put_queue l s) p = key s p.
Proof.
  unfold key. simpl. rewrite lookup_repos. destruct (heap (e_allocator s) !! p) as [t|]; [|done]. simpl.
  unfold task_key. destruct (find_first p l); simpl; by rewrite params_of_queue.
Qed.

Lemma gt_queue l s p q : edf_gt (put_queue l s) p q = edf_gt s p q.
Proof. unfold edf_gt. by rewrite !key_queue. Qed.

Lemma comparable_queue l s p : comparable s p → comparable (put_queue l s) p.
Proof.
  intros (t & x & Hp & Hx). unfold comparable. simpl. rewrite lookup_repos, Hp. simpl.
  eexists _, x. split; [done|]. rewrite params_of_queue. by destruct (find_first p l).
Qed.

(** A task of the queue, with its position. *)
Lemma queue_at l s p i t :
  NoDup l → l !! i = Some p → heap (e_allocator s) !! p = Some t →
  heap (e_allocator (put_queue l s)) !! p = Some (set_rq_pos (Z.of_nat i) t).
Proof. intros Hnd Hi Hp. simpl. rewrite lookup_repos, Hp. simpl. by rewrite (proj2 (find_first_lookup p l i Hnd) Hi). Qed.

Lemma wp_rq_at s i p (Q : Z → Edf → Prop) : run_queue_ s !! i = Some p → Q p s → wp (rq_at (Z.of_nat i)) s Q.
Proof. intros Hi HQ. unfold rq_at. wpstep. wpstep. rewrite Nat2Z.id, Hi. by wpstep. Qed.

Lemma put_queue_eq l l' s s' :
  s' = set_run_queue l' (set_e_allocator (e_allocator s') (put_queue l s)) →
  task_map_ (e_allocator s') = task_map_ (e_allocator s) → heap (e_allocator s') = repos l' (heap (e_allocator s)) →
  s' = put_queue l' s.
Proof. intros -> Em Eh. unfold put_queue in *. simpl in *. rewrite <- Em, <- Eh. by destruct (e_allocator s'). Qed.

Lemma wp_swap i j l s p q (Q : unit → Edf → Prop) :
  NoDup l → l !! i = Some p → l !! j = Some q → comparable s p → comparable s q →
  Q tt (put_queue (swapl i j l) s) → wp (swap (Z.of_nat i) (Z.of_nat j)) (put_queue l s) Q.
Proof.
  intros Hnd Hi Hj (tp & xp & Hp & _) (tq & xq & Hq & _) HQ. unfold swap.
  wpstep. eapply wp_rq_at; [exact Hi|]. wpstep. eapply wp_rq_at; [exact Hj|]. wpstep. wpstep. rewrite !Nat2Z.id.
  assert (<[j:=p]> (<[i:=q]> (run_queue_ (put_queue l s))) = swapl i j l) as -> by (unfold swapl; by rewrite Hi, Hj).
  pose proof (queue_at l s p i tp Hnd Hi Hp) as Hp1. pose proof (queue_at l s q j tq Hnd Hj Hq) as Hq1.
  wpstep. eapply wp_task; [exact Hq1|]. wpstep. eapply wp_task; [exact Hp1|].
  assert (NoDup (swapl i j l)) as Hnd' by by rewrite swapl_perm.
  assert (∀ r k, r ≠ p → r ≠ q → swapl i j l !! k = Some r ↔ l !! k = Some r) as Hother.
  { intros r k Hrp Hrq. rewrite (swapl_lookup i j l p q) by done. destruct (decide (k = j)) as [->|]; [naive_solver|].
    destruct (decide (k = i)) as [->|]; naive_solver. }
  assert (∀ r, r ≠ p → r ≠ q → find_first r (swapl i j l) = find_first r l) as Hfind.
  { intros r Hrp Hrq. apply option_eq. intros k. by rewrite !find_first_lookup, Hother. }
  assert (find_first p (swapl i j l) = Some j) as Hfp.
  { apply find_first_lookup; [done|]. rewrite (swapl_lookup i j l p q) by done. by rewrite decide_True. }
  wpstep. eapply wp_upd; [exact Hq1|]. destruct (decide (q = p)) as [->|Hne].
  - assert (i = j) as <- by by apply (NoDup_lookup l i j p). assert (tq = tp) as -> by congruence.
    eapply wp_upd; [by apply lookup_insert_eq|].
    erewrite (put_queue_eq l (swapl i i l) s); [exact HQ|done|done|]. simpl. apply map_eq. intros r.
    rewrite lookup_repos. destruct (decide (p = r)) as [<-|Hr].
    + rewrite lookup_insert_eq, Hp, Hfp. done.
    + rewrite !lookup_insert_ne, lookup_repos, Hfind by done. done.
  - assert (find_first q (swapl i j l) = Some i) as Hfq.
    { apply find_first_lookup; [done|]. rewrite (swapl_lookup i j l p q) by done.
      destruct (decide (i = j)) as [->|]; [congruence|by rewrite decide_True]. }
    eapply wp_upd; [simpl; rewrite lookup_insert_ne by done; exact Hp1|].
    erewrite (put_queue_eq l (swapl i j l) s); [exact HQ|done|done|]. simpl. apply map_eq. intros r.
    rewrite lookup_repos. destruct (decide (p = r)) as [<-|Hr].
    + rewrite lookup_insert_eq, Hp, Hfp. done.
    + rewrite lookup_insert_ne by done. destruct (decide (q = r)) as [<-|Hr'].
      * rewrite lookup_insert_eq, Hq, Hfq. done.
      * rewrite lookup_insert_ne, lookup_repos, Hfind by done. done.
Qed.

(** ** The loops *)

Section sift.
(** [o]: the order is known. *)
Context (o : Prop) (s : Edf) (l0 : list Z).
Context (Hnd : NoDup l0) (Hlen : Z.of_nat (length l0) < 2 ^ 31) (Hcmp : ∀ p, p ∈ l0 → comparable s p).

Notation gt := (edf_gt s).

Lemma perm_length l : l ≡ₚ l0 → Z.of_nat (length l) < 2 ^ 31.
Proof using Hlen. by intros ->. Qed.

Lemma perm_comparable l p i : l ≡ₚ l0 → l !! i = Some p → comparable s p.
Proof using Hcmp. intros E Hi. apply Hcmp. rewrite <- E. by eapply list_elem_of_lookup_2. Qed.

Lemma perm_nodup l : l ≡ₚ l0 → NoDup l.
Proof using Hnd. by intros ->. Qed.

(** A comparison of two positions, alone or with what follows. *)
Lemma wp_compare_k {A} i j l p q (k : bool → M Edf A) (Q : A → Edf → Prop) :
  l ≡ₚ l0 → l !! i = Some p → l !! j = Some q → wp (k (gt p q)) (put_queue l s) Q →
  wp (rq_at (Z.of_nat i) ≫= λ a, rq_at (Z.of_nat j) ≫= λ b, SchedDeadlineGreater a b ≫= k) (put_queue l s) Q.
Proof using Hcmp.
  intros E Hi Hj HQ. wpstep. eapply wp_rq_at; [exact Hi|]. wpstep. eapply wp_rq_at; [exact Hj|]. wpstep.
  apply wp_greater; [apply comparable_queue; by eapply perm_comparable..|]. by rewrite gt_queue.
Qed.

Lemma wp_compare i j l p q (Q : bool → Edf → Prop) :
  l ≡ₚ l0 → l !! i = Some p → l !! j = Some q → Q (gt p q) (put_queue l s) →
  wp (rq_at (Z.of_nat i) ≫= λ a, rq_at (Z.of_nat j) ≫= λ b, SchedDeadlineGreater a b) (put_queue l s) Q.
Proof using Hcmp.
  intros E Hi Hj HQ. wpstep. eapply wp_rq_at; [exact Hi|]. wpstep. eapply wp_rq_at; [exact Hj|].
  apply wp_greater; [apply comparable_queue; by eapply perm_comparable..|]. by rewrite gt_queue.
Qed.

(** What the loops promise. *)
Definition sifted (Q : unit → Edf → Prop) : Prop := ∀ l, l ≡ₚ l0 → (o → ordered gt l) → Q tt (put_queue l s).

Lemma wp_sift_up fuel pos l p q Q :
  (pos < fuel)%nat → l ≡ₚ l0 → (0 < pos)%nat → l !! par pos = Some p → l !! pos = Some q → gt p q = true →
  (o → up_inv gt l pos) → sifted Q → wp (sift_up fuel (Z.of_nat pos)) (put_queue l s) Q.
Proof using Hnd Hlen Hcmp.
  revert pos l p q. induction fuel as [|fuel IH]; intros pos l p q Hf E Hpos Hp Hq Hg Hup HQ; [lia|]. simpl.
  pose proof (par_lt pos Hpos) as Hlt. pose proof (perm_length l E) as Hl. pose proof (lookup_lt_Some _ _ _ Hq) as Hlp.
  rewrite parent_of_spec by lia. wpstep.
  eapply wp_swap; [by apply perm_nodup|exact Hq|exact Hp|by eapply perm_comparable..|].
  set (l' := swapl pos (par pos) l). assert (l' ≡ₚ l0) as E' by (unfold l'; by rewrite swapl_perm).
  assert (o → up_inv gt l' (par pos)) as Hup' by (intros Ho; apply (swap_up gt (edf_gt_trans s) (edf_gt_total s) l pos p q); auto).
  destruct (Z.eqb_spec (Z.of_nat (par pos)) 0) as [E0|E0].
  - wpstep. apply HQ; [done|]. intros Ho. apply (ordered_up gt l' (par pos)); [by apply Hup'|lia].
  - assert (length l' = length l) as El by (unfold l'; by rewrite swapl_perm).
    destruct (lookup_lt_is_Some_2 l' (par pos)) as [b Hb]; [lia|].
    destruct (lookup_lt_is_Some_2 l' (par (par pos))) as [a Ha]; [pose proof (par_lt (par pos)); lia|].
    rewrite parent_of_spec by lia. eapply wp_compare_k; [done|exact Ha|exact Hb|].
    destruct (gt a b) eqn:Eg.
    + eapply IH; [lia|done|lia|exact Ha|exact Hb|done|done|done].
    + wpstep. apply HQ; [done|]. intros Ho. apply (ordered_up gt l' (par pos)); [by apply Hup'|]. intros _ a' b' Ha' Hb'. congruence.
Qed.

Lemma child_left pos : par (2 * pos + 1) = pos.
Proof. apply par_child; lia. Qed.

Lemma child_right pos : par (2 * pos + 2) = pos.
Proof. apply par_child; lia. Qed.

Lemma wp_sift_down fuel pos l Q :
  (length l0 ≤ pos + fuel)%nat → (pos < length l0)%nat → l ≡ₚ l0 → (o → down_inv gt l pos) → sifted Q →
  wp (sift_down fuel (Z.of_nat pos)) (put_queue l s) Q.
Proof using Hnd Hlen Hcmp.
  revert pos l. induction fuel as [|fuel IH]; intros pos l Hf Hpos E Hd HQ; [lia|]. simpl.
  assert (length l = length l0) as El by by rewrite E. wpstep. wpstep.
  assert (u32 (u32 (Z.of_nat pos * 2) + 1) = Z.of_nat (2 * pos + 1)) as -> by (rewrite (u32_small (Z.of_nat pos * 2)), u32_small by lia; lia).
  assert (u32 (u32 (Z.of_nat pos * 2) + 2) = Z.of_nat (2 * pos + 2)) as -> by (rewrite (u32_small (Z.of_nat pos * 2)), u32_small by lia; lia).
  cbv zeta. change (run_queue_ (put_queue l s)) with l. destruct (lookup_lt_is_Some_2 l pos) as [p Hp]; [lia|].
  assert (∀ ch, (ch = 2 * pos + 1 ∨ ch = 2 * pos + 2)%nat → (length l ≤ ch → length l ≤ 2 * pos + 1)%nat →
    (∀ c, (0 < c)%nat → par c = pos → le_at gt l ch c) →
    wp ((if Z.of_nat ch <? Z.of_nat (length l) then rq_at (Z.of_nat pos) ≫= λ a, rq_at (Z.of_nat ch) ≫= λ b, SchedDeadlineGreater a b
         else mret false) ≫= λ g : bool, if g then swap (Z.of_nat pos) (Z.of_nat ch) ≫= λ _, sift_down fuel (Z.of_nat ch) else mret tt)
      (put_queue l s) Q) as Hchild.
  { intros ch Hch Hend Hmin. assert (0 < ch)%nat as H0 by lia. assert (par ch = pos) as Epar by (apply par_child; lia).
    wpstep. destruct (Z.ltb_spec (Z.of_nat ch) (Z.of_nat (length l))) as [Hlt|Hge].
    - destruct (lookup_lt_is_Some_2 l ch) as [q Hq]; [lia|]. eapply wp_compare; [done|exact Hp|exact Hq|].
      destruct (gt p q) eqn:Eg.
      + wpstep. eapply wp_swap; [by apply perm_nodup|exact Hp|exact Hq|by eapply perm_comparable..|].
        apply IH; [lia|lia|by rewrite swapl_perm| |done]. intros Ho. specialize (Hd Ho). by apply (swap_down gt (edf_gt_trans s) (edf_gt_total s) l pos ch p q).
      + wpstep. apply HQ; [done|]. intros Ho. eapply ordered_down; [exact (Hd Ho)|]. intros c Hc Ec a b Ha Hb.
        assert (a = p) as -> by congruence. apply (edf_gt_trans s p q b); [done|]. by apply (Hmin c Hc Ec q b).
    - wpstep. wpstep. apply HQ; [done|]. intros Ho. eapply ordered_down; [exact (Hd Ho)|]. intros c Hc Ec a b Ha Hb.
      apply lookup_lt_Some in Hb. apply (par_child pos) in Ec; [|done]. lia. }
  assert (∀ b, gt b b = false) as Hrefl by (intros b; destruct (gt b b) eqn:X; [pose proof (edf_gt_total s b b X); congruence|done]).
  assert (∀ c, (0 < c)%nat → par c = pos → (c = 2 * pos + 1 ∨ c = 2 * pos + 2)%nat) as Hc2 by (intros; by apply par_child).
  wpstep. destruct (Z.ltb_spec (Z.of_nat (2 * pos + 2)) (Z.of_nat (length l))) as [Hr|Hr].
  - destruct (lookup_lt_is_Some_2 l (2 * pos + 1)) as [a Ha]; [lia|]. destruct (lookup_lt_is_Some_2 l (2 * pos + 2)) as [b Hb]; [lia|].
    eapply wp_compare; [done|exact Ha|exact Hb|]. destruct (gt a b) eqn:Eg; apply Hchild; try lia.
    + intros c Hc Ec x y Hx Hy. destruct (Hc2 c Hc Ec) as [->| ->]; [|by simplify_eq]. apply edf_gt_total. congruence.
    + intros c Hc Ec x y Hx Hy. destruct (Hc2 c Hc Ec) as [->| ->]; [by simplify_eq|]. congruence.
  - wpstep. apply Hchild; [lia|lia|]. intros c Hc Ec x y Hx Hy. destruct (Hc2 c Hc Ec) as [->| ->]; [by simplify_eq|].
    apply lookup_lt_Some in Hy. lia.
Qed.

(** The position is out of order, the rest is not. *)
Lemma wp_UpdateRunqueuePosition pos l Q :
  (pos < length l0)%nat → l ≡ₚ l0 → (o → broken_at gt l pos) → sifted Q →
  wp (UpdateRunqueuePosition (Z.of_nat pos)) (put_queue l s) Q.
Proof using Hnd Hlen Hcmp.
  intros Hpos E Hb HQ. assert (length l = length l0) as El by by rewrite E.
  unfold UpdateRunqueuePosition. wpstep. wpstep. change (run_queue_ (put_queue l s)) with l. wpstep.
  destruct (Z.eqb_spec (Z.of_nat pos) 0) as [E0|E0].
  - wpstep. apply wp_sift_down; [lia|done|done| |done]. intros Ho. apply broken_down; [by apply Hb|lia].
  - destruct (lookup_lt_is_Some_2 l pos) as [q Hq]; [lia|].
    destruct (lookup_lt_is_Some_2 l (par pos)) as [p Hp]; [pose proof (par_lt pos); lia|].
    rewrite parent_of_spec by lia. eapply wp_compare; [done|exact Hp|exact Hq|]. destruct (gt p q) eqn:Eg.
    + eapply wp_sift_up; [lia|done|lia|exact Hp|exact Hq|done| |done].
      intros Ho. apply (broken_up gt (edf_gt_trans s) (edf_gt_total s) l pos p q); [by apply Hb|done..|lia|done].
    + apply wp_sift_down; [lia|done|done| |done]. intros Ho. apply broken_down; [by apply Hb|]. intros _ a b Ha Hb'. congruence.
Qed.
End sift.
