(* ===== verification/EdfOps.v ===== *)
(** * EdfOps: the invariant of the EDF agent, and its operations on tasks

    Every task is in the queue or slot its state names, the run queue is a heap
    whose tasks know their positions, and a task is queued, running or yielding
    only if it has work and parameters.  [edf_core p] is the invariant for all
    tasks but [p], which an operation is working on: [p] may be in any state
    and the heap may be out of order at its position.  Each operation brings
    the agent from [edf_core] to the invariant or from one [edf_core] to
    another, and says what it did to [p]. *)

From S2P Require Import Prelude Outcome CpuMap CpuMapSpec.
From S2P Require Import Topology TopologySpec Dispatch Placement PrioTable Edf EdfHeap.
From stdpp Require Import gmap functions sorting.
From Stdlib Require Import ZArith Lia.

Local Open Scope Z_scope.

(** ** Places *)

Inductive EPlace := ERun | EYield | ECur (c : Z).

Global Instance EPlace_eq_dec : EqDecision EPlace.
Proof. solve_decision. Defined.

(** A queued task without a position is held by a scheduling pass. *)
Definition edf_place (t : EdfTask) : option EPlace :=
  match run_state t with
  | kQueued => if 0 <=? rq_pos t then Some ERun else None
  | kYielding => Some EYield
  | kOnCpu => Some (ECur (cpu t))
  | _ => None
  end.

Definition e_queues (s : Edf) (k : EPlace) : list Z :=
  match k with
  | ERun => run_queue_ s
  | EYield => yielding_tasks_ s
  | ECur c => slot_list (current (e_cpus s c))
  end.

(** ** The invariant *)

(** What the absl library and the kernel promise. *)
Record edf_env_ok (env : EdfEnv) : Prop := {
  ee_topo : topo_ok (e_topo env);
  ee_wf : cpulist_wf (e_enclave env);
  ee_num : topology_num_cpus (e_enclave env) = num_cpus_ (e_topo env);
  ee_nonempty : elems (e_enclave env) ≠ [];
  ee_malloc : ∀ a : TaskAllocator EdfTask, heap a !! 0 = None → e_malloc env a ≠ 0 ∧ heap a !! e_malloc env a = None;
  ee_agent : ∀ c, c ∈ elems (e_enclave env) → e_get_agent env c = true;
  ee_ns : ∀ n, 0 < n → 0 < Nanoseconds (e_absl env) n;
  ee_ms : 0 < Milliseconds (e_absl env) 1;
  ee_iter : ∀ os tg, tg ∈ e_iter env os → is_Some (os !! tg)
}.

(** No refresh reads an item while a thread of the application updates it.  If
    one does, the copy fails, but the QoS of the old copy changes, and the order
    of the run queue with it. *)
Definition steady (env : EdfEnv) : Prop := ∀ n tg sid, rd_success (e_item env n tg sid) = true.

Section inv.
Context (env : EdfEnv).

#[local] Instance edf_task_type : TaskType EdfTask := EdfTask_type env.

Definition enclave_cpu (c : Z) : Prop := c ∈ elems (e_enclave env).

Lemma e_enclave_range c : edf_env_ok env → enclave_cpu c → 0 ≤ c < num_cpus_ (e_topo env) ∧ c < MAX_CPUS.
Proof.
  intros Henv Hc. pose proof (elems_lt _ _ (ee_wf _ Henv) Hc) as H. pose proof (wf_cpus _ (ee_wf _ Henv)).
  rewrite <- (ee_num _ Henv). unfold MAX_CPUS. lia.
Qed.

(** What holds of a task at any time. *)
Record basic_ok (s : Edf) (t : EdfTask) : Prop := {
  bo_pos : -1 ≤ rq_pos t;
  bo_unqueued : run_state t ≠ kQueued → rq_pos t = -1;
  bo_cpu : run_state t = kOnCpu → enclave_cpu (cpu t);
  bo_estimate : 0 < estimated_runtime t;
  bo_gtid : gtid t ≠ 0;
  bo_params : ∀ tg sid, sp t = SpItem tg sid → ∃ x, params_of s (sp t) = Some x ∧ gpid_ x = gtid t;
  bo_work : has_work t = true → sp t ≠ SpNull
}.

(** A task is paused if it has no work, and only then is it neither blocked nor
    somewhere. *)
Definition work_ok (t : EdfTask) : Prop :=
  match run_state t with
  | kBlocked => True
  | kPaused => has_work t = false
  | kQueued | kOnCpu | kYielding => has_work t = true
  end.

Definition task_ok (s : Edf) (t : EdfTask) : Prop := basic_ok s t ∧ work_ok t.

(** The order of the queue with the exception of the position of [p]. *)
Definition ordered_but (p : Z) (s : Edf) : Prop :=
  steady env →
  match find_first p (run_queue_ s) with
  | Some i => broken_at (edf_gt s) (run_queue_ s) i
  | None => ordered (edf_gt s) (run_queue_ s)
  end.

(** The statistics of an orchestrator are one per work class and never
    negative. *)
Definition orch_ok (o : Orchestrator) : Prop :=
  length (wc_stats_ o) = length (work_classes o).

Record edf_core (p : Z) (s : Edf) : Prop := {
  ec_alloc : alloc_inv (e_allocator s);
  ec_size : Z.of_nat (size (heap (e_allocator s))) < 2 ^ 31;
  ec_rest : at_rest edf_place (heap (e_allocator s)) (e_queues s);
  ec_pos : ∀ i q, run_queue_ s !! i = Some q → ∃ t, heap (e_allocator s) !! q = Some t ∧ rq_pos t = Z.of_nat i;
  ec_order : ordered_but p s;
  ec_basic : ∀ q t, heap (e_allocator s) !! q = Some t → basic_ok s t;
  ec_work : ∀ q t, q ≠ p → heap (e_allocator s) !! q = Some t → work_ok t;
  ec_agent : ∀ c, agent (e_cpus s c) = true ↔ enclave_cpu c;
  ec_global : enclave_cpu (global_cpu_ s);
  ec_orchs : ∀ tg o, orchs_ s !! tg = Some o → orch_ok o
}.

(** All tasks are in order: 0 is no task. *)
Definition edf_mid (s : Edf) : Prop := edf_core 0 s.

(** [num_tasks_] is the number of live tasks, in an [int]. *)
Definition counted (s : Edf) : Prop := num_tasks_ s = s32 (Z.of_nat (size (heap (e_allocator s)))).

(** ** Consequences *)

Lemma core_nonzero p s q t : edf_core p s → heap (e_allocator s) !! q = Some t → q ≠ 0.
Proof. intros Hi Hq ->. pose proof (ec_alloc _ _ Hi) as [H _]. congruence. Qed.

Lemma core_nodup p s : edf_core p s → NoDup (run_queue_ s).
Proof. intros Hi. apply (proj2 (ec_rest _ _ Hi) ERun). Qed.

Lemma core_queued p s q : edf_core p s → q ∈ run_queue_ s → ∃ t, heap (e_allocator s) !! q = Some t ∧ run_state t = kQueued ∧ 0 ≤ rq_pos t.
Proof.
  intros Hi Hq. destruct (rest_live _ _ _ _ ERun (ec_rest _ _ Hi) Hq) as (t & Ht & E). exists t. unfold edf_place in E.
  destruct (run_state t); try done. destruct (Z.leb_spec 0 (rq_pos t)); [done|done].
Qed.

Lemma live_length (h : gmap Z EdfTask) l : NoDup l → (∀ q, q ∈ l → is_Some (h !! q)) → (length l ≤ size h)%nat.
Proof.
  intros Hnd Hl. rewrite <- (size_list_to_set (C := gset Z)) by done. rewrite <- (size_dom (D := gset Z)).
  apply subseteq_size. intros q. rewrite elem_of_list_to_set. intros Hq. apply elem_of_dom. by apply Hl.
Qed.

Lemma queue_length p s : edf_core p s → Z.of_nat (length (run_queue_ s)) < 2 ^ 31.
Proof.
  intros Hi. eapply Z.le_lt_trans; [|exact (ec_size _ _ Hi)]. apply inj_le. apply live_length; [by eapply core_nodup|].
  intros q Hq. destruct (core_queued p s q Hi Hq) as (t & Ht & _). by eexists.
Qed.

Lemma ordered_weaken p s : edf_mid s → ordered_but p s.
Proof.
  intros Hi Hst. pose proof (ec_order _ _ Hi Hst) as Ho.
  assert (find_first 0 (run_queue_ s) = None) as E.
  { apply find_first_None. intros H0. destruct (core_queued 0 s 0 Hi H0) as (t & Ht & _). by apply (core_nonzero 0 s) in Ht. }
  rewrite E in Ho. destruct (find_first p (run_queue_ s)) as [i|]; [|done]. eapply ordered_broken; [apply edf_gt_trans|done].
Qed.

(** Working on a task begins and ends. *)
Lemma mid_core p s : edf_mid s → edf_core p s.
Proof.
  intros Hi. pose proof (ordered_weaken p s Hi) as Ho. destruct Hi as [H1 H2 H3 H4 H5 H6 H7 H8 H9 H10].
  split; try done. intros q t _ Hq. apply (H7 q t); [|done]. destruct H1 as [H1 _]. congruence.
Qed.

Lemma mid_work s p t : edf_mid s → heap (e_allocator s) !! p = Some t → task_ok s t.
Proof. intros Hi Hp. split; [by eapply ec_basic|]. eapply ec_work; [done| |done]. by eapply core_nonzero. Qed.

Lemma core_mid p s :
  edf_core p s → (steady env → ordered (edf_gt s) (run_queue_ s)) → (∀ t, heap (e_allocator s) !! p = Some t → work_ok t) → edf_mid s.
Proof.
  intros [H1 H2 H3 H4 H5 H6 H7 H8 H9 H10] Ho Hw. split; try done.
  - intros Hst. specialize (Ho Hst). destruct (find_first 0 _) as [i|]; [|done]. eapply ordered_broken; [apply edf_gt_trans|done].
  - intros q t _ Hq. destruct (decide (q = p)) as [->|Hne]; [by apply Hw|by eapply H7].
Qed.

(** A task that is not in the queue does not disturb its order. *)
Lemma core_ordered p s t :
  edf_core p s → heap (e_allocator s) !! p = Some t → edf_place t ≠ Some ERun → steady env → ordered (edf_gt s) (run_queue_ s).
Proof.
  intros Hi Hp Hne Hst. pose proof (ec_order _ _ Hi Hst) as Ho.
  rewrite (proj2 (find_first_None p (run_queue_ s))) in Ho; [done|]. apply (rest_out _ _ _ _ t ERun (ec_rest _ _ Hi) Hp Hne).
Qed.

(** The task at a position, and the position of a task. *)
Lemma core_at p s q t :
  edf_core p s → heap (e_allocator s) !! q = Some t → run_state t = kQueued → 0 ≤ rq_pos t →
  run_queue_ s !! Z.to_nat (rq_pos t) = Some q.
Proof.
  intros Hi Hq Hst Hpos. assert (q ∈ run_queue_ s) as Hin.
  { apply (rest_in _ _ _ _ t ERun (ec_rest _ _ Hi) Hq). unfold edf_place. rewrite Hst. by rewrite (proj2 (Z.leb_le 0 _)). }
  apply list_elem_of_lookup in Hin as [i Hin]. destruct (ec_pos _ _ Hi i q Hin) as (t' & Ht' & E).
  assert (t' = t) as -> by congruence. by rewrite E, Nat2Z.id.
Qed.

(** ** What an operation did *)

(** A task but for its position. *)
Definition strip (t : EdfTask) : EdfTask := set_rq_pos 0 t.

Definition view (s : Edf) : gmap Z EdfTask := strip <$> heap (e_allocator s).

(** What no operation on the tasks changes. *)
Record same_rest (s s' : Edf) : Prop := {
  sr_map : task_map_ (e_allocator s') = task_map_ (e_allocator s);
  sr_global : global_cpu_ s' = global_cpu_ s;
  sr_num : num_tasks_ s' = num_tasks_ s;
  sr_disc : in_discovery_ s' = in_discovery_ s;
  sr_orchs : orchs_ s' = orchs_ s;
  sr_asked : asked s' = asked s;
  sr_log : log s' = log s;
  sr_agent : ∀ c, agent (e_cpus s' c) = agent (e_cpus s c);
  sr_next : ∀ c, next (e_cpus s' c) = next (e_cpus s c)
}.

Global Instance same_rest_refl : Reflexive same_rest.
Proof. intros s. by split. Qed.

Global Instance same_rest_trans : Transitive same_rest.
Proof. intros s1 s2 s3 [] []. split; intros; etrans; eauto. Qed.

(** A task that is [kQueued] and not in the run queue. *)
Definition is_held (s : Edf) (q : Z) : Prop := ∃ t, heap (e_allocator s) !! q = Some t ∧ run_state t = kQueued ∧ rq_pos t < 0.

(** Only the task [p] changed, and is now [t]; no other task was put into the
    run queue or taken out of it. *)
Definition touched (p : Z) (t : EdfTask) (s s' : Edf) : Prop :=
  view s' = <[p := strip t]> (view s) ∧ same_rest s s' ∧ ∀ q, q ≠ p → is_held s' q ↔ is_held s q.

Lemma touched_again p t t' s s1 s' : touched p t s s1 → touched p t' s1 s' → touched p t' s s'.
Proof. intros (E1 & H1 & H1') (E2 & H2 & H2'). split_and!; [rewrite E2, E1; by rewrite insert_insert_eq|by etrans|].
  intros q Hq. by rewrite H2', H1'.
Qed.

Lemma view_put_task p t s : view (put_task p t s) = <[p := strip t]> (view s).
Proof. unfold view. simpl. by rewrite fmap_insert. Qed.

Lemma held_ext s s' q : heap (e_allocator s') !! q = heap (e_allocator s) !! q → is_held s' q ↔ is_held s q.
Proof. intros E. unfold is_held. by rewrite E. Qed.

Lemma touched_put p t s : touched p t s (put_task p t s).
Proof.
  split_and!; [apply view_put_task|by split|]. intros q Hq. apply held_ext. simpl. by rewrite lookup_insert_ne.
Qed.

(** What the queues are does not matter. *)
Lemma touched_queues p t s s1 s' :
  touched p t s s1 → e_allocator s' = e_allocator s1 → same_rest s1 s' → touched p t s s'.
Proof.
  intros (E & H1 & H2) Ea Hr. split_and!; [unfold view in *; by rewrite Ea|by etrans|].
  intros q Hq. rewrite <- H2 by done. apply held_ext. by rewrite Ea.
Qed.

Lemma view_put_queue l s : view (put_queue l s) = view s.
Proof.
  unfold view. simpl. apply map_eq. intros q. rewrite !lookup_fmap, lookup_repos.
  destruct (heap (e_allocator s) !! q) as [t|]; [|done]. simpl. by destruct (find_first q l).
Qed.

Lemma touched_lookup p t s s' q :
  touched p t s s' → strip <$> heap (e_allocator s') !! q = if decide (q = p) then Some (strip t) else strip <$> heap (e_allocator s) !! q.
Proof.
  intros (E & _). assert (view s' !! q = (<[p := strip t]> (view s)) !! q) as H by by rewrite E. unfold view in H.
  rewrite lookup_fmap in H. rewrite H. case_decide as Eq; [subst; apply lookup_insert_eq|].
  rewrite lookup_insert_ne by done. by rewrite lookup_fmap.
Qed.

Lemma touched_at p t s s' : touched p t s s' → ∃ t', heap (e_allocator s') !! p = Some t' ∧ strip t' = strip t.
Proof.
  intros H. pose proof (touched_lookup p t s s' p H) as E. rewrite decide_True in E by done.
  destruct (heap (e_allocator s') !! p) as [t'|]; [|done]. exists t'. split; [done|]. by apply (inj Some).
Qed.

Lemma strip_eq t t' : strip t' = strip t → t' = set_rq_pos (rq_pos t') t.
Proof. destruct t, t'. unfold strip, set_rq_pos. simpl. intros E. injection E. intros. by subst. Qed.

Lemma touched_work p t s s' t' : touched p t s s' → heap (e_allocator s') !! p = Some t' → work_ok t → work_ok t'.
Proof.
  intros Ht Hp Hw. destruct (touched_at p t s s' Ht) as (t2 & Ht2 & E). assert (t2 = t') as -> by congruence.
  by rewrite (strip_eq t t' E).
Qed.

(** ** Operations on the queue *)

Lemma params_of_orchs s s' r : orchs_ s' = orchs_ s → params_of s' r = params_of s r.
Proof. intros E. destruct r; simpl; by rewrite ?E. Qed.

Lemma basic_orchs s s' t : orchs_ s' = orchs_ s → basic_ok s t → basic_ok s' t.
Proof. intros E []. split; try done. intros tg sid H. rewrite (params_of_orchs s) by done. by eapply bo_params0. Qed.

Lemma basic_comparable s p t : heap (e_allocator s) !! p = Some t → basic_ok s t → has_work t = true → comparable s p.
Proof.
  intros Hp Hb Hw. exists t. pose proof (bo_work _ _ Hb Hw) as Hne. destruct (sp t) as [| |tg sid] eqn:E; [done|by exists zero_params|].
  destruct (bo_params _ _ Hb tg sid E) as (x & Hx & _). exists x. rewrite E in Hx. done.
Qed.

Lemma set_pos_basic s t i : basic_ok s t → run_state t = kQueued → -1 ≤ i → basic_ok s (set_rq_pos i t).
Proof. intros [] Hq Hi. by split. Qed.

(** The queue becomes [l] and [p] becomes [t1]. *)
Lemma core_put_queue p t t1 l s :
  edf_core p s → heap (e_allocator s) !! p = Some t → edf_place t ∈ [None; Some ERun] →
  NoDup l → (∀ q, q ≠ p → q ∈ l ↔ q ∈ run_queue_ s) → (p ∈ l → run_state t1 = kQueued) → (p ∉ l → edf_place t1 = None) →
  gtid t1 = gtid t → basic_ok s t1 → (steady env → ordered (edf_gt (put_task p t1 s)) l) →
  edf_core p (put_queue l (put_task p t1 s)) ∧
  (steady env → ordered (edf_gt (put_queue l (put_task p t1 s))) (run_queue_ (put_queue l (put_task p t1 s)))).
Proof.
  intros Hi Hp Hpl Hnd Hl Hin Hout Hg Hb Ho.
  assert (∀ q u, heap (e_allocator (put_queue l (put_task p t1 s))) !! q = Some u → ∃ u0,
    (<[p := t1]> (heap (e_allocator s))) !! q = Some u0 ∧
    u = match find_first q l with Some i => set_rq_pos (Z.of_nat i) u0 | None => u0 end) as Hheap.
  { intros q u Hu. cbn [put_queue e_allocator set_run_queue set_e_allocator heap] in Hu. rewrite lookup_repos in Hu.
    apply fmap_Some in Hu as (u0 & Hu & ->). exists u0. split; [done|done]. }
  assert (steady env → ordered (edf_gt (put_queue l (put_task p t1 s))) l) as Ho'.
  { intros Hst. eapply ordered_ext; [|exact (Ho Hst)]. intros. apply gt_queue. }
  pose proof (λ q u, ec_basic p s Hi q u) as Hbas. split; [|done]. split.
  - (* alloc *) destruct (alloc_inv_upd (e_allocator s) p t t1 (ec_alloc _ _ Hi) Hp Hg) as [Ha0 Ha1]. simpl in Ha0, Ha1. split.
    + cbn [put_queue e_allocator set_run_queue set_e_allocator heap put_task put_obj]. rewrite lookup_repos. by rewrite Ha0.
    + intros g q. cbn [put_queue e_allocator set_run_queue set_e_allocator heap task_map_ put_task put_obj].
      rewrite Ha1. setoid_rewrite lookup_repos. split.
      * intros (u & Hu & E). rewrite Hu. eexists. split; [done|]. by destruct (find_first q l).
      * intros (u & Hu & E). apply fmap_Some in Hu as (u0 & Hu & ->). exists u0. split; [done|]. by destruct (find_first q l).
  - cbn [put_queue e_allocator set_run_queue set_e_allocator heap put_task put_obj].
    assert (size (repos l (<[p := t1]> (heap (e_allocator s)))) = size (heap (e_allocator s))) as ->; [|apply Hi].
    rewrite <- !(size_dom (D := gset Z)). f_equal. apply set_eq. intros q. rewrite !elem_of_dom, lookup_repos, fmap_is_Some.
    destruct (decide (p = q)) as [<-|Hne]; [rewrite lookup_insert_eq, Hp; by split; intros _; eexists|by rewrite lookup_insert_ne].
  - (* rest *)
    assert (∀ q u0, (<[p := t1]> (heap (e_allocator s))) !! q = Some u0 → q ∈ l → run_state u0 = kQueued) as Hst.
    { intros q u0 Hu Hq. destruct (decide (p = q)) as [<-|Hne]; [rewrite lookup_insert_eq in Hu; injection Hu as <-; by apply Hin|].
      rewrite lookup_insert_ne in Hu by done. rewrite Hl in Hq by done.
      destruct (core_queued p s q Hi Hq) as (v & Hv & ? & _). congruence. }
    split; [|intros [| |c]; [done|apply (proj2 (ec_rest _ _ Hi) EYield)|apply (proj2 (ec_rest _ _ Hi) (ECur c))]].
    intros q k. destruct (decide (k = ERun)) as [->|Hk].
    + change (e_queues _ ERun) with l. split.
      * intros Hq. destruct (find_first_spec q l Hq) as (i & Ei & Hqi). destruct ((<[p := t1]> (heap (e_allocator s))) !! q) as [u0|] eqn:Hu.
        -- exists (set_rq_pos (Z.of_nat i) u0). split; [by apply (queue_at l (put_task p t1 s))|]. unfold edf_place. simpl.
           rewrite (Hst q u0 Hu Hq). by rewrite (proj2 (Z.leb_le 0 _)) by lia.
        -- exfalso. destruct (decide (p = q)) as [<-|Hne]; [by rewrite lookup_insert_eq in Hu|].
           rewrite lookup_insert_ne in Hu by done. rewrite Hl in Hq by done.
           destruct (core_queued p s q Hi Hq) as (v & Hv & _). congruence.
      * intros (u & Hu & E). apply Hheap in Hu as (u0 & Hu & ->). destruct (find_first q l) as [i|] eqn:Ei.
        -- apply find_first_lookup in Ei; [|done]. by eapply list_elem_of_lookup_2.
        -- apply find_first_None in Ei. destruct (decide (p = q)) as [<-|Hne].
           ++ rewrite lookup_insert_eq in Hu. injection Hu as <-. rewrite Hout in E; done.
           ++ rewrite lookup_insert_ne in Hu by done. apply Hl; [done|]. by apply (rest_in _ _ _ _ u0 ERun (ec_rest _ _ Hi) Hu).
    + assert (e_queues (put_queue l (put_task p t1 s)) k = e_queues s k) as -> by by destruct k.
      rewrite (proj1 (ec_rest _ _ Hi) q k). split.
      * intros (u & Hu & E). assert (q ≠ p) as Hne.
        { intros ->. assert (u = t) as -> by congruence. rewrite E in Hpl. set_solver. }
        assert (q ∉ l) as Hq. { rewrite Hl by done. intros Hq. destruct (core_queued p s q Hi Hq) as (v & Hv & Hqu & _).
          assert (v = u) as -> by congruence. unfold edf_place in E. rewrite Hqu in E. destruct (0 <=? rq_pos u); congruence. }
        exists u. split; [|done]. cbn [put_queue e_allocator set_run_queue set_e_allocator heap put_task put_obj].
        rewrite lookup_repos, lookup_insert_ne, Hu by done. by rewrite (proj2 (find_first_None q l) Hq).
      * intros (u & Hu & E). apply Hheap in Hu as (u0 & Hu & ->).
        assert (q ∉ l) as Hq.
        { intros Hq. pose proof (Hst q u0 Hu Hq) as Hqu. unfold edf_place in E.
          destruct (find_first q l); simpl in E; rewrite Hqu in E; destruct (0 <=? _); congruence. }
        rewrite (proj2 (find_first_None q l) Hq) in E. destruct (decide (p = q)) as [<-|Hne].
        -- rewrite lookup_insert_eq in Hu. injection Hu as <-. rewrite Hout in E; done.
        -- rewrite lookup_insert_ne in Hu by done. eauto.
  - intros i q Hq. change (run_queue_ _) with l in Hq.
    destruct (heap (e_allocator (put_task p t1 s)) !! q) as [u|] eqn:Hu.
    + exists (set_rq_pos (Z.of_nat i) u). split; [|done]. by apply queue_at.
    + exfalso. simpl in Hu. destruct (decide (p = q)) as [<-|Hne]; [by rewrite lookup_insert_eq in Hu|].
      rewrite lookup_insert_ne in Hu by done. assert (q ∈ run_queue_ s) as Hqs by (apply Hl; [done|by eapply list_elem_of_lookup_2]).
      destruct (core_queued p s q Hi Hqs) as (v & Hv & _). congruence.
  - intros Hsd. specialize (Ho' Hsd). change (run_queue_ _) with l. destruct (find_first p l) as [i|]; [|done].
    eapply ordered_broken; [apply edf_gt_trans|done].
  - intros q u Hu. apply Hheap in Hu as (u0 & Hu & ->). apply (basic_orchs s); [done|].
    assert (basic_ok s u0 ∧ (q ∈ l → run_state u0 = kQueued)) as [Hb0 Hq0].
    { destruct (decide (p = q)) as [<-|Hne].
      - rewrite lookup_insert_eq in Hu. injection Hu as <-. done.
      - rewrite lookup_insert_ne in Hu by done. split; [by eapply Hbas|]. rewrite Hl by done.
        intros Hq. destruct (core_queued p s q Hi Hq) as (v & Hv & ? & _). congruence. }
    destruct (find_first q l) as [i|] eqn:Ei; [|done]. apply set_pos_basic; [done| |lia]. apply Hq0.
    apply find_first_lookup in Ei; [|done]. by eapply list_elem_of_lookup_2.
  - intros q u Hne Hu. apply Hheap in Hu as (u0 & Hu & ->). rewrite lookup_insert_ne in Hu by done.
    pose proof (ec_work p s Hi q u0 Hne Hu) as Hw. by destruct (find_first q l).
  - exact (ec_agent _ _ Hi).
  - exact (ec_global _ _ Hi).
  - exact (ec_orchs _ _ Hi).
Qed.

Lemma put_task_same p t s : heap (e_allocator s) !! p = Some t → put_task p t s = s.
Proof.
  intros Hp. unfold put_task, put_obj. destruct s as [[m h] ? ? ? ? ? ? ? ? ?]. unfold set_e_allocator. simpl in *.
  by rewrite insert_id.
Qed.

Lemma set_rq_pos_same t i : rq_pos t = i → set_rq_pos i t = t.
Proof. intros <-. by destruct t. Qed.

(** Positions are already in the tasks. *)
Lemma repos_same p s : edf_core p s → repos (run_queue_ s) (heap (e_allocator s)) = heap (e_allocator s).
Proof.
  intros Hi. apply map_eq. intros q. rewrite lookup_repos. destruct (heap (e_allocator s) !! q) as [t|] eqn:Hq; [|done]. simpl.
  destruct (find_first q (run_queue_ s)) as [i|] eqn:Ei; [|done]. apply find_first_lookup in Ei; [|by eapply core_nodup].
  destruct (ec_pos _ _ Hi i q Ei) as (t' & Ht' & E). f_equal. apply set_rq_pos_same. congruence.
Qed.

Lemma put_queue_same p s : edf_core p s → put_queue (run_queue_ s) s = s.
Proof.
  intros Hi. unfold put_queue. rewrite (repos_same p) by done. by destruct s as [[m h] ? ? ? ? ? ? ? ? ?].
Qed.

(** The order of the others does not depend on [p]. *)
Lemma gt_put_task p t s a b : a ≠ p → b ≠ p → edf_gt (put_task p t s) a b = edf_gt s a b.
Proof.
  intros Ha Hb. unfold edf_gt, key. simpl. by rewrite !lookup_insert_ne.
Qed.

Lemma touched_put_queue l p t s :
  (∀ q, q ≠ p → q ∈ l → ∃ u, heap (e_allocator s) !! q = Some u ∧ 0 ≤ rq_pos u) → touched p t s (put_queue l (put_task p t s)).
Proof.
  intros Hl. split_and!; [by rewrite view_put_queue, view_put_task|by split|]. intros q Hq. unfold is_held.
  cbn [put_queue e_allocator set_run_queue set_e_allocator heap put_task put_obj]. rewrite lookup_repos, lookup_insert_ne by done. split.
  - intros (u & Hu & Hst & Hpos). apply fmap_Some in Hu as (u0 & Hu & ->). exists u0. destruct (find_first q l); simpl in Hpos; [lia|done].
  - intros (u & Hu & Hst & Hpos). rewrite Hu. simpl. exists u. destruct (find_first q l) as [i|] eqn:Ei; [|done]. exfalso.
    assert (q ∈ l) as Hin by (destruct (decide (q ∈ l)) as [|Hn]; [done|apply find_first_None in Hn; congruence]).
    destruct (Hl q Hq Hin) as (u' & Hu' & H). assert (u' = u) as -> by congruence. lia.
Qed.

Lemma queue_not_held l p s : p ∈ l → ¬ is_held (put_queue l s) p.
Proof.
  intros Hp (u & Hu & _ & Hpos). cbn [put_queue e_allocator set_run_queue set_e_allocator heap] in Hu. rewrite lookup_repos in Hu.
  apply fmap_Some in Hu as (u0 & _ & ->). destruct (find_first_spec p l Hp) as (i & Ei & _). rewrite Ei in Hpos. simpl in Hpos. lia.
Qed.

(** Queued tasks can be compared. *)
Lemma queue_comparable p s :
  edf_core p s → ∀ q, q ∈ run_queue_ s → q ≠ p → comparable s q.
Proof.
  intros Hi q Hq Hne. destruct (core_queued p s q Hi Hq) as (t & Ht & Hst & _).
  pose proof (ec_work p s Hi q t Hne Ht) as Hw. unfold work_ok in Hw. rewrite Hst in Hw.
  eapply basic_comparable; [exact Ht|by eapply ec_basic|done].
Qed.

Lemma comparable_put p t s q : q ≠ p → comparable s q → comparable (put_task p t s) q.
Proof. intros Hne (u & x & Hu & Hx). exists u, x. split; [simpl; by rewrite lookup_insert_ne|done]. Qed.

(** What the sifting leaves is the invariant again. *)
Lemma sifted_mid p t t1 l0 s (Q : unit → Edf → Prop) :
  edf_core p s → heap (e_allocator s) !! p = Some t → edf_place t ∈ [None; Some ERun] →
  NoDup l0 → (∀ q, q ≠ p → q ∈ l0 ↔ q ∈ run_queue_ s) → (p ∈ l0 → run_state t1 = kQueued) → (p ∉ l0 → edf_place t1 = None) →
  gtid t1 = gtid t → basic_ok s t1 → 
  (∀ s', edf_core p s' → (steady env → ordered (edf_gt s') (run_queue_ s')) → touched p t1 s s' → run_queue_ s' ≡ₚ l0 →
     (p ∈ l0 → ¬ is_held s' p) → (p ∉ l0 → heap (e_allocator s') !! p = Some t1) → Q tt s') →
  sifted (steady env) (put_task p t1 s) l0 Q.
Proof.
  intros Hi Hp Hpl Hnd Hl Hin Hout Hg Hb HQ l E Ho.
  destruct (core_put_queue p t t1 l s Hi Hp Hpl) as [Hc Ho']; try done.
  - by rewrite E.
  - intros q Hq. rewrite E. by apply Hl.
  - by rewrite E.
  - by rewrite E.
  - apply HQ; [done|done|apply touched_put_queue; intros q Hq Hql; rewrite E, Hl in Hql by done; destruct (core_queued p s q Hi Hql) as (u & Hu & _ & ?); by exists u|by rewrite <- E|intros Hp0; apply queue_not_held; by rewrite E|]. intros Hn.
    cbn [put_queue e_allocator set_run_queue set_e_allocator heap put_task put_obj]. rewrite lookup_repos, lookup_insert_eq. simpl.
    rewrite (proj2 (find_first_None p l)); [done|]. by rewrite E.
Qed.

(** [p] is at its position, and its place in the order changed. *)
Lemma wp_resift p t s (Q : unit → Edf → Prop) :
  edf_core p s → heap (e_allocator s) !! p = Some t → run_state t = kQueued → 0 ≤ rq_pos t → has_work t = true →
  (∀ s', edf_mid s' → touched p t s s' → ¬ is_held s' p → Q tt s') → wp (UpdateRunqueuePosition (rq_pos t)) s Q.
Proof.
  intros Hi Hp Hst Hpos Hw HQ. pose proof (core_at p s p t Hi Hp Hst Hpos) as Hat. pose proof (core_nodup p s Hi) as Hnd.
  assert (edf_place t = Some ERun) as Hpl by (unfold edf_place; by rewrite Hst, (proj2 (Z.leb_le 0 _))).
  pose proof (ec_order _ _ Hi) as Ho. unfold ordered_but in Ho. rewrite (proj2 (find_first_lookup p _ _ Hnd) Hat) in Ho.
  pose proof (lookup_lt_Some _ _ _ Hat) as Hlt. replace (rq_pos t) with (Z.of_nat (Z.to_nat (rq_pos t))) by lia.
  rewrite <- (put_queue_same p s Hi) at 1.
  apply (wp_UpdateRunqueuePosition (steady env) s (run_queue_ s)); [done|by eapply queue_length| |done|done|done|].
  - intros q Hq. destruct (decide (q = p)) as [->|Hne]; [|by eapply queue_comparable].
    eapply basic_comparable; [exact Hp|by eapply ec_basic|done].
  - assert (sifted (steady env) (put_task p t s) (run_queue_ s) Q) as Hs; [|by rewrite (put_task_same p t s Hp) in Hs].
    eapply (sifted_mid p t t); try done.
    + rewrite Hpl. set_solver.
    + intros Hn. exfalso. apply Hn. by eapply list_elem_of_lookup_2.
    + by eapply ec_basic.
    + intros s' Hc Ho' Ht _ Hnh _. apply HQ; [|done|apply Hnh; by eapply list_elem_of_lookup_2]. eapply core_mid; [done|done|].
      intros t' Ht'. eapply touched_work; [done|done|]. unfold work_ok. by rewrite Hst.
Qed.

(** [p] changes where it is. *)
Lemma core_put p t t1 s :
  edf_core p s → heap (e_allocator s) !! p = Some t → edf_place t1 = edf_place t → rq_pos t1 = rq_pos t → gtid t1 = gtid t →
  basic_ok s t1 →
  edf_core p (put_task p t1 s) ∧
  (edf_place t ≠ Some ERun → steady env → ordered (edf_gt (put_task p t1 s)) (run_queue_ s)).
Proof.
  intros Hi Hp Hpl Hpos Hg Hb. pose proof (core_nodup p s Hi) as Hnd.
  assert (∀ q u, heap (e_allocator (put_task p t1 s)) !! q = Some u → (q = p ∧ u = t1) ∨ (q ≠ p ∧ heap (e_allocator s) !! q = Some u)) as Hheap.
  { intros q u Hu. simpl in Hu. apply lookup_insert_Some in Hu as [[<- <-]|[? ?]]; [by left|right; done]. }
  assert (edf_place t ≠ Some ERun → steady env → ordered (edf_gt (put_task p t1 s)) (run_queue_ s)) as Ho.
  { intros Hne Hsd. pose proof (rest_out _ _ _ _ t ERun (ec_rest _ _ Hi) Hp Hne) as Hnin. simpl in Hnin.
    eapply ordered_ext; [|by eapply core_ordered]. intros a b Ha Hb'. apply gt_put_task; congruence. }
  split; [|done]. split.
  - by eapply alloc_inv_upd; [apply Hi|..].
  - simpl. rewrite map_size_insert_Some by done. apply Hi.
  - simpl. eapply rest_same; [apply Hi|done|done].
  - intros i q Hq. destruct (ec_pos _ _ Hi i q Hq) as (u & Hu & E). destruct (decide (p = q)) as [<-|Hne].
    + exists t1. simpl. rewrite lookup_insert_eq. split; [done|]. rewrite Hpos. congruence.
    + exists u. simpl. by rewrite lookup_insert_ne.
  - intros Hsd. pose proof (ec_order _ _ Hi Hsd) as Hob. simpl.
    destruct (find_first p (run_queue_ s)) as [i|] eqn:Ei.
    + apply find_first_lookup in Ei; [|done]. eapply broken_ext; [|exact Hob]. intros j k a b Hj Hk Ha Hb'. apply gt_put_task.
      * intros ->. apply Hj. by eapply NoDup_lookup.
      * intros ->. apply Hk. by eapply NoDup_lookup.
    + apply find_first_None in Ei. eapply ordered_ext; [|exact Hob]. intros a b Ha Hb'. apply gt_put_task; congruence.
  - intros q u [[-> ->]|[Hne Hu]]%Hheap; apply (basic_orchs s); [done|done|done|by eapply ec_basic].
  - intros q u Hne [[-> ->]|[_ Hu]]%Hheap; [done|by eapply ec_work].
  - exact (ec_agent _ _ Hi).
  - exact (ec_global _ _ Hi).
  - exact (ec_orchs _ _ Hi).
Qed.

Lemma core_pos_fresh p s t : edf_core p s → heap (e_allocator s) !! p = Some t → edf_place t = None → p ∉ run_queue_ s.
Proof. intros Hi Hp E. apply (rest_out _ _ _ _ t ERun (ec_rest _ _ Hi) Hp). congruence. Qed.

(** [Enqueue] of a task that is nowhere. *)
Lemma e_wp_Enqueue p t s (Q : unit → Edf → Prop) :
  edf_core p s → heap (e_allocator s) !! p = Some t → edf_place t = None → rq_pos t = -1 →
  (∀ s', edf_mid s' → touched p (set_run_state (if has_work t then kQueued else kPaused) t) s s' → ¬ is_held s' p → Q tt s') →
  wp (E_Enqueue p) s Q.
Proof.
  intros Hi Hp Hpl Hpos HQ. pose proof (core_pos_fresh p s t Hi Hp Hpl) as Hnin. pose proof (core_nodup p s Hi) as Hnd.
  pose proof (ec_basic _ _ Hi p t Hp) as Hb. pose proof (core_ordered p s t Hi Hp ltac:(congruence)) as Ho.
  assert (∀ r, r ≠ kOnCpu → basic_ok s (set_run_state r t)) as Hbr by (intros r Hr; destruct Hb; by split).
  unfold E_Enqueue. wpstep. eapply wp_task; [exact Hp|]. destruct (has_work t) eqn:Hw; simpl negb; cbv iota.
  - set (t1 := set_run_state kQueued t). wpstep. wpstep; [by apply Z.ltb_lt; lia|].
    wpstep. eapply wp_upd; [exact Hp|]. wpstep. wpstep. wpstep. wpstep.
    assert (Z.of_nat (length (run_queue_ s)) < 2 ^ 31) as Hlen by (by eapply queue_length).
    cbn [run_queue_ set_run_queue set_allocator Edf_has_allocator set_e_allocator]. rewrite length_app. simpl length.
    replace (Z.of_nat (length (run_queue_ s) + 1) - 1) with (Z.of_nat (length (run_queue_ s))) by lia.
    rewrite u64_small by lia. replace (s32 (Z.of_nat (length (run_queue_ s)))) with (Z.of_nat (length (run_queue_ s))).
    2:{ unfold s32. rewrite Z.mod_small; lia. }
    wpstep. eapply wp_upd; [apply lookup_insert_eq|]. rewrite u32_small by lia.
    assert (find_first p (run_queue_ s ++ [p]) = Some (length (run_queue_ s))) as Hfp.
    { apply find_first_lookup; [apply NoDup_app; split_and!; [done| |apply NoDup_singleton]|].
      - intros q Hq ->%list_elem_of_singleton. done.
      - by apply list_lookup_middle. }
    assert (NoDup (run_queue_ s ++ [p])) as Hnd1.
    { apply NoDup_app. split_and!; [done| |apply NoDup_singleton]. intros q Hq ->%list_elem_of_singleton. done. }
    match goal with |- wp _ ?s' _ => rewrite (put_queue_eq [] (run_queue_ s ++ [p]) (put_task p t1 s) s'); [|done|done|] end.
    2:{ simpl. apply map_eq. intros q. rewrite lookup_repos. destruct (decide (p = q)) as [<-|Hne].
        - rewrite !lookup_insert_eq. simpl. by rewrite Hfp.
        - rewrite !lookup_insert_ne by done. pose proof (repos_same p s Hi) as E. apply (f_equal (lookup q)) in E.
          rewrite lookup_repos in E. rewrite <- E at 1. destruct (heap (e_allocator s) !! q); [|done]. simpl. f_equal.
          destruct (find_first q (run_queue_ s)) as [i|] eqn:Ei.
          + apply find_first_lookup in Ei; [|done]. rewrite (proj2 (find_first_lookup q _ i Hnd1)); [done|by apply lookup_app_l_Some].
          + apply find_first_None in Ei. rewrite (proj2 (find_first_None q _)); [done|]. set_solver. }
    apply (wp_UpdateRunqueuePosition (steady env) (put_task p t1 s) (run_queue_ s ++ [p])); [done| | |rewrite length_app; simpl; lia|done| |].
    + eapply Z.le_lt_trans; [|exact (ec_size _ _ Hi)]. apply inj_le. apply live_length; [done|].
      intros q [Hq|Hq%list_elem_of_singleton]%elem_of_app; [|subst; by eexists].
      destruct (core_queued p s q Hi Hq) as (u & Hu & _). by eexists.
    + intros q [Hq|Hq%list_elem_of_singleton]%elem_of_app.
      * apply comparable_put; [set_solver|]. eapply queue_comparable; [done|done|set_solver].
      * subst q. eapply (basic_comparable (put_task p t1 s) p t1); [apply lookup_insert_eq| |done].
        eapply (basic_orchs s); [done|]. by apply Hbr.
    + intros Hsd. apply broken_snoc. eapply ordered_ext; [|exact (Ho Hsd)]. intros a b Ha Hb'. apply gt_put_task; set_solver.
    + eapply (sifted_mid p t t1); try done.
      * rewrite Hpl. set_solver.
      * set_solver.
      * set_solver.
      * by apply Hbr.
      * intros s' Hc Ho' Ht _ Hnh _. apply HQ; [|done|apply Hnh; set_solver]. eapply core_mid; [done|done|].
        intros t' Ht'. eapply touched_work; [exact Ht|exact Ht'|exact Hw].
  - eapply wp_upd; [exact Hp|]. apply HQ; [|apply touched_put|intros (u & Hu & Hst & _); simpl in Hu; rewrite lookup_insert_eq in Hu; by injection Hu as <-].
    destruct (core_put p t (set_run_state kPaused t) s Hi Hp) as [Hc Ho']; [by rewrite Hpl|done|done|by apply Hbr|].
    eapply core_mid; [exact Hc|apply Ho'; by rewrite Hpl|].
    intros t' Ht'. simpl in Ht'. rewrite lookup_insert_eq in Ht'. by injection Ht' as <-.
Qed.

(** The last element gives up its position and leaves. *)
Lemma popped l p t s back :
  NoDup l → l !! back = Some p → S back = length l → heap (e_allocator s) !! p = Some t →
  set_run_queue (take (length l - 1) l) (set_e_allocator (put_obj p (set_rq_pos (-1) (set_rq_pos (Z.of_nat back) t)) (e_allocator (put_queue l s)))
    (put_queue l s)) = put_queue (take back l) (put_task p (set_rq_pos (-1) t) s).
Proof.
  intros Hnd Hb El Hp. replace (length l - 1)%nat with back by lia.
  assert (l = take back l ++ [p]) as Esplit.
  { rewrite <- (take_drop back l) at 1. f_equal. rewrite (drop_S _ p back Hb). f_equal. apply drop_ge. lia. }
  assert (NoDup (take back l) ∧ p ∉ take back l) as [Hnd' Hnin].
  { rewrite Esplit in Hnd. apply NoDup_app in Hnd as (H1 & H2 & _). split; [done|]. intros H. apply (H2 p H). by left. }
  match goal with |- ?s' = _ => apply (put_queue_eq [] (take back l) (put_task p (set_rq_pos (-1) t) s) s'); [done|done|] end.
  simpl. apply map_eq. intros q. rewrite lookup_repos. destruct (decide (p = q)) as [<-|Hne].
  - rewrite !lookup_insert_eq. simpl. by rewrite (proj2 (find_first_None p _) Hnin).
  - rewrite !lookup_insert_ne, lookup_repos by done. destruct (heap (e_allocator s) !! q); [|done]. simpl. f_equal.
    assert (find_first q l = find_first q (take back l)) as ->; [|done]. apply option_eq. intros i.
    rewrite !find_first_lookup by done. rewrite Esplit at 1. rewrite lookup_snoc_Some, lookup_take_Some. split.
    + intros [[_ Hi]|[_ E]]; [exact Hi|done].
    + intros [Hi Hlt]. left. rewrite length_take. split; [lia|done].
Qed.

(** [Dequeue]: a least task leaves the queue; it is [kQueued] but nowhere. *)
Record dequeued (p : Z) (s s' : Edf) : Prop := {
  dq_mid : edf_mid s';
  dq_view : view s' = view s;
  dq_rest : same_rest s s';
  dq_held : ∀ q, q ≠ p → is_held s' q ↔ is_held s q;
  dq_queue : p :: run_queue_ s' ≡ₚ run_queue_ s;
  dq_task : ∃ t, heap (e_allocator s) !! p = Some t ∧ heap (e_allocator s') !! p = Some (set_rq_pos (-1) t) ∧
              run_state t = kQueued ∧ has_work t = true;
  dq_least : steady env → ∀ q, q ∈ run_queue_ s → edf_gt s p q = false;
  dq_head : head (run_queue_ s) = Some p
}.

Lemma mid_ordered s : edf_mid s → steady env → ordered (edf_gt s) (run_queue_ s).
Proof.
  intros Hi Hsd. pose proof (ec_order _ _ Hi Hsd) as Ho.
  rewrite (proj2 (find_first_None 0 (run_queue_ s))) in Ho; [done|].
  intros H0. destruct (core_queued 0 s 0 Hi H0) as (t & Ht & _). by apply (core_nonzero 0 s) in Ht.
Qed.

Lemma mid_work_queued s q : edf_mid s → q ∈ run_queue_ s →
  ∃ t, heap (e_allocator s) !! q = Some t ∧ run_state t = kQueued ∧ 0 ≤ rq_pos t ∧ has_work t = true.
Proof.
  intros Hi Hq. destruct (core_queued 0 s q Hi Hq) as (t & Ht & Hst & Hpos). exists t. split_and!; try done.
  destruct (mid_work s q t Hi Ht) as [_ Hw]. unfold work_ok in Hw. by rewrite Hst in Hw.
Qed.

Lemma mid_comparable s q : edf_mid s → q ∈ run_queue_ s → comparable s q.
Proof.
  intros Hi Hq. destruct (mid_work_queued s q Hi Hq) as (t & Ht & _ & _ & Hw).
  eapply basic_comparable; [exact Ht|by eapply ec_basic|done].
Qed.

Lemma head_least s p l q : edf_mid s → steady env → run_queue_ s = p :: l → q ∈ run_queue_ s → edf_gt s p q = false.
Proof.
  intros Hi Hsd E (i & Hq)%list_elem_of_lookup. destruct i as [|i].
  - rewrite E in Hq. injection Hq as <-. destruct (edf_gt s p p) eqn:X; [|done]. pose proof (edf_gt_total s p p X). congruence.
  - eapply (ordered_min (edf_gt s) (edf_gt_trans s)); [by apply mid_ordered|by rewrite E|exact Hq|lia].
Qed.

(** A queued task leaves, from any position. *)
Lemma queue_place p s t : run_state t = kQueued → 0 ≤ rq_pos t → heap (e_allocator s) !! p = Some t → edf_place t ∈ [None; Some ERun].
Proof. intros Hst Hpos _. unfold edf_place. rewrite Hst, (proj2 (Z.leb_le 0 _)) by done. set_solver. Qed.

Lemma e_wp_leave p t s pos back l (Q : unit → Edf → Prop) (b : bool) :
  edf_core p s → heap (e_allocator s) !! p = Some t → run_state t = kQueued → 0 ≤ rq_pos t →
  p :: l ≡ₚ run_queue_ s → (b = true → (pos < length l)%nat ∧ (steady env → broken_at (edf_gt s) l pos)) → (b = false → steady env → ordered (edf_gt s) l) →
  (∀ s', edf_core p s' → (steady env → ordered (edf_gt s') (run_queue_ s')) → touched p (set_rq_pos (-1) t) s s' → run_queue_ s' ≡ₚ l →
     heap (e_allocator s') !! p = Some (set_rq_pos (-1) t) → Q tt s') →
  back = Z.of_nat pos →
  wp (whenM b (UpdateRunqueuePosition back)) (put_queue l (put_task p (set_rq_pos (-1) t) s)) Q.
Proof.
  intros Hi Hp Hst Hpos El Hb Ho HQ ->. set (t1 := set_rq_pos (-1) t). pose proof (core_nodup p s Hi) as Hnd.
  assert (NoDup l ∧ p ∉ l) as [Hndl Hnin] by (rewrite <- El in Hnd; apply NoDup_cons in Hnd; naive_solver).
  assert (∀ q, q ≠ p → q ∈ l ↔ q ∈ run_queue_ s) as Hl by (intros q Hq; rewrite <- El; set_solver).
  assert (edf_place t1 = None) as Hpl1 by (unfold edf_place, t1; simpl; by rewrite Hst).
  assert (sifted (steady env) (put_task p t1 s) l Q) as Hs.
  { eapply (sifted_mid p t t1); try done; [by eapply queue_place|apply set_pos_basic; [by eapply ec_basic|done|lia]|].
    intros s' Hc Ho' Ht El' _ Hp'. apply HQ; [done|done|done|done|by apply Hp']. }
  apply wp_when; intros Eb.
  - destruct (Hb Eb) as [Hlt Hbr]. apply (wp_UpdateRunqueuePosition (steady env) (put_task p t1 s) l); [done| | |done|done| |done].
    + pose proof (queue_length p s Hi). assert (length l ≤ length (run_queue_ s))%nat by (rewrite <- El; simpl; lia). lia.
    + intros q Hq. assert (q ≠ p) by congruence. apply comparable_put; [done|]. eapply queue_comparable; [done|by apply Hl|done].
    + intros Hsd. eapply broken_ext; [|exact (Hbr Hsd)]. intros i j a c _ _ Ha Hc. apply gt_put_task; intros ->; apply Hnin; by eapply list_elem_of_lookup_2.
  - apply Hs; [done|]. intros Hsd. eapply ordered_ext; [|by apply Ho]. intros a c Ha Hc. apply gt_put_task; congruence.
Qed.

(** The queue without the task at [pos], which the last one replaces. *)
Lemma pop_facts p s pos back :
  edf_core p s → run_queue_ s !! pos = Some p → S back = length (run_queue_ s) → (steady env → broken_at (edf_gt s) (run_queue_ s) pos) →
  let l := swapl pos back (run_queue_ s) in
  NoDup l ∧ l !! back = Some p ∧ length l = S back ∧ p :: take back l ≡ₚ run_queue_ s ∧
  (pos ≠ back → (pos < length (take back l))%nat ∧ (steady env → broken_at (edf_gt s) (take back l) pos)) ∧
  (pos = back → l = run_queue_ s ∧ (steady env → ordered (edf_gt s) (take back l))).
Proof.
  intros Hi Hat Hb Hbr l. pose proof (core_nodup p s Hi) as Hnd. pose proof (lookup_lt_Some _ _ _ Hat) as Hlt.
  destruct (lookup_lt_is_Some_2 (run_queue_ s) back) as [x Hx]; [lia|].
  assert (length l = S back) as El by (unfold l; rewrite (Permutation_length (swapl_perm _ _ _)); lia).
  assert (l !! back = Some p) as Hl by (unfold l; rewrite (swapl_lookup pos back _ p x) by done; by rewrite decide_True).
  split; [unfold l; by rewrite swapl_perm|]. split; [done|]. split; [done|]. split; [|split].
  - rewrite <- (swapl_perm pos back (run_queue_ s)). fold l. rewrite <- (take_drop back l) at 2. rewrite (drop_S _ p back Hl).
    rewrite drop_ge by lia. by rewrite Permutation_app_comm.
  - intros Hne. split; [rewrite length_take; lia|]. intros Hsd. by apply (broken_pop _ _ pos back p); [apply Hbr|lia|..].
  - intros ->. assert (l = run_queue_ s) as E.
    { unfold l, swapl. rewrite Hat. rewrite list_insert_insert_eq. by apply list_insert_id. }
    split; [done|]. rewrite E. intros Hsd. by apply ordered_pop; [apply Hbr|].
Qed.

Lemma touched_view p t s s' : touched p (set_rq_pos (-1) t) s s' → heap (e_allocator s) !! p = Some t → view s' = view s.
Proof. intros [-> _] Hp. apply insert_id. unfold view. by rewrite lookup_fmap, Hp. Qed.

Lemma e_wp_Dequeue s (Q : Z → Edf → Prop) :
  edf_mid s → (run_queue_ s = [] → Q 0 s) → (∀ p s', p ≠ 0 → dequeued p s s' → Q p s') → wp E_Dequeue s Q.
Proof.
  intros Hi H0 HQ. unfold E_Dequeue. wpstep. wpstep. destruct (run_queue_ s) as [|p tl] eqn:Erq; [wpstep; by apply H0|].
  destruct (mid_work_queued s p Hi) as (t & Hp & Hst & Hpos & Hw); [rewrite Erq; by left|].
  pose proof (mid_core p s Hi) as Hc. assert (run_queue_ s !! 0%nat = Some p) as Hat by by rewrite Erq.
  set (back := length tl). assert (S back = length (run_queue_ s)) as Eb by by rewrite Erq.
  destruct (pop_facts p s 0 back Hc Hat Eb) as (Hnd & Hl & El & Eperm & Hne & Heq).
  { intros Hsd. apply ordered_broken; [apply edf_gt_trans|by apply mid_ordered]. }
  set (l := swapl 0 back (run_queue_ s)) in *. cbv zeta. rewrite <- Erq.
  replace (Z.of_nat (length (run_queue_ s)) - 1) with (Z.of_nat back) by lia.
  rewrite <- (put_queue_same 0 s Hi) at 1. wpstep.
  destruct (lookup_lt_is_Some_2 (run_queue_ s) back) as [x Hx]; [lia|].
  apply (wp_swap 0 back (run_queue_ s) s p x); [by eapply core_nodup|done|done| | |].
  { eapply mid_comparable; [done|by eapply list_elem_of_lookup_2]. }
  { eapply mid_comparable; [done|by eapply list_elem_of_lookup_2]. }
  fold l. wpstep. eapply wp_rq_at; [exact Hl|]. wpstep. eapply wp_task; [by apply (queue_at l s p back t)|].
  wpstep. wpstep; [exact Hw|]. wpstep. wpstep; [by apply Z.eqb_eq|].
  wpstep. eapply wp_upd; [by apply (queue_at l s p back t)|]. wpstep. unfold pop_back. wpstep.
  cbn [run_queue_ set_allocator Edf_has_allocator set_e_allocator put_queue set_run_queue].
  pose proof (popped l p t s back Hnd Hl (eq_sym El) Hp) as Epop. simpl in Epop |- *. rewrite Epop. clear Epop.
  wpstep. wpstep. wpstep.
  eapply (e_wp_leave p t s 0 _ (take back l)); [done|done|done|done|done| | | |done].
  - intros Hn. apply Hne. intros <-. by rewrite bool_decide_eq_true_2 in Hn.
  - intros Hn. apply negb_false_iff, bool_decide_eq_true in Hn. change (run_queue_ _) with (take back l) in Hn. rewrite Hn.
    intros _ c _ a b Ha. by rewrite lookup_nil in Ha.
  - intros s' Hc' Ho' Ht El' Hp'. wpstep. apply HQ; [by eapply core_nonzero|]. split.
    + eapply core_mid; [done|done|]. intros t' Ht'. assert (t' = set_rq_pos (-1) t) as -> by congruence.
      unfold work_ok. simpl. by rewrite Hst.
    + by eapply touched_view.
    + apply Ht.
    + apply Ht.
    + by rewrite El'.
    + by exists t.
    + intros Hsd q Hq. by eapply head_least.
    + by rewrite Erq.
Qed.

Lemma wp_Peek s (Q : Z → Edf → Prop) :
  edf_mid s → (run_queue_ s = [] → Q 0 s) →
  (∀ p, p ∈ run_queue_ s → p ≠ 0 → (steady env → ∀ q, q ∈ run_queue_ s → edf_gt s p q = false) → Q p s) → wp E_Peek s Q.
Proof.
  intros Hi H0 HQ. unfold E_Peek. wpstep. wpstep. destruct (run_queue_ s) as [|p tl] eqn:Erq; [wpstep; by apply H0|].
  destruct (mid_work_queued s p Hi) as (t & Hp & Hst & Hpos & Hw); [rewrite Erq; by left|].
  destruct (ec_pos _ _ Hi 0%nat p) as (t' & Ht' & E); [by rewrite Erq|]. assert (t' = t) as -> by congruence.
  wpstep. eapply wp_task; [exact Hp|]. wpstep. wpstep; [done|]. wpstep. wpstep; [by apply Z.eqb_eq|]. wpstep. apply HQ.
  - by left.
  - by eapply core_nonzero.
  - intros Hsd q Hq. eapply head_least; [done|done|done|by rewrite Erq].
Qed.

(** [RemoveFromRunqueue] of a task whose parameters may have changed. *)
Lemma wp_check_queued p t s (Q : EdfTask → Edf → Prop) :
  edf_core p s → heap (e_allocator s) !! p = Some t → run_state t = kQueued → 0 ≤ rq_pos t → Q t s → wp (check_queued p) s Q.
Proof.
  intros Hi Hp Hst Hpos HQ. pose proof (core_at p s p t Hi Hp Hst Hpos) as Hat. apply lookup_lt_Some in Hat.
  unfold check_queued. wpstep. eapply wp_task; [exact Hp|]. wpstep. wpstep; [by apply bool_decide_eq_true|].
  wpstep. wpstep; [by apply Z.leb_le|]. wpstep. wpstep. wpstep. wpstep; [apply Z.ltb_lt; lia|]. by wpstep.
Qed.

Lemma wp_Remove p t s (Q : unit → Edf → Prop) :
  edf_core p s → heap (e_allocator s) !! p = Some t → run_state t = kQueued → 0 ≤ rq_pos t → comparable s p →
  (∀ s', edf_core p s' → heap (e_allocator s') !! p = Some (set_run_state kPaused (set_rq_pos (-1) t)) →
     touched p (set_run_state kPaused (set_rq_pos (-1) t)) s s' → Q tt s') →
  wp (E_RemoveFromRunqueue p) s Q.
Proof.
  intros Hi Hp Hst Hpos Hcmp HQ. pose proof (core_at p s p t Hi Hp Hst Hpos) as Hat. pose proof (core_nodup p s Hi) as Hnd.
  set (pos := Z.to_nat (rq_pos t)) in *. assert (rq_pos t = Z.of_nat pos) as Epos by lia. pose proof (lookup_lt_Some _ _ _ Hat) as Hlt.
  unfold E_RemoveFromRunqueue. wpstep. eapply wp_check_queued; [done..|]. wpstep. wpstep.
  set (back := (length (run_queue_ s) - 1)%nat). assert (S back = length (run_queue_ s)) as Eb by lia.
  replace (Z.of_nat (length (run_queue_ s)) - 1) with (Z.of_nat back) by lia. rewrite Epos. cbv zeta.
  pose proof (ec_order _ _ Hi) as Ho. unfold ordered_but in Ho. rewrite (proj2 (find_first_lookup p _ _ Hnd) Hat) in Ho.
  destruct (pop_facts p s pos back Hi Hat Eb Ho) as (Hndl & Hl & El & Eperm & Hne & Heq).
  set (l := swapl pos back (run_queue_ s)) in *.
  assert (wp (whenM (negb (Z.of_nat pos =? Z.of_nat back)) (swap (Z.of_nat pos) (Z.of_nat back))) s (λ _ s', s' = put_queue l s)) as Hsw.
  { rewrite <- (put_queue_same p s Hi) at 1. apply wp_when; intros E.
    - destruct (lookup_lt_is_Some_2 (run_queue_ s) back) as [x Hx]; [lia|].
      apply (wp_swap pos back (run_queue_ s) s p x); try done.
      destruct (decide (x = p)) as [->|Hx']; [done|]. eapply queue_comparable; [done|by eapply list_elem_of_lookup_2|done].
    - apply negb_false_iff, Z.eqb_eq in E. destruct Heq as [-> _]; [lia|done]. }
  wpstep. eapply wp_mono; [exact Hsw|]. intros _ s1 ->.
  wpstep. eapply wp_task; [by apply (queue_at l s p back t)|]. wpstep. wpstep; [by apply Z.eqb_eq|].
  wpstep. eapply wp_upd; [by apply (queue_at l s p back t)|]. wpstep. unfold pop_back. wpstep.
  cbn [run_queue_ set_allocator Edf_has_allocator set_e_allocator put_queue set_run_queue].
  pose proof (popped l p t s back Hndl Hl (eq_sym El) Hp) as Epop. simpl in Epop |- *. rewrite Epop. clear Epop.
  wpstep. eapply (e_wp_leave p t s pos _ (take back l)); [done|done|done|done|done| | | |done].
  - intros Hn. apply Hne. intros ->. by rewrite Z.eqb_refl in Hn.
  - intros Hn. apply negb_false_iff, Z.eqb_eq in Hn. apply Heq. lia.
  - intros s' Hc' Ho' Ht El' Hp'. eapply wp_upd; [exact Hp'|].
    destruct (core_put p (set_rq_pos (-1) t) (set_run_state kPaused (set_rq_pos (-1) t)) s' Hc' Hp') as [Hc2 _]; try done.
    + unfold edf_place. simpl. by rewrite Hst.
    + pose proof (ec_basic _ _ Hc' p _ Hp') as []. by split.
    + apply HQ; [exact Hc2|apply lookup_insert_eq|]. eapply touched_again; [exact Ht|apply touched_put].
Qed.

(** [UpdateRunqueue] *)
Lemma wp_UpdateRunqueue p t s (Q : unit → Edf → Prop) :
  edf_core p s → heap (e_allocator s) !! p = Some t → run_state t = kQueued → 0 ≤ rq_pos t → has_work t = true →
  (∀ s', edf_mid s' → touched p t s s' → ¬ is_held s' p → Q tt s') → wp (E_UpdateRunqueue p) s Q.
Proof.
  intros Hi Hp Hst Hpos Hw HQ. unfold E_UpdateRunqueue. wpstep. eapply wp_check_queued; [done..|]. by eapply wp_resift.
Qed.

(** ** Leaving and entering the other places *)

(** A task that is not in the run queue changes, and the slots with it. *)
Lemma core_change p t t1 s s' :
  edf_core p s → heap (e_allocator s) !! p = Some t → edf_place t ≠ Some ERun →
  e_allocator s' = put_obj p t1 (e_allocator s) → run_queue_ s' = run_queue_ s →
  at_rest edf_place (<[p := t1]> (heap (e_allocator s))) (e_queues s') → gtid t1 = gtid t → basic_ok s t1 →
  orchs_ s' = orchs_ s → (∀ c, agent (e_cpus s' c) = agent (e_cpus s c)) → enclave_cpu (global_cpu_ s') →
  edf_core p s' ∧ (steady env → ordered (edf_gt s') (run_queue_ s')).
Proof.
  intros Hi Hp Hpl Ea Eq Hr Hg Hb Eo Hag Hgl. pose proof (core_nodup p s Hi) as Hnd.
  pose proof (rest_out _ _ _ _ t ERun (ec_rest _ _ Hi) Hp Hpl) as Hnin. simpl in Hnin.
  assert (steady env → ordered (edf_gt s') (run_queue_ s')) as Ho.
  { intros Hsd. rewrite Eq. eapply ordered_ext; [|by eapply core_ordered]. intros a b Ha Hb'. unfold edf_gt, key, task_key. rewrite Ea. simpl.
    rewrite !lookup_insert_ne by congruence. destruct (heap (e_allocator s) !! a), (heap (e_allocator s) !! b);
      by rewrite ?(params_of_orchs s s') by done. }
  assert (∀ q u, heap (e_allocator s') !! q = Some u → (q = p ∧ u = t1) ∨ (q ≠ p ∧ heap (e_allocator s) !! q = Some u)) as Hheap.
  { intros q u Hu. rewrite Ea in Hu. simpl in Hu. apply lookup_insert_Some in Hu as [[<- <-]|[? ?]]; [by left|right; done]. }
  split; [|done]. split.
  - rewrite Ea. by eapply alloc_inv_upd; [apply Hi|..].
  - rewrite Ea. simpl. rewrite map_size_insert_Some by done. apply Hi.
  - by rewrite Ea.
  - intros i q Hq. rewrite Eq in Hq. destruct (ec_pos _ _ Hi i q Hq) as (u & Hu & E).
    exists u. rewrite Ea. simpl. rewrite lookup_insert_ne; [done|]. intros <-. apply Hnin. by eapply list_elem_of_lookup_2.
  - intros Hsd. specialize (Ho Hsd). rewrite Eq in *. by rewrite (proj2 (find_first_None p (run_queue_ s)) Hnin).
  - intros q u [[-> ->]|[Hne Hu]]%Hheap; apply (basic_orchs s); [done|done|done|by eapply ec_basic].
  - intros q u Hne [[-> ->]|[_ Hu]]%Hheap; [done|by eapply ec_work].
  - intros c. rewrite Hag. apply (ec_agent _ _ Hi).
  - done.
  - rewrite Eo. exact (ec_orchs _ _ Hi).
Qed.

(** A task that is nowhere, whatever its state says. *)
Record lifted (p : Z) (t : EdfTask) (s : Edf) : Prop := {
  lf_at : heap (e_allocator s) !! p = Some t;
  lf_pos : rq_pos t = -1;
  lf_core : edf_core p (put_task p (set_run_state kBlocked t) s)
}.

Lemma blocked_basic s t : basic_ok s t → rq_pos t = -1 → basic_ok s (set_run_state kBlocked t).
Proof. intros [] Hp. by split. Qed.

Lemma lifted_put p t t1 s :
  lifted p t s → gtid t1 = gtid t → rq_pos t1 = -1 → basic_ok s (set_run_state kBlocked t1) → lifted p t1 (put_task p t1 s).
Proof.
  intros [Hp Hpos Hc] Hg Hpos1 Hb. split; [apply lookup_insert_eq|done|].
  assert (heap (e_allocator (put_task p (set_run_state kBlocked t) s)) !! p = Some (set_run_state kBlocked t)) as Hp' by apply lookup_insert_eq.
  destruct (core_put p _ (set_run_state kBlocked t1) _ Hc Hp') as [H _]; [done|simpl; congruence|done|apply (basic_orchs s); [done|exact Hb]|].
  unfold put_task, put_obj in *. simpl in *. rewrite insert_insert_eq in *. unfold set_e_allocator in *. simpl in *. exact H.
Qed.

Lemma core_lifted p t s : edf_core p s → heap (e_allocator s) !! p = Some t → edf_place t = None → rq_pos t = -1 → lifted p t s.
Proof.
  intros Hi Hp Hpl Hpos. split; [done|done|]. apply core_put with (t := t); [done|done|by rewrite Hpl|done|done|].
  apply blocked_basic; [by eapply ec_basic|done].
Qed.

Lemma lifted_basic p t s : lifted p t s → basic_ok s (set_run_state kBlocked t).
Proof.
  intros [Hp Hpos Hc]. apply (basic_orchs (put_task p (set_run_state kBlocked t) s)); [done|].
  eapply ec_basic; [exact Hc|apply lookup_insert_eq].
Qed.

(** A task leaves the yielding tasks or its CPU. *)
Lemma leave_lifted p t s s' :
  edf_core p s → heap (e_allocator s) !! p = Some t → edf_place t ≠ Some ERun → rq_pos t = -1 →
  e_allocator s' = e_allocator s → (∀ k, e_queues s' k = others p (e_queues s k)) → same_rest s s' → lifted p t s'.
Proof.
  intros Hi Hp Hpl Hpos Ea Hq Hsr. split; [by rewrite Ea|done|].
  assert (run_queue_ s' = run_queue_ s) as Erq.
  { pose proof (Hq ERun) as E. simpl in E. rewrite E. apply others_notin. apply (rest_out _ _ _ _ t ERun (ec_rest _ _ Hi) Hp Hpl). }
  eapply (core_change p t (set_run_state kBlocked t) s); try done.
  - simpl. by rewrite Ea.
  - apply (rest_ext _ _ (requeue edf_place p (set_run_state kBlocked t) false (e_queues s))); [apply rest_requeue, Hi|].
    intros k. unfold requeue. rewrite decide_False by done. destruct k as [| |c]; [exact (Hq ERun)|exact (Hq EYield)|exact (Hq (ECur c))].
  - apply blocked_basic; [by eapply ec_basic|done].
  - apply Hsr.
  - intros c. apply Hsr.
  - simpl. rewrite (sr_global _ _ Hsr). exact (ec_global _ _ Hi).
Qed.

(** [Enqueue] does not look at the state of the task. *)
Lemma Enqueue_state p t r s : heap (e_allocator s) !! p = Some t → E_Enqueue p (put_task p (set_run_state r t) s) = E_Enqueue p s.
Proof.
  intros Hp. unfold E_Enqueue. generalize UpdateRunqueuePosition as upd. intros upd.
  unfold upd_task, task_at, check, gets, modify, lift, mbind, M_bind, mret, M_ret, deref. simpl. rewrite Hp, lookup_insert_eq. simpl.
  destruct (negb (has_work t)); simpl.
  - rewrite Hp, lookup_insert_eq. simpl. unfold put_task, put_obj. simpl. by rewrite insert_insert_eq.
  - destruct (rq_pos t <? 0); [|done]. simpl. rewrite Hp, lookup_insert_eq. simpl.
    unfold put_task, put_obj, set_e_allocator, set_run_queue. simpl. by rewrite insert_insert_eq.
Qed.

Lemma wp_Enqueue_lifted p t s (Q : unit → Edf → Prop) :
  lifted p t s → (∀ s', edf_mid s' → touched p (set_run_state (if has_work t then kQueued else kPaused) t) s s' → ¬ is_held s' p → Q tt s') →
  wp (E_Enqueue p) s Q.
Proof.
  intros [Hp Hpos Hc] HQ. unfold wp. rewrite <- (Enqueue_state p t kBlocked s Hp). change (wp (E_Enqueue p) (put_task p (set_run_state kBlocked t) s) Q).
  eapply e_wp_Enqueue; [exact Hc|apply lookup_insert_eq|done|done|]. intros s' Hs' Ht Hnh. apply HQ; [done| |done].
  eapply touched_again; [apply touched_put|exact Ht].
Qed.

(** [Yield] *)
Lemma e_wp_Yield p t s (Q : unit → Edf → Prop) :
  lifted p t s → run_state t = kOnCpu ∨ run_state t = kQueued → has_work t = true →
  (∀ s', edf_mid s' → touched p (set_run_state kYielding t) s s' → yielding_tasks_ s' = yielding_tasks_ s ++ [p] →
    run_queue_ s' = run_queue_ s → Q tt s') → wp (E_Yield p) s Q.
Proof.
  intros [Hp Hpos Hc] Hst Hw HQ. unfold E_Yield. wpstep. eapply wp_task; [exact Hp|]. wpstep. wpstep.
  { unfold has_state. destruct Hst as [-> | ->]; done. }
  wpstep. eapply wp_upd; [exact Hp|]. wpstep. set (t1 := set_run_state kYielding t).
  pose proof (blocked_basic _ _ (ec_basic _ _ Hc p _ (lookup_insert_eq _ _ _)) Hpos) as Hb.
  assert (p ∉ yielding_tasks_ s) as Hny.
  { apply (rest_out _ _ _ _ (set_run_state kBlocked t) EYield (ec_rest _ _ Hc)); [apply lookup_insert_eq|done]. }
  set (s' := set_yielding _ _). destruct (core_change p (set_run_state kBlocked t) t1 (put_task p (set_run_state kBlocked t) s) s') as [H1 H2]; try done.
  - apply lookup_insert_eq.
  - unfold s'. simpl. unfold put_obj. simpl. by rewrite insert_insert_eq.
  - apply (rest_ext _ _ (requeue edf_place p t1 false (e_queues s))); [apply rest_requeue, (ec_rest _ _ Hc)|]. intros k. unfold requeue.
    assert (∀ k, others p (e_queues s k) = e_queues s k) as Hoth.
    { intros k'. apply others_notin. apply (rest_out _ _ _ _ (set_run_state kBlocked t) k' (ec_rest _ _ Hc)); [apply lookup_insert_eq|done]. }
    rewrite Hoth. by destruct k.
  - by destruct Hb; split.
  - apply (ec_global _ _ Hc).
  - apply HQ; [|eapply touched_queues; [apply touched_put|done|by split]|done|done]. eapply core_mid; [done|done|]. intros t' Ht'.
    simpl in Ht'. rewrite lookup_insert_eq in Ht'. by injection Ht' as <-.
Qed.

(** [Unyield] *)
Lemma wp_Unyield p t s (Q : unit → Edf → Prop) :
  edf_mid s → heap (e_allocator s) !! p = Some t → run_state t = kYielding →
  (∀ s', edf_mid s' → touched p (set_run_state kQueued t) s s' → ¬ is_held s' p → Q tt s') → wp (E_Unyield p) s Q.
Proof.
  intros Hi Hp Hst HQ. pose proof (mid_core p s Hi) as Hc. destruct (mid_work s p t Hi Hp) as [Hb Hw]. unfold work_ok in Hw. rewrite Hst in Hw.
  assert (rq_pos t = -1) as Hpos by (apply (bo_unqueued _ _ Hb); by rewrite Hst).
  assert (edf_place t = Some EYield) as Hpl by (unfold edf_place; by rewrite Hst).
  pose proof (rest_in _ _ _ _ t EYield (ec_rest _ _ Hi) Hp Hpl) as Hin. simpl in Hin.
  destruct (find_first_spec p _ Hin) as (i & Ei & Hat).
  unfold E_Unyield. wpstep. eapply wp_task; [exact Hp|]. wpstep. wpstep; [by apply bool_decide_eq_true|]. wpstep. wpstep. rewrite Ei.
  wpstep. wpstep. eapply (wp_Enqueue_lifted p t).
  - eapply (leave_lifted p t s); [done|done|congruence|done|done| |by split]. intros k.
    assert (k ≠ EYield → others p (e_queues s k) = e_queues s k) as Hoth.
    { intros Hk. apply others_notin. apply (rest_out _ _ _ _ t k (ec_rest _ _ Hi) Hp). congruence. }
    destruct k as [| |c]; [symmetry; by apply Hoth| |symmetry; by apply Hoth].
    simpl. apply delete_others; [apply (proj2 (ec_rest _ _ Hi) EYield)|done].
  - rewrite Hw. intros s' Hs' (E & Hsr & Hh) Hnh. apply HQ; [done| |done]. split_and!; [rewrite E; done| |].
    + etrans; [|exact Hsr]. by split.
    + intros q Hq. by rewrite Hh.
Qed.
End inv.
