(* ===== verification/EdfSafe.v ===== *)
(** * EdfSafe: the EDF agent between the operations on its run queue

    The parameters of a task change under the agent's hands: the application
    writes them, the agent copies them and moves the task accordingly.  What
    the application writes may make a CHECK fail; it cannot make the agent use
    a task that was freed, loop, lose a task or put its queues in disorder.
    [ewp m s Q]: run in [s], [m] stops the agent at a CHECK, a GHOST_ERROR or an
    index out of range, or ends in [Q]. *)

From S2P Require Import Prelude Outcome CpuMap CpuMapSpec.
From S2P Require Import Topology TopologySpec Dispatch Placement PrioTable Edf EdfHeap EdfOps.
From stdpp Require Import gmap functions sorting.
From Stdlib Require Import ZArith Lia.

Local Open Scope Z_scope.

Definition edf_stop (f : fault) : Prop := f ≠ UseAfterFree ∧ f ≠ OutOfFuel.

Notation ewp := (wpf edf_stop).

(** ** What a step on one task leaves alone *)

Record calm (p : Z) (s s' : Edf) : Prop := {
  cm_held : ∀ q, q ≠ p → is_held s' q ↔ is_held s q;
  cm_dom : dom (heap (e_allocator s')) = dom (heap (e_allocator s));
  cm_map : task_map_ (e_allocator s') = task_map_ (e_allocator s);
  cm_num : num_tasks_ s' = num_tasks_ s;
  cm_disc : in_discovery_ s' = in_discovery_ s;
  cm_next : ∀ c, next (e_cpus s' c) = next (e_cpus s c);
  cm_orchs : ∀ tg, is_Some (orchs_ s !! tg) → is_Some (orchs_ s' !! tg)
}.

Global Instance calm_refl p : Reflexive (calm p).
Proof. intros s. by split. Qed.

Global Instance calm_trans p : Transitive (calm p).
Proof. intros s1 s2 s3 [H1 H2 H3 H4 H5 H6 H7] [H1' H2' H3' H4' H5' H6' H7']. split; [intros q Hq; by rewrite H1', H1|congruence..|intros c; by rewrite H6'|auto]. Qed.

Lemma calm_put p t t1 s : heap (e_allocator s) !! p = Some t → calm p s (put_task p t1 s).
Proof.
  intros Hp. split; try done.
  - intros q Hq. apply held_ext. simpl. by rewrite lookup_insert_ne.
  - simpl. rewrite dom_insert_L. apply elem_of_dom_2 in Hp. set_solver.
Qed.

Lemma view_dom s s' : dom (view s') = dom (view s) → dom (heap (e_allocator s')) = dom (heap (e_allocator s)).
Proof. unfold view. by rewrite !dom_fmap_L. Qed.

Lemma touched_calm p t t0 s s' : touched p t s s' → heap (e_allocator s) !! p = Some t0 → calm p s s'.
Proof.
  intros (Ev & Hr & Hh) Hp. split; try done; try apply Hr.
  - apply view_dom. rewrite Ev, dom_insert_L. assert (p ∈ dom (view s)); [|set_solver].
    unfold view. rewrite dom_fmap_L. by apply elem_of_dom_2 in Hp.
  - intros tg. by rewrite (sr_orchs _ _ Hr).
Qed.

(** The tasks and queues stay. *)
Lemma calm_same p s s' :
  e_allocator s' = e_allocator s → num_tasks_ s' = num_tasks_ s → in_discovery_ s' = in_discovery_ s →
  (∀ c, next (e_cpus s' c) = next (e_cpus s c)) → (∀ tg, is_Some (orchs_ s !! tg) → is_Some (orchs_ s' !! tg)) → calm p s s'.
Proof. intros Ea Hn Hd Hx Ho. split; try done; rewrite ?Ea; try done. intros q _. apply held_ext. by rewrite Ea. Qed.

Lemma calm_weaken p q s s' : calm p s s' → ¬ is_held s p → ¬ is_held s' p → calm q s s'.
Proof. intros [] Hn Hn'. split; try done. intros r Hr. destruct (decide (r = p)) as [->|Hne]; [tauto|by apply cm_held0]. Qed.

Section safe.
Context (env : EdfEnv) (Henv : edf_env_ok env).

#[local] Instance edf_safe_task_type : TaskType EdfTask := EdfTask_type env.

Notation edf_core := (edf_core env).
Notation edf_mid := (edf_mid env).
Notation basic_ok := (basic_ok env).

Lemma stop_check : edf_stop CheckFailed.
Proof. done. Qed.

Lemma ewp_check b s (Q : unit → Edf → Prop) : (b = true → Q tt s) → ewp (check b) s Q.
Proof. apply wpf_check, stop_check. Qed.

Lemma ewp_task p t s (Q : EdfTask → Edf → Prop) : heap (e_allocator s) !! p = Some t → Q t s → ewp (task_at p) s Q.
Proof. intros Hp HQ. apply wpf_wp. eapply wp_task; [exact Hp|done]. Qed.

Lemma ewp_upd p t f s (Q : unit → Edf → Prop) :
  heap (e_allocator s) !! p = Some t → Q tt (put_task p (f t) s) → ewp (upd_task p f) s Q.
Proof. intros Hp HQ. apply wpf_wp. eapply wp_upd; [exact Hp|done]. Qed.

Lemma ewp_ask {A} (f : nat → A) s (Q : A → Edf → Prop) : Q (f (asked s)) (tick s) → ewp (ask f) s Q.
Proof. done. Qed.

Lemma ewp_orch tg o s (Q : Orchestrator → Edf → Prop) : orchs_ s !! tg = Some o → Q o s → ewp (orch_at tg) s Q.
Proof. intros E HQ. unfold orch_at. fstep. fstep. by rewrite E. Qed.

(** ** Changes elsewhere *)

Lemma core_same p s s' :
  edf_core p s → e_allocator s' = e_allocator s → (∀ k, e_queues s' k = e_queues s k) → orchs_ s' = orchs_ s →
  (∀ c, agent (e_cpus s' c) = agent (e_cpus s c)) → enclave_cpu env (global_cpu_ s') → edf_core p s'.
Proof.
  intros Hi Ea Eq Eo Hag Hg.
  assert (run_queue_ s' = run_queue_ s) as Er by apply (Eq ERun).
  assert (∀ a b, edf_gt s' a b = edf_gt s a b) as Egt.
  { intros a b. unfold edf_gt, key, task_key. rewrite Ea.
    destruct (heap (e_allocator s) !! a), (heap (e_allocator s) !! b); by rewrite ?(params_of_orchs s s') by done. }
  split.
  - rewrite Ea. apply (ec_alloc _ _ _ Hi).
  - rewrite Ea. apply (ec_size _ _ _ Hi).
  - rewrite Ea. eapply rest_ext; [apply (ec_rest _ _ _ Hi)|done].
  - rewrite Ea, Er. apply (ec_pos _ _ _ Hi).
  - intros Hsd. pose proof (ec_order _ _ _ Hi Hsd) as Ho. rewrite Er. destruct (find_first p (run_queue_ s)).
    + eapply broken_ext; [|exact Ho]. intros. apply Egt.
    + eapply ordered_ext; [|exact Ho]. intros. apply Egt.
  - intros q t. rewrite Ea. intros Hq. eapply (basic_orchs env s); [done|by eapply ec_basic].
  - intros q t Hne. rewrite Ea. by apply (ec_work _ _ _ Hi).
  - intros c. rewrite Hag. apply (ec_agent _ _ _ Hi).
  - done.
  - rewrite Eo. apply (ec_orchs _ _ _ Hi).
Qed.

Lemma core_tick p s : edf_core p s → edf_core p (tick s).
Proof. intros Hi. apply (core_same p s); [done|done|done|done|done|apply (ec_global _ _ _ Hi)]. Qed.

Lemma core_event p e s : edf_core p s → edf_core p (add_event e s).
Proof. intros Hi. apply (core_same p s); [done|done|done|done|done|apply (ec_global _ _ _ Hi)]. Qed.

(** New copies of the parameters: no other task sees the difference. *)
Lemma core_orchs p s os :
  edf_core p s → (∀ tg o, os !! tg = Some o → orch_ok o) →
  (∀ r x, params_of s r = Some x → gpid_ x ≠ 0 → ∃ x', params_of (set_orchs os s) r = Some x' ∧ gpid_ x' = gpid_ x) →
  (steady env → ∀ q t, q ≠ p → heap (e_allocator s) !! q = Some t →
     qos_ <$> params_of (set_orchs os s) (sp t) = qos_ <$> params_of s (sp t)) →
  edf_core p (set_orchs os s).
Proof.
  intros Hi Hos Hpar Hqos.
  assert (steady env → ∀ a b, a ≠ p → b ≠ p → edf_gt (set_orchs os s) a b = edf_gt s a b) as Egt.
  { intros Hsd a b Ha Hb. unfold edf_gt, key, task_key. simpl e_allocator.
    assert (∀ q t, q ≠ p → heap (e_allocator s) !! q = Some t →
      match params_of (set_orchs os s) (sp t) with Some x => qos_ x | None => 0 end =
      match params_of s (sp t) with Some x => qos_ x | None => 0 end) as E.
    { intros q t Hq Ht. pose proof (Hqos Hsd q t Hq Ht) as E. destruct (params_of _ (sp t)), (params_of s (sp t)); simpl in E; congruence. }
    destruct (heap (e_allocator s) !! a) eqn:Ea, (heap (e_allocator s) !! b) eqn:Eb;
      rewrite ?(E a), ?(E b) by done; done. }
  split; try exact (ec_global _ _ _ Hi); try exact (ec_agent _ _ _ Hi); try apply Hi; try done.
  - intros Hsd. pose proof (ec_order _ _ _ Hi Hsd) as Ho. pose proof (core_nodup _ p s Hi) as Hnd. simpl.
    destruct (find_first p (run_queue_ s)) as [i|] eqn:Ei.
    + apply find_first_lookup in Ei; [|done]. eapply broken_ext; [|exact Ho]. intros j k a b Hj Hk Ha Hb. apply Egt; [done|..].
      * intros ->. apply Hj. by eapply NoDup_lookup.
      * intros ->. apply Hk. by eapply NoDup_lookup.
    + apply find_first_None in Ei. eapply ordered_ext; [|exact Ho]. intros a b Ha Hb. apply Egt; congruence.
  - intros q t Hq. pose proof (ec_basic _ _ _ Hi q t Hq) as []. split; try done. intros tg sid E.
    destruct (bo_params tg sid E) as (x & Hx & Eg). rewrite <- Eg. apply Hpar; [done|]. by rewrite Eg.
Qed.

(** The same parameters, with other statistics or flags. *)
Lemma core_orch p s tg o o' :
  edf_core p s → orchs_ s !! tg = Some o → orch_ok o' →
  (∀ i, (λ x, (gpid_ x, qos_ x)) <$> cachedsids_ o' !! i = (λ x, (gpid_ x, qos_ x)) <$> cachedsids_ o !! i) →
  edf_core p (set_orchs (<[tg := o']> (orchs_ s)) s).
Proof.
  intros Hi Ho Hok Hsame.
  assert (∀ r, (λ x, (gpid_ x, qos_ x)) <$> params_of (set_orchs (<[tg := o']> (orchs_ s)) s) r = (λ x, (gpid_ x, qos_ x)) <$> params_of s r) as E.
  { intros [| |tg' sid]; [done|done|]. simpl. destruct (decide (tg = tg')) as [<-|Hne].
    - rewrite lookup_insert_eq, Ho. simpl. apply Hsame.
    - by rewrite lookup_insert_ne. }
  apply core_orchs; [done|..].
  - intros tg' o1. rewrite lookup_insert_Some. intros [[<- <-]|[_ H]]; [done|by eapply ec_orchs].
  - intros r x Hx _. specialize (E r). rewrite Hx in E. destruct (params_of (set_orchs _ s) r) as [x'|]; [|done].
    exists x'. split; [done|]. by injection E.
  - intros _ q t _ _. specialize (E (sp t)). destruct (params_of (set_orchs _ s) (sp t)), (params_of s (sp t)); simpl in *; congruence.
Qed.

(** ** A task while its parameters change *)

Record editing (p : Z) (t : EdfTask) (s : Edf) : Prop := {
  ed_core : edf_core p s;
  ed_at : heap (e_allocator s) !! p = Some t
}.

(** The same thread, at the same place. *)
Record same_place (t t1 : EdfTask) : Prop := {
  sm_gtid : gtid t1 = gtid t;
  sm_state : run_state t1 = run_state t;
  sm_pos : rq_pos t1 = rq_pos t;
  sm_cpu : cpu t1 = cpu t
}.

Global Instance same_place_refl : Reflexive same_place.
Proof. intros t. by split. Qed.

Global Instance same_place_trans : Transitive same_place.
Proof. intros t1 t2 t3 [] []. split; by etrans. Qed.

Lemma edit_ok p t s : editing p t s → basic_ok s t.
Proof. intros [Hc Hp]. by eapply ec_basic. Qed.

Lemma same_edf_place t t1 : same_place t t1 → edf_place t1 = edf_place t.
Proof. intros [_ E1 E2 E3]. unfold edf_place. by rewrite E1, E2, E3. Qed.

Lemma basic_edit s t t1 :
  basic_ok s t → same_place t t1 → 0 < estimated_runtime t1 → sp t1 = sp t → has_work t1 = has_work t → basic_ok s t1.
Proof.
  intros [] [E1 E2 E3 E4] He Es Ew. split; rewrite ?E1, ?E2, ?E3, ?E4, ?Es, ?Ew; assumption.
Qed.

Lemma edit_put p t t1 s : editing p t s → same_place t t1 → basic_ok s t1 → editing p t1 (put_task p t1 s).
Proof.
  intros [Hc Hp] Hs Hb. split; [|apply lookup_insert_eq]. apply core_put with (t := t); try done; [by apply same_edf_place|apply Hs..].
Qed.

Lemma edit_tick p t s : editing p t s → editing p t (tick s).
Proof. intros [Hc Hp]. split; [by apply core_tick|done]. Qed.

(** The copy of an item. *)
Definition item (tg sid : Z) (x : SchedParams) (s : Edf) : Prop :=
  ∃ o, orchs_ s !! tg = Some o ∧ cachedsids_ o !! Z.to_nat sid = Some x.

Lemma item_params tg sid x s : item tg sid x s → params_of s (SpItem tg sid) = Some x.
Proof. intros (o & Ho & Hx). simpl. rewrite Ho. done. Qed.

(** What the steps on one task promise: the task is still being edited, at the
    same place, and the copies are as before. *)
Record edited (p : Z) (t : EdfTask) (s : Edf) (t' : EdfTask) (s' : Edf) : Prop := {
  et_edit : editing p t' s';
  et_place : same_place t t';
  et_calm : calm p s s';
  et_items : ∀ tg sid x, item tg sid x s → item tg sid x s'
}.

Lemma edited_refl p t s : editing p t s → edited p t s t s.
Proof. by split. Qed.

Lemma edited_put p t s t' s' t1 :
  edited p t s t' s' → same_place t' t1 → basic_ok s' t1 → edited p t s t1 (put_task p t1 s').
Proof.
  intros [He Hs Hc Hx] Hp Hb. split.
  - by eapply edit_put.
  - by etrans.
  - etrans; [exact Hc|]. by apply (calm_put p t'), He.
  - exact Hx.
Qed.

Lemma edited_tick p t s t' s' : edited p t s t' s' → edited p t s t' (tick s').
Proof. intros [He Hs Hc Hx]. split; [by apply edit_tick|done| |done]. etrans; [exact Hc|by apply calm_same]. Qed.

Lemma edited_ok p t s t' s' : edited p t s t' s' → basic_ok s' t'.
Proof. intros [He _ _ _]. by eapply edit_ok. Qed.

Lemma edited_at p t s t' s' : edited p t s t' s' → heap (e_allocator s') !! p = Some t'.
Proof. intros [He _ _ _]. by apply ed_at in He. Qed.

(** Only its durations and times change. *)
Definition retimed (t t1 : EdfTask) : Prop :=
  same_place t t1 ∧ sp t1 = sp t ∧ has_work t1 = has_work t ∧ wcid t1 = wcid t ∧ 0 < estimated_runtime t1.

Lemma edited_retimed p t s t' s' t1 : edited p t s t' s' → retimed t' t1 → edited p t s t1 (put_task p t1 s').
Proof. intros He (Hs & E1 & E2 & _ & E3). eapply edited_put; [done..|]. eapply basic_edit; [by eapply edited_ok|done..]. Qed.

Lemma ewp_SetRuntime p r (u : bool) t s (Q : unit → Edf → Prop) :
  heap (e_allocator s) !! p = Some t → (∀ e, Q tt (put_task p (set_runtimes r e t) s)) → ewp (SetRuntime p r u) s Q.
Proof.
  intros Hp HQ. unfold SetRuntime. fstep. eapply ewp_task; [exact Hp|]. fstep. apply ewp_check; intros _.
  eapply ewp_upd; [exact Hp|]. apply HQ.
Qed.

Lemma ewp_UpdateRuntime p t s (Q : unit → Edf → Prop) :
  heap (e_allocator s) !! p = Some t → (∀ r e, Q tt (put_task p (set_runtimes r e t) (tick s))) → ewp (UpdateRuntime env p) s Q.
Proof.
  intros Hp HQ. unfold UpdateRuntime. fstep. eapply ewp_task; [exact Hp|]. fstep. apply ewp_ask.
  apply (ewp_SetRuntime p _ _ t); [exact Hp|]. intros e. apply HQ.
Qed.

(** The doublings end, with more than the elapsed runtime. *)
Lemma double_estimate_ok fuel e elapsed :
  0 < e → elapsed < e * 2 ^ (Z.of_nat fuel) → ∃ k : nat, double_estimate (S fuel) e elapsed = Ok (e * 2 ^ Z.of_nat k) ∧
    elapsed < e * 2 ^ Z.of_nat k ∧ (k = 0%nat ∨ e * 2 ^ Z.of_nat (k - 1) <= elapsed).
Proof.
  revert e. induction fuel as [|fuel IH]; intros e He Hlt.
  - exists 0%nat. simpl in *. destruct (Z.leb_spec e elapsed); [lia|]. rewrite Z.mul_1_r. split; [done|]. split; [lia|by left].
  - change (double_estimate (S (S fuel)) e elapsed) with (if e <=? elapsed then double_estimate (S fuel) (e * 2) elapsed else Ok e).
    destruct (Z.leb_spec e elapsed) as [Hle|Hgt].
    + destruct (IH (e * 2)) as (k & E & H1 & H2); [lia|rewrite <- Z.mul_assoc, <- Z.pow_succ_r by lia; by rewrite <- Nat2Z.inj_succ|].
      exists (S k). rewrite Nat2Z.inj_succ, Z.pow_succ_r, Z.mul_assoc by lia. split_and!; [done|done|right].
      replace (S k - 1)%nat with k by lia. destruct H2 as [->|H2]; [rewrite Z.mul_1_r; exact Hle|].
      destruct k as [|k]; [simpl; lia|]. replace (S k - 1)%nat with k in H2 by lia.
      rewrite Nat2Z.inj_succ, Z.pow_succ_r by lia. lia.
    + exists 0%nat. rewrite Z.mul_1_r. split; [done|]. split; [done|by left].
Qed.

(** They never do from an estimate that is not positive. *)
Lemma double_estimate_never fuel e elapsed : e <= 0 → e <= elapsed → double_estimate fuel e elapsed = Crash OutOfFuel.
Proof.
  revert e. induction fuel as [|fuel IH]; intros e H0 He; [done|]. simpl.
  rewrite (proj2 (Z.leb_le e elapsed)) by done. apply IH; lia.
Qed.

Lemma double_enough e elapsed : 0 < e → elapsed < e * 2 ^ (Z.of_nat (S (Z.to_nat (Z.log2 elapsed)))).
Proof.
  intros He. rewrite Nat2Z.inj_succ, Z2Nat.id by apply Z.log2_nonneg.
  pose proof (Z.log2_nonneg elapsed). assert (0 < 2 ^ Z.succ (Z.log2 elapsed)) by (apply Z.pow_pos_nonneg; lia).
  destruct (Z.leb_spec elapsed 0) as [Hz|Hz]; [nia|]. destruct (Z.log2_spec elapsed Hz) as [_ H']. nia.
Qed.

Lemma double_estimate_fuel e elapsed : 0 < e →
  ∃ k : nat, double_estimate (double_fuel elapsed) e elapsed = Ok (e * 2 ^ Z.of_nat k) ∧ elapsed < e * 2 ^ Z.of_nat k ∧
    (k = 0%nat ∨ e * 2 ^ Z.of_nat (k - 1) <= elapsed).
Proof. intros He. unfold double_fuel. apply double_estimate_ok; [done|by apply double_enough]. Qed.

Lemma wp_CalculateSchedDeadline p t s (Q : unit → Edf → Prop) :
  heap (e_allocator s) !! p = Some t → 0 < estimated_runtime t →
  (∀ e d, estimated_runtime t ≤ e → Q tt (put_task p (set_sched_deadline d (set_estimated e t)) s)) → wp (CalculateSchedDeadline env p) s Q.
Proof.
  intros Hp He HQ. unfold CalculateSchedDeadline. wpstep. eapply wp_task; [exact Hp|].
  destruct (double_estimate_fuel _ (elapsed_runtime t) He) as (k & E & Hlt & _). rewrite E. wpstep. wpstep. simpl wpo.
  wpstep. eapply wp_upd; [exact Hp|]. wpstep. wpstep; [by apply Z.ltb_lt|]. eapply wp_upd; [apply lookup_insert_eq|].
  unfold put_obj. simpl. rewrite insert_insert_eq. apply HQ. pose proof (Z.pow_pos_nonneg 2 (Z.of_nat k)). nia.
Qed.

Lemma ewp_lift {A} (m : outcome A) s (Q : A → Edf → Prop) :
  (∀ a, m = Ok a → Q a s) → (∀ f, m = Crash f → edf_stop f) → ewp (lift m) s Q.
Proof. apply wpf_lift. Qed.

(** The accessors of the orchestrator stop at a CHECK or out of range. *)
Lemma class_at_stop o wc f : class_at o wc = Crash f → edf_stop f.
Proof. unfold class_at. destruct (_ <? _); [destruct (_ !! _)|]; by intros [= <-]. Qed.

Lemma stats_at_stop o wc f : stats_at o wc = Crash f → edf_stop f.
Proof. unfold stats_at. destruct (_ <? _); [destruct (_ !! _)|]; by intros [= <-]. Qed.

Lemma Repeating_stop o x f : Repeating o x = Crash f → edf_stop f.
Proof. unfold Repeating. destruct (class_at _ _) eqn:E; simpl; [done|]. intros [= <-]. by eapply class_at_stop. Qed.

Lemma EstimateRuntime_spec o wc : match EstimateRuntime env o wc with Ok e => 0 < e | Crash f => edf_stop f end.
Proof using Henv.
  unfold EstimateRuntime. destruct (stats_at o wc) as [x|f] eqn:E; simpl; [|by eapply stats_at_stop].
  unfold checkO. destruct (1 <=? samples x); simpl; [|done]. destruct (Z.ltb_spec 0 (duration_div (e_absl env) (runtimes x) (samples x))); [done|].
  by apply (ee_ns _ Henv).
Qed.

Lemma ewp_Repeating o x s (Q : bool → Edf → Prop) : (∀ b, Q b s) → ewp (lift (Repeating o x)) s Q.
Proof. intros HQ. apply ewp_lift; [intros b _; apply HQ|apply Repeating_stop]. Qed.

Lemma ewp_params tg o sid x s (Q : SchedParams → Edf → Prop) :
  orchs_ s !! tg = Some o → item tg sid x s → Q x s → ewp (lift (params_at o sid)) s Q.
Proof.
  intros Ho (o' & Ho' & Hx) HQ. assert (o' = o) as -> by congruence. apply ewp_lift; unfold params_at; rewrite Hx; [by intros ? [= <-]|done].
Qed.

Lemma edited_stats p t s t' s' tg o l :
  edited p t s t' s' → orchs_ s' !! tg = Some o → length l = length (wc_stats_ o) →
  edited p t s t' (set_orchs (<[tg := set_stats l o]> (orchs_ s')) s').
Proof.
  intros [[Hc Hp] Hs Hcalm Hx] Ho Hl. split; [split|done| |].
  - eapply core_orch; [done|done| |done]. unfold orch_ok. simpl. rewrite Hl. by apply (ec_orchs _ _ _ Hc tg).
  - exact Hp.
  - etrans; [exact Hcalm|]. apply calm_same; try done. intros tg'. simpl. rewrite lookup_insert_is_Some'. by right.
  - intros tg' sid x (o1 & Ho1 & Hx1)%Hx. unfold item. simpl. destruct (decide (tg = tg')) as [<-|Hne].
    + rewrite lookup_insert_eq. eexists. split; [done|]. simpl. congruence.
    + rewrite lookup_insert_ne by done. eauto.
Qed.

Lemma ewp_UpdateWorkClassStats p t s t' s' tg o wc el dl (Q : unit → Edf → Prop) :
  edited p t s t' s' → orchs_ s' !! tg = Some o → (∀ s2, edited p t s t' s2 → Q tt s2) →
  ewp (UpdateWorkClassStats env tg wc el dl) s' Q.
Proof.
  intros He Ho HQ. unfold UpdateWorkClassStats. fstep. eapply ewp_orch; [exact Ho|]. fstep.
  apply ewp_lift; [|apply stats_at_stop]. intros st _. fstep. apply ewp_ask. apply wpf_modify. apply HQ.
  apply (edited_stats p t s t' (tick s')); [by apply edited_tick|done|by rewrite length_insert].
Qed.

Lemma retimed_calc p t s t' s' (Q : unit → Edf → Prop) :
  edited p t s t' s' → 0 < estimated_runtime t' →
  (∀ t1 s2, edited p t s t1 s2 → sp t1 = sp t' → has_work t1 = has_work t' → Q tt s2) → ewp (CalculateSchedDeadline env p) s' Q.
Proof.
  intros He Hpos HQ. apply wpf_wp. eapply wp_CalculateSchedDeadline; [by eapply edited_at|done|]. intros e d Hle.
  eapply HQ; [eapply edited_retimed; [exact He|]|done|done]. repeat split; simpl; lia.
Qed.

Lemma ewp_copy_params p t s tg sid x (had : bool) old (Q : unit → Edf → Prop) :
  editing p t s → item tg sid x s → gpid_ x = gtid t →
  (∀ t' s', edited p t s t' s' → sp t' = SpItem tg sid → has_work t' = HasWork x → Q tt s') →
  ewp (copy_params env tg sid p x had old) s Q.
Proof using Henv.
  intros He Hx Hg HQ. unfold copy_params. fstep. eapply ewp_upd; [apply He|].
  set (t1 := set_work (SpItem tg sid) (HasWork x) (wcid_ x) t).
  assert (edited p t s t1 (put_task p t1 s)) as He1.
  { eapply edited_put; [by apply edited_refl|by split|]. pose proof (edit_ok _ _ _ He) as []. split; try done.
    intros tg' sid' E. exists x. split; [by apply item_params|done]. }
  fstep. eapply (wpf_mono _ _ _ (λ _ s2, ∃ t2, edited p t s t2 s2 ∧ sp t2 = sp t1 ∧ has_work t2 = has_work t1)).
  { apply wpf_when; [intros _|intros _; by exists t1]. fstep.
    assert (0 < estimated_runtime t1) as Hest by apply (bo_estimate _ _ _ (edited_ok _ _ _ _ _ He1)).
    eapply ewp_UpdateRuntime; [by eapply edited_at|]. intros r e. fstep. eapply ewp_task; [apply lookup_insert_eq|]. fstep.
    assert (edited p t s (set_runtimes r e t1) (put_task p (set_runtimes r e t1) (tick (put_task p t1 s)))) as He2.
    { eapply edited_retimed; [by apply edited_tick|by repeat split]. }
    destruct (et_items _ _ _ _ _ He2 tg sid x Hx) as (o & Ho & _).
    eapply ewp_orch; [exact Ho|]. fstep. apply ewp_check; intros _. fstep.
    eapply ewp_UpdateWorkClassStats; [exact He2|exact Ho|]. intros s3 He3.
    eapply ewp_upd; [by eapply edited_at|]. eexists. split; [eapply edited_retimed; [exact He3|by repeat split]|done]. }
  intros [] s2 (t2 & He2 & Es & Ew). simpl in Es, Ew.
  destruct (et_items _ _ _ _ _ He2 tg sid x Hx) as (o & Ho & _).
  fstep. eapply ewp_orch; [exact Ho|]. fstep. pose proof (EstimateRuntime_spec o (wcid_ x)) as Hes.
  apply ewp_lift; [intros e E|intros f E]; rewrite E in Hes; [|done].
  fstep. eapply ewp_upd; [by eapply edited_at|].
  assert (edited p t s (set_estimated e t2) (put_task p (set_estimated e t2) s2)) as He3 by (eapply edited_retimed; [exact He2|by repeat split]).
  fstep. apply ewp_Repeating. intros rep. fstep.
  eapply (wpf_mono _ _ _ (λ _ s4, edited p t s (set_estimated e t2) s4)).
  { destruct rep; [|by apply wpf_ret]. fstep. apply ewp_ask. fstep.
    apply ewp_lift; [intros d _|unfold GetWorkClassPeriod; intros f Ef]; [by apply wpf_ret, edited_tick|].
    destruct (class_at o (wcid_ x)) eqn:Ec; [done|]. injection Ef as <-. by eapply class_at_stop. }
  intros d s4 He4. fstep. eapply ewp_upd; [by eapply edited_at|].
  eapply retimed_calc; [eapply edited_retimed; [exact He4|by repeat split]|done|].
  intros t5 s5 He5 Es5 Ew5. simpl in Es5, Ew5. eapply HQ; [exact He5|congruence|congruence].
Qed.

(** ** A task leaves its CPU *)

Lemma ewp_upd_cpu c f s (Q : unit → Edf → Prop) :
  enclave_cpu env c → Q tt (set_e_cpus (<[c := f (e_cpus s c)]> (e_cpus s)) s) → ewp (upd_cpu c f) s Q.
Proof using Henv.
  intros Hc HQ. pose proof (e_enclave_range env c Henv Hc). unfold upd_cpu, e_cpu.
  rewrite (proj2 (Z.leb_le 0 c)), (proj2 (Z.ltb_lt c _)) by lia. simpl. fstep. fstep. by apply wpf_modify.
Qed.

Lemma ewp_cpu c s (Q : EdfCpu → Edf → Prop) : enclave_cpu env c → Q (e_cpus s c) s → ewp (e_cpu c) s Q.
Proof using Henv.
  intros Hc HQ. pose proof (e_enclave_range env c Henv Hc). unfold e_cpu.
  rewrite (proj2 (Z.leb_le 0 c)), (proj2 (Z.ltb_lt c _)) by lia. simpl. by fstep.
Qed.

(** The task of a CPU, and the CPU of a task. *)
Lemma on_cpu_current p s q t :
  edf_core p s → heap (e_allocator s) !! q = Some t → run_state t = kOnCpu → enclave_cpu env (cpu t) ∧ current (e_cpus s (cpu t)) = q ∧ q ≠ 0.
Proof.
  intros Hi Hq Hst. split; [by eapply bo_cpu; [eapply ec_basic|]|].
  assert (q ∈ e_queues s (ECur (cpu t))) as Hin.
  { eapply rest_in; [apply (ec_rest _ _ _ Hi)|done|]. unfold edf_place. by rewrite Hst. }
  simpl in Hin. apply elem_of_slot in Hin as [H1 H2]. subst q. done.
Qed.

Lemma current_on_cpu p s c :
  edf_core p s → current (e_cpus s c) ≠ 0 →
  ∃ t, heap (e_allocator s) !! current (e_cpus s c) = Some t ∧ run_state t = kOnCpu ∧ cpu t = c.
Proof.
  intros Hi Hc. destruct (rest_live _ _ _ (current (e_cpus s c)) (ECur c) (ec_rest _ _ _ Hi)) as (t & Ht & E).
  { simpl. by apply elem_of_slot. }
  exists t. unfold edf_place in E. destruct (run_state t); try done; [destruct (0 <=? rq_pos t); done|]. by injection E.
Qed.

Lemma clear_lifted p t s :
  edf_core p s → heap (e_allocator s) !! p = Some t → run_state t = kOnCpu →
  lifted env p t (set_e_cpus (<[cpu t := set_current 0 (e_cpus s (cpu t))]> (e_cpus s)) s).
Proof.
  intros Hi Hp Hst. destruct (on_cpu_current p s p t Hi Hp Hst) as (Hc & Hcur & Hne).
  assert (edf_place t = Some (ECur (cpu t))) as Hpl by (unfold edf_place; by rewrite Hst).
  assert (∀ k, k ≠ ECur (cpu t) → others p (e_queues s k) = e_queues s k) as Hoth.
  { intros k Hk. apply others_notin. apply (rest_out _ _ _ _ t k (ec_rest _ _ _ Hi) Hp). congruence. }
  eapply (leave_lifted env p t s).
  - done.
  - done.
  - by rewrite Hpl.
  - eapply bo_unqueued; [by eapply ec_basic|]. by rewrite Hst.
  - done.
  - intros k. destruct (decide (k = ECur (cpu t))) as [->|Hk].
    + simpl. rewrite fn_lookup_insert, Hcur. simpl. unfold slot_list. rewrite (proj2 (Z.eqb_neq p 0)) by done. by rewrite others_self.
    + rewrite Hoth by done. destruct k as [| |c]; [done|done|]. simpl. rewrite fn_lookup_insert_ne; [done|congruence].
  - split; try done; intros c; simpl; destruct (decide (cpu t = c)) as [<-|?]; by rewrite ?fn_lookup_insert, ?fn_lookup_insert_ne.
Qed.

(** A task that is nowhere settles in a state that says so. *)
Lemma lifted_settle p t t1 s :
  lifted env p t s → edf_place t1 = None → rq_pos t1 = -1 → gtid t1 = gtid t → basic_ok s t1 → editing p t1 (put_task p t1 s).
Proof.
  intros [Hp Hpos Hc] Hpl Hpos1 Hg Hb. split; [|apply lookup_insert_eq].
  destruct (core_put env p (set_run_state kBlocked t) t1 (put_task p (set_run_state kBlocked t) s)) as [H _]; try done.
  - apply lookup_insert_eq.
  - simpl. congruence.
  - by apply (basic_orchs env s).
  - assert (put_task p t1 (put_task p (set_run_state kBlocked t) s) = put_task p t1 s) as <-; [|done].
    unfold put_task, put_obj. simpl. by rewrite insert_insert_eq.
Qed.

(** Editing a task that is at rest outside the run queue ends. *)
Lemma editing_done p t s :
  editing p t s → edf_place t ≠ Some ERun → work_ok t → edf_mid s.
Proof.
  intros [Hc Hp] Hpl Hw. eapply core_mid; [exact Hc|by eapply core_ordered|]. intros t' Ht'. by assert (t' = t) as -> by congruence.
Qed.

Lemma not_held_state p t s : heap (e_allocator s) !! p = Some t → run_state t ≠ kQueued → ¬ is_held s p.
Proof. intros Hp Hne (u & Hu & Hst & _). congruence. Qed.

Lemma cpu_rep_enclave c : enclave_cpu env c → ∃ r, cpu_rep (e_topo env) c = Ok r.
Proof using Henv.
  intros Hc. destruct (e_enclave_range env c Henv Hc) as [Hr _]. destruct (rep_exists _ (ee_topo _ Henv) c Hr) as (r & _ & E). by exists r.
Qed.

(** [PreemptTask] without a successor. *)
Lemma ewp_Preempt_none p t s (Q : bool → Edf → Prop) :
  editing p t s → run_state t = kOnCpu →
  (∀ s', editing p (set_run_state kPaused t) s' → calm p s s' → orchs_ s' = orchs_ s → Q true s') → ewp (PreemptTask env p 0) s Q.
Proof using Henv.
  intros [Hc Hp] Hst HQ. destruct (on_cpu_current p s p t Hc Hp Hst) as (Hcpu & Hcur & Hne).
  unfold PreemptTask. fstep. eapply ewp_task; [exact Hp|]. fstep. destruct (cpu_rep_enclave _ Hcpu) as [r Hr].
  apply ewp_lift; [intros _ _|congruence]. fstep. apply ewp_check; intros _. rewrite (proj2 (Z.eqb_neq p 0)) by done. simpl.
  fstep. fstep. fstep. fstep. fstep. fstep. apply ewp_ask. fstep. apply ewp_check; intros _. fstep. simpl.
  set (s1 := tick (add_event _ s)). fstep.
  assert (edf_core p s1) as Hc1 by by apply core_tick, core_event.
  apply ewp_upd_cpu; [done|]. pose proof (clear_lifted p t s1 Hc1 Hp Hst) as Hl.
  set (s2 := set_e_cpus _ s1) in *. fstep. eapply ewp_upd; [exact Hp|].
  assert (editing p (set_run_state kPaused t) (put_task p (set_run_state kPaused t) s2)) as He.
  { eapply lifted_settle; [exact Hl|done|apply Hl|done|]. pose proof (ec_basic _ _ _ Hc p t Hp) as []. split; try done.
    intros _. apply Hl. }
  fstep. fstep. apply HQ; [exact He| |done].
  etrans; [|by apply (calm_put p t)]. apply calm_same; try done. intros c. simpl.
  destruct (decide (cpu t = c)) as [<-|?]; by rewrite ?fn_lookup_insert, ?fn_lookup_insert_ne.
Qed.

(** ** The callback *)

Lemma ewp_MakeEngineRunnable p s tg sid x (Q : unit → Edf → Prop) :
  edf_core p s → item tg sid x s →
  (∀ s', edf_core p s' → item tg sid (SetRunnable x) s' → e_allocator s' = e_allocator s →
     (∀ q, calm q s s') → Q tt s') →
  ewp (MakeEngineRunnable env tg sid) s Q.
Proof.
  intros Hc (o & Ho & Hx) HQ. unfold MakeEngineRunnable. fstep. eapply ewp_orch; [exact Ho|]. fstep. apply ewp_check; intros _.
  fstep. eapply ewp_params; [exact Ho|by exists o|]. fstep. apply ewp_ask. fstep. apply ewp_check; intros _.
  fstep. apply ewp_Repeating. intros rep. fstep. apply ewp_check; intros _. fstep. apply ewp_check; intros _.
  fstep. apply wpf_modify. apply wpf_modify. pose proof (lookup_lt_Some _ _ _ Hx) as Hlt. apply HQ.
  - apply core_event. apply (core_orch p (tick s) tg o); [by apply core_tick|done| |].
    + apply (ec_orchs _ _ _ Hc tg o Ho).
    + intros i. simpl. destruct (decide (Z.to_nat sid = i)) as [<-|Hne].
      * rewrite list_lookup_insert_eq, Hx by done. done.
      * by rewrite list_lookup_insert_ne.
  - eexists. simpl. rewrite lookup_insert_eq. split; [done|]. simpl. by rewrite list_lookup_insert_eq.
  - done.
  - intros q. apply calm_same; try done. intros tg'. simpl. rewrite lookup_insert_is_Some'. by right.
Qed.

Lemma ewp_Enqueue p t s (Q : unit → Edf → Prop) :
  editing p t s → edf_place t = None → rq_pos t = -1 →
  (∀ s', edf_mid s' → calm p s s' → ¬ is_held s' p → Q tt s') → ewp (E_Enqueue p) s Q.
Proof.
  intros [Hc Hp] Hpl Hpos HQ. apply wpf_wp. eapply e_wp_Enqueue; [exact Hc|exact Hp|done|done|].
  intros s' Hm Ht Hn. apply HQ; [done| |done]. by eapply touched_calm.
Qed.

Lemma queued_pos p t s : heap (e_allocator s) !! p = Some t → ¬ is_held s p → run_state t = kQueued → 0 ≤ rq_pos t.
Proof. intros Hp Hn Hst. destruct (Z.ltb_spec (rq_pos t) 0); [|done]. exfalso. apply Hn. by exists t. Qed.

Lemma has_state_true r t : has_state r t = true → run_state t = r.
Proof. by intros H%bool_decide_eq_true. Qed.

Lemma has_state_false r t : has_state r t = false → run_state t ≠ r.
Proof. by intros H%bool_decide_eq_false. Qed.

(** Without work, a task is paused; if the item repeats it gets work again. *)
Lemma ewp_no_work p t s tg sid x rep (Q : unit → Edf → Prop) :
  editing p t s → item tg sid x s → run_state t = kPaused → has_work t = false → sp t = SpItem tg sid →
  (∀ s', edf_mid s' → calm p s s' → ¬ is_held s' p → Q tt s') →
  ewp (whenM rep
    (MakeEngineRunnable env tg sid ≫= λ _,
     upd_task p (λ t, set_work (sp t) true (wcid t) t) ≫= λ _,
     E_Enqueue p)) s Q.
Proof.
  intros He Hx Hst Hw Hsp HQ. pose proof (ed_at _ _ _ He) as Hp.
  assert (rq_pos t = -1) as Hpos by (apply (bo_unqueued _ _ _ (edit_ok _ _ _ He)); by rewrite Hst).
  assert (edf_place t = None) as Hpl by (unfold edf_place; by rewrite Hst).
  apply wpf_when; intros _.
  - fstep. eapply ewp_MakeEngineRunnable; [apply He|exact Hx|]. intros s1 Hc1 Hx1 Ea Hcalm1.
    assert (heap (e_allocator s1) !! p = Some t) as Hp1 by by rewrite Ea.
    fstep. eapply ewp_upd; [exact Hp1|]. set (t2 := set_work (sp t) true (wcid t) t).
    assert (editing p t2 (put_task p t2 s1)) as He2.
    { eapply edit_put; [by split|by split|]. pose proof (ec_basic _ _ _ Hc1 p t Hp1) as []. split; try done. simpl. by rewrite Hsp. }
    eapply ewp_Enqueue; [exact He2|done|done|]. intros s3 Hm Hcalm Hn. apply HQ; [done| |done].
    etrans; [apply Hcalm1|]. etrans; [by apply (calm_put p t)|done].
  - apply HQ; [|done|].
    + apply (editing_done p t); [done|by rewrite Hpl|]. unfold work_ok. by rewrite Hst.
    + eapply not_held_state; [exact Hp|]. by rewrite Hst.
Qed.

Lemma ewp_apply_params p t s tg sid x (had : bool) (Q : unit → Edf → Prop) :
  editing p t s → item tg sid x s → sp t = SpItem tg sid → ¬ is_held s p → run_state t ≠ kYielding →
  (run_state t = kQueued ∨ run_state t = kOnCpu → had = true) →
  (∀ s', edf_mid s' → calm p s s' → ¬ is_held s' p → Q tt s') → ewp (apply_params env tg sid p x had) s Q.
Proof using Henv.
  intros He Hx Hsp Hnh Hny Hhad HQ. pose proof (ed_at _ _ _ He) as Hp. pose proof (edit_ok _ _ _ He) as Hb. pose proof (ed_core _ _ _ He) as Hc.
  destruct Hx as (o & Ho & Hxo). assert (item tg sid x s) as Hx by by exists o.
  assert (∀ w, edf_place t ≠ Some ERun → work_ok t → w = tt → Q w s) as Hrest.
  { intros [] Hpl Hw _. apply HQ; [by apply (editing_done p t)|done|done]. }
  assert (run_state t = kQueued → edf_place t = Some ERun) as Hrun.
  { intros Hst. unfold edf_place. rewrite Hst. by rewrite (proj2 (Z.leb_le 0 _)) by by eapply queued_pos. }
  unfold apply_params. fstep. eapply ewp_task; [exact Hp|]. fstep.
  { apply wpf_ret. apply has_state_true in Heqb. apply Hrest; [unfold edf_place; by rewrite Heqb|unfold work_ok; by rewrite Heqb|done]. }
  apply has_state_false in Heqb. destruct had; simpl negb; cbv iota.
  - fstep. apply ewp_check; intros Hnp. apply negb_true_iff, has_state_false in Hnp. fstep. eapply ewp_orch; [exact Ho|].
    destruct (has_work t) eqn:Hw.
    + apply wpf_when; intros Hq.
      * apply has_state_true in Hq. fstep. apply ewp_Repeating. intros rep. fstep. apply ewp_check; intros _.
        apply wpf_wp. eapply wp_UpdateRunqueue; [exact Hc|exact Hp|done|by eapply queued_pos|done|].
        intros s' Hm Ht Hn. apply HQ; [done|by eapply touched_calm|done].
      * apply has_state_false in Hq. apply Hrest; [|by unfold work_ok; destruct (run_state t)|done].
        unfold edf_place. by destruct (run_state t).
    + fstep. eapply (wpf_mono _ _ _ (λ _ s1, ∃ t1, editing p t1 s1 ∧ calm p s s1 ∧ item tg sid x s1 ∧ run_state t1 = kPaused ∧
        has_work t1 = false ∧ sp t1 = SpItem tg sid)).
      * fstep.
        { apply has_state_true in Heqb0. fstep. eapply ewp_Preempt_none; [done|done|]. intros s1 He1 Hc1 Eo.
          apply ewp_check; intros _. eexists. split; [exact He1|]. split; [done|]. split; [by exists o; rewrite Eo|done]. }
        fstep; [|done]. apply has_state_true in Heqb1. apply wpf_wp.
        eapply wp_Remove; [exact Hc|exact Hp|done|by eapply queued_pos|exists t, x; split; [done|rewrite Hsp; by apply item_params]|].
        intros s1 Hc1 Hp1 Ht. eexists. split; [by split|]. split; [by eapply touched_calm|]. split; [|done].
        exists o. split; [|done]. destruct Ht as (_ & Hr & _). by rewrite (sr_orchs _ _ Hr).
      * intros [] s1 (t1 & He1 & Hcalm & Hx1 & Hst1 & Hw1 & Hsp1). fstep. eapply ewp_task; [apply He1|]. fstep.
        apply ewp_check; intros _. fstep. apply ewp_Repeating. intros rep.
        eapply ewp_no_work; [exact He1|exact Hx1|done|done|done|]. intros s' Hm Hc' Hn. apply HQ; [done|by etrans|done].
  - fstep. apply ewp_check; intros Hpa. apply has_state_true in Hpa.
    assert (edf_place t = None) as Hpl by (unfold edf_place; by rewrite Hpa).
    apply wpf_when; intros Hw.
    + eapply ewp_Enqueue; [exact He|done|apply (bo_unqueued _ _ _ Hb); by rewrite Hpa|done].
    + apply Hrest; [by rewrite Hpl|by unfold work_ok; rewrite Hpa|done].
Qed.

(** The task that an item describes, 0 if there is none. *)
Definition owner (x : SchedParams) (s : Edf) : Z := default 0 (GetTask (gpid_ x) (e_allocator s)).

Lemma owner_at p s x q t :
  edf_core p s → GetTask (gpid_ x) (e_allocator s) = Some q → heap (e_allocator s) !! q = Some t → gtid t = gpid_ x.
Proof. intros Hc Hg Hq. destruct (proj1 (proj2 (ec_alloc _ _ _ Hc) _ _) Hg) as (t' & Ht' & E). unfold task_gtid in E. simpl in E. congruence. Qed.

Lemma owner_live p s x q : edf_core p s → GetTask (gpid_ x) (e_allocator s) = Some q → ∃ t, heap (e_allocator s) !! q = Some t.
Proof. intros Hc Hg. destruct (proj1 (proj2 (ec_alloc _ _ _ Hc) _ _) Hg) as (t & Ht & _). by exists t. Qed.

Lemma owner_is p s x q t :
  edf_core p s → heap (e_allocator s) !! q = Some t → gtid t = gpid_ x → owner x s = q.
Proof.
  intros Hc Hq E. unfold owner. assert (GetTask (gpid_ x) (e_allocator s) = Some q) as ->; [|done].
  apply (proj2 (ec_alloc _ _ _ Hc)). by exists t.
Qed.

Lemma owner_zero p s x : edf_core p s → gpid_ x = 0 → owner x s = 0.
Proof.
  intros Hc E. unfold owner. destruct (GetTask (gpid_ x) (e_allocator s)) as [q|] eqn:Eq; [|done].
  destruct (owner_live p s x q Hc Eq) as (t & Ht). pose proof (owner_at p s x q t Hc Eq Ht).
  pose proof (bo_gtid _ _ _ (ec_basic _ _ _ Hc q t Ht)). congruence.
Qed.

(** Nothing is wrong but the place in the order of [p]'s position. *)
Record loose (p : Z) (s : Edf) : Prop := {
  lo_core : edf_core p s;
  lo_work : ∀ t, heap (e_allocator s) !! p = Some t → work_ok t;
  lo_held : ∀ q, ¬ is_held s q
}.

Lemma loose_zero s : loose 0 s → edf_mid s.
Proof. by intros []. Qed.

Lemma same_place_held p t t' s s' :
  heap (e_allocator s) !! p = Some t → heap (e_allocator s') !! p = Some t' → same_place t t' → ¬ is_held s p → ¬ is_held s' p.
Proof.
  intros Hp Hp' [_ E1 E2 _] Hn (u & Hu & H1 & H2). apply Hn. exists t. split; [done|]. assert (u = t') as -> by congruence.
  by rewrite <- E1, <- E2.
Qed.

Lemma calm_held p s s' : calm p s s' → (∀ q, ¬ is_held s q) → ¬ is_held s' p → ∀ q, ¬ is_held s' q.
Proof. intros Hc Hs Hp q Hq. destruct (decide (q = p)) as [->|Hne]; [done|]. by apply (Hs q), (cm_held _ _ _ Hc). Qed.

(** What follows the callback's lookup of the task. *)
Lemma ewp_callback_task p t s tg sid x (Q : unit → Edf → Prop) :
  loose p s → item tg sid x s → heap (e_allocator s) !! p = Some t → gtid t = gpid_ x →
  (∀ s', edf_mid s' → calm p s s' → ¬ is_held s' p → Q tt s') →
  ewp (task_at p ≫= λ t,
       whenM (has_state kYielding t) (E_Unyield p) ≫= λ _,
       orch_at tg ≫= λ o,
       lift (params_at o sid) ≫= λ x,
       task_at p ≫= λ t,
       copy_params env tg sid p x (has_work t) (wcid t) ≫= λ _,
       apply_params env tg sid p x (has_work t)) s Q.
Proof using Henv.
  intros [Hc Hw Hh] (o & Ho & Hxo) Hp Hg HQ. fstep. eapply ewp_task; [exact Hp|]. fstep.
  eapply (wpf_mono _ _ _ (λ _ s1, ∃ t1, editing p t1 s1 ∧ calm p s s1 ∧ ¬ is_held s1 p ∧ orchs_ s1 = orchs_ s ∧ gtid t1 = gtid t ∧
    work_ok t1 ∧ run_state t1 ≠ kYielding)).
  { apply wpf_when; intros Hy.
    - apply has_state_true in Hy. apply wpf_wp. eapply wp_Unyield; [|exact Hp|done|].
      + apply (editing_done p t); [by split|unfold edf_place; by rewrite Hy|by apply Hw].
      + intros s1 Hm Ht Hn. destruct (touched_at _ _ _ _ Ht) as (t1 & Ht1 & E). apply strip_eq in E.
        exists t1. split; [split; [by apply mid_core|done]|]. split; [by eapply touched_calm|]. split; [done|].
        split; [destruct Ht as (_ & Hr & _); by rewrite (sr_orchs _ _ Hr)|].
        split; [by rewrite E|]. split; [|by rewrite E]. by apply (mid_work env s1 p).
    - apply has_state_false in Hy. exists t. split; [by split|]. split; [done|]. split; [done|]. split; [done|]. split; [done|].
      split; [by apply Hw|done]. }
  intros [] s1 (t1 & He1 & Hcalm1 & Hn1 & Eo & Hg1 & Hw1 & Hny).
  assert (item tg sid x s1) as Hx1 by (exists o; by rewrite Eo).
  fstep. eapply ewp_orch; [by rewrite Eo|]. fstep. eapply ewp_params; [by rewrite Eo|exact Hx1|].
  fstep. eapply ewp_task; [apply He1|]. fstep. eapply ewp_copy_params; [exact He1|exact Hx1|congruence|].
  intros t2 s2 [He2 Hs2 Hcalm2 Hi2] Hsp2 _. eapply ewp_apply_params; [exact He2|by apply Hi2|done| | | |].
  - eapply same_place_held; [apply He1|apply He2|done|done].
  - by rewrite (sm_state _ _ Hs2).
  - rewrite (sm_state _ _ Hs2). unfold work_ok in Hw1. by intros [E|E]; rewrite E in Hw1.
  - intros s3 Hm Hcalm3 Hn3. apply HQ; [done|by etrans; [|etrans]|done].
Qed.

Lemma ewp_SchedParamsCallback tg sid old x s (Q : unit → Edf → Prop) :
  item tg sid x s → (old = 0 ∨ old = gpid_ x → loose (owner x s) s) →
  (∀ s', edf_mid s' → (∀ q, ¬ is_held s' q) → calm 0 s s' → Q tt s') →
  ewp (SchedParamsCallback env tg sid old) s Q.
Proof using Henv.
  intros Hx Hl HQ. pose proof Hx as (o & Ho & Hxo). unfold SchedParamsCallback. fstep. eapply ewp_orch; [exact Ho|].
  fstep. eapply ewp_params; [exact Ho|done|]. fstep. apply ewp_check; intros Hold.
  assert (loose (owner x s) s) as Hls by (apply Hl; apply orb_true_iff in Hold as [->%Z.eqb_eq| ->%Z.eqb_eq]; auto). clear Hl.
  destruct (Z.eqb_spec (gpid_ x) 0) as [Hg|Hg].
  { apply wpf_ret. apply HQ; [|apply Hls|done]. rewrite (owner_zero (owner x s) s) in Hls; [by apply loose_zero|apply Hls|done]. }
  fstep. fstep. fstep. eapply (wpf_mono _ _ _ (λ _ s1, s1 = s)).
  { destruct (in_discovery_ s); [by apply ewp_Repeating|by apply wpf_ret]. }
  intros rep s1 ->. fstep.
  eapply (wpf_mono _ _ _ (λ _ s1, loose (owner x s) s1 ∧ (∃ x1, item tg sid x1 s1 ∧ gpid_ x1 = gpid_ x) ∧
    e_allocator s1 = e_allocator s ∧ ∀ q, calm q s s1)).
  { apply wpf_when; intros _.
    - eapply ewp_MakeEngineRunnable; [apply Hls|exact Hx|]. intros s1 Hc1 Hx1 Ea Hcalm. split_and!; [|by exists (SetRunnable x)|done|done].
      destruct Hls as [H1 H2 H3]. split; [done|by rewrite Ea|].
      intros q (u & Hu & H). apply (H3 q). exists u. by rewrite <- Ea.
    - split_and!; [done|by exists x|done|done]. }
  intros [] s1 (Hl1 & (x1 & Hx1 & Hg1) & Ea & Hcalm1). fstep. fstep. rewrite Ea.
  destruct (GetTask (gpid_ x) (e_allocator s)) as [p|] eqn:Eg.
  - assert (owner x s = p) as Eow by (unfold owner; by rewrite Eg). rewrite Eow in Hl1, Hls.
    destruct (owner_live p s x p (lo_core _ _ Hls) Eg) as (t & Ht).
    pose proof (owner_at p s x p t (lo_core _ _ Hls) Eg Ht) as Hgt.
    apply (ewp_callback_task p t s1 tg sid x1); [done|done|by rewrite Ea|congruence|].
    intros s2 Hm Hcalm2 Hn. pose proof (calm_held p s1 s2 Hcalm2 (lo_held _ _ Hl1) Hn) as Hh. apply HQ; [done|done|].
    apply (calm_weaken p); [etrans; [apply (Hcalm1 p)|exact Hcalm2]|apply Hls|done].
  - apply wpf_ret. assert (owner x s = 0) as Eow by (unfold owner; by rewrite Eg). rewrite Eow in Hl1.
    apply HQ; [by apply loose_zero|apply Hl1|done].
Qed.
End safe.
