(* ===== verification/EdfTurn.v ===== *)
(** * EdfTurn: a turn of the EDF agent keeps its invariant

    The refresh of the parameters, the message handlers with their dispatch,
    the scheduling pass and the turn that is made of them: each leads from the
    invariant to the invariant, or stops the agent at a CHECK, a GHOST_ERROR or
    an index out of range. *)

From S2P Require Import Prelude Outcome CpuMap CpuMapSpec.
From S2P Require Import Topology TopologySpec Dispatch Placement PrioTable PrioTableSpec Edf EdfHeap EdfOps EdfSafe.
From stdpp Require Import gmap functions sorting.
From Stdlib Require Import ZArith Lia.

Local Open Scope Z_scope.

Section turn.
Context (env : EdfEnv) (Henv : edf_env_ok env).

#[local] Instance edf_turn_task_type : TaskType EdfTask := EdfTask_type env.

Notation edf_core := (edf_core env).
Notation edf_mid := (edf_mid env).
Notation basic_ok := (basic_ok env).
Notation editing := (editing env).

(** The invariant between two steps, with [k] tasks that are not counted yet. *)
Record edf_inv_but (k : Z) (s : Edf) : Prop := {
  ei_mid : edf_mid s;
  ei_held : ∀ q, ¬ is_held s q;
  ei_next : ∀ c, next (e_cpus s c) = 0;
  ei_num : num_tasks_ s + k = Z.of_nat (size (heap (e_allocator s)))
}.

Definition edf_inv : Edf → Prop := edf_inv_but 0.

Lemma dom_size (s s' : Edf) :
  dom (heap (e_allocator s')) = dom (heap (e_allocator s)) → size (heap (e_allocator s')) = size (heap (e_allocator s)).
Proof. intros E. by rewrite <- !(size_dom (D := gset Z)), E. Qed.

Lemma inv_calm k p s s' : edf_inv_but k s → calm p s s' → edf_mid s' → ¬ is_held s' p → edf_inv_but k s'.
Proof.
  intros [Hm Hh Hn Hk] Hc Hm' Hp. split; [done|by eapply calm_held| |].
  - intros c. by rewrite (cm_next _ _ _ Hc).
  - by rewrite (cm_num _ _ _ Hc), (dom_size s s') by apply Hc.
Qed.

(** Every task of a settled state is where it should be. *)
Lemma inv_loose k p s : edf_inv_but k s → loose env p s.
Proof.
  intros [Hm Hh _ _]. split; [by apply mid_core|intros t Ht; by apply (mid_work env s p)|done].
Qed.

Lemma inv_editing k p t s : edf_inv_but k s → heap (e_allocator s) !! p = Some t → editing p t s.
Proof. intros [Hm _ _ _] Hp. split; [by apply mid_core|done]. Qed.

Lemma inv_task k p t s : edf_inv_but k s → heap (e_allocator s) !! p = Some t → work_ok t ∧ (run_state t = kQueued → 0 ≤ rq_pos t) ∧ p ≠ 0.
Proof.
  intros [Hm Hh _ _] Hp. split; [by apply (mid_work env s p)|]. split; [by apply queued_pos with (s := s) (p := p)|].
  by eapply core_nonzero.
Qed.

Lemma mid_tick s : edf_mid s → edf_mid (tick s).
Proof. apply core_tick. Qed.

Lemma inv_same k s s' :
  edf_inv_but k s → e_allocator s' = e_allocator s → (∀ q, e_queues s' q = e_queues s q) → orchs_ s' = orchs_ s →
  (∀ c, agent (e_cpus s' c) = agent (e_cpus s c)) → (∀ c, next (e_cpus s' c) = next (e_cpus s c)) →
  enclave_cpu env (global_cpu_ s') → num_tasks_ s' = num_tasks_ s → edf_inv_but k s'.
Proof.
  intros [Hm Hh Hn Hk] Ea Eq Eo Hag Hnx Hg En. split.
  - by apply (core_same env 0 s).
  - intros q (u & Hu & H). apply (Hh q). exists u. by rewrite <- Ea.
  - intros c. by rewrite Hnx.
  - by rewrite En, Ea.
Qed.

Lemma inv_tick k s : edf_inv_but k s → edf_inv_but k (tick s).
Proof. intros Hi. apply (inv_same k s); try done. apply (ec_global _ _ _ (ei_mid _ _ Hi)). Qed.

(** ** Refreshing the parameters *)

(** The new copy of an item, in the state. *)
Definition with_copy (tg : Z) (o : Orchestrator) (sid : Z) (x' : SchedParams) (s : Edf) : Edf :=
  set_orchs (<[tg := set_cached (<[Z.to_nat sid := x']> (cachedsids_ o)) o]> (orchs_ s)) s.

Lemma with_copy_params tg o sid x x' s r :
  orchs_ s !! tg = Some o → cachedsids_ o !! Z.to_nat sid = Some x →
  (params_of (with_copy tg o sid x' s) r = params_of s r) ∨
  (∃ sid', r = SpItem tg sid' ∧ params_of s r = Some x ∧ params_of (with_copy tg o sid x' s) r = Some x').
Proof.
  intros Ho Hx. destruct r as [| |tg' sid']; [by left|by left|]. simpl. destruct (decide (tg = tg')) as [<-|Hne].
  - rewrite lookup_insert_eq, Ho. simpl. destruct (decide (Z.to_nat sid = Z.to_nat sid')) as [E|E].
    + right. exists sid'. rewrite <- E, list_lookup_insert_eq by by eapply lookup_lt_Some. done.
    + left. by rewrite list_lookup_insert_ne.
  - left. by rewrite lookup_insert_ne.
Qed.

Lemma with_copy_core p tg o sid x x' s :
  edf_mid s → orchs_ s !! tg = Some o → cachedsids_ o !! Z.to_nat sid = Some x →
  (gpid_ x = 0 ∨ gpid_ x' = gpid_ x) →
  (steady env → qos_ x' = qos_ x ∨ owner x' s = p) → edf_core p (with_copy tg o sid x' s).
Proof.
  intros Hm Ho Hx Hg Hq. pose proof (mid_core env p s Hm) as Hc. apply core_orchs; [done|..].
  - intros tg' o'. rewrite lookup_insert_Some. intros [[<- <-]|[_ H]]; [|by eapply ec_orchs].
    apply (ec_orchs _ _ _ Hc tg o Ho).
  - intros r y Hy Hne. destruct (with_copy_params tg o sid x x' s r Ho Hx) as [E|(sid' & -> & E1 & E2)].
    + exists y. unfold with_copy in E. by rewrite E.
    + assert (y = x) as -> by congruence. exists x'. split; [exact E2|]. by destruct Hg.
  - intros Hsd q t Hne Ht. destruct (with_copy_params tg o sid x x' s (sp t) Ho Hx) as [E|(sid' & E0 & E1 & E2)].
    + unfold with_copy in E. by rewrite E.
    + rewrite E1. unfold with_copy in E2. rewrite E2. simpl. f_equal. destruct (Hq Hsd) as [|Hown]; [done|]. exfalso.
      pose proof (ec_basic _ _ _ Hc q t Ht) as Hb. destruct (bo_params _ _ _ Hb tg sid' E0) as (y & Hy & Eg).
      assert (y = x) as -> by congruence. apply Hne. rewrite <- Hown. symmetry. apply (owner_is env p s x' q t Hc Ht).
      destruct Hg as [Hg|Hg]; [|congruence]. exfalso. apply (bo_gtid _ _ _ Hb). congruence.
Qed.

Lemma with_copy_loose k p tg o sid x x' s :
  edf_inv_but k s → orchs_ s !! tg = Some o → cachedsids_ o !! Z.to_nat sid = Some x →
  (gpid_ x = 0 ∨ gpid_ x' = gpid_ x) → (steady env → qos_ x' = qos_ x ∨ owner x' s = p) → loose env p (with_copy tg o sid x' s).
Proof.
  intros Hi Ho Hx Hg Hq. split.
  - by apply (with_copy_core p tg o sid x), Hq; [apply Hi|..].
  - intros t Ht. by apply (mid_work env s p); [apply Hi|].
  - intros q (u & H). apply (ei_held _ _ Hi q). by exists u.
Qed.

Lemma ewp_RefreshSchedParam k tg sid s (Q : unit → Edf → Prop) :
  edf_inv_but k s → is_Some (orchs_ s !! tg) → 0 ≤ sid → (∀ s', edf_inv_but k s' → calm 0 s s' → Q tt s') →
  ewp (RefreshSchedParam env tg sid) s Q.
Proof using Henv.
  intros Hi [o Ho] Hsid HQ. unfold RefreshSchedParam. fstep. eapply ewp_orch; [exact Ho|]. fstep.
  apply ewp_check; intros Hlt%Z.ltb_lt. fstep. apply ewp_ask. set (rd := e_item env _ tg sid). fstep.
  apply ewp_lift; [|apply class_at_stop]. intros cl _. unfold num_sched_items_ in Hlt.
  destruct (lookup_lt_is_Some_2 (cachedsids_ o) (Z.to_nat sid)) as [x Hx]; [lia|].
  fstep. eapply ewp_params; [exact Ho|by exists o|].
  destruct (SeqCopyParams (rd_success rd) (wc_qos cl) (rd_begin rd) (rd_data rd) x) as [changed x'] eqn:Ec.
  fstep. apply wpf_modify. fold (with_copy tg o sid x' (tick s)). set (s1 := with_copy tg o sid x' (tick s)).
  apply inv_tick in Hi as Hi1.
  assert (∀ q, calm q s s1) as Hcalm1.
  { intros q. apply calm_same; try done. intros tg'. simpl. rewrite lookup_insert_is_Some'. by right. }
  apply wpf_when; intros ->.
  - assert (item tg sid x' s1) as Hx1.
    { eexists. simpl. rewrite lookup_insert_eq. split; [done|]. simpl. by rewrite list_lookup_insert_eq by by eapply lookup_lt_Some. }
    eapply ewp_SchedParamsCallback; [exact Henv|exact Hx1| |].
    + intros Hold. apply (with_copy_loose k _ tg o sid x x' (tick s)); [done|done|done|naive_solver|by right].
    + intros s2 Hm2 Hh2 Hcalm2. assert (calm 0 s s2) as Hcalm by (etrans; [apply Hcalm1|done]).
      apply HQ; [|done]. exact (inv_calm k 0 s s2 Hi Hcalm Hm2 (Hh2 0)).
  - destruct (seq_copy_false _ _ _ _ _ _ Ec) as [Hg Hsu]. apply HQ; [|done].
    assert (loose env 0 s1) as Hl.
    { apply (with_copy_loose k _ tg o sid x x' (tick s)); [done|done|done|by right|]. intros Hsd. left. by rewrite Hsu by apply Hsd. }
    eapply inv_calm; [exact Hi|exact (Hcalm1 0)|by apply loose_zero|by apply Hl].
Qed.

(** [e]: the orchestrators still to be refreshed are there. *)
Lemma ewp_refresh_all k tg n s (Q : unit → Edf → Prop) :
  edf_inv_but k s → is_Some (orchs_ s !! tg) → (∀ s', edf_inv_but k s' → calm 0 s s' → Q tt s') →
  ewp (RefreshAllSchedParams n (RefreshSchedParam env tg)) s Q.
Proof using Henv.
  intros Hi Ho HQ. unfold RefreshAllSchedParams.
  eapply wpf_mono; [apply (wpf_forM _ _ _ (λ l s', Forall (λ i, 0 ≤ i) l ∧ edf_inv_but k s' ∧ calm 0 s s'))|].
  - split; [|done]. apply Forall_fmap, Forall_forall. intros i _. simpl. lia.
  - intros i l s1 (Hl & Hi1 & Hc1). apply Forall_cons in Hl as [Hi0 Hl].
    apply (ewp_RefreshSchedParam k); [done|by apply (cm_orchs _ _ _ Hc1)|done|]. intros s2 Hi2 Hc2. split_and!; [done|done|by etrans].
  - intros [] s1 (_ & Hi1 & Hc1). by apply HQ.
Qed.

Lemma ewp_refresh_orch k tg s (Q : unit → Edf → Prop) :
  edf_inv_but k s → is_Some (orchs_ s !! tg) → (∀ s', edf_inv_but k s' → calm 0 s s' → Q tt s') →
  ewp (refresh_orch env tg) s Q.
Proof using Henv.
  intros Hi Hos HQ. pose proof Hos as [o Ho]. unfold refresh_orch. fstep. eapply ewp_orch; [exact Ho|].
  unfold RefreshSchedParams. generalize (num_sched_items_ o) as n. intros n. clear Ho. revert s Hi Hos HQ.
  induction (capacity o) as [|cap IH]; intros s Hi Hos HQ; simpl; [by apply wpf_ret, HQ|].
  fstep. apply ewp_ask. set (ix := e_next_index env (asked s) tg). apply inv_tick in Hi as Hi1.
  assert (calm 0 s (tick s)) as Hc1 by by apply calm_same. fstep.
  - apply andb_true_iff in Heqb as [H0%Z.leb_le _]. fstep. apply (ewp_RefreshSchedParam k); [done|done|done|].
    intros s2 Hi2 Hc2. apply IH; [done|by apply (cm_orchs _ _ _ Hc2)|]. intros s3 Hi3 Hc3. apply HQ; [done|]. by do 2 (etrans; [done|]).
  - fstep; [|fstep].
    + apply (ewp_refresh_all k); [done|done|]. intros s3 Hi3 Hc3. apply HQ; [done|]. by etrans.
    + by apply wpf_ret, HQ.
    + done.
Qed.

(** A loop over the orchestrators. *)
Lemma ewp_over_orchs k (f : Z → M Edf unit) s (Q : unit → Edf → Prop) :
  (∀ tg s (Q : unit → Edf → Prop), edf_inv_but k s → is_Some (orchs_ s !! tg) →
     (∀ s', edf_inv_but k s' → calm 0 s s' → Q tt s') → ewp (f tg) s Q) →
  edf_inv_but k s → (∀ s', edf_inv_but k s' → calm 0 s s' → Q tt s') →
  ewp (gets (λ s, e_iter env (orchs_ s)) ≫= λ tgs, forM tgs f) s Q.
Proof using Henv.
  intros Hf Hi HQ. fstep. fstep.
  eapply wpf_mono; [apply (wpf_forM _ _ _ (λ l s', Forall (λ tg, is_Some (orchs_ s !! tg)) l ∧ edf_inv_but k s' ∧ calm 0 s s'))|].
  - split; [|done]. apply Forall_forall. intros tg. apply (ee_iter _ Henv).
  - intros tg l s1 (Hl & Hi1 & Hc1). apply Forall_cons in Hl as [H0 Hl].
    apply Hf; [done|by apply (cm_orchs _ _ _ Hc1)|]. intros s2 Hi2 Hc2. split_and!; [done|done|by etrans].
  - intros [] s1 (_ & Hi1 & Hc1). by apply HQ.
Qed.

Lemma ewp_UpdateSchedParams k s (Q : unit → Edf → Prop) :
  edf_inv_but k s → (∀ s', edf_inv_but k s' → calm 0 s s' → Q tt s') → ewp (UpdateSchedParams env) s Q.
Proof using Henv. intros Hi HQ. apply (ewp_over_orchs k); [|done|done]. intros tg s1 Q1. apply ewp_refresh_orch. Qed.

Lemma inv_disc k b s : edf_inv_but k s → edf_inv_but k (set_in_discovery b s).
Proof. intros Hi. apply (inv_same k s); try done. apply (ec_global _ _ _ (ei_mid _ _ Hi)). Qed.

Lemma ewp_DiscoveryComplete k s (Q : unit → Edf → Prop) :
  edf_inv_but k s → (∀ s', edf_inv_but k s' → Q tt s') → ewp (E_DiscoveryComplete env) s Q.
Proof using Henv.
  intros Hi HQ. unfold E_DiscoveryComplete.
  apply wpf_assoc. fstep. apply (ewp_over_orchs k); [|done|].
  - intros tg s1 Q1 Hi1 [o Ho] HQ1. unfold refresh_all_orch. fstep. eapply ewp_orch; [exact Ho|].
    apply (ewp_refresh_all k); [done|by exists o|done].
  - intros s1 Hi1 _. fstep. apply HQ. by apply inv_disc.
Qed.

Lemma ewp_GetSchedParams k tg g s (Q : unit → Edf → Prop) :
  edf_inv_but k s → is_Some (orchs_ s !! tg) → (∀ s', edf_inv_but k s' → calm 0 s s' → Q tt s') → ewp (GetSchedParams env tg g) s Q.
Proof using Henv.
  intros Hi [o Ho] HQ. unfold GetSchedParams. fstep. eapply ewp_orch; [exact Ho|].
  destruct (find_item g (cachedsids_ o) 0) as [sid|] eqn:E; [|by apply wpf_ret, HQ].
  apply find_item_spec in E as (x & H0 & Hx & Hg). rewrite Z.sub_0_r in Hx.
  eapply ewp_SchedParamsCallback; [exact Henv|by exists o|intros _; by eapply inv_loose|].
  intros s' Hm Hh Hc. apply HQ; [exact (inv_calm k 0 s s' Hi Hc Hm (Hh 0))|done].
Qed.

(** ** Message handlers *)

Lemma ewp_check_runtime p t m s (Q : unit → Edf → Prop) :
  heap (e_allocator s) !! p = Some t → Q tt (tick s) → ewp (check_runtime env p m) s Q.
Proof. intros Hp HQ. unfold check_runtime. fstep. eapply ewp_task; [exact Hp|]. fstep. apply ewp_ask. by apply ewp_check. Qed.

(** [UpdateTaskRuntime] changes only times. *)
Lemma ewp_UpdateTaskRuntime p t r u s (Q : unit → Edf → Prop) :
  editing p t s → (∀ t' s', edited env p t s t' s' → sp t' = sp t → has_work t' = has_work t → Q tt s') →
  ewp (UpdateTaskRuntime env p r u) s Q.
Proof using Henv.
  intros He HQ. unfold UpdateTaskRuntime. fstep. eapply ewp_SetRuntime; [apply He|]. intros e.
  set (t1 := set_runtimes r e t). pose proof (bo_estimate _ _ _ (edit_ok env _ _ _ He)) as Hest.
  assert (edited env p t s t1 (put_task p t1 s)) as He1 by (eapply edited_retimed; [by apply edited_refl|by repeat split]).
  fstep. eapply ewp_task; [apply lookup_insert_eq|]. fstep.
  - apply ewp_check; intros _. by eapply HQ.
  - fstep. apply ewp_check; intros _. eapply retimed_calc; [exact He1|done|]. intros t2 s2 He2 E1 E2. by eapply HQ.
Qed.

(** [clear_current]: the task is off its CPU, and its state is for the handler
    to change. *)
Lemma ewp_clear_current p t s (Q : unit → Edf → Prop) :
  editing p t s → run_state t = kOnCpu →
  (∀ s', lifted env p t s' → calm p s s' → Q tt s') → ewp (clear_current p) s Q.
Proof using Henv.
  intros [Hc Hp] Hst HQ. destruct (on_cpu_current env p s p t Hc Hp Hst) as (Hcpu & Hcur & Hne).
  unfold clear_current, e_cpu_of. fstep. fstep. eapply ewp_task; [exact Hp|]. fstep. apply ewp_check; intros _.
  fstep. eapply ewp_cpu; [done|done|]. fstep. apply ewp_check; intros _. fstep. fstep. eapply ewp_cpu; [done|done|].
  fstep. apply ewp_check; intros _. eapply ewp_upd_cpu; [done|done|]. apply HQ; [by apply clear_lifted|].
  apply calm_same; try done. intros c. simpl. destruct (decide (cpu t = c)) as [<-|?]; by rewrite ?fn_lookup_insert, ?fn_lookup_insert_ne.
Qed.

(** [RemoveFromRunqueue] *)
Lemma ewp_Remove p t s (Q : unit → Edf → Prop) :
  editing p t s → run_state t = kQueued → ¬ is_held s p → work_ok t →
  (∀ t' s', lifted env p t' s' → run_state t' = kPaused → calm p s s' → Q tt s') → ewp (E_RemoveFromRunqueue p) s Q.
Proof.
  intros [Hc Hp] Hst Hn Hw HQ. apply wpf_wp. eapply wp_Remove; [exact Hc|exact Hp|done|by eapply queued_pos|..].
  - eapply basic_comparable; [exact Hp|by eapply ec_basic|]. unfold work_ok in Hw. by rewrite Hst in Hw.
  - intros s1 Hc1 Hp1 Ht. apply (HQ (set_run_state kPaused (set_rq_pos (-1) t))); [|done|by eapply touched_calm]. by apply core_lifted.
Qed.

(** The handler gives the task its new state. *)
Lemma e_lifted_inv k p t t1 s0 s :
  edf_inv_but k s0 → calm p s0 s → lifted env p t s → edf_place t1 = None → rq_pos t1 = -1 → gtid t1 = gtid t →
  basic_ok s t1 → work_ok t1 → run_state t1 ≠ kQueued → edf_inv_but k (put_task p t1 s) ∧ calm p s0 (put_task p t1 s).
Proof.
  intros Hi Hc Hl Hpl Hpos Hg Hb Hw Hst. pose proof (lifted_settle env p t t1 s Hl Hpl Hpos Hg Hb) as He.
  assert (calm p s0 (put_task p t1 s)) as Hc' by (etrans; [exact Hc|apply (calm_put p t), Hl]). split; [|done].
  apply (inv_calm k p s0); [done|done|apply (editing_done env p t1); [done|by rewrite Hpl|done]|].
  eapply not_held_state; [apply He|done].
Qed.

Lemma e_lifted_blocked k p t s0 s :
  edf_inv_but k s0 → calm p s0 s → lifted env p t s →
  edf_inv_but k (put_task p (set_run_state kBlocked t) s) ∧ calm p s0 (put_task p (set_run_state kBlocked t) s).
Proof.
  intros Hi Hc Hl. apply (e_lifted_inv k p t); try done; [apply Hl|]. by apply (lifted_basic env p).
Qed.

(** After these handlers the task is there. *)
Definition handled (k : Z) (p : Z) (m : M Edf unit) : Prop :=
  ∀ s t (Q : unit → Edf → Prop), edf_inv_but k s → heap (e_allocator s) !! p = Some t →
    (∀ s', edf_inv_but k s' → calm p s s' → Q tt s') → ewp m s Q.

Lemma ewp_E_TaskRunnable k p m : handled k p (E_TaskRunnable p m).
Proof using Henv.
  intros s t Q Hi Hp HQ. unfold E_TaskRunnable. fstep. eapply ewp_task; [exact Hp|]. fstep.
  apply ewp_check; intros Hst%has_state_true. fstep. eapply ewp_upd; [exact Hp|]. set (t1 := set_boost _ _ t).
  pose proof (inv_editing k p t s Hi Hp) as He.
  assert (editing p t1 (put_task p t1 s)) as He1.
  { eapply edit_put; [exact He|by split|]. eapply basic_edit; [by eapply edit_ok|by split|apply (edit_ok env _ _ _ He)|done|done]. }
  eapply ewp_Enqueue; [exact He1| | |].
  - unfold edf_place. simpl. by rewrite Hst.
  - apply (bo_unqueued _ _ _ (edit_ok env _ _ _ He)). by rewrite Hst.
  - intros s' Hm Hc Hn. assert (calm p s s') as Hc' by (etrans; [by apply (calm_put p t)|done]). apply HQ; [|done]. by apply (inv_calm k p s).
Qed.

Lemma ewp_E_TaskBlocked k p m : handled k p (E_TaskBlocked env p m).
Proof using Henv.
  intros s t Q Hi Hp HQ. destruct (inv_task k p t s Hi Hp) as (Hw & Hq & Hne).
  unfold E_TaskBlocked. fstep. eapply ewp_check_runtime; [exact Hp|]. fstep. eapply ewp_task; [exact Hp|]. fstep.
  apply inv_tick in Hi as Hi1. pose proof (inv_editing k p t (tick s) Hi1 Hp) as He. assert (calm p s (tick s)) as Hc0 by by apply calm_same.
  eapply (wpf_mono _ _ _ (λ _ s1, ∃ t1, lifted env p t1 s1 ∧ calm p s s1)).
  - fstep; [|fstep].
    + apply has_state_true in Heqb. fstep. eapply ewp_UpdateTaskRuntime; [exact He|]. intros t1 s1 [He1 Hs1 Hc1 _] _ _.
      eapply ewp_clear_current; [exact He1|by rewrite (sm_state _ _ Hs1)|]. intros s2 Hl Hc2. exists t1. split; [done|]. by do 2 (etrans; [done|]).
    + apply has_state_true in Heqb0. eapply ewp_Remove; [exact He|done|apply Hi1|done|]. intros t1 s1 Hl _ Hc1. exists t1. split; [done|by etrans].
    + apply ewp_check; intros Hpa%has_state_true. exists t. split; [|done].
      apply core_lifted; [apply He|done|unfold edf_place; by rewrite Hpa|]. apply (bo_unqueued _ _ _ (edit_ok env _ _ _ He)). by rewrite Hpa.
  - intros [] s1 (t1 & Hl & Hc1). eapply ewp_upd; [apply Hl|]. destruct (e_lifted_blocked k p t1 s s1 Hi Hc1 Hl) as [H1 H2]. by apply HQ.
Qed.

Lemma ewp_E_TaskPreempted k p m : handled k p (E_TaskPreempted env p m).
Proof using Henv.
  intros s t Q Hi Hp HQ. destruct (inv_task k p t s Hi Hp) as (Hw & Hq & Hne).
  unfold E_TaskPreempted. fstep. eapply ewp_check_runtime; [exact Hp|]. fstep. eapply ewp_upd; [exact Hp|].
  apply inv_tick in Hi as Hi1. pose proof (inv_editing k p t (tick s) Hi1 Hp) as He.
  set (t1 := set_boost true true t). assert (editing p t1 (put_task p t1 (tick s))) as He1.
  { eapply edit_put; [exact He|by split|]. eapply basic_edit; [by eapply edit_ok|by split|apply (edit_ok env _ _ _ He)|done|done]. }
  assert (calm p s (put_task p t1 (tick s))) as Hc1 by (etrans; [by apply (calm_same p s (tick s))|by apply (calm_put p t)]).
  assert (¬ is_held (put_task p t1 (tick s)) p) as Hn1.
  { eapply (same_place_held p t t1 (tick s)); [done|apply He1|by split|apply Hi1]. }
  set (s1 := put_task p t1 (tick s)) in *. fstep. eapply ewp_task; [apply He1|]. fstep; [|fstep].
  - apply has_state_true in Heqb. simpl in Heqb. fstep. eapply ewp_UpdateTaskRuntime; [exact He1|].
    intros t2 s2 [He2 Hs2 Hc2 _] _ Hw2. fstep. eapply ewp_clear_current; [exact He2|by rewrite (sm_state _ _ Hs2)|].
    intros s3 Hl Hc3. apply wpf_wp. eapply wp_Enqueue_lifted; [exact Hl|]. intros s4 Hm Ht Hn.
    assert (calm p s s4) as Hc4. { do 3 (etrans; [done|]). eapply touched_calm; [exact Ht|apply Hl]. }
    apply HQ; [|done]. by apply (inv_calm k p s).
  - apply has_state_true in Heqb0. apply wpf_wp. eapply wp_UpdateRunqueue; [apply He1|apply He1|done|by eapply queued_pos; [apply He1|..]| |].
    + simpl. unfold work_ok in Hw. simpl in Heqb0. by rewrite Heqb0 in Hw.
    + intros s2 Hm Ht Hn. assert (calm p s s2) as Hc2 by (etrans; [done|]; eapply touched_calm; [exact Ht|apply He1]).
      apply HQ; [|done]. by apply (inv_calm k p s).
  - apply ewp_check; intros Hpa%has_state_true. apply HQ; [|done]. apply (inv_calm k p s); [done|done| |done].
    apply (editing_done env p t1); [done|unfold edf_place; by rewrite Hpa|done].
Qed.

Lemma ewp_E_TaskYield k p m : handled k p (E_TaskYield env p m).
Proof using Henv.
  intros s t Q Hi Hp HQ. destruct (inv_task k p t s Hi Hp) as (Hw & Hq & Hne).
  unfold E_TaskYield. fstep. eapply ewp_check_runtime; [exact Hp|]. fstep. eapply ewp_task; [exact Hp|].
  apply inv_tick in Hi as Hi1. pose proof (inv_editing k p t (tick s) Hi1 Hp) as He. assert (calm p s (tick s)) as Hc0 by by apply calm_same.
  fstep.
  - apply has_state_true in Heqb. fstep. eapply ewp_UpdateTaskRuntime; [exact He|]. intros t1 s1 [He1 Hs1 Hc1 _] _ Hw1.
    fstep. eapply ewp_clear_current; [exact He1|by rewrite (sm_state _ _ Hs1)|]. intros s2 Hl Hc2.
    apply wpf_wp. eapply e_wp_Yield; [exact Hl|left; by rewrite (sm_state _ _ Hs1)| |].
    + unfold work_ok in Hw. rewrite Heqb in Hw. by rewrite Hw1.
    + intros s3 Hm Ht _ _. assert (calm p s s3) as Hc3. { do 3 (etrans; [done|]). eapply touched_calm; [exact Ht|apply Hl]. }
      apply HQ; [|done]. apply (inv_calm k p s); [done|done|done|].
      destruct (touched_at _ _ _ _ Ht) as (t3 & Ht3 & E). apply strip_eq in E. eapply not_held_state; [exact Ht3|]. by rewrite E.
  - apply ewp_check; intros _. by apply HQ.
Qed.

Lemma e_nop_handled k p : handled k p e_nop.
Proof. intros s t Q Hi Hp HQ. by apply wpf_ret, HQ. Qed.

(** ** Tasks come and go *)

Definition freed (p : Z) (t : EdfTask) (s : Edf) : Edf :=
  set_e_allocator (mkAllocator (delete (gtid t) (task_map_ (e_allocator s))) (delete p (heap (e_allocator s)))) s.

Lemma lifted_free p t s : lifted env p t s → edf_mid (freed p t s).
Proof.
  intros [Hp Hpos Hc]. set (s1 := put_task p (set_run_state kBlocked t) s) in *.
  assert (heap (e_allocator s1) !! p = Some (set_run_state kBlocked t)) as Hp1 by apply lookup_insert_eq.
  assert (delete p (heap (e_allocator s1)) = delete p (heap (e_allocator s))) as Ed by (simpl; by rewrite delete_insert_eq).
  assert (p ∉ run_queue_ s) as Hnin by apply (rest_out _ _ _ _ _ ERun (ec_rest _ _ _ Hc) Hp1 ltac:(done)).
  assert (∀ q u, heap (e_allocator (freed p t s)) !! q = Some u → q ≠ p ∧ heap (e_allocator s1) !! q = Some u) as Hheap.
  { intros q u Hu. simpl in Hu. apply lookup_delete_Some in Hu as [Hne Hu]. split; [done|]. simpl. by rewrite lookup_insert_ne. }
  assert (∀ a b, a ≠ p → b ≠ p → edf_gt (freed p t s) a b = edf_gt s1 a b) as Egt.
  { intros a b Ha Hb. unfold edf_gt, key. simpl. by rewrite !lookup_delete_ne, !lookup_insert_ne by done. }
  split.
  - destruct (alloc_inv_free (e_allocator s1) p _ (ec_alloc _ _ _ Hc) Hp1) as [_ Ha]. rewrite Ed in Ha. exact Ha.
  - simpl. rewrite <- Ed. eapply Z.le_lt_trans; [|exact (ec_size _ _ _ Hc)]. apply inj_le.
    rewrite map_size_delete. destruct (heap (e_allocator s1) !! p); simpl; lia.
  - simpl. rewrite <- Ed. by eapply rest_free; [apply (ec_rest _ _ _ Hc)|exact Hp1|].
  - intros i q Hq. destruct (ec_pos _ _ _ Hc i q Hq) as (u & Hu & E). exists u. split; [|done]. simpl.
    assert (q ≠ p) as Hne by (intros ->; apply Hnin; by eapply list_elem_of_lookup_2).
    simpl in Hu. rewrite lookup_insert_ne in Hu by done. by rewrite lookup_delete_ne.
  - intros Hsd. pose proof (core_ordered _ _ _ _ Hc Hp1 ltac:(done) Hsd) as Ho.
    assert (ordered (edf_gt (freed p t s)) (run_queue_ s)) as Ho'.
    { eapply ordered_ext; [|exact Ho]. intros a b Ha Hb. apply Egt; congruence. }
    destruct (find_first 0 _); [|done]. apply ordered_broken; [apply edf_gt_trans|done].
  - intros q u [_ Hu]%Hheap. apply (basic_orchs env s1); [done|]. by eapply ec_basic.
  - intros q u _ [Hne Hu]%Hheap. by eapply ec_work.
  - exact (ec_agent _ _ _ Hc).
  - exact (ec_global _ _ _ Hc).
  - exact (ec_orchs _ _ _ Hc).
Qed.

(** No task was added. *)
Definition no_more (s s' : Edf) : Prop := (size (heap (e_allocator s')) ≤ size (heap (e_allocator s)))%nat.

Global Instance no_more_trans : Transitive no_more.
Proof. intros s1 s2 s3. unfold no_more. lia. Qed.

Lemma calm_no_more p s s' : calm p s s' → no_more s s'.
Proof. intros Hc. unfold no_more. by rewrite (dom_size s s') by apply Hc. Qed.

Lemma s32_nat n : 0 ≤ n < 2 ^ 31 → s32 n = n.
Proof. intros H. unfold s32. rewrite Z.mod_small; lia. Qed.

Lemma ewp_e_free p t s0 s (Q : unit → Edf → Prop) :
  edf_inv s0 → calm p s0 s → lifted env p t s → (∀ s', edf_inv s' → no_more s0 s' → Q tt s') → ewp (e_free env p) s Q.
Proof.
  intros Hi Hc Hl HQ. unfold e_free. fstep. apply wpf_wp. eapply wp_free; [apply Hl|]. apply wp_modify.
  cut (edf_inv (set_num_tasks (s32 (num_tasks_ s - 1)) (freed p t s)) ∧ no_more s0 (freed p t s)); [intros [H1 H2]; by apply HQ|].
  pose proof (lifted_free p t s Hl) as Hm. pose proof (lf_at _ _ _ _ Hl) as Hp.
  assert (is_Some (heap (e_allocator s) !! p)) as Hsome by by exists t. pose proof (map_size_delete p (heap (e_allocator s))) as Esz.
  rewrite Hp in Esz. simpl in Esz. assert (size (heap (e_allocator s)) ≠ 0%nat) as Hnz.
  { intros E. apply map_size_empty_iff in E. rewrite E in Hp. by rewrite lookup_empty in Hp. }
  pose proof (ei_num _ _ Hi) as En. rewrite <- (dom_size s0 s) in En by apply Hc. rewrite <- (cm_num _ _ _ Hc) in En.
  assert (no_more s0 (freed p t s)) as Hno.
  { unfold no_more. rewrite <- (dom_size s0 s) by apply Hc. simpl. rewrite Esz. lia. }
  split; [|exact Hno]. split.
  - apply (core_same env 0 (freed p t s)); try done. apply (ec_global _ _ _ Hm).
  - intros q (u & Hu & H). simpl in Hu. apply lookup_delete_Some in Hu as [Hne Hu]. apply (ei_held _ _ Hi q), (cm_held _ _ _ Hc); [done|by exists u].
  - intros c. simpl. rewrite (cm_next _ _ _ Hc). apply Hi.
  - simpl. pose proof (ec_size _ _ _ (ei_mid _ _ Hi)) as Hsz. rewrite <- (dom_size s0 s) in Hsz by apply Hc.
    rewrite s32_nat by lia. lia.
Qed.

Lemma ewp_E_TaskDead p t m s (Q : unit → Edf → Prop) :
  edf_inv s → heap (e_allocator s) !! p = Some t → (∀ s', edf_inv s' → no_more s s' → Q tt s') → ewp (E_TaskDead env p m) s Q.
Proof.
  intros Hi Hp HQ. unfold E_TaskDead. fstep. eapply ewp_task; [exact Hp|]. fstep. apply ewp_check; intros Hst%has_state_true.
  pose proof (inv_editing 0 p t s Hi Hp) as He.
  eapply (ewp_e_free p t s); [done|done| |done]. apply core_lifted; [apply He|done|unfold edf_place; by rewrite Hst|].
  apply (bo_unqueued _ _ _ (edit_ok env _ _ _ He)). by rewrite Hst.
Qed.

Lemma ewp_E_TaskDeparted p t m s (Q : unit → Edf → Prop) :
  edf_inv s → heap (e_allocator s) !! p = Some t → (∀ s', edf_inv s' → no_more s s' → Q tt s') → ewp (E_TaskDeparted env p m) s Q.
Proof using Henv.
  intros Hi Hp HQ. unfold E_TaskDeparted. fstep. eapply ewp_task; [exact Hp|]. fstep.
  eapply (wpf_mono _ _ _ (λ _ s1, ∃ t1, edf_inv s1 ∧ calm p s s1 ∧ heap (e_allocator s1) !! p = Some t1)).
  { apply wpf_when; intros Hy.
    - apply has_state_true in Hy. apply wpf_wp. eapply wp_Unyield; [apply Hi|exact Hp|done|]. intros s1 Hm Ht Hn.
      destruct (touched_at _ _ _ _ Ht) as (t1 & Ht1 & _). assert (calm p s s1) as Hc by by eapply touched_calm.
      exists t1. split; [by apply (inv_calm 0 p s)|done].
    - by exists t. }
  intros [] s1 (t1 & Hi1 & Hc1 & Hp1). fstep. eapply ewp_task; [exact Hp1|]. fstep.
  pose proof (inv_editing 0 p t1 s1 Hi1 Hp1) as He. destruct (inv_task 0 p t1 s1 Hi1 Hp1) as (Hw & Hq & Hne).
  eapply (wpf_mono _ _ _ (λ _ s2, ∃ t2, lifted env p t2 s2 ∧ calm p s s2)).
  - fstep; [|fstep].
    + apply has_state_true in Heqb. eapply ewp_clear_current; [exact He|done|]. intros s2 Hl Hc2. exists t1. split; [done|by etrans].
    + apply has_state_true in Heqb0. eapply ewp_Remove; [exact He|done|apply Hi1|done|]. intros t2 s2 Hl _ Hc2. exists t2. split; [done|by etrans].
    + apply ewp_check; intros [Hb|Hb]%orb_true_iff; apply has_state_true in Hb; exists t1; (split; [|done]);
        (apply core_lifted; [apply He|done|unfold edf_place; by rewrite Hb|]); apply (bo_unqueued _ _ _ (edit_ok env _ _ _ He)); by rewrite Hb.
  - intros [] s2 (t2 & Hl & Hc2). by apply (ewp_e_free p t2 s s2).
Qed.

(** The table of a new thread group. *)
Lemma core_new_orch p tg o s :
  edf_core p s → orchs_ s !! tg = None → orch_ok o → edf_core p (set_orchs (<[tg := o]> (orchs_ s)) s).
Proof.
  intros Hc Hn Ho.
  assert (∀ r x, params_of s r = Some x → params_of (set_orchs (<[tg := o]> (orchs_ s)) s) r = Some x) as Hpar.
  { intros [| |tg' sid] x; simpl; [done|done|]. destruct (decide (tg = tg')) as [<-|Hne]; [by rewrite Hn|by rewrite lookup_insert_ne]. }
  apply core_orchs; [done|..].
  - intros tg' o'. rewrite lookup_insert_Some. intros [[<- <-]|[_ H]]; [done|by eapply ec_orchs].
  - intros r x Hx _. exists x. split; [by apply Hpar|done].
  - intros _ q t _ Hq. destruct (sp t) as [| |tg' sid] eqn:E; [done|done|].
    destruct (bo_params _ _ _ (ec_basic _ _ _ Hc q t Hq) tg' sid E) as (x & Hx & _). rewrite E in Hx. by rewrite (Hpar _ x Hx), Hx.
Qed.

Lemma ewp_HandleNewGtid p t tg s (Q : unit → Edf → Prop) :
  editing p t s → run_state t = kBlocked →
  (∀ t' s', editing p t' s' → run_state t' = kBlocked → calm p s s' → (∀ q, q ≠ p → is_held s' q → is_held s q) → Q tt s') →
  ewp (HandleNewGtid env p tg) s Q.
Proof.
  intros He Hst HQ. unfold HandleNewGtid. fstep. apply ewp_check; intros _. fstep. fstep.
  destruct (orchs_ s !! tg) as [o|] eqn:Eo; [by apply wpf_ret; eapply HQ|]. fstep. apply ewp_ask.
  destruct (e_attach env (asked s) tg) as [tb|].
  - apply wpf_modify. apply (HQ t); [split| |apply calm_same; try done|].
    + apply (core_new_orch p tg _ (tick s)); [apply core_tick, He|done|]. unfold orch_ok. simpl. by rewrite length_fmap.
    + apply He.
    + done.
    + intros tg'. simpl. rewrite lookup_insert_is_Some'. by right.
    + done.
  - eapply ewp_upd; [apply He|]. apply edit_tick in He as He1. set (t1 := set_work SpDummy true (wcid t) t).
    assert (editing p t1 (put_task p t1 (tick s))) as He2.
    { eapply edit_put; [exact He1|by split|]. pose proof (edit_ok env _ _ _ He1) as []. by split. }
    assert (calm p s (put_task p t1 (tick s))) as Hc by (etrans; [by apply (calm_same p s (tick s))|by apply (calm_put p t), He1]).
    eapply (HQ t1); [done|done|done|apply Hc].
Qed.

Lemma ewp_E_TaskNew p t m s (Q : unit → Edf → Prop) :
  edf_inv_but 1 s → heap (e_allocator s) !! p = Some t → run_state t = kBlocked → sp t = SpNull →
  (∀ s', edf_inv s' → no_more s s' → Q tt s') → ewp (E_TaskNew env p m) s Q.
Proof using Henv.
  intros Hi Hp Hst Hsp HQ. unfold E_TaskNew. fstep. eapply ewp_check_runtime; [exact Hp|]. fstep.
  apply inv_tick in Hi as Hi0. pose proof (inv_editing 1 p t (tick s) Hi0 Hp) as He0.
  eapply ewp_UpdateTaskRuntime; [exact He0|]. intros t1 s1 [He1 Hs1 Hc1 _] _ _. fstep. eapply ewp_upd; [apply He1|].
  set (t2 := set_run_state kBlocked _). assert (same_place t1 t2) as Hs2 by (split; try done; simpl; by rewrite (sm_state _ _ Hs1)).
  assert (editing p t2 (put_task p t2 s1)) as He2.
  { eapply edit_put; [exact He1|done|]. eapply basic_edit; [by eapply edit_ok|done|apply (edit_ok env _ _ _ He1)|done|done]. }
  fstep. apply ewp_ask. fstep. eapply ewp_HandleNewGtid; [by apply edit_tick|done|]. intros t3 s3 He3 Hst3 Hc3 _.
  assert (calm p s s3) as Hcalm3.
  { etrans; [by apply (calm_same p s (tick s))|]. etrans; [exact Hc1|]. etrans; [by apply (calm_put p t1), He1|]. etrans; [|exact Hc3]. by apply calm_same. }
  clear Hc1 Hc3. assert (rq_pos t3 = -1) as Hpos3 by (apply (bo_unqueued _ _ _ (edit_ok env _ _ _ He3)); by rewrite Hst3).
  assert (edf_place t3 = None) as Hpl3 by (unfold edf_place; by rewrite Hst3). fstep.
  eapply (wpf_mono _ _ _ (λ _ s4, edf_mid s4 ∧ calm p s s4 ∧ ¬ is_held s4 p)).
  { apply wpf_when; intros _.
    - eapply ewp_Enqueue; [exact He3|done|done|]. intros s4 Hm Hc4 Hn. split; [done|]. split; [by etrans|done].
    - split; [|split; [done|]].
      + apply (editing_done env p t3); [done|by rewrite Hpl3|unfold work_ok; by rewrite Hst3].
      + eapply not_held_state; [apply He3|by rewrite Hst3]. }
  intros [] s4 (Hm4 & Hc4 & Hn4). fstep. fstep. set (s5 := set_num_tasks _ s4).
  pose proof (inv_calm 1 p s s4 Hi Hc4 Hm4 Hn4) as Hi4.
  assert (edf_inv s5) as Hi5.
  { pose proof (ei_num _ _ Hi4) as En. pose proof (ec_size _ _ _ Hm4) as Hsz. split.
    - apply (core_same env 0 s4); try done. apply (ec_global _ _ _ Hm4).
    - intros q (u & H). apply (ei_held _ _ Hi4 q). by exists u.
    - apply Hi4.
    - simpl. rewrite s32_nat by lia. lia. }
  assert (no_more s s5) as Hno by exact (calm_no_more p s s4 Hc4).
  fstep. fstep. apply wpf_when; intros _; [|by apply HQ]. fstep. fstep.
  destruct (orchs_ s5 !! _) as [o|] eqn:Eo; [|by apply wpf_ret, HQ].
  assert (∃ t5, heap (e_allocator s5) !! p = Some t5) as [t5 Ht5].
  { apply elem_of_dom. change (e_allocator s5) with (e_allocator s4). rewrite (cm_dom _ _ _ Hc4). by eapply elem_of_dom_2. }
  fstep. eapply ewp_task; [exact Ht5|]. eapply (ewp_GetSchedParams 0); [done|by exists o|]. intros s6 Hi6 Hc6. apply HQ; [done|].
  etrans; [exact Hno|exact (calm_no_more 0 s5 s6 Hc6)].
Qed.

(** ** The dispatch of a message *)

Notation dispatch := (@DispatchMessage Edf EdfTask (EdfTask_type env) _ (Edf_ops env)).

Lemma inv_seqnum p t n s : edf_inv s → heap (e_allocator s) !! p = Some t → edf_inv (put_task p (set_seqnum n t) s).
Proof.
  intros Hi Hp. set (t1 := set_seqnum n t). pose proof (inv_editing 0 p t s Hi Hp) as He.
  assert (editing p t1 (put_task p t1 s)) as He1.
  { eapply edit_put; [exact He|by split|]. eapply basic_edit; [by eapply edit_ok|by split|apply (edit_ok env _ _ _ He)|done|done]. }
  apply (inv_calm 0 p s); [done|by apply (calm_put p t)| |].
  - apply (core_mid env p); [apply He1| |].
    + intros Hsd. eapply ordered_ext; [|exact (mid_ordered env s (ei_mid _ _ Hi) Hsd)]. intros a b _ _.
      assert (∀ q, key (put_task p t1 s) q = key s q) as E; [|unfold edf_gt; by rewrite !E].
      intros q. unfold key. simpl. destruct (decide (p = q)) as [<-|Hne]; [by rewrite lookup_insert_eq, Hp|by rewrite lookup_insert_ne].
    + intros t' Ht'. simpl in Ht'. rewrite lookup_insert_eq in Ht'. injection Ht' as <-. by apply (inv_task 0 p t s).
  - eapply (same_place_held p t t1 s); [done|apply He1|by split|apply Hi].
Qed.

Lemma ewp_Advance p t n s (Q : unit → Edf → Prop) :
  edf_inv s → heap (e_allocator s) !! p = Some t → (∀ s', edf_inv s' → no_more s s' → Q tt s') → ewp (Advance p n) s Q.
Proof.
  intros Hi Hp HQ. unfold Advance. fstep. eapply ewp_task; [exact Hp|]. fstep. apply ewp_check; intros _.
  eapply ewp_upd; [exact Hp|]. apply HQ; [by apply inv_seqnum|]. apply (calm_no_more p). by apply (calm_put p t).
Qed.

(** A handler after which the sequence number advances. *)
Lemma ewp_handled p t (h : M Edf unit) (m : Message) s (Q : unit → Edf → Prop) :
  handled 0 p h → edf_inv s → heap (e_allocator s) !! p = Some t → (∀ s', edf_inv s' → no_more s s' → Q tt s') →
  ewp ((h ≫= λ _, mret true) ≫= λ u : bool, whenM u (Advance p (msg_seqnum m))) s Q.
Proof.
  intros Hh Hi Hp HQ. fstep. fstep. eapply Hh; [done|exact Hp|]. intros s1 Hi1 Hc1. fstep. simpl.
  assert (∃ t1, heap (e_allocator s1) !! p = Some t1) as [t1 Ht1].
  { apply elem_of_dom. rewrite (cm_dom _ _ _ Hc1). by eapply elem_of_dom_2. }
  eapply ewp_Advance; [done|exact Ht1|]. intros s2 Hi2 Hno. apply HQ; [done|]. etrans; [by apply (calm_no_more p)|exact Hno].
Qed.

(** The other handlers. *)
Lemma ewp_final p (h : M Edf unit) (m : Message) s (Q : unit → Edf → Prop) :
  ewp h s Q → ewp ((h ≫= λ _, mret false) ≫= λ u : bool, whenM u (Advance p (msg_seqnum m))) s Q.
Proof. intros Hh. fstep. fstep. eapply wpf_mono; [exact Hh|]. intros [] s1 HQ. fstep. exact HQ. Qed.

Lemma inv_new s g (Hi : edf_inv s) :
  g ≠ 0 → Z.of_nat (size (heap (e_allocator s))) + 1 < 2 ^ 31 → task_map_ (e_allocator s) !! g = None →
  let p := e_malloc env (e_allocator s) in
  let s1 := set_e_allocator (mkAllocator (<[g := p]> (task_map_ (e_allocator s))) (<[p := EdfTask_new (e_absl env) g]> (heap (e_allocator s)))) s in
  edf_inv_but 1 s1 ∧ heap (e_allocator s1) !! p = Some (EdfTask_new (e_absl env) g) ∧
  size (heap (e_allocator s1)) = S (size (heap (e_allocator s))).
Proof using Henv.
  intros Hg Hsz Hn p s1. pose proof (ei_mid _ _ Hi) as Hm. pose proof (ec_alloc _ _ _ Hm) as Ha.
  destruct (ee_malloc _ Henv (e_allocator s) (proj1 Ha)) as [Hp0 Hpn]. fold p in Hp0, Hpn.
  assert (heap (e_allocator s1) !! p = Some (EdfTask_new (e_absl env) g)) as Hp1 by apply lookup_insert_eq.
  assert (size (heap (e_allocator s1)) = S (size (heap (e_allocator s)))) as Esz by (simpl; by apply map_size_insert_None).
  assert (∀ q u, heap (e_allocator s1) !! q = Some u → (q = p ∧ u = EdfTask_new (e_absl env) g) ∨ (q ≠ p ∧ heap (e_allocator s) !! q = Some u)) as Hheap.
  { intros q u Hu. simpl in Hu. apply lookup_insert_Some in Hu as [[<- <-]|[? ?]]; [by left|by right]. }
  split; [|done]. split.
  - split.
    + exact (proj2 (alloc_inv_new (e_allocator s) p g Ha Hp0 Hpn Hn eq_refl)).
    + rewrite Esz. lia.
    + by apply rest_new; [apply (ec_rest _ _ _ Hm)| |].
    + intros i q Hq. destruct (ec_pos _ _ _ Hm i q Hq) as (u & Hu & E). exists u. simpl. rewrite lookup_insert_ne by congruence. done.
    + intros Hsd. pose proof (mid_ordered env s Hm Hsd) as Ho.
      assert (ordered (edf_gt s1) (run_queue_ s)) as Ho'.
      { eapply ordered_ext; [|exact Ho]. intros a b Hq Hr. unfold edf_gt, key. simpl.
        rewrite !lookup_insert_ne; [done|intros <-..].
        - by destruct (core_queued env 0 s p Hm Hr) as (u & Hu & _); rewrite Hpn in Hu.
        - by destruct (core_queued env 0 s p Hm Hq) as (u & Hu & _); rewrite Hpn in Hu. }
      simpl. destruct (find_first 0 _); [|done]. apply ordered_broken; [apply edf_gt_trans|done].
    + intros q u [[-> ->]|[_ Hu]]%Hheap; [|apply (basic_orchs env s); [done|by eapply ec_basic]].
      split; simpl; try done; try lia. apply (ee_ms _ Henv).
    + intros q u Hq [[-> ->]|[_ Hu]]%Hheap; [done|by eapply (ec_work _ _ _ Hm q)].
    + exact (ec_agent _ _ _ Hm).
    + exact (ec_global _ _ _ Hm).
    + exact (ec_orchs _ _ _ Hm).
  - intros q (u & [[-> ->]|[_ Hu]]%Hheap & Hst & Hpos); [done|]. apply (ei_held _ _ Hi q). by exists u.
  - apply Hi.
  - rewrite Esz. simpl. pose proof (ei_num _ _ Hi). lia.
Qed.

(** The dispatch of a task message to its handler. *)
Lemma ewp_dispatch_task p t m s (Q : unit → Edf → Prop) :
  edf_inv s → heap (e_allocator s) !! p = Some t → msg_type m ≠ MSG_TASK_NEW →
  (∀ s', edf_inv s' → no_more s s' → Q tt s') →
  ewp (@dispatch_task Edf EdfTask (EdfTask_type env) _ (Edf_ops env) p m ≫= λ u : bool, whenM u (Advance p (msg_seqnum m))) s Q.
Proof using Henv.
  intros Hi Hp Hnew HQ. unfold dispatch_task. simpl TaskNew. rewrite (proj2 (Z.eqb_neq _ _) Hnew). cbn -[E_TaskPreempted E_TaskDead].
  repeat match goal with |- wpf _ (mbind _ (if ?b then _ else _)) _ _ => destruct b end.
  all: try by (eapply ewp_handled; [|exact Hi|exact Hp|exact HQ]; try apply e_nop_handled;
               eauto using ewp_E_TaskRunnable, ewp_E_TaskBlocked, ewp_E_TaskPreempted, ewp_E_TaskYield).
  - apply ewp_final. by eapply ewp_E_TaskDead.
  - apply ewp_final. by eapply ewp_E_TaskDeparted.
  - done.
Qed.

Lemma ewp_DispatchMessage m s (Q : unit → Edf → Prop) :
  edf_inv s → Z.of_nat (size (heap (e_allocator s))) + 1 < 2 ^ 31 →
  (∀ s', edf_inv s' → (size (heap (e_allocator s')) ≤ S (size (heap (e_allocator s))))%nat → Q tt s') → ewp (dispatch m) s Q.
Proof using Henv.
  intros Hi Hsz HQ. unfold DispatchMessage. fstep; [apply wpf_ret, HQ; [done|lia]|]. fstep.
  { unfold dispatch_cpu. repeat (fstep; [simpl; apply wpf_ret, HQ; [done|lia]|]). done. }
  fstep. apply ewp_check; intros _. fstep. apply ewp_check; intros Hg%negb_true_iff%Z.eqb_neq. fstep.
  unfold find_task. destruct (Z.eqb_spec (msg_type m) MSG_TASK_NEW) as [Hnew|Hnew].
  - fstep. apply wpf_wp. apply wp_get. unfold GetTask_new, GetTask. simpl malloc.
    destruct (task_map_ (allocator s) !! msg_gtid m) as [q|] eqn:Eq.
    + fstep. fstep. fstep. apply wpf_ret. change (set_allocator (allocator s) s) with (set_e_allocator (e_allocator s) s).
      assert (set_e_allocator (e_allocator s) s = s) as -> by by destruct s. apply HQ; [done|lia].
    + destruct (inv_new s (msg_gtid m) Hi Hg Hsz Eq) as (Hi1 & Hp1 & Esz). fstep. fstep. fstep.
      unfold dispatch_task. rewrite (proj2 (Z.eqb_eq _ _) Hnew). simpl TaskNew. apply ewp_final.
      eapply ewp_E_TaskNew; [exact Hi1|exact Hp1|done|done|]. intros s' Hi' Hno. apply HQ; [done|]. unfold no_more in Hno.
      rewrite <- Esz. exact Hno.
  - fstep. destruct (GetTask (msg_gtid m) (allocator s)) as [p|] eqn:Eg; [|apply wpf_ret, HQ; [done|lia]].
    destruct (proj1 (proj2 (ec_alloc _ _ _ (ei_mid _ _ Hi)) _ _) Eg) as (t & Ht & _).
    eapply ewp_dispatch_task; [done|exact Ht|done|]. intros s' Hi' Hno. apply HQ; [done|]. unfold no_more in Hno. lia.
Qed.
End turn.
