(* ===== verification/EdfPass.v ===== *)
(** * EdfPass: the scheduling pass of the EDF agent, and the agent's turn

    A pass takes tasks out of the run queue for the CPUs, and holds them: they
    are queued but nowhere.  Each held task is the [next] of one of the chosen
    CPUs; when the pass ends it runs there or is back in the queue. *)

From S2P Require Import Prelude Outcome CpuMap CpuMapSpec.
From S2P Require Import Topology TopologySpec Dispatch Placement PrioTable Edf EdfHeap EdfOps EdfSafe EdfTurn.
From stdpp Require Import gmap functions sorting.
From Stdlib Require Import ZArith Lia.

Local Open Scope Z_scope.

(** ** What does not look at the yielding tasks *)

Definition blind {A} (m : M Edf A) : Prop := ∀ l s,
  m (set_yielding l s) = match m s with Ok (a, s') => Ok (a, set_yielding l s') | Crash f => Crash f end.

Lemma blind_bind {A B} (m : M Edf A) (f : A → M Edf B) : blind m → (∀ a, blind (f a)) → blind (m ≫= f).
Proof. intros Hm Hf l s. unfold mbind, M_bind. rewrite Hm. destruct (m s) as [[a s1]|]; [apply Hf|done]. Qed.

Lemma blind_gets {A} (f : Edf → A) : (∀ l s, f (set_yielding l s) = f s) → blind (gets f).
Proof. intros Hf l s. unfold gets. by rewrite Hf. Qed.

Lemma blind_if {A} (b : bool) (m m' : M Edf A) : blind m → blind m' → blind (if b then m else m').
Proof. by destruct b. Qed.

Lemma blind_lift {A} (m : outcome A) : blind (lift m).
Proof. intros l s. unfold lift. by destruct m. Qed.

Lemma blind_task p : blind (task_at p : M Edf EdfTask).
Proof. intros l s. apply (blind_lift _ l s). Qed.

Lemma blind_sp r : blind (sp_at r).
Proof.
  destruct r as [| |tg sid]; simpl; [done|done|]. apply blind_bind; [|intros o; apply blind_lift]. unfold orch_at.
  apply blind_bind; [by apply blind_gets|]. intros os. by destruct (os !! tg).
Qed.

Lemma blind_greater a b : blind (SchedDeadlineGreater a b).
Proof.
  unfold SchedDeadlineGreater. apply blind_bind; [apply blind_task|]. intros ta.
  apply blind_bind; [apply blind_task|]. intros tb. apply blind_if; [done|].
  assert (∀ p, blind (GetQoS p)) as Hq.
  { intros p. unfold GetQoS. apply blind_bind; [apply blind_task|]. intros t. by apply blind_bind; [apply blind_sp|]. }
  apply blind_bind; [apply Hq|]. intros qa. apply blind_bind; [apply Hq|]. intros qb. by apply blind_if.
Qed.

Lemma blind_upd p f : blind (upd_task p f).
Proof. unfold upd_task. apply blind_bind; [intros l s; apply (blind_lift _ l s)|done]. Qed.

Lemma blind_rq_at i : blind (rq_at i).
Proof. unfold rq_at. apply blind_bind; [by apply blind_gets|]. intros l. by destruct (l !! Z.to_nat i). Qed.

Lemma blind_swap i j : blind (swap i j).
Proof.
  unfold swap. apply blind_bind; [apply blind_rq_at|]. intros p. apply blind_bind; [apply blind_rq_at|]. intros q.
  apply blind_bind; [done|]. intros _. apply blind_bind; [apply blind_task|]. intros t1. apply blind_bind; [apply blind_task|]. intros t2.
  apply blind_bind; [apply blind_upd|]. intros _. apply blind_upd.
Qed.

Lemma blind_sift_up fuel pos : blind (sift_up fuel pos).
Proof.
  revert pos. induction fuel as [|fuel IH]; intros pos; [done|]. simpl. apply blind_bind; [apply blind_swap|]. intros _.
  apply blind_if; [done|]. apply blind_bind; [apply blind_rq_at|]. intros a. apply blind_bind; [apply blind_rq_at|]. intros b.
  apply blind_bind; [apply blind_greater|]. intros g. by apply blind_if.
Qed.

Lemma blind_compare (b : bool) i j :
  blind (if b then rq_at i ≫= λ a, rq_at j ≫= λ b, SchedDeadlineGreater a b else mret false).
Proof.
  apply blind_if; [|done]. apply blind_bind; [apply blind_rq_at|]. intros x. apply blind_bind; [apply blind_rq_at|]. intros y. apply blind_greater.
Qed.

Lemma blind_sift_down fuel pos : blind (sift_down fuel pos).
Proof.
  revert pos. induction fuel as [|fuel IH]; intros pos; [done|]. simpl. apply blind_bind; [by apply blind_gets|]. intros l.
  apply blind_bind; [apply blind_compare|]. intros r. apply blind_bind; [apply blind_compare|]. intros g.
  apply blind_if; [|done]. by apply blind_bind; [apply blind_swap|].
Qed.

Lemma blind_UpdateRunqueuePosition pos : blind (UpdateRunqueuePosition pos).
Proof.
  unfold UpdateRunqueuePosition. apply blind_bind; [by apply blind_gets|]. intros size. apply blind_bind.
  - apply blind_if; [done|]. apply blind_bind; [apply blind_rq_at|]. intros a. apply blind_bind; [apply blind_rq_at|]. intros b. apply blind_greater.
  - intros up. apply blind_if; [apply blind_sift_up|apply blind_sift_down].
Qed.

Lemma blind_Enqueue p : blind (E_Enqueue p).
Proof.
  unfold E_Enqueue. apply blind_bind; [apply blind_task|]. intros t. apply blind_if; [apply blind_upd|].
  apply blind_bind; [by unfold check; apply blind_if|]. intros _. apply blind_bind; [apply blind_upd|]. intros _.
  apply blind_bind; [done|]. intros _. apply blind_bind; [by apply blind_gets|]. intros pos. apply blind_bind; [apply blind_upd|]. intros _.
  apply blind_UpdateRunqueuePosition.
Qed.

Section pass.
Context (env : EdfEnv) (Henv : edf_env_ok env).

#[local] Instance edf_pass_task_type : TaskType EdfTask := EdfTask_type env.

Notation edf_core := (edf_core env).
Notation edf_mid := (edf_mid env).
Notation basic_ok := (basic_ok env).
Notation editing := (editing env).
Notation edf_inv := (edf_inv env).

(** During a pass: the CPUs [us] have a [next], which is held; apart from these
    only [x] may be held. *)
Record passing (us : list Z) (x : Z) (s : Edf) : Prop := {
  pa_mid : edf_mid s;
  pa_next : ∀ c, next (e_cpus s c) ≠ 0 ↔ c ∈ us;
  pa_in : ∀ c, c ∈ us → is_held s (next (e_cpus s c)) ∧ next (e_cpus s c) ≠ x;
  pa_held : ∀ q, is_held s q → q = x ∨ ∃ c, c ∈ us ∧ next (e_cpus s c) = q;
  pa_inj : ∀ c c', c ∈ us → c' ∈ us → next (e_cpus s c) = next (e_cpus s c') → c = c';
  pa_num : num_tasks_ s = Z.of_nat (size (heap (e_allocator s)))
}.

Lemma held_nonzero p s q : edf_core p s → is_held s q → q ≠ 0.
Proof. intros Hc (t & Ht & _). by eapply core_nonzero. Qed.

Lemma passing_inv s : passing [] 0 s ↔ edf_inv s.
Proof.
  split.
  - intros [Hm Hn Hin Hh _ Hk]. split; [done| | |by rewrite Z.add_0_r].
    + intros q Hq. destruct (Hh q Hq) as [->|(c & Hc & _)]; [by eapply held_nonzero in Hq|by apply elem_of_nil in Hc].
    + intros c. destruct (decide (next (e_cpus s c) = 0)) as [|Hne]; [done|]. by apply Hn, elem_of_nil in Hne.
  - intros [Hm Hh Hn Hk]. split; try done.
    + intros c. rewrite Hn. split; [done|by intros ?%elem_of_nil].
    + by intros c ?%elem_of_nil.
    + intros q Hq. by apply Hh in Hq.
    + by intros c c' ?%elem_of_nil.
    + by rewrite Z.add_0_r in Hk.
Qed.

Lemma passing_calm us x s s' : passing us x s → calm 0 s s' → edf_mid s' → passing us x s'.
Proof.
  intros [Hm Hn Hin Hh Hinj Hk] Hc Hm'.
  assert (∀ q, is_held s' q ↔ is_held s q) as Heq.
  { intros q. destruct (decide (q = 0)) as [->|Hne]; [|by apply (cm_held _ _ _ Hc)].
    split; intros Hq; by eapply held_nonzero in Hq. }
  split; [done|..].
  - intros c. rewrite (cm_next _ _ _ Hc). apply Hn.
  - intros c Hcu. rewrite (cm_next _ _ _ Hc), Heq. by apply Hin.
  - intros q Hq%Heq. destruct (Hh q Hq) as [->|(c & Hcu & E)]; [by left|]. right. exists c. by rewrite (cm_next _ _ _ Hc).
  - intros c c'. rewrite !(cm_next _ _ _ Hc). apply Hinj.
  - by rewrite (cm_num _ _ _ Hc), (dom_size s s') by apply Hc.
Qed.

Lemma passing_calm_at us x p s s' :
  passing us x s → calm p s s' → ¬ is_held s p → ¬ is_held s' p → edf_mid s' → passing us x s'.
Proof. intros Hp Hc Hn Hn' Hm. apply (passing_calm us x s); [done|by eapply calm_weaken|done]. Qed.

(** A held task that is no CPU's next. *)
Lemma passing_hold us p s s' :
  passing us 0 s → calm p s s' → ¬ is_held s p → edf_mid s' → passing us p s'.
Proof.
  intros [Hm Hn Hin Hh Hinj Hk] Hc Hnp Hm'. split; [done|..].
  - intros c. rewrite (cm_next _ _ _ Hc). apply Hn.
  - intros c Hcu. rewrite (cm_next _ _ _ Hc). destruct (Hin c Hcu) as [H1 _].
    assert (next (e_cpus s c) ≠ p) as Hne by congruence. split; [|done]. by apply (cm_held _ _ _ Hc).
  - intros q Hq. destruct (decide (q = p)) as [->|Hne]; [by left|]. apply (cm_held _ _ _ Hc) in Hq; [|done].
    destruct (Hh q Hq) as [->|(c & Hcu & E)]; [by eapply held_nonzero in Hq|]. right. exists c. by rewrite (cm_next _ _ _ Hc).
  - intros c c'. rewrite !(cm_next _ _ _ Hc). apply Hinj.
  - by rewrite (cm_num _ _ _ Hc), (dom_size s s') by apply Hc.
Qed.

Lemma passing_drop us p s s' :
  passing us p s → calm p s s' → ¬ is_held s' p → edf_mid s' → passing us 0 s'.
Proof.
  intros [Hm Hn Hin Hh Hinj Hk] Hc Hnp Hm'. split; [done|..].
  - intros c. rewrite (cm_next _ _ _ Hc). apply Hn.
  - intros c Hcu. rewrite (cm_next _ _ _ Hc). destruct (Hin c Hcu) as [H1 H2]. split; [by apply (cm_held _ _ _ Hc)|by apply Hn].
  - intros q Hq. destruct (decide (q = p)) as [->|Hne]; [done|]. apply (cm_held _ _ _ Hc) in Hq; [|done].
    destruct (Hh q Hq) as [->|(c & Hcu & E)]; [done|]. right. exists c. by rewrite (cm_next _ _ _ Hc).
  - intros c c'. rewrite !(cm_next _ _ _ Hc). apply Hinj.
  - by rewrite (cm_num _ _ _ Hc), (dom_size s s') by apply Hc.
Qed.

(** The held task becomes the next of a CPU, or stops being it. *)
Lemma passing_set_next us c p s :
  passing us p s → is_held s p → c ∉ us → passing (c :: us) 0 (set_e_cpus (<[c := set_next p (e_cpus s c)]> (e_cpus s)) s).
Proof.
  intros [Hm Hn Hin Hh Hinj Hk] Hp Hcu. pose proof (held_nonzero 0 s p Hm Hp) as Hp0.
  set (s' := set_e_cpus _ s).
  assert (next (e_cpus s' c) = p) as Ec by (simpl; by rewrite fn_lookup_insert).
  assert (∀ c', c' ≠ c → next (e_cpus s' c') = next (e_cpus s c')) as Ene by (intros; simpl; by rewrite fn_lookup_insert_ne).
  split.
  - apply (core_same env 0 s); try done.
    + intros [| |c']; [done|done|]. simpl. destruct (decide (c = c')) as [<-|?]; by rewrite ?fn_lookup_insert, ?fn_lookup_insert_ne.
    + intros c'. simpl. destruct (decide (c = c')) as [<-|?]; by rewrite ?fn_lookup_insert, ?fn_lookup_insert_ne.
    + apply (ec_global _ _ _ Hm).
  - intros c'. rewrite elem_of_cons. destruct (decide (c' = c)) as [->|Hne]; [rewrite Ec; naive_solver|].
    rewrite Ene, Hn by done. naive_solver.
  - intros c' [->|Hc']%elem_of_cons; [rewrite Ec; done|]. rewrite Ene by congruence. split; [by apply (Hin c')|by apply Hn].
  - intros q Hq. right. destruct (Hh q Hq) as [->|(c' & Hc' & E)]; [exists c; split; [by left|done]|].
    exists c'. split; [by right|]. by rewrite Ene by congruence.
  - intros c1 c2 [->|H1]%elem_of_cons [->|H2]%elem_of_cons; rewrite ?Ec, ?Ene by congruence.
    + done.
    + intros E. exfalso. by apply (proj2 (Hin c2 H2)).
    + intros E. exfalso. by apply (proj2 (Hin c1 H1)).
    + by apply Hinj.
  - done.
Qed.

Lemma passing_clear_next us c s :
  passing (c :: us) 0 s → c ∉ us →
  passing us (next (e_cpus s c)) (set_e_cpus (<[c := set_next 0 (e_cpus s c)]> (e_cpus s)) s).
Proof.
  intros [Hm Hn Hin Hh Hinj Hk] Hcu. set (s' := set_e_cpus _ s).
  assert (next (e_cpus s' c) = 0) as Ec by (simpl; by rewrite fn_lookup_insert).
  assert (∀ c', c' ≠ c → next (e_cpus s' c') = next (e_cpus s c')) as Ene by (intros; simpl; by rewrite fn_lookup_insert_ne).
  split.
  - apply (core_same env 0 s); try done.
    + intros [| |c']; [done|done|]. simpl. destruct (decide (c = c')) as [<-|?]; by rewrite ?fn_lookup_insert, ?fn_lookup_insert_ne.
    + intros c'. simpl. destruct (decide (c = c')) as [<-|?]; by rewrite ?fn_lookup_insert, ?fn_lookup_insert_ne.
    + apply (ec_global _ _ _ Hm).
  - intros c'. destruct (decide (c' = c)) as [->|Hne]; [by rewrite Ec|]. rewrite Ene, Hn, elem_of_cons by done. naive_solver.
  - intros c' Hc'. rewrite Ene by congruence. split; [apply (Hin c'); by right|].
    intros E. apply Hcu. rewrite <- (Hinj c' c); [done|by right|by left|done].
  - intros q Hq. destruct (Hh q Hq) as [->|(c' & Hc' & E)]; [by destruct (held_nonzero 0 s 0 Hm Hq)|].
    apply elem_of_cons in Hc' as [->|Hc']; [by left|]. right. exists c'. split; [done|]. by rewrite Ene by congruence.
  - intros c1 c2 H1 H2. rewrite !Ene by congruence. apply Hinj; by right.
  - done.
Qed.

Lemma passing_perm us us' x s : (∀ c, c ∈ us' ↔ c ∈ us) → passing us x s → passing us' x s.
Proof.
  intros E [Hm Hn Hin Hh Hinj Hk]. split; [done|..|done].
  - intros c. by rewrite E.
  - intros c Hc%E. by apply Hin.
  - intros q [->|(c & Hc & Eq)]%Hh; [by left|]. right. exists c. by rewrite E.
  - intros c c' H1%E H2%E. by apply Hinj.
Qed.

Lemma passing_tick us x s : passing us x s → passing us x (tick s).
Proof. intros Hp. apply (passing_calm us x s); [done|by apply calm_same|apply core_tick, Hp]. Qed.

Lemma passing_event us x e s : passing us x s → passing us x (add_event e s).
Proof. intros Hp. apply (passing_calm us x s); [done|by apply calm_same|apply core_event, Hp]. Qed.

(** ** Choosing tasks *)

Lemma ewp_QoS p t s (Q : Z → Edf → Prop) :
  edf_mid s → heap (e_allocator s) !! p = Some t → has_work t = true → (∀ q, Q q s) → ewp (GetQoS p) s Q.
Proof.
  intros Hm Hp Hw HQ. destruct (basic_comparable env s p t Hp (ec_basic _ _ _ Hm p t Hp) Hw) as (t' & x & Ht' & Hx).
  apply wpf_wp. eapply wp_GetQoS; [exact Ht'|exact Hx|apply HQ].
Qed.

(** What [Dequeue] leaves. *)
Lemma dequeued_calm p s s' : dequeued env p s s' → calm p s s'.
Proof.
  intros Hd. split; try apply Hd.
  - by apply view_dom; rewrite (dq_view _ _ _ _ Hd).
  - intros tg. by rewrite (sr_orchs _ _ (dq_rest _ _ _ _ Hd)).
Qed.

Lemma queue_member_not_held s q : edf_mid s → q ∈ run_queue_ s → ¬ is_held s q.
Proof. intros Hm Hq (u & Hu & _ & Hpos). destruct (core_queued env 0 s q Hm Hq) as (t & Ht & _ & H). assert (u = t) as -> by congruence. lia. Qed.

Lemma ewp_choose fuel c us s (Q : Choice → Edf → Prop) :
  passing us 0 s → enclave_cpu env c → (length (run_queue_ s) < fuel)%nat →
  (∀ s', passing us 0 s' → Q Skip s' ∧ Q Stop s') →
  (∀ p s', passing us p s' → is_held s' p → Q (Chosen p) s') → ewp (Edf.choose env fuel c) s Q.
Proof using Henv.
  revert s. induction fuel as [|fuel IH]; intros s Hpa Hc Hf HQ HQ2; [lia|]. simpl.
  pose proof (pa_mid _ _ _ Hpa) as Hm. fstep. eapply ewp_cpu; [done|done|]. fstep.
  eapply (wpf_mono _ _ _ (λ _ s1, s1 = s)).
  { fstep; [by apply wpf_ret|]. apply Z.eqb_neq in Heqb. destruct (current_on_cpu env 0 s c Hm Heqb) as (tc & Htc & Hst & _).
    destruct (mid_work env s _ tc Hm Htc) as [_ Hwc]. unfold work_ok in Hwc. rewrite Hst in Hwc.
    fstep. apply wpf_wp. eapply wp_Peek; [done|intros _; by apply wpf_ret|]. intros p Hin Hp0 _. rewrite (proj2 (Z.eqb_neq p 0)) by done.
    destruct (mid_work_queued env s p Hm Hin) as (tp & Htp & _ & _ & Hwp).
    fstep. eapply ewp_QoS; [done|exact Htp|done|]. intros qp. fstep. eapply ewp_QoS; [done|exact Htc|done|]. intros qc. by apply wpf_ret. }
  intros keep s1 ->. destruct keep; [by apply wpf_ret, HQ|]. fstep. apply wpf_wp. eapply e_wp_Dequeue; [done|intros _|].
  { rewrite Z.eqb_refl. by apply wpf_ret, HQ. }
  intros p s1 Hp0 Hd. rewrite (proj2 (Z.eqb_neq p 0)) by done.
  destruct (dq_task _ _ _ _ Hd) as (t & Ht & Ht1 & Hst & Hw). pose proof (dq_mid _ _ _ _ Hd) as Hm1.
  pose proof (dequeued_calm p s s1 Hd) as Hcalm. pose proof (dq_queue _ _ _ _ Hd) as Hq.
  assert (¬ is_held s p) as Hnh by (apply queue_member_not_held; [done|rewrite <- Hq; by left]).
  fstep. eapply ewp_task; [exact Ht1|]. fstep. apply ewp_ask. fstep.
  - fstep. apply wpf_wp. eapply (e_wp_Yield env p (set_rq_pos (-1) t)); [|by right|done|].
    + apply (core_lifted env p (set_rq_pos (-1) t) (tick s1)); [apply core_tick; by apply mid_core|done|unfold edf_place; simpl; by rewrite Hst|done].
    + intros s2 Hm2 Ht2 _ Eq2. destruct (touched_at _ _ _ _ Ht2) as (t2 & Hp2 & E). apply strip_eq in E.
      apply IH; [|done| |done|done].
      * apply (passing_calm_at us 0 p s); [done| |done| |done].
        -- etrans; [exact Hcalm|]. etrans; [by apply (calm_same p s1 (tick s1))|]. by eapply touched_calm.
        -- eapply not_held_state; [exact Hp2|]. by rewrite E.
      * rewrite Eq2. simpl. apply Permutation_length in Hq. simpl in Hq. lia.
  - apply wpf_ret. apply HQ2.
    + apply passing_tick. by apply (passing_hold us p s).
    + exists (set_rq_pos (-1) t). split; [done|]. by split.
Qed.

(** The set of CPUs that got a task. *)
Definition updated_ok (u : CpuList) : Prop :=
  cpulist_wf u ∧ topology_num_cpus u = num_cpus_ (e_topo env) ∧ ∀ c, c ∈ elems u → enclave_cpu env c.

Lemma updated_set c u :
  updated_ok u → enclave_cpu env c → ∃ u', CpuList_Set c u = Ok u' ∧ updated_ok u' ∧ ∀ c', c' ∈ elems u' ↔ c' ∈ c :: elems u.
Proof using Henv.
  intros (Hw & Hn & He) Hc. destruct (e_enclave_range env c Henv Hc) as [Hr _].
  destruct (Set_spec u c Hw) as (u' & E & Hw' & Hn' & Hb); [by rewrite Hn|].
  assert (∀ c', c' ∈ elems u' ↔ c' ∈ c :: elems u) as Hel.
  { intros c'. rewrite elem_of_cons, !elem_of_elems by done. split.
    - intros [H0 H1]. rewrite Hb in H1 by done. apply orb_true_iff in H1 as [H1%Z.eqb_eq|H1]; [by left|by right].
    - intros [->|[H0 H1]]; (split; [lia|]); rewrite Hb by lia; [by rewrite Z.eqb_refl|by rewrite H1, orb_true_r]. }
  exists u'. split; [done|]. split; [|done]. split; [done|]. split; [congruence|].
  intros c' [->|H]%Hel%elem_of_cons; [done|by apply He].
Qed.

Lemma ewp_Available c s (Q : bool → Edf → Prop) : edf_mid s → enclave_cpu env c → (∀ a, Q a (tick s)) → ewp (E_Available env c) s Q.
Proof using Henv.
  intros Hm Hc HQ. unfold E_Available. fstep. eapply ewp_cpu; [done|done|]. rewrite (proj2 (ec_agent _ _ _ Hm c)) by done. apply ewp_ask, HQ.
Qed.

Lemma ewp_choose_loop cs u s (Q : CpuList → Edf → Prop) :
  passing (elems u) 0 s → updated_ok u → NoDup cs → (∀ c, c ∈ cs → enclave_cpu env c ∧ c ∉ elems u) →
  (∀ u' s', passing (elems u') 0 s' → updated_ok u' → Q u' s') → ewp (choose_loop env cs u) s Q.
Proof using Henv.
  revert u s. induction cs as [|c cs IH]; intros u s Hpa Hu Hnd Hcs HQ; simpl; [by apply wpf_ret, HQ|].
  apply NoDup_cons in Hnd as [Hnin Hnd]. destruct (Hcs c) as [Hc Hcu]; [by left|].
  assert (∀ c', c' ∈ cs → enclave_cpu env c' ∧ c' ∉ elems u) as Hcs' by (intros c' Hc'; apply Hcs; by right).
  fstep. apply ewp_Available; [apply Hpa|done|]. intros a. fstep. fstep. apply passing_tick in Hpa as Hpa1.
  destruct (negb a || _); [by apply IH|]. fstep. fstep. fstep.
  apply (ewp_choose _ c (elems u)); [done|done|simpl; lia| |].
  - intros s2 Hp2. split; [by apply IH|by apply wpf_ret, HQ].
  - intros p s2 Hp2 Hh2. fstep. eapply ewp_upd_cpu; [done|done|]. fstep.
    destruct (updated_set c u Hu Hc) as (u' & E & Hu' & Hel). apply ewp_lift; [intros u1 Eu|congruence]. assert (u1 = u') as -> by congruence.
    apply IH; [|done|done| |done].
    + eapply passing_perm; [exact Hel|]. by apply passing_set_next.
    + intros c' Hc'. destruct (Hcs' c' Hc') as [H1 H2]. split; [done|]. rewrite Hel, elem_of_cons. intros [->|H]; [done|done].
Qed.

(** ** Latching *)

(** A task that is nowhere goes to an idle CPU. *)
Lemma occupy p t t1 c s :
  edf_mid s → heap (e_allocator s) !! p = Some t → edf_place t = None → current (e_cpus s c) = 0 →
  run_state t1 = kOnCpu → cpu t1 = c → gtid t1 = gtid t → basic_ok s t1 → has_work t1 = true →
  edf_mid (set_e_cpus (<[c := set_current p (e_cpus s c)]> (e_cpus s)) (put_task p t1 s)).
Proof.
  intros Hm Hp Hpl Hcur Hst Hcpu Hg Hb Hw. pose proof (mid_core env p s Hm) as Hc. pose proof (core_nonzero env p s p t Hc Hp) as Hp0.
  set (s' := set_e_cpus _ _).
  assert (heap (e_allocator s') !! p = Some t1) as Hp1 by apply lookup_insert_eq.
  assert (edf_place t1 = Some (ECur c)) as Hpl1 by (unfold edf_place; rewrite Hst; by subst c).
  destruct (core_change env p t t1 s s') as [H1 H2]; try done.
  - by rewrite Hpl.
  - apply (rest_ext _ _ (requeue edf_place p t1 false (e_queues s))); [apply rest_requeue, (ec_rest _ _ _ Hc)|]. intros k. unfold requeue.
    assert (∀ k, others p (e_queues s k) = e_queues s k) as Hoth.
    { intros k'. apply others_notin. apply (rest_out _ _ _ _ t k' (ec_rest _ _ _ Hc) Hp). by rewrite Hpl. }
    rewrite Hoth, Hpl1. destruct k as [| |c']; [by rewrite decide_False by done|by rewrite decide_False by done|]. simpl.
    destruct (decide (c = c')) as [<-|Hne].
    + rewrite fn_lookup_insert, decide_True by done. simpl. rewrite Hcur. unfold slot_list at 1. by rewrite (proj2 (Z.eqb_neq p 0)).
    + rewrite fn_lookup_insert_ne, decide_False by congruence. done.
  - intros c'. simpl. destruct (decide (c = c')) as [<-|?]; by rewrite ?fn_lookup_insert, ?fn_lookup_insert_ne.
  - apply (ec_global _ _ _ Hc).
  - eapply core_mid; [exact H1|exact H2|]. intros t' Ht'. assert (t' = t1) as -> by congruence. unfold work_ok. by rewrite Hst.
Qed.

Lemma set_current_queues p c s k :
  current (e_cpus s c) = p → e_queues (set_e_cpus (<[c := set_current p (e_cpus s c)]> (e_cpus s)) s) k = e_queues s k.
Proof.
  intros E. destruct k as [| |c']; [done|done|]. simpl. destruct (decide (c = c')) as [<-|?].
  - rewrite fn_lookup_insert. simpl. by rewrite E.
  - by rewrite fn_lookup_insert_ne.
Qed.

Lemma basic_on_cpu s t t1 :
  basic_ok s t → rq_pos t = -1 → gtid t1 = gtid t → rq_pos t1 = -1 → enclave_cpu env (cpu t1) → run_state t1 ≠ kQueued →
  estimated_runtime t1 = estimated_runtime t → sp t1 = sp t → has_work t1 = has_work t → basic_ok s t1.
Proof. intros [] Hpos Eg Ep Hc Hst Ee Es Ew. split; rewrite ?Ep, ?Eg, ?Ee, ?Es, ?Ew; try done. Qed.

(** [PreemptTask] in favour of a held task. *)
Lemma ewp_Preempt_next prev tp next tn s (Q : bool → Edf → Prop) :
  edf_mid s → heap (e_allocator s) !! prev = Some tp → run_state tp = kOnCpu →
  heap (e_allocator s) !! next = Some tn → run_state tn = kQueued → rq_pos tn = -1 → has_work tn = true →
  (∀ s', edf_mid s' → calm 0 s s' → e_allocator s' = e_allocator s → Q false s') →
  (∀ tp' s', editing prev tp' s' → run_state tp' = kPaused → calm next s s' →
     heap (e_allocator s') !! next = Some (set_cpu (cpu tp) (set_run_state kOnCpu tn)) → Q true s') →
  ewp (PreemptTask env prev next) s Q.
Proof using Henv.
  intros Hm Hp Hst Hn Hstn Hposn Hwn HQf HQt. pose proof (mid_core env prev s Hm) as Hc.
  destruct (on_cpu_current env prev s prev tp Hc Hp Hst) as (Hcpu & Hcur & Hp0).
  assert (next ≠ prev) as Hne by congruence. pose proof (core_nonzero env prev s next tn Hc Hn) as Hn0.
  unfold PreemptTask. fstep. eapply ewp_task; [exact Hp|]. fstep. destruct (cpu_rep_enclave env Henv _ Hcpu) as [r Hr].
  apply ewp_lift; [intros _ _|congruence]. fstep. apply ewp_check; intros _.
  rewrite (proj2 (Z.eqb_neq prev next)), (proj2 (Z.eqb_neq next 0)) by done. simpl.
  fstep. fstep. eapply ewp_task; [exact Hn|]. apply ewp_check; intros _. fstep. fstep. eapply ewp_task; [exact Hn|].
  fstep. fstep. apply ewp_ask. set (s1 := tick (add_event _ s)).
  assert (edf_core prev s1) as Hc1 by by apply core_tick, core_event.
  destruct (e_commit env _ (cpu tp) (gtid tn)); simpl negb; cbv iota.
  2:{ apply wpf_ret. apply HQf; [by apply core_tick, core_event|by apply calm_same|done]. }
  fstep. apply (ewp_upd_cpu env Henv); [done|]. fstep. eapply ewp_upd; [exact Hp|]. fstep. fstep.
  eapply ewp_upd; [simpl; rewrite lookup_insert_ne by done; exact Hn|].
  set (tn1 := set_cpu (cpu tp) (set_run_state kOnCpu tn)). set (c := cpu tp) in *.
  eapply ewp_UpdateRuntime; [simpl; rewrite lookup_insert_ne by done; by rewrite lookup_insert_eq|]. intros rt el.
  set (tp1 := set_runtimes rt el (set_run_state kPaused tp)). apply wpf_ret.
  (* the same in an order that keeps the invariant *)
  pose proof (clear_lifted env prev tp s1 Hc1 Hp Hst) as Hl. fold c in Hl. set (s2 := set_e_cpus _ s1) in Hl.
  pose proof (lf_core _ _ _ _ Hl) as Hc3. set (s3 := put_task prev (set_run_state kBlocked tp) s2) in Hc3.
  assert (heap (e_allocator s3) !! prev = Some (set_run_state kBlocked tp)) as Hp3 by apply lookup_insert_eq.
  assert (edf_mid s3) as Hm3 by (apply (editing_done env prev (set_run_state kBlocked tp)); [by split|done|done]).
  assert (heap (e_allocator s3) !! next = Some tn) as Hn3 by (simpl; by rewrite lookup_insert_ne).
  assert (edf_mid (set_e_cpus (<[c := set_current next (e_cpus s3 c)]> (e_cpus s3)) (put_task next tn1 s3))) as Hm4.
  { apply (occupy next tn tn1 c s3); try done.
    - unfold edf_place. by rewrite Hstn, Hposn.
    - simpl. by rewrite fn_lookup_insert.
    - apply (basic_on_cpu s3 tn); try done. by eapply ec_basic. }
  set (s4 := set_e_cpus _ (put_task next tn1 s3)) in Hm4.
  assert (heap (e_allocator s4) !! prev = Some (set_run_state kBlocked tp)) as Hp4 by (simpl; rewrite lookup_insert_ne by done; exact Hp3).
  destruct (core_put env prev (set_run_state kBlocked tp) tp1 s4 (mid_core env prev s4 Hm4) Hp4) as [Hc5 _]; try done.
  { pose proof (ec_basic _ _ _ Hm4 prev _ Hp4) as []. split; try done. intros _. by apply bo_unqueued. }
  set (s5 := put_task prev tp1 s4) in Hc5.
  match goal with |- Q true ?sf => assert (e_allocator sf = e_allocator s5) as Ea end.
  { unfold s5, s4, s3, put_task, put_obj. simpl. f_equal. rewrite !(insert_insert_ne _ next prev) by done. by rewrite !insert_insert_eq. }
  apply (HQt tp1).
  - split; [|simpl; apply lookup_insert_eq]. apply (core_same env prev s5); try done.
    + intros [| |c']; [done|done|]. simpl. destruct (decide (c = c')) as [<-|?]; by rewrite ?fn_lookup_insert, ?fn_lookup_insert_ne.
    + intros c'. simpl. destruct (decide (c = c')) as [<-|?]; by rewrite ?fn_lookup_insert, ?fn_lookup_insert_ne.
    + apply (ec_global _ _ _ Hc5).
  - done.
  - split; try done.
    + intros q Hq. simpl. destruct (decide (q = prev)) as [->|Hqp].
      * split; intros (u & Hu & H & _); exfalso; [simpl in Hu; rewrite lookup_insert_eq in Hu; by injection Hu as <-|congruence].
      * apply held_ext. simpl. by rewrite !lookup_insert_ne.
    + simpl. rewrite !dom_insert_L. apply elem_of_dom_2 in Hp, Hn. clear -Hp Hn. set_solver.
    + intros c'. simpl. destruct (decide (c = c')) as [<-|?]; by rewrite ?fn_lookup_insert, ?fn_lookup_insert_ne.
  - simpl. by rewrite lookup_insert_ne, lookup_insert_eq.
Qed.

(** The chosen task runs: it waits for a CPU that is idle, or is there since the
    preemption. *)
Definition startable (next c : Z) (s : Edf) : Prop :=
  ∃ tn, heap (e_allocator s) !! next = Some tn ∧ has_work tn = true ∧ rq_pos tn = -1 ∧
    ((edf_place tn = None ∧ current (e_cpus s c) = 0) ∨ (run_state tn = kOnCpu ∧ cpu tn = c)).

Lemma ewp_start next c s (Q : unit → Edf → Prop) :
  edf_mid s → enclave_cpu env c → startable next c s →
  (∀ s', edf_mid s' → calm next s s' → ¬ is_held s' next → Q tt s') →
  ewp (upd_cpu c (set_current next) ≫= λ _,
       upd_task next (λ t, set_boost false false (set_cpu c (set_run_state kOnCpu t)))) s Q.
Proof using Henv.
  intros Hm Hc (tn & Hn & Hw & Hpos & Hcase) HQ. pose proof (ec_basic _ _ _ Hm next tn Hn) as Hb.
  fstep. apply (ewp_upd_cpu env Henv); [done|]. eapply ewp_upd; [exact Hn|]. set (s' := put_task next _ _).
  set (t1 := set_boost false false (set_cpu c (set_run_state kOnCpu tn))) in s'.
  assert (basic_ok s t1) as Hb1 by by apply (basic_on_cpu s tn).
  assert (calm next s s') as Hcalm.
  { etrans; [|by apply (calm_put next tn)]. apply calm_same; try done. intros c'. simpl.
    destruct (decide (c = c')) as [<-|?]; by rewrite ?fn_lookup_insert, ?fn_lookup_insert_ne. }
  apply HQ; [|done|intros (u & Hu & H & _); simpl in Hu; rewrite lookup_insert_eq in Hu; by injection Hu as <-].
  destruct Hcase as [[Hpl Hcur]|[Hst Hcpu]]; [by apply (occupy next tn t1 c s)|].
  destruct (on_cpu_current env 0 s next tn Hm Hn Hst) as (_ & Hcur & _). rewrite Hcpu in Hcur.
  set (s1 := set_e_cpus (<[c:=set_current next (e_cpus s c)]> (e_cpus s)) s) in s'.
  assert (edf_core next s1) as Hc1.
  { apply (core_same env next s); try done; [by apply mid_core|intros k; by apply set_current_queues| |apply (ec_global _ _ _ Hm)].
    intros c'. simpl. destruct (decide (c = c')) as [<-|?]; by rewrite ?fn_lookup_insert, ?fn_lookup_insert_ne. }
  apply (editing_done env next t1).
  - apply (edit_put env next tn t1 s1); [by split|by split|by apply (basic_orchs env s)].
  - done.
  - exact Hw.
Qed.

Lemma ewp_Enqueue_held next s (Q : unit → Edf → Prop) :
  edf_mid s → is_held s next → (∀ s', edf_mid s' → calm next s s' → ¬ is_held s' next → Q tt s') → ewp (E_Enqueue next) s Q.
Proof using Henv.
  intros Hm (t & Ht & Hst & Hpos) HQ. eapply (ewp_Enqueue env next t); [split; [by apply mid_core|done]| | |done].
  - unfold edf_place. rewrite Hst. destruct (Z.leb_spec 0 (rq_pos t)); [lia|done].
  - pose proof (bo_pos _ _ _ (ec_basic _ _ _ Hm next t Ht)). lia.
Qed.

(** The commit: in favour of the held task, or not at all. *)
Lemma ewp_latch_commit c next us s (in_sync : bool) (Q : bool → Edf → Prop) :
  passing us next s → is_held s next → enclave_cpu env c →
  (∀ s', edf_mid s' → calm next s s' → is_held s' next → Q false s') →
  (∀ s', edf_mid s' → calm next s s' → startable next c s' → Q true s') →
  ewp (if in_sync then
       if negb (next =? 0) then
         if negb (current (e_cpus s c) =? 0) then
           PreemptTask env (current (e_cpus s c)) next ≫= λ ok : bool,
           whenM ok (E_Enqueue (current (e_cpus s c))) ≫= λ _, mret ok
         else
           task_at next ≫= λ tn,
           modify (add_event (EEvOpen c (gtid tn) (seqnum tn))) ≫= λ _,
           ask (λ n, e_commit env n c (gtid tn))
       else
         modify (add_event (EEvUnschedule c)) ≫= λ _, ask (λ n, e_commit env n c 0)
     else mret false) s Q.
Proof using Henv.
  intros Hpa Hh Hc HQf HQt. pose proof (pa_mid _ _ _ Hpa) as Hm. pose proof (held_nonzero 0 s next Hm Hh) as Hn0.
  destruct in_sync; [|by apply wpf_ret, HQf]. rewrite (proj2 (Z.eqb_neq next 0)) by done. simpl.
  destruct Hh as (tn & Hn & Hstn & Hpos). assert (is_held s next) as Hh by by exists tn.
  pose proof (bo_pos _ _ _ (ec_basic _ _ _ Hm next tn Hn)) as Hge. assert (rq_pos tn = -1) as Hpos1 by lia.
  destruct (mid_work env s next tn Hm Hn) as [Hbn Hwn]. unfold work_ok in Hwn. rewrite Hstn in Hwn.
  destruct (Z.eqb_spec (current (e_cpus s c)) 0) as [Hcur|Hcur]; simpl.
  - fstep. eapply ewp_task; [exact Hn|]. fstep. fstep. apply ewp_ask. set (s1 := tick _).
    assert (edf_mid s1) as Hm1 by by apply core_tick, core_event. assert (calm next s s1) as Hc1 by by apply calm_same.
    destruct (e_commit env _ c _); [apply HQt|by apply HQf]; [done|done|]. exists tn. split_and!; try done. left.
    split; [|done]. unfold edf_place. by rewrite Hstn, Hpos1.
  - destruct (current_on_cpu env 0 s c Hm Hcur) as (tp & Hp & Hst & Hcpu). set (prev := current (e_cpus s c)) in *.
    fstep. eapply (ewp_Preempt_next prev tp next tn); [done|exact Hp|done|exact Hn|done|done|done| |].
    + intros s1 Hm1 Hc1 Ea. fstep. fstep; [done|intros _]. apply wpf_ret. apply HQf; [done| |exact (proj2 (held_ext s s1 next ltac:(by rewrite Ea)) Hh)].
      split; try apply Hc1; try done. intros q _. apply held_ext. by rewrite Ea.
    + intros tp1 s1 He1 Hst1 Hc1 Hn1. fstep. fstep; [intros _|done].
      assert (prev ≠ next) as Hne by congruence.
      apply wpf_wp. eapply e_wp_Enqueue; [apply He1|apply He1|unfold edf_place; by rewrite Hst1| |].
      { apply (bo_unqueued _ _ _ (edit_ok env _ _ _ He1)). by rewrite Hst1. }
      intros s2 Hm2 Ht2 Hnh2. apply wpf_ret. apply HQt; [done| |].
      * etrans; [exact Hc1|]. apply (calm_weaken prev); [eapply touched_calm; [exact Ht2|apply He1]| |done].
        eapply not_held_state; [apply He1|by rewrite Hst1].
      * pose proof (touched_lookup _ _ _ _ next Ht2) as E. rewrite decide_False, Hn1 in E by done.
        destruct (heap (e_allocator s2) !! next) as [tn2|] eqn:Hn2; [|done]. apply (inj Some) in E. change (strip tn2 = strip (set_cpu (cpu tp) (set_run_state kOnCpu tn))) in E.
        apply strip_eq in E. exists tn2. split; [done|]. split; [by rewrite E|].
        split; [apply (bo_unqueued _ _ _ (ec_basic _ _ _ Hm2 next tn2 Hn2)); by rewrite E|]. right. split; [by rewrite E|]. by rewrite E.
Qed.

Lemma ewp_latch_one c us (in_sync : bool) s (Q : bool → Edf → Prop) :
  passing (c :: us) 0 s → c ∉ us → enclave_cpu env c → (∀ b s', passing us 0 s' → Q b s') → ewp (latch_one env in_sync c) s Q.
Proof using Henv.
  intros Hpa Hcu Hc HQ. destruct (pa_in _ _ _ Hpa c) as [Hh Hn0]; [by left|]. pose proof (pa_mid _ _ _ Hpa) as Hm.
  pose proof (passing_clear_next us c s Hpa Hcu) as Hpa1. unfold latch_one. fstep. apply (ewp_cpu env Henv); [done|].
  fstep. apply (ewp_upd_cpu env Henv); [done|]. set (s1 := set_e_cpus _ s) in *. set (next := next (e_cpus s c)) in *.
  assert (is_held s1 next) as Hh1 by done. pose proof (pa_mid _ _ _ Hpa1) as Hm1.
  assert (current (e_cpus s c) = current (e_cpus s1 c)) as -> by (simpl; by rewrite fn_lookup_insert).
  destruct (Z.eqb_spec (current (e_cpus s1 c)) next) as [E|_].
  { exfalso. destruct (current_on_cpu env 0 s1 c Hm1) as (t & Ht & Hst & _); [by rewrite E|]. rewrite E in Ht.
    destruct Hh1 as (u & Hu & Hsu & _). congruence. }
  fstep. apply (ewp_latch_commit c next us); [done|done|done| |].
  - intros s2 Hm2 Hc2 Hh2. fstep. fstep; [intros _|intros Hz; exfalso; apply Hn0; by apply negb_false_iff, Z.eqb_eq in Hz].
    apply ewp_Enqueue_held; [done|done|]. intros s3 Hm3 Hc3 Hn3. apply wpf_ret. apply HQ.
    apply (passing_drop us next s1); [done|by etrans|done|done].
  - intros s2 Hm2 Hc2 Hst2. fstep. fstep; [intros _|intros Hz; exfalso; apply Hn0; by apply negb_false_iff, Z.eqb_eq in Hz].
    apply ewp_start; [done|done|done|]. intros s3 Hm3 Hc3 Hn3. apply wpf_ret. apply HQ.
    apply (passing_drop us next s1); [done|by etrans|done|done].
Qed.

Lemma ewp_latch_loop us (in_sync : bool) s (Q : unit → Edf → Prop) :
  passing us 0 s → NoDup us → (∀ c, c ∈ us → enclave_cpu env c) → (∀ s', edf_inv s' → Q tt s') → ewp (latch_loop env in_sync us) s Q.
Proof using Henv.
  revert in_sync s. induction us as [|c us IH]; intros in_sync s Hpa Hnd Hus HQ; simpl; [by apply wpf_ret, HQ, passing_inv|].
  apply NoDup_cons in Hnd as [Hnin Hnd]. fstep. apply (ewp_latch_one c us); [done|done|apply Hus; by left|].
  intros b s1 Hpa1. apply IH; [done|done|intros c' Hc'; apply Hus; by right|done].
Qed.

(** ** Yielding tasks return *)

Lemma ewp_blind {A} (m : M Edf A) l s (Q : A → Edf → Prop) :
  blind m → ewp m s (λ a s', Q a (set_yielding l s')) → ewp m (set_yielding l s) Q.
Proof. intros Hb. unfold wpf. rewrite Hb. by destruct (m s) as [[a s']|]. Qed.

Lemma blind_yielding m s (Q : unit → Edf → Prop) :
  blind m → ewp m s Q → ewp m s (λ a s', Q a s' ∧ yielding_tasks_ s' = yielding_tasks_ s).
Proof.
  intros Hb. pose proof (Hb (yielding_tasks_ s) s) as E. replace (set_yielding (yielding_tasks_ s) s) with s in E by by destruct s.
  unfold wpf. destruct (m s) as [[a s']|]; [|done]. intros HQ. split; [done|]. injection E as E. rewrite E. done.
Qed.

(** The tasks [ys] are still to return; those before them are only listed. *)
Lemma ewp_unyield_one p ys s (Q : unit → Edf → Prop) :
  edf_inv (set_yielding (p :: ys) s) → (∀ s', edf_inv (set_yielding ys s') → Q tt s') → ewp (unyield_one p) s Q.
Proof using Henv.
  intros Hi HQ. pose proof (ei_mid _ _ _ Hi) as Hm. set (sp := set_yielding (p :: ys) s) in *. set (sy := set_yielding ys s).
  assert (p ∈ e_queues sp EYield) as Hin by (simpl; by left).
  destruct (rest_live _ _ _ p EYield (ec_rest _ _ _ Hm) Hin) as (t & Ht & Epl).
  assert (run_state t = kYielding) as Hst by (unfold edf_place in Epl; destruct (run_state t); try done; by destruct (0 <=? rq_pos t)).
  unfold unyield_one. fstep. eapply ewp_task; [exact Ht|]. fstep. apply ewp_check; intros _.
  pose proof (proj2 (ec_rest _ _ _ Hm) EYield) as Hnd. simpl in Hnd. apply NoDup_cons in Hnd as [Hnin Hnd].
  assert (lifted env p t sy) as Hl.
  { eapply (leave_lifted env p t sp); [by apply mid_core|exact Ht|by rewrite Epl| |done| |by split].
    - apply (bo_unqueued _ _ _ (ec_basic _ _ _ Hm p t Ht)). by rewrite Hst.
    - intros k. assert (k ≠ EYield → others p (e_queues sp k) = e_queues sp k) as Hoth.
      { intros Hk. apply others_notin. apply (rest_out _ _ _ _ t k (ec_rest _ _ _ Hm) Ht). congruence. }
      destruct k as [| |c]; [by rewrite Hoth| |by rewrite Hoth]. simpl. rewrite others_cons_self. by rewrite others_notin. }
  replace s with (set_yielding (yielding_tasks_ s) sy) by by destruct s.
  apply ewp_blind; [apply blind_Enqueue|]. eapply wpf_mono; [eapply (blind_yielding _ _ (λ _ s', edf_inv s')); [apply blind_Enqueue|]|].
  - apply wpf_wp. eapply wp_Enqueue_lifted; [exact Hl|]. intros s' Hm' Ht' Hn'.
    apply (inv_calm env 0 p sp); [done| |done|done]. etrans; [by apply (calm_same p sp sy)|]. by eapply touched_calm.
  - intros [] s' [Hi' Ey]. apply HQ. replace (set_yielding ys (set_yielding _ s')) with s'; [done|].
    destruct s'. simpl in Ey. by subst.
Qed.

Lemma ewp_unyield ys s (Q : unit → Edf → Prop) :
  edf_inv (set_yielding ys s) → (∀ s', edf_inv (set_yielding [] s') → Q tt s') → ewp (forM ys unyield_one) s Q.
Proof using Henv.
  intros Hi HQ. eapply wpf_mono; [apply (wpf_forM _ _ _ (λ l s', edf_inv (set_yielding l s'))); [exact Hi|]|].
  - intros p l s1 Hi1. by apply (ewp_unyield_one p l).
  - intros [] s1 Hi1. by apply HQ.
Qed.

(** ** The pass and the turn *)

Lemma enclave_iterate : iterate (e_enclave env) = Ok (elems (e_enclave env)).
Proof using Henv. apply iterate_spec, Henv. Qed.

Lemma e_elems_nodup l : NoDup (elems l).
Proof. apply sorted_lt_nodup, elems_from_sorted. Qed.

Lemma ewp_GlobalSchedule s (Q : unit → Edf → Prop) :
  edf_inv s → (∀ s', edf_inv s' → Q tt s') → ewp (E_GlobalSchedule env) s Q.
Proof using Henv.
  intros Hi HQ. unfold E_GlobalSchedule, EmptyCpuList.
  pose proof (wf_cpus _ (ee_wf _ Henv)) as Hcpus. rewrite (ee_num _ Henv) in Hcpus.
  destruct (CpuMap_new_spec (num_cpus_ (e_topo env))) as (u0 & E0 & Hw0 & Hn0 & Hb0); [lia|].
  assert (elems u0 = []) as Hel0.
  { destruct (elems u0) as [|c l] eqn:E; [done|]. assert (c ∈ elems u0) as Hc by (rewrite E; by left).
    apply elem_of_elems in Hc as [_ Hc]; [|done]. by rewrite Hb0 in Hc. }
  fstep. apply ewp_lift; [intros u Eu|congruence]. assert (u = u0) as -> by congruence.
  fstep. apply ewp_lift; [intros cs Ecs|by rewrite enclave_iterate]. rewrite enclave_iterate in Ecs. injection Ecs as <-.
  fstep. apply (ewp_choose_loop (elems (e_enclave env)) u0); [|split_and!; [done|done|rewrite Hel0; by intros c ?%elem_of_nil]|apply e_elems_nodup| |].
  { rewrite Hel0. by apply passing_inv. }
  { intros c Hc. split; [done|]. rewrite Hel0. apply not_elem_of_nil. }
  intros u1 s1 Hpa (Hw1 & Hn1 & He1). fstep. apply ewp_lift; [intros us Eus|by rewrite iterate_spec]. rewrite iterate_spec in Eus by done. injection Eus as <-.
  fstep. apply ewp_latch_loop; [done|apply e_elems_nodup|done|]. intros s2 Hi2. fstep. fstep.
  destruct (yielding_tasks_ s2) as [|p ys] eqn:Ey; [by apply wpf_ret, HQ|]. fstep. apply ewp_unyield.
  - rewrite <- Ey. by replace (set_yielding (yielding_tasks_ s2) s2) with s2 by by destruct s2.
  - intros s3 Hi3. apply wpf_modify. by apply HQ.
Qed.

Lemma ewp_PickNextGlobalCPU s (Q : unit → Edf → Prop) :
  edf_inv s → (∀ s', edf_inv s' → Q tt s') → ewp (E_PickNextGlobalCPU env) s Q.
Proof using Henv.
  intros Hi HQ. unfold E_PickNextGlobalCPU. fstep. apply ewp_lift; [intros cs Ecs|by rewrite enclave_iterate].
  rewrite enclave_iterate in Ecs. injection Ecs as <-.
  assert (∀ c, c ∈ elems (e_enclave env) → enclave_cpu env c) as Hall by done. revert s Hi Hall.
  induction (elems (e_enclave env)) as [|c cs IH]; intros s Hi Hall; simpl; [by apply wpf_ret, HQ|].
  assert (enclave_cpu env c) as Hc by (apply Hall; by left).
  fstep. apply ewp_Available; [apply Hi|done|]. intros a. apply inv_tick in Hi as Hi1. fstep. fstep.
  destruct (a && _); [|apply IH; [done|intros c' Hc'; apply Hall; by right]].
  fstep. apply (ewp_cpu env Henv); [done|]. fstep.
  eapply (wpf_mono _ _ _ (λ _ s1, s1 = tick s)).
  { fstep; [intros Hcur|done]. apply negb_true_iff, Z.eqb_neq in Hcur.
    destruct (current_on_cpu env 0 (tick s) c (ei_mid _ _ _ Hi1) Hcur) as (t & Ht & _). fstep. eapply ewp_task; [exact Ht|].
    by apply ewp_check. }
  intros [] s1 ->. fstep. fstep. rewrite (ee_agent _ Henv) by done. apply wpf_modify. apply HQ.
  by apply (inv_same env 0 (tick s)).
Qed.

Lemma ewp_AgentThread c boosted msgs s (Q : unit → Edf → Prop) :
  edf_inv s → Z.of_nat (size (heap (e_allocator s)) + length msgs) < 2 ^ 31 →
  (∀ s', edf_inv s' → Q tt s') → ewp (E_AgentThread env c boosted msgs) s Q.
Proof using Henv.
  intros Hi Hsz HQ. unfold E_AgentThread. fstep. fstep. fstep.
  { fstep. apply HQ. apply (inv_same env 0 s); try done. apply (ec_global _ _ _ (ei_mid _ _ _ Hi)). }
  fstep; [by apply ewp_PickNextGlobalCPU|]. fstep.
  eapply (wpf_mono _ _ _ (λ _ s1, edf_inv s1)).
  - eapply wpf_mono; [apply (wpf_forM _ _ _ (λ l s', edf_inv s' ∧ Z.of_nat (size (heap (e_allocator s')) + length l) < 2 ^ 31)); [done|]|by intros [] s1 []].
    intros m l s1 [Hi1 Hs1]. simpl length in Hs1. apply (ewp_DispatchMessage env Henv); [done|lia|]. intros s2 Hi2 Hs2. split; [done|lia].
  - intros [] s1 Hi1. fstep. apply (ewp_UpdateSchedParams env Henv 0); [done|]. intros s2 Hi2 _. by apply ewp_GlobalSchedule.
Qed.

(** ** Discovery *)

Notation discover := (@discover_sw Edf EdfTask (EdfTask_type env) _ (Edf_ops env) (λ _, mret tt)).
Notation discover_all := (@DiscoverTasks Edf EdfTask (EdfTask_type env) _ (Edf_ops env)
  E_DiscoveryStart (E_DiscoveryComplete env) (λ _, mret tt)).

(** A task that was allocated in vain is freed again. *)
Lemma new_freed g s :
  edf_inv s → task_map_ (e_allocator s) !! g = None →
  let p := e_malloc env (e_allocator s) in
  freed p (EdfTask_new (e_absl env) g)
    (set_e_allocator (mkAllocator (<[g := p]> (task_map_ (e_allocator s))) (<[p := EdfTask_new (e_absl env) g]> (heap (e_allocator s)))) s) = s.
Proof using Henv.
  intros Hi Hn p. destruct (ee_malloc _ Henv (e_allocator s) (proj1 (ec_alloc _ _ _ (ei_mid _ _ _ Hi)))) as [_ Hp].
  unfold freed. simpl. fold p in Hp. rewrite !delete_insert_id by done. by destruct s as [[m h] ? ? ? ? ? ? ? ? ?].
Qed.

Definition one_more (s s' : Edf) : Prop := (size (heap (e_allocator s')) ≤ S (size (heap (e_allocator s))))%nat.

Lemma ewp_get_or_alloc g (k : Z * bool → M Edf unit) s (Q : unit → Edf → Prop) :
  edf_inv s → g ≠ 0 → Z.of_nat (size (heap (e_allocator s))) + 1 < 2 ^ 31 →
  (∀ q, ewp (k (q, false)) s Q) →
  (∀ q s1, edf_inv_but env 1 s1 → heap (e_allocator s1) !! q = Some (EdfTask_new (e_absl env) g) →
     size (heap (e_allocator s1)) = S (size (heap (e_allocator s))) → freed q (EdfTask_new (e_absl env) g) s1 = s → ewp (k (q, true)) s1 Q) →
  ewp (get_or_alloc (Ops := Edf_ops env) g ≫= k) s Q.
Proof using Henv.
  intros Hi Hg0 Hsz Hold Hnew. unfold get_or_alloc. fstep. fstep. apply wpf_wp, wp_get. unfold GetTask_new, GetTask. simpl malloc.
  destruct (task_map_ (allocator s) !! g) as [q|] eqn:Eq.
  - fstep. fstep. fstep. change (set_allocator (allocator s) s) with (set_e_allocator (e_allocator s) s).
    replace (set_e_allocator (e_allocator s) s) with s by by destruct s. apply Hold.
  - destruct (inv_new env Henv s g Hi Hg0 Hsz Eq) as (Hi1 & Hp1 & Esz). fstep. fstep. fstep.
    apply Hnew; [exact Hi1|exact Hp1|exact Esz|by apply new_freed].
Qed.

Lemma ewp_discover_sw read assoc free_ret nice fuel attempt had s (Q : unit → Edf → Prop) :
  edf_inv s → Z.of_nat (size (heap (e_allocator s))) + 1 < 2 ^ 31 → (∀ n, sw_gtid (read n) ≠ 0) →
  (∀ s', edf_inv s' → one_more s s' → Q tt s') → ewp (discover read assoc free_ret nice fuel attempt had) s Q.
Proof using Henv.
  intros Hi Hsz Hg HQ. assert (one_more s s) as Hrefl by (unfold one_more; lia).
  revert attempt had. induction fuel as [|fuel IH]; intros attempt had; [done|]. simpl.
  destruct (assoc attempt) as [status|errno].
  - fstep; [by apply wpf_ret, HQ|]. apply ewp_get_or_alloc; [done|apply Hg|done|done|]. intros q s1 Hi1 Hq1 Esz _. fstep.
    eapply (ewp_E_TaskNew env Henv); [exact Hi1|exact Hq1|done|done|]. intros s2 Hi2 Hno. apply wpf_ret. apply HQ; [done|].
    unfold one_more. rewrite <- Esz. exact Hno.
  - fstep; [|fstep; [|done]].
    + apply ewp_get_or_alloc; [done|apply Hg|done|done|]. intros q s1 Hi1 Hq1 Esz Efr. apply wpf_wp. eapply wp_free; [exact Hq1|].
      change (Q tt (freed q (EdfTask_new (e_absl env) (sw_gtid (read attempt))) s1)). rewrite Efr. by apply HQ.
    + fstep; [apply ewp_check; intros _; by apply HQ|]. fstep; [done|]. apply IH.
Qed.

Lemma ewp_DiscoverTasks words s (Q : unit → Edf → Prop) :
  edf_inv s → Z.of_nat (size (heap (e_allocator s)) + length words) < 2 ^ 31 →
  Forall (λ w, ∀ n, sw_gtid (w.1.1.1 n) ≠ 0) words → (∀ s', edf_inv s' → Q tt s') → ewp (discover_all words) s Q.
Proof using Henv.
  intros Hi Hsz Hw HQ. unfold DiscoverTasks. fstep. unfold E_DiscoveryStart at 1. apply wpf_modify. fstep.
  eapply (wpf_mono _ _ _ (λ _ s1, edf_inv s1)).
  - eapply wpf_mono; [apply (wpf_forM _ _ _ (λ l s', edf_inv s' ∧ Z.of_nat (size (heap (e_allocator s')) + length l) < 2 ^ 31 ∧
      Forall (λ w, ∀ n, sw_gtid (w.1.1.1 n) ≠ 0) l))|by intros [] s1 []].
    + split; [by apply inv_disc|done].
    + intros [[[read assoc] fr] nice] l s1 (Hi1 & Hs1 & Hl). simpl length in Hs1. apply Forall_cons in Hl as [Hg Hl].
      apply ewp_discover_sw; [done|lia|done|]. intros s2 Hi2 Hs2. unfold one_more in Hs2. split_and!; [done|lia|done].
  - intros [] s1 Hi1. apply (ewp_DiscoveryComplete env Henv 0); [done|done].
Qed.

(** ** The start *)

Lemma ewp_EnclaveReady g (Q : unit → Edf → Prop) :
  enclave_cpu env g →
  (∀ s', edf_inv s' → Q tt s') → ewp (E_EnclaveReady env) (mkEdf (mkAllocator ∅ ∅) (λ _, mkEdfCpu 0 0 false) g 0 false [] [] ∅ 0 []) Q.
Proof using Henv.
  intros Hg HQ. unfold E_EnclaveReady. fstep. apply ewp_lift; [intros cs Ecs|by rewrite enclave_iterate].
  rewrite enclave_iterate in Ecs. injection Ecs as <-.
  set (shape := λ (f : Z → EdfCpu), mkEdf (mkAllocator ∅ ∅) f g 0 false [] [] ∅ 0 []).
  eapply wpf_mono; [apply (wpf_forM _ _ _ (λ l s, NoDup l ∧ (∀ c, c ∈ l → enclave_cpu env c) ∧ ∃ f, s = shape f ∧
    ∀ c, current (f c) = 0 ∧ next (f c) = 0 ∧ (agent (f c) = true ↔ enclave_cpu env c ∧ c ∉ l)))|].
  - split; [apply e_elems_nodup|]. split; [done|]. eexists. split; [done|]. intros c. simpl. split_and!; [done|done|]. split; [done|]. by intros [H1 H2].
  - intros c l s (Hnd & Hl & f & -> & Hf). apply NoDup_cons in Hnd as [Hnin Hnd]. assert (enclave_cpu env c) as Hc by (apply Hl; by left). fstep.
    apply (ewp_upd_cpu env Henv); [done|]. apply ewp_check; intros Hag. split; [done|]. split; [intros c' Hc'; apply Hl; by right|].
    exists (<[c := set_agent (e_get_agent env c) (f c)]> f). split; [done|]. intros c'. destruct (decide (c = c')) as [<-|Hne].
    + rewrite fn_lookup_insert. simpl. destruct (Hf c) as (H1 & H2 & _). split_and!; [done|done|]. by rewrite Hag.
    + rewrite fn_lookup_insert_ne by done. destruct (Hf c') as (H1 & H2 & H3). split_and!; [done|done|]. rewrite H3, not_elem_of_cons. naive_solver.
  - intros [] s (_ & _ & f & -> & Hf). apply HQ. split; [split|..]; try done.
    + split; [done|]. intros g' p. simpl. rewrite lookup_empty. split; [done|]. intros (t & Ht & _). by rewrite lookup_empty in Ht.
    + split.
      * intros p k. split; [|intros (t & Ht & _); simpl in Ht; by rewrite lookup_empty in Ht].
        destruct k as [| |c]; simpl; [by intros ?%elem_of_nil|by intros ?%elem_of_nil|]. rewrite (proj1 (Hf c)). by intros ?%elem_of_nil.
      * intros [| |c]; simpl; [apply NoDup_nil_2|apply NoDup_nil_2|]. rewrite (proj1 (Hf c)). apply NoDup_nil_2.
    + intros c. simpl. rewrite (proj2 (proj2 (Hf c))). split; [by intros [? _]|]. intros H. split; [done|apply not_elem_of_nil].
    + intros q (u & Hu & _). simpl in Hu. by rewrite lookup_empty in Hu.
    + intros c. apply Hf.
Qed.

Lemma edf_start g s0 : 0 ≤ g < MAX_CPUS → Edf_new env g = Ok s0 → ewp (E_EnclaveReady env) s0 (λ _, edf_inv).
Proof using Henv.
  intros Hg E. pose proof (ee_wf _ Henv) as Hwf. unfold Edf_new in E. unfold MAX_CPUS in Hg. rewrite u32_small in E by lia.
  rewrite IsSet_spec in E by lia. simpl in E.
  assert (∃ g', enclave_cpu env g' ∧ s0 = mkEdf (mkAllocator ∅ ∅) (λ _, mkEdfCpu 0 0 false) g' 0 false [] [] ∅ 0 []) as (g' & Hg' & ->).
  { destruct (bit (e_enclave env) g) eqn:Hb.
    - exists g. split; [|by injection E]. apply elem_of_elems; [done|]. split; [lia|done].
    - rewrite Front_spec in E by done. simpl in E. destruct (elems (e_enclave env)) as [|c l] eqn:El; [done|]. exists c.
      split; [|by injection E]. unfold enclave_cpu. rewrite El. by left. }
  by apply ewp_EnclaveReady.
Qed.
End pass.

(** ** The states of the agent *)

Section reachable.
Context (env : EdfEnv).

(** The start, a discovery, and turns of the agents with the messages in the
    channel; the tasks are fewer than 2 ^ 31. *)
Inductive edf_reachable : Edf → Prop :=
| edf_reach_start g s0 s : 0 ≤ g < MAX_CPUS → Edf_new env g = Ok s0 → E_EnclaveReady env s0 = Ok (tt, s) → edf_reachable s
| edf_reach_discover words s s' :
    edf_reachable s → Z.of_nat (size (heap (e_allocator s)) + length words) < 2 ^ 31 →
    Forall (λ w, ∀ n, sw_gtid (w.1.1.1 n) ≠ 0) words →
    @DiscoverTasks Edf EdfTask (EdfTask_type env) _ (Edf_ops env) E_DiscoveryStart (E_DiscoveryComplete env) (λ _, mret tt) words s = Ok (tt, s') →
    edf_reachable s'
| edf_reach_turn c boosted msgs s s' :
    edf_reachable s → Z.of_nat (size (heap (e_allocator s)) + length msgs) < 2 ^ 31 →
    E_AgentThread env c boosted msgs s = Ok (tt, s') → edf_reachable s'.

Lemma e_reachable_inv s : edf_env_ok env → edf_reachable s → edf_inv env s.
Proof.
  intros Henv. induction 1 as [g s0 s Hg E0 E1|words s s' _ IH Hsz Hw E|c boosted msgs s s' _ IH Hsz E].
  - exact (wpf_result _ _ _ _ _ _ (edf_start env Henv g s0 Hg E0) E1).
  - refine (wpf_result _ _ _ _ _ _ (ewp_DiscoverTasks env Henv words s (λ _, edf_inv env) IH Hsz Hw _) E). done.
  - refine (wpf_result _ _ _ _ _ _ (ewp_AgentThread env Henv c boosted msgs s (λ _, edf_inv env) IH Hsz _) E). done.
Qed.
End reachable.
