(* ===== verification/EdfClaims.v ===== *)
(** * EdfClaims: what the EDF agent guarantees

    No task is lost; the operations of the run queue are those of a priority
    queue by boost, QoS and deadline, and a refresh that meets an update in
    progress is what can put it out of order; a turn never loops and never uses
    a task that was freed, but an application can stop the agent; estimates grow
    by doubling. *)

From S2P Require Import Prelude Outcome CpuMap CpuMapSpec.
From S2P Require Import Topology TopologySpec TopologyClaims Dispatch Placement PrioTable.
From S2P Require Import Edf EdfHeap EdfOps EdfSafe EdfTurn EdfPass.
From stdpp Require Import gmap functions sorting.
From Stdlib Require Import ZArith Lia.

Local Open Scope Z_scope.

(** ** A sample machine *)

(** A table of two items, a class of QoS 1 and one of QoS 9. *)
Definition sample_table : Table := mkTable 2 [mkWorkClass 0 1 100 0; mkWorkClass 0 9 100 0] 1.

(** Four CPUs of which none is available: tasks only queue.  The stream always
    reports an overflow, so every refresh reads both items. *)
Definition edf_sample (tgid : nat → Z → Z) (attach : nat → Z → option Table) (item : nat → Z → Z → ItemRead) : EdfEnv :=
  mkEdfEnv sample_topo (all_cpus_ sample_topo) sample_absl fresh_addr (λ _, true) (λ _ _, false) (λ n, Z.of_nat n)
    (λ _ _, 0) (λ _ _, false) (λ _ _ _, true) tgid attach (λ os, (map_to_list os).*1) (λ _ _, kStreamOverflow) item (λ _ _ _, 0).

Lemma edf_sample_ok tgid attach item : edf_env_ok (edf_sample tgid attach item).
Proof.
  split; change (e_enclave (edf_sample tgid attach item)) with (all_cpus_ sample_topo); try done.
  - apply sample_topo_ok.
  - apply sample_topo_ok.
  - intros a _. apply fresh_addr_ok.
  - intros os tg. simpl. rewrite list_elem_of_fmap. intros ([tg' o] & -> & H%elem_of_map_to_list). by exists o.
Qed.

(** Thread 7 has the item 0, thread 9 the item 1, both with work. *)
Definition item_of (class gpid : Z) (b : Z) (success : bool) : ItemRead :=
  mkRead class b (mkItemData 0 class gpid 1 (gpid * 1000)) success.
Definition items (n : nat) (tg sid : Z) : ItemRead := if sid =? 0 then item_of 0 7 2 true else item_of 0 9 2 true.

Definition steady_env : EdfEnv := edf_sample (λ _ _, 5) (λ _ _, Some sample_table) items.

Definition e_msg (g ty sq : Z) : Message := mkMessage ty sq g 0 true false 0 false 0.

Section run.
Context (env : EdfEnv).

(** Turns of the global agent, from the start on CPU 0. *)
Fixpoint e_turns (turns : list (list Message)) (s : Edf) : option Edf :=
  match turns with
  | [] => Some s
  | msgs :: turns =>
      if bool_decide (Z.of_nat (size (heap (e_allocator s)) + length msgs) < 2 ^ 31) then
        match E_AgentThread env 0 false msgs s with Ok (_, s') => e_turns turns s' | Crash _ => None end
      else None
  end.

Definition e_start : option Edf :=
  match Edf_new env 0 with
  | Ok s => match E_EnclaveReady env s with Ok (_, s') => Some s' | Crash _ => None end
  | Crash _ => None
  end.

Definition e_at (turns : list (list Message)) : Edf :=
  default (mkEdf (mkAllocator ∅ ∅) (λ _, mkEdfCpu 0 0 false) 0 0 false [] [] ∅ 0 []) (e_start ≫= e_turns turns).

Lemma e_turns_reachable turns s s' : edf_reachable env s → e_turns turns s = Some s' → edf_reachable env s'.
Proof.
  revert s. induction turns as [|msgs turns IH]; intros s Hr; simpl; [by intros [= <-]|].
  case_bool_decide; [|done]. destruct (E_AgentThread env 0 false msgs s) as [[[] s1]|] eqn:E; [|done].
  apply IH. by eapply edf_reach_turn.
Qed.

Lemma e_at_reachable turns : bool_decide (is_Some (e_start ≫= e_turns turns)) = true → edf_reachable env (e_at turns).
Proof.
  intros [s E]%bool_decide_eq_true. unfold e_at. rewrite E. simpl. destruct e_start as [s0|] eqn:E0; [|done].
  eapply (e_turns_reachable turns s0); [|exact E]. unfold e_start in E0. destruct (Edf_new env 0) as [s1|] eqn:E1; [|done].
  destruct (E_EnclaveReady env s1) as [[[] s2]|] eqn:E2; [|done]. injection E0 as <-. by eapply (edf_reach_start env 0).
Qed.
End run.

(** Both threads arrive; the first refresh finds their work and queues them. *)
Definition arrivals : list (list Message) := [[e_msg 7 MSG_TASK_NEW 1; e_msg 9 MSG_TASK_NEW 1]].

Definition steady2 : Edf := e_at steady_env arrivals.

(** ** Where the tasks are *)

(** C4. No task is lost or duplicated: in every reachable state a live task is
    in the run queue exactly when it is queued, and then at the position that it
    has noted; it is yielding exactly when it is in that list, and the current
    task of a CPU exactly when it runs there.  Queued, running and yielding
    tasks have work, paused tasks have none.  The queues have no duplicates and
    only live tasks, no CPU is left with a task chosen but not started, and
    [num_tasks_] is the number of live tasks.  Whatever the applications write
    into their tables. *)
Theorem edf_no_task_lost (env : EdfEnv) (s : Edf) (Henv : edf_env_ok env) (Hr : edf_reachable env s) :
  (∀ p t, heap (e_allocator s) !! p = Some t →
     (p ∈ run_queue_ s ↔ run_state t = kQueued) ∧ (p ∈ yielding_tasks_ s ↔ run_state t = kYielding) ∧
     (∀ c, current (e_cpus s c) = p ↔ run_state t = kOnCpu ∧ cpu t = c) ∧
     (run_state t = kQueued → run_queue_ s !! Z.to_nat (rq_pos t) = Some p) ∧
     match run_state t with kBlocked => True | kPaused => has_work t = false | _ => has_work t = true end) ∧
  (∀ p, p ∈ run_queue_ s ∨ p ∈ yielding_tasks_ s ∨ (p ≠ 0 ∧ ∃ c, current (e_cpus s c) = p) → is_Some (heap (e_allocator s) !! p)) ∧
  NoDup (run_queue_ s) ∧ NoDup (yielding_tasks_ s) ∧ (∀ c, next (e_cpus s c) = 0) ∧
  num_tasks_ s = Z.of_nat (size (heap (e_allocator s))).
Proof.
  pose proof (e_reachable_inv env s Henv Hr) as Hi. pose proof (ei_mid _ _ _ Hi) as Hm. pose proof (ec_rest _ _ _ Hm) as Hrest.
  split_and!.
  - intros p t Hp. destruct (inv_task env 0 p t s Hi Hp) as (Hw & Hq & Hp0).
    assert (∀ k, p ∈ e_queues s k ↔ edf_place t = Some k) as Hk.
    { intros k. split; [|by apply (rest_in _ _ _ _ t k Hrest)]. intros (u & Hu & E)%(rest_live _ _ _ _ _ Hrest). congruence. }
    assert (edf_place t = match run_state t with kQueued => Some ERun | kYielding => Some EYield | kOnCpu => Some (ECur (cpu t)) | _ => None end) as Epl.
    { unfold edf_place. destruct (run_state t) eqn:E; try done. by rewrite (proj2 (Z.leb_le 0 _)) by by apply Hq. }
    pose proof (Hk ERun) as H1. pose proof (Hk EYield) as H2. simpl in H1, H2. rewrite H1, H2, Epl. split_and!.
    + by destruct (run_state t).
    + by destruct (run_state t).
    + intros c. pose proof (Hk (ECur c)) as H3. simpl in H3. rewrite elem_of_slot, Epl in H3. split.
      * intros <-. pose proof (proj1 H3 (conj Hp0 eq_refl)) as E. destruct (run_state t); try done. split; [done|]. by injection E.
      * intros [E <-]. rewrite E in H3. symmetry. by apply H3.
    + intros E. apply (core_at env 0 s); [done|done|done|by apply Hq].
    + unfold work_ok in Hw. by destruct (run_state t).
  - intros p [Hp|[Hp|[Hp0 [c Hc]]]].
    + by destruct (rest_live _ _ _ p ERun Hrest Hp) as (t & Ht & _); exists t.
    + by destruct (rest_live _ _ _ p EYield Hrest Hp) as (t & Ht & _); exists t.
    + destruct (rest_live _ _ _ p (ECur c) Hrest) as (t & Ht & _); [|by exists t]. simpl. rewrite Hc. by apply elem_of_slot.
  - apply (proj2 Hrest ERun).
  - apply (proj2 Hrest EYield).
  - apply (ei_next _ _ _ Hi).
  - pose proof (ei_num _ _ _ Hi). lia.
Qed.

Lemma steady2_reachable : edf_reachable steady_env steady2.
Proof. apply e_at_reachable. by vm_compute. Qed.

(** The two sample threads are queued. *)
Lemma edf_no_task_lost_witness :
  run_queue_ steady2 = [16; 272] ∧ NoDup (run_queue_ steady2).
Proof.
  split; [vm_compute; reflexivity|].
  exact (proj1 (proj2 (proj2 (edf_no_task_lost steady_env steady2 (edf_sample_ok _ _ _) steady2_reachable)))).
Defined.

(** ** The run queue is a priority queue *)

(** The tasks are at the positions they have noted. *)
Definition placed (s : Edf) : Prop :=
  ∀ i q, run_queue_ s !! i = Some q → ∃ t, heap (e_allocator s) !! q = Some t ∧ run_state t = kQueued ∧ rq_pos t = Z.of_nat i.

(** No task is after one of its children, by boost, QoS and deadline. *)
Definition heap_order (s : Edf) : Prop := ordered (edf_gt s) (run_queue_ s).

(** The queue is in heap order unless a refresh has met an update in progress. *)
Definition queue_ok (env : EdfEnv) (s : Edf) : Prop := placed s ∧ (steady env → heap_order s).

Lemma core_queue_ok env p s : edf_core env p s → (steady env → ordered (edf_gt s) (run_queue_ s)) → queue_ok env s.
Proof.
  intros Hc Ho. split; [|done]. intros i q Hq. destruct (ec_pos _ _ _ Hc i q Hq) as (t & Ht & E).
  exists t. split; [done|]. split; [|done].
  destruct (core_queued env p s q Hc) as (t' & Ht' & Hst & _); [by eapply list_elem_of_lookup_2|]. congruence.
Qed.

Lemma mid_queue_ok env s : edf_mid env s → queue_ok env s.
Proof. intros Hm. apply (core_queue_ok env 0); [done|by apply mid_ordered]. Qed.

(** Nothing but positions changed, in the other tasks. *)
Definition others_keep (p : Z) (s s' : Edf) : Prop :=
  ∀ q t, q ≠ p → heap (e_allocator s) !! q = Some t → ∃ i, heap (e_allocator s') !! q = Some (set_rq_pos i t).

Lemma touched_keep p t s s' : touched p t s s' → others_keep p s s'.
Proof.
  intros Ht q u Hq Hu. pose proof (touched_lookup _ _ _ _ q Ht) as E. rewrite decide_False, Hu in E by done. simpl in E.
  destruct (heap (e_allocator s') !! q) as [u'|]; [|done]. apply (inj Some) in E. apply strip_eq in E. exists (rq_pos u'). by rewrite E.
Qed.

Lemma view_keep p s s' : view s' = view s → others_keep p s s'.
Proof.
  intros E q u _ Hu. assert (view s' !! q = view s !! q) as Eq by by rewrite E. unfold view in Eq. rewrite !lookup_fmap, Hu in Eq.
  destruct (heap (e_allocator s') !! q) as [u'|]; [|done]. apply (inj Some) in Eq. apply strip_eq in Eq. exists (rq_pos u'). by rewrite Eq.
Qed.

Lemma queue_members env p s : edf_core env p s → ∀ q, q ∈ run_queue_ s ↔
  ∃ t, heap (e_allocator s) !! q = Some t ∧ run_state t = kQueued ∧ 0 ≤ rq_pos t.
Proof.
  intros Hc q. split; [by apply core_queued with (1 := Hc)|]. intros (t & Ht & Hst & Hpos).
  apply (rest_in _ _ _ _ t ERun (ec_rest _ _ _ Hc) Ht). unfold edf_place. rewrite Hst. by rewrite (proj2 (Z.leb_le 0 _)).
Qed.

(** The other members of the queue stay. *)
Lemma touched_members env p t s s' : edf_core env p s → edf_core env p s' → touched p t s s' →
  ∀ q, q ≠ p → q ∈ run_queue_ s' ↔ q ∈ run_queue_ s.
Proof.
  intros Hc Hc' Ht q Hq. rewrite (queue_members env p s Hc), (queue_members env p s' Hc').
  pose proof (touched_lookup _ _ _ _ q Ht) as E. rewrite decide_False in E by done. destruct Ht as (_ & _ & Hheld). specialize (Hheld q Hq).
  destruct (heap (e_allocator s') !! q) as [u'|] eqn:Hu', (heap (e_allocator s) !! q) as [u|] eqn:Hu; try done.
  apply (inj Some) in E. apply strip_eq in E. assert (run_state u' = run_state u) as Est by (rewrite E; done).
  unfold is_held in Hheld. rewrite Hu, Hu' in Hheld. split; intros (v & [= <-] & Hst & Hpos).
  - exists u. split; [done|]. split; [congruence|]. destruct (Z.ltb_spec (rq_pos u) 0) as [Hlt|]; [|done]. exfalso.
    destruct (proj2 Hheld) as (v & [= <-] & _ & H); [exists u; split; [done|]; split; [congruence|done]|lia].
  - exists u'. split; [done|]. split; [congruence|]. destruct (Z.ltb_spec (rq_pos u') 0) as [Hlt|]; [|done]. exfalso.
    destruct (proj1 Hheld) as (v & [= <-] & _ & H); [exists u'; split; [done|]; split; [congruence|done]|lia].
Qed.

Lemma perm_members l l' (p : Z) : NoDup l → NoDup l' → p ∉ l → p ∈ l' → (∀ q, q ≠ p → q ∈ l' ↔ q ∈ l) → l' ≡ₚ p :: l.
Proof.
  intros H1 H2 Hn Hin Hm. apply NoDup_Permutation; [done|by constructor|]. intros q. rewrite elem_of_cons.
  destruct (decide (q = p)) as [->|Hne]; [naive_solver|]. rewrite Hm by done. naive_solver.
Qed.

Lemma perm_same_members l l' (p : Z) : NoDup l → NoDup l' → (p ∈ l ↔ p ∈ l') → (∀ q, q ≠ p → q ∈ l' ↔ q ∈ l) → l' ≡ₚ l.
Proof.
  intros H1 H2 Hp Hm. apply NoDup_Permutation; [done|done|]. intros q.
  destruct (decide (q = p)) as [->|Hne]; [naive_solver|]. by rewrite Hm.
Qed.

(** The same machine, where no refresh meets an update.  The operations of the
    queue ask nothing, so what they do in an ordered state they do in it. *)
Definition quiet_env (env : EdfEnv) : EdfEnv :=
  mkEdfEnv (e_topo env) (e_enclave env) (e_absl env) (e_malloc env) (e_get_agent env) (e_avail env) (e_now env)
    (e_sw_runtime env) (e_on_cpu env) (e_commit env) (e_tgid env) (e_attach env) (e_iter env) (e_next_index env)
    (λ n tg sid, let rd := e_item env n tg sid in mkRead (rd_class rd) (rd_begin rd) (rd_data rd) true)
    (e_item_gpid env).

Lemma quiet_steady env : steady (quiet_env env).
Proof. done. Qed.

Lemma quiet_inv env s : edf_inv env s → heap_order s → edf_inv (quiet_env env) s.
Proof.
  intros [Hm Hh Hn Hk] Ho. split; [|done..]. destruct Hm as [H1 H2 H3 H4 H5 H6 H7 H8 H9 H10]. split; try done.
  - intros _. destruct (find_first 0 _) as [i|]; [|exact Ho]. eapply ordered_broken; [apply edf_gt_trans|exact Ho].
  - intros q t Hq. destruct (H6 q t Hq). by split.
Qed.

(** What holds of a run in every machine with the invariant, holds with the
    order of the queue if the queue was in order. *)
Lemma quiet_twice {A} env s (o : outcome (A * Edf)) (R : EdfEnv → A → Edf → Prop) :
  edf_inv env s → (∀ e, edf_inv e s → ∃ a s', o = Ok (a, s') ∧ R e a s') →
  ∃ a s', o = Ok (a, s') ∧ R env a s' ∧ (heap_order s → R (quiet_env env) a s').
Proof.
  intros Hi H. destruct (H env Hi) as (a & s' & E & HR). exists a, s'. split_and!; [done|done|].
  intros Ho. destruct (H _ (quiet_inv env s Hi Ho)) as (b & s2 & E2 & HR2). congruence.
Qed.

(** After an operation from [s] the tasks have their positions, and the queue is
    in order if it was. *)
Definition kept_queue (s s' : Edf) : Prop := placed s' ∧ (heap_order s → heap_order s').

Lemma kept_queue_intro env s s' : queue_ok env s' → (heap_order s → queue_ok (quiet_env env) s') → kept_queue s s'.
Proof. intros [H _] Ho. split; [done|]. intros Hs. by apply Ho, quiet_steady. Qed.

Section refines.
Context (env : EdfEnv) (s : Edf) (Hi : edf_inv env s).

Lemma inv_mid : edf_mid env s.
Proof using Hi. apply Hi. Qed.

Lemma inv_nodup : NoDup (run_queue_ s).
Proof using Hi. apply (core_nodup env 0 s inv_mid). Qed.

Lemma dequeue_refines : ∃ p s', E_Dequeue s = Ok (p, s') ∧ queue_ok env s' ∧ others_keep p s s' ∧
     ((run_queue_ s = [] ∧ p = 0 ∧ s' = s) ∨
      (p :: run_queue_ s' ≡ₚ run_queue_ s ∧ (steady env → ∀ q, q ∈ run_queue_ s → edf_gt s p q = false))).
Proof using Hi.
  pose proof inv_mid as Hm. pose proof inv_nodup as Hnd.
  assert (wp E_Dequeue s (λ p s', queue_ok env s' ∧ others_keep p s s' ∧
    ((run_queue_ s = [] ∧ p = 0 ∧ s' = s) ∨
     (p :: run_queue_ s' ≡ₚ run_queue_ s ∧ (steady env → ∀ q, q ∈ run_queue_ s → edf_gt s p q = false))))) as Hw.
  { apply (e_wp_Dequeue env); [done| |].
    - intros E. split_and!; [by apply mid_queue_ok|by apply view_keep|by left].
    - intros p s' _ Hd. split_and!; [by apply mid_queue_ok, (dq_mid env p s)|by apply view_keep, (dq_view env p)|right; split; apply Hd]. }
  apply wp_ok in Hw as (p & s' & E & H). by exists p, s'.
Qed.

Lemma enqueue_refines : ∀ p t, heap (e_allocator s) !! p = Some t → run_state t = kBlocked ∨ run_state t = kPaused →
     ∃ s', E_Enqueue p s = Ok (tt, s') ∧ queue_ok env s' ∧ others_keep p s s' ∧
       run_queue_ s' ≡ₚ (if has_work t then p :: run_queue_ s else run_queue_ s).
Proof using Hi.
  pose proof inv_mid as Hm. pose proof inv_nodup as Hnd.
  intros p t Hp Hst. assert (edf_place t = None) as Hpl by (unfold edf_place; by destruct Hst as [-> | ->]).
  apply (wp_ok_unit (E_Enqueue p) s (λ s', queue_ok env s' ∧ others_keep p s s' ∧ run_queue_ s' ≡ₚ (if has_work t then p :: run_queue_ s else run_queue_ s))).
  pose proof (ec_basic _ _ _ Hm p t Hp) as Hb. assert (p ∉ run_queue_ s) as Hn by exact (core_pos_fresh env p s t (mid_core env p s Hm) Hp Hpl).
  eapply (e_wp_Enqueue env p t); [by apply mid_core|done|done|apply (bo_unqueued _ _ _ Hb); by destruct Hst as [-> | ->]|].
  intros s' Hm' Ht Hnh. split_and!; [by apply mid_queue_ok|by eapply touched_keep|].
  pose proof (touched_members env p _ s s' (mid_core env p s Hm) (mid_core env p s' Hm') Ht) as Hmem.
  destruct (touched_at _ _ _ _ Ht) as (t' & Ht' & E). apply strip_eq in E. pose proof (core_nodup env 0 s' Hm') as Hnd'.
  destruct (has_work t).
  + apply perm_members; [done|done|done| |done]. apply (queue_members env 0 s' Hm'). exists t'. split; [done|].
    split; [by rewrite E|]. apply (queued_pos p t' s'); [done|done|by rewrite E].
  + apply (perm_same_members _ _ p); [done|done| |done]. split; [done|]. intros (u & Hu & Hq & _)%(queue_members env 0 s' Hm').
    assert (u = t') as -> by congruence. by rewrite E in Hq.
Qed.

Lemma update_refines : ∀ p t d boost pre, p ∈ run_queue_ s → heap (e_allocator s) !! p = Some t →
     ∃ s', E_UpdateRunqueue p (put_task p (set_sched_deadline d (set_boost boost pre t)) s) = Ok (tt, s') ∧
       queue_ok env s' ∧ others_keep p s s' ∧ run_queue_ s' ≡ₚ run_queue_ s.
Proof using Hi.
  pose proof inv_mid as Hm. pose proof inv_nodup as Hnd.
  intros p t d boost pre Hin Hp. destruct (core_queued env 0 s p Hm Hin) as (t' & Ht' & Hst & Hpos). assert (t' = t) as -> by congruence.
  set (t1 := set_sched_deadline d (set_boost boost pre t)). destruct (inv_task env 0 p t s Hi Hp) as (Hwk & _). unfold work_ok in Hwk. rewrite Hst in Hwk.
  assert (editing env p t1 (put_task p t1 s)) as He.
  { pose proof (inv_editing env 0 p t s Hi Hp) as He. eapply edit_put; [exact He|by split|].
    eapply basic_edit; [by eapply edit_ok|by split|apply (edit_ok env _ _ _ He)|done|done]. }
  apply (wp_ok_unit (E_UpdateRunqueue p) _ (λ s', queue_ok env s' ∧ others_keep p s s' ∧ run_queue_ s' ≡ₚ run_queue_ s)).
  eapply (wp_UpdateRunqueue env p t1); [apply He|apply He|done|done|done|]. intros s' Hm' Ht Hnh.
  assert (touched p t1 s s') as Ht1 by (eapply touched_again; [apply touched_put|exact Ht]).
  split_and!; [by apply mid_queue_ok|by eapply touched_keep|].
  pose proof (touched_members env p _ s s' (mid_core env p s Hm) (mid_core env p s' Hm') Ht1) as Hmem.
  destruct (touched_at _ _ _ _ Ht) as (t2 & Ht2 & E). apply strip_eq in E.
  apply (perm_same_members _ _ p); [done|by apply (core_nodup env 0 s')| |done]. split; [intros _|done].
  apply (queue_members env 0 s' Hm'). exists t2. split; [done|]. split; [by rewrite E|]. apply (queued_pos p t2 s'); [done|done|by rewrite E].
Qed.

Lemma remove_refines : ∀ p, p ∈ run_queue_ s →
     ∃ s', E_RemoveFromRunqueue p s = Ok (tt, s') ∧ queue_ok env s' ∧ others_keep p s s' ∧ p :: run_queue_ s' ≡ₚ run_queue_ s.
Proof using Hi.
  pose proof inv_mid as Hm. pose proof inv_nodup as Hnd.
  intros p Hin. destruct (core_queued env 0 s p Hm Hin) as (t & Hp & Hst & Hpos). destruct (mid_work_queued env s p Hm Hin) as (t' & Ht' & _ & _ & Hwk).
  assert (t' = t) as -> by congruence.
  apply (wp_ok_unit (E_RemoveFromRunqueue p) s (λ s', queue_ok env s' ∧ others_keep p s s' ∧ p :: run_queue_ s' ≡ₚ run_queue_ s)).
  eapply (wp_Remove env p t); [by apply mid_core|done|done|done|by eapply mid_comparable|]. intros s' Hc' Hp' Ht.
  assert (p ∉ run_queue_ s') as Hn by exact (core_pos_fresh env p s' _ Hc' Hp' eq_refl).
  assert (queue_ok env s') as Hqok by by (apply (core_queue_ok env p); [done|eapply core_ordered; [done|exact Hp'|done]]).
  split_and!; [done|by eapply touched_keep|]. symmetry.
  apply perm_members; [by apply (core_nodup env p s')|done|done|done|]. intros q Hq. symmetry.
  by apply (touched_members env p _ s s' (mid_core env p s Hm) Hc' Ht).
Qed.

End refines.

(** The same with the order of the queue of the state itself. *)
Section kept.
Context (env : EdfEnv) (s : Edf) (Hi : edf_inv env s).

Lemma dequeue_kept : ∃ p s', E_Dequeue s = Ok (p, s') ∧ kept_queue s s' ∧ others_keep p s s' ∧
     ((run_queue_ s = [] ∧ p = 0 ∧ s' = s) ∨
      (p :: run_queue_ s' ≡ₚ run_queue_ s ∧ (heap_order s → ∀ q, q ∈ run_queue_ s → edf_gt s p q = false))).
Proof using Hi.
  destruct (quiet_twice env s _ _ Hi (λ e He, dequeue_refines e s He)) as (p & s' & E & (Hq & Hk & H) & Ho).
  exists p, s'. split_and!; [done|apply (kept_queue_intro env); [done|intros Hs; by apply Ho]|done|].
  destruct H as [H|[Hp _]]; [by left|]. right. split; [done|]. intros Hs q Hin.
  destruct (Ho Hs) as (_ & _ & [(El & _ & _)|[_ H]]); [|by apply (H (quiet_steady env))].
  rewrite El in Hin. by apply elem_of_nil in Hin.
Qed.

(** The other three give back nothing. *)
Lemma kept_unit p s1 (m : M Edf unit) (R : Edf → Prop) :
  (∀ e, edf_inv e s → ∃ s', m s1 = Ok (tt, s') ∧ queue_ok e s' ∧ others_keep p s s' ∧ R s') →
  ∃ s', m s1 = Ok (tt, s') ∧ kept_queue s s' ∧ others_keep p s s' ∧ R s'.
Proof using Hi.
  intros H. destruct (quiet_twice env s (m s1) (λ e _ s', queue_ok e s' ∧ others_keep p s s' ∧ R s') Hi) as ([] & s' & E & (Hq & Hk & HR) & Ho).
  - intros e He. destruct (H e He) as (s' & E & HR). by exists tt, s'.
  - exists s'. split_and!; [done|apply (kept_queue_intro env); [done|intros Hs; by apply Ho]|done|done].
Qed.

Lemma enqueue_kept : ∀ p t, heap (e_allocator s) !! p = Some t → run_state t = kBlocked ∨ run_state t = kPaused →
     ∃ s', E_Enqueue p s = Ok (tt, s') ∧ kept_queue s s' ∧ others_keep p s s' ∧
       run_queue_ s' ≡ₚ (if has_work t then p :: run_queue_ s else run_queue_ s).
Proof using Hi. intros p t Hp Hst. apply kept_unit. intros e He. by apply enqueue_refines. Qed.

Lemma update_kept : ∀ p t d boost pre, p ∈ run_queue_ s → heap (e_allocator s) !! p = Some t →
     ∃ s', E_UpdateRunqueue p (put_task p (set_sched_deadline d (set_boost boost pre t)) s) = Ok (tt, s') ∧
       kept_queue s s' ∧ others_keep p s s' ∧ run_queue_ s' ≡ₚ run_queue_ s.
Proof using Hi. intros p t d boost pre Hin Hp. apply kept_unit. intros e He. by apply update_refines. Qed.

Lemma remove_kept : ∀ p, p ∈ run_queue_ s →
     ∃ s', E_RemoveFromRunqueue p s = Ok (tt, s') ∧ kept_queue s s' ∧ others_keep p s s' ∧ p :: run_queue_ s' ≡ₚ run_queue_ s.
Proof using Hi. intros p Hin. apply kept_unit. intros e He. by apply remove_refines. Qed.
End kept.

(** C10. The run queue implements a priority queue, the swaps and the sifting
    within their bounds: on every reachable state [Dequeue] takes out a task,
    or returns null if there is none; [Enqueue] of a task that is nowhere adds
    it if it has work; [UpdateRunqueue] keeps the tasks, after whatever change
    of the task's boost and deadline; [RemoveFromRunqueue] takes out the given
    task.  None of them can abort, each leaves every task at the position it
    has noted and changes nothing else in the other tasks.  Where the queue is
    in heap order, each leaves it in heap order, and the task that [Dequeue]
    takes is not after any other by boost, QoS and deadline.  The queue is in
    heap order in every reachable state if no refresh meets an update in
    progress; one that does can put it out of order. *)
Theorem edf_queue_refines (env : EdfEnv) (s : Edf) (Henv : edf_env_ok env) (Hr : edf_reachable env s) :
  placed s ∧ (steady env → heap_order s) ∧
  (∃ p s', E_Dequeue s = Ok (p, s') ∧ kept_queue s s' ∧ others_keep p s s' ∧
     ((run_queue_ s = [] ∧ p = 0 ∧ s' = s) ∨
      (p :: run_queue_ s' ≡ₚ run_queue_ s ∧ (heap_order s → ∀ q, q ∈ run_queue_ s → edf_gt s p q = false)))) ∧
  (∀ p t, heap (e_allocator s) !! p = Some t → run_state t = kBlocked ∨ run_state t = kPaused →
     ∃ s', E_Enqueue p s = Ok (tt, s') ∧ kept_queue s s' ∧ others_keep p s s' ∧
       run_queue_ s' ≡ₚ (if has_work t then p :: run_queue_ s else run_queue_ s)) ∧
  (∀ p t d boost pre, p ∈ run_queue_ s → heap (e_allocator s) !! p = Some t →
     ∃ s', E_UpdateRunqueue p (put_task p (set_sched_deadline d (set_boost boost pre t)) s) = Ok (tt, s') ∧
       kept_queue s s' ∧ others_keep p s s' ∧ run_queue_ s' ≡ₚ run_queue_ s) ∧
  (∀ p, p ∈ run_queue_ s →
     ∃ s', E_RemoveFromRunqueue p s = Ok (tt, s') ∧ kept_queue s s' ∧ others_keep p s s' ∧ p :: run_queue_ s' ≡ₚ run_queue_ s).
Proof.
  pose proof (e_reachable_inv env s Henv Hr) as Hi. destruct (mid_queue_ok env s) as [Hp Ho]; [apply Hi|].
  split_and!; [exact Hp|exact Ho|by apply (dequeue_kept env)|by apply (enqueue_kept env)|by apply (update_kept env)|by apply (remove_kept env)].
Qed.

(** A dequeue of the sample takes out thread 7, whose deadline is earlier. *)
Lemma edf_queue_refines_witness :
  run_queue_ steady2 = [16; 272] ∧ ∃ p s', E_Dequeue steady2 = Ok (p, s') ∧ kept_queue steady2 s'.
Proof.
  split; [vm_compute; reflexivity|].
  destruct (proj1 (proj2 (proj2 (edf_queue_refines steady_env steady2 (edf_sample_ok _ _ _) steady2_reachable)))) as (p & s' & E & H & _).
  exists p, s'. split; [exact E|exact H].
Defined.

(** ** The turn *)

Lemma pick_next_completes env cs s :
  edf_env_ok env → edf_inv env s → (∀ c, c ∈ cs → enclave_cpu env c) → wp (pick_next_loop env cs) s (λ _ _, True).
Proof.
  intros Henv. revert s. induction cs as [|c cs IH]; intros s Hi Hcs; simpl; [by wpstep|].
  assert (enclave_cpu env c) as Hc by (apply Hcs; by left). pose proof (e_enclave_range env c Henv Hc) as Hr.
  assert (∀ s (Q : EdfCpu → Edf → Prop), Q (e_cpus s c) s → wp (e_cpu c) s Q) as Hcpu.
  { intros s' Q HQ. unfold e_cpu. rewrite (proj2 (Z.leb_le 0 c)), (proj2 (Z.ltb_lt c _)) by lia. simpl. by wpstep. }
  wpstep. unfold E_Available. wpstep. apply Hcpu. rewrite (proj2 (ec_agent _ _ _ (ei_mid _ _ _ Hi) c)) by done.
  unfold ask. wpstep. wpstep. wpstep. wpstep. wpstep. wpstep. wpstep. apply (inv_tick env 0) in Hi as Hi1.
  destruct (e_avail env _ c && _); [|apply IH; [done|intros c' Hc'; apply Hcs; by right]].
  wpstep. apply Hcpu. wpstep. wpstep; intros Hcur.
  - apply negb_true_iff, Z.eqb_neq in Hcur. destruct (current_on_cpu env 0 (tick s) c (ei_mid _ _ _ Hi1) Hcur) as (t & Ht & Hst & _).
    wpstep. eapply wp_task; [exact Ht|]. wpstep; [by apply bool_decide_eq_true|].
    wpstep. wpstep. rewrite (ee_agent _ Henv) by done. by wpstep.
  - wpstep. wpstep. rewrite (ee_agent _ Henv) by done. by wpstep.
Qed.

(** C17. From every reachable state, whatever the messages, the answers of the
    kernel and the contents of the tables: a turn of any agent ends, within the
    bounds of its loops, and never follows a pointer to a task, to parameters or
    to an agent that is not there.  It may stop the process at a CHECK or with
    an error, or read outside an array of statistics; else the state is
    reachable again.  The turns that only yield or move the global agent always
    complete. *)
Theorem edf_turn_stops (env : EdfEnv) (s : Edf) (c : Z) (boosted : bool) (msgs : list Message)
    (Henv : edf_env_ok env) (Hr : edf_reachable env s)
    (Hsize : Z.of_nat (size (heap (e_allocator s)) + length msgs) < 2 ^ 31) :
  match E_AgentThread env c boosted msgs s with
  | Ok (_, s') => edf_reachable env s'
  | Crash f => f ≠ UseAfterFree ∧ f ≠ OutOfFuel ∧ c = global_cpu_ s ∧ boosted = false
  end.
Proof.
  pose proof (e_reachable_inv env s Henv Hr) as Hi.
  pose proof (ewp_AgentThread env Henv c boosted msgs s (λ _ _, True) Hi Hsize ltac:(done)) as H. unfold wpf in H.
  destruct (E_AgentThread env c boosted msgs s) as [[[] s']|f] eqn:E; [by eapply edf_reach_turn|].
  destruct H as [H1 H2]. split; [done|]. split; [done|]. unfold E_AgentThread, mbind, M_bind, gets in E. simpl in E.
  destruct (Z.eqb_spec c (global_cpu_ s)) as [Hc|Hc]; [|done]. split; [done|]. destruct boosted; [|done]. exfalso.
  pose proof (pick_next_completes env (elems (e_enclave env)) s Henv Hi ltac:(done)) as Hw. simpl in E.
  unfold E_PickNextGlobalCPU, mbind, M_bind, lift in E. rewrite enclave_iterate in E by done. unfold wp in Hw. by rewrite E in Hw.
Qed.

(** The turn in which the sample threads arrive. *)
Lemma edf_turn_stops_witness :
  match E_AgentThread steady_env 0 false [] steady2 with Ok (_, s') => edf_reachable steady_env s' | Crash _ => False end.
Proof.
  assert (Z.of_nat (size (heap (e_allocator steady2)) + length (@nil Message)) < 2 ^ 31) as Hs by (vm_compute; reflexivity).
  assert (match E_AgentThread steady_env 0 false [] steady2 with Ok _ => true | Crash _ => false end = true) as Ht by (vm_compute; reflexivity).
  pose proof (edf_turn_stops steady_env steady2 0 false [] (edf_sample_ok _ _ _) steady2_reachable Hs) as H.
  destruct (E_AgentThread steady_env 0 false [] steady2) as [[[] s']|f]; [exact H|discriminate Ht].
Defined.

(** ** Deadlines *)

(** C28. [CalculateSchedDeadline] ends in every reachable state, for every task:
    it doubles the estimate until it exceeds the elapsed runtime, no more often
    than necessary, sets the scheduling deadline to the deadline less what is
    left of the estimate, and changes nothing else.  From an estimate that is not
    positive and not above the elapsed runtime, which no reachable state has,
    the doublings would never end: no number of them is enough. *)
Theorem edf_deadline_doubles (env : EdfEnv) (s : Edf) (p : Z) (t : EdfTask)
    (Henv : edf_env_ok env) (Hr : edf_reachable env s) (Hp : heap (e_allocator s) !! p = Some t) :
  (∃ k : nat, let e := estimated_runtime t * 2 ^ Z.of_nat k in
    CalculateSchedDeadline env p s =
      Ok (tt, put_task p (set_sched_deadline (time_minus (e_absl env) (deadline t) (e - elapsed_runtime t)) (set_estimated e t)) s) ∧
    elapsed_runtime t < e ∧ (k = 0%nat ∨ estimated_runtime t * 2 ^ Z.of_nat (k - 1) <= elapsed_runtime t)) ∧
  0 < estimated_runtime t ∧
  ∀ fuel e elapsed, e <= 0 → e <= elapsed → double_estimate fuel e elapsed = Crash OutOfFuel.
Proof.
  pose proof (e_reachable_inv env s Henv Hr) as Hi. pose proof (ec_basic _ _ _ (ei_mid _ _ _ Hi) p t Hp) as Hb.
  split_and!; [|apply (bo_estimate _ _ _ Hb)|exact double_estimate_never].
  destruct (double_estimate_fuel _ (elapsed_runtime t) (bo_estimate _ _ _ Hb)) as (k & E & H1 & H2). exists k. split; [|done].
  unfold CalculateSchedDeadline, mbind, M_bind, task_at, lift, deref. cbn [allocator Edf_has_allocator].
  rewrite Hp. cbv beta iota. rewrite E. unfold upd_task, mbind, M_bind, task_at, lift, deref. simpl.
  rewrite Hp. simpl. unfold check. rewrite (proj2 (Z.ltb_lt _ _) H1). simpl. rewrite lookup_insert_eq. simpl.
  unfold modify, put_task, put_obj. simpl. by rewrite insert_insert_eq.
Qed.

(** Thread 7 of the sample. *)
Lemma edf_deadline_doubles_witness :
  ∃ t, heap (e_allocator steady2) !! 16 = Some t ∧ ∃ s', CalculateSchedDeadline steady_env 16 steady2 = Ok (tt, s').
Proof.
  assert (∃ t, heap (e_allocator steady2) !! 16 = Some t) as [t Ht] by (vm_compute; eexists; reflexivity).
  exists t. split; [exact Ht|].
  destruct (edf_deadline_doubles steady_env steady2 16 t (edf_sample_ok _ _ _) steady2_reachable Ht) as ((k & E & _) & _).
  eexists. exact E.
Defined.

(** ** What an application can do *)








