(* ===== verification/Avl.v ===== *)
(** * Avl: doubly linked lists as id sequences

    Both the orphan list of lib/avl.bpf.h and the [arr_list] of
    lib/queue.bpf.h link elements of an array by [prev]/[next] ids.  [dseg]
    says that the ids of a list are linked that way between two given end
    ids; the lemmas are the ways in which the code edits the links.

    The array-backed AVL tree of lib/avl.bpf.h.

    Nodes live in an array and refer to each other by id (index + 1, 0 for
    "none").  A node pointer is modelled by the id of the element it points
    into; the array is a total function from ids to [avl_node]; the functions
    thread the array and the [avl_tree] header explicitly, in the order of the
    assignments of the C code.  The bounded [for] loops are fixpoints on the
    number of iterations left. *)

From S2P Require Import Prelude.
From stdpp Require Import base tactics numbers list functions sets.
From Stdlib Require Import ZArith Lia.

Local Open Scope Z_scope.

(** The elements of [A] are linked in order; [p] is the id before the first
    and [nx] the id behind the last. *)
Fixpoint dseg (prv nxt : Z → Z) (p : Z) (A : list Z) (nx : Z) : Prop :=
  match A with
  | [] => True
  | i :: A' => prv i = p ∧ nxt i = List.hd nx A' ∧ dseg prv nxt i A' nx
  end.

(** Disjointness of id lists, in a form that is taken apart by its shape. *)
Definition apart (A B : list Z) : Prop := ∀ i, i ∈ A → i ∉ B.

Lemma nodup_app A B : NoDup (A ++ B) → NoDup A ∧ apart A B ∧ NoDup B.
Proof. apply NoDup_app. Qed.
Lemma apart_sym A B : apart A B → apart B A.
Proof. intros Hd i Hi Hi'. by apply (Hd i). Qed.
Lemma apart_app_r A B C : apart A (B ++ C) → apart A B ∧ apart A C.
Proof. unfold apart. set_solver. Qed.
Lemma apart_app_l A B C : apart (B ++ C) A → apart B A ∧ apart C A.
Proof. unfold apart. set_solver. Qed.
Lemma apart_cons_r A i B : apart A (i :: B) → i ∉ A ∧ apart A B.
Proof. unfold apart. set_solver. Qed.
Lemma apart_cons_l A i B : apart (i :: B) A → i ∉ A ∧ apart B A.
Proof. unfold apart. set_solver. Qed.

(** [nodup] takes apart the [NoDup] facts of the context; [sep] proves from
    the pieces that an id is not another one or not in a list. *)
Ltac nodup :=
  repeat match goal with
  | H : NoDup (_ ++ _) |- _ => apply nodup_app in H as (? & ? & ?)
  | H : NoDup (_ :: _) |- _ => apply NoDup_cons in H as [? ?]
  | H : apart _ (_ ++ _) |- _ => apply apart_app_r in H as [? ?]
  | H : apart (_ ++ _) _ |- _ => apply apart_app_l in H as [? ?]
  | H : apart _ (_ :: _) |- _ => apply apart_cons_r in H as [? ?]
  | H : apart (_ :: _) _ |- _ => apply apart_cons_l in H as [? ?]
  | H : apart _ [] |- _ => clear H
  | H : apart [] _ |- _ => clear H
  | H : _ ∉ _ ++ _ |- _ => apply not_elem_of_app in H as [? ?]
  | H : _ ∉ _ :: _ |- _ => apply not_elem_of_cons in H as [? ?]
  | H : _ ∉ [] |- _ => clear H
  end.

Ltac sep :=
  first
    [ assumption
    | apply not_eq_sym; assumption
    | match goal with
      | H : apart ?A ?B, H' : ?i ∈ ?A |- ?i ∉ ?B => exact (H i H')
      | H : apart ?A ?B, H' : ?i ∈ ?B |- ?i ∉ ?A => exact (apart_sym A B H i H')
      | H : ?i ∉ ?A, H' : ?j ∈ ?A |- ?i ≠ ?j =>
          let E := fresh in intros E; apply H; rewrite E; exact H'
      | H : ?i ∉ ?A, H' : ?j ∈ ?A |- ?j ≠ ?i =>
          let E := fresh in intros E; apply H; rewrite <- E; exact H'
      end ].

(** [nodup_goal] proves a [NoDup] or non-membership goal from the pieces. *)
Ltac nodup_goal :=
  repeat match goal with
  | |- NoDup [] => apply NoDup_nil_2
  | |- NoDup (_ ++ _) => apply NoDup_app; split; [|split; [intros ? ?|]]
  | |- NoDup (_ :: _) => apply NoDup_cons; split
  | H : _ ∈ _ ++ _ |- _ => apply elem_of_app in H as [H|H]
  | H : _ ∈ _ :: _ |- _ => apply elem_of_cons in H as [->|H]
  | H : _ ∈ [] |- _ => by apply not_elem_of_nil in H
  | |- _ ∉ _ ++ _ => apply not_elem_of_app; split
  | |- _ ∉ _ :: _ => apply not_elem_of_cons; split
  | |- _ ∉ [] => apply not_elem_of_nil
  end; try sep.

(** The place of an element of a list without duplicates is unique. *)
Lemma app_inj_pivot (A B A' B' : list Z) n :
  NoDup (A ++ n :: B) → A ++ n :: B = A' ++ n :: B' → A = A' ∧ B = B'.
Proof.
  revert A'. induction A as [|a A IH]; intros A' Hnd E; destruct A' as [|a' A']; simplify_eq/=.
  - done.
  - nodup. set_solver.
  - nodup. set_solver.
  - nodup. destruct (IH A') as [-> ->]; [|done|done]. nodup_goal.
Qed.

Section dseg.
Implicit Types (prv nxt : Z → Z) (A B : list Z).

Lemma last_cons a A d : List.last (a :: A) d = List.last A a.
Proof.
  revert a d. induction A as [|b A IH]; intros a d; [done|].
  change (List.last (a :: b :: A) d) with (List.last (b :: A) d). by rewrite !IH.
Qed.

Lemma last_app A B d : List.last (A ++ B) d = List.last B (List.last A d).
Proof.
  revert d. induction A as [|a A IH]; intros d; [done|].
  rewrite last_cons, <- IH. apply last_cons.
Qed.

Lemma last_snoc A a d : List.last (A ++ [a]) d = a.
Proof. by rewrite last_app. Qed.

Lemma hd_app A B d : List.hd d (A ++ B) = List.hd (List.hd d B) A.
Proof. by destruct A. Qed.

Lemma last_in A d : A ≠ [] → List.last A d ∈ A.
Proof.
  destruct A as [|a A] using rev_ind; [done|]. intros _. rewrite last_snoc. set_solver.
Qed.

Lemma hd_in A d : A ≠ [] → List.hd d A ∈ A.
Proof. destruct A; [done|]. intros _. by left. Qed.

Lemma dseg_cons prv nxt p a A nx :
  dseg prv nxt p (a :: A) nx ↔
  prv a = p ∧ nxt a = List.hd nx A ∧ dseg prv nxt a A nx.
Proof. done. Qed.

Lemma dseg_app prv nxt p A B nx :
  dseg prv nxt p (A ++ B) nx ↔
  dseg prv nxt p A (List.hd nx B) ∧ dseg prv nxt (List.last A p) B nx.
Proof.
  revert p. induction A as [|a A IH]; intros p; [simpl; tauto|].
  rewrite last_cons. cbn [app dseg]. rewrite IH, hd_app. tauto.
Qed.

Lemma dseg_frame prv nxt prv' nxt' p A nx :
  (∀ i, i ∈ A → prv' i = prv i ∧ nxt' i = nxt i) →
  dseg prv nxt p A nx → dseg prv' nxt' p A nx.
Proof.
  revert p. induction A as [|a A IH]; intros p Hm; simpl; [done|].
  destruct (Hm a) as [-> ->]; [by left|]. intros (? & ? & ?). split_and!; try done.
  apply IH; [|done]. intros. apply Hm. by right.
Qed.

(** Changing what follows the last element. *)
Lemma dseg_set_last prv nxt prv' nxt' p A nx nx' :
  NoDup A →
  (∀ i, i ∈ A → prv' i = prv i) →
  (∀ i, i ∈ A → i ≠ List.last A p → nxt' i = nxt i) →
  (A ≠ [] → nxt' (List.last A p) = nx') →
  dseg prv nxt p A nx → dseg prv' nxt' p A nx'.
Proof.
  destruct A as [|a A _] using rev_ind; [done|].
  rewrite last_snoc, !dseg_app. simpl. intros Hnd Hp Hn Ha [HA (Pa & Na & _)]. nodup.
  split_and!; [|by rewrite Hp by set_solver|by apply Ha; destruct A|done].
  apply (dseg_frame prv nxt); [|done]. intros i Hi. split; [apply Hp; set_solver|].
  apply Hn; [set_solver|]. sep.
Qed.

(** Changing what precedes the first element. *)
Lemma dseg_set_first prv nxt prv' nxt' p p' A nx :
  NoDup A →
  (∀ i, i ∈ A → nxt' i = nxt i) →
  (∀ i, i ∈ A → i ≠ List.hd nx A → prv' i = prv i) →
  (A ≠ [] → prv' (List.hd nx A) = p') →
  dseg prv nxt p A nx → dseg prv' nxt' p' A nx.
Proof.
  destruct A as [|a A]; [done|]. simpl. intros Hnd Hn Hp Ha (Pa & Na & HA). nodup.
  split_and!; [by apply Ha|by rewrite Hn by set_solver|].
  apply (dseg_frame prv nxt); [|done]. intros i Hi.
  split; [apply Hp; set_solver|apply Hn; set_solver].
Qed.

End dseg.

(** ** The array-backed AVL tree of lib/avl.bpf.h *)

(** ** Data *)

(** [MAX_AVL_HEIGHT] can be overridden by the including program;
    [nr_ids] is the number of ids that [avl_id_to_node] resolves. *)
Class AvlConfig := {
  MAX_AVL_HEIGHT : nat;
  nr_ids : Z;
}.

Record avl_tree := mk_avl_tree {
  root : Z;
  min_id : Z;
  min_key : Z;
  max_id : Z;
  max_key : Z;
  first_orphan_id : Z;
}.

Definition avl_tree_init : avl_tree := mk_avl_tree 0 0 0 0 0 0.

Record avl_node := mk_avl_node {
  key : Z;
  left_id : Z;
  right_id : Z;
  parent_id : Z;
  balance : Z;
  is_orphan : bool;
  prev_orphan_id : Z;
  next_orphan_id : Z;
}.

Definition zero_node : avl_node := mk_avl_node 0 0 0 0 0 false 0 0.

(** The array, and an assignment to one field of one element:
    [set_left_id i v m] is [m] after [m[i].left_id = v]. *)
Abbreviation mem := (Z → avl_node).

Definition with_left_id (v : Z) (n : avl_node) : avl_node :=
  mk_avl_node (key n) v (right_id n) (parent_id n) (balance n) (is_orphan n) (prev_orphan_id n) (next_orphan_id n).
Definition with_right_id (v : Z) (n : avl_node) : avl_node :=
  mk_avl_node (key n) (left_id n) v (parent_id n) (balance n) (is_orphan n) (prev_orphan_id n) (next_orphan_id n).
Definition with_parent_id (v : Z) (n : avl_node) : avl_node :=
  mk_avl_node (key n) (left_id n) (right_id n) v (balance n) (is_orphan n) (prev_orphan_id n) (next_orphan_id n).
Definition with_balance (v : Z) (n : avl_node) : avl_node :=
  mk_avl_node (key n) (left_id n) (right_id n) (parent_id n) v (is_orphan n) (prev_orphan_id n) (next_orphan_id n).
Definition with_is_orphan (v : bool) (n : avl_node) : avl_node :=
  mk_avl_node (key n) (left_id n) (right_id n) (parent_id n) (balance n) v (prev_orphan_id n) (next_orphan_id n).
Definition with_prev_orphan_id (v : Z) (n : avl_node) : avl_node :=
  mk_avl_node (key n) (left_id n) (right_id n) (parent_id n) (balance n)
    (is_orphan n) v (next_orphan_id n).
Definition with_next_orphan_id (v : Z) (n : avl_node) : avl_node :=
  mk_avl_node (key n) (left_id n) (right_id n) (parent_id n) (balance n)
    (is_orphan n) (prev_orphan_id n) v.

Abbreviation set_left_id i v := (alter (with_left_id v) i).
Abbreviation set_right_id i v := (alter (with_right_id v) i).
Abbreviation set_parent_id i v := (alter (with_parent_id v) i).
Abbreviation set_balance i v := (alter (with_balance v) i).
Abbreviation set_is_orphan i v := (alter (with_is_orphan v) i).
Abbreviation set_prev_orphan_id i v := (alter (with_prev_orphan_id v) i).
Abbreviation set_next_orphan_id i v := (alter (with_next_orphan_id v) i).

(** [if (p) p->field = v;] *)
Definition if_node (p : option Z) (f : Z → mem → mem) (m : mem) : mem :=
  match p with Some i => f i m | None => m end.

Definition set_root (v : Z) (t : avl_tree) : avl_tree :=
  mk_avl_tree v (min_id t) (min_key t) (max_id t) (max_key t) (first_orphan_id t).
Definition set_min (i k : Z) (t : avl_tree) : avl_tree :=
  mk_avl_tree (root t) i k (max_id t) (max_key t) (first_orphan_id t).
Definition set_max (i k : Z) (t : avl_tree) : avl_tree :=
  mk_avl_tree (root t) (min_id t) (min_key t) i k (first_orphan_id t).
Definition set_first_orphan_id (v : Z) (t : avl_tree) : avl_tree :=
  mk_avl_tree (root t) (min_id t) (min_key t) (max_id t) (max_key t) v.

(** ** Operations *)

Section ops.
Context `{AvlConfig}.

(** Id to pointer and back; see [AvlAddr] for the byte arithmetic. *)
Definition avl_id_to_node (id : Z) : option Z :=
  if (0 <? id) && (id <=? nr_ids) then Some id else None.

Definition avl_node_to_id (node : option Z) : Z :=
  match node with Some i => i | None => 0 end.

(** *** The orphan list *)

Definition insert_orphan (m : mem) (t : avl_tree) (node : Z) : mem * avl_tree :=
  let node_id := avl_node_to_id (Some node) in
  let next_id := first_orphan_id t in
  let next := avl_id_to_node next_id in
  let t := set_first_orphan_id node_id t in
  let m := if_node next (λ n, set_prev_orphan_id n node_id) m in
  let m := set_next_orphan_id node next_id m in
  let m := set_prev_orphan_id node 0 m in
  (m, t).

Definition remove_orphan (m : mem) (t : avl_tree) (node : Z) : mem * avl_tree :=
  let node_id := avl_node_to_id (Some node) in
  let prev_id := prev_orphan_id (m node) in
  let prev := avl_id_to_node prev_id in
  let next_id := next_orphan_id (m node) in
  let next := avl_id_to_node next_id in
  let t := if first_orphan_id t =? node_id then set_first_orphan_id next_id t else t in
  let m := if_node prev (λ p, set_next_orphan_id p next_id) m in
  let m := if_node next (λ n, set_prev_orphan_id n prev_id) m in
  let m := set_next_orphan_id node 0 m in
  let m := set_prev_orphan_id node 0 m in
  (m, t).

Definition pop_first_orphan (m : mem) (t : avl_tree) : mem * avl_tree * option Z :=
  match avl_id_to_node (first_orphan_id t) with
  | None => (m, t, None)
  | Some first =>
      let next_id := next_orphan_id (m first) in
      let next := avl_id_to_node next_id in
      let t := set_first_orphan_id next_id t in
      let m := if_node next (λ n, set_prev_orphan_id n 0) m in
      let m := set_next_orphan_id first 0 m in
      let m := set_prev_orphan_id first 0 m in
      (m, t, Some first)
  end.

(** *** Searching *)

Fixpoint lookup_loop (i : nat) (m : mem) (x : option Z) (k : Z) : option Z :=
  match i with
  | O => None
  | S i =>
      match x with
      | None => None
      | Some x =>
          if key (m x) =? k then Some x
          else if k <? key (m x)
          then lookup_loop i m (avl_id_to_node (left_id (m x))) k
          else lookup_loop i m (avl_id_to_node (right_id (m x))) k
      end
  end.

Definition avl_tree_lookup (m : mem) (t : avl_tree) (k : Z) : option Z :=
  lookup_loop MAX_AVL_HEIGHT m (avl_id_to_node (root t)) k.

Fixpoint min_loop (i : nat) (m : mem) (x : option Z) : option Z :=
  match i with
  | O => None
  | S i =>
      match x with
      | None => None
      | Some x =>
          if left_id (m x) =? 0 then Some x
          else min_loop i m (avl_id_to_node (left_id (m x)))
      end
  end.

Definition avl_min_node (m : mem) (x : option Z) : option Z :=
  min_loop MAX_AVL_HEIGHT m x.

Definition avl_min_node_id (m : mem) (id : Z) : option Z :=
  avl_min_node m (avl_id_to_node id).

Definition avl_tree_min (t : avl_tree) : option Z := avl_id_to_node (min_id t).

Fixpoint max_loop (i : nat) (m : mem) (x : option Z) : option Z :=
  match i with
  | O => None
  | S i =>
      match x with
      | None => None
      | Some x =>
          if right_id (m x) =? 0 then Some x
          else max_loop i m (avl_id_to_node (right_id (m x)))
      end
  end.

Definition avl_max_node (m : mem) (x : option Z) : option Z :=
  max_loop MAX_AVL_HEIGHT m x.

Definition avl_max_node_id (m : mem) (id : Z) : option Z :=
  avl_max_node m (avl_id_to_node id).

Definition avl_tree_max (t : avl_tree) : option Z := avl_id_to_node (max_id t).

(** Walking up while we are not a left (right) child. *)
Fixpoint next_up_loop (i : nat) (m : mem) (x x_id : Z) : option Z :=
  match i with
  | O => None
  | S i =>
      match avl_id_to_node (parent_id (m x)) with
      | None => None
      | Some parent =>
          if x_id =? left_id (m parent) then Some parent
          else next_up_loop i m parent (parent_id (m x))
      end
  end.

Definition avl_next_node (m : mem) (x : option Z) : option Z :=
  match x with
  | None => None
  | Some x =>
      if truthy (right_id (m x)) then avl_min_node_id m (right_id (m x))
      else next_up_loop MAX_AVL_HEIGHT m x (avl_node_to_id (Some x))
  end.

Fixpoint prev_up_loop (i : nat) (m : mem) (x x_id : Z) : option Z :=
  match i with
  | O => None
  | S i =>
      match avl_id_to_node (parent_id (m x)) with
      | None => None
      | Some parent =>
          if x_id =? right_id (m parent) then Some parent
          else prev_up_loop i m parent (parent_id (m x))
      end
  end.

Definition avl_prev_node (m : mem) (x : option Z) : option Z :=
  match x with
  | None => None
  | Some x =>
      if truthy (left_id (m x)) then avl_max_node_id m (left_id (m x))
      else prev_up_loop MAX_AVL_HEIGHT m x (avl_node_to_id (Some x))
  end.

(** *** Rotations: the new subtree root is returned with the array *)

Definition avl_rotate_left (m : mem) (x z : Z) : mem * Z :=
  let x_id := avl_node_to_id (Some x) in
  let z_id := avl_node_to_id (Some z) in
  let t23_id := left_id (m z) in
  let t23 := avl_id_to_node t23_id in
  let m := set_right_id x t23_id m in
  let m := if_node t23 (λ n, set_parent_id n x_id) m in
  let m := set_left_id z x_id m in
  let m := set_parent_id x z_id m in
  let m :=
    if balance (m z) =? 0 then
      (* the '*' case, where t23 was the same height as t4 *)
      let m := set_balance x 1 m in
      set_balance z (-1) m
    else
      let m := set_balance x 0 m in
      set_balance z 0 m in
  (m, z).

Definition avl_rotate_right (m : mem) (x z : Z) : mem * Z :=
  let x_id := avl_node_to_id (Some x) in
  let z_id := avl_node_to_id (Some z) in
  let t23_id := right_id (m z) in
  let t23 := avl_id_to_node t23_id in
  let m := set_left_id x t23_id m in
  let m := if_node t23 (λ n, set_parent_id n x_id) m in
  let m := set_right_id z x_id m in
  let m := set_parent_id x z_id m in
  let m :=
    if balance (m z) =? 0 then
      let m := set_balance x (-1) m in
      set_balance z 1 m
    else
      let m := set_balance x 0 m in
      set_balance z 0 m in
  (m, z).

Definition avl_rotate_right_left (m : mem) (x z : Z) : mem * Z :=
  let x_id := avl_node_to_id (Some x) in
  let z_id := avl_node_to_id (Some z) in
  let y_id := left_id (m z) in
  match avl_id_to_node y_id with
  | None => (m, x)
  | Some y =>
      let t2_id := left_id (m y) in
      let t3_id := right_id (m y) in
      let t2 := avl_id_to_node t2_id in
      let t3 := avl_id_to_node t3_id in
      let m := set_left_id y x_id m in
      let m := set_parent_id x y_id m in
      let m := set_right_id x t2_id m in
      let m := if_node t2 (λ n, set_parent_id n x_id) m in
      let m := set_right_id y z_id m in
      let m := set_parent_id z y_id m in
      let m := set_left_id z t3_id m in
      let m := if_node t3 (λ n, set_parent_id n z_id) m in
      let m :=
        if balance (m y) =? 0 then
          (* t2 and t3 both have star nodes *)
          set_balance z 0 (set_balance y 0 (set_balance x 0 m))
        else if 0 <? balance (m y) then
          (* t3 only has a star node *)
          set_balance z 0 (set_balance y 0 (set_balance x (-1) m))
        else
          (* t2 only has a star node *)
          set_balance z 1 (set_balance y 0 (set_balance x 0 m)) in
      (m, y)
  end.

Definition avl_rotate_left_right (m : mem) (x z : Z) : mem * Z :=
  let x_id := avl_node_to_id (Some x) in
  let z_id := avl_node_to_id (Some z) in
  let y_id := right_id (m z) in
  match avl_id_to_node y_id with
  | None => (m, x)
  | Some y =>
      let t2_id := left_id (m y) in
      let t3_id := right_id (m y) in
      let t2 := avl_id_to_node t2_id in
      let t3 := avl_id_to_node t3_id in
      let m := set_left_id y z_id m in
      let m := set_parent_id z y_id m in
      let m := set_right_id z t2_id m in
      let m := if_node t2 (λ n, set_parent_id n z_id) m in
      let m := set_right_id y x_id m in
      let m := set_parent_id x y_id m in
      let m := set_left_id x t3_id m in
      let m := if_node t3 (λ n, set_parent_id n x_id) m in
      let m :=
        if balance (m y) =? 0 then
          set_balance z 0 (set_balance y 0 (set_balance x 0 m))
        else if 0 <? balance (m y) then
          set_balance z (-1) (set_balance y 0 (set_balance x 0 m))
        else
          set_balance z 0 (set_balance y 0 (set_balance x 1 m)) in
      (m, y)
  end.

(** *** Insertion *)

(** The search for the future parent: [next_id], [x], [x_id] and [is_left] are
    the loop's variables at exit. *)
Fixpoint insert_descend (i : nat) (m : mem) (k : Z)
    (next_id : Z) (x : option Z) (x_id : Z) (is_left : bool)
    : Z * option Z * Z * bool :=
  match i with
  | O => (next_id, x, x_id, is_left)
  | S i =>
      if next_id =? 0 then (next_id, x, x_id, is_left)
      else
        let x_id := next_id in
        match avl_id_to_node x_id with
        | None => (next_id, None, x_id, is_left)
        | Some x =>
            if k <? key (m x)
            then insert_descend i m k (left_id (m x)) (Some x) x_id true
            else insert_descend i m k (right_id (m x)) (Some x) x_id false
        end
  end.

(** Hang the rotated subtree [str] where [x] was; also whether that was a
    left child slot. *)
Definition reconnect (m : mem) (t : avl_tree) (x_parent : option Z)
    (x_parent_id x_id str : Z) : mem * avl_tree * bool :=
  let str_id := avl_node_to_id (Some str) in
  let m := set_parent_id str x_parent_id m in
  match x_parent with
  | None => (m, set_root str_id t, false)
  | Some xp =>
      if left_id (m xp) =? x_id
      then (set_left_id xp str_id m, t, true)
      else (set_right_id xp str_id m, t, false)
  end.

Fixpoint insert_retrace (i : nat) (m : mem) (t : avl_tree)
    (x : option Z) (x_id z z_id : Z) : mem * avl_tree :=
  match i with
  | O => (m, t)
  | S i =>
      match x with
      | None => (m, t)
      | Some x =>
          let is_left := left_id (m x) =? z_id in
          if balance (m x) =? 0 then
            (* case 3: can't absorb, pass it up the tree *)
            let m := set_balance x (if is_left then -1 else 1) m in
            let z_id := x_id in
            let z := x in
            let x_id := parent_id (m x) in
            insert_retrace i m t (avl_id_to_node x_id) x_id z z_id
          else if (is_left && (0 <? balance (m x)))
                  || (negb is_left && (balance (m x) <? 0)) then
            (* absorbed by a heavy x (case 1) *)
            (set_balance x 0 m, t)
          else
            (* case 2: rotate to absorb height *)
            let x_parent_id := parent_id (m x) in
            let x_parent := avl_id_to_node x_parent_id in
            let '(m, str) :=
              if is_left then
                if balance (m z) <=? 0 then avl_rotate_right m x z
                else avl_rotate_left_right m x z
              else
                if 0 <=? balance (m z) then avl_rotate_left m x z
                else avl_rotate_right_left m x z in
            let '(m, t, _) := reconnect m t x_parent x_parent_id x_id str in
            (m, t)
      end
  end.

Definition insert_update_cache (m : mem) (t : avl_tree) (node : Z) : avl_tree :=
  let node_id := avl_node_to_id (Some node) in
  let t := if negb (truthy (min_id t)) || (key (m node) <? min_key t)
           then set_min node_id (key (m node)) t else t in
  if negb (truthy (max_id t)) || (max_key t <=? key (m node))
  then set_max node_id (key (m node)) t else t.

Definition avl_tree_insert (m : mem) (t : avl_tree) (node : Z) : mem * avl_tree :=
  let m := set_balance node 0 m in
  let m := set_right_id node 0 m in
  let m := set_left_id node 0 m in
  let m := set_is_orphan node false m in
  let node_id := avl_node_to_id (Some node) in
  let '(next_id, x, x_id, is_left) :=
    insert_descend (MAX_AVL_HEIGHT - 1) m (key (m node)) (root t) None 0 false in
  if truthy next_id then
    let m := set_is_orphan node true m in
    insert_orphan m t node
  else
    let m := set_parent_id node x_id m in
    match x with
    | None =>
        (m, set_max node_id (key (m node))
              (set_min node_id (key (m node)) (set_root node_id t)))
    | Some xp =>
        let m := if is_left then set_left_id xp node_id m
                 else set_right_id xp node_id m in
        let '(m, t) := insert_retrace MAX_AVL_HEIGHT m t x x_id node node_id in
        (m, insert_update_cache m t node)
    end.

(** *** Deletion *)

Definition avl_replace_node (m : mem) (t : avl_tree) (x with_id : Z) : mem * avl_tree :=
  let x_was_root := parent_id (m x) =? 0 in
  let m :=
    if_node (avl_id_to_node (parent_id (m x)))
      (λ xp m, if left_id (m xp) =? avl_node_to_id (Some x)
               then set_left_id xp with_id m
               else set_right_id xp with_id m) m in
  let m := if_node (avl_id_to_node with_id)
             (λ w m, set_parent_id w (parent_id (m x)) m) m in
  (m, if x_was_root then set_root with_id t else t).

Definition delete_update_cache (m : mem) (t : avl_tree) (node : Z) : avl_tree :=
  let node_id := avl_node_to_id (Some node) in
  let t :=
    if node_id =? min_id t then
      match avl_next_node m (Some node) with
      | Some next => set_min (avl_node_to_id (Some next)) (key (m next)) t
      | None => set_min (avl_node_to_id None) (min_key t) t
      end
    else t in
  if node_id =? max_id t then
    match avl_prev_node m (Some node) with
    | Some prev => set_max (avl_node_to_id (Some prev)) (key (m prev)) t
    | None => set_max (avl_node_to_id None) (max_key t) t
    end
  else t.

(** Taking [node] out of its place: the array and header, and [x], [x_id],
    [from_the_left] for the retrace, or [None] where the C code returns early
    because the tree is corrupt. *)
Definition delete_unlink (m : mem) (t : avl_tree) (node : Z)
    : mem * avl_tree * option (option Z * Z * bool) :=
  let node_id := avl_node_to_id (Some node) in
  let x_id := parent_id (m node) in
  let x := avl_id_to_node x_id in
  let from_the_left :=
    match x with Some xp => left_id (m xp) =? node_id | None => false end in
  if negb (truthy (left_id (m node))) then
    let '(m, t) := avl_replace_node m t node (right_id (m node)) in
    (m, t, Some (x, x_id, from_the_left))
  else if negb (truthy (right_id (m node))) then
    let '(m, t) := avl_replace_node m t node (left_id (m node)) in
    (m, t, Some (x, x_id, from_the_left))
  else
    match avl_next_node m (Some node) with
    | None => (m, t, None)
    | Some next =>
        let next_id := avl_node_to_id (Some next) in
        let m := set_balance next (balance (m node)) m in
        let '(m, t, st) :=
          if negb (parent_id (m next) =? node_id) then
            (* the "deep next" case *)
            let x_id := parent_id (m next) in
            match avl_id_to_node x_id with
            | None => (m, t, None)
            | Some x =>
                let from_the_left := left_id (m x) =? next_id in
                let '(m, t) := avl_replace_node m t next (right_id (m next)) in
                let m := set_right_id next (right_id (m node)) m in
                match avl_id_to_node (right_id (m node)) with
                | None => (m, t, None)
                | Some node_right =>
                    (set_parent_id node_right next_id m, t,
                     Some (Some x, x_id, from_the_left))
                end
            end
          else
            (* the "immediate child next" case *)
            (m, t, Some (Some next, next_id, false)) in
        match st with
        | None => (m, t, None)
        | Some st =>
            let '(m, t) := avl_replace_node m t node next_id in
            let m := set_left_id next (left_id (m node)) m in
            match avl_id_to_node (left_id (m node)) with
            | None => (m, t, None)
            | Some node_left => (set_parent_id node_left next_id m, t, Some st)
            end
        end
    end.

(** The retrace; the boolean is false where the C code returns from the
    middle of the loop. *)
Fixpoint delete_retrace (i : nat) (m : mem) (t : avl_tree)
    (x : option Z) (x_id : Z) (from_the_left : bool) : mem * avl_tree * bool :=
  match i with
  | O => (m, t, true)
  | S i =>
      match x with
      | None => (m, t, true)
      | Some x =>
          if balance (m x) =? 0 then
            (* case 1: absorb the height loss *)
            (set_balance x (if from_the_left then 1 else -1) m, t, true)
          else
            let x_parent_id := parent_id (m x) in
            let x_parent := avl_id_to_node x_parent_id in
            if (from_the_left && (balance (m x) <? 0))
               || (negb from_the_left && (0 <? balance (m x))) then
              let m := set_balance x 0 m in
              match x_parent with
              | None => (m, t, true)
              | Some xp =>
                  delete_retrace i m t x_parent x_parent_id (left_id (m xp) =? x_id)
              end
            else
              match avl_id_to_node (if from_the_left then right_id (m x)
                                    else left_id (m x)) with
              | None => (m, t, false)
              | Some z =>
                  let absorbed := balance (m z) =? 0 in
                  let '(m, str) :=
                    if from_the_left then
                      if 0 <=? balance (m z) then avl_rotate_left m x z
                      else avl_rotate_right_left m x z
                    else
                      if balance (m z) <=? 0 then avl_rotate_right m x z
                      else avl_rotate_left_right m x z in
                  let '(m, t, from_the_left) :=
                    reconnect m t x_parent x_parent_id x_id str in
                  match x_parent with
                  | None => (m, t, true)
                  | Some _ =>
                      if absorbed then (m, t, true)
                      else delete_retrace i m t x_parent x_parent_id from_the_left
                  end
              end
      end
  end.

Definition avl_tree_delete (m : mem) (t : avl_tree) (node : Z) : mem * avl_tree :=
  if is_orphan (m node) then
    let '(m, t) := remove_orphan m t node in
    (set_is_orphan node false m, t)
  else
    let t := delete_update_cache m t node in
    match delete_unlink m t node with
    | (m, t, None) => (m, t)
    | (m, t, Some (x, x_id, from_the_left)) =>
        match delete_retrace MAX_AVL_HEIGHT m t x x_id from_the_left with
        | (m, t, false) => (m, t)
        | (m, t, true) =>
            match pop_first_orphan m t with
            | (m, t, None) => (m, t)
            | (m, t, Some o) => avl_tree_insert m t o
            end
        end
    end.

Definition avl_tree_pop_min (m : mem) (t : avl_tree) : mem * avl_tree * option Z :=
  let min := avl_tree_min t in
  match min with
  | Some n => (avl_tree_delete m t n, min)
  | None => (m, t, min)
  end.

Definition avl_tree_pop_max (m : mem) (t : avl_tree) : mem * avl_tree * option Z :=
  let max := avl_tree_max t in
  match max with
  | Some n => (avl_tree_delete m t n, max)
  | None => (m, t, max)
  end.

End ops.
