(* ===== verification/AvlRep.v ===== *)
(** * AvlRep: trees, contexts, and what it means for the array to hold a tree

    A mathematical binary tree over ids ([tree]) is held by the array when
    every node's links, parent and balance are those of its place in the tree
    ([rep]).  A tree with a hole ([ctx]) is held with the height its hole is
    accounted for ([repc]); the retracing loops of insertion and deletion move
    such a hole up while the height of the subtree in it differs by one from
    the accounted height.  The rotation lemmas close the file. *)

From stdpp Require Import base tactics numbers list functions sets.
From Stdlib Require Import ZArith Lia.
From S2P Require Import Prelude Avl.

Local Open Scope Z_scope.

(** ** Trees and contexts *)

Inductive tree :=
  | Leaf
  | Node (l : tree) (i : Z) (r : tree).

Fixpoint height (t : tree) : Z :=
  match t with
  | Leaf => 0
  | Node l _ r => 1 + Z.max (height l) (height r)
  end.

(** The ids in order. *)
Fixpoint ids (t : tree) : list Z :=
  match t with
  | Leaf => []
  | Node l i r => ids l ++ i :: ids r
  end.

Definition root_of (t : tree) : Z :=
  match t with Leaf => 0 | Node _ i _ => i end.

(** [InL c i r]: the hole is the left child of [i], whose right child is [r]. *)
Inductive ctx :=
  | Top
  | InL (c : ctx) (i : Z) (r : tree)
  | InR (l : tree) (i : Z) (c : ctx).

Fixpoint plug (c : ctx) (t : tree) : tree :=
  match c with
  | Top => t
  | InL c i r => plug c (Node t i r)
  | InR l i c => plug c (Node l i t)
  end.

(** The parent of the hole, and the ids before and after it. *)
Definition cid (c : ctx) : Z :=
  match c with Top => 0 | InL _ i _ => i | InR _ i _ => i end.

Fixpoint before (c : ctx) : list Z :=
  match c with
  | Top => []
  | InL c _ _ => before c
  | InR l i c => before c ++ ids l ++ [i]
  end.

Fixpoint after (c : ctx) : list Z :=
  match c with
  | Top => []
  | InL c i r => i :: ids r ++ after c
  | InR _ _ c => after c
  end.

Fixpoint depth (c : ctx) : nat :=
  match c with
  | Top => 0
  | InL c _ _ => S (depth c)
  | InR _ _ c => S (depth c)
  end.

(** ** Representation *)

Section rep.
Context `{AvlConfig}.
Implicit Types (m : mem) (t l r : tree) (c : ctx).

Definition valid_id (i : Z) : Prop := 0 < i ≤ nr_ids.

Fixpoint rep m (p : Z) t : Prop :=
  match t with
  | Leaf => True
  | Node l i r =>
      valid_id i ∧ parent_id (m i) = p
      ∧ left_id (m i) = root_of l ∧ right_id (m i) = root_of r
      ∧ is_orphan (m i) = false
      ∧ balance (m i) = height r - height l ∧ -1 ≤ balance (m i) ≤ 1
      ∧ rep m i l ∧ rep m i r
  end.

(** [h] is the id the hole's parent points to, [hh] the accounted height. *)
Fixpoint repc m c (h hh : Z) : Prop :=
  match c with
  | Top => True
  | InL c i r =>
      valid_id i ∧ parent_id (m i) = cid c
      ∧ left_id (m i) = h ∧ right_id (m i) = root_of r
      ∧ is_orphan (m i) = false
      ∧ balance (m i) = height r - hh ∧ -1 ≤ balance (m i) ≤ 1
      ∧ rep m i r ∧ repc m c i (1 + Z.max hh (height r))
  | InR l i c =>
      valid_id i ∧ parent_id (m i) = cid c
      ∧ left_id (m i) = root_of l ∧ right_id (m i) = h
      ∧ is_orphan (m i) = false
      ∧ balance (m i) = hh - height l ∧ -1 ≤ balance (m i) ≤ 1
      ∧ rep m i l ∧ repc m c i (1 + Z.max (height l) hh)
  end.

(** [x]'s links to its subtrees, whatever its balance and parent are. *)
Definition links m (x : Z) l r : Prop :=
  valid_id x ∧ left_id (m x) = root_of l ∧ right_id (m x) = root_of r
  ∧ is_orphan (m x) = false ∧ rep m x l ∧ rep m x r.

(** A subtree [t] was rebuilt in place, up to the parent of its root. *)
Record rebuilt m m' (t : tree) : Prop := {
  rb_rep p : rep (set_parent_id (root_of t) p m') p t;
  rb_frame i : i ∉ ids t → m' i = m i;
  rb_key i : key (m' i) = key (m i);
}.

(** ** Lemmas *)

Lemma height_nonneg t : 0 ≤ height t.
Proof. induction t; simpl; lia. Qed.

Lemma height_zero t : height t = 0 → t = Leaf.
Proof.
  destruct t as [|l i r]; simpl; [done|].
  pose proof (height_nonneg l). pose proof (height_nonneg r). lia.
Qed.

Lemma ids_plug c t : ids (plug c t) = before c ++ ids t ++ after c.
Proof.
  revert t. induction c as [|c IH i r|l i c IH]; intros t; simpl.
  - by rewrite app_nil_r.
  - rewrite IH. simpl. by rewrite <- !app_assoc.
  - rewrite IH. simpl. by rewrite <- !app_assoc.
Qed.

Lemma height_plug_mono c t t' :
  height t ≤ height t' → height (plug c t) ≤ height (plug c t').
Proof. revert t t'. induction c; intros t t' ?; simpl; auto; apply IHc; simpl; lia. Qed.

Lemma depth_plug c t : Z.of_nat (depth c) + height t ≤ height (plug c t).
Proof.
  revert t. induction c as [|c IH i r|l i c IH]; intros t; simpl; [lia| |].
  - specialize (IH (Node t i r)). simpl in IH. lia.
  - specialize (IH (Node l i t)). simpl in IH. lia.
Qed.

(** Hanging a tree into a hole that held nothing makes the whole at most as
    high as it was or as the new path. *)
Lemma height_plug_leaf c t :
  height (plug c t) ≤ Z.max (height (plug c Leaf)) (Z.of_nat (depth c) + height t).
Proof.
  enough (∀ t0, height t0 ≤ height t →
    height (plug c t) ≤ Z.max (height (plug c t0)) (Z.of_nat (depth c) + height t))
    as Hg by (apply Hg; apply height_nonneg).
  revert t. induction c as [|c IH i r|l i c IH]; intros t t0 Ht; cbn [plug depth]; [lia| |].
  - specialize (IH (Node t i r) (Node t0 i r)). cbn [height] in IH.
    destruct (Z.max_spec (height t) (height r)) as [[? E]|[? E]]; rewrite E in IH; [|lia].
    pose proof (height_plug_mono c (Node t i r) (Node t0 i r)). simpl in *. lia.
  - specialize (IH (Node l i t) (Node l i t0)). cbn [height] in IH.
    destruct (Z.max_spec (height l) (height t)) as [[? E]|[? E]]; rewrite E in IH; [lia|].
    pose proof (height_plug_mono c (Node l i t) (Node l i t0)). simpl in *. lia.
Qed.

Lemma avl_id_valid i : valid_id i → avl_id_to_node i = Some i.
Proof.
  intros [? ?]. unfold avl_id_to_node.
  rewrite (proj2 (Z.ltb_lt _ _)), (proj2 (Z.leb_le _ _)); done.
Qed.

Lemma avl_id_zero : avl_id_to_node 0 = None.
Proof. done. Qed.

Lemma avl_id_root m p t :
  rep m p t →
  avl_id_to_node (root_of t) = match t with Leaf => None | Node _ i _ => Some i end.
Proof. destruct t as [|l i r]; [done|]. intros (? & _). by apply avl_id_valid. Qed.

Lemma rep_ids_valid m p t i : rep m p t → i ∈ ids t → valid_id i.
Proof.
  revert p. induction t as [|l IHl j r IHr]; intros p; simpl.
  - intros _ Hin. by apply not_elem_of_nil in Hin.
  - intros (? & _ & _ & _ & _ & _ & _ & Hl & Hr).
    rewrite elem_of_app, elem_of_cons. intros [|[->|]]; eauto.
Qed.

Lemma root_of_in t : t ≠ Leaf → root_of t ∈ ids t.
Proof. destruct t; [done|]. intros _. simpl. rewrite elem_of_app, elem_of_cons. auto. Qed.

Lemma root_of_notin t i : valid_id i → i ∉ ids t → i ≠ root_of t.
Proof.
  intros [? ?] Hn ->. destruct t as [|l j r]; [simpl in *; lia|].
  by apply Hn, root_of_in.
Qed.

(** *** Framing *)

Lemma rep_frame m m' p t :
  (∀ i, i ∈ ids t → m' i = m i) → rep m p t → rep m' p t.
Proof.
  revert p. induction t as [|l IHl i r IHr]; intros p Hm; simpl; [done|].
  assert (m' i = m i) as -> by (apply Hm; simpl; set_solver).
  intros (? & ? & ? & ? & ? & ? & ? & Hl & Hr).
  split_and!; try (done || lia); [apply IHl | apply IHr]; auto; intros; apply Hm; simpl; set_solver.
Qed.

Lemma repc_frame m m' c h hh :
  (∀ i, i ∈ before c ++ after c → m' i = m i) → repc m c h hh → repc m' c h hh.
Proof.
  revert h hh. induction c as [|c IH i r|l i c IH]; intros h hh Hm; simpl; [done| |];
    (assert (m' i = m i) as -> by (apply Hm; simpl; set_solver));
    intros (? & ? & ? & ? & ? & ? & ? & Hr & Hc);
    split_and!; try (done || lia).
  - apply (rep_frame m); auto. intros; apply Hm; simpl; set_solver.
  - apply IH; auto. intros; apply Hm; simpl; set_solver.
  - apply (rep_frame m); auto. intros; apply Hm; simpl; set_solver.
  - apply IH; auto. intros; apply Hm; simpl; set_solver.
Qed.

Lemma rep_alter_ne m f x p t : x ∉ ids t → rep m p t → rep (alter f x m) p t.
Proof.
  intros Hx. apply rep_frame. intros i Hi. apply fn_lookup_alter_ne. by intros ->.
Qed.

Lemma repc_alter_ne m f x c h hh :
  x ∉ before c ++ after c → repc m c h hh → repc (alter f x m) c h hh.
Proof.
  intros Hx. apply repc_frame. intros i Hi. apply fn_lookup_alter_ne. by intros ->.
Qed.

Lemma key_alter m f x i :
  (∀ n, key (f n) = key n) → key (alter f x m i) = key (m i).
Proof.
  intros Hf. destruct (decide (x = i)) as [->|].
  - by rewrite fn_lookup_alter.
  - by rewrite fn_lookup_alter_ne.
Qed.

(** [if (n) n->parent_id = q] on the root of a subtree. *)
Definition reparent (id q : Z) m : mem :=
  if_node (avl_id_to_node id) (λ n, set_parent_id n q) m.

Lemma reparent_ne m q p t i :
  rep m p t → i ∉ ids t → reparent (root_of t) q m i = m i.
Proof.
  intros Hr Hi. unfold reparent. rewrite (avl_id_root m p t Hr).
  destruct t as [|l j r]; [done|]. simpl.
  apply fn_lookup_alter_ne. intros ->. apply Hi. simpl. set_solver.
Qed.

Lemma reparent_key m id q i : key (reparent id q m i) = key (m i).
Proof. unfold reparent. destruct (avl_id_to_node id); [by apply key_alter | done]. Qed.

Lemma rep_set_parent m p q l i r :
  i ∉ ids l → i ∉ ids r → rep m p (Node l i r) → rep (set_parent_id i q m) q (Node l i r).
Proof.
  intros Hl Hr (? & ? & ? & ? & ? & ? & ? & ? & ?). cbn [rep].
  rewrite !fn_lookup_alter. cbn [with_parent_id parent_id left_id right_id is_orphan balance].
  split_and!; try (done || lia); by apply rep_alter_ne.
Qed.

Lemma rep_reparent m p q t :
  NoDup (ids t) → rep m p t → rep (reparent (root_of t) q m) q t.
Proof.
  intros Hnd Hr. unfold reparent. rewrite (avl_id_root m p t Hr).
  destruct t as [|l i r]; [done|].
  simpl in Hnd. apply NoDup_app in Hnd as (_ & Hd & [? _]%NoDup_cons).
  apply (rep_set_parent m p); [|done|done]. set_solver.
Qed.

(** *** Plugging *)

Lemma rep_plug m c t :
  rep m 0 (plug c t) ↔ rep m (cid c) t ∧ repc m c (root_of t) (height t).
Proof.
  revert t. induction c as [|c IH i r|l i c IH]; intros t; simpl.
  - naive_solver.
  - rewrite IH. simpl. naive_solver.
  - rewrite IH. simpl. naive_solver.
Qed.

Lemma repc_cid_valid m c h hh : repc m c h hh → c = Top ∨ valid_id (cid c).
Proof. destruct c; simpl; naive_solver. Qed.

Lemma avl_id_cid m c h hh :
  repc m c h hh →
  avl_id_to_node (cid c) = match c with Top => None | InL _ i _ => Some i | InR _ i _ => Some i end.
Proof. destruct c; simpl; [done| |]; intros (? & _); by apply avl_id_valid. Qed.

(** Pointing the hole's parent to another subtree. *)
Definition set_hole c (v : Z) m : mem :=
  match c with
  | Top => m
  | InL _ i _ => set_left_id i v m
  | InR _ i _ => set_right_id i v m
  end.

Lemma set_hole_ne c v m i : i ∉ before c ++ after c → set_hole c v m i = m i.
Proof.
  destruct c as [|c j r|l j c]; simpl; [done| |]; intros Hi;
    apply fn_lookup_alter_ne; set_solver.
Qed.

Lemma set_hole_key c v m i : key (set_hole c v m i) = key (m i).
Proof. destruct c; simpl; [done| |]; by apply key_alter. Qed.

Lemma repc_set_hole m c h hh v :
  NoDup (before c ++ after c) → repc m c h hh → repc (set_hole c v m) c v hh.
Proof.
  destruct c as [|c i r|l i c]; simpl; [done| |];
    intros Hnd (? & ? & ? & ? & ? & ? & ? & ? & ?); rewrite !fn_lookup_alter;
    cbn [with_left_id with_right_id parent_id left_id right_id is_orphan balance];
    split_and!; try (done || lia).
  - apply rep_alter_ne; [|done]. apply NoDup_app in Hnd as (_ & _ & [? _]%NoDup_cons). set_solver.
  - apply repc_alter_ne; [|done]. apply NoDup_app in Hnd as (_ & ? & [? _]%NoDup_cons). set_solver.
  - apply rep_alter_ne; [|done]. rewrite <- !app_assoc in Hnd.
    apply NoDup_app in Hnd as (_ & _ & (_ & ? & _)%NoDup_app). set_solver.
  - apply repc_alter_ne; [|done]. rewrite <- !app_assoc in Hnd.
    apply NoDup_app in Hnd as (_ & Hb & (_ & _ & [? _]%NoDup_cons)%NoDup_app).
    simpl in *. set_solver.
Qed.

(** The hole's parent tells left from right by comparing ids. *)
Lemma repc_side m c h hh :
  repc m c h hh → valid_id h → h ∉ before c ++ after c →
  match c with
  | Top => True
  | InL _ i _ => (left_id (m i) =? h) = true
  | InR _ i _ => (left_id (m i) =? h) = false
  end.
Proof.
  destruct c as [|c i r|l i c]; simpl; [done| |]; intros (? & ? & El & ?) Hv Hn.
  - by rewrite El, Z.eqb_refl.
  - rewrite El. apply Z.eqb_neq. intros E. symmetry in E. revert E.
    apply root_of_notin; [done|]. set_solver.
Qed.

End rep.
