(* ===== verification/AvlInsert.v ===== *)
(** * AvlInsert: the four rotations rebuild a balanced subtree in place

    Each lemma takes the subtree as the rotation's picture in avl.bpf.h draws
    it, with one side two levels deeper, and shows that the rotation leaves a
    balanced subtree with the same ids in the same order, balances included.

    Reconnecting a rotated subtree, and the retrace of insertion. *)

From stdpp Require Import base tactics numbers list functions sets.
From Stdlib Require Import ZArith Lia.
From S2P Require Import Prelude Avl AvlRep.

Local Open Scope Z_scope.

(** [mread] evaluates reads of the array after assignments. *)
Ltac mread :=
  repeat first
    [ rewrite fn_lookup_alter
    | rewrite fn_lookup_alter_ne by sep
    | erewrite reparent_ne by first [eassumption | sep] ];
  cbn [with_left_id with_right_id with_parent_id with_balance with_is_orphan
       with_prev_orphan_id with_next_orphan_id
       key left_id right_id parent_id balance is_orphan
       prev_orphan_id next_orphan_id].

(** [mkeep] shows that a subtree the assignments do not touch is still held. *)
Ltac mkeep :=
  repeat first
    [ eassumption
    | apply rep_alter_ne; [sep|]
    | eapply rep_frame; [intros; eapply reparent_ne; [eassumption | sep] |] ].

(** The three parts of [rebuilt] after a rotation, by evaluation. *)
Ltac rot_rep :=
  intros p; cbn [root_of rep]; mread; cbn [height];
  split_and!; try (done || lia); try (mread; done || lia); mkeep.
Ltac rot_frame :=
  let i := fresh in let Hi := fresh in
  intros i Hi; simpl in Hi; nodup; mread; done.
Ltac rot_key :=
  intros; repeat first [rewrite key_alter by done | rewrite reparent_key]; done.

Section rotate.
Context `{AvlConfig}.
Implicit Types (m : mem).

Lemma rotate_right_ok m x z t1 t23 t4 :
  NoDup (ids (Node (Node t1 z t23) x t4)) →
  links m x (Node t1 z t23) t4 →
  height t1 = height t4 + 1 →
  height t4 ≤ height t23 ≤ height t4 + 1 →
  rebuilt m (avl_rotate_right m x z).1 (Node t1 z (Node t23 x t4))
  ∧ (avl_rotate_right m x z).2 = z.
Proof.
  intros Hnd (Vx & Lx & Rx & Ox & (Vz & Pz & Lz & Rz & Oz & Bz & Bz' & R1 & R23) & R4) H1 H23.
  split; [|done]. simpl in Hnd. nodup.
  unfold avl_rotate_right. cbn [avl_node_to_id fst]. rewrite Rz.
  fold (reparent (root_of t23) x (set_left_id x (root_of t23) m)).
  assert (rep (set_left_id x (root_of t23) m) z t23) as R23' by mkeep.
  pose proof (rep_reparent _ z x t23 ltac:(done) R23') as R23x.
  assert (x ≠ z) by sep. assert (z ≠ x) by sep.
  match goal with |- context [balance (?m' z) =? 0] =>
    assert (balance (m' z) = height t23 - height t1) as -> by (mread; done) end.
  destruct (Z.eqb_spec (height t23 - height t1) 0); (split; [rot_rep|rot_frame|rot_key]).
Qed.

Lemma rotate_left_ok m x z t1 t23 t4 :
  NoDup (ids (Node t1 x (Node t23 z t4))) →
  links m x t1 (Node t23 z t4) →
  height t4 = height t1 + 1 →
  height t1 ≤ height t23 ≤ height t1 + 1 →
  rebuilt m (avl_rotate_left m x z).1 (Node (Node t1 x t23) z t4)
  ∧ (avl_rotate_left m x z).2 = z.
Proof.
  intros Hnd (Vx & Lx & Rx & Ox & R1 & (Vz & Pz & Lz & Rz & Oz & Bz & Bz' & R23 & R4)) H1 H23.
  split; [|done]. simpl in Hnd. nodup.
  unfold avl_rotate_left. cbn [avl_node_to_id fst]. rewrite Lz.
  fold (reparent (root_of t23) x (set_right_id x (root_of t23) m)).
  assert (rep (set_right_id x (root_of t23) m) z t23) as R23' by mkeep.
  pose proof (rep_reparent _ z x t23 ltac:(done) R23') as R23x.
  assert (x ≠ z) by sep. assert (z ≠ x) by sep.
  match goal with |- context [balance (?m' z) =? 0] =>
    assert (balance (m' z) = height t4 - height t23) as -> by (mread; done) end.
  destruct (Z.eqb_spec (height t4 - height t23) 0); (split; [rot_rep|rot_frame|rot_key]).
Qed.

Lemma rotate_right_left_ok m x z y t1 t2 t3 t4 :
  NoDup (ids (Node t1 x (Node (Node t2 y t3) z t4))) →
  links m x t1 (Node (Node t2 y t3) z t4) →
  height t4 = height t1 → 1 + Z.max (height t2) (height t3) = height t1 + 1 →
  rebuilt m (avl_rotate_right_left m x z).1 (Node (Node t1 x t2) y (Node t3 z t4))
  ∧ (avl_rotate_right_left m x z).2 = y.
Proof.
  intros Hnd (Vx & Lx & Rx & Ox & R1 & (Vz & Pz & Lz & Rz & Oz & Bz & Bz' &
    (Vy & Py & Ly & Ry & Oy & By & By' & R2 & R3) & R4)) H4 H23.
  simpl in Hnd. nodup.
  unfold avl_rotate_right_left. rewrite Lz. cbn [root_of].
  rewrite (avl_id_valid y Vy). cbn [avl_node_to_id fst snd]. split; [|done].
  rewrite Ly, Ry.
  assert (x ≠ z) by sep. assert (z ≠ x) by sep. assert (x ≠ y) by sep.
  assert (y ≠ x) by sep. assert (y ≠ z) by sep. assert (z ≠ y) by sep.
  match goal with |- context [if_node (avl_id_to_node (root_of t2)) _ ?m2] =>
    fold (reparent (root_of t2) x m2); assert (rep m2 y t2) as R2' by mkeep;
    pose proof (rep_reparent _ y x t2 ltac:(done) R2') as R2x end.
  match goal with |- context [if_node (avl_id_to_node (root_of t3)) _ ?m3] =>
    fold (reparent (root_of t3) z m3); assert (rep m3 y t3) as R3' by mkeep;
    pose proof (rep_reparent _ y z t3 ltac:(done) R3') as R3z end.
  match goal with |- context [balance (?m' y) =? 0] =>
    assert (balance (m' y) = height t3 - height t2) as -> by (mread; done) end.
  destruct (Z.eqb_spec (height t3 - height t2) 0);
    [|destruct (Z.ltb_spec 0 (height t3 - height t2))]; (split; [rot_rep|rot_frame|rot_key]).
Qed.

Lemma rotate_left_right_ok m x z y t1 t2 t3 t4 :
  NoDup (ids (Node (Node t1 z (Node t2 y t3)) x t4)) →
  links m x (Node t1 z (Node t2 y t3)) t4 →
  height t1 = height t4 → 1 + Z.max (height t2) (height t3) = height t4 + 1 →
  rebuilt m (avl_rotate_left_right m x z).1 (Node (Node t1 z t2) y (Node t3 x t4))
  ∧ (avl_rotate_left_right m x z).2 = y.
Proof.
  intros Hnd (Vx & Lx & Rx & Ox & (Vz & Pz & Lz & Rz & Oz & Bz & Bz' & R1 &
    (Vy & Py & Ly & Ry & Oy & By & By' & R2 & R3)) & R4) H4 H23.
  simpl in Hnd. nodup.
  unfold avl_rotate_left_right. rewrite Rz. cbn [root_of].
  rewrite (avl_id_valid y Vy). cbn [avl_node_to_id fst snd]. split; [|done].
  rewrite Ly, Ry.
  assert (x ≠ z) by sep. assert (z ≠ x) by sep. assert (x ≠ y) by sep.
  assert (y ≠ x) by sep. assert (y ≠ z) by sep. assert (z ≠ y) by sep.
  match goal with |- context [if_node (avl_id_to_node (root_of t2)) _ ?m2] =>
    fold (reparent (root_of t2) z m2); assert (rep m2 y t2) as R2' by mkeep;
    pose proof (rep_reparent _ y z t2 ltac:(done) R2') as R2z end.
  match goal with |- context [if_node (avl_id_to_node (root_of t3)) _ ?m3] =>
    fold (reparent (root_of t3) x m3); assert (rep m3 y t3) as R3' by mkeep;
    pose proof (rep_reparent _ y x t3 ltac:(done) R3') as R3x end.
  match goal with |- context [balance (?m' y) =? 0] =>
    assert (balance (m' y) = height t3 - height t2) as -> by (mread; done) end.
  destruct (Z.eqb_spec (height t3 - height t2) 0);
    [|destruct (Z.ltb_spec 0 (height t3 - height t2))]; (split; [rot_rep|rot_frame|rot_key]).
Qed.

End rotate.

(** ** Reconnecting a rotated subtree, and the retrace of insertion *)

(** The root of a plugged context whose hole holds a subtree rooted at [h]. *)
Fixpoint croot (c : ctx) (h : Z) : Z :=
  match c with
  | Top => h
  | InL c i _ => croot c i
  | InR _ i c => croot c i
  end.

Definition is_InL (c : ctx) : bool := match c with InL _ _ _ => true | _ => false end.

(** Root subtrees of unequal height. *)
Definition tilted (t : tree) : Prop :=
  match t with Leaf => False | Node l _ r => height l ≠ height r end.

(** [assoc] normalises appends to the right. *)
Ltac assoc := simpl; repeat (rewrite <- app_assoc; simpl).

Lemma nodup_mid (A B C : list Z) : NoDup (A ++ B ++ C) → NoDup B.
Proof. intros (_ & _ & (? & _ & _)%NoDup_app)%NoDup_app. done. Qed.

Section insert.
Context `{AvlConfig}.
Implicit Types (m : mem) (t : avl_tree) (T s : tree) (c : ctx).

(** The array and the header hold a balanced tree over [L], of height at most
    [h], that differs from the earlier ones only in the links of [L]. *)
Definition relinked m t m' t' (L : list Z) (h : Z) : Prop :=
  ∃ T, rep m' 0 T ∧ ids T = L ∧ height T ≤ h ∧ t' = set_root (root_of T) t
       ∧ (∀ i, i ∉ L → m' i = m i) ∧ (∀ i, key (m' i) = key (m i)).

Lemma root_plug c s : root_of (plug c s) = croot c (root_of s).
Proof. revert s. induction c; intros s; simpl; [done| |]; by rewrite IHc. Qed.

Lemma croot_indep c h h' : c ≠ Top → croot c h = croot c h'.
Proof. by destruct c. Qed.

Lemma set_root_same t : set_root (root t) t = t.
Proof. by destruct t. Qed.

Lemma set_root_set_root v w t : set_root v (set_root w t) = set_root v t.
Proof. done. Qed.

Lemma relinked_plug m t m' c s L h :
  rep m' (cid c) s → repc m' c (root_of s) (height s) →
  L = before c ++ ids s ++ after c → height (plug c s) ≤ h →
  root t = croot c (root_of s) →
  (∀ i, i ∉ L → m' i = m i) → (∀ i, key (m' i) = key (m i)) →
  relinked m t m' t L h.
Proof.
  intros Hs Hc -> Hh Hr Hf Hk. exists (plug c s).
  split_and!; try done.
  - by apply rep_plug.
  - apply ids_plug.
  - by rewrite root_plug, <- Hr, set_root_same.
Qed.

(** Composing an assignment or a loop iteration with the rest of the loop. *)
Lemma relinked_trans m m1 t m' t' L h h' :
  (∀ i, i ∉ L → m1 i = m i) → (∀ i, key (m1 i) = key (m i)) → h ≤ h' →
  relinked m1 t m' t' L h → relinked m t m' t' L h'.
Proof.
  intros Hf Hk Hh (T & ? & ? & ? & ? & Hf' & Hk').
  exists T. split_and!; try done; [lia|..].
  - intros i Hi. by rewrite Hf', Hf.
  - intros i. by rewrite Hk', Hk.
Qed.

Lemma relinked_root m t v m' t' L h :
  relinked m (set_root v t) m' t' L h → relinked m t m' t' L h.
Proof. intros (T & ? & ? & ? & -> & ?). by exists T. Qed.

(** *** Reconnecting *)

Lemma reconnect_ok m m' t c x T hh :
  NoDup (before c ++ ids T ++ after c) → T ≠ Leaf → valid_id x → x ∈ ids T →
  rebuilt m m' T → repc m c x hh → root t = croot c x →
  ∃ m2,
    reconnect m' t (avl_id_to_node (cid c)) (cid c) x (root_of T)
      = (m2, set_root (croot c (root_of T)) t, is_InL c)
    ∧ rep m2 (cid c) T ∧ repc m2 c (root_of T) hh
    ∧ (∀ i, i ∉ before c ++ ids T ++ after c → m2 i = m i)
    ∧ (∀ i, key (m2 i) = key (m i)).
Proof.
  intros Hnd HT Vx Hx [Hr Hf Hk] Hc Ht.
  pose proof (root_of_in T HT) as Hroot. nodup.
  set (m1 := set_parent_id (root_of T) (cid c) m').
  assert (∀ i, i ∉ ids T → m1 i = m i) as Hm1.
  { intros i Hi. unfold m1. rewrite fn_lookup_alter_ne by sep. by apply Hf. }
  assert (repc m1 c x hh) as Hc1.
  { apply (repc_frame m); [|done]. intros i Hi. apply Hm1.
    apply elem_of_app in Hi as [|]; sep. }
  assert (x ∉ before c ++ after c) as Hxc by (apply not_elem_of_app; split; sep).
  exists (set_hole c (root_of T) m1). split_and!.
  - unfold reconnect. cbn [avl_node_to_id]. rewrite (avl_id_cid m1 c x hh Hc1). fold m1.
    pose proof (repc_side m1 c x hh Hc1 Vx Hxc) as Hside.
    destruct c as [|c i r|l i c]; cbn [set_hole is_InL]; [done| |];
      rewrite Hside; rewrite (croot_indep _ (root_of T) x) by done; by rewrite <- Ht, set_root_same.
  - apply (rep_frame m1); [|apply Hr]. intros i Hi. apply set_hole_ne.
    apply not_elem_of_app; split; sep.
  - eapply repc_set_hole; [|done]. apply NoDup_app; split_and!; try done.
  - intros i Hi. nodup. rewrite set_hole_ne; [by apply Hm1|]. by apply not_elem_of_app.
  - intros i. rewrite set_hole_key. unfold m1. by rewrite key_alter, Hk.
Qed.

(** A rotation followed by reconnecting finishes a retrace. *)
Lemma reconnect_relinked m m' t c x T hh L h :
  NoDup L → L = before c ++ ids T ++ after c →
  T ≠ Leaf → valid_id x → x ∈ ids T →
  rebuilt m m' T → repc m c x hh → height T = hh → root t = croot c x →
  height (plug c T) ≤ h →
  ∃ m2 t2, reconnect m' t (avl_id_to_node (cid c)) (cid c) x (root_of T) = (m2, t2, is_InL c)
           ∧ relinked m t m2 t2 L h.
Proof.
  intros Hnd -> HT Vx Hx Hr Hc <- Ht Hh.
  destruct (reconnect_ok m m' t c x T (height T)) as (m2 & -> & Hr2 & Hc2 & Hf & Hk); try done.
  do 2 eexists. split; [done|].
  apply (relinked_root _ _ (croot c (root_of T))). by apply (relinked_plug _ _ _ c T).
Qed.

(** *** The retrace of insertion *)

(** One rotation of the retrace: the left (right) subtree grew to two more
    than its sibling. *)
Lemma rot_result m (res : mem * Z) T i :
  rebuilt m res.1 T ∧ res.2 = i → root_of T = i →
  ∃ m1, res = (m1, root_of T) ∧ rebuilt m m1 T.
Proof. destruct res as [m1 j]. intros [? <-] ->. eauto. Qed.

(** The height left over by a rotation is one more where [z] was even. *)
Lemma rotate_left_heavy m x s r :
  NoDup (ids (Node s x r)) → links m x s r → height s = height r + 2 →
  ∃ T, ids T = ids (Node s x r)
    ∧ height T = height r + (if balance (m (root_of s)) =? 0 then 3 else 2) ∧
    ∃ m1, (if balance (m (root_of s)) <=? 0 then avl_rotate_right m x (root_of s)
           else avl_rotate_left_right m x (root_of s)) = (m1, root_of T)
          ∧ rebuilt m m1 T.
Proof.
  intros Hnd Hl Hh. destruct s as [|sl z sr].
  { simpl in Hh. pose proof (height_nonneg r). lia. }
  pose proof Hl as (_ & _ & _ & _ & (_ & _ & _ & _ & _ & Bz & Bz' & _) & _).
  cbn [root_of height] in *.
  destruct (Z.leb_spec (balance (m z)) 0).
  - exists (Node sl z (Node sr x r)). split; [|split].
    + by assoc.
    + cbn [height]. zcase; lia.
    + eapply rot_result; [apply rotate_right_ok; try done; lia | done].
  - destruct sr as [|t2 y t3]; [simpl in *; pose proof (height_nonneg sl); lia|].
    exists (Node (Node sl z t2) y (Node t3 x r)). cbn [height] in *. split; [|split].
    + by assoc.
    + zcase; lia.
    + eapply rot_result; [apply rotate_left_right_ok; try done; lia | done].
Qed.

Lemma rotate_right_heavy m x l s :
  NoDup (ids (Node l x s)) → links m x l s → height s = height l + 2 →
  ∃ T, ids T = ids (Node l x s)
    ∧ height T = height l + (if balance (m (root_of s)) =? 0 then 3 else 2) ∧
    ∃ m1, (if 0 <=? balance (m (root_of s)) then avl_rotate_left m x (root_of s)
           else avl_rotate_right_left m x (root_of s)) = (m1, root_of T)
          ∧ rebuilt m m1 T.
Proof.
  intros Hnd Hl Hh. destruct s as [|sl z sr].
  { simpl in Hh. pose proof (height_nonneg l). lia. }
  pose proof Hl as (_ & _ & _ & _ & _ & (_ & _ & _ & _ & _ & Bz & Bz' & _)).
  cbn [root_of height] in *.
  destruct (Z.leb_spec 0 (balance (m z))).
  - exists (Node (Node l x sl) z sr). split; [|split].
    + by assoc.
    + cbn [height]. zcase; lia.
    + eapply rot_result; [apply rotate_left_ok; try done; lia | done].
  - destruct sl as [|t2 y t3]; [simpl in *; pose proof (height_nonneg sr); lia|].
    exists (Node (Node l x t2) y (Node t3 z sr)). cbn [height] in *. split; [|split].
    + by assoc.
    + zcase; lia.
    + eapply rot_result; [apply rotate_right_left_ok; try done; lia | done].
Qed.

(** A subtree that has just grown is not even at its root. *)
Lemma tilted_balance m p s : rep m p s → tilted s → (balance (m (root_of s)) =? 0) = false.
Proof.
  destruct s as [|l z r]; [done|]. intros (_ & _ & _ & _ & _ & B & _) Ht.
  simpl in *. apply Z.eqb_neq. lia.
Qed.

Lemma rep_set_balance m x l r p b :
  NoDup (ids (Node l x r)) → links m x l r → parent_id (m x) = p →
  b = height r - height l → -1 ≤ b ≤ 1 → rep (set_balance x b m) p (Node l x r).
Proof.
  intros Hnd (? & ? & ? & ? & ? & ?) ? -> ?. simpl in Hnd. nodup. cbn [rep].
  mread. split_and!; try (done || lia); mkeep.
Qed.

Lemma repc_set_balance m x b c h hh :
  x ∉ before c ++ after c → repc m c h hh → repc (set_balance x b m) c h hh.
Proof. apply repc_alter_ne. Qed.

Lemma set_balance_ne m x b i : i ≠ x → set_balance x b m i = m i.
Proof. intros. by apply fn_lookup_alter_ne. Qed.

(** Where the height change of the hole is absorbed by its parent [x]. *)
Lemma absorb_relinked m t c l x r b L h :
  NoDup L → L = before c ++ ids (Node l x r) ++ after c →
  links m x l r → parent_id (m x) = cid c →
  b = height r - height l → -1 ≤ b ≤ 1 →
  repc m c x (height (Node l x r)) → root t = croot c x → height (plug c (Node l x r)) ≤ h →
  relinked m t (set_balance x b m) t L h.
Proof.
  intros Hnd HL Hl Hp Hb Hb' Hc Ht Hh. rewrite HL in Hnd.
  pose proof (nodup_mid _ _ _ Hnd). simpl in Hnd. nodup.
  apply (relinked_plug _ _ _ c (Node l x r)); try done.
  - by apply rep_set_balance.
  - apply repc_alter_ne; [|done]. apply not_elem_of_app. split; sep.
  - intros i Hi. apply set_balance_ne. rewrite HL in Hi. simpl in Hi. nodup. done.
  - intros i. by apply key_alter.
Qed.

Lemma insert_retrace_ok i m t c s hh :
  NoDup (before c ++ ids s ++ after c) →
  rep m (cid c) s → repc m c (root_of s) hh → root t = croot c (root_of s) →
  s ≠ Leaf → height s = hh + 1 → (hh = 0 ∨ tilted s) → (depth c ≤ i)%nat →
  let '(m', t') := insert_retrace i m t (avl_id_to_node (cid c)) (cid c)
                     (root_of s) (root_of s) in
  relinked m t m' t' (before c ++ ids s ++ after c) (height (plug c s)).
Proof.
  revert i m s hh. induction c as [|c IH x r|l x c IH];
    intros i m s hh Hnd Hs Hc Ht Hne Hh Htilt Hd.
  - assert (insert_retrace i m t (avl_id_to_node (cid Top)) (cid Top) (root_of s) (root_of s)
            = (m, t)) as -> by (by destruct i).
    by apply (relinked_plug _ _ _ Top s).
  - destruct i as [|i]; [simpl in Hd; lia|].
    assert (before (InL c x r) ++ ids s ++ after (InL c x r)
            = before c ++ ids (Node s x r) ++ after c) as HL by (by assoc).
    rewrite HL in *. cbn [plug]. pose proof (nodup_mid _ _ _ Hnd) as Hnd'.
    cbn [insert_retrace]. rewrite (avl_id_cid _ _ _ _ Hc). cbn [cid].
    destruct Hc as (Vx & Px & Lx & Rx & Ox & Bx & Bx' & Hr & Hc).
    rewrite Lx, Z.eqb_refl, Bx. cbn [negb andb orb].
    assert (links m x s r) as Hl by done.
    assert (x ∉ before c ++ after c) as Hxc.
    { simpl in Hnd. nodup. apply not_elem_of_app. split; sep. }
    assert (x ∈ ids (Node s x r)) as Hx by (simpl; set_solver).
    destruct (Z.eqb_spec (height r - hh) 0).
    + set (m1 := set_balance x (-1) m).
      assert (parent_id (m1 x) = cid c) as -> by (unfold m1; mread; done).
      specialize (IH i m1 (Node s x r) (hh + 1)). cbn [root_of] in IH.
      destruct (insert_retrace i m1 t _ _ _ _) as [m' t'].
      eapply relinked_trans; [| |reflexivity|apply IH]; try done.
      * intros j Hj. apply set_balance_ne. intros ->. apply Hj. set_solver.
      * intros j. by apply key_alter.
      * apply rep_set_balance; try done; simpl in *; lia.
      * apply repc_alter_ne; [done|].
        replace (hh + 1) with (1 + Z.max hh (height r)) by lia. done.
      * simpl. lia.
      * right. simpl. lia.
      * simpl in Hd. lia.
    + destruct (Z.ltb_spec 0 (height r - hh)); cbn [orb].
      * eapply (absorb_relinked _ _ c s x r); try done; try lia.
        replace (height (Node s x r)) with (1 + Z.max hh (height r)) by (simpl; lia).
        done.
      * destruct (rotate_left_heavy m x s r) as (T & HT & HhT & m1 & Erot & Hreb); try done; [lia|].
        assert (tilted s) as Ht' by (destruct Htilt; [pose proof (height_nonneg r); lia|done]).
        rewrite (tilted_balance m x s) in HhT by done.
        rewrite Px. rewrite Erot, <- HT in *.
        assert (T ≠ Leaf) as HTne by (intros ->; simpl in *; pose proof (height_nonneg r); lia).
        destruct (reconnect_relinked m m1 t c x T (1 + Z.max hh (height r))
          (before c ++ ids T ++ after c) (height (plug c (Node s x r)))) as (m2 & t2 & -> & Hres);
          try done; [lia|].
        apply height_plug_mono. simpl. lia.
  - destruct i as [|i]; [simpl in Hd; lia|].
    assert (before (InR l x c) ++ ids s ++ after (InR l x c)
            = before c ++ ids (Node l x s) ++ after c) as HL by (by assoc).
    rewrite HL in *. cbn [plug]. pose proof (nodup_mid _ _ _ Hnd) as Hnd'.
    cbn [insert_retrace]. rewrite (avl_id_cid _ _ _ _ Hc). cbn [cid].
    destruct Hc as (Vx & Px & Lx & Rx & Ox & Bx & Bx' & Hr & Hc).
    assert ((left_id (m x) =? root_of s) = false) as ->.
    { rewrite Lx. apply Z.eqb_neq, not_eq_sym, root_of_notin.
      - apply (rep_ids_valid m x s); [done|]. by apply root_of_in.
      - pose proof (root_of_in s Hne). simpl in Hnd'. nodup. sep. }
    rewrite Bx. cbn [negb andb orb].
    assert (links m x l s) as Hl by done.
    assert (x ∉ before c ++ after c) as Hxc.
    { simpl in Hnd. nodup. apply not_elem_of_app. split; sep. }
    assert (x ∈ ids (Node l x s)) as Hx by (simpl; set_solver).
    destruct (Z.eqb_spec (hh - height l) 0).
    + set (m1 := set_balance x (1) m).
      assert (parent_id (m1 x) = cid c) as -> by (unfold m1; mread; done).
      specialize (IH i m1 (Node l x s) (hh + 1)). cbn [root_of] in IH.
      destruct (insert_retrace i m1 t _ _ _ _) as [m' t'].
      eapply relinked_trans; [| |reflexivity|apply IH]; try done.
      * intros j Hj. apply set_balance_ne. intros ->. apply Hj. set_solver.
      * intros j. by apply key_alter.
      * apply rep_set_balance; try done; simpl in *; lia.
      * apply repc_alter_ne; [done|].
        replace (hh + 1) with (1 + Z.max (height l) hh) by lia. done.
      * simpl. lia.
      * right. simpl. lia.
      * simpl in Hd. lia.
    + destruct (Z.ltb_spec (hh - height l) 0); cbn [orb].
      * eapply (absorb_relinked _ _ c l x s); try done; try lia.
        replace (height (Node l x s)) with (1 + Z.max (height l) hh) by (simpl; lia).
        done.
      * destruct (rotate_right_heavy m x l s) as (T & HT & HhT & m1 & Erot & Hreb); try done; [lia|].
        assert (tilted s) as Ht' by (destruct Htilt; [pose proof (height_nonneg l); lia|done]).
        rewrite (tilted_balance m x s) in HhT by done.
        rewrite Px. rewrite Erot, <- HT in *.
        assert (T ≠ Leaf) as HTne by (intros ->; simpl in *; pose proof (height_nonneg l); lia).
        destruct (reconnect_relinked m m1 t c x T (1 + Z.max (height l) hh)
          (before c ++ ids T ++ after c) (height (plug c (Node l x s)))) as (m2 & t2 & -> & Hres);
          try done; [lia|].
        apply height_plug_mono. simpl. lia.
Qed.

End insert.
