(* ===== verification/AvlInv.v ===== *)
(** * AvlInv: the invariant of an AVL tree, and the sets it stands for

    A well-formed header stands for two lists of ids: the members in key order
    and the orphans, newest first.  [ord_insert] is the specification of where
    a new member goes: behind every member whose key is not larger. *)

From stdpp Require Import base tactics numbers list functions sets sorting.
From Stdlib Require Import ZArith Lia.
From S2P Require Import Prelude Avl AvlRep AvlInsert.

Local Open Scope Z_scope.

(** ** Specification *)

Fixpoint ord_insert (k : Z → Z) (n : Z) (l : list Z) : list Z :=
  match l with
  | [] => [n]
  | x :: l' => if k n <? k x then n :: x :: l' else x :: ord_insert k n l'
  end.

Definition sorted_by (k : Z → Z) (l : list Z) : Prop :=
  StronglySorted (λ i j, k i ≤ k j) l.

(** The least number of nodes of an AVL tree of height [h]. *)
Fixpoint min_size (h : nat) : Z :=
  match h with
  | O => 0
  | S h' => match h' with O => 1 | S h'' => 1 + min_size h' + min_size h'' end
  end.

Section inv.
Context `{AvlConfig}.
Implicit Types (m : mem) (t : avl_tree) (T s : tree) (c : ctx) (L O : list Z).

(** The orphan list of [m]. *)
Definition olist m O : Prop :=
  Forall (λ i, valid_id i ∧ is_orphan (m i) = true) O
  ∧ dseg (λ i, prev_orphan_id (m i)) (λ i, next_orphan_id (m i)) 0 O 0.

Record avl_wf m t T O : Prop := {
  wf_rep : rep m 0 T;
  wf_root : root t = root_of T;
  wf_nodup : NoDup (ids T ++ O);
  wf_sorted : sorted_by (λ i, key (m i)) (ids T);
  wf_height : height T ≤ Z.of_nat MAX_AVL_HEIGHT;
  wf_min : min_id t = List.hd 0 (ids T);
  wf_min_key : ids T ≠ [] → min_key t = key (m (List.hd 0 (ids T)));
  wf_max : max_id t = List.last (ids T) 0;
  wf_max_key : ids T ≠ [] → max_key t = key (m (List.last (ids T) 0));
  wf_orphans : olist m O;
  wf_first_orphan : first_orphan_id t = List.hd 0 O;
}.

(** The header [t] over the array [m] stands for members [L] and orphans [O]. *)
Definition avl_abs m t L O : Prop := ∃ T, avl_wf m t T O ∧ ids T = L.

(** ** Lemmas *)

Lemma ord_insert_perm k n L : ord_insert k n L ≡ₚ n :: L.
Proof.
  induction L as [|x L IH]; simpl; [done|]. destruct (k n <? k x); [done|].
  by rewrite IH, Permutation_swap.
Qed.

Lemma ord_insert_split k n A B :
  Forall (λ i, k i ≤ k n) A → Forall (λ i, k n < k i) B →
  ord_insert k n (A ++ B) = A ++ n :: B.
Proof.
  intros HA HB. induction HA as [|x A ? ? IH]; simpl.
  - destruct HB as [|x B ? ?]; simpl; [done|]. by rewrite (proj2 (Z.ltb_lt _ _)).
  - rewrite (proj2 (Z.ltb_ge _ _)) by lia. by rewrite IH.
Qed.

Lemma ord_insert_ext k k' n L : (∀ i, k' i = k i) → ord_insert k' n L = ord_insert k n L.
Proof. intros E. induction L as [|x L IH]; simpl; [done|]. by rewrite !E, IH. Qed.

Lemma sorted_by_app k A B :
  sorted_by k (A ++ B) ↔
  sorted_by k A ∧ sorted_by k B ∧ ∀ i j, i ∈ A → j ∈ B → k i ≤ k j.
Proof.
  unfold sorted_by. induction A as [|x A IH]; simpl.
  - split; [intros; split_and!; [constructor|done|set_solver]|naive_solver].
  - split.
    + intros [(? & ? & ?)%IH Hx]%StronglySorted_inv.
      apply Forall_app in Hx as [? HB]. rewrite Forall_forall in HB.
      split_and!; [by constructor|done|]. intros i j [->|]%elem_of_cons ?; [|by eauto].
      by apply HB.
    + intros ([? ?]%StronglySorted_inv & ? & Hij). constructor.
      * apply IH. split_and!; [done|done|]. intros. apply Hij; [by right|done].
      * apply Forall_app. split; [done|]. apply Forall_forall. intros. apply Hij; [by left|done].
Qed.

Lemma sorted_by_cons k x A :
  sorted_by k (x :: A) ↔ sorted_by k A ∧ ∀ j, j ∈ A → k x ≤ k j.
Proof.
  unfold sorted_by. split.
  - intros [? Hx]%StronglySorted_inv. rewrite Forall_forall in Hx. done.
  - intros [? Hx]. constructor; [done|]. by apply Forall_forall.
Qed.

Lemma sorted_by_ext k k' L : (∀ i, k' i = k i) → sorted_by k L → sorted_by k' L.
Proof.
  intros E. unfold sorted_by. induction 1 as [|x A ? IH Hx]; constructor; [done|].
  eapply Forall_impl; [exact Hx|]. intros j. simpl. by rewrite !E.
Qed.

Lemma sorted_insert k n A B :
  sorted_by k (A ++ B) → Forall (λ i, k i ≤ k n) A → Forall (λ i, k n < k i) B →
  sorted_by k (A ++ n :: B).
Proof.
  rewrite !Forall_forall. intros (? & ? & Hij)%sorted_by_app HA HB.
  apply sorted_by_app. split_and!; [done| |].
  - apply sorted_by_cons. split; [done|]. intros j Hj. specialize (HB j Hj). simpl in HB. lia.
  - intros i j Hi [->|Hj]%elem_of_cons; [by apply HA|by apply Hij].
Qed.

Lemma sorted_delete k n A B : sorted_by k (A ++ n :: B) → sorted_by k (A ++ B).
Proof.
  intros (? & [? ?]%sorted_by_cons & Hij)%sorted_by_app.
  apply sorted_by_app. split_and!; [done|done|]. intros. apply Hij; [done|by right].
Qed.

(** A balanced tree of height [h] has at least [min_size h] nodes. *)
Lemma min_size_mono h : min_size h ≤ min_size (S h).
Proof.
  enough (0 ≤ min_size h ∧ 0 ≤ min_size (S h) ∧ min_size h ≤ min_size (S h)) by lia.
  induction h as [|h (? & ? & ?)]; [simpl; lia|].
  change (min_size (S (S h))) with (1 + min_size (S h) + min_size h). lia.
Qed.

Lemma min_size_step h : min_size (S (S h)) = 1 + min_size (S h) + min_size h.
Proof. done. Qed.

Lemma rep_min_size m p T :
  rep m p T → min_size (Z.to_nat (height T)) ≤ Z.of_nat (length (ids T)).
Proof.
  revert p. induction T as [|l IHl i r IHr]; intros p; [simpl; lia|].
  cbn [rep height ids]. intros (_ & _ & _ & _ & _ & Hb & Hb' & Hl%IHl & Hr%IHr).
  pose proof (height_nonneg l). pose proof (height_nonneg r).
  rewrite length_app. cbn [length].
  assert (min_size (Z.to_nat (1 + Z.max (height l) (height r)))
    ≤ 1 + min_size (Z.to_nat (height l)) + min_size (Z.to_nat (height r))) as Hs; [|lia].
  assert (height l = height r ∨ height l = height r + 1 ∨ height r = height l + 1)
    as [E|[E|E]] by lia; rewrite E.
  - rewrite Z.max_id, Z2Nat.inj_add by lia. change (Z.to_nat 1 + ?n)%nat with (S n).
    destruct (Z.to_nat (height r)) as [|h]; [simpl; lia|].
    rewrite min_size_step. pose proof (min_size_mono h). lia.
  - replace (1 + Z.max (height r + 1) (height r)) with (2 + height r) by lia.
    rewrite !Z2Nat.inj_add by lia. rewrite (Nat.add_comm _ (Z.to_nat 1)).
    change (Z.to_nat 2 + ?n)%nat with (S (S n)). change (Z.to_nat 1 + ?n)%nat with (S n).
    rewrite min_size_step. lia.
  - replace (1 + Z.max (height l) (height l + 1)) with (2 + height l) by lia.
    rewrite !Z2Nat.inj_add by lia. rewrite (Nat.add_comm _ (Z.to_nat 1)).
    change (Z.to_nat 2 + ?n)%nat with (S (S n)). change (Z.to_nat 1 + ?n)%nat with (S n).
    rewrite min_size_step. lia.
Qed.

Lemma min_size_le h h' : (h ≤ h')%nat → min_size h ≤ min_size h'.
Proof. induction 1; [lia|]. pose proof (min_size_mono m). lia. Qed.

(** *** The orphan list *)

Lemma olist_frame m m' O : (∀ i, i ∈ O → m' i = m i) → olist m O → olist m' O.
Proof.
  intros Hm [HF Hd]. split.
  - rewrite Forall_forall in HF |- *. intros i Hi. rewrite Hm by done. by apply HF.
  - eapply dseg_frame; [|done]. intros i Hi. by rewrite Hm.
Qed.

Lemma olist_orphan m O i : olist m O → i ∈ O → valid_id i ∧ is_orphan (m i) = true.
Proof. intros [HF _]. rewrite Forall_forall in HF. apply HF. Qed.

(** An end id of a segment of orphans, as a pointer. *)
Lemma orphan_hd m O : Forall (λ i, valid_id i ∧ is_orphan (m i) = true) O →
  avl_id_to_node (List.hd 0 O) = match O with [] => None | i :: _ => Some i end.
Proof. destruct 1 as [|i O [? _]]; [done|]. by apply avl_id_valid. Qed.

Lemma orphan_last m O : Forall (λ i, valid_id i ∧ is_orphan (m i) = true) O →
  avl_id_to_node (List.last O 0) = match O with [] => None | _ => Some (List.last O 0) end.
Proof.
  intros HF. destruct O as [|i O]; [done|]. apply avl_id_valid.
  rewrite Forall_forall in HF. apply HF, last_in. done.
Qed.

(** Assignments to the list links alone. *)
Definition orphan_links_only m m' (O : list Z) : Prop :=
  (∀ i, i ∉ O → m' i = m i)
  ∧ (∀ i, key (m' i) = key (m i) ∧ is_orphan (m' i) = is_orphan (m i)).

Lemma olo_refl m O : orphan_links_only m m O.
Proof. by split. Qed.

Lemma olo_alter m m' O f x :
  (∀ n, key (f n) = key n ∧ is_orphan (f n) = is_orphan n) → x ∈ O →
  orphan_links_only m m' O → orphan_links_only m (alter f x m') O.
Proof.
  intros Hf Hx [H1 H2]. split.
  - intros i Hi. rewrite fn_lookup_alter_ne by sep. by apply H1.
  - intros i. destruct (decide (x = i)) as [->|].
    + rewrite fn_lookup_alter. destruct (Hf (m' i)) as [-> ->]. apply H2.
    + rewrite fn_lookup_alter_ne by done. apply H2.
Qed.

Lemma olo_forall m m' O A :
  orphan_links_only m m' O →
  Forall (λ i, valid_id i ∧ is_orphan (m i) = true) A →
  Forall (λ i, valid_id i ∧ is_orphan (m' i) = true) A.
Proof.
  intros [_ Ho] HF. eapply Forall_impl; [exact HF|]. intros i [? ?]. split; [done|].
  by rewrite (proj2 (Ho i)).
Qed.

(** [olo] shows that a sequence of link assignments is one; [oread] evaluates
    the links of an element after them, splitting on which element it is. *)
Ltac olo :=
  repeat first
    [ apply olo_refl
    | apply olo_alter; [done | first [set_solver | apply elem_of_app; left; by apply last_in]|] ].
Ltac oread :=
  unfold alter, fn_alter; repeat case_decide; subst; simpl; try done; try congruence.

(** *** An orphan goes to the front of the list *)

Lemma insert_orphan_ok m t O n :
  olist m O → first_orphan_id t = List.hd 0 O → NoDup O →
  valid_id n → n ∉ O → is_orphan (m n) = true →
  let '(m', t') := insert_orphan m t n in
  olist m' (n :: O) ∧ t' = set_first_orphan_id n t ∧ orphan_links_only m m' (n :: O).
Proof.
  intros [HF HO] Hf Hnd Vn Hn On. unfold insert_orphan. cbv zeta. cbn [avl_node_to_id].
  rewrite Hf, (orphan_hd m O HF).
  assert (Forall (λ i, valid_id i ∧ is_orphan (m i) = true) (n :: O)) as HF' by (by constructor).
  destruct O as [|j O]; cbn [if_node].
  - match goal with |- context [orphan_links_only _ ?e _] => set (m' := e) end.
    assert (orphan_links_only m m' [n]) as Hm' by (unfold m'; olo).
    split_and!; [split|done|done].
    + by apply (olo_forall m m' [n]).
    + simpl. unfold m'. by mread.
  - match goal with |- context [orphan_links_only _ ?e _] => set (m' := e) end.
    assert (orphan_links_only m m' (n :: j :: O)) as Hm' by (unfold m'; olo).
    split_and!; [split|done|done].
    + by apply (olo_forall m m' (n :: j :: O)).
    + apply dseg_cons. split; [|split]; [by (unfold m'; mread)|by (unfold m'; mread)|].
      eapply (dseg_set_first _ _ _ _ 0 n (j :: O)); [done| | | |exact HO]; unfold m'; nodup.
      * intros i Hi. assert (i ≠ n) by set_solver. oread.
      * intros i Hi ?. assert (i ≠ n) by set_solver. simpl in *. oread.
      * intros _. simpl. by mread.
Qed.

(** *** The first orphan is taken off the list *)

Lemma pop_first_orphan_ok m t O :
  olist m O → first_orphan_id t = List.hd 0 O → NoDup O →
  let '(m', t', o) := pop_first_orphan m t in
  o = head O ∧ t' = set_first_orphan_id (List.hd 0 (List.tl O)) t
  ∧ olist m' (List.tl O) ∧ orphan_links_only m m' O.
Proof.
  intros [HF HO] Hf Hnd. unfold pop_first_orphan. cbv zeta. rewrite Hf, (orphan_hd m O HF).
  destruct O as [|j O].
  { split_and!; [done| |done|apply olo_refl].
    destruct t; unfold set_first_orphan_id; simpl in *; by subst. }
  destruct HO as (Pj & Nj & HO). apply Forall_cons in HF as [Hj HF].
  rewrite Nj, (orphan_hd m O HF). cbn [List.tl head].
  match goal with |- context [orphan_links_only _ ?e _] => set (m' := e) end.
  assert (orphan_links_only m m' (j :: O)) as Hm'
    by (unfold m'; destruct O; cbn [if_node]; olo).
  split_and!; [done|done| |done]. split; [by apply (olo_forall m m' (j :: O))|].
  destruct O as [|q O]; cbn [if_node] in m'; [done|].
  eapply (dseg_set_first _ _ _ _ j 0 (q :: O)); [by nodup; constructor| | | |exact HO];
    unfold m'; nodup.
  - intros i Hi. assert (i ≠ j) by set_solver. oread.
  - intros i Hi ?. assert (i ≠ j) by set_solver. simpl in *. oread.
  - intros _. simpl. by mread.
Qed.

(** *** An orphan is taken off the list anywhere *)

Lemma remove_orphan_ok m t A n B :
  olist m (A ++ n :: B) → first_orphan_id t = List.hd 0 (A ++ n :: B) → NoDup (A ++ n :: B) →
  let '(m', t') := remove_orphan m t n in
  olist m' (A ++ B) ∧ t' = set_first_orphan_id (List.hd 0 (A ++ B)) t
  ∧ orphan_links_only m m' (A ++ n :: B).
Proof.
  intros [(HFA & [[Vn On] HFB]%Forall_cons)%Forall_app (HA & Pn & Nn & HB)%dseg_app] Hf Hnd.
  unfold remove_orphan. cbv zeta. cbn [avl_node_to_id]. rewrite Pn, Nn.
  rewrite (orphan_hd m B HFB), (orphan_last m A HFA).
  match goal with |- context [orphan_links_only _ ?e _] => set (m' := e) end.
  assert (orphan_links_only m m' (A ++ n :: B)) as Hm'.
  { unfold m'. destruct A, B; cbn [if_node]; olo. }
  nodup. assert (∀ i, i ∈ A → i ≠ n) as HAn by (intros; sep).
  assert (∀ i, i ∈ B → i ≠ n) as HBn by (intros; sep).
  assert (apart A B) as HAB by done.
  split_and!; [| |done].
  2: { rewrite Hf. clear -Hf HAn. destruct A as [|a A]; simpl in *.
    - by rewrite Z.eqb_refl.
    - rewrite (proj2 (Z.eqb_neq a n)) by (apply HAn; by left).
      destruct t; unfold set_first_orphan_id; simpl in *; by subst. }
  split; [apply (olo_forall m m' (A ++ n :: B)); [done|by apply Forall_app]|].
  apply dseg_app. split.
  - eapply (dseg_set_last _ _ _ _ 0 A n); [done| | | |exact HA]; unfold m'.
    + intros i Hi. specialize (HAn i Hi).
      assert (B ≠ [] → List.hd 0 B ≠ i) as Hne
        by (intros HBne <-; by apply (HAB _ Hi), hd_in).
      destruct A, B; cbn [if_node List.hd] in *; try specialize (Hne ltac:(done)); oread.
    + intros i Hi Hne. specialize (HAn i Hi).
      destruct A, B; cbn [if_node List.hd] in *; oread.
    + intros HAne. pose proof (last_in A 0 HAne) as Hl. specialize (HAn _ Hl).
      assert (B ≠ [] → List.hd 0 B ≠ List.last A 0) as Hne
        by (intros HBne E; apply (HAB _ Hl); rewrite <- E; by apply hd_in).
      destruct A, B; cbn [if_node List.hd] in *; try done;
        try specialize (Hne ltac:(done)); by mread.
  - eapply (dseg_set_first _ _ _ _ n (List.last A 0) B); [done| | | |exact HB]; unfold m'.
    + intros i Hi. specialize (HBn i Hi).
      assert (A ≠ [] → List.last A 0 ≠ i) as Hne
        by (intros HAne <-; by apply (HAB _ (last_in A 0 HAne))).
      destruct A, B; cbn [if_node List.hd] in *; try specialize (Hne ltac:(done)); oread.
    + intros i Hi Hne. specialize (HBn i Hi).
      destruct A, B; cbn [if_node List.hd] in *; oread.
    + intros HBne. pose proof (hd_in B 0 HBne) as Hl. specialize (HBn _ Hl).
      destruct A, B; cbn [if_node List.hd] in *; try done; by mread.
Qed.

End inv.
