(* ===== verification/AvlInsertSpec.v ===== *)
(** * AvlInsertSpec: avl_tree_insert refines ordered insertion *)

From stdpp Require Import base tactics numbers list functions sets sorting.
From Stdlib Require Import ZArith Lia.
From S2P Require Import Prelude Avl AvlRep AvlInsert AvlInv.

Local Open Scope Z_scope.

Section insert_spec.
Context `{AvlConfig}.
Implicit Types (m : mem) (t : avl_tree) (T s : tree) (c : ctx) (L O : list Z).

(** The search stops at the leaf where the key belongs, or after [i] nodes. *)
Lemma insert_descend_ok i m k T c s :
  rep m 0 T → T = plug c s → sorted_by (λ i, key (m i)) (ids T) →
  Forall (λ j, key (m j) ≤ k) (before c) → Forall (λ j, k < key (m j)) (after c) →
  ∃ c' s',
    insert_descend i m k (root_of s) (avl_id_to_node (cid c)) (cid c) (is_InL c)
      = (root_of s', avl_id_to_node (cid c'), cid c', is_InL c')
    ∧ T = plug c' s'
    ∧ (s' = Leaf ∧ (depth c' ≤ depth c + i)%nat
       ∨ s' ≠ Leaf ∧ depth c' = (depth c + i)%nat)
    ∧ Forall (λ j, key (m j) ≤ k) (before c') ∧ Forall (λ j, k < key (m j)) (after c').
Proof.
  intros Hr HT Hsort. revert c s HT. induction i as [|i IH]; intros c s HT Hb Ha.
  { exists c, s. split_and!; try done. destruct s; [left; split; [done|lia]|right; split; [done|lia]]. }
  destruct s as [|l x r].
  { exists c, Leaf. split_and!; try done. left. split; [done|lia]. }
  assert (rep m (cid c) (Node l x r)) as (Vx & _ & Lx & Rx & _)
    by (subst T; by apply rep_plug in Hr as [? _]).
  cbn [insert_descend root_of]. rewrite (proj2 (Z.eqb_neq x 0)) by (destruct Vx; lia).
  rewrite (avl_id_valid x Vx), Lx, Rx.
  assert (sorted_by (λ i, key (m i)) (ids l ++ x :: ids r)) as Hs.
  { subst T. rewrite ids_plug in Hsort.
    by apply sorted_by_app in Hsort as (_ & (? & _ & _)%sorted_by_app & _). }
  apply sorted_by_app in Hs as (_ & [_ Hxr]%sorted_by_cons & Hlx).
  destruct (Z.ltb_spec k (key (m x))).
  - destruct (IH (InL c x r) l) as (c' & s' & E & HT' & Hd & Hb' & Ha'); [done|done|..].
    { simpl. constructor; [done|]. apply Forall_app. split; [|done].
      apply Forall_forall. intros j Hj. specialize (Hxr j Hj). simpl in *. lia. }
    exists c', s'. split_and!; try done.
    + cbn [cid is_InL] in E. by rewrite (avl_id_valid x Vx) in E.
    + simpl in Hd. destruct Hd as [[? ?]|[? ?]]; [left|right]; (split; [done|lia]).
  - destruct (IH (InR l x c) r) as (c' & s' & E & HT' & Hd & Hb' & Ha'); [done| |done|..].
    { simpl. apply Forall_app. split; [done|]. apply Forall_app. split; [|by constructor].
      apply Forall_forall. intros j Hj. specialize (Hlx j x Hj ltac:(by left)). simpl in *. lia. }
    exists c', s'. split_and!; try done.
    + cbn [cid is_InL] in E. by rewrite (avl_id_valid x Vx) in E.
    + simpl in Hd. destruct Hd as [[? ?]|[? ?]]; [left|right]; (split; [done|lia]).
Qed.

(** The cached minimum and maximum after a new member between [A] and [B]. *)
Lemma insert_update_cache_ok m t A B n :
  A ++ B ≠ [] → Forall (λ j, valid_id j) (A ++ B) →
  Forall (λ j, key (m j) ≤ key (m n)) A → Forall (λ j, key (m n) < key (m j)) B →
  min_id t = List.hd 0 (A ++ B) → min_key t = key (m (List.hd 0 (A ++ B))) →
  max_id t = List.last (A ++ B) 0 → max_key t = key (m (List.last (A ++ B) 0)) →
  let t' := insert_update_cache m t n in
  root t' = root t ∧ first_orphan_id t' = first_orphan_id t
  ∧ min_id t' = List.hd 0 (A ++ n :: B) ∧ min_key t' = key (m (min_id t'))
  ∧ max_id t' = List.last (A ++ n :: B) 0 ∧ max_key t' = key (m (max_id t')).
Proof.
  intros Hne Hv HA HB Hmin Hmink Hmax Hmaxk. rewrite Forall_forall in Hv, HA, HB.
  assert (truthy (min_id t) = true) as E1.
  { unfold truthy. rewrite Hmin. destruct (Hv _ (hd_in (A ++ B) 0 Hne)).
    by rewrite (proj2 (Z.eqb_neq _ 0)) by lia. }
  assert (truthy (max_id t) = true) as E2.
  { unfold truthy. rewrite Hmax. destruct (Hv _ (last_in (A ++ B) 0 Hne)).
    by rewrite (proj2 (Z.eqb_neq _ 0)) by lia. }
  unfold insert_update_cache. cbn [avl_node_to_id].
  rewrite E1. cbn [negb orb].
  match goal with |- context [truthy (max_id ?t1)] =>
    assert (max_id t1 = max_id t ∧ max_key t1 = max_key t) as [-> ->] by (by zcase) end.
  rewrite E2. cbn [negb orb].
  assert ((key (m n) <? min_key t) = bool_decide (A = [])) as ->.
  { rewrite Hmink. destruct A as [|a A].
    - simpl in *. apply Z.ltb_lt, HB. by apply hd_in.
    - apply Z.ltb_ge. apply (HA a). by left. }
  assert ((max_key t <=? key (m n)) = bool_decide (B = [])) as ->.
  { rewrite Hmaxk. destruct B as [|b B].
    - rewrite app_nil_r in *. apply Z.leb_le, HA. by apply last_in.
    - apply Z.leb_gt. rewrite last_app. apply HB. by apply last_in. }
  rewrite last_app, last_cons. rewrite last_app in Hmax, Hmaxk.
  destruct A as [|a A], B as [|b B]; rewrite ?last_cons in *; simpl in *; try done;
    split_and!; congruence.
Qed.

(** Before linking, the new node's own fields are cleared. *)
Definition fresh_node (n : Z) m : mem :=
  set_is_orphan n false (set_left_id n 0 (set_right_id n 0 (set_balance n 0 m))).

Lemma fresh_node_ne n m i : i ≠ n → fresh_node n m i = m i.
Proof. intros. unfold fresh_node. by mread. Qed.

Lemma fresh_node_key n m i : key (fresh_node n m i) = key (m i).
Proof. unfold fresh_node. by rewrite !key_alter. Qed.

(** Hanging the cleared node into the leaf of [c] and retracing. *)
Lemma insert_link_ok m t T c n :
  rep m 0 T → root t = root_of T → T = plug c Leaf → c ≠ Top →
  NoDup (n :: ids T) → valid_id n → (Z.of_nat (depth c) ≤ Z.of_nat MAX_AVL_HEIGHT) →
  left_id (m n) = 0 → right_id (m n) = 0 → balance (m n) = 0 → is_orphan (m n) = false →
  let m1 := set_parent_id n (cid c) m in
  let m2 := if is_InL c then set_left_id (cid c) n m1 else set_right_id (cid c) n m1 in
  let '(m', t') := insert_retrace MAX_AVL_HEIGHT m2 t (avl_id_to_node (cid c)) (cid c) n n in
  relinked m t m' t' (before c ++ n :: after c) (height (plug c (Node Leaf n Leaf))).
Proof.
  intros Hr Ht -> Hc Hnd Vn Hd Ln Rn Bn On.
  apply NoDup_cons in Hnd as [Hn Hnd]. rewrite ids_plug in Hn, Hnd. simpl in Hn, Hnd.
  apply rep_plug in Hr as [_ Hrc]. intros m1.
  assert ((if is_InL c then set_left_id (cid c) n m1 else set_right_id (cid c) n m1)
          = set_hole c n m1) as -> by (by destruct c). intros m2.
  assert (rep m2 (cid c) (Node Leaf n Leaf)) as Hs.
  { cbn [rep]. unfold m2. rewrite !set_hole_ne by done. unfold m1. mread.
    split_and!; done || lia. }
  assert (NoDup (before c ++ [n] ++ after c)) as Hnd'.
  { simpl. apply NoDup_app in Hnd as (? & ? & ?). apply not_elem_of_app in Hn as [? ?].
    apply NoDup_app. split_and!; [done| |by apply NoDup_cons]. set_solver. }
  pose proof (insert_retrace_ok MAX_AVL_HEIGHT m2 t c (Node Leaf n Leaf) 0 Hnd' Hs) as Hret.
  cbn [root_of] in Hret.
  destruct (insert_retrace _ m2 t _ _ n n) as [m' t'].
  apply (relinked_trans m m2 t m' t' _ (height (plug c (Node Leaf n Leaf)))); [..|lia|apply Hret].
  - intros i Hi. unfold m2. rewrite set_hole_ne by set_solver. unfold m1.
    apply fn_lookup_alter_ne. set_solver.
  - intros i. unfold m2, m1. by rewrite set_hole_key, key_alter.
  - unfold m2. eapply repc_set_hole; [done|]. unfold m1. by apply repc_alter_ne.
  - by rewrite Ht, root_plug, (croot_indep c n 0).
  - done.
  - done.
  - by left.
  - lia.
Qed.

(** A header over a relinked tree that agrees with it on the caches. *)
Lemma avl_wf_intro m m' t1 T O (A B : list Z) n :
  rep m' 0 T → ids T = A ++ n :: B → root t1 = root_of T → height T ≤ Z.of_nat MAX_AVL_HEIGHT →
  (∀ i, i ∉ n :: A ++ B → m' i = m i) → (∀ i, key (m' i) = key (m i)) →
  NoDup (n :: (A ++ B) ++ O) → olist m O → first_orphan_id t1 = List.hd 0 O →
  sorted_by (λ i, key (m i)) (A ++ n :: B) →
  min_id t1 = List.hd 0 (A ++ n :: B) → min_key t1 = key (m (min_id t1)) →
  max_id t1 = List.last (A ++ n :: B) 0 → max_key t1 = key (m (max_id t1)) →
  avl_wf m' t1 T O.
Proof.
  intros Hr Hids Hroot Hh Hf Hk Hnd HO HfO Hs Hmin Hmink Hmax Hmaxk.
  assert (apart (n :: A ++ B) O) as Hap.
  { intros i Hi Hi'. apply NoDup_cons in Hnd as [? Hnd].
    apply NoDup_app in Hnd as (_ & Hd & _). apply elem_of_cons in Hi as [->|Hi]; [set_solver|].
    by apply (Hd i). }
  split; rewrite ?Hids; try done.
  - rewrite <- Permutation_middle. by simpl.
  - by apply (sorted_by_ext (λ i, key (m i))).
  - intros _. by rewrite Hmink, <- Hmin, Hk.
  - intros _. by rewrite Hmaxk, <- Hmax, Hk.
  - apply (olist_frame m); [|done]. intros i Hi. apply Hf. intros Hi'. by apply (Hap i).
Qed.

(** No room on the search path: the new node becomes the first orphan. *)
Lemma insert_as_orphan m t T O n :
  avl_wf m t T O → valid_id n → n ∉ ids T ++ O →
  let '(m', t') := insert_orphan (set_is_orphan n true (fresh_node n m)) t n in
  (∀ i, key (m' i) = key (m i)) ∧ (∀ i, i ∉ n :: ids T ++ O → m' i = m i)
  ∧ avl_wf m' t' T (n :: O).
Proof.
  intros [Hr Hroot Hnd Hs Hh Hmin Hmink Hmax Hmaxk HO HfO] Vn Hn.
  pose proof (nodup_app _ _ Hnd) as (HndT & HTO & HndO).
  apply not_elem_of_app in Hn as [HnT HnO].
  set (m0 := set_is_orphan n true (fresh_node n m)).
  assert (∀ i, i ≠ n → m0 i = m i) as Hm0.
  { intros i ?. unfold m0. rewrite fn_lookup_alter_ne by done. by apply fresh_node_ne. }
  assert (∀ i, key (m0 i) = key (m i)) as Hk0.
  { intros. unfold m0. by rewrite key_alter, fresh_node_key. }
  pose proof (insert_orphan_ok m0 t O n) as Hio.
  destruct (insert_orphan m0 t n) as [m' t'].
  destruct Hio as (HO' & -> & Hf' & Hk'); try done.
  { apply (olist_frame m); [|done]. intros i Hi. apply Hm0. sep. }
  { unfold m0. by mread. }
  assert (∀ i, key (m' i) = key (m i)) as Hk by (intros i; by rewrite (proj1 (Hk' i)), Hk0).
  assert (∀ i, i ∉ n :: O → m' i = m i) as Hf.
  { intros i Hi. rewrite Hf' by done. apply Hm0. set_solver. }
  split_and!; [done|intros i Hi; apply Hf; set_solver|].
  split; try done.
  - apply (rep_frame m); [|done]. intros i Hi. apply Hf. apply not_elem_of_cons.
    split; sep.
  - apply NoDup_app. split_and!; [done| |by apply NoDup_cons].
    intros i Hi. apply not_elem_of_cons. split; sep.
  - by apply (sorted_by_ext (λ i, key (m i))).
  - intros. rewrite Hk. by apply Hmink.
  - intros. rewrite Hk. by apply Hmaxk.
Qed.

(** The first member becomes the root. *)
Lemma insert_first m t O n :
  (1 ≤ MAX_AVL_HEIGHT)%nat → avl_wf m t Leaf O → valid_id n → n ∉ O →
  let m' := set_parent_id n 0 (fresh_node n m) in
  avl_wf m' (set_max n (key (m' n)) (set_min n (key (m' n)) (set_root n t)))
    (Node Leaf n Leaf) O.
Proof.
  intros HM Hwf Vn Hn. destruct Hwf as [Hr Hroot Hnd Hs Hh Hmin Hmink Hmax Hmaxk HO HfO].
  intros m'. split; try done.
  - cbn [rep]. unfold m', fresh_node. mread. split_and!; done || lia.
  - by apply NoDup_cons.
  - simpl. constructor; constructor.
  - simpl. lia.
  - apply (olist_frame m); [|done]. intros i Hi. unfold m'.
    rewrite fn_lookup_alter_ne by sep. apply fresh_node_ne. sep.
Qed.

(** A later member goes below the node the search ended at. *)
Lemma insert_below m t T O n c :
  avl_wf m t T O → valid_id n → n ∉ ids T ++ O →
  T = plug c Leaf → c ≠ Top → (S (depth c) ≤ MAX_AVL_HEIGHT)%nat →
  Forall (λ j, key (m j) ≤ key (m n)) (before c) →
  Forall (λ j, key (m n) < key (m j)) (after c) →
  let m0 := fresh_node n m in
  let m1 := set_parent_id n (cid c) m0 in
  let m2 := if is_InL c then set_left_id (cid c) n m1 else set_right_id (cid c) n m1 in
  let '(m', t') := insert_retrace MAX_AVL_HEIGHT m2 t (avl_id_to_node (cid c)) (cid c) n n in
  (∀ i, key (m' i) = key (m i)) ∧ (∀ i, i ∉ n :: ids T ++ O → m' i = m i)
  ∧ ∃ T', avl_wf m' (insert_update_cache m' t' n) T' O
          ∧ ids T' = ord_insert (λ i, key (m i)) n (ids T).
Proof.
  intros [Hr Hroot Hnd Hs Hh Hmin Hmink Hmax Hmaxk HO HfO] Vn Hn HT Hc Hd Hb Ha m0 m1 m2.
  pose proof (nodup_app _ _ Hnd) as (HndT & HTO & HndO).
  pose proof Hn as [HnT HnO]%not_elem_of_app.
  assert (ids T = before c ++ after c) as HidT by (by rewrite HT, ids_plug).
  assert (∀ i, i ≠ n → m0 i = m i) as Hm0 by (intros; by apply fresh_node_ne).
  pose proof (insert_link_ok m0 t T c n) as Hlink.
  cbv zeta in Hlink. fold m1 in Hlink. fold m2 in Hlink.
  destruct (insert_retrace _ m2 t _ _ n n) as [m' t'].
  destruct Hlink as (T' & Hr' & Hid' & Hh' & -> & Hf & Hk); try done.
  { apply (rep_frame m); [|done]. intros i Hi. apply Hm0. sep. }
  { by apply NoDup_cons. }
  { lia. }
  1-4: unfold m0, fresh_node; by mread.
  assert (∀ i, key (m' i) = key (m i)) as Hk'.
  { intros i. rewrite Hk. apply fresh_node_key. }
  assert (∀ i, i ∉ n :: before c ++ after c → m' i = m i) as Hf'.
  { intros i Hi. rewrite Hf by (clear -Hi; set_solver). apply Hm0. clear -Hi; set_solver. }
  assert (before c ++ after c ≠ []) as Hne.
  { clear -Hc. destruct c; simpl; [done| |]; intros E; apply (f_equal length) in E;
      rewrite !length_app in E; simpl in E; rewrite ?length_app in E; simpl in E; lia. }
  split_and!; [done| |].
  { intros i Hi. apply Hf'. rewrite <- HidT. clear -Hi. set_solver. }
  exists T'. split; [|by rewrite Hid', HidT, ord_insert_split].
  rewrite HidT in *.
  pose proof (insert_update_cache_ok m' (set_root (root_of T') t) (before c) (after c) n) as Hcache.
  cbv zeta in Hcache. destruct Hcache as (C1 & C2 & C3 & C4 & C5 & C6);
    try (rewrite ?Hk'; by auto).
  { apply Forall_forall. intros j Hj. apply (rep_ids_valid m 0 T); [done|]. by rewrite HidT. }
  { eapply Forall_impl; [exact Hb|]. intros j. simpl. by rewrite !Hk'. }
  { eapply Forall_impl; [exact Ha|]. intros j. simpl. by rewrite !Hk'. }
  apply (avl_wf_intro m m' _ T' O (before c) (after c) n); rewrite ?C1, ?C2; try done.
  - etransitivity; [exact Hh'|]. pose proof (height_plug_leaf c (Node Leaf n Leaf)) as Hpl.
    rewrite <- HT in Hpl. simpl in Hpl. lia.
  - by apply NoDup_cons.
  - by apply sorted_insert.
  - by rewrite C4, Hk'.
  - by rewrite C6, Hk'.
Qed.

(** Insertion keeps the invariant; the new node is a member at its place in
    key order, or an orphan when the tree already has the maximal height. *)
Lemma avl_tree_insert_ok m t T O n :
  (1 ≤ MAX_AVL_HEIGHT)%nat →
  avl_wf m t T O → valid_id n → n ∉ ids T ++ O →
  let '(m', t') := avl_tree_insert m t n in
  (∀ i, key (m' i) = key (m i)) ∧ (∀ i, i ∉ n :: ids T ++ O → m' i = m i)
  ∧ ((∃ T', avl_wf m' t' T' O ∧ ids T' = ord_insert (λ i, key (m i)) n (ids T))
     ∨ (avl_wf m' t' T (n :: O) ∧ height T = Z.of_nat MAX_AVL_HEIGHT)).
Proof.
  intros HM Hwf Vn Hn. pose proof Hwf as [Hr Hroot Hnd Hs Hh _ _ _ _ _ _].
  pose proof (nodup_app _ _ Hnd) as (HndT & _ & HndO).
  pose proof Hn as [HnT HnO]%not_elem_of_app.
  unfold avl_tree_insert. cbv zeta. fold (fresh_node n m). set (m0 := fresh_node n m).
  assert (∀ i, key (m0 i) = key (m i)) as Hk0 by (intros; apply fresh_node_key).
  assert (rep m0 0 T) as Hr0.
  { apply (rep_frame m); [|done]. intros i Hi. apply fresh_node_ne. sep. }
  assert (sorted_by (λ i, key (m0 i)) (ids T)) as Hs0
    by (by apply (sorted_by_ext (λ i, key (m i)))).
  destruct (insert_descend_ok (MAX_AVL_HEIGHT - 1) m0 (key (m0 n)) T Top T)
    as (c & s & E & HT & Hd & Hb & Ha); try done; [by constructor..|].
  cbn [cid is_InL depth Nat.add] in E, Hd. rewrite avl_id_zero, <- Hroot in E. rewrite E.
  assert (Forall (λ j, key (m j) ≤ key (m n)) (before c)) as Hb'
    by (eapply Forall_impl; [exact Hb|]; intros j; simpl; by rewrite !Hk0).
  assert (Forall (λ j, key (m n) < key (m j)) (after c)) as Ha'
    by (eapply Forall_impl; [exact Ha|]; intros j; simpl; by rewrite !Hk0).
  cbn [avl_node_to_id]. destruct Hd as [[-> Hd]|[Hne Hd]].
  - cbn [root_of truthy Z.eqb negb]. assert (c = Top ∨ c ≠ Top) as [->|Hc] by (destruct c; [by left|by right|by right]).
    + simpl in HT. subst T. cbn [cid]. rewrite avl_id_zero. split_and!.
      * intros i. by rewrite key_alter.
      * intros i Hi. simpl in Hi. rewrite fn_lookup_alter_ne by set_solver.
        apply fresh_node_ne. set_solver.
      * left. exists (Node Leaf n Leaf). split; [|done]. by apply insert_first.
    + pose proof (insert_below m t T O n c) as Hins. cbv zeta in Hins. fold m0 in Hins.
      assert (avl_id_to_node (cid c) = Some (cid c)) as Ec.
      { rewrite HT in Hr0. apply rep_plug in Hr0 as [_ Hrc].
        rewrite (avl_id_cid _ _ _ _ Hrc). by destruct c. }
      rewrite Ec in Hins |- *.
      destruct (insert_retrace _ _ _ _ _ n n) as [m' t'].
      destruct Hins as (? & ? & ?); try done; [lia|]. split_and!; try done. by left.
  - assert (truthy (root_of s) = true) as ->.
    { unfold truthy. rewrite (proj2 (Z.eqb_neq _ _)); [done|].
      assert (root_of s ∈ ids T) as Hin.
      { rewrite HT, ids_plug. pose proof (root_of_in s Hne). set_solver. }
      pose proof (rep_ids_valid m 0 T _ Hr Hin) as [? ?]. lia. }
    pose proof (insert_as_orphan m t T O n Hwf Vn Hn) as Hins. fold m0 in Hins.
    destruct (insert_orphan _ t n) as [m' t']. destruct Hins as (? & ? & ?).
    split_and!; try done. right. split; [done|].
    pose proof (depth_plug c s) as Hp. rewrite <- HT in Hp.
    assert (1 ≤ height s).
    { destruct s as [|l ? r]; [done|]. simpl.
      pose proof (height_nonneg l). pose proof (height_nonneg r). lia. }
    lia.
Qed.

End insert_spec.
