(* ===== verification/AvlDelete.v ===== *)
(** * AvlDelete: the retrace of deletion, and taking a node out of its place

    Walking to a neighbour, and taking a member out of its place. *)

From stdpp Require Import base tactics numbers list functions sets.
From Stdlib Require Import ZArith Lia.
From S2P Require Import Prelude Avl AvlRep AvlInsert.

Local Open Scope Z_scope.

(** The height of a plugged context whose hole holds a subtree of height [hh]. *)
Fixpoint cheight (c : ctx) (hh : Z) : Z :=
  match c with
  | Top => hh
  | InL c _ r => cheight c (1 + Z.max hh (height r))
  | InR l _ c => cheight c (1 + Z.max (height l) hh)
  end.

Lemma height_cheight c s : height (plug c s) = cheight c (height s).
Proof. revert s. induction c; intros s; simpl; [done|by rewrite IHc..]. Qed.

Lemma cheight_mono c a b : a ≤ b → cheight c a ≤ cheight c b.
Proof. revert a b. induction c; intros a b ?; simpl; [done|apply IHc; lia..]. Qed.

Section delete.
Context `{AvlConfig}.
Implicit Types (m : mem) (t : avl_tree) (T s l r : tree) (c d : ctx).

(** What the retrace works on: the subtree [s] in the hole of [c] is one less
    high than [c] accounts for. *)
Record shrunk m t c s hh : Prop := {
  sh_nodup : NoDup (before c ++ ids s ++ after c);
  sh_rep : rep m (cid c) s;
  sh_ctx : repc m c (root_of s) hh;
  sh_root : root t = croot c (root_of s);
  sh_height : height s = hh - 1;
}.

Lemma shrunk_top i m t s hh h :
  shrunk m t Top s hh → height s ≤ h →
  delete_retrace i m t None 0 false = (m, t, true) ∧ relinked m t m t (ids s) h.
Proof.
  intros [Hnd Hs Hc Ht Hh] Hle. split; [by destruct i|].
  apply (relinked_plug _ _ _ Top s); try done. simpl. by rewrite app_nil_r.
Qed.

(** The parent of a subtree root tells its side. *)
Lemma side_of m c h hh :
  repc m c h hh → valid_id h → h ∉ before c ++ after c → c ≠ Top →
  (left_id (m (cid c)) =? h) = is_InL c.
Proof. intros Hc Hv Hn. pose proof (repc_side m c h hh Hc Hv Hn). by destruct c. Qed.

(** The branch of the loop that recurses to the parent, if there is one. *)
Lemma retrace_parent i m t c x l r hh :
  shrunk m t c (Node l x r) hh →
  match avl_id_to_node (cid c) with
  | None => (m, t, true)
  | Some xp => delete_retrace i m t (avl_id_to_node (cid c)) (cid c) (left_id (m xp) =? x)
  end = delete_retrace i m t (avl_id_to_node (cid c)) (cid c) (is_InL c).
Proof.
  intros [Hnd Hs Hc _ _]. rewrite (avl_id_cid _ _ _ _ Hc). cbn [root_of] in Hc.
  assert (x ∉ before c ++ after c) as Hx.
  { simpl in Hnd. nodup. apply not_elem_of_app. split; sep. }
  pose proof (side_of m c x hh Hc ltac:(apply Hs) Hx) as Hside.
  destruct c; [by destruct i|..]; cbn [cid] in Hside; by rewrite Hside by done.
Qed.

(** Height loss passed on without a rotation. *)
Lemma shrunk_up m t c l x r hh :
  NoDup (before c ++ ids (Node l x r) ++ after c) →
  links m x l r → parent_id (m x) = cid c → height l = height r →
  repc m c x hh → root t = croot c x → hh = 2 + height l →
  shrunk (set_balance x 0 m) t c (Node l x r) hh.
Proof.
  intros Hnd Hl Hp He Hc Ht Hh. pose proof (nodup_mid _ _ _ Hnd).
  split; try done.
  - apply rep_set_balance; done || lia.
  - apply repc_alter_ne; [|done]. simpl in Hnd. nodup. apply not_elem_of_app. split; sep.
  - simpl. lia.
Qed.

(** One retrace step where the other side is two levels higher: after the
    rotation the loss is absorbed or passed on to the parent. *)
Lemma retrace_rotated i m m1 t c x T hh L :
  NoDup L → L = before c ++ ids T ++ after c → T ≠ Leaf → valid_id x → x ∈ ids T →
  rebuilt m m1 T → repc m c x hh → root t = croot c x →
  (∀ m2 t2, shrunk m2 t2 c T hh →
     ∃ m' t', delete_retrace i m2 t2 (avl_id_to_node (cid c)) (cid c) (is_InL c) = (m', t', true)
              ∧ relinked m2 t2 m' t' L (cheight c hh)) →
  ∀ absorbed, height T = (if absorbed : bool then hh else hh - 1) →
  ∃ m' t',
    (let '(m2, t2, from_the_left) :=
       reconnect m1 t (avl_id_to_node (cid c)) (cid c) x (root_of T) in
     match avl_id_to_node (cid c) with
     | None => (m2, t2, true)
     | Some _ =>
         if absorbed then (m2, t2, true)
         else delete_retrace i m2 t2 (avl_id_to_node (cid c)) (cid c) from_the_left
     end) = (m', t', true)
    ∧ relinked m t m' t' L (cheight c hh).
Proof.
  intros Hnd -> HT Vx Hx Hr Hc Ht IH absorbed HhT.
  destruct (reconnect_ok m m1 t c x T hh) as (m2 & -> & Hr2 & Hc2 & Hf & Hk); try done.
  set (t2 := set_root (croot c (root_of T)) t).
  assert (height T = hh → relinked m t m2 t2 (before c ++ ids T ++ after c) (cheight c hh)) as Habs.
  { intros Eh. apply (relinked_root _ _ (croot c (root_of T))).
    apply (relinked_plug _ _ _ c T); rewrite ?height_cheight, ?Eh; try done. }
  destruct absorbed.
  { exists m2, t2. split; [|by apply Habs]. by destruct (avl_id_to_node (cid c)). }
  destruct (IH m2 t2) as (m' & t' & E & Hrel); [by split|].
  exists m', t'. split.
  - rewrite (avl_id_cid _ _ _ _ Hc2) in E |- *. destruct c; [|done..].
    rewrite <- E. by destruct i.
  - apply (relinked_root _ _ (croot c (root_of T))).
    by eapply (relinked_trans m m2); [| |reflexivity|].
Qed.

Lemma delete_retrace_ok i m t c s hh :
  shrunk m t c s hh → (depth c ≤ i)%nat →
  ∃ m' t', delete_retrace i m t (avl_id_to_node (cid c)) (cid c) (is_InL c) = (m', t', true)
    ∧ relinked m t m' t' (before c ++ ids s ++ after c) (cheight c hh).
Proof.
  revert i m t s hh. induction c as [|c IH x r|l x c IH];
    intros i m t s hh Hsh Hd.
  - destruct (shrunk_top i m t s hh hh Hsh) as [E Hrel]; [destruct Hsh; lia|].
    exists m, t. simpl. by rewrite app_nil_r.
  - destruct i as [|i]; [simpl in Hd; lia|]. destruct Hsh as [Hnd Hs Hc Ht Hh].
    pose proof (height_nonneg s).
    assert (before (InL c x r) ++ ids s ++ after (InL c x r)
            = before c ++ ids (Node s x r) ++ after c) as HL by (by assoc).
    rewrite HL in *. pose proof (nodup_mid _ _ _ Hnd) as Hnd'.
    cbn [delete_retrace]. rewrite (avl_id_cid _ _ _ _ Hc). cbn [cid is_InL cheight].
    destruct Hc as (Vx & Px & Lx & Rx & Ox & Bx & Bx' & Hr & Hc).
    rewrite Bx, Px, Rx. cbn [negb andb orb].
    assert (links m x s r) as Hl by done. cbn [croot] in Ht.
    destruct (Z.eqb_spec (height r - hh) 0).
    + do 2 eexists. split; [done|]. eapply (absorb_relinked _ _ c s x r); try done; try lia.
      * replace (height (Node s x r)) with (1 + Z.max hh (height r)) by (simpl; lia). done.
      * rewrite height_cheight. apply cheight_mono. simpl. lia.
    + destruct (Z.ltb_spec (height r - hh) 0); cbn [orb].
      * assert (shrunk (set_balance x 0 m) t c (Node s x r) (1 + Z.max hh (height r))) as Hsh'
          by (apply shrunk_up; done || lia).
        rewrite (retrace_parent _ _ _ _ _ _ _ _ Hsh').
        destruct (IH i _ _ _ _ Hsh') as (m' & t' & -> & Hrel); [simpl in Hd; lia|].
        do 2 eexists. split; [done|].
        eapply relinked_trans; [| |reflexivity|exact Hrel].
        -- intros j Hj. apply set_balance_ne. intros ->. apply Hj. simpl. clear. set_solver.
        -- intros j. by apply key_alter.
      * destruct (rotate_right_heavy m x s r) as (T & HT & HhT & m1 & Erot & Hreb); try done; [lia|].
        rewrite (avl_id_root _ _ _ Hr).
        destruct r as [|rl z rr]; [simpl in *; lia|]. cbn [root_of] in Erot, HhT.
        rewrite Erot, <- HT in *.
        assert (T ≠ Leaf) as HTne.
        { intros ->. simpl in HhT. destruct (balance (m z) =? 0); lia. }
        eapply retrace_rotated; try done.
        -- rewrite HT. simpl. clear. set_solver.
        -- intros m2 t2 Hsh2. apply (IH i m2 t2 T); [done|simpl in Hd; lia].
        -- destruct (balance (m z) =? 0); lia.
  - destruct i as [|i]; [simpl in Hd; lia|]. destruct Hsh as [Hnd Hs Hc Ht Hh].
    pose proof (height_nonneg s).
    assert (before (InR l x c) ++ ids s ++ after (InR l x c)
            = before c ++ ids (Node l x s) ++ after c) as HL by (by assoc).
    rewrite HL in *. pose proof (nodup_mid _ _ _ Hnd) as Hnd'.
    cbn [delete_retrace]. rewrite (avl_id_cid _ _ _ _ Hc). cbn [cid is_InL cheight].
    destruct Hc as (Vx & Px & Lx & Rx & Ox & Bx & Bx' & Hr & Hc).
    rewrite Bx, Px, Lx. cbn [negb andb orb].
    assert (links m x l s) as Hl by done. cbn [croot] in Ht.
    destruct (Z.eqb_spec (hh - height l) 0).
    + do 2 eexists. split; [done|]. eapply (absorb_relinked _ _ c l x s); try done; try lia.
      * replace (height (Node l x s)) with (1 + Z.max (height l) hh) by (simpl; lia). done.
      * rewrite height_cheight. apply cheight_mono. simpl. lia.
    + destruct (Z.ltb_spec 0 (hh - height l)); cbn [orb].
      * assert (shrunk (set_balance x 0 m) t c (Node l x s) (1 + Z.max (height l) hh)) as Hsh'
          by (apply shrunk_up; done || lia).
        rewrite (retrace_parent _ _ _ _ _ _ _ _ Hsh').
        destruct (IH i _ _ _ _ Hsh') as (m' & t' & -> & Hrel); [simpl in Hd; lia|].
        do 2 eexists. split; [done|].
        eapply relinked_trans; [| |reflexivity|exact Hrel].
        -- intros j Hj. apply set_balance_ne. intros ->. apply Hj. simpl. clear. set_solver.
        -- intros j. by apply key_alter.
      * destruct (rotate_left_heavy m x l s) as (T & HT & HhT & m1 & Erot & Hreb); try done; [lia|].
        rewrite (avl_id_root _ _ _ Hr).
        destruct l as [|ll z lr]; [simpl in *; lia|]. cbn [root_of] in Erot, HhT.
        rewrite Erot, <- HT in *.
        assert (T ≠ Leaf) as HTne.
        { intros ->. simpl in HhT. destruct (balance (m z) =? 0); lia. }
        eapply retrace_rotated; try done.
        -- rewrite HT. simpl. clear. set_solver.
        -- intros m2 t2 Hsh2. apply (IH i m2 t2 T); [done|simpl in Hd; lia].
        -- destruct (balance (m z) =? 0); lia.
Qed.

End delete.

(** ** Walking to a neighbour, and taking a member out of its place *)

(** [compose d c]: the hole of [d], with [d] in the hole of [c]. *)
Fixpoint compose (d c : ctx) : ctx :=
  match d with
  | Top => c
  | InL d i r => InL (compose d c) i r
  | InR l i d => InR l i (compose d c)
  end.

Definition is_top (c : ctx) : bool := match c with Top => true | _ => false end.
Definition is_leaf (t : tree) : bool := match t with Leaf => true | _ => false end.

Section unlink.
Context `{AvlConfig}.
Implicit Types (m : mem) (t : avl_tree) (T s l r : tree) (c d : ctx).

(** A context that hangs below the node [p] instead of at the root. *)
Fixpoint repd m (p : Z) d (h hh : Z) : Prop :=
  match d with
  | Top => True
  | InL d i r =>
      valid_id i ∧ parent_id (m i) = (match d with Top => p | _ => cid d end)
      ∧ left_id (m i) = h ∧ right_id (m i) = root_of r
      ∧ is_orphan (m i) = false
      ∧ balance (m i) = height r - hh ∧ -1 ≤ balance (m i) ≤ 1
      ∧ rep m i r ∧ repd m p d i (1 + Z.max hh (height r))
  | InR l i d =>
      valid_id i ∧ parent_id (m i) = (match d with Top => p | _ => cid d end)
      ∧ left_id (m i) = root_of l ∧ right_id (m i) = h
      ∧ is_orphan (m i) = false
      ∧ balance (m i) = hh - height l ∧ -1 ≤ balance (m i) ≤ 1
      ∧ rep m i l ∧ repd m p d i (1 + Z.max (height l) hh)
  end.

Lemma cid_compose d c : cid (compose d c) = match d with Top => cid c | _ => cid d end.
Proof. by destruct d. Qed.

Lemma before_compose d c : before (compose d c) = before c ++ before d.
Proof. induction d; simpl; rewrite ?app_nil_r; try done. rewrite IHd. by assoc. Qed.

Lemma after_compose d c : after (compose d c) = after d ++ after c.
Proof. induction d; simpl; try done. rewrite IHd. by assoc. Qed.

Lemma plug_compose d c s : plug (compose d c) s = plug c (plug d s).
Proof. revert s. induction d; intros s; simpl; auto. Qed.

Lemma depth_compose d c : depth (compose d c) = (depth d + depth c)%nat.
Proof. induction d; simpl; auto. Qed.

Lemma croot_compose d c h : croot (compose d c) h = croot c (croot d h).
Proof. revert h. induction d; intros h; simpl; auto. Qed.

Lemma cheight_compose d c hh : cheight (compose d c) hh = cheight c (cheight d hh).
Proof. revert hh. induction d; intros hh; simpl; auto. Qed.

Lemma is_InL_compose d c : d ≠ Top → is_InL (compose d c) = is_InL d.
Proof. by destruct d. Qed.

Lemma repc_compose m d c h hh :
  repc m (compose d c) h hh ↔
  repd m (cid c) d h hh ∧ repc m c (croot d h) (cheight d hh).
Proof.
  revert h hh. induction d as [|d IH i r|l i d IH]; intros h hh; simpl.
  - naive_solver.
  - rewrite IH, cid_compose. naive_solver.
  - rewrite IH, cid_compose. naive_solver.
Qed.

Lemma repd_frame m m' p d h hh :
  (∀ i, i ∈ before d ++ after d → m' i = m i) → repd m p d h hh → repd m' p d h hh.
Proof.
  revert h hh. induction d as [|d IH i r|l i d IH]; intros h hh Hm; simpl; [done| |];
    (assert (m' i = m i) as -> by (apply Hm; simpl; clear; set_solver));
    intros (? & ? & ? & ? & ? & ? & ? & Hr & Hc);
    split_and!; try (done || lia).
  - apply (rep_frame m); auto. intros; apply Hm; simpl; set_solver.
  - apply IH; auto. intros; apply Hm; simpl; set_solver.
  - apply (rep_frame m); auto. intros; apply Hm; simpl; set_solver.
  - apply IH; auto. intros; apply Hm; simpl; set_solver.
Qed.

(** *** Walking *)

Lemma min_loop_ok i m p T :
  rep m p T → height T ≤ Z.of_nat i →
  min_loop i m (avl_id_to_node (root_of T)) = head (ids T).
Proof.
  revert p T. induction i as [|i IH]; intros p T Hr Hh.
  { pose proof (height_nonneg T). by rewrite (height_zero T) by lia. }
  rewrite (avl_id_root _ _ _ Hr). destruct T as [|l x r]; [done|].
  destruct Hr as (? & ? & Lx & ? & ? & ? & ? & Hl & ?). cbn [min_loop ids]. rewrite Lx.
  destruct l as [|ll y lr]; [done|]. cbn [root_of].
  assert (valid_id y) as [? ?] by apply Hl. rewrite (proj2 (Z.eqb_neq y 0)) by lia.
  change y with (root_of (Node ll y lr)). rewrite (IH x) by (simpl in *; done || lia).
  by destruct (ids ll) eqn:E; simpl; rewrite E.
Qed.

Lemma max_loop_ok i m p T :
  rep m p T → height T ≤ Z.of_nat i →
  max_loop i m (avl_id_to_node (root_of T)) = last (ids T).
Proof.
  revert p T. induction i as [|i IH]; intros p T Hr Hh.
  { pose proof (height_nonneg T). by rewrite (height_zero T) by lia. }
  rewrite (avl_id_root _ _ _ Hr). destruct T as [|l x r]; [done|].
  destruct Hr as (? & ? & ? & Rx & ? & ? & ? & ? & Hr). cbn [max_loop ids]. rewrite Rx.
  rewrite list.last_app_cons, list.last_cons.
  destruct r as [|rl y rr]; [done|]. cbn [root_of].
  assert (valid_id y) as [? ?] by apply Hr. rewrite (proj2 (Z.eqb_neq y 0)) by lia.
  change y with (root_of (Node rl y rr)). rewrite (IH x) by (simpl in *; done || lia).
  cbn [ids root_of]. rewrite list.last_app_cons, list.last_cons.
  by destruct (last (ids rr)).
Qed.

Lemma next_up_ok i m c x hh :
  NoDup (x :: before c ++ after c) → valid_id x → parent_id (m x) = cid c →
  repc m c x hh → (depth c ≤ i)%nat → next_up_loop i m x x = head (after c).
Proof.
  revert i x hh. induction c as [|c IH p r|l p c IH]; intros i x hh Hnd Vx Px Hc Hd.
  - destruct i; simpl; [done|]. by rewrite Px.
  - destruct i; [simpl in Hd; lia|]. cbn [next_up_loop]. rewrite Px, (avl_id_cid _ _ _ _ Hc).
    destruct Hc as (_ & _ & -> & _). by rewrite Z.eqb_refl.
  - destruct i; [simpl in Hd; lia|]. cbn [next_up_loop]. rewrite Px, (avl_id_cid _ _ _ _ Hc).
    destruct Hc as (Vp & Pp & Lp & Rp & Op & Bp & Bp' & Hl & Hc). simpl in Hnd. nodup.
    rewrite Lp, (proj2 (Z.eqb_neq x _)) by (by apply root_of_notin).
    apply (IH i p (1 + Z.max (height l) hh)); try done; [|simpl in Hd; lia].
    apply NoDup_cons. split; [apply not_elem_of_app; split; sep|]. by apply NoDup_app.
Qed.

Lemma prev_up_ok i m c x hh :
  NoDup (x :: before c ++ after c) → valid_id x → parent_id (m x) = cid c →
  repc m c x hh → (depth c ≤ i)%nat → prev_up_loop i m x x = last (before c).
Proof.
  revert i x hh. induction c as [|c IH p r|l p c IH]; intros i x hh Hnd Vx Px Hc Hd.
  - destruct i; simpl; [done|]. by rewrite Px.
  - destruct i; [simpl in Hd; lia|]. cbn [prev_up_loop]. rewrite Px, (avl_id_cid _ _ _ _ Hc).
    destruct Hc as (Vp & Pp & Lp & Rp & Op & Bp & Bp' & Hr & Hc). simpl in Hnd. nodup.
    rewrite Rp, (proj2 (Z.eqb_neq x _)) by (by apply root_of_notin).
    apply (IH i p (1 + Z.max hh (height r))); try done; [|simpl in Hd; lia].
    apply NoDup_cons. split; [apply not_elem_of_app; split; sep|]. by apply NoDup_app.
  - destruct i; [simpl in Hd; lia|]. cbn [prev_up_loop]. rewrite Px, (avl_id_cid _ _ _ _ Hc).
    destruct Hc as (_ & _ & _ & -> & _). rewrite Z.eqb_refl. cbn [before].
    by rewrite app_assoc, list.last_snoc.
Qed.

(** The neighbours of a member in key order. *)
Lemma avl_next_node_ok m c l x r :
  NoDup (ids (plug c (Node l x r))) → rep m 0 (plug c (Node l x r)) →
  height (plug c (Node l x r)) ≤ Z.of_nat MAX_AVL_HEIGHT →
  avl_next_node m (Some x) = head (ids r ++ after c).
Proof.
  intros Hnd [(Vx & Px & Lx & Rx & _ & _ & _ & _ & Hr) Hc]%rep_plug Hh.
  pose proof (depth_plug c (Node l x r)) as Hd. simpl in Hd. pose proof (height_nonneg l).
  pose proof (height_nonneg r).
  rewrite ids_plug in Hnd. simpl in Hnd. nodup.
  cbn [avl_next_node avl_node_to_id]. rewrite Rx. destruct r as [|rl y rr].
  - cbn [root_of truthy Z.eqb negb]. eapply next_up_ok; try done; [|lia].
    apply NoDup_cons. split; [apply not_elem_of_app; split; sep|by apply NoDup_app].
  - assert (truthy (root_of (Node rl y rr)) = true) as ->.
    { destruct Hr as [[? ?] _]. unfold truthy. simpl. by rewrite (proj2 (Z.eqb_neq y 0)) by lia. }
    unfold avl_min_node_id, avl_min_node. rewrite (min_loop_ok _ _ x) by (done || lia).
    simpl. by destruct (ids rl).
Qed.

Lemma avl_prev_node_ok m c l x r :
  NoDup (ids (plug c (Node l x r))) → rep m 0 (plug c (Node l x r)) →
  height (plug c (Node l x r)) ≤ Z.of_nat MAX_AVL_HEIGHT →
  avl_prev_node m (Some x) = last (before c ++ ids l).
Proof.
  intros Hnd [(Vx & Px & Lx & Rx & _ & _ & _ & Hl & _) Hc]%rep_plug Hh.
  pose proof (depth_plug c (Node l x r)) as Hd. simpl in Hd. pose proof (height_nonneg l).
  pose proof (height_nonneg r).
  rewrite ids_plug in Hnd. simpl in Hnd. nodup.
  cbn [avl_prev_node avl_node_to_id]. rewrite Lx. destruct l as [|ll y lr].
  - cbn [root_of truthy Z.eqb negb ids]. rewrite app_nil_r. eapply prev_up_ok; try done; [|lia].
    apply NoDup_cons. split; [apply not_elem_of_app; split; sep|by apply NoDup_app].
  - assert (truthy (root_of (Node ll y lr)) = true) as ->.
    { destruct Hl as [[? ?] _]. unfold truthy. simpl. by rewrite (proj2 (Z.eqb_neq y 0)) by lia. }
    unfold avl_max_node_id, avl_max_node. rewrite (max_loop_ok _ _ x) by (done || lia).
    cbn [ids]. by rewrite app_assoc, !list.last_app_cons.
Qed.

(** *** Replacing a node by the root of another subtree *)

Lemma set_hole_cid_ne c v m i : (c ≠ Top → i ≠ cid c) → set_hole c v m i = m i.
Proof.
  destruct c; simpl; [done|..]; intros Hi; apply fn_lookup_alter_ne, not_eq_sym; by apply Hi.
Qed.

Lemma cid_in c : c ≠ Top → cid c ∈ before c ++ after c.
Proof. destruct c; [done|..]; intros _; simpl; clear; set_solver. Qed.

Lemma cid_ne c A i : i ∉ before c ++ A ++ after c → c ≠ Top → i ≠ cid c.
Proof. intros Hi Hc ->. pose proof (cid_in c Hc). clear Hc. set_solver. Qed.

Lemma avl_replace_node_eq m t c x w hh :
  valid_id x → x ∉ before c ++ after c →
  parent_id (m x) = cid c → repc m c x hh → root t = croot c x →
  avl_replace_node m t x w
  = (reparent w (cid c) (set_hole c w m), set_root (croot c w) t).
Proof.
  intros Vx Hxc Px Hc Ht.
  set (m1 := set_hole c w m).
  assert (parent_id (m1 x) = cid c) as Px1 by (unfold m1; by rewrite set_hole_ne).
  unfold avl_replace_node. rewrite Px. cbn [avl_node_to_id].
  match goal with |- (if_node _ _ ?e, _) = _ => assert (e = m1) as -> end.
  { rewrite (avl_id_cid _ _ _ _ Hc). pose proof (repc_side m c x hh Hc Vx Hxc) as Hside.
    destruct c; cbn [if_node]; [done|by rewrite Hside..]. }
  f_equal.
  - unfold reparent. destruct (avl_id_to_node w); cbn [if_node]; [|done]. by rewrite Px1.
  - pose proof (repc_cid_valid m c x hh Hc) as [->|[? ?]]; [done|].
    rewrite (proj2 (Z.eqb_neq _ _)) by lia.
    destruct c; [simpl in *; lia|..]; rewrite (croot_indep _ w x) by done;
      by rewrite <- Ht, set_root_same.
Qed.

Lemma avl_replace_node_ok m t c x s p hh :
  NoDup (before c ++ ids s ++ after c) → valid_id x →
  x ∉ before c ++ ids s ++ after c →
  parent_id (m x) = cid c → repc m c x hh → rep m p s → root t = croot c x →
  ∃ m', avl_replace_node m t x (root_of s) = (m', set_root (croot c (root_of s)) t)
    ∧ rep m' (cid c) s ∧ repc m' c (root_of s) hh
    ∧ (∀ i, i ∉ ids s → (c ≠ Top → i ≠ cid c) → m' i = m i)
    ∧ (∀ i, key (m' i) = key (m i)).
Proof.
  intros Hnd Vx Hx Px Hc Hs Ht. nodup.
  assert (NoDup (before c ++ after c)) as Hndc by (by apply NoDup_app).
  assert (x ∉ before c ++ after c) as Hxc by (by apply not_elem_of_app).
  set (m1 := set_hole c (root_of s) m).
  assert (rep m1 p s) as Hs1.
  { apply (rep_frame m); [|done]. intros i Hi. apply set_hole_ne.
    apply not_elem_of_app. split; sep. }
  eexists. split_and!; [by eapply avl_replace_node_eq|..]; fold m1.
  - by apply (rep_reparent m1 p).
  - apply (repc_frame m1); [|by apply (repc_set_hole m c x)]. intros i Hi.
    apply (reparent_ne m1 _ p); [done|]. apply elem_of_app in Hi as [|]; sep.
  - intros i Hi Hic. rewrite (reparent_ne m1 _ p) by done. by apply set_hole_cid_ne.
  - intros i. rewrite reparent_key. apply set_hole_key.
Qed.

(** The least member of a subtree is reached by going left only. *)
Lemma leftmost r :
  r ≠ Leaf → ∃ d x rr, r = plug d (Node Leaf x rr) ∧ before d = [].
Proof.
  induction r as [|l IH i r' _]; [done|]. intros _. destruct l as [|ll j lr].
  - by exists Top, i, r'.
  - destruct IH as (d & x & rr & E & Hb); [done|].
    exists (compose d (InL Top i r')), x, rr.
    by rewrite plug_compose, before_compose, <- E, Hb.
Qed.

(** The successor [nx] takes the place of [n], whose left subtree is [l]. *)
Definition take_place m t (n nx : Z) (st : option Z * Z * bool)
    : mem * avl_tree * option (option Z * Z * bool) :=
  let '(m, t) := avl_replace_node m t n nx in
  let m := set_left_id nx (left_id (m n)) m in
  match avl_id_to_node (left_id (m n)) with
  | None => (m, t, None)
  | Some node_left => (set_parent_id node_left nx m, t, Some st)
  end.

Lemma take_place_ok m t c n l nx h hr st :
  NoDup (before c ++ ids l ++ nx :: after c) → n ∉ before c ++ ids l ++ nx :: after c →
  valid_id n → valid_id nx → parent_id (m n) = cid c → left_id (m n) = root_of l → l ≠ Leaf →
  repc m c n (1 + Z.max (height l) hr) → rep m n l → root t = croot c n →
  right_id (m nx) = h → is_orphan (m nx) = false →
  balance (m nx) = hr - height l → -1 ≤ hr - height l ≤ 1 →
  ∃ m', take_place m t n nx st = (m', set_root (croot c nx) t, Some st)
    ∧ repc m' (InR l nx c) h hr
    ∧ (∀ i, i ∉ before c ++ ids l ++ nx :: after c → m' i = m i)
    ∧ (∀ i, key (m' i) = key (m i)).
Proof.
  intros Hnd Hn Vn Vx Pn Ln Hl Hc Hrl Ht Rx Ox Bx Bx'. nodup.
  assert (n ∉ before c ++ after c) as Hnc by (by apply not_elem_of_app).
  assert (nx ∉ before c ++ after c) as Hxc by (by apply not_elem_of_app).
  assert (NoDup (before c ++ after c)) as Hndc by (by apply NoDup_app).
  set (m1 := set_hole c nx m). set (m2 := set_parent_id nx (cid c) m1).
  set (m3 := set_left_id nx (root_of l) m2).
  assert (rep m3 n l) as Hrl3.
  { unfold m3, m2. apply rep_alter_ne; [sep|]. apply rep_alter_ne; [sep|].
    apply (rep_frame m); [|done]. intros i Hi. apply set_hole_ne.
    apply not_elem_of_app. split; sep. }
  assert (∀ i, i ∉ nx :: before c ++ after c → m3 i = m i) as Hm3.
  { intros i Hi. nodup. unfold m3, m2. mread. apply set_hole_ne. by apply not_elem_of_app. }
  exists (reparent (root_of l) nx m3). split_and!.
  - unfold take_place. rewrite (avl_replace_node_eq _ _ c n nx _ Vn Hnc Pn Hc Ht).
    unfold reparent at 1 2 3 4. rewrite (avl_id_valid nx Vx). cbn [if_node]. fold m1. fold m2.
    assert (left_id (m2 n) = root_of l) as ->.
    { unfold m2. mread. unfold m1. by rewrite set_hole_ne. }
    fold m3. assert (left_id (m3 n) = root_of l) as -> by (by rewrite Hm3 by (apply not_elem_of_cons; split; [sep|done])).
    unfold reparent. rewrite (avl_id_root _ _ _ Hrl3). by destruct l.
  - cbn [repc]. rewrite !(reparent_ne m3 nx n l nx) by done. unfold m3, m2. mread.
    unfold m1. rewrite !set_hole_ne by done. split_and!; try (done || lia).
    + by apply (rep_reparent m3 n).
    + apply (repc_frame m1); [|by apply (repc_set_hole m c n)]. intros i Hi.
      rewrite (reparent_ne m3 _ n) by (done || (apply elem_of_app in Hi as [|]; sep)).
      unfold m3, m2. assert (nx ≠ i) by sep. by mread.
  - intros i Hi. nodup. rewrite (reparent_ne m3 _ n) by done. apply Hm3.
    apply not_elem_of_cons. split; [done|by apply not_elem_of_app].
  - intros i. rewrite reparent_key. unfold m3, m2. rewrite !key_alter by done. apply set_hole_key.
Qed.

(** Only the top of a context records what it hangs below. *)
Lemma croot_in d h : d ≠ Top → croot d h ∈ before d ++ after d.
Proof.
  revert h. induction d as [|d IH i r|l i d IH]; intros h Hd; [done|..]; cbn [croot];
    (destruct d as [|d' j r'|l' j d']; [simpl; clear; set_solver|..]);
    specialize (IH i ltac:(done)); cbn [before after] in *; clear -IH; set_solver.
Qed.

Lemma repd_reparent m p q d h hh :
  d ≠ Top → NoDup (before d ++ after d) → repd m p d h hh →
  repd (set_parent_id (croot d h) q m) q d h hh.
Proof.
  revert h hh. induction d as [|d IH i r|l i d IH]; intros h hh Hd Hnd; [done|..];
    intros (? & Pi & ? & ? & ? & ? & ? & Hr & Hc); cbn [croot repd].
  - simpl in Hnd. nodup. destruct (decide (is_top d)) as [E|E].
    + destruct d; [|done..]. cbn [croot]. mread. split_and!; try (done || lia). mkeep.
    + assert (d ≠ Top) as Hd' by (by intros ->).
      assert (croot d i ≠ i) as Hne.
      { pose proof (croot_in d i Hd') as Hin. apply elem_of_app in Hin as [|]; sep. }
      mread. split_and!; try (done || lia); [by destruct d| |].
      * apply rep_alter_ne; [|done]. pose proof (croot_in d i Hd') as Hin.
        apply elem_of_app in Hin as [|]; sep.
      * apply IH; [done|by apply NoDup_app|done].
  - simpl in Hnd. nodup. destruct (decide (is_top d)) as [E|E].
    + destruct d; [|done..]. cbn [croot]. mread. split_and!; try (done || lia). mkeep.
    + assert (d ≠ Top) as Hd' by (by intros ->).
      assert (croot d i ≠ i) as Hne.
      { pose proof (croot_in d i Hd') as Hin. apply elem_of_app in Hin as [|]; sep. }
      mread. split_and!; try (done || lia); [by destruct d| |].
      * apply rep_alter_ne; [|done]. pose proof (croot_in d i Hd') as Hin.
        apply elem_of_app in Hin as [|]; sep.
      * apply IH; [done|by apply NoDup_app|done].
Qed.

Lemma depth_cheight c hh : Z.of_nat (depth c) + hh ≤ cheight c hh.
Proof. revert hh. induction c as [|c IH i r|l i c IH]; intros hh; simpl; [lia| |];
  [specialize (IH (1 + Z.max hh (height r)))|specialize (IH (1 + Z.max (height l) hh))]; lia. Qed.

(** What is left for the retrace once [n] is out of a tree over [A ++ n :: B]. *)
Definition unlinked m t (res : mem * avl_tree * option (option Z * Z * bool))
    (L : list Z) (h : Z) : Prop :=
  ∃ m' t' c s,
    res = (m', t', Some (avl_id_to_node (cid c), cid c, is_InL c))
    ∧ shrunk m' t' c s (height s + 1) ∧ before c ++ ids s ++ after c = L
    ∧ t' = set_root (root t') t ∧ cheight c (height s + 1) ≤ h
    ∧ (∀ i, i ∉ L → m' i = m i) ∧ (∀ i, key (m' i) = key (m i)).

(** [n] has at most one child, the root of [s]. *)
Lemma unlink_single m t c n s :
  NoDup (before c ++ ids s ++ after c) → n ∉ before c ++ ids s ++ after c →
  valid_id n → parent_id (m n) = cid c → repc m c n (height s + 1) → rep m n s →
  root t = croot c n →
  unlinked m t
    (let '(m', t') := avl_replace_node m t n (root_of s) in
     (m', t', Some (avl_id_to_node (cid c), cid c,
        match avl_id_to_node (cid c) with Some xp => left_id (m xp) =? n | None => false end)))
    (before c ++ ids s ++ after c) (cheight c (height s + 1)).
Proof.
  intros Hnd Hn Vn Pn Hc Hs Ht.
  destruct (avl_replace_node_ok m t c n s n (height s + 1)) as (m' & -> & Hr & Hc' & Hf & Hk);
    try done.
  assert (n ∉ before c ++ after c) as Hnc by (clear -Hn; set_solver).
  assert (match avl_id_to_node (cid c) with Some xp => left_id (m xp) =? n | None => false end
          = is_InL c) as ->.
  { pose proof (side_of m c n _ Hc Vn Hnc) as Hside. rewrite (avl_id_cid _ _ _ _ Hc).
    destruct c; [done|..]; by apply Hside. }
  exists m', (set_root (croot c (root_of s)) t), c, s.
  split_and!; try done; [split; try done; lia|].
  intros i Hi. apply Hf; [clear -Hi; set_solver|by eapply cid_ne].
Qed.

(** The successor is the right child of [n]. *)
Lemma unlink_immediate m t c l n nx rr :
  l ≠ Leaf → NoDup (before c ++ ids l ++ n :: nx :: ids rr ++ after c) →
  rep m 0 (plug c (Node l n (Node Leaf nx rr))) → root t = croot c n →
  unlinked m t
    (take_place (set_balance nx (balance (m n)) m) t n nx (Some nx, nx, false))
    (before c ++ ids l ++ nx :: ids rr ++ after c)
    (cheight c (height (Node l n (Node Leaf nx rr)))).
Proof.
  intros Hl Hnd [(Vn & Pn & Ln & Rn & On & Bn & Bn' & Hrl & Hrr) Hc]%rep_plug Ht.
  pose proof Hrr as (Vx & Px & Lx & Rx & Ox & _ & _ & _ & Hr).
  pose proof (height_nonneg rr). nodup.
  assert (n ≠ nx) by sep. assert (nx ≠ n) by sep.
  destruct (take_place_ok (set_balance nx (balance (m n)) m) t c n l nx (root_of rr)
    (height rr + 1) (Some nx, nx, false)) as (m' & -> & Hc' & Hf & Hk); try done; try (by mread).
  - nodup_goal.
  - nodup_goal.
  - apply repc_alter_ne; [nodup_goal|].
    replace (1 + Z.max (height l) (height rr + 1)) with (height (Node l n (Node Leaf nx rr)))
      by (simpl; lia). done.
  - apply rep_alter_ne; [sep|done].
  - mread. rewrite Bn. simpl. lia.
  - simpl in Bn. lia.
  - exists m', (set_root (croot c nx) t), (InR l nx c), rr. cbn [cid is_InL croot root_of].
    assert (∀ i, i ∉ before c ++ ids l ++ nx :: after c → m' i = m i) as Hf'.
    { intros i Hi. rewrite Hf by done. apply set_balance_ne. clear -Hi. set_solver. }
    rewrite (avl_id_valid nx Vx). split_and!; try done.
    + split; try done; [|apply (rep_frame m); [|done]|lia].
      * cbn [before after]. assoc. nodup_goal.
      * intros i Hi. apply Hf'. nodup_goal.
    + by cbn [before after]; assoc.
    + simpl. apply cheight_mono. lia.
    + intros i Hi. apply Hf'. clear -Hi. set_solver.
    + intros i. rewrite Hk. by apply key_alter.
Qed.

(** The successor [nx] is further down; its right child has taken its place
    below [d] ([m], with the balance of [n] already copied), and now [nx] takes
    the right subtree of [n] and then its place. *)
Lemma unlink_deep_place m t d c l n nx rr hh st :
  d ≠ Top → l ≠ Leaf → before d = [] →
  NoDup (before c ++ ids l ++ n :: nx :: ids rr ++ after d ++ after c) →
  valid_id nx → is_orphan (m nx) = false → balance (m nx) = balance (m n) →
  rep m (cid d) rr → repc m (compose d (InR l n c)) (root_of rr) hh → root t = croot c n →
  let m1 := set_right_id nx (right_id (m n)) m in
  let m2 := set_parent_id (right_id (m1 n)) nx m1 in
  valid_id (right_id (m1 n)) ∧
  ∃ m', take_place m2 t n nx st = (m', set_root (croot c nx) t, Some st)
    ∧ rep m' (cid d) rr ∧ repc m' (compose d (InR l nx c)) (root_of rr) hh
    ∧ (∀ i, i ∉ before c ++ ids l ++ nx :: ids rr ++ after d ++ after c → m' i = m i)
    ∧ (∀ i, key (m' i) = key (m i)).
Proof.
  intros Hd Hl Hbd Hnd Vx Ox Bx Hr [Hrd (Vn & Pn & Ln & Rn & On & Bn & Bn' & Hrl & Hc)]%repc_compose Ht.
  cbn [cid] in Hrd. nodup. assert (nx ≠ n) by sep. intros m1 m2.
  set (h := croot d (root_of rr)) in *.
  assert (h ∈ after d) as Hin by (pose proof (croot_in d (root_of rr) Hd) as Hin; by rewrite Hbd in Hin).
  assert (right_id (m1 n) = h) as E1 by (unfold m1; by mread).
  assert (valid_id h) as Vh.
  { clear -Hrd Hd. unfold h. revert Hrd Hd. generalize (root_of rr) as k. revert hh.
    induction d as [|d IH i r|l' i d IH]; intros hh k Hrd Hd; [done|..]; cbn [croot];
      destruct Hrd as (? & _ & _ & _ & _ & _ & _ & _ & Hrd);
      (destruct d; [done|..]; by eapply IH). }
  unfold m2. rewrite E1. split; [done|]. clear m2. set (m2 := set_parent_id h nx m1).
  assert (∀ i, i ∉ nx :: after d → m2 i = m i) as Hm2.
  { intros i Hi. nodup. unfold m2, m1. rewrite !fn_lookup_alter_ne; [done|..]; sep. }
  assert (h ≠ nx) by sep.
  assert (∀ i, i ≠ h → i ≠ nx → m2 i = m i) as Hm2'
    by (intros; unfold m2, m1; by mread).
  destruct (take_place_ok m2 t c n l nx h (cheight d hh) st) as (m' & -> & Hc' & Hf & Hk);
    try done; rewrite ?(Hm2' n) by sep; try done.
  - nodup_goal.
  - nodup_goal.
  - apply (repc_frame m); [|done]. intros i Hi. apply Hm2. nodup_goal.
  - apply (rep_frame m); [|done]. intros i Hi. apply Hm2. nodup_goal.
  - unfold m2, m1. by mread.
  - unfold m2, m1. by mread.
  - unfold m2, m1. mread. by rewrite Bx, Bn.
  - by rewrite <- Bn.
  - exists m'. split_and!; [done|..].
    + apply (rep_frame m); [|done]. intros i Hi. rewrite Hf, Hm2; [done|nodup_goal..].
    + apply repc_compose. split; [|done]. cbn [cid].
      apply (repd_frame m2).
      { intros i Hi. rewrite Hbd in Hi. apply Hf. nodup_goal. }
      apply (repd_reparent m1 n); [done|by rewrite Hbd|].
      apply (repd_frame m); [|done]. intros i Hi. rewrite Hbd in Hi.
      apply fn_lookup_alter_ne. sep.
    + intros i Hi. nodup. rewrite Hf, Hm2; [done|nodup_goal..].
    + intros i. rewrite Hk. unfold m2, m1. by rewrite !key_alter.
Qed.

Lemma unlink_deep m t d c l n nx rr :
  d ≠ Top → l ≠ Leaf → before d = [] →
  NoDup (ids (plug c (Node l n (plug d (Node Leaf nx rr))))) →
  rep m 0 (plug c (Node l n (plug d (Node Leaf nx rr)))) → root t = croot c n →
  let m1 := set_balance nx (balance (m n)) m in
  ∃ x, avl_id_to_node (parent_id (m1 nx)) = Some x ∧
    unlinked m t
      (let x_id := parent_id (m1 nx) in
       let from_the_left := left_id (m1 x) =? nx in
       let '(m2, t2) := avl_replace_node m1 t nx (right_id (m1 nx)) in
       let m3 := set_right_id nx (right_id (m2 n)) m2 in
       match avl_id_to_node (right_id (m3 n)) with
       | None => (m3, t2, None)
       | Some node_right =>
           take_place (set_parent_id node_right nx m3) t2 n nx (Some x, x_id, from_the_left)
       end)
      (before c ++ ids l ++ nx :: ids rr ++ after d ++ after c)
      (cheight c (height (Node l n (plug d (Node Leaf nx rr))))).
Proof.
  intros Hd Hl Hbd Hnd Hrep Ht m1. set (C := compose d (InR l n c)).
  assert (plug c (Node l n (plug d (Node Leaf nx rr))) = plug C (Node Leaf nx rr)) as HC
    by (unfold C; by rewrite plug_compose).
  rewrite HC in *. rewrite ids_plug in Hnd. unfold C in Hnd at 1 2.
  rewrite before_compose, after_compose, Hbd, app_nil_r in Hnd. cbn [before after ids] in Hnd.
  repeat (rewrite <- app_assoc in Hnd; simpl in Hnd).
  apply rep_plug in Hrep as [(Vx & Px & Lx & Rx & Ox & Bx & Bx' & _ & Hr) Hc].
  cbn [root_of] in Hc.
  assert (before C = before c ++ ids l ++ [n]) as HbC
    by (unfold C; rewrite before_compose, Hbd; by assoc).
  assert (after C = after d ++ after c) as HaC by (unfold C; by rewrite after_compose).
  assert (C ≠ Top) as HCt by (by destruct d).
  assert (cid C = cid d) as HcC by (unfold C; by destruct d).
  assert (cid d ∈ after d) as Hcd by (pose proof (cid_in d Hd) as Hcd; by rewrite Hbd in Hcd).
  nodup. assert (nx ≠ n) by sep.
  assert (repc m1 C nx (1 + height rr)) as Hc1.
  { apply repc_alter_ne; [rewrite HbC, HaC; nodup_goal|].
    pose proof (height_nonneg rr). simpl in Hc. by rewrite Z.max_r in Hc by lia. }
  assert (nx ∉ before C ++ after C) as HxC by (rewrite HbC, HaC; nodup_goal).
  assert (m1 nx = with_balance (balance (m n)) (m nx)) as Em1 by (unfold m1; by mread).
  exists (cid C). rewrite Em1. cbn [with_balance parent_id right_id]. rewrite Px.
  split. { rewrite (avl_id_cid _ _ _ _ Hc1). by destruct C. }
  rewrite (side_of m1 C nx _ Hc1 Vx HxC HCt), Rx.
  destruct (avl_replace_node_ok m1 t C nx rr nx (1 + height rr)) as (m2 & -> & Hr2 & Hc2 & Hf2 & Hk2);
    try done.
  { rewrite HbC, HaC. nodup_goal. }
  { rewrite HbC, HaC. nodup_goal. }
  { by rewrite Em1. }
  { apply rep_alter_ne; [sep|done]. }
  { unfold C. by rewrite croot_compose. }
  assert (set_root (croot C (root_of rr)) t = t) as ->.
  { unfold C. rewrite croot_compose. cbn [croot]. by rewrite <- Ht, set_root_same. }
  assert (m2 nx = m1 nx) as E2.
  { apply Hf2; [sep|]. apply (cid_ne _ []). done. }
  pose proof (unlink_deep_place m2 t d c l n nx rr (1 + height rr)
    (Some (cid C), cid C, is_InL C)) as Hplace. cbv zeta in Hplace.
  destruct Hplace as [Hv (m' & E' & Hr' & Hc' & Hf' & Hk')]; try done; rewrite ?E2, ?Em1; try done.
  { nodup_goal. }
  { pose proof Hc2 as [_ (_ & _ & _ & _ & _ & -> & _)]%repc_compose.
    pose proof Hc1 as [_ (_ & _ & _ & _ & _ & <- & _)]%repc_compose. unfold m1. by mread. }
  { unfold C in Hr2. rewrite cid_compose in Hr2. by destruct d. }
  rewrite (avl_id_valid _ Hv), E'.
  exists m', (set_root (croot c nx) t), (compose d (InR l nx c)), rr.
  cbn [croot cid before after] in *.
  assert (∀ i, i ∉ before c ++ ids l ++ nx :: ids rr ++ after d ++ after c → m' i = m i) as Hf.
  { intros i Hi. rewrite Hf' by done. nodup. rewrite Hf2; [by apply set_balance_ne|done|].
    intros _. rewrite HcC. sep. }
  split_and!; try done.
  - rewrite cid_compose, is_InL_compose by done. unfold C. rewrite is_InL_compose by done.
    fold C. rewrite HcC. assert (valid_id (cid d)) as Vd.
    { rewrite <- HcC. pose proof (repc_cid_valid _ _ _ _ Hc1) as [|]; done. }
    rewrite <- (avl_id_valid _ Vd). by destruct d.
  - split; rewrite ?before_compose, ?after_compose, ?Hbd, ?cid_compose, ?croot_compose.
    + cbn [before after]. rewrite app_nil_r. assoc. nodup_goal.
    + by destruct d.
    + by rewrite Z.add_comm.
    + done.
    + lia.
  - rewrite before_compose, after_compose, Hbd. cbn [before after]. rewrite app_nil_r. by assoc.
  - rewrite cheight_compose. cbn [cheight height]. rewrite height_cheight. cbn [height].
    apply cheight_mono. pose proof (cheight_mono d (height rr + 1) (1 + Z.max 0 (height rr))). lia.
  - intros i. rewrite Hk', Hk2. by apply key_alter.
Qed.

End unlink.
