(* ===== verification/AvlDeleteSpec.v ===== *)
(** * AvlDeleteSpec: avl_tree_delete refines removal from the member list *)

From stdpp Require Import base tactics numbers list functions sets sorting.
From Stdlib Require Import ZArith Lia.
From S2P Require Import Prelude Avl AvlRep AvlInsert AvlInv AvlInsertSpec AvlDelete.

Local Open Scope Z_scope.

Section delete_spec.
Context `{AvlConfig}.
Implicit Types (m : mem) (t : avl_tree) (T s l r : tree) (c d : ctx) (A B L O : list Z).

(** A member splits the tree at its place. *)
Lemma ids_split T n : n ∈ ids T → ∃ c l r, T = plug c (Node l n r).
Proof.
  enough (∀ T c, n ∈ ids T → ∃ c' l r, plug c T = plug c' (Node l n r)) as Hg.
  { intros Hn. by destruct (Hg T Top Hn) as (c' & l & r & E); exists c', l, r. }
  clear T. induction T as [|l IHl i r IHr]; intros c Hn; [by apply not_elem_of_nil in Hn|].
  cbn [ids] in Hn. apply elem_of_app in Hn as [Hn|[->|Hn]%elem_of_cons].
  - apply (IHl (InL c i r) Hn).
  - by exists c, l, r.
  - apply (IHr (InR l i c) Hn).
Qed.

Lemma root_truthy m p s : rep m p s → s ≠ Leaf → truthy (root_of s) = true.
Proof.
  destruct s as [|l i r]; [done|]. intros [[? ?] _] _. unfold truthy. simpl.
  by rewrite (proj2 (Z.eqb_neq i 0)) by lia.
Qed.

(** The cached minimum and maximum once [n] is gone. *)
Lemma delete_update_cache_ok m t c l n r :
  let T := plug c (Node l n r) in
  let A := before c ++ ids l in let B := ids r ++ after c in
  rep m 0 T → NoDup (ids T) → height T ≤ Z.of_nat MAX_AVL_HEIGHT →
  min_id t = List.hd 0 (ids T) → min_key t = key (m (List.hd 0 (ids T))) →
  max_id t = List.last (ids T) 0 → max_key t = key (m (List.last (ids T) 0)) →
  let t' := delete_update_cache m t n in
  root t' = root t ∧ first_orphan_id t' = first_orphan_id t
  ∧ min_id t' = List.hd 0 (A ++ B) ∧ (A ++ B ≠ [] → min_key t' = key (m (List.hd 0 (A ++ B))))
  ∧ max_id t' = List.last (A ++ B) 0 ∧ (A ++ B ≠ [] → max_key t' = key (m (List.last (A ++ B) 0))).
Proof.
  intros T A B Hr Hnd Hh.
  assert (ids T = A ++ n :: B) as E by (unfold T, A, B; rewrite ids_plug; by assoc).
  assert (avl_next_node m (Some n) = head B) as En by (by apply (avl_next_node_ok m c l)).
  assert (avl_prev_node m (Some n) = last A) as Ep by (by apply (avl_prev_node_ok m c l n r)).
  rewrite E in *. intros Hmin Hmink Hmax Hmaxk. clearbody A B. clear E T Hr Hh.
  unfold delete_update_cache. cbn [avl_node_to_id]. rewrite En, Ep.
  assert ((n =? min_id t) = bool_decide (A = [])) as ->.
  { rewrite Hmin. destruct A as [|a A]; simpl; [by rewrite Z.eqb_refl|]. simpl in Hnd. nodup.
    apply Z.eqb_neq. done. }
  match goal with |- context [n =? max_id ?e] => set (t1 := e);
    assert (max_id t1 = max_id t ∧ max_key t1 = max_key t ∧ root t1 = root t
            ∧ first_orphan_id t1 = first_orphan_id t
            ∧ min_id t1 = List.hd 0 (A ++ B)
            ∧ (A ++ B ≠ [] → min_key t1 = key (m (List.hd 0 (A ++ B))))) as (E1 & E2 & E3 & E4 & E5 & E6);
    [|clearbody t1] end.
  { unfold t1. destruct A as [|a A]; simpl in *; [|by subst]. destruct B; by simpl. }
  rewrite E1, Hmax, last_app, last_cons, last_app.
  rewrite last_app, last_cons in Hmax, Hmaxk.
  destruct B as [|b B].
  - simpl in *. rewrite app_nil_r, Z.eqb_refl in *.
    destruct A as [|a A _] using rev_ind; [done|].
    rewrite list.last_snoc, last_snoc. simpl. by split_and!.
  - rewrite last_cons in *. rewrite (proj2 (Z.eqb_neq n _)).
    + rewrite (last_cons b B (List.last A 0)). split_and!; try done; congruence.
    + rewrite <- (last_cons b B 0).
      apply NoDup_app in Hnd as (_ & _ & [Hn _]%NoDup_cons).
      intros E. apply Hn. rewrite E. by apply last_in.
Qed.

Lemma delete_unlink_ok m t c l n r :
  let T := plug c (Node l n r) in
  rep m 0 T → NoDup (ids T) → height T ≤ Z.of_nat MAX_AVL_HEIGHT → root t = root_of T →
  unlinked m t (delete_unlink m t n) (before c ++ ids l ++ ids r ++ after c) (height T).
Proof.
  intros T Hrep Hnd Hh Ht. unfold T in *. rewrite root_plug in Ht. cbn [root_of] in Ht.
  pose proof Hrep as [(Vn & Pn & Ln & Rn & On & Bn & Bn' & Hl & Hr) Hc]%rep_plug.
  cbn [root_of] in Hc. rewrite height_cheight.
  assert (NoDup (before c ++ ids l ++ n :: ids r ++ after c)) as Hnd'
    by (rewrite ids_plug in Hnd; revert Hnd; by assoc).
  pose proof (height_nonneg l). pose proof (height_nonneg r).
  unfold delete_unlink. cbn [avl_node_to_id]. rewrite Pn, Ln, Rn.
  destruct (decide (is_leaf l)) as [El|El].
  { destruct l; [|done]. cbn [root_of truthy Z.eqb negb ids app].
    replace (height (Node Leaf n r)) with (height r + 1) in * by (simpl; lia).
    apply (unlink_single m t c n r); try done; cbn [ids app] in Hnd'; nodup; nodup_goal. }
  assert (l ≠ Leaf) as Hlne by (by intros ->). rewrite (root_truthy m n l) by done.
  cbn [negb]. destruct (decide (is_leaf r)) as [Er|Er].
  { destruct r; [|done]. cbn [root_of truthy Z.eqb negb ids app].
    replace (height (Node l n Leaf)) with (height l + 1) in * by (simpl; lia).
    apply (unlink_single m t c n l); try done; cbn [ids app] in Hnd'; nodup; nodup_goal. }
  assert (r ≠ Leaf) as Hrne by (by intros ->). rewrite (root_truthy m n r) by done.
  destruct (leftmost r Hrne) as (d & nx & rr & -> & Hbd).
  cbn [negb]. rewrite (avl_next_node_ok m c l n _ Hnd Hrep Hh).
  assert (ids (plug d (Node Leaf nx rr)) ++ after c = nx :: ids rr ++ after d ++ after c) as HB
    by (rewrite ids_plug, Hbd; by assoc).
  rewrite HB in *. cbn [head].
  assert (parent_id (m nx) = match d with Top => n | _ => cid d end) as Px.
  { change (plug c _) with (plug (InR l n c) (plug d (Node Leaf nx rr))) in Hrep.
    rewrite <- plug_compose in Hrep. apply rep_plug in Hrep as [(_ & Px & _) _].
    by rewrite Px, cid_compose. }
  assert (parent_id (set_balance nx (balance (m n)) m nx) = parent_id (m nx)) as Epx by (by mread).
  destruct (decide (is_top d)) as [Ed|Ed].
  - destruct d; [|done..]. rewrite Epx, Px, Z.eqb_refl. cbn [negb plug after app].
    by apply unlink_immediate.
  - assert (d ≠ Top) as Hdne by (by intros ->).
    rewrite Epx, (proj2 (Z.eqb_neq _ n)).
    + cbn [negb]. rewrite <- Epx.
      destruct (unlink_deep m t d c l n nx rr) as (x & Ex & Hu); try done.
      cbv zeta in Hu. rewrite Ex. revert Hu.
      destruct (avl_replace_node _ t nx _) as [m2 t2].
      destruct (avl_id_to_node (right_id (set_right_id nx (right_id (m2 n)) m2 n))); done.
    + rewrite Px. pose proof (cid_in d Hdne) as Hcd. rewrite Hbd in Hcd. nodup.
      destruct d; [done|..]; sep.
Qed.

(** A header whose tree was relinked over other members. *)
Lemma avl_wf_relinked m m' T' O L t1 :
  rep m' 0 T' → ids T' = L → root t1 = root_of T' → height T' ≤ Z.of_nat MAX_AVL_HEIGHT →
  (∀ i, i ∉ L → m' i = m i) → (∀ i, key (m' i) = key (m i)) →
  NoDup (L ++ O) → sorted_by (λ i, key (m i)) L → olist m O → first_orphan_id t1 = List.hd 0 O →
  min_id t1 = List.hd 0 L → (L ≠ [] → min_key t1 = key (m (List.hd 0 L))) →
  max_id t1 = List.last L 0 → (L ≠ [] → max_key t1 = key (m (List.last L 0))) →
  avl_wf m' t1 T' O.
Proof.
  intros Hr <- Hroot Hh Hf Hk Hnd Hs HO HfO Hmin Hmink Hmax Hmaxk.
  pose proof (nodup_app _ _ Hnd) as (_ & Hap & _).
  split; try done.
  - by apply (sorted_by_ext (λ i, key (m i))).
  - intros. rewrite Hk. by apply Hmink.
  - intros. rewrite Hk. by apply Hmaxk.
  - apply (olist_frame m); [|done]. intros i Hi. apply Hf. sep.
Qed.

Lemma delete_out_ok m t T O A B n :
  avl_wf m t T O → ids T = A ++ n :: B →
  ∃ m1 t1 x x_id from_the_left m2 t2 T2,
    delete_unlink m (delete_update_cache m t n) n = (m1, t1, Some (x, x_id, from_the_left))
    ∧ delete_retrace MAX_AVL_HEIGHT m1 t1 x x_id from_the_left = (m2, t2, true)
    ∧ avl_wf m2 t2 T2 O ∧ ids T2 = A ++ B
    ∧ (∀ i, i ∉ A ++ B → m2 i = m i) ∧ (∀ i, key (m2 i) = key (m i)).
Proof.
  intros [Hr Hroot Hnd Hs Hh Hmin Hmink Hmax Hmaxk HO HfO] HAB.
  destruct (ids_split T n) as (c & l & r & ->); [rewrite HAB; set_solver|].
  pose proof (nodup_app _ _ Hnd) as (HndT & _ & _).
  assert (ids (plug c (Node l n r)) = (before c ++ ids l) ++ n :: (ids r ++ after c)) as E
    by (rewrite ids_plug; by assoc).
  assert (A = before c ++ ids l ∧ B = ids r ++ after c) as [-> ->].
  { destruct (app_inj_pivot (before c ++ ids l) (ids r ++ after c) A B n) as [-> ->];
      by rewrite <- ?E. }
  assert (ids (plug c (Node l n r)) ≠ []) as Hne by (rewrite E; by destruct (before c ++ ids l)).
  destruct (delete_update_cache_ok m t c l n r) as (C1 & C2 & C3 & C4 & C5 & C6); auto.
  set (t0 := delete_update_cache m t n) in *.
  destruct (delete_unlink_ok m t0 c l n r) as (m1 & t1 & c' & s & -> & Hsh & HL & Ht1 & Hch & Hf1 & Hk1);
    try done; [by rewrite C1|].
  destruct (delete_retrace_ok MAX_AVL_HEIGHT m1 t1 c' s (height s + 1) Hsh)
    as (m2 & t2 & Hret & (T2 & Hr2 & Hid2 & Hh2 & Ht2 & Hf2 & Hk2)).
  { pose proof (depth_cheight c' (height s + 1)). pose proof (height_nonneg s). lia. }
  assert (before c ++ ids l ++ ids r ++ after c = (before c ++ ids l) ++ ids r ++ after c) as EL
    by (by assoc).
  rewrite HL, EL in *. rewrite E in Hs, Hnd.
  do 8 eexists. split; [done|]. split; [exact Hret|].
  assert (∀ i, i ∉ (before c ++ ids l) ++ ids r ++ after c → m2 i = m i) as Hf
    by (intros i Hi; by rewrite Hf2, Hf1).
  assert (∀ i, key (m2 i) = key (m i)) as Hk by (intros; by rewrite Hk2, Hk1).
  split_and!; try done.
  assert (t2 = set_root (root_of T2) t0) as -> by (rewrite Ht2, Ht1; done).
  eapply (avl_wf_relinked m m2 T2 O); try done.
  - lia.
  - clear -Hnd. rewrite <- app_assoc in Hnd |- *. nodup. nodup_goal.
  - by apply sorted_delete in Hs.
  - by rewrite <- HfO.
Qed.

(** Deleting a member gives the first orphan another try. *)
Lemma retry_orphan_ok m t T O :
  (1 ≤ MAX_AVL_HEIGHT)%nat → avl_wf m t T O →
  let '(m', t') := match pop_first_orphan m t with
                   | (m, t, None) => (m, t)
                   | (m, t, Some o) => avl_tree_insert m t o
                   end in
  (∀ i, key (m' i) = key (m i)) ∧ (∀ i, i ∉ ids T ++ O → m' i = m i)
  ∧ match O with
    | [] => avl_wf m' t' T []
    | o :: O' =>
        (∃ T', avl_wf m' t' T' O' ∧ ids T' = ord_insert (λ i, key (m i)) o (ids T))
        ∨ (avl_wf m' t' T (o :: O') ∧ height T = Z.of_nat MAX_AVL_HEIGHT)
    end.
Proof.
  intros HM [Hr Hroot Hnd Hs Hh Hmin Hmink Hmax Hmaxk HO HfO].
  pose proof (nodup_app _ _ Hnd) as (HndT & Hap & HndO).
  pose proof (pop_first_orphan_ok m t O HO HfO HndO) as Hpop.
  destruct (pop_first_orphan m t) as [[m1 t1] o]. destruct Hpop as (-> & -> & HO1 & Hf1 & Hk1).
  destruct O as [|o O].
  { cbn [head]. split_and!; [apply Hk1|intros i _; apply Hf1, not_elem_of_nil|].
    assert (∀ i, m1 i = m i) as Hm by (intros; apply Hf1, not_elem_of_nil).
    split; try done; try (by rewrite ?Hm).
    - apply (rep_frame m); [|done]. auto.
    - apply (sorted_by_ext (λ i, key (m i))); [|done]. intros. by rewrite Hm. }
  cbn [head List.tl] in *. apply NoDup_cons in HndO as [HoO HndO].
  apply apart_cons_r in Hap as [HoT Hap].
  assert (avl_wf m1 (set_first_orphan_id (List.hd 0 O) t) T O) as Hwf1.
  { split; try done.
    - apply (rep_frame m); [|done]. intros i Hi. apply Hf1. nodup_goal.
    - nodup_goal.
    - apply (sorted_by_ext (λ i, key (m i))); [|done]. intros. apply Hk1.
    - intros. rewrite (proj1 (Hk1 _)). by apply Hmink.
    - intros. rewrite (proj1 (Hk1 _)). by apply Hmaxk. }
  pose proof (avl_tree_insert_ok m1 (set_first_orphan_id (List.hd 0 O) t) T O o) as Hins.
  destruct (avl_tree_insert _ _ o) as [m' t'].
  destruct Hins as (Hk & Hf & Hres); try done.
  { apply (olist_orphan m (o :: O)); [done|by left]. }
  { nodup_goal. }
  split_and!.
  - intros i. by rewrite Hk, (proj1 (Hk1 i)).
  - intros i Hi. nodup. rewrite Hf, Hf1; [done|nodup_goal..].
  - destruct Hres as [(T' & ? & E)|?]; [left|by right]. exists T'. split; [done|]. rewrite E.
    apply ord_insert_ext. intros i. apply Hk1.
Qed.

Lemma avl_tree_delete_member m t T O A B n :
  (1 ≤ MAX_AVL_HEIGHT)%nat → avl_wf m t T O → ids T = A ++ n :: B →
  let '(m', t') := avl_tree_delete m t n in
  (∀ i, key (m' i) = key (m i)) ∧ (∀ i, i ∉ A ++ B ++ O → m' i = m i)
  ∧ match O with
    | [] => ∃ T', avl_wf m' t' T' [] ∧ ids T' = A ++ B
    | o :: O' =>
        (∃ T', avl_wf m' t' T' O' ∧ ids T' = ord_insert (λ i, key (m i)) o (A ++ B))
        ∨ (∃ T', avl_wf m' t' T' (o :: O') ∧ ids T' = A ++ B
                 ∧ height T' = Z.of_nat MAX_AVL_HEIGHT)
    end.
Proof.
  intros HM Hwf HAB.
  destruct (delete_out_ok m t T O A B n Hwf HAB)
    as (m1 & t1 & x & x_id & fl & m2 & t2 & T2 & Hun & Hret & Hwf2 & Hid2 & Hf2 & Hk2).
  assert (is_orphan (m n) = false) as On.
  { destruct (ids_split T n) as (c & l & r & ->); [rewrite HAB; set_solver|].
    destruct Hwf as [[(_ & _ & _ & _ & On & _) _]%rep_plug]. done. }
  unfold avl_tree_delete. rewrite On, Hun, Hret.
  pose proof (retry_orphan_ok m2 t2 T2 O HM Hwf2) as Hretry.
  destruct (match pop_first_orphan m2 t2 with
            | (m, t, None) => (m, t) | (m, t, Some o) => avl_tree_insert m t o end) as [m' t'].
  destruct Hretry as (Hk & Hf & Hres). split_and!.
  - intros i. by rewrite Hk, Hk2.
  - intros i Hi. rewrite Hf, Hf2; [done|set_solver|rewrite Hid2; set_solver].
  - rewrite Hid2 in Hres. destruct O as [|o O]; [by exists T2|].
    destruct Hres as [(T' & ? & E)|[? ?]]; [left; exists T'|right; by exists T2].
    split; [done|]. rewrite E. by apply ord_insert_ext.
Qed.

(** Deleting an orphan takes it off the orphan list. *)
Lemma avl_tree_delete_orphan m t T A B n :
  avl_wf m t T (A ++ n :: B) →
  let '(m', t') := avl_tree_delete m t n in
  (∀ i, key (m' i) = key (m i)) ∧ (∀ i, i ∉ A ++ n :: B → m' i = m i)
  ∧ avl_wf m' t' T (A ++ B).
Proof.
  intros [Hr Hroot Hnd Hs Hh Hmin Hmink Hmax Hmaxk HO HfO].
  pose proof (nodup_app _ _ Hnd) as (HndT & Hap & HndO).
  destruct (olist_orphan m (A ++ n :: B) n HO) as [Vn On]; [set_solver|].
  unfold avl_tree_delete. rewrite On.
  pose proof (remove_orphan_ok m t A n B HO HfO HndO) as Hrem.
  destruct (remove_orphan m t n) as [m1 t1]. destruct Hrem as (HO1 & -> & Hf1 & Hk1).
  set (m' := set_is_orphan n false m1).
  assert (∀ i, i ∉ A ++ n :: B → m' i = m i) as Hf.
  { intros i Hi. unfold m'. rewrite fn_lookup_alter_ne by set_solver. by apply Hf1. }
  assert (∀ i, key (m' i) = key (m i)) as Hk.
  { intros i. unfold m'. rewrite key_alter by done. apply Hk1. }
  split_and!; [done|done|]. nodup. split; try done.
  - apply (rep_frame m); [|done]. intros i Hi. apply Hf. nodup_goal.
  - nodup_goal.
  - by apply (sorted_by_ext (λ i, key (m i))).
  - intros. rewrite Hk. by apply Hmink.
  - intros. rewrite Hk. by apply Hmaxk.
  - apply (olist_frame m1); [|done]. intros i Hi. unfold m'. apply fn_lookup_alter_ne.
    apply elem_of_app in Hi as [|]; sep.
Qed.

End delete_spec.
