(* ===== verification/AvlSpec.v ===== *)
(** * AvlSpec: what the AVL tree promises to its users

    The abstract state is the pair of the member list in key order and the
    orphan list.  The theorems show that each operation of lib/avl.bpf.h
    refines its specification on that state; [avl_run_refines] puts them
    together for whole sequences of calls on a tree that is too large for the
    array to ever need an orphan. *)

From stdpp Require Import base tactics numbers list functions sets sorting.
From Stdlib Require Import ZArith Lia.
From S2P Require Import Prelude Avl AvlRep AvlInsert AvlInv AvlInsertSpec AvlDelete.
From S2P Require Import AvlDeleteSpec.

Local Open Scope Z_scope.

(** ** A tree of three members and one orphan *)

Definition flux_avl : AvlConfig := {| MAX_AVL_HEIGHT := 23; nr_ids := 65535 |}.

Definition sample_mem : mem := λ i,
  if i =? 1 then mk_avl_node 20 2 3 0 0 false 0 0
  else if i =? 2 then mk_avl_node 10 0 0 1 0 false 0 0
  else if i =? 3 then mk_avl_node 20 0 0 1 0 false 0 0
  else if i =? 4 then mk_avl_node 30 0 0 0 0 true 0 0
  else mk_avl_node 15 0 0 0 0 false 0 0.

Definition sample_tree : avl_tree := mk_avl_tree 1 2 10 3 20 4.

(** ** Specification *)

Section spec.
Context `{AvlConfig}.
Implicit Types (m : mem) (t : avl_tree) (T s l r : tree) (c d : ctx) (A B L O : list Z).

(** A new node becomes a member at its place, or, only if the tree is as high
    as the loops allow and so has [min_size MAX_AVL_HEIGHT] members, an orphan. *)
Definition insert_spec (k : Z → Z) (n : Z) L O L' O' : Prop :=
  (L' = ord_insert k n L ∧ O' = O)
  ∨ (L' = L ∧ O' = n :: O ∧ min_size MAX_AVL_HEIGHT ≤ Z.of_nat (length L)).

(** A deleted member makes room for the first orphan. *)
Definition delete_spec (k : Z → Z) A B O L' O' : Prop :=
  match O with
  | [] => L' = A ++ B ∧ O' = []
  | o :: O0 => insert_spec k o (A ++ B) O0 L' O'
  end.

(** The array is rearranged at [W] only, and no key changes. *)
Definition only_at m m' (W : list Z) : Prop :=
  (∀ i, i ∉ W → m' i = m i) ∧ (∀ i, key (m' i) = key (m i)).

(** *** Sequences of calls *)

Inductive avl_op :=
  | SetKey (n k : Z)  (* the owner of a node outside the tree writes its key *)
  | Insert (n : Z)
  | Delete (n : Z)
  | PopMin
  | PopMax.

Definition with_key (k : Z) (n : avl_node) : avl_node :=
  mk_avl_node k (left_id n) (right_id n) (parent_id n) (balance n) (is_orphan n)
    (prev_orphan_id n) (next_orphan_id n).

Definition avl_exec (st : mem * avl_tree) (op : avl_op) : mem * avl_tree :=
  let '(m, t) := st in
  match op with
  | SetKey n k => (alter (with_key k) n m, t)
  | Insert n => avl_tree_insert m t n
  | Delete n => avl_tree_delete m t n
  | PopMin => (avl_tree_pop_min m t).1
  | PopMax => (avl_tree_pop_max m t).1
  end.

(** The same calls on the keys and the sorted list; [None] is a call outside
    the contract (an id out of range, a double insertion, a deletion of a node
    that is not in the tree, a key written while the node is in the tree). *)
Definition spec_exec (st : (Z → Z) * list Z) (op : avl_op) : option ((Z → Z) * list Z) :=
  let '(k, L) := st in
  match op with
  | SetKey n v => if bool_decide (n ∈ L) then None else Some (<[n := v]> k, L)
  | Insert n =>
      if bool_decide (n ∈ L) || negb ((0 <? n) && (n <=? nr_ids)) then None
      else Some (k, ord_insert k n L)
  | Delete n => if bool_decide (n ∈ L) then Some (k, filter (λ i, i ≠ n) L) else None
  | PopMin => Some (k, List.tl L)
  | PopMax => Some (k, List.removelast L)
  end.

Definition avl_run (ops : list avl_op) (st : mem * avl_tree) : mem * avl_tree :=
  fold_left avl_exec ops st.

Definition spec_run (ops : list avl_op) (st : (Z → Z) * list Z) : option ((Z → Z) * list Z) :=
  fold_left (λ o op, match o with Some a => spec_exec a op | None => None end) ops (Some st).

(** ** Lemmas *)

Lemma abs_height_size m t T O :
  avl_wf m t T O → height T = Z.of_nat MAX_AVL_HEIGHT →
  min_size MAX_AVL_HEIGHT ≤ Z.of_nat (length (ids T)).
Proof.
  intros [Hr] Hh. pose proof (rep_min_size m 0 T Hr) as Hm.
  by rewrite Hh, Nat2Z.id in Hm.
Qed.

Lemma avl_insert_abs m t L O n :
  (1 ≤ MAX_AVL_HEIGHT)%nat → avl_abs m t L O → valid_id n → n ∉ L ++ O →
  let '(m', t') := avl_tree_insert m t n in
  ∃ L' O', avl_abs m' t' L' O' ∧ insert_spec (λ i, key (m i)) n L O L' O'
           ∧ only_at m m' (n :: L ++ O).
Proof.
  intros HM (T & Hwf & <-) Vn Hn.
  pose proof (avl_tree_insert_ok m t T O n HM Hwf Vn Hn) as Hins.
  destruct (avl_tree_insert m t n) as [m' t']. destruct Hins as (Hk & Hf & [(T' & Hwf' & E)|[Hwf' Hh]]).
  - exists (ids T'), O. split_and!; [by exists T'|by left|done].
  - exists (ids T), (n :: O). split_and!; [by exists T| |done].
    right. split_and!; [done|done|]. by eapply abs_height_size.
Qed.

Lemma avl_delete_abs m t A B O n :
  (1 ≤ MAX_AVL_HEIGHT)%nat → avl_abs m t (A ++ n :: B) O →
  let '(m', t') := avl_tree_delete m t n in
  ∃ L' O', avl_abs m' t' L' O' ∧ delete_spec (λ i, key (m i)) A B O L' O'
           ∧ only_at m m' (A ++ B ++ O).
Proof.
  intros HM (T & Hwf & E).
  pose proof (avl_tree_delete_member m t T O A B n HM Hwf E) as Hdel.
  destruct (avl_tree_delete m t n) as [m' t']. destruct Hdel as (Hk & Hf & Hres).
  destruct O as [|o O].
  - destruct Hres as (T' & Hwf' & E'). exists (A ++ B), []. split_and!; [by exists T'|done|done].
  - destruct Hres as [(T' & Hwf' & E')|(T' & Hwf' & E' & Hh)].
    + exists (ids T'), O. split_and!; [by exists T'|by left|done].
    + exists (ids T'), (o :: O). split_and!; [by exists T'| |done].
      right. rewrite <- E'. split_and!; [done|done|]. by eapply abs_height_size.
Qed.

Lemma abs_nodup m t L O : avl_abs m t L O → NoDup (L ++ O).
Proof. intros (T & Hwf & <-). apply Hwf. Qed.

Lemma abs_sorted m t L O : avl_abs m t L O → sorted_by (λ i, key (m i)) L.
Proof. intros (T & Hwf & <-). apply Hwf. Qed.

Lemma abs_min m t L O : avl_abs m t L O → avl_tree_min t = head L.
Proof.
  intros (T & [Hr _ _ _ _ Hmin _ _ _ _ _] & <-). unfold avl_tree_min. rewrite Hmin.
  destruct (ids T) as [|x L] eqn:E; [done|]. apply avl_id_valid, (rep_ids_valid m 0 T); [done|].
  rewrite E. by left.
Qed.

Lemma abs_max m t L O : avl_abs m t L O → avl_tree_max t = last L.
Proof.
  intros (T & [Hr _ _ _ _ _ _ Hmax _ _ _] & <-). unfold avl_tree_max. rewrite Hmax.
  destruct (ids T) as [|x L _] eqn:E using rev_ind; [done|].
  rewrite last_snoc, list.last_snoc. apply avl_id_valid, (rep_ids_valid m 0 T); [done|].
  rewrite E. set_solver.
Qed.

(** The search loop, from the subtree [s]. *)
Lemma lookup_loop_ok i m p s k :
  rep m p s → sorted_by (λ i, key (m i)) (ids s) → height s ≤ Z.of_nat i →
  match lookup_loop i m (avl_id_to_node (root_of s)) k with
  | Some x => x ∈ ids s ∧ key (m x) = k
  | None => ∀ j, j ∈ ids s → key (m j) ≠ k
  end.
Proof.
  revert p s. induction i as [|i IH]; intros p s Hr Hs Hh.
  { rewrite (height_zero s) by (pose proof (height_nonneg s); lia). simpl. set_solver. }
  rewrite (avl_id_root _ _ _ Hr). destruct s as [|l x r]; [simpl; set_solver|].
  destruct Hr as (_ & _ & Lx & Rx & _ & _ & _ & Hl & Hr). cbn [lookup_loop ids height] in *.
  apply sorted_by_app in Hs as (Hsl & [Hsr Hxr]%sorted_by_cons & Hlx). simpl in Hxr, Hlx.
  destruct (Z.eqb_spec (key (m x)) k) as [<-|Hne]; [split; [set_solver|done]|].
  destruct (Z.ltb_spec k (key (m x))).
  - rewrite Lx. specialize (IH x l Hl Hsl ltac:(lia)).
    destruct (lookup_loop _ _ _ _); [destruct IH; split; [set_solver|done]|].
    intros j [Hj|[->|Hj]%elem_of_cons]%elem_of_app; [by apply IH|done|].
    specialize (Hxr j Hj). lia.
  - rewrite Rx. specialize (IH x r Hr Hsr ltac:(lia)).
    destruct (lookup_loop _ _ _ _); [destruct IH; split; [set_solver|done]|].
    intros j [Hj|[->|Hj]%elem_of_cons]%elem_of_app; [|done|by apply IH].
    specialize (Hlx j x Hj ltac:(by left)). lia.
Qed.

(** Ids are few: a list of distinct ones is no longer than the array. *)
Lemma abs_length m t L O : avl_abs m t L O → Z.of_nat (length L) ≤ Z.max 0 nr_ids.
Proof.
  intros (T & Hwf & <-).
  assert (ids T ⊆+ seqZ 1 nr_ids) as Hsub.
  { pose proof (nodup_app _ _ (wf_nodup _ _ _ _ Hwf)) as (Hnd & _ & _).
    apply NoDup_submseteq; [done|]. intros i Hi. apply elem_of_seqZ.
    pose proof (rep_ids_valid m 0 T i (wf_rep _ _ _ _ Hwf) Hi) as [? ?]. lia. }
  apply submseteq_length in Hsub. rewrite length_seqZ in Hsub. lia.
Qed.

Lemma insert_no_orphan k n L O L' O' :
  Z.of_nat (length L) < min_size MAX_AVL_HEIGHT → insert_spec k n L O L' O' →
  L' = ord_insert k n L ∧ O' = O.
Proof. intros ? [?|(_ & _ & ?)]; [done|lia]. Qed.

(** Writing the key of a node outside the tree. *)
Lemma abs_set_key m t L O n k :
  n ∉ L ++ O → avl_abs m t L O → avl_abs (alter (with_key k) n m) t L O.
Proof.
  intros Hn (T & [Hr Hroot Hnd Hs Hh Hmin Hmink Hmax Hmaxk HO HfO] & <-). exists T. split; [|done].
  apply not_elem_of_app in Hn as [HnT HnO].
  assert (∀ i, i ∈ ids T → alter (with_key k) n m i = m i) as Hf
    by (intros; apply fn_lookup_alter_ne; sep).
  split; try done.
  - by apply (rep_frame m).
  - unfold sorted_by in *. revert Hs Hf. clear. induction 1 as [|x L ? IH Hx]; intros Hf; constructor.
    + apply IH. intros. apply Hf. by right.
    + rewrite Forall_forall in Hx |- *. intros j Hj. rewrite !Hf; [by apply Hx|by right|by left].
  - intros Hne. rewrite Hf by (by apply hd_in). auto.
  - intros Hne. rewrite Hf by (by apply last_in). auto.
  - apply (olist_frame m); [|done]. intros i Hi. apply fn_lookup_alter_ne. sep.
Qed.

Lemma filter_absent (A : list Z) n : n ∉ A → filter (λ i, i ≠ n) A = A.
Proof.
  induction A as [|a A IH]; intros Hn; [done|]. nodup.
  by rewrite filter_cons_True, IH by (done || sep).
Qed.

Lemma filter_pivot (A B : list Z) n :
  NoDup (A ++ n :: B) → filter (λ i, i ≠ n) (A ++ n :: B) = A ++ B.
Proof.
  intros Hnd. nodup. rewrite filter_app, filter_cons_False by (by intros []).
  by rewrite !filter_absent.
Qed.

(** With fewer ids than the smallest tree of maximal height has nodes, there
    are never orphans, and a call does what its specification says. *)
Lemma avl_exec_ok m t k L op k' L' :
  (1 ≤ MAX_AVL_HEIGHT)%nat → Z.max 0 nr_ids < min_size MAX_AVL_HEIGHT →
  avl_abs m t L [] → (∀ i, key (m i) = k i) → spec_exec (k, L) op = Some (k', L') →
  let '(m', t') := avl_exec (m, t) op in
  avl_abs m' t' L' [] ∧ ∀ i, key (m' i) = k' i.
Proof.
  intros HM Hnr Habs Hk Hop. pose proof (abs_length _ _ _ _ Habs) as Hlen.
  pose proof (abs_nodup _ _ _ _ Habs) as Hnd. rewrite app_nil_r in Hnd.
  assert (∀ A n B, L = A ++ n :: B →
    let '(m', t') := avl_tree_delete m t n in
    avl_abs m' t' (A ++ B) [] ∧ ∀ i, key (m' i) = k i) as Hdel.
  { intros A n B ->. pose proof (avl_delete_abs m t A B [] n HM Habs) as Hd.
    destruct (avl_tree_delete m t n) as [m' t'].
    destruct Hd as (L1 & O1 & Ha & [-> ->] & _ & Hk'). split; [done|].
    intros i. by rewrite Hk', Hk. }
  destruct op as [n v|n|n| |]; cbn [avl_exec spec_exec] in *.
  - case_bool_decide; simplify_eq. split; [apply abs_set_key; by rewrite ?app_nil_r|].
    intros i. destruct (decide (n = i)) as [->|].
    + by rewrite fn_lookup_alter, fn_lookup_insert.
    + by rewrite fn_lookup_alter_ne, fn_lookup_insert_ne.
  - case_bool_decide; [done|]. destruct (Z.ltb_spec 0 n); [|done].
    destruct (Z.leb_spec n nr_ids); [|done]. simplify_eq/=.
    pose proof (avl_insert_abs m t L [] n HM Habs) as Hins.
    destruct (avl_tree_insert m t n) as [m' t'].
    destruct Hins as (L1 & O1 & Ha & Hsp & _ & Hk'); [done|by rewrite app_nil_r|].
    apply insert_no_orphan in Hsp as [-> ->]; [|lia].
    split; [|by intros i; rewrite Hk'].
    by rewrite (ord_insert_ext (λ i, key (m i)) k').
  - case_bool_decide as Hin; [|done]. simplify_eq.
    apply list_elem_of_split in Hin as (A & B & ->). rewrite filter_pivot by done. by apply Hdel.
  - simplify_eq. unfold avl_tree_pop_min. rewrite (abs_min _ _ _ _ Habs).
    destruct L as [|x L]; cbn [head]; [by split|]. specialize (Hdel [] x L eq_refl).
    by destruct (avl_tree_delete m t x).
  - simplify_eq. unfold avl_tree_pop_max. rewrite (abs_max _ _ _ _ Habs).
    destruct L as [|x L _] using rev_ind; [by split|].
    rewrite list.last_snoc, removelast_last. specialize (Hdel L x [] eq_refl).
    rewrite app_nil_r in Hdel. by destruct (avl_tree_delete m t x).
Qed.

Lemma spec_run_none ops :
  fold_left (λ o op, match o with Some a => spec_exec a op | None => None end) ops None = None.
Proof. by induction ops. Qed.

Lemma avl_run_ok ops m t k L k' L' :
  (1 ≤ MAX_AVL_HEIGHT)%nat → Z.max 0 nr_ids < min_size MAX_AVL_HEIGHT →
  avl_abs m t L [] → (∀ i, key (m i) = k i) → spec_run ops (k, L) = Some (k', L') →
  let '(m', t') := avl_run ops (m, t) in
  avl_abs m' t' L' [] ∧ ∀ i, key (m' i) = k' i.
Proof.
  intros HM Hnr. revert m t k L. induction ops as [|op ops IH]; intros m t k L Habs Hk Hrun.
  { unfold spec_run in Hrun. simpl in *. by simplify_eq. }
  unfold spec_run, avl_run in *. cbn [fold_left] in *.
  destruct (spec_exec (k, L) op) as [[k1 L1]|] eqn:E; [|by rewrite spec_run_none in Hrun].
  pose proof (avl_exec_ok m t k L op k1 L1 HM Hnr Habs Hk E) as Hop.
  destruct (avl_exec (m, t) op) as [m1 t1]. destruct Hop as [Habs1 Hk1]. by eapply IH.
Qed.

Lemma abs_init (k : Z → Z) :
  avl_abs (λ i, mk_avl_node (k i) 0 0 0 0 false 0 0) avl_tree_init [] [].
Proof. exists Leaf. split; [|done]. split; try done; try constructor; simpl; try lia; constructor. Qed.

Lemma insert_spec_perm k n L O L' O' :
  insert_spec k n L O L' O' → L' ++ O' ≡ₚ n :: L ++ O.
Proof.
  intros [[-> ->]|(-> & -> & _)]; [by rewrite ord_insert_perm|].
  by rewrite Permutation_middle.
Qed.

(** ** Theorems *)

(** C3. Whole sequences of calls: with fewer ids than the smallest tree of
    height [MAX_AVL_HEIGHT] has nodes, every sequence of calls within the
    contract leaves the array and the header holding exactly the members that
    the list specification computes, in key order, with no orphans. *)
Theorem avl_run_refines (ops : list avl_op) (k k' : Z → Z) L' :
  (1 ≤ MAX_AVL_HEIGHT)%nat → Z.max 0 nr_ids < min_size MAX_AVL_HEIGHT →
  spec_run ops (k, []) = Some (k', L') →
  let '(m', t') := avl_run ops (λ i, mk_avl_node (k i) 0 0 0 0 false 0 0, avl_tree_init) in
  avl_abs m' t' L' [] ∧ (∀ i, key (m' i) = k' i) ∧ sorted_by k' L'.
Proof.
  intros HM Hnr Hrun.
  pose proof (avl_run_ok ops _ _ k [] k' L' HM Hnr (abs_init k) (λ i, eq_refl) Hrun) as Hok.
  destruct (avl_run _ _) as [m' t']. destruct Hok as [Habs Hk]. split_and!; try done.
  apply (sorted_by_ext (λ i, key (m' i))); [done|]. by eapply abs_sorted.
Qed.

(** C29. Insertion refines ordered insertion: the node becomes a member behind
    every member whose key is not larger, or an orphan, the latter only with at
    least [min_size MAX_AVL_HEIGHT] members; nothing else changes, no node is
    lost and the member order stays sorted. *)
Theorem avl_tree_insert_refines m t L O n :
  (1 ≤ MAX_AVL_HEIGHT)%nat → avl_abs m t L O → valid_id n → n ∉ L ++ O →
  let '(m', t') := avl_tree_insert m t n in
  ∃ L' O', avl_abs m' t' L' O' ∧ insert_spec (λ i, key (m i)) n L O L' O'
           ∧ only_at m m' (n :: L ++ O)
           ∧ L' ++ O' ≡ₚ n :: L ++ O ∧ sorted_by (λ i, key (m i)) L'.
Proof.
  intros HM Habs Vn Hn. pose proof (avl_insert_abs m t L O n HM Habs Vn Hn) as Hins.
  destruct (avl_tree_insert m t n) as [m' t'].
  destruct Hins as (L' & O' & Ha & Hsp & Hf & Hk). exists L', O'. split_and!; try done.
  - by apply (insert_spec_perm (λ i, key (m i))).
  - apply (sorted_by_ext (λ i, key (m' i))); [done|]. by eapply abs_sorted.
Qed.

(** C30. Deleting a member takes exactly it out and gives the first orphan, if
    there is one, another try; the deleted node itself is not written. *)
Theorem avl_tree_delete_refines m t A B O n :
  (1 ≤ MAX_AVL_HEIGHT)%nat → avl_abs m t (A ++ n :: B) O →
  let '(m', t') := avl_tree_delete m t n in
  ∃ L' O', avl_abs m' t' L' O' ∧ delete_spec (λ i, key (m i)) A B O L' O'
           ∧ only_at m m' (A ++ B ++ O) ∧ L' ++ O' ≡ₚ A ++ B ++ O.
Proof.
  intros HM Habs. pose proof (avl_delete_abs m t A B O n HM Habs) as Hdel.
  destruct (avl_tree_delete m t n) as [m' t'].
  destruct Hdel as (L' & O' & Ha & Hsp & Hf). exists L', O'. split_and!; try done.
  destruct O as [|o O]; simpl in Hsp; [destruct Hsp as [-> ->]; by rewrite !app_nil_r|].
  apply insert_spec_perm in Hsp. rewrite Hsp, (app_assoc A B (o :: O)).
  by rewrite <- Permutation_middle.
Qed.

(** Deleting an orphan takes it off the orphan list and leaves the members. *)
Theorem avl_tree_delete_orphan_refines m t L A B n :
  avl_abs m t L (A ++ n :: B) →
  let '(m', t') := avl_tree_delete m t n in
  avl_abs m' t' L (A ++ B) ∧ only_at m m' (A ++ n :: B).
Proof.
  intros (T & Hwf & <-). pose proof (avl_tree_delete_orphan m t T A B n Hwf) as Hdel.
  destruct (avl_tree_delete m t n) as [m' t']. destruct Hdel as (Hk & Hf & Hwf').
  split; [by exists T|done].
Qed.

(** Lookup finds a member with the key if there is one, within the
    bounded number of iterations, and nothing otherwise. *)
Theorem avl_tree_lookup_correct m t L O k :
  avl_abs m t L O →
  match avl_tree_lookup m t k with
  | Some x => x ∈ L ∧ key (m x) = k
  | None => ∀ j, j ∈ L → key (m j) ≠ k
  end.
Proof.
  intros (T & [Hr Hroot _ Hs Hh _ _ _ _ _ _] & <-). unfold avl_tree_lookup. rewrite Hroot.
  by apply (lookup_loop_ok _ _ 0).
Qed.

(** The cached minimum and maximum are the first and last member, so no
    member has a smaller (larger) key, and popping takes exactly that one out. *)
Theorem avl_tree_pop_refines m t L O :
  (1 ≤ MAX_AVL_HEIGHT)%nat → avl_abs m t L O →
  (match avl_tree_pop_min m t with
   | (m', t', None) => L = [] ∧ m' = m ∧ t' = t
   | (m', t', Some x) => (∀ i, i ∈ L → key (m x) ≤ key (m i)) ∧
       ∃ B L' O', L = x :: B ∧ avl_abs m' t' L' O' ∧ delete_spec (λ i, key (m i)) [] B O L' O'
   end) ∧
  (match avl_tree_pop_max m t with
   | (m', t', None) => L = [] ∧ m' = m ∧ t' = t
   | (m', t', Some x) => (∀ i, i ∈ L → key (m i) ≤ key (m x)) ∧
       ∃ A L' O', L = A ++ [x] ∧ avl_abs m' t' L' O' ∧ delete_spec (λ i, key (m i)) A [] O L' O'
   end).
Proof.
  intros HM Habs. pose proof (abs_sorted _ _ _ _ Habs) as Hs. split.
  - unfold avl_tree_pop_min. rewrite (abs_min _ _ _ _ Habs). destruct L as [|x L]; [done|].
    cbn [head]. pose proof (avl_delete_abs m t [] L O x HM Habs) as Hdel.
    destruct (avl_tree_delete m t x) as [m' t']. destruct Hdel as (L' & O' & Ha & Hsp & _).
    apply sorted_by_cons in Hs as [_ Hs]. split; [|by exists L, L', O'].
    intros i [->|Hi]%elem_of_cons; [done|by apply Hs].
  - unfold avl_tree_pop_max. rewrite (abs_max _ _ _ _ Habs).
    destruct L as [|x L _] using rev_ind; [done|]. rewrite list.last_snoc.
    pose proof (avl_delete_abs m t L [] O x HM Habs) as Hdel.
    destruct (avl_tree_delete m t x) as [m' t']. destruct Hdel as (L' & O' & Ha & Hsp & _).
    apply sorted_by_app in Hs as (_ & _ & Hs). split; [|by exists L, L', O'].
    intros i [Hi|Hi]%elem_of_app; [apply Hs; set_solver|]. by apply list_elem_of_singleton in Hi as ->.
Qed.

(** The next and previous node of a member are its neighbours in key order. *)
Theorem avl_neighbours_correct m t A B O n :
  avl_abs m t (A ++ n :: B) O →
  avl_next_node m (Some n) = head B ∧ avl_prev_node m (Some n) = last A.
Proof.
  intros (T & [Hr Hroot Hnd Hs Hh _ _ _ _ _ _] & E).
  pose proof (nodup_app _ _ Hnd) as (HndT & _ & _).
  destruct (ids_split T n) as (c & l & r & ->); [rewrite E; set_solver|].
  destruct (app_inj_pivot A B (before c ++ ids l) (ids r ++ after c) n) as [-> ->].
  { by rewrite <- E. }
  { rewrite <- E, ids_plug. by assoc. }
  split; [by apply (avl_next_node_ok m c l)|by apply (avl_prev_node_ok m c l n r)].
Qed.

End spec.

(** ** Witnesses *)

Lemma sample_abs : @avl_abs flux_avl sample_mem sample_tree [2; 1; 3] [4].
Proof.
  exists (Node (Node Leaf 2 Leaf) 1 (Node Leaf 3 Leaf)). split; [|done].
  split; try done.
  - cbn. repeat (apply NoDup_cons; split; [set_solver|]). apply NoDup_nil_2.
  - cbn. repeat constructor; simpl; lia.
  - cbn. split; [repeat constructor; simpl; lia|done].
Defined.

Lemma avl_run_refines_witness :
  let ops := [SetKey 1 7; Insert 1; SetKey 2 5; Insert 2; SetKey 3 7; Insert 3; PopMin; Delete 1] in
  ∃ k', spec_run (H := flux_avl) ops (λ _, 0, []) = Some (k', [3]) ∧
  let '(m', t') := avl_run (H := flux_avl) ops (λ i, mk_avl_node 0 0 0 0 0 false 0 0, avl_tree_init) in
  avl_abs (H := flux_avl) m' t' [3] [] ∧ (∀ i, key (m' i) = k' i) ∧ sorted_by k' [3].
Proof.
  eexists. split; [vm_compute; reflexivity|].
  eapply (avl_run_refines (H := flux_avl) _ (λ _, 0)); [simpl; lia|vm_compute; done|reflexivity].
Defined.

Lemma avl_tree_insert_refines_witness :
  let '(m', t') := avl_tree_insert (H := flux_avl) sample_mem sample_tree 5 in
  ∃ L' O', avl_abs (H := flux_avl) m' t' L' O'
           ∧ insert_spec (H := flux_avl) (λ i, key (sample_mem i)) 5 [2; 1; 3] [4] L' O'
           ∧ only_at sample_mem m' [5; 2; 1; 3; 4]
           ∧ L' ++ O' ≡ₚ [5; 2; 1; 3; 4] ∧ sorted_by (λ i, key (sample_mem i)) L'.
Proof.
  apply (avl_tree_insert_refines (H := flux_avl) sample_mem sample_tree [2; 1; 3] [4] 5).
  - simpl. lia.
  - apply sample_abs.
  - unfold valid_id. simpl. lia.
  - simpl. set_solver.
Defined.

Lemma avl_tree_delete_refines_witness :
  let '(m', t') := avl_tree_delete (H := flux_avl) sample_mem sample_tree 1 in
  ∃ L' O', avl_abs (H := flux_avl) m' t' L' O'
           ∧ delete_spec (H := flux_avl) (λ i, key (sample_mem i)) [2] [3] [4] L' O'
           ∧ only_at sample_mem m' [2; 3; 4] ∧ L' ++ O' ≡ₚ [2; 3; 4].
Proof.
  apply (avl_tree_delete_refines (H := flux_avl) sample_mem sample_tree [2] [3] [4] 1).
  - simpl. lia.
  - apply sample_abs.
Defined.

Lemma avl_tree_delete_orphan_refines_witness :
  let '(m', t') := avl_tree_delete (H := flux_avl) sample_mem sample_tree 4 in
  avl_abs (H := flux_avl) m' t' [2; 1; 3] [] ∧ only_at sample_mem m' [4].
Proof.
  apply (avl_tree_delete_orphan_refines (H := flux_avl) sample_mem sample_tree [2; 1; 3] [] [] 4).
  apply sample_abs.
Defined.

Lemma avl_tree_lookup_correct_witness :
  match avl_tree_lookup (H := flux_avl) sample_mem sample_tree 20 with
  | Some x => x ∈ [2; 1; 3] ∧ key (sample_mem x) = 20
  | None => ∀ j, j ∈ [2; 1; 3] → key (sample_mem j) ≠ 20
  end.
Proof.
  apply (avl_tree_lookup_correct (H := flux_avl) sample_mem sample_tree [2; 1; 3] [4] 20).
  apply sample_abs.
Defined.

Lemma avl_tree_pop_refines_witness :
  avl_tree_min (H := flux_avl) sample_tree = Some 2 ∧
  match avl_tree_pop_min (H := flux_avl) sample_mem sample_tree with
  | (m', t', None) => [2; 1; 3] = [] ∧ m' = sample_mem ∧ t' = sample_tree
  | (m', t', Some x) => (∀ i, i ∈ [2; 1; 3] → key (sample_mem x) ≤ key (sample_mem i)) ∧
      ∃ B L' O', [2; 1; 3] = x :: B ∧ avl_abs (H := flux_avl) m' t' L' O'
                 ∧ delete_spec (H := flux_avl) (λ i, key (sample_mem i)) [] B [4] L' O'
  end.
Proof.
  split; [reflexivity|].
  assert (1 ≤ MAX_AVL_HEIGHT (AvlConfig := flux_avl))%nat as HM by (simpl; lia).
  pose proof (avl_tree_pop_refines (H := flux_avl) sample_mem sample_tree [2; 1; 3] [4] HM sample_abs)
    as [Hmin _].
  exact Hmin.
Defined.

Lemma avl_neighbours_correct_witness :
  avl_next_node (H := flux_avl) sample_mem (Some 1) = Some 3
  ∧ avl_prev_node (H := flux_avl) sample_mem (Some 1) = Some 2.
Proof.
  apply (avl_neighbours_correct (H := flux_avl) sample_mem sample_tree [2] [3] [4] 1).
  apply sample_abs.
Defined.
