(* ===== verification/ArrStructs.v ===== *)
(** * ArrStructs: ids and addresses (lib/arr_structs.bpf.h, BOUNDED_ARRAY_IDX,
    and the address arithmetic of lib/avl.bpf.h)

    Addresses are unsigned 64-bit integers, 0 is NULL.  The other files model
    a pointer into an array by the id of its element; the theorems here show
    which ids resolve, and that id and address determine each other. *)

From stdpp Require Import base tactics numbers list functions.
From Stdlib Require Import ZArith Lia.
From S2P Require Import Prelude Avl.

Local Open Scope Z_scope.

(** ** Operations *)

(** The inline assembly of BOUNDED_ARRAY_IDX: an unsigned bounds check, then
    the scaled offset.  [size] is the size of the array's element type. *)
Definition bounded_array_idx (arr arr_sz size idx : Z) : Z :=
  let ___idx := u64 idx in
  if truthy arr then
    if arr_sz <=? ___idx then 0 else u64 (arr + u64 (___idx * size))
  else arr.

Definition id_to_elem (arr arr_sz size id : Z) : Z :=
  let ___id := u64 id in
  if truthy ___id then bounded_array_idx arr arr_sz size (u64 (___id - 1)) else 0.

Definition elem_to_id (arr size elem : Z) : Z :=
  u64 (bpf_udiv (u64 (elem - arr)) size + 1).

(** [container_of] and [offsetof]. *)
Definition container_of (ptr field_off : Z) : Z := u64 (ptr - field_off).

(** The element size and field offset packed into one argument. *)
Definition el_off (elem_sz field_off : Z) : Z :=
  u64 (Z.lor (Z.shiftl elem_sz 32) field_off).
Definition el_off_elem (el_off : Z) : Z := Z.shiftr el_off 32.
Definition el_off_field (el_off : Z) : Z := Z.land el_off (Z.shiftl 1 32 - 1).

Definition __avl_id_to_node (arr arr_sz el_off id : Z) : Z :=
  let elem_sz := el_off_elem el_off in
  let field_off := el_off_field el_off in
  if id =? 0 then 0
  else
    let p := u64 (u32 (id - 1) * elem_sz + field_off) in
    (* the array is indexed as bytes *)
    bounded_array_idx arr (u64 (u64 (arr_sz - 1) * elem_sz + field_off)) 1 p.

Definition __avl_node_to_id (arr el_off node : Z) : Z :=
  let elem_sz := el_off_elem el_off in
  let field_off := el_off_field el_off in
  if truthy node
  then u32 (bpf_udiv (u64 (u64 (node - field_off) - arr)) elem_sz + 1)
  else 0.

Definition avl_node_to_elem (node field_off : Z) : Z :=
  if truthy node then container_of node field_off else 0.

(** An array of [arr_sz] elements of [size] bytes at [arr], inside the address
    space, small enough for a 32-bit immediate. *)
Record array_ok (arr arr_sz size : Z) : Prop := {
  arr_pos : 0 < arr;
  arr_sz_pos : 0 < arr_sz < 2 ^ 31;
  arr_size_pos : 0 < size;
  arr_bytes : arr_sz * size < 2 ^ 31;
  arr_end : arr + arr_sz * size < 2 ^ 64;
}.

(** ** Lemmas *)

Lemma truthy_pos x : 0 < x → truthy x = true.
Proof. intros. unfold truthy. by rewrite (proj2 (Z.eqb_neq x 0)) by lia. Qed.

Lemma el_off_parts e f :
  0 ≤ e < 2 ^ 32 → 0 ≤ f < 2 ^ 32 →
  el_off_elem (el_off e f) = e ∧ el_off_field (el_off e f) = f.
Proof.
  intros He Hf.
  assert (el_off e f = e * 2 ^ 32 + f) as E.
  { unfold el_off. rewrite lor_shiftl_small by lia. apply u64_small. lia. }
  unfold el_off_elem, el_off_field. rewrite E. split.
  - rewrite Z.shiftr_div_pow2, Z.div_add_l, Z.div_small by lia. lia.
  - change (Z.shiftl 1 32 - 1) with (Z.ones 32). rewrite Z.land_ones by lia.
    rewrite Z.add_comm, Z.mod_add, Z.mod_small by lia. done.
Qed.

(** ** Theorems *)

(** Packing the element size and the field offset into one 64-bit argument
    loses nothing when both fit in 32 bits. *)
Theorem el_off_roundtrip e f :
  0 ≤ e < 2 ^ 32 → 0 ≤ f < 2 ^ 32 →
  el_off_elem (el_off e f) = e ∧ el_off_field (el_off e f) = f.
Proof. apply el_off_parts. Qed.

(** An id of the array resolves to its element's address and back; any
    other id resolves to NULL. *)
Theorem id_to_elem_roundtrip arr arr_sz size id :
  array_ok arr arr_sz size → 0 ≤ id < 2 ^ 32 →
  if (0 <? id) && (id <=? arr_sz)
  then id_to_elem arr arr_sz size id = arr + (id - 1) * size
       ∧ elem_to_id arr size (id_to_elem arr arr_sz size id) = id
  else id_to_elem arr arr_sz size id = 0.
Proof.
  intros [Ha Hsz Hs Hb He] Hid. unfold id_to_elem, elem_to_id.
  rewrite (u64_small id) by lia.
  destruct (Z.ltb_spec 0 id); [|by assert (id = 0) as -> by lia].
  rewrite truthy_pos by done. rewrite (u64_small (id - 1)) by lia.
  unfold bounded_array_idx. rewrite truthy_pos by done. rewrite (u64_small (id - 1)) by lia.
  destruct (Z.leb_spec id arr_sz); cbn [andb];
    [rewrite (proj2 (Z.leb_gt _ _)) by lia|by rewrite (proj2 (Z.leb_le _ _)) by lia].
  assert (0 ≤ (id - 1) * size < arr_sz * size) by nia.
  rewrite (u64_small ((id - 1) * size)), (u64_small (arr + _)) by lia. split; [done|].
  replace (arr + (id - 1) * size - arr) with ((id - 1) * size) by lia.
  rewrite (u64_small ((id - 1) * size)) by lia. unfold bpf_udiv.
  rewrite (proj2 (Z.eqb_neq size 0)) by lia. rewrite Z.div_mul by lia. rewrite u64_small; lia.
Qed.

(** In the BPF build a node id resolves exactly if it is not the array's
    last one: the address is that of the node embedded in its element and leads
    back to the id.  [avl_id_to_node] of the tree model, with one id less than
    the array has elements, is this function. *)
Theorem avl_id_to_node_refines arr arr_sz size f h id :
  array_ok arr arr_sz size → 0 ≤ f < size → 0 ≤ id < 2 ^ 32 →
  let e := el_off size f in
  let cfg := {| MAX_AVL_HEIGHT := h; nr_ids := arr_sz - 1 |} in
  match avl_id_to_node (H := cfg) id with
  | Some i => __avl_id_to_node arr arr_sz e id = arr + (i - 1) * size + f
              ∧ __avl_node_to_id arr e (__avl_id_to_node arr arr_sz e id) = i
              ∧ avl_node_to_elem (__avl_id_to_node arr arr_sz e id) f = arr + (i - 1) * size
  | None => __avl_id_to_node arr arr_sz e id = 0
            ∧ __avl_node_to_id arr e (__avl_id_to_node arr arr_sz e id) = 0
  end.
Proof.
  intros [Ha Hsz Hs Hb He] Hf Hid e cfg. subst e. unfold avl_id_to_node. cbn [nr_ids cfg].
  assert (size < 2 ^ 32) by nia.
  unfold __avl_node_to_id, __avl_id_to_node.
  destruct (el_off_parts size f ltac:(lia) ltac:(lia)) as [-> ->].
  destruct (Z.ltb_spec 0 id); cbn [andb]; [|by assert (id = 0) as -> by lia].
  rewrite (proj2 (Z.eqb_neq id 0)) by lia.
  assert ((arr_sz - 1) * size + size = arr_sz * size) by lia.
  assert (0 ≤ (arr_sz - 1) * size) by nia.
  rewrite (u32_small (id - 1)), (u64_small (arr_sz - 1)) by lia.
  rewrite (u64_small ((arr_sz - 1) * size + f)) by lia.
  assert (0 ≤ (id - 1) * size) by nia.
  assert ((id - 1) * size + f < 2 ^ 64) by nia.
  rewrite (u64_small ((id - 1) * size + f)) by lia.
  unfold bounded_array_idx. rewrite (truthy_pos arr) by done.
  rewrite (u64_small ((id - 1) * size + f)) by lia. rewrite Z.mul_1_r.
  destruct (Z.leb_spec id (arr_sz - 1)); cbn [andb].
  - assert ((id - 1) * size + size ≤ (arr_sz - 1) * size) by nia.
    rewrite (proj2 (Z.leb_gt _ _)) by lia.
    rewrite (u64_small ((id - 1) * size + f)), (u64_small (arr + _)) by lia.
    split; [lia|]. unfold avl_node_to_elem, container_of. rewrite truthy_pos by lia.
    replace (arr + ((id - 1) * size + f) - f) with (arr + (id - 1) * size) by lia.
    rewrite (u64_small (arr + _)) by lia. split; [|done].
    replace (arr + (id - 1) * size - arr) with ((id - 1) * size) by lia.
    rewrite (u64_small ((id - 1) * size)) by lia. unfold bpf_udiv.
    rewrite (proj2 (Z.eqb_neq size 0)), Z.div_mul, u32_small by lia. lia.
  - assert ((arr_sz - 1) * size ≤ (id - 1) * size) by nia.
    by rewrite (proj2 (Z.leb_le _ _)) by lia.
Qed.

(** ** Witnesses *)

Lemma el_off_roundtrip_witness :
  el_off_elem (el_off 200 48) = 200 ∧ el_off_field (el_off 200 48) = 48.
Proof. apply (el_off_roundtrip 200 48); lia. Defined.

Lemma sample_array : array_ok 4096 100 64.
Proof. split; lia. Defined.

Lemma id_to_elem_roundtrip_witness :
  id_to_elem 4096 100 64 100 = 4096 + 99 * 64
  ∧ elem_to_id 4096 64 (id_to_elem 4096 100 64 100) = 100.
Proof. apply (id_to_elem_roundtrip 4096 100 64 100 sample_array). lia. Defined.

(** The last element's node: the check is one element short. *)
Lemma avl_id_to_node_refines_witness :
  __avl_id_to_node 4096 100 (el_off 64 8) 100 = 0
  ∧ __avl_node_to_id 4096 (el_off 64 8) (__avl_id_to_node 4096 100 (el_off 64 8) 100) = 0.
Proof.
  apply (avl_id_to_node_refines 4096 100 64 8 23 100 sample_array); lia.
Defined.
