(* ===== verification/Queue.v ===== *)
(** * Queue: the arr_list of lib/queue.bpf.h

    A doubly linked list (BSD's TAILQ) of elements of one array, linked by id.
    The element type is a parameter; the [field] argument of the macros, which
    names the struct arr_list_entry inside the element, is the class
    [ListField].  A pointer to an element is modelled by its id, and
    [id_to_elem] gives NULL for ids outside the array (see ArrStructs). *)

From stdpp Require Import base tactics numbers list functions sets.
From Stdlib Require Import ZArith Lia.
From S2P Require Import Prelude Avl.

Local Open Scope Z_scope.

(** ** Data *)

Record arr_list := mk_arr_list { first : Z; last_id : Z }.
Record arr_list_entry := mk_entry { next : Z; prev : Z }.

Definition arr_list_init : arr_list := mk_arr_list 0 0.

(** The link field of an element type. *)
Class ListField (E : Type) := {
  entry : E → arr_list_entry;
  set_entry : arr_list_entry → E → E;
  entry_set v e : entry (set_entry v e) = v;
  set_entry_entry e : set_entry (entry e) e = e;
  set_entry_set v w e : set_entry v (set_entry w e) = set_entry v e;
}.

(** ** Operations *)

Section ops.
Context {E : Type} `{!ListField E} (arr_sz : Z).
Abbreviation mem := (Z → E).
Implicit Types (m : mem) (h : arr_list).

Definition with_next (v : Z) (e : E) : E := set_entry (mk_entry v (prev (entry e))) e.
Definition with_prev (v : Z) (e : E) : E := set_entry (mk_entry (next (entry e)) v) e.
Abbreviation set_next i v := (alter (with_next v) i).
Abbreviation set_prev i v := (alter (with_prev v) i).

Definition id_to_elem (id : Z) : option Z :=
  if (0 <? id) && (id <=? arr_sz) then Some id else None.

(** [if (p) p->field.x = v;] *)
Definition if_elem (p : option Z) (f : Z → mem → mem) m : mem :=
  match p with Some i => f i m | None => m end.

Definition arr_list_next m (elem : Z) : option Z := id_to_elem (next (entry (m elem))).
Definition arr_list_prev m (elem : Z) : option Z := id_to_elem (prev (entry (m elem))).
Definition arr_list_first h : option Z := id_to_elem (first h).
Definition arr_list_last h : option Z := id_to_elem (last_id h).
Definition arr_list_empty h : bool := first h =? 0.

Definition arr_list_insert_head m h (elem : Z) : mem * arr_list :=
  let id := elem in
  let m := set_prev elem 0 m in
  let m := set_next elem (first h) m in
  let '(m, h) :=
    if arr_list_empty h then (m, mk_arr_list (first h) id)
    else (if_elem (arr_list_first h) (λ f, set_prev f id) m, h) in
  (m, mk_arr_list id (last_id h)).

Definition arr_list_insert_tail m h (elem : Z) : mem * arr_list :=
  let id := elem in
  let m := set_prev elem (last_id h) m in
  let m := set_next elem 0 m in
  let '(m, h) :=
    if arr_list_empty h then (m, mk_arr_list id (last_id h))
    else (if_elem (arr_list_last h) (λ l, set_next l id) m, h) in
  (m, mk_arr_list (first h) id).

Definition arr_list_insert_before m h (list_elem elem : Z) : mem * arr_list :=
  let id := elem in
  let lid := list_elem in
  let m := if_elem (arr_list_prev m list_elem) (λ p, set_next p id) m in
  let m := set_prev elem (prev (entry (m list_elem))) m in
  let m := set_next elem lid m in
  let m := set_prev list_elem id m in
  (m, if first h =? lid then mk_arr_list id (last_id h) else h).

Definition arr_list_insert_after m h (list_elem elem : Z) : mem * arr_list :=
  let id := elem in
  let lid := list_elem in
  let m := if_elem (arr_list_next m list_elem) (λ n, set_prev n id) m in
  let m := set_prev elem lid m in
  let m := set_next elem (next (entry (m list_elem))) m in
  let m := set_next list_elem id m in
  (m, if last_id h =? lid then mk_arr_list (first h) id else h).

Definition arr_list_remove m h (elem : Z) : mem * arr_list :=
  let id := elem in
  let m := if_elem (arr_list_prev m elem) (λ p m, set_next p (next (entry (m elem))) m) m in
  let m := if_elem (arr_list_next m elem) (λ n m, set_prev n (prev (entry (m elem))) m) m in
  let h := if first h =? id then mk_arr_list (next (entry (m elem))) (last_id h) else h in
  let h := if last_id h =? id then mk_arr_list (first h) (prev (entry (m elem))) else h in
  let m := set_prev elem 0 m in
  let m := set_next elem 0 m in
  (m, h).

Definition arr_list_pop_first m h : mem * arr_list * option Z :=
  let id := first h in
  match arr_list_first h with
  | None => (m, h, None)
  | Some f =>
      let m := if_elem (arr_list_next m f) (λ n, set_prev n 0) m in
      let h := mk_arr_list (next (entry (m f))) (last_id h) in
      let h := if last_id h =? id then mk_arr_list (first h) 0 else h in
      let m := set_next f 0 m in
      (m, h, Some f)
  end.

(** The iterators: [body] runs on each element up to [max] times; the result
    is the state after the loop and [var], which is NULL unless the loop was
    stopped short.  The safe variants fetch the next element before the body. *)
Fixpoint foreach_loop {S} (body : Z → mem * S → mem * S) (step : mem → Z → option Z)
    (max : nat) (var : option Z) (s : mem * S) : (mem * S) * option Z :=
  match max, var with
  | Datatypes.S max, Some v =>
      let s := body v s in foreach_loop body step max (step s.1 v) s
  | _, _ => (s, var)
  end.

Fixpoint foreach_safe_loop {S} (body : Z → mem * S → mem * S) (step : mem → Z → option Z)
    (max : nat) (var : option Z) (s : mem * S) : (mem * S) * option Z :=
  match max, var with
  | Datatypes.S max, Some v =>
      let tvar := step s.1 v in foreach_safe_loop body step max tvar (body v s)
  | _, _ => (s, var)
  end.

Definition arr_list_foreach {S} (body : Z → mem * S → mem * S) h (max : nat) (s : mem * S) :=
  foreach_loop body arr_list_next max (arr_list_first h) s.
Definition arr_list_foreach_safe {S} (body : Z → mem * S → mem * S) h (max : nat) (s : mem * S) :=
  foreach_safe_loop body arr_list_next max (arr_list_first h) s.
Definition arr_list_foreach_reverse {S} (body : Z → mem * S → mem * S) h (max : nat) (s : mem * S) :=
  foreach_loop body arr_list_prev max (arr_list_last h) s.
Definition arr_list_foreach_reverse_safe {S} (body : Z → mem * S → mem * S) h (max : nat) (s : mem * S) :=
  foreach_safe_loop body arr_list_prev max (arr_list_last h) s.

Definition arr_list_concat m h1 h2 : mem * arr_list * arr_list :=
  let m := if_elem (arr_list_last h1) (λ l, set_next l (first h2)) m in
  let m := if_elem (arr_list_first h2) (λ f, set_prev f (last_id h1)) m in
  let h1 := if arr_list_empty h1 then mk_arr_list (first h2) (last_id h1) else h1 in
  let h1 := mk_arr_list (first h1) (last_id h2) in
  (m, h1, arr_list_init).

(** ** What a list promises *)

Definition in_arr (i : Z) : Prop := 0 < i ≤ arr_sz.

(** The header [h] over the array [m] is the list [L] of distinct ids. *)
Record list_abs m h (L : list Z) : Prop := {
  la_nodup : NoDup L;
  la_valid : Forall in_arr L;
  la_links : dseg (λ i, prev (entry (m i))) (λ i, next (entry (m i))) 0 L 0;
  la_first : first h = List.hd 0 L;
  la_last : last_id h = List.last L 0;
}.

(** Only link fields of [W] are written. *)
Definition links_only m m' (W : list Z) : Prop :=
  (∀ i, i ∉ W → m' i = m i) ∧ (∀ i, ∃ v, m' i = set_entry v (m i)).

(** ** Lemmas *)

Lemma id_to_elem_valid i : in_arr i → id_to_elem i = Some i.
Proof.
  intros [? ?]. unfold id_to_elem. by rewrite (proj2 (Z.ltb_lt _ _)), (proj2 (Z.leb_le _ _)).
Qed.

Lemma hd_elem L : Forall in_arr L → id_to_elem (List.hd 0 L) = head L.
Proof. destruct 1; [done|]. by apply id_to_elem_valid. Qed.

Lemma last_elem L : Forall in_arr L → id_to_elem (List.last L 0) = last L.
Proof.
  intros HF. destruct L as [|i L _] using rev_ind; [done|].
  rewrite last_snoc, list.last_snoc. apply id_to_elem_valid.
  rewrite Forall_forall in HF. apply HF. set_solver.
Qed.

Lemma entry_with_next v e : entry (with_next v e) = mk_entry v (prev (entry e)).
Proof. apply entry_set. Qed.
Lemma entry_with_prev v e : entry (with_prev v e) = mk_entry (next (entry e)) v.
Proof. apply entry_set. Qed.

Lemma links_only_refl m W : links_only m m W.
Proof. split; [done|]. intros i. exists (entry (m i)). by rewrite set_entry_entry. Qed.

Lemma links_only_alter m m' W f x :
  (∀ e, ∃ v, f e = set_entry v e) → x ∈ W → links_only m m' W → links_only m (alter f x m') W.
Proof.
  intros Hf Hx [H1 H2]. split.
  - intros i Hi. rewrite fn_lookup_alter_ne by sep. auto.
  - intros i. destruct (decide (x = i)) as [->|].
    + rewrite fn_lookup_alter. destruct (Hf (m' i)) as [v ->]. destruct (H2 i) as [w ->].
      exists v. apply set_entry_set.
    + rewrite fn_lookup_alter_ne by done. apply H2.
Qed.

End ops.

(** [lo] shows that a sequence of link assignments writes links only; [qread]
    evaluates the links of an element after them. *)
Ltac lo :=
  repeat first
    [ apply links_only_refl
    | apply links_only_alter; [intros; by eexists | | ] ].
Ltac qread :=
  unfold alter, fn_alter; repeat case_decide; subst;
  rewrite ?entry_with_next, ?entry_with_prev; cbn [next prev]; try done; try congruence.
