(* ===== verification/QueueSpec.v ===== *)
(** * QueueSpec: arr_list operations refine list operations *)

From stdpp Require Import base tactics numbers list functions sets.
From Stdlib Require Import ZArith Lia.
From S2P Require Import Prelude Avl Queue.

Local Open Scope Z_scope.

(** ** An element type with one link field, and a list over it *)

Record elem := mk_elem { elem_x : Z; elem_link : arr_list_entry }.

#[export] Program Instance elem_field : ListField elem :=
  {| entry := elem_link; set_entry v e := mk_elem (elem_x e) v |}.
Next Obligation. done. Qed.
Next Obligation. by intros []. Qed.
Next Obligation. done. Qed.

(** Ids 3, 1, 2 in that order in an array of eight. *)
Definition sample_arr : Z → elem := λ i,
  if i =? 3 then mk_elem 30 (mk_entry 1 0)
  else if i =? 1 then mk_elem 10 (mk_entry 2 3)
  else if i =? 2 then mk_elem 20 (mk_entry 0 1)
  else if i =? 6 then mk_elem 60 (mk_entry 7 0)
  else if i =? 7 then mk_elem 70 (mk_entry 0 6)
  else mk_elem 0 (mk_entry 0 0).

Definition sample_list : arr_list := mk_arr_list 3 2.
Definition sample_list2 : arr_list := mk_arr_list 6 7.

Section spec.
Context {E : Type} `{!ListField E} (arr_sz : Z).
Implicit Types (m : Z → E) (h : arr_list) (L A B : list Z).

Abbreviation list_abs := (list_abs arr_sz).
Abbreviation prevs m := (λ i, prev (entry (m i))).
Abbreviation nexts m := (λ i, next (entry (m i))).

(** ** Lemmas *)

Lemma list_abs_frame m m' h L :
  (∀ i, i ∈ L → m' i = m i) → list_abs m h L → list_abs m' h L.
Proof.
  intros Hm [? ? Hl ? ?]. split; try done. eapply dseg_frame; [|exact Hl].
  intros i Hi. by rewrite Hm.
Qed.

(** Only the links matter. *)
Lemma list_abs_entries m m' h L :
  (∀ i, i ∈ L → entry (m' i) = entry (m i)) → list_abs m h L → list_abs m' h L.
Proof.
  intros Hm [? ? Hl ? ?]. split; try done. eapply dseg_frame; [|exact Hl].
  intros i Hi. by rewrite Hm.
Qed.

Lemma list_abs_empty h m L : list_abs m h L → arr_list_empty h = bool_decide (L = []).
Proof.
  intros [_ Hv _ Hf _]. unfold arr_list_empty. rewrite Hf. destruct Hv as [|i L [? ?] _]; [done|].
  simpl. by rewrite (proj2 (Z.eqb_neq i 0)) by lia.
Qed.

Lemma list_abs_init m : list_abs m arr_list_init [].
Proof. split; try done. constructor. Qed.

Lemma first_ok m h L : list_abs m h L → arr_list_first arr_sz h = head L.
Proof. intros [_ Hv _ Hf _]. unfold arr_list_first. rewrite Hf. by apply hd_elem. Qed.

Lemma last_ok m h L : list_abs m h L → arr_list_last arr_sz h = last L.
Proof. intros [_ Hv _ _ Hl]. unfold arr_list_last. rewrite Hl. by apply last_elem. Qed.

Lemma next_ok m h A x B :
  list_abs m h (A ++ x :: B) → arr_list_next arr_sz m x = head B.
Proof.
  intros [_ [_ [_ HB]%Forall_cons]%Forall_app [_ (_ & Nx & _)]%dseg_app _ _].
  unfold arr_list_next. rewrite Nx. by apply hd_elem.
Qed.

Lemma prev_ok m h A x B :
  list_abs m h (A ++ x :: B) → arr_list_prev arr_sz m x = last A.
Proof.
  intros [_ [HA _]%Forall_app [_ (Px & _ & _)]%dseg_app _ _].
  unfold arr_list_prev. rewrite Px. by apply last_elem.
Qed.

(** *** Insertion at the ends *)

Lemma insert_head_ok m h L e :
  list_abs m h L → in_arr arr_sz e → e ∉ L →
  let '(m', h') := arr_list_insert_head arr_sz m h e in
  list_abs m' h' (e :: L) ∧ links_only m m' (e :: L).
Proof.
  intros Habs Ve Hn. unfold arr_list_insert_head.
  rewrite (list_abs_empty h m L Habs), (first_ok m h L Habs).
  destruct Habs as [Hnd Hv Hl Hf Hla]. destruct L as [|x L].
  - rewrite bool_decide_true by done. split; [split|].
    + apply NoDup_singleton.
    + by constructor.
    + simpl. rewrite Hf. qread.
    + done.
    + done.
    + lo; set_solver.
  - rewrite bool_decide_false by done. cbn [head if_elem]. nodup.
    match goal with |- context [links_only _ ?m'' _] => set (m' := m'') end.
    split; [split|].
    + by constructor; [set_solver|constructor].
    + by constructor.
    + apply dseg_cons. split_and!; [unfold m'; rewrite ?Hf; qread..|].
      eapply (dseg_set_first (prevs m) (nexts m) _ _ 0 e (x :: L)); [by constructor| | | |exact Hl];
        unfold m'.
      * intros i Hi. assert (i ≠ e) by set_solver. qread.
      * intros i Hi Hne. assert (i ≠ e) by set_solver. simpl in Hne. qread.
      * intros _. simpl. qread.
    + done.
    + rewrite Hla. done.
    + unfold m'. lo; set_solver.
Qed.

Lemma insert_tail_ok m h L e :
  list_abs m h L → in_arr arr_sz e → e ∉ L →
  let '(m', h') := arr_list_insert_tail arr_sz m h e in
  list_abs m' h' (L ++ [e]) ∧ links_only m m' (e :: L).
Proof.
  intros Habs Ve Hn. unfold arr_list_insert_tail.
  rewrite (list_abs_empty h m L Habs), (last_ok m h L Habs).
  destruct Habs as [Hnd Hv Hl Hf Hla]. destruct L as [|x L _] using rev_ind.
  - rewrite bool_decide_true by done. split; [split|].
    + apply NoDup_singleton.
    + by constructor.
    + simpl. rewrite Hla. qread.
    + done.
    + done.
    + lo; set_solver.
  - rewrite bool_decide_false by (by destruct L). rewrite list.last_snoc. cbn [if_elem]. nodup.
    rewrite last_snoc in Hla.
    match goal with |- context [links_only _ ?m'' _] => set (m' := m'') end.
    split; [split|].
    + nodup_goal. all: done || set_solver.
    + apply Forall_app. split; [done|by constructor].
    + apply dseg_app. cbn [List.hd]. rewrite last_snoc. split.
      * eapply (dseg_set_last (prevs m) (nexts m) _ _ 0 (L ++ [x]) 0); [nodup_goal| | | |exact Hl];
          rewrite ?last_snoc; unfold m'.
        -- intros i Hi. assert (i ≠ e) by set_solver. qread.
        -- intros i Hi Hne. assert (i ≠ e) by set_solver. qread.
        -- intros _. qread.
      * simpl. split_and!; [|unfold m'; qread|done]. unfold m'. rewrite Hla. qread.
    + simpl. rewrite Hf. by destruct L.
    + by rewrite last_snoc.
    + unfold m'. lo; set_solver.
Qed.

(** *** Insertion at a given element *)

Lemma insert_before_ok m h A x B e :
  list_abs m h (A ++ x :: B) → in_arr arr_sz e → e ∉ A ++ x :: B →
  let '(m', h') := arr_list_insert_before arr_sz m h x e in
  list_abs m' h' (A ++ e :: x :: B) ∧ links_only m m' (e :: A ++ x :: B).
Proof.
  intros Habs Ve Hn. unfold arr_list_insert_before. rewrite (prev_ok m h A x B Habs).
  destruct Habs as [Hnd Hv [HA (Px & Nx & HB)]%dseg_app Hf Hla]. nodup.
  apply Forall_app in Hv as [HvA [Vx HvB]%Forall_cons].
  match goal with |- context [links_only _ ?m'' _] => set (m' := m'') end.
  assert (A ≠ [] → List.last A 0 ≠ x ∧ List.last A 0 ≠ e) as HlA.
  { intros HAne. pose proof (last_in A 0 HAne). split; sep. }
  assert (prev (entry (if_elem (last A) (λ p, alter (with_next e) p) m x)) = List.last A 0) as Epx.
  { destruct A as [|a A _] using rev_ind; [done|]. rewrite list.last_snoc. cbn [if_elem].
    rewrite last_snoc in *. destruct HlA as [? ?]; [by destruct A|]. qread. }
  split; [split|].
  - nodup_goal.
  - apply Forall_app. split; [done|]. constructor; [done|by constructor].
  - apply dseg_app. cbn [List.hd]. split.
    + eapply (dseg_set_last (prevs m) (nexts m) _ _ 0 A x); [done| | | |exact HA]; unfold m'.
      * intros i Hi. assert (i ≠ x) by sep. assert (i ≠ e) by sep. clear Epx HlA.
        destruct (last A); cbn [if_elem]; qread.
      * intros i Hi Hne. assert (i ≠ x) by sep. assert (i ≠ e) by sep. clear Epx.
        destruct A as [|a A _] using rev_ind; [by apply not_elem_of_nil in Hi|]. rewrite list.last_snoc.
        rewrite last_snoc in *. cbn [if_elem]. qread.
      * intros HAne. destruct (HlA HAne). clear Epx.
        destruct A as [|a A _] using rev_ind; [done|]. rewrite list.last_snoc.
        rewrite last_snoc in *. cbn [if_elem]. qread.
    + apply dseg_cons. cbn [List.hd]. split_and!.
      * unfold m'. rewrite Epx. qread.
      * unfold m'. qread.
      * apply dseg_cons. assert (x ≠ e) by sep.
        assert (∀ i, i ∈ B → i ≠ x ∧ i ≠ e ∧ i ∉ A) as HBi by (intros; split_and!; sep).
        split_and!.
        -- unfold m'. qread.
        -- rewrite <- Nx. unfold m'. clear Epx. destruct A as [|a A _] using rev_ind; [qread|].
           rewrite list.last_snoc. rewrite last_snoc in *. destruct HlA; [by destruct A|].
           cbn [if_elem]. qread.
        -- eapply (dseg_frame (prevs m) (nexts m)); [|exact HB]. intros i Hi.
           destruct (HBi i Hi) as (? & ? & HiA). unfold m'. clear Epx.
           destruct A as [|a A _] using rev_ind; [qread|].
           rewrite list.last_snoc. cbn [if_elem]. assert (i ≠ a) by set_solver. qread.
  - rewrite Hf. destruct A as [|a A]; simpl in *; [by rewrite Z.eqb_refl|].
    rewrite (proj2 (Z.eqb_neq a x)); [done|]. set_solver.
  - rewrite last_app, !last_cons in *. destruct (first h =? x); exact Hla.
  - unfold m'. destruct A as [|a A _] using rev_ind;
      rewrite ?list.last_snoc; cbn [last if_elem]; lo; set_solver.
Qed.

Lemma insert_after_ok m h A x B e :
  list_abs m h (A ++ x :: B) → in_arr arr_sz e → e ∉ A ++ x :: B →
  let '(m', h') := arr_list_insert_after arr_sz m h x e in
  list_abs m' h' (A ++ x :: e :: B) ∧ links_only m m' (e :: A ++ x :: B).
Proof.
  intros Habs Ve Hn. unfold arr_list_insert_after. rewrite (next_ok m h A x B Habs).
  destruct Habs as [Hnd Hv [HA (Px & Nx & HB)]%dseg_app Hf Hla]. nodup.
  apply Forall_app in Hv as [HvA [Vx HvB]%Forall_cons].
  match goal with |- context [links_only _ ?m'' _] => set (m' := m'') end.
  assert (x ≠ e) by sep. assert (∀ i, i ∈ A → i ≠ x ∧ i ≠ e ∧ i ∉ B) as HAi by (intros; split_and!; sep).
  assert (∀ i, i ∈ B → i ≠ x ∧ i ≠ e) as HBi by (intros; split; sep).
  split; [split|].
  - nodup_goal.
  - apply Forall_app. split; [done|]. constructor; [done|by constructor].
  - apply dseg_app. cbn [List.hd]. split.
    + eapply (dseg_frame (prevs m) (nexts m)); [|exact HA]. intros i Hi.
      destruct (HAi i Hi) as (? & ? & HiB). unfold m'. destruct B as [|b B]; cbn [head if_elem]; [qread|].
      assert (i ≠ b) by set_solver. qread.
    + rewrite !dseg_cons. cbn [List.hd]. split_and!.
      * rewrite <- Px. unfold m'. destruct B as [|b B]; cbn [head if_elem]; [qread|].
        destruct (HBi b); [by left|]. qread.
      * unfold m'. qread.
      * unfold m'. qread.
      * rewrite <- Nx. unfold m'. destruct B as [|b B]; cbn [head if_elem]; [qread|].
        destruct (HBi b); [by left|]. qread.
      * eapply (dseg_set_first (prevs m) (nexts m) _ _ x e B 0); [done| | | |exact HB]; unfold m'.
        -- intros i Hi. destruct (HBi i Hi). destruct (head B); cbn [if_elem]; qread.
        -- intros i Hi Hne. destruct (HBi i Hi). destruct B as [|b B]; cbn [head if_elem List.hd] in *; qread.
        -- intros HBne. destruct B as [|b B]; [done|]. destruct (HBi b); [by left|]. simpl. qread.
  - rewrite hd_app in *. simpl in *. destruct (last_id h =? x); done.
  - rewrite Hla. rewrite last_app, last_cons in Hla |- *. rewrite last_app, !last_cons.
    destruct B as [|b B]; [simpl; by rewrite Z.eqb_refl|]. rewrite !last_cons in *.
    rewrite (proj2 (Z.eqb_neq _ x)); [done|]. rewrite <- (last_cons b B 0).
    apply HBi, last_in. done.
  - unfold m'. destruct B as [|b B]; cbn [head if_elem]; lo; set_solver.
Qed.

(** *** Removal *)

Lemma remove_ok m h A x B :
  list_abs m h (A ++ x :: B) →
  let '(m', h') := arr_list_remove arr_sz m h x in
  list_abs m' h' (A ++ B) ∧ links_only m m' (A ++ x :: B) ∧ entry (m' x) = mk_entry 0 0.
Proof.
  intros Habs. unfold arr_list_remove. rewrite (prev_ok m h A x B Habs).
  pose proof (la_nodup _ _ _ _ Habs) as Hnd. nodup.
  assert (∀ i, i ∈ A → i ≠ x ∧ i ∉ B) as HAi by (intros; split; sep).
  assert (∀ i, i ∈ B → i ≠ x ∧ i ∉ A) as HBi by (intros; split; sep).
  set (m1 := if_elem (last A) (λ p m, alter (with_next (next (entry (m x)))) p m) m).
  assert (m1 x = m x) as E1.
  { unfold m1. destruct A as [|a A _] using rev_ind; [done|]. rewrite list.last_snoc. cbn [if_elem].
    apply fn_lookup_alter_ne. apply HAi. set_solver. }
  assert (arr_list_next arr_sz m1 x = head B) as ->.
  { unfold arr_list_next. rewrite E1. by apply (next_ok m h A x B). }
  destruct Habs as [Hnd' Hv [HA (Px & Nx & HB)]%dseg_app Hf Hla].
  apply Forall_app in Hv as [HvA [Vx HvB]%Forall_cons].
  set (m2 := if_elem (head B) (λ n m, alter (with_prev (prev (entry (m x)))) n m) m1).
  assert (m2 x = m x) as E2.
  { unfold m2. destruct B as [|b B]; [done|]. cbn [head if_elem].
    rewrite fn_lookup_alter_ne; [done|]. apply HBi. by left. }
  rewrite E2, Px, Nx.
  match goal with |- context [links_only _ ?m'' _] => set (m' := m'') end.
  assert (m1 = if_elem (last A) (λ p, alter (with_next (List.hd 0 B)) p) m) as Em1.
  { unfold m1. destruct (last A); cbn [if_elem]; [|done]. by rewrite Nx. }
  assert (m2 = if_elem (head B) (λ n, alter (with_prev (List.last A 0)) n) m1) as Em2.
  { unfold m2. destruct (head B); cbn [if_elem]; [|done]. by rewrite E1, Px. }
  clearbody m1 m2. subst m2 m1. split_and!; [split|..].
  - nodup_goal.
  - by apply Forall_app.
  - apply dseg_app. split.
    + eapply (dseg_set_last (prevs m) (nexts m) _ _ 0 A x); [done| | | |exact HA]; unfold m'.
      * intros i Hi. destruct (HAi i Hi) as [? HiB].
        destruct B as [|b B]; cbn [head if_elem].
        -- destruct (last A); cbn [if_elem]; qread.
        -- assert (i ≠ b) by set_solver. destruct (last A); cbn [if_elem]; qread.
      * intros i Hi Hne. destruct (HAi i Hi) as [? HiB].
        destruct A as [|a A _] using rev_ind; [by apply not_elem_of_nil in Hi|].
        rewrite list.last_snoc. rewrite last_snoc in Hne. cbn [if_elem].
        destruct (head B); cbn [if_elem]; qread.
      * intros HAne. destruct A as [|a A _] using rev_ind; [done|].
        rewrite list.last_snoc, last_snoc. destruct (HAi a) as [? HaB]; [set_solver|]. cbn [if_elem].
        destruct B as [|b B]; cbn [head if_elem]; [qread|]. assert (a ≠ b) by set_solver. qread.
    + eapply (dseg_set_first (prevs m) (nexts m) _ _ x (List.last A 0) B 0); [done| | | |exact HB]; unfold m'.
      * intros i Hi. destruct (HBi i Hi) as [? HiA].
        destruct A as [|a A _] using rev_ind; [|rewrite list.last_snoc; assert (i ≠ a) by set_solver];
          cbn [last if_elem]; destruct (head B); cbn [if_elem]; qread.
      * intros i Hi Hne. destruct (HBi i Hi) as [? HiA].
        destruct B as [|b B]; cbn [head if_elem List.hd] in *; [by apply not_elem_of_nil in Hi|].
        destruct A as [|a A _] using rev_ind; [|rewrite list.last_snoc; assert (i ≠ a) by set_solver];
          cbn [last if_elem]; qread.
      * intros HBne. destruct B as [|b B]; [done|]. destruct (HBi b) as [? HbA]; [by left|].
        cbn [head if_elem List.hd]. qread.
  - rewrite Hf. destruct A as [|a A]; simpl.
    + rewrite Z.eqb_refl. cbn [last_id]. by destruct (last_id h =? x).
    + rewrite (proj2 (Z.eqb_neq a x)) by (apply HAi; by left). simpl in Hf.
      by destruct (last_id h =? x).
  - rewrite last_app. rewrite last_app, last_cons in Hla.
    match goal with |- last_id (if last_id ?e =? x then _ else _) = _ =>
      assert (last_id e = List.last B x) as -> by (by destruct (first h =? x)) end.
    destruct B as [|b B]; [simpl; by rewrite Z.eqb_refl|].
    rewrite !last_cons in *. rewrite (proj2 (Z.eqb_neq _ x)); [by destruct (first h =? x)|].
    rewrite <- (last_cons b B 0). apply HBi, last_in. done.
  - unfold m'. destruct A as [|a A _] using rev_ind; destruct B as [|b B];
      rewrite ?list.last_snoc; cbn [head last if_elem]; lo; set_solver.
  - unfold m'. by rewrite !fn_lookup_alter, entry_with_next, entry_with_prev.
Qed.

(** Taking off the first element is removing it. *)
Lemma pop_first_ok m h L :
  list_abs m h L →
  let '(m', h', o) := arr_list_pop_first arr_sz m h in
  o = head L ∧ list_abs m' h' (List.tl L) ∧ links_only m m' L
  ∧ (∀ x, o = Some x → entry (m' x) = mk_entry 0 0).
Proof.
  intros Habs. unfold arr_list_pop_first. rewrite (first_ok m h L Habs).
  destruct L as [|x L]; [split_and!; try done; apply links_only_refl|]. cbn [head List.tl].
  rewrite (next_ok m h [] x L Habs).
  destruct Habs as [Hnd Hv (Px & Nx & HL) Hf Hla]. nodup. apply Forall_cons in Hv as [Vx Hv].
  set (m1 := if_elem (head L) (λ n, alter (with_prev 0) n) m).
  assert (m1 x = m x) as E1.
  { unfold m1. destruct L as [|y L]; [done|]. cbn [head if_elem]. apply fn_lookup_alter_ne. set_solver. }
  rewrite E1, Nx, Hf. cbn [last_id first List.hd]. split_and!; [done|split|..].
  - done.
  - done.
  - eapply (dseg_set_first (prevs m) (nexts m) _ _ x 0 L 0); [done| | | |exact HL]; unfold m1.
    + intros i Hi. assert (i ≠ x) by sep. destruct (head L); cbn [if_elem]; qread.
    + intros i Hi Hne. assert (i ≠ x) by sep. destruct L as [|y L]; cbn [head if_elem List.hd] in *; qread.
    + intros HLne. destruct L as [|y L]; [done|]. assert (y ≠ x) by set_solver. simpl. qread.
  - by destruct (last_id h =? x).
  - rewrite Hla, last_cons. destruct L as [|y L]; [simpl; by rewrite Z.eqb_refl|]. rewrite !last_cons.
    rewrite (proj2 (Z.eqb_neq _ x)); [done|]. rewrite <- (last_cons y L 0).
    pose proof (last_in (y :: L) 0 ltac:(done)). sep.
  - unfold m1. destruct L as [|y L]; cbn [head if_elem]; lo; set_solver.
  - intros y [= <-]. rewrite fn_lookup_alter, entry_with_next, E1. by rewrite Px.
Qed.

(** *** Concatenation *)

Lemma concat_ok m h1 h2 A B :
  list_abs m h1 A → list_abs m h2 B → B ≠ [] → apart A B →
  let '(m', h1', h2') := arr_list_concat arr_sz m h1 h2 in
  list_abs m' h1' (A ++ B) ∧ list_abs m' h2' [] ∧ links_only m m' (A ++ B).
Proof.
  intros HA HB HBne Hap. unfold arr_list_concat.
  rewrite (last_ok m h1 A HA), (first_ok m h2 B HB), (list_abs_empty h1 m A HA).
  destruct HA as [HndA HvA HlA HfA HlaA], HB as [HndB HvB HlB HfB HlaB].
  rewrite HfB. destruct B as [|b B]; [done|]. cbn [head if_elem List.hd].
  match goal with |- context [links_only _ ?m'' _] => set (m' := m'') end.
  assert (∀ i, i ∈ b :: B → i ∉ A) as HBi by (intros; sep).
  split_and!; [split|apply list_abs_init|].
  - by apply NoDup_app.
  - by apply Forall_app.
  - apply dseg_app. cbn [List.hd]. split.
    + eapply (dseg_set_last (prevs m) (nexts m) _ _ 0 A 0); [done| | | |exact HlA]; unfold m'.
      * intros i Hi. assert (i ≠ b) by (intros ->; by apply (HBi b ltac:(by left))).
        destruct (last A); cbn [if_elem]; qread.
      * intros i Hi Hne. assert (i ≠ b) by (intros ->; by apply (HBi b ltac:(by left))).
        destruct A as [|a A _] using rev_ind; [by apply not_elem_of_nil in Hi|].
        rewrite list.last_snoc. rewrite last_snoc in Hne. cbn [if_elem]. qread.
      * intros HAne. destruct A as [|a A _] using rev_ind; [done|].
        rewrite list.last_snoc, last_snoc. cbn [if_elem].
        assert (a ≠ b) by (intros ->; apply (HBi b ltac:(by left)); set_solver). qread.
    + eapply (dseg_set_first (prevs m) (nexts m) _ _ 0 (List.last A 0) (b :: B) 0);
        [done| | | |exact HlB]; unfold m'; cbn [List.hd].
      * intros i Hi. pose proof (HBi i Hi) as HiA.
        destruct A as [|a A _] using rev_ind; [|rewrite list.last_snoc; assert (i ≠ a) by set_solver];
          cbn [last if_elem]; qread.
      * intros i Hi Hne. pose proof (HBi i Hi) as HiA.
        destruct A as [|a A _] using rev_ind; [|rewrite list.last_snoc; assert (i ≠ a) by set_solver];
          cbn [last if_elem]; qread.
      * intros _. rewrite HlaA. qread.
  - destruct A as [|a A]; done.
  - simpl. rewrite HlaB, last_app, !last_cons. done.
  - unfold m'. destruct A as [|a A _] using rev_ind; rewrite ?list.last_snoc; cbn [last if_elem];
      lo; set_solver.
Qed.

(** *** Iteration *)

(** [Inv L m]: the elements [L] still to be visited are chained by [step]. *)
Lemma foreach_safe_loop_ok {S} (body : Z → (Z → E) * S → (Z → E) * S) step (Inv : list Z → (Z → E) → Prop) :
  (∀ v B m, Inv (v :: B) m → step m v = head B) →
  (∀ v B s, Inv (v :: B) s.1 → Inv B (body v s).1) →
  ∀ max L s, Inv L s.1 →
  foreach_safe_loop body step max (head L) s
  = (fold_left (λ s v, body v s) (take max L) s, head (drop max L)).
Proof.
  intros Hstep Hbody max. induction max as [|max IH]; intros L s HI; [done|].
  destruct L as [|v L]; [done|]. cbn [head foreach_safe_loop take drop fold_left].
  rewrite (Hstep v L) by done. apply IH. by apply Hbody.
Qed.

Lemma foreach_loop_ok {S} (body : Z → (Z → E) * S → (Z → E) * S) step (Inv : list Z → (Z → E) → Prop) :
  (∀ v B s, Inv (v :: B) s.1 → step (body v s).1 v = head B ∧ Inv B (body v s).1) →
  ∀ max L s, Inv L s.1 →
  foreach_loop body step max (head L) s
  = (fold_left (λ s v, body v s) (take max L) s, head (drop max L)).
Proof.
  intros Hbody max. induction max as [|max IH]; intros L s HI; [done|].
  destruct L as [|v L]; [done|]. cbn [head foreach_loop take drop fold_left].
  destruct (Hbody v L s HI) as [-> HI']. by apply IH.
Qed.

Lemma dseg_rev prv nxt p A nx : dseg prv nxt p A nx → dseg nxt prv nx (rev A) p.
Proof.
  revert p. induction A as [|a A IH]; intros p; [done|]. intros (Pa & Na & HA).
  cbn [rev]. apply dseg_app. split; [by apply IH|]. cbn [dseg List.hd].
  split_and!; [|done|done]. rewrite Na. clear. destruct A as [|b A]; [done|].
  cbn [rev List.hd]. by rewrite last_snoc.
Qed.

(** ** Theorems *)

(** Inserting at the head or the tail of a list refines consing and
    appending; only links of the list and of the new element are written. *)
Theorem arr_list_insert_end_refines m h L e :
  list_abs m h L → in_arr arr_sz e → e ∉ L →
  (let '(m', h') := arr_list_insert_head arr_sz m h e in
   list_abs m' h' (e :: L) ∧ links_only m m' (e :: L)) ∧
  (let '(m', h') := arr_list_insert_tail arr_sz m h e in
   list_abs m' h' (L ++ [e]) ∧ links_only m m' (e :: L)).
Proof. intros. split; [by apply insert_head_ok|by apply insert_tail_ok]. Qed.

(** Inserting before or after a given member puts the element exactly
    there, at the ends of the list too. *)
Theorem arr_list_insert_at_refines m h A x B e :
  list_abs m h (A ++ x :: B) → in_arr arr_sz e → e ∉ A ++ x :: B →
  (let '(m', h') := arr_list_insert_before arr_sz m h x e in
   list_abs m' h' (A ++ e :: x :: B) ∧ links_only m m' (e :: A ++ x :: B)) ∧
  (let '(m', h') := arr_list_insert_after arr_sz m h x e in
   list_abs m' h' (A ++ x :: e :: B) ∧ links_only m m' (e :: A ++ x :: B)).
Proof. intros. split; [by apply insert_before_ok|by apply insert_after_ok]. Qed.

(** Removing a member, anywhere in the list, and popping the first one
    take exactly that element out and leave its links zeroed. *)
Theorem arr_list_remove_refines m h A x B :
  list_abs m h (A ++ x :: B) →
  (let '(m', h') := arr_list_remove arr_sz m h x in
   list_abs m' h' (A ++ B) ∧ links_only m m' (A ++ x :: B) ∧ entry (m' x) = mk_entry 0 0) ∧
  (let '(m', h', o) := arr_list_pop_first arr_sz m h in
   o = head (A ++ x :: B) ∧ list_abs m' h' (List.tl (A ++ x :: B)) ∧ links_only m m' (A ++ x :: B)
   ∧ (∀ y, o = Some y → entry (m' y) = mk_entry 0 0)).
Proof. intros. split; [by apply remove_ok|by apply pop_first_ok]. Qed.

(** Concatenating a non-empty list refines appending it, and empties it. *)
Theorem arr_list_concat_refines m h1 h2 A B :
  list_abs m h1 A → list_abs m h2 B → B ≠ [] → apart A B →
  let '(m', h1', h2') := arr_list_concat arr_sz m h1 h2 in
  list_abs m' h1' (A ++ B) ∧ list_abs m' h2' [] ∧ links_only m m' (A ++ B).
Proof. apply concat_ok. Qed.

(** Concatenating an empty list to a non-empty one loses its tail pointer:
    it is no longer a well-formed list, and an element inserted at the tail
    afterwards is not linked behind the old last element, whose next id stays 0. *)
Theorem arr_list_concat_empty_breaks m h1 h2 A a e :
  list_abs m h1 (A ++ [a]) → list_abs m h2 [] → in_arr arr_sz e → e ∉ A ++ [a] →
  let '(m1, h1', _) := arr_list_concat arr_sz m h1 h2 in
  last_id h1' = 0 ∧ ¬ list_abs m1 h1' (A ++ [a]) ∧
  let '(m2, h1'') := arr_list_insert_tail arr_sz m1 h1' e in
  next (entry (m2 a)) = 0 ∧ first h1'' = List.hd 0 (A ++ [a]) ∧ ¬ list_abs m2 h1'' (A ++ [a; e]).
Proof.
  intros HA HB Ve Hn. unfold arr_list_concat.
  rewrite (last_ok m h1 _ HA), (first_ok m h2 _ HB), (list_abs_empty h1 m _ HA), list.last_snoc.
  rewrite bool_decide_false by (by destruct A). cbn [head if_elem first].
  destruct HA as [HndA HvA HlA HfA HlaA], HB as [_ _ _ HfB HlaB].
  assert (0 < a) as Ha by (rewrite Forall_forall in HvA; apply (HvA a); set_solver).
  rewrite HlaB, HfB. cbn [last_id List.last List.hd]. split_and!; [done| |].
  - intros [_ _ _ _ Hl]. cbn [last_id] in Hl. rewrite last_snoc in Hl. lia.
  - unfold arr_list_insert_tail, arr_list_empty, arr_list_last, Queue.id_to_elem. cbn [first last_id].
    rewrite HfA. rewrite (proj2 (Z.eqb_neq (List.hd 0 (A ++ [a])) 0)).
    2: { rewrite Forall_forall in HvA.
         destruct (HvA (List.hd 0 (A ++ [a])) ltac:(apply hd_in; by destruct A)). lia. }
    cbn [Z.ltb Z.compare andb if_elem first]. assert (a ≠ e) by set_solver. split_and!; [qread|done|].
    intros [_ _ [_ Hd]%dseg_app _ _]. cbn [dseg List.hd] in Hd. destruct Hd as (_ & Hd & _).
    revert Hd. destruct Ve. qread. intros. lia.
Qed.

(** Iterating visits the elements in list order, at most [max] of them,
    and the loop variable tells whether elements were left: with a body that
    leaves the links alone, forwards and backwards; with the safe iterator the
    body may also relink the current element and the visited ones. *)
Theorem arr_list_foreach_visits {S} m h L (body : Z → (Z → E) * S → (Z → E) * S) max (s : S) :
  list_abs m h L →
  ((∀ v s i, entry ((body v s).1 i) = entry (s.1 i)) →
   arr_list_foreach arr_sz body h max (m, s)
     = (fold_left (λ s v, body v s) (take max L) (m, s), head (drop max L)) ∧
   arr_list_foreach_reverse arr_sz body h max (m, s)
     = (fold_left (λ s v, body v s) (take max (rev L)) (m, s), head (drop max (rev L)))) ∧
  ((∀ A v B s i, L = A ++ v :: B → i ∈ B → next (entry ((body v s).1 i)) = next (entry (s.1 i))) →
   arr_list_foreach_safe arr_sz body h max (m, s)
     = (fold_left (λ s v, body v s) (take max L) (m, s), head (drop max L))).
Proof.
  intros Habs. pose proof Habs as [Hnd Hv Hl _ _].
  split; [intros Hbody; split|intros Hbody].
  - unfold arr_list_foreach. rewrite (first_ok m h L Habs).
    apply (foreach_loop_ok body _ (λ L m, Forall (in_arr arr_sz) L ∧ ∃ p, dseg (prevs m) (nexts m) p L 0)).
    + intros v B [m0 s0] [[Vv HvB]%Forall_cons [p (Pv & Nv & HB)]]. split_and!; [|done|].
      * unfold arr_list_next. rewrite Hbody. simpl in *. rewrite Nv. by apply hd_elem.
      * exists v. eapply dseg_frame; [|exact HB]. intros i _. simpl. by rewrite Hbody.
    + split; [done|]. by exists 0.
  - unfold arr_list_foreach_reverse. rewrite (last_ok m h L Habs).
    assert (last L = head (rev L)) as ->.
    { clear. destruct L as [|x L _] using rev_ind; [done|].
      by rewrite list.last_snoc, rev_unit. }
    apply (foreach_loop_ok body _ (λ L m, Forall (in_arr arr_sz) L ∧ ∃ p, dseg (nexts m) (prevs m) p L 0)).
    + intros v B [m0 s0] [[Vv HvB]%Forall_cons [p (Pv & Nv & HB)]]. split_and!; [|done|].
      * unfold arr_list_prev. rewrite Hbody. simpl in *. rewrite Nv. by apply hd_elem.
      * exists v. eapply dseg_frame; [|exact HB]. intros i _. simpl. by rewrite Hbody.
    + split; [by apply Forall_rev|]. exists 0. by apply dseg_rev.
  - unfold arr_list_foreach_safe. rewrite (first_ok m h L Habs).
    apply (foreach_safe_loop_ok body _ (λ B m, Forall (in_arr arr_sz) B ∧ (∃ A, L = A ++ B) ∧
             ∃ p prv, dseg prv (nexts m) p B 0)).
    + intros v B m0 ([Vv HvB]%Forall_cons & _ & p & prv & _ & Nv & _).
      unfold arr_list_next. rewrite Nv. by apply hd_elem.
    + intros v B [m0 s0] ([Vv HvB]%Forall_cons & [A HA] & p & prv & _ & _ & HB). split_and!; [done|..].
      * exists (A ++ [v]). by rewrite <- app_assoc.
      * exists v, prv. eapply dseg_frame; [|exact HB]. intros i Hi. split; [done|].
        simpl. by rewrite (Hbody A v B (m0, s0) i).
    + split_and!; [done|by exists []|]. by exists 0, (prevs m).
Qed.

End spec.

(** ** Witnesses *)

Lemma sample_list_abs : list_abs 8 sample_arr sample_list [3; 1; 2].
Proof.
  split; try done.
  - repeat (apply NoDup_cons; split; [set_solver|]). apply NoDup_nil_2.
  - repeat (constructor; [unfold in_arr; lia|]). constructor.
Defined.

Lemma sample_list2_abs : list_abs 8 sample_arr sample_list2 [6; 7].
Proof.
  split; try done.
  - repeat (apply NoDup_cons; split; [set_solver|]). apply NoDup_nil_2.
  - repeat (constructor; [unfold in_arr; lia|]). constructor.
Defined.

Lemma arr_list_insert_end_refines_witness :
  (let '(m', h') := arr_list_insert_head 8 sample_arr sample_list 5 in
   list_abs 8 m' h' [5; 3; 1; 2] ∧ links_only sample_arr m' [5; 3; 1; 2]) ∧
  (let '(m', h') := arr_list_insert_tail 8 sample_arr sample_list 5 in
   list_abs 8 m' h' [3; 1; 2; 5] ∧ links_only sample_arr m' [5; 3; 1; 2]).
Proof.
  apply (arr_list_insert_end_refines 8 sample_arr sample_list [3; 1; 2] 5 sample_list_abs);
    [unfold in_arr; lia|set_solver].
Defined.

Lemma arr_list_insert_at_refines_witness :
  (let '(m', h') := arr_list_insert_before 8 sample_arr sample_list 1 5 in
   list_abs 8 m' h' [3; 5; 1; 2] ∧ links_only sample_arr m' [5; 3; 1; 2]) ∧
  (let '(m', h') := arr_list_insert_after 8 sample_arr sample_list 1 5 in
   list_abs 8 m' h' [3; 1; 5; 2] ∧ links_only sample_arr m' [5; 3; 1; 2]).
Proof.
  apply (arr_list_insert_at_refines 8 sample_arr sample_list [3] 1 [2] 5 sample_list_abs);
    [unfold in_arr; lia|set_solver].
Defined.

Lemma arr_list_remove_refines_witness :
  (let '(m', h') := arr_list_remove 8 sample_arr sample_list 1 in
   list_abs 8 m' h' [3; 2] ∧ links_only sample_arr m' [3; 1; 2] ∧ entry (m' 1) = mk_entry 0 0) ∧
  (let '(m', h', o) := arr_list_pop_first 8 sample_arr sample_list in
   o = Some 3 ∧ list_abs 8 m' h' [1; 2] ∧ links_only sample_arr m' [3; 1; 2]
   ∧ (∀ y, o = Some y → entry (m' y) = mk_entry 0 0)).
Proof. apply (arr_list_remove_refines 8 sample_arr sample_list [3] 1 [2] sample_list_abs). Defined.

Lemma arr_list_concat_refines_witness :
  let '(m', h1', h2') := arr_list_concat 8 sample_arr sample_list sample_list2 in
  list_abs 8 m' h1' [3; 1; 2; 6; 7] ∧ list_abs 8 m' h2' [] ∧ links_only sample_arr m' [3; 1; 2; 6; 7].
Proof.
  apply (arr_list_concat_refines 8 sample_arr sample_list sample_list2 [3; 1; 2] [6; 7]
           sample_list_abs sample_list2_abs); [done|]. unfold apart. set_solver.
Defined.

Lemma arr_list_concat_empty_breaks_witness :
  let '(m1, h1', _) := arr_list_concat 8 sample_arr sample_list arr_list_init in
  last_id h1' = 0 ∧ ¬ list_abs 8 m1 h1' [3; 1; 2] ∧
  let '(m2, h1'') := arr_list_insert_tail 8 m1 h1' 5 in
  next (entry (m2 2)) = 0 ∧ first h1'' = 3 ∧ ¬ list_abs 8 m2 h1'' [3; 1; 2; 5].
Proof.
  apply (arr_list_concat_empty_breaks 8 sample_arr sample_list arr_list_init [3; 1] 2 5
           sample_list_abs); [apply list_abs_init|unfold in_arr; lia|set_solver].
Defined.

Lemma arr_list_foreach_visits_witness :
  arr_list_foreach_safe 8 (λ v '(m, s), (m, s ++ [v])) sample_list 2 (sample_arr, [])
  = ((sample_arr, [3; 1]), Some 2).
Proof.
  apply (arr_list_foreach_visits 8 sample_arr sample_list [3; 1; 2]
           (λ v '(m, s), (m, s ++ [v])) 2 [] sample_list_abs). by intros A v B [m s] i _ _.
Defined.
