(* ===== verification/FluxState.v ===== *)
(** * FluxState: the data of the Flux framework

    The structures of flux_header_bpf.h, flux_bpf.h, roci_flux_bpf.h and
    biff_flux_bpf.h, the BPF maps of flux_dispatch.bpf.c and flux.bpf.c, and the
    helpers that look them up.

    One [flux_state] holds all maps.  A pointer to a cpu or thread is its list
    id (index + 1, see ArrStructs), a pointer to a scheduler is its map index.
    The members of the unions in flux_sched and flux_thread are kept apart: a
    scheduler only uses the member of its own type.  The bpf_spin_lock sections
    are not modelled: a handler or PNT runs as one step. *)

From stdpp Require Import base tactics numbers list functions gmap.
From Stdlib Require Import ZArith Lia.
From S2P Require Import Prelude Queue.

Local Open Scope Z_scope.

(** ** Constants *)

Definition FLUX_MAX_CPUS : Z := 1024.
Definition FLUX_MAX_GTIDS : Z := 65536.
Definition FLUX_SCHED_NONE : Z := 0.
Definition FLUX_SCHED_ROCI : Z := 1.
Definition FLUX_SCHED_BIFF : Z := 2.
Definition FLUX_SCHED_IDLE : Z := 3.
Definition FLUX_NR_SCHEDS : Z := 4.
Definition FLUX_SCHED_TYPE_NONE : Z := 0.
Definition FLUX_SCHED_TYPE_ROCI : Z := 1.
Definition FLUX_SCHED_TYPE_BIFF : Z := 2.
Definition FLUX_SCHED_TYPE_IDLE : Z := 3.
Definition FLUX_MAX_NR_TIERS : nat := 3.
Definition FLUX_TIER_NO_PREEMPT : Z := 3.
Definition ENOENT : Z := 2.
Definition EBUSY : Z := 16.
Definition ESTALE : Z := 116.

(** ** Structures *)

Record roci_flux_sched := mk_roci {
  primary_cpus : arr_list;
  idle_cpus : arr_list;
  primary_id : Z;
  idle_id : Z;
}.

Definition set_primary_cpus (v : arr_list) (r : roci_flux_sched) : roci_flux_sched :=
  mk_roci v (idle_cpus r) (primary_id r) (idle_id r).
Definition set_idle_cpus (v : arr_list) (r : roci_flux_sched) : roci_flux_sched :=
  mk_roci (primary_cpus r) v (primary_id r) (idle_id r).
Definition set_primary_id (v : Z) (r : roci_flux_sched) : roci_flux_sched :=
  mk_roci (primary_cpus r) (idle_cpus r) v (idle_id r).
Definition set_idle_id (v : Z) (r : roci_flux_sched) : roci_flux_sched :=
  mk_roci (primary_cpus r) (idle_cpus r) (primary_id r) v.

(** struct __flux_sched with the union's roci and biff members. *)
Record flux_sched := mk_sched {
  s_nr_cpus : Z;  (* int64_t *)
  s_nr_cpus_wanted : Z;  (* int64_t *)
  s_id : Z;
  s_type : Z;
  roci : roci_flux_sched;
  biff_rq : arr_list;
}.

Definition set_s_nr_cpus (v : Z) (f : flux_sched) : flux_sched :=
  mk_sched v (s_nr_cpus_wanted f) (s_id f) (s_type f) (roci f) (biff_rq f).
Definition set_s_nr_cpus_wanted (v : Z) (f : flux_sched) : flux_sched :=
  mk_sched (s_nr_cpus f) v (s_id f) (s_type f) (roci f) (biff_rq f).
Definition set_s_id (v : Z) (f : flux_sched) : flux_sched :=
  mk_sched (s_nr_cpus f) (s_nr_cpus_wanted f) v (s_type f) (roci f) (biff_rq f).
Definition set_s_type (v : Z) (f : flux_sched) : flux_sched :=
  mk_sched (s_nr_cpus f) (s_nr_cpus_wanted f) (s_id f) v (roci f) (biff_rq f).
Definition set_roci (v : roci_flux_sched) (f : flux_sched) : flux_sched :=
  mk_sched (s_nr_cpus f) (s_nr_cpus_wanted f) (s_id f) (s_type f) v (biff_rq f).
Definition set_biff_rq (v : arr_list) (f : flux_sched) : flux_sched :=
  mk_sched (s_nr_cpus f) (s_nr_cpus_wanted f) (s_id f) (s_type f) (roci f) v.

(** One scheduler's storage in a cpu: struct roci_flux_cpu and struct biff_flux_cpu. *)
Record sched_cpu := mk_sched_cpu {
  roci_link : arr_list_entry;
  preempt_pending : bool;
  biff_current : Z;  (* gtid *)
}.

Definition set_roci_link (v : arr_list_entry) (s : sched_cpu) : sched_cpu :=
  mk_sched_cpu v (preempt_pending s) (biff_current s).
Definition set_preempt_pending (v : bool) (s : sched_cpu) : sched_cpu :=
  mk_sched_cpu (roci_link s) v (biff_current s).
Definition set_biff_current (v : Z) (s : sched_cpu) : sched_cpu :=
  mk_sched_cpu (roci_link s) (preempt_pending s) v.

(** The array __s[FLUX_NR_SCHEDS] of struct flux_cpu. *)
Record sched_cpus := mk_sched_cpus {
  s_0 : sched_cpu;
  s_1 : sched_cpu;
  s_2 : sched_cpu;
  s_3 : sched_cpu;
}.

Definition set_s_0 (v : sched_cpu) (s : sched_cpus) : sched_cpus :=
  mk_sched_cpus v (s_1 s) (s_2 s) (s_3 s).
Definition set_s_1 (v : sched_cpu) (s : sched_cpus) : sched_cpus :=
  mk_sched_cpus (s_0 s) v (s_2 s) (s_3 s).
Definition set_s_2 (v : sched_cpu) (s : sched_cpus) : sched_cpus :=
  mk_sched_cpus (s_0 s) (s_1 s) v (s_3 s).
Definition set_s_3 (v : sched_cpu) (s : sched_cpus) : sched_cpus :=
  mk_sched_cpus (s_0 s) (s_1 s) (s_2 s) v.

(** struct __flux_cpu and the per-scheduler storage. *)
Record flux_cpu := mk_cpu {
  preempt_to : Z;  (* uint64_t *)
  c_id : Z;
  current_sched : Z;
  available : bool;
  pnt_success : bool;
  latched_seqnum : Z;
  __s : sched_cpus;
}.

Definition set_preempt_to (v : Z) (f : flux_cpu) : flux_cpu :=
  mk_cpu v (c_id f) (current_sched f) (available f) (pnt_success f) (latched_seqnum f)
    (__s f).
Definition set_c_id (v : Z) (f : flux_cpu) : flux_cpu :=
  mk_cpu (preempt_to f) v (current_sched f) (available f) (pnt_success f) (latched_seqnum f)
    (__s f).
Definition set_current_sched (v : Z) (f : flux_cpu) : flux_cpu :=
  mk_cpu (preempt_to f) (c_id f) v (available f) (pnt_success f) (latched_seqnum f) (__s f).
Definition set_available (v : bool) (f : flux_cpu) : flux_cpu :=
  mk_cpu (preempt_to f) (c_id f) (current_sched f) v (pnt_success f) (latched_seqnum f)
    (__s f).
Definition set_pnt_success (v : bool) (f : flux_cpu) : flux_cpu :=
  mk_cpu (preempt_to f) (c_id f) (current_sched f) (available f) v (latched_seqnum f)
    (__s f).
Definition set_latched_seqnum (v : Z) (f : flux_cpu) : flux_cpu :=
  mk_cpu (preempt_to f) (c_id f) (current_sched f) (available f) (pnt_success f) v (__s f).
Definition set___s (v : sched_cpus) (f : flux_cpu) : flux_cpu :=
  mk_cpu (preempt_to f) (c_id f) (current_sched f) (available f) (pnt_success f)
    (latched_seqnum f) v.

(** struct __flux_thread and struct biff_flux_thread. *)
Record flux_thread := mk_thread {
  gtid : Z;
  seqnum : Z;
  refcnt : Z;  (* uint64_t *)
  t_sched : Z;
  nice : Z;
  on_rq : bool;
  on_cpu : bool;
  pending_latch : bool;
  ran_at : Z;
  ran_until : Z;
  runnable_at : Z;
  link : arr_list_entry;
  enqueued : bool;
  times_up : bool;
  t_cpu : Z;
}.

Definition set_gtid (v : Z) (f : flux_thread) : flux_thread :=
  mk_thread v (seqnum f) (refcnt f) (t_sched f) (nice f) (on_rq f) (on_cpu f)
    (pending_latch f) (ran_at f) (ran_until f) (runnable_at f) (link f) (enqueued f)
    (times_up f) (t_cpu f).
Definition set_seqnum (v : Z) (f : flux_thread) : flux_thread :=
  mk_thread (gtid f) v (refcnt f) (t_sched f) (nice f) (on_rq f) (on_cpu f)
    (pending_latch f) (ran_at f) (ran_until f) (runnable_at f) (link f) (enqueued f)
    (times_up f) (t_cpu f).
Definition set_refcnt (v : Z) (f : flux_thread) : flux_thread :=
  mk_thread (gtid f) (seqnum f) v (t_sched f) (nice f) (on_rq f) (on_cpu f)
    (pending_latch f) (ran_at f) (ran_until f) (runnable_at f) (link f) (enqueued f)
    (times_up f) (t_cpu f).
Definition set_t_sched (v : Z) (f : flux_thread) : flux_thread :=
  mk_thread (gtid f) (seqnum f) (refcnt f) v (nice f) (on_rq f) (on_cpu f) (pending_latch f)
    (ran_at f) (ran_until f) (runnable_at f) (link f) (enqueued f) (times_up f) (t_cpu f).
Definition set_nice (v : Z) (f : flux_thread) : flux_thread :=
  mk_thread (gtid f) (seqnum f) (refcnt f) (t_sched f) v (on_rq f) (on_cpu f)
    (pending_latch f) (ran_at f) (ran_until f) (runnable_at f) (link f) (enqueued f)
    (times_up f) (t_cpu f).
Definition set_on_rq (v : bool) (f : flux_thread) : flux_thread :=
  mk_thread (gtid f) (seqnum f) (refcnt f) (t_sched f) (nice f) v (on_cpu f)
    (pending_latch f) (ran_at f) (ran_until f) (runnable_at f) (link f) (enqueued f)
    (times_up f) (t_cpu f).
Definition set_on_cpu (v : bool) (f : flux_thread) : flux_thread :=
  mk_thread (gtid f) (seqnum f) (refcnt f) (t_sched f) (nice f) (on_rq f) v
    (pending_latch f) (ran_at f) (ran_until f) (runnable_at f) (link f) (enqueued f)
    (times_up f) (t_cpu f).
Definition set_pending_latch (v : bool) (f : flux_thread) : flux_thread :=
  mk_thread (gtid f) (seqnum f) (refcnt f) (t_sched f) (nice f) (on_rq f) (on_cpu f) v
    (ran_at f) (ran_until f) (runnable_at f) (link f) (enqueued f) (times_up f) (t_cpu f).
Definition set_ran_at (v : Z) (f : flux_thread) : flux_thread :=
  mk_thread (gtid f) (seqnum f) (refcnt f) (t_sched f) (nice f) (on_rq f) (on_cpu f)
    (pending_latch f) v (ran_until f) (runnable_at f) (link f) (enqueued f) (times_up f)
    (t_cpu f).
Definition set_ran_until (v : Z) (f : flux_thread) : flux_thread :=
  mk_thread (gtid f) (seqnum f) (refcnt f) (t_sched f) (nice f) (on_rq f) (on_cpu f)
    (pending_latch f) (ran_at f) v (runnable_at f) (link f) (enqueued f) (times_up f)
    (t_cpu f).
Definition set_runnable_at (v : Z) (f : flux_thread) : flux_thread :=
  mk_thread (gtid f) (seqnum f) (refcnt f) (t_sched f) (nice f) (on_rq f) (on_cpu f)
    (pending_latch f) (ran_at f) (ran_until f) v (link f) (enqueued f) (times_up f)
    (t_cpu f).
Definition set_link (v : arr_list_entry) (f : flux_thread) : flux_thread :=
  mk_thread (gtid f) (seqnum f) (refcnt f) (t_sched f) (nice f) (on_rq f) (on_cpu f)
    (pending_latch f) (ran_at f) (ran_until f) (runnable_at f) v (enqueued f) (times_up f)
    (t_cpu f).
Definition set_enqueued (v : bool) (f : flux_thread) : flux_thread :=
  mk_thread (gtid f) (seqnum f) (refcnt f) (t_sched f) (nice f) (on_rq f) (on_cpu f)
    (pending_latch f) (ran_at f) (ran_until f) (runnable_at f) (link f) v (times_up f)
    (t_cpu f).
Definition set_times_up (v : bool) (f : flux_thread) : flux_thread :=
  mk_thread (gtid f) (seqnum f) (refcnt f) (t_sched f) (nice f) (on_rq f) (on_cpu f)
    (pending_latch f) (ran_at f) (ran_until f) (runnable_at f) (link f) (enqueued f) v
    (t_cpu f).
Definition set_t_cpu (v : Z) (f : flux_thread) : flux_thread :=
  mk_thread (gtid f) (seqnum f) (refcnt f) (t_sched f) (nice f) (on_rq f) (on_cpu f)
    (pending_latch f) (ran_at f) (ran_until f) (runnable_at f) (link f) (enqueued f)
    (times_up f) v.

(** Hash map values of sw_lookup. *)
Record task_sw_info := mk_swi { swi_id : Z; swi_index : Z }.

(** The PNT context the kernel passes in and reads back. *)
Record bpf_ghost_sched := mk_ctx {
  agent_runnable : bool;
  might_yield : bool;
  dont_idle : bool;
  must_resched : bool;
}.

Definition ctx_set_agent_runnable (v : bool) (b : bpf_ghost_sched) : bpf_ghost_sched :=
  mk_ctx v (might_yield b) (dont_idle b) (must_resched b).
Definition ctx_set_might_yield (v : bool) (b : bpf_ghost_sched) : bpf_ghost_sched :=
  mk_ctx (agent_runnable b) v (dont_idle b) (must_resched b).
Definition ctx_set_dont_idle (v : bool) (b : bpf_ghost_sched) : bpf_ghost_sched :=
  mk_ctx (agent_runnable b) (might_yield b) v (must_resched b).
Definition ctx_set_must_resched (v : bool) (b : bpf_ghost_sched) : bpf_ghost_sched :=
  mk_ctx (agent_runnable b) (might_yield b) (dont_idle b) v.

(** All maps, the agent's global flag, the number of helper calls made so far
    (which indexes the environment's answers), the cpus that were sent a
    reschedule IPI and the threads the kernel agreed to run, newest first. *)
Record flux_state := mk_state {
  scheds : Z → flux_sched;
  cpus : Z → flux_cpu;
  threads : Z → flux_thread;
  sw_lookup : gmap Z task_sw_info;
  user_initialized : bool;
  calls : nat;
  rescheds : list Z;
  latched : list Z;
}.

Definition set_scheds (v : Z → flux_sched) (f : flux_state) : flux_state :=
  mk_state v (cpus f) (threads f) (sw_lookup f) (user_initialized f) (calls f) (rescheds
    f) (latched f).
Definition set_cpus (v : Z → flux_cpu) (f : flux_state) : flux_state :=
  mk_state (scheds f) v (threads f) (sw_lookup f) (user_initialized f) (calls f)
    (rescheds f) (latched f).
Definition set_threads (v : Z → flux_thread) (f : flux_state) : flux_state :=
  mk_state (scheds f) (cpus f) v (sw_lookup f) (user_initialized f) (calls f) (rescheds
    f) (latched f).
Definition set_sw_lookup (v : gmap Z task_sw_info) (f : flux_state) : flux_state :=
  mk_state (scheds f) (cpus f) (threads f) v (user_initialized f) (calls f) (rescheds f)
    (latched f).
Definition set_user_initialized (v : bool) (f : flux_state) : flux_state :=
  mk_state (scheds f) (cpus f) (threads f) (sw_lookup f) v (calls f) (rescheds f)
    (latched f).
Definition set_calls (v : nat) (f : flux_state) : flux_state :=
  mk_state (scheds f) (cpus f) (threads f) (sw_lookup f) (user_initialized f) v (rescheds
    f) (latched f).
Definition set_rescheds (v : list Z) (f : flux_state) : flux_state :=
  mk_state (scheds f) (cpus f) (threads f) (sw_lookup f) (user_initialized f) (calls f) v
    (latched f).
Definition set_latched (v : list Z) (f : flux_state) : flux_state :=
  mk_state (scheds f) (cpus f) (threads f) (sw_lookup f) (user_initialized f) (calls f)
    (rescheds f) v.

(** Messages, with the payload fields that Flux reads. *)
Inductive msg_payload :=
  | MSG_TASK_NEW (gtid : Z) (runnable : bool) (nice sw_id sw_index : Z)
  | MSG_TASK_ON_CPU (gtid cpu : Z)
  | MSG_TASK_BLOCKED (gtid cpu : Z) (from_switchto : bool)
  | MSG_TASK_WAKEUP (gtid : Z) (deferrable : bool) (waker_cpu : Z)
  | MSG_TASK_PREEMPT (gtid cpu : Z) (from_switchto was_latched : bool)
  | MSG_TASK_YIELD (gtid cpu : Z) (from_switchto : bool)
  | MSG_TASK_SWITCHTO (gtid cpu : Z)
  | MSG_TASK_AFFINITY_CHANGED (gtid : Z)
  | MSG_TASK_PRIORITY_CHANGED (gtid nice : Z)
  | MSG_TASK_LATCH_FAILURE (gtid errno : Z)
  | MSG_TASK_DEAD (gtid cpu : Z)
  | MSG_TASK_DEPARTED (gtid cpu : Z) (from_switchto was_current : bool)
  | MSG_CPU_TICK (cpu : Z)
  | MSG_CPU_AVAILABLE (cpu : Z)
  | MSG_CPU_BUSY (cpu : Z)
  | MSG_OTHER (type : Z).

Record bpf_ghost_msg := mk_msg { msg_seqnum : Z; payload : msg_payload }.

(** ** Access *)

Definition bounded_idx (idx bound : Z) : Z := if idx <? bound then idx else 0.

Definition s_get (i : Z) (a : sched_cpus) : sched_cpu :=
  if i =? 1 then s_1 a else if i =? 2 then s_2 a else if i =? 3 then s_3 a else s_0 a.
Definition s_alter (f : sched_cpu → sched_cpu) (i : Z) (a : sched_cpus) : sched_cpus :=
  if i =? 1 then set_s_1 (f (s_1 a)) a
  else if i =? 2 then set_s_2 (f (s_2 a)) a
  else if i =? 3 then set_s_3 (f (s_3 a)) a
  else set_s_0 (f (s_0 a)) a.

(** [cpu->__sched_cpu_union(s)]: the storage of the scheduler with id [i]. *)
Definition sched_cpu_union (i : Z) (c : flux_cpu) : sched_cpu :=
  s_get (bounded_idx i FLUX_NR_SCHEDS) (__s c).
Definition alter_sched_cpu (f : sched_cpu → sched_cpu) (i : Z) (c : flux_cpu) : flux_cpu :=
  set___s (s_alter f (bounded_idx i FLUX_NR_SCHEDS) (__s c)) c.

(** The cpu's link in the lists of the scheduler with id [i]. *)
Lemma s_get_alter f i a : s_get i (s_alter f i a) = f (s_get i a).
Proof. unfold s_get, s_alter. by repeat zcase. Qed.

Lemma s_alter_compose f g i a : s_alter f i (s_alter g i a) = s_alter (λ x, f (g x)) i a.
Proof. unfold s_alter. by repeat zcase. Qed.

Lemma s_alter_id f i a : f (s_get i a) = s_get i a → s_alter f i a = a.
Proof. unfold s_get, s_alter. repeat zcase; intros E; destruct a; simpl in *; by rewrite E. Qed.

Lemma s_get_alter_ne f i j a :
  0 ≤ i < 4 → 0 ≤ j < 4 → i ≠ j → s_get j (s_alter f i a) = s_get j a.
Proof. intros. unfold s_get, s_alter. by repeat (zcase; simpl); try lia. Qed.

Lemma s_alter_ext f g i a : f (s_get i a) = g (s_get i a) → s_alter f i a = s_alter g i a.
Proof. unfold s_get, s_alter. by repeat zcase; intros ->. Qed.

Program Definition roci_field (i : Z) : ListField flux_cpu :=
  {| entry c := roci_link (sched_cpu_union i c);
     set_entry v c := alter_sched_cpu (set_roci_link v) i c |}.
Next Obligation. intros. unfold sched_cpu_union. simpl. by rewrite s_get_alter. Qed.
Next Obligation.
  intros i c. unfold alter_sched_cpu. rewrite s_alter_id; [by destruct c|].
  unfold sched_cpu_union. by destruct (s_get _ _).
Qed.
Next Obligation. intros. unfold alter_sched_cpu. simpl. by rewrite s_alter_compose. Qed.

(** A thread's link in biff's run queue. *)
#[export] Program Instance biff_field : ListField flux_thread :=
  {| entry := link; set_entry := set_link |}.
Next Obligation. done. Qed.
Next Obligation. by intros []. Qed.
Next Obligation. done. Qed.

(** [p->field = v] through the three kinds of pointer. *)
Definition upd_sched (i : Z) (f : flux_sched → flux_sched) (st : flux_state) : flux_state :=
  set_scheds (alter f i (scheds st)) st.
Definition upd_cpu (i : Z) (f : flux_cpu → flux_cpu) (st : flux_state) : flux_state :=
  set_cpus (alter f i (cpus st)) st.
Definition upd_thread (i : Z) (f : flux_thread → flux_thread) (st : flux_state) : flux_state :=
  set_threads (alter f i (threads st)) st.

(** ** Lookups *)

Definition get_sched (id : Z) : option Z :=
  if (0 <=? id) && (id <? FLUX_NR_SCHEDS) then Some id else None.

Definition get_parent_id (st : flux_state) (s : Z) : Z :=
  if s_id (scheds st s) =? FLUX_SCHED_ROCI then FLUX_SCHED_NONE else FLUX_SCHED_ROCI.

Definition get_parent (st : flux_state) (s : Z) : option Z := get_sched (get_parent_id st s).

Definition sched_id_to_tier (id : Z) : Z :=
  if id =? FLUX_SCHED_NONE then 0
  else if id =? FLUX_SCHED_ROCI then 1
  else if (id =? FLUX_SCHED_BIFF) || (id =? FLUX_SCHED_IDLE) then 2
  else 0.

Definition new_thread_sched_id : Z := FLUX_SCHED_BIFF.
Definition top_tier_sched_id : Z := FLUX_SCHED_ROCI.

(** The argument of cpuid_to_cpu is a u32, so a negative cpu gives NULL. *)
Definition cpuid_to_cpu (cpu_id : Z) : option Z :=
  if u32 cpu_id <? FLUX_MAX_CPUS then Some (u32 cpu_id + 1) else None.

Definition gtid_to_thread (st : flux_state) (g : Z) : option Z :=
  if g =? 0 then None
  else match sw_lookup st !! g with
       | None => None
       | Some swi => if swi_index swi <? FLUX_MAX_GTIDS then Some (swi_index swi + 1) else None
       end.

Definition flux_thread_incref (t : Z) (st : flux_state) : flux_state :=
  upd_thread t (λ x, set_refcnt (u64 (refcnt x + 1)) x) st.

Definition flux_thread_decref (t : Z) (st : flux_state) : flux_state :=
  let st := upd_thread t (λ x, set_refcnt (u64 (refcnt x - 1)) x) st in
  if refcnt (threads st t) =? 0
  then set_sw_lookup (delete (gtid (threads st t)) (sw_lookup st)) st
  else st.

(** bpf_map_update_elem with BPF_NOEXIST: fails for a present key or a full map. *)
Definition sw_lookup_insert (g : Z) (swi : task_sw_info) (st : flux_state) : option flux_state :=
  match sw_lookup st !! g with
  | Some _ => None
  | None =>
      if FLUX_MAX_GTIDS <=? Z.of_nat (size (sw_lookup st)) then None
      else Some (set_sw_lookup (<[g := swi]> (sw_lookup st)) st)
  end.

(** How many more cpus the scheduler might want. *)
Definition flux_sched_nr_cpus_needed (st : flux_state) (s : Z) : Z :=
  let delta := s64 (s_nr_cpus_wanted (scheds st s) - s_nr_cpus (scheds st s)) in
  if delta <? 0 then 0 else delta.
