(* ===== verification/RociFlux.v ===== *)
(** * RociFlux: cpu preemption requests and the ROCI and idle schedulers

    flux_preempt_cpu of flux_api.bpf.c, the sched ops of roci_flux.bpf.c except
    PNT (which grants, see FluxApi), and those of idle_flux.bpf.c. *)

From stdpp Require Import base tactics numbers list functions gmap.
From Stdlib Require Import ZArith Lia.
From S2P Require Import Prelude Queue FluxState.

Local Open Scope Z_scope.

(** ** Requesting a preemption *)

Definition bpf_ghost_resched_cpu2 (cpu_id : Z) (st : flux_state) : flux_state :=
  set_rescheds (cpu_id :: rescheds st) st.

(** __sync_bool_compare_and_swap on preempt_to. *)
Definition cas_preempt_to (cpu old new : Z) (st : flux_state) : flux_state * bool :=
  if preempt_to (cpus st cpu) =? old
  then (upd_cpu cpu (set_preempt_to new) st, true)
  else (st, false).

Fixpoint flux_preempt_loop (n : nat) (my_tier cpu : Z) (st : flux_state) : flux_state :=
  match n with
  | O => st
  | S n =>
      let pt := s64 (preempt_to (cpus st cpu)) in
      if pt <=? my_tier then st
      else
        let '(st, swapped) := cas_preempt_to cpu (u64 pt) (u64 my_tier) st in
        if swapped then bpf_ghost_resched_cpu2 (c_id (cpus st cpu)) st
        else flux_preempt_loop n my_tier cpu st
  end.

Definition flux_preempt_cpu (s cpu : Z) (st : flux_state) : flux_state :=
  let my_tier := sched_id_to_tier (s_id (scheds st s)) in
  flux_preempt_loop (FLUX_MAX_NR_TIERS * 2) my_tier cpu st.

(** ** ROCI *)

Definition ROCI_MAX_NR_PREEMPTS : nat := 5.

(** [roci_cpu(r, cpu)] *)
Definition roci_cpu (st : flux_state) (r cpu : Z) : sched_cpu :=
  sched_cpu_union (s_id (scheds st r)) (cpus st cpu).
Definition upd_roci_cpu (r cpu : Z) (f : sched_cpu → sched_cpu) (st : flux_state) : flux_state :=
  upd_cpu cpu (alter_sched_cpu f (s_id (scheds st r))) st.

Definition set_roci_primary_cpus (l : arr_list) (s : flux_sched) : flux_sched :=
  set_roci (set_primary_cpus l (roci s)) s.
Definition set_roci_idle_cpus (l : arr_list) (s : flux_sched) : flux_sched :=
  set_roci (set_idle_cpus l (roci s)) s.

Definition roci_pop_first_idle (r : Z) (st : flux_state) : flux_state * option Z :=
  let '(m, l, victim) :=
    arr_list_pop_first (ListField0 := roci_field (s_id (scheds st r))) FLUX_MAX_CPUS
      (cpus st) (idle_cpus (roci (scheds st r))) in
  (upd_sched r (set_roci_idle_cpus l) (set_cpus m st), victim).

(** [i] is the loop counter, [n] the iterations left. *)
Fixpoint roci_request_loop (n : nat) (i nr_needed r : Z) (st : flux_state) (ret : Z)
    : flux_state * Z :=
  match n with
  | O => (st, ret)
  | S n =>
      if nr_needed <=? i then roci_request_loop n (i + 1) nr_needed r st ret
      else
        let '(st, victim) := roci_pop_first_idle r st in
        match victim with
        | None => (st, ret)
        | Some v =>
            let st := upd_roci_cpu r v (set_preempt_pending true) st in
            let st := flux_preempt_cpu r v st in
            roci_request_loop n (i + 1) nr_needed r st (ret + 1)
        end
  end.

Definition roci_request_for_cpus (r child_id nr_cpus : Z) (st : flux_state) : flux_state * Z :=
  if child_id =? idle_id (roci (scheds st r)) then (st, 0)
  else
    match get_sched child_id with
    | None => (st, 0)
    | Some c =>
        let nr_needed := flux_sched_nr_cpus_needed st c in
        if nr_needed =? 0 then (st, 0)
        else roci_request_loop ROCI_MAX_NR_PREEMPTS 0 nr_needed r st 0
    end.

Definition roci_cpu_allocated (r cpu : Z) (st : flux_state) : flux_state := st.

Definition __roci_cpu_returned (r child_id cpu : Z) (st : flux_state) : flux_state :=
  if preempt_pending (roci_cpu st r cpu) then
    upd_roci_cpu r cpu (set_preempt_pending false) st
  else
    let fld := roci_field (s_id (scheds st r)) in
    if child_id =? primary_id (roci (scheds st r)) then
      let '(m, l) := arr_list_remove (ListField0 := fld) FLUX_MAX_CPUS (cpus st)
                       (primary_cpus (roci (scheds st r))) cpu in
      upd_sched r (set_roci_primary_cpus l) (set_cpus m st)
    else
      let '(m, l) := arr_list_remove (ListField0 := fld) FLUX_MAX_CPUS (cpus st)
                       (idle_cpus (roci (scheds st r))) cpu in
      upd_sched r (set_roci_idle_cpus l) (set_cpus m st).

Definition roci_cpu_returned (r child_id cpu : Z) (st : flux_state) : flux_state :=
  __roci_cpu_returned r child_id cpu st.

Definition roci_cpu_preempted (r child_id cpu : Z) (st : flux_state) : flux_state :=
  if child_id =? FLUX_SCHED_NONE then st
  else
    let st := __roci_cpu_returned r child_id cpu st in
    (roci_request_for_cpus r child_id 1 st).1.

Definition roci_cpu_preemption_completed (r child_id cpu : Z) (st : flux_state) : flux_state :=
  if child_id =? FLUX_SCHED_NONE then st else __roci_cpu_returned r child_id cpu st.

Definition roci_cpu_ticked (r child_id cpu : Z) (st : flux_state) : flux_state := st.

(** Putting the cpu on a child's list, the first half of roci_pick_next_task. *)
Definition roci_assign (r cpu : Z) (to_primary : bool) (st : flux_state) : flux_state :=
  let fld := roci_field (s_id (scheds st r)) in
  if to_primary then
    let '(m, l) := arr_list_insert_head (ListField0 := fld) FLUX_MAX_CPUS (cpus st)
                     (primary_cpus (roci (scheds st r))) cpu in
    upd_sched r (set_roci_primary_cpus l) (set_cpus m st)
  else
    let '(m, l) := arr_list_insert_head (ListField0 := fld) FLUX_MAX_CPUS (cpus st)
                     (idle_cpus (roci (scheds st r))) cpu in
    upd_sched r (set_roci_idle_cpus l) (set_cpus m st).

(** ** The idle scheduler *)

Definition idle_request_for_cpus (i child_id nr_cpus : Z) (st : flux_state) : flux_state := st.
Definition idle_cpu_allocated (i cpu : Z) (st : flux_state) : flux_state := st.
Definition idle_cpu_returned (i child_id cpu : Z) (st : flux_state) : flux_state := st.
Definition idle_cpu_preempted (i child_id cpu : Z) (st : flux_state) : flux_state := st.
Definition idle_cpu_preemption_completed (i child_id cpu : Z) (st : flux_state) : flux_state := st.
Definition idle_cpu_ticked (i child_id cpu : Z) (st : flux_state) : flux_state := st.

(** Allows the cpu to idle. *)
Definition flux_run_idle (cpu : Z) (st : flux_state) (ctx : bpf_ghost_sched)
    : flux_state * bpf_ghost_sched :=
  (upd_cpu cpu (set_pnt_success true) st, ctx_set_must_resched true (ctx_set_dont_idle false ctx)).

Definition idle_pick_next_task (i cpu : Z) (st : flux_state) (ctx : bpf_ghost_sched)
    : flux_state * bpf_ghost_sched :=
  flux_run_idle cpu st ctx.
