(* ===== verification/BiffFlux.v ===== *)
(** * BiffFlux: the biff scheduler of biff_flux.bpf.c

    A global FIFO of runnable threads.  Its cpu and thread ops are here; PNT
    needs the API that runs threads and yields cpus and is in FluxApi. *)

From stdpp Require Import base tactics numbers list functions gmap.
From Stdlib Require Import ZArith Lia.
From S2P Require Import Prelude Queue FluxState RociFlux.

Local Open Scope Z_scope.

(** What the kernel's helpers answer: the clock, and whether a thread could be
    latched, with the LATCH_FAILURE message the kernel delivers from within a
    failing call, if it does.  Both may depend on the number of the call. *)
Class FluxEnv := {
  ktime_ns : nat → Z;
  run_gtid : nat → Z → Z → Z * option bpf_ghost_msg;
}.

Section biff.
Context `{FluxEnv}.

Definition bpf_ktime_get_us (st : flux_state) : flux_state * Z :=
  (set_calls (S (calls st)) st, ktime_ns (calls st) / 1000).

(** ** Requests to the parent *)

Definition biff_request_for_cpus (b child_id nr_cpus : Z) (st : flux_state) : flux_state := st.

(** The switch of __request_for_cpus; [None] where the result is not set. *)
Definition flux_request_for_cpus (s child_id nr_cpus : Z) (st : flux_state)
    : flux_state * option Z :=
  let ty := s_type (scheds st s) in
  if ty =? FLUX_SCHED_TYPE_ROCI then
    let '(st, ret) := roci_request_for_cpus s child_id nr_cpus st in (st, Some ret)
  else if ty =? FLUX_SCHED_TYPE_BIFF then (biff_request_for_cpus s child_id nr_cpus st, None)
  else if ty =? FLUX_SCHED_TYPE_IDLE then (idle_request_for_cpus s child_id nr_cpus st, None)
  else (st, None).

Definition flux_request_cpus (s nr_cpus : Z) (st : flux_state) : flux_state * option Z :=
  match get_parent st s with
  | None => (st, Some (-1))
  | Some p =>
      let st := upd_sched s (λ x, set_s_nr_cpus_wanted (s64 (s_nr_cpus_wanted x + nr_cpus)) x) st in
      flux_request_for_cpus p (s_id (scheds st s)) nr_cpus st
  end.

(** ** Cpu ops *)

Definition biff_cpu (st : flux_state) (b cpu : Z) : sched_cpu :=
  sched_cpu_union (s_id (scheds st b)) (cpus st cpu).
Definition upd_biff_cpu (b cpu : Z) (f : sched_cpu → sched_cpu) (st : flux_state) : flux_state :=
  upd_cpu cpu (alter_sched_cpu f (s_id (scheds st b))) st.

Definition biff_cpu_allocated (b cpu : Z) (st : flux_state) : flux_state := st.
Definition biff_cpu_returned (b child_id cpu : Z) (st : flux_state) : flux_state := st.
Definition biff_cpu_preempted (b child_id cpu : Z) (st : flux_state) : flux_state := st.
Definition biff_cpu_preemption_completed (b child_id cpu : Z) (st : flux_state) : flux_state := st.

Definition biff_cpu_ticked (b child_id cpu : Z) (st : flux_state) : flux_state :=
  if biff_current (biff_cpu st b cpu) =? 0 then st
  else
    match gtid_to_thread st (biff_current (biff_cpu st b cpu)) with
    | None => st
    | Some t =>
        let '(st, now) := bpf_ktime_get_us st in
        if 50000 <? u64 (now - ran_at (threads st t)) then
          let st := upd_thread t (set_times_up true) st in
          flux_preempt_cpu b cpu st
        else st
    end.

(** ** Run queue *)

Definition __biff_enqueue_task (b t : Z) (st : flux_state) : flux_state :=
  let st := upd_thread t (set_times_up false) st in
  let '(m, l) := arr_list_insert_tail FLUX_MAX_GTIDS (threads st) (biff_rq (scheds st b)) t in
  let st := upd_sched b (set_biff_rq l) (set_threads m st) in
  upd_thread t (set_enqueued true) st.

(** Called with the scheduler lock held when a thread is picked. *)
Definition flux_prepare_to_run (t cpu : Z) (st : flux_state) : flux_state :=
  let st := upd_cpu cpu (set_latched_seqnum (seqnum (threads st t))) st in
  let st := upd_thread t (set_pending_latch true) st in
  flux_thread_incref t st.

Definition __biff_pick_first_to_run (b cpu : Z) (st : flux_state) : flux_state * option Z :=
  let '(m, l, o) := arr_list_pop_first FLUX_MAX_GTIDS (threads st) (biff_rq (scheds st b)) in
  let st := upd_sched b (set_biff_rq l) (set_threads m st) in
  match o with
  | None => (st, None)
  | Some t =>
      let st := upd_thread t (set_enqueued false) st in
      (flux_prepare_to_run t cpu st, Some t)
  end.

Definition __biff_dequeue_task (b t : Z) (st : flux_state) : flux_state :=
  if enqueued (threads st t) then
    let '(m, l) := arr_list_remove FLUX_MAX_GTIDS (threads st) (biff_rq (scheds st b)) t in
    let st := upd_sched b (set_biff_rq l) (set_threads m st) in
    upd_thread t (set_enqueued false) st
  else st.

Definition __biff_task_started (b t cpu_id at_us : Z) (st : flux_state) : flux_state :=
  match cpuid_to_cpu cpu_id with
  | None => st
  | Some cpu =>
      let st := upd_biff_cpu b cpu (set_biff_current (gtid (threads st t))) st in
      upd_thread t (set_ran_at at_us) st
  end.

Definition __biff_task_stopped (b t cpu_id at_us : Z) (st : flux_state) : flux_state :=
  match cpuid_to_cpu cpu_id with
  | None => st
  | Some cpu =>
      let st := upd_biff_cpu b cpu (set_biff_current 0) st in
      upd_thread t (set_ran_until at_us) st
  end.

Definition __biff_task_runnable (b t at_us : Z) (st : flux_state) : flux_state :=
  let st := upd_thread t (set_runnable_at at_us) st in
  __biff_enqueue_task b t st.

(** ** Thread ops *)

Definition biff_thread_new (b t : Z) (st : flux_state) : flux_state :=
  let '(st, now) := bpf_ktime_get_us st in
  let st := upd_thread t (λ x, set_t_cpu 0 (set_times_up false (set_enqueued false
              (set_runnable_at 0 (set_ran_until now (set_ran_at 0 x)))))) st in
  if on_rq (threads st t) then (flux_request_cpus b 1 st).1 else st.

Definition biff_thread_on_cpu (cpu_id : Z) (b t : Z) (st : flux_state) : flux_state :=
  let '(st, now) := bpf_ktime_get_us st in
  let st := __biff_task_started b t cpu_id now st in
  upd_thread t (set_t_cpu cpu_id) st.

Definition biff_thread_blocked (cpu_id : Z) (b t : Z) (st : flux_state) : flux_state :=
  let '(st, now) := bpf_ktime_get_us st in
  let st := __biff_task_stopped b t cpu_id now st in
  (flux_request_cpus b (-1) st).1.

Definition biff_thread_runnable (b t : Z) (st : flux_state) : flux_state :=
  let '(st, now) := bpf_ktime_get_us st in
  __biff_task_runnable b t now st.

Definition biff_thread_wakeup (b t : Z) (st : flux_state) : flux_state :=
  let '(st, now) := bpf_ktime_get_us st in
  let st := __biff_task_runnable b t now st in
  (flux_request_cpus b 1 st).1.

Definition biff_thread_yielded (cpu_id : Z) (b t : Z) (st : flux_state) : flux_state :=
  let '(st, now) := bpf_ktime_get_us st in
  let st := __biff_task_stopped b t cpu_id now st in
  __biff_task_runnable b t now st.

Definition biff_thread_preempted (cpu_id : Z) (was_latched : bool) (b t : Z) (st : flux_state)
    : flux_state :=
  let '(st, now) := bpf_ktime_get_us st in
  let st := if was_latched then st else __biff_task_stopped b t cpu_id now st in
  __biff_task_runnable b t now st.

Definition biff_thread_switchto (b t : Z) (st : flux_state) : flux_state :=
  let '(st, now) := bpf_ktime_get_us st in
  upd_thread t (set_ran_until now) st.

Definition biff_thread_affinity_changed (b t : Z) (st : flux_state) : flux_state := st.
Definition biff_thread_prio_changed (b t : Z) (st : flux_state) : flux_state := st.

Definition biff_thread_departed (cpu_id : Z) (was_current : bool) (b t : Z) (st : flux_state)
    : flux_state :=
  let st :=
    if was_current then
      let '(st, now) := bpf_ktime_get_us st in __biff_task_stopped b t cpu_id now st
    else st in
  let st := __biff_dequeue_task b t st in
  if on_rq (threads st t) then (flux_request_cpus b (-1) st).1 else st.

Definition biff_thread_dead (b t : Z) (st : flux_state) : flux_state := st.

End biff.
