(* ===== verification/FluxApi.v ===== *)
(** * FluxApi: dispatch, cpu grants and preemptions, PNT and the message handlers
    (flux_dispatch.bpf.c, flux_api.bpf.c, and the PNT ops of the schedulers) *)

From stdpp Require Import base tactics numbers list functions gmap.
From Stdlib Require Import ZArith Lia.
From S2P Require Import Prelude Queue FluxState RociFlux BiffFlux.

Local Open Scope Z_scope.

Section api.
Context `{FluxEnv}.

(** ** Dispatch on the scheduler's type *)

Definition cpu_op (roci_op biff_op idle_op : flux_state → flux_state) (s : Z) (st : flux_state)
    : flux_state :=
  let ty := s_type (scheds st s) in
  if ty =? FLUX_SCHED_TYPE_ROCI then roci_op st
  else if ty =? FLUX_SCHED_TYPE_BIFF then biff_op st
  else if ty =? FLUX_SCHED_TYPE_IDLE then idle_op st
  else st.

Definition flux_cpu_allocated (s cpu : Z) (st : flux_state) : flux_state :=
  cpu_op (roci_cpu_allocated s cpu) (biff_cpu_allocated s cpu) (idle_cpu_allocated s cpu) s st.
Definition flux_cpu_returned (s child_id cpu : Z) (st : flux_state) : flux_state :=
  cpu_op (roci_cpu_returned s child_id cpu) (biff_cpu_returned s child_id cpu)
    (idle_cpu_returned s child_id cpu) s st.
Definition flux_cpu_preempted (s child_id cpu : Z) (st : flux_state) : flux_state :=
  cpu_op (roci_cpu_preempted s child_id cpu) (biff_cpu_preempted s child_id cpu)
    (idle_cpu_preempted s child_id cpu) s st.
Definition flux_cpu_preemption_completed (s child_id cpu : Z) (st : flux_state) : flux_state :=
  cpu_op (roci_cpu_preemption_completed s child_id cpu) (biff_cpu_preemption_completed s child_id cpu)
    (idle_cpu_preemption_completed s child_id cpu) s st.
Definition flux_cpu_ticked (s child_id cpu : Z) (st : flux_state) : flux_state :=
  cpu_op (roci_cpu_ticked s child_id cpu) (biff_cpu_ticked s child_id cpu)
    (idle_cpu_ticked s child_id cpu) s st.

(** A thread op: run it if the thread's scheduler has one, then publish the
    message's seqnum.  [None]: the calling handler returns. *)
Definition thread_op_thr (t seq : Z) (op : Z → Z → flux_state → flux_state) (st : flux_state)
    : option flux_state :=
  match get_sched (t_sched (threads st t)) with
  | None => None
  | Some s =>
      let st := if s_type (scheds st s) =? FLUX_SCHED_TYPE_BIFF then op s t st else st in
      Some (upd_thread t (set_seqnum seq) st)
  end.

Definition thread_op (g seq : Z) (op : Z → Z → flux_state → flux_state) (st : flux_state)
    : option (flux_state * Z) :=
  match gtid_to_thread st g with
  | None => None
  | Some t =>
      match thread_op_thr t seq op st with
      | None => None
      | Some st => Some (st, t)
      end
  end.

(** ** Cpus up and down the hierarchy *)

Definition add_nr_cpus (s d : Z) (st : flux_state) : flux_state :=
  upd_sched s (λ x, set_s_nr_cpus (s64 (s_nr_cpus x + d)) x) st.

Definition flux_cpu_grant (child_id cpu : Z) (st : flux_state) : flux_state :=
  match get_sched child_id with
  | None => st
  | Some child =>
      let st := add_nr_cpus child 1 st in
      let st := upd_cpu cpu (set_current_sched child_id) st in
      flux_cpu_allocated child cpu st
  end.

Definition flux_cpu_yield (s cpu : Z) (st : flux_state) : flux_state :=
  match get_parent st s with
  | None => st
  | Some p =>
      let st := upd_cpu cpu (set_current_sched (s_id (scheds st p))) st in
      let st := add_nr_cpus s (-1) st in
      flux_cpu_returned p (s_id (scheds st s)) cpu st
  end.

(** The loop of flux_preempt_up_to: the state and prev_child_id at the break,
    or [None] for the early return. *)
Fixpoint preempt_up_loop (n : nat) (cpu tier prev_child_id : Z) (st : flux_state)
    : flux_state * option Z :=
  match n with
  | O => (st, Some prev_child_id)
  | S n =>
      let cur := current_sched (cpus st cpu) in
      if sched_id_to_tier cur <=? tier then (st, Some prev_child_id)
      else
        match get_sched cur with
        | None => (st, None)
        | Some s =>
            let st := add_nr_cpus s (-1) st in
            let st := flux_cpu_preempted s prev_child_id cpu st in
            let prev_child_id := current_sched (cpus st cpu) in
            let st := upd_cpu cpu (set_current_sched (get_parent_id st s)) st in
            preempt_up_loop n cpu tier prev_child_id st
        end
  end.

Definition flux_preempt_up_to (cpu tier : Z) (st : flux_state) : flux_state :=
  match preempt_up_loop FLUX_MAX_NR_TIERS cpu tier FLUX_SCHED_NONE st with
  | (st, None) => st
  | (st, Some prev_child_id) =>
      match get_sched (current_sched (cpus st cpu)) with
      | None => st
      | Some s => flux_cpu_preemption_completed s prev_child_id cpu st
      end
  end.

(** ** Message handlers *)

Definition flux_join_scheduler (t new_sched_id : Z) (runnable : bool) (st : flux_state) : flux_state :=
  let st := upd_thread t (set_t_sched new_sched_id) st in
  match thread_op_thr t (seqnum (threads st t)) biff_thread_new st with
  | None => st
  | Some st =>
      if runnable then
        match thread_op_thr t (seqnum (threads st t)) biff_thread_runnable st with
        | None => st
        | Some st => st
        end
      else st
  end.

Definition handle_new (seq g : Z) (runnable : bool) (new_nice sw_id sw_index : Z) (st : flux_state)
    : flux_state :=
  match sw_lookup_insert g (mk_swi (u32 sw_id) (u32 sw_index)) st with
  | None => st
  | Some st =>
      match gtid_to_thread st g with
      | None => st
      | Some t =>
          let st := upd_thread t (λ x, set_pending_latch false (set_on_cpu false (set_on_rq runnable
                      (set_nice new_nice (set_refcnt 1 (set_seqnum seq (set_gtid g x))))))) st in
          flux_join_scheduler t new_thread_sched_id runnable st
      end
  end.

Definition handle_on_cpu (seq g cpu_id : Z) (st : flux_state) : flux_state :=
  match thread_op g seq (biff_thread_on_cpu cpu_id) st with
  | None => st
  | Some (st, t) => upd_thread t (set_on_cpu true) st
  end.

Definition handle_blocked (seq g cpu_id : Z) (st : flux_state) : flux_state :=
  match thread_op g seq (biff_thread_blocked cpu_id) st with
  | None => st
  | Some (st, t) => upd_thread t (λ x, set_on_cpu false (set_on_rq false x)) st
  end.

Definition handle_wakeup (seq g : Z) (st : flux_state) : flux_state :=
  match thread_op g seq biff_thread_wakeup st with
  | None => st
  | Some (st, t) => upd_thread t (set_on_rq true) st
  end.

Definition handle_preempt (seq g cpu_id : Z) (from_switchto was_latched : bool) (st : flux_state)
    : flux_state :=
  match thread_op g seq (biff_thread_preempted cpu_id was_latched) st with
  | None => st
  | Some (st, t) =>
      let st := if from_switchto then upd_thread t (set_on_rq true) st else st in
      upd_thread t (set_on_cpu false) st
  end.

Definition handle_yield (seq g cpu_id : Z) (from_switchto : bool) (st : flux_state) : flux_state :=
  match thread_op g seq (biff_thread_yielded cpu_id) st with
  | None => st
  | Some (st, t) =>
      let st := if from_switchto then upd_thread t (set_on_rq true) st else st in
      upd_thread t (set_on_cpu false) st
  end.

Definition handle_switchto (seq g : Z) (st : flux_state) : flux_state :=
  match thread_op g seq biff_thread_switchto st with
  | None => st
  | Some (st, t) => upd_thread t (λ x, set_on_cpu false (set_on_rq false x)) st
  end.

Definition handle_affinity_changed (seq g : Z) (st : flux_state) : flux_state :=
  match thread_op g seq biff_thread_affinity_changed st with
  | None => st
  | Some (st, _) => st
  end.

Definition handle_prio_changed (seq g new_nice : Z) (st : flux_state) : flux_state :=
  match gtid_to_thread st g with
  | None => st
  | Some t =>
      let st := upd_thread t (set_nice new_nice) st in
      match thread_op_thr t seq biff_thread_prio_changed st with
      | None => st
      | Some st => st
      end
  end.

Definition handle_latch_failure (seq g : Z) (st : flux_state) : flux_state :=
  match gtid_to_thread st g with
  | None => st
  | Some t =>
      if negb (pending_latch (threads st t)) then upd_thread t (set_seqnum seq) st
      else
        (* We have the ball *)
        let st := upd_thread t (set_pending_latch false) st in
        match thread_op_thr t seq biff_thread_runnable st with
        | None => st
        | Some st => st
        end
  end.

Definition handle_dead (seq g : Z) (st : flux_state) : flux_state :=
  match thread_op g seq biff_thread_dead st with
  | None => st
  | Some (st, t) => flux_thread_decref t (upd_thread t (set_t_sched FLUX_SCHED_NONE) st)
  end.

Definition handle_departed (seq g cpu_id : Z) (was_current : bool) (st : flux_state) : flux_state :=
  match thread_op g seq (biff_thread_departed cpu_id was_current) st with
  | None => st
  | Some (st, t) => flux_thread_decref t (upd_thread t (set_t_sched FLUX_SCHED_NONE) st)
  end.

Fixpoint cpu_tick_loop (n : nat) (cpu sched_id prev_child_id : Z) (st : flux_state) : flux_state :=
  match n with
  | O => st
  | S n =>
      if sched_id =? FLUX_SCHED_NONE then st
      else
        match get_sched sched_id with
        | None => st
        | Some s =>
            let st := flux_cpu_ticked s prev_child_id cpu st in
            cpu_tick_loop n cpu (get_parent_id st s) sched_id st
        end
  end.

Definition handle_cpu_tick (cpu_id : Z) (st : flux_state) : flux_state :=
  match cpuid_to_cpu cpu_id with
  | None => st
  | Some cpu =>
      cpu_tick_loop FLUX_MAX_NR_TIERS cpu (current_sched (cpus st cpu)) FLUX_SCHED_NONE st
  end.

Definition handle_cpu_available (cpu_id : Z) (st : flux_state) : flux_state :=
  match cpuid_to_cpu cpu_id with
  | None => st
  | Some cpu => upd_cpu cpu (λ c, set_preempt_to FLUX_TIER_NO_PREEMPT (set_available true c)) st
  end.

Definition handle_cpu_busy (cpu_id : Z) (st : flux_state) : flux_state :=
  match cpuid_to_cpu cpu_id with
  | None => st
  | Some cpu =>
      let st := upd_cpu cpu (λ c, set_preempt_to 0 (set_available false c)) st in
      flux_preempt_up_to cpu 0 st
  end.

Definition flux_msg_send (msg : bpf_ghost_msg) (st : flux_state) : flux_state :=
  let seq := msg_seqnum msg in
  match payload msg with
  | MSG_TASK_NEW g runnable n sw_id sw_index => handle_new seq g runnable n sw_id sw_index st
  | MSG_TASK_ON_CPU g cpu => handle_on_cpu seq g cpu st
  | MSG_TASK_BLOCKED g cpu _ => handle_blocked seq g cpu st
  | MSG_TASK_WAKEUP g _ _ => handle_wakeup seq g st
  | MSG_TASK_PREEMPT g cpu fs wl => handle_preempt seq g cpu fs wl st
  | MSG_TASK_YIELD g cpu fs => handle_yield seq g cpu fs st
  | MSG_TASK_SWITCHTO g _ => handle_switchto seq g st
  | MSG_TASK_AFFINITY_CHANGED g => handle_affinity_changed seq g st
  | MSG_TASK_PRIORITY_CHANGED g n => handle_prio_changed seq g n st
  | MSG_TASK_LATCH_FAILURE g _ => handle_latch_failure seq g st
  | MSG_TASK_DEAD g _ => handle_dead seq g st
  | MSG_TASK_DEPARTED g cpu _ wc => handle_departed seq g cpu wc st
  | MSG_CPU_TICK cpu => handle_cpu_tick cpu st
  | MSG_CPU_AVAILABLE cpu => handle_cpu_available cpu st
  | MSG_CPU_BUSY cpu => handle_cpu_busy cpu st
  | MSG_OTHER _ => st
  end.

(** ** Pick next task *)

(** The helper's answer; a failing call first delivers its message. *)
Definition bpf_ghost_run_gtid (g seq : Z) (st : flux_state) : flux_state * Z :=
  let '(err, cb) := run_gtid (calls st) g seq in
  let st := set_calls (S (calls st)) st in
  let st := if err =? 0 then set_latched (g :: latched st) st else st in
  (match cb with Some msg => flux_msg_send msg st | None => st end, err).

Definition flux_run_current (cpu : Z) (st : flux_state) (ctx : bpf_ghost_sched)
    : flux_state * bpf_ghost_sched :=
  (upd_cpu cpu (set_pnt_success true) st, ctx_set_dont_idle true ctx).

Definition flux_restart_pnt (cpu : Z) (st : flux_state) (ctx : bpf_ghost_sched)
    : flux_state * bpf_ghost_sched :=
  (upd_cpu cpu (set_pnt_success true) st, ctx_set_must_resched true (ctx_set_dont_idle true ctx)).

Definition flux_run_thread (t cpu : Z) (st : flux_state) (ctx : bpf_ghost_sched)
    : flux_state * bpf_ghost_sched * Z :=
  let '(st, err) := bpf_ghost_run_gtid (gtid (threads st t)) (latched_seqnum (cpus st cpu)) st in
  if err =? 0 then
    let st := upd_cpu cpu (set_pnt_success true) st in
    let st := upd_thread t (set_pending_latch false) st in
    (flux_thread_decref t st, ctx, 0)
  else
    let st := flux_thread_decref t st in
    if (- err =? ENOENT) || (- err =? ESTALE) then (st, ctx, err)
    else let '(st, ctx) := flux_restart_pnt cpu st ctx in (st, ctx, err).

Definition biff_pick_next_task (b cpu : Z) (st : flux_state) (ctx : bpf_ghost_sched)
    : flux_state * bpf_ghost_sched :=
  let current := gtid_to_thread st (biff_current (biff_cpu st b cpu)) in
  match current with
  | Some c =>
      if negb (times_up (threads st c)) then flux_run_current cpu st ctx
      else
        let '(st, o) := __biff_pick_first_to_run b cpu st in
        match o with
        | None => flux_run_current cpu (upd_thread c (set_times_up false) st) ctx
        | Some t =>
            let '(st, ctx, err) := flux_run_thread t cpu st ctx in
            if err =? 0 then (upd_thread t (set_t_cpu (c_id (cpus st cpu))) st, ctx) else (st, ctx)
        end
  | None =>
      let '(st, o) := __biff_pick_first_to_run b cpu st in
      match o with
      | None => (flux_cpu_yield b cpu st, ctx)
      | Some t =>
          let '(st, ctx, err) := flux_run_thread t cpu st ctx in
          if err =? 0 then (upd_thread t (set_t_cpu (c_id (cpus st cpu))) st, ctx) else (st, ctx)
      end
  end.

Definition roci_pick_next_task (r cpu : Z) (st : flux_state) (ctx : bpf_ghost_sched)
    : flux_state * bpf_ghost_sched :=
  match get_sched (primary_id (roci (scheds st r))) with
  | None => (st, ctx)
  | Some b =>
      let to_primary := negb (flux_sched_nr_cpus_needed st b =? 0) in
      let child_id := if to_primary then s_id (scheds st b) else idle_id (roci (scheds st r)) in
      let st := roci_assign r cpu to_primary st in
      (flux_cpu_grant child_id cpu st, ctx)
  end.

Definition flux_pick_next_task (s cpu : Z) (st : flux_state) (ctx : bpf_ghost_sched)
    : flux_state * bpf_ghost_sched :=
  let ty := s_type (scheds st s) in
  if ty =? FLUX_SCHED_TYPE_ROCI then roci_pick_next_task s cpu st ctx
  else if ty =? FLUX_SCHED_TYPE_BIFF then biff_pick_next_task s cpu st ctx
  else if ty =? FLUX_SCHED_TYPE_IDLE then idle_pick_next_task s cpu st ctx
  else (st, ctx).

(** The loop of flux_pnt; the boolean tells whether it returned from within. *)
Fixpoint pnt_loop (n : nat) (cpu : Z) (st : flux_state) (ctx : bpf_ghost_sched)
    : flux_state * bpf_ghost_sched * bool :=
  match n with
  | O => (st, ctx, false)
  | S n =>
      match get_sched (current_sched (cpus st cpu)) with
      | None => (st, ctx, false)
      | Some s =>
          let '(st, ctx) := flux_pick_next_task s cpu st ctx in
          if pnt_success (cpus st cpu) then (st, ctx, true) else pnt_loop n cpu st ctx
      end
  end.

Definition flux_pnt (this_cpu : Z) (st : flux_state) (ctx : bpf_ghost_sched)
    : flux_state * bpf_ghost_sched :=
  let ctx := ctx_set_dont_idle true ctx in
  if negb (user_initialized st) then (st, ctx)
  else if agent_runnable ctx || might_yield ctx then (st, ctx)
  else
    match cpuid_to_cpu this_cpu with
    | None => (st, ctx)
    | Some cpu =>
        if negb (available (cpus st cpu)) then (st, ctx)
        else
          let st :=
            if preempt_to (cpus st cpu) =? FLUX_TIER_NO_PREEMPT then st
            else
              let pt := preempt_to (cpus st cpu) in
              let st := upd_cpu cpu (set_preempt_to FLUX_TIER_NO_PREEMPT) st in
              flux_preempt_up_to cpu (s32 pt) st in
          let st :=
            if current_sched (cpus st cpu) =? FLUX_SCHED_NONE
            then flux_cpu_grant top_tier_sched_id cpu st else st in
          let st := upd_cpu cpu (set_pnt_success false) st in
          match pnt_loop (FLUX_MAX_NR_TIERS * 2) cpu st ctx with
          | (st, ctx, true) => (st, ctx)
          | (st, ctx, false) => (st, ctx_set_must_resched true ctx)
          end
    end.

Definition flux_select_rq (waker_cpu : Z) : Z := waker_cpu.

End api.
