(* ===== verification/FluxCpuInv.v ===== *)
(** * FluxCpuInv: the allocation of cpus to schedulers

    [cpu_inv] says that the hierarchy's accounting is right: every scheduler's
    nr_cpus is the number of cpus it or a descendant currently holds, and
    ROCI's two lists are exactly the cpus it has handed to its children, minus
    the idle ones it is already preempting.  It is preserved by every message
    and by PNT, whatever the kernel does. *)

From stdpp Require Import base tactics numbers list functions gmap sets.
From Stdlib Require Import ZArith Lia.
From S2P Require Import Prelude Avl Queue QueueSpec FluxState RociFlux BiffFlux FluxApi.

Local Open Scope Z_scope.

(** ** The invariant *)

Definition cpu_ids : list Z := seqZ 1 FLUX_MAX_CPUS.

(** Whether the scheduler [s] holds a cpu whose current scheduler is [cur]. *)
Definition holds (s cur : Z) : bool :=
  (cur =? s) || ((s =? FLUX_SCHED_ROCI) && ((cur =? FLUX_SCHED_BIFF) || (cur =? FLUX_SCHED_IDLE))).

Definition cpus_held (st : flux_state) (s : Z) : Z :=
  countb (λ c, holds s (current_sched (cpus st c))) cpu_ids.

(** ROCI's storage in a cpu. *)
Abbreviation roci_slot st c := (s_1 (__s (cpus st c))).
Abbreviation cur st c := (current_sched (cpus st c)).

(** What userspace sets up and nothing changes. *)
Record config_ok (st : flux_state) : Prop := {
  cfg_id : ∀ s, 0 ≤ s < FLUX_NR_SCHEDS → s_id (scheds st s) = s;
  cfg_type : ∀ s, 0 ≤ s < FLUX_NR_SCHEDS → s_type (scheds st s) = s;
  cfg_primary : primary_id (roci (scheds st FLUX_SCHED_ROCI)) = FLUX_SCHED_BIFF;
  cfg_idle : idle_id (roci (scheds st FLUX_SCHED_ROCI)) = FLUX_SCHED_IDLE;
}.

Definition roci_list (st : flux_state) (l : arr_list) (L : list Z) : Prop :=
  list_abs (ListField0 := roci_field FLUX_SCHED_ROCI) FLUX_MAX_CPUS (cpus st) l L.

(** ROCI's view: [own] says which scheduler it has given each cpu to.  Between
    taking a cpu from a child and telling ROCI, [own] is ahead of current_sched. *)
Record lists_inv (st : flux_state) (own : Z → Z) : Prop := {
  li_config : config_ok st;
  li_primary : ∃ L, roci_list st (primary_cpus (roci (scheds st FLUX_SCHED_ROCI))) L
                 ∧ ∀ c, c ∈ cpu_ids → (c ∈ L ↔ own c = FLUX_SCHED_BIFF);
  li_idle : ∃ L, roci_list st (idle_cpus (roci (scheds st FLUX_SCHED_ROCI))) L
              ∧ ∀ c, c ∈ cpu_ids →
                (c ∈ L ↔ own c = FLUX_SCHED_IDLE ∧ preempt_pending (roci_slot st c) = false);
  li_pending : ∀ c, c ∈ cpu_ids → preempt_pending (roci_slot st c) = true → own c = FLUX_SCHED_IDLE;
}.

(** The counters, up to a correction [d] in the middle of a handler. *)
Definition count_inv (st : flux_state) (d : Z → Z) : Prop :=
  ∀ s, 1 ≤ s < FLUX_NR_SCHEDS → s_nr_cpus (scheds st s) = cpus_held st s + d s.

(** A pending preemption names a tier, or none. *)
Definition tier_ok (st : flux_state) (c : Z) : Prop :=
  0 ≤ preempt_to (cpus st c) ≤ FLUX_TIER_NO_PREEMPT.

Record cpu_inv (st : flux_state) : Prop := {
  ci_tier : ∀ c, tier_ok st c;
  ci_current : ∀ c, c ∈ cpu_ids → 0 ≤ cur st c < FLUX_NR_SCHEDS;
  ci_count : count_inv st (λ _, 0);
  ci_lists : lists_inv st (λ c, cur st c);
}.

(** A step that changes nothing the invariant speaks about, except which
    preemption is pending. *)
Record cpu_frame (st st' : flux_state) : Prop := {
  cf_tier : ∀ c, tier_ok st c → tier_ok st' c;
  cf_cur : ∀ c, cur st' c = cur st c;
  cf_slot : ∀ c, roci_slot st' c = roci_slot st c;
  cf_nr : ∀ s, s_nr_cpus (scheds st' s) = s_nr_cpus (scheds st s);
  cf_id : ∀ s, s_id (scheds st' s) = s_id (scheds st s);
  cf_type : ∀ s, s_type (scheds st' s) = s_type (scheds st s);
  cf_roci : ∀ s, roci (scheds st' s) = roci (scheds st s);
}.

(** ** Lemmas *)

#[export] Instance cpu_frame_preorder : PreOrder cpu_frame.
Proof.
  split.
  - intros st. by split.
  - intros st1 st2 st3 [] []. split; intros; try congruence. auto.
Qed.

Lemma lists_inv_equiv st st' own own' :
  cpu_frame st st' → (∀ c, own' c = own c) → lists_inv st own → lists_inv st' own'.
Proof.
  intros [_ E1 E2 E3 E4 E5 E6] Eo [[C1 C2 C3 C4] (LP & HP & HP') (LI & HI & HI') Hpend].
  assert (∀ l L, roci_list st l L → roci_list st' l L) as Hl.
  { intros l L. apply (list_abs_entries (ListField0 := roci_field FLUX_SCHED_ROCI)).
    intros i _. simpl. unfold sched_cpu_union. simpl. by rewrite E2. }
  split.
  - split; intros; rewrite ?E4, ?E5, ?E6; auto.
  - exists LP. rewrite E6. split; [by apply Hl|]. intros. rewrite Eo. auto.
  - exists LI. rewrite E6. split; [by apply Hl|]. intros. rewrite Eo, E2. auto.
  - intros c Hc. rewrite Eo, E2. auto.
Qed.

Lemma count_inv_equiv st st' d : cpu_frame st st' → count_inv st d → count_inv st' d.
Proof.
  intros [_ E1 _ E3 _ _ _] Hc s Hs. rewrite E3, Hc by done. f_equal. apply countb_ext.
  intros. by rewrite E1.
Qed.

#[export] Instance cpu_inv_proper : Proper (cpu_frame ==> impl) cpu_inv.
Proof.
  intros st st' E [Ht Hcur Hcnt Hl]. split.
  - intros c. by apply E.
  - intros. rewrite (cf_cur _ _ E). auto.
  - by apply (count_inv_equiv st).
  - apply (lists_inv_equiv st st' (λ c, cur st c)); [done| |done]. intros. apply E.
Qed.

Lemma cpu_ids_nodup : NoDup cpu_ids.
Proof. apply NoDup_seqZ. Qed.

Lemma elem_of_cpu_ids c : c ∈ cpu_ids ↔ in_arr FLUX_MAX_CPUS c.
Proof. unfold cpu_ids, in_arr, FLUX_MAX_CPUS. rewrite elem_of_seqZ. lia. Qed.

Lemma cpuid_to_cpu_ids i c : cpuid_to_cpu i = Some c → c ∈ cpu_ids.
Proof.
  unfold cpuid_to_cpu. pose proof (u32_range i). zcase; [|done]. intros [= <-].
  apply elem_of_cpu_ids. unfold in_arr, FLUX_MAX_CPUS in *. lia.
Qed.

Lemma cpus_held_range st s : 0 ≤ cpus_held st s ≤ 1024.
Proof.
  pose proof (countb_range (λ c, holds s (cur st c)) cpu_ids) as Hr.
  unfold cpus_held. revert Hr. unfold cpu_ids at 3. rewrite length_seqZ. unfold FLUX_MAX_CPUS. lia.
Qed.

(** Moving one cpu to another scheduler. *)
Lemma cpus_held_move st st' s c :
  c ∈ cpu_ids → (∀ x, x ≠ c → cur st' x = cur st x) →
  cpus_held st' s = cpus_held st s - b2z (holds s (cur st c)) + b2z (holds s (cur st' c)).
Proof.
  intros Hc Hx. unfold cpus_held.
  apply (countb_change (λ c, holds s (cur st c)) (λ c, holds s (cur st' c))); [apply cpu_ids_nodup|done|].
  intros y _ Hy. by rewrite Hx.
Qed.

Lemma get_sched_some i s : get_sched i = Some s → s = i ∧ 0 ≤ s < FLUX_NR_SCHEDS.
Proof.
  unfold get_sched. repeat zcase; simpl; try done. intros [= <-]. lia.
Qed.

Lemma get_sched_valid i : 0 ≤ i < FLUX_NR_SCHEDS → get_sched i = Some i.
Proof. intros. unfold get_sched. repeat zcase; simpl; done || lia. Qed.


(** *** Steps that do not matter to the allocation *)

Lemma cf_upd_thread t f st : cpu_frame st (upd_thread t f st).
Proof. by split. Qed.
Lemma cf_set_threads m st : cpu_frame st (set_threads m st).
Proof. by split. Qed.
Lemma cf_set_sw_lookup m st : cpu_frame st (set_sw_lookup m st).
Proof. by split. Qed.
Lemma cf_set_calls n st : cpu_frame st (set_calls n st).
Proof. by split. Qed.
Lemma cf_set_rescheds l st : cpu_frame st (set_rescheds l st).
Proof. by split. Qed.
Lemma cf_set_latched l st : cpu_frame st (set_latched l st).
Proof. by split. Qed.

Lemma cf_upd_cpu c f st :
  (∀ x, current_sched (f x) = current_sched x ∧ s_1 (__s (f x)) = s_1 (__s x)
        ∧ (preempt_to (f x) = preempt_to x ∨ 0 ≤ preempt_to (f x) ≤ FLUX_TIER_NO_PREEMPT)) →
  cpu_frame st (upd_cpu c f st).
Proof.
  intros Hf. split; try done; intros x; unfold tier_ok; simpl; (destruct (decide (c = x)) as [->|];
    [rewrite fn_lookup_alter; destruct (Hf (cpus st x)) as (E1 & E2 & [E3|E3])
    |by rewrite fn_lookup_alter_ne]); rewrite ?E3; auto.
Qed.

(** [cfc] discharges the condition of [cf_upd_cpu]. *)
Ltac cfc := intros; split_and!; [done|done|first [by left | right; simpl; unfold FLUX_TIER_NO_PREEMPT; lia]].

Lemma cf_upd_sched s f st :
  (∀ x, s_nr_cpus (f x) = s_nr_cpus x ∧ s_id (f x) = s_id x ∧ s_type (f x) = s_type x
        ∧ roci (f x) = roci x) →
  cpu_frame st (upd_sched s f st).
Proof.
  intros Hf. split; try done; intros x; simpl; (destruct (decide (s = x)) as [->|];
    [rewrite fn_lookup_alter; apply Hf|by rewrite fn_lookup_alter_ne]).
Qed.

Lemma cf_upd_biff_cpu b c f st :
  s_id (scheds st b) = FLUX_SCHED_BIFF → cpu_frame st (upd_biff_cpu b c f st).
Proof. intros E. unfold upd_biff_cpu. rewrite E. apply cf_upd_cpu. cfc. Qed.

Lemma cf_decref t st : cpu_frame st (flux_thread_decref t st).
Proof. unfold flux_thread_decref. zcase; [|apply cf_upd_thread]. by split. Qed.

Lemma tier_range i : 0 ≤ sched_id_to_tier i ≤ 2.
Proof. unfold sched_id_to_tier. repeat zcase; simpl; lia. Qed.

Lemma cf_preempt_loop n tier c st : 0 ≤ tier ≤ 2 → cpu_frame st (flux_preempt_loop n tier c st).
Proof.
  intros Ht. revert st. induction n as [|n IH]; intros st; cbn [flux_preempt_loop]; [done|].
  zcase; [done|]. unfold cas_preempt_to. zcase; [|apply IH].
  rewrite (u64_small tier) by lia.
  etransitivity; [apply (cf_upd_cpu c (set_preempt_to tier)); cfc|apply cf_set_rescheds].
Qed.

Lemma cf_preempt_cpu s c st : cpu_frame st (flux_preempt_cpu s c st).
Proof. apply cf_preempt_loop, tier_range. Qed.

(** [ceq] proves that a composition of such steps is one. *)
Ltac ceq :=
  repeat match goal with
  | |- cpu_frame ?st ?st => reflexivity
  | |- cpu_frame _ (upd_thread _ _ _) => etransitivity; [|apply cf_upd_thread]
  | |- cpu_frame _ (set_threads _ _) => etransitivity; [|apply cf_set_threads]
  | |- cpu_frame _ (set_sw_lookup _ _) => etransitivity; [|apply cf_set_sw_lookup]
  | |- cpu_frame _ (set_calls _ _) => etransitivity; [|apply cf_set_calls]
  | |- cpu_frame _ (set_rescheds _ _) => etransitivity; [|apply cf_set_rescheds]
  | |- cpu_frame _ (set_latched _ _) => etransitivity; [|apply cf_set_latched]
  | |- cpu_frame _ (flux_thread_decref _ _) => etransitivity; [|apply cf_decref]
  | |- cpu_frame _ (flux_preempt_cpu _ _ _) => etransitivity; [|apply cf_preempt_cpu]
  | |- cpu_frame _ (upd_cpu _ _ _) => etransitivity; [|apply cf_upd_cpu; cfc]
  | |- cpu_frame _ (upd_sched _ _ _) => etransitivity; [|apply cf_upd_sched; done]
  end; try reflexivity.

(** *** ROCI's list operations *)

(** Neither the owner of a cpu nor a counter changes. *)
Definition alloc_same (st st' : flux_state) : Prop :=
  (∀ c, tier_ok st c → tier_ok st' c) ∧ (∀ c, cur st' c = cur st c)
  ∧ (∀ s, s_nr_cpus (scheds st' s) = s_nr_cpus (scheds st s)).

Lemma alloc_same_refl st : alloc_same st st.
Proof. done. Qed.
Lemma alloc_same_trans st1 st2 st3 : alloc_same st1 st2 → alloc_same st2 st3 → alloc_same st1 st3.
Proof. intros (? & ? & ?) (? & ? & ?). split_and!; intros; try congruence; auto. Qed.
Lemma alloc_same_equiv st st' : cpu_frame st st' → alloc_same st st'.
Proof. by intros []. Qed.
Lemma alloc_same_count st st' d : alloc_same st st' → count_inv st d → count_inv st' d.
Proof.
  intros (_ & E1 & E2) Hc s Hs. rewrite E2, Hc by done. f_equal. apply countb_ext. intros. by rewrite E1.
Qed.

Abbreviation rfield := (roci_field FLUX_SCHED_ROCI).

Lemma links_cpu (m m' : Z → flux_cpu) W c :
  links_only (ListField0 := rfield) m m' W →
  current_sched (m' c) = current_sched (m c) ∧ preempt_to (m' c) = preempt_to (m c)
  ∧ preempt_pending (s_1 (__s (m' c))) = preempt_pending (s_1 (__s (m c))).
Proof. intros [_ Hl]. destruct (Hl c) as [v ->]. done. Qed.

(** A list whose cpus are not touched is kept. *)
Lemma roci_list_frame st st' l L :
  (∀ c, c ∈ L → cpus st' c = cpus st c) → roci_list st l L → roci_list st' l L.
Proof. intros Hf. by apply (list_abs_frame (ListField0 := rfield)). Qed.

Lemma roci_list_ids st l L c : roci_list st l L → c ∈ L → c ∈ cpu_ids.
Proof.
  intros [_ Hv _ _ _] Hc. rewrite Forall_forall in Hv. apply elem_of_cpu_ids. by apply Hv.
Qed.

Lemma scheds_upd_sched s f st : scheds (upd_sched s f st) s = f (scheds st s).
Proof. unfold upd_sched. simpl. apply fn_lookup_alter. Qed.

(** A change of ROCI's lists keeps the configuration. *)
Lemma config_upd_roci f st :
  (∀ x, s_id (f x) = s_id x ∧ s_type (f x) = s_type x
        ∧ primary_id (roci (f x)) = primary_id (roci x) ∧ idle_id (roci (f x)) = idle_id (roci x)) →
  config_ok st → config_ok (upd_sched FLUX_SCHED_ROCI f st).
Proof.
  intros Hf [C1 C2 C3 C4]. split.
  - intros s Hs. rewrite <- (C1 s Hs) at 2. simpl. destruct (decide (FLUX_SCHED_ROCI = s)) as [<-|].
    + rewrite fn_lookup_alter. apply Hf.
    + by rewrite fn_lookup_alter_ne.
  - intros s Hs. rewrite <- (C2 s Hs) at 2. simpl. destruct (decide (FLUX_SCHED_ROCI = s)) as [<-|].
    + rewrite fn_lookup_alter. apply Hf.
    + by rewrite fn_lookup_alter_ne.
  - rewrite scheds_upd_sched. by rewrite (proj1 (proj2 (proj2 (Hf _)))).
  - rewrite scheds_upd_sched. by rewrite (proj2 (proj2 (proj2 (Hf _)))).
Qed.

(** Setting or clearing the earmark of a cpu. *)
Lemma roci_list_pending st c v l L :
  roci_list st l L →
  roci_list (upd_cpu c (alter_sched_cpu (set_preempt_pending v) FLUX_SCHED_ROCI) st) l L.
Proof.
  apply (list_abs_entries (ListField0 := rfield)). intros i _. simpl.
  destruct (decide (c = i)) as [->|]; [by rewrite fn_lookup_alter|by rewrite fn_lookup_alter_ne].
Qed.

Lemma slot_pending st c v x :
  preempt_pending (roci_slot (upd_cpu c (alter_sched_cpu (set_preempt_pending v) FLUX_SCHED_ROCI) st) x)
  = if bool_decide (x = c) then v else preempt_pending (roci_slot st x).
Proof.
  simpl. case_bool_decide as E; [subst; by rewrite fn_lookup_alter|by rewrite fn_lookup_alter_ne].
Qed.

Lemma cur_pending st c v x :
  cur (upd_cpu c (alter_sched_cpu (set_preempt_pending v) FLUX_SCHED_ROCI) st) x = cur st x.
Proof. simpl. destruct (decide (c = x)) as [->|]; [by rewrite fn_lookup_alter|by rewrite fn_lookup_alter_ne]. Qed.

(** Earmarking the first idle cpu takes it off the idle list. *)
Lemma roci_pop_ok st own :
  lists_inv st own →
  let '(st1, victim) := roci_pop_first_idle FLUX_SCHED_ROCI st in
  alloc_same st st1 ∧
  match victim with
  | None => lists_inv st1 own
  | Some v => lists_inv (upd_roci_cpu FLUX_SCHED_ROCI v (set_preempt_pending true) st1) own
              ∧ own v = FLUX_SCHED_IDLE ∧ v ∈ cpu_ids
              ∧ preempt_pending (roci_slot st v) = false
  end.
Proof.
  intros [Hcfg (LP & HP & HP') (LI & HI & HI') Hpend]. unfold roci_pop_first_idle.
  rewrite (cfg_id _ Hcfg FLUX_SCHED_ROCI) by done.
  pose proof (pop_first_ok (ListField0 := rfield) FLUX_MAX_CPUS _ _ _ HI) as Hpop.
  destruct (arr_list_pop_first _ _ _) as [[m l] victim]. destruct Hpop as (-> & Hl & Hlinks & _).
  set (st1 := upd_sched FLUX_SCHED_ROCI (set_roci_idle_cpus l) (set_cpus m st)).
  assert (∀ c, cur st1 c = cur st c ∧ preempt_pending (roci_slot st1 c) = preempt_pending (roci_slot st c))
    as Hst1 by (intros c; split; apply (links_cpu _ _ _ c Hlinks)).
  assert (alloc_same st st1) as Hsame.
  { split_and!; [|intros; apply Hst1|].
    { intros c. unfold tier_ok. simpl. by rewrite (proj1 (proj2 (links_cpu _ _ _ c Hlinks))). } intros s. simpl. destruct (decide (FLUX_SCHED_ROCI = s)) as [<-|].
    - by rewrite fn_lookup_alter.
    - by rewrite fn_lookup_alter_ne. }
  assert (config_ok st1) as Hcfg1 by (apply config_upd_roci; [done|]; by destruct Hcfg).
  assert (roci_list st1 (primary_cpus (roci (scheds st1 FLUX_SCHED_ROCI))) LP) as HP1.
  { unfold st1. rewrite scheds_upd_sched. apply (roci_list_frame st); [|done].
    intros c Hc. simpl. apply Hlinks. intros Hc'. pose proof (roci_list_ids _ _ _ _ HP Hc) as Hids.
    apply HP' in Hc; [|done]. apply HI' in Hc'; [|done]. destruct Hc' as [Hc' _]. by rewrite Hc in Hc'. }
  assert (roci_list st1 (idle_cpus (roci (scheds st1 FLUX_SCHED_ROCI))) (List.tl LI)) as HI1.
  { unfold st1. rewrite scheds_upd_sched. done. }
  split; [done|]. destruct LI as [|v LI]; cbn [head List.tl] in *.
  - split; [done|by exists LP| |].
    + exists []. split; [done|]. intros c Hc. rewrite HI' by done. by rewrite (proj2 (Hst1 c)).
    + intros c Hc. rewrite (proj2 (Hst1 c)). auto.
  - assert (v ∈ cpu_ids) as Hv by (apply (roci_list_ids _ _ _ _ HI); by left).
    destruct (proj1 (HI' v Hv)) as [Hown Hpv]; [by left|].
    pose proof (la_nodup _ _ _ _ HI) as [HvL Hnd]%NoDup_cons.
    unfold upd_roci_cpu. rewrite (cfg_id _ Hcfg1 FLUX_SCHED_ROCI) by done.
    split_and!; try done. split.
    + destruct Hcfg1. by split.
    + exists LP. split; [by apply roci_list_pending|done].
    + exists LI. split; [by apply roci_list_pending|]. intros c Hc. rewrite slot_pending.
      case_bool_decide as E; [subst; by split; [|intros [_ ?]]|].
      rewrite (proj2 (Hst1 c)), <- HI' by done. rewrite elem_of_cons. naive_solver.
    + intros c Hc. rewrite slot_pending. case_bool_decide as E; [by subst|].
      rewrite (proj2 (Hst1 c)). auto.
Qed.

Lemma lists_inv_same st st' own : cpu_frame st st' → lists_inv st own → lists_inv st' own.
Proof. intros E. by apply (lists_inv_equiv st st'). Qed.

Lemma roci_request_loop_ok n i need st own ret :
  lists_inv st own →
  let '(st', _) := roci_request_loop n i need FLUX_SCHED_ROCI st ret in
  lists_inv st' own ∧ alloc_same st st'.
Proof.
  revert i st ret. induction n as [|n IH]; intros i st ret Hl; cbn [roci_request_loop].
  { split; [done|apply alloc_same_refl]. }
  zcase; [by apply IH|].
  pose proof (roci_pop_ok st own Hl) as Hpop.
  destruct (roci_pop_first_idle FLUX_SCHED_ROCI st) as [st1 [v|]]; destruct Hpop as [Hs Hres]; [|done].
  destruct Hres as (Hl1 & _ & _ & _).
  set (st2 := upd_roci_cpu FLUX_SCHED_ROCI v (set_preempt_pending true) st1) in *.
  specialize (IH (i + 1) (flux_preempt_cpu FLUX_SCHED_ROCI v st2) (ret + 1)).
  destruct (roci_request_loop n (i + 1) need FLUX_SCHED_ROCI _ (ret + 1)) as [st' ret'].
  destruct IH as [Hl' Hs']; [by apply (lists_inv_same st2); [apply cf_preempt_cpu|]|].
  split; [done|]. eapply alloc_same_trans; [exact Hs|]. eapply alloc_same_trans; [|exact Hs'].
  eapply alloc_same_trans; [|apply alloc_same_equiv, cf_preempt_cpu].
  split_and!; [..|done]; intros c; unfold st2, upd_roci_cpu, tier_ok; simpl;
    (destruct (decide (v = c)) as [->|]; [by rewrite fn_lookup_alter|by rewrite fn_lookup_alter_ne]).
Qed.

Lemma roci_request_ok child n st own :
  lists_inv st own →
  let '(st', _) := roci_request_for_cpus FLUX_SCHED_ROCI child n st in
  lists_inv st' own ∧ alloc_same st st'.
Proof.
  intros Hl. unfold roci_request_for_cpus. zcase; [by split; [|apply alloc_same_refl]|].
  destruct (get_sched child); [|by split; [|apply alloc_same_refl]].
  zcase; [by split; [|apply alloc_same_refl]|]. by apply roci_request_loop_ok.
Qed.

(** Editing one of the two lists at the cpu [c]: [m] and [l] are the array and
    the header after the list operation, [W] the cpus it may have relinked. *)
Section relist.
Context (st : flux_state) (own own' : Z → Z) (c : Z) (m : Z → flux_cpu) (l : arr_list) (W L : list Z).
Context (Hinv : lists_inv st own) (Hc : c ∈ cpu_ids) (Hx : ∀ x, x ≠ c → own' x = own x).
Context (Hnp : preempt_pending (roci_slot st c) = false).
Context (Hlinks : links_only (ListField0 := rfield) (cpus st) m W).
Context (Hlist : list_abs (ListField0 := rfield) FLUX_MAX_CPUS m l L).

Lemma relist_alloc_same f :
  (∀ x, s_nr_cpus (f x) = s_nr_cpus x) →
  alloc_same st (upd_sched FLUX_SCHED_ROCI f (set_cpus m st)).
Proof.
  intros Hf. split_and!.
  - intros x. unfold tier_ok. simpl. by rewrite (proj1 (proj2 (links_cpu _ _ _ x Hlinks))).
  - intros x. simpl. apply (links_cpu _ _ _ x Hlinks).
  - intros s. simpl. destruct (decide (FLUX_SCHED_ROCI = s)) as [<-|];
      [rewrite fn_lookup_alter; apply Hf|by rewrite fn_lookup_alter_ne].
Qed.

Lemma relist_pending x :
  x ∈ cpu_ids → preempt_pending (s_1 (__s (m x))) = true → own' x = FLUX_SCHED_IDLE.
Proof.
  intros Hxi. rewrite (proj2 (proj2 (links_cpu _ _ _ x Hlinks))). intros Hp.
  destruct (decide (x = c)) as [->|]; [congruence|]. rewrite Hx by done. by apply Hinv.
Qed.

Lemma relist_primary :
  own c ≠ FLUX_SCHED_IDLE → own' c ≠ FLUX_SCHED_IDLE →
  (∀ x, x ∈ W → x ∈ cpu_ids → x = c ∨ own x = FLUX_SCHED_BIFF) →
  (∀ x, x ∈ cpu_ids → (x ∈ L ↔ own' x = FLUX_SCHED_BIFF)) →
  lists_inv (upd_sched FLUX_SCHED_ROCI (set_roci_primary_cpus l) (set_cpus m st)) own'.
Proof.
  intros Ho Ho' HW HL. pose proof relist_pending as Hrp.
  destruct Hinv as [Hcfg _ (LI & HI & HI') _]. split.
  - apply config_upd_roci; [done|]. destruct Hcfg. by split.
  - exists L. rewrite scheds_upd_sched. by split.
  - exists LI. rewrite scheds_upd_sched. split.
    + apply (roci_list_frame st); [|done]. intros x HxL. simpl. apply Hlinks. intros HxW.
      pose proof (roci_list_ids _ _ _ _ HI HxL) as Hxi. apply HI' in HxL as [HxL _]; [|done].
      destruct (HW x HxW Hxi) as [->|E]; [done|by rewrite E in HxL].
    + intros x Hxi. simpl. rewrite (proj2 (proj2 (links_cpu _ _ _ x Hlinks))), HI' by done.
      destruct (decide (x = c)) as [->|]; [naive_solver|by rewrite Hx].
  - exact Hrp.
Qed.

Lemma relist_idle :
  own c ≠ FLUX_SCHED_BIFF → own' c ≠ FLUX_SCHED_BIFF →
  (∀ x, x ∈ W → x ∈ cpu_ids → x = c ∨ own x = FLUX_SCHED_IDLE) →
  (∀ x, x ∈ cpu_ids →
     (x ∈ L ↔ own' x = FLUX_SCHED_IDLE ∧ preempt_pending (roci_slot st x) = false)) →
  lists_inv (upd_sched FLUX_SCHED_ROCI (set_roci_idle_cpus l) (set_cpus m st)) own'.
Proof.
  intros Ho Ho' HW HL. pose proof relist_pending as Hrp.
  destruct Hinv as [Hcfg (LP & HP & HP') _ _]. split.
  - apply config_upd_roci; [done|]. destruct Hcfg. by split.
  - exists LP. rewrite scheds_upd_sched. split.
    + apply (roci_list_frame st); [|done]. intros x HxL. simpl. apply Hlinks. intros HxW.
      pose proof (roci_list_ids _ _ _ _ HP HxL) as Hxi. apply HP' in HxL; [|done].
      destruct (HW x HxW Hxi) as [->|E]; [done|by rewrite E in HxL].
    + intros x Hxi. rewrite HP' by done. destruct (decide (x = c)) as [->|]; [naive_solver|by rewrite Hx].
  - exists L. rewrite scheds_upd_sched. split; [done|]. intros x Hxi. simpl.
    by rewrite (proj2 (proj2 (links_cpu _ _ _ x Hlinks))), HL.
  - exact Hrp.
Qed.

End relist.

(** A list without one of its elements. *)
Lemma elem_of_pivot (A B : list Z) c x :
  NoDup (A ++ c :: B) → (x ∈ A ++ B ↔ x ∈ A ++ c :: B ∧ x ≠ c).
Proof.
  intros Hnd. nodup. rewrite !elem_of_app, elem_of_cons. split; [|naive_solver].
  intros [?|?]; (split; [naive_solver|]); sep.
Qed.

(** Telling ROCI that it has a cpu back. *)
Lemma roci_returned_pending st own own' c :
  lists_inv st own → c ∈ cpu_ids → preempt_pending (roci_slot st c) = true →
  own' c ≠ FLUX_SCHED_BIFF → own' c ≠ FLUX_SCHED_IDLE → (∀ x, x ≠ c → own' x = own x) →
  let st' := upd_cpu c (alter_sched_cpu (set_preempt_pending false) FLUX_SCHED_ROCI) st in
  lists_inv st' own' ∧ alloc_same st st'.
Proof.
  intros [Hcfg (LP & HP & HP') (LI & HI & HI') Hpend] Hc Ep Hb Hi Hx.
  pose proof (Hpend c Hc Ep) as Hidle. split; [split|].
  - destruct Hcfg. by split.
  - exists LP. split; [by apply roci_list_pending|]. intros x Hxi.
    destruct (decide (x = c)) as [->|]; [|by rewrite Hx, HP'].
    rewrite HP' by done. rewrite Hidle. naive_solver.
  - exists LI. split; [by apply roci_list_pending|]. intros x Hxi. rewrite slot_pending.
    case_bool_decide as E; [subst x|by rewrite Hx, HI'].
    rewrite HI' by done. rewrite Ep. naive_solver.
  - intros x Hxi. rewrite slot_pending. case_bool_decide; [done|]. rewrite Hx by done. auto.
  - split_and!; [|intros x; apply cur_pending|done]. intros x. unfold tier_ok. simpl.
    destruct (decide (c = x)) as [->|]; [by rewrite fn_lookup_alter|by rewrite fn_lookup_alter_ne].
Qed.

Lemma roci_returned_ok st own own' child c :
  lists_inv st own → c ∈ cpu_ids → own c = child →
  (child = FLUX_SCHED_BIFF ∨ child = FLUX_SCHED_IDLE) →
  own' c ≠ FLUX_SCHED_BIFF → own' c ≠ FLUX_SCHED_IDLE → (∀ x, x ≠ c → own' x = own x) →
  lists_inv (__roci_cpu_returned FLUX_SCHED_ROCI child c st) own'
  ∧ alloc_same st (__roci_cpu_returned FLUX_SCHED_ROCI child c st).
Proof.
  intros Hinv Hc Hown Hch Hb Hi Hx. pose proof Hinv as [Hcfg (LP & HP & HP') (LI & HI & HI') _].
  unfold __roci_cpu_returned, roci_cpu, upd_roci_cpu.
  rewrite (cfg_id _ Hcfg FLUX_SCHED_ROCI), (cfg_primary _ Hcfg) by done.
  change (sched_cpu_union FLUX_SCHED_ROCI (cpus st c)) with (roci_slot st c).
  destruct (preempt_pending (roci_slot st c)) eqn:Ep; [by apply (roci_returned_pending st own)|].
  destruct (Z.eqb_spec child FLUX_SCHED_BIFF) as [Eb|Eb].
  - assert (c ∈ LP) as (A & B & ->)%list_elem_of_split by (apply HP'; congruence).
    pose proof (remove_ok (ListField0 := rfield) FLUX_MAX_CPUS _ _ A c B HP) as Hrem.
    destruct (arr_list_remove _ _ _) as [m l]. destruct Hrem as (Hl & Hlinks & _).
    split; [|by eapply relist_alloc_same].
    eapply (relist_primary st own); try done; [by rewrite Hown, Eb|naive_solver|].
    intros x Hxi. rewrite elem_of_pivot, HP' by (done || apply HP).
    destruct (decide (x = c)) as [->|]; [naive_solver|by rewrite Hx; naive_solver].
  - destruct Hch as [?|Ei]; [done|].
    assert (c ∈ LI) as (A & B & ->)%list_elem_of_split by (apply HI'; [done|]; by rewrite Hown).
    pose proof (remove_ok (ListField0 := rfield) FLUX_MAX_CPUS _ _ A c B HI) as Hrem.
    destruct (arr_list_remove _ _ _) as [m l]. destruct Hrem as (Hl & Hlinks & _).
    split; [|by eapply relist_alloc_same].
    eapply (relist_idle st own); try done; [by rewrite Hown, Ei|naive_solver|].
    intros x Hxi. rewrite elem_of_pivot, HI' by (done || apply HI).
    destruct (decide (x = c)) as [->|]; [naive_solver|by rewrite Hx; naive_solver].
Qed.

(** Putting a cpu of ROCI's on a child's list. *)
Lemma roci_assign_ok st own own' c (p : bool) :
  lists_inv st own → c ∈ cpu_ids →
  own c ≠ FLUX_SCHED_BIFF → own c ≠ FLUX_SCHED_IDLE →
  own' c = (if p then FLUX_SCHED_BIFF else FLUX_SCHED_IDLE) → (∀ x, x ≠ c → own' x = own x) →
  lists_inv (roci_assign FLUX_SCHED_ROCI c p st) own'
  ∧ alloc_same st (roci_assign FLUX_SCHED_ROCI c p st).
Proof.
  intros Hinv Hc Hb Hi Hown Hx. pose proof Hinv as [Hcfg (LP & HP & HP') (LI & HI & HI') Hpend].
  unfold roci_assign. rewrite (cfg_id _ Hcfg FLUX_SCHED_ROCI) by done.
  assert (c ∉ LP) as HcP by (by rewrite HP').
  assert (c ∉ LI) as HcI by (rewrite HI' by done; naive_solver).
  assert (preempt_pending (roci_slot st c) = false) as Ep
    by (destruct (preempt_pending (roci_slot st c)) eqn:Ep; [by apply Hpend in Ep|done]).
  assert (in_arr FLUX_MAX_CPUS c) as Vc by (by apply elem_of_cpu_ids).
  destruct p.
  - pose proof (insert_head_ok (ListField0 := rfield) FLUX_MAX_CPUS _ _ LP c HP Vc HcP) as Hins.
    destruct (arr_list_insert_head _ _ _) as [m l]. destruct Hins as [Hl Hlinks].
    split; [|by eapply relist_alloc_same].
    eapply (relist_primary st own); try done; [by rewrite Hown|set_solver|].
    intros x Hxi. rewrite elem_of_cons, HP' by done.
    destruct (decide (x = c)) as [->|]; [naive_solver|by rewrite Hx; naive_solver].
  - pose proof (insert_head_ok (ListField0 := rfield) FLUX_MAX_CPUS _ _ LI c HI Vc HcI) as Hins.
    destruct (arr_list_insert_head _ _ _) as [m l]. destruct Hins as [Hl Hlinks].
    split; [|by eapply relist_alloc_same].
    eapply (relist_idle st own); try done; [by rewrite Hown|set_solver|].
    intros x Hxi. rewrite elem_of_cons, HI' by done.
    destruct (decide (x = c)) as [->|]; [naive_solver|by rewrite Hx; naive_solver].
Qed.
