(* ===== verification/FluxCpuSafe.v ===== *)
(** * FluxCpuSafe: every message and PNT keep the allocation of cpus

    The allocation of cpus is an invariant of the running system. *)

From S2P Require Import Prelude Avl Queue QueueSpec FluxState RociFlux BiffFlux FluxApi FluxCpuInv.
From stdpp Require Import base tactics numbers list functions gmap sets.
From Stdlib Require Import ZArith Lia.

Local Open Scope Z_scope.

Section steps.
Context `{FluxEnv}.
Implicit Types (st : flux_state).

(** ** Requests and biff's thread ops *)

Lemma cpu_inv_alloc st st' :
  (∀ c, tier_ok st c) → (∀ c, c ∈ cpu_ids → 0 ≤ cur st c < FLUX_NR_SCHEDS) →
  count_inv st (λ _, 0) → lists_inv st' (λ c, cur st c) → alloc_same st st' → cpu_inv st'.
Proof.
  intros Ht Hcur Hcnt Hl Hs. pose proof Hs as (Hs1 & Hs2 & _). split.
  - intros c. auto.
  - intros c Hc. rewrite Hs2. auto.
  - by apply (alloc_same_count st).
  - eapply lists_inv_equiv; [reflexivity| |exact Hl]. intros c. simpl. by rewrite Hs2.
Qed.

Lemma request_cpus_inv n st : cpu_inv st → cpu_inv (flux_request_cpus FLUX_SCHED_BIFF n st).1.
Proof.
  intros Hi. pose proof (li_config _ _ (ci_lists _ Hi)) as Hcfg. unfold flux_request_cpus.
  assert (get_parent st FLUX_SCHED_BIFF = Some FLUX_SCHED_ROCI) as ->.
  { unfold get_parent, get_parent_id. by rewrite (cfg_id _ Hcfg). }
  set (st1 := upd_sched _ _ st).
  assert (cpu_inv st1) as Hi1 by (eapply cpu_inv_proper; [|exact Hi]; by apply cf_upd_sched).
  unfold flux_request_for_cpus.
  rewrite (cfg_type _ (li_config _ _ (ci_lists _ Hi1))) by done. cbn [Z.eqb FLUX_SCHED_ROCI FLUX_SCHED_TYPE_ROCI Pos.eqb].
  pose proof (roci_request_ok (s_id (scheds st1 FLUX_SCHED_BIFF)) n st1 _ (ci_lists _ Hi1)) as Hr.
  destruct (roci_request_for_cpus _ _ n st1) as [st2 ret]. destruct Hr as [Hl Hs].
  apply (cpu_inv_alloc st1); try done; apply Hi1.
Qed.

Lemma biff_id st : cpu_inv st → s_id (scheds st FLUX_SCHED_BIFF) = FLUX_SCHED_BIFF.
Proof. intros Hi. by apply (cfg_id _ (li_config _ _ (ci_lists _ Hi))). Qed.

(** [cframe] reduces the invariant after a step that frames it. *)
Ltac cframe := eapply cpu_inv_proper; [ceq|].

Lemma upd_biff_cpu_inv c f st : cpu_inv st → cpu_inv (upd_biff_cpu FLUX_SCHED_BIFF c f st).
Proof. intros Hi. eapply cpu_inv_proper; [|exact Hi]. by apply cf_upd_biff_cpu, biff_id. Qed.

Lemma task_started_inv t i a st : cpu_inv st → cpu_inv (__biff_task_started FLUX_SCHED_BIFF t i a st).
Proof.
  intros Hi. unfold __biff_task_started. destruct (cpuid_to_cpu i); [|done]. cframe.
  by apply upd_biff_cpu_inv.
Qed.

Lemma task_stopped_inv t i a st : cpu_inv st → cpu_inv (__biff_task_stopped FLUX_SCHED_BIFF t i a st).
Proof.
  intros Hi. unfold __biff_task_stopped. destruct (cpuid_to_cpu i); [|done]. cframe.
  by apply upd_biff_cpu_inv.
Qed.

Lemma enqueue_inv b t st : cpu_inv st → cpu_inv (__biff_enqueue_task b t st).
Proof.
  intros Hi. unfold __biff_enqueue_task. destruct (arr_list_insert_tail _ _ _) as [m l]. by cframe.
Qed.

Lemma runnable_inv b t a st : cpu_inv st → cpu_inv (__biff_task_runnable b t a st).
Proof. intros Hi. apply enqueue_inv. by cframe. Qed.

Lemma dequeue_inv b t st : cpu_inv st → cpu_inv (__biff_dequeue_task b t st).
Proof.
  intros Hi. unfold __biff_dequeue_task. destruct (enqueued _); [|done].
  destruct (arr_list_remove _ _ _) as [m l]. by cframe.
Qed.

Lemma ktime_inv st : cpu_inv st → cpu_inv (bpf_ktime_get_us st).1.
Proof. intros Hi. change (cpu_inv (set_calls (S (calls st)) st)). by cframe. Qed.

(** A thread op of biff keeps the invariant. *)
Definition keeps (op : Z → Z → flux_state → flux_state) : Prop :=
  ∀ t st, cpu_inv st → cpu_inv (op FLUX_SCHED_BIFF t st).

Ltac op_inv :=
  intros t st Hi;
  assert (cpu_inv (set_calls (S (calls st)) st)) as Hi' by (by apply ktime_inv).

Lemma biff_new_keeps : keeps biff_thread_new.
Proof.
  op_inv. unfold biff_thread_new, bpf_ktime_get_us.
  match goal with |- context [on_rq (threads ?e t)] => set (st1 := e) end.
  assert (cpu_inv st1) by (unfold st1; by cframe).
  destruct (on_rq (threads st1 t)); [by apply request_cpus_inv|done].
Qed.

Lemma biff_on_cpu_keeps i : keeps (biff_thread_on_cpu i).
Proof. op_inv. unfold biff_thread_on_cpu. simpl. cframe. by apply task_started_inv. Qed.

Lemma biff_blocked_keeps i : keeps (biff_thread_blocked i).
Proof. op_inv. unfold biff_thread_blocked. simpl. by apply request_cpus_inv, task_stopped_inv. Qed.

Lemma biff_runnable_keeps : keeps biff_thread_runnable.
Proof. op_inv. unfold biff_thread_runnable. simpl. by apply runnable_inv. Qed.

Lemma biff_wakeup_keeps : keeps biff_thread_wakeup.
Proof. op_inv. unfold biff_thread_wakeup. simpl. by apply request_cpus_inv, runnable_inv. Qed.

Lemma biff_yielded_keeps i : keeps (biff_thread_yielded i).
Proof. op_inv. unfold biff_thread_yielded. simpl. by apply runnable_inv, task_stopped_inv. Qed.

Lemma biff_preempted_keeps i l : keeps (biff_thread_preempted i l).
Proof.
  op_inv. unfold biff_thread_preempted. simpl. apply runnable_inv.
  destruct l; [done|by apply task_stopped_inv].
Qed.

Lemma biff_switchto_keeps : keeps biff_thread_switchto.
Proof. op_inv. unfold biff_thread_switchto. simpl. by cframe. Qed.

Lemma biff_departed_keeps i w : keeps (biff_thread_departed i w).
Proof.
  op_inv. unfold biff_thread_departed.
  match goal with |- context [on_rq (threads ?e t)] => set (st1 := e) end.
  assert (cpu_inv st1) as Hi1.
  { apply dequeue_inv. destruct w; [by apply task_stopped_inv|done]. }
  destruct (on_rq (threads st1 t)); [by apply request_cpus_inv|done].
Qed.

Lemma thread_op_thr_inv op t seq st st' :
  keeps op → cpu_inv st → thread_op_thr t seq op st = Some st' → cpu_inv st'.
Proof.
  intros Hop Hi. unfold thread_op_thr. destruct (get_sched _) as [s|] eqn:Es; [|done].
  apply get_sched_some in Es as [_ Hs]. intros [= <-]. cframe.
  rewrite (cfg_type _ (li_config _ _ (ci_lists _ Hi))) by done.
  destruct (Z.eqb_spec s FLUX_SCHED_TYPE_BIFF) as [->|]; [by apply Hop|done].
Qed.

Lemma thread_op_inv op g seq st st' t :
  keeps op → cpu_inv st → thread_op g seq op st = Some (st', t) → cpu_inv st'.
Proof.
  intros Hop Hi. unfold thread_op. destruct (gtid_to_thread st g) as [t'|]; [|done].
  destruct (thread_op_thr t' seq op st) as [st1|] eqn:E; [|done]. intros [= -> ->].
  by eapply thread_op_thr_inv.
Qed.

(** ** Moving cpus *)

(** A cpu changes hands: [nr] and current_sched move together. *)
Lemma count_move st st' c d d' :
  c ∈ cpu_ids → count_inv st d → (∀ x, x ≠ c → cur st' x = cur st x) →
  (∀ s, 1 ≤ s < FLUX_NR_SCHEDS →
     s_nr_cpus (scheds st' s) - s_nr_cpus (scheds st s)
     = b2z (holds s (cur st' c)) - b2z (holds s (cur st c)) + d' s - d s) →
  count_inv st' d'.
Proof.
  intros Hc Hcnt Hx Hd s Hs. specialize (Hd s Hs). rewrite (Hcnt s Hs) in Hd.
  rewrite (cpus_held_move st st' s c) by done. lia.
Qed.

(** The counters never come near the limits of int64_t. *)
Lemma add_nr_cpus_nr st d s a x :
  count_inv st d → 1 ≤ s < FLUX_NR_SCHEDS → -1 ≤ d s ≤ 1 → -1 ≤ a ≤ 1 →
  s_nr_cpus (scheds (add_nr_cpus s a st) x)
  = s_nr_cpus (scheds st x) + (if bool_decide (x = s) then a else 0).
Proof.
  intros Hcnt Hs Hd Ha. unfold add_nr_cpus. simpl. case_bool_decide as E; [subst x|].
  - rewrite fn_lookup_alter. simpl. pose proof (cpus_held_range st s).
    rewrite s64_small; [lia|]. rewrite (Hcnt s Hs). lia.
  - rewrite fn_lookup_alter_ne by done. lia.
Qed.

Lemma lists_inv_own st own own' :
  (∀ c, c ∈ cpu_ids → (own' c = FLUX_SCHED_BIFF ↔ own c = FLUX_SCHED_BIFF)
        ∧ (own' c = FLUX_SCHED_IDLE ↔ own c = FLUX_SCHED_IDLE)) →
  lists_inv st own → lists_inv st own'.
Proof.
  intros Ho [Hcfg (LP & HP & HP') (LI & HI & HI') Hpend]. split; [done|..].
  - exists LP. split; [done|]. intros c Hc. rewrite HP' by done. symmetry. by apply Ho.
  - exists LI. split; [done|]. intros c Hc. rewrite HI' by done.
    pose proof (proj2 (Ho c Hc)) as E. tauto.
  - intros c Hc Hp. apply Ho; auto.
Qed.

(** Changes of counters and of current_sched leave ROCI's lists alone. *)
Lemma lists_inv_add_nr st own s a : lists_inv st own → lists_inv (add_nr_cpus s a st) own.
Proof.
  intros [[C1 C2 C3 C4] HP HI Hpend].
  assert (∀ x, s_id (scheds (add_nr_cpus s a st) x) = s_id (scheds st x)
    ∧ s_type (scheds (add_nr_cpus s a st) x) = s_type (scheds st x)
    ∧ roci (scheds (add_nr_cpus s a st) x) = roci (scheds st x)) as Hx.
  { intros x. unfold add_nr_cpus. simpl. destruct (decide (s = x)) as [->|];
      [by rewrite fn_lookup_alter|by rewrite fn_lookup_alter_ne]. }
  split.
  - split; intros; rewrite ?(proj1 (Hx _)), ?(proj1 (proj2 (Hx _))), ?(proj2 (proj2 (Hx _))); auto.
  - by rewrite (proj2 (proj2 (Hx _))).
  - by rewrite (proj2 (proj2 (Hx _))).
  - done.
Qed.

Lemma cur_upd st c v x : cur (upd_cpu c (set_current_sched v) st) x = if bool_decide (x = c) then v else cur st x.
Proof. simpl. case_bool_decide; [subst; by rewrite fn_lookup_alter|by rewrite fn_lookup_alter_ne]. Qed.

Lemma lists_inv_cur st own c v : lists_inv st own → lists_inv (upd_cpu c (set_current_sched v) st) own.
Proof.
  intros [Hcfg (LP & HP & HP') (LI & HI & HI') Hpend].
  assert (∀ x, roci_slot (upd_cpu c (set_current_sched v) st) x = roci_slot st x) as Hslot.
  { intros x. simpl. destruct (decide (c = x)) as [->|];
      [by rewrite fn_lookup_alter|by rewrite fn_lookup_alter_ne]. }
  assert (∀ l L, roci_list st l L → roci_list (upd_cpu c (set_current_sched v) st) l L) as Hl.
  { intros l L. apply (list_abs_entries (ListField0 := rfield)). intros i _. simpl.
    destruct (decide (c = i)) as [->|]; [by rewrite fn_lookup_alter|by rewrite fn_lookup_alter_ne]. }
  split.
  - destruct Hcfg. by split.
  - exists LP. split; [by apply Hl|done].
  - exists LI. split; [by apply Hl|]. intros x Hx. by rewrite Hslot, HI'.
  - intros x Hx. rewrite Hslot. auto.
Qed.

Lemma tier_ok_cur st c v x : tier_ok st x → tier_ok (upd_cpu c (set_current_sched v) st) x.
Proof.
  unfold tier_ok. simpl. destruct (decide (c = x)) as [->|];
    [by rewrite fn_lookup_alter|by rewrite fn_lookup_alter_ne].
Qed.

(** A grant: ROCI (or the kernel, for ROCI itself) hands the cpu to [child]. *)
Lemma cpu_op_allocated s c st : flux_cpu_allocated s c st = st.
Proof. unfold flux_cpu_allocated, cpu_op. by repeat zcase. Qed.

Lemma holds_step child par s :
  (child = FLUX_SCHED_ROCI ∧ par = FLUX_SCHED_NONE
   ∨ (child = FLUX_SCHED_BIFF ∨ child = FLUX_SCHED_IDLE) ∧ par = FLUX_SCHED_ROCI) →
  1 ≤ s < FLUX_NR_SCHEDS →
  b2z (holds s child) - b2z (holds s par) = if bool_decide (s = child) then 1 else 0.
Proof.
  unfold FLUX_NR_SCHEDS. intros Hch Hs. assert (s = 1 ∨ s = 2 ∨ s = 3) as [->|[->| ->]] by lia;
    by destruct Hch as [[-> ->]|[[-> | ->] ->]].
Qed.

Lemma grant_ok st c child own :
  c ∈ cpu_ids → (∀ x, tier_ok st x) → (∀ x, x ∈ cpu_ids → 0 ≤ cur st x < FLUX_NR_SCHEDS) →
  count_inv st (λ _, 0) → lists_inv st own →
  (child = FLUX_SCHED_ROCI ∧ cur st c = FLUX_SCHED_NONE
   ∨ (child = FLUX_SCHED_BIFF ∨ child = FLUX_SCHED_IDLE) ∧ cur st c = FLUX_SCHED_ROCI) →
  own c = child → (∀ x, x ≠ c → own x = cur st x) →
  cpu_inv (flux_cpu_grant child c st) ∧ cur (flux_cpu_grant child c st) c = child.
Proof.
  intros Hc Ht Hr Hcnt Hl Hch Hown Hx.
  assert (1 ≤ child < FLUX_NR_SCHEDS) as Hchr
    by (unfold FLUX_NR_SCHEDS; destruct Hch as [[-> _]|[[-> | ->] _]]; done).
  unfold flux_cpu_grant. rewrite get_sched_valid by lia. rewrite cpu_op_allocated.
  split; [|by rewrite cur_upd, bool_decide_true]. split.
  - intros x. apply tier_ok_cur, Ht.
  - intros x Hxi. rewrite cur_upd. case_bool_decide; [lia|by apply Hr].
  - eapply (count_move st _ c (λ _, 0)); [done|done| |].
    + intros x Hxc. rewrite cur_upd, bool_decide_false by done. done.
    + intros s Hs. cbn [scheds upd_cpu set_cpus].
      rewrite (add_nr_cpus_nr st (λ _, 0) child 1 s) by (done || lia).
      rewrite cur_upd, (bool_decide_true (c = c)) by done.
      pose proof (holds_step child (cur st c) s Hch Hs) as Hh. lia.
  - apply lists_inv_cur, lists_inv_add_nr. eapply lists_inv_own; [|exact Hl].
    intros x Hxi. rewrite cur_upd. case_bool_decide; [by subst|]. by rewrite Hx.
Qed.

(** A scheduler loses the cpu to its parent: first the counter, then the owner. *)
Lemma add_nr_count st s a :
  count_inv st (λ _, 0) → 1 ≤ s < FLUX_NR_SCHEDS → -1 ≤ a ≤ 1 →
  count_inv (add_nr_cpus s a st) (λ x, if bool_decide (x = s) then a else 0).
Proof.
  intros Hcnt Hs Ha x Hx. rewrite (add_nr_cpus_nr st (λ _, 0) s a x) by (done || lia).
  rewrite (Hcnt x Hx). unfold cpus_held. change (cpus (add_nr_cpus s a st)) with (cpus st). lia.
Qed.

Lemma leave_count st c s p :
  c ∈ cpu_ids → cur st c = s →
  (s = FLUX_SCHED_ROCI ∧ p = FLUX_SCHED_NONE
   ∨ (s = FLUX_SCHED_BIFF ∨ s = FLUX_SCHED_IDLE) ∧ p = FLUX_SCHED_ROCI) →
  count_inv st (λ x, if bool_decide (x = s) then -1 else 0) →
  count_inv (upd_cpu c (set_current_sched p) st) (λ _, 0).
Proof.
  intros Hc Hcur Hp Hcnt. eapply (count_move st _ c); [done|exact Hcnt| |].
  - intros x Hx. by rewrite cur_upd, bool_decide_false.
  - intros x Hx. rewrite cur_upd, bool_decide_true by done. rewrite Hcur.
    pose proof (holds_step s p x Hp Hx) as Hh. change (scheds (upd_cpu _ _ st)) with (scheds st).
    case_bool_decide; lia.
Qed.

(** What biff or idle leaves behind, before ROCI is told. *)
Lemma leave_child st c s :
  c ∈ cpu_ids → cpu_inv st → cur st c = s → (s = FLUX_SCHED_BIFF ∨ s = FLUX_SCHED_IDLE) →
  let st' := upd_cpu c (set_current_sched FLUX_SCHED_ROCI) (add_nr_cpus s (-1) st) in
  (∀ x, tier_ok st' x) ∧ (∀ x, x ∈ cpu_ids → 0 ≤ cur st' x < FLUX_NR_SCHEDS)
  ∧ count_inv st' (λ _, 0) ∧ lists_inv st' (λ x, cur st x) ∧ cur st' c = FLUX_SCHED_ROCI
  ∧ (∀ x, x ≠ c → cur st' x = cur st x).
Proof.
  intros Hc [Ht Hr Hcnt Hl] Hcur Hs st'. unfold st'. split_and!.
  - intros x. apply tier_ok_cur, Ht.
  - intros x Hx. rewrite cur_upd. case_bool_decide; [done|by apply Hr].
  - eapply leave_count; [done| |right; by eauto|]; [done|].
    apply add_nr_count; [done| |lia]. unfold FLUX_NR_SCHEDS. by destruct Hs as [-> | ->].
  - by apply lists_inv_cur, lists_inv_add_nr.
  - by rewrite cur_upd, bool_decide_true.
  - intros x Hx. by rewrite cur_upd, bool_decide_false.
Qed.

(** ... and after ROCI is told. *)
Lemma child_returned st c s :
  c ∈ cpu_ids → cpu_inv st → cur st c = s → (s = FLUX_SCHED_BIFF ∨ s = FLUX_SCHED_IDLE) →
  let st' := upd_cpu c (set_current_sched FLUX_SCHED_ROCI) (add_nr_cpus s (-1) st) in
  let st'' := __roci_cpu_returned FLUX_SCHED_ROCI s c st' in
  cpu_inv st'' ∧ cur st'' c = FLUX_SCHED_ROCI ∧ alloc_same st' st''.
Proof.
  intros Hc Hi Hcur Hs st' st''.
  destruct (leave_child st c s Hc Hi Hcur Hs) as (Ht & Hr & Hcnt & Hl & Hcur' & Hx).
  fold st' in Ht, Hr, Hcnt, Hl, Hcur', Hx.
  destruct (roci_returned_ok st' (λ x, cur st x) (λ x, cur st' x) s c) as [Hl' Hs'];
    try done; [by rewrite Hcur'..|].
  split_and!; [by apply (cpu_inv_alloc st')| |done]. by rewrite (proj1 (proj2 Hs')).
Qed.

(** A yield: biff gives the cpu back to ROCI. *)
Lemma yield_ok st c :
  c ∈ cpu_ids → cpu_inv st → cur st c = FLUX_SCHED_BIFF →
  cpu_inv (flux_cpu_yield FLUX_SCHED_BIFF c st)
  ∧ cur (flux_cpu_yield FLUX_SCHED_BIFF c st) c = FLUX_SCHED_ROCI.
Proof.
  intros Hc Hi Hcur. pose proof (li_config _ _ (ci_lists _ Hi)) as Hcfg. unfold flux_cpu_yield.
  assert (get_parent st FLUX_SCHED_BIFF = Some FLUX_SCHED_ROCI) as ->
    by (unfold get_parent, get_parent_id; by rewrite (cfg_id _ Hcfg)).
  rewrite (cfg_id _ Hcfg FLUX_SCHED_ROCI) by done.
  change (add_nr_cpus FLUX_SCHED_BIFF (-1) (upd_cpu c (set_current_sched FLUX_SCHED_ROCI) st))
    with (upd_cpu c (set_current_sched FLUX_SCHED_ROCI) (add_nr_cpus FLUX_SCHED_BIFF (-1) st)).
  destruct (leave_child st c FLUX_SCHED_BIFF Hc Hi Hcur) as (_ & _ & _ & Hl & _ & _); [by left|].
  destruct (child_returned st c FLUX_SCHED_BIFF Hc Hi Hcur) as (Hi' & Hcur' & _); [by left|].
  rewrite (cfg_id _ (li_config _ _ Hl)) by done.
  unfold flux_cpu_returned, cpu_op. by rewrite (cfg_type _ (li_config _ _ Hl)).
Qed.

(** ** Preemption up to a tier *)

Lemma cpu_op_type (f g h : flux_state → flux_state) s st :
  config_ok st → 0 ≤ s < FLUX_NR_SCHEDS →
  cpu_op f g h s st = if s =? FLUX_SCHED_ROCI then f st else if s =? FLUX_SCHED_BIFF then g st
                      else if s =? FLUX_SCHED_IDLE then h st else st.
Proof. intros Hcfg Hs. unfold cpu_op. by rewrite (cfg_type _ Hcfg). Qed.

(** From ROCI to the kernel: ROCI is told, and asks for another cpu. *)
Lemma roci_leave st c prev :
  c ∈ cpu_ids → cur st c = FLUX_SCHED_ROCI →
  (∀ x, tier_ok st x) → (∀ x, x ∈ cpu_ids → 0 ≤ cur st x < FLUX_NR_SCHEDS) →
  count_inv st (λ _, 0) → lists_inv st (λ x, if bool_decide (x = c) then prev else cur st x) →
  (prev = FLUX_SCHED_NONE ∨ prev = FLUX_SCHED_BIFF ∨ prev = FLUX_SCHED_IDLE) →
  let st1 := flux_cpu_preempted FLUX_SCHED_ROCI prev c (add_nr_cpus FLUX_SCHED_ROCI (-1) st) in
  let st2 := upd_cpu c (set_current_sched (get_parent_id st1 FLUX_SCHED_ROCI)) st1 in
  cur st1 c = FLUX_SCHED_ROCI ∧ cpu_inv st2 ∧ cur st2 c = FLUX_SCHED_NONE.
Proof.
  intros Hc Hcur Ht Hr Hcnt Hl Hprev st1 st2.
  set (st0 := add_nr_cpus FLUX_SCHED_ROCI (-1) st) in *.
  assert (lists_inv st0 (λ x, if bool_decide (x = c) then prev else cur st x)) as Hl0
    by (by apply lists_inv_add_nr).
  assert (count_inv st0 (λ x, if bool_decide (x = FLUX_SCHED_ROCI) then -1 else 0)) as Hcnt0
    by (by apply add_nr_count).
  set (own := λ x, if bool_decide (x = c) then FLUX_SCHED_ROCI else cur st x).
  assert (lists_inv st1 own ∧ alloc_same st0 st1) as [Hl1 Hs1].
  { unfold st1, flux_cpu_preempted. rewrite cpu_op_type by (done || apply Hl0). simpl.
    unfold roci_cpu_preempted. destruct (Z.eqb_spec prev FLUX_SCHED_NONE) as [->|Hne].
    { split; [|apply alloc_same_refl]. eapply lists_inv_own; [|exact Hl0].
      intros x Hx. unfold own. by case_bool_decide. }
    destruct (roci_returned_ok st0 (λ x, if bool_decide (x = c) then prev else cur st x) own prev c)
      as [Hl1 Hs1]; try done.
    { by rewrite bool_decide_true. }
    { naive_solver. }
    1-2: unfold own; by rewrite bool_decide_true.
    { intros x Hx. unfold own. by rewrite !bool_decide_false. }
    pose proof (roci_request_ok prev 1 _ own Hl1) as Hreq.
    destruct (roci_request_for_cpus _ _ _ _) as [st3 ret]. destruct Hreq as [Hl3 Hs3].
    split; [done|]. by eapply alloc_same_trans. }
  pose proof Hs1 as (Hs1t & Hs1c & _).
  assert (cur st1 c = FLUX_SCHED_ROCI) as Hc1 by (by rewrite Hs1c).
  assert (get_parent_id st1 FLUX_SCHED_ROCI = FLUX_SCHED_NONE) as Ep.
  { unfold get_parent_id. by rewrite (cfg_id _ (li_config _ _ Hl1)). }
  split; [done|]. unfold st2. rewrite Ep. split; [|by rewrite cur_upd, bool_decide_true].
  split.
  - intros x. apply tier_ok_cur, Hs1t. apply Ht.
  - intros x Hx. rewrite cur_upd. case_bool_decide; [done|]. rewrite Hs1c. by apply Hr.
  - eapply leave_count; [done|exact Hc1|by left|]. by apply (alloc_same_count st0).
  - apply lists_inv_cur. eapply lists_inv_own; [|exact Hl1]. intros x Hx. rewrite cur_upd. unfold own.
    case_bool_decide; [done|]. rewrite Hs1c. done.
Qed.

Lemma tier_of s : 0 ≤ s < FLUX_NR_SCHEDS →
  s = FLUX_SCHED_NONE ∧ sched_id_to_tier s = 0 ∨ s = FLUX_SCHED_ROCI ∧ sched_id_to_tier s = 1
  ∨ (s = FLUX_SCHED_BIFF ∨ s = FLUX_SCHED_IDLE) ∧ sched_id_to_tier s = 2.
Proof.
  unfold FLUX_NR_SCHEDS. intros Hs. assert (s = 0 ∨ s = 1 ∨ s = 2 ∨ s = 3) as [->|[->|[->| ->]]] by lia; auto.
Qed.

(** No child was preempted: the handlers have nothing to do. *)
Lemma completed_none s c st :
  config_ok st → 0 ≤ s < FLUX_NR_SCHEDS → flux_cpu_preemption_completed s FLUX_SCHED_NONE c st = st.
Proof. intros Hcfg Hs. unfold flux_cpu_preemption_completed. rewrite cpu_op_type by done. by repeat zcase. Qed.

(** The loop stops at once where the tier is already reached. *)
Lemma preempt_stop n c tier prev st :
  sched_id_to_tier (cur st c) ≤ tier → preempt_up_loop n c tier prev st = (st, Some prev).
Proof. intros Ht. destruct n; cbn [preempt_up_loop]; [done|]. by rewrite (proj2 (Z.leb_le _ _)). Qed.

(** One iteration at biff or idle. *)
Lemma preempt_child n c tier prev st s :
  cpu_inv st → cur st c = s → (s = FLUX_SCHED_BIFF ∨ s = FLUX_SCHED_IDLE) → tier < 2 →
  preempt_up_loop (S n) c tier prev st
  = preempt_up_loop n c tier s
      (upd_cpu c (set_current_sched FLUX_SCHED_ROCI) (add_nr_cpus s (-1) st)).
Proof.
  intros Hi Hcur Hs Ht. cbn [preempt_up_loop]. rewrite Hcur.
  assert (0 ≤ s < FLUX_NR_SCHEDS) as Hsr by (unfold FLUX_NR_SCHEDS; by destruct Hs as [-> | ->]).
  assert (sched_id_to_tier s = 2) as -> by (by destruct Hs as [-> | ->]).
  rewrite (proj2 (Z.leb_gt _ _)), get_sched_valid by (done || lia).
  assert (flux_cpu_preempted s prev c (add_nr_cpus s (-1) st) = add_nr_cpus s (-1) st) as ->.
  { unfold flux_cpu_preempted. rewrite cpu_op_type; [|apply (lists_inv_add_nr _ _ _ _ (ci_lists _ Hi))|done].
    by destruct Hs as [-> | ->]. }
  change (cur (add_nr_cpus s (-1) st) c) with (cur st c). rewrite Hcur.
  assert (get_parent_id (add_nr_cpus s (-1) st) s = FLUX_SCHED_ROCI) as ->; [|done].
  unfold get_parent_id.
  rewrite (cfg_id _ (li_config _ _ (lists_inv_add_nr _ _ s (-1) (ci_lists _ Hi)))) by done.
  by destruct Hs as [-> | ->].
Qed.

(** One iteration at ROCI, down to the kernel. *)
Lemma preempt_roci n c prev st :
  cur st c = FLUX_SCHED_ROCI →
  let st1 := flux_cpu_preempted FLUX_SCHED_ROCI prev c (add_nr_cpus FLUX_SCHED_ROCI (-1) st) in
  cur st1 c = FLUX_SCHED_ROCI →
  preempt_up_loop (S n) c 0 prev st
  = preempt_up_loop n c 0 FLUX_SCHED_ROCI
      (upd_cpu c (set_current_sched (get_parent_id st1 FLUX_SCHED_ROCI)) st1).
Proof. intros Hcur st1 Hcur1. cbn [preempt_up_loop]. rewrite Hcur. simpl. fold st1. by rewrite Hcur1. Qed.

(** Preempting to the kernel from ROCI's level. *)
Lemma preempt_to_kernel n c prev st :
  c ∈ cpu_ids → cur st c = FLUX_SCHED_ROCI →
  (∀ x, tier_ok st x) → (∀ x, x ∈ cpu_ids → 0 ≤ cur st x < FLUX_NR_SCHEDS) →
  count_inv st (λ _, 0) → lists_inv st (λ x, if bool_decide (x = c) then prev else cur st x) →
  (prev = FLUX_SCHED_NONE ∨ prev = FLUX_SCHED_BIFF ∨ prev = FLUX_SCHED_IDLE) →
  ∃ st', preempt_up_loop (S n) c 0 prev st = (st', Some FLUX_SCHED_ROCI)
         ∧ cpu_inv st' ∧ cur st' c = FLUX_SCHED_NONE.
Proof.
  intros Hc Hcur Ht Hr Hcnt Hl Hprev.
  destruct (roci_leave st c prev) as (Hc1 & Hi2 & Hc2); try done.
  rewrite preempt_roci by done. eexists. split; [|done].
  rewrite preempt_stop; [done|]. by rewrite Hc2.
Qed.

Lemma completed_kernel c st prev :
  cpu_inv st → flux_cpu_preemption_completed FLUX_SCHED_NONE prev c st = st.
Proof.
  intros Hi. unfold flux_cpu_preemption_completed.
  by rewrite cpu_op_type by (apply Hi || done).
Qed.

(** Preempting keeps the invariant and leaves the cpu at the tier, or above it
    where it already was. *)
Lemma preempt_up_to_ok st c tier :
  c ∈ cpu_ids → cpu_inv st → 0 ≤ tier ≤ FLUX_TIER_NO_PREEMPT →
  cpu_inv (flux_preempt_up_to c tier st)
  ∧ sched_id_to_tier (cur (flux_preempt_up_to c tier st) c) = Z.min tier (sched_id_to_tier (cur st c)).
Proof.
  intros Hc Hi Htier. pose proof (ci_current _ Hi c Hc) as Hr.
  pose proof (li_config _ _ (ci_lists _ Hi)) as Hcfg. unfold flux_preempt_up_to.
  change FLUX_MAX_NR_TIERS with 3%nat.
  destruct (Z.leb_spec (sched_id_to_tier (cur st c)) tier) as [Hle|Hgt].
  { rewrite preempt_stop, get_sched_valid, completed_none by done. split; [done|lia]. }
  destruct (tier_of _ Hr) as [[E Et]|[[E Et]|[E Et]]]; rewrite Et in Hgt |- *.
  - lia.
  - assert (tier = 0) as -> by lia.
    destruct (preempt_to_kernel 2 c FLUX_SCHED_NONE st) as (st' & -> & Hi' & Hcur'); try done;
      [apply Hi..| |by left|].
    { eapply lists_inv_own; [|apply Hi]. intros x Hx. case_bool_decide; [subst|done]. by rewrite E. }
    rewrite Hcur'. cbn [get_sched]. rewrite get_sched_valid, completed_kernel by done. by rewrite Hcur'.
  - rewrite (preempt_child 2 c tier _ st (cur st c)) by (done || lia).
    destruct (leave_child st c (cur st c) Hc Hi eq_refl E) as (Ht1 & Hr1 & Hcnt1 & Hl1 & Hc1 & Hx1).
    set (st1 := upd_cpu c (set_current_sched FLUX_SCHED_ROCI) (add_nr_cpus (cur st c) (-1) st)) in *.
    assert (tier = 1 ∨ tier = 0) as [-> | ->] by lia.
    + rewrite preempt_stop by (by rewrite Hc1). rewrite Hc1, get_sched_valid by done.
      unfold flux_cpu_preemption_completed. rewrite cpu_op_type by (apply Hl1 || done). cbn [Z.eqb FLUX_SCHED_ROCI Pos.eqb].
      unfold roci_cpu_preemption_completed.
      rewrite (proj2 (Z.eqb_neq _ FLUX_SCHED_NONE)) by (by destruct E as [-> | ->]).
      destruct (child_returned st c (cur st c) Hc Hi eq_refl E) as (Hi2 & Hc2 & _).
      fold st1 in Hi2, Hc2. rewrite Hc2. done.
    + destruct (preempt_to_kernel 1 c (cur st c) st1) as (st' & -> & Hi' & Hcur'); try done; [|by right|].
      { eapply lists_inv_own; [|exact Hl1]. intros x Hx. case_bool_decide; [by subst|]. by rewrite Hx1. }
      rewrite Hcur', get_sched_valid, completed_kernel by done. by rewrite Hcur'.
Qed.

End steps.

(** ** The allocation of cpus is an invariant of the running system *)

(** ** The system: messages and calls of PNT, in any order *)

Section system.
Context `{FluxEnv}.
Implicit Types (st : flux_state).

Inductive flux_step : flux_state → flux_state → Prop :=
  | step_msg st msg : flux_step st (flux_msg_send msg st)
  | step_pnt st this_cpu ctx : flux_step st (flux_pnt this_cpu st ctx).1
  | step_init st : flux_step st (set_user_initialized true st).

Inductive flux_reachable (st0 : flux_state) : flux_state → Prop :=
  | reach_init : flux_reachable st0 st0
  | reach_step st st' : flux_reachable st0 st → flux_step st st' → flux_reachable st0 st'.

(** ** Lemmas: the message handlers *)

Ltac cframe := eapply cpu_inv_proper; [ceq|].

(** [op_cases] splits on whether the thread and its scheduler were found. *)
Ltac op_cases st t E := destruct (thread_op _ _ _ _) as [[st t]|] eqn:E; [|done].

Lemma prio_changed_keeps : keeps biff_thread_prio_changed.
Proof. by intros t st. Qed.
Lemma affinity_changed_keeps : keeps biff_thread_affinity_changed.
Proof. by intros t st. Qed.
Lemma dead_keeps : keeps biff_thread_dead.
Proof. by intros t st. Qed.

Lemma handle_new_inv seq g r n i x st : cpu_inv st → cpu_inv (handle_new seq g r n i x st).
Proof.
  intros Hi. unfold handle_new, sw_lookup_insert. destruct (sw_lookup st !! g); [done|].
  zcase; [done|]. set (st1 := set_sw_lookup _ st).
  assert (cpu_inv st1) as Hi1 by (unfold st1; by cframe). destruct (gtid_to_thread st1 g) as [t|]; [|done].
  unfold flux_join_scheduler.
  match goal with |- context [thread_op_thr t _ biff_thread_new ?e] => set (st2 := e) end.
  assert (cpu_inv st2) as Hi2 by (unfold st2; by cframe).
  destruct (thread_op_thr t _ biff_thread_new st2) as [st3|] eqn:E3; [|done].
  pose proof (thread_op_thr_inv _ _ _ _ _ biff_new_keeps Hi2 E3) as Hi3.
  destruct r; [|done]. destruct (thread_op_thr t _ _ st3) as [st4|] eqn:E4; [|done].
  exact (thread_op_thr_inv _ _ _ _ _ biff_runnable_keeps Hi3 E4).
Qed.

Lemma handle_latch_failure_inv seq g st : cpu_inv st → cpu_inv (handle_latch_failure seq g st).
Proof.
  intros Hi. unfold handle_latch_failure. destruct (gtid_to_thread st g) as [t|]; [|done].
  destruct (negb _); [by cframe|]. set (st1 := upd_thread t _ st).
  assert (cpu_inv st1) as Hi1 by (unfold st1; by cframe).
  destruct (thread_op_thr t _ _ st1) as [st2|] eqn:E; [|done].
  exact (thread_op_thr_inv _ _ _ _ _ biff_runnable_keeps Hi1 E).
Qed.

Lemma handle_prio_changed_inv seq g n st : cpu_inv st → cpu_inv (handle_prio_changed seq g n st).
Proof.
  intros Hi. unfold handle_prio_changed. destruct (gtid_to_thread st g) as [t|]; [|done].
  set (st1 := upd_thread t _ st). assert (cpu_inv st1) as Hi1 by (unfold st1; by cframe).
  destruct (thread_op_thr t _ _ st1) as [st2|] eqn:E; [|done].
  exact (thread_op_thr_inv _ _ _ _ _ prio_changed_keeps Hi1 E).
Qed.

Lemma biff_ticked_inv prev c st : cpu_inv st → cpu_inv (biff_cpu_ticked FLUX_SCHED_BIFF prev c st).
Proof.
  intros Hi. unfold biff_cpu_ticked. zcase; [done|].
  destruct (gtid_to_thread _ _) as [t|]; [|done]. cbn [bpf_ktime_get_us].
  zcase; by cframe.
Qed.

Lemma tick_loop_inv n c i prev st : cpu_inv st → cpu_inv (cpu_tick_loop n c i prev st).
Proof.
  revert i prev st. induction n as [|n IH]; intros i prev st Hi; cbn [cpu_tick_loop]; [done|].
  zcase; [done|]. destruct (get_sched i) as [s|] eqn:Es; [|done].
  apply get_sched_some in Es as [-> Hs]. apply IH. unfold flux_cpu_ticked.
  rewrite cpu_op_type by (done || apply Hi).
  zcase; [done|]. zcase; [subst; by apply biff_ticked_inv|]. by zcase.
Qed.

Lemma handle_cpu_busy_inv i st : cpu_inv st → cpu_inv (handle_cpu_busy i st).
Proof.
  intros Hi. unfold handle_cpu_busy. destruct (cpuid_to_cpu i) as [c|] eqn:Ec; [|done].
  apply cpuid_to_cpu_ids in Ec. apply preempt_up_to_ok; [done| |unfold FLUX_TIER_NO_PREEMPT; lia].
  by cframe.
Qed.

Lemma flux_msg_send_inv msg st : cpu_inv st → cpu_inv (flux_msg_send msg st).
Proof.
  intros Hi. destruct msg as [seq p]. unfold flux_msg_send. cbn [msg_seqnum payload].
  destruct p; try done.
  - by apply handle_new_inv.
  - unfold handle_on_cpu. op_cases st1 t E. cframe. exact (thread_op_inv _ _ _ _ _ _ (biff_on_cpu_keeps _) Hi E).
  - unfold handle_blocked. op_cases st1 t E. cframe. exact (thread_op_inv _ _ _ _ _ _ (biff_blocked_keeps _) Hi E).
  - unfold handle_wakeup. op_cases st1 t E. cframe. exact (thread_op_inv _ _ _ _ _ _ biff_wakeup_keeps Hi E).
  - unfold handle_preempt. op_cases st1 t E.
    pose proof (thread_op_inv _ _ _ _ _ _ (biff_preempted_keeps _ _) Hi E). destruct from_switchto; by cframe.
  - unfold handle_yield. op_cases st1 t E.
    pose proof (thread_op_inv _ _ _ _ _ _ (biff_yielded_keeps _) Hi E). destruct from_switchto; by cframe.
  - unfold handle_switchto. op_cases st1 t E. cframe. exact (thread_op_inv _ _ _ _ _ _ biff_switchto_keeps Hi E).
  - unfold handle_affinity_changed. op_cases st1 t E. exact (thread_op_inv _ _ _ _ _ _ affinity_changed_keeps Hi E).
  - by apply handle_prio_changed_inv.
  - by apply handle_latch_failure_inv.
  - unfold handle_dead. op_cases st1 t E. cframe. exact (thread_op_inv _ _ _ _ _ _ dead_keeps Hi E).
  - unfold handle_departed. op_cases st1 t E. cframe.
    exact (thread_op_inv _ _ _ _ _ _ (biff_departed_keeps _ _) Hi E).
  - unfold handle_cpu_tick. destruct (cpuid_to_cpu cpu); [|done]. by apply tick_loop_inv.
  - unfold handle_cpu_available. destruct (cpuid_to_cpu cpu); [|done]. by cframe.
  - by apply handle_cpu_busy_inv.
Qed.

(** ** Lemmas: PNT *)

Lemma run_gtid_inv g seq st : cpu_inv st → cpu_inv (bpf_ghost_run_gtid g seq st).1.
Proof.
  intros Hi. unfold bpf_ghost_run_gtid. destruct (run_gtid _ _ _) as [err cb].
  set (st1 := if err =? 0 then _ else _).
  assert (cpu_inv st1) as Hi1 by (unfold st1; zcase; by cframe).
  destruct cb; [by apply flux_msg_send_inv|done].
Qed.

Lemma run_thread_inv t c st ctx : cpu_inv st → cpu_inv (flux_run_thread t c st ctx).1.1.
Proof.
  intros Hi. unfold flux_run_thread.
  pose proof (run_gtid_inv (gtid (threads st t)) (latched_seqnum (cpus st c)) st Hi) as Hi1.
  destruct (bpf_ghost_run_gtid _ _ st) as [st1 err]. cbn [fst] in Hi1.
  zcase; [simpl; by cframe|]. destruct (_ || _); simpl; by cframe.
Qed.

Lemma pick_first_inv b c st : cpu_inv st → cpu_inv (__biff_pick_first_to_run b c st).1.
Proof.
  intros Hi. unfold __biff_pick_first_to_run. destruct (arr_list_pop_first _ _ _) as [[m l] [t|]]; simpl.
  - unfold flux_prepare_to_run, flux_thread_incref. by cframe.
  - by cframe.
Qed.

(** Picking keeps the current owner of the cpu in mind: only biff yields. *)
Lemma cur_frame st st' c : cpu_frame st st' → cur st' c = cur st c.
Proof. intros E. apply E. Qed.

Lemma pick_first_cur b c st x : cur (__biff_pick_first_to_run b c st).1 x = cur st x.
Proof.
  apply cur_frame. unfold __biff_pick_first_to_run.
  destruct (arr_list_pop_first _ _ _) as [[m l] [t|]]; simpl; [|by ceq].
  unfold flux_prepare_to_run, flux_thread_incref. by ceq.
Qed.

Lemma biff_run_inv t c st ctx :
  cpu_inv st →
  cpu_inv (let '(st, ctx, err) := flux_run_thread t c st ctx in
           if err =? 0 then (upd_thread t (set_t_cpu (c_id (cpus st c))) st, ctx) else (st, ctx)).1.
Proof.
  intros Hi. pose proof (run_thread_inv t c st ctx Hi) as Hi1.
  destruct (flux_run_thread t c st ctx) as [[st1 ctx1] err]. cbn [fst] in Hi1.
  zcase; simpl; [by cframe|done].
Qed.

Lemma biff_pick_inv c st ctx :
  c ∈ cpu_ids → cpu_inv st → cur st c = FLUX_SCHED_BIFF →
  cpu_inv (biff_pick_next_task FLUX_SCHED_BIFF c st ctx).1.
Proof.
  intros Hc Hi Hcur. unfold biff_pick_next_task.
  pose proof (pick_first_inv FLUX_SCHED_BIFF c st Hi) as Hp.
  pose proof (pick_first_cur FLUX_SCHED_BIFF c st c) as Hpc.
  destruct (gtid_to_thread _ _) as [t|].
  - destruct (negb _); [simpl; by cframe|].
    destruct (__biff_pick_first_to_run FLUX_SCHED_BIFF c st) as [st1 [t1|]]; cbn [fst] in *.
    + by apply biff_run_inv.
    + simpl. by cframe.
  - destruct (__biff_pick_first_to_run FLUX_SCHED_BIFF c st) as [st1 [t1|]]; cbn [fst] in *.
    + by apply biff_run_inv.
    + simpl. apply yield_ok; [done|done|by rewrite Hpc].
Qed.

Lemma roci_pick_inv c st ctx :
  c ∈ cpu_ids → cpu_inv st → cur st c = FLUX_SCHED_ROCI →
  cpu_inv (roci_pick_next_task FLUX_SCHED_ROCI c st ctx).1.
Proof.
  intros Hc Hi Hcur. unfold roci_pick_next_task. pose proof (li_config _ _ (ci_lists _ Hi)) as Hcfg.
  rewrite (cfg_primary _ Hcfg), (cfg_idle _ Hcfg), get_sched_valid, (cfg_id _ Hcfg) by done.
  set (p := negb _). set (child := if p then FLUX_SCHED_BIFF else FLUX_SCHED_IDLE).
  set (own := λ x, if bool_decide (x = c) then child else cur st x).
  destruct (roci_assign_ok st (λ x, cur st x) own c p) as [Hl Hs]; try done;
    [apply Hi|by rewrite Hcur|by rewrite Hcur|unfold own; by rewrite bool_decide_true| |].
  { intros x Hx. unfold own. by rewrite bool_decide_false. }
  pose proof Hs as (Hst & Hsc & _). cbn [fst].
  apply (grant_ok (roci_assign FLUX_SCHED_ROCI c p st) c child own); try done.
  - intros x. apply Hst, Hi.
  - intros x Hx. rewrite Hsc. by apply Hi.
  - by apply (alloc_same_count st), Hi.
  - right. rewrite Hsc, Hcur. split; [|done]. unfold child. destruct p; auto.
  - unfold own. by rewrite bool_decide_true.
  - intros x Hx. unfold own. by rewrite bool_decide_false, Hsc.
Qed.

Lemma pick_inv c st ctx :
  c ∈ cpu_ids → cpu_inv st → cpu_inv (flux_pick_next_task (cur st c) c st ctx).1.
Proof.
  intros Hc Hi. pose proof (ci_current _ Hi c Hc) as Hr. unfold flux_pick_next_task.
  rewrite (cfg_type _ (li_config _ _ (ci_lists _ Hi))) by done.
  zcase; [rewrite e; by apply roci_pick_inv|]. zcase; [rewrite e; by apply biff_pick_inv|].
  zcase; [|done]. simpl. by cframe.
Qed.

Lemma pnt_loop_inv n c st ctx : c ∈ cpu_ids → cpu_inv st → cpu_inv (pnt_loop n c st ctx).1.1.
Proof.
  intros Hc. revert st ctx. induction n as [|n IH]; intros st ctx Hi; cbn [pnt_loop]; [done|].
  rewrite get_sched_valid by (by apply Hi).
  pose proof (pick_inv c st ctx Hc Hi) as Hp.
  destruct (flux_pick_next_task _ _ _ _) as [st1 ctx1]. destruct (pnt_success _); [done|by apply IH].
Qed.

Lemma grant_top_inv st c :
  c ∈ cpu_ids → cpu_inv st → cur st c = FLUX_SCHED_NONE →
  cpu_inv (flux_cpu_grant top_tier_sched_id c st).
Proof.
  intros Hc Hi Hcur.
  apply (grant_ok st c FLUX_SCHED_ROCI (λ x, if bool_decide (x = c) then FLUX_SCHED_ROCI else cur st x));
    try done; try apply Hi; [|by left|by rewrite bool_decide_true|].
  - eapply lists_inv_own; [|apply Hi]. intros x Hx. case_bool_decide; [subst|done]. by rewrite Hcur.
  - intros x Hx. by rewrite bool_decide_false.
Qed.

Lemma flux_pnt_inv i st ctx : cpu_inv st → cpu_inv (flux_pnt i st ctx).1.
Proof.
  intros Hi. unfold flux_pnt. destruct (negb _); [done|]. destruct (_ || _); [done|].
  destruct (cpuid_to_cpu i) as [c|] eqn:Ec; [|done]. apply cpuid_to_cpu_ids in Ec.
  destruct (negb _); [done|].
  set (st1 := if preempt_to (cpus st c) =? FLUX_TIER_NO_PREEMPT then st else _).
  assert (cpu_inv st1) as Hi1.
  { unfold st1. zcase; [done|]. pose proof (ci_tier _ Hi c) as Ht. unfold tier_ok in Ht.
    apply preempt_up_to_ok; [done|by cframe|]. unfold s32. unfold FLUX_TIER_NO_PREEMPT in *.
    rewrite Z.mod_small; lia. }
  clearbody st1.
  set (st2 := if cur st1 c =? FLUX_SCHED_NONE then _ else st1).
  assert (cpu_inv st2) as Hi2 by (unfold st2; zcase; [by apply grant_top_inv|done]).
  clearbody st2.
  assert (cpu_inv (upd_cpu c (set_pnt_success false) st2)) as Hi3 by (by cframe).
  pose proof (pnt_loop_inv (FLUX_MAX_NR_TIERS * 2) c _ (ctx_set_dont_idle true ctx) Ec Hi3) as Hi4.
  destruct (pnt_loop _ _ _ _) as [[st4 ctx4] []]; done.
Qed.

End system.
