(* ===== verification/FluxThreads.v ===== *)
(** * FluxThreads: biff as a queue of tasks

    An abstract scheduler [biff_spec]: the known tasks, what biff records about
    each, a queue and a counter, with one definition per message.  Every message
    handler refines it.  The rest of Flux (cpus, ROCI, timestamps) is not visible
    at this level. *)

From stdpp Require Import base tactics numbers list functions gmap sets.
From Stdlib Require Import ZArith Lia.
From S2P Require Import Prelude Avl Queue QueueSpec FluxState RociFlux BiffFlux FluxApi.
From S2P Require Import FluxCpuInv FluxCpuSafe.

Local Open Scope Z_scope.

(** ** The specification *)

(** What matters about a thread. *)
Record core := mk_core {
  k_gtid : Z;
  k_refcnt : Z;
  k_sched : Z;
  k_on_rq : bool;
  k_enqueued : bool;
  k_pending : bool;
}.

Definition k_set_refcnt (v : Z) (k : core) : core :=
  mk_core (k_gtid k) v (k_sched k) (k_on_rq k) (k_enqueued k) (k_pending k).
Definition k_set_sched (v : Z) (k : core) : core :=
  mk_core (k_gtid k) (k_refcnt k) v (k_on_rq k) (k_enqueued k) (k_pending k).
Definition k_set_on_rq (v : bool) (k : core) : core :=
  mk_core (k_gtid k) (k_refcnt k) (k_sched k) v (k_enqueued k) (k_pending k).
Definition k_set_enqueued (v : bool) (k : core) : core :=
  mk_core (k_gtid k) (k_refcnt k) (k_sched k) (k_on_rq k) v (k_pending k).
Definition k_set_pending (v : bool) (k : core) : core :=
  mk_core (k_gtid k) (k_refcnt k) (k_sched k) (k_on_rq k) (k_enqueued k) v.

Record biff_spec := mk_spec {
  a_sw : gmap Z task_sw_info;
  a_thr : Z → core;
  a_rq : list Z;
  a_wanted : Z;
  a_latched : list Z;
}.

Definition a_set_sw (v : gmap Z task_sw_info) (a : biff_spec) : biff_spec :=
  mk_spec v (a_thr a) (a_rq a) (a_wanted a) (a_latched a).
Definition a_alter (t : Z) (f : core → core) (a : biff_spec) : biff_spec :=
  mk_spec (a_sw a) (alter f t (a_thr a)) (a_rq a) (a_wanted a) (a_latched a).
Definition a_set_rq (v : list Z) (a : biff_spec) : biff_spec :=
  mk_spec (a_sw a) (a_thr a) v (a_wanted a) (a_latched a).
Definition a_want (n : Z) (a : biff_spec) : biff_spec :=
  mk_spec (a_sw a) (a_thr a) (a_rq a) (s64 (a_wanted a + n)) (a_latched a).
Definition a_latch (g : Z) (a : biff_spec) : biff_spec :=
  mk_spec (a_sw a) (a_thr a) (a_rq a) (a_wanted a) (g :: a_latched a).

(** The thread id of a known task. *)
Definition sw_find (sw : gmap Z task_sw_info) (g : Z) : option Z :=
  if g =? 0 then None
  else match sw !! g with
       | None => None
       | Some swi => if swi_index swi <? FLUX_MAX_GTIDS then Some (swi_index swi + 1) else None
       end.

Definition a_enqueue (t : Z) (a : biff_spec) : biff_spec :=
  a_alter t (k_set_enqueued true) (a_set_rq (a_rq a ++ [t]) a).

Definition a_dequeue (t : Z) (a : biff_spec) : biff_spec :=
  if k_enqueued (a_thr a t)
  then a_alter t (k_set_enqueued false) (a_set_rq (filter (λ x, x ≠ t) (a_rq a)) a)
  else a.

Definition a_decref (t : Z) (a : biff_spec) : biff_spec :=
  let a := a_alter t (λ k, k_set_refcnt (u64 (k_refcnt k - 1)) k) a in
  if k_refcnt (a_thr a t) =? 0 then a_set_sw (delete (k_gtid (a_thr a t)) (a_sw a)) a else a.

Definition a_new (g : Z) (runnable : bool) (swi : task_sw_info) (a : biff_spec) : biff_spec :=
  match a_sw a !! g with
  | Some _ => a
  | None =>
      if FLUX_MAX_GTIDS <=? Z.of_nat (size (a_sw a)) then a
      else
        let a := a_set_sw (<[g := swi]> (a_sw a)) a in
        match sw_find (a_sw a) g with
        | None => a
        | Some t =>
            let a := a_alter t (λ _, mk_core g 1 FLUX_SCHED_BIFF runnable false false) a in
            if runnable then a_enqueue t (a_want 1 a) else a
        end
  end.

Definition a_departed (t : Z) (a : biff_spec) : biff_spec :=
  let a := a_dequeue t a in
  let a := if k_on_rq (a_thr a t) then a_want (-1) a else a in
  a_decref t (a_alter t (k_set_sched FLUX_SCHED_NONE) a).

(** What a message about a known thread does. *)
Definition a_thread_msg (p : msg_payload) (t : Z) (a : biff_spec) : biff_spec :=
  match p with
  | MSG_TASK_BLOCKED _ _ _ => a_alter t (k_set_on_rq false) (a_want (-1) a)
  | MSG_TASK_WAKEUP _ _ _ => a_alter t (k_set_on_rq true) (a_want 1 (a_enqueue t a))
  | MSG_TASK_PREEMPT _ _ fs _ | MSG_TASK_YIELD _ _ fs =>
      let a := a_enqueue t a in if fs : bool then a_alter t (k_set_on_rq true) a else a
  | MSG_TASK_SWITCHTO _ _ => a_alter t (k_set_on_rq false) a
  | MSG_TASK_LATCH_FAILURE _ _ =>
      if k_pending (a_thr a t) then a_enqueue t (a_alter t (k_set_pending false) a) else a
  | MSG_TASK_DEAD _ _ => a_decref t (a_alter t (k_set_sched FLUX_SCHED_NONE) a)
  | MSG_TASK_DEPARTED _ _ _ _ => a_departed t a
  | _ => a
  end.

(** The task a message is about, except for MSG_TASK_NEW. *)
Definition msg_gtid (p : msg_payload) : option Z :=
  match p with
  | MSG_TASK_ON_CPU g _ | MSG_TASK_BLOCKED g _ _ | MSG_TASK_WAKEUP g _ _
  | MSG_TASK_PREEMPT g _ _ _ | MSG_TASK_YIELD g _ _ | MSG_TASK_SWITCHTO g _
  | MSG_TASK_AFFINITY_CHANGED g | MSG_TASK_PRIORITY_CHANGED g _ | MSG_TASK_LATCH_FAILURE g _
  | MSG_TASK_DEAD g _ | MSG_TASK_DEPARTED g _ _ _ => Some g
  | _ => None
  end.

Definition a_msg (p : msg_payload) (a : biff_spec) : biff_spec :=
  match p with
  | MSG_TASK_NEW g runnable _ sw_id sw_index =>
      a_new g runnable (mk_swi (u32 sw_id) (u32 sw_index)) a
  | _ =>
      match msg_gtid p with
      | None => a
      | Some g => match sw_find (a_sw a) g with None => a | Some t => a_thread_msg p t a end
      end
  end.

(** ** The abstraction *)

Definition thread_core (x : flux_thread) : core :=
  mk_core (gtid x) (refcnt x) (t_sched x) (on_rq x) (enqueued x) (pending_latch x).

Record refines (st : flux_state) (a : biff_spec) : Prop := {
  rf_config : config_ok st;
  rf_sw : sw_lookup st = a_sw a;
  rf_thr : ∀ t, thread_core (threads st t) = a_thr a t;
  rf_rq : list_abs FLUX_MAX_GTIDS (threads st) (biff_rq (scheds st FLUX_SCHED_BIFF)) (a_rq a);
  rf_wanted : s_nr_cpus_wanted (scheds st FLUX_SCHED_BIFF) = a_wanted a;
  rf_latched : latched st = a_latched a;
}.

(** A step that is invisible in the specification. *)
Record thread_frame (st st' : flux_state) : Prop := {
  tf_sw : sw_lookup st' = sw_lookup st;
  tf_core : ∀ t, thread_core (threads st' t) = thread_core (threads st t);
  tf_link : ∀ t, link (threads st' t) = link (threads st t);
  tf_id : ∀ s, s_id (scheds st' s) = s_id (scheds st s);
  tf_type : ∀ s, s_type (scheds st' s) = s_type (scheds st s);
  tf_ids : ∀ s, primary_id (roci (scheds st' s)) = primary_id (roci (scheds st s))
             ∧ idle_id (roci (scheds st' s)) = idle_id (roci (scheds st s));
  tf_rq : ∀ s, biff_rq (scheds st' s) = biff_rq (scheds st s);
  tf_wanted : ∀ s, s_nr_cpus_wanted (scheds st' s) = s_nr_cpus_wanted (scheds st s);
  tf_latched : latched st' = latched st;
}.

(** ** Lemmas: invisible steps *)

#[export] Instance thread_frame_preorder : PreOrder thread_frame.
Proof.
  split.
  - intros st. by split.
  - intros st1 st2 st3 [? ? ? ? ? E1 ? ? ?] [? ? ? ? ? E2 ? ? ?]. split; intros s || idtac; try congruence.
    destruct (E1 s), (E2 s). split; congruence.
Qed.

Lemma config_frame st st' : thread_frame st st' → config_ok st → config_ok st'.
Proof.
  intros [_ _ _ E1 E2 E3 _ _ _] [C1 C2 C3 C4].
  split; intros; rewrite ?E1, ?E2, ?(proj1 (E3 _)), ?(proj2 (E3 _)); auto.
Qed.

#[export] Instance refines_proper : Proper (thread_frame ==> eq ==> impl) refines.
Proof.
  intros st st' E a _ <- [Hc Hs Ht Hr Hw Hl]. split.
  - by apply (config_frame st).
  - by rewrite (tf_sw _ _ E).
  - intros t. by rewrite (tf_core _ _ E).
  - rewrite (tf_rq _ _ E). eapply list_abs_entries; [|exact Hr]. intros i _. apply (tf_link _ _ E).
  - by rewrite (tf_wanted _ _ E).
  - by rewrite (tf_latched _ _ E).
Qed.

Lemma tf_upd_cpu c f st : thread_frame st (upd_cpu c f st).
Proof. by split. Qed.
Lemma tf_set_cpus m st : thread_frame st (set_cpus m st).
Proof. by split. Qed.
Lemma tf_set_calls n st : thread_frame st (set_calls n st).
Proof. by split. Qed.
Lemma tf_set_rescheds l st : thread_frame st (set_rescheds l st).
Proof. by split. Qed.
Lemma tf_set_init b st : thread_frame st (set_user_initialized b st).
Proof. by split. Qed.

Lemma tf_upd_thread t f st :
  (∀ x, thread_core (f x) = thread_core x ∧ link (f x) = link x) → thread_frame st (upd_thread t f st).
Proof.
  intros Hf. split; try done; intros x; simpl; (destruct (decide (t = x)) as [->|];
    [rewrite fn_lookup_alter; apply Hf|by rewrite fn_lookup_alter_ne]).
Qed.

Definition sched_same (f : flux_sched → flux_sched) : Prop :=
  ∀ x, s_id (f x) = s_id x ∧ s_type (f x) = s_type x ∧ primary_id (roci (f x)) = primary_id (roci x)
    ∧ idle_id (roci (f x)) = idle_id (roci x) ∧ biff_rq (f x) = biff_rq x
    ∧ s_nr_cpus_wanted (f x) = s_nr_cpus_wanted x.

Lemma tf_upd_sched s f st : sched_same f → thread_frame st (upd_sched s f st).
Proof.
  intros Hf. split; try done; intros x; simpl; (destruct (decide (s = x)) as [->|];
    [rewrite fn_lookup_alter; destruct (Hf (scheds st x)); destruct_hyps; done
    |by rewrite fn_lookup_alter_ne]).
Qed.

(** [teq] proves that a composition of such steps is one. *)
Ltac teq :=
  repeat match goal with
  | |- thread_frame ?st ?st => reflexivity
  | |- thread_frame _ (upd_cpu _ _ _) => etransitivity; [|apply tf_upd_cpu]
  | |- thread_frame _ (upd_biff_cpu _ _ _ _) => etransitivity; [|apply tf_upd_cpu]
  | |- thread_frame _ (upd_roci_cpu _ _ _ _) => etransitivity; [|apply tf_upd_cpu]
  | |- thread_frame _ (set_cpus _ _) => etransitivity; [|apply tf_set_cpus]
  | |- thread_frame _ (set_calls _ _) => etransitivity; [|apply tf_set_calls]
  | |- thread_frame _ (set_rescheds _ _) => etransitivity; [|apply tf_set_rescheds]
  | |- thread_frame _ (bpf_ghost_resched_cpu2 _ _) => etransitivity; [|apply tf_set_rescheds]
  | |- thread_frame _ (upd_thread _ _ _) => etransitivity; [|apply tf_upd_thread; done]
  | |- thread_frame _ (upd_sched _ _ _) => etransitivity; [|apply tf_upd_sched; done]
  | |- thread_frame _ (add_nr_cpus _ _ _) => etransitivity; [|apply tf_upd_sched; done]
  end; try reflexivity.
Ltac tframe := eapply refines_proper; [teq|reflexivity|].

Lemma tf_preempt_loop n tier c st : thread_frame st (flux_preempt_loop n tier c st).
Proof.
  induction n as [|n IH]; cbn [flux_preempt_loop]; [done|]. zcase; [done|].
  unfold cas_preempt_to. zcase; [by teq|exact IH].
Qed.

Lemma tf_preempt_cpu s c st : thread_frame st (flux_preempt_cpu s c st).
Proof. apply tf_preempt_loop. Qed.

Lemma tf_roci_pop r st : thread_frame st (roci_pop_first_idle r st).1.
Proof. unfold roci_pop_first_idle. destruct (arr_list_pop_first _ _ _) as [[m l] v]. simpl. by teq. Qed.

Lemma tf_request_loop k i need r st ret : thread_frame st (roci_request_loop k i need r st ret).1.
Proof.
  revert i st ret. induction k as [|k IH]; intros i st ret; cbn [roci_request_loop]; [done|].
  zcase; [apply IH|]. pose proof (tf_roci_pop r st) as Hp.
  destruct (roci_pop_first_idle r st) as [st1 [v|]]; [|done]. cbn [fst] in Hp.
  etransitivity; [exact Hp|]. etransitivity; [|apply IH]. etransitivity; [|apply tf_preempt_cpu]. by teq.
Qed.

Lemma tf_roci_request r child n st : thread_frame st (roci_request_for_cpus r child n st).1.
Proof.
  unfold roci_request_for_cpus. zcase; [done|]. destruct (get_sched child); [|done].
  zcase; [done|apply tf_request_loop].
Qed.

Lemma tf_roci_returned r child c st : thread_frame st (__roci_cpu_returned r child c st).
Proof.
  unfold __roci_cpu_returned. destruct (preempt_pending _); [by teq|].
  zcase; destruct (arr_list_remove _ _ _) as [m l]; by teq.
Qed.

Lemma tf_roci_assign r c p st : thread_frame st (roci_assign r c p st).
Proof. unfold roci_assign. destruct p; destruct (arr_list_insert_head _ _ _) as [m l]; by teq. Qed.

Section frames.
Context `{FluxEnv}.

Lemma tf_cpu_op (f g h : flux_state → flux_state) s st :
  thread_frame st (f st) → thread_frame st (g st) → thread_frame st (h st) →
  thread_frame st (cpu_op f g h s st).
Proof. intros. unfold cpu_op. by repeat zcase. Qed.

Lemma tf_grant child c st : thread_frame st (flux_cpu_grant child c st).
Proof.
  unfold flux_cpu_grant. destruct (get_sched child); [|done]. rewrite cpu_op_allocated. by teq.
Qed.

Lemma tf_yield s c st : thread_frame st (flux_cpu_yield s c st).
Proof.
  unfold flux_cpu_yield. destruct (get_parent st s); [|done].
  etransitivity; [|apply tf_cpu_op; [apply tf_roci_returned|done|done]]. by teq.
Qed.

Lemma tf_preempted s prev c st : thread_frame st (flux_cpu_preempted s prev c st).
Proof.
  apply tf_cpu_op; [|done|done]. unfold roci_cpu_preempted. zcase; [done|].
  etransitivity; [apply tf_roci_returned|apply tf_roci_request].
Qed.

Lemma tf_completed s prev c st : thread_frame st (flux_cpu_preemption_completed s prev c st).
Proof.
  apply tf_cpu_op; [|done|done]. unfold roci_cpu_preemption_completed. zcase; [done|apply tf_roci_returned].
Qed.

Lemma tf_preempt_up_loop n c tier prev st : thread_frame st (preempt_up_loop n c tier prev st).1.
Proof.
  revert prev st. induction n as [|n IH]; intros prev st; cbn [preempt_up_loop]; [done|].
  zcase; [done|]. destruct (get_sched _) as [s|]; [|done].
  etransitivity; [|apply IH]. etransitivity; [|apply tf_upd_cpu].
  etransitivity; [|apply tf_preempted]. by teq.
Qed.

Lemma tf_preempt_up_to c tier st : thread_frame st (flux_preempt_up_to c tier st).
Proof.
  unfold flux_preempt_up_to. pose proof (tf_preempt_up_loop FLUX_MAX_NR_TIERS c tier FLUX_SCHED_NONE st) as Hl.
  destruct (preempt_up_loop _ _ _ _ _) as [st1 [prev|]]; [|done]. cbn [fst] in Hl.
  destruct (get_sched _); [|done]. etransitivity; [exact Hl|apply tf_completed].
Qed.

Lemma tf_tick_loop n c i prev st : thread_frame st (cpu_tick_loop n c i prev st).
Proof.
  revert i prev st. induction n as [|n IH]; intros i prev st; cbn [cpu_tick_loop]; [done|].
  zcase; [done|]. destruct (get_sched i) as [s|]; [|done]. etransitivity; [|apply IH].
  apply tf_cpu_op; [done| |done]. unfold biff_cpu_ticked. zcase; [done|].
  destruct (gtid_to_thread _ _); [|done]. cbn [bpf_ktime_get_us].
  zcase; [|by teq]. etransitivity; [|apply tf_preempt_cpu]. by teq.
Qed.

Lemma tf_task_started b t i at_us st : thread_frame st (__biff_task_started b t i at_us st).
Proof. unfold __biff_task_started. destruct (cpuid_to_cpu i); [|done]. by teq. Qed.

Lemma tf_task_stopped b t i at_us st : thread_frame st (__biff_task_stopped b t i at_us st).
Proof. unfold __biff_task_stopped. destruct (cpuid_to_cpu i); [|done]. by teq. Qed.

End frames.
