(* ===== verification/FluxThreadSteps.v ===== *)
(** * FluxThreadSteps: the message handlers refine the specification of biff *)

From stdpp Require Import base tactics numbers list functions gmap sets.
From Stdlib Require Import ZArith Lia.
From S2P Require Import Prelude Avl Queue QueueSpec FluxState RociFlux BiffFlux FluxApi.
From S2P Require Import FluxCpuInv FluxCpuSafe FluxThreads.

Local Open Scope Z_scope.

Section steps.
Context `{FluxEnv}.
Implicit Types (st : flux_state) (a : biff_spec).

(** ** Lemmas: the building blocks *)

Lemma alter_fun {A} (f : A → A) (m : Z → A) t x : alter f t m x = if bool_decide (x = t) then f (m x) else m x.
Proof.
  case_bool_decide as E; [subst; apply fn_lookup_alter|]. by apply fn_lookup_alter_ne.
Qed.

Lemma rf_find st a g : refines st a → gtid_to_thread st g = sw_find (a_sw a) g.
Proof. intros Hr. unfold gtid_to_thread. by rewrite (rf_sw _ _ Hr). Qed.

Lemma config_ext st st' : scheds st' = scheds st → config_ok st → config_ok st'.
Proof. intros E [C1 C2 C3 C4]. by split; rewrite E. Qed.

Lemma config_upd_sched s f st :
  (∀ x, s_id (f x) = s_id x ∧ s_type (f x) = s_type x ∧ roci (f x) = roci x) →
  config_ok st → config_ok (upd_sched s f st).
Proof.
  intros Hf [C1 C2 C3 C4].
  assert (∀ x, s_id (scheds (upd_sched s f st) x) = s_id (scheds st x)
    ∧ s_type (scheds (upd_sched s f st) x) = s_type (scheds st x)
    ∧ roci (scheds (upd_sched s f st) x) = roci (scheds st x)) as Hx.
  { intros x. simpl. rewrite alter_fun. case_bool_decide; [apply Hf|done]. }
  split.
  - intros x Hxr. rewrite (proj1 (Hx x)). auto.
  - intros x Hxr. rewrite (proj1 (proj2 (Hx x))). auto.
  - by rewrite (proj2 (proj2 (Hx _))).
  - by rewrite (proj2 (proj2 (Hx _))).
Qed.

Lemma rf_alter t f k st a :
  refines st a → (∀ x, thread_core (f x) = k (thread_core x) ∧ link (f x) = link x) →
  refines (upd_thread t f st) (a_alter t k a).
Proof.
  intros [Hc Hs Ht Hr Hw Hl] Hf. split; try done.
  - by apply (config_ext st).
  - intros x. simpl. rewrite !alter_fun. case_bool_decide; [|done].
    rewrite (proj1 (Hf _)). by rewrite Ht.
  - eapply list_abs_entries; [|exact Hr]. intros i _. simpl. rewrite alter_fun.
    case_bool_decide; [apply Hf|done].
Qed.

Ltac ra := apply rf_alter; [|done].

Lemma links_core (m m' : Z → flux_thread) W t :
  links_only m m' W → thread_core (m' t) = thread_core (m t).
Proof. intros [_ Hl]. destruct (Hl t) as [v ->]. done. Qed.

(** The queue after a list operation. *)
Lemma rf_relink st a m l W L :
  refines st a → links_only (threads st) m W → list_abs FLUX_MAX_GTIDS m l L →
  refines (upd_sched FLUX_SCHED_BIFF (set_biff_rq l) (set_threads m st)) (a_set_rq L a).
Proof.
  intros [Hc Hs Ht Hr Hw Hl] Hlinks HL. split; try done.
  - apply config_upd_sched; [done|]. by apply (config_ext st).
  - intros x. simpl. by rewrite (links_core _ _ _ _ Hlinks).
Qed.

Lemma rf_enqueue t st a :
  refines st a → in_arr FLUX_MAX_GTIDS t → t ∉ a_rq a →
  refines (__biff_enqueue_task FLUX_SCHED_BIFF t st) (a_enqueue t a).
Proof.
  intros Hr Ht Hn. unfold __biff_enqueue_task.
  assert (refines (upd_thread t (set_times_up false) st) a) as Hr1 by (by tframe).
  pose proof (insert_tail_ok FLUX_MAX_GTIDS _ _ _ t (rf_rq _ _ Hr1) Ht Hn) as Hins.
  destruct (arr_list_insert_tail _ _ _) as [m l]. destruct Hins as [HL Hlinks].
  unfold a_enqueue. ra. eapply rf_relink; [exact Hr1|exact Hlinks|exact HL].
Qed.

Lemma rf_runnable t now st a :
  refines st a → in_arr FLUX_MAX_GTIDS t → t ∉ a_rq a →
  refines (__biff_task_runnable FLUX_SCHED_BIFF t now st) (a_enqueue t a).
Proof. intros Hr Ht Hn. apply rf_enqueue; [by tframe|done|done]. Qed.

Lemma filter_ne (l : list Z) t : t ∉ l → filter (λ x, x ≠ t) l = l.
Proof.
  induction l as [|x l IH]; [done|]. intros [Hx Hl]%not_elem_of_cons.
  rewrite filter_cons_True by done. by rewrite IH.
Qed.

Lemma filter_ne_pivot (A B : list Z) t : NoDup (A ++ t :: B) → filter (λ x, x ≠ t) (A ++ t :: B) = A ++ B.
Proof.
  intros Hnd. nodup. rewrite filter_app, filter_cons_False by (intros Hne; by apply Hne).
  by rewrite !filter_ne by sep.
Qed.

Lemma rf_dequeue t st a :
  refines st a → (k_enqueued (a_thr a t) = true → t ∈ a_rq a) →
  refines (__biff_dequeue_task FLUX_SCHED_BIFF t st) (a_dequeue t a).
Proof.
  intros Hr Hq. unfold __biff_dequeue_task, a_dequeue.
  assert (enqueued (threads st t) = k_enqueued (a_thr a t)) as -> by (by rewrite <- (rf_thr _ _ Hr)).
  destruct (k_enqueued _); [|done]. specialize (Hq eq_refl).
  apply list_elem_of_split in Hq as (A & B & E). pose proof (rf_rq _ _ Hr) as HL. rewrite E in HL.
  pose proof (remove_ok FLUX_MAX_GTIDS _ _ A t B HL) as Hrem.
  destruct (arr_list_remove _ _ _) as [m l]. destruct Hrem as (HL' & Hlinks & _).
  ra. rewrite E, filter_ne_pivot by apply HL. by eapply rf_relink.
Qed.

Lemma rf_want n st a :
  refines st a → refines (flux_request_cpus FLUX_SCHED_BIFF n st).1 (a_want n a).
Proof.
  intros Hr. unfold flux_request_cpus. pose proof (rf_config _ _ Hr) as Hcfg.
  assert (get_parent st FLUX_SCHED_BIFF = Some FLUX_SCHED_ROCI) as ->
    by (unfold get_parent, get_parent_id; by rewrite (cfg_id _ Hcfg)).
  set (st1 := upd_sched _ _ st).
  assert (refines st1 (a_want n a)) as Hr1.
  { destruct Hr as [Hc Hs Ht Hrq Hw Hl]. split; try done.
    - by apply config_upd_sched.
    - unfold st1. rewrite scheds_upd_sched. simpl. by rewrite Hw. }
  unfold flux_request_for_cpus. rewrite (cfg_type _ (rf_config _ _ Hr1)) by done.
  cbn [Z.eqb FLUX_SCHED_ROCI FLUX_SCHED_TYPE_ROCI Pos.eqb].
  pose proof (tf_roci_request FLUX_SCHED_ROCI (s_id (scheds st1 FLUX_SCHED_BIFF)) n st1) as Hf.
  destruct (roci_request_for_cpus _ _ _ _) as [st2 ret]. eapply refines_proper; [exact Hf|done|done].
Qed.

Lemma rf_decref t st a : refines st a → refines (flux_thread_decref t st) (a_decref t a).
Proof.
  intros Hr. unfold flux_thread_decref, a_decref.
  assert (refines (upd_thread t (λ x, set_refcnt (u64 (refcnt x - 1)) x) st)
    (a_alter t (λ k, k_set_refcnt (u64 (k_refcnt k - 1)) k) a)) as Hr1 by (by ra).
  revert Hr1. generalize (upd_thread t (λ x, set_refcnt (u64 (refcnt x - 1)) x) st).
  generalize (a_alter t (λ k, k_set_refcnt (u64 (k_refcnt k - 1)) k) a). clear. intros a st Hr.
  assert (refcnt (threads st t) = k_refcnt (a_thr a t) ∧ gtid (threads st t) = k_gtid (a_thr a t)) as [-> ->]
    by (by rewrite <- (rf_thr _ _ Hr)).
  zcase; [|done]. destruct Hr as [Hc Hs Ht Hrq Hw Hl]. split; try done.
  - by apply (config_ext st).
  - simpl. by rewrite Hs.
Qed.

Lemma rf_op t seq op st a :
  refines st a → k_sched (a_thr a t) = FLUX_SCHED_BIFF →
  thread_op_thr t seq op st = Some (upd_thread t (set_seqnum seq) (op FLUX_SCHED_BIFF t st)).
Proof.
  intros Hr Hk. unfold thread_op_thr.
  assert (t_sched (threads st t) = FLUX_SCHED_BIFF) as -> by (by rewrite <- (rf_thr _ _ Hr) in Hk).
  rewrite get_sched_valid by done. by rewrite (cfg_type _ (rf_config _ _ Hr)).
Qed.

(** ** Lemmas: one message *)

Lemma find_arr sw g t : sw_find sw g = Some t → t ≤ FLUX_MAX_GTIDS.
Proof.
  unfold sw_find. zcase; [done|]. destruct (sw !! g); [|done]. zcase; [|done].
  intros [= <-]. lia.
Qed.

(** What a message may ask of the specification's state. *)
Record msg_ok (p : msg_payload) (t : Z) (a : biff_spec) : Prop := {
  mo_arr : in_arr FLUX_MAX_GTIDS t;
  mo_sched : k_sched (a_thr a t) = FLUX_SCHED_BIFF;
  mo_queue : k_enqueued (a_thr a t) = bool_decide (t ∈ a_rq a);
  mo_fresh : match p with
             | MSG_TASK_WAKEUP _ _ _ | MSG_TASK_PREEMPT _ _ _ _ | MSG_TASK_YIELD _ _ _ => t ∉ a_rq a
             | MSG_TASK_LATCH_FAILURE _ _ => k_pending (a_thr a t) = true → t ∉ a_rq a
             | _ => True
             end;
}.

Ltac start Hr Hm E := unfold thread_op; rewrite (rf_find _ _ _ Hr), E; cbn;
  rewrite (rf_op _ _ _ _ _ Hr (mo_sched _ _ _ Hm)).

Lemma rf_departed t seq g c fs w st a :
  refines st a → msg_ok (MSG_TASK_DEPARTED g c fs w) t a → sw_find (a_sw a) g = Some t →
  refines (handle_departed seq g c w st) (a_departed t a).
Proof.
  intros Hr Hm E. unfold handle_departed. start Hr Hm E.
  unfold a_departed. apply rf_decref. ra. tframe. unfold biff_thread_departed.
  set (st1 := if w then _ else st).
  assert (refines st1 a) as Hr1.
  { unfold st1. destruct w; [|done]. cbn [bpf_ktime_get_us].
    eapply refines_proper; [apply tf_task_stopped|done|]. by tframe. }
  assert (refines (__biff_dequeue_task FLUX_SCHED_BIFF t st1) (a_dequeue t a)) as Hr2.
  { apply rf_dequeue; [done|]. rewrite (mo_queue _ _ _ Hm). by intros ?%bool_decide_eq_true. }
  assert (on_rq (threads (__biff_dequeue_task FLUX_SCHED_BIFF t st1) t)
          = k_on_rq (a_thr (a_dequeue t a) t)) as -> by (by rewrite <- (rf_thr _ _ Hr2)).
  destruct (k_on_rq _); [by apply rf_want|done].
Qed.

Lemma rf_latch_failure t seq g e st a :
  refines st a → msg_ok (MSG_TASK_LATCH_FAILURE g e) t a → sw_find (a_sw a) g = Some t →
  refines (handle_latch_failure seq g st) (a_thread_msg (MSG_TASK_LATCH_FAILURE g e) t a).
Proof.
  intros Hr Hm E. unfold handle_latch_failure, a_thread_msg. rewrite (rf_find _ _ _ Hr), E.
  assert (pending_latch (threads st t) = k_pending (a_thr a t)) as -> by (by rewrite <- (rf_thr _ _ Hr)).
  destruct (k_pending _) eqn:Ep; cbn [negb]; [|by tframe].
  assert (refines (upd_thread t (set_pending_latch false) st) (a_alter t (k_set_pending false) a)) as Hr1 by (by ra).
  rewrite (rf_op _ _ _ _ _ Hr1).
  2: { simpl. rewrite alter_fun, bool_decide_true by done. apply Hm. }
  tframe. unfold biff_thread_runnable. simpl.
  apply rf_runnable; [by tframe|apply Hm|]. by apply (mo_fresh _ _ _ Hm).
Qed.

Lemma rf_stop_run t c now st a :
  refines st a → in_arr FLUX_MAX_GTIDS t → t ∉ a_rq a →
  refines (__biff_task_runnable FLUX_SCHED_BIFF t now (__biff_task_stopped FLUX_SCHED_BIFF t c now st))
    (a_enqueue t a).
Proof.
  intros Hr Ht Hn. apply rf_runnable; [|done|done].
  eapply refines_proper; [apply tf_task_stopped|done|done].
Qed.

Ltac ops := unfold biff_thread_on_cpu, biff_thread_blocked, biff_thread_wakeup, biff_thread_preempted,
  biff_thread_yielded, biff_thread_switchto, biff_thread_affinity_changed, biff_thread_prio_changed,
  biff_thread_dead; cbn [bpf_ktime_get_us].

(** A message about a known task. *)
Lemma rf_thread_msg seq p g t st a :
  refines st a → msg_gtid p = Some g → sw_find (a_sw a) g = Some t → msg_ok p t a →
  refines (flux_msg_send (mk_msg seq p) st) (a_thread_msg p t a).
Proof.
  intros Hr Hg E Hm. unfold flux_msg_send. cbn [msg_seqnum payload].
  destruct p; simplify_eq/=.
  - unfold handle_on_cpu. start Hr Hm E. tframe. ops. tframe.
    eapply refines_proper; [apply tf_task_started|done|]. by tframe.
  - unfold handle_blocked. start Hr Hm E. ra. tframe. ops. apply rf_want.
    eapply refines_proper; [apply tf_task_stopped|done|]. by tframe.
  - unfold handle_wakeup. start Hr Hm E. ra. tframe. ops. apply rf_want.
    apply rf_runnable; [by tframe|apply Hm|apply (mo_fresh _ _ _ Hm)].
  - unfold handle_preempt. start Hr Hm E.
    assert (refines (biff_thread_preempted cpu was_latched FLUX_SCHED_BIFF t st) (a_enqueue t a)) as Hr1.
    { ops. destruct was_latched; [apply rf_runnable|apply rf_stop_run];
        [by tframe|apply Hm|apply (mo_fresh _ _ _ Hm)|by tframe|apply Hm|apply (mo_fresh _ _ _ Hm)]. }
    destruct from_switchto; tframe; [ra; by tframe|done].
  - unfold handle_yield. start Hr Hm E.
    assert (refines (biff_thread_yielded cpu FLUX_SCHED_BIFF t st) (a_enqueue t a)) as Hr1.
    { ops. apply rf_stop_run; [by tframe|apply Hm|apply (mo_fresh _ _ _ Hm)]. }
    destruct from_switchto; tframe; [ra; by tframe|done].
  - unfold handle_switchto. start Hr Hm E. ra. tframe. ops. by tframe.
  - unfold handle_affinity_changed. start Hr Hm E. tframe. by ops.
  - unfold handle_prio_changed. rewrite (rf_find _ _ _ Hr), E.
    rewrite (rf_op _ _ _ _ a); [tframe; ops; by tframe|by tframe|apply Hm].
  - by eapply (rf_latch_failure _ _ _ errno).
  - unfold handle_dead. start Hr Hm E. apply rf_decref. ra. by tframe.
  - by eapply rf_departed.
Qed.

(** An unknown task: the handlers return. *)
Lemma rf_unknown seq p g st :
  msg_gtid p = Some g → gtid_to_thread st g = None → flux_msg_send (mk_msg seq p) st = st.
Proof.
  intros Hg E. unfold flux_msg_send. cbn [msg_seqnum payload].
  destruct p; simplify_eq/=;
    unfold handle_on_cpu, handle_blocked, handle_wakeup, handle_preempt, handle_yield, handle_switchto,
      handle_affinity_changed, handle_prio_changed, handle_latch_failure, handle_dead, handle_departed,
      thread_op; by rewrite E.
Qed.

(** A new task, whose status word no known task uses. *)
Lemma rf_new seq g r n i x st a :
  refines st a →
  (∀ t, sw_find (<[g := mk_swi (u32 i) (u32 x)]> (a_sw a)) g = Some t →
        a_sw a !! g = None → in_arr FLUX_MAX_GTIDS t ∧ t ∉ a_rq a) →
  refines (flux_msg_send (mk_msg seq (MSG_TASK_NEW g r n i x)) st)
    (a_new g r (mk_swi (u32 i) (u32 x)) a).
Proof.
  intros Hr Ht. unfold flux_msg_send. cbn [msg_seqnum payload]. unfold handle_new, a_new, sw_lookup_insert.
  rewrite (rf_sw _ _ Hr). destruct (a_sw a !! g) eqn:Eg; [done|]. zcase; [done|].
  set (sw := <[g := mk_swi (u32 i) (u32 x)]> (a_sw a)) in *.
  assert (refines (set_sw_lookup sw st) (a_set_sw sw a)) as Hr1.
  { destruct Hr as [Hc Hs Hth Hrq Hw Hl]. split; try done. by apply (config_ext st). }
  rewrite (rf_find _ _ _ Hr1). cbn [a_set_sw a_sw]. destruct (sw_find sw g) as [t|] eqn:E; [|done].
  destruct (Ht t eq_refl eq_refl) as [Harr Hn]. unfold flux_join_scheduler.
  match goal with |- context [thread_op_thr t _ biff_thread_new ?e] => set (st2 := e) end.
  set (k0 := mk_core g 1 FLUX_SCHED_BIFF r (enqueued (threads st t)) false).
  assert (refines st2 (a_alter t (λ _, k0) (a_set_sw sw a))) as Hr2.
  { destruct Hr1 as [Hc Hs Hth Hrq Hw Hl]. split; try done.
    - by eapply config_ext; [|exact Hc].
    - intros y. unfold st2. simpl. rewrite !alter_fun. case_bool_decide; [by subst|apply Hth].
    - eapply list_abs_entries; [|exact Hrq]. intros y _. unfold st2. simpl. rewrite !alter_fun.
      by case_bool_decide. }
  clearbody st2. rewrite (rf_op _ _ _ _ _ Hr2) by (simpl; by rewrite alter_fun, bool_decide_true).
  unfold biff_thread_new. cbn [bpf_ktime_get_us].
  match goal with |- context [on_rq (threads ?e t)] => set (st3 := e) end.
  set (a3 := a_alter t (λ _, mk_core g 1 FLUX_SCHED_BIFF r false false) (a_set_sw sw a)).
  assert (refines st3 a3) as Hr3.
  { destruct Hr2 as [Hc Hs Hth Hrq Hw Hl]. split; try done.
    - by eapply config_ext; [|exact Hc].
    - intros y. unfold st3. simpl. rewrite alter_fun. case_bool_decide as E2.
      + subst y. specialize (Hth t). simpl in Hth. rewrite alter_fun, bool_decide_true in Hth by done.
        simpl. rewrite !alter_fun, bool_decide_true by done. injection Hth as E1 E2 E3 E4 _ E6. unfold thread_core. simpl. congruence.
      + rewrite Hth. simpl. by rewrite !alter_fun, !bool_decide_false.
    - eapply list_abs_entries; [|exact Hrq]. intros y _. unfold st3. simpl. rewrite !alter_fun.
      by case_bool_decide. }
  assert (on_rq (threads st3 t) = r) as ->.
  { transitivity (k_on_rq (thread_core (threads st3 t))); [done|]. rewrite (rf_thr _ _ Hr3).
    simpl. by rewrite alter_fun, bool_decide_true. }
  destruct r; [|by tframe].
  assert (∀ s, refines (upd_thread t (set_seqnum s) (flux_request_cpus FLUX_SCHED_BIFF 1 st3).1) (a_want 1 a3))
    as Hr4 by (intros s; tframe; by apply rf_want).
  rewrite (rf_op _ _ _ _ _ (Hr4 _)) by (simpl; by rewrite alter_fun, bool_decide_true).
  tframe. unfold biff_thread_runnable. cbn [bpf_ktime_get_us].
  apply rf_runnable; [tframe; by apply rf_want|done|done].
Qed.

(** Every other message is invisible. *)
Lemma rf_other seq p st a :
  refines st a → msg_gtid p = None → (∀ g r n i x, p ≠ MSG_TASK_NEW g r n i x) →
  refines (flux_msg_send (mk_msg seq p) st) a.
Proof.
  intros Hr Hg Hn. unfold flux_msg_send. cbn [msg_seqnum payload]. destruct p; simplify_eq/=; try done.
  - exfalso. by eapply Hn.
  - unfold handle_cpu_tick. destruct (cpuid_to_cpu cpu); [|done].
    eapply refines_proper; [apply tf_tick_loop|done|done].
  - unfold handle_cpu_available. destruct (cpuid_to_cpu cpu); [by tframe|done].
  - unfold handle_cpu_busy. destruct (cpuid_to_cpu cpu); [|done].
    eapply refines_proper; [apply tf_preempt_up_to|done|]. by tframe.
Qed.

End steps.
