(* ===== verification/FluxThreadSafe.v ===== *)
(** * FluxThreadSafe: the kernel's tasks and biff's records agree

    The kernel moves a task between a few states and tells Flux with a message;
    PNT moves a queued task to running.  [tasks_inv] relates the kernel's view
    to [biff_spec]; every step of the two together keeps it.

    No task is lost, with every message and PNT.

    PNT keeps the kernel's tasks and biff's records in step. *)

From S2P Require Import Prelude Avl Queue QueueSpec FluxState RociFlux BiffFlux FluxApi FluxCpuInv FluxCpuSafe FluxThreads.
From S2P Require Import FluxThreadSteps.
From stdpp Require Import base tactics numbers list functions gmap sets.
From Stdlib Require Import ZArith Lia.

Local Open Scope Z_scope.

(** ** The kernel's tasks *)

(** [TPicked] is a task that PNT took off the queue and is about to latch;
    [TSwitched] is running because another task switched to it, which Flux is
    not told. *)
Inductive task_state := TBlocked | TQueued | TPicked | TRunning | TSwitched.

#[export] Instance task_state_eq_dec : EqDecision task_state.
Proof. solve_decision. Defined.

(** A task's state and the index of its status word, by gtid. *)
Abbreviation tasks := (gmap Z (task_state * Z)).

Definition task_on_rq (k : task_state) : bool :=
  match k with TQueued | TPicked | TRunning => true | TBlocked | TSwitched => false end.

(** Whether the task wants a cpu. *)
Definition wants (k : task_state) : Z := match k with TBlocked => 0 | _ => 1 end.

Definition nr_wanting (K : tasks) : Z := map_fold (λ _ p n, wants p.1 + n) 0 K.

(** The message the kernel sends when it changes the tasks from [K] to [K']. *)
Inductive kernel_msg (K : tasks) : msg_payload → tasks → Prop :=
  | km_new g r n i x :
      K !! g = None → g ≠ 0 → 0 ≤ x < FLUX_MAX_GTIDS → Z.of_nat (size K) < FLUX_MAX_GTIDS →
      (∀ g' k, K !! g' ≠ Some (k, x)) →
      kernel_msg K (MSG_TASK_NEW g r n i x) (<[g := (if r : bool then TQueued else TBlocked, x)]> K)
  | km_renew g r n i x p : K !! g = Some p → kernel_msg K (MSG_TASK_NEW g r n i x) K
  | km_unknown p g : msg_gtid p = Some g → K !! g = None → kernel_msg K p K
  | km_on_cpu g c : kernel_msg K (MSG_TASK_ON_CPU g c) K
  | km_blocked g c fs k x :
      K !! g = Some (k, x) → k = TRunning ∨ k = TSwitched →
      kernel_msg K (MSG_TASK_BLOCKED g c fs) (<[g := (TBlocked, x)]> K)
  | km_wakeup g d w x :
      K !! g = Some (TBlocked, x) → kernel_msg K (MSG_TASK_WAKEUP g d w) (<[g := (TQueued, x)]> K)
  | km_preempt g c fs wl k x :
      K !! g = Some (k, x) → k = TRunning ∨ k = TSwitched ∧ fs = true →
      kernel_msg K (MSG_TASK_PREEMPT g c fs wl) (<[g := (TQueued, x)]> K)
  | km_yield g c fs k x :
      K !! g = Some (k, x) → k = TRunning ∨ k = TSwitched ∧ fs = true →
      kernel_msg K (MSG_TASK_YIELD g c fs) (<[g := (TQueued, x)]> K)
  | km_switchto g c x g' x' :
      K !! g = Some (TRunning, x) → K !! g' = Some (TBlocked, x') →
      kernel_msg K (MSG_TASK_SWITCHTO g c) (<[g' := (TSwitched, x')]> (<[g := (TBlocked, x)]> K))
  | km_affinity g : kernel_msg K (MSG_TASK_AFFINITY_CHANGED g) K
  | km_prio g n : kernel_msg K (MSG_TASK_PRIORITY_CHANGED g n) K
  | km_latch_failure g e : kernel_msg K (MSG_TASK_LATCH_FAILURE g e) K
  | km_dead g c x : K !! g = Some (TBlocked, x) → kernel_msg K (MSG_TASK_DEAD g c) (delete g K)
  | km_departed g c fs wc k x :
      K !! g = Some (k, x) → kernel_msg K (MSG_TASK_DEPARTED g c fs wc) (delete g K)
  | km_tick c : kernel_msg K (MSG_CPU_TICK c) K
  | km_available c : kernel_msg K (MSG_CPU_AVAILABLE c) K
  | km_busy c : kernel_msg K (MSG_CPU_BUSY c) K
  | km_other ty : kernel_msg K (MSG_OTHER ty) K.

(** The message says that a task departs that runs because another switched to
    it: biff then keeps wanting a cpu for it. *)
Definition leaks (K : tasks) (p : msg_payload) : Z :=
  match p with
  | MSG_TASK_DEPARTED g _ _ _ => match K !! g with Some (TSwitched, _) => 1 | _ => 0 end
  | _ => 0
  end.

(** The tasks that were latched run. *)
Definition task_run (g : Z) (K : tasks) : tasks := alter (λ p, (TRunning, p.2)) g K.

Section sys.
Context `{FluxEnv}.

(** The kernel and Flux together, and how many cpus too many biff wants after
    the step.  Inside a chain of switches the kernel changes the running task
    silently. *)
Inductive sys_step : tasks * flux_state → Z → tasks * flux_state → Prop :=
  | sys_msg K K' st seq p :
      kernel_msg K p K' → sys_step (K, st) (leaks K p) (K', flux_msg_send (mk_msg seq p) st)
  | sys_pnt K st this_cpu ctx l :
      latched (flux_pnt this_cpu st ctx).1 = l ++ latched st →
      sys_step (K, st) 0 (foldr task_run K l, (flux_pnt this_cpu st ctx).1)
  | sys_chain K st g x g' x' :
      K !! g = Some (TSwitched, x) → K !! g' = Some (TBlocked, x') →
      sys_step (K, st) 0 (<[g' := (TSwitched, x')]> (<[g := (TBlocked, x)]> K), st)
  | sys_init K st : sys_step (K, st) 0 (K, set_user_initialized true st).

(** [d]: how many tasks departed while they ran because of a switch. *)
Inductive sys_reachable (s0 : tasks * flux_state) : Z → tasks * flux_state → Prop :=
  | sys_start : sys_reachable s0 0 s0
  | sys_next d e s s' : sys_reachable s0 d s → sys_step s e s' → sys_reachable s0 (d + e) s'.

(** The contract of bpf_ghost_run_gtid: it latches the thread and reports
    success, or fails after handing the thread back with a LATCH_FAILURE. *)
Definition latch_contract : Prop :=
  ∀ n g seq, match run_gtid n g seq with
             | (err, None) => err = 0
             | (err, Some msg) => err ≠ 0 ∧ ∃ e, payload msg = MSG_TASK_LATCH_FAILURE g e
             end.

End sys.

(** ** The invariant *)

(** What biff records about a task; [h] is the task PNT holds a reference to. *)
Definition task_core (h : option Z) (g : Z) (k : task_state) : core :=
  mk_core g (if bool_decide (h = Some g) then 2 else 1) FLUX_SCHED_BIFF (task_on_rq k)
    (bool_decide (k = TQueued)) (bool_decide (k = TPicked)).

Record tasks_inv (d : Z) (K : tasks) (h : option Z) (a : biff_spec) : Prop := {
  ti_dom : ∀ g, a_sw a !! g = None ↔ K !! g = None;
  ti_size : Z.of_nat (size K) ≤ FLUX_MAX_GTIDS;
  ti_task : ∀ g k x, K !! g = Some (k, x) →
    sw_find (a_sw a) g = Some (x + 1) ∧ 0 ≤ x < FLUX_MAX_GTIDS ∧ a_thr a (x + 1) = task_core h g k;
  ti_rq : ∀ t, t ∈ a_rq a ↔ ∃ g x, K !! g = Some (TQueued, x) ∧ t = x + 1;
  ti_wanted : a_wanted a = s64 (nr_wanting K + d);
  ti_picked : ∀ g x, K !! g = Some (TPicked, x) → h = Some g;
}.

#[global] Arguments ti_dom {d K h a} _ _.
#[global] Arguments ti_size {d K h a} _.
#[global] Arguments ti_task {d K h a} _ _ _ _ _.
#[global] Arguments ti_rq {d K h a} _ _.
#[global] Arguments ti_wanted {d K h a} _.
#[global] Arguments ti_picked {d K h a} _ _ _ _.

Definition sys_inv (d : Z) (K : tasks) (h : option Z) (st : flux_state) : Prop :=
  ∃ a, refines st a ∧ tasks_inv d K h a.

(** ** Lemmas: counting *)

Lemma wants_range k : 0 ≤ wants k ≤ 1.
Proof. destruct k; simpl; lia. Qed.

Lemma nr_wanting_insert K g k x :
  K !! g = None → nr_wanting (<[g := (k, x)]> K) = wants k + nr_wanting K.
Proof.
  intros Hg. unfold nr_wanting. rewrite map_fold_insert_L; [done| |done]. intros. simpl. lia.
Qed.

Lemma nr_wanting_delete K g k x :
  K !! g = Some (k, x) → nr_wanting K = wants k + nr_wanting (delete g K).
Proof.
  intros Hg. rewrite <- (insert_delete_id K g (k, x)) at 1 by done.
  by rewrite nr_wanting_insert by apply lookup_delete_eq.
Qed.

Lemma nr_wanting_update K g k x k' x' :
  K !! g = Some (k, x) → nr_wanting (<[g := (k', x')]> K) = nr_wanting K + wants k' - wants k.
Proof.
  intros Hg. rewrite (nr_wanting_delete K g k x Hg), <- insert_delete_eq.
  rewrite nr_wanting_insert by apply lookup_delete_eq. lia.
Qed.

Lemma nr_wanting_range K : 0 ≤ nr_wanting K ≤ Z.of_nat (size K).
Proof.
  induction K as [|g [k x] K Hg IH] using map_ind; [done|].
  rewrite nr_wanting_insert, map_size_insert_None by done. pose proof (wants_range k). lia.
Qed.

(** ** Lemmas: a change of one task *)

Section update.
Context {d : Z}.

Lemma ti_inj K h a g k x g' k' :
  tasks_inv d K h a → K !! g = Some (k, x) → K !! g' = Some (k', x) → g = g'.
Proof.
  intros Hi E E'. destruct (ti_task Hi g k x E) as (_ & _ & E1).
  destruct (ti_task Hi g' k' x E') as (_ & _ & E2). rewrite E1 in E2. by injection E2.
Qed.

(** The counter wraps around. *)
Lemma wanted_add K h a e : tasks_inv d K h a → s64 (a_wanted a + e) = s64 (nr_wanting K + d + e).
Proof. intros Hi. by rewrite (ti_wanted Hi), s64_add. Qed.

Lemma wanted_same K h a : tasks_inv d K h a → s64 (a_wanted a + 0) = a_wanted a.
Proof. intros Hi. by rewrite (wanted_add _ _ _ _ Hi), Z.add_0_r, (ti_wanted Hi). Qed.

(** [g]'s task goes from [k] to [k']. *)
Lemma ti_update K h h' a a' g k k' x :
  tasks_inv d K h a → K !! g = Some (k, x) → a_sw a' = a_sw a →
  (∀ g', g' ≠ g → h' = Some g' ↔ h = Some g') →
  (∀ t, a_thr a' t = if bool_decide (t = x + 1) then task_core h' g k' else a_thr a t) →
  (∀ t, t ∈ a_rq a' ↔ if bool_decide (t = x + 1) then k' = TQueued else t ∈ a_rq a) →
  a_wanted a' = s64 (a_wanted a + (wants k' - wants k)) →
  (k' = TPicked → h' = Some g) →
  tasks_inv d (<[g := (k', x)]> K) h' a'.
Proof.
  intros Hi Hg Es Hh Ht Hq Hw Hp. pose proof Hi as [Hdom Hsz Htask Hrq Hwant Hpick]. split.
  - intros g'. rewrite Es, Hdom, lookup_insert_None. split; [|naive_solver].
    intros E. split; [done|]. intros <-. by rewrite E in Hg.
  - by rewrite map_size_insert_Some.
  - intros g' k1 x1 [[<- E]|[Hne E]]%lookup_insert_Some; rewrite Es.
    + injection E as <- <-. destruct (Htask g k x Hg) as (E1 & Hx & _). split_and!; try (done || lia).
      by rewrite Ht, bool_decide_true.
    + destruct (Htask g' k1 x1 E) as (E1 & Hx & E2). split_and!; try (done || lia).
      rewrite Ht, bool_decide_false, E2.
      * unfold task_core. by rewrite (bool_decide_ext _ _ (Hh g' (not_eq_sym Hne))).
      * intros Ex. assert (x1 = x) as -> by lia. apply Hne. by eapply ti_inj.
  - intros t. rewrite Hq. case_bool_decide as E; [subst t|rewrite Hrq].
    + split; [intros ->; exists g, x; by rewrite lookup_insert_eq|].
      intros (g' & x' & [[<- E]|[Hne E]]%lookup_insert_Some & Ex); [by injection E|].
      assert (x' = x) as -> by lia. destruct Hne. by eapply ti_inj.
    + split; intros (g' & x' & E' & ->).
      * exists g', x'. split; [|done]. rewrite lookup_insert_ne; [done|].
        intros ->. rewrite E' in Hg. by injection Hg as _ ->.
      * apply lookup_insert_Some in E' as [[-> E']|[Hne E']]; [by injection E' as _ ->|eauto].
  - rewrite Hw, (wanted_add _ _ _ _ Hi), (nr_wanting_update K g k x) by done. f_equal. lia.
  - intros g' x' [[<- E]|[Hne E]]%lookup_insert_Some; [injection E as -> _; auto|].
    apply Hh; [done|]. by eapply Hpick.
Qed.

(** [g]'s task leaves; biff goes on wanting [e] cpus for it. *)
Lemma ti_delete K h a a' g k x e :
  tasks_inv d K h a → K !! g = Some (k, x) → a_sw a' = delete g (a_sw a) →
  (∀ t, t ≠ x + 1 → a_thr a' t = a_thr a t) →
  (∀ t, t ∈ a_rq a' ↔ t ≠ x + 1 ∧ t ∈ a_rq a) →
  a_wanted a' = s64 (a_wanted a + (e - wants k)) →
  tasks_inv (d + e) (delete g K) h a'.
Proof.
  intros Hi Hg Es Ht Hq Hw. pose proof Hi as [Hdom Hsz Htask Hrq Hwant Hpick].
  assert (∀ g' p, delete g K !! g' = Some p → g' ≠ g ∧ K !! g' = Some p ∧ p.2 ≠ x) as Hother.
  { intros g' [k1 x1] [Hne E]%lookup_delete_Some. split_and!; [done|done|]. simpl. intros ->.
    apply Hne. by eapply ti_inj. }
  split.
  - intros g'. rewrite Es, !lookup_delete_None. rewrite Hdom. done.
  - rewrite map_size_delete_Some by done. lia.
  - intros g' k1 x1 E. destruct (Hother _ _ E) as (Hne & E' & Hx). simpl in Hx.
    destruct (Htask g' k1 x1 E') as (E1 & Hxr & E2). split_and!; try (done || lia).
    + unfold sw_find in *. by rewrite Es, lookup_delete_ne.
    + by rewrite Ht by lia.
  - intros t. rewrite Hq, Hrq. split.
    + intros (Hne & g' & x' & E & ->). exists g', x'. split; [|done]. rewrite lookup_delete_ne; [done|].
      intros ->. rewrite E in Hg. by injection Hg as _ ->.
    + intros (g' & x' & E & ->). destruct (Hother _ _ E) as (Hne & E' & Hx). simpl in Hx.
      split; [lia|eauto].
  - rewrite Hw, (wanted_add _ _ _ _ Hi), (nr_wanting_delete K g k x) by done. f_equal. lia.
  - intros g' x' E. destruct (Hother _ _ E) as (_ & E' & _). by eapply Hpick.
Qed.

End update.

(** ** No task is lost, with every message and PNT *)

Section safe.
Context `{FluxEnv} {d : Z}.
Implicit Types (K : tasks) (st : flux_state) (a : biff_spec).

(** ** Lemmas: one message *)

Lemma ti_queued K h a g k x :
  tasks_inv d K h a → K !! g = Some (k, x) → (x + 1 ∈ a_rq a ↔ k = TQueued).
Proof.
  intros Hi Hg. rewrite (ti_rq Hi). split.
  - intros (g' & x' & E & Ex). assert (x' = x) as -> by lia.
    assert (g' = g) as -> by (by eapply ti_inj). rewrite E in Hg. by injection Hg.
  - intros ->. eauto.
Qed.

Lemma ti_unknown K h a g : tasks_inv d K h a → K !! g = None → sw_find (a_sw a) g = None.
Proof.
  intros Hi Hg. unfold sw_find. zcase; [done|]. by rewrite (proj2 (ti_dom Hi g) Hg).
Qed.

Lemma ti_msg_ok K h a g k x p :
  tasks_inv d K h a → K !! g = Some (k, x) →
  match p with
  | MSG_TASK_WAKEUP _ _ _ | MSG_TASK_PREEMPT _ _ _ _ | MSG_TASK_YIELD _ _ _ => k ≠ TQueued
  | _ => True
  end → msg_ok p (x + 1) a.
Proof.
  intros Hi Hg Hp. destruct (ti_task Hi g k x Hg) as (_ & Hx & E).
  pose proof (ti_queued _ _ _ _ _ _ Hi Hg) as Hq. split.
  - unfold in_arr. lia.
  - by rewrite E.
  - rewrite E. simpl. apply bool_decide_ext. by rewrite Hq.
  - destruct p; try done; rewrite Hq; try done.
    rewrite E. by intros ->%bool_decide_eq_true.
Qed.

(** What the steps below ask of the specification's new state. *)
Ltac upd Hi Hg := eapply (ti_update _ _ _ _ _ _ _ _ _ Hi Hg); [done|done| | | |done];
  [intros t; simpl; rewrite ?alter_fun; case_bool_decide; [subst t|done];
     rewrite (proj2 (proj2 (ti_task Hi _ _ _ Hg))); try done
  |intros t; simpl; rewrite ?elem_of_app, ?list_elem_of_singleton; case_bool_decide; [subst t|];
     rewrite ?(ti_queued _ _ _ _ _ _ Hi Hg); try naive_solver
  |first [done|symmetry; exact (wanted_same _ _ _ Hi)]].

Lemma ti_new K a g r x s :
  tasks_inv d K None a → K !! g = None → g ≠ 0 → 0 ≤ x < FLUX_MAX_GTIDS →
  Z.of_nat (size K) < FLUX_MAX_GTIDS → (∀ g' k, K !! g' ≠ Some (k, x)) →
  tasks_inv d (<[g := (if r : bool then TQueued else TBlocked, x)]> K) None (a_new g r (mk_swi s x) a).
Proof.
  intros Hi Hg Hg0 Hx Hsz Hfresh. pose proof Hi as [Hdom _ Htask Hrq Hwant Hpick].
  unfold a_new. rewrite (proj2 (Hdom g) Hg).
  assert (size (a_sw a) = size K) as ->.
  { rewrite <- !size_dom. f_equal. apply set_eq. intros g'. rewrite !elem_of_dom, <- !not_eq_None_Some.
    by rewrite Hdom. }
  rewrite (proj2 (Z.leb_gt _ _)) by done.
  assert (sw_find (<[g := mk_swi s x]> (a_sw a)) g = Some (x + 1)) as Hfind.
  { unfold sw_find. rewrite (proj2 (Z.eqb_neq _ _)) by done. rewrite lookup_insert_eq. simpl.
    by rewrite (proj2 (Z.ltb_lt _ _)) by lia. }
  cbn [a_set_sw a_sw]. rewrite Hfind.
  assert (∀ g' k1 x1, K !! g' = Some (k1, x1) → g' ≠ g ∧ x1 ≠ x) as Hne.
  { intros g' k1 x1 E. split; [intros ->; by rewrite E in Hg|intros ->; by eapply Hfresh]. }
  split.
  - intros g'. rewrite lookup_insert_None. destruct r; simpl; rewrite lookup_insert_None, Hdom; done.
  - rewrite map_size_insert_None by done. lia.
  - intros g' k1 x1 [[<- E]|[Hgg E]]%lookup_insert_Some.
    + injection E as <- <-. destruct r; simpl; rewrite ?alter_fun, ?bool_decide_true by done;
        split_and!; (done || lia).
    + destruct (Htask g' k1 x1 E) as (E1 & Hx1 & E2). destruct (Hne _ _ _ E) as [_ Hxx].
      assert (sw_find (<[g := mk_swi s x]> (a_sw a)) g' = Some (x1 + 1)) as E3
        by (unfold sw_find in *; by rewrite lookup_insert_ne).
      destruct r; simpl; rewrite ?alter_fun, ?bool_decide_false by lia; split_and!; (done || lia).
  - intros t. trans (t ∈ a_rq a ∨ t = x + 1 ∧ r = true).
    { destruct r; simpl; rewrite ?elem_of_app, ?list_elem_of_singleton; naive_solver. }
    rewrite Hrq. split.
    + intros [(g' & x' & E & ->)|[-> ->]].
      * exists g', x'. rewrite lookup_insert_ne; [done|]. intros <-. by rewrite E in Hg.
      * exists g, x. by rewrite lookup_insert_eq.
    + intros (g' & x' & [[<- E]|[Hgg E]]%lookup_insert_Some & ->); [|left; eauto].
      destruct r; [|done]. injection E as ->. auto.
  - rewrite nr_wanting_insert by done. destruct r; simpl; [rewrite (wanted_add _ _ _ _ Hi); f_equal; lia|exact Hwant].
  - intros g' x' [[<- E]|[Hgg E]]%lookup_insert_Some; [by destruct r|by eapply Hpick].
Qed.

Lemma filter_in (L : list Z) t u : u ∈ filter (λ x, x ≠ t) L ↔ u ≠ t ∧ u ∈ L.
Proof. by rewrite list_elem_of_filter. Qed.

(** A task leaves: its reference was the last one. *)
Lemma ti_leave K a a' g k x e :
  tasks_inv d K None a → K !! g = Some (k, x) → a_sw a' = a_sw a →
  k_refcnt (a_thr a' (x + 1)) = 1 → k_gtid (a_thr a' (x + 1)) = g →
  (∀ t, t ≠ x + 1 → a_thr a' t = a_thr a t) →
  (∀ t, t ∈ a_rq a' ↔ t ≠ x + 1 ∧ t ∈ a_rq a) →
  a_wanted a' = s64 (a_wanted a + (e - wants k)) →
  tasks_inv (d + e) (delete g K) None (a_decref (x + 1) a').
Proof.
  intros Hi Hg Es Hr Hgt Ht Hq Hw. unfold a_decref.
  simpl. rewrite alter_fun, bool_decide_true by done. simpl. rewrite Hr, Hgt. simpl.
  eapply (ti_delete _ _ _ _ _ _ _ e Hi Hg); simpl.
  - by rewrite Es.
  - intros t Hne. by rewrite alter_fun, bool_decide_false, Ht.
  - done.
  - done.
Qed.

Lemma ti_departed K a g k x :
  tasks_inv d K None a → K !! g = Some (k, x) →
  tasks_inv (d + if bool_decide (k = TSwitched) then 1 else 0) (delete g K) None (a_departed (x + 1) a).
Proof.
  intros Hi Hg. destruct (ti_task Hi g k x Hg) as (_ & Hx & E).
  pose proof (ti_queued _ _ _ _ _ _ Hi Hg) as Hq. pose proof (wanted_same _ _ _ Hi) as Hw0.
  unfold a_departed, a_dequeue. rewrite E. simpl.
  assert (k ≠ TPicked) as Hp by (intros ->; by eapply (ti_picked Hi) in Hg).
  assert (k ≠ TQueued → ∀ t, t ∈ a_rq a ↔ t ≠ x + 1 ∧ t ∈ a_rq a) as Hqq by (clear -Hq; naive_solver).
  destruct k; try done; simpl; rewrite ?alter_fun, ?bool_decide_true by done; rewrite ?E; simpl;
    (eapply (ti_leave _ _ _ _ _ _ _ Hi Hg); simpl; [done|..]);
    try (intros t Hne; rewrite ?alter_fun, ?bool_decide_false by done; done);
    try (rewrite ?alter_fun, ?bool_decide_true by done; rewrite ?E; done);
    try (symmetry; exact Hw0); try (intros t; apply filter_in); by apply Hqq.
Qed.

(** A running task blocks. *)
Lemma ti_blocked K a g k x :
  tasks_inv d K None a → K !! g = Some (k, x) → k = TRunning ∨ k = TSwitched →
  tasks_inv d (<[g := (TBlocked, x)]> K) None (a_alter (x + 1) (k_set_on_rq false) (a_want (-1) a)).
Proof. intros Hi Hg [-> | ->]; by upd Hi Hg. Qed.

(** A task that wants to run joins the queue. *)
Lemma ti_wakeup K a g x :
  tasks_inv d K None a → K !! g = Some (TBlocked, x) →
  tasks_inv d (<[g := (TQueued, x)]> K) None
    (a_alter (x + 1) (k_set_on_rq true) (a_want 1 (a_enqueue (x + 1) a))).
Proof. intros Hi Hg. by upd Hi Hg. Qed.

Lemma ti_stopped K a g k x (fs : bool) :
  tasks_inv d K None a → K !! g = Some (k, x) → k = TRunning ∨ k = TSwitched ∧ fs = true →
  tasks_inv d (<[g := (TQueued, x)]> K) None
    (let a := a_enqueue (x + 1) a in if fs then a_alter (x + 1) (k_set_on_rq true) a else a).
Proof. intros Hi Hg [-> | [-> ->]]; [destruct fs|]; by upd Hi Hg. Qed.

(** A running task switches to a blocked one. *)
Lemma ti_switch K a a' g k x g' x' :
  tasks_inv d K None a → K !! g = Some (k, x) → K !! g' = Some (TBlocked, x') →
  k = TRunning ∨ k = TSwitched → a_sw a' = a_sw a →
  (∀ t, a_thr a' t = if bool_decide (t = x + 1) then task_core None g TBlocked else a_thr a t) →
  a_rq a' = a_rq a → a_wanted a' = a_wanted a →
  tasks_inv d (<[g' := (TSwitched, x')]> (<[g := (TBlocked, x)]> K)) None a'.
Proof.
  intros Hi Hg Hg' Hk Es Ht Hq Hw. pose proof (ti_blocked _ _ _ _ _ Hi Hg Hk) as Hi1.
  assert (g ≠ g') as Hne by (intros ->; simplify_eq; naive_solver).
  assert (<[g := (TBlocked, x)]> K !! g' = Some (TBlocked, x')) as Hg1 by (by rewrite lookup_insert_ne).
  destruct (ti_task Hi g' _ _ Hg') as (_ & _ & E').
  assert (x' ≠ x) as Hx by (intros ->; apply Hne; eapply ti_inj; [exact Hi|exact Hg|exact Hg']).
  eapply (ti_update _ _ _ _ _ _ _ _ _ Hi1 Hg1); try done.
  - intros t. simpl. rewrite Ht, alter_fun. repeat case_bool_decide; try lia; try done; subst t;
      rewrite ?E', ?(proj2 (proj2 (ti_task Hi _ _ _ Hg))); by destruct Hk as [-> | ->].
  - intros t. rewrite Hq. simpl. case_bool_decide; [subst t|done].
    by rewrite (ti_queued _ _ _ _ _ _ Hi Hg').
  - simpl. rewrite Hw, s64_add, <- Z.add_assoc. symmetry. exact (wanted_same _ _ _ Hi).
Qed.

Lemma ti_dead K a g x :
  tasks_inv d K None a → K !! g = Some (TBlocked, x) →
  tasks_inv d (delete g K) None (a_decref (x + 1) (a_alter (x + 1) (k_set_sched FLUX_SCHED_NONE) a)).
Proof.
  intros Hi Hg. destruct (ti_task Hi g _ x Hg) as (_ & Hx & E).
  rewrite <- (Z.add_0_r d). apply (ti_leave _ _ _ _ _ _ _ Hi Hg); simpl; rewrite ?alter_fun, ?bool_decide_true, ?E by done; try done.
  - intros t Hne. by rewrite alter_fun, bool_decide_false.
  - intros t. split; [|naive_solver]. intros Ht. split; [|done]. intros ->.
    by rewrite (ti_queued _ _ _ _ _ _ Hi Hg) in Ht.
  - symmetry. exact (wanted_same _ _ _ Hi).
Qed.

Lemma ti_thread_msg K K' a p g k x :
  tasks_inv d K None a → kernel_msg K p K' → msg_gtid p = Some g → K !! g = Some (k, x) →
  tasks_inv (d + leaks K p) K' None (a_thread_msg p (x + 1) a) ∧ msg_ok p (x + 1) a.
Proof.
  intros Hi Hk Hp Hg. destruct Hk; simplify_eq/=;
    (split; [rewrite ?Z.add_0_r|eapply ti_msg_ok; [exact Hi|eassumption|naive_solver]]); try done.
  - by eapply ti_blocked.
  - by apply ti_wakeup.
  - by eapply ti_stopped.
  - by eapply ti_stopped.
  - match goal with H : K !! g = _ |- _ => rename H into E end.
    eapply (ti_switch _ _ _ _ _ _ _ _ Hi E); [done|by left|done| |done|done].
    intros t. simpl. rewrite alter_fun. case_bool_decide; [subst t|done].
    by rewrite (proj2 (proj2 (ti_task Hi _ _ _ E))).
  - rewrite (proj2 (proj2 (ti_task Hi _ _ _ Hg))). simpl. case_bool_decide; [|done]. subst k.
    by eapply (ti_picked Hi) in Hg.
  - by apply ti_dead.
  - match goal with E : K !! g = Some (?k, _) |- _ => rewrite E; pose proof (ti_departed _ _ _ _ _ Hi E) as Hd; by destruct k end.
Qed.

Lemma msg_other_same K K' p :
  kernel_msg K p K' → msg_gtid p = None → (∀ g r n i x, p ≠ MSG_TASK_NEW g r n i x) → K' = K.
Proof. intros Hk Hg Hn. destruct Hk; simplify_eq/=; try done; by destruct (Hn g r n i x). Qed.

Lemma msg_unknown_same K K' p g :
  kernel_msg K p K' → msg_gtid p = Some g → K !! g = None → K' = K.
Proof. intros Hk Hp Hg. destruct Hk; simplify_eq/=; try done. Qed.

Lemma u32_index x : 0 ≤ x < FLUX_MAX_GTIDS → u32 x = x.
Proof. unfold FLUX_MAX_GTIDS. intros. apply u32_small. lia. Qed.

Lemma new_step K K' st a seq g r n i x :
  refines st a → tasks_inv d K None a → kernel_msg K (MSG_TASK_NEW g r n i x) K' →
  refines (flux_msg_send (mk_msg seq (MSG_TASK_NEW g r n i x)) st) (a_msg (MSG_TASK_NEW g r n i x) a)
  ∧ tasks_inv d K' None (a_msg (MSG_TASK_NEW g r n i x) a).
Proof.
  intros Hr Hi Hk. split.
  - apply rf_new; [done|]. intros t Hf Hg%(ti_dom Hi).
    inversion Hk as [????? Hg' Hg0 Hx Hsz Hfresh|??????|??|??|??????|?????|???????|??????|??????|?|??|??
      |???|???????|?|?|?|?]; simplify_eq/=.
    unfold sw_find in Hf. rewrite (proj2 (Z.eqb_neq _ _)), lookup_insert_eq in Hf by done. simpl in Hf.
    rewrite u32_index in Hf by done. rewrite (proj2 (Z.ltb_lt _ _)) in Hf by lia. injection Hf as <-.
    split; [unfold in_arr; lia|]. rewrite (ti_rq Hi). intros (g' & x' & E & Ex).
    assert (x' = x) as -> by lia. by eapply Hfresh.
  - inversion Hk; simplify_eq/=.
    + rewrite (u32_index x) by done. by apply ti_new.
    + unfold a_new. destruct (a_sw a !! g) eqn:E; [done|]. apply (ti_dom Hi) in E. congruence.
Qed.

Lemma a_msg_thread p g a :
  msg_gtid p = Some g →
  a_msg p a = match sw_find (a_sw a) g with None => a | Some t => a_thread_msg p t a end.
Proof. intros Hp. destruct p; simplify_eq/=; done. Qed.

Lemma leaks_unknown K p g : msg_gtid p = Some g → K !! g = None → leaks K p = 0.
Proof. intros Hp Hg. destruct p; simplify_eq/=; try done. by rewrite Hg. Qed.

Lemma leaks_other K p : msg_gtid p = None → leaks K p = 0.
Proof. by destruct p. Qed.

(** Every message of the kernel refines the specification's, and keeps the two
    in step. *)
Lemma msg_step K K' st a seq p :
  refines st a → tasks_inv d K None a → kernel_msg K p K' →
  refines (flux_msg_send (mk_msg seq p) st) (a_msg p a) ∧ tasks_inv (d + leaks K p) K' None (a_msg p a).
Proof.
  intros Hr Hi Hk. destruct (msg_gtid p) as [g|] eqn:Hp.
  - rewrite (a_msg_thread _ _ _ Hp). destruct (K !! g) as [[k x]|] eqn:Hg.
    + destruct (ti_thread_msg _ _ _ _ _ _ _ Hi Hk Hp Hg) as [Hi' Hm].
      destruct (ti_task Hi _ _ _ Hg) as [E _]. rewrite E. split; [|done].
      by eapply rf_thread_msg.
    + pose proof (ti_unknown _ _ _ _ Hi Hg) as E. rewrite E, (msg_unknown_same _ _ _ _ Hk Hp Hg).
      rewrite (rf_unknown seq p g st) by (rewrite ?(rf_find _ _ _ Hr); done). split; [done|].
      by rewrite (leaks_unknown _ _ _ Hp Hg), Z.add_0_r.
  - rewrite (leaks_other _ _ Hp), Z.add_0_r. destruct p; try done; [by eapply new_step|..];
      (rewrite (msg_other_same _ _ _ Hk Hp) by done; split; [by apply rf_other|done]).
Qed.

Lemma sys_msg_inv K K' st seq p :
  sys_inv d K None st → kernel_msg K p K' → sys_inv (d + leaks K p) K' None (flux_msg_send (mk_msg seq p) st).
Proof. intros (a & Hr & Hi) Hk. exists (a_msg p a). by eapply msg_step. Qed.

End safe.

(** ** PNT keeps the kernel's tasks and biff's records in step *)

Section pnt.
Context `{FluxEnv} {d : Z}.
Implicit Types (K : tasks) (st : flux_state) (a : biff_spec).

(** What PNT, or a part of it, did: the tasks [l] were latched, at most one, and
    only if it found something to run on the cpu [c]. *)
Definition pnt_ok (K : tasks) (st st' : flux_state) (c : Z) : Prop :=
  ∃ l, latched st' = l ++ latched st ∧ sys_inv d (foldr task_run K l) None st'
       ∧ (l = [] ∨ pnt_success (cpus st' c) = true
            ∧ ∃ g x, l = [g] ∧ K !! g = Some (TQueued, x)).

(** ** Lemmas *)

Lemma sys_inv_frame K h st st' : thread_frame st st' → sys_inv d K h st → sys_inv d K h st'.
Proof. intros E (a & Hr & Hi). exists a. split; [by eapply refines_proper|done]. Qed.

Lemma pnt_ok_frame K st st' c : thread_frame st st' → sys_inv d K None st → pnt_ok K st st' c.
Proof.
  intros E Hs. exists []. split; [apply (tf_latched _ _ E)|]. split; [by eapply sys_inv_frame|by left].
Qed.

Lemma pnt_ok_left K st st1 st' c : thread_frame st st1 → pnt_ok K st1 st' c → pnt_ok K st st' c.
Proof. intros E (l & El & Hs). exists l. by rewrite <- (tf_latched _ _ E). Qed.

Lemma pnt_ok_right K st st1 st' c :
  thread_frame st1 st' → (pnt_success (cpus st1 c) = true → pnt_success (cpus st' c) = true) →
  pnt_ok K st st1 c → pnt_ok K st st' c.
Proof.
  intros E Hp (l & El & Hs & Hl). exists l. rewrite (tf_latched _ _ E). split; [done|].
  split; [by eapply sys_inv_frame|naive_solver].
Qed.

(** Taking the first task off the queue. *)
Lemma pick_ok K st c :
  sys_inv d K None st →
  match __biff_pick_first_to_run FLUX_SCHED_BIFF c st with
  | (st', None) => sys_inv d K None st' ∧ latched st' = latched st
  | (st', Some t) => ∃ g x, K !! g = Some (TQueued, x) ∧ t = x + 1 ∧ latched st' = latched st
                     ∧ sys_inv d (<[g := (TPicked, x)]> K) (Some g) st'
  end.
Proof.
  intros (a & Hr & Hi). unfold __biff_pick_first_to_run.
  pose proof (pop_first_ok FLUX_MAX_GTIDS _ _ _ (rf_rq _ _ Hr)) as Hpop.
  destruct (arr_list_pop_first _ _ _) as [[m l] o]. destruct Hpop as (-> & HL & Hlinks & _).
  pose proof (rf_relink _ _ _ _ _ _ Hr Hlinks HL) as Hr1.
  destruct (a_rq a) as [|t L] eqn:Erq; cbn [head List.tl] in *.
  { split; [|done]. exists (a_set_rq [] a). split; [done|]. destruct Hi as [Hdom Hsz Ht Hrq Hw Hp].
    split; try done. intros t. simpl. by rewrite <- Hrq, Erq. }
  destruct (proj1 (ti_rq Hi t)) as (g & x & Hg & ->); [rewrite Erq; by left|].
  exists g, x. split_and!; try done. destruct (ti_task Hi _ _ _ Hg) as (_ & _ & E).
  pose proof (la_nodup _ _ _ _ (rf_rq _ _ Hr)) as Hnd. rewrite Erq in Hnd. apply NoDup_cons in Hnd as [Hn _].
  exists (a_alter (x + 1) (λ k, k_set_refcnt (u64 (k_refcnt k + 1)) k)
            (a_alter (x + 1) (k_set_pending true)
              (a_alter (x + 1) (k_set_enqueued false) (a_set_rq L a)))). split.
  - unfold flux_prepare_to_run, flux_thread_incref.
    apply rf_alter; [|done]. apply rf_alter; [|done].
    eapply refines_proper; [apply tf_upd_cpu|done|]. by apply rf_alter.
  - apply (ti_update K None (Some g) a _ g TQueued TPicked x Hi Hg); try done.
    + intros g' Hne. naive_solver.
    + intros t. simpl. rewrite !alter_fun. case_bool_decide; [subst t|done].
      rewrite E. unfold task_core. simpl. by rewrite (bool_decide_true (Some g = Some g)).
    + intros t. simpl. case_bool_decide; [subst t; by split|]. rewrite Erq, elem_of_cons. naive_solver.
    + symmetry. exact (wanted_same _ _ _ Hi).
Qed.

(** The reference PNT holds is not the last one. *)
Lemma ti_put K a g k x :
  tasks_inv d K (Some g) a → K !! g = Some (k, x) → k ≠ TPicked → tasks_inv d K None (a_decref (x + 1) a).
Proof.
  intros Hi Hg Hk. destruct (ti_task Hi _ _ _ Hg) as (_ & _ & E).
  unfold a_decref. simpl. rewrite alter_fun, bool_decide_true, E by done. simpl.
  rewrite bool_decide_true by done. simpl.
  rewrite <- (insert_id K g (k, x)) by done.
  eapply (ti_update _ _ _ _ _ _ _ k _ Hi Hg); try done.
  - intros g' Hne. naive_solver.
  - intros t. simpl. rewrite alter_fun. case_bool_decide; [subst t|done].
    rewrite E. unfold task_core. simpl. by rewrite bool_decide_true.
  - intros t. simpl. case_bool_decide; [subst t|done]. by rewrite (ti_queued _ _ _ _ _ _ Hi Hg).
  - rewrite Z.sub_diag. symmetry. exact (wanted_same _ _ _ Hi).
Qed.

Lemma put_ok K st g k x :
  sys_inv d K (Some g) st → K !! g = Some (k, x) → k ≠ TPicked →
  sys_inv d K None (flux_thread_decref (x + 1) st).
Proof.
  intros (a & Hr & Hi) Hg Hk. exists (a_decref (x + 1) a). split; [by apply rf_decref|].
  by eapply ti_put.
Qed.

(** The kernel accepts the picked task ... *)
Lemma latch_ok K st g x :
  sys_inv d K (Some g) st → K !! g = Some (TPicked, x) →
  sys_inv d (<[g := (TRunning, x)]> K) (Some g)
    (upd_thread (x + 1) (set_pending_latch false) st).
Proof.
  intros (a & Hr & Hi) Hg. exists (a_alter (x + 1) (k_set_pending false) a).
  split; [by apply rf_alter|]. destruct (ti_task Hi _ _ _ Hg) as (_ & _ & E).
  eapply (ti_update _ _ _ _ _ _ _ _ _ Hi Hg); try done.
  - intros t. simpl. rewrite alter_fun. case_bool_decide; [subst t|done]. by rewrite E.
  - intros t. simpl. case_bool_decide; [subst t|done]. by rewrite (ti_queued _ _ _ _ _ _ Hi Hg).
  - symmetry. exact (wanted_same _ _ _ Hi).
Qed.

(** ... or hands it back. *)
Lemma latch_failure_ok K st g x seq e :
  sys_inv d K (Some g) st → K !! g = Some (TPicked, x) →
  let st' := flux_msg_send (mk_msg seq (MSG_TASK_LATCH_FAILURE g e)) st in
  sys_inv d (<[g := (TQueued, x)]> K) (Some g) st' ∧ latched st' = latched st.
Proof.
  intros (a & Hr & Hi) Hg st'. destruct (ti_task Hi _ _ _ Hg) as (Hf & _ & E).
  assert (refines st' (a_thread_msg (MSG_TASK_LATCH_FAILURE g e) (x + 1) a)) as Hr'.
  { eapply rf_thread_msg; [done|done|done|]. by eapply ti_msg_ok. }
  split; [|rewrite (rf_latched _ _ Hr'), (rf_latched _ _ Hr); simpl; by destruct (k_pending _)].
  eexists. split; [exact Hr'|].
  - simpl. rewrite E. simpl. eapply (ti_update _ _ _ _ _ _ _ _ _ Hi Hg); try done.
    + intros t. simpl. rewrite !alter_fun. case_bool_decide; [subst t|done]. by rewrite E.
    + intros t. simpl. rewrite elem_of_app, list_elem_of_singleton.
      case_bool_decide; [subst t|]; naive_solver.
    + symmetry. exact (wanted_same _ _ _ Hi).
Qed.

Lemma sys_inv_latch K h st g : sys_inv d K h st → sys_inv d K h (set_latched (g :: latched st) st).
Proof.
  intros (a & [Hc Hs Ht Hq Hw Hl] & [Hdom Hsz Htask Hrq Hwant Hp]). exists (a_latch g a). split; [|by split].
  split; try done; [by apply (config_ext st)|]. simpl. by rewrite Hl.
Qed.

Lemma decref_cpus t st : cpus (flux_thread_decref t st) = cpus st ∧ latched (flux_thread_decref t st) = latched st.
Proof. unfold flux_thread_decref. by zcase. Qed.

Lemma foldr_run1 K g x :
  K !! g = Some (TQueued, x) → foldr task_run K [g] = <[g := (TRunning, x)]> K.
Proof. intros Hg. simpl. unfold task_run.
  rewrite <- (insert_id K g (TQueued, x)) at 1 by done. by rewrite alter_insert_eq. Qed.

(** Running a picked task, whatever the kernel answers. *)
Lemma run_ok K st st0 g x c ctx :
  latch_contract → K !! g = Some (TQueued, x) → latched st = latched st0 →
  sys_inv d (<[g := (TPicked, x)]> K) (Some g) st →
  pnt_ok K st0 (flux_run_thread (x + 1) c st ctx).1.1 c.
Proof.
  intros Henv Hg El Hs. unfold flux_run_thread, bpf_ghost_run_gtid.
  assert (gtid (threads st (x + 1)) = g) as ->.
  { destruct Hs as (a & Hr & Hi).
    destruct (ti_task Hi g TPicked x) as (_ & _ & E); [apply lookup_insert_eq|].
    rewrite <- (rf_thr _ _ Hr) in E. by injection E. }
  pose proof (Henv (calls st) g (latched_seqnum (cpus st c))) as Hans.
  destruct (run_gtid _ _ _) as [err [[seq p]|]].
  - destruct Hans as (Herr & e & Ep). simpl in Ep. subst p.
    rewrite (proj2 (Z.eqb_neq err 0)) by done.
    set (st1 := set_calls (S (calls st)) st).
    assert (sys_inv d (<[g := (TPicked, x)]> K) (Some g) st1) as Hs1
      by (eapply sys_inv_frame; [apply tf_set_calls|done]).
    destruct (latch_failure_ok _ st1 g x seq e Hs1 (lookup_insert_eq _ _ _)) as [Hs2 El2].
    rewrite insert_insert_eq, insert_id in Hs2 by done.
    set (st2 := flux_msg_send _ st1) in *.
    pose proof (put_ok K st2 g TQueued x Hs2 Hg ltac:(done)) as Hs3.
    assert (latched (flux_thread_decref (x + 1) st2) = latched st0) as El3
      by (rewrite (proj2 (decref_cpus _ _)), El2; done).
    destruct (_ || _); exists []; (split; [exact El3|split; [|by left]]); [exact Hs3|].
    eapply sys_inv_frame; [apply tf_upd_cpu|exact Hs3].
  - subst err. simpl. exists [g]. rewrite (foldr_run1 K g x Hg).
    rewrite (proj1 (decref_cpus _ _)), (proj2 (decref_cpus _ _)). simpl. rewrite El.
    split; [done|]. split; [|right; split; [by rewrite fn_lookup_alter|by exists g, x]].
    eapply put_ok; [|apply lookup_insert_eq|done].
    rewrite <- (insert_insert_eq K g (TRunning, x) (TPicked, x)).
    apply latch_ok; [|apply lookup_insert_eq].
    eapply sys_inv_frame; [apply tf_upd_cpu|]. rewrite <- El. apply (sys_inv_latch _ _ (set_calls (S (calls st)) st)).
    eapply sys_inv_frame; [apply tf_set_calls|done].
Qed.

(** ** Lemmas: the loop of PNT *)

Lemma biff_run_ok K st st0 g x c ctx :
  latch_contract → K !! g = Some (TQueued, x) → latched st = latched st0 →
  sys_inv d (<[g := (TPicked, x)]> K) (Some g) st →
  pnt_ok K st0 (let '(st, ctx, err) := flux_run_thread (x + 1) c st ctx in
    if err =? 0 then (upd_thread (x + 1) (set_t_cpu (c_id (cpus st c))) st, ctx) else (st, ctx)).1 c.
Proof.
  intros Henv Hg El Hs. pose proof (run_ok K st st0 g x c ctx Henv Hg El Hs) as Hok.
  destruct (flux_run_thread _ _ _ _) as [[st1 ctx1] err]. cbn [fst] in Hok.
  zcase; cbn [fst]; [|done]. apply (pnt_ok_right K st0 st1); [|done|exact Hok]. by apply tf_upd_thread.
Qed.

Lemma biff_pick_ok K st c ctx :
  latch_contract → sys_inv d K None st →
  pnt_ok K st (biff_pick_next_task FLUX_SCHED_BIFF c st ctx).1 c.
Proof.
  intros Henv Hs. unfold biff_pick_next_task. pose proof (pick_ok K st c Hs) as Hpick.
  assert (∀ st1, sys_inv d K None st1 ∧ latched st1 = latched st → ∀ st2, thread_frame st1 st2 →
    pnt_ok K st st2 c) as Hnone.
  { intros st1 [Hs1 El] st2 E. exists []. rewrite (tf_latched _ _ E).
    split; [done|]. split; [by eapply sys_inv_frame|by left]. }
  destruct (gtid_to_thread _ _) as [t|].
  - destruct (negb _); [by apply pnt_ok_frame; [apply tf_upd_cpu|]|].
    destruct (__biff_pick_first_to_run _ _ _) as [st1 [t1|]].
    + destruct Hpick as (g & x & Hg & -> & El & Hs1). by eapply biff_run_ok.
    + apply (Hnone st1); [done|]. etransitivity; [|apply tf_upd_cpu]. by apply tf_upd_thread.
  - destruct (__biff_pick_first_to_run _ _ _) as [st1 [t1|]].
    + destruct Hpick as (g & x & Hg & -> & El & Hs1). by eapply biff_run_ok.
    + apply (Hnone st1); [done|]. apply tf_yield.
Qed.

Lemma flux_pick_ok K st s c ctx :
  latch_contract → 0 ≤ s < FLUX_NR_SCHEDS → sys_inv d K None st →
  pnt_ok K st (flux_pick_next_task s c st ctx).1 c.
Proof.
  intros Henv Hsr Hs. unfold flux_pick_next_task.
  pose proof Hs as (a & Hr & _). rewrite (cfg_type _ (rf_config _ _ Hr)) by done.
  zcase; [|zcase; [subst s; by apply biff_pick_ok|]].
  - unfold roci_pick_next_task. destruct (get_sched _); [|by apply pnt_ok_frame].
    apply pnt_ok_frame; [|done]. etransitivity; [apply tf_roci_assign|apply tf_grant].
  - by zcase; apply pnt_ok_frame.
Qed.

Lemma pnt_loop_ok K st n c ctx :
  latch_contract → sys_inv d K None st → pnt_ok K st (pnt_loop n c st ctx).1.1 c.
Proof.
  intros Henv. revert st ctx. induction n as [|n IH]; intros st ctx Hs; cbn [pnt_loop];
    [by apply pnt_ok_frame|].
  destruct (get_sched _) as [s|] eqn:Es; [|by apply pnt_ok_frame].
  apply get_sched_some in Es as [_ Hsr].
  pose proof (flux_pick_ok K st s c ctx Henv Hsr Hs) as Hp.
  destruct (flux_pick_next_task _ _ _ _) as [st1 ctx1]. cbn [fst] in Hp.
  destruct (pnt_success (cpus st1 c)) eqn:Esucc; [done|].
  destruct Hp as (l & El & Hs1 & [->|[? _]]); [|congruence].
  destruct (IH st1 ctx1 Hs1) as (l' & El' & Hs' & Hl'). exists l'. by rewrite El', El.
Qed.

(** PNT latches at most one queued task, which then runs. *)
Lemma flux_pnt_ok K st this_cpu ctx :
  latch_contract → sys_inv d K None st →
  ∃ l, latched (flux_pnt this_cpu st ctx).1 = l ++ latched st
       ∧ sys_inv d (foldr task_run K l) None (flux_pnt this_cpu st ctx).1
       ∧ (l = [] ∨ ∃ g x, l = [g] ∧ K !! g = Some (TQueued, x)).
Proof.
  intros Henv Hs.
  assert (∃ l, latched st = l ++ latched st ∧ sys_inv d (foldr task_run K l) None st
    ∧ (l = [] ∨ ∃ g x, l = [g] ∧ K !! g = Some (TQueued, x))) as Hid by (exists []; auto).
  unfold flux_pnt. destruct (negb _); [done|]. destruct (_ || _); [done|].
  destruct (cpuid_to_cpu this_cpu) as [c|]; [|done]. destruct (negb _); [done|].
  set (st1 := if preempt_to (cpus st c) =? FLUX_TIER_NO_PREEMPT then st else _).
  assert (thread_frame st st1) as E1.
  { unfold st1. zcase; [done|]. etransitivity; [|apply tf_preempt_up_to]. apply tf_upd_cpu. }
  set (st2 := if cur st1 c =? FLUX_SCHED_NONE then _ else st1).
  assert (thread_frame st st2) as E2.
  { unfold st2. zcase; [|done]. etransitivity; [exact E1|apply tf_grant]. }
  set (st3 := upd_cpu c (set_pnt_success false) st2).
  assert (thread_frame st st3) as E3 by (etransitivity; [exact E2|apply tf_upd_cpu]).
  destruct (pnt_loop_ok K st3 (FLUX_MAX_NR_TIERS * 2) c (ctx_set_dont_idle true ctx) Henv
    (sys_inv_frame _ _ _ _ E3 Hs)) as (l & El & Hs' & Hl).
  rewrite (tf_latched _ _ E3) in El.
  destruct (pnt_loop _ _ _ _) as [[st4 ctx4] b]. cbn [fst] in *.
  exists l. destruct b; (split; [done|split; [done|]]); naive_solver.
Qed.

(** Every step of the kernel and Flux keeps them in agreement. *)
Lemma sys_step_inv K st e K' st' :
  latch_contract → sys_inv d K None st → sys_step (K, st) e (K', st') → sys_inv (d + e) K' None st'.
Proof.
  intros Henv Hs Hstep. inversion Hstep as [? ? ? seq p Hk|? ? i ctx l El|? ? g x g' x' Hg Hg'|]; subst.
  - by eapply sys_msg_inv.
  - rewrite Z.add_0_r. destruct (flux_pnt_ok K st i ctx Henv Hs) as (l' & El' & Hs' & _).
    rewrite El in El'. by apply app_inv_tail in El' as ->.
  - rewrite Z.add_0_r. destruct Hs as (a & Hr & Hi). exists a. split; [done|].
    eapply (ti_switch _ _ _ _ _ _ _ _ Hi Hg Hg'); try done; [by right|].
    intros t. case_bool_decide; [subst t|done].
    by rewrite (proj2 (proj2 (ti_task Hi _ _ _ Hg))).
  - rewrite Z.add_0_r. eapply sys_inv_frame; [apply tf_set_init|done].
Qed.

End pnt.
