(* ===== verification/FluxSpec.v ===== *)
(** * FluxSpec: what Flux guarantees *)

From stdpp Require Import base tactics numbers list functions gmap sets.
From Stdlib Require Import ZArith Lia.
From S2P Require Import Prelude Avl Queue QueueSpec FluxState RociFlux BiffFlux FluxApi.
From S2P Require Import FluxCpuInv FluxCpuSafe FluxThreads FluxThreadSteps.
From S2P Require Import FluxThreadSafe.

Local Open Scope Z_scope.

(** ** The initial state: zeroed maps, and what userspace fills in *)

Definition zero_entry : arr_list_entry := mk_entry 0 0.
Definition zero_sched_cpu : sched_cpu := mk_sched_cpu zero_entry false 0.
Definition zero_cpu (i : Z) : flux_cpu :=
  mk_cpu 0 (i - 1) FLUX_SCHED_NONE false false 0
    (mk_sched_cpus zero_sched_cpu zero_sched_cpu zero_sched_cpu zero_sched_cpu).
Definition zero_thread : flux_thread :=
  mk_thread 0 0 0 0 0 false false false 0 0 0 zero_entry false false 0.

(** The scheduler with id [i] as the agent stores it; [num_cpus] is the size of
    the machine. *)
Definition init_sched (num_cpus i : Z) : flux_sched :=
  mk_sched 0 (if i =? FLUX_SCHED_IDLE then num_cpus else 0) i i
    (if i =? FLUX_SCHED_ROCI
     then mk_roci arr_list_init arr_list_init FLUX_SCHED_BIFF FLUX_SCHED_IDLE
     else mk_roci arr_list_init arr_list_init 0 0)
    arr_list_init.

Definition flux_init (num_cpus : Z) : flux_state :=
  mk_state (init_sched num_cpus) zero_cpu (λ _, zero_thread) ∅ false 0 [] [].

(** A kernel whose clock advances by 60 ms per call and that refuses to run a
    thread now and then. *)
#[export] Instance sample_env : FluxEnv :=
  {| ktime_ns n := Z.of_nat n * 60000000;
     run_gtid n g seq :=
       if Z.of_nat n mod 7 =? 6 then (-16, Some (mk_msg 9 (MSG_TASK_LATCH_FAILURE g 16))) else (0, None) |}.

(** Tasks 77 (runnable) and 78 (blocked) become known and cpu 0 available; PNT
    runs 77 there, which then switches to 78, which departs. *)
Definition sample_ctx : bpf_ghost_sched := mk_ctx false false false false.
Definition sample_st0 : flux_state := set_user_initialized true (flux_init 4).
Definition sample_st1 : flux_state := flux_msg_send (mk_msg 1 (MSG_TASK_NEW 77 true 0 3 5)) sample_st0.
Definition sample_st2 : flux_state := flux_msg_send (mk_msg 2 (MSG_TASK_NEW 78 false 0 3 6)) sample_st1.
Definition sample_st3 : flux_state := flux_msg_send (mk_msg 3 (MSG_CPU_AVAILABLE 0)) sample_st2.
Definition sample_st4 : flux_state := (flux_pnt 0 sample_st3 sample_ctx).1.
Definition sample_st5 : flux_state := flux_msg_send (mk_msg 4 (MSG_TASK_SWITCHTO 77 0)) sample_st4.
Definition sample_st6 : flux_state := flux_msg_send (mk_msg 5 (MSG_TASK_DEPARTED 78 0 true false)) sample_st5.
Definition sample_K1 : tasks := <[77 := (TQueued, 5)]> ∅.
Definition sample_K2 : tasks := <[78 := (TBlocked, 6)]> sample_K1.
Definition sample_K4 : tasks := task_run 77 sample_K2.
Definition sample_K5 : tasks := <[78 := (TSwitched, 6)]> (<[77 := (TBlocked, 5)]> sample_K4).
Definition sample_K6 : tasks := delete 78 sample_K5.

(** With nothing to run, cpu 0 goes to the idle scheduler; then biff wants a cpu. *)
Definition sample_idle1 : flux_state := flux_msg_send (mk_msg 1 (MSG_CPU_AVAILABLE 0)) sample_st0.
Definition sample_idle2 : flux_state := (flux_pnt 0 sample_idle1 sample_ctx).1.
Definition sample_idle3 : flux_state := upd_sched FLUX_SCHED_BIFF (set_s_nr_cpus_wanted 1) sample_idle2.

Section spec.
Context `{FluxEnv}.

(** ** Lemmas *)

Lemma init_config n : config_ok (flux_init n).
Proof. by split. Qed.

Lemma init_cpu_inv n : cpu_inv (flux_init n).
Proof.
  split.
  - intros c. unfold tier_ok, FLUX_TIER_NO_PREEMPT. simpl. lia.
  - done.
  - intros s Hs. change (s_nr_cpus (scheds (flux_init n) s)) with 0. unfold cpus_held.
    rewrite (countb_ext _ (λ _, false)).
    + generalize cpu_ids as l. induction l as [|c l IH]; simpl in *; lia.
    + intros c _. change (cur (flux_init n) c) with 0. unfold holds.
      rewrite (proj2 (Z.eqb_neq 0 s)) by lia. by rewrite andb_false_r.
  - split; [apply init_config| | |done]; (exists []; split; [apply list_abs_init|]).
    + intros c _. split; [by intros ?%not_elem_of_nil|done].
    + intros c _. split; [by intros ?%not_elem_of_nil|by intros [? _]].
Qed.

Lemma init_sys_inv n : sys_inv 0 ∅ None (flux_init n).
Proof.
  exists (mk_spec ∅ (λ _, thread_core zero_thread) [] 0 []). split.
  - split; try done. apply list_abs_init.
  - split; try done. intros t. split; [by intros ?%not_elem_of_nil|by intros (? & ? & ? & _)].
Qed.

Lemma reachable_cpu_inv n st : flux_reachable (flux_init n) st → cpu_inv st.
Proof.
  induction 1 as [|st st' _ IH Hstep]; [apply init_cpu_inv|].
  destruct Hstep; [by apply flux_msg_send_inv|by apply flux_pnt_inv|].
  eapply cpu_inv_proper; [|exact IH]. by split.
Qed.

Lemma reachable_sys_inv n d s :
  latch_contract → sys_reachable (∅, flux_init n) d s → sys_inv d s.1 None s.2.
Proof.
  intros Henv. induction 1 as [|d e [K st] [K' st'] _ IH Hstep]; [apply init_sys_inv|].
  by eapply sys_step_inv.
Qed.

(** What a pick does to the context. *)
Definition ctx_ok (c : Z) (ctx : bpf_ghost_sched) (r : flux_state * bpf_ghost_sched) : Prop :=
  (pnt_success (cpus r.1 c) = false → dont_idle r.2 = dont_idle ctx) ∧
  (dont_idle r.2 = false →
   dont_idle ctx = false ∨ cur r.1 c = FLUX_SCHED_IDLE ∧ must_resched r.2 = true).

Lemma ctx_ok_same c ctx st : ctx_ok c ctx (st, ctx).
Proof. split; [done|by left]. Qed.

Lemma ctx_ok_busy c ctx st ctx' : dont_idle ctx' = true → pnt_success (cpus st c) = true → ctx_ok c ctx (st, ctx').
Proof. intros E Es. split; simpl; congruence. Qed.

Lemma run_ctx t c st ctx :
  ctx_ok c ctx (let '(st, ctx, err) := flux_run_thread t c st ctx in
    if err =? 0 then (upd_thread t (set_t_cpu (c_id (cpus st c))) st, ctx) else (st, ctx)).
Proof.
  unfold flux_run_thread. destruct (bpf_ghost_run_gtid _ _ _) as [st1 err].
  destruct (Z.eqb_spec err 0) as [->|Hne]; [apply ctx_ok_same|].
  destruct (_ || _); simpl; rewrite (proj2 (Z.eqb_neq err 0)) by done; [apply ctx_ok_same|].
  apply ctx_ok_busy; [done|]. simpl. by rewrite fn_lookup_alter.
Qed.

Lemma pick_ctx c st ctx :
  c ∈ cpu_ids → cpu_inv st → ctx_ok c ctx (flux_pick_next_task (cur st c) c st ctx).
Proof.
  intros Hc Hi. unfold flux_pick_next_task.
  rewrite (cfg_type _ (li_config _ _ (ci_lists _ Hi))) by (by apply Hi).
  zcase.
  { unfold roci_pick_next_task. destruct (get_sched _); apply ctx_ok_same. }
  zcase.
  { unfold biff_pick_next_task. destruct (gtid_to_thread _ _).
    - destruct (negb _); [apply ctx_ok_busy; [done|]; simpl; by rewrite fn_lookup_alter|].
      destruct (__biff_pick_first_to_run _ _ _) as [st1 [t|]]; [apply run_ctx|].
      apply ctx_ok_busy; [done|]. simpl. by rewrite fn_lookup_alter.
    - destruct (__biff_pick_first_to_run _ _ _) as [st1 [t|]]; [apply run_ctx|apply ctx_ok_same]. }
  zcase; [|apply ctx_ok_same]. unfold idle_pick_next_task, flux_run_idle. split; simpl.
  - by rewrite fn_lookup_alter.
  - right. by rewrite fn_lookup_alter.
Qed.

Lemma loop_ctx n c st ctx :
  c ∈ cpu_ids → cpu_inv st → dont_idle ctx = true →
  match pnt_loop n c st ctx with
  | (st', ctx', true) => pnt_success (cpus st' c) = true ∧
      (dont_idle ctx' = true ∨ cur st' c = FLUX_SCHED_IDLE ∧ must_resched ctx' = true)
  | (st', ctx', false) => dont_idle ctx' = true
  end.
Proof.
  intros Hc. revert st ctx. induction n as [|n IH]; intros st ctx Hi Hd; cbn [pnt_loop]; [done|].
  rewrite get_sched_valid by (by apply Hi).
  pose proof (pick_ctx c st ctx Hc Hi) as [H1 H2]. pose proof (pick_inv c st ctx Hc Hi) as Hi'.
  destruct (flux_pick_next_task _ _ _ _) as [st1 ctx1]. cbn [fst snd] in *.
  destruct (pnt_success (cpus st1 c)) eqn:Es.
  - split; [done|]. destruct (dont_idle ctx1); [by left|]. destruct (H2 eq_refl); [congruence|by right].
  - apply IH; [done|]. by rewrite H1.
Qed.

(** What requests leave behind: preemptions only become more urgent. *)
Record urges (st st' : flux_state) : Prop := {
  ur_to : ∀ v, preempt_to (cpus st' v) ≤ preempt_to (cpus st v);
  ur_id : ∀ v, c_id (cpus st' v) = c_id (cpus st v);
  ur_pending : ∀ v, preempt_pending (roci_slot st v) = true → preempt_pending (roci_slot st' v) = true;
  ur_ipi : ∀ i, i ∈ rescheds st → i ∈ rescheds st';
}.

#[local] Instance urges_preorder : PreOrder urges.
Proof.
  split; [by split|]. intros st1 st2 st3 [A1 B1 C1 D1] [A2 B2 C2 D2]. split; intros; auto.
  - etransitivity; [apply A2|apply A1].
  - by rewrite B2.
Qed.

Definition roci_idle (st : flux_state) (L : list Z) : Prop :=
  roci_list st (idle_cpus (roci (scheds st FLUX_SCHED_ROCI))) L.

(** Earmarking the first idle cpu. *)
Lemma pop_idle_spec st L :
  s_id (scheds st FLUX_SCHED_ROCI) = FLUX_SCHED_ROCI → roci_idle st L →
  let '(st1, o) := roci_pop_first_idle FLUX_SCHED_ROCI st in
  o = head L ∧ roci_idle st1 (List.tl L) ∧ urges st st1
  ∧ (∀ v, preempt_to (cpus st1 v) = preempt_to (cpus st v)) ∧ rescheds st1 = rescheds st
  ∧ s_id (scheds st1 FLUX_SCHED_ROCI) = FLUX_SCHED_ROCI.
Proof.
  intros E HL. unfold roci_pop_first_idle. rewrite E.
  pose proof (pop_first_ok (ListField0 := rfield) FLUX_MAX_CPUS _ _ _ HL) as Hpop.
  destruct (arr_list_pop_first _ _ _) as [[m l] o]. destruct Hpop as (Ho & Hl & Hlinks & _).
  assert (∀ v, c_id (m v) = c_id (cpus st v)) as Hid
    by (intros v; destruct Hlinks as [_ Hk]; by destruct (Hk v) as [w ->]).
  split_and!; [done| | |intros v; apply (links_cpu _ _ _ v Hlinks)|done|by rewrite scheds_upd_sched].
  - unfold roci_idle. by rewrite scheds_upd_sched.
  - split; [intros v| | |done]; simpl; try done.
    + by rewrite (proj1 (proj2 (links_cpu _ _ _ v Hlinks))).
    + intros v. by rewrite (proj2 (proj2 (links_cpu _ _ _ v Hlinks))).
Qed.

(** Telling its cpu. *)
Lemma preempt_cpu_spec v st :
  let st' := flux_preempt_cpu FLUX_SCHED_ROCI v st in
  s_id (scheds st FLUX_SCHED_ROCI) = FLUX_SCHED_ROCI → tier_ok st v →
  preempt_to (cpus st' v) ≤ 1 ∧ urges st st' ∧ scheds st' = scheds st
  ∧ (preempt_to (cpus st v) > 1 → c_id (cpus st v) ∈ rescheds st')
  ∧ (∀ c, __s (cpus st' c) = __s (cpus st c)) ∧ (∀ c, c ≠ v → cpus st' c = cpus st c).
Proof.
  intros st' E [H0 H3]. unfold st', flux_preempt_cpu. rewrite E.
  change (sched_id_to_tier FLUX_SCHED_ROCI) with 1. change (FLUX_MAX_NR_TIERS * 2)%nat with 6%nat.
  cbn [flux_preempt_loop]. unfold FLUX_TIER_NO_PREEMPT in H3. rewrite s64_small by lia.
  zcase; [split_and!; try done; lia|].
  unfold cas_preempt_to.
  rewrite (u64_small (preempt_to _)), Z.eqb_refl, (u64_small 1) by lia. simpl.
  rewrite fn_lookup_alter. simpl. split_and!; try done.
  - split; simpl; [intros c|intros c|intros c|by right]; rewrite alter_fun; case_bool_decide; subst; simpl;
      done || lia.
  - intros _. by left.
  - intros c. rewrite alter_fun. by case_bool_decide.
  - intros c Hne. by rewrite fn_lookup_alter_ne.
Qed.

Lemma request_loop_spec n i need st L ret :
  s_id (scheds st FLUX_SCHED_ROCI) = FLUX_SCHED_ROCI → (∀ v, tier_ok st v) → roci_idle st L →
  let '(st', ret') := roci_request_loop n i need FLUX_SCHED_ROCI st ret in
  let k := Nat.min n (Nat.min (Z.to_nat (need - i)) (length L)) in
  ret' = ret + Z.of_nat k ∧ roci_idle st' (drop k L) ∧ urges st st'
  ∧ (∀ v, v ∈ take k L → preempt_pending (roci_slot st' v) = true ∧ preempt_to (cpus st' v) ≤ 1
     ∧ (preempt_to (cpus st v) > 1 → c_id (cpus st v) ∈ rescheds st')).
Proof.
  revert i st L ret. induction n as [|n IH]; intros i st L ret E Ht HL; cbn [roci_request_loop].
  { split_and!; [lia|done|done|]. by intros v ?%not_elem_of_nil. }
  zcase.
  { specialize (IH (i + 1) st L ret E Ht HL). destruct (roci_request_loop _ _ _ _ _ _) as [st' ret'].
    replace (Z.to_nat (need - (i + 1))) with 0%nat in IH by lia.
    replace (Z.to_nat (need - i)) with 0%nat by lia. rewrite !Nat.min_0_r in *. exact IH. }
  pose proof (pop_idle_spec st L E HL) as Hpop.
  destruct (roci_pop_first_idle _ _) as [st1 o]. destruct Hpop as (-> & HL1 & U1 & Hto & Hipi & E1).
  destruct L as [|v L]; cbn [head List.tl] in *.
  { rewrite !Nat.min_0_r. split_and!; [lia|done|done|]. by intros v ?%not_elem_of_nil. }
  set (st2 := upd_roci_cpu FLUX_SCHED_ROCI v (set_preempt_pending true) st1).
  assert (st2 = upd_cpu v (alter_sched_cpu (set_preempt_pending true) FLUX_SCHED_ROCI) st1) as E2
    by (unfold st2, upd_roci_cpu; by rewrite E1).
  assert (roci_idle st2 L) as HL2 by (rewrite E2; by apply roci_list_pending).
  assert (∀ x, preempt_to (cpus st2 x) = preempt_to (cpus st x)) as Hto2.
  { intros x. rewrite <- Hto, E2. simpl. rewrite alter_fun. by case_bool_decide. }
  assert (∀ x, tier_ok st2 x) as Ht2 by (intros x; unfold tier_ok; rewrite Hto2; apply Ht).
  assert (urges st st2) as U2.
  { etransitivity; [exact U1|]. rewrite E2. split; simpl; try done; intros x; rewrite alter_fun;
      case_bool_decide; subst; done. }
  assert (preempt_pending (roci_slot st2 v) = true) as Hp2 by (rewrite E2; simpl; by rewrite fn_lookup_alter).
  destruct (preempt_cpu_spec v st2) as (Hv & U3 & Es3 & Hs3 & Hslot3 & Hne3); [by rewrite E2|apply Ht2|].
  set (st3 := flux_preempt_cpu FLUX_SCHED_ROCI v st2) in *.
  specialize (IH (i + 1) st3 L (ret + 1)).
  destruct (roci_request_loop n _ _ _ _ _) as [st' ret'].
  destruct IH as (-> & HL' & U' & Hk').
  { by rewrite Es3, E2. }
  { intros x. destruct (cf_preempt_cpu FLUX_SCHED_ROCI v st2) as [Hf _ _ _ _ _ _]. by apply Hf. }
  { unfold roci_idle. rewrite Es3. eapply (list_abs_entries (ListField0 := rfield)); [|exact HL2].
    intros x _. simpl. unfold sched_cpu_union. by rewrite Hslot3. }
  replace (Nat.min (S n) (Nat.min (Z.to_nat (need - i)) (length (v :: L))))
    with (S (Nat.min n (Nat.min (Z.to_nat (need - (i + 1))) (length L)))) by (rewrite length_cons; lia).
  set (k := Nat.min n _) in *. cbn [drop take]. split_and!.
  - lia.
  - done.
  - etransitivity; [exact U2|]. by etransitivity.
  - intros x [->|Hx]%elem_of_cons.
    + split_and!.
      * apply U'. rewrite Hslot3. apply Hp2.
      * etransitivity; [apply U'|exact Hv].
      * intros Hgt. apply U'. rewrite <- (ur_id _ _ U2). apply Hs3. by rewrite Hto2.
    + destruct (Hk' x Hx) as (Hp & Hle & Hs). split_and!; [done|done|]. intros Hgt.
      assert (x ≠ v) as Hne.
      { intros ->. apply elem_of_take in Hx as (j & Hx%list_elem_of_lookup_2 & _). pose proof (la_nodup _ _ _ _ HL) as Hnd.
        by apply NoDup_cons in Hnd as [? _]. }
      rewrite <- (ur_id _ _ U2), <- (Hne3 x Hne). apply Hs. by rewrite Hne3, Hto2.
Qed.


(** ** The kernel's tasks and biff's queue *)

(** C1. Whatever the kernel sends and wherever PNT runs, no task is lost or
    confused: the tasks in biff's queue are exactly those that the kernel waits
    for Flux to run, and each known task's record is right (one reference, owned
    by biff, on_rq, enqueued and pending_latch as its state says).  The number of
    cpus that biff wants, in the 64 bits of its counter, is one per task that is
    runnable or running and one for each of the [d] tasks that departed while
    they ran because another task switched to them: biff never stops wanting a
    cpu for these. *)
Theorem flux_no_task_lost n d K st :
  latch_contract → sys_reachable (∅, flux_init n) d (K, st) →
  (∃ L, list_abs FLUX_MAX_GTIDS (threads st) (biff_rq (scheds st FLUX_SCHED_BIFF)) L
        ∧ ∀ t, t ∈ L ↔ ∃ g x, K !! g = Some (TQueued, x) ∧ t = x + 1)
  ∧ (∀ g k x, K !! g = Some (k, x) →
       gtid_to_thread st g = Some (x + 1) ∧ thread_core (threads st (x + 1)) = task_core None g k)
  ∧ s_nr_cpus_wanted (scheds st FLUX_SCHED_BIFF) = s64 (nr_wanting K + d).
Proof.
  intros Henv Hr. destruct (reachable_sys_inv _ _ _ Henv Hr) as (a & Ha & Hi). cbn [fst snd] in *.
  split_and!.
  - exists (a_rq a). split; [apply Ha|apply Hi].
  - intros g k x Hg. destruct (ti_task Hi g k x Hg) as (E & _ & Et).
    by rewrite (rf_find _ _ _ Ha), (rf_thr _ _ Ha).
  - by rewrite (rf_wanted _ _ Ha), (ti_wanted Hi).
Qed.

(** C25. Every message handler implements the queue specification: on a message
    the kernel may send, the handler's new state abstracts to the
    specification's, which again agrees with the kernel. *)
Theorem flux_msg_refines d K K' st a seq p :
  refines st a → tasks_inv d K None a → kernel_msg K p K' →
  refines (flux_msg_send (mk_msg seq p) st) (a_msg p a) ∧ tasks_inv (d + leaks K p) K' None (a_msg p a).
Proof. apply msg_step. Qed.

(** C37. PNT makes the kernel run at most one task, and only one that was waiting
    in the queue. *)
Theorem flux_pnt_runs_queued n d K st this_cpu ctx :
  latch_contract → sys_reachable (∅, flux_init n) d (K, st) →
  let st' := (flux_pnt this_cpu st ctx).1 in
  latched st' = latched st
  ∨ ∃ g x, latched st' = g :: latched st ∧ K !! g = Some (TQueued, x)
           ∧ sys_reachable (∅, flux_init n) d (task_run g K, st').
Proof.
  intros Henv Hr st'. pose proof (reachable_sys_inv _ _ _ Henv Hr) as Hi.
  destruct (flux_pnt_ok K st this_cpu ctx Henv Hi) as (l & El & _ & [->|(g & x & -> & Hg)]); [by left|].
  right. exists g, x. split_and!; [done|done|]. rewrite <- (Z.add_0_r d). eapply sys_next; [exact Hr|].
  exact (sys_pnt K st this_cpu ctx [g] El).
Qed.

(** ** The allocation of cpus *)

(** C7. In every reachable state, whatever the kernel sends: a scheduler's nr_cpus
    is the number of cpus that it or a descendant currently holds, and ROCI's
    two lists are exactly the cpus it gave to biff and to idle, the latter
    without those it is already preempting. *)
Theorem flux_cpu_accounting n st :
  flux_reachable (flux_init n) st →
  (∀ s, 1 ≤ s < FLUX_NR_SCHEDS → s_nr_cpus (scheds st s) = cpus_held st s)
  ∧ (∃ L, roci_list st (primary_cpus (roci (scheds st FLUX_SCHED_ROCI))) L
          ∧ ∀ c, c ∈ cpu_ids → (c ∈ L ↔ cur st c = FLUX_SCHED_BIFF))
  ∧ (∃ L, roci_list st (idle_cpus (roci (scheds st FLUX_SCHED_ROCI))) L
          ∧ ∀ c, c ∈ cpu_ids →
              (c ∈ L ↔ cur st c = FLUX_SCHED_IDLE ∧ preempt_pending (roci_slot st c) = false)).
Proof.
  intros Hr. pose proof (reachable_cpu_inv n st Hr) as [_ _ Hc Hl]. split_and!; [|apply Hl|apply Hl].
  intros s Hs. rewrite (Hc s Hs). lia.
Qed.

(** Preempting a cpu up to a tier takes it from every scheduler below that tier
    and from no other, and keeps the accounting right. *)
Theorem flux_preempt_up_to_tier n st c tier :
  flux_reachable (flux_init n) st → c ∈ cpu_ids → 0 ≤ tier ≤ FLUX_TIER_NO_PREEMPT →
  sched_id_to_tier (cur (flux_preempt_up_to c tier st) c) = Z.min tier (sched_id_to_tier (cur st c))
  ∧ cpu_inv (flux_preempt_up_to c tier st).
Proof.
  intros Hr Hc Ht. pose proof (reachable_cpu_inv n st Hr) as Hi.
  by destruct (preempt_up_to_ok st c tier Hc Hi Ht).
Qed.

(** When CFS takes a cpu, no scheduler holds it afterwards. *)
Theorem flux_busy_releases_cpu n st seq cpu_id c :
  flux_reachable (flux_init n) st → cpuid_to_cpu cpu_id = Some c →
  let st' := flux_msg_send (mk_msg seq (MSG_CPU_BUSY cpu_id)) st in
  cur st' c = FLUX_SCHED_NONE ∧ cpu_inv st'.
Proof.
  intros Hr Ec. pose proof (reachable_cpu_inv n st Hr) as Hi.
  split; [|by apply flux_msg_send_inv]. unfold flux_msg_send. cbn [msg_seqnum payload].
  unfold handle_cpu_busy. rewrite Ec. apply cpuid_to_cpu_ids in Ec.
  set (st1 := upd_cpu _ _ st).
  assert (cpu_inv st1) as Hi1.
  { eapply cpu_inv_proper; [|exact Hi]. apply cf_upd_cpu. intros x. split_and!; try done. right. simpl.
    unfold FLUX_TIER_NO_PREEMPT. lia. }
  destruct (preempt_up_to_ok st1 c 0 Ec Hi1) as [Hi2 Ht]; [unfold FLUX_TIER_NO_PREEMPT; lia|].
  pose proof (tier_range (cur st1 c)) as Hr1. rewrite Z.min_l in Ht by lia.
  destruct (tier_of _ (ci_current _ Hi2 c Ec)) as [[E _]|[[_ E]|[_ E]]]; [done|lia|lia].
Qed.

(** PNT lets a cpu go idle only if the idle scheduler holds it (and then
    forces a reschedule); and where it is allowed to pick at all, it either
    settles the cpu or asks the kernel to call it again. *)
Theorem flux_pnt_outcome n st this_cpu ctx :
  flux_reachable (flux_init n) st →
  let '(st', ctx') := flux_pnt this_cpu st ctx in
  (dont_idle ctx' = false →
   ∃ c, cpuid_to_cpu this_cpu = Some c ∧ cur st' c = FLUX_SCHED_IDLE ∧ must_resched ctx' = true)
  ∧ (∀ c, user_initialized st = true → agent_runnable ctx = false → might_yield ctx = false →
       cpuid_to_cpu this_cpu = Some c → available (cpus st c) = true →
       pnt_success (cpus st' c) = true ∨ must_resched ctx' = true ∧ dont_idle ctx' = true).
Proof.
  intros Hr. pose proof (reachable_cpu_inv n st Hr) as Hi.
  unfold flux_pnt. destruct (user_initialized st); cbn [negb]; [|by split].
  cbn [ctx_set_dont_idle agent_runnable might_yield].
  destruct (agent_runnable ctx), (might_yield ctx); cbn [orb]; try by split.
  destruct (cpuid_to_cpu this_cpu) as [c|] eqn:Ec; [|by split].
  destruct (available (cpus st c)) eqn:Ea; cbn [negb].
  2: { split; [done|]. intros c' _ _ _ [= <-]. congruence. }
  set (st1 := if preempt_to (cpus st c) =? FLUX_TIER_NO_PREEMPT then st else _).
  assert (cpu_inv st1) as Hi1.
  { unfold st1. zcase; [done|]. pose proof (ci_tier _ Hi c) as Ht. unfold tier_ok in Ht.
    apply preempt_up_to_ok; [by eapply cpuid_to_cpu_ids| |].
    - eapply cpu_inv_proper; [|exact Hi]. apply cf_upd_cpu. intros x. split_and!; try done. right. simpl.
      unfold FLUX_TIER_NO_PREEMPT. lia.
    - unfold s32, FLUX_TIER_NO_PREEMPT in *. rewrite Z.mod_small; lia. }
  clearbody st1. set (st2 := if cur st1 c =? FLUX_SCHED_NONE then _ else st1).
  assert (cpu_inv st2) as Hi2.
  { unfold st2. zcase; [|done]. apply grant_top_inv; [by eapply cpuid_to_cpu_ids|done|done]. }
  clearbody st2. set (st3 := upd_cpu c (set_pnt_success false) st2).
  assert (cpu_inv st3) as Hi3.
  { eapply cpu_inv_proper; [|exact Hi2]. apply cf_upd_cpu. intros x. split_and!; auto. }
  pose proof (loop_ctx (FLUX_MAX_NR_TIERS * 2) c st3 (ctx_set_dont_idle true ctx)
    (cpuid_to_cpu_ids _ _ Ec) Hi3 eq_refl) as Hl.
  destruct (pnt_loop _ _ _ _) as [[st4 ctx4] []].
  - destruct Hl as [Hs [Hd|[Hc Hm]]]; (split; [|intros c' _ _ _ [= <-] _; by left]); [congruence|].
    intros _. by exists c.
  - simpl. split; [congruence|]. intros c' _ _ _ _ _. by right.
Qed.

(** A request for cpus on behalf of biff takes as many idle cpus as are needed,
    up to five, from the front of the idle list: each is earmarked, told to
    leave its scheduler, and sent an IPI unless it was already leaving. *)
Theorem roci_request_preempts st nr L :
  cpu_inv st → roci_idle st L →
  let '(st', ret) := roci_request_for_cpus FLUX_SCHED_ROCI FLUX_SCHED_BIFF nr st in
  let needed := flux_sched_nr_cpus_needed st FLUX_SCHED_BIFF in
  let k := Nat.min ROCI_MAX_NR_PREEMPTS (Nat.min (Z.to_nat needed) (length L)) in
  ret = Z.of_nat k ∧ roci_idle st' (drop k L)
  ∧ ∀ v, v ∈ take k L → preempt_pending (roci_slot st' v) = true ∧ preempt_to (cpus st' v) ≤ 1
      ∧ (preempt_to (cpus st v) > 1 → c_id (cpus st v) ∈ rescheds st').
Proof.
  intros Hi HL. pose proof (li_config _ _ (ci_lists _ Hi)) as Hcfg. unfold roci_request_for_cpus.
  rewrite (cfg_idle _ Hcfg). cbn [Z.eqb FLUX_SCHED_BIFF FLUX_SCHED_IDLE Pos.eqb].
  rewrite get_sched_valid by done. zcase.
  { rewrite e. rewrite Nat.min_0_r. split_and!; [done|done|]. by intros v ?%not_elem_of_nil. }
  pose proof (request_loop_spec ROCI_MAX_NR_PREEMPTS 0 (flux_sched_nr_cpus_needed st FLUX_SCHED_BIFF)
    st L 0 (cfg_id _ Hcfg FLUX_SCHED_ROCI ltac:(done)) (ci_tier _ Hi) HL) as Hl.
  destruct (roci_request_loop _ _ _ _ _ _) as [st' ret]. rewrite Z.sub_0_r in Hl.
  destruct Hl as (-> & HL' & _ & Hk). split_and!; [lia|done|done].
Qed.

End spec.

(** ** Witnesses *)

Lemma sample_contract : latch_contract.
Proof. intros n g seq. simpl. by zcase; [split; [done|exists 16]|]. Defined.

Lemma flux_sample_reach3 : sys_reachable (∅, flux_init 4) 0 (sample_K2, sample_st3).
Proof.
  assert (kernel_msg ∅ (MSG_TASK_NEW 77 true 0 3 5) sample_K1) as K1 by (by apply (km_new ∅ 77 true)).
  assert (kernel_msg sample_K1 (MSG_TASK_NEW 78 false 0 3 6) sample_K2) as K2.
  { apply (km_new sample_K1 78 false); try done. intros g k.
    unfold sample_K1. by intros [[_ ?]|[_ ?]]%lookup_insert_Some. }
  pose proof (sys_next _ 0 0 _ _ (sys_start (∅, flux_init 4)) (sys_init ∅ (flux_init 4))) as R0.
  pose proof (sys_next _ 0 _ _ _ R0 (sys_msg ∅ sample_K1 sample_st0 1 _ K1)) as R1.
  pose proof (sys_next _ 0 _ _ _ R1 (sys_msg sample_K1 sample_K2 sample_st1 2 _ K2)) as R2.
  exact (sys_next _ 0 _ _ _ R2 (sys_msg sample_K2 sample_K2 sample_st2 3 _ (km_available _ 0))).
Defined.

Lemma flux_sample_reach5 : sys_reachable (∅, flux_init 4) 0 (sample_K5, sample_st5).
Proof.
  assert (latched (flux_pnt 0 sample_st3 sample_ctx).1 = [77] ++ latched sample_st3) as El by (by vm_compute).
  assert (kernel_msg sample_K4 (MSG_TASK_SWITCHTO 77 0) sample_K5) as K5
    by (by apply (km_switchto sample_K4 77 0 5 78 6)).
  pose proof (sys_next _ 0 0 _ _ flux_sample_reach3 (sys_pnt sample_K2 sample_st3 0 sample_ctx [77] El)) as R4.
  exact (sys_next _ 0 _ _ _ R4 (sys_msg sample_K4 sample_K5 sample_st4 4 _ K5)).
Defined.

(** Task 78 departs inside the chain: one cpu is wanted for nobody. *)
Lemma flux_sample_reach6 : sys_reachable (∅, flux_init 4) 1 (sample_K6, sample_st6).
Proof.
  assert (sample_K5 !! 78 = Some (TSwitched, 6)) as E by (by vm_compute).
  exact (sys_next _ 0 _ _ _ flux_sample_reach5
    (sys_msg sample_K5 sample_K6 sample_st5 5 _ (km_departed sample_K5 78 0 true false TSwitched 6 E))).
Defined.

Lemma flux_no_task_lost_witness :
  s_nr_cpus_wanted (scheds sample_st3 FLUX_SCHED_BIFF) = 1
  ∧ thread_core (threads sample_st3 6) = mk_core 77 1 FLUX_SCHED_BIFF true true false
  ∧ nr_wanting sample_K6 = 0 ∧ s_nr_cpus_wanted (scheds sample_st6 FLUX_SCHED_BIFF) = 1.
Proof.
  destruct (flux_no_task_lost 4 0 sample_K2 sample_st3 sample_contract flux_sample_reach3) as (_ & Ht & Hw).
  destruct (flux_no_task_lost 4 1 sample_K6 sample_st6 sample_contract flux_sample_reach6) as (_ & _ & Hw6).
  split_and!; [exact Hw| |by vm_compute|exact Hw6]. apply (Ht 77 TQueued 5). by vm_compute.
Defined.

Lemma flux_msg_refines_witness :
  ∃ a K, sys_inv 0 sample_K2 None sample_st3
    ∧ refines (flux_msg_send (mk_msg 9 (MSG_TASK_WAKEUP 78 false 0)) sample_st3)
        (a_msg (MSG_TASK_WAKEUP 78 false 0) a)
    ∧ tasks_inv 0 K None (a_msg (MSG_TASK_WAKEUP 78 false 0) a).
Proof.
  pose proof (reachable_sys_inv _ _ _ sample_contract flux_sample_reach3) as Hs.
  destruct (id Hs) as (a & Ha & Hi). exists a, (<[78 := (TQueued, 6)]> sample_K2).
  split; [exact Hs|].
  by apply (flux_msg_refines 0 sample_K2 (<[78 := (TQueued, 6)]> sample_K2) sample_st3 a 9
    (MSG_TASK_WAKEUP 78 false 0) Ha Hi), km_wakeup.
Defined.

Lemma flux_pnt_runs_queued_witness :
  latched sample_st4 = [77] ∧
  (latched sample_st4 = latched sample_st3
   ∨ ∃ g x, latched sample_st4 = g :: latched sample_st3 ∧ sample_K2 !! g = Some (TQueued, x)
            ∧ sys_reachable (∅, flux_init 4) 0 (task_run g sample_K2, sample_st4)).
Proof.
  split; [by vm_compute|].
  exact (flux_pnt_runs_queued 4 0 sample_K2 sample_st3 0 sample_ctx sample_contract flux_sample_reach3).
Defined.

Lemma sample_flux4 : flux_reachable (flux_init 4) sample_st4.
Proof.
  eapply reach_step; [|apply step_pnt]. eapply reach_step; [|apply step_msg].
  eapply reach_step; [|apply step_msg]. eapply reach_step; [|apply step_msg].
  eapply reach_step; [apply reach_init|apply step_init].
Defined.

Lemma sample_flux_idle : flux_reachable (flux_init 4) sample_idle2.
Proof.
  eapply reach_step; [|apply step_pnt]. eapply reach_step; [|apply step_msg].
  eapply reach_step; [apply reach_init|apply step_init].
Defined.

Lemma flux_cpu_accounting_witness : s_nr_cpus (scheds sample_st4 FLUX_SCHED_BIFF) = cpus_held sample_st4 FLUX_SCHED_BIFF
  ∧ s_nr_cpus (scheds sample_st4 FLUX_SCHED_BIFF) = 1.
Proof.
  assert (1 ≤ FLUX_SCHED_BIFF < FLUX_NR_SCHEDS) as Hs by done.
  split; [exact (proj1 (flux_cpu_accounting 4 sample_st4 sample_flux4) FLUX_SCHED_BIFF Hs)|by vm_compute].
Defined.

Lemma flux_preempt_up_to_tier_witness :
  sched_id_to_tier (cur sample_st4 1) = 2
  ∧ sched_id_to_tier (cur (flux_preempt_up_to 1 1 sample_st4) 1) = Z.min 1 (sched_id_to_tier (cur sample_st4 1)).
Proof.
  split; [by vm_compute|].
  assert (1 ∈ cpu_ids) as Hc by (by apply elem_of_cpu_ids).
  assert (0 ≤ 1 ≤ FLUX_TIER_NO_PREEMPT) as Ht by (unfold FLUX_TIER_NO_PREEMPT; lia).
  exact (proj1 (flux_preempt_up_to_tier 4 sample_st4 1 1 sample_flux4 Hc Ht)).
Defined.

Lemma flux_busy_releases_cpu_witness :
  cur sample_st4 1 = FLUX_SCHED_BIFF
  ∧ cur (flux_msg_send (mk_msg 8 (MSG_CPU_BUSY 0)) sample_st4) 1 = FLUX_SCHED_NONE.
Proof.
  split; [by vm_compute|].
  exact (proj1 (flux_busy_releases_cpu 4 sample_st4 8 0 1 sample_flux4 eq_refl)).
Defined.

Lemma flux_pnt_outcome_witness :
  dont_idle (flux_pnt 0 sample_idle2 sample_ctx).2 = false
  ∧ ∃ c, cpuid_to_cpu 0 = Some c ∧ cur (flux_pnt 0 sample_idle2 sample_ctx).1 c = FLUX_SCHED_IDLE.
Proof.
  assert (dont_idle (flux_pnt 0 sample_idle2 sample_ctx).2 = false) as E by (by vm_compute).
  split; [exact E|]. pose proof (flux_pnt_outcome 4 sample_idle2 0 sample_ctx sample_flux_idle) as Ho.
  destruct (flux_pnt 0 sample_idle2 sample_ctx) as [st' ctx']. destruct Ho as [Ho _].
  destruct (Ho E) as (c & Ec & Hc & _). by exists c.
Defined.

Lemma want_inv st : cpu_inv st → cpu_inv (upd_sched FLUX_SCHED_BIFF (set_s_nr_cpus_wanted 1) st).
Proof. intros Hi. eapply cpu_inv_proper; [|exact Hi]. by apply cf_upd_sched. Qed.

Lemma sample_idle_inv : cpu_inv sample_idle3.
Proof. apply want_inv, (reachable_cpu_inv 4), sample_flux_idle. Defined.

Lemma sample_idle_list : roci_idle sample_idle3 [1].
Proof.
  split; [apply NoDup_singleton|by repeat constructor|by vm_compute|by vm_compute|by vm_compute].
Defined.

Lemma roci_request_preempts_witness :
  flux_sched_nr_cpus_needed sample_idle3 FLUX_SCHED_BIFF = 1
  ∧ (roci_request_for_cpus FLUX_SCHED_ROCI FLUX_SCHED_BIFF 1 sample_idle3).2 = 1
  ∧ c_id (cpus sample_idle3 1) ∈ rescheds (roci_request_for_cpus FLUX_SCHED_ROCI FLUX_SCHED_BIFF 1 sample_idle3).1.
Proof.
  split; [by vm_compute|].
  pose proof (roci_request_preempts sample_idle3 1 [1] sample_idle_inv sample_idle_list) as Hr.
  destruct (roci_request_for_cpus _ _ _ _) as [st' ret]. destruct Hr as (-> & _ & Hk).
  split; [by vm_compute|]. assert (preempt_to (cpus sample_idle3 1) > 1) as Hgt by (by vm_compute).
  refine (proj2 (proj2 (Hk 1 _)) Hgt). by left.
Defined.
